(* ===== verification/_CoqProject ===== *)
-Q . S2P
Prelude.v
Utils.v
UtilsProofs.v
DataStream.v
DataStreamProofs.v
Unicode.v
UnicodeProofs.v
HashMap.v
HashMapProofs.v
ObjectIdRing.v
ObjectIdRingProofs.v
Random.v
MessageQueue.v
MessageQueueProofs.v
MessageHandler.v
MessageHandlerProofs.v
PortMap.v
PortMapProofs.v
Messaging.v
MessagingProofs.v
MipsConstants.v
HostFloat.v
MipsState.v
MipsSimulator.v
MipsCalls.v
MipsExclusive.v
MipsAssembler.v
MipsLabels.v
MipsMacros.v
MipsEncoding.v
MipsIsa.v
MipsExec.v
MipsMacroProofs.v
MipsBranchProofs.v
MipsConditionProofs.v
MipsBindProofs.v
MipsInvariants.v
MipsCallProofs.v
MipsExclusiveProofs.v
MipsFarProofs.v
MipsWitnesses.v
Locations.v
ParallelMove.v
ParallelMoveProofs.v
MipsParallelMove.v
MipsRun.v
MipsMoveProofs.v
MipsParallelMoveProofs.v
MipsSwapProofs.v
MipsParallelMoveRun.v
BitSet.v
BitSetProofs.v
Token.v
Scanner.v
ScannerProofs.v
ScannerSim.v
ScannerStreams.v
TokenStream.v
TokenStreamProofs.v
ScriptProofs.v
ScriptTables.v
ScannerText.v
BitVector.v
BitVectorProofs.v
Liveness.v
LivenessProofs.v
VariableLivenessProofs.v
FreeList.v
FreeListProofs.v
FreeListAllocProofs.v
FreeListSafety.v
FlowGraph.v
Ranges.v
RangeAnalysis.v
RangeProofs.v
RangeOpProofs.v
RangeAnalysisProofs.v
RangeInferProofs.v
RangeIterateProofs.v
RangeWitnesses.v
