(* ===== verification/Prelude.v ===== *)
(** * The Dart virtual machine: a verification development

    The subject is C++ code of the Dart virtual machine under [src/dart/runtime]:
    its MIPS backend (the assembler that emits code and the simulator that runs it on
    other hosts), the parallel moves, the liveness and the range analysis of its optimizing
    compiler, the scanner with the token streams and the locations of scripts, the free list
    of its heap, and the parts of the runtime that carry logic of their own, from the integer
    helpers to the delivery of messages between isolates.

    ** How the code is modelled

    A C++ function is a Rocq function with the same name; the object it changes is a
    record it takes and returns.  A function that can stop returns an [outcome]: a
    failed [ASSERT] (debug builds are modelled), an access to memory that is not
    there or protected, an unimplemented instruction.  Integers are [Z]; [to_u w] and [to_s w]
    are the conversions to the [w]-bit types, written wherever the code converts or
    wraps.  A pointer is an index or an address, 0 for the null pointer.  A loop
    that is not structural takes fuel and ends in [Err OutOfFuel] without it; the
    theorems state results for the fuel the model passes, so they show that the
    loops end.  Virtual functions, callbacks, allocators and the host's functions
    are arguments.

    ** The parts

    - [Prelude]: outcomes, machine integers, bitwise arithmetic, circular tables.
    - [Utils] ([platform/utils.h], [platform/utils.cc], [vm/bitfield.h]): alignment,
      powers of two, overflow and range checks, bit fields.  [UtilsProofs]: the bit
      fields, rounding and the checks are exact.
    - [DataStream] ([vm/datastream.h]): the variable length integers of snapshots
      and messages.  [DataStreamProofs]: any sequence of values is read back.
    - [Unicode] ([vm/unicode.h], [vm/unicode.cc] and the code point iterator of
      [vm/object.cc]).  [UnicodeProofs]: decoding inverts encoding, validation
      accepts exactly the encodings of code points, the conversions between UTF-8
      and UTF-16 preserve the text; one overrun of the destination is exhibited.
    - [HashMap] ([platform/hashmap.h], [platform/hashmap.cc]).  [HashMapProofs]: the
      open addressing table implements a finite map, over the interface [MatchFun]
      of what it relies on; every search, resize and removal ends.
    - [ObjectIdRing] ([vm/object_id_ring.h], [vm/object_id_ring.cc]).
      [ObjectIdRingProofs]: the ring is a window over the history of objects, across
      wrap-arounds of the ids.
    - [Random] ([vm/random.h], [vm/random.cc]): the multiply-with-carry generator is
      multiplication in a field, without overflow.
    - [MessageQueue] ([vm/message.h], [vm/message.cc]): messages linked in a heap.
      [MessageQueueProofs]: the queue implements a sequence, by list segments.
    - [MessageHandler] ([vm/message_handler.h], [vm/message_handler.cc]): posting, the
      message loop, the task that serves a handler.  What happens while the monitor
      is released is a script of actions of other threads.  [MessageHandlerProofs]:
      the loop ends and delivers each message once, and no message waits without a
      task, in every reachable state.
    - [PortMap] ([vm/port.h], [vm/port.cc]): the table of ports.  [PortMapProofs]: it
      implements a finite map, and its load invariant ends its searches; negative port
      numbers read outside of the table.
    - [Messaging]: ports, handlers and queues together ([PortMap::PostMessage],
      [PortMap::ClosePort], [MessageQueue::Clear]).  [MessagingProofs]: a message
      reaches the queue of the handler of its port; clearing a queue, and where it
      fails.
    - [BitSet] ([vm/bit_set.h]).  [BitSetProofs]: it implements a set of numbers, with
      the searches for the next and the last member.
    - [Token] ([vm/token.h], [vm/token.cc]): the kinds of tokens.  [Scanner]
      ([vm/scanner.h], [vm/scanner.cc]): the source as a list of UTF-16 units, the state
      with its contexts of nested string interpolations, every kind of token, and the
      streams with the tokens that [ScanAll] inserts to count lines.
    - [ScannerProofs]: [position_at] counts the line ends before an offset; every operation
      returns, reads forward and keeps the position of its token; the search in the table
      of keywords is exact.  [ScannerSim]: scanners that differ in stale fields or in the
      library key scan the same tokens.  [ScannerStreams]: every source is scanned to its
      end, newline tokens count the lines, [ScanTo] finds a token by its index,
      tokens have the literals that they need.  [ScannerText]: words that are printed with
      white space are scanned back; a comment that is closed early.
    - [TokenStream] ([TokenStream] and [Script] of [vm/object.h] and [vm/object.cc]): the
      compression of tokens into a data stream and an array of objects, the iterator, the
      locations, lines and tables of a script.  [TokenStreamProofs]: the iterator reads
      back the tokens.  [ScriptProofs]: the line and the column of a token are found again
      from its position in the stream; the text of a line, and where it fails.
      [ScriptTables]: the tokens of a line, the table of lines of the debugger.
    - [BitVector] ([vm/bit_vector.h], [vm/bit_vector.cc]).  [BitVectorProofs]: it
      implements a set of numbers below its length; each bulk operation is its set
      operation and reports whether it changed anything; the iterator visits the members
      in order; two empty vectors of length 0 that compare as different.
    - [Liveness] ([LivenessAnalysis] and [VariableLivenessAnalysis] of
      [vm/flow_graph.cc], the indices of [vm/scopes.cc]): the initial sets of loads and
      stores, the iteration to a fixed point, the queries for dead stores and last loads.
      [LivenessProofs]: for any initial sets the iteration ends with the sets of variables
      that some path uses before it kills them.  [VariableLivenessProofs]: for local
      variables, a set holds a variable exactly when a path of instructions loads it
      before it stores it; a store is found dead exactly when no path loads its value.
    - [FreeList] ([vm/freelist.h], [vm/freelist.cc], the protection of
      [vm/virtual_memory_linux.cc], the tags of [vm/raw_object.h]): elements in the words
      of a memory whose pages can be protected ([Paging]), the bins of small sizes and the
      list of large ones.  [FreeListProofs]: the representation [rep] of the bins by the
      memory, headers, enqueueing and dequeueing.  [FreeListAllocProofs]: splitting and
      the three ways an allocation is served.  [FreeListSafety]: sequences of frees and
      allocations never hand out a word twice; a page that stays writable.
    - [FlowGraph] ([vm/intermediate_language.h]): definitions as the range analysis
      reads them.  [Ranges] ([RangeBoundary] and [Range] of
      [vm/flow_graph_range_analysis.h]): boundaries that are constants, infinities or
      [definition + offset], and the arithmetic of ranges.  [RangeAnalysis]: constraints,
      [InferRange] of each instruction, joins, widening and narrowing, the iteration, the
      elimination of bound checks.
    - [RangeProofs], [RangeOpProofs], [RangeAnalysisProofs]: a run of the program is a
      valuation of the definitions that [agrees] with the instructions and ranges of a
      well formed graph ([wf], over a [Layout] that ranks definitions so that symbols
      refer to lower ranks).  Every walk along symbols ends; boundaries, transfer
      functions and constraints contain the values; a bound check that is removed as
      redundant would pass, for any generalizer that keeps the interface [Generalizer].
      [RangeInferProofs]: overflow checks, joins and widening.
      [RangeIterateProofs]: the iteration keeps the graph well formed.
      [RangeWitnesses]: concrete graphs, and runs where [Join], [Mul] and [Shr] lose a
      value.
    - [MipsConstants] ([vm/constants_mips.h]): registers, opcodes, instruction fields.
    - [HostFloat]: the host's IEEE arithmetic on bit patterns, over [SpecFloat].
    - [MipsState], [MipsSimulator] ([vm/simulator_mips.h], [vm/simulator_mips.cc]): the
      machine state, the memory, the decoder and every instruction, delay slots, calls
      into the host.  [MipsCalls]: [Simulator::Call] and the redirections.
      [MipsExclusive]: the exclusive access tags shared by the threads.
    - [MipsAssembler], [MipsLabels], [MipsMacros] ([vm/assembler_mips.h],
      [vm/assembler_mips.cc], [vm/assembler.h], [vm/assembler.cc]): the code buffer and
      the instructions, labels with their chains of waiting branches, near and far
      branches and fixups, the macro instructions.
    - [MipsEncoding], [MipsIsa], [MipsExec]: fields of emitted words, the instruction
      set as one type with its meaning and the instructions that the simulator rejects, and
      the execution of emitted code.
    - [MipsMacroProofs], [MipsConditionProofs]: what the macros compute, which way the
      conditional branches go, what the write barrier filters.
    - [MipsBranchProofs], [MipsBindProofs], [MipsFarProofs]: a near branch emitted before
      its label is bound is executed as a branch to it; a far branch to a bound label, once
      relocated, as well, except for the far branches on the floating point condition, which
      go the other way.
    - [MipsInvariants], [MipsCallProofs], [MipsExclusiveProofs]: the invariant that every
      step keeps and the fuel of the decoder, preserved registers, the guarantee of
      store-conditional.
    - [MipsWitnesses]: concrete runs at which the theorems of the MIPS parts apply.
    - [Locations] ([vm/locations.h]): registers, stack slots and constants as the words
      that the register allocator hands to the code generator.
    - [ParallelMove] ([vm/flow_graph_compiler.cc], [MoveOperands] of
      [vm/intermediate_language.h]): assignments that are meant to happen at once, turned
      into moves and swaps by a depth-first walk; the target's [EmitMove] and [EmitSwap]
      are the class [MoveTarget].  [ParallelMoveProofs]: for a target that keeps the
      promises of [MoveTargetOk], the code performs every assignment and leaves the other
      locations alone.
    - [MipsParallelMove] ([vm/flow_graph_compiler_mips.cc], the object pool of
      [vm/assembler.cc], [LoadObject] of [vm/assembler_mips.cc]): the moves and swaps of
      MIPS, with scratch registers that are found among the destinations or spilled.
    - [MipsRun]: straight-line code that accesses memory, run by the simulator.
      [MipsMoveProofs]: locations of a frame in the state of the simulator, the macros and
      the scratch scopes; [MipsParallelMoveProofs]: every move; [MipsSwapProofs]: every
      swap.  [MipsParallelMoveRun]: the target keeps its promises, so the simulator
      running the emitted words performs the parallel move; a swap of slots with
      different base registers, which does not exchange them.

    ** How they fit together

    The assembler's words are in a buffer; [MipsExec] loads them into the simulator's
    memory, where [MipsSimulator] decodes them: the agreement theorem of [MipsIsa] links the
    two, and the macro and branch theorems are proved against it.  In the runtime, [PortMap]
    finds a handler, [MessageHandler] puts the message into one of its queues,
    [MessageQueue] links it; [Messaging] composes the three, and the theorems of each are
    the interface the next is proved against.  [PortMap] draws its ports from [Random];
    [HashMap] and [PortMap] share the circular distance of the prelude.  [FreeList] finds a
    bin with [BitSet], and its proofs use the set only through [BitSetProofs].  [Scanner]
    decodes and encodes characters with [Unicode]; [TokenStream] writes the tokens of
    [Scanner] with [DataStream] and is proved against the round trip of unsigned integers
    there.  The hash table of token objects is the list of its entries, an entry being found
    by its key.  A script scans its source again for a column: the theorems about locations
    join the stream of one scanner, the compressed tokens and the run of another scanner.
    [Liveness] keeps its sets in [BitVector], and its proofs see only their members; the
    iteration is proved for initial sets that are arguments, and variable liveness supplies
    them.  [ParallelMove] is proved against the class [MoveTargetOk]; the MIPS target
    discharges it with what the simulator does on the code of the assembler.
    [RangeAnalysis] infers over [Ranges], and [Ranges] asks [FlowGraph] for the ranges of
    symbols; the soundness of the iteration uses the lemmas of the transfer functions, the
    removal of checks those of the boundaries.

    ** Fuel

    The simulator decodes with a depth of two, as a delay slot holds no jump.  Binding a
    label takes one round per word of the buffer.  A search in a table takes one round per
    entry.  A queue is walked with the number of messages in the heap, which bounds its
    length.  The message loop takes a round per message in the queues or posted meanwhile.
    A loop of the scanner over characters takes a round per unit of the source
    ([char_fuel]); a token takes at least one unit, or ends a string literal with an error
    and then another ([token_fuel]).  A loop over a token stream takes a round per byte, as
    a token has at least one ([byte_fuel]).  A 64-bit integer has ten groups of seven bits.
    A walk along a list of free elements takes one round per word of memory ([list_fuel]),
    as elements do not overlap; a search in a bit set takes one round per word of the set.
    The iterator of a bit vector takes one round per word, and per bit of a word.  A round
    of the liveness iteration that changes something adds a member to a set, so there are at
    most as many as blocks times variables, and one.  A nested call of [PerformMove] has one
    more pending move, so its depth is at most the number of moves.  A walk along
    constraints or symbols takes one round per definition, as ranks decrease; the comparison
    of two boundaries rewrites each of them at most that often.  [Iterate] takes its bound
    on the number of iterations, which the code passes, as an argument.

    ** Not modelled

    The simulator's debugger and tracing, and printing to JSON streams: terminal and service
    I/O.  The frames and stub calls of the MIPS macros: they need the object model.
    Parallel moves of quad slots, which MIPS does not have; the theorem about them is for
    slots at the frame pointer, as in compiled functions, and not for the slots at the stack
    pointer of intrinsics.  The other backends, the object model, the parser, the values of
    number literals and the source text that is generated from tokens, the construction and
    the other optimizations of the flow graph, the garbage collector except for the free
    list, live ranges and the register allocator, snapshots of objects, the embedder and the
    core library: large parts over the heap layout of objects, or operating system calls.
    Of the range analysis: collecting definitions and inserting constraints, which change
    the graph; the scheduler and the generalization of bound checks, which the elimination
    of bound checks takes as an argument; the choice of narrower representations.  The
    thread pool: operating system threads; its tasks are runs of [TaskCallback].  Out-of-
    band messages that a mutator handles inside of [HandleMessage]: the actions of a
    script do not nest. *)
From stdpp Require Import base numbers list.
From Stdlib Require Import ZArith Lia Bool.
#[export] Set Default Goal Selector "!".
#[local] Open Scope Z_scope.

(** The hints of the development: ranges of values and frames of the machine
    state. *)
Create HintDb mips.

(** * Outcomes

    An operation of the VM either returns or stops.  [ASSERT] is modelled as
    in a debug build: a failing assertion is an outcome of its own. *)
Inductive vm_error : Type :=
| AssertionFailed
| Unreachable
| UnimplementedInstruction
| IllegalAccess (addr : Z)
| UnalignedAccess (addr : Z)
| HostFault (addr : Z)
| DebuggerStop (code : Z)
| LongJump (code : Z)
| Fatal
| OutOfMemory
| OutOfFuel.

Inductive outcome (A : Type) : Type :=
| Ok (a : A)
| Err (e : vm_error).
Arguments Ok {A} a.
Arguments Err {A} e.

#[export] Instance vm_error_eq_dec : EqDecision vm_error.
Proof. solve_decision. Defined.

Definition obind {A B} (m : outcome A) (f : A -> outcome B) : outcome B :=
  match m with
  | Ok a => f a
  | Err e => Err e
  end.

Declare Scope vm_scope.
Delimit Scope vm_scope with vm.
Notation "'let*' p ':=' m 'in' k" := (obind m (fun p => k))
  (at level 10, p pattern, m at level 99, k at level 200,
   format "'[v' 'let*'  p  ':='  m  'in' '/' k ']'") : vm_scope.
Notation "'ASSERT' b ';;' k" :=
  (if b%bool then k else Err AssertionFailed)
  (at level 10, b at level 99, k at level 200,
   format "'[v' 'ASSERT'  b  ';;' '/' k ']'") : vm_scope.
#[export] Set Warnings "-notation-overridden".
#[global] Open Scope vm_scope.

(** [returns m P]: the run ends without an error, with a value that satisfies [P]. *)
Definition returns {A} (m : outcome A) (P : A -> Prop) : Prop := exists a, m = Ok a /\ P a.

Lemma returns_Ok {A} (a : A) (P : A -> Prop) : P a -> returns (Ok a) P.
Proof. intros; exists a; done. Qed.

Lemma returns_bind {A B} (m : outcome A) (f : A -> outcome B) P Q :
  returns m P -> (forall a, P a -> returns (f a) Q) -> returns (obind m f) Q.
Proof. intros (a & -> & Ha) H; apply H, Ha. Qed.

Lemma returns_bind_assoc {A B C} (m : outcome A) (f : A -> outcome B) (k : B -> outcome C) P Q :
  returns (obind m f) P -> (forall b, P b -> returns (k b) Q) ->
  returns (obind m (fun a => obind (f a) k)) Q.
Proof. intros (b & E & Hb) H; destruct m as [a |]; [cbn in *; rewrite E; apply H, Hb | done]. Qed.

Lemma returns_mono {A} (m : outcome A) (P Q : A -> Prop) :
  returns m P -> (forall a, P a -> Q a) -> returns m Q.
Proof. intros (a & -> & Ha) H; exists a; auto. Qed.

Lemma returns_assert {A} (b : bool) (m : outcome A) P :
  b = true -> returns m P -> returns (ASSERT b ;; m) P.
Proof. intros ->; done. Qed.

Lemma returns_inv {A} (m : outcome A) (P : A -> Prop) a : returns m P -> m = Ok a -> P a.
Proof. intros (a' & -> & Ha) [= ->]; done. Qed.

(** The next call of a run, by its specification [H]. *)
Ltac call H := eapply returns_bind; [eapply H | cbn beta].
Tactic Notation "call" uconstr(H) "as" simple_intropattern_list(p) :=
  eapply returns_bind; [eapply H | cbn beta; intros p].

(** * Machine integers

    A [w]-bit integer is a [Z]; [to_u w] and [to_s w] are the conversions to
    the unsigned and the two's-complement [w]-bit type. *)
Definition to_u (w z : Z) : Z := z mod 2 ^ w.
Definition to_s (w z : Z) : Z := (z + 2 ^ (w - 1)) mod 2 ^ w - 2 ^ (w - 1).

Definition in_u (w z : Z) : Prop := 0 <= z < 2 ^ w.
Definition in_s (w z : Z) : Prop := - 2 ^ (w - 1) <= z < 2 ^ (w - 1).

Abbreviation int32 := (to_s 32).
Abbreviation uint32 := (to_u 32).
Abbreviation int64 := (to_s 64).
Abbreviation uint64 := (to_u 64).

#[export] Instance in_u_dec w z : Decision (in_u w z).
Proof. unfold in_u; apply _. Defined.
#[export] Instance in_s_dec w z : Decision (in_s w z).
Proof. unfold in_s; apply _. Defined.

Lemma pow2_pos w : 0 <= w -> 0 < 2 ^ w.
Proof. intros; apply Z.pow_pos_nonneg; lia. Qed.

Lemma pow2_split w : 0 < w -> 2 ^ w = 2 * 2 ^ (w - 1).
Proof. intros; rewrite <- Z.pow_succ_r by lia; f_equal; lia. Qed.

Lemma to_u_range w z : 0 <= w -> in_u w (to_u w z).
Proof. intros; apply Z.mod_pos_bound, pow2_pos; lia. Qed.

Lemma to_s_range w z : 0 < w -> in_s w (to_s w z).
Proof.
  intros; unfold in_s, to_s; pose proof (pow2_split w ltac:(lia)).
  pose proof (Z.mod_pos_bound (z + 2 ^ (w - 1)) (2 ^ w) (pow2_pos w ltac:(lia))).
  lia.
Qed.

Lemma to_u_id w z : in_u w z -> to_u w z = z.
Proof. intros; apply Z.mod_small; assumption. Qed.

Lemma to_s_id w z : 0 < w -> in_s w z -> to_s w z = z.
Proof.
  unfold in_s, to_s; intros; pose proof (pow2_split w ltac:(lia)).
  rewrite Z.mod_small; lia.
Qed.

Lemma to_s_cong w z : 0 < w -> exists k, to_s w z = z + k * 2 ^ w.
Proof.
  intros; unfold to_s; exists (- ((z + 2 ^ (w - 1)) / 2 ^ w)).
  pose proof (Z.div_mod (z + 2 ^ (w - 1)) (2 ^ w)
                ltac:(pose proof (pow2_pos w); lia)); lia.
Qed.

Lemma to_s_mod w z : 0 < w -> to_s w z mod 2 ^ w = z mod 2 ^ w.
Proof.
  intros H; destruct (to_s_cong w z H) as [k ->]; apply Z_mod_plus_full.
Qed.

Lemma to_s_eq w a b : 0 < w -> a mod 2 ^ w = b mod 2 ^ w -> to_s w a = to_s w b.
Proof.
  intros Hw H; unfold to_s; f_equal.
  pose proof (pow2_pos w ltac:(lia)).
  rewrite (Z.add_mod a), (Z.add_mod b) by lia; congruence.
Qed.

Lemma to_s_to_u w z : 0 < w -> to_s w (to_u w z) = to_s w z.
Proof.
  intros; apply to_s_eq; [lia |]; unfold to_u; apply Zmod_mod.
Qed.

Lemma to_u_to_s w z : 0 < w -> to_u w (to_s w z) = to_u w z.
Proof. apply to_s_mod. Qed.

Lemma to_s_to_s w z : 0 < w -> to_s w (to_s w z) = to_s w z.
Proof. intros; apply to_s_id, to_s_range; lia. Qed.

Lemma to_u_to_u w z : to_u w (to_u w z) = to_u w z.
Proof. apply Zmod_mod. Qed.

(** Arithmetic may be done before or after the conversion. *)
Lemma to_s_add_l w a b : 0 < w -> to_s w (to_s w a + b) = to_s w (a + b).
Proof.
  intros; destruct (to_s_cong w a) as [k ->]; [lia |].
  apply to_s_eq; [lia |].
  replace (a + k * 2 ^ w + b) with (a + b + k * 2 ^ w) by lia.
  apply Z_mod_plus_full.
Qed.

Lemma to_s_add_r w a b : 0 < w -> to_s w (a + to_s w b) = to_s w (a + b).
Proof. intros; rewrite Z.add_comm, to_s_add_l, Z.add_comm by lia; done. Qed.

Lemma to_u_add_l w a b : to_u w (to_u w a + b) = to_u w (a + b).
Proof. unfold to_u; apply Zplus_mod_idemp_l. Qed.

Lemma to_u_add_r w a b : to_u w (a + to_u w b) = to_u w (a + b).
Proof. unfold to_u; apply Zplus_mod_idemp_r. Qed.

Lemma to_u_sub_l w a b : to_u w (to_u w a - b) = to_u w (a - b).
Proof. unfold to_u; apply Zminus_mod_idemp_l. Qed.

(** A pure congruence: two integers of the same signed width that agree
    modulo [2 ^ w] are equal. *)
Lemma in_s_inj w a b :
  0 < w -> in_s w a -> in_s w b -> to_u w a = to_u w b -> a = b.
Proof.
  intros Hw Ha Hb H.
  rewrite <- (to_s_id w a), <- (to_s_id w b) by auto.
  apply to_s_eq; auto.
Qed.

(** * Bits *)
Lemma testbit_to_u w z i :
  0 <= w -> Z.testbit (to_u w z) i = (i <? w) && Z.testbit z i.
Proof.
  intros; unfold to_u; destruct (Z.ltb_spec i w).
  - rewrite Z.mod_pow2_bits_low; auto.
  - rewrite Z.mod_pow2_bits_high; auto.
Qed.

Lemma testbit_to_s_low w z i :
  0 < w -> i < w -> Z.testbit (to_s w z) i = Z.testbit z i.
Proof.
  intros; destruct (decide (i < 0)).
  { rewrite !Z.testbit_neg_r; auto. }
  rewrite <- (Z.mod_pow2_bits_low (to_s w z) w), to_s_mod, Z.mod_pow2_bits_low; auto.
Qed.

(** The sign of a [w]-bit integer is its top bit. *)
Lemma in_s_sign w z :
  0 < w -> in_s w z -> (z <? 0) = Z.testbit z (w - 1).
Proof.
  unfold in_s; intros Hw Hz; pose proof (pow2_pos (w - 1) ltac:(lia)).
  destruct (Z.ltb_spec z 0); symmetry.
  - apply Z.testbit_true; [lia |].
    rewrite <- (Z.div_unique z (2 ^ (w - 1)) (-1) (z + 2 ^ (w - 1))) by lia; done.
  - apply Z.testbit_false; [lia |].
    rewrite Z.div_small by lia; done.
Qed.

Lemma testbit_in_s_high w z i :
  0 < w -> in_s w z -> w - 1 <= i -> Z.testbit z i = (z <? 0).
Proof.
  unfold in_s; intros Hw Hz Hi.
  assert (2 ^ (w - 1) <= 2 ^ i) by (apply Z.pow_le_mono_r; lia).
  destruct (Z.ltb_spec z 0).
  - apply Z.testbit_true; [lia |].
    rewrite <- (Z.div_unique z (2 ^ i) (-1) (z + 2 ^ i)) by lia; done.
  - apply Z.testbit_false; [lia |].
    rewrite Z.div_small by lia; done.
Qed.

Lemma land_ones_u w z : 0 <= w -> Z.land z (Z.ones w) = to_u w z.
Proof. intros; apply Z.land_ones; lia. Qed.

(** Disjoint bit fields are added. *)
Lemma lor_disjoint_add a b : Z.land a b = 0 -> Z.lor a b = a + b.
Proof.
  intros H; rewrite <- Z.lxor_lor by done; symmetry; apply Z.add_nocarry_lxor; done.
Qed.

Lemma land_shiftl_low a b n : 0 <= n -> 0 <= b < 2 ^ n -> Z.land (Z.shiftl a n) b = 0.
Proof.
  intros; apply Z.bits_inj'; intros i Hi.
  rewrite Z.land_spec, Z.bits_0, Z.shiftl_spec by lia.
  destruct (Z.ltb_spec i n).
  - rewrite (Z.testbit_neg_r a) by lia; done.
  - rewrite <- (Z.mod_small b (2 ^ n)), Z.mod_pow2_bits_high by lia.
    apply andb_false_r.
Qed.

Lemma lor_shiftl_add a b n :
  0 <= n -> 0 <= b < 2 ^ n -> Z.lor (Z.shiftl a n) b = a * 2 ^ n + b.
Proof.
  intros; rewrite lor_disjoint_add, Z.shiftl_mul_pow2 by
    (lia || apply land_shiftl_low; lia); done.
Qed.

(** A number is in the type when its bits from the sign bit on are equal. *)
Lemma in_s_of_high w z :
  0 < w -> (forall i, w - 1 <= i -> Z.testbit z i = Z.testbit z (w - 1)) -> in_s w z.
Proof.
  intros Hw H.
  assert (in_s w (to_s w z)) as Hr by (apply to_s_range; lia).
  assert (z = to_s w z) as ->; [| done].
  apply Z.bits_inj'; intros i Hi; destruct (decide (i < w)).
  { rewrite testbit_to_s_low; auto with lia. }
  rewrite H by lia.
  rewrite (testbit_in_s_high w (to_s w z)), (in_s_sign w) by (done || lia).
  rewrite testbit_to_s_low by lia; done.
Qed.

(** A bitwise operation stays in a signed type. *)
Lemma bitwise_in_s (op : Z -> Z -> Z) (f : bool -> bool -> bool) w x y :
  (forall x y i, 0 <= i -> Z.testbit (op x y) i = f (Z.testbit x i) (Z.testbit y i)) ->
  0 < w -> in_s w x -> in_s w y -> in_s w (op x y).
Proof.
  intros Hop Hw Hx Hy; apply in_s_of_high; [lia |]; intros i Hi; rewrite !Hop by lia.
  rewrite !(testbit_in_s_high w x), !(testbit_in_s_high w y) by (lia || done); done.
Qed.

(** * Circular tables *)
(** The steps from position [a] to [b] of a table of [N] entries, around its end. *)
Definition dist (N a b : Z) : Z := if a <=? b then b - a else b - a + N.
