(* ===== verification/Utils.v ===== *)
(** The integer helpers of [platform/utils.h] and [platform/utils.cc] and the
    bit fields of [vm/bitfield.h].

    A template parameter [T] is the width of the integer where the operation
    can wrap around; a [uword] is [bits] wide, 32 or 64. *)
From stdpp Require Import base numbers list.
From Stdlib Require Import ZArith Lia Bool.
From S2P Require Import Prelude.
#[local] Open Scope Z_scope.

(** ** Machine words ([platform/globals.h]): the width of a word of the target *)
Class Word := { kBitsPerWord : Z; word_width : kBitsPerWord = 32 \/ kBitsPerWord = 64 }.

Definition word32 : Word := {| kBitsPerWord := 32; word_width := or_introl eq_refl |}.
Definition word64 : Word := {| kBitsPerWord := 64; word_width := or_intror eq_refl |}.

Definition kWordSize `{Word} : Z := kBitsPerWord / 8.
Definition kWordSizeLog2 `{Word} : Z := if kBitsPerWord =? 64 then 3 else 2.
Definition kBitsPerWordLog2 `{Word} : Z := kWordSizeLog2 + 3.

(** [Utils::CountTrailingZeros], [Utils::CountLeadingZeros]: compiler builtins, which
    are undefined on 0. *)
Fixpoint trailing_zeros (p : positive) : Z :=
  match p with xO p => 1 + trailing_zeros p | _ => 0 end.

Definition CountTrailingZeros (x : Z) : Z :=
  match x with Zpos p => trailing_zeros p | _ => 0 end.

Definition CountLeadingZeros `{Word} (x : Z) : Z := kBitsPerWord - 1 - Z.log2 x.

(** ** Comparisons, alignment, powers of two *)
Definition Minimum (x y : Z) : Z := if x <? y then x else y.
Definition Maximum (x y : Z) : Z := if x >? y then x else y.

(** [Abs<T>]: [-x] is computed in the signed [w]-bit type. *)
Definition Abs (w x : Z) : Z := if x <? 0 then to_s w (- x) else x.

Definition IsPowerOfTwo (x : Z) : bool :=
  (Z.land x (x - 1) =? 0) && negb (x =? 0).

(** The loop of [ShiftForPowerOfTwo]: [while (x > 1) { num_shifts++; x >>= 1; }]. *)
Fixpoint shift_loop (fuel : nat) (num_shifts x : Z) : outcome Z :=
  if x >? 1 then
    match fuel with
    | O => Err OutOfFuel
    | S fuel => shift_loop fuel (num_shifts + 1) (Z.shiftr x 1)
    end
  else Ok num_shifts.

Definition ShiftForPowerOfTwo (fuel : nat) (x : Z) : outcome Z :=
  ASSERT IsPowerOfTwo x ;; shift_loop fuel 0 x.

Definition IsAligned (x n : Z) : outcome bool :=
  ASSERT IsPowerOfTwo n ;; Ok (Z.land x (n - 1) =? 0).

(** [RoundDown<T>(x, n)]: [x & -n], in a [w]-bit unsigned type. *)
Definition RoundDown (w x n : Z) : outcome Z :=
  ASSERT IsPowerOfTwo n ;; Ok (Z.land x (to_u w (- n))).

Definition RoundUp (w x n : Z) : outcome Z := RoundDown w (to_u w (x + n - 1)) n.

(** [bits] is the width of [uintptr_t]: the step by 32 is compiled on 64-bit
    targets only. *)
Definition RoundUpToPowerOfTwo (bits x : Z) : Z :=
  let x := to_u bits (x - 1) in
  let x := Z.lor x (Z.shiftr x 1) in
  let x := Z.lor x (Z.shiftr x 2) in
  let x := Z.lor x (Z.shiftr x 4) in
  let x := Z.lor x (Z.shiftr x 8) in
  let x := Z.lor x (Z.shiftr x 16) in
  let x := if bits =? 64 then Z.lor x (Z.shiftr x 32) else x in
  to_u bits (x + 1).

Definition CountOneBits (x : Z) : Z :=
  let x := uint32 (x - Z.land (Z.shiftr x 1) 0x55555555) in
  let x := uint32 (Z.land x 0x33333333 + Z.land (Z.shiftr x 2) 0x33333333) in
  let x := Z.land (uint32 (x + Z.shiftr x 4)) 0x0F0F0F0F in
  let x := uint32 (x + Z.shiftr x 8) in
  let x := uint32 (x + Z.shiftr x 16) in
  Z.land x 0x3F.

(** One probe of [HighestBit]: [if ((t = x >> k) != 0) { x = t; r += k; }]. *)
Definition highest_bit_probe (k : Z) (xr : Z * Z) : Z * Z :=
  let '(x, r) := xr in
  let t := Z.shiftr x k in
  if negb (t =? 0) then (t, r + k) else (x, r).

Definition HighestBit (v : Z) : Z :=
  let x := uint64 (if v >? 0 then v else int64 (- v)) in
  let xr := highest_bit_probe 32 (x, 0) in
  let xr := highest_bit_probe 16 xr in
  let xr := highest_bit_probe 8 xr in
  let xr := highest_bit_probe 4 xr in
  let '(x, r) := highest_bit_probe 2 xr in
  if x >? 1 then r + 1 else r.

Definition BitLength (value : Z) : Z :=
  let value := Z.lxor value (Z.shiftr value 63) in
  if value =? 0 then 0 else HighestBit value + 1.

(** ** Ranges of machine integers

    The assertions on [N] are on the template arguments: every use has a
    constant [N] smaller than the width of the value. *)
Definition IsInt (N value : Z) : bool :=
  let limit := Z.shiftl 1 (N - 1) in (- limit <=? value) && (value <? limit).

Definition IsUint (N value : Z) : bool :=
  let limit := Z.shiftl 1 N in (0 <=? value) && (value <? limit).

Definition IsAbsoluteUint (w N value : Z) : bool :=
  let value := if value <? 0 then to_s w (- value) else value in IsUint N value.

Definition Low16Bits (value : Z) : Z := int32 (Z.land value 0xffff).
Definition High16Bits (value : Z) : Z := int32 (Z.shiftr value 16).
Definition Low32Bits (value : Z) : Z := int32 value.
Definition High32Bits (value : Z) : Z := int32 (Z.shiftr value 32).

(** [low] is a [uint32_t], [high] an [int32_t]; the result is an [int64_t]. *)
Definition LowHighTo64Bits (low high : Z) : Z :=
  Z.lor (int64 (Z.shiftl high 32)) (Z.land low 0xffffffff).

(** ** Digits *)
Definition IsDecimalDigit (c : Z) : bool := (48 <=? c) && (c <=? 57).

Definition IsHexDigit (c : Z) : bool :=
  IsDecimalDigit c || ((65 <=? c) && (c <=? 70)) || ((97 <=? c) && (c <=? 102)).

Definition HexDigitToInt (c : Z) : outcome Z :=
  ASSERT IsHexDigit c ;;
  if IsDecimalDigit c then Ok (c - 48)
  else if (65 <=? c) && (c <=? 70) then Ok (10 + (c - 65))
  else Ok (10 + (c - 97)).

Definition IntToHexDigit (i : Z) : outcome Z :=
  ASSERT (0 <=? i) && (i <? 16) ;;
  if i <? 10 then Ok (48 + i) else Ok (65 + (i - 10)).

(** ** Overflow *)
(** [intptr_t] is [bits] wide. *)
Definition RangeCheck (bits offset count length : Z) : bool :=
  (offset >=? 0) && (count >=? 0) && (length >=? 0)
  && (count <=? to_s bits (length - offset)).

Definition kMaxInt64 : Z := 2 ^ 63 - 1.
Definition kMinInt64 : Z := - 2 ^ 63.

Definition WillAddOverflow (a b : Z) : bool :=
  ((b >? 0) && (a >? int64 (kMaxInt64 - b)))
  || ((b <? 0) && (a <? int64 (kMinInt64 - b))).

Definition WillSubOverflow (a b : Z) : bool :=
  ((b >? 0) && (a <? int64 (kMinInt64 + b)))
  || ((b <? 0) && (a >? int64 (kMaxInt64 + b))).

Definition IsJavascriptInt64 (value : Z) : bool :=
  (- 0x20000000000000 <=? value) && (value <=? 0x20000000000000).

(** The range test of [IsJavascriptInt] is compiled when the macro
    [ARCH_IS_64BIT] is defined. *)
Definition IsJavascriptInt (ARCH_IS_64BIT : bool) (value : Z) : bool :=
  if ARCH_IS_64BIT then
    (- 0x20000000000000 <=? value) && (value <=? 0x20000000000000)
  else true.

(** ** Hashes *)
Definition hash_M : Z := 0x5bd1e995.
Definition hash_R : Z := 24.

(** The 32-bit little-endian load [*reinterpret_cast<const uint32_t*>(cursor)]. *)
Definition load_u32 (b0 b1 b2 b3 : Z) : Z :=
  b0 + b1 * 2 ^ 8 + b2 * 2 ^ 16 + b3 * 2 ^ 24.

(** The loop that mixes four bytes at a time; it returns the hash and the last
    [size < 4] bytes. *)
Fixpoint string_hash_loop (hash : Z) (cursor : list Z) : Z * list Z :=
  match cursor with
  | b0 :: b1 :: b2 :: b3 :: cursor =>
      let part := load_u32 b0 b1 b2 b3 in
      let part := uint32 (part * hash_M) in
      let part := Z.lxor part (Z.shiftr part hash_R) in
      let part := uint32 (part * hash_M) in
      let hash := uint32 (hash * hash_M) in
      let hash := Z.lxor hash part in
      string_hash_loop hash cursor
  | _ => (hash, cursor)
  end.

(** The fall-through [switch] on the last bytes. *)
Definition string_hash_tail (hash : Z) (cursor : list Z) : Z :=
  match cursor with
  | [c0; c1; c2] =>
      let hash := Z.lxor hash (Z.shiftl c2 16) in
      let hash := Z.lxor hash (Z.shiftl c1 8) in
      let hash := Z.lxor hash c0 in
      uint32 (hash * hash_M)
  | [c0; c1] =>
      let hash := Z.lxor hash (Z.shiftl c1 8) in
      let hash := Z.lxor hash c0 in
      uint32 (hash * hash_M)
  | [c0] =>
      let hash := Z.lxor hash c0 in
      uint32 (hash * hash_M)
  | _ => hash
  end.

(** [data] holds the [length] bytes of the string. *)
Definition StringHash (data : list Z) : Z :=
  let '(hash, cursor) := string_hash_loop (uint32 (Z.of_nat (length data))) data in
  let hash := string_hash_tail hash cursor in
  let hash := Z.lxor hash (Z.shiftr hash 13) in
  let hash := uint32 (hash * hash_M) in
  Z.lxor hash (Z.shiftr hash 15).

(** [bits] is the width of [uword]. *)
Definition WordHash (bits key : Z) : Z :=
  let a := to_u bits key in
  let a := to_u bits (a + 0x7ed55d16 + Z.shiftl a 12) in
  let a := Z.lxor (Z.lxor a 0xc761c23c) (Z.shiftr a 19) in
  let a := to_u bits (a + 0x165667b1 + Z.shiftl a 5) in
  let a := to_u bits (Z.lxor (to_u bits (a + 0xd3a2646c)) (Z.shiftl a 9)) in
  let a := to_u bits (a + 0xfd7046c5 + Z.shiftl a 3) in
  let a := Z.lxor (Z.lxor a 0xb55a4f09) (Z.shiftr a 16) in
  uint32 a.

(** ** Bit fields ([vm/bitfield.h]) *)
Module BitField.
Section BitField.
(** The template parameters: the field's position and size, in a [bits]-wide
    [uword]. *)
Context (bits position size : Z).

Definition is_valid (value : Z) : bool :=
  Z.land (to_u bits value) (to_u bits (Z.lnot (Z.shiftl 1 size - 1))) =? 0.

Definition mask : Z := to_u bits (Z.shiftl 1 size - 1).

Definition mask_in_place : Z := to_u bits (Z.shiftl (Z.shiftl 1 size - 1) position).

Definition shift : Z := position.

Definition bitsize : Z := size.

Definition encode (value : Z) : outcome Z :=
  ASSERT is_valid value ;; Ok (to_u bits (Z.shiftl (to_u bits value) position)).

Definition decode (value : Z) : Z :=
  Z.land (Z.shiftr value position) (Z.shiftl 1 size - 1).

Definition update (value original : Z) : outcome Z :=
  ASSERT is_valid value ;;
  Ok (Z.lor (to_u bits (Z.shiftl (to_u bits value) position))
            (Z.land (to_u bits (Z.lnot mask_in_place)) original)).

End BitField.
End BitField.
