(* ===== verification/UtilsProofs.v ===== *)
(** Correctness of the bit fields ([vm/bitfield.h]) and of the integer helpers
    ([platform/utils.h], [platform/utils.cc]). *)
From stdpp Require Import base numbers list.
From Stdlib Require Import ZArith Lia Bool.
From S2P Require Import Prelude Utils.
#[local] Open Scope Z_scope.

(** * Bit fields *)
Lemma testbit_low_mask n i : 0 <= n -> Z.testbit (Z.shiftl 1 n - 1) i = bool_decide (0 <= i < n).
Proof.
  intros; replace (Z.shiftl 1 n - 1) with (Z.ones n) by (unfold Z.ones; lia).
  destruct (decide (0 <= i)).
  - rewrite Z.testbit_ones by lia; rewrite bool_decide_decide.
    destruct (Z.leb_spec 0 i), (Z.ltb_spec i n), (decide (0 <= i < n)); cbn; lia || done.
  - rewrite Z.testbit_neg_r, bool_decide_false by lia; done.
Qed.

Section Field.
Context (bits position size : Z) (Hpos : 0 <= position) (Hsize : 0 <= size)
  (Hfit : position + size <= bits).

Lemma is_valid_range v : in_u bits v -> BitField.is_valid bits size v = true <-> in_u size v.
Proof.
  intros Hv; unfold BitField.is_valid; rewrite (to_u_id bits v Hv), Z.eqb_eq.
  assert (Z.land v (to_u bits (Z.lnot (Z.shiftl 1 size - 1))) = v / 2 ^ size * 2 ^ size) as ->.
  { rewrite <- Z.shiftr_div_pow2, <- Z.shiftl_mul_pow2, <- Z.ldiff_ones_r by lia.
    apply Z.bits_inj'; intros i Hi.
    rewrite Z.land_spec, Z.ldiff_spec, testbit_to_u, Z.lnot_spec, testbit_low_mask by lia.
    replace (Z.ones size) with (Z.shiftl 1 size - 1) by (unfold Z.ones; lia).
    rewrite testbit_low_mask by lia.
    destruct (Z.ltb_spec i bits); [done |].
    rewrite <- (to_u_id bits v Hv), testbit_to_u, (proj2 (Z.ltb_ge i bits)) by lia; done. }
  pose proof (pow2_pos size Hsize); unfold in_u in *; split; intros H'.
  - assert (v / 2 ^ size = 0) as E by nia; apply Z.div_small_iff in E; lia.
  - rewrite Z.div_small by lia; done.
Qed.

Lemma decode_spec v i :
  0 <= i -> Z.testbit (BitField.decode position size v) i = Z.testbit v (i + position) && (i <? size).
Proof.
  intros; unfold BitField.decode; rewrite Z.land_spec, Z.shiftr_spec, testbit_low_mask by lia.
  rewrite bool_decide_decide; destruct (Z.ltb_spec i size), (decide (0 <= i < size)); lia || done.
Qed.

Lemma update_spec v original u i :
  BitField.update bits position size v original = Ok u -> in_u bits v -> 0 <= i < bits ->
  Z.testbit u i =
  if bool_decide (position <= i < position + size) then Z.testbit v (i - position)
  else Z.testbit original i.
Proof.
  unfold BitField.update; destruct (BitField.is_valid bits size v) eqn:Ev; [| discriminate].
  intros H Hv Hi; injection H as <-; apply is_valid_range in Ev; [| done].
  unfold BitField.mask_in_place.
  rewrite (to_u_id bits v Hv), Z.lor_spec, Z.land_spec, !testbit_to_u, Z.lnot_spec,
    testbit_to_u, !Z.shiftl_spec, testbit_low_mask by lia.
  rewrite (proj2 (Z.ltb_lt i bits)), !bool_decide_decide by lia; cbn [andb].
  rewrite <- (to_u_id size v Ev), !testbit_to_u by lia.
  destruct (decide (position <= i < position + size)), (decide (0 <= i - position < size)); try lia;
    cbn [negb]; rewrite ?orb_false_r; [done |].
  destruct (Z.ltb_spec (i - position) size); [| done].
  rewrite (Z.testbit_neg_r v) by lia; done.
Qed.
End Field.

(** A field reads what was last written to it, and keeps its value when a field
    that does not overlap it is written. *)
Lemma decode_update bits position size v original u :
  0 <= position -> 0 <= size -> position + size <= bits -> in_u bits v ->
  BitField.update bits position size v original = Ok u ->
  BitField.decode position size u = v.
Proof.
  intros Hp Hs Hf Hv H; apply Z.bits_inj'; intros i Hi.
  assert (in_u size v) as Hv'.
  { unfold BitField.update in H; destruct (BitField.is_valid bits size v) eqn:E; [| discriminate].
    apply (is_valid_range bits position size) in E; done. }
  rewrite decode_spec, <- (to_u_id size v Hv'), testbit_to_u by lia.
  destruct (Z.ltb_spec i size); [| apply andb_false_r].
  rewrite (update_spec bits position size Hp Hs Hf v original u) by (done || lia).
  rewrite bool_decide_true by lia; cbn; rewrite andb_true_r; f_equal; lia.
Qed.

Lemma decode_update_other bits position size v original u position' size' :
  0 <= position -> 0 <= size -> position + size <= bits -> in_u bits v ->
  0 <= position' -> 0 <= size' -> position' + size' <= bits ->
  position + size <= position' \/ position' + size' <= position ->
  BitField.update bits position size v original = Ok u ->
  BitField.decode position' size' u = BitField.decode position' size' original.
Proof.
  intros Hp Hs Hf Hv ? ? ? ? H; apply Z.bits_inj'; intros i Hi.
  rewrite !decode_spec by lia; destruct (Z.ltb_spec i size'); [| rewrite !andb_false_r; done].
  rewrite (update_spec bits position size Hp Hs Hf v original u) by (done || lia).
  rewrite bool_decide_false by lia; done.
Qed.

(** A field of a word reads what was last written to it, and a write to a
    field changes no field that does not overlap it. *)
Theorem bit_field_update bits position size v original u :
  0 <= position -> 0 <= size -> position + size <= bits -> in_u bits v ->
  BitField.update bits position size v original = Ok u ->
  BitField.decode position size u = v /\
  forall position' size', 0 <= position' -> 0 <= size' -> position' + size' <= bits ->
    position + size <= position' \/ position' + size' <= position ->
    BitField.decode position' size' u = BitField.decode position' size' original.
Proof.
  intros Hp Hs Hf Hv H; split; [apply (decode_update bits position size v original); done |].
  intros p' s' ? ? ? ?; apply (decode_update_other bits position size v); done.
Qed.

(** * Powers of two *)
Lemma IsPowerOfTwo_pow n : 0 <= n -> IsPowerOfTwo (2 ^ n) = true.
Proof.
  intros; pose proof (pow2_pos n); unfold IsPowerOfTwo.
  rewrite (proj2 (Z.eqb_neq (2 ^ n) 0)) by lia; rewrite andb_true_r; apply Z.eqb_eq.
  replace (2 ^ n - 1) with (Z.ones n) by (rewrite Z.ones_equiv; lia).
  rewrite Z.land_ones by lia; apply Z_mod_same_full.
Qed.

(** [x & (x - 1)] clears the lowest bit that is set. *)
Lemma IsPowerOfTwo_log2 x : 0 < x -> IsPowerOfTwo x = true -> x = 2 ^ Z.log2 x.
Proof.
  intros Hx; unfold IsPowerOfTwo; rewrite andb_true_iff, Z.eqb_eq; intros [H _].
  pose proof (Z.log2_spec x Hx) as [Hlo Hhi]; pose proof (Z.log2_nonneg x).
  destruct (Z.eq_dec x (2 ^ Z.log2 x)); [done | exfalso].
  assert (Z.testbit (Z.land x (x - 1)) (Z.log2 x) = true) as Hb.
  { rewrite Z.land_spec, Z.bit_log2 by lia; cbn [andb].
    rewrite <- (Z.log2_unique (x - 1) (Z.log2 x)) by lia; apply Z.bit_log2; lia. }
  rewrite H, Z.bits_0 in Hb; done.
Qed.

Lemma IsAligned_pow x k : 0 <= k -> IsAligned x (2 ^ k) = Ok (x mod 2 ^ k =? 0).
Proof.
  intros Hk; unfold IsAligned; rewrite IsPowerOfTwo_pow by done.
  replace (2 ^ k - 1) with (Z.ones k) by (rewrite Z.ones_equiv; lia); rewrite Z.land_ones by done; done.
Qed.

Lemma RoundDown_pow bits x k :
  0 <= k <= bits -> in_u bits x -> RoundDown bits x (2 ^ k) = Ok (x / 2 ^ k * 2 ^ k).
Proof.
  intros Hk Hx; unfold RoundDown; rewrite IsPowerOfTwo_pow by lia; f_equal.
  rewrite <- Z.shiftr_div_pow2, <- Z.shiftl_mul_pow2, <- Z.ldiff_ones_r by lia.
  apply Z.bits_inj'; intros i Hi; rewrite Z.land_spec, Z.ldiff_spec, testbit_to_u by lia.
  replace (- 2 ^ k) with (Z.lnot (Z.ones k)) by (rewrite Z.ones_equiv; unfold Z.lnot; lia).
  rewrite Z.lnot_spec by lia; destruct (Z.ltb_spec i bits); [done |].
  rewrite <- (to_u_id bits x Hx), testbit_to_u, (proj2 (Z.ltb_ge i bits)) by lia; done.
Qed.

(** [x], with every bit spread over the [k] positions from it downwards. *)
Definition spread (x k : Z) (t : Z) : Prop :=
  forall i, 0 <= i -> Z.testbit t i = true <-> exists j, i <= j < i + k /\ Z.testbit x j = true.

Lemma spread_start x : spread x 1 x.
Proof.
  intros i Hi; split; [intros; exists i; split; [lia | done] |].
  intros (j & Hj & H); assert (j = i) as -> by lia; done.
Qed.

Lemma spread_double x k t : 0 < k -> spread x k t -> spread x (2 * k) (Z.lor t (Z.shiftr t k)).
Proof.
  intros Hk H i Hi; rewrite Z.lor_spec, Z.shiftr_spec, orb_true_iff, (H i), (H (i + k)) by lia.
  split; [intros [(j & Hj & E) | (j & Hj & E)]; exists j; split; lia || done |].
  intros (j & Hj & E); destruct (Z.lt_ge_cases j (i + k)); [left | right]; exists j; split; lia || done.
Qed.

Lemma spread_ones x k t :
  0 < x -> Z.log2 x < k -> 0 <= t -> spread x k t -> t = Z.ones (Z.log2 x + 1).
Proof.
  intros Hx Hk Ht H; pose proof (Z.log2_nonneg x); apply Z.bits_inj'; intros i Hi.
  rewrite Z.testbit_ones_nonneg by lia; apply eq_bool_prop_intro.
  rewrite !Is_true_true, (H i Hi), Z.ltb_lt; split.
  - intros (j & Hj & E); destruct (Z.lt_ge_cases (Z.log2 x) j); [| lia].
    rewrite Z.bits_above_log2 in E by lia; done.
  - intros Hl; exists (Z.log2 x); split; [lia | apply Z.bit_log2; done].
Qed.

Definition smear (bits x : Z) : Z :=
  let x := Z.lor x (Z.shiftr x 1) in
  let x := Z.lor x (Z.shiftr x 2) in
  let x := Z.lor x (Z.shiftr x 4) in
  let x := Z.lor x (Z.shiftr x 8) in
  let x := Z.lor x (Z.shiftr x 16) in
  if bits =? 64 then Z.lor x (Z.shiftr x 32) else x.

Lemma smear_ones bits x :
  bits = 32 \/ bits = 64 -> 0 < x < 2 ^ bits -> smear bits x = Z.ones (Z.log2 x + 1).
Proof.
  intros Hb Hx; assert (Z.log2 x < bits) by (apply Z.log2_lt_pow2; lia).
  pose proof (spread_start x) as H1.
  pose proof (spread_double _ 1 _ ltac:(lia) H1) as H2.
  pose proof (spread_double _ 2 _ ltac:(lia) H2) as H4.
  pose proof (spread_double _ 4 _ ltac:(lia) H4) as H8.
  pose proof (spread_double _ 8 _ ltac:(lia) H8) as H16.
  pose proof (spread_double _ 16 _ ltac:(lia) H16) as H32.
  pose proof (spread_double _ 32 _ ltac:(lia) H32) as H64.
  unfold smear; destruct Hb as [-> | ->]; cbn [Z.eqb Pos.eqb];
    [apply (spread_ones x 32) | apply (spread_ones x 64)]; try done || lia;
    repeat first [apply (proj2 (Z.lor_nonneg _ _)); split | apply (proj2 (Z.shiftr_nonneg _ _))]; lia.
Qed.

(** [IsPowerOfTwo] holds of the powers of two and of no other positive
    number, and [RoundUpToPowerOfTwo] yields the least power of two that is not
    smaller than its argument, on 32-bit and 64-bit targets. *)
Theorem RoundUpToPowerOfTwo_least bits x :
  bits = 32 \/ bits = 64 -> 0 < x <= 2 ^ (bits - 1) ->
  (IsPowerOfTwo x = true <-> exists n, 0 <= n /\ x = 2 ^ n) /\
  IsPowerOfTwo (RoundUpToPowerOfTwo bits x) = true /\ x <= RoundUpToPowerOfTwo bits x /\
  forall n, 0 <= n -> x <= 2 ^ n -> RoundUpToPowerOfTwo bits x <= 2 ^ n.
Proof.
  intros Hb Hx; split.
  { split; [| intros (n & Hn & ->); apply IsPowerOfTwo_pow; done].
    intros H; exists (Z.log2 x); split; [apply Z.log2_nonneg | apply IsPowerOfTwo_log2; [lia | done]]. }
  assert (RoundUpToPowerOfTwo bits x = 2 ^ Z.log2_up x) as ->.
  { assert (0 < 2 ^ (bits - 1) /\ 2 ^ bits = 2 * 2 ^ (bits - 1)) as [Hp Hp2]
      by (split; [apply pow2_pos | apply pow2_split]; lia).
    assert (Z.log2_up x <= bits - 1) as Hl by (apply Z.log2_up_le_pow2; lia).
    assert (2 ^ Z.log2_up x <= 2 ^ (bits - 1)) by (apply Z.pow_le_mono_r; lia).
    change (RoundUpToPowerOfTwo bits x) with (to_u bits (smear bits (to_u bits (x - 1)) + 1)).
    rewrite (to_u_id bits (x - 1)) by (unfold in_u; lia).
    destruct (Z.eq_dec x 1) as [-> | Hn].
    - unfold smear; cbn; destruct Hb as [-> | ->]; done.
    - rewrite smear_ones, Z.ones_equiv, Z.log2_up_eqn in * by (done || lia).
      rewrite <- (Z.sub_1_r x), <- Z.add_1_r in *.
      pose proof (Z.log2_nonneg (x - 1)); pose proof (pow2_pos (Z.log2 (x - 1) + 1) ltac:(lia)).
      rewrite Z.add_1_r, Z.succ_pred, to_u_id; unfold in_u; lia. }
  pose proof (Z.log2_up_nonneg x); split_and!; [apply IsPowerOfTwo_pow; done | apply Z.log2_log2_up_spec; lia |].
  intros n Hn Hxn; apply Z.pow_le_mono_r; [lia |]; apply Z.log2_up_le_pow2; lia.
Qed.

(** * Overflow checks *)
Lemma WillAddOverflow_iff a b :
  in_s 64 a -> in_s 64 b -> (WillAddOverflow a b = true <-> ~ in_s 64 (a + b)).
Proof.
  intros Ha Hb; unfold WillAddOverflow, kMaxInt64, kMinInt64.
  destruct (Z.ltb_spec 0 b); [| destruct (Z.ltb_spec b 0)].
  all: rewrite Z.gtb_ltb, orb_true_iff, !andb_true_iff.
  all: rewrite ?Z.gtb_ltb, ?Z.ltb_lt; unfold in_s in *; cbn [Z.sub Z.add] in *.
  all: try rewrite (to_s_id 64 (2 ^ 63 - 1 - b)) by (unfold in_s; lia).
  all: try rewrite (to_s_id 64 (- 2 ^ 63 - b)) by (unfold in_s; lia).
  all: lia.
Qed.

Lemma WillAddOverflow_spec a b :
  in_s 64 a -> in_s 64 b -> WillAddOverflow a b = negb (bool_decide (in_s 64 (a + b))).
Proof.
  intros; apply eq_true_iff_eq.
  rewrite WillAddOverflow_iff, negb_true_iff, bool_decide_eq_false by done; done.
Qed.

Lemma WillSubOverflow_iff a b :
  in_s 64 a -> in_s 64 b -> (WillSubOverflow a b = true <-> ~ in_s 64 (a - b)).
Proof.
  intros Ha Hb; unfold WillSubOverflow, kMaxInt64, kMinInt64.
  destruct (Z.ltb_spec 0 b); [| destruct (Z.ltb_spec b 0)].
  all: rewrite Z.gtb_ltb, orb_true_iff, !andb_true_iff.
  all: rewrite ?Z.gtb_ltb, ?Z.ltb_lt; unfold in_s in *.
  all: try rewrite (to_s_id 64 (2 ^ 63 - 1 + b)) by (unfold in_s; lia).
  all: try rewrite (to_s_id 64 (- 2 ^ 63 + b)) by (unfold in_s; lia).
  all: lia.
Qed.

Lemma WillSubOverflow_spec a b :
  in_s 64 a -> in_s 64 b -> WillSubOverflow a b = negb (bool_decide (in_s 64 (a - b))).
Proof.
  intros; apply eq_true_iff_eq.
  rewrite WillSubOverflow_iff, negb_true_iff, bool_decide_eq_false by done; done.
Qed.

(** The overflow checks are exact: [WillAddOverflow] and [WillSubOverflow]
    hold exactly when the 64-bit operation overflows, and [RangeCheck] exactly
    when the [count] elements from [offset] are inside a container of [length]
    elements, whatever the values of the arguments. *)
Theorem overflow_checks_exact a b bits offset count len :
  in_s 64 a -> in_s 64 b -> 0 < bits ->
  in_s bits offset -> in_s bits count -> in_s bits len ->
  (WillAddOverflow a b = true <-> ~ in_s 64 (a + b)) /\
  (WillSubOverflow a b = true <-> ~ in_s 64 (a - b)) /\
  (RangeCheck bits offset count len = true <->
   0 <= offset /\ 0 <= count /\ 0 <= len /\ offset + count <= len).
Proof.
  intros Ha Hb Hbits Ho Hc Hl; split_and!.
  - apply WillAddOverflow_iff; done.
  - apply WillSubOverflow_iff; done.
  - unfold RangeCheck; rewrite !andb_true_iff, !Z.geb_leb, !Z.leb_le.
    destruct (Z.le_gt_cases 0 offset), (Z.le_gt_cases 0 len); try lia.
    rewrite to_s_id by (unfold in_s in *; lia); lia.
Qed.

(** * Concrete values *)
Lemma bit_field_update_witness :
  exists u, BitField.update 32 4 3 5 0xff = Ok u /\ BitField.decode 4 3 u = 5 /\
    BitField.decode 0 4 u = 15.
Proof.
  exists 0xdf; split; [reflexivity |].
  destruct (bit_field_update 32 4 3 5 0xff 0xdf ltac:(lia) ltac:(lia) ltac:(lia)
    ltac:(unfold in_u; lia) eq_refl) as [H Ho]; split; [exact H |].
  rewrite (Ho 0 4) by lia; reflexivity.
Defined.

Lemma RoundUpToPowerOfTwo_least_witness :
  RoundUpToPowerOfTwo 32 1000 = 1024 /\ forall n, 0 <= n -> 1000 <= 2 ^ n -> 1024 <= 2 ^ n.
Proof.
  destruct (RoundUpToPowerOfTwo_least 32 1000 (or_introl eq_refl) ltac:(lia)) as (_ & _ & _ & H).
  split; [reflexivity | exact H].
Defined.

Lemma overflow_checks_exact_witness :
  ~ in_s 64 (2 ^ 63 - 1 + 1) /\ RangeCheck 32 1 2147483647 10 = false.
Proof.
  destruct (overflow_checks_exact (2 ^ 63 - 1) 1 32 1 2147483647 10) as (H & _ & Hr);
    try (unfold in_s; lia).
  split; [apply H; reflexivity | destruct (RangeCheck 32 1 2147483647 10); [lia | reflexivity]].
Defined.
