(* ===== verification/DataStream.v ===== *)
(** The streams of variable length integers that snapshots and messages are
    written to and read from ([vm/datastream.h]).

    The width of [intptr_t] is [bits].  A position in a buffer is its offset; the
    block a buffer points to is the list of its bytes. *)
From stdpp Require Import base numbers list.
From Stdlib Require Import ZArith Lia Bool.
From S2P Require Import Prelude Utils.
#[local] Open Scope Z_scope.

(** * Markers

    A byte up to [kMaxUnsignedDataPerByte] carries seven bits of an integer that
    goes on; a larger byte ends it. *)
Definition kDataBitsPerByte : Z := 7.
Definition kByteMask : Z := Z.shiftl 1 kDataBitsPerByte - 1.
Definition kMaxUnsignedDataPerByte : Z := kByteMask.
Definition kMinDataPerByte : Z := - Z.shiftl 1 (kDataBitsPerByte - 1).
Definition kMaxDataPerByte : Z := Z.land (Z.lnot kMinDataPerByte) kByteMask.
Definition kEndByteMarker : Z := 255 - kMaxDataPerByte.
Definition kEndUnsignedByteMarker : Z := 255 - kMaxUnsignedDataPerByte.

(** * Reading *)
Record ReadStream : Type := mkReadStream {
  buffer_ : list Z;
  current_ : Z;
  end_ : Z
}.

Definition new_ReadStream (buffer : list Z) (size : Z) : ReadStream := mkReadStream buffer 0 size.

Definition SetStream (buffer : list Z) (size : Z) (st : ReadStream) : ReadStream :=
  mkReadStream buffer 0 size.

Definition at_current (c : Z) (st : ReadStream) : ReadStream :=
  mkReadStream (buffer_ st) c (end_ st).

(** The byte at offset [c] of a block; an access outside of it is a fault. *)
Definition byte_at (block : list Z) (c : Z) : outcome Z :=
  if c <? 0 then Err (HostFault c)
  else match block !! Z.to_nat c with
       | Some b => Ok b
       | None => Err (HostFault c)
       end.

(** [ASSERT(c < end_); b = *c++;] *)
Definition next_byte (st : ReadStream) (c : Z) : outcome (Z * Z) :=
  ASSERT c <? end_ st ;;
  let* b := byte_at (buffer_ st) c in
  Ok (b, c + 1).

Definition ReadByte (st : ReadStream) : outcome (Z * ReadStream) :=
  let* (b, c) := next_byte st (current_ st) in
  Ok (b, at_current c st).

(** [memmove(addr, current_, len)]: the bytes that are copied. *)
Fixpoint bytes_from (block : list Z) (c : Z) (len : nat) : outcome (list Z) :=
  match len with
  | O => Ok []
  | S len =>
      let* b := byte_at block c in
      let* bs := bytes_from block (c + 1) len in
      Ok (b :: bs)
  end.

Definition ReadBytes (len : Z) (st : ReadStream) : outcome (list Z * ReadStream) :=
  ASSERT end_ st - current_ st >=? len ;;
  let* bs := bytes_from (buffer_ st) (current_ st) (Z.to_nat len) in
  Ok (bs, at_current (current_ st + len) st).

(** The loop of [Read<T>], for a [w]-bit [T]. *)
Fixpoint read_loop (w end_byte_marker : Z) (st : ReadStream) (fuel : nat) (r s c b : Z)
  : outcome (Z * ReadStream) :=
  match fuel with
  | O => Err OutOfFuel
  | S fuel =>
      let r := to_s w (Z.lor r (Z.shiftl b s)) in
      let s := to_u 8 (s + kDataBitsPerByte) in
      let* (b, c) := next_byte st c in
      if b <=? kMaxUnsignedDataPerByte then read_loop w end_byte_marker st fuel r s c b
      else Ok (to_s w (Z.lor r (Z.shiftl (b - end_byte_marker) s)), at_current c st)
  end.

(** The loop consumes a byte per iteration: the size of the block bounds it. *)
Definition Read (w end_byte_marker : Z) (st : ReadStream) : outcome (Z * ReadStream) :=
  let* (b, c) := next_byte st (current_ st) in
  if b >? kMaxUnsignedDataPerByte then Ok (to_s w (b - end_byte_marker), at_current c st)
  else read_loop w end_byte_marker st (length (buffer_ st)) 0 0 c b.

Definition ReadUnsigned (bits : Z) (st : ReadStream) : outcome (Z * ReadStream) :=
  Read bits kEndUnsignedByteMarker st.

(** The unrolled loops of [Read16], [Read32] and [Read64]: [n] bytes that may or
    may not end the integer, then one that has to. *)
Fixpoint read_unrolled (w end_byte_marker : Z) (st : ReadStream) (n : nat) (shift r c : Z)
  : outcome (Z * ReadStream) :=
  let* (b, c) := next_byte st c in
  let last := (to_s w (Z.lor r (Z.shiftl (b - end_byte_marker) shift)), at_current c st) in
  match n with
  | O => ASSERT b >? kMaxUnsignedDataPerByte ;; Ok last
  | S n =>
      if b >? kMaxUnsignedDataPerByte then Ok last
      else read_unrolled w end_byte_marker st n (shift + 7) (to_s w (Z.lor r (Z.shiftl b shift))) c
  end.

Definition Read16 (st : ReadStream) : outcome (Z * ReadStream) :=
  read_unrolled 16 kEndByteMarker st 2 0 0 (current_ st).
Definition Read32 (st : ReadStream) : outcome (Z * ReadStream) :=
  read_unrolled 32 kEndByteMarker st 4 0 0 (current_ st).
Definition Read64 (st : ReadStream) : outcome (Z * ReadStream) :=
  read_unrolled 64 kEndByteMarker st 9 0 0 (current_ st).

(** [Raw<N, T>::Read], for a signed [T] of [N] bytes. *)
Definition Raw_Read (N : Z) (st : ReadStream) : outcome (Z * ReadStream) :=
  if N =? 1 then let* (b, st) := ReadByte st in Ok (to_s 8 b, st)
  else if N =? 2 then Read16 st
  else if N =? 4 then Read32 st
  else Read64 st.

Definition Position (st : ReadStream) : Z := current_ st.

Definition SetPosition (value : Z) (st : ReadStream) : outcome ReadStream :=
  ASSERT end_ st >? value ;; Ok (at_current value st).

Definition Advance (value : Z) (st : ReadStream) : outcome ReadStream :=
  ASSERT end_ st - current_ st >? value ;; Ok (at_current (current_ st + value) st).

Definition PendingBytes (st : ReadStream) : outcome Z :=
  ASSERT end_ st >=? current_ st ;; Ok (end_ st - current_ st).

(** * Writing *)
Module WriteStream.

Record t : Type := mk {
  buffer_ : list Z;
  end_ : Z;
  current_ : Z;
  current_size_ : Z;
  initial_size_ : Z
}.

Section WriteStream.
(** [alloc_ block old_size new_size]: the bytes of the block it returns, or
    nothing where it returns a null pointer. *)
Context (bits : Z) (alloc_ : list Z -> Z -> Z -> option (list Z)).

Definition new (initial_size : Z) : outcome t :=
  match alloc_ [] 0 initial_size with
  | None => Err OutOfMemory
  | Some block => Ok (mk block initial_size 0 initial_size initial_size)
  end.

Definition bytes_written (st : t) : Z := current_ st.

Definition set_current (value : Z) (st : t) : t :=
  mk (buffer_ st) (end_ st) value (current_size_ st) (initial_size_ st).

Definition Resize (size_needed : Z) (st : t) : outcome t :=
  let position := current_ st in
  let increment_size := current_size_ st in
  let* increment_size :=
    if size_needed >? increment_size then
      let* n := RoundUp bits size_needed (initial_size_ st) in Ok (to_s bits n)
    else Ok increment_size in
  let new_size := to_s bits (current_size_ st + increment_size) in
  ASSERT new_size >? current_size_ st ;;
  match alloc_ (buffer_ st) (current_size_ st) new_size with
  | None => Err OutOfMemory
  | Some block =>
      ASSERT new_size >? 0 ;;
      Ok (mk block new_size position new_size (initial_size_ st))
  end.

(** A store into the block at [c]. *)
Definition store_at (c value : Z) (st : t) : outcome t :=
  if (0 <=? c) && (c <? Z.of_nat (length (buffer_ st))) then
    Ok (mk (<[Z.to_nat c := value]> (buffer_ st)) (end_ st) (current_ st)
           (current_size_ st) (initial_size_ st))
  else Err (HostFault c).

Definition WriteByte (value : Z) (st : t) : outcome t :=
  let* st := if current_ st >=? end_ st then Resize 1 st else Ok st in
  ASSERT current_ st <? end_ st ;;
  let* st := store_at (current_ st) (to_u 8 value) st in
  Ok (set_current (current_ st + 1) st).

(** [memmove(current_, addr, len)]. *)
Fixpoint copy_to (c : Z) (bytes : list Z) (st : t) : outcome t :=
  match bytes with
  | [] => Ok st
  | b :: bytes => let* st := store_at c b st in copy_to (c + 1) bytes st
  end.

Definition WriteBytes (bytes : list Z) (st : t) : outcome t :=
  let len := Z.of_nat (length bytes) in
  let* st := if end_ st - current_ st <? len then Resize len st else Ok st in
  ASSERT end_ st - current_ st >=? len ;;
  let* st := copy_to (current_ st) bytes st in
  Ok (set_current (current_ st + len) st).

(** The loop of [Write<T>]; it shifts seven bits out per iteration. *)
Fixpoint write_loop (fuel : nat) (v : Z) (st : t) : outcome t :=
  if (v <? kMinDataPerByte) || (v >? kMaxDataPerByte) then
    match fuel with
    | O => Err OutOfFuel
    | S fuel =>
        let* st := WriteByte (Z.land v kByteMask) st in
        write_loop fuel (Z.shiftr v kDataBitsPerByte) st
    end
  else WriteByte (v + kEndByteMarker) st.

(** A 64-bit integer has at most ten groups of seven bits. *)
Definition kMaxGroups : nat := 10.

Definition Write (value : Z) (st : t) : outcome t := write_loop kMaxGroups value st.

Fixpoint write_unsigned_loop (fuel : nat) (value : Z) (st : t) : outcome t :=
  if value >? kMaxUnsignedDataPerByte then
    match fuel with
    | O => Err OutOfFuel
    | S fuel =>
        let* st := WriteByte (Z.land value kByteMask) st in
        write_unsigned_loop fuel (Z.shiftr value kDataBitsPerByte) st
    end
  else WriteByte (value + kEndUnsignedByteMarker) st.

Definition WriteUnsigned (value : Z) (st : t) : outcome t :=
  ASSERT (value >=? 0) && (value <=? 2 ^ (bits - 1) - 1) ;;
  write_unsigned_loop kMaxGroups value st.

(** [Raw<N, T>::Write], for a signed [T] of [N] bytes. *)
Definition Raw_Write (N value : Z) (st : t) : outcome t :=
  if N =? 1 then WriteByte value st else Write value st.

End WriteStream.
End WriteStream.
