(* ===== verification/DataStreamProofs.v ===== *)
(** What is written to a stream is read back from it ([vm/datastream.h]). *)
From stdpp Require Import base numbers list.
From Stdlib Require Import ZArith Lia Bool.
From S2P Require Import Prelude Utils UtilsProofs DataStream.
#[local] Open Scope Z_scope.

(** * The bytes of an integer *)
(** Groups of seven bits, the lowest first, and the last group with the marker. *)
Fixpoint groups (stop : Z -> bool) (marker : Z) (n : nat) (v : Z) : list Z :=
  match n with
  | O => []
  | S n => if stop v then [v + marker] else v mod 128 :: groups stop marker n (v / 128)
  end.

Definition stop_signed (v : Z) : bool := (kMinDataPerByte <=? v) && (v <=? kMaxDataPerByte).
Definition stop_unsigned (v : Z) : bool := (0 <=? v) && (v <=? kMaxUnsignedDataPerByte).

Definition signed_bytes (v : Z) : list Z := groups stop_signed kEndByteMarker 11 v.
Definition unsigned_bytes (v : Z) : list Z := groups stop_unsigned kEndUnsignedByteMarker 11 v.

Lemma groups_S stop marker n v :
  groups stop marker (S n) v = if stop v then [v + marker] else [v mod 128] ++ groups stop marker n (v / 128).
Proof. done. Qed.

(** [v] is complete after at most [n] groups. *)
Fixpoint ends_in (stop : Z -> bool) (n : nat) (v : Z) : Prop :=
  match n with
  | O => False
  | S n => stop v = true \/ ends_in stop n (v / 128)
  end.

Lemma div_128_range k v : 0 < k -> - 2 ^ (k + 7) <= v < 2 ^ (k + 7) -> - 2 ^ k <= v / 128 < 2 ^ k.
Proof.
  intros Hk; rewrite Z.pow_add_r by lia; change (2 ^ 7) with 128; intros Hv.
  split; [apply Z.div_le_lower_bound | apply Z.div_lt_upper_bound]; lia.
Qed.

Lemma signed_ends n v : in_s (7 * Z.of_nat (S n)) v -> ends_in stop_signed (S n) v.
Proof.
  revert v; induction n as [| n IH]; intros v Hv.
  - left; unfold stop_signed; change kMinDataPerByte with (-64); change kMaxDataPerByte with 63.
    unfold in_s in Hv; cbn in Hv; lia.
  - right; apply IH; unfold in_s in *.
    apply div_128_range; [lia |].
    replace (7 * Z.of_nat (S n) - 1 + 7) with (7 * Z.of_nat (S (S n)) - 1) by lia; done.
Qed.

Lemma unsigned_ends n v : in_u (7 * Z.of_nat (S n)) v -> ends_in stop_unsigned (S n) v.
Proof.
  revert v; induction n as [| n IH]; intros v Hv.
  - left; unfold stop_unsigned; change kMaxUnsignedDataPerByte with 127.
    unfold in_u in Hv; cbn in Hv; lia.
  - right; apply IH; unfold in_u in *; split; [apply Z.div_pos; lia |].
    apply Z.div_lt_upper_bound; [lia |].
    replace (7 * Z.of_nat (S (S n))) with (7 + 7 * Z.of_nat (S n)) in Hv by lia.
    rewrite Z.pow_add_r in Hv by lia; lia.
Qed.

(** * The reader *)
(** [st] holds the bytes [bs] from the offset [c]. *)
Definition holds (st : ReadStream) (c : Z) (bs : list Z) : Prop :=
  0 <= c /\ c + Z.of_nat (length bs) <= end_ st /\
  forall i b, bs !! i = Some b -> buffer_ st !! (Z.to_nat c + i)%nat = Some b.

Lemma holds_cons st c b bs : holds st c (b :: bs) -> next_byte st c = Ok (b, c + 1) /\ holds st (c + 1) bs.
Proof.
  intros (Hc & He & H); cbn [length] in He; split.
  - unfold next_byte, byte_at; rewrite (proj2 (Z.ltb_lt c (end_ st))), (proj2 (Z.ltb_ge c 0)) by lia.
    specialize (H 0%nat b eq_refl); rewrite Nat.add_0_r in H; rewrite H; done.
  - split_and!; [lia | lia |]; intros i b' Hi.
    replace (Z.to_nat (c + 1) + i)%nat with (Z.to_nat c + S i)%nat by lia; apply H; done.
Qed.

Lemma holds_length st c bs : holds st c bs -> (length bs <= length (buffer_ st))%nat.
Proof.
  intros (_ & _ & H); destruct bs as [| b bs] using rev_ind; [cbn; lia |].
  rewrite length_app; cbn; specialize (H (length bs) b).
  rewrite lookup_app_r, Nat.sub_diag in H by lia; specialize (H eq_refl).
  apply lookup_lt_Some in H; lia.
Qed.

(** The part of the value that was read before [shift], and the rest. *)
Lemma lor_group r b shift :
  0 <= shift -> 0 <= r < 2 ^ shift -> Z.lor r (Z.shiftl b shift) = r + b * 2 ^ shift.
Proof. intros; rewrite Z.lor_comm, lor_shiftl_add by lia; lia. Qed.

Lemma group_step w r v shift :
  0 <= shift -> shift + 7 <= w - 1 -> 0 <= r < 2 ^ shift ->
  let r' := to_s w (Z.lor r (Z.shiftl (v mod 128) shift)) in
  0 <= r' < 2 ^ (shift + 7) /\ r' + v / 128 * 2 ^ (shift + 7) = r + v * 2 ^ shift.
Proof.
  intros Hs Hw Hr; rewrite lor_group by done; cbv zeta.
  pose proof (Z.mod_pos_bound v 128 ltac:(lia)); pose proof (pow2_pos shift Hs).
  assert (2 ^ (shift + 7) = 128 * 2 ^ shift) as E by (rewrite Z.pow_add_r by lia; lia).
  assert (2 ^ (shift + 7) <= 2 ^ (w - 1)) by (apply Z.pow_le_mono_r; lia).
  rewrite to_s_id; [| lia | unfold in_s; nia].
  split; [nia |]; rewrite E; pose proof (Z.div_mod v 128 ltac:(lia)); nia.
Qed.

Section Reading.
(** The marker and the test of one of the two encodings. *)
Context (stop : Z -> bool) (marker : Z).
Context (Hstop : forall v, stop v = true -> 128 <= v + marker <= 255).

Lemma group_last w r v shift :
  0 <= shift -> 0 <= r < 2 ^ shift ->
  to_s w (Z.lor r (Z.shiftl (v + marker - marker) shift)) = to_s w (r + v * 2 ^ shift).
Proof. intros; rewrite Z.add_simpl_r, lor_group by done; done. Qed.

Lemma read_unrolled_groups w st n m v shift r c :
  (m > n)%nat -> ends_in stop (S n) v -> 0 <= shift -> shift + 7 * Z.of_nat n <= w - 1 ->
  0 <= r < 2 ^ shift -> holds st c (groups stop marker m v) ->
  read_unrolled w marker st n shift r c =
  Ok (to_s w (r + v * 2 ^ shift), at_current (c + Z.of_nat (length (groups stop marker m v))) st).
Proof.
  revert m v shift r c; induction n as [| n IH]; intros [| m] v shift r c Hm He Hs Hw Hr Hh; try lia;
    cbn [read_unrolled groups] in *; destruct (stop v) eqn:E;
    apply holds_cons in Hh as [-> Hh]; cbn [obind length].
  - pose proof (Hstop v E); change kMaxUnsignedDataPerByte with 127.
    rewrite (proj2 (Z.gtb_lt _ _)), group_last by lia; done.
  - destruct He as [He | []]; congruence.
  - pose proof (Hstop v E); change kMaxUnsignedDataPerByte with 127.
    rewrite (proj2 (Z.gtb_lt _ _)), group_last by lia; done.
  - pose proof (Z.mod_pos_bound v 128 ltac:(lia)); change kMaxUnsignedDataPerByte with 127.
    rewrite Z.gtb_ltb, (proj2 (Z.ltb_ge _ _)) by lia.
    destruct He as [He | He]; [congruence |].
    destruct (group_step w r v shift ltac:(lia) ltac:(lia) Hr) as [Hr' Hv].
    rewrite (IH m (v / 128)) by (done || lia); rewrite Hv; do 3 f_equal; lia.
Qed.

(** The loop is entered with the first group [u mod 128] in [b]. *)
Lemma read_loop_groups w st n m fuel u shift r c :
  (m > n)%nat -> (length (groups stop marker m (u / 128)) <= fuel)%nat ->
  ends_in stop (S n) (u / 128) -> 0 <= shift ->
  shift + 7 * Z.of_nat (S n) <= w - 1 -> w <= 64 -> 0 <= r < 2 ^ shift ->
  holds st c (groups stop marker m (u / 128)) ->
  read_loop w marker st fuel r shift c (u mod 128) =
  Ok (to_s w (r + u * 2 ^ shift),
      at_current (c + Z.of_nat (length (groups stop marker m (u / 128)))) st).
Proof.
  revert m fuel u shift r c; induction n as [| n IH];
    intros [| m] [| fuel] u shift r c Hm Hf He Hs Hw Hw64 Hr Hh; try lia;
    cbn [read_loop groups] in *; try (destruct (stop (u / 128)); cbn in Hf; lia); change kDataBitsPerByte with 7; change kMaxUnsignedDataPerByte with 127;
    rewrite (to_u_id 8 (shift + 7)) by (unfold in_u; lia);
    destruct (group_step w r u shift ltac:(lia) ltac:(lia) Hr) as [Hr' Hv];
    destruct (stop (u / 128)) eqn:E; apply holds_cons in Hh as [-> Hh]; cbn [obind length].
  all: try (pose proof (Hstop (u / 128) E);
    rewrite (proj2 (Z.leb_gt _ _)), group_last, Hv by lia; done).
  - destruct He as [He | []]; congruence.
  - cbn [length] in Hf; pose proof (Z.mod_pos_bound (u / 128) 128 ltac:(lia)).
    rewrite (proj2 (Z.leb_le _ _)) by lia; destruct He as [He | He]; [congruence |].
    rewrite (IH m) by (done || lia); rewrite Hv; do 3 f_equal; lia.
Qed.

Lemma Read_groups w st n m v :
  (m > S n)%nat -> ends_in stop (S (S n)) v ->
  7 * Z.of_nat (S n) <= w - 1 -> w <= 64 -> holds st (current_ st) (groups stop marker m v) ->
  Read w marker st =
  Ok (to_s w v, at_current (current_ st + Z.of_nat (length (groups stop marker m v))) st).
Proof.
  destruct m as [| m]; intros Hm He Hw Hw64 Hh; [lia |].
  pose proof (holds_length _ _ _ Hh) as Hlen.
  unfold Read; cbn [groups] in *; change kMaxUnsignedDataPerByte with 127.
  destruct (stop v) eqn:E; apply holds_cons in Hh as [-> Hh]; cbn [obind length].
  - pose proof (Hstop v E); rewrite (proj2 (Z.gtb_lt _ _)), Z.add_simpl_r by lia; done.
  - cbn [length] in Hlen; pose proof (Z.mod_pos_bound v 128 ltac:(lia)).
    rewrite Z.gtb_ltb, (proj2 (Z.ltb_ge _ _)) by lia; destruct He as [He | He]; [congruence |].
    rewrite (read_loop_groups w st n m) by (done || lia).
    rewrite Z.mul_1_r, Z.add_0_l; do 3 f_equal; lia.
Qed.
End Reading.

Lemma stop_signed_byte v : stop_signed v = true -> 128 <= v + kEndByteMarker <= 255.
Proof.
  unfold stop_signed; change kMinDataPerByte with (-64); change kMaxDataPerByte with 63.
  change kEndByteMarker with 192; lia.
Qed.

(** The integers that a stream carries. *)
Lemma Read_signed N st v :
  N = 2 \/ N = 4 \/ N = 8 -> in_s (8 * N) v -> holds st (current_ st) (signed_bytes v) ->
  Raw_Read N st = Ok (v, at_current (current_ st + Z.of_nat (length (signed_bytes v))) st).
Proof.
  intros HN Hv Hh; rewrite <- (to_s_id (8 * N) v) at 1 by (done || lia).
  rewrite <- (Z.mul_1_r v) at 1; rewrite <- (Z.add_0_l (v * 1)).
  unfold Raw_Read, Read16, Read32, Read64, signed_bytes in *.
  destruct HN as [-> | [-> | ->]]; cbn [Z.eqb Pos.eqb];
    apply (read_unrolled_groups stop_signed kEndByteMarker stop_signed_byte); try (done || lia);
    apply signed_ends; unfold in_s in *; cbn in *; lia.
Qed.

Lemma stop_unsigned_byte v : stop_unsigned v = true -> 128 <= v + kEndUnsignedByteMarker <= 255.
Proof.
  unfold stop_unsigned; change kMaxUnsignedDataPerByte with 127.
  change kEndUnsignedByteMarker with 128; lia.
Qed.

Lemma ReadUnsigned_groups bits st v :
  bits = 32 \/ bits = 64 -> in_u (bits - 1) v -> holds st (current_ st) (unsigned_bytes v) ->
  ReadUnsigned bits st = Ok (v, at_current (current_ st + Z.of_nat (length (unsigned_bytes v))) st).
Proof.
  intros Hb Hv Hh; rewrite <- (to_s_id bits v) at 1 by (unfold in_u, in_s in *; lia).
  unfold ReadUnsigned, unsigned_bytes in *.
  destruct Hb as [-> | ->]; cbn in Hv;
    [apply (Read_groups stop_unsigned kEndUnsignedByteMarker stop_unsigned_byte 32 st 3)
    | apply (Read_groups stop_unsigned kEndUnsignedByteMarker stop_unsigned_byte 64 st 7)];
    try (done || lia); apply unsigned_ends; unfold in_u in *; cbn in *; lia.
Qed.

Lemma ReadBytes_holds st bs :
  holds st (current_ st) bs ->
  ReadBytes (Z.of_nat (length bs)) st = Ok (bs, at_current (current_ st + Z.of_nat (length bs)) st).
Proof.
  intros Hh; unfold ReadBytes; rewrite Z.geb_leb, (proj2 (Z.leb_le _ _)) by (destruct Hh; lia).
  rewrite Nat2Z.id.
  assert (bytes_from (buffer_ st) (current_ st) (length bs) = Ok bs) as ->; [| done].
  revert Hh; generalize (current_ st) as c; induction bs as [| b bs IH]; intros c Hh; [done |].
  apply holds_cons in Hh as [Hn Hh]; unfold next_byte in Hn; cbn [length bytes_from].
  destruct (c <? end_ st); [| discriminate]; destruct (byte_at (buffer_ st) c); [| discriminate].
  cbn [obind] in *; injection Hn as <-; rewrite IH by done; done.
Qed.

(** * The writer *)
Section Writing.
Import WriteStream.
Context (bits : Z) (Hbits : bits = 32 \/ bits = 64).
Context (alloc_ : list Z -> Z -> Z -> option (list Z)).

(** The allocator is [realloc]: it returns a block of the new size whose first
    bytes are those of the old one, and it does not fail. *)
Definition allocates : Prop :=
  forall block old_size new_size, old_size = Z.of_nat (length block) -> old_size < new_size ->
  exists block', alloc_ block old_size new_size = Some block' /\
    Z.of_nat (length block') = new_size /\ take (length block) block' = block.

Context (Halloc : allocates).

Definition written (st : t) : list Z := take (Z.to_nat (WriteStream.current_ st)) (WriteStream.buffer_ st).

Record ws_ok (st : t) : Prop := mk_ws_ok {
  ws_block : Z.of_nat (length (WriteStream.buffer_ st)) = current_size_ st;
  ws_end : WriteStream.end_ st = current_size_ st;
  ws_current : 0 <= WriteStream.current_ st <= current_size_ st;
  ws_initial : IsPowerOfTwo (initial_size_ st) = true /\ 0 < initial_size_ st <= current_size_ st;
  ws_size : current_size_ st <= 2 * WriteStream.current_ st + initial_size_ st
}.

(** The stream can take [n] more bytes without its size leaving [intptr_t]. *)
Definition room (n : Z) (st : t) : Prop :=
  2 * (WriteStream.current_ st + n) + initial_size_ st < 2 ^ (bits - 1).

Lemma RoundUp_ok x n :
  0 < x -> 0 < n -> IsPowerOfTwo n = true -> x + n < 2 ^ (bits - 1) ->
  exists y, RoundUp bits x n = Ok y /\ x <= y < x + n.
Proof.
  intros Hx Hn Hp Hr; pose proof (IsPowerOfTwo_log2 n Hn Hp) as E; pose proof (Z.log2_nonneg n).
  assert (2 ^ bits = 2 * 2 ^ (bits - 1)) as Eb by (apply pow2_split; lia).
  assert (Z.log2 n < bits - 1) by (apply Z.log2_lt_pow2; lia).
  pose proof (RoundDown_pow bits (x + n - 1) (Z.log2 n)) as Hd; rewrite <- E in Hd.
  unfold RoundUp; rewrite (to_u_id bits (x + n - 1)), Hd by (unfold in_u; lia).
  eexists; split; [done |].
  pose proof (Z.div_mod (x + n - 1) n ltac:(lia)); pose proof (Z.mod_pos_bound (x + n - 1) n ltac:(lia)); nia.
Qed.

Lemma Resize_ok n st :
  ws_ok st -> 0 < n -> WriteStream.end_ st - WriteStream.current_ st < n -> room n st ->
  exists st', Resize bits alloc_ n st = Ok st' /\ written st' = written st /\
    WriteStream.current_ st' = WriteStream.current_ st /\ initial_size_ st' = initial_size_ st /\
    n <= WriteStream.end_ st' - WriteStream.current_ st' /\
    (Z.of_nat (length (WriteStream.buffer_ st')) = current_size_ st' /\
     WriteStream.end_ st' = current_size_ st' /\ initial_size_ st' <= current_size_ st' /\
     current_size_ st' <= 2 * (WriteStream.current_ st' + n) + initial_size_ st').
Proof.
  intros [Hb He Hc [Hp Hi] Hs] Hn Hneed Hroom; unfold room in Hroom; unfold Resize.
  assert (exists inc, (if n >? current_size_ st
      then let* m := RoundUp bits n (initial_size_ st) in Ok (to_s bits m)
      else Ok (current_size_ st)) = Ok inc /\ n <= inc /\
      current_size_ st + inc <= 2 * (WriteStream.current_ st + n) + initial_size_ st) as (inc & -> & Hinc & Hle).
  { rewrite Z.gtb_ltb; destruct (Z.ltb_spec (current_size_ st) n).
    - destruct (RoundUp_ok n (initial_size_ st)) as (y & -> & Hy); [done | lia | done | lia |].
      exists y; cbn [obind]; rewrite to_s_id by (unfold in_s; lia); split_and!; [done | lia | lia].
    - exists (current_size_ st); split_and!; [done | lia | lia]. }
  cbn [obind]; rewrite to_s_id by (unfold in_s; lia).
  rewrite (proj2 (Z.gtb_lt _ _)) by lia.
  destruct (Halloc (WriteStream.buffer_ st) (current_size_ st) (current_size_ st + inc)) as (blk & -> & Hl & Ht);
    [lia | lia |].
  rewrite (proj2 (Z.gtb_lt _ _)) by lia; eexists; split; [done |].
  cbn [WriteStream.current_ WriteStream.end_ WriteStream.buffer_ initial_size_ current_size_]; split_and!; try lia.
  unfold written; cbn [WriteStream.current_ WriteStream.buffer_].
  rewrite <- Ht, take_take; f_equal; lia.
Qed.

(** [st'] is [st] with [bs] appended. *)
Record appends (bs : list Z) (st st' : t) : Prop := mk_appends {
  app_ok : ws_ok st';
  app_written : written st' = written st ++ bs;
  app_current : WriteStream.current_ st' = WriteStream.current_ st + Z.of_nat (length bs);
  app_initial : initial_size_ st' = initial_size_ st
}.

Lemma appends_trans bs1 bs2 st1 st2 st3 :
  appends bs1 st1 st2 -> appends bs2 st2 st3 -> appends (bs1 ++ bs2) st1 st3.
Proof.
  intros [_ W1 C1 I1] [O2 W2 C2 I2]; split; [done | | rewrite length_app; lia | congruence].
  rewrite W2, W1, app_assoc; done.
Qed.

(** A write of [bs] succeeds where there is room for it. *)
Definition writes (m : t -> outcome t) (bs : list Z) : Prop :=
  forall st, ws_ok st -> room (Z.of_nat (length bs)) st -> exists st', m st = Ok st' /\ appends bs st st'.

Lemma room_after bs1 bs2 st st' :
  appends bs1 st st' -> room (Z.of_nat (length (bs1 ++ bs2))) st -> room (Z.of_nat (length bs2)) st'.
Proof. intros [_ _ C I]; unfold room; rewrite C, I, length_app; lia. Qed.

Lemma writes_then m1 m2 bs1 bs2 :
  writes m1 bs1 -> writes m2 bs2 -> writes (fun st => let* st := m1 st in m2 st) (bs1 ++ bs2).
Proof.
  intros H1 H2 st Hok Hr.
  destruct (H1 st Hok) as (st1 & -> & A1); [unfold room in *; rewrite length_app in Hr; lia |].
  destruct (H2 st1 (app_ok _ _ _ A1) (room_after _ _ _ _ A1 Hr)) as (st2 & E2 & A2).
  exists st2; split; [done |]; eapply appends_trans; done.
Qed.

(** The stream after an optional resize, as [WriteByte] and [WriteBytes] leave it. *)
Lemma reserve n st :
  ws_ok st -> 0 <= n -> room n st ->
  exists st', (if WriteStream.end_ st - WriteStream.current_ st <? n then Resize bits alloc_ n st else Ok st) = Ok st' /\
    written st' = written st /\ WriteStream.current_ st' = WriteStream.current_ st /\
    initial_size_ st' = initial_size_ st /\ n <= WriteStream.end_ st' - WriteStream.current_ st' /\
    Z.of_nat (length (WriteStream.buffer_ st')) = current_size_ st' /\
    WriteStream.end_ st' = current_size_ st' /\ initial_size_ st' <= current_size_ st' /\
    current_size_ st' <= 2 * (WriteStream.current_ st' + n) + initial_size_ st'.
Proof.
  intros Hok Hn Hr; destruct (Z.ltb_spec (WriteStream.end_ st - WriteStream.current_ st) n) as [Hlt | Hge].
  - destruct (Resize_ok n st Hok ltac:(destruct Hok; lia) Hlt Hr) as (st' & E & W & C & I & R & B).
    exists st'; split; [done |]; destruct B as (? & ? & ? & ?); done.
  - exists st; destruct Hok as [Hb He Hc [Hp Hi] Hs]; split_and!; done || lia.
Qed.

Lemma copy_to_ok bs c st :
  0 <= c -> c + Z.of_nat (length bs) <= Z.of_nat (length (WriteStream.buffer_ st)) ->
  copy_to c bs st = Ok (mk (take (Z.to_nat c) (WriteStream.buffer_ st) ++ bs ++
      drop (Z.to_nat c + length bs) (WriteStream.buffer_ st))
    (WriteStream.end_ st) (WriteStream.current_ st) (current_size_ st) (initial_size_ st)).
Proof.
  revert c st; induction bs as [| b bs IH]; intros c st Hc Hl; cbn [copy_to length app] in *.
  - rewrite Nat.add_0_r, take_drop; destruct st; done.
  - unfold store_at at 1; rewrite (proj2 (Z.leb_le 0 c)), (proj2 (Z.ltb_lt c _)) by lia; cbn [andb obind].
    rewrite IH by (cbn; rewrite ?length_insert; lia).
    cbn [WriteStream.buffer_ WriteStream.end_ WriteStream.current_ current_size_ initial_size_].
    f_equal; f_equal; replace (Z.to_nat (c + 1)) with (S (Z.to_nat c)) by lia.
    rewrite (take_S_r _ _ b) by (apply list_lookup_insert_eq; lia).
    rewrite take_insert_ge, <- app_assoc, drop_insert_lt by lia; cbn [app]; do 4 f_equal; lia.
Qed.

(** Bytes stored at the current position of a reserved stream. *)
Lemma store_bytes bs st0 st :
  ws_ok st0 -> written st = written st0 -> WriteStream.current_ st = WriteStream.current_ st0 ->
  initial_size_ st = initial_size_ st0 ->
  Z.of_nat (length bs) <= WriteStream.end_ st - WriteStream.current_ st ->
  Z.of_nat (length (WriteStream.buffer_ st)) = current_size_ st ->
  WriteStream.end_ st = current_size_ st -> initial_size_ st <= current_size_ st ->
  current_size_ st <= 2 * (WriteStream.current_ st + Z.of_nat (length bs)) + initial_size_ st ->
  exists st', (let* st := copy_to (WriteStream.current_ st) bs st in
     Ok (set_current (WriteStream.current_ st + Z.of_nat (length bs)) st)) = Ok st' /\ appends bs st0 st'.
Proof.
  intros [_ _ Hc0 [Hp Hi] _] W C I R B E Hini Hs.
  rewrite copy_to_ok by lia; cbn [obind]; eexists; split; [done |].
  unfold set_current; cbn [WriteStream.buffer_ WriteStream.end_ WriteStream.current_ current_size_ initial_size_].
  split; cbn [WriteStream.buffer_ WriteStream.end_ WriteStream.current_ current_size_ initial_size_]; [| | lia | done].
  - split; cbn; [| done | lia | split; [congruence | lia] | lia].
    rewrite !length_app, length_take, length_drop; lia.
  - rewrite <- W; unfold written; cbn [WriteStream.buffer_ WriteStream.current_].
    rewrite app_assoc, take_app_length'; [done |].
    rewrite length_app, length_take; lia.
Qed.

Lemma WriteBytes_writes bs : writes (WriteBytes bits alloc_ bs) bs.
Proof.
  intros st Hok Hr; unfold WriteBytes; cbv zeta.
  destruct (reserve (Z.of_nat (length bs)) st Hok ltac:(lia) Hr)
    as (st1 & -> & W & C & I & R & B & E & Hini & Hs); cbn [obind].
  rewrite Z.geb_leb, (proj2 (Z.leb_le _ _)) by lia; apply store_bytes; done.
Qed.

Lemma WriteByte_writes v : writes (WriteByte bits alloc_ v) [to_u 8 v].
Proof.
  intros st Hok Hr; unfold WriteByte.
  destruct (reserve 1 st Hok ltac:(lia) Hr) as (st1 & E1 & W & C & I & R & B & E & Hini & Hs).
  replace (WriteStream.current_ st >=? WriteStream.end_ st)
    with (WriteStream.end_ st - WriteStream.current_ st <? 1)
    by (rewrite Z.geb_leb; destruct (Z.ltb_spec (WriteStream.end_ st - WriteStream.current_ st) 1),
          (Z.leb_spec (WriteStream.end_ st) (WriteStream.current_ st)); lia || done).
  rewrite E1; cbn [obind]; rewrite (proj2 (Z.ltb_lt _ _)) by lia.
  destruct (store_bytes [to_u 8 v] st st1) as (st2 & E2 & A2); try done.
  cbn [copy_to] in E2; destruct (store_at _ _ st1); [| discriminate]; cbn [obind] in *; eauto.
Qed.

Lemma writes_ext m m' bs : (forall st, m st = m' st) -> writes m bs -> writes m' bs.
Proof. intros E H st Hok Hr; rewrite <- E; auto. Qed.

Lemma byte_group v : to_u 8 (Z.land v kByteMask) = v mod 128.
Proof.
  change kByteMask with (Z.ones 7); rewrite Z.land_ones by lia; change (2 ^ 7) with 128.
  pose proof (Z.mod_pos_bound v 128 ltac:(lia)); apply to_u_id; unfold in_u; lia.
Qed.

Lemma last_byte v : 128 <= v <= 255 -> writes (WriteByte bits alloc_ v) [v].
Proof.
  intros Hv; pose proof (WriteByte_writes v) as H; rewrite (to_u_id 8 v) in H by (unfold in_u; lia); done.
Qed.

Lemma write_loop_writes n v :
  ends_in stop_signed (S n) v ->
  writes (write_loop bits alloc_ n v) (groups stop_signed kEndByteMarker (S n) v).
Proof.
  revert v; induction n as [| n IH]; intros v He; rewrite groups_S; cbn [write_loop];
    replace ((v <? kMinDataPerByte) || (v >? kMaxDataPerByte)) with (negb (stop_signed v))
      by (unfold stop_signed; rewrite Z.gtb_ltb, negb_andb, !Z.leb_antisym, !negb_involutive; done);
    destruct (stop_signed v) eqn:E; cbn [negb].
  all: try (apply last_byte, stop_signed_byte; done).
  - destruct He as [He | []]; congruence.
  - destruct He as [He | He]; [congruence |].
    rewrite <- byte_group, Z.shiftr_div_pow2 by (unfold kDataBitsPerByte; lia).
    apply writes_then; [apply WriteByte_writes | apply IH; done].
Qed.

Lemma write_unsigned_loop_writes n v :
  0 <= v -> ends_in stop_unsigned (S n) v ->
  writes (write_unsigned_loop bits alloc_ n v) (groups stop_unsigned kEndUnsignedByteMarker (S n) v).
Proof.
  revert v; induction n as [| n IH]; intros v Hv He; rewrite groups_S; cbn [write_unsigned_loop];
    replace (v >? kMaxUnsignedDataPerByte) with (negb (stop_unsigned v))
      by (unfold stop_unsigned; rewrite (proj2 (Z.leb_le 0 v)), Z.gtb_ltb, andb_true_l, Z.leb_antisym, negb_involutive by done; done);
    destruct (stop_unsigned v) eqn:E; cbn [negb].
  all: try (apply last_byte, stop_unsigned_byte; done).
  - destruct He as [He | []]; congruence.
  - destruct He as [He | He]; [congruence |].
    rewrite <- byte_group, Z.shiftr_div_pow2 by (unfold kDataBitsPerByte; lia).
    apply writes_then; [apply WriteByte_writes | apply IH; [apply Z.div_pos; lia | done]].
Qed.
End Writing.

(** * Streams of items *)
Inductive item : Type :=
| Int (N v : Z)
| Unsigned (v : Z)
| Bytes (bs : list Z).

Inductive kind : Type := KInt (N : Z) | KUnsigned | KBytes (len : Z).

Definition kind_of (i : item) : kind :=
  match i with
  | Int N _ => KInt N
  | Unsigned _ => KUnsigned
  | Bytes bs => KBytes (Z.of_nat (length bs))
  end.

Definition item_ok (bits : Z) (i : item) : Prop :=
  match i with
  | Int N v => (N = 1 \/ N = 2 \/ N = 4 \/ N = 8) /\ in_s (8 * N) v
  | Unsigned v => in_u (bits - 1) v
  | Bytes bs => True
  end.

Definition item_bytes (i : item) : list Z :=
  match i with
  | Int N v => if N =? 1 then [to_u 8 v] else signed_bytes v
  | Unsigned v => unsigned_bytes v
  | Bytes bs => bs
  end.

Definition write_item bits alloc_ (i : item) : WriteStream.t -> outcome WriteStream.t :=
  match i with
  | Int N v => WriteStream.Raw_Write bits alloc_ N v
  | Unsigned v => WriteStream.WriteUnsigned bits alloc_ v
  | Bytes bs => WriteStream.WriteBytes bits alloc_ bs
  end.

Definition read_item bits (k : kind) (st : ReadStream) : outcome (item * ReadStream) :=
  match k with
  | KInt N => let* (v, st) := Raw_Read N st in Ok (Int N v, st)
  | KUnsigned => let* (v, st) := ReadUnsigned bits st in Ok (Unsigned v, st)
  | KBytes len => let* (bs, st) := ReadBytes len st in Ok (Bytes bs, st)
  end.

Fixpoint write_items bits alloc_ (items : list item) (st : WriteStream.t) : outcome WriteStream.t :=
  match items with
  | [] => Ok st
  | i :: items => let* st := write_item bits alloc_ i st in write_items bits alloc_ items st
  end.

Fixpoint read_items bits (ks : list kind) (st : ReadStream) : outcome (list item * ReadStream) :=
  match ks with
  | [] => Ok ([], st)
  | k :: ks =>
      let* (i, st) := read_item bits k st in
      let* (items, st) := read_items bits ks st in
      Ok (i :: items, st)
  end.

Definition items_bytes (items : list item) : list Z := concat (map item_bytes items).

Lemma write_item_writes bits alloc_ i :
  bits = 32 \/ bits = 64 -> allocates alloc_ -> item_ok bits i ->
  writes bits (write_item bits alloc_ i) (item_bytes i).
Proof.
  intros Hb Ha; destruct i as [N v | v | bs]; cbn [item_ok item_bytes write_item].
  - intros [HN Hv]; unfold WriteStream.Raw_Write; destruct (Z.eqb_spec N 1) as [-> | Hn].
    + apply WriteByte_writes; done.
    + apply (write_loop_writes bits Hb alloc_ Ha 10), signed_ends; unfold in_s in *.
      assert (2 ^ (8 * N - 1) <= 2 ^ 63) by (apply Z.pow_le_mono_r; lia); cbn in *; lia.
  - intros Hv; unfold WriteStream.WriteUnsigned; intros st Hok Hr.
    rewrite Z.geb_leb, !(proj2 (Z.leb_le _ _)) by (unfold in_u in Hv; lia); cbn [andb].
    apply (write_unsigned_loop_writes bits Hb alloc_ Ha 10); [unfold in_u in Hv; lia | | done | done].
    apply unsigned_ends; unfold in_u in *.
    assert (2 ^ (bits - 1) <= 2 ^ 63) by (apply Z.pow_le_mono_r; lia); cbn in *; lia.
  - intros _; apply WriteBytes_writes; done.
Qed.

Lemma write_items_writes bits alloc_ items :
  bits = 32 \/ bits = 64 -> allocates alloc_ -> Forall (item_ok bits) items ->
  writes bits (write_items bits alloc_ items) (items_bytes items).
Proof.
  intros Hb Ha; induction 1 as [| i items Hi _ IH].
  - intros st Hok _; exists st; split; [done |]; split; cbn; try done; [rewrite app_nil_r; done | lia].
  - apply (writes_then bits Hb (write_item bits alloc_ i)); [apply write_item_writes; done | done].
Qed.

Lemma read_item_holds bits i st :
  bits = 32 \/ bits = 64 -> item_ok bits i -> holds st (current_ st) (item_bytes i) ->
  read_item bits (kind_of i) st =
  Ok (i, at_current (current_ st + Z.of_nat (length (item_bytes i))) st).
Proof.
  intros Hb; destruct i as [N v | v | bs]; cbn [item_ok item_bytes kind_of read_item].
  - intros [HN Hv]; destruct (Z.eqb_spec N 1) as [-> | Hn]; intros Hh.
    + apply holds_cons in Hh as [Hn _]; unfold Raw_Read, ReadByte; cbn [Z.eqb Pos.eqb].
      rewrite Hn; cbn [obind length]; rewrite to_s_to_u, to_s_id by (done || lia); done.
    + rewrite (Read_signed N st v) by (done || lia); done.
  - intros Hv Hh; rewrite (ReadUnsigned_groups bits st v) by done; done.
  - intros _ Hh; rewrite ReadBytes_holds by done; done.
Qed.

Lemma holds_app st c bs1 bs2 :
  holds st c (bs1 ++ bs2) -> holds st c bs1 /\ holds st (c + Z.of_nat (length bs1)) bs2.
Proof.
  intros (Hc & He & H); rewrite length_app in He; split; split_and!; try lia; intros i b Hi.
  - apply H; rewrite lookup_app_l; [done |]; apply lookup_lt_Some in Hi; done.
  - replace (Z.to_nat (c + Z.of_nat (length bs1)) + i)%nat with (Z.to_nat c + (length bs1 + i))%nat by lia.
    apply H; rewrite lookup_app_r by lia; rewrite <- Hi; f_equal; lia.
Qed.

Lemma read_items_holds bits items st :
  bits = 32 \/ bits = 64 -> Forall (item_ok bits) items -> holds st (current_ st) (items_bytes items) ->
  read_items bits (map kind_of items) st =
  Ok (items, at_current (current_ st + Z.of_nat (length (items_bytes items))) st).
Proof.
  intros Hb Hok; revert st; induction Hok as [| i items Hi _ IH]; intros st Hh; cbn [map read_items].
  - cbn; rewrite Z.add_0_r; destruct st; done.
  - unfold items_bytes in *; cbn [map concat] in *; apply holds_app in Hh as [H1 H2].
    rewrite (read_item_holds bits i) by done; cbn [obind]; rewrite IH by done.
    rewrite length_app, Nat2Z.inj_add, Z.add_assoc; done.
Qed.

(** C28. Whatever sequence of integers of any width, unsigned integers and byte
    ranges is written to a new stream, every write succeeds (the loops end and the
    buffer grows as needed), and reading the buffer with the same sequence of
    types yields the same values and consumes exactly the bytes written, as long
    as their number leaves twice its size representable. *)
Theorem stream_roundtrip bits alloc_ initial_size items :
  bits = 32 \/ bits = 64 -> allocates alloc_ ->
  0 < initial_size -> IsPowerOfTwo initial_size = true -> Forall (item_ok bits) items ->
  2 * Z.of_nat (length (items_bytes items)) + initial_size < 2 ^ (bits - 1) ->
  exists st0 st, WriteStream.new alloc_ initial_size = Ok st0 /\
    write_items bits alloc_ items st0 = Ok st /\
    let n := WriteStream.bytes_written st in
    read_items bits (map kind_of items) (new_ReadStream (WriteStream.buffer_ st) n) =
    Ok (items, mkReadStream (WriteStream.buffer_ st) n n).
Proof.
  intros Hb Ha Hini Hp Hok Hlen.
  destruct (Ha [] 0 initial_size) as (blk & Hal & Hbl & _); [done | done |].
  unfold WriteStream.new; rewrite Hal.
  destruct (write_items_writes bits alloc_ items Hb Ha Hok
    (WriteStream.mk blk initial_size 0 initial_size initial_size)) as (st & E & A).
  - split; cbn; done || lia.
  - unfold room; cbn; lia.
  - eexists _, st; split; [done |]; split; [exact E |]; cbv zeta; destruct A as [[Hblk _ Hcur _ _] W C _]; cbn in C, W.
    unfold WriteStream.bytes_written; rewrite read_items_holds; try done.
    + cbn [at_current new_ReadStream buffer_ current_ end_]; rewrite C; done.
    + split_and!; cbn; [lia | lia |]; intros i b Hi.
      change (written st = items_bytes items) in W; rewrite <- W in Hi.
      apply lookup_take_Some in Hi as [Hi _]; done.
Qed.

(** * A concrete stream *)
Definition grow (block : list Z) (old_size new_size : Z) : option (list Z) :=
  Some (block ++ replicate (Z.to_nat (new_size - old_size)) 0).

Lemma grow_allocates : allocates grow.
Proof.
  intros block old new -> Hn; eexists; split; [done |]; split.
  - rewrite length_app, length_replicate; lia.
  - apply take_app_length.
Qed.

Lemma stream_roundtrip_witness :
  exists st0 st, WriteStream.new grow 4 = Ok st0 /\
    write_items 64 grow [Int 8 (- 2 ^ 63); Unsigned 300; Bytes [1; 2; 3]; Int 2 (-1000)] st0 = Ok st /\
    let n := WriteStream.bytes_written st in
    read_items 64 [KInt 8; KUnsigned; KBytes 3; KInt 2] (new_ReadStream (WriteStream.buffer_ st) n) =
    Ok ([Int 8 (- 2 ^ 63); Unsigned 300; Bytes [1; 2; 3]; Int 2 (-1000)],
        mkReadStream (WriteStream.buffer_ st) n n).
Proof.
  apply (stream_roundtrip 64 grow 4 [Int 8 (- 2 ^ 63); Unsigned 300; Bytes [1; 2; 3]; Int 2 (-1000)]).
  - right; reflexivity.
  - apply grow_allocates.
  - lia.
  - reflexivity.
  - repeat (apply Forall_cons_2; [cbn; unfold in_s, in_u; lia |]); apply Forall_nil_2.
  - vm_compute; reflexivity.
Defined.
