(* ===== verification/Unicode.v ===== *)
(** UTF-8 and UTF-16 ([vm/unicode.h], [vm/unicode.cc]) and the iterator over the
    code points of a string ([String::CodePointIterator] in [vm/object.cc]).

    An array with its length is the list of its elements; a pointer into it is
    the rest of the list.  A destination is the list of its elements, and a store
    outside of it is a fault. *)
From stdpp Require Import base numbers list.
From Stdlib Require Import ZArith Lia Bool.
From S2P Require Import Prelude.
#[local] Open Scope Z_scope.

(** * Code points *)
Definition kMaxCodePoint : Z := 0x10FFFF.
Definition IsLatin1 (code_point : Z) : bool := (code_point >=? 0) && (code_point <=? 0xFF).
Definition IsBmp (code_point : Z) : bool := (code_point >=? 0) && (code_point <=? 0xFFFF).
Definition IsSupplementary (code_point : Z) : bool :=
  (code_point >? 0xFFFF) && (code_point <=? kMaxCodePoint).
Definition IsOutOfRange (code_point : Z) : bool :=
  (code_point <? 0) || (code_point >? kMaxCodePoint).

(** * UTF-16 *)
Module Utf16.

Definition kMaxCodeUnit : Z := 0xFFFF.
Definition kLeadSurrogateOffset : Z := 0xD800 - Z.shiftr 0x10000 10.

Definition Length (ch : Z) : Z := if ch <=? kMaxCodeUnit then 1 else 2.
Definition IsSurrogate (ch : Z) : bool := uint32 (Z.land ch 0xFFFFF800) =? 0xD800.
Definition IsLeadSurrogate (ch : Z) : bool := uint32 (Z.land ch 0xFFFFFC00) =? 0xD800.
Definition IsTrailSurrogate (ch : Z) : bool := uint32 (Z.land ch 0xFFFFFC00) =? 0xDC00.

Definition Decode (lead trail : Z) : Z :=
  0x10000 + Z.shiftl (Z.land lead 0x3FF) 10 + Z.land trail 0x3FF.

(** The two units stored at [dst]. *)
Definition Encode (codepoint : Z) : outcome (Z * Z) :=
  ASSERT codepoint >? kMaxCodeUnit ;;
  Ok (to_u 16 (kLeadSurrogateOffset + Z.shiftr codepoint 10),
      to_u 16 (0xDC00 + Z.land codepoint 0x3FF)).

(** The character at [i], and the index of the next one. *)
Definition Next (characters : list Z) (i len : Z) : outcome (Z * Z) :=
  let* ch := match characters !! Z.to_nat i with Some ch => Ok ch | None => Err (HostFault i) end in
  if IsLeadSurrogate ch && (i <? len - 1) then
    let* ch2 := match characters !! Z.to_nat (i + 1) with
                | Some ch => Ok ch | None => Err (HostFault (i + 1)) end in
    if IsTrailSurrogate ch2 then Ok (Decode ch ch2, i + 2) else Ok (ch, i + 1)
  else Ok (ch, i + 1).

End Utf16.

(** * UTF-8 *)
Module Utf8.

Inductive Type_ : Type := kLatin1 | kBMP | kSupplementary.

Definition kMaxOneByteChar : Z := 0x7F.
Definition kMaxTwoByteChar : Z := 0x7FF.
Definition kMaxThreeByteChar : Z := 0xFFFF.
Definition kMaxFourByteChar : Z := kMaxCodePoint.

Definition IsTrailByte (code_unit : Z) : bool := Z.land code_unit 0xC0 =? 0x80.
Definition IsLatin1SequenceStart (code_unit : Z) : bool := code_unit <=? 0xC3.
Definition IsSupplementarySequenceStart (code_unit : Z) : bool := code_unit >=? 0xF0.

(** The table, in runs of equal entries. *)
Definition kTrailBytes : list Z :=
  replicate 128 1 ++ replicate 64 0 ++ replicate 32 2 ++ replicate 16 3
  ++ [4; 4; 4; 4; 4; 4; 4; 4; 5; 5; 5; 5; 6; 6; 0; 0].

Definition kMagicBits : list Z :=
  [0; 0x00000000; 0x00003080; 0x000E2080; 0x03C82080; 0xFA082080; 0x82082080].

Definition kOverlongMinimum : list Z := [0; 0x0; 0x80; 0x800; 0x10000; 0xFFFFFFFF; 0xFFFFFFFF].

Definition IsNonShortestForm (code_point num_code_units : Z) : bool :=
  code_point <? nth (Z.to_nat num_code_units) kOverlongMinimum 0.

(** One iteration of the loop of [CodeUnitCount]. *)
Definition count_unit (len_type : Z * Type_) (code_unit : Z) : Z * Type_ :=
  let '(len, char_type) := len_type in
  if negb (IsTrailByte code_unit) then
    let len := len + 1 in
    if negb (IsLatin1SequenceStart code_unit) then
      if IsSupplementarySequenceStart code_unit then (len + 1, kSupplementary)
      else match char_type with
           | kLatin1 => (len, kBMP)
           | _ => (len, char_type)
           end
    else (len, char_type)
  else (len, char_type).

Definition CodeUnitCount (utf8_array : list Z) : Z * Type_ :=
  fold_left count_unit utf8_array (0, kLatin1).

(** The loop over the bytes after the first; nothing where the array ends. *)
Fixpoint trail_loop (n : nat) (rest : list Z) (is_malformed : bool) (ch : Z)
  : option (bool * Z) :=
  match n with
  | O => Some (is_malformed, ch)
  | S n =>
      match rest with
      | [] => None
      | code_unit :: rest =>
          trail_loop n rest (is_malformed || negb (IsTrailByte code_unit))
            (uint32 (Z.shiftl ch 6 + code_unit))
      end
  end.

(** The sequence at the start of the array, as [IsValid] and [Decode] read it:
    the character and the number of its bytes, or nothing if it is not valid. *)
Definition read_sequence (first : Z) (rest : list Z) : option (Z * Z) :=
  let ch := Z.land first 0xFF in
  if ch >=? 0x80 then
    let num_trail_bytes := nth (Z.to_nat ch) kTrailBytes 0 in
    match trail_loop (Z.to_nat (num_trail_bytes - 1)) rest false ch with
    | None => None
    | Some (is_malformed, ch) =>
        let j := Z.max 1 num_trail_bytes in
        let ch := uint32 (ch - nth (Z.to_nat num_trail_bytes) kMagicBits 0) in
        if negb is_malformed && (j =? num_trail_bytes) && negb (IsOutOfRange ch)
           && negb (IsNonShortestForm ch j) && negb (Utf16.IsSurrogate ch)
        then Some (ch, j) else None
    end
  else Some (ch, 1).

Fixpoint is_valid_loop (fuel : nat) (utf8_array : list Z) : outcome bool :=
  match utf8_array with
  | [] => Ok true
  | first :: rest =>
      match fuel with
      | O => Err OutOfFuel
      | S fuel =>
          match read_sequence first rest with
          | None => Ok false
          | Some (_, j) => is_valid_loop fuel (drop (Z.to_nat j) utf8_array)
          end
      end
  end.

(** Every iteration consumes a byte. *)
Definition IsValid (utf8_array : list Z) : outcome bool :=
  is_valid_loop (length utf8_array) utf8_array.

Definition Length (ch : Z) : outcome Z :=
  if ch <=? kMaxOneByteChar then Ok 1
  else if ch <=? kMaxTwoByteChar then Ok 2
  else if ch <=? kMaxThreeByteChar then Ok 3
  else ASSERT ch <=? kMaxFourByteChar ;; Ok 4.

Definition kMask : Z := Z.lnot (Z.shiftl 1 6).

(** The bytes stored at [dst]. *)
Definition Encode (ch : Z) : outcome (list Z) :=
  if ch <=? kMaxOneByteChar then Ok [to_u 8 ch]
  else if ch <=? kMaxTwoByteChar then
    Ok [to_u 8 (Z.lor 0xC0 (Z.shiftr ch 6));
        to_u 8 (Z.lor 0x80 (Z.land ch kMask))]
  else if ch <=? kMaxThreeByteChar then
    Ok [to_u 8 (Z.lor 0xE0 (Z.shiftr ch 12));
        to_u 8 (Z.lor 0x80 (Z.land (Z.shiftr ch 6) kMask));
        to_u 8 (Z.lor 0x80 (Z.land ch kMask))]
  else
    ASSERT ch <=? kMaxFourByteChar ;;
    Ok [to_u 8 (Z.lor 0xF0 (Z.shiftr ch 18));
        to_u 8 (Z.lor 0x80 (Z.land (Z.shiftr ch 12) kMask));
        to_u 8 (Z.lor 0x80 (Z.land (Z.shiftr ch 6) kMask));
        to_u 8 (Z.lor 0x80 (Z.land ch kMask))].

(** The number of bytes, and the character stored at [dst]. *)
Definition Decode (utf8_array : list Z) : outcome (Z * Z) :=
  match utf8_array with
  | [] => Err (HostFault 0)
  | first :: rest =>
      match read_sequence first rest with
      | None => Ok (0, -1)
      | Some (ch, i) => Ok (i, int32 ch)
      end
  end.

(** A store at [dst[j]]. *)
Definition store (j value : Z) (dst : list Z) : outcome (list Z) :=
  if (0 <=? j) && (j <? Z.of_nat (length dst)) then Ok (<[Z.to_nat j := value]> dst)
  else Err (HostFault j).

(** What the three decoders do with a character: [put ch first j dst] stores the
    character whose sequence starts with [first] at [dst[j]] and yields the next
    [j]; [utf8_array] is what is left of the array. *)
Fixpoint decode_loop (put : Z -> Z -> Z -> list Z -> outcome (Z * list Z))
  (fuel : nat) (utf8_array : list Z) (j len : Z) (dst : list Z) : outcome (bool * list Z) :=
  match utf8_array with
  | [] => Ok (true, dst)
  | first :: _ =>
      if j <? len then
        match fuel with
        | O => Err OutOfFuel
        | S fuel =>
            let* (num_bytes, ch) := Decode utf8_array in
            if ch =? -1 then Ok (false, dst)
            else
              let* (j, dst) := put ch first j dst in
              decode_loop put fuel (drop (Z.to_nat num_bytes) utf8_array) j len dst
        end
      else Ok (negb (j =? len), dst)
  end.

Definition put_latin1 (ch first j : Z) (dst : list Z) : outcome (Z * list Z) :=
  ASSERT IsLatin1 ch ;;
  let* dst := store j (to_u 8 ch) dst in
  Ok (j + 1, dst).

Definition put_utf16 (ch first j : Z) (dst : list Z) : outcome (Z * list Z) :=
  if IsSupplementarySequenceStart first then
    let* (lead, trail) := Utf16.Encode ch in
    let* dst := store j lead dst in
    let* dst := store (j + 1) trail dst in
    Ok (j + 2, dst)
  else
    let* dst := store j (to_u 16 ch) dst in
    Ok (j + 1, dst).

Definition put_utf32 (ch first j : Z) (dst : list Z) : outcome (Z * list Z) :=
  let* dst := store j ch dst in
  Ok (j + 1, dst).

(** [DecodeToLatin1] also asserts, before it decodes a sequence, that its first
    byte starts a Latin-1 character. *)
Fixpoint decode_latin1_loop (fuel : nat) (utf8_array : list Z) (j len : Z) (dst : list Z)
  : outcome (bool * list Z) :=
  match utf8_array with
  | [] => Ok (true, dst)
  | first :: _ =>
      if j <? len then
        match fuel with
        | O => Err OutOfFuel
        | S fuel =>
            ASSERT IsLatin1SequenceStart first ;;
            let* (num_bytes, ch) := Decode utf8_array in
            if ch =? -1 then Ok (false, dst)
            else
              let* (j, dst) := put_latin1 ch first j dst in
              decode_latin1_loop fuel (drop (Z.to_nat num_bytes) utf8_array) j len dst
        end
      else Ok (negb (j =? len), dst)
  end.

Definition DecodeToLatin1 (utf8_array dst : list Z) (len : Z) : outcome (bool * list Z) :=
  decode_latin1_loop (length utf8_array) utf8_array 0 len dst.
Definition DecodeToUTF16 (utf8_array dst : list Z) (len : Z) : outcome (bool * list Z) :=
  decode_loop put_utf16 (length utf8_array) utf8_array 0 len dst.
Definition DecodeToUTF32 (utf8_array dst : list Z) (len : Z) : outcome (bool * list Z) :=
  decode_loop put_utf32 (length utf8_array) utf8_array 0 len dst.

End Utf8.

(** * Code points of a string *)
Module CodePointIterator.

Record t : Type := mk { str_ : list Z; ch_ : Z; index_ : Z; end_ : Z }.

Definition new (str : list Z) : t := mk str 0 (-1) (Z.of_nat (length str)).

Definition CharAt (str : list Z) (index : Z) : outcome Z :=
  match str !! Z.to_nat index with Some ch => Ok ch | None => Err (HostFault index) end.

Definition Current (it : t) : outcome Z :=
  ASSERT index_ it >=? 0 ;; ASSERT index_ it <? end_ it ;; Ok (ch_ it).

Definition Next (it : t) : outcome (bool * t) :=
  ASSERT index_ it >=? -1 ;;
  let length := Utf16.Length (ch_ it) in
  if index_ it <? end_ it - length then
    let index := index_ it + length in
    let* ch := CharAt (str_ it) index in
    if Utf16.IsLeadSurrogate ch && (index <? end_ it - 1) then
      let* ch2 := CharAt (str_ it) (index + 1) in
      let ch := if Utf16.IsTrailSurrogate ch2 then Utf16.Decode ch ch2 else ch in
      Ok (true, mk (str_ it) ch index (end_ it))
    else Ok (true, mk (str_ it) ch index (end_ it))
  else Ok (false, mk (str_ it) (ch_ it) (end_ it) (end_ it)).

(** [Utf8::Encode(const String& src, char* dst, intptr_t len)]: the bytes that are
    stored; the result is their number. *)
Fixpoint encode_loop (fuel : nat) (it : t) (pos len : Z) : outcome (list Z) :=
  let* (more, it) := Next it in
  if more : bool then
    match fuel with
    | O => Err OutOfFuel
    | S fuel =>
        let* ch := Current it in
        let* num_bytes := Utf8.Length ch in
        if pos + num_bytes >? len then Ok []
        else
          let* bytes := Utf8.Encode ch in
          let* rest := encode_loop fuel it (pos + num_bytes) len in
          Ok (bytes ++ rest)
    end
  else Ok [].

Definition EncodeString (src : list Z) (len : Z) : outcome (list Z) :=
  encode_loop (length src) (new src) 0 len.

Fixpoint length_loop (fuel : nat) (it : t) (length : Z) : outcome Z :=
  let* (more, it) := Next it in
  if more : bool then
    match fuel with
    | O => Err OutOfFuel
    | S fuel =>
        let* ch := Current it in
        let* n := Utf8.Length ch in
        length_loop fuel it (length + n)
    end
  else Ok length.

Definition LengthString (str : list Z) : outcome Z := length_loop (length str) (new str) 0.

End CodePointIterator.
