(* ===== verification/UnicodeProofs.v ===== *)
(** UTF-8 decoding is the inverse of encoding, validation accepts exactly the
    encodings, and the conversions between UTF-8 and UTF-16 preserve the code
    points. *)
From stdpp Require Import base numbers list.
From Stdlib Require Import ZArith Lia Bool.
From S2P Require Import Prelude Unicode.
#[local] Open Scope Z_scope.

(** * The encodings *)
(** The code points that an encoding represents: no surrogates. *)
Definition scalar (c : Z) : Prop := 0 <= c <= 0x10FFFF /\ ~ 0xD800 <= c <= 0xDFFF.

Definition utf8 (c : Z) : list Z :=
  if c <=? 0x7F then [c]
  else if c <=? 0x7FF then [192 + c / 64; 128 + c mod 64]
  else if c <=? 0xFFFF then [224 + c / 4096; 128 + c / 64 mod 64; 128 + c mod 64]
  else [240 + c / 262144; 128 + c / 4096 mod 64; 128 + c / 64 mod 64; 128 + c mod 64].

Definition utf16 (c : Z) : list Z :=
  if c <=? 0xFFFF then [c] else [0xD800 + (c - 0x10000) / 1024; 0xDC00 + c mod 1024].

Definition utf8_string (cs : list Z) : list Z := concat (map utf8 cs).
Definition utf16_string (cs : list Z) : list Z := concat (map utf16 cs).

Definition byte (b : Z) : Prop := 0 <= b < 256.

(** A statement on all bytes is checked byte by byte. *)
Lemma all_bytes (P : Z -> bool) :
  forallb (fun n => P (Z.of_nat n)) (seq 0 256) = true -> forall b, byte b -> P b = true.
Proof.
  intros H b [Hlo Hhi]; rewrite forallb_forall in H; rewrite <- (Z2Nat.id b) by lia.
  apply H, in_seq; lia.
Qed.

Lemma IsTrailByte_range b : byte b -> Utf8.IsTrailByte b = (128 <=? b) && (b <? 192).
Proof.
  intros Hb; apply eqb_prop; revert b Hb.
  apply all_bytes; vm_compute; reflexivity.
Qed.

Definition sequence_length (b : Z) : Z :=
  if b <? 128 then 1 else if b <? 192 then 0 else if b <? 224 then 2 else if b <? 240 then 3
  else if b <? 248 then 4 else if b <? 252 then 5 else if b <? 254 then 6 else 0.

Lemma kTrailBytes_length b : byte b -> nth (Z.to_nat b) Utf8.kTrailBytes 0 = sequence_length b.
Proof.
  intros Hb; apply Z.eqb_eq; revert b Hb.
  apply all_bytes; vm_compute; reflexivity.
Qed.

Lemma land_byte b : byte b -> Z.land b 0xFF = b.
Proof. intros; change 0xFF with (Z.ones 8); rewrite Z.land_ones, Z.mod_small by (unfold byte in *; lia); done. Qed.

(** The masks of the surrogate tests keep the upper bits. *)
Lemma land_upper c k :
  0 <= k <= 32 -> 0 <= c < 2 ^ 32 -> uint32 (Z.land c (2 ^ 32 - 2 ^ k)) = c / 2 ^ k * 2 ^ k.
Proof.
  intros Hk Hc; rewrite <- Z.shiftr_div_pow2, <- Z.shiftl_mul_pow2, <- Z.ldiff_ones_r by lia.
  apply Z.bits_inj'; intros i Hi; rewrite testbit_to_u, Z.land_spec, Z.ldiff_spec by lia.
  replace (2 ^ 32 - 2 ^ k) with (Z.ldiff (Z.ones 32) (Z.ones k)).
  - rewrite Z.ldiff_spec, !Z.testbit_ones_nonneg by lia; destruct (Z.ltb_spec i 32); cbn; [done |].
    rewrite <- (Z.mod_small c (2 ^ 32)), Z.mod_pow2_bits_high by lia; done.
  - rewrite Z.ldiff_ones_r, Z.shiftr_div_pow2, Z.shiftl_mul_pow2, Z.ones_equiv by lia.
    replace 32 with (32 - k + k) at 1 by lia; rewrite Z.pow_add_r by lia.
    pose proof (pow2_pos k ltac:(lia)); pose proof (pow2_pos (32 - k) ltac:(lia)).
    replace (Z.pred (2 ^ (32 - k) * 2 ^ k)) with ((2 ^ (32 - k) - 1) * 2 ^ k + (2 ^ k - 1)) by lia.
    rewrite Z.div_add_l, (Z.div_small (2 ^ k - 1)) by lia.
    replace (2 ^ 32) with (2 ^ (32 - k) * 2 ^ k) by (rewrite <- Z.pow_add_r by lia; f_equal; lia); lia.
Qed.

Lemma IsSurrogate_range c : 0 <= c < 2 ^ 32 -> Utf16.IsSurrogate c = (0xD800 <=? c) && (c <=? 0xDFFF).
Proof.
  intros Hc; unfold Utf16.IsSurrogate; change 0xFFFFF800 with (2 ^ 32 - 2 ^ 11).
  rewrite land_upper by lia; change (2 ^ 11) with 2048.
  destruct (Z.eqb_spec (c / 2048 * 2048) 0xD800), (Z.leb_spec 0xD800 c), (Z.leb_spec c 0xDFFF); cbn;
    try done; exfalso; Z.div_mod_to_equations; lia.
Qed.

Lemma IsLeadSurrogate_range c :
  0 <= c < 2 ^ 32 -> Utf16.IsLeadSurrogate c = (0xD800 <=? c) && (c <=? 0xDBFF).
Proof.
  intros Hc; unfold Utf16.IsLeadSurrogate; change 0xFFFFFC00 with (2 ^ 32 - 2 ^ 10).
  rewrite land_upper by lia; change (2 ^ 10) with 1024.
  destruct (Z.eqb_spec (c / 1024 * 1024) 0xD800), (Z.leb_spec 0xD800 c), (Z.leb_spec c 0xDBFF); cbn;
    try done; exfalso; Z.div_mod_to_equations; lia.
Qed.

Lemma IsTrailSurrogate_range c :
  0 <= c < 2 ^ 32 -> Utf16.IsTrailSurrogate c = (0xDC00 <=? c) && (c <=? 0xDFFF).
Proof.
  intros Hc; unfold Utf16.IsTrailSurrogate; change 0xFFFFFC00 with (2 ^ 32 - 2 ^ 10).
  rewrite land_upper by lia; change (2 ^ 10) with 1024.
  destruct (Z.eqb_spec (c / 1024 * 1024) 0xDC00), (Z.leb_spec 0xDC00 c), (Z.leb_spec c 0xDFFF); cbn;
    try done; exfalso; Z.div_mod_to_equations; lia.
Qed.

(** * The encoder *)
Lemma trail_byte x : to_u 8 (Z.lor 0x80 (Z.land x Utf8.kMask)) = 128 + x mod 64.
Proof.
  assert (128 + x mod 64 = Z.lor 128 (x mod 2 ^ 6)) as ->.
  { change 128 with (Z.shiftl 2 6); rewrite lor_shiftl_add; [done | lia |].
    apply Z.mod_pos_bound; lia. }
  apply Z.bits_inj'; intros i Hi; rewrite testbit_to_u, !Z.lor_spec, Z.land_spec by lia.
  destruct (Z.ltb_spec i 8).
  - destruct (Z.lt_ge_cases i 6).
    + rewrite Z.mod_pow2_bits_low by lia.
      assert (Z.testbit Utf8.kMask i = true) as ->; [| rewrite andb_true_r; done].
      unfold Utf8.kMask; rewrite Z.lnot_spec, Z.shiftl_spec by lia.
      rewrite (Z.testbit_neg_r 1) by lia; done.
    + rewrite Z.mod_pow2_bits_high by lia.
      assert (i = 6 \/ i = 7) as [-> | ->] by lia; [| done].
      change (Z.testbit Utf8.kMask 6) with false; rewrite andb_false_r; done.
  - rewrite Z.mod_pow2_bits_high by lia; cbn [andb].
    change 128 with (2 ^ 7); rewrite Z.pow2_bits_eqb by lia; destruct (Z.eqb_spec 7 i); [lia | done].
Qed.

Lemma lead_byte M m x k :
  M = m * 2 ^ k -> 0 <= k <= 8 -> 0 <= x < 2 ^ k -> 0 <= M + x < 256 -> to_u 8 (Z.lor M x) = M + x.
Proof.
  intros -> Hk Hx Hm; pose proof (lor_shiftl_add m x k ltac:(lia) Hx) as E.
  rewrite Z.shiftl_mul_pow2 in E by lia; rewrite E; apply to_u_id; done.
Qed.

Lemma Encode_utf8 c :
  0 <= c <= 0x10FFFF ->
  Utf8.Encode c = Ok (utf8 c) /\ Utf8.Length c = Ok (Z.of_nat (length (utf8 c))).
Proof.
  intros Hc; unfold Utf8.Encode, Utf8.Length, utf8, Utf8.kMaxOneByteChar, Utf8.kMaxTwoByteChar,
    Utf8.kMaxThreeByteChar, Utf8.kMaxFourByteChar, kMaxCodePoint.
  rewrite !trail_byte, !Z.shiftr_div_pow2 by lia.
  change (2 ^ 6) with 64; change (2 ^ 12) with 4096; change (2 ^ 18) with 262144.
  repeat case_match; rewrite ?Z.leb_le, ?Z.leb_gt in *; split; try done || lia.
  - rewrite to_u_id by (unfold in_u; lia); done.
  - rewrite (lead_byte 192 6 (c / 64) 5) by (try done; Z.div_mod_to_equations; lia); done.
  - rewrite (lead_byte 224 14 (c / 4096) 4) by (try done; Z.div_mod_to_equations; lia); done.
  - rewrite (lead_byte 240 30 (c / 262144) 3) by (try done; Z.div_mod_to_equations; lia); done.
Qed.

(** * The decoder *)
Lemma uint32_small z : 0 <= z < 2 ^ 32 -> uint32 z = z.
Proof. apply to_u_id. Qed.

(** The tests on a decoded character. *)
Lemma checks_scalar c n :
  0 <= c < 2 ^ 32 ->
  negb (IsOutOfRange c) && negb (Utf8.IsNonShortestForm c n) && negb (Utf16.IsSurrogate c) = true <->
  scalar c /\ nth (Z.to_nat n) Utf8.kOverlongMinimum 0 <= c.
Proof.
  intros Hc; rewrite !andb_true_iff, !negb_true_iff, IsSurrogate_range by done.
  unfold IsOutOfRange, Utf8.IsNonShortestForm, scalar, kMaxCodePoint.
  rewrite orb_false_iff, andb_false_iff, Z.gtb_ltb, !Z.ltb_ge, !Z.leb_gt; lia.
Qed.

Lemma overlong_5_6 c n : n = 5 \/ n = 6 -> scalar c -> nth (Z.to_nat n) Utf8.kOverlongMinimum 0 <= c -> False.
Proof. unfold scalar; intros [-> | ->] Hs H; change (0xFFFFFFFF <= c) in H; lia. Qed.

(** The sequence [first :: rest] with [n] bytes announced. *)
Lemma read_sequence_trail first rest c j :
  byte first -> 128 <= first ->
  Utf8.read_sequence first rest = Some (c, j) <->
  exists ch, Utf8.trail_loop (Z.to_nat (sequence_length first - 1)) rest false first = Some (false, ch) /\
    c = uint32 (ch - nth (Z.to_nat (sequence_length first)) Utf8.kMagicBits 0) /\
    j = sequence_length first /\ 1 <= j /\ scalar c /\ nth (Z.to_nat j) Utf8.kOverlongMinimum 0 <= c.
Proof.
  intros Hb Hf; unfold Utf8.read_sequence.
  rewrite land_byte, Z.geb_leb, (proj2 (Z.leb_le 0x80 first)), kTrailBytes_length by done.
  set (n := sequence_length first); destruct (Utf8.trail_loop _ _ _ _) as [[m ch] |];
    [| split; [done | intros (? & ? & _); done]].
  set (c' := uint32 (ch - _)); assert (0 <= c' < 2 ^ 32) as Hc by (apply to_u_range; lia).
  rewrite <- !andb_assoc; split.
  - destruct m; cbn [negb andb]; [done |]; destruct (Z.eqb_spec (Z.max 1 n) n) as [E | E]; [| done].
    rewrite andb_true_l, andb_assoc; destruct (_ && _ && _) eqn:Ec; [| done].
    intros H; injection H as <- <-; apply checks_scalar in Ec as [Hs Ho]; [| done].
    assert (1 <= n) by lia; rewrite E in Ho |- *; exists ch; split_and!; done.
  - intros (ch' & H & -> & -> & Hn & Hs & Ho); injection H as -> <-; cbn [negb andb].
    replace (Z.max 1 n) with n by lia; rewrite Z.eqb_refl, andb_true_l, andb_assoc.
    rewrite (proj2 (checks_scalar c' n Hc)) by done; done.
Qed.

Ltac byte_cases := unfold sequence_length in *; repeat case_match; rewrite ?Z.ltb_lt, ?Z.ltb_ge in *.

(** The bytes after the first, one by one. *)
Lemma trail_loop_S n rest m ch r :
  Forall byte rest ->
  Utf8.trail_loop (S n) rest m ch = Some (false, r) <->
  exists b rest', rest = b :: rest' /\ 128 <= b < 192 /\ m = false /\
    Utf8.trail_loop n rest' false (uint32 (ch * 64 + b)) = Some (false, r).
Proof.
  intros Hr; destruct rest as [| b rest]; cbn [Utf8.trail_loop];
    [split; [done | intros (? & ? & ? & _); done] |].
  inversion Hr as [| ? ? Hb _]; subst; rewrite IsTrailByte_range, Z.shiftl_mul_pow2 by (done || lia).
  change (2 ^ 6) with 64.
  assert (forall n rest ch, Utf8.trail_loop n rest true ch <> Some (false, r)) as Hmal.
  { clear; induction n as [| n IH]; intros [| b rest] ch; cbn; congruence || apply IH. }
  destruct (Z.leb_spec 128 b), (Z.ltb_spec b 192), m; cbn [andb orb negb]; split.
  all: try (intros H'; exfalso; eapply Hmal; exact H').
  all: try (intros (b' & rest' & E & ? & ? & _); injection E as <- <-; lia || congruence).
  - intros H'; exists b, rest; split_and!; done.
  - intros (b' & rest' & E & _ & _ & H'); injection E as <- <-; done.
Qed.

Lemma sequence_length_cases b :
  byte b -> 128 <= b ->
  sequence_length b = 2 /\ 192 <= b < 224 \/ sequence_length b = 3 /\ 224 <= b < 240 \/
  sequence_length b = 4 /\ 240 <= b < 248 \/ sequence_length b = 5 \/ sequence_length b = 6 \/
  sequence_length b = 0.
Proof. unfold byte; intros; byte_cases; lia. Qed.

(** The value of a sequence of [n] bytes, and the bytes of the value. *)
Lemma sequence_2 b0 b1 :
  192 <= b0 < 224 -> 128 <= b1 < 192 ->
  let c := uint32 (uint32 (b0 * 64 + b1) - 0x3080) in
  c = (b0 - 192) * 64 + (b1 - 128) /\ (0x80 <= c -> utf8 c = [b0; b1]).
Proof.
  intros H0 H1; cbv zeta; rewrite (uint32_small (b0 * 64 + b1)), uint32_small by lia; split; [lia |].
  intros Hc; unfold utf8; rewrite (proj2 (Z.leb_gt _ _)), (proj2 (Z.leb_le _ _)) by lia.
  repeat f_equal; Z.div_mod_to_equations; lia.
Qed.

Lemma sequence_3 b0 b1 b2 :
  224 <= b0 < 240 -> 128 <= b1 < 192 -> 128 <= b2 < 192 ->
  let c := uint32 (uint32 (uint32 (b0 * 64 + b1) * 64 + b2) - 0xE2080) in
  c = (b0 - 224) * 4096 + (b1 - 128) * 64 + (b2 - 128) /\ (0x800 <= c -> utf8 c = [b0; b1; b2]).
Proof.
  intros H0 H1 H2; cbv zeta; rewrite (uint32_small (b0 * 64 + b1)), (uint32_small (_ * 64 + b2)),
    uint32_small by lia; split; [lia |].
  intros Hc; unfold utf8; rewrite !(proj2 (Z.leb_gt _ _)), (proj2 (Z.leb_le _ _)) by lia.
  repeat f_equal; Z.div_mod_to_equations; lia.
Qed.

Lemma sequence_4 b0 b1 b2 b3 :
  240 <= b0 < 248 -> 128 <= b1 < 192 -> 128 <= b2 < 192 -> 128 <= b3 < 192 ->
  let c := uint32 (uint32 (uint32 (uint32 (b0 * 64 + b1) * 64 + b2) * 64 + b3) - 0x3C82080) in
  c = (b0 - 240) * 262144 + (b1 - 128) * 4096 + (b2 - 128) * 64 + (b3 - 128) /\
  (0x10000 <= c -> utf8 c = [b0; b1; b2; b3]).
Proof.
  intros H0 H1 H2 H3; cbv zeta; rewrite (uint32_small (b0 * 64 + b1)), (uint32_small (_ * 64 + b2)),
    (uint32_small (_ * 64 + b3)), uint32_small by lia; split; [lia |].
  intros Hc; unfold utf8; rewrite !(proj2 (Z.leb_gt _ _)) by lia.
  repeat f_equal; Z.div_mod_to_equations; lia.
Qed.

(** What the decoder accepts is the encoding of what it returns. *)
Lemma read_sequence_sound first rest c j :
  byte first -> Forall byte rest -> Utf8.read_sequence first rest = Some (c, j) ->
  scalar c /\ j = Z.of_nat (length (utf8 c)) /\ exists rest', first :: rest = utf8 c ++ rest'.
Proof.
  intros Hb Hr; destruct (Z.lt_ge_cases first 128) as [Hlt | Hge].
  - unfold Utf8.read_sequence; rewrite land_byte, Z.geb_leb, (proj2 (Z.leb_gt _ _)) by done.
    intros H; injection H as <- <-; unfold utf8; rewrite (proj2 (Z.leb_le _ _)) by lia.
    unfold scalar, byte in *; split; [lia |]; split; [done | exists rest; done].
  - rewrite read_sequence_trail by done; intros (ch & Ht & -> & -> & Hj & Hs & Ho).
    split; [done |].
    destruct (sequence_length_cases first Hb Hge) as [[E Hf] | [[E Hf] | [[E Hf] | [E | [E | E]]]]];
      rewrite E in *; try (exfalso; eapply overlong_5_6; [| exact Hs | exact Ho]; lia); try lia.
    + apply trail_loop_S in Ht as (b1 & r1 & -> & H1 & _ & Ht); [| done].
      injection Ht as <-; change (nth (Z.to_nat 2) Utf8.kMagicBits 0) with 0x3080 in *.
      destruct (sequence_2 first b1 Hf H1) as [_ ->]; [| exact Ho].
      split; [done | exists r1; done].
    + apply trail_loop_S in Ht as (b1 & r1 & -> & H1 & _ & Ht); [| done].
      apply Forall_cons in Hr as [_ Hr].
      apply trail_loop_S in Ht as (b2 & r2 & -> & H2 & _ & Ht); [| done].
      injection Ht as <-; change (nth (Z.to_nat 3) Utf8.kMagicBits 0) with 0xE2080 in *.
      destruct (sequence_3 first b1 b2 Hf H1 H2) as [_ ->]; [| exact Ho].
      split; [done | exists r2; done].
    + apply trail_loop_S in Ht as (b1 & r1 & -> & H1 & _ & Ht); [| done].
      apply Forall_cons in Hr as [_ Hr].
      apply trail_loop_S in Ht as (b2 & r2 & -> & H2 & _ & Ht); [| done].
      apply Forall_cons in Hr as [_ Hr].
      apply trail_loop_S in Ht as (b3 & r3 & -> & H3 & _ & Ht); [| done].
      injection Ht as <-; change (nth (Z.to_nat 4) Utf8.kMagicBits 0) with 0x3C82080 in *.
      destruct (sequence_4 first b1 b2 b3 Hf H1 H2 H3) as [_ ->]; [| exact Ho].
      split; [done | exists r3; done].
Qed.

(** The decoder reads an encoding back. *)
Lemma trail_loop_cons n b rest ch r :
  128 <= b < 192 -> Utf8.trail_loop n rest false (uint32 (ch * 64 + b)) = r ->
  Utf8.trail_loop (S n) (b :: rest) false ch = r.
Proof.
  intros Hb H; cbn [Utf8.trail_loop]; rewrite IsTrailByte_range by (unfold byte; lia).
  rewrite (proj2 (Z.leb_le _ _)), (proj2 (Z.ltb_lt _ _)), Z.shiftl_mul_pow2 by lia; done.
Qed.

Lemma read_sequence_utf8 c :
  scalar c -> exists first tail, utf8 c = first :: tail /\ byte first /\ Forall byte tail /\
    forall rest, Utf8.read_sequence first (tail ++ rest) = Some (c, Z.of_nat (length (utf8 c))).
Proof.
  intros Hs; assert (0 <= c <= 0x10FFFF) as Hc by apply Hs.
  unfold utf8; destruct (Z.leb_spec c 0x7F); [| destruct (Z.leb_spec c 0x7FF); [| destruct (Z.leb_spec c 0xFFFF)]];
    eexists _, _; (split; [reflexivity |]); unfold byte; (split; [Z.div_mod_to_equations; lia |]);
    (split; [repeat (apply Forall_cons_2; [Z.div_mod_to_equations; lia |]); apply Forall_nil_2 |]); intros rest.
  - unfold Utf8.read_sequence; rewrite land_byte, Z.geb_leb, (proj2 (Z.leb_gt _ _)) by (unfold byte; lia); done.
  - pose proof (Z.mod_pos_bound c 64 ltac:(lia)); assert (192 <= 192 + c / 64 < 224) as Hf by (Z.div_mod_to_equations; lia).
    assert (sequence_length (192 + c / 64) = 2) as E by (byte_cases; lia).
    rewrite read_sequence_trail, E by (unfold byte; lia); eexists; split;
      [apply trail_loop_cons; [lia |]; reflexivity |].
    destruct (sequence_2 (192 + c / 64) (128 + c mod 64) Hf ltac:(lia)) as [Ec _].
    change (nth (Z.to_nat 2) Utf8.kMagicBits 0) with 0x3080.
    cbn [length]; change (Z.of_nat 2) with 2.
    change (nth (Z.to_nat 2) Utf8.kOverlongMinimum 0) with 0x80.
    rewrite Ec; unfold scalar in *; split_and!; try done; Z.div_mod_to_equations; lia.
  - pose proof (Z.mod_pos_bound c 64 ltac:(lia)); pose proof (Z.mod_pos_bound (c / 64) 64 ltac:(lia)).
    assert (224 <= 224 + c / 4096 < 240) as Hf by (Z.div_mod_to_equations; lia).
    assert (sequence_length (224 + c / 4096) = 3) as E by (byte_cases; lia).
    rewrite read_sequence_trail, E by (unfold byte; lia); eexists; split;
      [do 2 (apply trail_loop_cons; [lia |]); reflexivity |].
    destruct (sequence_3 (224 + c / 4096) (128 + c / 64 mod 64) (128 + c mod 64) Hf ltac:(lia) ltac:(lia)) as [Ec _].
    change (nth (Z.to_nat 3) Utf8.kMagicBits 0) with 0xE2080.
    cbn [length]; change (Z.of_nat 3) with 3.
    change (nth (Z.to_nat 3) Utf8.kOverlongMinimum 0) with 0x800.
    rewrite Ec; unfold scalar in *; split_and!; try done; Z.div_mod_to_equations; lia.
  - pose proof (Z.mod_pos_bound c 64 ltac:(lia)); pose proof (Z.mod_pos_bound (c / 64) 64 ltac:(lia)).
    pose proof (Z.mod_pos_bound (c / 4096) 64 ltac:(lia)).
    assert (240 <= 240 + c / 262144 < 248) as Hf by (Z.div_mod_to_equations; lia).
    assert (sequence_length (240 + c / 262144) = 4) as E by (byte_cases; lia).
    rewrite read_sequence_trail, E by (unfold byte; lia); eexists; split;
      [do 3 (apply trail_loop_cons; [lia |]); reflexivity |].
    destruct (sequence_4 (240 + c / 262144) (128 + c / 4096 mod 64) (128 + c / 64 mod 64) (128 + c mod 64)
      Hf ltac:(lia) ltac:(lia) ltac:(lia)) as [Ec _].
    change (nth (Z.to_nat 4) Utf8.kMagicBits 0) with 0x3C82080.
    cbn [length]; change (Z.of_nat 4) with 4.
    change (nth (Z.to_nat 4) Utf8.kOverlongMinimum 0) with 0x10000.
    rewrite Ec; unfold scalar in *; split_and!; try done; Z.div_mod_to_equations; lia.
Qed.

Lemma Decode_utf8 c rest :
  scalar c -> Utf8.Decode (utf8 c ++ rest) = Ok (Z.of_nat (length (utf8 c)), c).
Proof.
  intros Hs; destruct (read_sequence_utf8 c Hs) as (first & tail & E & _ & _ & H).
  rewrite E in *; unfold Utf8.Decode; cbn [app]; rewrite H, to_s_id; [done | lia |].
  destruct Hs; unfold in_s; lia.
Qed.

(** A code point that is not a surrogate is encoded in the number of bytes
    that [Length] announces, as UTF-8 prescribes, and decoding these bytes,
    whatever follows them, yields the code point and consumes exactly them. *)
Theorem Utf8_roundtrip c rest :
  scalar c ->
  Utf8.Encode c = Ok (utf8 c) /\ Utf8.Length c = Ok (Z.of_nat (length (utf8 c))) /\
  Utf8.Decode (utf8 c ++ rest) = Ok (Z.of_nat (length (utf8 c)), c).
Proof.
  intros Hs; destruct (Encode_utf8 c) as [HE HL]; [apply Hs |].
  split_and!; [done | done | apply Decode_utf8; done].
Qed.

(** * Validation *)
Lemma utf8_nonempty c : utf8 c <> [].
Proof. unfold utf8; repeat case_match; done. Qed.

Lemma is_valid_loop_spec fuel bs :
  Forall byte bs -> (length bs <= fuel)%nat ->
  exists b, Utf8.is_valid_loop fuel bs = Ok b /\
    (b = true <-> exists cs, Forall scalar cs /\ bs = utf8_string cs).
Proof.
  revert bs; induction fuel as [| fuel IH]; intros [| first rest] Hb Hl; cbn [length] in Hl; try lia;
    cbn [Utf8.is_valid_loop]; try (exists true; split; [done |]; split; [| done]; intros _; exists []; done).
  apply Forall_cons in Hb as [Hf Hr]; destruct (Utf8.read_sequence first rest) as [[c j] |] eqn:E.
  - destruct (read_sequence_sound first rest c j Hf Hr E) as (Hs & -> & rest' & E').
    rewrite E', Nat2Z.id, drop_app_length; destruct (IH rest') as (b & Hv & Hiff).
    + apply (Forall_app byte (utf8 c)); rewrite <- E'; apply Forall_cons; done.
    + apply (f_equal length) in E'; rewrite length_app in E'; cbn in E'.
      pose proof (utf8_nonempty c) as Hn; destruct (utf8 c); [done | cbn in E'; lia].
    + exists b; split; [done |]; rewrite Hiff; split.
      * intros (cs & Hcs & ->); exists (c :: cs); split; [apply Forall_cons; done | done].
      * intros ([| c' cs] & Hcs & E2); [destruct (utf8 c) eqn:Eu; [destruct (utf8_nonempty c Eu) | done] |].
        apply Forall_cons in Hcs as [Hc' Hcs]; exists cs; split; [done |].
        unfold utf8_string in E2; cbn [map concat] in E2.
        pose proof (Decode_utf8 c rest' Hs) as D1; rewrite E2 in D1.
        rewrite (Decode_utf8 c' _ Hc') in D1; injection D1 as _ ->.
        apply app_inv_head in E2; done.
  - exists false; split; [done |]; split; [done |].
    intros ([| c cs] & Hcs & E2); [done |]; apply Forall_cons in Hcs as [Hc _].
    destruct (read_sequence_utf8 c Hc) as (f & tail & Eu & _ & _ & H).
    unfold utf8_string in E2; cbn [map concat] in E2; rewrite Eu in E2; injection E2 as -> ->.
    rewrite H in E; done.
Qed.

(** C27. Validation always ends, and accepts an array of bytes exactly if it is
    the UTF-8 encoding of a sequence of code points: no overlong forms, no
    surrogates, no code points out of range, no truncated sequences. *)
Theorem IsValid_iff bs :
  Forall byte bs ->
  exists b, Utf8.IsValid bs = Ok b /\
    (b = true <-> exists cs, Forall scalar cs /\ bs = utf8_string cs).
Proof. intros Hb; apply is_valid_loop_spec; done. Qed.

(** * From UTF-8 to UTF-16 *)
Definition type_of (c : Z) : Utf8.Type_ :=
  if c <=? 0xFF then Utf8.kLatin1 else if c <=? 0xFFFF then Utf8.kBMP else Utf8.kSupplementary.

Definition join (t1 t2 : Utf8.Type_) : Utf8.Type_ :=
  match t1, t2 with
  | Utf8.kLatin1, t => t
  | Utf8.kBMP, Utf8.kSupplementary => Utf8.kSupplementary
  | _, _ => t1
  end.

Lemma count_trail len t b : 128 <= b < 192 -> Utf8.count_unit (len, t) b = (len, t).
Proof.
  intros Hb; unfold Utf8.count_unit; rewrite IsTrailByte_range by (unfold byte; lia).
  rewrite (proj2 (Z.leb_le _ _)), (proj2 (Z.ltb_lt _ _)) by lia; done.
Qed.

Lemma count_first len t b :
  0 <= b < 128 \/ 192 <= b < 256 ->
  Utf8.count_unit (len, t) b =
  if b <=? 0xC3 then (len + 1, t)
  else if b >=? 0xF0 then (len + 2, Utf8.kSupplementary) else (len + 1, join t Utf8.kBMP).
Proof.
  intros Hb; unfold Utf8.count_unit, Utf8.IsLatin1SequenceStart, Utf8.IsSupplementarySequenceStart.
  rewrite IsTrailByte_range by (unfold byte; lia).
  assert ((128 <=? b) && (b <? 192) = false) as ->
    by (destruct (Z.leb_spec 128 b), (Z.ltb_spec b 192); cbn; lia || done).
  cbn [negb]; destruct (b <=? 0xC3); [done |]; cbn [negb]; destruct (b >=? 0xF0); [f_equal; lia |].
  destruct t; done.
Qed.

Lemma count_utf8 len t c :
  0 <= c <= 0x10FFFF ->
  fold_left Utf8.count_unit (utf8 c) (len, t) =
  (len + Z.of_nat (length (utf16 c)), join t (type_of c)).
Proof.
  intros Hc; pose proof (Z.mod_pos_bound c 64 ltac:(lia)); pose proof (Z.mod_pos_bound (c / 64) 64 ltac:(lia)).
  pose proof (Z.mod_pos_bound (c / 4096) 64 ltac:(lia)).
  unfold utf8, utf16, type_of; destruct (Z.leb_spec c 0x7F);
    [| destruct (Z.leb_spec c 0x7FF); [| destruct (Z.leb_spec c 0xFFFF)]]; cbn [fold_left];
    (rewrite count_first by (Z.div_mod_to_equations; lia)).
  - rewrite !(proj2 (Z.leb_le _ _)) by lia; destruct t; done.
  - rewrite (proj2 (Z.leb_le c 0xFFFF)) by lia; destruct (Z.leb_spec c 0xFF).
    + rewrite (proj2 (Z.leb_le _ _)) by (Z.div_mod_to_equations; lia).
      rewrite count_trail by lia; destruct t; done.
    + rewrite (proj2 (Z.leb_gt _ _)), Z.geb_leb, (proj2 (Z.leb_gt _ _)) by (Z.div_mod_to_equations; lia).
      rewrite count_trail by lia; destruct t; done.
  - rewrite (proj2 (Z.leb_gt c 0xFF)), (proj2 (Z.leb_gt _ 0xC3)), Z.geb_leb, (proj2 (Z.leb_gt _ _))
      by (Z.div_mod_to_equations; lia).
    rewrite !count_trail by lia; destruct t; done.
  - rewrite (proj2 (Z.leb_gt c 0xFF)), (proj2 (Z.leb_gt _ 0xC3)), Z.geb_leb, (proj2 (Z.leb_le _ _))
      by (Z.div_mod_to_equations; lia).
    rewrite !count_trail by lia; destruct t; done.
Qed.

Lemma join_assoc t1 t2 t3 : join (join t1 t2) t3 = join t1 (join t2 t3).
Proof. destruct t1, t2, t3; done. Qed.

Lemma CodeUnitCount_utf8 cs :
  Forall scalar cs ->
  Utf8.CodeUnitCount (utf8_string cs) =
  (Z.of_nat (length (utf16_string cs)), foldr (fun c t => join (type_of c) t) Utf8.kLatin1 cs).
Proof.
  intros Hcs; unfold Utf8.CodeUnitCount.
  assert (forall len t, fold_left Utf8.count_unit (utf8_string cs) (len, t) =
    (len + Z.of_nat (length (utf16_string cs)),
     join t (foldr (fun c t => join (type_of c) t) Utf8.kLatin1 cs))) as H; [| apply H].
  induction Hcs as [| c cs Hc _ IH]; intros len t; unfold utf8_string, utf16_string in *; cbn [map concat].
  - cbn; rewrite Z.add_0_r; destruct t; done.
  - rewrite fold_left_app, count_utf8, IH, length_app by apply Hc; cbn [foldr].
    rewrite join_assoc, Nat2Z.inj_add, Z.add_assoc; done.
Qed.

Lemma store_app pre x suf v :
  Utf8.store (Z.of_nat (length pre)) v (pre ++ x :: suf) = Ok (pre ++ v :: suf).
Proof.
  unfold Utf8.store; rewrite length_app; cbn [length].
  rewrite (proj2 (Z.leb_le _ _)), (proj2 (Z.ltb_lt _ _)), Nat2Z.id, insert_app_r_alt, Nat.sub_diag by lia; done.
Qed.

(** The units of a character, as [DecodeToUTF16] stores them. *)
Lemma put_utf16_units c first tail pre suf :
  scalar c -> utf8 c = first :: tail -> (length (utf16 c) <= length suf)%nat ->
  Utf8.put_utf16 c first (Z.of_nat (length pre)) (pre ++ suf) =
  Ok (Z.of_nat (length (pre ++ utf16 c)), (pre ++ utf16 c) ++ drop (length (utf16 c)) suf).
Proof.
  intros [Hc _] E Hl; unfold Utf8.put_utf16, Utf8.IsSupplementarySequenceStart.
  assert ((first >=? 0xF0) = negb (c <=? 0xFFFF)) as ->.
  { rewrite Z.geb_leb; unfold utf8 in E; destruct (Z.leb_spec c 0x7F);
      [| destruct (Z.leb_spec c 0x7FF); [| destruct (Z.leb_spec c 0xFFFF)]]; injection E as <- _;
      destruct (Z.leb_spec 0xF0 c), (Z.leb_spec c 0xFFFF); try done; try lia;
      first [apply Z.leb_gt | apply Z.leb_le]; Z.div_mod_to_equations; lia. }
  unfold utf16 in *; destruct (Z.leb_spec c 0xFFFF); cbn [negb length] in *.
  - destruct suf as [| x suf]; [cbn in Hl; lia |]; rewrite (to_u_id 16) by (unfold in_u; lia).
    rewrite store_app; cbn [obind drop]; rewrite length_app, <- app_assoc; cbn [length app].
    do 2 f_equal; lia.
  - destruct suf as [| x [| y suf]]; [cbn in Hl; lia | cbn in Hl; lia |].
    unfold Utf16.Encode; rewrite (proj2 (Z.gtb_lt _ _)) by (unfold Utf16.kMaxCodeUnit; lia).
    cbn [obind]; rewrite store_app; cbn [obind].
    set (lead := to_u 16 (Utf16.kLeadSurrogateOffset + _)).
    replace (Z.of_nat (length pre) + 1) with (Z.of_nat (length (pre ++ [lead]))) by (rewrite length_app; cbn; lia).
    replace (pre ++ lead :: y :: suf) with ((pre ++ [lead]) ++ y :: suf) by (rewrite <- app_assoc; done).
    rewrite store_app; cbn [obind drop]; rewrite length_app, <- !app_assoc; cbn [app length].
    assert (lead = 0xD800 + (c - 0x10000) / 1024) as ->.
    { unfold lead, Utf16.kLeadSurrogateOffset; rewrite !Z.shiftr_div_pow2 by lia.
      change (2 ^ 10) with 1024; change (0x10000 / 1024) with 64.
      rewrite to_u_id; [Z.div_mod_to_equations; lia | unfold in_u; Z.div_mod_to_equations; lia]. }
    change 0x3FF with (Z.ones 10); rewrite Z.land_ones by lia; change (2 ^ 10) with 1024.
    rewrite (to_u_id 16 (0xDC00 + c mod 1024)) by (unfold in_u; pose proof (Z.mod_pos_bound c 1024); lia).
    do 2 f_equal; lia.
Qed.

Lemma utf16_nonempty c : (0 < length (utf16 c))%nat.
Proof. unfold utf16; case_match; cbn; lia. Qed.

Lemma decode_loop_utf16 cs fuel pre suf :
  Forall scalar cs -> (length cs <= fuel)%nat -> length suf = length (utf16_string cs) ->
  Utf8.decode_loop Utf8.put_utf16 fuel (utf8_string cs) (Z.of_nat (length pre))
    (Z.of_nat (length (pre ++ utf16_string cs))) (pre ++ suf) = Ok (true, pre ++ utf16_string cs).
Proof.
  intros Hcs; revert fuel pre suf; induction Hcs as [| c cs Hc _ IH]; intros fuel pre suf Hf Hl.
  - destruct suf; [| done]; destruct fuel; done.
  - destruct fuel as [| fuel]; [cbn in Hf; lia |].
    destruct (read_sequence_utf8 c Hc) as (first & tail & Eu & _ & _ & _).
    pose proof (Decode_utf8 c (utf8_string cs) Hc) as HD; pose proof (utf16_nonempty c).
    unfold utf8_string, utf16_string in *; cbn [map concat] in *; rewrite length_app in Hl.
    assert (forall X, Utf8.decode_loop Utf8.put_utf16 (S fuel) (utf8 c ++ X) = fun j len dst =>
      if j <? len then
        let* (num_bytes, ch) := Utf8.Decode (utf8 c ++ X) in
        if ch =? -1 then Ok (false, dst)
        else let* (j, dst) := Utf8.put_utf16 ch first j dst in
             Utf8.decode_loop Utf8.put_utf16 fuel (drop (Z.to_nat num_bytes) (utf8 c ++ X)) j len dst
      else Ok (negb (j =? len), dst)) as -> by (intros; rewrite Eu; done).
    cbv beta; rewrite (proj2 (Z.ltb_lt _ _)) by (rewrite !length_app; lia).
    rewrite HD; cbn [obind]; rewrite (proj2 (Z.eqb_neq c (-1))) by (destruct Hc; lia).
    rewrite (put_utf16_units c first tail) by (done || lia); cbn [obind].
    rewrite Nat2Z.id, drop_app_length, app_assoc; apply IH; [cbn in Hf; lia |].
    rewrite length_drop; lia.
Qed.

Lemma utf8_string_length cs : (length cs <= length (utf8_string cs))%nat.
Proof.
  induction cs as [| c cs IH]; [done |]; unfold utf8_string in *; cbn [map concat length]; rewrite length_app.
  pose proof (utf8_nonempty c); destruct (utf8 c); [done | cbn; lia].
Qed.

(** For the UTF-8 encoding of any sequence of code points, [CodeUnitCount]
    yields the number of UTF-16 units (and the narrowest form) the sequence needs,
    and [DecodeToUTF16] into a buffer of that size fills it with exactly the
    UTF-16 encoding, staying within its bounds, and reports success. *)
Theorem DecodeToUTF16_correct cs dst :
  Forall scalar cs -> Z.of_nat (length dst) = fst (Utf8.CodeUnitCount (utf8_string cs)) ->
  Utf8.CodeUnitCount (utf8_string cs) =
    (Z.of_nat (length (utf16_string cs)), foldr (fun c t => join (type_of c) t) Utf8.kLatin1 cs) /\
  Utf8.DecodeToUTF16 (utf8_string cs) dst (Z.of_nat (length dst)) = Ok (true, utf16_string cs).
Proof.
  intros Hcs; rewrite (CodeUnitCount_utf8 cs Hcs); cbn [fst]; intros Hl; split; [done |].
  rewrite Hl; apply (decode_loop_utf16 cs _ [] dst Hcs); [apply utf8_string_length | lia].
Qed.

(** * From UTF-16 to UTF-8 *)
Lemma Utf16_Length_utf16 c : Utf16.Length c = Z.of_nat (length (utf16 c)).
Proof. unfold Utf16.Length, Utf16.kMaxCodeUnit, utf16; case_match; done. Qed.

Lemma Utf16_Decode_pair c :
  0x10000 <= c <= 0x10FFFF -> Utf16.Decode (0xD800 + (c - 0x10000) / 1024) (0xDC00 + c mod 1024) = c.
Proof.
  intros Hc; unfold Utf16.Decode; change 0x3FF with (Z.ones 10); rewrite !Z.land_ones, Z.shiftl_mul_pow2 by lia.
  change (2 ^ 10) with 1024; pose proof (Z.mod_pos_bound c 1024 ltac:(lia)).
  assert (0 <= (c - 0x10000) / 1024 < 1024) by (Z.div_mod_to_equations; lia).
  replace (0xD800 + (c - 0x10000) / 1024) with ((c - 0x10000) / 1024 + 54 * 1024) by lia.
  replace (0xDC00 + c mod 1024) with (c mod 1024 + 55 * 1024) by lia.
  rewrite !Z_mod_plus_full, (Z.mod_small ((c - 0x10000) / 1024)), Zmod_mod by lia.
  Z.div_mod_to_equations; lia.
Qed.

Import CodePointIterator.

Lemma CharAt_app pre x suf : CharAt (pre ++ x :: suf) (Z.of_nat (length pre)) = Ok x.
Proof. unfold CharAt; rewrite Nat2Z.id, lookup_app_r, Nat.sub_diag by lia; done. Qed.

(** The iterator stands before [pre]'s end: the next character is [c]. *)
Lemma Next_char pre c cs ch index :
  scalar c -> -1 <= index -> index + Utf16.Length ch = Z.of_nat (length pre) ->
  let str := pre ++ utf16_string (c :: cs) in
  Next (mk str ch index (Z.of_nat (length str))) =
  Ok (true, mk str c (Z.of_nat (length pre)) (Z.of_nat (length str))).
Proof.
  intros Hc Hi Hp; pose proof (utf16_nonempty c) as Hn; cbv zeta; unfold utf16_string; cbn [map concat].
  unfold Next; cbn [index_ ch_ end_ str_]; rewrite Z.geb_leb, (proj2 (Z.leb_le _ _)), Hp by lia.
  rewrite (proj2 (Z.ltb_lt _ _)) by (rewrite !length_app; lia); destruct Hc as [Hr Hs].
  unfold utf16 in Hn |- *; destruct (Z.leb_spec c 0xFFFF); cbn [app].
  - rewrite CharAt_app; cbn [obind]; rewrite IsLeadSurrogate_range by lia.
    assert ((0xD800 <=? c) && (c <=? 0xDBFF) = false) as -> by lia; done.
  - assert (0 <= (c - 0x10000) / 1024 < 1024) by (Z.div_mod_to_equations; lia).
    pose proof (Z.mod_pos_bound c 1024 ltac:(lia)).
    rewrite CharAt_app; cbn [obind]; rewrite IsLeadSurrogate_range by lia.
    rewrite !(proj2 (Z.leb_le _ _)), (proj2 (Z.ltb_lt _ _)) by (rewrite ?length_app; cbn; lia); cbn [andb].
    set (lead := 0xD800 + _); replace (Z.of_nat (length pre) + 1) with (Z.of_nat (length (pre ++ [lead])))
      by (rewrite length_app; cbn; lia).
    rewrite (cons_middle lead pre), app_assoc, CharAt_app; cbn [obind].
    rewrite IsTrailSurrogate_range, !(proj2 (Z.leb_le _ _)) by lia; cbn [andb].
    unfold lead; rewrite Utf16_Decode_pair by lia; done.
Qed.

Lemma Next_end str ch index :
  -1 <= index -> index + Utf16.Length ch = Z.of_nat (length str) ->
  exists it, Next (mk str ch index (Z.of_nat (length str))) = Ok (false, it).
Proof.
  intros Hi Hp; unfold Next; cbn [index_ ch_ end_ str_]; rewrite Z.geb_leb, (proj2 (Z.leb_le _ _)) by lia.
  rewrite (proj2 (Z.ltb_ge _ _)) by lia; eexists; done.
Qed.

Lemma encode_loop_utf16 cs fuel pre ch index pos len :
  Forall scalar cs -> (length cs <= fuel)%nat -> -1 <= index ->
  index + Utf16.Length ch = Z.of_nat (length pre) -> pos + Z.of_nat (length (utf8_string cs)) <= len ->
  let str := pre ++ utf16_string cs in
  encode_loop fuel (mk str ch index (Z.of_nat (length str))) pos len = Ok (utf8_string cs) /\
  length_loop fuel (mk str ch index (Z.of_nat (length str))) pos = Ok (pos + Z.of_nat (length (utf8_string cs))).
Proof.
  intros Hcs; revert fuel pre ch index pos; induction Hcs as [| c cs Hc _ IH];
    intros fuel pre ch index pos Hf Hi Hp Hl; cbv zeta.
  - destruct (Next_end (pre ++ []) ch index Hi) as [it E]; [rewrite app_nil_r; done |].
    unfold utf16_string; cbn [map concat]; destruct fuel; cbn [encode_loop length_loop];
      rewrite E; cbn; rewrite Z.add_0_r; done.
  - destruct fuel as [| fuel]; [cbn in Hf; lia |].
    cbn [encode_loop length_loop]; rewrite (Next_char pre c cs ch index Hc Hi Hp); cbn [obind].
    set (str := pre ++ utf16_string (c :: cs)).
    assert (str = (pre ++ utf16 c) ++ utf16_string cs) as Estr
      by (unfold str, utf16_string; cbn; rewrite app_assoc; done).
    pose proof (utf16_nonempty c) as Hn.
    assert (Z.of_nat (length pre) < Z.of_nat (length str)) by (rewrite Estr, !length_app; lia).
    unfold Current; cbn [index_ end_ ch_]; rewrite Z.geb_leb, (proj2 (Z.leb_le _ _)), (proj2 (Z.ltb_lt _ _)) by lia.
    destruct (Encode_utf8 c (proj1 Hc)) as [HE HL]; cbn [obind]; rewrite HL, HE; cbn [obind].
    assert (utf8_string (c :: cs) = utf8 c ++ utf8_string cs) as Eb by done; rewrite Eb, length_app in *.
    rewrite Z.gtb_ltb, (proj2 (Z.ltb_ge _ _)) by lia; rewrite Estr.
    destruct (IH fuel (pre ++ utf16 c) c (Z.of_nat (length pre)) (pos + Z.of_nat (length (utf8 c)))) as [IH1 IH2];
      [cbn in Hf; lia | lia | rewrite Utf16_Length_utf16, length_app; lia | lia |].
    cbv zeta in IH1, IH2; rewrite IH1, IH2; cbn [obind]; split; [done | f_equal; lia].
Qed.

Lemma utf16_string_length cs : (length cs <= length (utf16_string cs))%nat.
Proof.
  induction cs as [| c cs IH]; [done |]; unfold utf16_string in *; cbn [map concat length]; rewrite length_app.
  pose proof (utf16_nonempty c); lia.
Qed.

(** For a string whose UTF-16 units encode a sequence of code points, the
    iterator visits exactly these code points: [Utf8::Length] is the size of their
    UTF-8 encoding and [Utf8::Encode] into a buffer at least that large stores
    exactly that encoding. *)
Theorem EncodeString_correct cs len :
  Forall scalar cs -> Z.of_nat (length (utf8_string cs)) <= len ->
  LengthString (utf16_string cs) = Ok (Z.of_nat (length (utf8_string cs))) /\
  EncodeString (utf16_string cs) len = Ok (utf8_string cs).
Proof.
  intros Hcs Hl; destruct (encode_loop_utf16 cs (length (utf16_string cs)) [] 0 (-1) 0 len Hcs
    (utf16_string_length cs) ltac:(lia) eq_refl ltac:(lia)) as [H1 H2]; split; [exact H2 | exact H1].
Qed.

(** * Concrete strings *)
(** "a", e acute, the euro sign and a smiley outside of the basic plane. *)
Definition sample : list Z := [0x61; 0xE9; 0x20AC; 0x1F600].

Lemma sample_scalar : Forall scalar sample.
Proof. repeat (apply Forall_cons_2; [unfold scalar; lia |]); apply Forall_nil_2. Qed.

Lemma Utf8_roundtrip_witness :
  Utf8.Encode 0x1F600 = Ok [0xF0; 0x9F; 0x98; 0x80] /\
  Utf8.Decode [0xF0; 0x9F; 0x98; 0x80; 0x61] = Ok (4, 0x1F600).
Proof.
  destruct (Utf8_roundtrip 0x1F600 [0x61] ltac:(unfold scalar; lia)) as (HE & _ & HD).
  split; [exact HE | exact HD].
Defined.

Lemma IsValid_iff_witness : Utf8.IsValid [0xC0; 0x80] = Ok false /\ Utf8.IsValid (utf8_string sample) = Ok true.
Proof.
  split.
  - destruct (IsValid_iff [0xC0; 0x80]) as (b & E & _); [| destruct b; [discriminate E | exact E]].
    repeat (apply Forall_cons_2; [unfold byte; lia |]); apply Forall_nil_2.
  - destruct (IsValid_iff (utf8_string sample)) as (b & E & H).
    + assert (utf8_string sample = [0x61; 0xC3; 0xA9; 0xE2; 0x82; 0xAC; 0xF0; 0x9F; 0x98; 0x80]) as Es
        by reflexivity.
      rewrite Es; repeat (apply Forall_cons_2; [unfold byte; lia |]); apply Forall_nil_2.
    + rewrite E; f_equal; apply H; exists sample; split; [apply sample_scalar | reflexivity].
Defined.

Lemma DecodeToUTF16_correct_witness :
  Utf8.DecodeToUTF16 (utf8_string sample) [0; 0; 0; 0; 0] 5 =
  Ok (true, [0x61; 0xE9; 0x20AC; 0xD83D; 0xDE00]).
Proof.
  destruct (DecodeToUTF16_correct sample [0; 0; 0; 0; 0] sample_scalar eq_refl) as [_ H]; exact H.
Defined.

Lemma EncodeString_correct_witness :
  EncodeString [0x61; 0xE9; 0x20AC; 0xD83D; 0xDE00] 10 = Ok (utf8_string sample).
Proof. apply (EncodeString_correct sample 10 sample_scalar); vm_compute; congruence. Defined.

(** A supplementary character for which one unit of the buffer is left is stored
    past the end of the buffer, instead of being reported as an overflow. *)
Lemma DecodeToUTF16_overrun : Utf8.DecodeToUTF16 (utf8 0x1F600) [0] 1 = Err (HostFault 1).
Proof. reflexivity. Qed.
