(* ===== verification/HashMap.v ===== *)
(** The open addressing hash map of [platform/hashmap.h] and
    [platform/hashmap.cc].

    Keys and values are pointers, the null pointer is 0; a pointer to an entry is
    its index in the table. *)
From stdpp Require Import base numbers list.
From Stdlib Require Import ZArith Lia Bool.
From S2P Require Import Prelude Utils.
#[local] Open Scope Z_scope.

(** * Keys *)
Definition SamePointerValue (key1 key2 : Z) : bool := key1 =? key2.

(** [HashMap::StringHash], on the characters of the string (signed [char]s). *)
Definition StringHash_step (hash_ c : Z) : Z :=
  let hash_ := uint32 (hash_ + c) in
  let hash_ := uint32 (hash_ + Z.shiftl hash_ 10) in
  Z.lxor hash_ (Z.shiftr hash_ 6).

Definition StringHash (key : option (list Z)) : Z :=
  match key with
  | None => 0
  | Some key =>
      let hash_ := fold_left StringHash_step key 0 in
      let hash_ := uint32 (hash_ + Z.shiftl hash_ 3) in
      let hash_ := Z.lxor hash_ (Z.shiftr hash_ 11) in
      let hash_ := uint32 (hash_ + Z.shiftl hash_ 15) in
      if hash_ =? 0 then 1 else hash_
  end.

(** * The table *)
Record Entry : Type := mkEntry { key : Z; value : Z; hash : Z }.

Record HashMap : Type := mkHashMap {
  map_ : list Entry;
  capacity_ : Z;
  occupancy_ : Z
}.

Definition with_map (l : list Entry) (m : HashMap) : HashMap :=
  mkHashMap l (capacity_ m) (occupancy_ m).

Section HashMap.
(** [match_] compares a key with the key of an entry; [malloc n] is the block of
    [n] entries that the allocator returns, whatever it holds. *)
Context (match_ : Z -> Z -> bool) (malloc : Z -> option (list Entry)).

(** Accesses through a pointer to an entry. *)
Definition entry_at (i : Z) (l : list Entry) : outcome Entry :=
  if i <? 0 then Err (HostFault i)
  else match l !! Z.to_nat i with
       | Some e => Ok e
       | None => Err (HostFault i)
       end.

Definition set_entry (i : Z) (e : Entry) (m : HashMap) : outcome HashMap :=
  let* _ := entry_at i (map_ m) in
  Ok (with_map (<[Z.to_nat i := e]> (map_ m)) m).

(** [p->value = v] *)
Definition set_value (i v : Z) (m : HashMap) : outcome HashMap :=
  let* e := entry_at i (map_ m) in
  set_entry i (mkEntry (key e) v (hash e)) m.

Definition Clear (m : HashMap) : HashMap :=
  mkHashMap (map (fun e => mkEntry 0 (value e) (hash e)) (map_ m)) (capacity_ m) 0.

Definition Initialize (capacity : Z) : outcome HashMap :=
  ASSERT IsPowerOfTwo capacity ;;
  match malloc capacity with
  | None => Err Fatal
  | Some block => Ok (Clear (mkHashMap block capacity 0))
  end.

Definition new_HashMap (initial_capacity : Z) : outcome HashMap := Initialize initial_capacity.

(** The position after [p], at the end of the table the first one. *)
Definition wrap_next (m : HashMap) (p : Z) : Z :=
  if p + 1 >=? capacity_ m then 0 else p + 1.

Fixpoint probe_loop (fuel : nat) (k h : Z) (m : HashMap) (p : Z) : outcome Z :=
  let* e := entry_at p (map_ m) in
  if negb (key e =? 0) && (negb (h =? hash e) || negb (match_ k (key e))) then
    match fuel with
    | O => Err OutOfFuel
    | S fuel => probe_loop fuel k h m (wrap_next m p)
    end
  else Ok p.

(** An empty entry ends the loop before it comes back to its start. *)
Definition Probe (k h : Z) (m : HashMap) : outcome Z :=
  ASSERT negb (k =? 0) ;;
  ASSERT IsPowerOfTwo (capacity_ m) ;;
  let p := Z.land h (capacity_ m - 1) in
  ASSERT (0 <=? p) && (p <? capacity_ m) ;;
  ASSERT occupancy_ m <? capacity_ m ;;
  probe_loop (Z.to_nat (capacity_ m)) k h m p.

(** [Lookup], given the [Resize] it calls: the entry, or nothing. *)
Definition Lookup_with (Resize : HashMap -> outcome HashMap) (k h : Z) (insert : bool)
  (m : HashMap) : outcome (option Z * HashMap) :=
  let* p := Probe k h m in
  let* e := entry_at p (map_ m) in
  if negb (key e =? 0) then Ok (Some p, m)
  else if insert then
    let* m := set_entry p (mkEntry k 0 h) m in
    let m := mkHashMap (map_ m) (capacity_ m) (uint32 (occupancy_ m + 1)) in
    if uint32 (occupancy_ m + occupancy_ m / 4) >=? capacity_ m then
      let* m := Resize m in
      let* p := Probe k h m in
      Ok (Some p, m)
    else Ok (Some p, m)
  else Ok (None, m).

(** The loop of [Resize] over the entries of the old table, [n] of them to go. *)
Fixpoint rehash (Lookup : Z -> Z -> bool -> HashMap -> outcome (option Z * HashMap))
  (old : list Entry) (n : Z) (m : HashMap) : outcome HashMap :=
  if n >? 0 then
    match old with
    | [] => Err (HostFault 0)
    | p :: old =>
        if negb (key p =? 0) then
          let* (q, m) := Lookup (key p) (hash p) true m in
          let* m := match q with
                    | Some q => set_value q (value p) m
                    | None => Err (HostFault 0)
                    end in
          rehash Lookup old (n - 1) m
        else rehash Lookup old n m
    end
  else Ok m.

Definition Resize_with (Lookup : Z -> Z -> bool -> HashMap -> outcome (option Z * HashMap))
  (m : HashMap) : outcome HashMap :=
  let old := map_ m in
  let n := occupancy_ m in
  let* m := Initialize (uint32 (capacity_ m * 2)) in
  rehash Lookup old n m.

(** [Lookup] and [Resize] call each other, at most [depth] levels deep. *)
Fixpoint Lookup (depth : nat) (k h : Z) (insert : bool) (m : HashMap)
  : outcome (option Z * HashMap) :=
  match depth with
  | O => Lookup_with (fun _ => Err OutOfFuel) k h insert m
  | S depth => Lookup_with (Resize_with (Lookup depth)) k h insert m
  end.

(** A table of twice the capacity has room for the entries: the insertions of
    [Resize] do not resize. *)
Definition kDepth : nat := 1.

(** The loop of [Remove]. *)
Fixpoint remove_loop (fuel : nat) (candidate next : Z) (m : HashMap) : outcome (Z * HashMap) :=
  match fuel with
  | O => Err OutOfFuel
  | S fuel =>
      let next := if next + 1 =? capacity_ m then 0 else next + 1 in
      let* e := entry_at next (map_ m) in
      if key e =? 0 then Ok (candidate, m)
      else
        let start := Z.land (hash e) (capacity_ m - 1) in
        if ((next >? candidate) && ((start <=? candidate) || (start >? next)))
           || ((next <? candidate) && ((start <=? candidate) && (start >? next)))
        then
          let* m := set_entry candidate e m in
          remove_loop fuel next next m
        else remove_loop fuel candidate next m
  end.

Definition Remove (k h : Z) (m : HashMap) : outcome HashMap :=
  let* candidate := Probe k h m in
  let* e := entry_at candidate (map_ m) in
  if key e =? 0 then Ok m
  else
    ASSERT occupancy_ m <? capacity_ m ;;
    let* (candidate, m) := remove_loop (Z.to_nat (capacity_ m)) candidate candidate m in
    let* e := entry_at candidate (map_ m) in
    let* m := set_entry candidate (mkEntry 0 (value e) (hash e)) m in
    Ok (mkHashMap (map_ m) (capacity_ m) (uint32 (occupancy_ m - 1))).

(** [Next(p)]: the first entry after [p] that is in use, given the entries after
    it and the index of the first of them. *)
Fixpoint next_loop (l : list Entry) (p : Z) : option Z :=
  match l with
  | [] => None
  | e :: l => if negb (key e =? 0) then Some p else next_loop l (p + 1)
  end.

Definition Next (p : Z) (m : HashMap) : outcome (option Z) :=
  ASSERT (-1 <=? p) && (p <? capacity_ m) ;;
  Ok (next_loop (drop (Z.to_nat (p + 1)) (map_ m)) (p + 1)).

Definition Start (m : HashMap) : outcome (option Z) := Next (-1) m.

End HashMap.
