(* ===== verification/HashMapProofs.v ===== *)
(** The hash map implements a finite map: lookups, insertions and removals
    terminate, keep the table well formed and have the effect of the operations of
    a map. *)
From stdpp Require Import base numbers list.
From Stdlib Require Import ZArith Lia Bool.
From S2P Require Import Prelude Utils UtilsProofs HashMap.
#[local] Open Scope Z_scope.

(** * The keys *)
(** What the map relies on: matching is an equivalence. *)
Class MatchFun (match_ : Z -> Z -> bool) : Prop := {
  match_refl k : match_ k k = true;
  match_sym k1 k2 : match_ k1 k2 = true -> match_ k2 k1 = true;
  match_trans k1 k2 k3 : match_ k1 k2 = true -> match_ k2 k3 = true -> match_ k1 k3 = true
}.

#[export] Instance SamePointerValue_match : MatchFun SamePointerValue.
Proof. split; unfold SamePointerValue; intros; lia. Qed.

Section Proofs.
Context (match_ : Z -> Z -> bool) {Hmatch : MatchFun match_}.

(** The entry is found under the key [k] with the hash [h]. *)
Definition same (k h : Z) (e : Entry) : Prop := hash e = h /\ match_ k (key e) = true.

(** * Positions *)
Definition slot (m : HashMap) (i : Z) : Entry := nth (Z.to_nat i) (map_ m) (mkEntry 0 0 0).

Definition in_use (m : HashMap) (i : Z) : Prop := key (slot m i) <> 0.

Definition home (m : HashMap) (h : Z) : Z := Z.land h (capacity_ m - 1).

Definition position (m : HashMap) (i : Z) : Prop := 0 <= i < capacity_ m.

Definition count (l : list Entry) : Z := Z.of_nat (length (filter (fun e => key e <> 0) l)).

Record wf (m : HashMap) : Prop := mk_wf {
  wf_capacity : exists n, 0 <= n <= 31 /\ capacity_ m = 2 ^ n;
  wf_length : Z.of_nat (length (map_ m)) = capacity_ m;
  wf_occupancy : occupancy_ m = count (map_ m);
  wf_hash : forall i, position m i -> in_use m i -> in_u 32 (hash (slot m i));
  (* no empty entry between the home of an entry and the entry *)
  wf_path : forall i x, position m i -> in_use m i -> position m x ->
    dist (capacity_ m) (home m (hash (slot m i))) x < dist (capacity_ m) (home m (hash (slot m i))) i ->
    in_use m x;
  wf_unique : forall i j, position m i -> position m j -> in_use m i -> in_use m j ->
    same (key (slot m i)) (hash (slot m i)) (slot m j) -> i = j
}.

Ltac dists := unfold dist, position in *; repeat case_match; rewrite ?Z.leb_le, ?Z.leb_gt in *; try lia.

Lemma entry_at_nth m i :
  Z.of_nat (length (map_ m)) = capacity_ m -> position m i -> entry_at i (map_ m) = Ok (slot m i).
Proof.
  intros Hl [Hlo Hhi]; unfold entry_at, slot.
  rewrite (proj2 (Z.ltb_ge i 0)) by lia.
  destruct (map_ m !! Z.to_nat i) as [e |] eqn:E.
  - rewrite (nth_lookup_Some _ _ _ _ E); done.
  - apply lookup_ge_None in E; lia.
Qed.

Lemma entry_at_slot m i : wf m -> position m i -> entry_at i (map_ m) = Ok (slot m i).
Proof. intros Hwf; apply entry_at_nth, wf_length; done. Qed.

Lemma home_in m h : (exists n, 0 <= n <= 31 /\ capacity_ m = 2 ^ n) -> position m (home m h).
Proof.
  intros (n & Hn & E); unfold home, position; rewrite E.
  replace (2 ^ n - 1) with (Z.ones n) by (rewrite Z.ones_equiv; lia).
  rewrite Z.land_ones by lia; apply Z.mod_pos_bound, pow2_pos; lia.
Qed.

Lemma capacity_pos m : wf m -> 0 < capacity_ m.
Proof. intros Hwf; destruct (wf_capacity m Hwf) as (n & Hn & ->); apply pow2_pos; lia. Qed.

Lemma home_position m h : wf m -> position m (home m h).
Proof. intros Hwf; apply home_in, wf_capacity; done. Qed.

Lemma uint32_id z : 0 <= z < 2 ^ 32 -> uint32 z = z.
Proof. apply to_u_id. Qed.

(** * Counting *)
Lemma count_pos l : 0 <= count l <= Z.of_nat (length l).
Proof. unfold count; pose proof (length_filter (fun e => key e <> 0) l); lia. Qed.

Lemma count_cons e l : count (e :: l) = (if decide (key e <> 0) then 1 else 0) + count l.
Proof. unfold count; rewrite filter_cons; case_decide; cbn [length]; lia. Qed.

Lemma empty_exists l :
  count l < Z.of_nat (length l) -> exists i, 0 <= i < Z.of_nat (length l) /\
    key (nth (Z.to_nat i) l (mkEntry 0 0 0)) = 0.
Proof.
  induction l as [| e l IH]; cbn [length]; [unfold count; cbn; lia |].
  rewrite count_cons; case_decide as Hk; intros Hc.
  - destruct IH as (i & Hi & E); [lia |]; exists (i + 1); split; [lia |].
    replace (Z.to_nat (i + 1)) with (S (Z.to_nat i)) by lia; done.
  - exists 0; split; [lia |]; cbn; destruct (Z.eq_dec (key e) 0); [done | tauto].
Qed.

Lemma count_insert i e l :
  (i < length l)%nat ->
  count (<[i := e]> l) = count l - (if decide (key (nth i l (mkEntry 0 0 0)) <> 0) then 1 else 0)
                         + (if decide (key e <> 0) then 1 else 0).
Proof.
  revert i; induction l as [| e' l IH]; intros [| i] Hi; cbn [length] in Hi; try lia;
    cbn [insert list_insert nth]; rewrite !count_cons; [lia |].
  change (list_insert i e l) with (<[i := e]> l); rewrite IH by lia; lia.
Qed.

(** * Probing *)
Lemma wrap_next_position m p : wf m -> position m p -> position m (wrap_next m p).
Proof. intros Hwf [? ?]; pose proof (capacity_pos m Hwf); unfold wrap_next, position; case_match; lia. Qed.

Lemma dist_next m a p :
  wf m -> position m a -> position m p -> wrap_next m p <> a ->
  dist (capacity_ m) a (wrap_next m p) = dist (capacity_ m) a p + 1.
Proof.
  intros Hwf Ha Hp; pose proof (capacity_pos m Hwf); unfold wrap_next; rewrite Z.geb_leb.
  destruct (Z.leb_spec (capacity_ m) (p + 1)); intros Hn; dists.
Qed.

(** The loop, from [p], when every entry before [p] was passed. *)
Lemma probe_loop_spec k h m fuel p e0 :
  wf m -> position m p -> position m e0 -> ~ in_use m e0 ->
  dist (capacity_ m) (home m h) p <= dist (capacity_ m) (home m h) e0 ->
  dist (capacity_ m) (home m h) e0 - dist (capacity_ m) (home m h) p <= Z.of_nat fuel ->
  (forall x, position m x -> dist (capacity_ m) (home m h) x < dist (capacity_ m) (home m h) p ->
     in_use m x /\ ~ same k h (slot m x)) ->
  exists q, probe_loop match_ fuel k h m p = Ok q /\ position m q /\
    (in_use m q -> same k h (slot m q)) /\
    forall x, position m x -> dist (capacity_ m) (home m h) x < dist (capacity_ m) (home m h) q ->
      in_use m x /\ ~ same k h (slot m x).
Proof.
  intros Hwf Hp He Hempty; pose proof (home_position m h Hwf) as Hh.
  revert p Hp; induction fuel as [| fuel IH]; intros p Hp Hd Hf Hpass; cbn [probe_loop];
    rewrite entry_at_slot by done; cbn [obind];
    destruct (Z.eqb_spec (key (slot m p)) 0) as [Ek | Ek]; cbn [negb andb].
  1, 3: (exists p; split_and!; try done; apply Hp).
  - exfalso; apply Hempty; assert (p = e0) as <- by dists; done.
  - destruct (Z.eqb_spec h (hash (slot m p))) as [Eh | Eh], (match_ k (key (slot m p))) eqn:Em;
      cbn [negb orb]; [exists p; unfold same; split_and!; try done; try apply Hp; intros; done | ..].
    all: apply IH; try done.
    all: assert (p <> e0) as Hne by (intros ->; done).
    all: assert (dist (capacity_ m) (home m h) p < dist (capacity_ m) (home m h) e0) as Hlt by dists.
    all: assert (wrap_next m p <> home m h) as Hnh.
    all: try (unfold wrap_next; rewrite Z.geb_leb; dists; fail).
    all: try (apply wrap_next_position; done).
    all: rewrite ?dist_next by done; try lia.
    all: intros x Hx Hlx; destruct (Z.eq_dec x p) as [-> | Hxp];
      [split; [done |]; unfold same; intros [? ?]; congruence | apply Hpass; [done |]].
    all: dists.
Qed.
(** Where a probe ends. *)
Definition probed (k h : Z) (m : HashMap) (q : Z) : Prop :=
  position m q /\ (in_use m q -> same k h (slot m q)) /\
  forall x, position m x -> dist (capacity_ m) (home m h) x < dist (capacity_ m) (home m h) q ->
    in_use m x /\ ~ same k h (slot m x).

Lemma Probe_spec k h m :
  wf m -> occupancy_ m < capacity_ m -> k <> 0 ->
  exists q, Probe match_ k h m = Ok q /\ probed k h m q.
Proof.
  intros Hwf Ho Hk; pose proof (home_position m h Hwf) as [Hlo Hhi].
  pose proof (capacity_pos m Hwf) as Hpos; unfold Probe.
  rewrite (proj2 (Z.eqb_neq k 0)) by done; cbn [negb].
  assert (IsPowerOfTwo (capacity_ m) = true) as ->
    by (destruct (wf_capacity m Hwf) as (n & Hn & ->); apply IsPowerOfTwo_pow; lia).
  cbv zeta; change (Z.land h (capacity_ m - 1)) with (home m h).
  rewrite (proj2 (Z.leb_le _ _)), !(proj2 (Z.ltb_lt _ _)) by done; cbn [andb].
  destruct (empty_exists (map_ m)) as (e0 & He0 & Ee0);
    [rewrite <- wf_occupancy, wf_length by done; done |]; rewrite wf_length in He0 by done.
  destruct (probe_loop_spec k h m (Z.to_nat (capacity_ m)) (home m h) e0) as (q & Eq & Hq & Hs & Hpass);
    try done; try (dists; fail).
  - intros Hin; apply Hin, Ee0.
  - intros x Hx; dists.
  - exists q; done.
Qed.

Lemma same_trans k h e e' : same k h e -> same k h e' -> same (key e) (hash e) e'.
Proof.
  intros [H1 M1] [H2 M2]; split; [congruence |].
  eapply match_trans; [apply match_sym; exact M1 | exact M2].
Qed.

(** An entry of the table is where the probe for its key ends. *)
Lemma probed_found k h m p q :
  wf m -> probed k h m p -> position m q -> in_use m q -> same k h (slot m q) -> p = q.
Proof.
  intros Hwf (Hp & Hs & Hpass) Hq Hu Hsame.
  assert (hash (slot m q) = h) as Eh by apply Hsame; pose proof (home_position m h Hwf) as Hh.
  destruct (Z.lt_trichotomy (dist (capacity_ m) (home m h) p) (dist (capacity_ m) (home m h) q)) as [Hlt | [Heq | Hgt]].
  - assert (in_use m p) as Hup by (apply (wf_path m Hwf q p); [done | done | done | rewrite Eh; done]).
    apply (wf_unique m Hwf p q); try done; eapply same_trans; [apply Hs; done | done].
  - dists.
  - destruct (Hpass q Hq Hgt); done.
Qed.

(** * The contents *)
Definition contains (m : HashMap) (e : Entry) : Prop := exists i, position m i /\ in_use m i /\ slot m i = e.

(** The value under a key. *)
Definition get (k h : Z) (m : HashMap) : outcome (option Z) :=
  let* p := Probe match_ k h m in
  let* e := entry_at p (map_ m) in
  Ok (if key e =? 0 then None else Some (value e)).

Lemma get_contains k h m :
  wf m -> occupancy_ m < capacity_ m -> k <> 0 ->
  exists v, get k h m = Ok v /\
    forall w, v = Some w <-> exists e, contains m e /\ same k h e /\ value e = w.
Proof.
  intros Hwf Ho Hk; destruct (Probe_spec k h m Hwf Ho Hk) as (q & Eq & Hq); pose proof Hq as (Hp & Hs & _).
  unfold get; rewrite Eq; cbn [obind]; rewrite entry_at_slot by done; cbn [obind].
  eexists; split; [done |]; intros w; destruct (Z.eqb_spec (key (slot m q)) 0) as [E | E]; split; try done.
  - intros (e & (i & Hi & Hu & <-) & Hsame & _).
    rewrite <- (probed_found k h m q i Hwf Hq Hi Hu Hsame) in Hu; done.
  - intros H; injection H as <-; exists (slot m q); split_and!; try done; [exists q; done | apply Hs; done].
  - intros (e & (i & Hi & Hu & <-) & Hsame & <-).
    rewrite (probed_found k h m q i Hwf Hq Hi Hu Hsame); done.
Qed.

(** * Updating an entry *)
Lemma slot_insert m i j e :
  Z.of_nat (length (map_ m)) = capacity_ m -> position m i -> 0 <= j ->
  slot (with_map (<[Z.to_nat i := e]> (map_ m)) m) j = if Z.eq_dec i j then e else slot m j.
Proof.
  intros Hl Hi Hj; unfold slot, position in *; cbn [map_ with_map].
  destruct (Z.eq_dec i j) as [<- |].
  - apply nth_lookup_Some, list_lookup_insert_eq; lia.
  - rewrite !nth_lookup, list_lookup_insert_ne by lia; done.
Qed.

Lemma set_entry_ok m i e :
  wf m -> position m i -> set_entry i e m = Ok (with_map (<[Z.to_nat i := e]> (map_ m)) m).
Proof. intros Hwf Hi; unfold set_entry; rewrite entry_at_slot by done; done. Qed.

(** A new entry where the probe ended. *)
Definition add_entry (q : Z) (e : Entry) (m : HashMap) : HashMap :=
  mkHashMap (<[Z.to_nat q := e]> (map_ m)) (capacity_ m) (occupancy_ m + 1).

Lemma slot_add m q j e :
  wf m -> position m q -> 0 <= j -> slot (add_entry q e m) j = if Z.eq_dec q j then e else slot m j.
Proof. intros Hwf; apply slot_insert, wf_length; done. Qed.

Ltac in_slot Hwf Hq := rewrite ?(slot_add _ _ _ _ Hwf Hq) in * by (unfold position in *; cbn in *; lia).

Lemma add_entry_wf k v h m q :
  wf m -> probed k h m q -> ~ in_use m q -> k <> 0 -> in_u 32 h -> wf (add_entry q (mkEntry k v h) m).
Proof.
  intros Hwf Hpr Hu Hk Hh; pose proof Hpr as (Hq & _ & Hpass); set (e := mkEntry k v h).
  assert (forall i, position m i -> in_use (add_entry q e m) i -> i <> q -> in_use m i) as Hold.
  { intros i Hi Hui Hne; unfold in_use in *; in_slot Hwf Hq; destruct (Z.eq_dec q i); congruence. }
  assert (forall i, position m i -> in_use m i -> in_use (add_entry q e m) i) as Hnew.
  { intros i Hi Hui; unfold in_use in *; in_slot Hwf Hq; destruct (Z.eq_dec q i); done. }
  assert (forall i, position m i -> in_use m i -> ~ same k h (slot m i)) as Habs.
  { intros i Hi Hui Hs; rewrite <- (probed_found k h m q i Hwf Hpr Hi Hui Hs) in Hui; done. }
  split.
  - apply (wf_capacity m Hwf).
  - cbn; rewrite length_insert; apply (wf_length m Hwf).
  - cbn; pose proof (wf_length m Hwf); rewrite count_insert by (unfold position in Hq; lia).
    rewrite (wf_occupancy m Hwf).
    rewrite decide_False, decide_True by (done || (unfold in_use, slot in Hu; tauto)); lia.
  - intros i Hi Hui; in_slot Hwf Hq; destruct (Z.eq_dec q i) as [<- |]; [done |].
    apply (wf_hash m Hwf); [done | apply Hold; done].
  - intros i x Hi Hui Hx; in_slot Hwf Hq; cbn [capacity_ add_entry].
    change (home (add_entry q e m)) with (home m); destruct (Z.eq_dec q i) as [<- | Hne].
    + intros Hlt; apply Hnew; [done | apply Hpass; done].
    + intros Hlt; apply Hnew; [done |]; apply (wf_path m Hwf i x); try done; apply Hold; done.
  - intros i j Hi Hj Hui Huj; in_slot Hwf Hq.
    destruct (Z.eq_dec q i) as [Ei | Hi'], (Z.eq_dec q j) as [Ej | Hj']; intros Hs; try congruence.
    + exfalso; apply (Habs j); [done | apply Hold; done | exact Hs].
    + exfalso; apply (Habs i); [done | apply Hold; done |].
      destruct Hs as [H1 H2]; split; [done | apply match_sym; done].
    + apply (wf_unique m Hwf); try done; apply Hold; done.
Qed.

Lemma add_entry_contains k v h m q e :
  wf m -> position m q -> ~ in_use m q -> k <> 0 ->
  contains (add_entry q (mkEntry k v h) m) e <-> contains m e \/ e = mkEntry k v h.
Proof.
  intros Hwf Hq Hu Hk; split.
  - intros (i & Hi & Hui & <-); unfold in_use in Hui; in_slot Hwf Hq.
    destruct (Z.eq_dec q i); [right; done | left; exists i; done].
  - intros [(i & Hi & Hui & <-) | ->].
    + exists i; split; [done |]; unfold in_use in *; in_slot Hwf Hq.
      destruct (Z.eq_dec q i) as [<- |]; [done |]; done.
    + exists q; split; [done |]; unfold in_use; in_slot Hwf Hq.
      destruct (Z.eq_dec q q); [done | congruence].
Qed.

(** * Insertion *)
(** The allocator returns a block of the requested size, whatever it holds. *)
Definition allocates (malloc : Z -> option (list Entry)) : Prop :=
  forall n, 0 < n -> exists block, malloc n = Some block /\ Z.of_nat (length block) = n.

Lemma absent_empty k h m q :
  wf m -> probed k h m q -> (forall e, contains m e -> ~ same k h e) -> ~ in_use m q.
Proof. intros Hwf (Hq & Hs & _) Habs Hu; apply (Habs (slot m q)); [exists q; done | auto]. Qed.

Lemma add_entry_room q e m : wf m -> occupancy_ m < capacity_ m -> occupancy_ (add_entry q e m) <= capacity_ m <= 2 ^ 31.
Proof.
  intros Hwf Ho; destruct (wf_capacity m Hwf) as (n & Hn & E); cbn [occupancy_ add_entry].
  split; [lia | rewrite E; apply Z.pow_le_mono_r; lia].
Qed.

(** A lookup that inserts a new entry. *)
Lemma Lookup_with_insert R k h m :
  wf m -> occupancy_ m < capacity_ m -> k <> 0 -> (forall e, contains m e -> ~ same k h e) ->
  exists q, probed k h m q /\ ~ in_use m q /\
    Lookup_with match_ R k h true m =
    let m' := add_entry q (mkEntry k 0 h) m in
    if occupancy_ m' + occupancy_ m' / 4 >=? capacity_ m then
      let* m := R m' in let* p := Probe match_ k h m in Ok (Some p, m)
    else Ok (Some q, m').
Proof.
  intros Hwf Ho Hk Habs; destruct (Probe_spec k h m Hwf Ho Hk) as (q & Eq & Hpr).
  pose proof (absent_empty k h m q Hwf Hpr Habs) as Hu; pose proof Hpr as (Hq & _).
  exists q; split_and!; [done | done |]; unfold Lookup_with; rewrite Eq; cbn [obind].
  rewrite entry_at_slot by done; cbn [obind].
  destruct (Z.eqb_spec (key (slot m q)) 0) as [E | E]; [| done]; cbn [negb].
  rewrite set_entry_ok by done; cbn [obind map_ capacity_ occupancy_ with_map].
  pose proof (add_entry_room q (mkEntry k 0 h) m Hwf Ho) as [Hr1 Hr2]; cbn [occupancy_ add_entry] in Hr1.
  pose proof (count_pos (map_ m)) as [Hc _]; rewrite <- (wf_occupancy m Hwf) in Hc.
  rewrite (uint32_id (occupancy_ m + 1)), uint32_id by (Z.div_mod_to_equations; lia); done.
Qed.

Lemma set_value_add q k v h m :
  wf m -> position m q ->
  set_value q v (add_entry q (mkEntry k 0 h) m) = Ok (add_entry q (mkEntry k v h) m).
Proof.
  intros Hwf Hq; pose proof (wf_length m Hwf); unfold position in Hq; unfold set_value, set_entry, entry_at.
  rewrite (proj2 (Z.ltb_ge q 0)) by lia; cbn [map_ add_entry].
  rewrite list_lookup_insert_eq by lia; cbn [obind key hash].
  rewrite list_insert_insert_eq; done.
Qed.

(** * Resizing *)
Definition distinct (e e' : Entry) : Prop := key e <> 0 -> key e' <> 0 -> ~ same (key e) (hash e) e'.

Lemma rehash_spec R old n m :
  wf m -> n = count old -> occupancy_ m + n + (occupancy_ m + n) / 4 < capacity_ m ->
  ForallOrdPairs distinct old ->
  Forall (fun e => key e <> 0 -> in_u 32 (hash e) /\ forall e', contains m e' -> ~ same (key e) (hash e) e') old ->
  exists m', rehash (Lookup_with match_ R) old n m = Ok m' /\ wf m' /\ capacity_ m' = capacity_ m /\
    occupancy_ m' = occupancy_ m + n /\
    forall e, contains m' e <-> contains m e \/ e ∈ old /\ key e <> 0.
Proof.
  revert n m; induction old as [| e0 old IH]; intros n m Hwf Hn Hroom Hd Hf.
  - cbn [rehash]; unfold count in Hn; cbn in Hn; subst n; exists m; split_and!; try done; [lia |].
    intros e; split; [tauto | intros [? | [He _]]; [done | apply not_elem_of_nil in He; done]].
  - rewrite count_cons in Hn; pose proof (count_pos old) as [Hc0 _].
    inversion Hd as [| ? ? Hd0 Hd']; subst; apply Forall_cons in Hf as [Hf0 Hf'].
    cbn [rehash]; case_decide as Hk.
    + pose proof (count_pos (map_ m)) as [Hc _]; rewrite <- (wf_occupancy m Hwf) in Hc.
      rewrite (proj2 (Z.gtb_lt _ _)) by lia; rewrite (proj2 (Z.eqb_neq _ _)) by done; cbn [negb].
      destruct (Hf0 Hk) as [Hh Habs].
      destruct (Lookup_with_insert R (key e0) (hash e0) m Hwf) as (q & Hpr & Hu & ->);
        [Z.div_mod_to_equations; lia | done | done |].
      cbv zeta; cbn [occupancy_ add_entry].
      rewrite Z.geb_leb, (proj2 (Z.leb_gt _ _)) by (Z.div_mod_to_equations; lia).
      cbn [obind]; rewrite set_value_add by (done || apply Hpr); cbn [obind].
      assert (wf (add_entry q (mkEntry (key e0) (value e0) (hash e0)) m)) as Hwf' by (apply add_entry_wf; done).
      replace (1 + count old - 1) with (count old) by lia.
      destruct (IH (count old) _ Hwf' eq_refl) as (m' & E & Hw & Hcap & Hocc & Hin).
      * cbn [occupancy_ capacity_ add_entry]; Z.div_mod_to_equations; lia.
      * done.
      * rewrite List.Forall_forall in Hd0; rewrite Forall_forall in Hf' |- *; intros e He Hke.
        destruct (Hf' e He Hke) as [Hhe Hae]; split; [done |]; intros e' He'.
        rewrite add_entry_contains in He' by (done || apply Hpr); destruct He' as [He' | ->]; [auto |].
        intros [E1 E2]; apply (Hd0 e); [apply list_elem_of_In; done | done | done |].
        split; [cbn in E1; congruence | apply match_sym; done].
      * exists m'; rewrite E; split_and!; try done; [cbn in Hocc; lia |]; intros e; rewrite Hin.
        rewrite add_entry_contains by (done || apply Hpr); rewrite elem_of_cons.
        destruct e0 as [k0 v0 h0]; cbn [key value hash] in *; split.
        -- intros [[? | ->] | [? ?]]; auto.
        -- intros [? | [[-> | ?] ?]]; auto.
    + destruct (Z.eqb_spec (key e0) 0) as [Ek | Ek]; [| tauto]; cbn [negb].
      destruct (IH (0 + count old) m Hwf ltac:(lia) Hroom Hd' Hf') as (m' & E & Hw & Hcap & Hocc & Hin).
      exists m'; split_and!; try done.
      * destruct (Z.ltb_spec 0 (0 + count old)); rewrite Z.gtb_ltb.
        -- rewrite (proj2 (Z.ltb_lt _ _)) by lia; exact E.
        -- rewrite (proj2 (Z.ltb_ge _ _)) by lia; destruct old; cbn [rehash] in E;
             rewrite Z.gtb_ltb, (proj2 (Z.ltb_ge _ _)) in E by lia; exact E.
      * intros e; rewrite Hin, elem_of_cons; split; [tauto |].
        intros [? | [[-> | ?] ?]]; [tauto | congruence | tauto].
Qed.

Lemma count_cleared l : count (map (fun e => mkEntry 0 (value e) (hash e)) l) = 0.
Proof.
  induction l as [| e l IH]; [done |]; cbn [map]; rewrite count_cons, IH.
  rewrite decide_False by (cbn; lia); done.
Qed.

Lemma Initialize_spec malloc n :
  allocates malloc -> 0 <= n <= 31 ->
  exists m, Initialize malloc (2 ^ n) = Ok m /\ wf m /\ capacity_ m = 2 ^ n /\ occupancy_ m = 0 /\
    forall e, ~ contains m e.
Proof.
  intros Ha Hn; pose proof (pow2_pos n ltac:(lia)) as Hp; unfold Initialize.
  rewrite IsPowerOfTwo_pow by lia; destruct (Ha (2 ^ n) Hp) as (block & -> & Hl).
  set (m := Clear _); assert (forall i, ~ in_use m i) as Hempty.
  { intros i; unfold in_use, slot, m, Clear; cbn [map_].
    change (mkEntry 0 0 0) with ((fun e => mkEntry 0 (value e) (hash e)) (mkEntry 0 0 0)).
    rewrite map_nth; cbn; lia. }
  exists m; split_and!; try done.
  - split; try (intros i; intros; exfalso; eapply Hempty; eassumption).
    + exists n; done.
    + cbn; rewrite length_map; done.
    + cbn; rewrite count_cleared; done.
  - intros e (i & _ & Hu & _); eapply Hempty; exact Hu.
Qed.

Lemma ForallOrdPairs_nth (R : Entry -> Entry -> Prop) l d :
  (forall i j, (i < j < length l)%nat -> R (nth i l d) (nth j l d)) -> ForallOrdPairs R l.
Proof.
  induction l as [| e l IH]; intros H; [constructor |]; constructor.
  - rewrite List.Forall_forall; intros e' He; apply (In_nth _ _ d) in He as (j & Hj & <-).
    apply (H 0%nat (S j)); cbn; lia.
  - apply IH; intros i j Hij; apply (H (S i) (S j)); cbn; lia.
Qed.

Lemma elem_of_slot m e : wf m -> (e ∈ map_ m /\ key e <> 0 <-> contains m e).
Proof.
  intros Hwf; pose proof (wf_length m Hwf) as Hl; unfold contains, in_use, position; split.
  - intros [He Hk]; apply list_elem_of_lookup in He as [i Hi]; pose proof (lookup_lt_Some _ _ _ Hi).
    exists (Z.of_nat i); unfold slot; rewrite Nat2Z.id, (nth_lookup_Some _ _ _ _ Hi); split; [lia | done].
  - intros (i & Hi & Hu & <-); split; [| done]; unfold slot.
    apply list_elem_of_In, nth_In; lia.
Qed.

Lemma wf_distinct m : wf m -> ForallOrdPairs distinct (map_ m).
Proof.
  intros Hwf; pose proof (wf_length m Hwf) as Hl; apply (ForallOrdPairs_nth _ _ (mkEntry 0 0 0)).
  intros i j Hij Hi Hj Hs.
  assert (Z.of_nat i = Z.of_nat j) as E; [| lia].
  apply (wf_unique m Hwf); unfold position, in_use, slot; rewrite ?Nat2Z.id; try done; lia.
Qed.

(** A resize keeps the entries; the table may be full before it. *)
Lemma Resize_spec malloc R m :
  allocates malloc -> wf m -> capacity_ m <= 2 ^ 30 ->
  exists m', Resize_with malloc (Lookup_with match_ R) m = Ok m' /\ wf m' /\
    capacity_ m' = 2 * capacity_ m /\ occupancy_ m' = occupancy_ m /\
    forall e, contains m' e <-> contains m e.
Proof.
  intros Ha Hwf Hcap; destruct (wf_capacity m Hwf) as (n & Hn & E); unfold Resize_with.
  pose proof (capacity_pos m Hwf); rewrite uint32_id by lia.
  assert (n <= 30) by (apply (Z.pow_le_mono_r_iff 2); lia).
  replace (capacity_ m * 2) with (2 ^ (n + 1)) by (rewrite Z.pow_add_r by lia; lia).
  destruct (Initialize_spec malloc (n + 1) Ha ltac:(lia)) as (m0 & -> & Hw0 & Hc0 & Ho0 & He0); cbn [obind].
  assert (2 ^ (n + 1) = 2 * capacity_ m) as E2 by (rewrite Z.pow_add_r by lia; lia).
  pose proof (count_pos (map_ m)) as Hc; rewrite (wf_length m Hwf) in Hc.
  destruct (rehash_spec R (map_ m) (occupancy_ m) m0 Hw0 (wf_occupancy m Hwf)) as (m' & Em & Hw & Hc' & Ho & Hin).
  - rewrite Ho0, Hc0, E2, (wf_occupancy m Hwf); Z.div_mod_to_equations; lia.
  - apply wf_distinct; done.
  - rewrite Forall_forall; intros e He Hk; split; [| intros e' He'; destruct (He0 e' He')].
    destruct (proj1 (elem_of_slot m e Hwf) (conj He Hk)) as (i & Hi & Hu & <-); apply (wf_hash m Hwf); done.
  - exists m'; split_and!; try done; [lia | lia |]; intros e; rewrite Hin, elem_of_slot by done.
    split; [intros [Hx | ?]; [destruct (He0 e Hx) | done] | auto].
Qed.

(** * Lookup *)
Definition ok (m : HashMap) : Prop := wf m /\ occupancy_ m < capacity_ m.

Lemma Lookup_unfold malloc depth :
  exists R, forall k h insert m, Lookup match_ malloc (S depth) k h insert m =
    Lookup_with match_ (Resize_with malloc (Lookup_with match_ R)) k h insert m.
Proof.
  destruct depth as [| depth]; [exists (fun _ => Err OutOfFuel); done |].
  exists (Resize_with malloc (Lookup match_ malloc depth)); intros k h insert m; done.
Qed.

Lemma present_dec k h m :
  wf m -> occupancy_ m < capacity_ m -> k <> 0 ->
  (exists q, Probe match_ k h m = Ok q /\ position m q /\ in_use m q /\ same k h (slot m q)) \/
  (forall e, contains m e -> ~ same k h e).
Proof.
  intros Hwf Ho Hk; destruct (Probe_spec k h m Hwf Ho Hk) as (q & Eq & Hpr); pose proof Hpr as (Hq & Hs & _).
  destruct (Z.eq_dec (key (slot m q)) 0) as [E | E]; [right | left; exists q; auto].
  intros e (i & Hi & Hu & <-) Hsame; rewrite <- (probed_found k h m q i Hwf Hpr Hi Hu Hsame) in Hu; done.
Qed.

Lemma Lookup_spec malloc depth k h m :
  allocates malloc -> ok m -> capacity_ m <= 2 ^ 30 -> k <> 0 -> in_u 32 h ->
  exists p m', Lookup match_ malloc (S depth) k h true m = Ok (Some p, m') /\ ok m' /\
    position m' p /\ in_use m' p /\ same k h (slot m' p) /\
    forall e, contains m' e <->
      contains m e \/ e = mkEntry k 0 h /\ forall e', contains m e' -> ~ same k h e'.
Proof.
  intros Ha [Hwf Ho] Hcap Hk Hh; destruct (Lookup_unfold malloc depth) as [R ->].
  destruct (present_dec k h m Hwf Ho Hk) as [(q & Eq & Hq & Hu & Hs) | Habs].
  - unfold Lookup_with; rewrite Eq; cbn [obind]; rewrite entry_at_slot by done; cbn [obind].
    rewrite (proj2 (Z.eqb_neq _ _)) by exact Hu; cbn [negb]; exists q, m; split_and!; try done.
    intros e; split; [auto | intros [? | [_ Habs]]; [done |]].
    destruct (Habs (slot m q)); [exists q; done | done].
  - destruct (Lookup_with_insert (Resize_with malloc (Lookup_with match_ R)) k h m Hwf Ho Hk Habs)
      as (q & Hpr & Hu & ->); pose proof Hpr as (Hq & _); cbv zeta; set (m1 := add_entry q (mkEntry k 0 h) m).
    assert (wf m1) as Hw1 by (apply add_entry_wf; done).
    assert (forall e, contains m1 e <-> contains m e \/ e = mkEntry k 0 h /\ forall e', contains m e' -> ~ same k h e')
      as Hin by (intros e; unfold m1; rewrite add_entry_contains by done; tauto).
    assert (slot m1 q = mkEntry k 0 h) as Es
      by (unfold m1; rewrite slot_add by (done || apply Hq); destruct (Z.eq_dec q q); done).
    assert (same k h (mkEntry k 0 h)) as Hsame by (split; [done | apply match_refl]).
    rewrite Z.geb_leb; destruct (Z.leb_spec (capacity_ m) (occupancy_ m1 + occupancy_ m1 / 4)).
    + destruct (Resize_spec malloc R m1 Ha Hw1 Hcap) as (m2 & -> & Hw2 & Hc2 & Ho2 & Hin2); cbn [obind].
      assert (capacity_ m1 = capacity_ m) as Ec by done.
      pose proof (add_entry_room q (mkEntry k 0 h) m Hwf Ho) as [Hr _]; fold m1 in Hr.
      pose proof (capacity_pos m Hwf); assert (ok m2) as Hok2 by (split; [done | lia]).
      destruct (present_dec k h m2 Hw2 ltac:(lia) Hk) as [(p & Ep & Hp & Hup & Hsp) | Habs2].
      * rewrite Ep; cbn [obind]; exists p, m2; split_and!; try done; intros e; rewrite Hin2; apply Hin.
      * exfalso; apply (Habs2 (mkEntry k 0 h)); [rewrite Hin2, Hin; auto | done].
    + exists q, m1; split_and!; try done.
      * pose proof (count_pos (map_ m)) as [Hc _]; rewrite <- (wf_occupancy m Hwf) in Hc.
        change (occupancy_ m1) with (occupancy_ m + 1) in *; split; [done |].
        change (occupancy_ m + 1 < capacity_ m); Z.div_mod_to_equations; lia.
      * unfold in_use; rewrite Es; done.
      * rewrite Es; done.
Qed.

(** * Removal *)
(** [x] is after [c] and not after [n], around the table. *)
Definition between (N c x n : Z) : Prop := 0 < dist N c x <= dist N c n.

#[local] Instance between_dec N c x n : Decision (between N c x n).
Proof. unfold between; apply _. Defined.

(** The entries with a hole at [c], when the entries up to [n] were scanned: those
    have their home after the hole, the others are still found, counting the hole
    as in use.  [m0] is the table at the start, where the entry at [q] is to be
    removed. *)
Record scanned (m0 : HashMap) (q : Z) (m : HashMap) (c n : Z) : Prop := mk_scanned {
  sc_capacity : exists k, 0 <= k <= 31 /\ capacity_ m = 2 ^ k;
  sc_length : Z.of_nat (length (map_ m)) = capacity_ m;
  sc_frame : capacity_ m = capacity_ m0 /\ occupancy_ m = occupancy_ m0;
  sc_count : count (map_ m) = count (map_ m0);
  sc_pos : position m c /\ position m n;
  sc_used : forall x, position m x -> in_use m x <-> in_use m0 x;
  sc_run : forall x, position m x -> x = c \/ between (capacity_ m) c x n -> in_use m x;
  sc_home : forall x, position m x -> between (capacity_ m) c x n ->
    between (capacity_ m) c (home m (hash (slot m x))) x;
  sc_path : forall i x, position m i -> position m x -> i <> c -> in_use m i ->
    ~ between (capacity_ m) c i n ->
    dist (capacity_ m) (home m (hash (slot m i))) x < dist (capacity_ m) (home m (hash (slot m i))) i ->
    in_use m x;
  sc_hash : forall i, position m i -> in_use m i -> in_u 32 (hash (slot m i));
  sc_unique : forall i j, position m i -> position m j -> i <> c -> j <> c -> in_use m i -> in_use m j ->
    same (key (slot m i)) (hash (slot m i)) (slot m j) -> i = j;
  sc_entries : forall e,
    (exists i, position m i /\ i <> c /\ in_use m i /\ slot m i = e) <->
    (exists i, position m0 i /\ i <> q /\ in_use m0 i /\ slot m0 i = e)
}.

Lemma not_between N c s n :
  0 <= c < N -> 0 <= s < N -> 0 <= n < N -> n <> c ->
  ((n >? c) && ((s <=? c) || (s >? n))) || ((n <? c) && ((s <=? c) && (s >? n))) = true <->
  ~ between N c s n.
Proof.
  intros; unfold between, dist.
  rewrite orb_true_iff, !andb_true_iff, orb_true_iff, !Z.gtb_ltb, !Z.ltb_lt, !Z.leb_le.
  repeat case_match; rewrite ?Z.leb_le, ?Z.leb_gt in *; lia.
Qed.

Lemma scanned_start m q : wf m -> position m q -> in_use m q -> scanned m q m q q.
Proof.
  intros Hwf Hq Hu.
  assert (forall x, ~ between (capacity_ m) q x q) as Hb
    by (intros x; unfold between, dist; rewrite Z.leb_refl; lia).
  split; try done; try apply Hwf.
  - intros x Hx [-> | Hx']; [done | destruct (Hb x Hx')].
  - intros x _ Hx; destruct (Hb x Hx).
  - intros i x Hi Hx _ Hui _; apply (wf_path m Hwf i x); done.
  - intros i j Hi Hj _ _; apply (wf_unique m Hwf); done.
Qed.

Section Scan.
Context (m0 : HashMap) (q : Z) (m : HashMap) (c n : Z) (Hsc : scanned m0 q m c n).
Context (e0 : Z) (He0 : position m e0) (Hempty : ~ in_use m e0).
#[local] Abbreviation N := (capacity_ m).
#[local] Abbreviation n1 := (wrap_next m n).

(** An empty entry is ahead: the scan does not reach the hole. *)
Lemma scan_ahead : position m n1 /\ n1 <> c /\ dist N c n1 = dist N c n + 1 /\
  (n1 <> e0 -> dist N n1 e0 = dist N n e0 - 1).
Proof.
  destruct (sc_pos _ _ _ _ _ Hsc) as [Hc Hn].
  assert (e0 <> c) as Hec by (intros ->; apply Hempty, (sc_run _ _ _ _ _ Hsc); auto).
  assert (~ between N c e0 n) as Hb by (intros Hb; apply Hempty, (sc_run _ _ _ _ _ Hsc); auto).
  unfold wrap_next, between in *; rewrite Z.geb_leb.
  destruct (Z.leb_spec (capacity_ m) (n + 1)); split_and!; dists.
Qed.

(** The entry at [n1] has its home after the hole: it stays. *)
Lemma scan_stay :
  in_use m n1 -> between N c (home m (hash (slot m n1))) n1 -> scanned m0 q m c n1.
Proof.
  intros Hu Hh; destruct scan_ahead as (Hn1 & Hne & Hd & _); destruct (sc_pos _ _ _ _ _ Hsc) as [Hc Hn].
  assert (forall x, position m x -> between N c x n1 -> between N c x n \/ x = n1) as Hcase.
  { intros x Hx [Hx1 Hx2]; destruct (Z.eq_dec x n1); [auto |]; left; split; [done |].
    clear Hh; unfold between in *; dists. }
  destruct Hsc; split; try done.
  - intros x Hx [-> | Hb]; [auto |]; destruct (Hcase x Hx Hb) as [? | ->]; auto.
  - intros x Hx Hb; destruct (Hcase x Hx Hb) as [? | ->]; auto.
  - intros i x Hi Hx Hic Hui Hnb; apply sc_path0; try done; intros [Hb1 Hb2]; apply Hnb; split; lia.
Qed.

(** It does not: it moves into the hole, and its position is the new hole. *)
Lemma scan_move :
  in_use m n1 -> ~ between N c (home m (hash (slot m n1))) n1 ->
  scanned m0 q (with_map (<[Z.to_nat c := slot m n1]> (map_ m)) m) n1 n1.
Proof.
  intros Hu Hh; destruct scan_ahead as (Hn1 & Hne & Hd & _); destruct (sc_pos _ _ _ _ _ Hsc) as [Hc Hn].
  set (m1 := with_map _ m); pose proof (sc_length _ _ _ _ _ Hsc) as Hl.
  assert (forall j, position m j -> slot m1 j = if Z.eq_dec c j then slot m n1 else slot m j) as Hslot
    by (intros j [Hj _]; apply slot_insert; done).
  assert (in_use m c) as Huc by (apply (sc_run _ _ _ _ _ Hsc); auto).
  assert (forall j, position m j -> in_use m1 j <-> in_use m j) as Hused.
  { intros j Hj; unfold in_use in *; rewrite Hslot by done; destruct (Z.eq_dec c j) as [<- |]; tauto. }
  assert (forall x, ~ between N n1 x n1) as Hb
    by (intros x; unfold between, dist; rewrite Z.leb_refl; lia).
  set (back i := if Z.eq_dec c i then n1 else i).
  assert (forall i, position m i -> position m (back i)) as Hbp by (intros; unfold back; destruct (Z.eq_dec c i); done).
  assert (forall i, position m i -> slot m1 i = slot m (back i)) as Hbs
    by (intros i Hi; rewrite Hslot by done; unfold back; destruct (Z.eq_dec c i); done).
  assert (forall i, back i <> c) as Hbc by (intros i; unfold back; destruct (Z.eq_dec c i); congruence).
  split; change (capacity_ m1) with N; change (occupancy_ m1) with (occupancy_ m); change (home m1) with (home m);
    change (position m1) with (position m).
  - apply (sc_capacity _ _ _ _ _ Hsc).
  - cbn; rewrite length_insert; done.
  - apply (sc_frame _ _ _ _ _ Hsc).
  - rewrite <- (sc_count _ _ _ _ _ Hsc); cbn; unfold position in Hc; rewrite count_insert by lia.
    rewrite !decide_True by (exact Hu || exact Huc); lia.
  - done.
  - intros x Hx; rewrite Hused by done; apply (sc_used _ _ _ _ _ Hsc); done.
  - intros x Hx [-> | Hx']; [apply Hused; done | destruct (Hb x Hx')].
  - intros x _ Hx; destruct (Hb x Hx).
  - intros i x Hi Hx Hin Hui _; rewrite Hbs, Hused by done; rewrite Hused in Hui by done.
    assert (in_use m (back i)) as Hub by (unfold back; destruct (Z.eq_dec c i); done).
    pose proof (sc_path _ _ _ _ _ Hsc (back i) x (Hbp i Hi) Hx (Hbc i) Hub) as Hpath.
    destruct (Z.eq_dec c i) as [<- | Hci].
    + unfold back in *; destruct (Z.eq_dec c c) as [_ | []]; [| done]; intros Hlt; apply Hpath.
      * unfold between; lia.
      * set (hm := home m _) in *.
        assert (position m hm) as Hhm by (apply home_in, (sc_capacity _ _ _ _ _ Hsc)).
        clear - Hlt Hh Hhm Hc Hn1 Hne Hx; unfold between in Hh; dists.
    + unfold back in *; destruct (Z.eq_dec c i) as [| _]; [done |]; intros Hlt.
      destruct (decide (between N c i n)) as [Hbi | Hbi]; [| apply Hpath; done].
      apply (sc_run _ _ _ _ _ Hsc); [done |]; right.
      pose proof (sc_home _ _ _ _ _ Hsc i Hi Hbi) as Hhi; set (hm := home m (hash (slot m i))) in *.
      assert (position m hm) as Hhm by (apply home_in, (sc_capacity _ _ _ _ _ Hsc)).
      clear - Hlt Hhi Hbi Hhm Hc Hn Hi Hx; unfold between in *; dists.
  - intros i Hi Hui; rewrite Hbs by done; apply (sc_hash _ _ _ _ _ Hsc); [auto |].
    unfold in_use in *; rewrite <- Hbs by done; done.
  - intros i j Hi Hj Hin Hjn Hui Huj; rewrite !Hbs by done; intros Hs.
    assert (back i = back j) as E.
    { apply (sc_unique _ _ _ _ _ Hsc); auto; unfold in_use in *; rewrite <- Hbs by done; done. }
    unfold back in E; destruct (Z.eq_dec c i), (Z.eq_dec c j); congruence.
  - intros e; rewrite <- (sc_entries _ _ _ _ _ Hsc); split.
    + intros (i & Hi & Hin & Hui & <-); exists (back i); split_and!; auto; [| symmetry; auto].
      unfold in_use in *; rewrite <- Hbs by done; done.
    + intros (i & Hi & Hic & Hui & <-); destruct (Z.eq_dec i n1) as [-> | Hin].
      * exists c; split_and!; auto; [apply Hused; done |]; rewrite Hslot by done; destruct (Z.eq_dec c c); done.
      * exists i; split_and!; auto; [apply Hused; done |]; rewrite Hslot by done.
        destruct (Z.eq_dec c i); congruence.
Qed.
End Scan.

Lemma remove_loop_spec m0 q e0 fuel m c n :
  scanned m0 q m c n -> position m e0 -> ~ in_use m0 e0 -> dist (capacity_ m) n e0 <= Z.of_nat fuel -> n <> e0 ->
  exists c' m' n', remove_loop fuel c n m = Ok (c', m') /\ scanned m0 q m' c' n' /\
    ~ in_use m' (wrap_next m' n').
Proof.
  revert m c n; induction fuel as [| fuel IH]; intros m c n Hsc He0 Hempty0 Hf Hne.
  { destruct (sc_pos _ _ _ _ _ Hsc); exfalso; dists. }
  assert (~ in_use m e0) as Hempty by (rewrite (sc_used _ _ _ _ _ Hsc) by done; done).
  destruct (scan_ahead m0 q m c n Hsc e0 He0 Hempty) as (Hn1 & Hnc & Hd & Hde).
  destruct (sc_pos _ _ _ _ _ Hsc) as [Hc Hn]; cbn [remove_loop]; cbv zeta.
  assert ((if n + 1 =? capacity_ m then 0 else n + 1) = wrap_next m n) as ->.
  { unfold wrap_next, position in *; rewrite Z.geb_leb.
    destruct (Z.eqb_spec (n + 1) (capacity_ m)), (Z.leb_spec (capacity_ m) (n + 1)); lia || done. }
  rewrite (entry_at_nth m (wrap_next m n) (sc_length _ _ _ _ _ Hsc) Hn1); cbn [obind].
  destruct (Z.eqb_spec (key (slot m (wrap_next m n))) 0) as [Ek | Ek]; [exists c, m, n; split_and!; [done | done |]; intros Hu; apply Hu, Ek |].
  assert (wrap_next m n <> e0) as Hne1 by (intros E; apply Hempty; rewrite <- E; done).
  specialize (Hde Hne1); change (Z.land (hash ?e) (capacity_ m - 1)) with (home m (hash e)).
  pose proof (home_in m (hash (slot m (wrap_next m n))) (sc_capacity _ _ _ _ _ Hsc)) as Hh.
  pose proof (not_between (capacity_ m) c (home m (hash (slot m (wrap_next m n)))) (wrap_next m n)
    Hc Hh Hn1 Hnc) as Hnb; fold (home m (hash (slot m (wrap_next m n)))).
  destruct (_ || _) eqn:Eb.
  - unfold set_entry; rewrite (entry_at_nth m c (sc_length _ _ _ _ _ Hsc) Hc); cbn [obind].
    apply IH; try done.
    + apply (scan_move m0 q m c n Hsc e0); tauto.
    + change (capacity_ (with_map _ m)) with (capacity_ m); lia.
  - apply IH; try done; [| lia].
    apply (scan_stay m0 q m c n Hsc e0); try done.
    destruct (decide (between (capacity_ m) c (home m (hash (slot m (wrap_next m n)))) (wrap_next m n)));
      [done | exfalso; tauto || intuition congruence].
Qed.

(** The hole is cleared: no other entry is looked for across it. *)
Lemma clear_hole m0 q m c n v h :
  scanned m0 q m c n -> ~ in_use m (wrap_next m n) -> position m (wrap_next m n) ->
  count (map_ m0) = occupancy_ m0 ->
  wf (mkHashMap (<[Z.to_nat c := mkEntry 0 v h]> (map_ m)) (capacity_ m) (occupancy_ m - 1)) /\
  forall e, contains (mkHashMap (<[Z.to_nat c := mkEntry 0 v h]> (map_ m)) (capacity_ m) (occupancy_ m - 1)) e <->
    exists i, position m0 i /\ i <> q /\ in_use m0 i /\ slot m0 i = e.
Proof.
  intros Hsc Hempty Hn1 Hocc; destruct (sc_pos _ _ _ _ _ Hsc) as [Hc Hn].
  destruct (scan_ahead m0 q m c n Hsc _ Hn1 Hempty) as (_ & Hnc & Hd & _).
  set (m2 := mkHashMap _ _ _); pose proof (sc_length _ _ _ _ _ Hsc) as Hl.
  assert (forall j, position m j -> slot m2 j = if Z.eq_dec c j then mkEntry 0 v h else slot m j) as Hslot
    by (intros j [Hj _]; apply (slot_insert m c j (mkEntry 0 v h)); done).
  assert (forall j, position m j -> in_use m2 j <-> in_use m j /\ j <> c) as Hused.
  { intros j Hj; unfold in_use; rewrite Hslot by done; destruct (Z.eq_dec c j) as [<- |]; cbn; intuition congruence. }
  assert (forall j, position m j -> in_use m2 j -> slot m2 j = slot m j) as Hsame.
  { intros j Hj Hu; rewrite Hslot by done; destruct (Z.eq_dec c j) as [<- |]; [| done].
    apply Hused in Hu; [tauto | done]. }
  assert (in_use m c) as Huc by (apply (sc_run _ _ _ _ _ Hsc); auto).
  split; [split |]; change (capacity_ m2) with (capacity_ m); change (position m2) with (position m);
    change (home m2) with (home m).
  - apply (sc_capacity _ _ _ _ _ Hsc).
  - cbn; rewrite length_insert; done.
  - cbn; unfold position in Hc; rewrite count_insert by lia; rewrite (sc_count _ _ _ _ _ Hsc).
    destruct (sc_frame _ _ _ _ _ Hsc) as [_ ->].
    rewrite decide_True, decide_False by (exact Huc || (cbn; tauto)); lia.
  - intros i Hi Hu; rewrite Hsame by done; apply (sc_hash _ _ _ _ _ Hsc); [done |]; apply Hused; done.
  - intros i x Hi Hu Hx; rewrite Hsame by done; apply Hused in Hu as [Hu Hic]; [| done]; intros Hlt.
    apply Hused; [done |]; set (hm := home m (hash (slot m i))) in *.
    assert (position m hm) as Hhm by (apply home_in, (sc_capacity _ _ _ _ _ Hsc)).
    destruct (decide (between (capacity_ m) c i n)) as [Hbi | Hbi].
    + pose proof (sc_home _ _ _ _ _ Hsc i Hi Hbi) as Hhi; fold hm in Hhi.
      assert (between (capacity_ m) c x n) as Hbx
        by (clear - Hlt Hhi Hbi Hhm Hc Hn Hi Hx; unfold between in *; dists).
      split; [apply (sc_run _ _ _ _ _ Hsc); auto |]; intros ->; unfold between, dist in Hbx.
      rewrite Z.leb_refl in Hbx; lia.
    + pose proof (fun y Hy => sc_path _ _ _ _ _ Hsc i y Hi Hy Hic Hu Hbi) as Hpath; fold hm in Hpath.
      split; [apply Hpath; done |]; intros ->; apply Hempty, Hpath; [done |].
      assert (i <> wrap_next m n) as Hin by (intros ->; done).
      assert (dist (capacity_ m) c (wrap_next m n) < dist (capacity_ m) c i) as Hlt2.
      { clear - Hbi Hic Hin Hd Hc Hn Hi Hn1 Hnc; unfold between in *.
        assert (dist (capacity_ m) c i <> dist (capacity_ m) c (wrap_next m n)) by dists; dists. }
      clear - Hlt Hlt2 Hhm Hc Hi Hn1; dists.
  - intros i j Hi Hj Hui Huj; rewrite !Hsame by done; apply Hused in Hui as [? ?], Huj as [? ?]; try done.
    apply (sc_unique _ _ _ _ _ Hsc); done.
  - intros e; rewrite <- (sc_entries _ _ _ _ _ Hsc); split.
    + intros (i & Hi & Hu & <-); exists i; rewrite Hsame by done; apply Hused in Hu as [? ?]; done.
    + intros (i & Hi & Hic & Hu & <-); assert (in_use m2 i) by (apply Hused; done).
      exists i; split_and!; try done; apply Hsame; done.
Qed.

Lemma Remove_spec k h m :
  ok m -> k <> 0 ->
  exists m', Remove match_ k h m = Ok m' /\ ok m' /\
    forall e, contains m' e <-> contains m e /\ ~ same k h e.
Proof.
  intros [Hwf Ho] Hk; unfold Remove.
  destruct (present_dec k h m Hwf Ho Hk) as [(q & Eq & Hq & Hu & Hs) | Habs].
  - rewrite Eq; cbn [obind]; rewrite entry_at_slot by done; cbn [obind].
    rewrite (proj2 (Z.eqb_neq _ _)) by exact Hu; rewrite (proj2 (Z.ltb_lt _ _)) by done.
    destruct (empty_exists (map_ m)) as (e0 & He0 & Ee0);
      [rewrite <- wf_occupancy, wf_length by done; done |]; rewrite wf_length in He0 by done.
    assert (~ in_use m e0) as Hempty by (intros Hin; apply Hin, Ee0).
    pose proof (capacity_pos m Hwf).
    destruct (remove_loop_spec m q e0 (Z.to_nat (capacity_ m)) m q q) as (c & m1 & n & -> & Hsc & Hend);
      [apply scanned_start; done | done | done | dists | intros ->; done |].
    destruct (sc_pos _ _ _ _ _ Hsc) as [Hc Hn]; pose proof (sc_length _ _ _ _ _ Hsc) as Hl.
    assert (position m1 (wrap_next m1 n)) as Hn1 
      by (unfold wrap_next, position in *; rewrite Z.geb_leb; destruct (Z.leb_spec (capacity_ m1) (n + 1)); lia).
    cbn [obind]; rewrite (entry_at_nth m1 c Hl Hc); cbn [obind].
    unfold set_entry; rewrite (entry_at_nth m1 c Hl Hc); cbn [obind with_map map_ capacity_ occupancy_].
    destruct (clear_hole m q m1 c n (value (slot m1 c)) (hash (slot m1 c)) Hsc Hend Hn1) as [Hw2 Hin];
      [symmetry; apply wf_occupancy; done |].
    destruct (sc_frame _ _ _ _ _ Hsc) as [Ec Eo].
    pose proof (wf_occupancy _ Hw2) as Hcnt; cbn [occupancy_ map_] in Hcnt.
    pose proof (count_pos (<[Z.to_nat c := mkEntry 0 (value (slot m1 c)) (hash (slot m1 c))]> (map_ m1))) as [Hcp _].
    assert (capacity_ m <= 2 ^ 31) by (destruct (wf_capacity m Hwf) as (j & Hj & ->); apply Z.pow_le_mono_r; lia).
    rewrite (uint32_id (occupancy_ m1 - 1)) by lia.
    eexists; split; [done |]; split; [split; [done | cbn; lia] |].
    intros e; rewrite Hin; split.
    + intros (i & Hi & Hiq & Hui & <-); split; [exists i; done |]; intros Hse; apply Hiq.
      apply (wf_unique m Hwf); try done; eapply same_trans; done.
    + intros [(i & Hi & Hui & <-) Hns]; exists i; split_and!; try done; congruence.
  - destruct (Probe_spec k h m Hwf Ho Hk) as (q & -> & Hpr); cbn [obind].
    pose proof (absent_empty k h m q Hwf Hpr Habs) as Hu; pose proof Hpr as (Hq & _).
    rewrite entry_at_slot by done; cbn [obind].
    destruct (Z.eqb_spec (key (slot m q)) 0) as [_ | E]; [| done].
    exists m; split_and!; try done; intros e; split; [intros He; split; auto | tauto].
Qed.

(** * Refinement *)
(** The abstract map: the value under a key and its hash. *)
Definition amap : Type := Z -> Z -> option Z.

Definition represents (m : HashMap) (f : amap) : Prop :=
  ok m /\ forall k h, k <> 0 -> get k h m = Ok (f k h).

Definition same_key (k' h' k h : Z) : bool := (h' =? h) && match_ k' k.

Definition update (k h : Z) (v : option Z) (f : amap) : amap :=
  fun k' h' => if same_key k' h' k h then v else f k' h'.

Lemma represents_iff m f :
  ok m ->
  represents m f <->
  forall k h w, k <> 0 -> f k h = Some w <-> exists e, contains m e /\ same k h e /\ value e = w.
Proof.
  intros Hok; split.
  - intros [_ Hg] k h w Hk; destruct (get_contains k h m (proj1 Hok) (proj2 Hok) Hk) as (v & Ev & Hv).
    rewrite (Hg k h Hk) in Ev; injection Ev as ->; apply Hv.
  - intros Hf; split; [done |]; intros k h Hk.
    destruct (get_contains k h m (proj1 Hok) (proj2 Hok) Hk) as (v & -> & Hv); f_equal.
    destruct v as [w |]; [symmetry; apply Hf; [done |]; apply Hv; done |].
    destruct (f k h) as [w |] eqn:E; [| done]; apply Hf in E; [| done]; apply Hv in E; done.
Qed.

Lemma same_key_same k' h' k h e : same_key k' h' k h = true -> same k' h' e <-> same k h e.
Proof.
  unfold same_key; rewrite andb_true_iff, Z.eqb_eq; intros [-> Hm]; unfold same.
  split; intros [? ?]; split; try done; eapply match_trans; [apply match_sym | | |]; done.
Qed.

Lemma same_key_intro k' h' k h e : same k' h' e -> same k h e -> same_key k' h' k h = true.
Proof.
  intros [H1 M1] [H2 M2]; unfold same_key; rewrite andb_true_iff, Z.eqb_eq; split; [congruence |].
  eapply match_trans; [exact M1 | apply match_sym; exact M2].
Qed.

Lemma same_key_entry k' h' k h v : same k' h' (mkEntry k v h) <-> same_key k' h' k h = true.
Proof. unfold same, same_key; cbn; rewrite andb_true_iff, Z.eqb_eq; intuition congruence. Qed.

(** The value of an entry is set through the pointer that [Lookup] returns. *)
Lemma set_value_spec p v m :
  wf m -> position m p -> in_use m p ->
  exists m', set_value p v m = Ok m' /\ wf m' /\ capacity_ m' = capacity_ m /\ occupancy_ m' = occupancy_ m /\
    forall e, contains m' e <->
      (exists i, position m i /\ in_use m i /\ i <> p /\ slot m i = e) \/
      e = mkEntry (key (slot m p)) v (hash (slot m p)).
Proof.
  intros Hwf Hp Hu; unfold set_value; rewrite entry_at_slot by done; cbn [obind].
  rewrite set_entry_ok by done; eexists; split; [done |]; set (e1 := mkEntry _ _ _); set (m1 := with_map _ m).
  pose proof (wf_length m Hwf) as Hl.
  assert (forall j, position m j -> slot m1 j = if Z.eq_dec p j then e1 else slot m j) as Hslot
    by (intros j [Hj _]; apply slot_insert; done).
  assert (forall j, position m j -> key (slot m1 j) = key (slot m j) /\ hash (slot m1 j) = hash (slot m j)) as Hkh
    by (intros j Hj; rewrite Hslot by done; destruct (Z.eq_dec p j) as [<- |]; done).
  assert (forall j, position m j -> in_use m1 j <-> in_use m j) as Hused
    by (intros j Hj; unfold in_use; destruct (Hkh j Hj) as [-> _]; done).
  split_and!; try done.
  - split; change (capacity_ m1) with (capacity_ m); change (position m1) with (position m);
      change (home m1) with (home m).
    + apply (wf_capacity m Hwf).
    + cbn; rewrite length_insert; done.
    + cbn; unfold position in Hp; rewrite count_insert by lia; rewrite !decide_True by exact Hu.
      rewrite (wf_occupancy m Hwf); lia.
    + intros i Hi Hui; destruct (Hkh i Hi) as [_ ->]; apply (wf_hash m Hwf); [done | apply Hused; done].
    + intros i x Hi Hui Hx; destruct (Hkh i Hi) as [_ ->]; rewrite Hused by done; apply (wf_path m Hwf); try done.
      apply Hused; done.
    + intros i j Hi Hj Hui Huj; unfold same; destruct (Hkh i Hi) as [-> ->], (Hkh j Hj) as [-> ->].
      apply (wf_unique m Hwf); try done; apply Hused; done.
  - intros e; split.
    + intros (i & Hi & Hui & <-); rewrite Hslot by done; destruct (Z.eq_dec p i) as [<- |]; [auto | left].
      exists i; split_and!; auto; apply Hused; done.
    + intros [(i & Hi & Hui & Hne & <-) | ->]; [exists i | exists p]; (split; [done |]);
        (split; [apply Hused; done |]); rewrite Hslot by done; destruct (Z.eq_dec p _); congruence.
Qed.

Lemma represents_insert k h m m' p v f :
  represents m f -> k <> 0 -> ok m' -> position m' p -> in_use m' p -> same k h (slot m' p) ->
  (forall e, contains m' e <->
     contains m e \/ e = mkEntry k 0 h /\ forall e', contains m e' -> ~ same k h e') ->
  exists m'', set_value p v m' = Ok m'' /\ represents m'' (update k h (Some v) f).
Proof.
  intros Hrep Hk Hok' Hp Hu Hs Hin; pose proof (proj1 (represents_iff m f (proj1 Hrep)) Hrep) as Hf.
  destruct (set_value_spec p v m' (proj1 Hok') Hp Hu) as (m2 & E & Hw & Hc & Ho & Hin2).
  exists m2; split; [done |].
  assert (ok m2) as Hok2 by (split; [done | destruct Hok'; lia]).
  apply represents_iff; [done |]; intros k' h' w Hk'; unfold update.
  assert (same k h (mkEntry (key (slot m' p)) v (hash (slot m' p)))) as Hs2 by (destruct Hs; split; done).
  destruct (same_key k' h' k h) eqn:Es.
  - split.
    + intros H; injection H as <-; eexists; split_and!; [apply Hin2; right; done | | done].
      apply (same_key_same _ _ _ _ _ Es); done.
    + intros (e & He & Hse & <-); apply (same_key_same _ _ _ _ _ Es) in Hse.
      apply Hin2 in He as [(i & Hi & Hui & Hne & <-) | ->]; [| done].
      exfalso; apply Hne; apply (wf_unique m' (proj1 Hok')); try done; eapply same_trans; done.
  - rewrite Hf by done; split; intros (e & He & Hse & Hv); exists e; split_and!; try done.
    + apply Hin2; left; destruct (proj2 (Hin e) (or_introl He)) as (i & Hi & Hui & Ei).
      exists i; split_and!; try done; intros ->.
      rewrite Ei in Hs; rewrite (same_key_intro k' h' k h e Hse Hs) in Es; done.
    + apply Hin2 in He as [(i & Hi & Hui & Hne & <-) | ->].
      * destruct (proj1 (Hin (slot m' i))) as [? | [E' _]]; [exists i; done | done |].
        rewrite E' in Hse; apply same_key_entry in Hse; congruence.
      * rewrite (same_key_intro k' h' k h _ Hse Hs2) in Es; done.
Qed.
End Proofs.

(** * Iteration *)
Lemma next_loop_spec l p :
  match next_loop l p with
  | Some q => exists pre e suf, l = pre ++ e :: suf /\ q = p + Z.of_nat (length pre) /\ key e <> 0 /\
      Forall (fun e => key e = 0) pre
  | None => Forall (fun e => key e = 0) l
  end.
Proof.
  revert p; induction l as [| e l IH]; intros p; cbn [next_loop]; [done |].
  destruct (Z.eqb_spec (key e) 0) as [E | E]; cbn [negb].
  - specialize (IH (p + 1)); destruct (next_loop l (p + 1)) as [q |]; [| apply Forall_cons; done].
    destruct IH as (pre & e' & suf & -> & -> & Hk & Hf); exists (e :: pre), e', suf.
    split_and!; [done | cbn [length]; lia | done | apply Forall_cons; done].
  - exists [], e, l; split_and!; [done | cbn; lia | done | apply Forall_nil; done].
Qed.

(** C29. [Lookup] implements the abstract map.  With [insert], it terminates (at
    most one resize, which does not resize again), leaves the value under the key
    as it was or null where there was none, and the entry it returns is the one
    whose value the caller sets; without, it changes nothing and finds an entry
    exactly where the map has one. *)
Theorem Lookup_refines match_ malloc k h m f :
  MatchFun match_ -> allocates malloc -> represents match_ m f -> capacity_ m <= 2 ^ 30 ->
  k <> 0 -> in_u 32 h ->
  (exists p m', Lookup match_ malloc kDepth k h true m = Ok (Some p, m') /\
     represents match_ m' (update match_ k h (Some (default 0 (f k h))) f) /\
     forall v, exists m'', set_value p v m' = Ok m'' /\ represents match_ m'' (update match_ k h (Some v) f)) /\
  (exists r, Lookup match_ malloc kDepth k h false m = Ok (r, m) /\ (r = None <-> f k h = None)).
Proof.
  intros HM Ha Hrep Hcap Hk Hh; pose proof Hrep as [Hok Hget]; split.
  - destruct (Lookup_spec match_ malloc 0 k h m Ha Hok Hcap Hk Hh) as (p & m' & E & Hok' & Hp & Hu & Hs & Hin).
    exists p, m'; split_and!; [exact E | | intros v; eapply represents_insert; done].
    apply represents_iff; [done.. |]; intros k' h' w Hk'; unfold update.
    pose proof (proj1 (represents_iff match_ m f Hok) Hrep) as Hf.
    destruct (same_key match_ k' h' k h) eqn:Es.
    + destruct (f k h) as [w0 |] eqn:Ef; cbn [default].
      * assert (forall e, contains m e -> same match_ k h e -> value e = w0) as Hv.
        { intros e He Hse; assert (f k h = Some (value e)) as E' by (apply Hf; eauto); congruence. }
        apply Hf in Ef as (e & He & Hse & <-); [| done]; split.
        -- intros H; injection H as <-; exists e; split_and!; [apply Hin; auto | | done].
           apply (same_key_same _ _ _ _ _ _ Es); done.
        -- intros (e' & He' & Hse' & <-); apply (same_key_same _ _ _ _ _ _ Es) in Hse'.
           apply Hin in He' as [He' | [_ Habs]]; [rewrite (Hv e'); done | destruct (Habs e); done].
      * assert (forall e, contains m e -> ~ same match_ k h e) as Habs.
        { intros e He Hse; assert (f k h = Some (value e)) by (apply Hf; eauto); congruence. }
        split.
        -- intros H; injection H as <-; exists (mkEntry k 0 h); split_and!; [apply Hin; auto | | done].
           apply same_key_entry; done.
        -- intros (e' & He' & Hse' & <-); apply (same_key_same _ _ _ _ _ _ Es) in Hse'.
           apply Hin in He' as [He' | [-> _]]; [destruct (Habs e'); done | done].
    + rewrite Hf by done; split; intros (e & He & Hse & Hv); exists e; split_and!; try done.
      * apply Hin; auto.
      * apply Hin in He as [? | [-> _]]; [done |]; apply same_key_entry in Hse; congruence.
  - destruct (Lookup_unfold match_ malloc 0) as [R HR]; change kDepth with 1%nat; rewrite HR.
    specialize (Hget k h Hk); unfold get in Hget; unfold Lookup_with.
    destruct (Probe match_ k h m) as [q |]; [cbn [obind] in * | discriminate].
    destruct (entry_at q (map_ m)) as [e |]; [cbn [obind] in * | discriminate].
    injection Hget as <-; destruct (key e =? 0); eexists; split; done.
Qed.

(** C12. [Remove] implements the removal from the abstract map: it terminates,
    afterwards the key is not in the map, every other key has the value it had,
    and the table is well formed, so that later probes find what they should. *)
Theorem Remove_refines match_ k h m f :
  MatchFun match_ -> represents match_ m f -> k <> 0 ->
  exists m', Remove match_ k h m = Ok m' /\ represents match_ m' (update match_ k h None f).
Proof.
  intros HM Hrep Hk; pose proof Hrep as [Hok _].
  destruct (Remove_spec match_ k h m Hok Hk) as (m' & E & Hok' & Hin); exists m'; split; [done |].
  apply represents_iff; [done.. |]; intros k' h' w Hk'; unfold update.
  pose proof (proj1 (represents_iff match_ m f Hok) Hrep) as Hf.
  destruct (same_key match_ k' h' k h) eqn:Es.
  - split; [done |]; intros (e & He & Hse & _); apply Hin in He as [_ Hns].
    destruct Hns; apply (same_key_same _ _ _ _ _ _ Es); done.
  - rewrite Hf by done; split; intros (e & He & Hse & Hv); exists e; split_and!; try done.
    + apply Hin; split; [done |]; intros Hs.
      rewrite (same_key_intro match_ k' h' k h e Hse Hs) in Es; done.
    + apply Hin in He as [? _]; done.
Qed.

(** A new map is empty, and the iteration visits the entries in use: from any
    position [Next] goes to the first entry in use behind it, and ends only where
    there is none. *)
Theorem iteration_correct malloc n m p :
  allocates malloc -> 0 <= n <= 31 -> wf SamePointerValue m -> -1 <= p < capacity_ m ->
  (exists m0, new_HashMap malloc (2 ^ n) = Ok m0 /\ Start m0 = Ok None) /\
  exists r, Next p m = Ok r /\
    match r with
    | Some q => p < q < capacity_ m /\ in_use m q /\ forall i, p < i < q -> ~ in_use m i
    | None => forall i, p < i < capacity_ m -> ~ in_use m i
    end.
Proof.
  intros Ha Hn Hwf Hp.
  assert (forall m p, wf SamePointerValue m -> -1 <= p < capacity_ m ->
    exists r, Next p m = Ok r /\
    match r with
    | Some q => p < q < capacity_ m /\ in_use m q /\ forall i, p < i < q -> ~ in_use m i
    | None => forall i, p < i < capacity_ m -> ~ in_use m i
    end) as Hnext; [| split; [| apply Hnext; done]].
  - clear; intros m p Hwf Hp; pose proof (wf_length _ m Hwf) as Hl; unfold Next.
    rewrite (proj2 (Z.leb_le _ _)), (proj2 (Z.ltb_lt _ _)) by lia; cbn [andb].
    eexists; split; [done |].
    assert (forall i, p < i -> slot m i = nth (Z.to_nat (i - (p + 1))) (drop (Z.to_nat (p + 1)) (map_ m)) (mkEntry 0 0 0)) as Hs.
    { intros i Hi; unfold slot; rewrite !nth_lookup, lookup_drop; do 2 f_equal; lia. }
    assert (forall (l : list Entry) i, Forall (fun e => key e = 0) l -> key (nth i l (mkEntry 0 0 0)) = 0) as Hz.
    { intros l i Hf; destruct (lt_dec i (length l)); [| rewrite nth_overflow by lia; done].
      rewrite Forall_forall in Hf; apply Hf, list_elem_of_In, nth_In; done. }
    pose proof (next_loop_spec (drop (Z.to_nat (p + 1)) (map_ m)) (p + 1)) as H.
    destruct (next_loop _ _) as [q |].
    + destruct H as (pre & e & suf & E & -> & Hk & Hf).
      pose proof (f_equal length E) as El; rewrite length_drop, length_app in El; cbn [length] in El.
      split; [lia |]; unfold in_use; split.
      * rewrite Hs, E, app_nth2 by lia; replace (Z.to_nat _ - _)%nat with 0%nat by lia; done.
      * intros i Hi; rewrite Hs, E, app_nth1 by lia; rewrite Hz by done; tauto.
    + intros i Hi; unfold in_use; rewrite Hs, Hz by (done || lia); tauto.
  - destruct (Initialize_spec SamePointerValue malloc n Ha Hn) as (m0 & E & Hw0 & Hc0 & _ & Hempty).
    exists m0; split; [exact E |]; pose proof (pow2_pos n ltac:(lia)).
    destruct (Hnext m0 (-1) Hw0 ltac:(lia)) as (r & Er & Hr); unfold Start; rewrite Er; destruct r as [q |]; [| done].
    destruct Hr as (Hq & Hu & _), (Hempty (slot m0 q)); exists q; split_and!; try done; unfold position; lia.
Qed.

(** * A concrete map *)
(** Pointers as keys; the blocks of the allocator hold garbage. *)
Definition garbage (n : Z) : option (list Entry) := Some (replicate (Z.to_nat n) (mkEntry 9 9 9)).

Lemma garbage_allocates : allocates garbage.
Proof. intros n Hn; eexists; split; [done |]; rewrite length_replicate; lia. Qed.

Lemma empty_represents :
  exists m, new_HashMap garbage 2 = Ok m /\ represents SamePointerValue m (fun _ _ => None).
Proof.
  destruct (Initialize_spec SamePointerValue garbage 1 garbage_allocates ltac:(lia))
    as (m & E & Hwf & Hc & Ho & Hempty).
  exists m; split; [exact E |]; apply represents_iff; [apply _ | split; [done | rewrite Ho, Hc; lia] |].
  intros k h w _; split; [done | intros (e & He & _); destruct (Hempty e He)].
Qed.

Lemma sample_represents :
  exists m, represents SamePointerValue m (update SamePointerValue 5 77 (Some 8) (fun _ _ => None)).
Proof.
  destruct empty_represents as (m & E & Hrep); pose proof Hrep as [Hok _].
  destruct (Lookup_spec SamePointerValue garbage 0 5 77 m garbage_allocates Hok)
    as (p & m' & _ & Hok' & Hp & Hu & Hs & Hin); try (unfold in_u; lia).
  - injection E as <-; cbn; lia.
  - destruct (represents_insert SamePointerValue 5 77 m m' p 8 (fun _ _ => None) Hrep ltac:(lia) Hok' Hp Hu Hs Hin)
      as (m2 & _ & H2); exists m2; exact H2.
Qed.

Lemma Lookup_refines_witness :
  exists m p m' m'', new_HashMap garbage 2 = Ok m /\
    Lookup SamePointerValue garbage kDepth 5 77 true m = Ok (Some p, m') /\
    set_value p 8 m' = Ok m'' /\ get SamePointerValue 5 77 m'' = Ok (Some 8).
Proof.
  destruct empty_represents as (m & E & Hrep).
  destruct (Lookup_refines SamePointerValue garbage 5 77 m (fun _ _ => None)) as [(p & m' & El & _ & Hset) _];
    [apply _ | apply garbage_allocates | exact Hrep | injection E as <-; cbn; lia | lia | unfold in_u; lia |].
  destruct (Hset 8) as (m'' & Es & [_ Hg]); exists m, p, m', m''; split_and!; try done.
  rewrite Hg by lia; reflexivity.
Defined.

Lemma Remove_refines_witness :
  exists m m', get SamePointerValue 5 77 m = Ok (Some 8) /\
    Remove SamePointerValue 5 77 m = Ok m' /\ get SamePointerValue 5 77 m' = Ok None.
Proof.
  destruct sample_represents as (m & Hrep); pose proof Hrep as [_ Hg].
  destruct (Remove_refines SamePointerValue 5 77 m _ _ Hrep ltac:(lia)) as (m' & E & [_ Hg']).
  exists m, m'; split_and!; [rewrite Hg by lia; reflexivity | exact E | rewrite Hg' by lia; reflexivity].
Defined.

Lemma iteration_correct_witness :
  exists m0, new_HashMap garbage (2 ^ 3) = Ok m0 /\ Start m0 = Ok None.
Proof.
  destruct sample_represents as (m & [Hwf Ho] & _); pose proof (capacity_pos SamePointerValue m Hwf).
  apply (iteration_correct garbage 3 m (-1) garbage_allocates ltac:(lia) Hwf ltac:(lia)).
Defined.
