(* ===== verification/ObjectIdRing.v ===== *)
(** The ring of objects that were given an id ([vm/object_id_ring.h],
    [vm/object_id_ring.cc]).  Object pointers are integers. *)
From stdpp Require Import base numbers list.
From Stdlib Require Import ZArith Lia Bool.
From S2P Require Import Prelude.
#[local] Open Scope Z_scope.

Inductive LookupResult : Type := kValid | kInvalid | kCollected | kExpired.
Inductive IdPolicy : Type := kAllocateId | kReuseId.

Definition kMaxId : Z := 0x3FFFFFFF.
Definition kInvalidId : Z := -1.
Definition kDefaultCapacity : Z := 1024.

Record ObjectIdRing : Type := mkRing {
  table_ : list Z;
  max_serial_ : Z;
  capacity_ : Z;
  serial_num_ : Z;
  wrapped_ : bool
}.

Definition with_wrapped (w : bool) (r : ObjectIdRing) : ObjectIdRing :=
  mkRing (table_ r) (max_serial_ r) (capacity_ r) (serial_num_ r) w.
Definition with_serial (n : Z) (r : ObjectIdRing) : ObjectIdRing :=
  mkRing (table_ r) (max_serial_ r) (capacity_ r) n (wrapped_ r).
Definition with_table (t : list Z) (r : ObjectIdRing) : ObjectIdRing :=
  mkRing t (max_serial_ r) (capacity_ r) (serial_num_ r) (wrapped_ r).

Section ObjectIdRing.
(** [null] is [Object::null()]. *)
Context (null : Z).

Definition SetCapacityAndMaxSerial (capacity max_serial : Z) (r : ObjectIdRing) : outcome ObjectIdRing :=
  ASSERT max_serial <=? kMaxId ;;
  Ok (mkRing (replicate (Z.to_nat capacity) null) (max_serial - Z.rem max_serial capacity) capacity
        (serial_num_ r) (wrapped_ r)).

Definition new_ObjectIdRing (capacity : Z) : outcome ObjectIdRing :=
  ASSERT capacity >? 0 ;;
  SetCapacityAndMaxSerial capacity kMaxId (mkRing [] 0 0 0 false).

(** The entry at [index] of the table. *)
Definition table_at (index : Z) (r : ObjectIdRing) : outcome Z :=
  if index <? 0 then Err (HostFault index)
  else match table_ r !! Z.to_nat index with
       | Some o => Ok o
       | None => Err (HostFault index)
       end.

Definition set_table (index o : Z) (r : ObjectIdRing) : outcome ObjectIdRing :=
  let* _ := table_at index r in
  Ok (with_table (<[Z.to_nat index := o]> (table_ r)) r).

Definition NextSerial (r : ObjectIdRing) : Z * ObjectIdRing :=
  let id := serial_num_ r in
  let r := with_serial (int32 (serial_num_ r + 1)) r in
  if serial_num_ r >=? max_serial_ r then (id, with_wrapped true (with_serial 0 r)) else (id, r).

Definition IsValidContiguous (id : Z) (r : ObjectIdRing) : outcome bool :=
  ASSERT negb (id =? kInvalidId) ;;
  ASSERT (id >=? 0) && (id <? max_serial_ r) ;;
  if id >=? serial_num_ r then Ok false
  else
    let bottom := if serial_num_ r >=? capacity_ r then serial_num_ r - capacity_ r else 0 in
    Ok (id >=? bottom).

(** The test also notices that the ids are contiguous again. *)
Definition IsValidId (id : Z) (r : ObjectIdRing) : outcome (bool * ObjectIdRing) :=
  if id =? kInvalidId then Ok (false, r)
  else if id <? 0 then Ok (false, r)
  else if id >=? max_serial_ r then Ok (false, r)
  else
    if wrapped_ r then
      if serial_num_ r >=? capacity_ r then
        let r := with_wrapped false r in
        let* v := IsValidContiguous id r in
        Ok (v, r)
      else if id <? serial_num_ r then Ok (true, r)
      else
        let bottom := max_serial_ r - (capacity_ r - serial_num_ r) in
        Ok ((id >=? bottom) && (bottom <? max_serial_ r), r)
    else
      let* v := IsValidContiguous id r in
      Ok (v, r).

Definition IndexOfId (id : Z) (r : ObjectIdRing) : outcome (Z * ObjectIdRing) :=
  let* (valid, r) := IsValidId id r in
  if negb valid then Ok (kInvalidId, r)
  else
    ASSERT (id >=? 0) && (id <? max_serial_ r) ;;
    Ok (Z.rem id (capacity_ r), r).

(** The id that [IdOfIndex] computes for an index of the table. *)
Definition id_at (index : Z) (r : ObjectIdRing) : outcome Z :=
  if wrapped_ r then
    ASSERT serial_num_ r <? capacity_ r ;;
    if index <? serial_num_ r then Ok index
    else
      let bottom := max_serial_ r - capacity_ r in
      Ok (bottom + index)
  else if index <? serial_num_ r then
    let split_point := Z.rem (serial_num_ r) (capacity_ r) in
    if index <? split_point then
      let bottom := serial_num_ r - split_point in
      ASSERT bottom >=? 0 ;; Ok (bottom + index)
    else
      let bottom := serial_num_ r - capacity_ r - split_point in
      ASSERT bottom >=? 0 ;; Ok (bottom + index)
  else Ok kInvalidId.

Definition IdOfIndex (index : Z) (r : ObjectIdRing) : outcome (Z * ObjectIdRing) :=
  if index <? 0 then Ok (kInvalidId, r)
  else if index >=? capacity_ r then Ok (kInvalidId, r)
  else
    let* id := id_at index r in
    let* (valid, r) := IsValidId id r in
    if negb valid then Ok (id, r)
    else
      let* (i, r) := IndexOfId id r in
      ASSERT i =? index ;; Ok (id, r).

(** [RawObject::IsHeapObject] *)
Definition IsHeapObject (raw_obj : Z) : bool := Z.land raw_obj 1 =? 1.

Definition AllocateNewId (raw_obj : Z) (r : ObjectIdRing) : outcome (Z * ObjectIdRing) :=
  ASSERT IsHeapObject raw_obj ;;
  let '(id, r) := NextSerial r in
  ASSERT negb (id =? kInvalidId) ;;
  let* (index, r) := IndexOfId id r in
  ASSERT negb (index =? kInvalidId) ;;
  let* r := set_table index raw_obj r in
  Ok (id, r).

(** The loop of [FindExistingIdForObject], from index [i]. *)
Fixpoint find_index (raw_obj : Z) (table : list Z) (i : Z) : option Z :=
  match table with
  | [] => None
  | o :: table => if o =? raw_obj then Some i else find_index raw_obj table (i + 1)
  end.

Definition FindExistingIdForObject (raw_obj : Z) (r : ObjectIdRing) : outcome (Z * ObjectIdRing) :=
  match find_index raw_obj (table_ r) 0 with
  | Some i => IdOfIndex i r
  | None => Ok (kInvalidId, r)
  end.

Definition GetIdForObject (object : Z) (policy : IdPolicy) (r : ObjectIdRing)
  : outcome (Z * ObjectIdRing) :=
  ASSERT negb (object =? null) ;;
  match policy with
  | kAllocateId => AllocateNewId object r
  | kReuseId =>
      let* (id, r) := FindExistingIdForObject object r in
      if negb (id =? kInvalidId) then Ok (id, r) else AllocateNewId object r
  end.

Definition GetObjectForId (id : Z) (r : ObjectIdRing) : outcome (Z * LookupResult * ObjectIdRing) :=
  let* (index, r) := IndexOfId id r in
  if index =? kInvalidId then Ok (null, kExpired, r)
  else
    ASSERT index >=? 0 ;;
    ASSERT index <? capacity_ r ;;
    let* o := table_at index r in
    if o =? null then Ok (null, kCollected, r)
    else
      let* (id', r) := IdOfIndex index r in
      ASSERT id' =? id ;;
      Ok (o, kValid, r).

(** The garbage collector updates or clears the pointers of the table. *)
Definition VisitPointers (visitor : Z -> Z) (r : ObjectIdRing) : ObjectIdRing :=
  with_table (map visitor (table_ r)) r.

End ObjectIdRing.
