(* ===== verification/ObjectIdRingProofs.v ===== *)
(** The ring of object ids implements a window over the sequence of the objects
    that were given an id. *)
From stdpp Require Import base numbers list.
From Stdlib Require Import ZArith Lia Bool.
From S2P Require Import Prelude ObjectIdRing.
#[local] Open Scope Z_scope.

Lemma with_wrapped_same w r : wrapped_ r = w -> with_wrapped w r = r.
Proof. intros <-; destruct r; done. Qed.

Section Ring.
Context (null C M : Z) (HC : 0 < C) (HM : C <= M <= kMaxId) (Hmult : M mod C = 0).

(** [t] ids were handed out.  The serial number is [t] modulo its maximum; the
    flag may be stale when the ids are contiguous again. *)
Record serial_ok (r : ObjectIdRing) (t : Z) : Prop := mk_serial_ok {
  so_capacity : capacity_ r = C;
  so_max : max_serial_ r = M;
  so_time : 0 <= t;
  so_serial : serial_num_ r = t mod M;
  so_wrapped : wrapped_ r = true -> M <= t;
  so_contiguous : wrapped_ r = false -> t < M \/ C <= t mod M
}.

Definition split_ids (t : Z) : bool := (M <=? t) && (t mod M <? C).

(** The [j]-th object has the id [j mod M] and is in the window. *)
Definition in_window (t j : Z) : Prop := 0 <= j < t /\ t - C <= j.
Definition live (t id : Z) : Prop := exists j, in_window t j /\ id = j mod M.

Lemma mod_block q x : 0 <= x < M -> (M * q + x) mod M = x.
Proof. intros; rewrite Z.add_comm, Z.mul_comm, Z_mod_plus_full; apply Z.mod_small; done. Qed.

Lemma live_split t id :
  0 <= t -> 0 <= id < M -> split_ids t = true ->
  live t id <-> id < t mod M \/ M - (C - t mod M) <= id.
Proof.
  unfold split_ids; rewrite andb_true_iff, Z.leb_le, Z.ltb_lt; intros Ht Hid [HMt Hs].
  pose proof (Z.div_mod t M ltac:(lia)) as E; pose proof (Z.mod_pos_bound t M ltac:(lia)).
  assert (1 <= t / M) by (apply Z.div_le_lower_bound; lia).
  set (q := t / M) in *; set (s := t mod M) in *; split.
  - intros (j & [Hj Hw] & ->); pose proof (Z.div_mod j M ltac:(lia)); pose proof (Z.mod_pos_bound j M ltac:(lia)).
    assert (j / M = q \/ j / M = q - 1) as [Eq | Eq] by nia; rewrite Eq in *; nia.
  - intros [Hlt | Hge]; [exists (M * q + id) | exists (M * (q - 1) + id)];
      (split; [unfold in_window; nia | rewrite mod_block by done; done]).
Qed.

Lemma live_contiguous t id :
  0 <= t -> 0 <= id < M -> split_ids t = false ->
  live t id <-> id < t mod M /\ t mod M - C <= id.
Proof.
  unfold split_ids; rewrite andb_false_iff, Z.leb_gt, Z.ltb_ge; intros Ht Hid Hns.
  pose proof (Z.div_mod t M ltac:(lia)) as E; pose proof (Z.mod_pos_bound t M ltac:(lia)).
  assert (t < M -> t / M = 0) by (intros; apply Z.div_small; lia).
  assert (0 <= t / M) by (apply Z.div_pos; lia).
  set (q := t / M) in *; set (s := t mod M) in *; split.
  - intros (j & [Hj Hw] & ->); pose proof (Z.div_mod j M ltac:(lia)); pose proof (Z.mod_pos_bound j M ltac:(lia)).
    assert (j / M = q) as Eq by nia; rewrite Eq in *; nia.
  - intros [Hlt Hge]; exists (M * q + id); split; [unfold in_window; nia | rewrite mod_block by done; done].
Qed.

Lemma IsValidId_spec r t id :
  serial_ok r t ->
  exists b, IsValidId id r = Ok (b, if (0 <=? id) && (id <? M) then with_wrapped (split_ids t) r else r) /\
    (b = true <-> 0 <= id < M /\ live t id).
Proof.
  intros [Hc Hm Ht Hs Hw Hnw]; unfold IsValidId, kInvalidId; rewrite Hm.
  pose proof (Z.mod_pos_bound t M ltac:(lia)) as Hb.
  destruct (Z.eqb_spec id (-1)) as [-> | Hid]; [exists false; split; [done | lia] |].
  destruct (Z.ltb_spec id 0); [exists false; rewrite (proj2 (Z.leb_gt 0 id)) by lia; split; [done | lia] |].
  rewrite Z.geb_leb; destruct (Z.leb_spec M id).
  { exists false; rewrite (proj2 (Z.leb_le 0 id)), (proj2 (Z.ltb_ge id M)) by lia; split; [done | lia]. }
  rewrite (proj2 (Z.leb_le 0 id)), (proj2 (Z.ltb_lt id M)) by lia; cbn [andb].
  assert (forall r', capacity_ r' = C -> max_serial_ r' = M -> serial_num_ r' = t mod M -> split_ids t = false ->
    exists b, (let* v := IsValidContiguous id r' in Ok (v, r')) = Ok (b, r') /\ (b = true <-> 0 <= id < M /\ live t id)) as Hcont.
  { intros r' Hc' Hm' Hs' Hns; unfold IsValidContiguous, kInvalidId; rewrite Hc', Hm', Hs', !Z.geb_leb.
    rewrite (proj2 (Z.eqb_neq id (-1))), (proj2 (Z.leb_le 0 id)), (proj2 (Z.ltb_lt id M)) by lia; cbn [negb andb].
    pose proof (live_contiguous t id Ht ltac:(lia) Hns) as Hl.
    destruct (Z.leb_spec (t mod M) id); cbn [obind]; [exists false; split; [done | rewrite Hl; lia] |].
    destruct (Z.leb_spec C (t mod M)); cbn [obind]; rewrite ?Z.geb_leb; eexists; (split; [done |]);
      rewrite Hl, Z.leb_le; lia. }
  destruct (wrapped_ r) eqn:Ew.
  - rewrite Z.geb_leb, Hs, Hc; destruct (Z.leb_spec C (t mod M)).
    + assert (split_ids t = false) as Hns by (unfold split_ids; rewrite andb_false_iff, Z.ltb_ge; auto).
      destruct (Hcont (with_wrapped false r)) as (b & -> & Hb'); try done; exists b; rewrite Hns; done.
    + assert (split_ids t = true) as Hsp by (unfold split_ids; rewrite andb_true_iff, Z.leb_le, Z.ltb_lt; auto).
      assert (with_wrapped (split_ids t) r = r) as -> by (rewrite Hsp; apply with_wrapped_same; done).
      pose proof (live_split t id Ht ltac:(lia) Hsp) as Hl.
      destruct (Z.ltb_spec id (t mod M)); [exists true; split; [done | rewrite Hl; lia] |].
      eexists; split; [done |]; rewrite Hl, Z.geb_leb, andb_true_iff, Z.leb_le, Z.ltb_lt; lia.
  - assert (split_ids t = false) as Hns
      by (unfold split_ids; rewrite andb_false_iff, Z.leb_gt, Z.ltb_ge; destruct (Hnw eq_refl); auto).
    assert (with_wrapped (split_ids t) r = r) as -> by (rewrite Hns; apply with_wrapped_same; done).
    apply Hcont; done.
Qed.

(** * The ring between two operations *)
Record ring_ok (r : ObjectIdRing) (hist : list Z) : Prop := mk_ring_ok {
  ro_serial : serial_ok r (Z.of_nat (length hist));
  ro_flag : wrapped_ r = split_ids (Z.of_nat (length hist));
  ro_length : Z.of_nat (length (table_ r)) = C;
  ro_table : forall j o, in_window (Z.of_nat (length hist)) (Z.of_nat j) -> hist !! j = Some o ->
    table_ r !! Z.to_nat (Z.of_nat j mod C) = Some o;
  ro_unused : forall i, Z.of_nat (length hist) <= i < C -> table_ r !! Z.to_nat i = Some null
}.

Lemma window_unique a b : a mod C = b mod C -> b <= a < b + C -> a = b.
Proof.
  intros E H; pose proof (Z.div_mod a C ltac:(lia)); pose proof (Z.div_mod b C ltac:(lia)).
  assert (C * (a / C - b / C) = a - b) as Ed by lia.
  assert (a / C - b / C = 0) by nia; lia.
Qed.

Lemma mod_mod_C j : (j mod M) mod C = j mod C.
Proof.
  apply Z.mod_divide in Hmult as [k Ek]; [| lia].
  rewrite (Z.div_mod j M) at 2 by lia; rewrite Ek at 2.
  replace (k * C * (j / M) + j mod M) with (j mod M + (k * (j / M)) * C) by lia.
  rewrite Z_mod_plus_full; done.
Qed.

Lemma IndexOfId_spec r t id :
  serial_ok r t ->
  exists b r', IsValidId id r = Ok (b, r') /\ (b = true <-> 0 <= id < M /\ live t id) /\
    IndexOfId id r = Ok (if b then id mod C else kInvalidId, r') /\
    (0 <= id < M -> r' = with_wrapped (split_ids t) r) /\ (~ 0 <= id < M -> r' = r).
Proof.
  intros Hso; destruct (IsValidId_spec r t id Hso) as (b & E & Hb); eexists b, _; split; [exact E |].
  split; [done |]; unfold IndexOfId; rewrite E; cbn [obind].
  assert ((0 <=? id) && (id <? M) = true <-> 0 <= id < M) as Hr by (rewrite andb_true_iff, Z.leb_le, Z.ltb_lt; done).
  destruct ((0 <=? id) && (id <? M)) eqn:Er; split_and!; try tauto || (intros; exfalso; intuition discriminate).
  - destruct b; cbn [negb]; [| done]; cbn [max_serial_ capacity_ with_wrapped].
    rewrite (so_max _ _ Hso), (so_capacity _ _ Hso), Z.geb_leb, Er, Z.rem_mod_nonneg by lia; done.
  - destruct b; [| done]; exfalso; intuition discriminate.
Qed.

(** The id of the object at an index that is in use. *)
Lemma id_at_spec r hist i :
  ring_ok r hist -> 0 <= i < C -> i < Z.of_nat (length hist) ->
  exists j, in_window (Z.of_nat (length hist)) j /\ j mod C = i /\ id_at i r = Ok (j mod M).
Proof.
  intros Hok Hi Hlt; pose proof (ro_serial _ _ Hok) as Hso; pose proof (ro_flag _ _ Hok) as Hw.
  set (t := Z.of_nat (length hist)) in *; pose proof Hso as [Hc Hm Ht Hs _ _].
  pose proof (Z.div_mod t M ltac:(lia)) as E; pose proof (Z.mod_pos_bound t M ltac:(lia)) as Hb.
  destruct (proj1 (Z.mod_divide M C ltac:(lia)) Hmult) as [k Ek].
  assert (0 <= t / M) by (apply Z.div_pos; lia).
  assert (t < M -> t / M = 0) by (intros; apply Z.div_small; lia).
  assert (forall q a, (M * q + (C * a + i)) mod C = i) as HmodC.
  { intros q a; rewrite Ek; replace (k * C * q + (C * a + i)) with (i + (k * q + a) * C) by lia.
    rewrite Z_mod_plus_full; apply Z.mod_small; lia. }
  unfold id_at; rewrite Hc, Hm, Hs, Hw; unfold split_ids.
  set (q := t / M) in *; set (s := t mod M) in *.
  destruct ((M <=? t) && (s <? C)) eqn:Esplit; cbv zeta.
  - rewrite andb_true_iff, Z.leb_le, Z.ltb_lt in Esplit; destruct Esplit as [HMt HsC].
    rewrite (proj2 (Z.ltb_lt s C)) by done; destruct (Z.ltb_spec i s).
    + exists (M * q + (C * 0 + i)); rewrite HmodC, mod_block by lia; unfold in_window.
      split_and!; try nia; f_equal; lia.
    + assert (1 <= q) by nia.
      exists (M * (q - 1) + (C * (k - 1) + i)); rewrite HmodC, mod_block by nia; unfold in_window.
      split_and!; try nia; f_equal; nia.
  - rewrite andb_false_iff, Z.leb_gt, Z.ltb_ge in Esplit.
    assert (i < s) as His by (destruct Esplit as [HtM |]; [rewrite (H0 HtM) in E |]; lia).
    rewrite (proj2 (Z.ltb_lt i s)), Z.rem_mod_nonneg by lia.
    pose proof (Z.div_mod s C ltac:(lia)) as Es; pose proof (Z.mod_pos_bound s C ltac:(lia)).
    assert (0 <= s / C) by (apply Z.div_pos; lia).
    set (d := s / C) in *; set (p := s mod C) in *; rewrite !Z.geb_leb; destruct (Z.ltb_spec i p).
    + rewrite (proj2 (Z.leb_le 0 (s - p))) by nia.
      exists (M * q + (C * d + i)); rewrite HmodC, mod_block by nia; unfold in_window.
      split_and!; try nia; f_equal; nia.
    + assert (1 <= d) by nia; rewrite (proj2 (Z.leb_le 0 (s - C - p))) by nia.
      exists (M * q + (C * (d - 1) + i)); rewrite HmodC, mod_block by nia; unfold in_window.
      split_and!; try nia; f_equal; nia.
Qed.

Lemma IdOfIndex_spec r hist i :
  ring_ok r hist -> 0 <= i < C -> i < Z.of_nat (length hist) ->
  exists j, in_window (Z.of_nat (length hist)) j /\ j mod C = i /\ IdOfIndex i r = Ok (j mod M, r).
Proof.
  intros Hok Hi Hlt; pose proof (ro_serial _ _ Hok) as Hso; pose proof (ro_flag _ _ Hok) as Hw.
  destruct (id_at_spec r hist i Hok Hi Hlt) as (j & Hj & Hji & Ej); exists j; split_and!; [done | done |].
  unfold IdOfIndex; rewrite (proj2 (Z.ltb_ge i 0)), Z.geb_leb, (so_capacity _ _ Hso), (proj2 (Z.leb_gt C i)), Ej by lia.
  cbn [obind]; destruct (IndexOfId_spec r _ (j mod M) Hso) as (b & r' & Ev & Hbv & Ei & Hr' & _).
  pose proof (Z.mod_pos_bound j M ltac:(lia)).
  assert (b = true) as -> by (apply Hbv; split; [done | exists j; done]).
  rewrite Hr' in Ev, Ei by done; rewrite <- Hw, (with_wrapped_same _ r eq_refl) in Ev, Ei.
  rewrite Ev; cbn [obind negb]; rewrite Ei; cbn [obind]; rewrite mod_mod_C, Hji, Z.eqb_refl; done.
Qed.

(** * The operations *)
Lemma table_at_lookup r i o :
  0 <= i -> table_ r !! Z.to_nat i = Some o -> table_at i r = Ok o.
Proof. intros Hi E; unfold table_at; rewrite (proj2 (Z.ltb_ge i 0)), E by lia; done. Qed.

Lemma NextSerial_ok r t :
  serial_ok r t -> wrapped_ r = split_ids t ->
  exists r', NextSerial r = (t mod M, r') /\ serial_ok r' (t + 1) /\ table_ r' = table_ r.
Proof.
  intros [Hc Hm Ht Hs Hw Hnw] Hfl; pose proof (Z.mod_pos_bound t M ltac:(lia)) as Hb; unfold kMaxId in HM.
  pose proof (Z.div_mod t M ltac:(lia)) as E; unfold NextSerial; cbn [serial_num_ max_serial_ with_serial].
  rewrite Hs, Hm, (to_s_id 32 (t mod M + 1)), Z.geb_leb by (unfold in_s; lia).
  destruct (Z.leb_spec M (t mod M + 1)); eexists; (split; [done |]); (split; [| done]).
  - assert ((t + 1) mod M = 0) as E0.
    { replace (t + 1) with (0 + (t / M + 1) * M) by lia; rewrite Z_mod_plus_full; apply Z.mod_small; lia. }
    assert (0 <= t / M) by (apply Z.div_pos; lia).
    split; cbn; rewrite ?E0; try done; try lia; intros; nia.
  - assert ((t + 1) mod M = t mod M + 1) as E1.
    { replace (t + 1) with (M * (t / M) + (t mod M + 1)) by lia; apply mod_block; lia. }
    split; cbn; rewrite ?E1; try done; try lia; intros Hf.
    + specialize (Hw Hf); lia.
    + specialize (Hnw Hf); destruct Hnw as [Hlt |]; [left | right; lia].
      rewrite (Z.mod_small t M) in * by lia; lia.
Qed.

Lemma AllocateNewId_ok r hist o :
  ring_ok r hist -> IsHeapObject o = true ->
  exists r', AllocateNewId o r = Ok (Z.of_nat (length hist) mod M, r') /\ ring_ok r' (hist ++ [o]).
Proof.
  intros Hok Ho; set (t := Z.of_nat (length hist)); unfold AllocateNewId; rewrite Ho.
  destruct (NextSerial_ok r t (ro_serial _ _ Hok) (ro_flag _ _ Hok)) as (r1 & -> & Hso1 & Ht1).
  pose proof (Z.mod_pos_bound t M ltac:(lia)) as Hb; unfold kInvalidId at 1.
  rewrite (proj2 (Z.eqb_neq _ _)) by lia; cbn [negb].
  destruct (IndexOfId_spec r1 (t + 1) (t mod M) Hso1) as (b & r2 & _ & Hbv & -> & Hr2 & _).
  assert (b = true) as -> by (apply Hbv; split; [done |]; exists t; unfold in_window; split; [lia | done]).
  rewrite Hr2 by done; cbn [obind]; rewrite mod_mod_C.
  pose proof (Z.mod_pos_bound t C ltac:(lia)) as HbC; unfold kInvalidId; rewrite (proj2 (Z.eqb_neq _ _)) by lia.
  cbn [negb]; unfold set_table; pose proof (ro_length _ _ Hok) as Hl.
  assert (Z.to_nat (t mod C) < length (table_ r))%nat as Hlt by lia.
  destruct (lookup_lt_is_Some_2 _ _ Hlt) as [o' Eo'].
  rewrite (table_at_lookup _ _ o') by (lia || (cbn; rewrite Ht1; done)); cbn [obind].
  eexists; split; [done |]; cbn [table_ with_wrapped].
  assert (Z.of_nat (length (hist ++ [o])) = t + 1) as El by (rewrite length_app; cbn; lia).
  split; cbn [table_ with_table with_wrapped wrapped_]; rewrite ?El, ?Ht1, ?length_insert; try done.
  - destruct Hso1; split; try done; cbn; unfold split_ids; intros Hf.
    + rewrite andb_true_iff, Z.leb_le in Hf; lia.
    + rewrite andb_false_iff, Z.leb_gt, Z.ltb_ge in Hf; done.
  - intros j x Hj Hx; destruct (decide (j = length hist)) as [-> | Hne].
    + rewrite lookup_app_r, Nat.sub_diag in Hx by lia; injection Hx as <-.
      apply list_lookup_insert_eq; done.
    + assert (j < length hist)%nat by (unfold in_window in Hj; lia).
      rewrite lookup_app_l in Hx by lia; rewrite list_lookup_insert_ne.
      * apply (ro_table _ _ Hok); [unfold in_window in *; lia | done].
      * fold t; pose proof (Z.mod_pos_bound (Z.of_nat j) C ltac:(lia)); intros E.
        assert (t mod C = Z.of_nat j mod C) as E' by lia.
        unfold in_window in Hj; pose proof (window_unique t (Z.of_nat j) E'); lia.
  - intros i Hi; rewrite list_lookup_insert_ne; [apply (ro_unused _ _ Hok); lia |].
    fold t; rewrite (Z.mod_small t C) by lia; lia.
Qed.

Lemma GetObjectForId_live r hist j o :
  ring_ok r hist -> in_window (Z.of_nat (length hist)) (Z.of_nat j) -> hist !! j = Some o ->
  GetObjectForId null (Z.of_nat j mod M) r = Ok (o, if o =? null then kCollected else kValid, r).
Proof.
  intros Hok Hj Hx; pose proof (ro_serial _ _ Hok) as Hso; unfold GetObjectForId.
  pose proof (Z.mod_pos_bound (Z.of_nat j) M ltac:(lia)) as HbM.
  pose proof (Z.mod_pos_bound (Z.of_nat j) C ltac:(lia)) as HbC.
  destruct (IndexOfId_spec r _ (Z.of_nat j mod M) Hso) as (b & r' & _ & Hbv & -> & Hr' & _).
  assert (b = true) as -> by (apply Hbv; split; [done | eexists; done]).
  rewrite Hr' by done; rewrite <- (ro_flag _ _ Hok), (with_wrapped_same _ r eq_refl), mod_mod_C.
  cbn [obind]; unfold kInvalidId; rewrite (proj2 (Z.eqb_neq _ _)) by lia.
  rewrite Z.geb_leb, (proj2 (Z.leb_le _ _)), (so_capacity _ _ Hso), (proj2 (Z.ltb_lt _ _)) by lia.
  rewrite (table_at_lookup _ _ o) by (lia || apply (ro_table _ _ Hok); done); cbn [obind].
  destruct (Z.eqb_spec o null) as [-> | Hn]; [done |].
  assert (Z.of_nat j mod C < Z.of_nat (length hist)) as Hlt
    by (unfold in_window in Hj; pose proof (Z.mod_le (Z.of_nat j) C); lia).
  destruct (IdOfIndex_spec r hist (Z.of_nat j mod C) Hok HbC Hlt) as (j' & Hj' & Ej' & ->); cbn [obind].
  assert (j' = Z.of_nat j) as ->; [| rewrite Z.eqb_refl; done].
  unfold in_window in *; pose proof (window_unique j' (Z.of_nat j) Ej').
  pose proof (window_unique (Z.of_nat j) j' (eq_sym Ej')); lia.
Qed.

Lemma GetObjectForId_expired r hist id :
  ring_ok r hist -> ~ live (Z.of_nat (length hist)) id -> GetObjectForId null id r = Ok (null, kExpired, r).
Proof.
  intros Hok Hl; pose proof (ro_serial _ _ Hok) as Hso; unfold GetObjectForId.
  destruct (IndexOfId_spec r _ id Hso) as (b & r' & _ & Hbv & -> & Hr' & Hr'').
  assert (b = false) as -> by (destruct b; [exfalso; apply Hl, Hbv; done | done]); cbn [obind].
  rewrite Z.eqb_refl; destruct (decide (0 <= id < M)) as [Hin | Hout]; [| rewrite Hr''; done].
  rewrite Hr', <- (ro_flag _ _ Hok), (with_wrapped_same _ r eq_refl) by done; done.
Qed.

Lemma live_dec r hist id :
  ring_ok r hist ->
  (exists j o, in_window (Z.of_nat (length hist)) (Z.of_nat j) /\ hist !! j = Some o /\ id = Z.of_nat j mod M) \/
  ~ live (Z.of_nat (length hist)) id.
Proof.
  intros Hok; destruct (IndexOfId_spec r _ id (ro_serial _ _ Hok)) as (b & r' & _ & Hbv & _).
  destruct b; [left | right; intros Hl].
  - destruct (proj1 Hbv eq_refl) as [_ (j & Hj & ->)].
    destruct (lookup_lt_is_Some_2 hist (Z.to_nat j)) as [o Eo]; [unfold in_window in Hj; lia |].
    exists (Z.to_nat j), o; rewrite Z2Nat.id by (unfold in_window in Hj; lia); done.
  - assert (false = true); [apply Hbv; split; [| done] | done].
    destruct Hl as (j & _ & ->); apply Z.mod_pos_bound; lia.
Qed.

Lemma VisitPointers_ok r hist f :
  ring_ok r hist -> f null = null -> ring_ok (VisitPointers f r) (map f hist).
Proof.
  intros [Hs Hfl Hl Ht Hu] Hf; split; cbn [table_ VisitPointers with_table]; rewrite ?length_map; try done.
  - destruct Hs; done.
  - intros j o Hj Hx; change (map f hist) with (f <$> hist) in Hx.
    apply list_lookup_fmap_Some in Hx as (x & -> & Hx); change (map f (table_ r)) with (f <$> table_ r).
    rewrite list_lookup_fmap, (Ht j x) by done; done.
  - intros i Hi; change (map f (table_ r)) with (f <$> table_ r); rewrite list_lookup_fmap, Hu by done; cbn; rewrite Hf; done.
Qed.

(** The object is found at an index in use, as [null] is not looked for. *)
Lemma find_index_spec o l k i :
  find_index o l k = Some i -> k <= i /\ l !! Z.to_nat (i - k) = Some o.
Proof.
  revert k; induction l as [| x l IH]; intros k; cbn [find_index]; [done |].
  destruct (Z.eqb_spec x o) as [-> | Hne]; intros H.
  - injection H as <-; split; [lia |]; rewrite Z.sub_diag; done.
  - destruct (IH _ H) as [Hk El]; split; [lia |].
    replace (Z.to_nat (i - k)) with (S (Z.to_nat (i - (k + 1)))) by lia; done.
Qed.

Lemma FindExisting_ok r hist o :
  ring_ok r hist -> o <> null ->
  (exists j, in_window (Z.of_nat (length hist)) (Z.of_nat j) /\ hist !! j = Some o /\
     FindExistingIdForObject o r = Ok (Z.of_nat j mod M, r)) \/
  FindExistingIdForObject o r = Ok (kInvalidId, r).
Proof.
  intros Hok Hn; unfold FindExistingIdForObject; destruct (find_index o (table_ r) 0) as [i |] eqn:E; [left | right; done].
  apply find_index_spec in E as [Hi El]; rewrite Z.sub_0_r in El.
  pose proof (lookup_lt_Some _ _ _ El) as Hlt; pose proof (ro_length _ _ Hok) as Hlen.
  assert (i < Z.of_nat (length hist)) as Hih.
  { destruct (Z.lt_ge_cases i (Z.of_nat (length hist))) as [| Hge]; [done |].
    rewrite (ro_unused _ _ Hok) in El by lia; congruence. }
  destruct (IdOfIndex_spec r hist i Hok ltac:(lia) Hih) as (j & Hj & Ej & ->).
  exists (Z.to_nat j); rewrite Z2Nat.id by (unfold in_window in Hj; lia); split_and!; [done | | done].
  destruct (lookup_lt_is_Some_2 hist (Z.to_nat j)) as [x Ex]; [unfold in_window in Hj; lia |].
  rewrite Ex; pose proof (ro_table _ _ Hok (Z.to_nat j) x) as Ht.
  rewrite Z2Nat.id in Ht by (unfold in_window in Hj; lia); rewrite Ej, El in Ht; symmetry; auto.
Qed.
End Ring.

(** * Runs *)
(** [ring_run null capacity hist r]: the ring [r] after the objects [hist] were
    given ids, in that order; the collector moved or cleared some of them. *)
Inductive ring_run (null capacity : Z) : list Z -> ObjectIdRing -> Prop :=
| run_new r : new_ObjectIdRing null capacity = Ok r -> ring_run null capacity [] r
| run_allocate hist r o id r' :
    ring_run null capacity hist r -> GetIdForObject null o kAllocateId r = Ok (id, r') ->
    ring_run null capacity (hist ++ [o]) r'
| run_reuse hist r o id r' :
    ring_run null capacity hist r -> FindExistingIdForObject o r = Ok (id, r') -> id <> kInvalidId ->
    o <> null -> ring_run null capacity hist r'
| run_lookup hist r id res r' :
    ring_run null capacity hist r -> GetObjectForId null id r = Ok (res, r') ->
    ring_run null capacity hist r'
| run_collect hist r f :
    ring_run null capacity hist r -> f null = null ->
    ring_run null capacity (map f hist) (VisitPointers f r).

(** The largest multiple of the capacity: the ids wrap around there. *)
Definition id_limit (capacity : Z) : Z := kMaxId - kMaxId mod capacity.

Lemma id_limit_ok C : 0 < C <= kMaxId -> C <= id_limit C <= kMaxId /\ id_limit C mod C = 0.
Proof.
  intros HC; unfold id_limit; pose proof (Z.mod_pos_bound kMaxId C ltac:(lia)) as Hb.
  pose proof (Z.div_mod kMaxId C ltac:(lia)) as E.
  assert (1 <= kMaxId / C) by (apply Z.div_le_lower_bound; lia).
  split; [nia |]; replace (kMaxId - kMaxId mod C) with (0 + kMaxId / C * C) by lia.
  rewrite Z_mod_plus_full; apply Z.mod_small; lia.
Qed.

Lemma ring_run_ok null C hist r :
  0 < C <= kMaxId -> ring_run null C hist r -> ring_ok null C (id_limit C) r hist.
Proof.
  intros HC Hrun; destruct (id_limit_ok C HC) as [HM Hmult].
  induction Hrun as [r E | hist r o id r' _ IH E | hist r o id r' _ IH E Hid Hn | hist r id [o k] r' _ IH E | hist r f _ IH Hf].
  - unfold new_ObjectIdRing, SetCapacityAndMaxSerial in E; rewrite (proj2 (Z.gtb_lt _ _)), Z.leb_refl in E by lia.
    injection E as <-; split; cbn [table_ wrapped_ length].
    + split; cbn [capacity_ max_serial_ serial_num_ wrapped_ length Z.of_nat]; try done || lia.
      unfold id_limit; rewrite Z.rem_mod_nonneg by lia; done.
    + unfold split_ids; rewrite (proj2 (Z.leb_gt _ _)) by (cbn; lia); done.
    + rewrite length_replicate; lia.
    + intros j o Hj; unfold in_window in Hj; cbn in Hj; lia.
    + intros i Hi; apply lookup_replicate; split; [done | cbn in Hi; lia].
  - unfold GetIdForObject in E; destruct (o =? null); [discriminate |]; cbn [negb] in E.
    destruct (IsHeapObject o) eqn:Ho; [| unfold AllocateNewId in E; rewrite Ho in E; discriminate].
    destruct (AllocateNewId_ok null C (id_limit C) ltac:(lia) HM Hmult r hist o IH Ho) as (r2 & E2 & Hok2).
    rewrite E2 in E; injection E as _ <-; done.
  - destruct (FindExisting_ok null C (id_limit C) ltac:(lia) HM Hmult r hist o IH Hn) as [(j & _ & _ & E2) | E2];
      rewrite E2 in E; injection E as E <-; done.
  - destruct (live_dec null C (id_limit C) ltac:(lia) HM r hist id IH) as [(j & x & Hj & Hx & ->) | Hno].
    + rewrite (GetObjectForId_live null C (id_limit C) ltac:(lia) HM Hmult r hist j x) in E by done.
      injection E as _ _ <-; done.
    + rewrite (GetObjectForId_expired null C (id_limit C) ltac:(lia) HM r hist) in E by done.
      injection E as _ _ <-; done.
  - apply VisitPointers_ok; done.
Qed.

(** C31. In every reachable state of the ring, and for every id: the id of one of
    the last [capacity] objects that were given an id yields that object (or says
    that it was collected), any other id is reported as expired, across any number
    of wrap-arounds of the ids; no assertion fails and no access is out of bounds. *)
Theorem ring_lookup null C hist r id :
  0 < C <= kMaxId -> ring_run null C hist r ->
  (forall j o, in_window C (Z.of_nat (length hist)) (Z.of_nat j) -> hist !! j = Some o ->
     id = Z.of_nat j mod id_limit C ->
     GetObjectForId null id r = Ok (o, if o =? null then kCollected else kValid, r)) /\
  (~ live C (id_limit C) (Z.of_nat (length hist)) id ->
     GetObjectForId null id r = Ok (null, kExpired, r)).
Proof.
  intros HC Hrun; destruct (id_limit_ok C HC) as [HM Hmult].
  pose proof (ring_run_ok null C hist r HC Hrun) as Hok; split.
  - intros j o Hj Hx ->; apply (GetObjectForId_live null C (id_limit C) ltac:(lia) HM Hmult r hist j o); done.
  - intros Hl; apply (GetObjectForId_expired null C (id_limit C) ltac:(lia) HM r hist); done.
Qed.

(** Giving an id to an object succeeds under both policies, and the id leads
    back to the object. *)
Theorem ring_roundtrip null C hist r o policy :
  0 < C <= kMaxId -> ring_run null C hist r -> o <> null -> IsHeapObject o = true ->
  exists id r', GetIdForObject null o policy r = Ok (id, r') /\ GetObjectForId null id r' = Ok (o, kValid, r').
Proof.
  intros HC Hrun Hn Ho; destruct (id_limit_ok C HC) as [HM Hmult].
  pose proof (ring_run_ok null C hist r HC Hrun) as Hok.
  assert (exists id r', AllocateNewId o r = Ok (id, r') /\ GetObjectForId null id r' = Ok (o, kValid, r')) as Halloc.
  { destruct (AllocateNewId_ok null C (id_limit C) ltac:(lia) HM Hmult r hist o Hok Ho) as (r' & E & Hok').
    exists (Z.of_nat (length hist) mod id_limit C), r'; split; [done |].
    rewrite (GetObjectForId_live null C (id_limit C) ltac:(lia) HM Hmult r' (hist ++ [o]) (length hist) o); try done.
    - rewrite (proj2 (Z.eqb_neq o null)) by done; done.
    - unfold in_window; rewrite length_app; cbn; lia.
    - rewrite lookup_app_r, Nat.sub_diag by lia; done. }
  unfold GetIdForObject; rewrite (proj2 (Z.eqb_neq o null)) by done; cbn [negb]; destruct policy; [done |].
  destruct (FindExisting_ok null C (id_limit C) ltac:(lia) HM Hmult r hist o Hok Hn) as [(j & Hj & Hx & E) | E];
    rewrite E; cbn [obind].
  - pose proof (Z.mod_pos_bound (Z.of_nat j) (id_limit C) ltac:(lia)); unfold kInvalidId.
    rewrite (proj2 (Z.eqb_neq _ _)) by lia; cbn [negb]; eexists _, r; split; [done |].
    rewrite (GetObjectForId_live null C (id_limit C) ltac:(lia) HM Hmult r hist j o) by done.
    rewrite (proj2 (Z.eqb_neq o null)) by done; done.
  - rewrite Z.eqb_refl; done.
Qed.

(** * A concrete ring *)
(** Capacity 2, the null object at 9; the objects 101, 103 and 105. *)
Definition ring_of (r : outcome ObjectIdRing) : ObjectIdRing :=
  match r with Ok r => r | Err _ => mkRing [] 0 0 0 false end.
Definition give (o : Z) (r : ObjectIdRing) : ObjectIdRing :=
  ring_of (let* (_, r) := GetIdForObject 9 o kAllocateId r in Ok r).
Definition ring3 : ObjectIdRing := give 105 (give 103 (give 101 (ring_of (new_ObjectIdRing 9 2)))).

Lemma ring3_run : ring_run 9 2 [101; 103; 105] ring3.
Proof.
  apply (run_allocate 9 2 [101; 103] (give 103 (give 101 (ring_of (new_ObjectIdRing 9 2)))) 105 2); [| reflexivity].
  apply (run_allocate 9 2 [101] (give 101 (ring_of (new_ObjectIdRing 9 2))) 103 1); [| reflexivity].
  apply (run_allocate 9 2 [] (ring_of (new_ObjectIdRing 9 2)) 101 0); [| reflexivity].
  apply run_new; reflexivity.
Qed.

Lemma ring_lookup_witness :
  GetObjectForId 9 1 ring3 = Ok (103, kValid, ring3) /\ GetObjectForId 9 0 ring3 = Ok (9, kExpired, ring3).
Proof.
  split.
  - destruct (ring_lookup 9 2 [101; 103; 105] ring3 1 ltac:(unfold kMaxId; lia) ring3_run) as [H _].
    rewrite (H 1%nat 103); [reflexivity | unfold in_window; cbn; lia | reflexivity | reflexivity].
  - destruct (ring_lookup 9 2 [101; 103; 105] ring3 0 ltac:(unfold kMaxId; lia) ring3_run) as [_ H].
    apply H; intros (j & Hj & E); unfold in_window in Hj; cbn [length] in Hj.
    assert (id_limit 2 = 1073741822) as El by reflexivity; rewrite El in E.
    rewrite Z.mod_small in E by lia; lia.
Defined.

Lemma ring_roundtrip_witness :
  exists id r', GetIdForObject 9 103 kReuseId ring3 = Ok (id, r') /\ GetObjectForId 9 id r' = Ok (103, kValid, r').
Proof.
  apply (ring_roundtrip 9 2 [101; 103; 105] ring3 103 kReuseId ltac:(unfold kMaxId; lia) ring3_run);
    [lia | reflexivity].
Defined.
