(* ===== verification/Random.v ===== *)
(** The random number generator of the VM ([vm/random.h], [vm/random.cc]): multiply
    with carry in base 2^32.  Model and properties. *)
From stdpp Require Import base tactics.
From Stdlib Require Import ZArith Lia Bool.
From S2P Require Import Prelude.
#[local] Open Scope Z_scope.

Module Random.
Definition MASK_32 : Z := 0xffffffff.
Definition A : Z := 0xffffda61.

Record Random : Type := mkRandom { state_ : Z }.

(** The arithmetic is that of [uint64_t]. *)
Definition NextState (r : Random) : Random :=
  let state_lo := Z.land (state_ r) MASK_32 in
  let state_hi := Z.land (Z.shiftr (state_ r) 32) MASK_32 in
  mkRandom (to_u 64 (to_u 64 (A * state_lo) + state_hi)).

Definition NextUInt32 (r : Random) : Z * Random :=
  let r := NextState r in
  (to_u 32 (Z.land (state_ r) MASK_32), r).

(** The language leaves open which of the two draws is made first; here it is that of
    the upper half. *)
Definition NextUInt64 (r : Random) : Z * Random :=
  let (hi, r) := NextUInt32 r in
  let (lo, r) := NextUInt32 r in
  (Z.lor (to_u 64 (Z.shiftl hi 32)) lo, r).

(** The seed is the flag, or what the entropy callback delivers, or the time in
    microseconds.  [callback] is [None] when none is set, [Some None] when it
    fails. *)
Definition seed_of (FLAG_random_seed : Z) (callback : option (option Z)) (time : Z) : Z :=
  let seed := to_u 64 FLAG_random_seed in
  let seed :=
    if seed =? 0 then
      match callback with
      | Some (Some entropy) => to_u 64 entropy
      | Some None => 0
      | None => seed
      end
    else seed in
  if seed =? 0 then to_u 64 time else seed.

Definition new_Random (FLAG_random_seed : Z) (callback : option (option Z)) (time : Z) : Random :=
  NextState (NextState (NextState (NextState (mkRandom (seed_of FLAG_random_seed callback time))))).

(** * The sequence is that of a multiplicative generator *)
(** The modulus [A * 2^32 - 1]. *)
Definition modulus : Z := A * 2 ^ 32 - 1.

Lemma NextState_value s :
  0 <= s < 2 ^ 64 -> state_ (NextState (mkRandom s)) = A * (s mod 2 ^ 32) + s / 2 ^ 32.
Proof.
  intros Hs; unfold NextState, MASK_32; cbn [state_]; change 0xffffffff with (Z.ones 32).
  rewrite !Z.land_ones, Z.shiftr_div_pow2 by lia.
  pose proof (Z.mod_pos_bound s (2 ^ 32) eq_refl).
  assert (0 <= s / 2 ^ 32 < 2 ^ 32) by (split; [apply Z.div_pos | apply Z.div_lt_upper_bound]; lia).
  rewrite (Z.mod_small (s / _)) by done; unfold to_u, A in *; rewrite (Z.mod_small (_ * _)) by lia.
  apply Z.mod_small; lia.
Qed.

Lemma NextState_range s : 0 <= s < 2 ^ 64 -> 0 <= state_ (NextState (mkRandom s)) < 2 ^ 64.
Proof. intros Hs; unfold NextState; cbn [state_]; apply Z.mod_pos_bound; done. Qed.

Lemma NextState_congruent s :
  0 <= s < 2 ^ 64 -> (state_ (NextState (mkRandom s)) * 2 ^ 32) mod modulus = s mod modulus.
Proof.
  intros Hs; rewrite NextState_value by done; rewrite (Z.div_mod s (2 ^ 32)) at 3 by done.
  replace ((A * (s mod 2 ^ 32) + s / 2 ^ 32) * 2 ^ 32)
    with (2 ^ 32 * (s / 2 ^ 32) + s mod 2 ^ 32 + (s mod 2 ^ 32) * modulus) by (unfold modulus; ring).
  apply Z.mod_add; done.
Qed.

(** The values a generator takes: not zero, and below the modulus. *)
Definition good (r : Random) : Prop := 0 < state_ r < modulus.

Lemma NextState_good r : good r -> good (NextState r).
Proof.
  destruct r as [s]; unfold good; cbn [state_]; intros Hs.
  rewrite NextState_value by (unfold modulus, A in Hs; lia).
  pose proof (Z.div_mod s (2 ^ 32) ltac:(done)); pose proof (Z.mod_pos_bound s (2 ^ 32) eq_refl).
  revert Hs; unfold modulus, A; lia.
Qed.

(** One step brings a seed close to the range, the second into it. *)
Lemma two_steps_good s : 0 < s < 2 ^ 64 -> s <> modulus -> good (NextState (NextState (mkRandom s))).
Proof.
  intros Hs Hm; unfold good.
  pose proof (NextState_value s ltac:(lia)) as E1; pose proof (NextState_range s ltac:(lia)) as R1.
  destruct (NextState (mkRandom s)) as [s1]; cbn [state_] in E1, R1; rewrite NextState_value by done.
  pose proof (Z.div_mod s (2 ^ 32) ltac:(done)); pose proof (Z.mod_pos_bound s (2 ^ 32) eq_refl).
  pose proof (Z.div_mod s1 (2 ^ 32) ltac:(done)); pose proof (Z.mod_pos_bound s1 (2 ^ 32) eq_refl).
  revert Hs Hm E1; unfold modulus, A; lia.
Qed.

(** C36. The generator never overflows its 64-bit state: a step multiplies the state by
    the inverse of 2^32 modulo [A * 2^32 - 1], as multiply with carry does.  Every seed
    but 0 and the modulus gives a generator whose state is never 0 and always below
    the modulus, and it draws values of 32 bits. *)
Theorem Random_multiplicative (s : Z) (Hs : 0 < s < 2 ^ 64) :
  (let s' := state_ (NextState (mkRandom s)) in
   s' = A * (s mod 2 ^ 32) + s / 2 ^ 32 /\ 0 <= s' < 2 ^ 64 /\ (s' * 2 ^ 32) mod modulus = s mod modulus) /\
  (forall flag callback time, seed_of flag callback time = s -> s <> modulus -> good (new_Random flag callback time)) /\
  (forall r, good r -> let (v, r') := NextUInt32 r in 0 <= v < 2 ^ 32 /\ good r').
Proof.
  split_and!.
  - split_and!; [apply NextState_value | apply NextState_range | apply NextState_range | apply NextState_congruent]; lia.
  - intros flag callback time E Hm; unfold new_Random; rewrite E; do 2 apply NextState_good.
    apply two_steps_good; done.
  - intros r Hr; cbn; split; [apply Z.mod_pos_bound; done | apply NextState_good, Hr].
Qed.

Lemma Random_multiplicative_witness :
  good (new_Random 42 None 0) /\ (state_ (NextState (mkRandom 42)) * 2 ^ 32) mod modulus = 42.
Proof.
  pose proof (Random_multiplicative 42 ltac:(lia)) as ((_ & _ & H1) & H2 & _).
  split; [apply (H2 42 None 0); [reflexivity | done] | exact H1].
Defined.
End Random.
