(* ===== verification/MessageQueue.v ===== *)
(** The message queue of an isolate ([vm/message.h], [vm/message.cc]).

    A message is linked into a queue through its [next_] field: the messages are
    in a heap, and a pointer to a message is its address, 0 for the null pointer. *)
From stdpp Require Import base numbers list gmap.
From Stdlib Require Import ZArith Lia Bool.
From S2P Require Import Prelude.
#[local] Open Scope Z_scope.

Inductive Priority : Type := kNormalPriority | kOOBPriority.

Definition kIllegalPort : Z := 0.

Record Message : Type := mkMessage {
  next_ : Z;
  dest_port_ : Z;
  delivery_failure_port_ : Z;
  data_ : list Z;
  priority_ : Priority
}.

Definition new_Message (dest_port : Z) (data : list Z) (priority : Priority) (delivery_failure_port : Z)
  : outcome Message :=
  ASSERT match priority with kNormalPriority => true | kOOBPriority => delivery_failure_port =? kIllegalPort end ;;
  Ok (mkMessage 0 dest_port delivery_failure_port data priority).

Definition with_next (n : Z) (m : Message) : Message :=
  mkMessage n (dest_port_ m) (delivery_failure_port_ m) (data_ m) (priority_ m).

Definition IsOOB (m : Message) : bool :=
  match priority_ m with kOOBPriority => true | kNormalPriority => false end.

Abbreviation heap := (gmap Z Message).

Definition deref (p : Z) (h : heap) : outcome Message :=
  match h !! p with Some m => Ok m | None => Err (HostFault p) end.

(** [p->next_ = n] *)
Definition set_next (p n : Z) (h : heap) : outcome heap :=
  let* m := deref p h in Ok (<[p := with_next n m]> h).

(** The message redirected, and whether it was. *)
Definition RedirectToDeliveryFailurePort (p : Z) (h : heap) : outcome (bool * heap) :=
  let* m := deref p h in
  if delivery_failure_port_ m =? kIllegalPort then Ok (false, h)
  else Ok (true, <[p := mkMessage (next_ m) (delivery_failure_port_ m) kIllegalPort (data_ m) (priority_ m)]> h).

Record MessageQueue : Type := mkQueue { head_ : Z; tail_ : Z }.

Definition new_MessageQueue : MessageQueue := mkQueue 0 0.

Definition IsEmpty (q : MessageQueue) : bool := head_ q =? 0.

(** The [while] loop of [Enqueue], from [cur]: the message is spliced in before
    the first message that is not a control message, or the loop ends at the last
    message. *)
Fixpoint splice_loop (fuel : nat) (msg cur : Z) (h : heap) : outcome (Z * bool * heap) :=
  let* c := deref cur h in
  if negb (next_ c =? 0) then
    match fuel with
    | O => Err OutOfFuel
    | S fuel =>
        let* n := deref (next_ c) h in
        if negb (dest_port_ n =? kIllegalPort) then
          let* h := set_next msg (next_ c) h in
          let* h := set_next cur msg h in
          Ok (cur, true, h)
        else splice_loop fuel msg (next_ c) h
    end
  else Ok (cur, false, h).

(** [tail_->next_ = msg; tail_ = msg;] *)
Definition append (msg : Z) (h : heap) (q : MessageQueue) : outcome (heap * MessageQueue) :=
  let* h := set_next (tail_ q) msg h in
  Ok (h, mkQueue (head_ q) msg).

(** The queue does not contain a message twice: the size of the heap bounds the
    loop. *)
Definition Enqueue (msg : Z) (before_events : bool) (h : heap) (q : MessageQueue)
  : outcome (heap * MessageQueue) :=
  let* m := deref msg h in
  ASSERT next_ m =? 0 ;;
  if head_ q =? 0 then
    ASSERT tail_ q =? 0 ;;
    Ok (h, mkQueue msg msg)
  else
    ASSERT negb (tail_ q =? 0) ;;
    if negb before_events then append msg h q
    else
      ASSERT dest_port_ m =? kIllegalPort ;;
      let* hd := deref (head_ q) h in
      if negb (dest_port_ hd =? kIllegalPort) then
        let* h := set_next msg (head_ q) h in
        Ok (h, mkQueue msg (tail_ q))
      else
        let* (cur, spliced, h) := splice_loop (size h) msg (head_ q) h in
        if spliced : bool then Ok (h, q)
        else
          ASSERT tail_ q =? cur ;;
          let* t := deref (tail_ q) h in
          ASSERT dest_port_ t =? kIllegalPort ;;
          append msg h q.

(** The message, or the null pointer.  The debug build marks a dequeued message. *)
Definition Dequeue (h : heap) (q : MessageQueue) : outcome (Z * heap * MessageQueue) :=
  let result := head_ q in
  if negb (result =? 0) then
    let* m := deref result h in
    let head := next_ m in
    let tail := if head =? 0 then 0 else tail_ q in
    let* h := set_next result result h in
    Ok (result, h, mkQueue head tail)
  else Ok (0, h, q).

(** [Length]: the messages the iterator visits. *)
Fixpoint length_loop (fuel : nat) (p : Z) (h : heap) (n : Z) : outcome Z :=
  if negb (p =? 0) then
    match fuel with
    | O => Err OutOfFuel
    | S fuel => let* m := deref p h in length_loop fuel (next_ m) h (n + 1)
    end
  else Ok n.

Definition Length (h : heap) (q : MessageQueue) : outcome Z := length_loop (size h) (head_ q) h 0.

(** [FindMessageById]: a message's id is its address. *)
Fixpoint find_loop (fuel : nat) (id p : Z) (h : heap) : outcome Z :=
  if negb (p =? 0) then
    match fuel with
    | O => Err OutOfFuel
    | S fuel =>
        let* m := deref p h in
        if p =? id then Ok p else find_loop fuel id (next_ m) h
    end
  else Ok 0.

Definition FindMessageById (id : Z) (h : heap) (q : MessageQueue) : outcome Z :=
  find_loop (size h) id (head_ q) h.
