(* ===== verification/MessageQueueProofs.v ===== *)
(** The linked message queue implements a sequence of messages. *)
From stdpp Require Import base numbers list gmap.
From Stdlib Require Import ZArith Lia Bool.
From S2P Require Import Prelude MessageQueue.
#[local] Open Scope Z_scope.

(** * Linked messages *)
(** From [p], the [next_] fields lead through the messages [ms] to [z]. *)
Fixpoint lseg (h : heap) (p : Z) (ms : list Z) (z : Z) : Prop :=
  match ms with
  | [] => p = z
  | m :: ms => p = m /\ m <> 0 /\ exists msg, h !! m = Some msg /\ lseg h (next_ msg) ms z
  end.

Record queue_rep (h : heap) (q : MessageQueue) (ms : list Z) : Prop := mk_queue_rep {
  qr_links : lseg h (head_ q) ms 0;
  qr_unique : NoDup ms;
  qr_tail : tail_ q = default 0 (last ms)
}.

(** The messages are the same but for their links. *)
Definition same_messages (h h' : heap) : Prop := forall p, with_next 0 <$> h' !! p = with_next 0 <$> h !! p.

Lemma lseg_app h p ms1 ms2 z :
  lseg h p (ms1 ++ ms2) z <-> exists y, lseg h p ms1 y /\ lseg h y ms2 z.
Proof.
  revert p; induction ms1 as [| m ms1 IH]; intros p; cbn [app lseg].
  - split; [intros H; exists p; done | intros (y & -> & H); done].
  - split.
    + intros (-> & Hm & msg & Em & H); apply IH in H as (y & H1 & H2); exists y; split; [eauto | done].
    + intros (y & (-> & Hm & msg & Em & H1) & H2); split_and!; [done | done |]; exists msg; split; [done |].
      apply IH; eauto.
Qed.

Lemma lseg_frame h p ms z x v : x ∉ ms -> lseg h p ms z -> lseg (<[x := v]> h) p ms z.
Proof.
  revert p; induction ms as [| m ms IH]; intros p Hx; cbn [lseg]; [done |].
  apply not_elem_of_cons in Hx as [Hxm Hx]; intros (-> & Hm & msg & Em & H).
  split_and!; [done | done |]; exists msg; rewrite lookup_insert_ne by done; auto.
Qed.

Lemma lseg_elem h p ms z m : lseg h p ms z -> m ∈ ms -> m <> 0 /\ is_Some (h !! m).
Proof.
  revert p; induction ms as [| m' ms IH]; intros p; cbn [lseg]; [intros _ H; apply not_elem_of_nil in H; done |].
  intros (-> & Hm & msg & Em & H) Hin; apply elem_of_cons in Hin as [-> | Hin]; [eauto | eapply IH; done].
Qed.

Lemma lseg_length h p ms z : NoDup ms -> lseg h p ms z -> (length ms <= size h)%nat.
Proof.
  intros Hnd Hl; rewrite <- size_dom, <- (size_list_to_set (C := gset Z) ms Hnd); apply subseteq_size.
  intros m Hm; apply elem_of_list_to_set in Hm; apply elem_of_dom; eapply lseg_elem; done.
Qed.

Lemma set_next_ok p n h m :
  h !! p = Some m -> set_next p n h = Ok (<[p := with_next n m]> h) /\ same_messages h (<[p := with_next n m]> h).
Proof.
  intros E; unfold set_next, deref; rewrite E; split; [done |]; intros x.
  destruct (decide (p = x)) as [<- |]; [rewrite lookup_insert_eq, E; done | rewrite lookup_insert_ne; done].
Qed.

Lemma same_messages_refl h : same_messages h h.
Proof. done. Qed.

Lemma same_messages_trans h1 h2 h3 : same_messages h1 h2 -> same_messages h2 h3 -> same_messages h1 h3.
Proof. intros H1 H2 p; rewrite H2, H1; done. Qed.

(** * The abstract queue *)
Definition port (h : heap) (m : Z) : Z := match h !! m with Some msg => dest_port_ msg | None => 0 end.

(** A control message goes behind the control messages at the front. *)
Fixpoint insert_control (h : heap) (msg : Z) (ms : list Z) : list Z :=
  match ms with
  | [] => [msg]
  | m :: ms => if port h m =? kIllegalPort then m :: insert_control h msg ms else msg :: m :: ms
  end.

Definition enqueued (h : heap) (msg : Z) (before_events : bool) (ms : list Z) : list Z :=
  if before_events then insert_control h msg ms else ms ++ [msg].

Lemma insert_control_elem h msg ms x : x ∈ insert_control h msg ms <-> x = msg \/ x ∈ ms.
Proof.
  induction ms as [| m ms IH]; cbn [insert_control]; [rewrite elem_of_cons; tauto |].
  case_match; rewrite ?elem_of_cons, ?IH, ?elem_of_cons; tauto.
Qed.

Lemma insert_control_NoDup h msg ms : NoDup ms -> msg ∉ ms -> NoDup (insert_control h msg ms).
Proof.
  induction 1 as [| m ms Hm Hnd IH]; cbn [insert_control]; intros Hn; [apply NoDup_singleton |].
  apply not_elem_of_cons in Hn as [Hne Hn].
  case_match; apply NoDup_cons; (split; [| try apply NoDup_cons; auto]).
  - rewrite insert_control_elem; intros [-> | ?]; done.
  - apply not_elem_of_cons; done.
Qed.

Lemma insert_control_all h msg ms :
  Forall (fun m => port h m = kIllegalPort) ms -> insert_control h msg ms = ms ++ [msg].
Proof. induction 1 as [| m ms Hm _ IH]; cbn; [done |]; rewrite Hm, Z.eqb_refl, IH; done. Qed.

Lemma append_ok h q ms msg mm :
  queue_rep h q ms -> ms <> [] -> h !! msg = Some mm -> next_ mm = 0 -> msg <> 0 -> msg ∉ ms ->
  exists h' q', append msg h q = Ok (h', q') /\ queue_rep h' q' (ms ++ [msg]) /\ same_messages h h' /\
    (forall y, y ∉ msg :: ms -> h' !! y = h !! y).
Proof.
  intros [Hl Hnd Ht] Hne Em Hn H0 Hnin; destruct ms as [| t ms _] using rev_ind; [done |].
  rewrite last_snoc in Ht; cbn in Ht; apply lseg_app in Hl as (y & Hl1 & -> & Ht0 & tm & Etm & Hz); cbn in Hz.
  unfold append; rewrite Ht; destruct (set_next_ok t msg h tm Etm) as [-> Hsame]; cbn [obind].
  apply NoDup_app in Hnd as (Hnd1 & Hdis & _).
  assert (t ∉ ms) as Htn by (intros Hin; apply (Hdis t Hin), list_elem_of_here).
  apply not_elem_of_app in Hnin as [Hnin Hmt]; apply not_elem_of_cons in Hmt as [Hmt _].
  eexists _, _; split; [done |]; split; [| split; [done |]]; [split; cbn [head_ tail_] |].
  - rewrite <- app_assoc; apply lseg_app; exists t; split; [apply lseg_frame; done |].
    cbn; split_and!; [done | done |]; eexists; rewrite lookup_insert_eq; split; [done |]; cbn.
    split_and!; [done | done |]; exists mm; rewrite lookup_insert_ne by done; done.
  - apply NoDup_app; split_and!; [apply NoDup_app; split_and!; [done | done | apply NoDup_singleton] | | apply NoDup_singleton].
    intros x Hx Hm; apply list_elem_of_singleton in Hm; subst x.
    apply elem_of_app in Hx as [? | Hx]; [done |]; apply list_elem_of_singleton in Hx; done.
  - rewrite last_snoc; done.
  - intros y Hy; apply lookup_insert_ne; intros ->; apply Hy; rewrite elem_of_cons, elem_of_app; right; right; apply list_elem_of_here.
Qed.

(** One round of the scan, and its end. *)
Lemma splice_step fuel msg cur h c nm :
  h !! cur = Some c -> next_ c <> 0 -> h !! next_ c = Some nm ->
  splice_loop (S fuel) msg cur h =
  if negb (dest_port_ nm =? kIllegalPort) then
    let* h := set_next msg (next_ c) h in let* h := set_next cur msg h in Ok (cur, true, h)
  else splice_loop fuel msg (next_ c) h.
Proof.
  intros Ec Hn En; cbn [splice_loop]; unfold deref; rewrite Ec; cbn [obind].
  rewrite (proj2 (Z.eqb_neq _ _) Hn), En; done.
Qed.

Lemma splice_end fuel msg cur h c : h !! cur = Some c -> next_ c = 0 -> splice_loop fuel msg cur h = Ok (cur, false, h).
Proof. intros Ec Hn; destruct fuel; cbn [splice_loop]; unfold deref; rewrite Ec; cbn [obind]; rewrite Hn; done. Qed.

(** The scan for the first message that is not a control message: it finds none, or
    splices the message in; only [msg] and one of the scanned messages change. *)
Lemma splice_spec fuel msg mm cur rest h :
  lseg h cur (cur :: rest) 0 -> NoDup (cur :: rest) -> msg ∉ cur :: rest -> h !! msg = Some mm -> msg <> 0 ->
  (length rest <= fuel)%nat ->
  (Forall (fun m => port h m = kIllegalPort) rest /\
   splice_loop fuel msg cur h = Ok (default cur (last rest), false, h)) \/
  (exists x h', splice_loop fuel msg cur h = Ok (x, true, h') /\ same_messages h h' /\
     lseg h' cur (cur :: insert_control h msg rest) 0 /\ last (insert_control h msg rest) = last rest /\
     (forall y, y ∉ cur :: rest -> y <> msg -> h' !! y = h !! y)).
Proof.
  revert cur rest; induction fuel as [| fuel IH]; intros cur rest Hl Hnd Hnin Em H0 Hf.
  all: destruct Hl as (_ & Hc0 & c & Ec & Hl).
  all: destruct rest as [| n rest]; [cbn in Hl; rewrite (splice_end _ msg cur h c Ec Hl); left; done |].
  - cbn in Hf; lia.
  - pose proof Hl as (En & Hn0 & nm & Enm & Hl').
    rewrite (splice_step fuel msg cur h c nm Ec) by congruence; rewrite En.
    apply NoDup_cons in Hnd as [Hcn Hnd]; apply not_elem_of_cons in Hnin as [Hmc Hnin].
    cbn [insert_control]; assert (port h n = dest_port_ nm) as Hport by (unfold port; rewrite Enm; done); rewrite Hport.
    destruct (Z.eqb_spec (dest_port_ nm) kIllegalPort) as [Ep | Ep]; cbn [negb].
    + assert (lseg h n (n :: rest) 0) as Hln by (split_and!; [done | done | eauto]).
      destruct (IH n rest Hln Hnd Hnin Em H0 ltac:(cbn in Hf; lia)) as [[Hall E] | (x & h' & E & Hsame & Hl2 & Hlast & Hfr)];
        [left | right].
      * split; [apply Forall_cons; split; [congruence | done] |]; rewrite E, last_cons; destruct (last rest); done.
      * exists x, h'; split_and!; [done | done | | rewrite !last_cons, Hlast; done |].
        -- cbn [lseg]; split_and!; [done | done |]; exists c; rewrite Hfr by done; rewrite En; done.
        -- intros y Hy; apply not_elem_of_cons in Hy as [_ Hy]; auto.
    + right; destruct (set_next_ok msg n h mm Em) as [-> Hs1]; cbn [obind].
      destruct (set_next_ok cur msg (<[msg := with_next n mm]> h) c) as [-> Hs2]; [rewrite lookup_insert_ne; done |].
      cbn [obind]; eexists _, _; split; [done |]; split; [eapply same_messages_trans; done |].
      apply not_elem_of_cons in Hcn as [Hcn1 Hcn], Hnin as [Hmn Hnin].
      split; [| split; [destruct rest; done |]].
      * cbn; split_and!; [done | done |]; eexists; rewrite lookup_insert_eq; split; [done |]; cbn.
        split_and!; [done | done |]; eexists; rewrite lookup_insert_ne, lookup_insert_eq by done; split; [done |]; cbn.
        split_and!; [done | done |]; exists nm.
        rewrite !lookup_insert_ne by done; split; [done |]; do 2 (apply lseg_frame; [done |]); done.
      * intros y Hy Hym; apply not_elem_of_cons in Hy as [Hyc _]; rewrite !lookup_insert_ne by done; done.
Qed.

(** * The operations *)
Lemma queue_rep_nil h : queue_rep h new_MessageQueue [].
Proof. split; [done | apply NoDup_nil_2 | done]. Qed.

Lemma queue_rep_frame h h' q ms : (forall m, m ∈ ms -> h' !! m = h !! m) -> queue_rep h q ms -> queue_rep h' q ms.
Proof.
  intros Hf [Hl Hnd Ht]; split; [| done | done]; clear Hnd Ht; revert Hl Hf; generalize (head_ q).
  induction ms as [| m ms IH]; intros p Hl Hf; [done |].
  destruct Hl as (-> & Hm & msg & Em & Hl); cbn; split_and!; [done | done |]; exists msg.
  rewrite Hf by apply list_elem_of_here; split; [done |]; apply IH; [done |].
  intros x Hx; apply Hf, list_elem_of_further, Hx.
Qed.

Lemma queue_head h q m ms : queue_rep h q (m :: ms) -> head_ q = m /\ m <> 0 /\ tail_ q <> 0 /\ is_Some (h !! m).
Proof.
  intros [Hl Hnd Ht]; pose proof Hl as (Eh & Hm & msg & Em & _); split_and!; [done | done | | eauto].
  rewrite Ht; assert (exists x, last (m :: ms) = Some x) as [x Ex] by (rewrite last_cons; destruct (last ms); eauto).
  rewrite Ex; cbn; eapply (lseg_elem _ _ _ _ x Hl), last_Some_elem_of, Ex.
Qed.

Lemma IsEmpty_ok h q ms : queue_rep h q ms -> (IsEmpty q = true <-> ms = []).
Proof.
  intros Hq; unfold IsEmpty; rewrite Z.eqb_eq; destruct ms as [| m ms]; [destruct Hq as [Hl _ _]; done |].
  apply queue_head in Hq as (-> & ? & _); done.
Qed.

(** A dequeued message leaves the front of the queue; nothing but its link changes. *)
Lemma Dequeue_ok h q ms :
  queue_rep h q ms ->
  match ms with
  | [] => Dequeue h q = Ok (0, h, q)
  | m :: ms' => exists h' q', Dequeue h q = Ok (m, h', q') /\ queue_rep h' q' ms' /\ same_messages h h' /\
      (forall y, y <> m -> h' !! y = h !! y)
  end.
Proof.
  intros Hq; unfold Dequeue; destruct ms as [| m ms]; [destruct Hq as [-> _ _]; done |].
  pose proof (queue_head _ _ _ _ Hq) as (-> & Hm & _ & msg & Em); rewrite (proj2 (Z.eqb_neq m 0) Hm); cbn [negb].
  unfold deref; rewrite Em; cbn [obind]; destruct (set_next_ok m m h msg Em) as [-> Hs]; cbn [obind].
  destruct Hq as [(_ & _ & msg' & Em' & Hl) Hnd Ht]; rewrite Em in Em'; injection Em' as <-.
  apply NoDup_cons in Hnd as [Hnin Hnd].
  eexists _, _; split; [done |]; split_and!; [split; cbn [head_ tail_] | done | intros y Hy; apply lookup_insert_ne; done].
  - apply lseg_frame; done.
  - done.
  - rewrite Ht, last_cons; destruct ms as [| n ms]; [cbn in Hl; rewrite Hl; done |].
    destruct Hl as (-> & Hn & _); rewrite (proj2 (Z.eqb_neq n 0) Hn); cbn [default].
    rewrite last_cons; destruct (last ms); done.
Qed.

Lemma Enqueue_ok h q ms msg m before_events :
  queue_rep h q ms -> h !! msg = Some m -> next_ m = 0 -> msg <> 0 -> msg ∉ ms ->
  (before_events = true -> ms <> [] -> dest_port_ m = kIllegalPort) ->
  exists h' q', Enqueue msg before_events h q = Ok (h', q') /\ queue_rep h' q' (enqueued h msg before_events ms) /\
    same_messages h h' /\ (forall y, y ∉ msg :: ms -> h' !! y = h !! y).
Proof.
  intros Hq Em Hn H0 Hnin Hctl; unfold Enqueue, deref at 1; rewrite Em; cbn [obind]; rewrite Hn, Z.eqb_refl.
  destruct ms as [| x ms].
  { destruct Hq as [Hl _ Ht]; cbn in Hl, Ht; rewrite Hl, Ht; cbn; eexists _, _; split; [done |].
    split; [| done]; destruct before_events; cbn; (split; [| apply NoDup_singleton | done]).
    all: cbn; split_and!; [done | done | eauto]. }
  pose proof (queue_head _ _ _ _ Hq) as (Eh & Hx & Ht0 & xm & Exm).
  rewrite Eh, (proj2 (Z.eqb_neq x 0) Hx), (proj2 (Z.eqb_neq _ 0) Ht0); cbn [negb].
  destruct before_events; cbn [negb enqueued]; [| apply (append_ok _ _ _ _ m); done].
  rewrite (Hctl eq_refl) by done; cbn [Z.eqb kIllegalPort]; unfold deref at 1; rewrite Exm; cbn [obind insert_control].
  replace (port h x) with (dest_port_ xm) by (unfold port; rewrite Exm; done).
  destruct (Z.eqb_spec (dest_port_ xm) kIllegalPort) as [Ep | Ep]; cbn [negb].
  2: { destruct (set_next_ok msg x h m Em) as [-> Hs]; cbn [obind]; eexists _, _; split; [done |].
       split; [| split; [done | intros y Hy; apply not_elem_of_cons in Hy as [Hy _]; apply lookup_insert_ne; done]].
       destruct Hq as [Hl Hnd Ht]; split; cbn [head_ tail_]; [| apply NoDup_cons; done | rewrite Ht, !last_cons; destruct (last ms); done].
       split_and!; [done | done |]; eexists; rewrite lookup_insert_eq; split; [done |]; cbn [next_ with_next].
       apply lseg_frame; [done |]; rewrite Eh in Hl; done. }
  destruct Hq as [Hl Hnd Ht]; rewrite Eh in Hl.
  destruct (splice_spec (size h) msg m x ms h Hl Hnd Hnin Em H0) as [[Hall ->] | (y & h' & -> & Hs & Hl' & Hlast & Hfr)].
  - apply (lseg_length _ _ _ _ Hnd) in Hl; cbn in Hl; lia.
  - cbn [obind]; rewrite Ht, last_cons.
    replace (match last ms with Some y => Some y | None => Some x end) with (Some (default x (last ms))) by (destruct (last ms); done).
    cbn [from_option id]; rewrite Z.eqb_refl.
    assert (exists tm, h !! default x (last ms) = Some tm /\ dest_port_ tm = kIllegalPort) as (tm & Etm & Eptm).
    { destruct (last ms) as [t |] eqn:El; [| cbn; eauto]; cbn; apply last_Some_elem_of in El.
      rewrite Forall_forall in Hall; specialize (Hall t El); unfold port in Hall.
      destruct (proj2 (lseg_elem _ _ _ _ t Hl ltac:(apply list_elem_of_further, El))) as [tm Etm]; rewrite Etm in Hall; eauto. }
    unfold deref; rewrite Etm; cbn [obind]; rewrite Eptm; cbn [Z.eqb kIllegalPort].
    rewrite (insert_control_all h msg ms Hall); apply (append_ok h q (x :: ms) msg m); try done; split; [rewrite Eh |..]; done.
  - cbn [obind]; exists h', q; split_and!; [done | | done |].
    + split; [rewrite Eh; done | | rewrite Ht, !last_cons, Hlast; done].
      apply (insert_control_NoDup h) in Hnin; [| done]; cbn [insert_control] in Hnin; unfold port in Hnin at 1; rewrite Exm, Ep in Hnin; done.
    + intros z Hz; apply not_elem_of_cons in Hz as [Hz1 Hz2]; auto.
Qed.

(** The iterator visits the messages of the queue, in order. *)
Lemma length_loop_ok fuel h p ms n :
  lseg h p ms 0 -> (length ms <= fuel)%nat -> length_loop fuel p h n = Ok (n + Z.of_nat (length ms)).
Proof.
  revert fuel p n; induction ms as [| m ms IH]; intros fuel p n; [intros Hl _; cbn in Hl; rewrite Hl; destruct fuel; cbn; f_equal; lia |].
  intros (-> & Hm & msg & Em & Hl) Hf; destruct fuel; cbn in Hf; [lia |].
  cbn [length_loop]; rewrite (proj2 (Z.eqb_neq m 0) Hm); cbn [negb]; unfold deref; rewrite Em; cbn [obind].
  rewrite IH by (done || lia); cbn [length]; f_equal; lia.
Qed.

Lemma find_loop_ok fuel h id p ms :
  lseg h p ms 0 -> (length ms <= fuel)%nat -> find_loop fuel id p h = Ok (if bool_decide (id ∈ ms) then id else 0).
Proof.
  revert fuel p; induction ms as [| m ms IH]; intros fuel p; [intros Hl _; cbn in Hl; rewrite Hl; destruct fuel; done |].
  intros (-> & Hm & msg & Em & Hl) Hf; destruct fuel; cbn in Hf; [lia |].
  cbn [find_loop]; rewrite (proj2 (Z.eqb_neq m 0) Hm); cbn [negb]; unfold deref; rewrite Em; cbn [obind].
  destruct (Z.eqb_spec m id) as [-> | Hne].
  - rewrite bool_decide_eq_true_2; [done | apply list_elem_of_here].
  - rewrite IH by (done || lia); f_equal; rewrite (bool_decide_ext (id ∈ m :: ms) (id ∈ ms)); [done |].
    rewrite elem_of_cons; split; [intros [? | ?]; congruence | auto].
Qed.


(** A control message and an event in a queue, and two messages to enqueue. *)
Definition sample_heap : heap :=
  <[16 := mkMessage 32 0 0 [1] kNormalPriority]> (<[32 := mkMessage 0 7 0 [2] kNormalPriority]>
  (<[48 := mkMessage 0 0 0 [3] kNormalPriority]> (<[64 := mkMessage 0 9 0 [4] kNormalPriority]> ∅))).

Lemma sample_queue : queue_rep sample_heap (mkQueue 16 32) [16; 32].
Proof.
  split; [| apply (bool_decide_unpack _), I | done].
  split_and!; [done | done |]; eexists; split; [reflexivity |]; split_and!; [done | done |]; eexists; split; reflexivity.
Qed.

