(* ===== verification/MessageHandler.v ===== *)
(** Message handlers ([vm/message_handler.h], [vm/message_handler.cc]).

    A handler owns the queue of its messages and that of its out-of-band messages, and
    has at most one task of a thread pool that serves them.  An operation runs while
    its thread holds the handler's monitor, so it is one transformation of the state.
    The monitor is released while a message is handled and while the start callback
    runs: what the callee and the other threads do to the handler meanwhile is a list
    of actions, an argument of the definitions. *)
From stdpp Require Import base numbers list gmap.
From Stdlib Require Import ZArith Lia Bool.
From S2P Require Import Prelude MessageQueue.
#[local] Open Scope Z_scope.

(** Pointers are addresses, 0 for the null pointer.  Of the task only whether there is
    one matters. *)
Record MessageHandler : Type := mkHandler {
  queue_ : MessageQueue;
  oob_queue_ : MessageQueue;
  oob_message_handling_allowed_ : bool;
  live_ports_ : Z;
  paused_ : Z;
  pause_on_start_ : bool;
  pause_on_exit_ : bool;
  paused_on_start_ : bool;
  paused_on_exit_ : bool;
  pool_ : Z;
  task_ : bool;
  start_callback_ : Z;
  end_callback_ : Z;
  callback_data_ : Z
}.

Definition new_MessageHandler : MessageHandler :=
  mkHandler new_MessageQueue new_MessageQueue true 0 0 false false false false 0 false 0 0 0.

(** What a handler asks of others: to run a task on its pool, to handle a message, the
    callbacks and notifications. *)
Inductive event : Type :=
| RunTask
| MessageNotify (priority : Priority)
| HandleMessage (msg : Z)
| StartCallback
| EndCallback
| NotifyPauseOnStart
| NotifyPauseOnExit.

Record State : Type := mkState {
  mem : heap;
  handler : MessageHandler;
  trace : list event
}.

(** * Field updates *)
Definition set_handler (f : MessageHandler -> MessageHandler) (s : State) : State :=
  mkState (mem s) (f (handler s)) (trace s).

Definition emit (e : event) (s : State) : State := mkState (mem s) (handler s) (trace s ++ [e]).

Definition with_queue (q : MessageQueue) (H : MessageHandler) : MessageHandler :=
  mkHandler q (oob_queue_ H) (oob_message_handling_allowed_ H) (live_ports_ H) (paused_ H) (pause_on_start_ H)
    (pause_on_exit_ H) (paused_on_start_ H) (paused_on_exit_ H) (pool_ H) (task_ H) (start_callback_ H)
    (end_callback_ H) (callback_data_ H).
Definition with_oob_queue (q : MessageQueue) (H : MessageHandler) : MessageHandler :=
  mkHandler (queue_ H) q (oob_message_handling_allowed_ H) (live_ports_ H) (paused_ H) (pause_on_start_ H)
    (pause_on_exit_ H) (paused_on_start_ H) (paused_on_exit_ H) (pool_ H) (task_ H) (start_callback_ H)
    (end_callback_ H) (callback_data_ H).
Definition with_oob_allowed (b : bool) (H : MessageHandler) : MessageHandler :=
  mkHandler (queue_ H) (oob_queue_ H) b (live_ports_ H) (paused_ H) (pause_on_start_ H)
    (pause_on_exit_ H) (paused_on_start_ H) (paused_on_exit_ H) (pool_ H) (task_ H) (start_callback_ H)
    (end_callback_ H) (callback_data_ H).
Definition with_live_ports (n : Z) (H : MessageHandler) : MessageHandler :=
  mkHandler (queue_ H) (oob_queue_ H) (oob_message_handling_allowed_ H) n (paused_ H) (pause_on_start_ H)
    (pause_on_exit_ H) (paused_on_start_ H) (paused_on_exit_ H) (pool_ H) (task_ H) (start_callback_ H)
    (end_callback_ H) (callback_data_ H).
Definition with_paused (n : Z) (H : MessageHandler) : MessageHandler :=
  mkHandler (queue_ H) (oob_queue_ H) (oob_message_handling_allowed_ H) (live_ports_ H) n (pause_on_start_ H)
    (pause_on_exit_ H) (paused_on_start_ H) (paused_on_exit_ H) (pool_ H) (task_ H) (start_callback_ H)
    (end_callback_ H) (callback_data_ H).
Definition set_pause_on_start (b : bool) (H : MessageHandler) : MessageHandler :=
  mkHandler (queue_ H) (oob_queue_ H) (oob_message_handling_allowed_ H) (live_ports_ H) (paused_ H) b
    (pause_on_exit_ H) (paused_on_start_ H) (paused_on_exit_ H) (pool_ H) (task_ H) (start_callback_ H)
    (end_callback_ H) (callback_data_ H).
Definition set_pause_on_exit (b : bool) (H : MessageHandler) : MessageHandler :=
  mkHandler (queue_ H) (oob_queue_ H) (oob_message_handling_allowed_ H) (live_ports_ H) (paused_ H) (pause_on_start_ H)
    b (paused_on_start_ H) (paused_on_exit_ H) (pool_ H) (task_ H) (start_callback_ H)
    (end_callback_ H) (callback_data_ H).
Definition with_paused_on_start (b : bool) (H : MessageHandler) : MessageHandler :=
  mkHandler (queue_ H) (oob_queue_ H) (oob_message_handling_allowed_ H) (live_ports_ H) (paused_ H) (pause_on_start_ H)
    (pause_on_exit_ H) b (paused_on_exit_ H) (pool_ H) (task_ H) (start_callback_ H)
    (end_callback_ H) (callback_data_ H).
Definition with_paused_on_exit (b : bool) (H : MessageHandler) : MessageHandler :=
  mkHandler (queue_ H) (oob_queue_ H) (oob_message_handling_allowed_ H) (live_ports_ H) (paused_ H) (pause_on_start_ H)
    (pause_on_exit_ H) (paused_on_start_ H) b (pool_ H) (task_ H) (start_callback_ H)
    (end_callback_ H) (callback_data_ H).
Definition with_pool (p : Z) (H : MessageHandler) : MessageHandler :=
  mkHandler (queue_ H) (oob_queue_ H) (oob_message_handling_allowed_ H) (live_ports_ H) (paused_ H) (pause_on_start_ H)
    (pause_on_exit_ H) (paused_on_start_ H) (paused_on_exit_ H) p (task_ H) (start_callback_ H)
    (end_callback_ H) (callback_data_ H).
Definition with_task (b : bool) (H : MessageHandler) : MessageHandler :=
  mkHandler (queue_ H) (oob_queue_ H) (oob_message_handling_allowed_ H) (live_ports_ H) (paused_ H) (pause_on_start_ H)
    (pause_on_exit_ H) (paused_on_start_ H) (paused_on_exit_ H) (pool_ H) b (start_callback_ H)
    (end_callback_ H) (callback_data_ H).
Definition with_callbacks (st en data : Z) (H : MessageHandler) : MessageHandler :=
  mkHandler (queue_ H) (oob_queue_ H) (oob_message_handling_allowed_ H) (live_ports_ H) (paused_ H) (pause_on_start_ H)
    (pause_on_exit_ H) (paused_on_start_ H) (paused_on_exit_ H) (pool_ H) (task_ H) st en data.

(** * Operations *)
Definition HasLivePorts (H : MessageHandler) : bool := 0 <? live_ports_ H.
Definition paused (H : MessageHandler) : bool := 0 <? paused_ H.
Definition increment_paused (s : State) : State := set_handler (fun H => with_paused (paused_ H + 1) H) s.
Definition decrement_paused (s : State) : outcome State :=
  ASSERT 0 <? paused_ (handler s) ;;
  Ok (set_handler (fun H => with_paused (paused_ H - 1) H) s).
Definition increment_live_ports (s : State) : State := set_handler (fun H => with_live_ports (live_ports_ H + 1) H) s.
Definition decrement_live_ports (s : State) : State := set_handler (fun H => with_live_ports (live_ports_ H - 1) H) s.

(** [task_ = new MessageHandlerTask(this); pool_->Run(task_);] *)
Definition run_task (s : State) : State := emit RunTask (set_handler (with_task true) s).

Definition Run (pool start_callback end_callback data : Z) (s : State) : outcome State :=
  ASSERT pool_ (handler s) =? 0 ;;
  Ok (run_task (set_handler (fun H => with_callbacks start_callback end_callback data (with_pool pool H)) s)).

Definition PostMessage (message : Z) (before_events : bool) (s : State) : outcome State :=
  let* m := deref message (mem s) in
  let saved_priority := priority_ m in
  let* s :=
    (if IsOOB m then
       let* (h, q) := Enqueue message before_events (mem s) (oob_queue_ (handler s)) in
       Ok (mkState h (with_oob_queue q (handler s)) (trace s))
     else
       let* (h, q) := Enqueue message before_events (mem s) (queue_ (handler s)) in
       Ok (mkState h (with_queue q (handler s)) (trace s))) in
  let s := if negb (pool_ (handler s) =? 0) && negb (task_ (handler s)) then run_task s else s in
  Ok (emit (MessageNotify saved_priority) s).

(** The message, or the null pointer. *)
Definition DequeueMessage (min_priority : Priority) (s : State) : outcome (Z * State) :=
  let* (message, h, q) := Dequeue (mem s) (oob_queue_ (handler s)) in
  let s := mkState h (with_oob_queue q (handler s)) (trace s) in
  match min_priority with
  | kNormalPriority =>
      if message =? 0 then
        let* (message, h, q) := Dequeue (mem s) (queue_ (handler s)) in
        Ok (message, mkState h (with_queue q (handler s)) (trace s))
      else Ok (message, s)
  | kOOBPriority => Ok (message, s)
  end.

(** * What happens while the monitor is released *)
Inductive action : Type :=
| Post (msg : Z) (before_events : bool)
| IncrementPaused
| DecrementPaused
| SetPauseOnStart (b : bool)
| SetPauseOnExit (b : bool)
| IncrementLivePorts
| DecrementLivePorts.

Definition perform (a : action) (s : State) : outcome State :=
  match a with
  | Post msg before_events => PostMessage msg before_events s
  | IncrementPaused => Ok (increment_paused s)
  | DecrementPaused => decrement_paused s
  | SetPauseOnStart b => Ok (set_handler (set_pause_on_start b) s)
  | SetPauseOnExit b => Ok (set_handler (set_pause_on_exit b) s)
  | IncrementLivePorts => Ok (increment_live_ports s)
  | DecrementLivePorts => Ok (decrement_live_ports s)
  end.

Fixpoint perform_all (l : list action) (s : State) : outcome State :=
  match l with
  | [] => Ok s
  | a :: l => let* s := perform a s in perform_all l s
  end.

(** What the next call that releases the monitor returns and what happens meanwhile;
    calls after the end of the script succeed and nothing happens. *)
Abbreviation script := (list (bool * list action)).

Definition next_turn (sc : script) : bool * list action * script :=
  match sc with
  | [] => (true, [], [])
  | t :: sc => (t, sc)
  end.

(** * The message loop *)
Definition min_priority (allow_normal_messages : bool) (H : MessageHandler) : Priority :=
  if allow_normal_messages && negb (paused H) then kNormalPriority else kOOBPriority.

(** The [while] loop of [HandleMessages] *)
Fixpoint handle_loop (fuel : nat) (allow_normal allow_multiple : bool) (message : Z) (result : bool) (sc : script) (s : State)
  : outcome (bool * script * State) :=
  if message =? 0 then Ok (result, sc, s)
  else
    match fuel with
    | O => Err OutOfFuel
    | S fuel =>
        let* m := deref message (mem s) in
        let saved_priority := priority_ m in
        let '(result, actions, sc) := next_turn sc in
        let* s := perform_all actions (emit (HandleMessage message) s) in
        if negb result then Ok (result, sc, s)
        else if match saved_priority with kNormalPriority => negb allow_multiple | kOOBPriority => false end
        then Ok (result, sc, s)
        else
          let* (message, s) := DequeueMessage (min_priority allow_normal (handler s)) s in
          handle_loop fuel allow_normal allow_multiple message result sc s
    end.

Definition HandleMessages (fuel : nat) (allow_normal allow_multiple : bool) (sc : script) (s : State)
  : outcome (bool * script * State) :=
  let* (message, s) := DequeueMessage (min_priority allow_normal (handler s)) s in
  handle_loop fuel allow_normal allow_multiple message true sc s.

Definition HandleNextMessage (fuel : nat) (sc : script) (s : State) : outcome (bool * script * State) :=
  ASSERT pool_ (handler s) =? 0 ;;
  HandleMessages fuel true false sc s.

Definition HandleOOBMessages (fuel : nat) (sc : script) (s : State) : outcome (bool * script * State) :=
  if negb (oob_message_handling_allowed_ (handler s)) then Ok (true, sc, s)
  else HandleMessages fuel false false sc s.

Definition HasOOBMessages (s : State) : bool := negb (IsEmpty (oob_queue_ (handler s))).

(** The start callback, which runs once. *)
Definition run_start_callback (sc : script) (s : State) : outcome (bool * script * State) :=
  if start_callback_ (handler s) =? 0 then Ok (true, sc, s)
  else
    let '(ok, actions, sc) := next_turn sc in
    let* s := perform_all actions (emit StartCallback s) in
    Ok (ok, sc, set_handler (fun H => with_callbacks 0 (end_callback_ H) (callback_data_ H) H) s).

(** The end of [TaskCallback]: the handler stops after an error or without live ports,
    unless it is to pause then. *)
Definition finish (ok : bool) (s : State) : State :=
  if negb ok || negb (HasLivePorts (handler s)) then
    if pause_on_exit_ (handler s) then
      if negb (paused_on_exit_ (handler s)) then
        set_handler (with_paused_on_exit true) (emit NotifyPauseOnExit s)
      else s
    else
      let s := set_handler (fun H => with_paused_on_exit false (with_pool 0 H)) s in
      if negb (end_callback_ (handler s) =? 0) then emit EndCallback s else s
  else s.

(** Whether the handler is still paused before its start, after the out-of-band
    messages were handled. *)
Definition pause_at_start (fuel : nat) (sc : script) (s : State) : outcome (bool * script * State) :=
  if pause_on_start_ (handler s) then
    let s :=
      if negb (paused_on_start_ (handler s)) then
        set_handler (with_paused_on_start true) (emit NotifyPauseOnStart s)
      else s in
    let* (_, sc, s) := HandleMessages fuel false false sc s in
    if pause_on_start_ (handler s) then Ok (true, sc, s)
    else Ok (false, sc, set_handler (with_paused_on_start false) s)
  else Ok (false, sc, s).

Definition TaskCallback (fuel : nat) (sc : script) (s : State) : outcome (script * State) :=
  let* (still_paused, sc, s) := pause_at_start fuel sc s in
  if still_paused : bool then Ok (sc, set_handler (with_task false) s)
  else
    let* (ok, sc, s) := run_start_callback sc s in
    let* (ok, sc, s) := (if ok : bool then HandleMessages fuel true true sc s else Ok (ok, sc, s)) in
    Ok (sc, finish ok (set_handler (with_task false) s)).

(** [AcquiredQueues]: the queues are inspected under the monitor, and no out-of-band
    message is handled meanwhile.  [acquired] tells whether the object already owns the
    queues of a handler. *)
Definition AcquireQueues (acquired : bool) (s : State) : outcome State :=
  ASSERT negb acquired ;;
  Ok (set_handler (with_oob_allowed false) s).

Definition ReleaseQueues (s : State) : State := set_handler (with_oob_allowed true) s.
