(* ===== verification/MessageHandlerProofs.v ===== *)
(** Messages are neither lost nor handled twice, and a handler with work to do has a
    task of its pool. *)
From stdpp Require Import base numbers list gmap.
From Stdlib Require Import ZArith Lia Bool.
From S2P Require Import Prelude MessageQueue MessageQueueProofs MessageHandler.
#[local] Open Scope Z_scope.

(** * The messages of a handler *)
Definition prio (h : heap) (m : Z) : option Priority := priority_ <$> h !! m.

Lemma same_messages_prio h h' m : same_messages h h' -> prio h' m = prio h m.
Proof.
  intros Hs; specialize (Hs m); unfold prio; destruct (h !! m), (h' !! m); cbn in *; try done.
  injection Hs as _ _ _ E; rewrite E; done.
Qed.

Lemma same_messages_port h h' m : same_messages h h' -> port h' m = port h m.
Proof.
  intros Hs; specialize (Hs m); unfold port; destruct (h !! m), (h' !! m); cbn in *; try done.
  injection Hs as E _ _ _; done.
Qed.

Lemma same_messages_lookup h h' (m : Z) : same_messages h h' -> is_Some (h !! m) -> is_Some (h' !! m).
Proof. intros Hs; specialize (Hs m); destruct (h !! m), (h' !! m); cbn in *; try done; intros [? ?]; done. Qed.

Record handler_rep (s : State) (oob normal : list Z) : Prop := mk_handler_rep {
  hr_oob : queue_rep (mem s) (oob_queue_ (handler s)) oob;
  hr_queue : queue_rep (mem s) (queue_ (handler s)) normal;
  hr_oob_prio : Forall (fun m => prio (mem s) m = Some kOOBPriority) oob;
  hr_queue_prio : Forall (fun m => prio (mem s) m = Some kNormalPriority) normal
}.

(** * What the actions need *)
Definition posted (a : action) : list (Z * bool) :=
  match a with Post m b => [(m, b)] | _ => [] end.

Definition posts (l : list action) : list Z := (l ≫= posted).*1.

(** A message that can be posted: it is in no queue, and a control message when it is to
    come before the events. *)
Definition postable (h : heap) (p : Z * bool) : Prop :=
  exists m, h !! p.1 = Some m /\ next_ m = 0 /\ p.1 <> 0 /\ (p.2 = true -> dest_port_ m = kIllegalPort).

(** The handler is resumed only as often as it was paused. *)
Fixpoint pauses_ok (n : Z) (l : list action) : bool :=
  match l with
  | [] => true
  | IncrementPaused :: l => pauses_ok (n + 1) l
  | DecrementPaused :: l => (0 <? n) && pauses_ok (n - 1) l
  | _ :: l => pauses_ok n l
  end.

(** A handler with its messages, and the actions still to come. *)
Record config (s : State) (oob normal : list Z) (l : list action) : Prop := mk_config {
  cf_rep : handler_rep s oob normal;
  cf_unique : NoDup (oob ++ normal ++ posts l);
  cf_posts : Forall (postable (mem s)) (l ≫= posted);
  cf_pauses : pauses_ok (paused_ (handler s)) l = true
}.

Lemma posts_cons a l : posts (a :: l) = (posted a).*1 ++ posts l.
Proof. unfold posts; cbn; apply fmap_app. Qed.

(** The heap may change, but for the messages still to be posted. *)
Lemma postable_frame h h' l :
  Forall (postable h) l -> (forall m, m ∈ l.*1 -> h' !! m = h !! m) -> Forall (postable h') l.
Proof.
  intros Hp Hf; rewrite Forall_forall in *; intros p Hin; destruct (Hp p Hin) as (m & E & H); exists m; split; [| done].
  rewrite Hf; [done |]; apply list_elem_of_fmap_2, Hin.
Qed.

(** * What a trace records *)
Definition handled (t : list event) : list Z :=
  omap (fun e => match e with HandleMessage m => Some m | _ => None end) t.

Definition runs (t : list event) : nat :=
  length (omap (fun e => match e with RunTask => Some tt | _ => None end) t).

Definition frame (s s' : State) : Prop :=
  pool_ (handler s') = pool_ (handler s) /\
  (task_ (handler s) = true -> task_ (handler s') = true /\ runs (trace s') = runs (trace s)).

Lemma frame_refl s : frame s s.
Proof. split; auto. Qed.

Lemma frame_trans s1 s2 s3 : frame s1 s2 -> frame s2 s3 -> frame s1 s3.
Proof. intros [P1 T1] [P2 T2]; split; [congruence |]; intros H; destruct (T1 H) as [H1 R1], (T2 H1) as [H2 R2]; split; congruence. Qed.

Lemma handled_snoc t e : handled (t ++ [e]) = handled t ++ handled [e].
Proof. apply omap_app. Qed.

Lemma runs_snoc t e : runs (t ++ [e]) = (runs t + runs [e])%nat.
Proof. unfold runs; rewrite omap_app, length_app; done. Qed.

(** A queue operation that touches no message of the other queue. *)
Lemma queue_rep_other h h' q (ms ms' : list Z) :
  queue_rep h q ms -> (forall y, y ∉ ms' -> h' !! y = h !! y) -> (forall m, m ∈ ms -> m ∉ ms') -> queue_rep h' q ms.
Proof. intros Hq Hf Hd; apply (queue_rep_frame h); [intros m Hm; apply Hf, Hd, Hm | done]. Qed.

Lemma prio_all h h' p ms :
  same_messages h h' -> Forall (fun m => prio h m = p) ms -> Forall (fun m => prio h' m = p) ms.
Proof. intros Hs H; eapply Forall_impl; [exact H |]; intros m; cbn; rewrite (same_messages_prio h h') by done; done. Qed.

Lemma enqueued_perm h msg b ms : enqueued h msg b ms ≡ₚ msg :: ms.
Proof.
  destruct b; cbn [enqueued]; [| rewrite Permutation_app_comm; done].
  induction ms as [| m ms IH]; cbn [insert_control]; [done |]; case_match; [| done].
  rewrite IH; apply Permutation_swap.
Qed.


(** * Posting and dequeuing *)
Lemma Enqueue_beside h q ms q2 ms2 msg m b :
  queue_rep h q ms -> queue_rep h q2 ms2 -> NoDup (msg :: ms ++ ms2) ->
  h !! msg = Some m -> next_ m = 0 -> msg <> 0 -> (b = true -> dest_port_ m = kIllegalPort) ->
  exists h' q', Enqueue msg b h q = Ok (h', q') /\ queue_rep h' q' (enqueued h msg b ms) /\ queue_rep h' q2 ms2 /\
    same_messages h h' /\ (forall y, y ∉ msg :: ms -> h' !! y = h !! y).
Proof.
  intros Hq Hq2 Hnd Em Hn H0 Hctl; apply NoDup_cons in Hnd as [Hm Hnd]; apply NoDup_app in Hnd as (_ & Hd & _).
  rewrite elem_of_app in Hm; destruct (Enqueue_ok h q ms msg m b) as (h' & q' & E & Hq' & Hs & Hf); try tauto.
  exists h', q'; split_and!; try done.
  apply (queue_rep_other h _ _ _ (msg :: ms)); [done | done |].
  intros x Hx; rewrite elem_of_cons; intros [-> | Hx']; [tauto | apply (Hd x); done].
Qed.

(** The rest of [PostMessage], after the message was put into its queue. *)
Definition notify (priority : Priority) (s : State) : State :=
  let s := if negb (pool_ (handler s) =? 0) && negb (task_ (handler s)) then run_task s else s in
  emit (MessageNotify priority) s.

Definition woken (s s' : State) : Prop :=
  pool_ (handler s') = pool_ (handler s) /\ pause_on_start_ (handler s') = pause_on_start_ (handler s) /\
  handled (trace s') = handled (trace s) /\
  task_ (handler s') = task_ (handler s) || negb (pool_ (handler s) =? 0) /\
  runs (trace s') = (runs (trace s) + if negb (pool_ (handler s) =? 0)%Z && negb (task_ (handler s)) then 1 else 0)%nat.

Lemma notify_woken p s0 s :
  pool_ (handler s) = pool_ (handler s0) -> pause_on_start_ (handler s) = pause_on_start_ (handler s0) ->
  task_ (handler s) = task_ (handler s0) -> trace s = trace s0 -> woken s0 (notify p s).
Proof.
  unfold woken, notify; intros <- <- <- <-; destruct (negb _) eqn:Ep, (task_ (handler s)) eqn:Et; cbn [andb negb run_task emit set_handler handler trace pool_ task_ pause_on_start_ with_task];
    rewrite ?handled_snoc, ?runs_snoc, ?Et; cbn; rewrite ?app_nil_r; split_and!; try done; lia.
Qed.

Lemma woken_frame s s' : woken s s' -> frame s s'.
Proof. intros (P & _ & _ & T & R); split; [done |]; intros Et; rewrite T, R, Et; cbn; rewrite andb_false_r; split; [done | lia]. Qed.

Lemma notify_config p s oob normal l : config s oob normal l -> config (notify p s) oob normal l.
Proof. intros [[? ? ? ?] ? ? ?]; unfold notify; case_match; done. Qed.

(** A configuration after the messages of the queues were rearranged. *)
Lemma config_moved h s' oob' normal' l :
  handler_rep s' oob' normal' -> NoDup (oob' ++ normal' ++ posts l) ->
  Forall (postable h) (l ≫= posted) -> (forall y, y ∈ posts l -> mem s' !! y = h !! y) ->
  pauses_ok (paused_ (handler s')) l = true -> config s' oob' normal' l.
Proof. intros Hr Hnd Hposts Hf Hpause; split; [done | done | apply (postable_frame h); done | done]. Qed.

Lemma disjoint_posts (m : Z) (ms ms2 ps : list Z) y : NoDup ((m :: ms ++ ms2) ++ ps) -> y ∈ ps -> y ∉ m :: ms.
Proof.
  intros (_ & Hd & _)%NoDup_app Hy Hin; apply (Hd y); [| done]; rewrite elem_of_cons, elem_of_app in *; tauto.
Qed.

(** Where a posted message goes. *)
Definition placed (h : heap) (m : Z) (b : bool) (oob normal : list Z) : list Z * list Z :=
  if match h !! m with Some msg => IsOOB msg | None => false end
  then (enqueued h m b oob, normal) else (oob, enqueued h m b normal).

Lemma notify_mem p s : mem (notify p s) = mem s.
Proof. unfold notify; case_match; done. Qed.

Lemma PostMessage_ok s oob normal m b l :
  config s oob normal (Post m b :: l) ->
  exists s' oob' normal', PostMessage m b s = Ok s' /\ config s' oob' normal' l /\ woken s s' /\
    oob' ++ normal' ++ posts l ≡ₚ oob ++ normal ++ posts (Post m b :: l) /\
    (oob', normal') = placed (mem s) m b oob normal /\
    same_messages (mem s) (mem s') /\ (forall y, y ∉ m :: oob ++ normal -> mem s' !! y = mem s !! y).
Proof.
  intros [[Ho Hq Hop Hqp] Hnd Hposts Hpause].
  apply Forall_cons in Hposts as [(mm & Em & Hn & H0 & Hctl) Hposts]; cbn [fst snd] in *.
  change (posts (Post m b :: l)) with (m :: posts l) in *.
  assert ((m :: oob ++ normal) ++ posts l ≡ₚ oob ++ normal ++ m :: posts l) as Hperm
    by (cbn [app]; rewrite (app_assoc oob), <- Permutation_middle; done).
  rewrite <- Hperm in Hnd; pose proof Hnd as (Hon & _ & _)%NoDup_app.
  unfold PostMessage, deref; rewrite Em; cbn [obind].
  destruct (IsOOB mm) eqn:Eo; unfold IsOOB in Eo.
  - destruct (Enqueue_beside (mem s) _ oob _ normal m mm b Ho Hq Hon Em Hn H0 Hctl) as (h' & q' & -> & Hq' & Hq2 & Hs & Hf).
    cbn [obind]; eexists (notify _ _), _, _; split; [reflexivity |].
    assert (enqueued (mem s) m b oob ++ normal ≡ₚ m :: oob ++ normal) as Hp by (rewrite enqueued_perm; done).
    split; [| split; [apply notify_woken; done | split; [rewrite app_assoc, Hp, Hperm; done |]]]; [apply notify_config |].
    1: apply (config_moved (mem s)); try done; [| rewrite app_assoc, Hp; done |].
    + split; cbn; try done; [| apply (prio_all (mem s)); done]; apply (prio_all (mem s)); [done |].
      rewrite enqueued_perm; apply Forall_cons; split; [unfold prio; rewrite Em; cbn; destruct (priority_ mm); done | done].
    + intros y Hy; apply Hf, (disjoint_posts m oob normal (posts l)), Hy; done.
    + unfold placed, IsOOB; rewrite Em, Eo, notify_mem; split; [done |]; split; [done |].
      intros y Hy; apply Hf; rewrite elem_of_cons, elem_of_app in *; tauto.
  - assert (NoDup (m :: normal ++ oob)) as Hno by (rewrite (Permutation_app_comm normal); done).
    destruct (Enqueue_beside (mem s) _ normal _ oob m mm b Hq Ho Hno Em Hn H0 Hctl) as (h' & q' & -> & Hq' & Hq2 & Hs & Hf).
    cbn [obind]; eexists (notify _ _), _, _; split; [reflexivity |].
    assert (oob ++ enqueued (mem s) m b normal ≡ₚ m :: oob ++ normal) as Hp by (rewrite enqueued_perm, <- Permutation_middle; done).
    split; [| split; [apply notify_woken; done | split; [rewrite app_assoc, Hp, Hperm; done |]]]; [apply notify_config |].
    1: apply (config_moved (mem s)); try done; [| rewrite app_assoc, Hp; done |].
    + split; cbn; try done; [apply (prio_all (mem s)); done |]; apply (prio_all (mem s)); [done |].
      rewrite enqueued_perm; apply Forall_cons; split; [unfold prio; rewrite Em; cbn; destruct (priority_ mm); done | done].
    + intros y Hy; apply Hf, (disjoint_posts m normal oob (posts l)), Hy; cbn; rewrite (Permutation_app_comm normal); done.
    + unfold placed, IsOOB; rewrite Em, Eo, notify_mem; split; [done |]; split; [done |].
      intros y Hy; apply Hf; rewrite elem_of_cons, elem_of_app in *; tauto.
Qed.

(** The actions can be performed, and neither lose nor duplicate a message. *)
Definition quiet (s s' : State) : Prop := frame s s' /\ handled (trace s') = handled (trace s).

Lemma quiet_trans s1 s2 s3 : quiet s1 s2 -> quiet s2 s3 -> quiet s1 s3.
Proof. intros [F1 H1] [F2 H2]; split; [eapply frame_trans; done | congruence]. Qed.

Lemma perform_ok s oob normal a l :
  config s oob normal (a :: l) ->
  exists s' oob' normal', perform a s = Ok s' /\ config s' oob' normal' l /\ quiet s s' /\
    oob' ++ normal' ++ posts l ≡ₚ oob ++ normal ++ posts (a :: l).
Proof.
  intros Hc; destruct a as [m b | | | b | b | |].
  1: { apply PostMessage_ok in Hc as (s' & oob' & normal' & E & Hc & Hw & Hp & _).
       exists s', oob', normal'; split_and!; try done; split; [apply woken_frame, Hw | apply Hw]. }
  all: destruct Hc as [[? ? ? ?] ? ? Hp]; cbn in Hp.
  2: apply andb_prop in Hp as [Hp0 Hp].
  all: eexists _, oob, normal; (split; [unfold perform, decrement_paused; rewrite ?Hp0; reflexivity |]).
  all: split; [split; done | split; [| done]]; (split; [split; auto | done]).
Qed.

Lemma perform_all_ok l1 s oob normal l2 :
  config s oob normal (l1 ++ l2) ->
  exists s' oob' normal', perform_all l1 s = Ok s' /\ config s' oob' normal' l2 /\ quiet s s' /\
    oob' ++ normal' ++ posts l2 ≡ₚ oob ++ normal ++ posts (l1 ++ l2).
Proof.
  revert s oob normal; induction l1 as [| a l1 IH]; intros s oob normal Hc.
  { exists s, oob, normal; split; [done |]; split; [done |]; split; [split; [apply frame_refl | done] | done]. }
  apply perform_ok in Hc as (s1 & oob1 & normal1 & E1 & Hc & Hq1 & Hp1); cbn [perform_all]; rewrite E1; cbn [obind].
  apply IH in Hc as (s2 & oob2 & normal2 & E2 & Hc & Hq2 & Hp2).
  exists s2, oob2, normal2; split_and!; [done | done | eapply quiet_trans; done | rewrite Hp2, Hp1; done].
Qed.

(** Taking a message out of a queue beside the other queue. *)
Lemma Dequeue_beside h q m ms q2 ms2 :
  queue_rep h q (m :: ms) -> queue_rep h q2 ms2 -> m ∉ ms2 ->
  exists h' q', Dequeue h q = Ok (m, h', q') /\ queue_rep h' q' ms /\ queue_rep h' q2 ms2 /\ same_messages h h' /\
    (forall y, y <> m -> h' !! y = h !! y).
Proof.
  intros Hq Hq2 Hm; destruct (Dequeue_ok _ _ _ Hq) as (h' & q' & E & Hq' & Hs & Hf); exists h', q'; split_and!; try done.
  apply (queue_rep_frame h); [| done]; intros x Hx; apply Hf; intros ->; done.
Qed.

(** The next message: an out-of-band one if there is one, else a normal one if the
    priority allows it. *)
Inductive next_message (p : Priority) : list Z -> list Z -> Z -> list Z -> list Z -> Prop :=
| next_oob m oob normal : next_message p (m :: oob) normal m oob normal
| next_normal m normal : p = kNormalPriority -> next_message p [] (m :: normal) m [] normal
| next_none normal : (p = kNormalPriority -> normal = []) -> next_message p [] normal 0 [] normal.

Lemma DequeueMessage_ok p s oob normal l :
  config s oob normal l ->
  exists m s' oob' normal', DequeueMessage p s = Ok (m, s') /\ next_message p oob normal m oob' normal' /\
    config s' oob' normal' l /\ quiet s s' /\ paused_ (handler s') = paused_ (handler s) /\
    pause_on_start_ (handler s') = pause_on_start_ (handler s) /\
    (m <> 0 -> exists msg, mem s' !! m = Some msg /\ (p = kOOBPriority -> IsOOB msg = true)).
Proof.
  intros [[Ho Hq Hop Hqp] Hnd Hposts Hpause]; unfold DequeueMessage.
  destruct oob as [| m oob].
  - rewrite (Dequeue_ok _ _ _ Ho); cbn [obind].
    destruct p, normal as [| n normal]; cbn [Z.eqb mem handler queue_ with_oob_queue].
    + rewrite (Dequeue_ok _ _ _ Hq); cbn [obind].
      eexists _, _, _, _; split; [reflexivity |]; split_and!; [apply next_none; done | split; done | split; [split; auto | done] | done..].
    + apply NoDup_cons in Hnd as [Hn Hnd].
      destruct (Dequeue_beside _ _ _ _ _ [] Hq Ho) as (h' & q' & -> & Hq' & Hq2 & Hs & Hf); [apply not_elem_of_nil |]; cbn [obind].
      eexists _, _, _, _; split; [reflexivity |]; split; [apply next_normal; done |]; split.
      * apply (config_moved (mem s)); try done; [| intros y Hy; apply Hf; intros ->; apply Hn, elem_of_app; auto].
        apply Forall_cons in Hqp as [_ Hqp]; split; cbn; try done; apply (prio_all (mem s)); done.
      * split; [split; [split; auto | done] |]; split; [done |]; split; [done |]; intros _.
        destruct (same_messages_lookup _ h' n Hs) as [msg E]; [eapply queue_head; done | exists msg; done].
    + eexists _, _, _, _; split; [reflexivity |]; split_and!; [apply next_none; done | split; done | split; [split; auto | done] | done..].
    + eexists _, _, _, _; split; [reflexivity |]; split_and!; [apply next_none; done | split; done | split; [split; auto | done] | done..].
  - pose proof (queue_head _ _ _ _ Ho) as (_ & Hm0 & _ & Hsome).
    cbn [app] in Hnd; apply NoDup_cons in Hnd as [Hn Hnd].
    destruct (Dequeue_beside _ _ _ _ _ normal Ho Hq) as (h' & q' & -> & Hq' & Hq2 & Hs & Hf).
    { intros Hin; apply Hn; rewrite !elem_of_app; auto. }
    cbn [obind]; rewrite (proj2 (Z.eqb_neq m 0) Hm0).
    exists m, (mkState h' (with_oob_queue q' (handler s)) (trace s)), oob, normal; split; [destruct p; done |].
    split; [apply next_oob |]; split.
    + apply (config_moved (mem s)); try done; [| intros y Hy; apply Hf; intros ->; apply Hn; rewrite !elem_of_app; auto].
      apply Forall_cons in Hop as [_ Hop]; split; cbn; try done; apply (prio_all (mem s)); done.
    + split; [split; [split; auto | done] |]; split; [done |]; split; [done |]; intros _.
      destruct (same_messages_lookup _ h' m Hs Hsome) as [msg E]; exists msg; split; [done |]; intros _.
      apply Forall_cons in Hop as [Hp _]; rewrite <- (same_messages_prio _ _ _ Hs) in Hp; unfold prio in Hp.
      rewrite E in Hp; injection Hp as Hp; unfold IsOOB; rewrite Hp; done.
Qed.

(** * The message loop *)
Abbreviation actions sc := (sc ≫= snd).

Lemma next_turn_actions sc r acts sc' :
  next_turn sc = (r, acts, sc') ->
  actions sc = acts ++ actions sc' /\ (Forall (fun t => t.1 = true) sc -> r = true /\ Forall (fun t => t.1 = true) sc').
Proof.
  destruct sc as [| [r0 a0] sc]; cbn; intros [= <- <- <-]; split; try done.
  intros [? ?]%Forall_cons; done.
Qed.

(** Nothing is left that the loop should have handled. *)
Definition drained (allow_normal : bool) (H : MessageHandler) (oob normal : list Z) : Prop :=
  oob = [] /\ (allow_normal = true -> paused H = false -> normal = []).

Lemma next_message_perm p oob normal m oob' normal' :
  next_message p oob normal m oob' normal' -> m <> 0 -> oob ++ normal ≡ₚ m :: oob' ++ normal'.
Proof. destruct 1; done. Qed.

Lemma next_message_none an s oob normal oob' normal' :
  Forall (fun m => m <> 0) (oob ++ normal) ->
  next_message (min_priority an (handler s)) oob normal 0 oob' normal' ->
  oob' = oob /\ normal' = normal /\ drained an (handler s) oob normal.
Proof.
  intros Hnz H; inversion H as [? ? ? | ? ? ? | ? Hn]; subst; cbn [app] in Hnz; try (apply Forall_cons in Hnz as [? _]; done).
  split; [done |]; split; [done |]; split; [done |]; intros Ean Hp; apply Hn; unfold min_priority; rewrite Ean, Hp; done.
Qed.

Lemma config_nonzero s oob normal l : config s oob normal l -> Forall (fun m => m <> 0) (oob ++ normal).
Proof.
  intros [[[Ho _ _] [Hq _ _] _ _] _ _ _]; apply Forall_app; split; apply Forall_forall; intros m Hm;
    [apply (lseg_elem _ _ _ _ m Ho Hm) | apply (lseg_elem _ _ _ _ m Hq Hm)].
Qed.

(** The loop ends within as many rounds as there are messages now or to be posted.  It
    handles messages of the queues or posted meanwhile, each once, and stops before
    the queues are drained only on an error or after the one normal message. *)
Definition loop_ok (an am : bool) (sc : script) (s : State) (before : list Z) (r' : bool) (sc' : script) (s' : State) : Prop :=
  exists oob' normal' hs,
    config s' oob' normal' (actions sc') /\ frame s s' /\ handled (trace s') = handled (trace s) ++ hs /\
    hs ++ oob' ++ normal' ++ posts (actions sc') ≡ₚ before /\
    (r' = true -> am = true \/ an = false -> drained an (handler s') oob' normal') /\
    (Forall (fun t => t.1 = true) sc -> r' = true /\ Forall (fun t => t.1 = true) sc').

Lemma loop_ok_now an am sc s oob normal acts sc1 s1 oob1 normal1 m r :
  config s1 oob1 normal1 (actions sc1) -> frame s s1 -> handled (trace s1) = handled (trace s) ++ [m] ->
  oob1 ++ normal1 ++ posts (actions sc1) ≡ₚ oob ++ normal ++ posts (acts ++ actions sc1) ->
  (Forall (fun t => t.1 = true) sc -> r = true /\ Forall (fun t => t.1 = true) sc1) ->
  (r = true -> am = true \/ an = false -> drained an (handler s1) oob1 normal1) ->
  loop_ok an am sc s (m :: oob ++ normal ++ posts (acts ++ actions sc1)) r sc1 s1.
Proof. intros Hc Hf Hh Hp Hok Hd; exists oob1, normal1, [m]; split_and!; try done; cbn; rewrite Hp; done. Qed.

(** A first round, and the rounds that follow. *)
Lemma loop_ok_then an am sc s oob normal acts sc1 s1 oob1 normal1 m m2 s2 oob2 normal2 r' sc' s' :
  frame s s1 -> handled (trace s1) = handled (trace s) ++ [m] -> quiet s1 s2 ->
  oob1 ++ normal1 ++ posts (actions sc1) ≡ₚ oob ++ normal ++ posts (acts ++ actions sc1) ->
  oob1 ++ normal1 ≡ₚ m2 :: oob2 ++ normal2 ->
  (Forall (fun t => t.1 = true) sc -> Forall (fun t => t.1 = true) sc1) ->
  loop_ok an am sc1 s2 (m2 :: oob2 ++ normal2 ++ posts (actions sc1)) r' sc' s' ->
  loop_ok an am sc s (m :: oob ++ normal ++ posts (acts ++ actions sc1)) r' sc' s'.
Proof.
  intros Hf Hh [Hf2 Hh2] Hp Hn Hok (oob' & normal' & hs & Hc & Hf3 & Hh3 & Hp3 & Hd & Hok3).
  exists oob', normal', (m :: hs); split_and!; try done; [eapply frame_trans; [done | eapply frame_trans; done] | | | auto].
  - rewrite Hh3, Hh2, Hh, <- app_assoc; done.
  - cbn [app]; rewrite Hp3, <- Hp, (app_assoc oob1), Hn; cbn [app]; rewrite <- app_assoc; done.
Qed.

Lemma handle_loop_ok fuel an am m sc s oob normal :
  config s oob normal (actions sc) -> m <> 0 ->
  (exists msg, mem s !! m = Some msg /\ (an = false -> IsOOB msg = true)) ->
  (S (length (oob ++ normal ++ posts (actions sc))) <= fuel)%nat ->
  exists r' sc' s', handle_loop fuel an am m true sc s = Ok (r', sc', s') /\
    loop_ok an am sc s (m :: oob ++ normal ++ posts (actions sc)) r' sc' s'.
Proof.
  revert m sc s oob normal; induction fuel as [| fuel IH]; intros m sc s oob normal Hc Hm (msg & Em & Hoob) Hf; [lia |].
  cbn [handle_loop]; rewrite (proj2 (Z.eqb_neq m 0) Hm); unfold deref; rewrite Em; cbn [obind].
  destruct (next_turn sc) as [[r acts] sc1] eqn:Et; apply next_turn_actions in Et as [Ea Hok]; rewrite Ea in Hc, Hf |- *.
  assert (config (emit (HandleMessage m) s) oob normal (acts ++ actions sc1)) as Hc1 by (destruct Hc as [[]]; done).
  apply perform_all_ok in Hc1 as (s1 & oob1 & normal1 & E1 & Hc1 & [Hfr1 Hh1] & Hp1); rewrite E1; cbn [obind].
  assert (frame s s1) as Hfr by (destruct Hfr1 as [P T]; split; [done |]; intros Et; destruct (T Et) as [T1 T2];
    cbn [trace emit] in T2; rewrite runs_snoc in T2; cbn in T2; split; [done | lia]).
  cbn [trace emit] in Hh1; rewrite handled_snoc in Hh1.
  destruct r; cbn [negb]; [| eexists _, _, _; split; [done |]; eapply loop_ok_now; done].
  destruct (match priority_ msg with kNormalPriority => negb am | kOOBPriority => false end) eqn:Eb.
  { eexists _, _, _; split; [done |]; eapply loop_ok_now; try done; unfold IsOOB in Hoob.
    destruct (priority_ msg); [| done]; intros _ [-> | Han]; [done | apply Hoob in Han; done]. }
  destruct (DequeueMessage_ok (min_priority an (handler s1)) _ _ _ _ Hc1)
    as (m2 & s2 & oob2 & normal2 & -> & Hn & Hc2 & Hq2 & Hpa & Hps & Hm2); cbn [obind].
  destruct (decide (m2 = 0)) as [-> | Hm2n].
  - apply next_message_none in Hn as (-> & -> & Hd); [| eapply config_nonzero; done].
    assert (handle_loop fuel an am 0 true sc1 s2 = Ok (true, sc1, s2)) as -> by (destruct fuel; done).
    eexists _, _, _; split; [done |]; destruct Hq2 as [Hq2 Hh2]; eapply loop_ok_now; try done;
      [eapply frame_trans; done | rewrite Hh2; exact Hh1 |].
    intros _ _; destruct Hd as [Ho Hd]; split; [done |]; unfold paused in *; rewrite Hpa; done.
  - apply next_message_perm in Hn as Hn'; [| done].
    destruct (IH m2 sc1 s2 oob2 normal2) as (r' & sc' & s' & E & Hl); try done.
    + destruct (Hm2 Hm2n) as (msg2 & E2 & H2); exists msg2; split; [done |]; intros ->; apply H2; done.
    + rewrite <- Hp1, (app_assoc oob1), Hn' in Hf; cbn [app length] in Hf; rewrite <- app_assoc in Hf; lia.
    + rewrite E; eexists _, _, _; split; [done |]; eapply loop_ok_then; try done; tauto.
Qed.

(** [HandleMessages] from the queues. *)
Lemma HandleMessages_ok fuel an am sc s oob normal :
  config s oob normal (actions sc) -> (length (oob ++ normal ++ posts (actions sc)) <= fuel)%nat ->
  exists r' sc' s', HandleMessages fuel an am sc s = Ok (r', sc', s') /\
    loop_ok an am sc s (oob ++ normal ++ posts (actions sc)) r' sc' s'.
Proof.
  intros Hc Hf; unfold HandleMessages.
  destruct (DequeueMessage_ok (min_priority an (handler s)) _ _ _ _ Hc)
    as (m & s1 & oob1 & normal1 & -> & Hn & Hc1 & [Hq Hh] & Hpa & _ & Hm); cbn [obind].
  destruct (decide (m = 0)) as [-> | Hm0].
  - apply next_message_none in Hn as (-> & -> & Hd); [| eapply config_nonzero; done].
    assert (handle_loop fuel an am 0 true sc s1 = Ok (true, sc, s1)) as -> by (destruct fuel; done).
    eexists _, _, _; split; [done |]; exists oob, normal, []; split_and!; try done; [rewrite app_nil_r; done |].
    intros _ _; destruct Hd as [Ho Hd]; split; [done |]; unfold paused in *; rewrite Hpa; done.
  - apply next_message_perm in Hn as Hn'; [| done]; rewrite (app_assoc oob), Hn' in Hf; cbn [app length] in Hf; rewrite <- app_assoc in Hf.
    destruct (handle_loop_ok fuel an am m sc s1 oob1 normal1) as (r' & sc' & s' & E & (oob' & normal' & hs & Hc' & Hf' & Hh' & Hp' & H')); try done.
    { destruct (Hm Hm0) as (msg & E2 & H2); exists msg; split; [done |]; intros ->; apply H2; done. }
    rewrite E; eexists _, _, _; split; [done |]; exists oob', normal', hs; split_and!; try done; try apply H'.
    + eapply frame_trans; done.
    + congruence.
    + rewrite Hp', (app_assoc oob normal), Hn'; cbn [app]; rewrite <- app_assoc; done.
Qed.

(** Without posts meanwhile, the messages are handled in order, the out-of-band ones
    first. *)
Lemma handle_loop_order fuel m s oob normal r sc' s' :
  config s oob normal [] -> m <> 0 -> paused (handler s) = false ->
  handle_loop fuel true true m true [] s = Ok (r, sc', s') -> handled (trace s') = handled (trace s) ++ m :: oob ++ normal.
Proof.
  revert m s oob normal; induction fuel as [| fuel IH]; intros m s oob normal Hc Hm Hpa; cbn [handle_loop];
    rewrite (proj2 (Z.eqb_neq m 0) Hm); [done |].
  destruct (deref m (mem s)) as [msg |]; cbn [obind next_turn perform_all negb]; [| done].
  replace (match priority_ msg with kNormalPriority => false | kOOBPriority => false end) with false by (destruct (priority_ msg); done).
  assert (config (emit (HandleMessage m) s) oob normal []) as Hc1 by (destruct Hc as [[]]; done).
  change (handler (emit (HandleMessage m) s)) with (handler s).
  destruct (DequeueMessage_ok (min_priority true (handler s)) _ _ _ _ Hc1)
    as (m2 & s2 & oob2 & normal2 & -> & Hn & Hc2 & [_ Hh] & Hpa2 & _ & _); cbn [obind].
  cbn [trace emit] in Hh; rewrite handled_snoc in Hh; change (handled [HandleMessage m]) with [m] in Hh.
  destruct (decide (m2 = 0)) as [-> | Hm2].
  - apply (next_message_none true s) in Hn as (-> & -> & [-> Hd]); [| eapply config_nonzero; done].
    rewrite (Hd eq_refl Hpa); destruct fuel; cbn; intros [= <- <- <-]; done.
  - intros E; apply IH with (oob := oob2) (normal := normal2) in E; [| done | done | unfold paused in *; rewrite Hpa2; done].
    rewrite E, Hh, <- app_assoc; inversion Hn; subst; done.
Qed.

(** C16. The message loop delivers.  From queues that hold [oob] and [normal], and
    whatever is posted while the monitor is released, it ends within as many rounds as
    there are messages: each message handled is one of them and none is handled twice
    or lost.  When it returns without an error no out-of-band message is left, and no
    normal one unless the handler was paused.  If nothing is posted meanwhile and the
    handler is not paused, the messages are handled in order, the out-of-band ones
    first. *)
Theorem HandleMessages_delivers (fuel : nat) (sc : script) (s : State) (oob normal : list Z)
  (Hc : config s oob normal (actions sc)) (Hf : (length (oob ++ normal ++ posts (actions sc)) <= fuel)%nat) :
  exists r sc' s' oob' normal' hs,
    HandleMessages fuel true true sc s = Ok (r, sc', s') /\ handler_rep s' oob' normal' /\
    handled (trace s') = handled (trace s) ++ hs /\
    hs ++ oob' ++ normal' ++ posts (actions sc') ≡ₚ oob ++ normal ++ posts (actions sc) /\
    (r = true -> oob' = [] /\ (paused (handler s') = false -> normal' = [])) /\
    (sc = [] -> paused (handler s) = false -> hs = oob ++ normal).
Proof.
  destruct (HandleMessages_ok fuel true true sc s oob normal Hc Hf)
    as (r & sc' & s' & E & (oob' & normal' & hs & Hc' & _ & Hh & Hp & Hd & _)).
  exists r, sc', s', oob', normal', hs; split_and!; [done | apply Hc' | done | done | |].
  - intros Hr; destruct (Hd Hr ltac:(auto)) as [Ho Hn]; auto.
  - intros -> Hpa; unfold HandleMessages in E.
    destruct (DequeueMessage_ok (min_priority true (handler s)) _ _ _ _ Hc)
      as (m & s1 & oob1 & normal1 & E1 & Hn & Hc1 & [_ Hh1] & Hpa1 & _ & _); rewrite E1 in E; cbn [obind] in E.
    apply (app_inv_head (handled (trace s))); rewrite <- Hh, <- Hh1; destruct (decide (m = 0)) as [-> | Hm].
    + apply (next_message_none true s) in Hn as (-> & -> & [-> Hd']); [| eapply config_nonzero; done].
      rewrite (Hd' eq_refl Hpa), app_nil_r; destruct fuel; cbn in E; injection E as <- <- <-; done.
    + apply (handle_loop_order _ _ _ oob1 normal1) in E; [| done | done | unfold paused in *; rewrite Hpa1; done].
      rewrite E; inversion Hn; subst; done.
Qed.

(** A handler with an out-of-band and a normal message; another message is posted while
    the first is handled. *)
Definition sample_messages : heap :=
  <[16 := mkMessage 0 0 0 [1] kOOBPriority]> (<[32 := mkMessage 0 7 0 [2] kNormalPriority]>
  (<[48 := mkMessage 0 7 0 [3] kNormalPriority]> ∅)).

Definition sample_handler : MessageHandler :=
  mkHandler (mkQueue 32 32) (mkQueue 16 16) true 1 0 false false false false 5 true 0 0 0.

Definition sample_state : State := mkState sample_messages sample_handler [].

Lemma sample_config : config sample_state [16] [32] [Post 48 false].
Proof.
  split; [| apply (bool_decide_unpack _), I | | done].
  - split; try (apply Forall_singleton; reflexivity).
    all: split; [| apply NoDup_singleton | done]; split_and!; [done | done |]; eexists; split; reflexivity.
  - apply Forall_singleton; eexists; split; [reflexivity |]; done.
Qed.

Lemma HandleMessages_delivers_witness :
  exists r sc' s' oob' normal' hs,
    HandleMessages 3 true true [(true, [Post 48 false])] sample_state = Ok (r, sc', s') /\
    handler_rep s' oob' normal' /\ handled (trace s') = hs /\
    hs ++ oob' ++ normal' ++ posts (actions sc') ≡ₚ [16; 32; 48].
Proof.
  destruct (HandleMessages_delivers 3 [(true, [Post 48 false])] sample_state [16] [32] sample_config ltac:(cbn; lia))
    as (r & sc' & s' & oob' & normal' & hs & E & Hr & Hh & Hp & _).
  exists r, sc', s', oob', normal', hs; split_and!; done.
Defined.

(** * The task *)
Lemma run_start_callback_ok sc s oob normal :
  config s oob normal (actions sc) ->
  exists ok sc' s' oob' normal', run_start_callback sc s = Ok (ok, sc', s') /\ config s' oob' normal' (actions sc') /\
    quiet s s' /\ oob' ++ normal' ++ posts (actions sc') ≡ₚ oob ++ normal ++ posts (actions sc) /\
    (Forall (fun t => t.1 = true) sc -> ok = true /\ Forall (fun t => t.1 = true) sc').
Proof.
  intros Hc; unfold run_start_callback; destruct (start_callback_ (handler s) =? 0).
  { eexists _, _, _, _, _; split; [done |]; split; [done |]; split; [split; [apply frame_refl | done] | done]. }
  destruct (next_turn sc) as [[ok acts] sc1] eqn:Et; apply next_turn_actions in Et as [Ea Hok]; rewrite Ea in Hc |- *.
  assert (config (emit StartCallback s) oob normal (acts ++ actions sc1)) as Hc1 by (destruct Hc as [[]]; done).
  apply perform_all_ok in Hc1 as (s1 & oob1 & normal1 & -> & Hc1 & [[P T] Hh] & Hp); cbn [obind].
  eexists _, _, _, oob1, normal1; split; [reflexivity |]; split; [destruct Hc1 as [[]]; done |]; split; [| done].
  cbn [trace emit] in *; rewrite handled_snoc, app_nil_r in Hh; rewrite runs_snoc in T; cbn in T; rewrite Nat.add_0_r in T.
  split; [split; [exact P | exact T] | exact Hh].
Qed.

Lemma pause_at_start_ok fuel sc s oob normal :
  config s oob normal (actions sc) -> (length (oob ++ normal ++ posts (actions sc)) <= fuel)%nat ->
  exists b sc' s' oob' normal' hs, pause_at_start fuel sc s = Ok (b, sc', s') /\ config s' oob' normal' (actions sc') /\
    frame s s' /\ handled (trace s') = handled (trace s) ++ hs /\
    hs ++ oob' ++ normal' ++ posts (actions sc') ≡ₚ oob ++ normal ++ posts (actions sc) /\
    (Forall (fun t => t.1 = true) sc -> Forall (fun t => t.1 = true) sc' /\
      (b = true -> pause_on_start_ (handler s') = true /\ oob' = [])).
Proof.
  intros Hc Hf; unfold pause_at_start; destruct (pause_on_start_ (handler s)).
  2: { eexists _, _, _, oob, normal, []; split; [done |]; rewrite app_nil_r; split_and!; try done; apply frame_refl. }
  set (s0 := if negb _ then _ else s).
  assert (config s0 oob normal (actions sc) /\ quiet s s0) as [Hc0 [Hf0 Hh0]].
  { subst s0; destruct (negb _); [| split; [done | split; [apply frame_refl | done]]]; split; [destruct Hc as [[]]; done |].
    split; [split; [done |]; intros Et; split; [done |]; cbn [trace emit set_handler]; rewrite runs_snoc; cbn; lia |].
    cbn [trace emit set_handler]; rewrite handled_snoc, app_nil_r; done. }
  destruct (HandleMessages_ok fuel false false sc s0 oob normal Hc0 Hf)
    as (r & sc' & s' & -> & (oob' & normal' & hs & Hc' & Hf' & Hh & Hp & Hd & Hok)); cbn [obind].
  destruct (pause_on_start_ (handler s')) eqn:Eps.
  - eexists _, _, _, oob', normal', hs; split; [reflexivity |]; split; [done |]; split; [eapply frame_trans; done |].
    split; [congruence |]; split; [done |].
    intros Hsc; destruct (Hok Hsc) as [Hr Hsc']; split; [done |]; intros _; split; [done | apply Hd; auto].
  - eexists _, _, _, oob', normal', hs; split; [reflexivity |]; split; [destruct Hc' as [[]]; done |]; split.
    { eapply frame_trans; [done | eapply frame_trans; [done | split; auto]]. }
    cbn [trace set_handler]; split; [congruence |]; split; [done |].
    intros Hsc; destruct (Hok Hsc) as [Hr Hsc']; done.
Qed.

(** A handler whose task ended: without a pool, or without a message to handle, unless
    it is paused. *)
Definition settled (s : State) (oob normal : list Z) : Prop :=
  pool_ (handler s) <> 0 -> oob = [] /\ (normal = [] \/ paused (handler s) = true \/ pause_on_start_ (handler s) = true).

Lemma finish_ok ok s oob normal l :
  config s oob normal l ->
  config (finish ok s) oob normal l /\ task_ (handler (finish ok s)) = task_ (handler s) /\
  runs (trace (finish ok s)) = runs (trace s) /\ handled (trace (finish ok s)) = handled (trace s) /\
  (pool_ (handler (finish ok s)) <> 0 -> pool_ (handler (finish ok s)) = pool_ (handler s)) /\
  paused (handler (finish ok s)) = paused (handler s) /\
  pause_on_start_ (handler (finish ok s)) = pause_on_start_ (handler s).
Proof.
  intros [[? ? ? ?] ? ? ?]; unfold finish; repeat case_match; cbn [trace emit set_handler];
    rewrite ?handled_snoc, ?runs_snoc, ?app_nil_r; cbn [runs omap list_omap length]; rewrite ?Nat.add_0_r; split_and!; done.
Qed.

Lemma TaskCallback_ok fuel sc s oob normal :
  config s oob normal (actions sc) -> (length (oob ++ normal ++ posts (actions sc)) <= fuel)%nat ->
  task_ (handler s) = true ->
  exists sc' s' oob' normal' hs, TaskCallback fuel sc s = Ok (sc', s') /\ config s' oob' normal' (actions sc') /\
    task_ (handler s') = false /\ runs (trace s') = runs (trace s) /\ handled (trace s') = handled (trace s) ++ hs /\
    hs ++ oob' ++ normal' ++ posts (actions sc') ≡ₚ oob ++ normal ++ posts (actions sc) /\
    (pool_ (handler s') <> 0 -> pool_ (handler s') = pool_ (handler s)) /\
    (Forall (fun t => t.1 = true) sc -> settled s' oob' normal').
Proof.
  intros Hc Hf Ht; unfold TaskCallback.
  destruct (pause_at_start_ok fuel sc s oob normal Hc Hf) as (b & sc1 & s1 & oob1 & normal1 & hs1 & -> & Hc1 & Hf1 & Hh1 & Hp1 & Hok1).
  cbn [obind]; destruct Hf1 as [P1 T1]; destruct (T1 Ht) as [Et1 R1]; destruct b.
  { eexists _, _, oob1, normal1, hs1; split; [reflexivity |]; split; [destruct Hc1 as [[]]; done |]; split_and!; try done.
    intros Hsc _; destruct (Hok1 Hsc) as [_ [Hps Ho]]; auto. }
  destruct (run_start_callback_ok sc1 s1 oob1 normal1 Hc1) as (ok & sc2 & s2 & oob2 & normal2 & -> & Hc2 & [[P2 T2] Hh2] & Hp2 & Hok2).
  destruct (T2 Et1) as [Et2 R2]; cbn [obind].
  assert (exists ok' sc3 s3 oob3 normal3 hs3,
    (if ok then HandleMessages fuel true true sc2 s2 else Ok (ok, sc2, s2)) = Ok (ok', sc3, s3) /\
    config s3 oob3 normal3 (actions sc3) /\ frame s2 s3 /\ handled (trace s3) = handled (trace s2) ++ hs3 /\
    hs3 ++ oob3 ++ normal3 ++ posts (actions sc3) ≡ₚ oob2 ++ normal2 ++ posts (actions sc2) /\
    (ok = true -> Forall (fun t => t.1 = true) sc2 -> drained true (handler s3) oob3 normal3))
    as (ok' & sc3 & s3 & oob3 & normal3 & hs3 & -> & Hc3 & [P3 T3] & Hh3 & Hp3 & Hd3).
  { destruct ok; [| exists false, sc2, s2, oob2, normal2, []; rewrite app_nil_r; split; [done |]; split; [done |]; split; [apply frame_refl | done]].
    destruct (HandleMessages_ok fuel true true sc2 s2 oob2 normal2 Hc2)
      as (r & sc3 & s3 & E & (oob3 & normal3 & hs3 & Hc3 & Hf3 & Hh3 & Hp3 & Hd3 & Hok3)).
    { rewrite Hp2; rewrite <- Hp1, length_app in Hf; lia. }
    exists r, sc3, s3, oob3, normal3, hs3; split; [done |]; split; [done |]; split; [done |]; split; [done |]; split; [done |].
    intros _ Hsc; apply Hd3; [apply Hok3, Hsc | auto]. }
  destruct (T3 Et2) as [Et3 R3]; cbn [obind].
  assert (config (set_handler (with_task false) s3) oob3 normal3 (actions sc3)) as Hc4 by (destruct Hc3 as [[]]; done).
  destruct (finish_ok ok' _ _ _ _ Hc4) as (Hc5 & Et5 & R5 & Hh5 & P5 & Hpa5 & Hps5).
  eexists _, _, oob3, normal3, (hs1 ++ hs3); split; [reflexivity |]; split; [done |]; split; [done |].
  split; [rewrite R5; cbn [trace set_handler]; congruence |].
  split; [rewrite Hh5; cbn [trace set_handler]; rewrite Hh3, Hh2, Hh1, app_assoc; done |].
  split; [rewrite <- app_assoc, Hp3, Hp2; done |].
  split; [intros Hp; rewrite (P5 Hp); cbn [handler set_handler pool_ with_task]; congruence |].
  intros Hsc Hp; destruct (Hok1 Hsc) as [Hsc1 _], (Hok2 Hsc1) as [-> Hsc2]; destruct (Hd3 eq_refl Hsc2) as [-> Hd].
  split; [done |]; rewrite Hpa5; cbn [handler set_handler]; change (paused (with_task false (handler s3))) with (paused (handler s3)).
  destruct (paused (handler s3)); auto.
Qed.

(** * The life of a handler *)
(** The messages of the actions can be posted, and are in no queue of the handler. *)
Definition enabled (s : State) (l : list action) : Prop :=
  Forall (postable (mem s)) (l ≫= posted) /\ NoDup (posts l) /\ pauses_ok (paused_ (handler s)) l = true /\
  (forall oob normal, handler_rep s oob normal -> NoDup (oob ++ normal) -> forall m, m ∈ oob ++ normal -> m ∉ posts l).

(** A handler and the number of its tasks in the pool.  A handler starts to run on a
    pool; messages are posted to it; a thread of the pool runs a task. *)
Inductive step : State * nat -> State * nat -> Prop :=
| step_run pool st en data s s' n :
    pool <> 0 -> task_ (handler s) = false -> Run pool st en data s = Ok s' ->
    step (s, n) (s', n + (runs (trace s') - runs (trace s)))%nat
| step_post m b s s' n :
    enabled s [Post m b] -> PostMessage m b s = Ok s' ->
    step (s, n) (s', n + (runs (trace s') - runs (trace s)))%nat
| step_task fuel sc sc' s s' n :
    enabled s (actions sc) -> Forall (fun t => t.1 = true) sc -> TaskCallback fuel sc s = Ok (sc', s') ->
    step (s, S n) (s', n + (runs (trace s') - runs (trace s)))%nat.

Inductive reachable (h : heap) : State * nat -> Prop :=
| reach_new : reachable h (mkState h new_MessageHandler [], O)
| reach_step c c' : reachable h c -> step c c' -> reachable h c'.

Record handler_inv (c : State * nat) : Prop := mk_handler_inv {
  hi_rep : exists oob normal, handler_rep c.1 oob normal /\ NoDup (oob ++ normal) /\
    (task_ (handler c.1) = false -> settled c.1 oob normal);
  hi_tasks : c.2 = if task_ (handler c.1) then 1%nat else 0%nat
}.

Lemma enabled_config s oob normal l :
  handler_rep s oob normal -> NoDup (oob ++ normal) -> enabled s l -> config s oob normal l.
Proof.
  intros Hr Hnd (Hp & Hl & Hpa & Hd); split; [done | | done | done].
  rewrite app_assoc; apply NoDup_app; split_and!; [done | apply (Hd _ _ Hr Hnd) | done].
Qed.

Lemma config_messages s oob normal l : config s oob normal l -> NoDup (oob ++ normal).
Proof. intros [_ Hnd _ _]; rewrite app_assoc in Hnd; apply NoDup_app in Hnd as (? & _); done. Qed.

(** A task that returns did so with the fuel of [TaskCallback_ok] or more. *)
Lemma handle_loop_fuel fuel fuel' an am m r sc s x :
  handle_loop fuel an am m r sc s = Ok x -> (fuel <= fuel')%nat -> handle_loop fuel' an am m r sc s = Ok x.
Proof.
  revert fuel' m r sc s; induction fuel as [| fuel IH]; intros fuel' m r sc s; cbn [handle_loop].
  - destruct (m =? 0) eqn:E; [| done]; intros [= <-] _; destruct fuel'; cbn; rewrite E; done.
  - intros H Hf; destruct fuel'; [lia |]; cbn [handle_loop]; destruct (m =? 0); [done |].
    destruct (deref m (mem s)); cbn [obind] in *; [| done].
    destruct (next_turn sc) as [[r1 acts] sc1]; destruct (perform_all acts _) as [s1 |]; cbn [obind] in *; [| done].
    destruct (negb r1); [done |]; destruct (match priority_ a with kNormalPriority => negb am | kOOBPriority => false end); [done |].
    destruct (DequeueMessage _ s1) as [[m2 s2] |]; cbn [obind] in *; [| done]; apply IH; [done | lia].
Qed.

Lemma HandleMessages_fuel fuel fuel' an am sc s x :
  HandleMessages fuel an am sc s = Ok x -> (fuel <= fuel')%nat -> HandleMessages fuel' an am sc s = Ok x.
Proof.
  unfold HandleMessages; destruct (DequeueMessage _ s) as [[m s1] |]; cbn [obind]; [| done]; apply handle_loop_fuel.
Qed.

Lemma TaskCallback_fuel fuel fuel' sc s x :
  TaskCallback fuel sc s = Ok x -> (fuel <= fuel')%nat -> TaskCallback fuel' sc s = Ok x.
Proof.
  intros H Hf; revert H; unfold TaskCallback, pause_at_start.
  destruct (pause_on_start_ (handler s)).
  - destruct (HandleMessages fuel false false sc _) as [[[r sc1] s1] |] eqn:E1; cbn [obind]; [| done].
    rewrite (HandleMessages_fuel _ fuel' _ _ _ _ _ E1 Hf); cbn [obind].
    destruct (pause_on_start_ (handler s1)); cbn [obind]; [done |].
    destruct (run_start_callback sc1 _) as [[[[] sc2] s2] |]; cbn [obind]; try done.
    destruct (HandleMessages fuel true true sc2 s2) as [y |] eqn:E2; cbn [obind]; [| done].
    rewrite (HandleMessages_fuel _ fuel' _ _ _ _ _ E2 Hf); done.
  - cbn [obind]; destruct (run_start_callback sc s) as [[[[] sc2] s2] |]; cbn [obind]; try done.
    destruct (HandleMessages fuel true true sc2 s2) as [y |] eqn:E2; cbn [obind]; [| done].
    rewrite (HandleMessages_fuel _ fuel' _ _ _ _ _ E2 Hf); done.
Qed.

Lemma step_inv c c' : handler_inv c -> step c c' -> handler_inv c'.
Proof.
  intros [(oob & normal & Hr & Hnd & Hset) Htasks] Hs; inversion Hs as [pool st en data s s' n Hp Ht E | m b s s' n He E | fuel sc sc' s s' n He Hsc E];
    subst; cbn [fst snd] in *.
  - unfold Run in E; destruct (pool_ (handler s) =? 0); [| done]; injection E as <-; split; cbn [fst snd].
    + exists oob, normal; split; [destruct Hr; done | split; done].
    + cbn [run_task emit set_handler trace handler task_ with_task]; rewrite runs_snoc; rewrite Ht in Htasks; cbn; lia.
  - apply (enabled_config _ _ _ _ Hr Hnd) in He; destruct (PostMessage_ok _ _ _ _ _ _ He) as (s1 & oob1 & normal1 & E1 & Hc & (P & Hps & _ & T & R) & _).
    rewrite E1 in E; injection E as <-; split; cbn [fst snd].
    + exists oob1, normal1; split; [apply Hc | split; [eapply config_messages; done |]]; rewrite T; intros Hf Hp.
      apply orb_false_iff in Hf as [_ Hf]; rewrite P in Hp; apply Z.eqb_neq in Hp; rewrite Hp in Hf; done.
    + rewrite R, T; destruct (task_ (handler s)), (pool_ (handler s) =? 0); cbn; lia.
  - destruct (task_ (handler s)) eqn:Ht; [injection Htasks as -> | done].
    apply (enabled_config _ _ _ _ Hr Hnd) in He.
    destruct (TaskCallback_ok (fuel + length (oob ++ normal ++ posts (actions sc))) sc s oob normal He ltac:(lia) Ht)
      as (sc1 & s1 & oob1 & normal1 & hs & E1 & Hc & T & R & _ & _ & _ & Hs1).
    apply (TaskCallback_fuel _ (fuel + length (oob ++ normal ++ posts (actions sc)))) in E; [| lia].
    rewrite E1 in E; injection E as <- <-; split; cbn [fst snd].
    + exists oob1, normal1; split; [apply Hc | split; [eapply config_messages; done | auto]].
    + rewrite T, R; lia.
Qed.

(** C6. No message waits without a task.  A handler never has more than one task in its
    pool, and has one exactly while [task_] is set.  When it has none although it has a
    pool, its queues are empty, up to normal messages while it is paused.  A task that
    runs ends: it takes one round for each message that is there or is posted while it
    runs.  This holds of every handler that messages are posted to and whose tasks run
    without an error. *)
Theorem no_lost_wakeup (h : heap) (s : State) (n : nat) (Hreach : reachable h (s, n)) :
  n = (if task_ (handler s) then 1%nat else 0%nat) /\
  exists oob normal, handler_rep s oob normal /\
    (pool_ (handler s) <> 0 -> task_ (handler s) = false ->
     oob = [] /\ (normal = [] \/ paused (handler s) = true \/ pause_on_start_ (handler s) = true)) /\
    (forall sc, enabled s (actions sc) -> task_ (handler s) = true ->
     exists sc' s', TaskCallback (length (oob ++ normal ++ posts (actions sc))) sc s = Ok (sc', s') /\ task_ (handler s') = false).
Proof.
  assert (handler_inv (s, n)) as [(oob & normal & Hr & Hnd & Hset) Ht].
  { induction Hreach as [| c c' _ IH Hs]; [| eapply step_inv; done]; split; [| done].
    exists [], []; split; [split; try done; apply queue_rep_nil | split; [apply NoDup_nil_2 | done]]. }
  split; [exact Ht |]; exists oob, normal; split; [exact Hr |]; split; [intros Hp Htask; apply Hset; done |].
  intros sc He Htask; apply (enabled_config _ _ _ _ Hr Hnd) in He.
  destruct (TaskCallback_ok _ sc s oob normal He (Nat.le_refl _) Htask) as (sc1 & s1 & _ & _ & _ & E & _ & T & _); eauto.
Qed.

Lemma no_lost_wakeup_witness :
  exists s n, reachable sample_messages (s, n) /\ task_ (handler s) = true /\ n = 1%nat.
Proof.
  set (s0 := mkState sample_messages new_MessageHandler []).
  assert (exists s, Run 5 0 0 0 s0 = Ok s /\ task_ (handler s) = true) as (s & E & Ht) by (eexists; split; reflexivity).
  assert (reachable sample_messages (s, 0 + (runs (trace s) - runs (trace s0)))%nat) as Hr
    by (eapply reach_step; [apply reach_new | eapply step_run; [| | exact E]; done]).
  exists s, (0 + (runs (trace s) - runs (trace s0)))%nat; split; [exact Hr |]; split; [exact Ht |].
  destruct (no_lost_wakeup _ _ _ Hr) as [Hn _]; rewrite Ht in Hn; exact Hn.
Defined.
