(* ===== verification/PortMap.v ===== *)
(** The map from port numbers to message handlers ([vm/port.h], [vm/port.cc]): what
    happens under its lock.

    The map is an open addressing table.  A free entry has port 0 and no handler, a
    deleted entry port 0 and the handler [deleted_entry_]. *)
From stdpp Require Import base numbers list gmap.
From Stdlib Require Import ZArith Lia Bool.
From S2P Require Import Prelude Random MessageQueue MessageHandler.
#[local] Open Scope Z_scope.

Definition ILLEGAL_PORT : Z := 0.

Inductive PortState : Type := kNewPort | kLivePort | kControlPort.

#[export] Instance PortState_eq_dec : EqDecision PortState.
Proof. solve_decision. Defined.

Record Entry : Type := mkEntry { entry_port : Z; entry_handler : Z; entry_state : PortState }.

Definition deleted_entry_ : Z := 1.

(** What [memset] makes of an entry. *)
Definition free_entry : Entry := mkEntry 0 0 kNewPort.

Record PortMap : Type := mkPortMap {
  map_ : list Entry;
  capacity_ : Z;
  used_ : Z;
  deleted_ : Z;
  prng_ : Random.Random
}.

Definition with_map (l : list Entry) (pm : PortMap) : PortMap :=
  mkPortMap l (capacity_ pm) (used_ pm) (deleted_ pm) (prng_ pm).
Definition with_counts (used deleted : Z) (pm : PortMap) : PortMap :=
  mkPortMap (map_ pm) (capacity_ pm) used deleted (prng_ pm).
Definition with_prng (r : Random.Random) (pm : PortMap) : PortMap :=
  mkPortMap (map_ pm) (capacity_ pm) (used_ pm) (deleted_ pm) r.

(** [map_[i]], and its assignment *)
Definition entry_at (i : Z) (l : list Entry) : outcome Entry :=
  if i <? 0 then Err (HostFault i)
  else match l !! Z.to_nat i with Some e => Ok e | None => Err (HostFault i) end.

Definition set_entry (i : Z) (e : Entry) (l : list Entry) : outcome (list Entry) :=
  let* _ := entry_at i l in Ok (<[Z.to_nat i := e]> l).

(** * Searching *)
(** The loop of [FindPort]; the assertion ends it after one round through the table. *)
Fixpoint find_loop (fuel : nat) (port start_index index : Z) (pm : PortMap) : outcome Z :=
  let* entry := entry_at index (map_ pm) in
  if negb (entry_handler entry =? 0) then
    if entry_port entry =? port then Ok index
    else
      let index := Z.rem (index + 1) (capacity_ pm) in
      ASSERT negb (index =? start_index) ;;
      match fuel with
      | O => Err OutOfFuel
      | S fuel => find_loop fuel port start_index index pm
      end
  else Ok (-1).

Definition FindPort (port : Z) (pm : PortMap) : outcome Z :=
  if port =? ILLEGAL_PORT then Ok (-1)
  else
    ASSERT negb (port =? ILLEGAL_PORT) ;;
    let index := Z.rem port (capacity_ pm) in
    find_loop (Z.to_nat (capacity_ pm)) port index index pm.

(** The loop that looks for a free or deleted entry from [index] on, in [Rehash] and in
    [CreatePort]. *)
Fixpoint unused_loop (fuel : nat) (capacity index : Z) (l : list Entry) : outcome Z :=
  let* cur := entry_at index l in
  if negb (entry_port cur =? 0) then
    match fuel with
    | O => Err OutOfFuel
    | S fuel => unused_loop fuel capacity (Z.rem (index + 1) capacity) l
    end
  else Ok index.

Fixpoint rehash_loop (old : list Entry) (new_capacity : Z) (new_ports : list Entry) : outcome (list Entry) :=
  match old with
  | [] => Ok new_ports
  | entry :: old =>
      if negb (entry_port entry =? 0) then
        let* new_index := unused_loop (Z.to_nat new_capacity) new_capacity (Z.rem (entry_port entry) new_capacity) new_ports in
        let* new_ports := set_entry new_index entry new_ports in
        rehash_loop old new_capacity new_ports
      else rehash_loop old new_capacity new_ports
  end.

Definition Rehash (new_capacity : Z) (pm : PortMap) : outcome PortMap :=
  let new_ports := replicate (Z.to_nat new_capacity) free_entry in
  let* new_ports := rehash_loop (take (Z.to_nat (capacity_ pm)) (map_ pm)) new_capacity new_ports in
  Ok (mkPortMap new_ports new_capacity (used_ pm) 0 (prng_ pm)).

Definition MaintainInvariants (pm : PortMap) : outcome PortMap :=
  let empty := capacity_ pm - used_ pm - deleted_ pm in
  if used_ pm >? Z.quot (capacity_ pm) 4 * 3 then Rehash (capacity_ pm * 2) pm
  else if empty <? deleted_ pm then Rehash (capacity_ pm) pm
  else Ok pm.

(** * Creating *)
Definition kMASK : Z := 0x3fffffff.

(** Numbers are drawn until one is legal and not in use. *)
Fixpoint AllocatePort (fuel : nat) (pm : PortMap) : outcome (Z * PortMap) :=
  let (v, r) := Random.NextUInt32 (prng_ pm) in
  let result := Z.land v kMASK in
  let pm := with_prng r pm in
  let* index := FindPort result pm in
  if (result =? 0) || (0 <=? index) then
    match fuel with
    | O => Err OutOfFuel
    | S fuel => AllocatePort fuel pm
    end
  else
    ASSERT negb (result =? 0) ;;
    ASSERT index <? 0 ;;
    Ok (result, pm).

Definition CreatePort (fuel : nat) (handler : Z) (pm : PortMap) : outcome (Z * PortMap) :=
  ASSERT negb (handler =? 0) ;;
  let* (port, pm) := AllocatePort fuel pm in
  let entry := mkEntry port handler kNewPort in
  let* found := FindPort port pm in
  ASSERT found <? 0 ;;
  let* index := unused_loop (Z.to_nat (capacity_ pm)) (capacity_ pm) (Z.rem port (capacity_ pm)) (map_ pm) in
  ASSERT (0 <=? index) && (index <? capacity_ pm) ;;
  let* cur := entry_at index (map_ pm) in
  ASSERT entry_port cur =? 0 ;;
  ASSERT (entry_handler cur =? 0) || (entry_handler cur =? deleted_entry_) ;;
  let deleted := if entry_handler cur =? deleted_entry_ then deleted_ pm - 1 else deleted_ pm in
  let* l := set_entry index entry (map_ pm) in
  let* pm := MaintainInvariants (with_map l (with_counts (used_ pm + 1) deleted pm)) in
  Ok (port, pm).

Definition InitOnce (prng : Random.Random) : PortMap :=
  let kInitialCapacity := 8 in
  mkPortMap (replicate (Z.to_nat kInitialCapacity) free_entry) kInitialCapacity 0 0 prng.

(** * Closing, in the map *)
(** The entry is marked as deleted; its handler, and whether the port was live. *)
Definition close_entry (index : Z) (pm : PortMap) : outcome (Z * bool * PortMap) :=
  let* e := entry_at index (map_ pm) in
  ASSERT negb (entry_port e =? 0) ;;
  ASSERT negb (entry_handler e =? deleted_entry_) ;;
  ASSERT negb (entry_handler e =? 0) ;;
  let* l := set_entry index (mkEntry 0 deleted_entry_ (entry_state e)) (map_ pm) in
  Ok (entry_handler e, bool_decide (entry_state e = kLivePort),
      with_map l (with_counts (used_ pm - 1) (deleted_ pm + 1) pm)).

(** The loop of [ClosePorts] over the table: the new table, the number of ports of the
    handler and how many of them were live. *)
Fixpoint close_loop (handler : Z) (l : list Entry) : list Entry * Z * Z :=
  match l with
  | [] => ([], 0, 0)
  | e :: l =>
      let '(l, n, live) := close_loop handler l in
      if entry_handler e =? handler then
        (mkEntry 0 deleted_entry_ (entry_state e) :: l, n + 1,
         if decide (entry_state e = kLivePort) then live + 1 else live)
      else (e :: l, n, live)
  end.

(** [ClosePort], the part under the lock: the handler and whether the port was live, or
    nothing if there is no such port. *)
Definition close_port (port : Z) (pm : PortMap) : outcome (option (Z * bool) * PortMap) :=
  let* index := FindPort port pm in
  if index <? 0 then Ok (None, pm)
  else
    ASSERT index <? capacity_ pm ;;
    let* (handler, live, pm) := close_entry index pm in
    let* pm := MaintainInvariants pm in
    Ok (Some (handler, live), pm).

(** [ClosePorts], the part under the lock: how many live ports the handler had. *)
Definition close_ports (handler : Z) (pm : PortMap) : outcome (Z * PortMap) :=
  let '(l, n, live) := close_loop handler (map_ pm) in
  let* pm := MaintainInvariants (with_map l (with_counts (used_ pm - n) (deleted_ pm + n) pm)) in
  Ok (live, pm).

(** [SetPortState], in the map: the handler of the port. *)
Definition set_port_state (port : Z) (state : PortState) (pm : PortMap) : outcome (Z * PortMap) :=
  let* index := FindPort port pm in
  ASSERT 0 <=? index ;;
  let* e := entry_at index (map_ pm) in
  ASSERT bool_decide (entry_state e = kNewPort) ;;
  let* l := set_entry index (mkEntry (entry_port e) (entry_handler e) state) (map_ pm) in
  Ok (entry_handler e, with_map l pm).

(** The handler of a port, if there is one. *)
Definition handler_of (port : Z) (pm : PortMap) : outcome (option Z) :=
  let* index := FindPort port pm in
  if index <? 0 then Ok None
  else let* e := entry_at index (map_ pm) in Ok (Some (entry_handler e)).
