(* ===== verification/PortMapProofs.v ===== *)
(** The port map implements a finite map from ports to handlers, and keeps free entries
    so that its searches end. *)
From stdpp Require Import base numbers list gmap.
From Stdlib Require Import ZArith Lia Bool.
From S2P Require Import Prelude Random MessageQueue MessageHandler PortMap.
#[local] Open Scope Z_scope.

(** * Tables *)
Definition slot (l : list Entry) (i : Z) : Entry := nth (Z.to_nat i) l free_entry.

Definition position (N i : Z) : Prop := 0 <= i < N.

Definition home (N port : Z) : Z := port mod N.

Definition wf_entry (e : Entry) : Prop :=
  (0 < entry_port e /\ entry_handler e <> 0 /\ entry_handler e <> deleted_entry_) \/
  (entry_port e = 0 /\ (entry_handler e = 0 \/ entry_handler e = deleted_entry_)).

Record table (N : Z) (l : list Entry) : Prop := mk_table {
  t_length : Z.of_nat (length l) = N;
  t_entry : forall i, position N i -> wf_entry (slot l i);
  (* no free entry between the home of a port and the port *)
  t_path : forall i x, position N i -> position N x -> 0 < entry_port (slot l i) ->
    dist N (home N (entry_port (slot l i))) x < dist N (home N (entry_port (slot l i))) i ->
    entry_handler (slot l x) <> 0;
  t_unique : forall i j, position N i -> position N j -> 0 < entry_port (slot l i) ->
    entry_port (slot l i) = entry_port (slot l j) -> i = j
}.

Definition contains (N : Z) (l : list Entry) (e : Entry) : Prop :=
  0 < entry_port e /\ exists i, position N i /\ slot l i = e.

Ltac dists := unfold dist, position in *; repeat case_match; rewrite ?Z.leb_le, ?Z.leb_gt in *; try lia.

Lemma ports_entry_at_slot N l i : Z.of_nat (length l) = N -> position N i -> entry_at i l = Ok (slot l i).
Proof.
  intros Hl [Hlo Hhi]; unfold entry_at, slot; rewrite (proj2 (Z.ltb_ge i 0)) by lia.
  destruct (l !! Z.to_nat i) as [e |] eqn:E; [rewrite (nth_lookup_Some _ _ _ _ E); done |].
  apply lookup_ge_None in E; lia.
Qed.

Lemma ports_slot_insert N l i j e :
  Z.of_nat (length l) = N -> position N i -> position N j -> slot (<[Z.to_nat i := e]> l) j = if Z.eq_dec i j then e else slot l j.
Proof.
  intros Hl Hi Hj; unfold slot, position in *; destruct (Z.eq_dec i j) as [<- |].
  - apply nth_lookup_Some, list_lookup_insert_eq; lia.
  - rewrite !nth_lookup, list_lookup_insert_ne by lia; done.
Qed.

Lemma ports_set_entry_ok N l i e : Z.of_nat (length l) = N -> position N i -> set_entry i e l = Ok (<[Z.to_nat i := e]> l).
Proof. intros Hl Hi; unfold set_entry; rewrite (ports_entry_at_slot N) by done; done. Qed.

Lemma ports_home_position N port : 0 < N -> position N (home N port).
Proof. intros HN; apply Z.mod_pos_bound, HN. Qed.

(** A search starts inside the table where the remainder, which has the sign of the
    port number, is not negative. *)
Lemma rem_home N port : 0 < N -> 0 <= Z.rem port N -> Z.rem port N = home N port.
Proof.
  intros HN Hr; unfold home; destruct (Z.le_gt_cases 0 port); [apply Z.rem_mod_nonneg; lia |].
  assert (Z.rem port N = 0) as E by (pose proof (Z.rem_nonpos port N ltac:(lia) ltac:(lia)); lia).
  rewrite E; symmetry; apply Z.rem_mod_eq_0; [lia | done].
Qed.

(** The position after [i]. *)
Lemma rem_next N i : position N i -> Z.rem (i + 1) N = if i + 1 =? N then 0 else i + 1.
Proof.
  intros [? ?]; rewrite Z.rem_mod_nonneg by lia; destruct (Z.eqb_spec (i + 1) N) as [-> |].
  - apply Z.mod_same; lia.
  - apply Z.mod_small; lia.
Qed.

(** One step of a search from [a] that has not reached [e0] yet. *)
Lemma search_step N a p e0 :
  position N a -> position N p -> position N e0 -> p <> e0 -> dist N a p <= dist N a e0 ->
  let n := Z.rem (p + 1) N in
  position N n /\ n <> a /\ dist N a n = dist N a p + 1 /\ dist N a n <= dist N a e0.
Proof.
  intros Ha Hp He Hne Hd n; subst n; rewrite rem_next by done.
  destruct (Z.eqb_spec (p + 1) N); split_and!; dists.
Qed.

(** * Searches *)
Definition passed (N a q : Z) (P : Z -> Prop) : Prop := forall x, position N x -> dist N a x < dist N a q -> P x.

Lemma passed_step N a p (P : Z -> Prop) :
  position N a -> position N p -> passed N a p P -> P p ->
  dist N a (Z.rem (p + 1) N) = dist N a p + 1 -> passed N a (Z.rem (p + 1) N) P.
Proof.
  intros Ha Hp Hpass HPp Hd x Hx; rewrite Hd; intros Hlt; destruct (Z.eq_dec x p) as [-> | Hne]; [done |].
  apply Hpass; [done |]; dists.
Qed.

Lemma find_loop_spec N port pm l e0 fuel p :
  map_ pm = l -> capacity_ pm = N -> table N l -> position N (home N port) -> position N e0 -> entry_handler (slot l e0) = 0 ->
  position N p -> dist N (home N port) p <= dist N (home N port) e0 ->
  dist N (home N port) e0 - dist N (home N port) p <= Z.of_nat fuel ->
  passed N (home N port) p (fun x => entry_handler (slot l x) <> 0 /\ entry_port (slot l x) <> port) ->
  port <> 0 ->
  (exists q, find_loop fuel port (home N port) p pm = Ok q /\ position N q /\ entry_port (slot l q) = port) \/
  (find_loop fuel port (home N port) p pm = Ok (-1) /\ forall i, position N i -> entry_port (slot l i) <> port).
Proof.
  intros El EN Ht Ha He He0; revert p; induction fuel as [| fuel IH]; intros p Hp Hd Hf Hpass Hport; cbn [find_loop];
    rewrite El, (ports_entry_at_slot N) by (apply Ht || done); cbn [obind]; destruct (Z.eqb_spec (entry_handler (slot l p)) 0) as [Eh | Eh]; cbn [negb].
  1, 3: (right; split; [done |]; intros i Hi Ei; destruct (Z.lt_ge_cases (dist N (home N port) i) (dist N (home N port) p)) as [Hlt | Hge];
    [apply (Hpass i Hi Hlt); done |]; destruct (Z.eq_dec i p) as [-> | Hne];
    [destruct (t_entry N l Ht p Hp) as [(_ & ? & _) | [? _]]; lia |
     destruct (t_entry N l Ht i Hi) as [(? & _) | [? _]]; [| lia]; apply (t_path N l Ht i p Hi Hp); [lia | rewrite Ei; dists | done]]).
  - exfalso; apply Eh; assert (p = e0) as -> by dists; done.
  - destruct (Z.eqb_spec (entry_port (slot l p)) port) as [Ep | Ep]; [left; exists p; done |].
    assert (p <> e0) as Hne by (intros ->; done).
    destruct (search_step N _ p e0 Ha Hp He Hne Hd) as (Hn & Hna & Hdn & Hde); rewrite EN.
    rewrite (proj2 (Z.eqb_neq _ _) Hna); cbn [negb]; apply IH; try done; [lia |].
    apply passed_step; done.
Qed.

Lemma unused_loop_spec N l a e0 fuel p :
  Z.of_nat (length l) = N -> position N a -> position N e0 -> entry_port (slot l e0) = 0 ->
  position N p -> dist N a p <= dist N a e0 -> dist N a e0 - dist N a p <= Z.of_nat fuel ->
  passed N a p (fun x => entry_port (slot l x) <> 0) ->
  exists q, unused_loop fuel N p l = Ok q /\ position N q /\ entry_port (slot l q) = 0 /\
    passed N a q (fun x => entry_port (slot l x) <> 0).
Proof.
  intros Hl Ha He He0; revert p; induction fuel as [| fuel IH]; intros p Hp Hd Hf Hpass; cbn [unused_loop];
    rewrite (ports_entry_at_slot N) by done; cbn [obind]; destruct (Z.eqb_spec (entry_port (slot l p)) 0) as [Ep | Ep]; cbn [negb].
  1, 3: exists p; done.
  - exfalso; apply Ep; assert (p = e0) as -> by dists; done.
  - assert (p <> e0) as Hne by (intros ->; done).
    destruct (search_step N _ p e0 Ha Hp He Hne Hd) as (Hn & Hna & Hdn & Hde).
    apply IH; try done; [lia | apply passed_step; done].
Qed.

(** * Counting *)
Definition count (f : Entry -> bool) (l : list Entry) : Z := Z.of_nat (length (filter (fun e => f e = true) l)).
Definition is_used (e : Entry) : bool := negb (entry_port e =? 0).
Definition is_deleted (e : Entry) : bool := entry_handler e =? deleted_entry_.

Lemma ports_count_cons f e l : count f (e :: l) = (if f e then 1 else 0) + count f l.
Proof. unfold count; rewrite filter_cons; destruct (f e); case_decide; try done; cbn [length]; lia. Qed.

Lemma ports_count_pos f l : 0 <= count f l <= Z.of_nat (length l).
Proof. unfold count; pose proof (length_filter (fun e => f e = true) l); lia. Qed.

Lemma count_insert_nat f i e l :
  (i < length l)%nat -> count f (<[i := e]> l) = count f l - (if f (nth i l free_entry) then 1 else 0) + (if f e then 1 else 0).
Proof.
  revert i; induction l as [| e' l IH]; intros [| i] Hi; cbn [length] in Hi; try lia;
    cbn [insert list_insert nth]; rewrite !ports_count_cons; [lia |].
  change (list_insert i e l) with (<[i := e]> l); rewrite IH by lia; lia.
Qed.

Lemma ports_count_insert f N l i e :
  Z.of_nat (length l) = N -> position N i ->
  count f (<[Z.to_nat i := e]> l) = count f l - (if f (slot l i) then 1 else 0) + (if f e then 1 else 0).
Proof. intros Hl [? ?]; apply count_insert_nat; lia. Qed.

Lemma wf_entries N l : table N l -> Forall wf_entry l.
Proof.
  intros Ht; apply Forall_lookup; intros i e E; pose proof (lookup_lt_Some _ _ _ E) as Hi; pose proof (t_length N l Ht).
  pose proof (t_entry N l Ht (Z.of_nat i) ltac:(unfold position; lia)) as Hw; unfold slot in Hw.
  rewrite Nat2Z.id, (nth_lookup_Some _ _ _ _ E) in Hw; done.
Qed.

Lemma free_exists_list l :
  Forall wf_entry l -> count is_used l + count is_deleted l < Z.of_nat (length l) ->
  exists i, 0 <= i < Z.of_nat (length l) /\ entry_handler (slot l i) = 0.
Proof.
  induction 1 as [| e l He _ IH]; cbn [length]; [intros Hc; exfalso; change (0 < 0) in Hc; lia |]; rewrite !ports_count_cons; intros Hc.
  destruct (Z.eq_dec (entry_handler e) 0) as [E | E]; [exists 0; split; [lia | done] |].
  destruct IH as (i & Hi & Ei).
  - assert (is_used e = true \/ is_deleted e = true) as [Eu | Ed]
      by (unfold is_used, is_deleted; destruct He as [(? & ? & ?) | (Ep & [? | Ed])]; [left | | right]; lia).
    + rewrite Eu in Hc; destruct (is_deleted e); lia.
    + rewrite Ed in Hc; destruct (is_used e); lia.
  - exists (i + 1); split; [lia |]; unfold slot; replace (Z.to_nat (i + 1)) with (S (Z.to_nat i)) by lia; done.
Qed.

Lemma free_exists N l :
  table N l -> count is_used l + count is_deleted l < N -> exists i, position N i /\ entry_handler (slot l i) = 0.
Proof.
  intros Ht Hc; destruct (free_exists_list l) as (i & Hi & E); [eapply wf_entries; done | rewrite (t_length N l Ht); done |].
  exists i; split; [rewrite <- (t_length N l Ht); done | done].
Qed.

Lemma free_unused N l i : table N l -> position N i -> entry_handler (slot l i) = 0 -> entry_port (slot l i) = 0.
Proof. intros Ht Hi E; destruct (t_entry N l Ht i Hi) as [(? & ? & ?) | [? _]]; [congruence | done]. Qed.

Lemma used_handler N l i : table N l -> position N i -> entry_port (slot l i) <> 0 -> entry_handler (slot l i) <> 0.
Proof. intros Ht Hi E; destruct (t_entry N l Ht i Hi) as [(? & ? & ?) | [? _]]; done. Qed.

(** * Updates *)
Ltac in_slot Hl Hq := rewrite ?(ports_slot_insert _ _ _ _ _ Hl Hq) in * by done.

(** A port put where the search for its place ended. *)
Lemma put_table N l q e :
  table N l -> position N q -> entry_port (slot l q) = 0 -> 0 < entry_port e -> entry_handler e <> 0 -> entry_handler e <> deleted_entry_ ->
  (forall i, position N i -> entry_port (slot l i) <> entry_port e) ->
  passed N (home N (entry_port e)) q (fun x => entry_port (slot l x) <> 0) ->
  table N (<[Z.to_nat q := e]> l).
Proof.
  intros Ht Hq Eq Hp Hh Hd Hfresh Hpass; pose proof (t_length N l Ht) as Hl.
  assert (forall x, position N x -> entry_handler (slot l x) <> 0 -> entry_handler (slot (<[Z.to_nat q := e]> l) x) <> 0) as Hnz.
  { intros x Hx Hx0; in_slot Hl Hq; destruct (Z.eq_dec q x); done. }
  split.
  - rewrite length_insert; done.
  - intros i Hi; in_slot Hl Hq; destruct (Z.eq_dec q i); [left; done | apply (t_entry N l Ht i Hi)].
  - intros i x Hi Hx; rewrite (ports_slot_insert N l q i) by done; destruct (Z.eq_dec q i) as [<- | Hne]; intros Hpi Hlt.
    + apply Hnz; [done |]; apply (used_handler N l x Ht Hx), Hpass; done.
    + apply Hnz; [done |]; apply (t_path N l Ht i x); done.
  - intros i j Hi Hj; in_slot Hl Hq; destruct (Z.eq_dec q i) as [<- | Hi'], (Z.eq_dec q j) as [<- | Hj']; intros Hpi E; try done.
    + exfalso; apply (Hfresh j Hj); done.
    + exfalso; apply (Hfresh i Hi); done.
    + apply (t_unique N l Ht); done.
Qed.

Lemma put_contains N l q e e' :
  table N l -> position N q -> entry_port (slot l q) = 0 -> 0 < entry_port e ->
  contains N (<[Z.to_nat q := e]> l) e' <-> contains N l e' \/ e' = e.
Proof.
  intros Ht Hq Eq Hp; pose proof (t_length N l Ht) as Hl; split.
  - intros (Hp' & i & Hi & E); in_slot Hl Hq; destruct (Z.eq_dec q i); [right; done | left; split; [done | exists i; done]].
  - intros [(Hp' & i & Hi & E) | ->].
    + split; [done |]; exists i; split; [done |]; in_slot Hl Hq; destruct (Z.eq_dec q i) as [-> |]; [| done].
      rewrite E in Eq; lia.
    + split; [done |]; exists q; split; [done |]; in_slot Hl Hq; destruct (Z.eq_dec q q); done.
Qed.

(** An entry that keeps its port, or loses it, and stays occupied. *)
Lemma change_table N l q e :
  table N l -> position N q -> wf_entry e -> entry_handler e <> 0 ->
  entry_port e = entry_port (slot l q) \/ entry_port e = 0 -> table N (<[Z.to_nat q := e]> l).
Proof.
  intros Ht Hq He Hh Hp; pose proof (t_length N l Ht) as Hl.
  assert (forall i, position N i -> 0 < entry_port (slot (<[Z.to_nat q := e]> l) i) ->
    entry_port (slot (<[Z.to_nat q := e]> l) i) = entry_port (slot l i)) as Hport.
  { intros i Hi; in_slot Hl Hq; destruct (Z.eq_dec q i) as [<- |]; [lia | done]. }
  split.
  - rewrite length_insert; done.
  - intros i Hi; in_slot Hl Hq; destruct (Z.eq_dec q i); [done | apply (t_entry N l Ht i Hi)].
  - intros i x Hi Hx Hpi; pose proof (Hport i Hi Hpi) as Ei; rewrite Ei in *; intros Hlt; pose proof (t_path N l Ht i x Hi Hx Hpi Hlt).
    in_slot Hl Hq; destruct (Z.eq_dec q x); done.
  - intros i j Hi Hj Hpi E; assert (0 < entry_port (slot (<[Z.to_nat q := e]> l) j)) as Hpj by lia.
    pose proof (Hport i Hi Hpi) as Ei; rewrite (Hport j Hj Hpj), Ei in E; rewrite Ei in Hpi; apply (t_unique N l Ht); done.
Qed.

Lemma change_contains N l q e e' :
  table N l -> position N q -> 0 < entry_port (slot l q) ->
  contains N (<[Z.to_nat q := e]> l) e' <->
  (contains N l e' /\ entry_port e' <> entry_port (slot l q)) \/ (e' = e /\ 0 < entry_port e).
Proof.
  intros Ht Hq Hp; pose proof (t_length N l Ht) as Hl; split.
  - intros (Hp' & i & Hi & E); in_slot Hl Hq; destruct (Z.eq_dec q i) as [-> | Hne]; [right; subst; done | left].
    split; [split; [done | exists i; done] |]; intros Eq; apply Hne; apply (t_unique N l Ht q i); try done; congruence.
  - intros [[(Hp' & i & Hi & E) Hne] | [-> He]]; (split; [done |]).
    + exists i; split; [done |]; in_slot Hl Hq; destruct (Z.eq_dec q i) as [-> |]; [congruence | done].
    + exists q; split; [done |]; in_slot Hl Hq; destruct (Z.eq_dec q q); done.
Qed.

(** * Rehashing *)
Definition valid_entry (e : Entry) : Prop :=
  0 < entry_port e /\ entry_handler e <> 0 /\ entry_handler e <> deleted_entry_.

(** The search for a place succeeds when some entry is unused. *)
Lemma put_spec N l e :
  table N l -> count is_used l + count is_deleted l < N -> valid_entry e ->
  (forall i, position N i -> entry_port (slot l i) <> entry_port e) ->
  exists q, unused_loop (Z.to_nat N) N (Z.rem (entry_port e) N) l = Ok q /\ position N q /\ entry_port (slot l q) = 0 /\
    table N (<[Z.to_nat q := e]> l).
Proof.
  intros Ht Hc (Hp & Hh & Hd) Hfresh; destruct (free_exists N l Ht Hc) as (e0 & He0 & E0).
  assert (0 < N) as HN by (unfold position in He0; lia); rewrite rem_home by (lia || (apply Z.rem_nonneg; lia)).
  pose proof (ports_home_position N (entry_port e) HN) as Ha.
  destruct (unused_loop_spec N l (home N (entry_port e)) e0 (Z.to_nat N) (home N (entry_port e))) as (q & E & Hq & Eq & Hpass);
    try done; [apply (t_length N l Ht) | apply (free_unused N l e0 Ht He0 E0) | dists | dists | intros x Hx; dists |].
  exists q; split_and!; try done; [apply Hq.. |]; apply put_table; done.
Qed.

Definition distinct (old : list Entry) : Prop :=
  forall i j e e', old !! i = Some e -> old !! j = Some e' -> 0 < entry_port e -> entry_port e = entry_port e' -> i = j.

Lemma distinct_cons e old :
  distinct (e :: old) -> distinct old /\ (0 < entry_port e -> forall e', e' ∈ old -> entry_port e' <> entry_port e).
Proof.
  intros Hd; split.
  - intros i j a b Ha Hb Hp E; specialize (Hd (S i) (S j) a b Ha Hb Hp E); lia.
  - intros Hp e' [i Hi]%list_elem_of_lookup E; specialize (Hd O (S i) e e' eq_refl Hi Hp (eq_sym E)); done.
Qed.

Lemma put_counts N l q e :
  table N l -> position N q -> entry_port (slot l q) = 0 -> valid_entry e ->
  count is_used (<[Z.to_nat q := e]> l) = count is_used l + 1 /\
  count is_deleted (<[Z.to_nat q := e]> l) = count is_deleted l - (if is_deleted (slot l q) then 1 else 0).
Proof.
  intros Ht Hq Eq (Hp & Hh & Hd); rewrite !(ports_count_insert _ N) by (apply Ht || done).
  assert (is_used (slot l q) = false) as -> by (unfold is_used; rewrite Eq; done).
  assert (is_used e = true) as -> by (unfold is_used; lia); assert (is_deleted e = false) as -> by (unfold is_deleted; lia).
  lia.
Qed.

Lemma rehash_loop_spec N old l :
  table N l -> Forall wf_entry old -> distinct old -> count is_deleted l = 0 -> count is_used l + count is_used old < N ->
  (forall e, e ∈ old -> 0 < entry_port e -> forall i, position N i -> entry_port (slot l i) <> entry_port e) ->
  exists l', rehash_loop old N l = Ok l' /\ table N l' /\ count is_deleted l' = 0 /\
    count is_used l' = count is_used l + count is_used old /\
    (forall e, contains N l' e <-> contains N l e \/ (e ∈ old /\ 0 < entry_port e)).
Proof.
  intros Ht Hold; revert l Ht; induction Hold as [| e old He _ IH]; intros l Ht Hdist Hdel Hc Hfresh; cbn [rehash_loop].
  { exists l; split_and!; try done; [change (count is_used []) with 0; lia |]; intros e; split; [auto |].
    intros [? | [Hin _]]; [done | apply not_elem_of_nil in Hin; done]. }
  apply distinct_cons in Hdist as [Hdist Hne]; rewrite ports_count_cons in Hc; fold (is_used e).
  destruct (is_used e) eqn:Eu; pose proof Eu as Eu'; unfold is_used in Eu'.
  - assert (valid_entry e) as Hv by (destruct He as [? | [? _]]; [done | lia]); pose proof (ports_count_pos is_used old) as [Hpos _].
    destruct (put_spec N l e Ht) as (q & -> & Hq & Eq & Ht'); [lia | done | apply Hfresh; [apply list_elem_of_here | apply Hv] |].
    cbn [obind]; rewrite (ports_set_entry_ok N) by (apply Ht || done); cbn [obind].
    destruct (put_counts N l q e Ht Hq Eq Hv) as [Ecu Ecd]; pose proof (ports_count_pos is_deleted (<[Z.to_nat q := e]> l)) as [Hcd _].
    destruct (IH (<[Z.to_nat q := e]> l) Ht' Hdist) as (l' & -> & Ht2 & Hd2 & Hu2 & Hc2).
    + destruct (is_deleted (slot l q)); lia.
    + lia.
    + intros e' Hin Hp i Hi; rewrite (ports_slot_insert N) by (apply Ht || done); destruct (Z.eq_dec q i).
      * intros E; apply (Hne ltac:(apply Hv) e' Hin); done.
      * apply Hfresh; [apply list_elem_of_further |..]; done.
    + exists l'; split_and!; try done; [rewrite Hu2, Ecu, ports_count_cons, Eu; lia |].
      intros e'; rewrite Hc2, (put_contains N l q e e' Ht Hq Eq) by apply Hv; rewrite elem_of_cons.
      split; [intros [[? | ->] | [? ?]]; [auto | right; split; [auto | apply Hv] | auto] | intros [? | [[-> | ?] ?]]; auto].
  - destruct (IH l Ht Hdist Hdel) as (l' & -> & Ht2 & Hd2 & Hu2 & Hc2); [lia | intros; apply Hfresh; [apply list_elem_of_further |..]; done |].
    exists l'; split_and!; try done; [rewrite Hu2, ports_count_cons, Eu; lia |].
    intros e'; rewrite Hc2, elem_of_cons; split; [intros [? | [? ?]]; auto | intros [? | [[-> | ?] ?]]; auto; lia].
Qed.

Lemma slot_replicate n i : slot (replicate n free_entry) i = free_entry.
Proof. unfold slot; generalize (Z.to_nat i); induction n as [| n IH]; intros [| k]; cbn; auto. Qed.

Lemma count_free f n : f free_entry = false -> count f (replicate n free_entry) = 0.
Proof. intros E; induction n as [| n IH]; [done |]; cbn [replicate]; rewrite ports_count_cons, E, IH; done. Qed.

Lemma empty_table N : 0 <= N -> table N (replicate (Z.to_nat N) free_entry).
Proof.
  intros HN; split; [rewrite length_replicate; lia | | |].
  - intros i _; rewrite slot_replicate; right; auto.
  - intros i x _ _; rewrite slot_replicate; cbn; lia.
  - intros i j _ _; rewrite slot_replicate; cbn; lia.
Qed.

(** * The invariant *)
Record wf_ports (pm : PortMap) : Prop := mk_wf_ports {
  wp_table : table (capacity_ pm) (map_ pm);
  wp_capacity : 8 <= capacity_ pm /\ capacity_ pm mod 4 = 0;
  wp_used : used_ pm = count is_used (map_ pm);
  wp_deleted : deleted_ pm = count is_deleted (map_ pm);
  wp_load : used_ pm <= capacity_ pm / 4 * 3;
  wp_empty : deleted_ pm <= capacity_ pm - used_ pm - deleted_ pm
}.

(** The ports with their handlers and states. *)
Definition rep (pm : PortMap) (M : gmap Z (Z * PortState)) : Prop :=
  wf_ports pm /\ forall p h s, M !! p = Some (h, s) <-> contains (capacity_ pm) (map_ pm) (mkEntry p h s).

Lemma table_distinct N l : table N l -> distinct l.
Proof.
  intros Ht i j e e' Hi Hj Hp E; pose proof (t_length N l Ht).
  pose proof (lookup_lt_Some _ _ _ Hi); pose proof (lookup_lt_Some _ _ _ Hj); apply Nat2Z.inj.
  apply (t_unique N l Ht); unfold position, slot; rewrite ?Nat2Z.id, ?(nth_lookup_Some _ _ _ _ Hi), ?(nth_lookup_Some _ _ _ _ Hj); try lia; done.
Qed.

Lemma elem_contains N l e : table N l -> (e ∈ l /\ 0 < entry_port e <-> contains N l e).
Proof.
  intros Ht; pose proof (t_length N l Ht) as Hl; unfold contains; split.
  - intros [[i Hi]%list_elem_of_lookup Hp]; split; [done |]; pose proof (lookup_lt_Some _ _ _ Hi).
    exists (Z.of_nat i); unfold position, slot; rewrite Nat2Z.id, (nth_lookup_Some _ _ _ _ Hi); split; [lia | done].
  - intros (Hp & i & Hi & <-); split; [| done]; unfold slot, position in *; apply list_elem_of_In, nth_In; lia.
Qed.

(** Rehashing keeps the ports and drops the deleted entries. *)
Lemma Rehash_spec N pm :
  table (capacity_ pm) (map_ pm) -> count is_used (map_ pm) < N ->
  exists l', Rehash N pm = Ok (mkPortMap l' N (used_ pm) 0 (prng_ pm)) /\ table N l' /\ count is_deleted l' = 0 /\
    count is_used l' = count is_used (map_ pm) /\ (forall e, contains N l' e <-> contains (capacity_ pm) (map_ pm) e).
Proof.
  intros Ht Hc; unfold Rehash; pose proof (t_length _ _ Ht) as Hl; rewrite take_ge by lia; pose proof (ports_count_pos is_used (map_ pm)) as [Hpos _].
  destruct (rehash_loop_spec N (map_ pm) (replicate (Z.to_nat N) free_entry)) as (l' & -> & Ht' & Hd & Hu & Hcon);
    [apply empty_table; lia | eapply wf_entries; done | eapply table_distinct; done | apply count_free; done |
     rewrite count_free by done; lia | intros e _ Hp i _; rewrite slot_replicate; cbn; lia |].
  cbn [obind]; exists l'; split_and!; try done; [rewrite Hu, count_free by done; lia |].
  intros e; rewrite Hcon, (elem_contains (capacity_ pm)) by done; split; [| auto].
  intros [(Hp & i & _ & E) | ?]; [| done]; rewrite slot_replicate in E; subst e; cbn in Hp; lia.
Qed.

Lemma MaintainInvariants_spec pm :
  table (capacity_ pm) (map_ pm) -> 8 <= capacity_ pm -> capacity_ pm mod 4 = 0 ->
  used_ pm = count is_used (map_ pm) -> deleted_ pm = count is_deleted (map_ pm) -> used_ pm < capacity_ pm ->
  exists pm', MaintainInvariants pm = Ok pm' /\ wf_ports pm' /\ prng_ pm' = prng_ pm /\
    (forall e, contains (capacity_ pm') (map_ pm') e <-> contains (capacity_ pm) (map_ pm) e).
Proof.
  intros Ht Hcap Hmod Hu Hd Hlt; unfold MaintainInvariants; rewrite Z.quot_div_nonneg by lia.
  pose proof (ports_count_pos is_used (map_ pm)) as [Hpos _].
  destruct (Z.gtb_spec (used_ pm) (capacity_ pm / 4 * 3)) as [Hgt | Hle].
  - destruct (Rehash_spec (capacity_ pm * 2) pm Ht ltac:(lia)) as (l' & -> & Ht' & Hd' & Hu' & Hc').
    eexists; split; [done |]; split; [| done]; split; cbn; try done; [Z.div_mod_to_equations; lia | congruence | Z.div_mod_to_equations; lia | lia].
  - destruct (Z.ltb_spec (capacity_ pm - used_ pm - deleted_ pm) (deleted_ pm)).
    + destruct (Rehash_spec (capacity_ pm) pm Ht ltac:(lia)) as (l' & -> & Ht' & Hd' & Hu' & Hc').
      eexists; split; [done |]; split; [| done]; split; cbn; try done; [congruence | lia].
    + exists pm; split; [done |]; split; [| done]; split; done.
Qed.

Lemma wf_room pm : wf_ports pm -> count is_used (map_ pm) + count is_deleted (map_ pm) < capacity_ pm.
Proof. intros [Ht [Hc Hm] Hu Hd Hl He]; rewrite <- Hu, <- Hd; pose proof (ports_count_pos is_deleted (map_ pm)); Z.div_mod_to_equations; lia. Qed.

(** * The operations *)
(** The table is read before its first entry. *)
Lemma FindPort_negative port pm :
  Z.rem port (capacity_ pm) < 0 -> FindPort port pm = Err (HostFault (Z.rem port (capacity_ pm))).
Proof.
  intros Hr; unfold FindPort, ILLEGAL_PORT; rewrite (proj2 (Z.eqb_neq port 0)) by (intros ->; destruct (capacity_ pm); vm_compute in Hr; discriminate Hr).
  cbn [negb]; destruct (Z.to_nat (capacity_ pm)); cbn [find_loop]; unfold entry_at;
    rewrite (proj2 (Z.ltb_lt _ _) Hr); done.
Qed.

Lemma rem_inside pm M p : rep pm M -> 0 <= p -> 0 <= Z.rem p (capacity_ pm).
Proof. intros [Hwf _] Hp; destruct (wp_capacity pm Hwf); apply Z.rem_nonneg; lia. Qed.

Lemma rep_port pm M p x : rep pm M -> M !! p = Some x -> 0 < p.
Proof. destruct x; intros [_ HM] E; apply HM in E as [E _]; exact E. Qed.

Lemma FindPort_spec pm M p :
  rep pm M -> 0 <= Z.rem p (capacity_ pm) ->
  (exists i h s, FindPort p pm = Ok i /\ position (capacity_ pm) i /\ slot (map_ pm) i = mkEntry p h s /\ 0 < p /\ M !! p = Some (h, s)) \/
  (FindPort p pm = Ok (-1) /\ M !! p = None /\ forall i, position (capacity_ pm) i -> 0 < p -> entry_port (slot (map_ pm) i) <> p).
Proof.
  intros [Hwf HM] Hp; unfold FindPort, ILLEGAL_PORT; destruct (Z.eqb_spec p 0) as [-> | Hp0].
  { right; split; [done |]; split; [| lia]; destruct (M !! 0) as [[h s] |] eqn:E; [| done].
    apply HM in E as [E _]; cbn in E; lia. }
  cbn [negb]; pose proof (wp_table pm Hwf) as Ht; destruct (wp_capacity pm Hwf) as [Hcap _].
  destruct (free_exists _ _ Ht (wf_room pm Hwf)) as (e0 & He0 & E0); rewrite rem_home by lia.
  pose proof (ports_home_position (capacity_ pm) p ltac:(lia)) as Ha.
  destruct (find_loop_spec (capacity_ pm) p pm (map_ pm) e0 (Z.to_nat (capacity_ pm)) (home (capacity_ pm) p))
    as [(i & -> & Hi & Ei) | [-> Hnone]]; try done; try (dists; fail); [intros x Hx; dists | left | right].
  - destruct (slot (map_ pm) i) as [p' h s] eqn:Es; cbn in Ei; subst p'.
    assert (0 < p) by (destruct (t_entry _ _ Ht i Hi) as [(Hv & _) | [Hv _]]; rewrite Es in Hv; cbn in Hv; lia).
    exists i, h, s; split_and!; try done; [apply Hi.. |].
    apply HM; split; [cbn; lia | exists i; done].
  - split_and!; [done | | auto]; destruct (M !! p) as [[h s] |] eqn:E; [| done].
    apply HM in E as (_ & i & Hi & Es); exfalso; apply (Hnone i Hi); rewrite Es; done.
Qed.

(** A number that is legal and not in use, among the next [S fuel] draws. *)
Fixpoint draws_fresh (fuel : nat) (M : gmap Z (Z * PortState)) (r : Random.Random) : Prop :=
  let (v, r) := Random.NextUInt32 r in
  let p := Z.land v kMASK in
  (p <> 0 /\ M !! p = None) \/ match fuel with O => False | S fuel => draws_fresh fuel M r end.

Lemma kMASK_range v : 0 <= Z.land v kMASK <= kMASK.
Proof.
  unfold kMASK; change (Z.land v 0x3fffffff) with (Z.land v (Z.ones 30)); rewrite Z.land_ones by lia.
  pose proof (Z.mod_pos_bound v (2 ^ 30) eq_refl); lia.
Qed.

Lemma rep_prng pm M r : rep pm M -> rep (with_prng r pm) M.
Proof. intros [[? ? ? ? ? ?] ?]; split; [split |]; done. Qed.

Lemma AllocatePort_spec fuel pm M :
  rep pm M -> draws_fresh fuel M (prng_ pm) ->
  exists p r, AllocatePort fuel pm = Ok (p, with_prng r pm) /\ 0 < p <= kMASK /\ M !! p = None.
Proof.
  revert pm; induction fuel as [| fuel IH]; intros pm Hrep Hd; cbn [AllocatePort]; cbn [draws_fresh] in Hd;
    destruct (Random.NextUInt32 (prng_ pm)) as [v r]; set (p := Z.land v kMASK) in *; pose proof (kMASK_range v) as Hp; fold p in Hp.
  all: destruct (FindPort_spec (with_prng r pm) M p) as [(i & h & s & -> & [Hi _] & _ & Hp0 & EM) | (-> & EM & _)];
    [apply rep_prng; done | apply (rem_inside _ M); [apply rep_prng; done | lia] | |]; cbn [obind].
  all: try (rewrite (proj2 (Z.eqb_neq p 0)), (proj2 (Z.leb_le _ _) Hi) by lia; cbn [orb]).
  - destruct Hd as [[_ ?] | []]; congruence.
  - destruct Hd as [[Hne _] | []]; rewrite (proj2 (Z.eqb_neq p 0) Hne); cbn; exists p, r; split_and!; try done; lia.
  - destruct Hd as [[_ ?] | Hd]; [congruence |].
    destruct (IH (with_prng r pm)) as (p' & r' & -> & H); [apply rep_prng; done | done |]; exists p', r'; done.
  - destruct (Z.eqb_spec p 0) as [E0 | Hne]; cbn; [| exists p, r; split_and!; try done; lia].
    destruct Hd as [[? _] | Hd]; [done |].
    destruct (IH (with_prng r pm)) as (p' & r' & -> & H); [apply rep_prng; done | done |]; exists p', r'; done.
Qed.

Lemma rep_maintain pm M M' :
  (exists pm', MaintainInvariants pm = Ok pm' /\ wf_ports pm' /\ prng_ pm' = prng_ pm /\
    (forall e, contains (capacity_ pm') (map_ pm') e <-> contains (capacity_ pm) (map_ pm) e)) ->
  (forall p h s, M' !! p = Some (h, s) <-> contains (capacity_ pm) (map_ pm) (mkEntry p h s)) ->
  M = M' -> exists pm', MaintainInvariants pm = Ok pm' /\ rep pm' M.
Proof. intros (pm' & E & Hwf & _ & Hc) HM ->; exists pm'; split; [done |]; split; [done |]; intros; rewrite HM, Hc; done. Qed.

Lemma CreatePort_spec fuel handler pm M :
  rep pm M -> handler <> 0 -> handler <> deleted_entry_ -> draws_fresh fuel M (prng_ pm) ->
  exists p pm', CreatePort fuel handler pm = Ok (p, pm') /\ 0 < p <= kMASK /\ M !! p = None /\
    rep pm' (<[p := (handler, kNewPort)]> M).
Proof.
  intros Hrep Hh0 Hh1 Hd; unfold CreatePort; rewrite (proj2 (Z.eqb_neq handler 0) Hh0); cbn [negb].
  destruct (AllocatePort_spec fuel pm M Hrep Hd) as (p & r & -> & Hp & EM); cbn [obind].
  apply (rep_prng _ _ r) in Hrep; set (pm1 := with_prng r pm) in *; clearbody pm1; clear Hd pm.
  destruct (FindPort_spec pm1 M p Hrep (rem_inside _ _ p Hrep ltac:(lia))) as [(? & ? & ? & _ & _ & _ & _ & E) | (-> & _ & Hfresh)]; [congruence |].
  cbn [obind Z.ltb Z.compare]; pose proof Hrep as [Hwf HM]; pose proof (wp_table _ Hwf) as Ht; pose proof (wf_room _ Hwf) as Hroom.
  destruct (put_spec (capacity_ pm1) (map_ pm1) (mkEntry p handler kNewPort)) as (q & Eq & Hq & Ep & Ht'); try done;
    [split_and!; cbn; (done || lia) | intros i Hi; apply Hfresh; [done | lia] |].
  cbn [entry_port] in Eq; rewrite Eq; cbn [obind]; destruct Hq as [Hq1 Hq2].
  rewrite (proj2 (Z.leb_le _ _) Hq1), (proj2 (Z.ltb_lt _ _) Hq2); cbn [andb].
  rewrite (ports_entry_at_slot (capacity_ pm1)) by (apply Ht || done); cbn [obind]; rewrite Ep, Z.eqb_refl.
  assert ((entry_handler (slot (map_ pm1) q) =? 0) || (entry_handler (slot (map_ pm1) q) =? deleted_entry_) = true) as ->
    by (destruct (t_entry _ _ Ht q (conj Hq1 Hq2)) as [(? & _) | (_ & [-> | ->])]; [lia | done | done]).
  rewrite (ports_set_entry_ok (capacity_ pm1)) by (apply Ht || done); cbn [obind].
  destruct (put_counts _ _ q (mkEntry p handler kNewPort) Ht (conj Hq1 Hq2) Ep) as [Ecu Ecd]; [split_and!; cbn; (done || lia) |].
  set (pm2 := with_map _ _).
  destruct (rep_maintain pm2 (<[p := (handler, kNewPort)]> M) (<[p := (handler, kNewPort)]> M)) as (pm' & -> & Hrep').
  - pose proof (ports_count_pos is_deleted (map_ pm1)).
    apply MaintainInvariants_spec; subst pm2; cbn; try apply (wp_capacity _ Hwf); try done.
    + rewrite Ecu, (wp_used _ Hwf); done.
    + rewrite Ecd, (wp_deleted _ Hwf); unfold is_deleted; destruct (_ =? _); lia.
    + pose proof (wp_load _ Hwf); destruct (wp_capacity _ Hwf); Z.div_mod_to_equations; lia.
  - intros p' h s; subst pm2; cbn [capacity_ map_ with_map with_counts].
    rewrite (put_contains _ _ q _ _ Ht (conj Hq1 Hq2) Ep) by (cbn; lia); rewrite <- HM, lookup_insert_Some.
    split; [intros [[-> [= -> ->]] | [? ?]]; auto | intros [? | [= -> -> ->]]; [right; split; [congruence | done] | auto]].
  - done.
  - cbn [obind]; exists p, pm'; split_and!; try done; lia.
Qed.

Lemma close_port_spec port pm M :
  rep pm M -> 0 <= Z.rem port (capacity_ pm) ->
  exists pm', close_port port pm = Ok ((fun hs => (hs.1, bool_decide (hs.2 = kLivePort))) <$> M !! port, pm') /\
    rep pm' (delete port M).
Proof.
  intros Hrep Hp; unfold close_port.
  destruct (FindPort_spec pm M port Hrep Hp) as [(i & h & s & -> & [Hi1 Hi2] & Es & Hp0 & EM) | (-> & EM & _)]; cbn [obind].
  2: { exists pm; rewrite EM, delete_id by done; done. }
  destruct Hrep as [Hwf HM]; pose proof (wp_table _ Hwf) as Ht.
  rewrite (proj2 (Z.ltb_ge _ _) Hi1), (proj2 (Z.ltb_lt _ _) Hi2); unfold close_entry.
  rewrite (ports_entry_at_slot (capacity_ pm)) by (apply Ht || done); cbn [obind]; rewrite Es; cbn [entry_port entry_handler entry_state].
  assert (valid_entry (mkEntry port h s)) as (_ & Hh0 & Hh1)
    by (destruct (t_entry _ _ Ht i (conj Hi1 Hi2)) as [Hv | [Hv _]]; rewrite Es in Hv; [done | cbn in Hv; lia]).
  cbn [entry_handler] in Hh0, Hh1.
  rewrite (proj2 (Z.eqb_neq port 0)), (proj2 (Z.eqb_neq h deleted_entry_)), (proj2 (Z.eqb_neq h 0)) by (done || lia); cbn [negb].
  rewrite (ports_set_entry_ok (capacity_ pm)) by (apply Ht || done); cbn [obind]; set (e' := mkEntry 0 deleted_entry_ s).
  destruct (rep_maintain (with_map (<[Z.to_nat i := e']> (map_ pm)) (with_counts (used_ pm - 1) (deleted_ pm + 1) pm)) (delete port M) (delete port M))
    as (pm' & -> & Hrep'); [| | done | cbn [obind]; exists pm'; rewrite EM; done].
  - apply MaintainInvariants_spec; cbn; try apply (wp_capacity _ Hwf).
    + apply change_table; [done | done | right; auto | done | right; done].
    + rewrite (ports_count_insert _ (capacity_ pm)), Es by (apply Ht || done); rewrite (wp_used _ Hwf); unfold is_used at 3 4; cbn.
      rewrite (proj2 (Z.eqb_neq port 0)) by lia; cbn; lia.
    + rewrite (ports_count_insert _ (capacity_ pm)), Es by (apply Ht || done); rewrite (wp_deleted _ Hwf); unfold is_deleted at 3 4; cbn.
      rewrite (proj2 (Z.eqb_neq h deleted_entry_)) by done; cbn; lia.
    + pose proof (wp_load _ Hwf); destruct (wp_capacity _ Hwf); Z.div_mod_to_equations; lia.
  - intros p' h' s'; cbn [capacity_ map_ with_map with_counts].
    rewrite (change_contains _ _ i _ _ Ht) by (done || rewrite Es; cbn; lia); rewrite <- HM, Es, lookup_delete_Some; cbn [entry_port e'].
    split; [intros [? ?]; left; auto | intros [[? ?] | [_ ?]]; [auto | lia]].
Qed.

Lemma set_port_state_spec port state pm M h :
  rep pm M -> M !! port = Some (h, kNewPort) ->
  exists pm', set_port_state port state pm = Ok (h, pm') /\ rep pm' (<[port := (h, state)]> M).
Proof.
  intros Hrep EM; unfold set_port_state; pose proof (rep_port _ _ _ _ Hrep EM) as Hp.
  destruct (FindPort_spec pm M port Hrep (rem_inside _ _ port Hrep ltac:(lia))) as [(i & h' & s & -> & [Hi1 Hi2] & Es & Hp0 & EM') | (_ & EM' & _)]; [| congruence].
  rewrite EM in EM'; injection EM' as <- <-; destruct Hrep as [Hwf HM]; pose proof (wp_table _ Hwf) as Ht; cbn [obind].
  rewrite (proj2 (Z.leb_le _ _) Hi1), (ports_entry_at_slot (capacity_ pm)) by (apply Ht || done); cbn [obind]; rewrite Es; cbn.
  rewrite (ports_set_entry_ok (capacity_ pm)) by (apply Ht || done); cbn [obind]; eexists; split; [done |].
  assert (valid_entry (mkEntry port h kNewPort)) as (_ & Hh0 & Hh1)
    by (destruct (t_entry _ _ Ht i (conj Hi1 Hi2)) as [Hv | [Hv _]]; rewrite Es in Hv; [done | cbn in Hv; lia]).
  cbn [entry_handler] in Hh0, Hh1.
  split; [split; cbn; [| apply (wp_capacity _ Hwf) | | | apply (wp_load _ Hwf) | apply (wp_empty _ Hwf)] |].
  - apply change_table; [done | done | left; done | done | left; rewrite Es; done].
  - rewrite (ports_count_insert _ (capacity_ pm)), Es by (apply Ht || done); rewrite (wp_used _ Hwf); unfold is_used at 3 4; cbn; lia.
  - rewrite (ports_count_insert _ (capacity_ pm)), Es by (apply Ht || done); rewrite (wp_deleted _ Hwf); unfold is_deleted at 3 4; cbn; lia.
  - intros p' h' s'; cbn [capacity_ map_ with_map].
    rewrite (change_contains _ _ i _ _ Ht) by (done || rewrite Es; cbn; lia); rewrite <- HM, Es, lookup_insert_Some; cbn [entry_port].
    split; [intros [[<- [= <- <-]] | [? ?]]; auto | intros [[? ?] | [[= -> -> ->] _]]; auto].
Qed.

(** [ClosePorts] marks every entry of the handler. *)
Definition closed (handler : Z) (e : Entry) : Entry :=
  if entry_handler e =? handler then mkEntry 0 deleted_entry_ (entry_state e) else e.

Lemma close_loop_spec handler l l' n live :
  handler <> 0 -> handler <> deleted_entry_ -> Forall wf_entry l -> close_loop handler l = (l', n, live) ->
  l' = map (closed handler) l /\ count is_used l' = count is_used l - n /\ count is_deleted l' = count is_deleted l + n.
Proof.
  intros Hh0 Hh1 Hl; revert l' n live; induction Hl as [| e l He _ IH]; cbn [close_loop map]; intros l' n live; [intros [= <- <- <-]; done |].
  destruct (close_loop handler l) as [[l1 n1] live1]; destruct (IH _ _ _ eq_refl) as (E1 & E2 & E3); unfold closed at 1.
  destruct (Z.eqb_spec (entry_handler e) handler) as [Eh | Eh]; intros [= <- <- <-]; (split; [congruence |]); rewrite !ports_count_cons, E2, E3; [| lia].
  assert (is_used e = true) as -> by (unfold is_used; destruct He as [(? & _) | (_ & [? | ?])]; lia).
  assert (is_deleted e = false) as -> by (unfold is_deleted; lia); cbn; lia.
Qed.

Lemma slot_closed handler l i : handler <> 0 -> slot (map (closed handler) l) i = closed handler (slot l i).
Proof.
  intros Hh; unfold slot; rewrite <- (map_nth (closed handler)); f_equal; unfold closed, free_entry; cbn [entry_handler].
  rewrite (proj2 (Z.eqb_neq 0 handler)) by congruence; done.
Qed.

Lemma closed_table N handler l : handler <> 0 -> table N l -> table N (map (closed handler) l).
Proof.
  intros Hh Ht; split.
  - rewrite length_map; apply (t_length N l Ht).
  - intros i Hi; rewrite slot_closed by done; unfold closed; case_match; [right; auto | apply (t_entry N l Ht i Hi)].
  - intros i x Hi Hx; rewrite !slot_closed by done; unfold closed at 1 2 3; case_match; cbn; [lia |]; intros Hp Hlt.
    unfold closed; case_match; [done |]; apply (t_path N l Ht i x); done.
  - intros i j Hi Hj; rewrite !slot_closed by done; unfold closed; repeat case_match; cbn; try lia; apply (t_unique N l Ht); done.
Qed.

Lemma close_ports_spec handler pm M :
  rep pm M -> handler <> 0 -> handler <> deleted_entry_ ->
  exists live pm', close_ports handler pm = Ok (live, pm') /\ rep pm' (filter (fun x => x.2.1 <> handler) M).
Proof.
  intros [Hwf HM] Hh0 Hh1; pose proof (wp_table _ Hwf) as Ht; unfold close_ports.
  destruct (close_loop handler (map_ pm)) as [[l' n] live] eqn:E.
  apply close_loop_spec in E as (-> & Eu & Ed); [| done | done | eapply wf_entries; done].
  edestruct (rep_maintain (with_map (map (closed handler) (map_ pm)) (with_counts (used_ pm - n) (deleted_ pm + n) pm))
    (filter (fun x => x.2.1 <> handler) M)) as (pm' & -> & Hrep'); [| | reflexivity | cbn [obind]; eauto].
  - apply MaintainInvariants_spec; cbn; try apply (wp_capacity _ Hwf).
    + apply closed_table; done.
    + rewrite Eu, (wp_used _ Hwf); done.
    + rewrite Ed, (wp_deleted _ Hwf); done.
    + pose proof (ports_count_pos is_deleted (map (closed handler) (map_ pm))) as [H1 _].
      pose proof (wf_room _ Hwf); rewrite (wp_used _ Hwf); lia.
  - intros p h s; rewrite map_lookup_filter_Some, HM; cbn [capacity_ map_ with_map with_counts fst snd]; split.
    + intros [(Hp & i & Hi & Es) Hne]; split; [done |]; exists i; split; [done |]; rewrite slot_closed, Es by done.
      unfold closed; cbn; rewrite (proj2 (Z.eqb_neq h handler) Hne); done.
    + intros (Hp & i & Hi & Es); rewrite slot_closed in Es by done; unfold closed in Es; case_match eqn:Eh.
      * subst; cbn in *; injection Es as <- <- <-; cbn in Hp; lia.
      * split; [split; [done | exists i; done] |]; rewrite Es in Eh; cbn in Eh; lia.
Qed.

(** C9. The port map implements a finite map from ports to handlers.  A new map is
    empty.  A search ends and finds exactly the ports of the map, for every port number
    whose remainder by the capacity is not negative, so for every number that is not
    negative; for the other, negative numbers the search and the closing of the port
    read the table before its first entry.  A new port is legal, was not in use and
    belongs to its handler; the change of the state of a new port, a closed port and
    the closed ports of a handler change exactly their entries.  No operation fails an
    assertion, and each keeps the invariant: at most three quarters of the table are in
    use and the free entries are at least as many as the deleted ones, which is what
    ends the searches.  Drawing a new port number ends as soon as the generator delivers
    one that is free. *)
Theorem PortMap_refines (pm : PortMap) (M : gmap Z (Z * PortState)) (Hrep : rep pm M) :
  (forall prng, rep (InitOnce prng) ∅) /\
  (forall port, handler_of port pm =
    if Z.rem port (capacity_ pm) <? 0 then Err (HostFault (Z.rem port (capacity_ pm)))
    else Ok (fst <$> M !! port)) /\
  (forall fuel handler, handler <> 0 -> handler <> deleted_entry_ -> draws_fresh fuel M (prng_ pm) ->
    exists p pm', CreatePort fuel handler pm = Ok (p, pm') /\ 0 < p <= kMASK /\ M !! p = None /\
      rep pm' (<[p := (handler, kNewPort)]> M)) /\
  (forall port state h, M !! port = Some (h, kNewPort) ->
    exists pm', set_port_state port state pm = Ok (h, pm') /\ rep pm' (<[port := (h, state)]> M)) /\
  (forall port, if Z.rem port (capacity_ pm) <? 0
    then close_port port pm = Err (HostFault (Z.rem port (capacity_ pm)))
    else exists pm', close_port port pm = Ok ((fun hs => (hs.1, bool_decide (hs.2 = kLivePort))) <$> M !! port, pm') /\
      rep pm' (delete port M)) /\
  (forall handler, handler <> 0 -> handler <> deleted_entry_ ->
    exists live pm', close_ports handler pm = Ok (live, pm') /\ rep pm' (filter (fun x => x.2.1 <> handler) M)) /\
  used_ pm <= capacity_ pm / 4 * 3 /\ deleted_ pm <= capacity_ pm - used_ pm - deleted_ pm.
Proof.
  split; [| split; [| split; [| split; [| split; [| split]]]]].
  - intros prng; split; [split; cbn; try done; apply (empty_table 8); lia |].
    intros p h s; rewrite lookup_empty; split; [done |]; intros (Hp & i & _ & E).
    cbn [map_ InitOnce] in E; rewrite slot_replicate in E; injection E as <- <- <-; cbn in Hp; lia.
  - intros port; unfold handler_of; destruct (Z.ltb_spec (Z.rem port (capacity_ pm)) 0) as [Hp | Hp].
    { rewrite FindPort_negative by done; done. }
    destruct (FindPort_spec pm M port Hrep Hp) as [(i & h & s & -> & [Hi1 Hi2] & Es & _ & EM) | (-> & EM & _)]; cbn [obind]; rewrite EM; [| done].
    rewrite (proj2 (Z.ltb_ge _ _) Hi1), (ports_entry_at_slot (capacity_ pm)) by (apply (t_length _ _ (wp_table _ (proj1 Hrep))) || done); cbn [obind]; rewrite Es; done.
  - intros; apply CreatePort_spec; done.
  - intros; apply set_port_state_spec; done.
  - intros port; destruct (Z.ltb_spec (Z.rem port (capacity_ pm)) 0); [| apply close_port_spec; done].
    unfold close_port; rewrite FindPort_negative by done; done.
  - intros; apply close_ports_spec; done.
  - destruct Hrep as [Hwf _]; split; [apply (wp_load _ Hwf) | apply (wp_empty _ Hwf)].
Qed.

(** The map with one live port, as it is after its creation. *)
Definition sample_prng : Random.Random := Random.mkRandom 42.

Lemma PortMap_refines_witness :
  exists p pm, CreatePort 3 16 (InitOnce sample_prng) = Ok (p, pm) /\ handler_of p pm = Ok (Some 16) /\
    exists pm', close_port p pm = Ok (Some (16, false), pm') /\ handler_of p pm' = Ok None.
Proof.
  assert (rep (InitOnce sample_prng) ∅) as Hr0.
  { split; [split; cbn; try done; apply (empty_table 8); lia |].
    intros p h s; rewrite lookup_empty; split; [done |]; intros (Hp & i & _ & E).
    cbn [map_ InitOnce] in E; rewrite slot_replicate in E; injection E as <- <- <-; cbn in Hp; lia. }
  destruct (PortMap_refines _ _ Hr0) as (_ & _ & Hcreate & _).
  destruct (Hcreate 3%nat 16 ltac:(done) ltac:(done)) as (p & pm & E & Hp & _ & Hr1); [left; split; vm_compute; done |].
  exists p, pm; split; [done |]; destruct (PortMap_refines _ _ Hr1) as (_ & Hof & _ & _ & Hclose & _); split.
  - rewrite Hof, (proj2 (Z.ltb_ge _ _) (rem_inside _ _ p Hr1 ltac:(lia))), lookup_insert_eq by lia; done.
  - specialize (Hclose p); rewrite (proj2 (Z.ltb_ge _ _) (rem_inside _ _ p Hr1 ltac:(lia))) in Hclose.
    destruct Hclose as (pm' & E' & Hr2); rewrite lookup_insert_eq in E'; exists pm'; split; [done |].
    destruct (PortMap_refines _ _ Hr2) as (_ & Hof2 & _); rewrite Hof2.
    rewrite (proj2 (Z.ltb_ge _ _) (rem_inside _ _ p Hr2 ltac:(lia))), lookup_delete_eq; done.
Defined.
