(* ===== verification/Messaging.v ===== *)
(** Ports, handlers and message queues together: the operations of [vm/port.cc] that
    call handlers, [MessageQueue::Clear] ([vm/message.cc]) and the destructor of message
    handlers ([vm/message_handler.cc]). *)
From stdpp Require Import base numbers list gmap.
From Stdlib Require Import ZArith Lia Bool.
From S2P Require Import Prelude Random MessageQueue MessageHandler PortMap.
#[local] Open Scope Z_scope.

(** The messages, the handlers by their addresses, the port map, and what the handlers
    asked of others. *)
Record VM : Type := mkVM {
  memory : heap;
  handlers : gmap Z MessageHandler;
  ports : PortMap;
  log : list (Z * event)
}.

Definition with_memory (h : heap) (vm : VM) : VM := mkVM h (handlers vm) (ports vm) (log vm).
Definition with_handlers (hs : gmap Z MessageHandler) (vm : VM) : VM := mkVM (memory vm) hs (ports vm) (log vm).
Definition with_ports (pm : PortMap) (vm : VM) : VM := mkVM (memory vm) (handlers vm) pm (log vm).

(** An operation of one handler. *)
Definition on_handler (id : Z) (f : State -> outcome State) (vm : VM) : outcome VM :=
  match handlers vm !! id with
  | None => Err (HostFault id)
  | Some H =>
      let* s := f (mkState (memory vm) H []) in
      Ok (mkVM (mem s) (<[id := handler s]> (handlers vm)) (ports vm) (log vm ++ map (fun e => (id, e)) (trace s)))
  end.

(** [delete message] *)
Definition delete_message (p : Z) (h : heap) : outcome heap :=
  let* m := deref p h in
  ASSERT delivery_failure_port_ m =? kIllegalPort ;;
  Ok (delete p h).

(** [PortMap::PostMessage] *)
Definition PostMessage (message : Z) (vm : VM) : outcome (bool * VM) :=
  let* m := deref message (memory vm) in
  let* index := FindPort (dest_port_ m) (ports vm) in
  if index <? 0 then
    let* h := delete_message message (memory vm) in
    Ok (false, with_memory h vm)
  else
    ASSERT (0 <=? index) && (index <? capacity_ (ports vm)) ;;
    let* e := entry_at index (map_ (ports vm)) in
    ASSERT negb (entry_port e =? 0) ;;
    ASSERT negb (entry_handler e =? 0) && negb (entry_handler e =? deleted_entry_) ;;
    let* vm := on_handler (entry_handler e) (MessageHandler.PostMessage message false) vm in
    Ok (true, vm).

(** The loop of [MessageQueue::Clear] *)
Fixpoint clear_loop (fuel : nat) (cur : Z) (vm : VM) : outcome VM :=
  if negb (cur =? 0) then
    match fuel with
    | O => Err OutOfFuel
    | S fuel =>
        let* m := deref cur (memory vm) in
        let next := next_ m in
        let* (redirected, h) := RedirectToDeliveryFailurePort cur (memory vm) in
        let vm := with_memory h vm in
        if redirected : bool then
          let* (_, vm) := PostMessage cur vm in
          clear_loop fuel next vm
        else
          let* h := delete_message cur (memory vm) in
          clear_loop fuel next (with_memory h vm)
    end
  else Ok vm.

(** [queue_->Clear()] and [oob_queue_->Clear()] of a handler *)
Definition ClearQueue (id : Z) (vm : VM) : outcome VM :=
  match handlers vm !! id with
  | None => Err (HostFault id)
  | Some H =>
      clear_loop (size (memory vm)) (head_ (queue_ H)) (with_handlers (<[id := with_queue new_MessageQueue H]> (handlers vm)) vm)
  end.

Definition ClearOOBQueue (id : Z) (vm : VM) : outcome VM :=
  match handlers vm !! id with
  | None => Err (HostFault id)
  | Some H =>
      clear_loop (size (memory vm)) (head_ (oob_queue_ H)) (with_handlers (<[id := with_oob_queue new_MessageQueue H]> (handlers vm)) vm)
  end.

Definition CloseAllPorts (id : Z) (vm : VM) : outcome VM :=
  let* vm := ClearQueue id vm in
  ClearOOBQueue id vm.

(** [~MessageHandler]: the destructors of the queues clear them. *)
Definition delete_handler (id : Z) (vm : VM) : outcome VM :=
  let* vm := ClearQueue id vm in
  let* vm := ClearOOBQueue id vm in
  match handlers vm !! id with
  | None => Err (HostFault id)
  | Some H =>
      ASSERT IsEmpty (queue_ H) && IsEmpty (oob_queue_ H) ;;
      Ok (with_handlers (delete id (handlers vm)) vm)
  end.

Definition SetPortState (port : Z) (state : PortState) (vm : VM) : outcome VM :=
  let* (handler, pm) := set_port_state port state (ports vm) in
  let vm := with_ports pm vm in
  match state with
  | kLivePort => on_handler handler (fun s => Ok (increment_live_ports s)) vm
  | _ => Ok vm
  end.

Section ClosePort.
(** Whether a handler is owned by the port map, a virtual function of handlers. *)
Context (OwnedByPortMap : Z -> bool).

Definition ClosePort (port : Z) (vm : VM) : outcome (bool * VM) :=
  let* (closed, pm) := close_port port (ports vm) in
  match closed with
  | None => Ok (false, vm)
  | Some (handler, live) =>
      let vm := with_ports pm vm in
      let* vm := (if live : bool then on_handler handler (fun s => Ok (decrement_live_ports s)) vm else Ok vm) in
      match handlers vm !! handler with
      | None => Err (HostFault handler)
      | Some H =>
          if negb (HasLivePorts H) && OwnedByPortMap handler then
            let* vm := delete_handler handler vm in
            Ok (true, vm)
          else Ok (true, vm)
      end
  end.
End ClosePort.

Definition ClosePorts (handler : Z) (vm : VM) : outcome VM :=
  let* (live, pm) := close_ports handler (ports vm) in
  let* vm := on_handler handler (fun s => Ok (set_handler (fun H => with_live_ports (live_ports_ H - live) H) s)) (with_ports pm vm) in
  CloseAllPorts handler vm.

(** Questions about the handler of a port, which virtual functions of it answer. *)
Definition IsLocalPort (IsCurrentIsolate : Z -> bool) (id : Z) (vm : VM) : outcome bool :=
  let* h := handler_of id (ports vm) in
  Ok match h with None => false | Some h => IsCurrentIsolate h end.

Definition GetIsolate (isolate : Z -> Z) (id : Z) (vm : VM) : outcome Z :=
  let* h := handler_of id (ports vm) in
  Ok match h with None => 0 | Some h => isolate h end.
