(* ===== verification/MessagingProofs.v ===== *)
(** A message posted to an open port reaches the handler of the port; clearing a queue
    frees its messages, but fails on a message that is to be returned to its sender. *)
From stdpp Require Import base numbers list gmap.
From Stdlib Require Import ZArith Lia Bool.
From S2P Require Import Prelude Random MessageQueue MessageQueueProofs MessageHandler MessageHandlerProofs PortMap PortMapProofs Messaging.
#[local] Open Scope Z_scope.

(** * Handlers, ports and messages *)
(** [M] are the ports, [Q] the messages of the handlers: the out-of-band ones and the
    normal ones. *)
Record vm_rep (vm : VM) (M : gmap Z (Z * PortState)) (Q : gmap Z (list Z * list Z)) : Prop := mk_vm_rep {
  vr_ports : rep (ports vm) M;
  vr_open : forall p h s, M !! p = Some (h, s) -> is_Some (handlers vm !! h);
  vr_handlers : forall id, is_Some (handlers vm !! id) <-> is_Some (Q !! id);
  vr_queues : forall id H oob normal, handlers vm !! id = Some H -> Q !! id = Some (oob, normal) ->
    handler_rep (mkState (memory vm) H []) oob normal /\ NoDup (oob ++ normal);
  vr_disjoint : forall id1 id2 oob1 normal1 oob2 normal2 m, id1 <> id2 ->
    Q !! id1 = Some (oob1, normal1) -> Q !! id2 = Some (oob2, normal2) -> m ∈ oob1 ++ normal1 -> m ∉ oob2 ++ normal2
}.

(** A message in no queue. *)
Definition unqueued (Q : gmap Z (list Z * list Z)) (m : Z) : Prop :=
  forall id oob normal, Q !! id = Some (oob, normal) -> m ∉ oob ++ normal.

Lemma placed_elem h m b oob normal oob' normal' x :
  (oob', normal') = placed h m b oob normal -> x ∈ oob' ++ normal' -> x = m \/ x ∈ oob ++ normal.
Proof.
  unfold placed; case_match; intros [= -> ->]; rewrite !elem_of_app, enqueued_perm, elem_of_cons; tauto.
Qed.

(** The queues of a handler do not depend on the messages of others. *)
Lemma handler_rep_frame h h' H t t' oob normal :
  (forall m, m ∈ oob ++ normal -> h' !! m = h !! m) ->
  handler_rep (mkState h H t) oob normal -> handler_rep (mkState h' H t') oob normal.
Proof.
  intros Hf [Ho Hq Hop Hqp]; split; cbn [mem handler] in *.
  - apply (queue_rep_frame h); [intros m Hm; apply Hf, elem_of_app; auto | done].
  - apply (queue_rep_frame h); [intros m Hm; apply Hf, elem_of_app; auto | done].
  - rewrite Forall_forall in *; intros m Hm; unfold prio; rewrite Hf by (apply elem_of_app; auto); apply Hop, Hm.
  - rewrite Forall_forall in *; intros m Hm; unfold prio; rewrite Hf by (apply elem_of_app; auto); apply Hqp, Hm.
Qed.

Lemma handler_rep_trace s t oob normal : handler_rep s oob normal -> handler_rep (mkState (mem s) (handler s) t) oob normal.
Proof. intros [? ? ? ?]; split; done. Qed.

(** The message goes into the queues of one handler; those of the others stay. *)
Lemma vm_rep_post vm M Q id H oob normal m b s' oob' normal' lg :
  vm_rep vm M Q -> handlers vm !! id = Some H -> Q !! id = Some (oob, normal) -> unqueued Q m ->
  handler_rep s' oob' normal' -> NoDup (oob' ++ normal') -> (oob', normal') = placed (memory vm) m b oob normal ->
  (forall y, y ∉ m :: oob ++ normal -> mem s' !! y = memory vm !! y) ->
  vm_rep (mkVM (mem s') (<[id := handler s']> (handlers vm)) (ports vm) lg) M (<[id := (oob', normal')]> Q).
Proof.
  intros [Hp Hopen Hh Hq Hd] EH EQ Hun Hr Hnd Hpl Hf; split; cbn [handlers ports memory].
  - done.
  - intros p h s E; destruct (decide (id = h)) as [<- |]; [rewrite lookup_insert_eq; done | rewrite lookup_insert_ne by done; eauto].
  - intros x; destruct (decide (id = x)) as [<- |]; [rewrite !lookup_insert_eq; done | rewrite !lookup_insert_ne by done; apply Hh].
  - intros x H' o n; destruct (decide (id = x)) as [<- | Hne].
    + rewrite !lookup_insert_eq; intros [= <-] [= <- <-]; split; [apply handler_rep_trace, Hr | done].
    + rewrite !lookup_insert_ne by done; intros E1 E2; destruct (Hq x H' o n E1 E2) as [Hr' Hnd']; split; [| done].
      apply (handler_rep_frame (memory vm) _ _ []); [| done]; intros y Hy; apply Hf; rewrite elem_of_cons.
      intros [-> | Hy']; [apply (Hun _ _ _ E2 Hy) | apply (Hd x id _ _ _ _ y ltac:(congruence) E2 EQ Hy Hy')].
  - intros x1 x2 o1 n1 o2 n2 y Hne; destruct (decide (id = x1)) as [<- |], (decide (id = x2)) as [<- |]; try congruence.
    + rewrite lookup_insert_eq, lookup_insert_ne by done; intros [= <- <-] E2 Hy Hy'.
      destruct (placed_elem _ _ _ _ _ _ _ _ Hpl Hy) as [-> | Hy2]; [apply (Hun _ _ _ E2 Hy') | apply (Hd id x2 _ _ _ _ y Hne EQ E2); done].
    + rewrite lookup_insert_ne, lookup_insert_eq by done; intros E1 [= <- <-] Hy Hy'.
      destruct (placed_elem _ _ _ _ _ _ _ _ Hpl Hy') as [-> | Hy2]; [apply (Hun _ _ _ E1 Hy) | apply (Hd x1 id _ _ _ _ y Hne E1 EQ); done].
    + rewrite !lookup_insert_ne by done; apply Hd, Hne.
Qed.

(** A message in no queue may be deleted. *)
Lemma vm_rep_delete vm M Q m : vm_rep vm M Q -> unqueued Q m -> vm_rep (with_memory (delete m (memory vm)) vm) M Q.
Proof.
  intros [Hp Hopen Hh Hq Hd] Hun; split; try done; cbn [handlers memory with_memory].
  intros x H o n E1 E2; destruct (Hq x H o n E1 E2) as [Hr Hnd]; split; [| done].
  apply (handler_rep_frame (memory vm) _ _ []); [| done]; intros y Hy; apply lookup_delete_ne; intros ->; apply (Hun _ _ _ E2 Hy).
Qed.

Lemma FindPort_entry vm M p :
  rep (ports vm) M -> 0 <= Z.rem p (capacity_ (ports vm)) ->
  match M !! p with
  | Some (h, s) => exists i, FindPort p (ports vm) = Ok i /\ 0 <= i < capacity_ (ports vm) /\
      entry_at i (map_ (ports vm)) = Ok (mkEntry p h s) /\ p <> 0 /\ h <> 0 /\ h <> deleted_entry_
  | None => FindPort p (ports vm) = Ok (-1)
  end.
Proof.
  intros Hrep Hp; destruct (FindPort_spec _ M p Hrep Hp) as [(i & h & s & E & Hi & Es & Hp0 & ->) | (E & -> & _)]; [| done].
  destruct Hrep as [Hwf _]; pose proof (wp_table _ Hwf) as Ht; exists i; rewrite (ports_entry_at_slot (capacity_ (ports vm))) by (apply Ht || done).
  rewrite Es; destruct (t_entry _ _ Ht i Hi) as [(_ & H0 & H1) | [H0 _]]; rewrite Es in *; cbn in *; [| lia]; split_and!; try done; lia || apply Hi.
Qed.


(** A port map with one port, and a virtual machine with its handler. *)
Lemma sample_ports : exists p pm, rep pm {[p := (16, kNewPort)]} /\ 0 < p <= kMASK.
Proof.
  assert (rep (InitOnce sample_prng) ∅) as Hr0.
  { split; [split; cbn; try done; apply (empty_table 8); lia |].
    intros p h s; rewrite lookup_empty; split; [done |]; intros (Hp & i & _ & E).
    cbn [map_ InitOnce] in E; rewrite slot_replicate in E; injection E as <- <- <-; cbn in Hp; lia. }
  destruct (CreatePort_spec 3 16 _ _ Hr0 ltac:(done) ltac:(done)) as (p & pm & E & Hp & _ & Hr); [left; split; vm_compute; done |].
  exists p, pm; split; [rewrite insert_empty in Hr; done | done].
Qed.

Definition sample_vm (p : Z) (pm : PortMap) : VM :=
  mkVM {[32 := mkMessage 0 p 0 [1] kNormalPriority]} {[16 := new_MessageHandler]} pm [].

Lemma sample_vm_rep p pm : rep pm {[p := (16, kNewPort)]} -> vm_rep (sample_vm p pm) {[p := (16, kNewPort)]} {[16 := ([], [])]}.
Proof.
  intros Hr; split; cbn; try done.
  - intros p' h s; rewrite lookup_singleton_Some; intros [_ [= <- <-]]; rewrite lookup_singleton_eq; done.
  - intros id; destruct (decide (id = 16)) as [-> |]; [rewrite !lookup_singleton_eq; split; eauto |].
    rewrite !lookup_singleton_ne by done; done.
  - intros id H oob normal; rewrite !lookup_singleton_Some; intros [<- <-] [_ [= <- <-]].
    split; [split; cbn; try apply queue_rep_nil; done | apply NoDup_nil_2].
  - intros id1 id2 o1 n1 o2 n2 m Hne; rewrite !lookup_singleton_Some; intros [<- _] [<- _]; done.
Qed.


(** * Clearing *)
(** Messages that are not to be returned are deleted. *)
Lemma clear_loop_ok fuel cur ms vm :
  lseg (memory vm) cur ms 0 -> NoDup ms -> (length ms <= fuel)%nat ->
  (forall m msg, m ∈ ms -> memory vm !! m = Some msg -> delivery_failure_port_ msg = kIllegalPort) ->
  clear_loop fuel cur vm = Ok (with_memory (foldr delete (memory vm) (reverse ms)) vm).
Proof.
  revert fuel cur vm; induction ms as [| m ms IH]; intros fuel cur vm Hl Hnd Hf Hdf.
  { cbn in Hl; subst cur; destruct fuel; destruct vm; done. }
  destruct Hl as (-> & Hm & msg & Em & Hl); destruct fuel as [| fuel]; cbn [length] in Hf; [lia |].
  apply NoDup_cons in Hnd as [Hnin Hnd]; pose proof (Hdf m msg ltac:(apply list_elem_of_here) Em) as Hm0.
  cbn [clear_loop]; rewrite (proj2 (Z.eqb_neq m 0) Hm); cbn [negb]; unfold deref; rewrite Em; cbn [obind].
  unfold RedirectToDeliveryFailurePort, deref; rewrite Em; cbn [obind]; rewrite Hm0; cbn [Z.eqb kIllegalPort obind].
  unfold delete_message, deref; cbn [memory with_memory]; rewrite Em; cbn [obind]; rewrite Hm0; cbn [Z.eqb kIllegalPort obind].
  rewrite IH; cbn [memory with_memory]; [| | done | lia |].
  - rewrite reverse_cons, foldr_app; done.
  - clear -Hl Hnin; revert Hl; generalize (next_ msg); induction ms as [| x ms IH]; intros p Hl; [done |].
    destruct Hl as (-> & Hx & xm & Ex & Hl); apply not_elem_of_cons in Hnin as [Hne Hnin]; cbn; split_and!; [done | done |].
    exists xm; rewrite lookup_delete_ne by done; split; [done | apply IH; done].
  - intros x xm Hx Ex; rewrite lookup_delete_ne in Ex by (intros ->; done); apply (Hdf x); [apply list_elem_of_further, Hx | done].
Qed.

(** [Clear] frees a queue whose messages need not be returned.  But a message with a
    delivery failure port that is open is posted to that port with its link still set:
    unless it is the last of the queue the assertion of [Enqueue] that a message is not
    reused fails. *)
Theorem Clear_redirect_fails (vm : VM) (M : gmap Z (Z * PortState)) (id : Z) (H : MessageHandler) (ms : list Z)
  (EH : handlers vm !! id = Some H) (Hq : queue_rep (memory vm) (queue_ H) ms) (Hrep : rep (ports vm) M) :
  ((forall m msg, m ∈ ms -> memory vm !! m = Some msg -> delivery_failure_port_ msg = kIllegalPort) ->
    ClearQueue id vm = Ok (mkVM (foldr delete (memory vm) (reverse ms)) (<[id := with_queue new_MessageQueue H]> (handlers vm)) (ports vm) (log vm))) /\
  (forall m n rest msg p h s H', ms = m :: n :: rest -> memory vm !! m = Some msg -> delivery_failure_port_ msg = p ->
    0 < p -> M !! p = Some (h, s) -> handlers vm !! h = Some H' -> ClearQueue id vm = Err AssertionFailed).
Proof.
  pose proof Hq as [Hl Hnd _]; pose proof (lseg_length _ _ _ _ Hnd Hl) as Hlen; unfold ClearQueue; rewrite EH; split.
  - intros Hdf; rewrite (clear_loop_ok _ _ ms); done.
  - intros m n rest msg p h s H' -> Em Ep Hp EM EH'; destruct Hl as (-> & Hm & msg' & Em' & (En & Hn & _)).
    rewrite Em in Em'; injection Em' as <-; destruct (size (memory vm)) as [| fuel]; cbn [length] in Hlen; [lia |].
    cbn [clear_loop]; rewrite (proj2 (Z.eqb_neq m 0) Hm); cbn [negb]; unfold deref; cbn [memory with_handlers]; rewrite Em; cbn [obind].
    unfold RedirectToDeliveryFailurePort, deref; rewrite Em; cbn [obind]; rewrite Ep.
    rewrite (proj2 (Z.eqb_neq p kIllegalPort)) by (unfold kIllegalPort; lia); cbn [obind].
    pose proof (FindPort_entry vm M p Hrep (rem_inside _ _ p Hrep ltac:(lia))) as Hfind; rewrite EM in Hfind; destruct Hfind as (i & Ei & [Hi1 Hi2] & Ee & Hp0 & Hh0 & Hh1).
    unfold Messaging.PostMessage, deref; cbn [memory with_memory with_handlers ports]; rewrite lookup_insert_eq; cbn [obind dest_port_].
    rewrite Ei; cbn [obind].
    rewrite (proj2 (Z.ltb_ge _ _) Hi1), (proj2 (Z.leb_le _ _) Hi1), (proj2 (Z.ltb_lt _ _) Hi2); cbn [andb].
    rewrite Ee; cbn [obind entry_port entry_handler].
    rewrite (proj2 (Z.eqb_neq _ _) Hp0), (proj2 (Z.eqb_neq _ _) Hh0), (proj2 (Z.eqb_neq _ _) Hh1); cbn [negb andb].
    unfold on_handler; cbn [handlers with_memory with_handlers].
    assert (exists H2, <[id := with_queue new_MessageQueue H]> (handlers vm) !! h = Some H2) as [H2 ->]
      by (destruct (decide (id = h)) as [<- |]; [rewrite lookup_insert_eq; eauto | rewrite lookup_insert_ne by done; eauto]).
    unfold MessageHandler.PostMessage, deref; cbn [mem memory with_memory]; rewrite lookup_insert_eq; cbn [obind].
    unfold Enqueue, deref; rewrite lookup_insert_eq; cbn [obind next_]; rewrite En, (proj2 (Z.eqb_neq n 0) Hn).
    unfold IsOOB; cbn; destruct (priority_ msg); done.
Qed.

(** Two messages wait, the first is to be returned through the port [p]. *)
Definition returned_vm (p : Z) (pm : PortMap) : VM :=
  mkVM (<[32 := mkMessage 48 9 p [1] kNormalPriority]> {[48 := mkMessage 0 9 0 [2] kNormalPriority]})
    {[16 := with_queue (mkQueue 32 48) new_MessageHandler]} pm [].

Lemma Clear_redirect_fails_witness : exists p pm, ClearQueue 16 (returned_vm p pm) = Err AssertionFailed.
Proof.
  destruct sample_ports as (p & pm & Hr & Hp); exists p, pm.
  assert (queue_rep (memory (returned_vm p pm)) (mkQueue 32 48) [32; 48]) as Hq.
  { split; [| apply (bool_decide_unpack _), I | done].
    split_and!; [done | done |]; eexists; split; [reflexivity |]; split_and!; [done | done |]; eexists; split; reflexivity. }
  pose proof (Clear_redirect_fails (returned_vm p pm) {[p := (16, kNewPort)]} 16 _ [32; 48] (lookup_singleton_eq 16 _) Hq Hr) as [_ Hfail].
  eapply (Hfail 32 48 [] _ p 16 kNewPort); [done | reflexivity | reflexivity | lia | apply lookup_singleton_eq | apply lookup_singleton_eq].
Defined.
