(* ===== verification/MipsConstants.v ===== *)
(** The MIPS constants and the instruction fields of [vm/constants_mips.h].

    The enumerations are C++ [enum]s, that is integers: [static_cast] makes a
    value of the type of any bit pattern, so the registers, opcodes and
    functions are [Z]s and their names the constants below.  An instruction is
    its 32 bits, an [int32_t]. *)
From stdpp Require Import base numbers list.
From Stdlib Require Import ZArith Lia Bool.
From S2P Require Import Prelude.
#[local] Open Scope Z_scope.

(** CPU registers ([enum Register]) *)
Definition R0 : Z := 0.
Definition R1 : Z := 1.
Definition kFirstFreeCpuRegister : Z := 2.
Definition R2 : Z := 2.
Definition R3 : Z := 3.
Definition R4 : Z := 4.
Definition R5 : Z := 5.
Definition R6 : Z := 6.
Definition R7 : Z := 7.
Definition R8 : Z := 8.
Definition R9 : Z := 9.
Definition R10 : Z := 10.
Definition R11 : Z := 11.
Definition R12 : Z := 12.
Definition R13 : Z := 13.
Definition R14 : Z := 14.
Definition R15 : Z := 15.
Definition R16 : Z := 16.
Definition R17 : Z := 17.
Definition R18 : Z := 18.
Definition R19 : Z := 19.
Definition R20 : Z := 20.
Definition R21 : Z := 21.
Definition kLastFreeCpuRegister : Z := 21.
Definition R22 : Z := 22.
Definition R23 : Z := 23.
Definition R24 : Z := 24.
Definition R25 : Z := 25.
Definition R26 : Z := 26.
Definition R27 : Z := 27.
Definition R28 : Z := 28.
Definition R29 : Z := 29.
Definition R30 : Z := 30.
Definition R31 : Z := 31.
Definition kNumberOfCpuRegisters : Z := 32.
Definition IMM : Z := 32.
Definition kNoRegister : Z := -1.
Definition ZR : Z := R0.
Definition AT : Z := R1.
Definition V0 : Z := R2.
Definition V1 : Z := R3.
Definition A0 : Z := R4.
Definition A1 : Z := R5.
Definition A2 : Z := R6.
Definition A3 : Z := R7.
Definition T0 : Z := R8.
Definition T1 : Z := R9.
Definition T2 : Z := R10.
Definition T3 : Z := R11.
Definition T4 : Z := R12.
Definition T5 : Z := R13.
Definition T6 : Z := R14.
Definition T7 : Z := R15.
Definition S0 : Z := R16.
Definition S1 : Z := R17.
Definition S2 : Z := R18.
Definition S3 : Z := R19.
Definition S4 : Z := R20.
Definition S5 : Z := R21.
Definition S6 : Z := R22.
Definition S7 : Z := R23.
Definition T8 : Z := R24.
Definition T9 : Z := R25.
Definition K0 : Z := R26.
Definition K1 : Z := R27.
Definition GP : Z := R28.
Definition SP : Z := R29.
Definition FP : Z := R30.
Definition RA : Z := R31.

(** Floating point registers ([enum FRegister]) *)
Definition F0 : Z := 0.
Definition F1 : Z := 1.
Definition F2 : Z := 2.
Definition F3 : Z := 3.
Definition F4 : Z := 4.
Definition F5 : Z := 5.
Definition F6 : Z := 6.
Definition F7 : Z := 7.
Definition F8 : Z := 8.
Definition F9 : Z := 9.
Definition F10 : Z := 10.
Definition F11 : Z := 11.
Definition F12 : Z := 12.
Definition F13 : Z := 13.
Definition F14 : Z := 14.
Definition F15 : Z := 15.
Definition F16 : Z := 16.
Definition F17 : Z := 17.
Definition F18 : Z := 18.
Definition F19 : Z := 19.
Definition F20 : Z := 20.
Definition F21 : Z := 21.
Definition F22 : Z := 22.
Definition F23 : Z := 23.
Definition F24 : Z := 24.
Definition F25 : Z := 25.
Definition F26 : Z := 26.
Definition F27 : Z := 27.
Definition F28 : Z := 28.
Definition F29 : Z := 29.
Definition F30 : Z := 30.
Definition F31 : Z := 31.
Definition kNumberOfFRegisters : Z := 32.
Definition kNoFRegister : Z := -1.

(** Double registers ([enum DRegister]) *)
Definition D0 : Z := 0.
Definition D1 : Z := 1.
Definition D2 : Z := 2.
Definition D3 : Z := 3.
Definition D4 : Z := 4.
Definition D5 : Z := 5.
Definition D6 : Z := 6.
Definition D7 : Z := 7.
Definition D8 : Z := 8.
Definition D9 : Z := 9.
Definition D10 : Z := 10.
Definition D11 : Z := 11.
Definition D12 : Z := 12.
Definition D13 : Z := 13.
Definition D14 : Z := 14.
Definition D15 : Z := 15.
Definition kNumberOfDRegisters : Z := 16.
Definition kNoDRegister : Z := -1.
Definition DTMP : Z := D9.
Definition STMP1 : Z := F18.
Definition STMP2 : Z := F19.
Definition FpuTMP : Z := DTMP.
Definition kNoFpuRegister : Z := kNoDRegister.
Definition TMP : Z := AT.
Definition TMP2 : Z := kNoRegister.
Definition CTX : Z := S6.
Definition PP : Z := S7.
Definition SPREG : Z := SP.
Definition FPREG : Z := FP.
Definition LRREG : Z := RA.
Definition ICREG : Z := S5.
Definition ARGS_DESC_REG : Z := S4.
Definition CMPRES1 : Z := T8.
Definition CMPRES2 : Z := T9.
Definition kExceptionObjectReg : Z := V0.
Definition kStackTraceObjectReg : Z := V1.
Definition kAbiFirstPreservedFpuReg : Z := F20.
Definition kDartFirstVolatileCpuReg : Z := R2.
Definition kDartLastVolatileCpuReg : Z := R15.
Definition kDartFirstVolatileFpuReg : Z := F0.
Definition kDartLastVolatileFpuReg : Z := F19.

(** Instruction fields ([enum InstructionFields]) *)
Definition kOpcodeShift : Z := 26.
Definition kOpcodeBits : Z := 6.
Definition kRsShift : Z := 21.
Definition kRsBits : Z := 5.
Definition kFmtShift : Z := 21.
Definition kFmtBits : Z := 5.
Definition kRtShift : Z := 16.
Definition kRtBits : Z := 5.
Definition kFtShift : Z := 16.
Definition kFtBits : Z := 5.
Definition kRdShift : Z := 11.
Definition kRdBits : Z := 5.
Definition kFsShift : Z := 11.
Definition kFsBits : Z := 5.
Definition kSaShift : Z := 6.
Definition kSaBits : Z := 5.
Definition kFdShift : Z := 6.
Definition kFdBits : Z := 5.
Definition kFunctionShift : Z := 0.
Definition kFunctionBits : Z := 6.
Definition kCop1FnShift : Z := 0.
Definition kCop1FnBits : Z := 6.
Definition kCop1SubShift : Z := 21.
Definition kCop1SubBits : Z := 5.
Definition kImmShift : Z := 0.
Definition kImmBits : Z := 16.
Definition kInstrShift : Z := 0.
Definition kInstrBits : Z := 26.
Definition kBreakCodeShift : Z := 6.
Definition kBreakCodeBits : Z := 20.
Definition kFpuCCShift : Z := 8.
Definition kFpuCCBits : Z := 3.
Definition kBranchOffsetMask : Z := 0x0000ffff.

(** [enum Opcode] *)
Definition SPECIAL : Z := 0.
Definition REGIMM : Z := 1.
Definition J : Z := 2.
Definition JAL : Z := 3.
Definition BEQ : Z := 4.
Definition BNE : Z := 5.
Definition BLEZ : Z := 6.
Definition BGTZ : Z := 7.
Definition ADDI : Z := 8.
Definition ADDIU : Z := 9.
Definition SLTI : Z := 10.
Definition SLTIU : Z := 11.
Definition ANDI : Z := 12.
Definition ORI : Z := 13.
Definition XORI : Z := 14.
Definition LUI : Z := 15.
Definition CPO0 : Z := 16.
Definition COP1 : Z := 17.
Definition COP2 : Z := 18.
Definition COP1X : Z := 19.
Definition BEQL : Z := 20.
Definition BNEL : Z := 21.
Definition BLEZL : Z := 22.
Definition BGTZL : Z := 23.
Definition SPECIAL2 : Z := 28.
Definition JALX : Z := 29.
Definition SPECIAL3 : Z := 31.
Definition LB : Z := 32.
Definition LH : Z := 33.
Definition LWL : Z := 34.
Definition LW : Z := 35.
Definition LBU : Z := 36.
Definition LHU : Z := 37.
Definition LWR : Z := 38.
Definition SB : Z := 40.
Definition SH : Z := 41.
Definition SWL : Z := 42.
Definition SW : Z := 43.
Definition SWR : Z := 46.
Definition CACHE : Z := 47.
Definition LL : Z := 48.
Definition LWC1 : Z := 49.
Definition LWC2 : Z := 50.
Definition PREF : Z := 51.
Definition LDC1 : Z := 53.
Definition LDC2 : Z := 54.
Definition SC : Z := 56.
Definition SWC1 : Z := 57.
Definition SWC2 : Z := 58.
Definition SDC1 : Z := 61.
Definition SDC2 : Z := 62.

(** [enum SpecialFunction] *)
Definition SLL : Z := 0.
Definition MOVCI : Z := 1.
Definition SRL : Z := 2.
Definition SRA : Z := 3.
Definition SLLV : Z := 4.
Definition SRLV : Z := 6.
Definition SRAV : Z := 7.
Definition JR : Z := 8.
Definition JALR : Z := 9.
Definition MOVZ : Z := 10.
Definition MOVN : Z := 11.
Definition SYSCALL : Z := 12.
Definition BREAK : Z := 13.
Definition SYNC : Z := 15.
Definition MFHI : Z := 16.
Definition MTHI : Z := 17.
Definition MFLO : Z := 18.
Definition MTLO : Z := 19.
Definition MULT : Z := 24.
Definition MULTU : Z := 25.
Definition DIV : Z := 26.
Definition DIVU : Z := 27.
Definition ADD : Z := 32.
Definition ADDU : Z := 33.
Definition SUB : Z := 34.
Definition SUBU : Z := 35.
Definition AND : Z := 36.
Definition OR : Z := 37.
Definition XOR : Z := 38.
Definition NOR : Z := 39.
Definition SLT : Z := 42.
Definition SLTU : Z := 43.
Definition TGE : Z := 48.
Definition TGEU : Z := 49.
Definition TLT : Z := 50.
Definition TLTU : Z := 51.
Definition TEQ : Z := 52.
Definition TNE : Z := 54.
Definition MADD : Z := 0.
Definition MADDU : Z := 1.
Definition CLZ : Z := 32.
Definition CLO : Z := 33.

(** [enum RtRegImm] *)
Definition BLTZ : Z := 0.
Definition BGEZ : Z := 1.
Definition BLTZL : Z := 2.
Definition BGEZL : Z := 3.
Definition TGEI : Z := 8.
Definition TGEIU : Z := 9.
Definition TLTI : Z := 10.
Definition TLTIU : Z := 11.
Definition TEQI : Z := 12.
Definition TNEI : Z := 14.
Definition BLTZAL : Z := 16.
Definition BGEZAL : Z := 17.
Definition BLTZALL : Z := 18.
Definition BGEZALL : Z := 19.
Definition SYNCI : Z := 31.

(** [enum Cop1Function] *)
Definition COP1_ADD : Z := 0x00.
Definition COP1_SUB : Z := 0x01.
Definition COP1_MUL : Z := 0x02.
Definition COP1_DIV : Z := 0x03.
Definition COP1_SQRT : Z := 0x04.
Definition COP1_MOV : Z := 0x06.
Definition COP1_CVT_S : Z := 0x20.
Definition COP1_CVT_D : Z := 0x21.
Definition COP1_CVT_W : Z := 0x24.
Definition COP1_C_F : Z := 0x30.
Definition COP1_C_UN : Z := 0x31.
Definition COP1_C_EQ : Z := 0x32.
Definition COP1_C_UEQ : Z := 0x33.
Definition COP1_C_OLT : Z := 0x34.
Definition COP1_C_ULT : Z := 0x35.
Definition COP1_C_OLE : Z := 0x36.
Definition COP1_C_ULE : Z := 0x37.

(** [enum Cop1Sub] *)
Definition COP1_MF : Z := 0.
Definition COP1_MT : Z := 4.
Definition COP1_BC : Z := 8.

(** [enum Format] *)
Definition FMT_S : Z := 16.
Definition FMT_D : Z := 17.
Definition FMT_W : Z := 20.
Definition FMT_L : Z := 21.
Definition FMT_PS : Z := 22.

Definition EvenFRegisterOf (d : Z) : Z := d * 2.
Definition OddFRegisterOf (d : Z) : Z := d * 2 + 1.

(** The relation of a [Condition]: there is no status register on MIPS. *)
Inductive RelationOperator : Type :=
| AL | NV | EQ | NE | GT | GE | LT | LE | UGT | UGE | ULT | ULE.

#[export] Instance RelationOperator_eq_dec : EqDecision RelationOperator.
Proof. solve_decision. Defined.

(** * Instructions ([class Instr]) *)
Module Instr.

Definition kInstrSize : Z := 4.
Definition kNopInstruction : Z := 0.

(** Reserved break codes. *)
Definition kBreakPointCode : Z := 0xdeb0.
Definition kStopMessageCode : Z := 0xdeb1.
Definition kSimulatorBreakCode : Z := 0xdeb2.
Definition kSimulatorRedirectCode : Z := 0xca11.

Definition kBreakPointZeroInstruction : Z :=
  Z.lor (Z.shiftl SPECIAL kOpcodeShift) (Z.shiftl BREAK kFunctionShift).
Definition kBreakPointInstruction : Z :=
  Z.lor kBreakPointZeroInstruction (Z.shiftl kBreakPointCode kBreakCodeShift).
Definition kSimulatorBreakpointInstruction : Z :=
  Z.lor kBreakPointZeroInstruction (Z.shiftl kSimulatorBreakCode kBreakCodeShift).
Definition kSimulatorRedirectInstruction : Z :=
  Z.lor kBreakPointZeroInstruction (Z.shiftl kSimulatorRedirectCode kBreakCodeShift).

(** The bits [SetImmInstrBits] and [SetSpecialInstrBits] store. *)
Definition SetImmInstrBits (op rs rt imm : Z) : Z :=
  int32 (Z.lor (Z.lor (Z.lor (Z.shiftl op kOpcodeShift) (Z.shiftl rs kRsShift))
                      (Z.shiftl rt kRtShift))
               (Z.shiftl imm kImmShift)).

Definition SetSpecialInstrBits (f rs rt rd : Z) : Z :=
  int32 (Z.lor (Z.lor (Z.lor (Z.lor (Z.shiftl SPECIAL kOpcodeShift)
                                    (Z.shiftl f kFunctionShift))
                             (Z.shiftl rs kRsShift))
                      (Z.shiftl rt kRtShift))
               (Z.shiftl rd kRdShift)).

(** Read one bit and a bit field. *)
Definition Bit (instr nr : Z) : Z := Z.land (Z.shiftr instr nr) 1.
Definition Bits (instr shift count : Z) : Z :=
  Z.land (Z.shiftr instr shift) (Z.shiftl 1 count - 1).

Definition OpcodeField (instr : Z) : Z := Bits instr kOpcodeShift kOpcodeBits.

Definition SetOpcodeField (instr b : Z) : Z :=
  let mask := int32 (Z.shiftl (Z.shiftl 1 kOpcodeBits - 1) kOpcodeShift) in
  Z.lor (int32 (Z.shiftl b kOpcodeShift)) (Z.land instr (Z.lnot mask)).

Definition RsField (instr : Z) : Z := Bits instr kRsShift kRsBits.
Definition RtField (instr : Z) : Z := Bits instr kRtShift kRtBits.
Definition RdField (instr : Z) : Z := Bits instr kRdShift kRdBits.
Definition FsField (instr : Z) : Z := Bits instr kFsShift kFsBits.
Definition FtField (instr : Z) : Z := Bits instr kFtShift kFtBits.
Definition FdField (instr : Z) : Z := Bits instr kFdShift kFdBits.
Definition SaField (instr : Z) : Z := Bits instr kSaShift kSaBits.
Definition UImmField (instr : Z) : Z := Bits instr kImmShift kImmBits.

(** Sign-extends the immediate field. *)
Definition SImmField (instr : Z) : Z :=
  Z.shiftr (int32 (Z.shiftl (Bits instr kImmShift kImmBits) (32 - kImmBits)))
           (32 - kImmBits).

Definition BreakCodeField (instr : Z) : Z := Bits instr kBreakCodeShift kBreakCodeBits.
Definition FunctionField (instr : Z) : Z := Bits instr kFunctionShift kFunctionBits.
Definition RegImmFnField (instr : Z) : Z := Bits instr kRtShift kRtBits.

Definition SetRegImmFnField (instr b : Z) : Z :=
  let mask := int32 (Z.shiftl (Z.shiftl 1 kRtBits - 1) kRtShift) in
  Z.lor (int32 (Z.shiftl b kRtShift)) (Z.land instr (Z.lnot mask)).

Definition IsBreakPoint (instr : Z) : bool :=
  (OpcodeField instr =? SPECIAL) && (FunctionField instr =? BREAK).

Definition Cop1FunctionField (instr : Z) : Z := Bits instr kCop1FnShift kCop1FnBits.
Definition Cop1SubField (instr : Z) : Z := Bits instr kCop1SubShift kCop1SubBits.

Definition HasFormat (instr : Z) : bool :=
  (OpcodeField instr =? COP1) && (Bit instr 25 =? 1).

Definition FormatField (instr : Z) : Z := Bits instr kFmtShift kFmtBits.
Definition FpuCCField (instr : Z) : Z := Bits instr kFpuCCShift kFpuCCBits.

(** ** Reading fields *)
Lemma Bits_div instr shift count :
  0 <= shift -> 0 <= count -> Bits instr shift count = (instr / 2 ^ shift) mod 2 ^ count.
Proof.
  intros; unfold Bits; rewrite Z.shiftr_div_pow2, Z.shiftl_mul_pow2, Z.mul_1_l by lia.
  rewrite <- (Z.land_ones (instr / 2 ^ shift)) by lia.
  rewrite Z.ones_equiv; f_equal; lia.
Qed.

Lemma Bits_range instr shift count :
  0 <= shift -> 0 <= count -> 0 <= Bits instr shift count < 2 ^ count.
Proof.
  intros; rewrite Bits_div by lia; apply Z.mod_pos_bound, pow2_pos; lia.
Qed.

Lemma Bits_int32 instr shift count :
  0 <= shift -> 0 <= count -> shift + count <= 32 ->
  Bits (int32 instr) shift count = Bits instr shift count.
Proof.
  intros; apply Z.bits_inj'; intros i Hi; rewrite !Bits_div by lia.
  destruct (decide (i < count)).
  - rewrite !Z.mod_pow2_bits_low, !Z.div_pow2_bits, testbit_to_s_low by lia; done.
  - rewrite !Z.mod_pow2_bits_high by lia; done.
Qed.

Lemma SImmField_int16 instr : SImmField instr = to_s 16 (UImmField instr).
Proof.
  unfold SImmField, UImmField.
  pose proof (Bits_range instr kImmShift kImmBits ltac:(done) ltac:(done)) as H.
  revert H; generalize (Bits instr kImmShift kImmBits) as u.
  unfold kImmBits, to_s; intros u Hu.
  rewrite Z.shiftl_mul_pow2, Z.shiftr_div_pow2 by lia.
  change (2 ^ (32 - 16)) with 65536; change (2 ^ 32) with 4294967296.
  change (2 ^ (32 - 1)) with 2147483648; change (2 ^ 16) with 65536 in *.
  change (2 ^ (16 - 1)) with 32768.
  Z.div_mod_to_equations; lia.
Qed.

End Instr.
