(* ===== verification/HostFloat.v ===== *)
(** The floating point arithmetic of the host compiler: a [double] and a
    [float] are their IEEE 754 bit patterns ([bit_cast]), the operations are
    those of [SpecFloat] at the two formats, rounding to nearest even.  A NaN
    that an operation makes is the quiet NaN with an empty payload; a move
    keeps the bits. *)
From stdpp Require Import base numbers.
From Stdlib Require Import ZArith Lia Bool SpecFloat.
From S2P Require Import Prelude.
#[local] Open Scope Z_scope.

Section Format.
(** [mw] explicit mantissa bits, [ew] exponent bits. *)
Context (mw ew : Z).
Let prec := mw + 1.
Let emax := 2 ^ (ew - 1).
Let emin_sub := 3 - emax - prec.

Definition bits_to_sf (b : Z) : spec_float :=
  let m := b mod 2 ^ mw in
  let e := (b / 2 ^ mw) mod 2 ^ ew in
  let s := Z.testbit b (mw + ew) in
  if e =? 0 then
    match m with
    | Zpos p => S754_finite s p emin_sub
    | _ => S754_zero s
    end
  else if e =? 2 ^ ew - 1 then
    if m =? 0 then S754_infinity s else S754_nan
  else
    match m + 2 ^ mw with
    | Zpos p => S754_finite s p (e + emin_sub - 1)
    | _ => S754_nan
    end.

Definition sign_bit (s : bool) : Z := if s then 2 ^ (mw + ew) else 0.

Definition sf_to_bits (f : spec_float) : Z :=
  match f with
  | S754_zero s => sign_bit s
  | S754_infinity s => sign_bit s + (2 ^ ew - 1) * 2 ^ mw
  | S754_nan => (2 ^ ew - 1) * 2 ^ mw + 2 ^ (mw - 1)
  | S754_finite s m e =>
      if Zpos m <? 2 ^ mw then sign_bit s + Zpos m
      else sign_bit s + (e - emin_sub + 1) * 2 ^ mw + (Zpos m - 2 ^ mw)
  end.

(** Every number and infinity survives the round trip through its value. *)
Lemma sf_to_bits_to_sf b :
  0 < mw -> 0 < ew -> 0 <= b < 2 ^ (mw + ew + 1) ->
  bits_to_sf b <> S754_nan -> sf_to_bits (bits_to_sf b) = b.
Proof.
  intros Hm He Hb Hn.
  pose proof (pow2_pos mw ltac:(lia)) as Pm; pose proof (pow2_pos ew ltac:(lia)) as Pe.
  assert (2 ^ (mw + ew) = 2 ^ mw * 2 ^ ew) as Pp by (apply Z.pow_add_r; lia).
  rewrite Z.pow_add_r, Z.pow_1_r in Hb by lia.
  pose proof (Z.mod_pos_bound b (2 ^ mw) Pm) as Bm.
  pose proof (Z.mod_pos_bound (b / 2 ^ mw) (2 ^ ew) Pe) as Be.
  assert (b = sign_bit (Z.testbit b (mw + ew))
              + (b / 2 ^ mw) mod 2 ^ ew * 2 ^ mw + b mod 2 ^ mw) as Hsplit.
  { unfold sign_bit.
    assert (b / 2 ^ mw / 2 ^ ew = b / 2 ^ (mw + ew)) as Hd
      by (rewrite Z.div_div, <- Pp by lia; done).
    pose proof (Z.div_mod b (2 ^ mw) ltac:(lia)).
    pose proof (Z.div_mod (b / 2 ^ mw) (2 ^ ew) ltac:(lia)).
    rewrite Hd in *; rewrite Pp in *.
    destruct (Z.testbit b (mw + ew)) eqn:T.
    - apply Z.testbit_true in T; [| lia]; rewrite Pp in T.
      assert (b / (2 ^ mw * 2 ^ ew) < 2) by (apply Z.div_lt_upper_bound; lia).
      assert (0 <= b / (2 ^ mw * 2 ^ ew)) by (apply Z.div_pos; lia).
      assert (b / (2 ^ mw * 2 ^ ew) = 1) as E1.
      { destruct (decide (b / (2 ^ mw * 2 ^ ew) = 0)) as [E | E]; [| lia].
        rewrite E in T; done. }
      nia.
    - apply Z.testbit_false in T; [| lia]; rewrite Pp in T.
      assert (b / (2 ^ mw * 2 ^ ew) < 2) by (apply Z.div_lt_upper_bound; lia).
      assert (0 <= b / (2 ^ mw * 2 ^ ew)) by (apply Z.div_pos; lia).
      assert (b / (2 ^ mw * 2 ^ ew) = 0) as E1.
      { destruct (decide (b / (2 ^ mw * 2 ^ ew) = 1)) as [E | E]; [| lia].
        rewrite E in T; done. }
      nia. }
  revert Hn; unfold bits_to_sf, sf_to_bits.
  set (m := b mod 2 ^ mw) in *; set (e := (b / 2 ^ mw) mod 2 ^ ew) in *.
  destruct (Z.eqb_spec e 0) as [E0 | E0].
  { destruct m as [| p | p] eqn:Em; intros _; [nia | | lia].
    destruct (Z.ltb_spec (Z.pos p) (2 ^ mw)); nia. }
  destruct (Z.eqb_spec e (2 ^ ew - 1)) as [E1 | E1].
  { destruct (Z.eqb_spec m 0) as [M0 | M0]; intros Hn; [nia | done]. }
  destruct (m + 2 ^ mw) as [| p | p] eqn:Ep; [lia | | lia].
  intros _; destruct (Z.ltb_spec (Z.pos p) (2 ^ mw)); [lia |].
  rewrite <- Ep; nia.
Qed.

End Format.

(** [double] and [float]. *)
Definition dbl_of_bits : Z -> spec_float := bits_to_sf 52 11.
Definition dbl_to_bits (f : spec_float) : Z := int64 (sf_to_bits 52 11 f).
Definition flt_of_bits : Z -> spec_float := bits_to_sf 23 8.
Definition flt_to_bits (f : spec_float) : Z := int32 (sf_to_bits 23 8 f).

Definition dbl2 (op : spec_float -> spec_float -> spec_float) (a b : Z) : Z :=
  dbl_to_bits (op (dbl_of_bits (uint64 a)) (dbl_of_bits (uint64 b))).

Definition dadd : Z -> Z -> Z := dbl2 (SFadd 53 1024).
Definition dsub : Z -> Z -> Z := dbl2 (SFsub 53 1024).
Definition dmul : Z -> Z -> Z := dbl2 (SFmul 53 1024).
Definition ddiv : Z -> Z -> Z := dbl2 (SFdiv 53 1024).
Definition dsqrt (a : Z) : Z := dbl_to_bits (SFsqrt 53 1024 (dbl_of_bits (uint64 a))).

Definition isnan (a : Z) : bool :=
  match dbl_of_bits (uint64 a) with S754_nan => true | _ => false end.
Definition isinf (a : Z) : bool :=
  match dbl_of_bits (uint64 a) with S754_infinity _ => true | _ => false end.

Definition dcmp (op : spec_float -> spec_float -> bool) (a b : Z) : bool :=
  op (dbl_of_bits (uint64 a)) (dbl_of_bits (uint64 b)).
Definition deq : Z -> Z -> bool := dcmp SFeqb.
Definition dlt : Z -> Z -> bool := dcmp SFltb.
Definition dle : Z -> Z -> bool := dcmp SFleb.

(** Conversions: an integer to [double], [float] to [double] and back, and the
    truncation to an integer. *)
Definition dbl_of_int (z : Z) : Z := dbl_to_bits (binary_normalize 53 1024 z 0 false).

Definition sf_convert (prec emax : Z) (f : spec_float) : spec_float :=
  match f with
  | S754_finite s m e => binary_normalize prec emax (cond_Zopp s (Zpos m)) e s
  | f => f
  end.

Definition dbl_of_flt (a : Z) : Z :=
  dbl_to_bits (sf_convert 53 1024 (flt_of_bits (uint32 a))).
Definition flt_of_dbl (a : Z) : Z :=
  flt_to_bits (sf_convert 24 128 (dbl_of_bits (uint64 a))).

Definition dbl_trunc (a : Z) : Z :=
  match dbl_of_bits (uint64 a) with
  | S754_finite s m e => cond_Zopp s (Z.shiftl (Zpos m) e)
  | _ => 0
  end.

Example dadd_1_2 : dadd (dbl_of_int 1) (dbl_of_int 2) = dbl_of_int 3.
Proof. vm_compute; reflexivity. Qed.
Example dbl_of_int_1 : dbl_of_int 1 = 0x3FF0000000000000.
Proof. vm_compute; reflexivity. Qed.
Example ddiv_3_2 : dbl_trunc (ddiv (dbl_of_int (-3)) (dbl_of_int 2)) = -1.
Proof. vm_compute; reflexivity. Qed.
Example flt_dbl : dbl_of_flt (flt_of_dbl (dbl_of_int 7)) = dbl_of_int 7.
Proof. vm_compute; reflexivity. Qed.
