(* ===== verification/MipsState.v ===== *)
(** The architecture state of the MIPS simulator ([vm/simulator_mips.h],
    [vm/simulator_mips.cc]): registers, condition bits and memory accesses.

    The register files are arrays indexed by a register number that comes from
    a five-bit field; they are maps with the initial value 0.  The host memory
    is a map of bytes, little-endian: an access to a byte it does not hold is a
    fault of the host. *)
From stdpp Require Import base numbers list gmap.
From Stdlib Require Import ZArith Lia Bool.
From S2P Require Import Prelude Utils MipsConstants HostFloat.
#[local] Open Scope Z_scope.

(** * The state ([class Simulator]) *)
Record Simulator : Type := mkSimulator {
  hi_reg_ : Z;
  lo_reg_ : Z;
  registers_ : gmap Z Z;
  fregisters_ : gmap Z Z;
  fcsr_ : Z;
  pc_ : Z;
  icount_ : Z;
  delay_slot_ : bool;
  top_exit_frame_info_ : Z;
  memory : gmap Z Z
}.

Definition with_hi v s := mkSimulator v (lo_reg_ s) (registers_ s) (fregisters_ s)
  (fcsr_ s) (pc_ s) (icount_ s) (delay_slot_ s) (top_exit_frame_info_ s) (memory s).
Definition with_lo v s := mkSimulator (hi_reg_ s) v (registers_ s) (fregisters_ s)
  (fcsr_ s) (pc_ s) (icount_ s) (delay_slot_ s) (top_exit_frame_info_ s) (memory s).
Definition with_registers v s := mkSimulator (hi_reg_ s) (lo_reg_ s) v (fregisters_ s)
  (fcsr_ s) (pc_ s) (icount_ s) (delay_slot_ s) (top_exit_frame_info_ s) (memory s).
Definition with_fregisters v s := mkSimulator (hi_reg_ s) (lo_reg_ s) (registers_ s) v
  (fcsr_ s) (pc_ s) (icount_ s) (delay_slot_ s) (top_exit_frame_info_ s) (memory s).
Definition with_fcsr v s := mkSimulator (hi_reg_ s) (lo_reg_ s) (registers_ s)
  (fregisters_ s) v (pc_ s) (icount_ s) (delay_slot_ s) (top_exit_frame_info_ s) (memory s).
Definition with_pc v s := mkSimulator (hi_reg_ s) (lo_reg_ s) (registers_ s)
  (fregisters_ s) (fcsr_ s) v (icount_ s) (delay_slot_ s) (top_exit_frame_info_ s) (memory s).
Definition with_icount v s := mkSimulator (hi_reg_ s) (lo_reg_ s) (registers_ s)
  (fregisters_ s) (fcsr_ s) (pc_ s) v (delay_slot_ s) (top_exit_frame_info_ s) (memory s).
Definition with_delay_slot v s := mkSimulator (hi_reg_ s) (lo_reg_ s) (registers_ s)
  (fregisters_ s) (fcsr_ s) (pc_ s) (icount_ s) v (top_exit_frame_info_ s) (memory s).
Definition with_top_exit v s := mkSimulator (hi_reg_ s) (lo_reg_ s) (registers_ s)
  (fregisters_ s) (fcsr_ s) (pc_ s) (icount_ s) (delay_slot_ s) v (memory s).
Definition with_memory v s := mkSimulator (hi_reg_ s) (lo_reg_ s) (registers_ s)
  (fregisters_ s) (fcsr_ s) (pc_ s) (icount_ s) (delay_slot_ s) (top_exit_frame_info_ s) v.

(** A pc value that signals the end of the simulation: [-1] as a [uword]. *)
Definition kEndSimulatingPC : Z := uint32 (-1).

(** The constructor.  [hi_reg_] and [lo_reg_] are not initialised by the code:
    [hi] and [lo] are what the allocation leaves in them. *)
Definition new_Simulator (hi lo StackTop : Z) (mem : gmap Z Z) : Simulator :=
  {| hi_reg_ := hi; lo_reg_ := lo;
     registers_ := <[SP := int32 StackTop]> ∅;
     fregisters_ := ∅; fcsr_ := 0; pc_ := 0; icount_ := 0;
     delay_slot_ := false; top_exit_frame_info_ := 0; memory := mem |}.

(** * Registers *)
Definition set_register (reg value : Z) (s : Simulator) : Simulator :=
  if negb (reg =? R0) then with_registers (<[reg := int32 value]> (registers_ s)) s
  else s.

Definition get_register (reg : Z) (s : Simulator) : Z :=
  if reg =? R0 then 0 else default 0 (registers_ s !! reg).

Definition is_freg (reg : Z) : bool := (reg >=? 0) && (reg <? kNumberOfFRegisters).
Definition is_dreg (reg : Z) : bool := (reg >=? 0) && (reg <? kNumberOfDRegisters).

Definition freg (reg : Z) (s : Simulator) : Z := default 0 (fregisters_ s !! reg).
Definition put_freg (reg value : Z) (s : Simulator) : Simulator :=
  with_fregisters (<[reg := int32 value]> (fregisters_ s)) s.

Definition set_fregister (reg value : Z) (s : Simulator) : outcome Simulator :=
  ASSERT reg >=? 0 ;;
  ASSERT reg <? kNumberOfFRegisters ;;
  Ok (put_freg reg value s).

(** [value] holds the bits of the [float]. *)
Definition set_fregister_float (reg value : Z) (s : Simulator) : outcome Simulator :=
  ASSERT reg >=? 0 ;;
  ASSERT reg <? kNumberOfFRegisters ;;
  Ok (put_freg reg value s).

Definition set_fregister_long (reg value : Z) (s : Simulator) : outcome Simulator :=
  ASSERT reg >=? 0 ;;
  ASSERT reg <? kNumberOfFRegisters ;;
  ASSERT Z.land reg 1 =? 0 ;;
  Ok (put_freg (reg + 1) (High32Bits value) (put_freg reg (Low32Bits value) s)).

(** [value] holds the bits of the [double]. *)
Definition set_fregister_double (reg value : Z) (s : Simulator) : outcome Simulator :=
  set_fregister_long reg value s.

Definition set_dregister_bits (reg value : Z) (s : Simulator) : outcome Simulator :=
  ASSERT reg >=? 0 ;;
  ASSERT reg <? kNumberOfDRegisters ;;
  let lo := reg * 2 in
  let hi := reg * 2 + 1 in
  let* s := set_fregister lo (Low32Bits value) s in
  set_fregister hi (High32Bits value) s.

Definition set_dregister (reg value : Z) (s : Simulator) : outcome Simulator :=
  ASSERT reg >=? 0 ;;
  ASSERT reg <? kNumberOfDRegisters ;;
  set_dregister_bits reg value s.

Definition get_fregister (reg : Z) (s : Simulator) : outcome Z :=
  ASSERT (reg >=? 0) && (reg <? kNumberOfFRegisters) ;;
  Ok (freg reg s).

Definition get_fregister_float (reg : Z) (s : Simulator) : outcome Z :=
  ASSERT reg >=? 0 ;;
  ASSERT reg <? kNumberOfFRegisters ;;
  Ok (freg reg s).

Definition get_fregister_long (reg : Z) (s : Simulator) : outcome Z :=
  ASSERT reg >=? 0 ;;
  ASSERT reg <? kNumberOfFRegisters ;;
  ASSERT Z.land reg 1 =? 0 ;;
  let low := freg reg s in
  let high := freg (reg + 1) s in
  Ok (LowHighTo64Bits (uint32 low) high).

Definition get_fregister_double (reg : Z) (s : Simulator) : outcome Z :=
  ASSERT reg >=? 0 ;;
  ASSERT reg <? kNumberOfFRegisters ;;
  ASSERT Z.land reg 1 =? 0 ;;
  get_fregister_long reg s.

Definition get_dregister_bits (reg : Z) (s : Simulator) : outcome Z :=
  ASSERT reg >=? 0 ;;
  ASSERT reg <? kNumberOfDRegisters ;;
  let lo := reg * 2 in
  let hi := reg * 2 + 1 in
  let* l := get_fregister lo s in
  let* h := get_fregister hi s in
  Ok (LowHighTo64Bits (uint32 l) h).

Definition get_dregister (reg : Z) (s : Simulator) : outcome Z :=
  ASSERT reg >=? 0 ;;
  ASSERT reg <? kNumberOfDRegisters ;;
  get_dregister_bits reg s.

Definition set_pc (value : Z) (s : Simulator) : Simulator := with_pc (uint32 value) s.
Definition get_pc (s : Simulator) : Z := int32 (pc_ s).

Definition set_hi_register (value : Z) (s : Simulator) : Simulator := with_hi (int32 value) s.
Definition set_lo_register (value : Z) (s : Simulator) : Simulator := with_lo (int32 value) s.
Definition get_hi_register (s : Simulator) : Z := hi_reg_ s.
Definition get_lo_register (s : Simulator) : Z := lo_reg_ s.

(** * The floating point condition bits *)
Definition get_fcsr_condition_bit (cc : Z) : Z := if cc =? 0 then 23 else 24 + cc.

Definition set_fcsr_bit (cc : Z) (value : bool) (s : Simulator) : Simulator :=
  if value then with_fcsr (Z.lor (fcsr_ s) (int32 (Z.shiftl 1 cc))) s
  else with_fcsr (Z.land (fcsr_ s) (Z.lnot (int32 (Z.shiftl 1 cc)))) s.

Definition test_fcsr_bit (cc : Z) (s : Simulator) : bool :=
  negb (Z.land (fcsr_ s) (int32 (Z.shiftl 1 cc)) =? 0).

(** * Memory *)
Definition IsIllegalAddress (addr : Z) : bool := addr <? 64 * 1024.

Definition load8 (addr : Z) (s : Simulator) : outcome Z :=
  match memory s !! addr with
  | Some b => Ok b
  | None => Err (HostFault addr)
  end.

(** Loads of [n] bytes, least significant first. *)
Fixpoint load_le (n : nat) (addr : Z) (s : Simulator) : outcome Z :=
  match n with
  | O => Ok 0
  | S n =>
      let* b := load8 addr s in
      let* r := load_le n (addr + 1) s in
      Ok (b + 256 * r)
  end.

Definition store8 (addr value : Z) (s : Simulator) : outcome Simulator :=
  match memory s !! addr with
  | Some _ => Ok (with_memory (<[addr := value mod 256]> (memory s)) s)
  | None => Err (HostFault addr)
  end.

Fixpoint store_le (n : nat) (addr value : Z) (s : Simulator) : outcome Simulator :=
  match n with
  | O => Ok s
  | S n =>
      let* s := store8 addr value s in
      store_le n (addr + 1) (value / 256) s
  end.

Definition ReadB (addr : Z) (s : Simulator) : outcome Z :=
  let* v := load_le 1 addr s in Ok (to_s 8 v).

Definition ReadBU (addr : Z) (s : Simulator) : outcome Z := load_le 1 addr s.

Definition ReadH (addr : Z) (s : Simulator) : outcome Z :=
  if Z.land addr 1 =? 0 then let* v := load_le 2 addr s in Ok (to_s 16 v)
  else Err (UnalignedAccess addr).

Definition ReadHU (addr : Z) (s : Simulator) : outcome Z :=
  if Z.land addr 1 =? 0 then load_le 2 addr s
  else Err (UnalignedAccess addr).

Definition ReadW (addr : Z) (s : Simulator) : outcome Z :=
  if Z.land addr 3 =? 0 then let* v := load_le 4 addr s in Ok (int32 v)
  else Err (UnalignedAccess addr).

Definition WriteB (addr value : Z) (s : Simulator) : outcome Simulator :=
  store_le 1 addr value s.

Definition WriteH (addr value : Z) (s : Simulator) : outcome Simulator :=
  if Z.land addr 1 =? 0 then store_le 2 addr value s
  else Err (UnalignedAccess addr).

Definition WriteW (addr value : Z) (s : Simulator) : outcome Simulator :=
  if Z.land addr 3 =? 0 then store_le 4 addr value s
  else Err (UnalignedAccess addr).

Definition ReadD (addr : Z) (s : Simulator) : outcome Z :=
  if Z.land addr 7 =? 0 then let* v := load_le 8 addr s in Ok (int64 v)
  else Err (UnalignedAccess addr).

Definition WriteD (addr value : Z) (s : Simulator) : outcome Simulator :=
  if Z.land addr 7 =? 0 then store_le 8 addr value s
  else Err (UnalignedAccess addr).
