(* ===== verification/MipsSimulator.v ===== *)
(** The instruction decoder and the execution loop of the MIPS simulator
    ([vm/simulator_mips.cc]).

    [InstructionDecode] calls itself through [ExecuteDelaySlot]: the cases of
    the decoder take the execution of the delay slot as a parameter, and the
    knot is tied with fuel.  The runtime functions a redirection calls are host
    code: a parameter of the model. *)
From stdpp Require Import base numbers list gmap.
From Stdlib Require Import ZArith Lia Bool.
From S2P Require Import Prelude Utils MipsConstants HostFloat MipsState.
Import Instr.
#[local] Open Scope Z_scope.

(** * Redirections to the host *)
Inductive CallKind : Type :=
| kRuntimeCall | kLeafRuntimeCall | kLeafFloatRuntimeCall
| kBootstrapNativeCall | kNativeCall.

#[export] Instance CallKind_eq_dec : EqDecision CallKind.
Proof. solve_decision. Defined.

Record Redirection : Type := mkRedirection {
  external_function : Z;
  call_kind : CallKind;
  argument_count : Z;
  address_of_break_instruction : Z
}.

(** A host function returns a value, or throws: it unwinds to the frame that
    handles the exception. *)
Inductive HostOutcome : Type :=
| Returned (value : Z) (s : Simulator)
| Threw (pc sp fp raw_exception raw_stacktrace : Z) (s : Simulator).

(** What the simulator takes from the host: the redirection of a break
    instruction, the native stack pointer, and the functions behind an
    external address.  The arguments of a call are the words passed. *)
Record Host : Type := mkHost {
  FromBreakInstruction : Z -> Redirection;
  GetCurrentStackPointer : Z;
  host_call : Z -> list Z -> Simulator -> HostOutcome
}.

Section Decode.
Context (host : Host).
(** [ExecuteDelaySlot()]. *)
Context (delay_slot : Simulator -> outcome Simulator).

(** The registers of an instruction. *)
Definition rs_reg (instr : Z) (s : Simulator) : Z := get_register (RsField instr) s.
Definition rt_reg (instr : Z) (s : Simulator) : Z := get_register (RtField instr) s.

(** ** Break instructions *)
(** Zaps the caller-saved registers after a runtime call. *)
Definition zap_registers (s : Simulator) : Simulator :=
  let zap r s := set_register r (icount_ s) s in
  let s := zap T0 s in let s := zap T1 s in let s := zap T2 s in
  let s := zap T3 s in let s := zap T4 s in let s := zap T5 s in
  let s := zap T6 s in let s := zap T7 s in let s := zap T8 s in
  let s := zap T9 s in let s := zap A0 s in let s := zap A1 s in
  let s := zap A2 s in let s := zap A3 s in let s := zap TMP s in
  zap RA s.

(** [for (int i = F4; i <= F18; i++) set_fregister(i, zap_dvalue);] *)
Fixpoint zap_fregisters (n : nat) (i zap_dvalue : Z) (s : Simulator) : outcome Simulator :=
  match n with
  | O => Ok s
  | S n => let* s := set_fregister i zap_dvalue s in zap_fregisters n (i + 1) zap_dvalue s
  end.

(** The registers of a [Longjmp] to an exception handler. *)
Definition Longjmp (pc sp fp raw_exception raw_stacktrace : Z) (s : Simulator) : Simulator :=
  let s := set_pc (int32 pc) s in
  let s := set_register SP (int32 sp) s in
  let s := set_register FP (int32 fp) s in
  let s := set_register kExceptionObjectReg raw_exception s in
  set_register kStackTraceObjectReg raw_stacktrace s.

(** The state after the host function returned [value]. *)
Definition finish_call (kind : CallKind) (value : Z) (s : Simulator) : outcome Simulator :=
  match kind with
  | kLeafRuntimeCall =>
      let s := set_register V0 value s in Ok (set_register V1 (icount_ s) s)
  | kLeafFloatRuntimeCall => set_fregister_double F0 value s
  | _ => let s := set_register V0 (icount_ s) s in Ok (set_register V1 (icount_ s) s)
  end.

(** The words passed to the host function. *)
Definition call_arguments (r : Redirection) (s : Simulator) : outcome (list Z) :=
  match call_kind r with
  | kRuntimeCall | kLeafRuntimeCall =>
      Ok [get_register A0 s; get_register A1 s; get_register A2 s; get_register A3 s]
  | kLeafFloatRuntimeCall =>
      ASSERT (0 <=? argument_count r) && (argument_count r <=? 2) ;;
      let* d6 := get_fregister_double F12 s in
      let* d7 := get_fregister_double F14 s in
      Ok [d6; d7]
  | kBootstrapNativeCall => Ok [get_register A0 s]
  | kNativeCall => Ok [get_register A0 s; get_register A1 s]
  end.

Definition sets_exit_frame (kind : CallKind) : bool :=
  match kind with
  | kRuntimeCall | kBootstrapNativeCall | kNativeCall => true
  | _ => false
  end.

(** The address of the instruction being decoded: the pc stays at the branch
    while its delay slot executes. *)
Definition instr_address (s : Simulator) : Z :=
  if delay_slot_ s then uint32 (pc_ s + kInstrSize) else pc_ s.

(** [DoBreak]: a redirection calls the host; every other break code stops in
    the debugger. *)
Definition DoBreak (instr : Z) (s : Simulator) : outcome Simulator :=
  ASSERT OpcodeField instr =? SPECIAL ;;
  ASSERT FunctionField instr =? BREAK ;;
  if BreakCodeField instr =? kSimulatorRedirectCode then
    let saved_ra := get_register RA s in
    let redirection := FromBreakInstruction host (instr_address s) in
    let s := if sets_exit_frame (call_kind redirection)
             then with_top_exit (GetCurrentStackPointer host) s else s in
    let* args := call_arguments redirection s in
    match host_call host (external_function redirection) args s with
    | Returned value s =>
        let* s := finish_call (call_kind redirection) value s in
        let s := with_top_exit 0 s in
        let s := zap_registers s in
        let zap_dvalue := int32 (icount_ s) in
        let* s := zap_fregisters 15 F4 zap_dvalue s in
        Ok (set_pc (saved_ra - kInstrSize) s)
    | Threw pc sp fp exc st s =>
        let s := Longjmp pc sp fp exc st s in
        let s := with_top_exit 0 s in
        Ok (set_pc (get_pc s - kInstrSize) s)
    end
  else Err (DebuggerStop (BreakCodeField instr)).

(** ** [DecodeSpecial] *)
Definition exec_ADDU (instr : Z) (s : Simulator) : outcome Simulator :=
  ASSERT SaField instr =? 0 ;;
  let rs_val := rs_reg instr s in
  let rt_val := rt_reg instr s in
  Ok (set_register (RdField instr) (rs_val + rt_val) s).

Definition exec_AND (instr : Z) (s : Simulator) : outcome Simulator :=
  ASSERT SaField instr =? 0 ;;
  let rs_val := rs_reg instr s in
  let rt_val := rt_reg instr s in
  Ok (set_register (RdField instr) (Z.land rs_val rt_val) s).

Definition exec_DIV (instr : Z) (s : Simulator) : outcome Simulator :=
  ASSERT RdField instr =? 0 ;;
  ASSERT SaField instr =? 0 ;;
  let rs_val := rs_reg instr s in
  let rt_val := rt_reg instr s in
  if rt_val =? 0 then
    let s := set_hi_register (icount_ s) s in
    Ok (set_lo_register (icount_ s) s)
  else if (rs_val =? int32 0x80000000) && (rt_val =? int32 0xffffffff) then
    let s := set_lo_register 0x80000000 s in
    Ok (set_hi_register 0 s)
  else
    let s := set_lo_register (Z.quot rs_val rt_val) s in
    Ok (set_hi_register (Z.rem rs_val rt_val) s).

Definition exec_DIVU (instr : Z) (s : Simulator) : outcome Simulator :=
  ASSERT RdField instr =? 0 ;;
  ASSERT SaField instr =? 0 ;;
  let rs_val := uint32 (rs_reg instr s) in
  let rt_val := uint32 (rt_reg instr s) in
  if rt_val =? 0 then
    let s := set_hi_register (icount_ s) s in
    Ok (set_lo_register (icount_ s) s)
  else
    let s := set_lo_register (rs_val / rt_val) s in
    Ok (set_hi_register (rs_val mod rt_val) s).

Definition exec_JALR (instr : Z) (s : Simulator) : outcome Simulator :=
  ASSERT RtField instr =? R0 ;;
  ASSERT negb (RsField instr =? RdField instr) ;;
  ASSERT negb (delay_slot_ s) ;;
  let s := set_register (RdField instr) (pc_ s + 2 * kInstrSize) s in
  let next_pc := uint32 (rs_reg instr s) in
  let* s := delay_slot s in
  Ok (with_pc (uint32 (next_pc - kInstrSize)) s).

Definition exec_JR (instr : Z) (s : Simulator) : outcome Simulator :=
  ASSERT RtField instr =? R0 ;;
  ASSERT RdField instr =? R0 ;;
  ASSERT negb (delay_slot_ s) ;;
  let next_pc := uint32 (rs_reg instr s) in
  let* s := delay_slot s in
  Ok (with_pc (uint32 (next_pc - kInstrSize)) s).

Definition exec_MFHI (instr : Z) (s : Simulator) : outcome Simulator :=
  ASSERT RsField instr =? 0 ;;
  ASSERT RtField instr =? 0 ;;
  ASSERT SaField instr =? 0 ;;
  Ok (set_register (RdField instr) (get_hi_register s) s).

Definition exec_MFLO (instr : Z) (s : Simulator) : outcome Simulator :=
  ASSERT RsField instr =? 0 ;;
  ASSERT RtField instr =? 0 ;;
  ASSERT SaField instr =? 0 ;;
  Ok (set_register (RdField instr) (get_lo_register s) s).

Definition exec_MOVCI (instr : Z) (s : Simulator) : outcome Simulator :=
  ASSERT SaField instr =? 0 ;;
  ASSERT Bit instr 17 =? 0 ;;
  let rs_val := rs_reg instr s in
  let cc := Bits instr 18 3 in
  let fcsr_cc := get_fcsr_condition_bit cc in
  let test := Bit instr 16 in
  let status := if test_fcsr_bit fcsr_cc s then 1 else 0 in
  if test =? status then Ok (set_register (RdField instr) rs_val s) else Ok s.

Definition exec_MOVN (instr : Z) (s : Simulator) : outcome Simulator :=
  ASSERT SaField instr =? 0 ;;
  let rt_val := rt_reg instr s in
  let rs_val := rs_reg instr s in
  if negb (rt_val =? 0) then Ok (set_register (RdField instr) rs_val s) else Ok s.

Definition exec_MOVZ (instr : Z) (s : Simulator) : outcome Simulator :=
  ASSERT SaField instr =? 0 ;;
  let rt_val := rt_reg instr s in
  let rs_val := rs_reg instr s in
  if rt_val =? 0 then Ok (set_register (RdField instr) rs_val s) else Ok s.

Definition exec_MTHI (instr : Z) (s : Simulator) : outcome Simulator :=
  ASSERT RtField instr =? 0 ;;
  ASSERT RdField instr =? 0 ;;
  ASSERT SaField instr =? 0 ;;
  Ok (set_hi_register (rs_reg instr s) s).

Definition exec_MTLO (instr : Z) (s : Simulator) : outcome Simulator :=
  ASSERT RtField instr =? 0 ;;
  ASSERT RdField instr =? 0 ;;
  ASSERT SaField instr =? 0 ;;
  Ok (set_lo_register (rs_reg instr s) s).

Definition exec_MULT (instr : Z) (s : Simulator) : outcome Simulator :=
  ASSERT RdField instr =? 0 ;;
  ASSERT SaField instr =? 0 ;;
  let rs := rs_reg instr s in
  let rt := rt_reg instr s in
  let res := int64 (rs * rt) in
  let s := set_hi_register (High32Bits res) s in
  Ok (set_lo_register (Low32Bits res) s).

Definition exec_MULTU (instr : Z) (s : Simulator) : outcome Simulator :=
  ASSERT RdField instr =? 0 ;;
  ASSERT SaField instr =? 0 ;;
  let rs := uint32 (rs_reg instr s) in
  let rt := uint32 (rt_reg instr s) in
  let res := uint64 (rs * rt) in
  let s := set_hi_register (High32Bits (int64 res)) s in
  Ok (set_lo_register (Low32Bits (int64 res)) s).

Definition exec_NOR (instr : Z) (s : Simulator) : outcome Simulator :=
  ASSERT SaField instr =? 0 ;;
  let rs_val := rs_reg instr s in
  let rt_val := rt_reg instr s in
  Ok (set_register (RdField instr) (Z.lnot (Z.lor rs_val rt_val)) s).

Definition exec_OR (instr : Z) (s : Simulator) : outcome Simulator :=
  ASSERT SaField instr =? 0 ;;
  let rs_val := rs_reg instr s in
  let rt_val := rt_reg instr s in
  Ok (set_register (RdField instr) (Z.lor rs_val rt_val) s).

Definition exec_SLL (instr : Z) (s : Simulator) : outcome Simulator :=
  ASSERT RsField instr =? 0 ;;
  if (RdField instr =? R0) && (RtField instr =? R0) && (SaField instr =? 0) then Ok s
  else
    let rt_val := rt_reg instr s in
    let sa := SaField instr in
    Ok (set_register (RdField instr) (Z.shiftl rt_val sa) s).

Definition exec_SLLV (instr : Z) (s : Simulator) : outcome Simulator :=
  ASSERT SaField instr =? 0 ;;
  let rt_val := rt_reg instr s in
  let rs_val := rs_reg instr s in
  Ok (set_register (RdField instr) (Z.shiftl rt_val (Z.land rs_val 0x1f)) s).

Definition exec_SLT (instr : Z) (s : Simulator) : outcome Simulator :=
  ASSERT SaField instr =? 0 ;;
  let rs_val := rs_reg instr s in
  let rt_val := rt_reg instr s in
  Ok (set_register (RdField instr) (if rs_val <? rt_val then 1 else 0) s).

Definition exec_SLTU (instr : Z) (s : Simulator) : outcome Simulator :=
  ASSERT SaField instr =? 0 ;;
  let rs_val := uint32 (rs_reg instr s) in
  let rt_val := uint32 (rt_reg instr s) in
  Ok (set_register (RdField instr) (if rs_val <? rt_val then 1 else 0) s).

Definition exec_SRA (instr : Z) (s : Simulator) : outcome Simulator :=
  ASSERT RsField instr =? 0 ;;
  let rt_val := rt_reg instr s in
  let sa := SaField instr in
  Ok (set_register (RdField instr) (Z.shiftr rt_val sa) s).

Definition exec_SRAV (instr : Z) (s : Simulator) : outcome Simulator :=
  ASSERT SaField instr =? 0 ;;
  let rt_val := rt_reg instr s in
  let rs_val := rs_reg instr s in
  Ok (set_register (RdField instr) (Z.shiftr rt_val (Z.land rs_val 0x1f)) s).

Definition exec_SRL (instr : Z) (s : Simulator) : outcome Simulator :=
  ASSERT RsField instr =? 0 ;;
  let rt_val := uint32 (rt_reg instr s) in
  let sa := SaField instr in
  Ok (set_register (RdField instr) (Z.shiftr rt_val sa) s).

Definition exec_SRLV (instr : Z) (s : Simulator) : outcome Simulator :=
  ASSERT SaField instr =? 0 ;;
  let rt_val := uint32 (rt_reg instr s) in
  let rs_val := uint32 (rs_reg instr s) in
  Ok (set_register (RdField instr) (Z.shiftr rt_val (Z.land rs_val 0x1f)) s).

Definition exec_SUBU (instr : Z) (s : Simulator) : outcome Simulator :=
  ASSERT SaField instr =? 0 ;;
  let rs_val := rs_reg instr s in
  let rt_val := rt_reg instr s in
  Ok (set_register (RdField instr) (rs_val - rt_val) s).

Definition exec_XOR (instr : Z) (s : Simulator) : outcome Simulator :=
  ASSERT SaField instr =? 0 ;;
  let rs_val := rs_reg instr s in
  let rt_val := rt_reg instr s in
  Ok (set_register (RdField instr) (Z.lxor rs_val rt_val) s).

Definition DecodeSpecial (instr : Z) (s : Simulator) : outcome Simulator :=
  ASSERT OpcodeField instr =? SPECIAL ;;
  let f := FunctionField instr in
  if f =? ADDU then exec_ADDU instr s
  else if f =? AND then exec_AND instr s
  else if f =? BREAK then DoBreak instr s
  else if f =? DIV then exec_DIV instr s
  else if f =? DIVU then exec_DIVU instr s
  else if f =? JALR then exec_JALR instr s
  else if f =? JR then exec_JR instr s
  else if f =? MFHI then exec_MFHI instr s
  else if f =? MFLO then exec_MFLO instr s
  else if f =? MOVCI then exec_MOVCI instr s
  else if f =? MOVN then exec_MOVN instr s
  else if f =? MOVZ then exec_MOVZ instr s
  else if f =? MTHI then exec_MTHI instr s
  else if f =? MTLO then exec_MTLO instr s
  else if f =? MULT then exec_MULT instr s
  else if f =? MULTU then exec_MULTU instr s
  else if f =? NOR then exec_NOR instr s
  else if f =? OR then exec_OR instr s
  else if f =? SLL then exec_SLL instr s
  else if f =? SLLV then exec_SLLV instr s
  else if f =? SLT then exec_SLT instr s
  else if f =? SLTU then exec_SLTU instr s
  else if f =? SRA then exec_SRA instr s
  else if f =? SRAV then exec_SRAV instr s
  else if f =? SRL then exec_SRL instr s
  else if f =? SRLV then exec_SRLV instr s
  else if f =? SUBU then exec_SUBU instr s
  else if f =? XOR then exec_XOR instr s
  else Err UnimplementedInstruction.

(** ** [DecodeSpecial2] *)
Definition exec_MADD (instr : Z) (s : Simulator) : outcome Simulator :=
  ASSERT RdField instr =? 0 ;;
  ASSERT SaField instr =? 0 ;;
  let lo := uint32 (get_lo_register s) in
  let hi := get_hi_register s in
  let accum := LowHighTo64Bits lo hi in
  let rs := rs_reg instr s in
  let rt := rt_reg instr s in
  let res := int64 (accum + rs * rt) in
  let s := set_hi_register (High32Bits res) s in
  Ok (set_lo_register (Low32Bits res) s).

Definition exec_MADDU (instr : Z) (s : Simulator) : outcome Simulator :=
  ASSERT RdField instr =? 0 ;;
  ASSERT SaField instr =? 0 ;;
  let lo := uint32 (get_lo_register s) in
  let hi := uint32 (get_hi_register s) in
  let accum := uint64 (LowHighTo64Bits lo (int32 hi)) in
  let rs := uint32 (rs_reg instr s) in
  let rt := uint32 (rt_reg instr s) in
  let res := uint64 (accum + rs * rt) in
  let s := set_hi_register (High32Bits (int64 res)) s in
  Ok (set_lo_register (Low32Bits (int64 res)) s).

(** [while (rs_val < 0) { bitcount++; rs_val <<= 1; }] *)
Fixpoint clo_loop (fuel : nat) (bitcount rs_val : Z) : outcome Z :=
  if rs_val <? 0 then
    match fuel with
    | O => Err OutOfFuel
    | S fuel => clo_loop fuel (bitcount + 1) (int32 (Z.shiftl rs_val 1))
    end
  else Ok bitcount.

(** [while (rs_val > 0) { bitcount++; rs_val <<= 1; }] *)
Fixpoint clz_loop (fuel : nat) (bitcount rs_val : Z) : outcome Z :=
  if rs_val >? 0 then
    match fuel with
    | O => Err OutOfFuel
    | S fuel => clz_loop fuel (bitcount + 1) (int32 (Z.shiftl rs_val 1))
    end
  else Ok bitcount.

(** A shift drops one bit of 32: 32 iterations are enough. *)
Definition exec_CLO (instr : Z) (s : Simulator) : outcome Simulator :=
  ASSERT SaField instr =? 0 ;;
  ASSERT RtField instr =? RdField instr ;;
  let rs_val := rs_reg instr s in
  let* bitcount := clo_loop 32 0 rs_val in
  Ok (set_register (RdField instr) bitcount s).

Definition exec_CLZ (instr : Z) (s : Simulator) : outcome Simulator :=
  ASSERT SaField instr =? 0 ;;
  ASSERT RtField instr =? RdField instr ;;
  let rs_val := rs_reg instr s in
  let* bitcount := if negb (rs_val =? 0) then clz_loop 32 0 rs_val else Ok 32 in
  Ok (set_register (RdField instr) bitcount s).

Definition DecodeSpecial2 (instr : Z) (s : Simulator) : outcome Simulator :=
  ASSERT OpcodeField instr =? SPECIAL2 ;;
  let f := FunctionField instr in
  if f =? MADD then exec_MADD instr s
  else if f =? MADDU then exec_MADDU instr s
  else if f =? CLO then exec_CLO instr s
  else if f =? CLZ then exec_CLZ instr s
  else Err UnimplementedInstruction.

(** ** Branches *)
Definition DoBranch (instr : Z) (taken likely : bool) (s : Simulator) : outcome Simulator :=
  ASSERT negb (delay_slot_ s) ;;
  let imm_val := int32 (Z.shiftl (SImmField instr) 2) in
  let next_pc := if taken then uint32 (pc_ s + imm_val + kInstrSize)
                 else uint32 (pc_ s + 2 * kInstrSize) in
  let* s := if taken && likely then delay_slot s else Ok s in
  let* s := if negb likely then delay_slot s else Ok s in
  Ok (with_pc (uint32 (next_pc - kInstrSize)) s).

Definition exec_BGEZ (instr : Z) (s : Simulator) : outcome Simulator :=
  let rs_val := rs_reg instr s in
  DoBranch instr (rs_val >=? 0) false s.

Definition exec_BGEZAL (instr : Z) (s : Simulator) : outcome Simulator :=
  let rs_val := rs_reg instr s in
  let s := set_register RA (pc_ s + 2 * kInstrSize) s in
  DoBranch instr (rs_val >=? 0) false s.

Definition exec_BLTZAL (instr : Z) (s : Simulator) : outcome Simulator :=
  let rs_val := rs_reg instr s in
  let s := set_register RA (pc_ s + 2 * kInstrSize) s in
  DoBranch instr (rs_val <? 0) false s.

Definition exec_BGEZL (instr : Z) (s : Simulator) : outcome Simulator :=
  let rs_val := rs_reg instr s in
  DoBranch instr (rs_val >=? 0) true s.

Definition exec_BLTZ (instr : Z) (s : Simulator) : outcome Simulator :=
  let rs_val := rs_reg instr s in
  DoBranch instr (rs_val <? 0) false s.

Definition exec_BLTZL (instr : Z) (s : Simulator) : outcome Simulator :=
  let rs_val := rs_reg instr s in
  DoBranch instr (rs_val <? 0) true s.

Definition DecodeRegImm (instr : Z) (s : Simulator) : outcome Simulator :=
  ASSERT OpcodeField instr =? REGIMM ;;
  let f := RegImmFnField instr in
  if f =? BGEZ then exec_BGEZ instr s
  else if f =? BGEZAL then exec_BGEZAL instr s
  else if f =? BLTZAL then exec_BLTZAL instr s
  else if f =? BGEZL then exec_BGEZL instr s
  else if f =? BLTZ then exec_BLTZ instr s
  else if f =? BLTZL then exec_BLTZL instr s
  else Err UnimplementedInstruction.

(** ** [DecodeCop1] *)
(** The double precision instructions: [ASSERT(FormatField() == FMT_D)] and the
    result in [fd]. *)
Definition cop1_arith (instr value : Z) (s : Simulator) : outcome Simulator :=
  ASSERT FormatField instr =? FMT_D ;;
  set_fregister_double (FdField instr) value s.

(** The comparisons: the result in the condition bit of the instruction. *)
Definition cop1_compare (instr : Z) (value : bool) (s : Simulator) : outcome Simulator :=
  ASSERT FormatField instr =? FMT_D ;;
  ASSERT FdField instr =? F0 ;;
  let fcsr_cc := get_fcsr_condition_bit (FpuCCField instr) in
  Ok (set_fcsr_bit fcsr_cc value s).

Definition exec_CVT_D (instr : Z) (s : Simulator) : outcome Simulator :=
  let fmt := FormatField instr in
  if fmt =? FMT_W then
    let* fs_int := get_fregister (FsField instr) s in
    set_fregister_double (FdField instr) (dbl_of_int fs_int) s
  else if fmt =? FMT_S then
    let* fs_flt := get_fregister_float (FsField instr) s in
    set_fregister_double (FdField instr) (dbl_of_flt fs_flt) s
  else if fmt =? FMT_L then
    let* fs_int := get_fregister_long (FsField instr) s in
    set_fregister_double (FdField instr) (dbl_of_int fs_int) s
  else Err UnimplementedInstruction.

Definition kIntMax : Z := 2 ^ 31 - 1.
Definition kIntMin : Z := - 2 ^ 31.

Definition exec_CVT_W (instr : Z) (s : Simulator) : outcome Simulator :=
  if FormatField instr =? FMT_D then
    let* fs_dbl := get_fregister_double (FsField instr) s in
    let fs_int :=
      if isnan fs_dbl || isinf fs_dbl || dlt (dbl_of_int kIntMax) fs_dbl
         || dlt fs_dbl (dbl_of_int kIntMin)
      then kIntMin else int32 (dbl_trunc fs_dbl) in
    set_fregister (FdField instr) fs_int s
  else Err UnimplementedInstruction.

Definition exec_CVT_S (instr : Z) (s : Simulator) : outcome Simulator :=
  if FormatField instr =? FMT_D then
    let* fs_dbl := get_fregister_double (FsField instr) s in
    set_fregister_float (FdField instr) (flt_of_dbl fs_dbl) s
  else Err UnimplementedInstruction.

(** The instructions with a format: the operands are read as doubles first. *)
Definition DecodeCop1_format (instr : Z) (s : Simulator) : outcome Simulator :=
  let* fs_val := get_fregister_double (FsField instr) s in
  let* ft_val := get_fregister_double (FtField instr) s in
  let f := Cop1FunctionField instr in
  let unordered := isnan fs_val || isnan ft_val in
  if f =? COP1_ADD then cop1_arith instr (dadd fs_val ft_val) s
  else if f =? COP1_SUB then cop1_arith instr (dsub fs_val ft_val) s
  else if f =? COP1_MUL then cop1_arith instr (dmul fs_val ft_val) s
  else if f =? COP1_DIV then cop1_arith instr (ddiv fs_val ft_val) s
  else if f =? COP1_SQRT then cop1_arith instr (dsqrt fs_val) s
  else if f =? COP1_MOV then cop1_arith instr fs_val s
  else if f =? COP1_C_F then cop1_compare instr false s
  else if f =? COP1_C_UN then cop1_compare instr unordered s
  else if f =? COP1_C_EQ then cop1_compare instr (deq fs_val ft_val) s
  else if f =? COP1_C_UEQ then cop1_compare instr (deq fs_val ft_val || unordered) s
  else if f =? COP1_C_OLT then cop1_compare instr (dlt fs_val ft_val) s
  else if f =? COP1_C_ULT then cop1_compare instr (dlt fs_val ft_val || unordered) s
  else if f =? COP1_C_OLE then cop1_compare instr (dle fs_val ft_val) s
  else if f =? COP1_C_ULE then cop1_compare instr (dle fs_val ft_val || unordered) s
  else if f =? COP1_CVT_D then exec_CVT_D instr s
  else if f =? COP1_CVT_W then exec_CVT_W instr s
  else if f =? COP1_CVT_S then exec_CVT_S instr s
  else Err UnimplementedInstruction.

Definition exec_MFC1 (instr : Z) (s : Simulator) : outcome Simulator :=
  ASSERT Bits instr 0 11 =? 0 ;;
  let* fs_val := get_fregister (FsField instr) s in
  Ok (set_register (RtField instr) fs_val s).

Definition exec_MTC1 (instr : Z) (s : Simulator) : outcome Simulator :=
  ASSERT Bits instr 0 11 =? 0 ;;
  let rt_val := rt_reg instr s in
  set_fregister (FsField instr) rt_val s.

Definition exec_BC1 (instr : Z) (s : Simulator) : outcome Simulator :=
  ASSERT Bit instr 17 =? 0 ;;
  let cc := Bits instr 18 3 in
  let fcsr_cc := get_fcsr_condition_bit cc in
  if Bit instr 16 =? 1 then DoBranch instr (test_fcsr_bit fcsr_cc s) false s
  else DoBranch instr (negb (test_fcsr_bit fcsr_cc s)) false s.

(** The sub-operations. *)
Definition DecodeCop1_sub (instr : Z) (s : Simulator) : outcome Simulator :=
  let f := Cop1SubField instr in
  if f =? COP1_MF then exec_MFC1 instr s
  else if f =? COP1_MT then exec_MTC1 instr s
  else if f =? COP1_BC then exec_BC1 instr s
  else Err UnimplementedInstruction.

Definition DecodeCop1 (instr : Z) (s : Simulator) : outcome Simulator :=
  ASSERT OpcodeField instr =? COP1 ;;
  if HasFormat instr then DecodeCop1_format instr s else DecodeCop1_sub instr s.

(** ** The other opcodes *)
Definition exec_ADDIU (instr : Z) (s : Simulator) : outcome Simulator :=
  let rs_val := rs_reg instr s in
  let imm_val := SImmField instr in
  let res := int32 (rs_val + imm_val) in
  Ok (set_register (RtField instr) res s).

Definition exec_ANDI (instr : Z) (s : Simulator) : outcome Simulator :=
  let rs_val := rs_reg instr s in
  Ok (set_register (RtField instr) (Z.land rs_val (UImmField instr)) s).

Definition exec_BEQ (instr : Z) (likely : bool) (s : Simulator) : outcome Simulator :=
  let rs_val := rs_reg instr s in
  let rt_val := rt_reg instr s in
  DoBranch instr (rs_val =? rt_val) likely s.

Definition exec_BGTZ (instr : Z) (likely : bool) (s : Simulator) : outcome Simulator :=
  ASSERT RtField instr =? R0 ;;
  let rs_val := rs_reg instr s in
  DoBranch instr (rs_val >? 0) likely s.

Definition exec_BLEZ (instr : Z) (likely : bool) (s : Simulator) : outcome Simulator :=
  ASSERT RtField instr =? R0 ;;
  let rs_val := rs_reg instr s in
  DoBranch instr (rs_val <=? 0) likely s.

Definition exec_BNE (instr : Z) (likely : bool) (s : Simulator) : outcome Simulator :=
  let rs_val := rs_reg instr s in
  let rt_val := rt_reg instr s in
  DoBranch instr (negb (rs_val =? rt_val)) likely s.

(** [uword addr = base_val + imm_val] *)
Definition effective_address (instr : Z) (s : Simulator) : Z :=
  uint32 (rs_reg instr s + SImmField instr).

(** The guard of every load and store. *)
Definition checked (addr : Z) (k : outcome Simulator) : outcome Simulator :=
  if IsIllegalAddress addr then Err (IllegalAccess addr) else k.

Definition exec_LB (instr : Z) (s : Simulator) : outcome Simulator :=
  let addr := effective_address instr s in
  checked addr (let* res := ReadB addr s in Ok (set_register (RtField instr) res s)).

Definition exec_LBU (instr : Z) (s : Simulator) : outcome Simulator :=
  let addr := effective_address instr s in
  checked addr (let* res := ReadBU addr s in Ok (set_register (RtField instr) res s)).

Definition exec_LDC1 (instr : Z) (s : Simulator) : outcome Simulator :=
  let addr := effective_address instr s in
  checked addr (let* value := ReadD addr s in
                set_fregister_double (FtField instr) value s).

Definition exec_LH (instr : Z) (s : Simulator) : outcome Simulator :=
  let addr := effective_address instr s in
  checked addr (let* res := ReadH addr s in Ok (set_register (RtField instr) res s)).

Definition exec_LHU (instr : Z) (s : Simulator) : outcome Simulator :=
  let addr := effective_address instr s in
  checked addr (let* res := ReadHU addr s in Ok (set_register (RtField instr) res s)).

Definition exec_LUI (instr : Z) (s : Simulator) : outcome Simulator :=
  ASSERT RsField instr =? 0 ;;
  Ok (set_register (RtField instr) (Z.shiftl (UImmField instr) 16) s).

Definition exec_LW (instr : Z) (s : Simulator) : outcome Simulator :=
  let addr := effective_address instr s in
  checked addr (let* res := ReadW addr s in Ok (set_register (RtField instr) res s)).

Definition exec_LWC1 (instr : Z) (s : Simulator) : outcome Simulator :=
  let addr := effective_address instr s in
  checked addr (let* value := ReadW addr s in set_fregister (FtField instr) value s).

Definition exec_ORI (instr : Z) (s : Simulator) : outcome Simulator :=
  let rs_val := rs_reg instr s in
  Ok (set_register (RtField instr) (Z.lor rs_val (UImmField instr)) s).

Definition exec_SB (instr : Z) (s : Simulator) : outcome Simulator :=
  let rt_val := rt_reg instr s in
  let addr := effective_address instr s in
  checked addr (WriteB addr (Z.land rt_val 0xff) s).

Definition exec_SLTI (instr : Z) (s : Simulator) : outcome Simulator :=
  let rs_val := rs_reg instr s in
  let imm_val := SImmField instr in
  Ok (set_register (RtField instr) (if rs_val <? imm_val then 1 else 0) s).

Definition exec_SLTIU (instr : Z) (s : Simulator) : outcome Simulator :=
  let rs_val := uint32 (rs_reg instr s) in
  let imm_val := SImmField instr in
  let immu_val := uint32 imm_val in
  Ok (set_register (RtField instr) (if rs_val <? immu_val then 1 else 0) s).

Definition exec_SDC1 (instr : Z) (s : Simulator) : outcome Simulator :=
  let addr := effective_address instr s in
  checked addr (let* value := get_fregister_double (FtField instr) s in
                WriteD addr value s).

Definition exec_SH (instr : Z) (s : Simulator) : outcome Simulator :=
  let rt_val := rt_reg instr s in
  let addr := effective_address instr s in
  checked addr (WriteH addr (Z.land rt_val 0xffff) s).

Definition exec_SW (instr : Z) (s : Simulator) : outcome Simulator :=
  let rt_val := rt_reg instr s in
  let addr := effective_address instr s in
  checked addr (WriteW addr rt_val s).

Definition exec_SWC1 (instr : Z) (s : Simulator) : outcome Simulator :=
  let addr := effective_address instr s in
  checked addr (let* value := get_fregister (FtField instr) s in
                WriteW addr value s).

Definition exec_XORI (instr : Z) (s : Simulator) : outcome Simulator :=
  let rs_val := rs_reg instr s in
  Ok (set_register (RtField instr) (Z.lxor rs_val (UImmField instr)) s).

(** The dispatch of [InstructionDecode], before the pc is incremented. *)
Definition dispatch (instr : Z) (s : Simulator) : outcome Simulator :=
  let op := OpcodeField instr in
  if op =? SPECIAL then DecodeSpecial instr s
  else if op =? SPECIAL2 then DecodeSpecial2 instr s
  else if op =? REGIMM then DecodeRegImm instr s
  else if op =? COP1 then DecodeCop1 instr s
  else if op =? ADDIU then exec_ADDIU instr s
  else if op =? ANDI then exec_ANDI instr s
  else if op =? BEQ then exec_BEQ instr false s
  else if op =? BEQL then exec_BEQ instr true s
  else if op =? BGTZ then exec_BGTZ instr false s
  else if op =? BGTZL then exec_BGTZ instr true s
  else if op =? BLEZ then exec_BLEZ instr false s
  else if op =? BLEZL then exec_BLEZ instr true s
  else if op =? BNE then exec_BNE instr false s
  else if op =? BNEL then exec_BNE instr true s
  else if op =? LB then exec_LB instr s
  else if op =? LBU then exec_LBU instr s
  else if op =? LDC1 then exec_LDC1 instr s
  else if op =? LH then exec_LH instr s
  else if op =? LHU then exec_LHU instr s
  else if op =? LUI then exec_LUI instr s
  else if op =? LW then exec_LW instr s
  else if op =? LWC1 then exec_LWC1 instr s
  else if op =? ORI then exec_ORI instr s
  else if op =? SB then exec_SB instr s
  else if op =? SLTI then exec_SLTI instr s
  else if op =? SLTIU then exec_SLTIU instr s
  else if op =? SDC1 then exec_SDC1 instr s
  else if op =? SH then exec_SH instr s
  else if op =? SW then exec_SW instr s
  else if op =? SWC1 then exec_SWC1 instr s
  else if op =? XORI then exec_XORI instr s
  else Err UnimplementedInstruction.

(** [InstructionDecode]: the dispatch and the regular pc increment. *)
Definition decode_step (instr : Z) (s : Simulator) : outcome Simulator :=
  let* s := dispatch instr s in
  Ok (with_pc (uint32 (pc_ s + kInstrSize)) s).

End Decode.

(** * Execution *)
(** [Instr::At(pc)->InstructionBits()] *)
Definition fetch (pc : Z) (s : Simulator) : outcome Z :=
  let* w := load_le 4 pc s in Ok (int32 w).

Section Execute.
Context (host : Host).

(** The fuel bounds the nesting of delay slots. *)
Fixpoint InstructionDecode (fuel : nat) (instr : Z) (s : Simulator) : outcome Simulator :=
  let ExecuteDelaySlot (s : Simulator) : outcome Simulator :=
    match fuel with
    | O => Err OutOfFuel
    | S fuel =>
        ASSERT negb (pc_ s =? kEndSimulatingPC) ;;
        let s := with_delay_slot true s in
        let s := with_icount (uint64 (icount_ s + 1)) s in
        let* instr := fetch (uint32 (pc_ s + kInstrSize)) s in
        let* s := InstructionDecode fuel instr s in
        Ok (with_delay_slot false s)
    end in
  decode_step host ExecuteDelaySlot instr s.

(** [ExecuteDelaySlot], with the stop flag at its default. *)
Definition ExecuteDelaySlot (fuel : nat) (s : Simulator) : outcome Simulator :=
  match fuel with
  | O => Err OutOfFuel
  | S fuel =>
      ASSERT negb (pc_ s =? kEndSimulatingPC) ;;
      let s := with_delay_slot true s in
      let s := with_icount (uint64 (icount_ s + 1)) s in
      let* instr := fetch (uint32 (pc_ s + kInstrSize)) s in
      let* s := InstructionDecode fuel instr s in
      Ok (with_delay_slot false s)
  end.

(** A jump is not allowed in a delay slot: the nesting is at most one. *)
Definition kNesting : nat := 1.

(** One iteration of the dispatch loop of [Execute]. *)
Definition step (s : Simulator) : outcome Simulator :=
  let s := with_icount (uint64 (icount_ s + 1)) s in
  if IsIllegalAddress (pc_ s) then Err (IllegalAccess (pc_ s))
  else
    let* instr := fetch (pc_ s) s in
    InstructionDecode kNesting instr s.

(** [Execute]: [while (pc_ != kEndSimulatingPC)]. *)
Fixpoint Execute (fuel : nat) (s : Simulator) : outcome Simulator :=
  if pc_ s =? kEndSimulatingPC then Ok s
  else
    match fuel with
    | O => Err OutOfFuel
    | S fuel => let* s := step s in Execute fuel s
    end.

(** [n] iterations of the loop. *)
Fixpoint steps (n : nat) (s : Simulator) : outcome Simulator :=
  match n with
  | O => Ok s
  | S n => let* s := step s in steps n s
  end.

End Execute.
