(* ===== verification/MipsCalls.v ===== *)
(** Calls into simulated code ([Simulator::Call]) and the redirections through
    which simulated code calls the host ([class Redirection]), both of
    [vm/simulator_mips.cc]. *)
From stdpp Require Import base numbers list gmap.
From Stdlib Require Import ZArith Lia Bool.
From S2P Require Import Prelude Utils MipsConstants HostFloat MipsState MipsSimulator.
#[local] Open Scope Z_scope.

(** * Redirections *)
(** The global list of redirections, the newest first.  A new redirection is
    allocated by the host: [fresh] is the address of its break instruction. *)
Fixpoint Redirection_find (external : Z) (list_ : list Redirection) : option Redirection :=
  match list_ with
  | [] => None
  | current :: next_ =>
      if external_function current =? external then Some current
      else Redirection_find external next_
  end.

Definition Redirection_Get (fresh external : Z) (kind : CallKind) (count : Z)
  (list_ : list Redirection) : Redirection * list Redirection :=
  match Redirection_find external list_ with
  | Some current => (current, list_)
  | None =>
      let r := mkRedirection external kind count fresh in
      (r, r :: list_)
  end.

(** [Redirection::FunctionForRedirect] and [Simulator::FunctionForRedirect]. *)
Fixpoint FunctionForRedirect (address_of_break : Z) (list_ : list Redirection) : Z :=
  match list_ with
  | [] => 0
  | current :: next_ =>
      if address_of_break_instruction current =? address_of_break
      then external_function current
      else FunctionForRedirect address_of_break next_
  end.

Definition RedirectExternalReference (fresh function : Z) (kind : CallKind) (count : Z)
  (list_ : list Redirection) : Z * list Redirection :=
  let (redirection, list_) := Redirection_Get fresh function kind count list_ in
  (address_of_break_instruction redirection, list_).

(** * Calling simulated code *)
(** The callee-saved registers, in the order the code saves them. *)
Definition callee_saved : list Z := [R16; R17; R18; R19; R20; R21; R22; R23].
Definition callee_saved_d : list Z := [D10; D11; D12; D13; D14; D15].

Fixpoint set_registers (rl vl : list Z) (s : Simulator) : Simulator :=
  match rl, vl with
  | r :: rl, v :: vl => set_registers rl vl (set_register r v s)
  | _, _ => s
  end.

Fixpoint set_dregisters (rl vl : list Z) (s : Simulator) : outcome Simulator :=
  match rl, vl with
  | r :: rl, v :: vl => let* s := set_dregister r v s in set_dregisters rl vl s
  | _, _ => Ok s
  end.

Fixpoint get_dregisters (rl : list Z) (s : Simulator) : outcome (list Z) :=
  match rl with
  | [] => Ok []
  | r :: rl =>
      let* v := get_dregister r s in
      let* vl := get_dregisters rl s in
      Ok (v :: vl)
  end.

(** The assertions after the run: every register still holds [value]. *)
Definition all_registers (rl : list Z) (value : Z) (s : Simulator) : bool :=
  forallb (fun r => value =? get_register r s) rl.

Fixpoint all_dregisters (rl : list Z) (value : Z) (s : Simulator) : outcome bool :=
  match rl with
  | [] => Ok true
  | r :: rl =>
      let* v := get_dregister_bits r s in
      let* rest := all_dregisters rl value s in
      Ok ((value =? v) && rest)
  end.

(** [OS::ActivationFrameAlignment()] for the MIPS target ([vm/os_linux.cc]). *)
Definition ActivationFrameAlignment : Z := 8.

Section Call.
Context (host : Host).

Definition set_parameters (p0 p1 p2 p3 : Z) (fp_args : bool) (s : Simulator)
  : outcome Simulator :=
  if fp_args then
    let* s := set_fregister F0 p0 s in
    let* s := set_fregister F1 p1 s in
    let* s := set_fregister F2 p2 s in
    set_fregister F3 p3 s
  else
    let s := set_register A0 p0 s in
    let s := set_register A1 p1 s in
    let s := set_register A2 p2 s in
    Ok (set_register A3 p3 s).

(** The stack pointer of the callee. *)
Definition align_stack (stack_pointer : Z) : outcome Z :=
  if ActivationFrameAlignment >? 1 then
    let* sp := RoundDown 32 (uint32 stack_pointer) ActivationFrameAlignment in Ok (int32 sp)
  else Ok stack_pointer.

(** The fuel bounds the instructions the callee executes. *)
Definition Call (fuel : nat) (entry p0 p1 p2 p3 : Z) (fp_return fp_args : bool)
  (s : Simulator) : outcome (Z * Simulator) :=
  let sp_before_call := get_register SP s in
  let* s := set_parameters p0 p1 p2 p3 fp_args s in
  let* stack_pointer := align_stack sp_before_call in
  let s := set_register SP stack_pointer s in
  let s := set_pc entry s in
  let s := set_register RA kEndSimulatingPC s in
  let saved := map (fun r => get_register r s) callee_saved in
  let* saved_d := get_dregisters callee_saved_d s in
  let callee_saved_value := int32 (icount_ s) in
  let s := set_registers callee_saved (map (fun _ => callee_saved_value) callee_saved) s in
  let* s := set_dregisters callee_saved_d (map (fun _ => callee_saved_value) callee_saved_d) s in
  let* s := Execute host fuel s in
  ASSERT all_registers callee_saved callee_saved_value s ;;
  let* preserved := all_dregisters callee_saved_d callee_saved_value s in
  ASSERT preserved ;;
  let s := set_registers callee_saved saved s in
  let* s := set_dregisters callee_saved_d saved_d s in
  let s := set_register SP sp_before_call s in
  let* return_value :=
    if fp_return then
      let* f0 := get_fregister F0 s in
      let* f1 := get_fregister F1 s in
      Ok (LowHighTo64Bits (uint32 f0) f1)
    else Ok (LowHighTo64Bits (uint32 (get_register V0 s)) (get_register V1 s)) in
  Ok (return_value, s).
End Call.
