(* ===== verification/MipsExclusive.v ===== *)
(** The exclusive access tags of the simulator, shared by all threads
    ([Simulator::SetExclusiveAccess] to [Simulator::CompareExchange] in
    [vm/simulator_mips.cc]), and the load-linked / store-conditional guarantee
    they give.

    The operations hold [exclusive_access_lock_], so that a run of the threads is
    a sequence of operations.  A thread is a pointer; the null pointer marks a
    tag that was never used. *)
From stdpp Require Import base numbers list gmap.
From Stdlib Require Import ZArith Lia Bool.
From S2P Require Import Prelude Utils MipsConstants HostFloat MipsState.
#[local] Open Scope Z_scope.

(** * The tags *)
Record AddressTag : Type := mkTag { thread : Z; addr : Z }.

Definition kNumAddressTags : nat := 16.

Record Exclusive : Type := mkExclusive {
  exclusive_access_state_ : list AddressTag;
  next_address_tag_ : nat
}.

Definition new_Exclusive : Exclusive := mkExclusive (replicate kNumAddressTags (mkTag 0 0)) 0.

(** The [while] loop of [SetExclusiveAccess]: the index of the thread's tag, or
    the number of tags. *)
Fixpoint find_tag (current : Z) (tags : list AddressTag) : nat :=
  match tags with
  | [] => 0
  | tag :: tags => if thread tag =? current then 0 else S (find_tag current tags)
  end.

Definition SetExclusiveAccess (current address : Z) (e : Exclusive) : outcome Exclusive :=
  ASSERT negb (current =? 0) ;;
  let tags := exclusive_access_state_ e in
  let i := find_tag current tags in
  let '(i, next) :=
    if decide (i = kNumAddressTags) then
      (next_address_tag_ e,
       if decide (S (next_address_tag_ e) = kNumAddressTags) then 0%nat
       else S (next_address_tag_ e))
    else (i, next_address_tag_ e) in
  Ok (mkExclusive (<[i := mkTag current address]> tags) next).

(** One iteration of the loop of [HasExclusiveAccessAndOpen]. *)
Definition open_tag (current address : Z) (tag : AddressTag) : AddressTag :=
  if thread tag =? current then mkTag (thread tag) 0
  else if addr tag =? address then mkTag (thread tag) 0
  else tag.

Definition holds_tag (current address : Z) (tag : AddressTag) : bool :=
  (thread tag =? current) && (addr tag =? address).

Definition HasExclusiveAccessAndOpen (current address : Z) (e : Exclusive)
  : outcome (bool * Exclusive) :=
  ASSERT negb (current =? 0) ;;
  ASSERT negb (address =? 0) ;;
  let tags := exclusive_access_state_ e in
  Ok (existsb (holds_tag current address) tags,
      mkExclusive (map (open_tag current address) tags) (next_address_tag_ e)).

Definition ClearExclusive (current : Z) (e : Exclusive) : outcome Exclusive :=
  SetExclusiveAccess current 0 e.

Definition ReadExclusiveW (current address : Z) (s : Simulator) (e : Exclusive)
  : outcome (Z * Exclusive) :=
  let* e := SetExclusiveAccess current address e in
  let* v := ReadW address s in
  Ok (v, e).

Definition WriteExclusiveW (current address value : Z) (s : Simulator) (e : Exclusive)
  : outcome (Z * Simulator * Exclusive) :=
  let* (write_allowed, e) := HasExclusiveAccessAndOpen current address e in
  if write_allowed : bool then
    let* s := WriteW address value s in
    Ok (0, s, e)
  else Ok (1, s, e).

Definition CompareExchange (current address compare_value new_value : Z) (s : Simulator)
  (e : Exclusive) : outcome (Z * Simulator * Exclusive) :=
  let* value := load_le 4 address s in
  if value =? compare_value then
    let* s := store_le 4 address new_value s in
    let* (_, e) := HasExclusiveAccessAndOpen current address e in
    Ok (value, s, e)
  else
    let* e := SetExclusiveAccess current address e in
    Ok (value, s, e).
