(* ===== verification/MipsAssembler.v ===== *)
(** The MIPS assembler ([vm/assembler_mips.h], [vm/assembler_mips.cc]) over the
    assembler buffer ([vm/assembler.h]).

    The buffer is the list of the 32-bit words emitted: on MIPS every emission
    and every patch is one [int32_t] at a multiple of four, and the capacity
    checks only grow the backing store. *)
From stdpp Require Import base numbers list.
From Stdlib Require Import ZArith Lia Bool.
From S2P Require Import Prelude Utils MipsConstants.
Import Instr.
#[local] Open Scope Z_scope.

Definition kWordSize : Z := 4.
Definition kSmiTagSize : Z := 1.
Definition kHeapObjectTag : Z := 1.

(** * The assembler's state *)
Record Assembler : Type := mkAssembler {
  buffer_ : list Z;
  fixups_ : list Z;
  prologue_offset_ : Z;
  FLAG_use_far_branches : bool;
  use_far_branches_ : bool;
  delay_slot_available_ : bool;
  in_delay_slot_ : bool;
  allow_constant_pool_ : bool
}.

Definition with_buffer b a := mkAssembler b (fixups_ a) (prologue_offset_ a)
  (FLAG_use_far_branches a) (use_far_branches_ a) (delay_slot_available_ a)
  (in_delay_slot_ a) (allow_constant_pool_ a).
Definition with_fixups f a := mkAssembler (buffer_ a) f (prologue_offset_ a)
  (FLAG_use_far_branches a) (use_far_branches_ a) (delay_slot_available_ a)
  (in_delay_slot_ a) (allow_constant_pool_ a).
Definition with_prologue_offset p a := mkAssembler (buffer_ a) (fixups_ a) p
  (FLAG_use_far_branches a) (use_far_branches_ a) (delay_slot_available_ a)
  (in_delay_slot_ a) (allow_constant_pool_ a).
Definition with_delay_flags available inside a := mkAssembler (buffer_ a) (fixups_ a)
  (prologue_offset_ a) (FLAG_use_far_branches a) (use_far_branches_ a) available inside
  (allow_constant_pool_ a).

Definition new_Assembler (flag use_far_branches : bool) : Assembler :=
  {| buffer_ := []; fixups_ := []; prologue_offset_ := -1;
     FLAG_use_far_branches := flag; use_far_branches_ := use_far_branches;
     delay_slot_available_ := false; in_delay_slot_ := false;
     allow_constant_pool_ := true |}.

(** ** The buffer *)
Definition Size (a : Assembler) : Z := 4 * Z.of_nat (length (buffer_ a)).
Definition CodeSize (a : Assembler) : Z := Size a.

(** [Load<int32_t>(position)] and [Store<int32_t>(position, value)]. *)
Definition word_index (position : Z) : nat := Z.to_nat (position / 4).

Definition buffer_Load (position : Z) (a : Assembler) : outcome Z :=
  ASSERT (position >=? 0) && (position <=? Size a - 4) && (position mod 4 =? 0) ;;
  Ok (nth (word_index position) (buffer_ a) 0).

Definition buffer_Store (position value : Z) (a : Assembler) : outcome Assembler :=
  ASSERT (position >=? 0) && (position <=? Size a - 4) && (position mod 4 =? 0) ;;
  Ok (with_buffer (<[word_index position := int32 value]> (buffer_ a)) a).

Definition EmitFixup (a : Assembler) : Assembler := with_fixups (Size a :: fixups_ a) a.

Definition use_far_branches (a : Assembler) : bool :=
  FLAG_use_far_branches a || use_far_branches_ a.

Definition set_use_far_branches (b : bool) (a : Assembler) : outcome Assembler :=
  ASSERT Size a =? 0 ;;
  Ok (mkAssembler (buffer_ a) (fixups_ a) (prologue_offset_ a) (FLAG_use_far_branches a) b
        (delay_slot_available_ a) (in_delay_slot_ a) (allow_constant_pool_ a)).

Definition SetPrologueOffset (a : Assembler) : Assembler :=
  if prologue_offset_ a =? -1 then with_prologue_offset (CodeSize a) a else a.

(** [delay_slot()]: takes back the nop of the last branch. *)
Definition delay_slot (a : Assembler) : outcome Assembler :=
  ASSERT delay_slot_available_ a ;;
  let* last := buffer_Load (Size a - 4) a in
  ASSERT last =? kNopInstruction ;;
  let a := with_buffer (removelast (buffer_ a)) a in
  Ok (with_delay_flags false true a).

(** Emitting an instruction clears the delay slot state. *)
Definition Emit (value : Z) (a : Assembler) : Assembler :=
  with_buffer (buffer_ a ++ [int32 value]) (with_delay_flags false false a).

(** ** Operands *)
Record Address : Type := mkAddress { base_ : Z; offset_ : Z }.

Definition FieldAddress (base disp : Z) : Address := mkAddress base (disp - kHeapObjectTag).

Definition Address_encoding (addr : Address) : outcome Z :=
  ASSERT IsInt kImmBits (offset_ addr) ;;
  let imm_value := to_u 16 (offset_ addr) in
  Ok (Z.lor (Z.shiftl (base_ addr) kRsShift) imm_value).

Definition CanHoldOffset (offset : Z) : bool := IsInt kImmBits offset.

(** ** Instruction formats *)
Definition IType (opcode rs rt imm : Z) : Z :=
  Z.lor (Z.lor (Z.lor (Z.shiftl opcode kOpcodeShift) (Z.shiftl rs kRsShift))
               (Z.shiftl rt kRtShift)) imm.

Definition EmitIType (opcode rs rt imm : Z) (a : Assembler) : Assembler :=
  Emit (IType opcode rs rt imm) a.

Definition EmitLoadStore (opcode rt : Z) (addr : Address) (a : Assembler) : outcome Assembler :=
  let* enc := Address_encoding addr in
  Ok (Emit (Z.lor (Z.lor (Z.shiftl opcode kOpcodeShift) (Z.shiftl rt kRtShift)) enc) a).

Definition EmitFpuLoadStore (opcode ft : Z) (addr : Address) (a : Assembler) : outcome Assembler :=
  let* enc := Address_encoding addr in
  Ok (Emit (Z.lor (Z.lor (Z.shiftl opcode kOpcodeShift) (Z.shiftl ft kFtShift)) enc) a).

Definition EmitRegImmType (opcode rs code imm : Z) (a : Assembler) : Assembler :=
  Emit (Z.lor (Z.lor (Z.lor (Z.shiftl opcode kOpcodeShift) (Z.shiftl rs kRsShift))
                     (Z.shiftl code kRtShift)) imm) a.

Definition RType (opcode rs rt rd sa func : Z) : Z :=
  Z.lor (Z.lor (Z.lor (Z.lor (Z.lor (Z.shiftl opcode kOpcodeShift) (Z.shiftl rs kRsShift))
                             (Z.shiftl rt kRtShift))
                      (Z.shiftl rd kRdShift))
               (Z.shiftl sa kSaShift))
        (Z.shiftl func kFunctionShift).

Definition EmitRType (opcode rs rt rd sa func : Z) (a : Assembler) : outcome Assembler :=
  ASSERT IsUint 5 sa ;; Ok (Emit (RType opcode rs rt rd sa func) a).

Definition FpuRType (opcode fmt ft fs fd func : Z) : Z :=
  Z.lor (Z.lor (Z.lor (Z.lor (Z.lor (Z.shiftl opcode kOpcodeShift) (Z.shiftl fmt kFmtShift))
                             (Z.shiftl ft kFtShift))
                      (Z.shiftl fs kFsShift))
               (Z.shiftl fd kFdShift))
        (Z.shiftl func kCop1FnShift).

Definition EmitFpuRType (opcode fmt ft fs fd func : Z) (a : Assembler) : Assembler :=
  Emit (FpuRType opcode fmt ft fs fd func) a.

Definition EmitBranchDelayNop (a : Assembler) : Assembler :=
  with_delay_flags true (in_delay_slot_ (Emit kNopInstruction a)) (Emit kNopInstruction a).

(** * Instructions without a label, in alphabetical order *)
Definition addd (dd ds dt : Z) (a : Assembler) : Assembler :=
  EmitFpuRType COP1 FMT_D (dt * 2) (ds * 2) (dd * 2) COP1_ADD a.

Definition addiu (rt rs imm : Z) (a : Assembler) : outcome Assembler :=
  ASSERT IsInt kImmBits imm ;; Ok (EmitIType ADDIU rs rt (to_u 16 imm) a).

Definition addu (rd rs rt : Z) : Assembler -> outcome Assembler :=
  EmitRType SPECIAL rs rt rd 0 ADDU.

Definition and_ (rd rs rt : Z) : Assembler -> outcome Assembler :=
  EmitRType SPECIAL rs rt rd 0 AND.

Definition andi (rt rs imm : Z) (a : Assembler) : outcome Assembler :=
  ASSERT IsUint kImmBits imm ;; Ok (EmitIType ANDI rs rt (to_u 16 imm) a).

Definition break_ (code : Z) (a : Assembler) : outcome Assembler :=
  ASSERT IsUint 20 code ;;
  Ok (Emit (Z.lor (Z.lor (Z.shiftl SPECIAL kOpcodeShift) (Z.shiftl code kBreakCodeShift))
                  (Z.shiftl BREAK kFunctionShift)) a).

Definition cfd (ds dt : Z) : Assembler -> Assembler :=
  EmitFpuRType COP1 FMT_D (dt * 2) (ds * 2) F0 COP1_C_F.
Definition cund (ds dt : Z) : Assembler -> Assembler :=
  EmitFpuRType COP1 FMT_D (dt * 2) (ds * 2) F0 COP1_C_UN.
Definition ceqd (ds dt : Z) : Assembler -> Assembler :=
  EmitFpuRType COP1 FMT_D (dt * 2) (ds * 2) F0 COP1_C_EQ.
Definition cueqd (ds dt : Z) : Assembler -> Assembler :=
  EmitFpuRType COP1 FMT_D (dt * 2) (ds * 2) F0 COP1_C_UEQ.
Definition coltd (ds dt : Z) : Assembler -> Assembler :=
  EmitFpuRType COP1 FMT_D (dt * 2) (ds * 2) F0 COP1_C_OLT.
Definition cultd (ds dt : Z) : Assembler -> Assembler :=
  EmitFpuRType COP1 FMT_D (dt * 2) (ds * 2) F0 COP1_C_ULT.
Definition coled (ds dt : Z) : Assembler -> Assembler :=
  EmitFpuRType COP1 FMT_D (dt * 2) (ds * 2) F0 COP1_C_OLE.
Definition culed (ds dt : Z) : Assembler -> Assembler :=
  EmitFpuRType COP1 FMT_D (dt * 2) (ds * 2) F0 COP1_C_ULE.

Definition clo (rd rs : Z) : Assembler -> outcome Assembler :=
  EmitRType SPECIAL2 rs rd rd 0 CLO.
Definition clz (rd rs : Z) : Assembler -> outcome Assembler :=
  EmitRType SPECIAL2 rs rd rd 0 CLZ.

Definition cvtds (dd fs : Z) : Assembler -> Assembler :=
  EmitFpuRType COP1 FMT_S F0 fs (dd * 2) COP1_CVT_D.
Definition cvtdw (dd fs : Z) : Assembler -> Assembler :=
  EmitFpuRType COP1 FMT_W F0 fs (dd * 2) COP1_CVT_D.
Definition cvtdl (dd ds : Z) : Assembler -> Assembler :=
  EmitFpuRType COP1 FMT_L F0 (ds * 2) (dd * 2) COP1_CVT_D.
Definition cvtsd (fd ds : Z) : Assembler -> Assembler :=
  EmitFpuRType COP1 FMT_D F0 (ds * 2) fd COP1_CVT_S.
Definition cvtwd (fd ds : Z) : Assembler -> Assembler :=
  EmitFpuRType COP1 FMT_D F0 (ds * 2) fd COP1_CVT_W.

Definition div (rs rt : Z) : Assembler -> outcome Assembler :=
  EmitRType SPECIAL rs rt R0 0 DIV.
Definition divd (dd ds dt : Z) : Assembler -> Assembler :=
  EmitFpuRType COP1 FMT_D (dt * 2) (ds * 2) (dd * 2) COP1_DIV.
Definition divu (rs rt : Z) : Assembler -> outcome Assembler :=
  EmitRType SPECIAL rs rt R0 0 DIVU.

Definition jalr (rs rd : Z) (a : Assembler) : outcome Assembler :=
  ASSERT negb (rs =? rd) ;;
  ASSERT negb (in_delay_slot_ a) ;;
  let* a := EmitRType SPECIAL rs R0 rd 0 JALR a in
  Ok (EmitBranchDelayNop a).

Definition jr (rs : Z) (a : Assembler) : outcome Assembler :=
  ASSERT negb (in_delay_slot_ a) ;;
  let* a := EmitRType SPECIAL rs R0 R0 0 JR a in
  Ok (EmitBranchDelayNop a).

Definition lb (rt : Z) (addr : Address) : Assembler -> outcome Assembler := EmitLoadStore LB rt addr.
Definition lbu (rt : Z) (addr : Address) : Assembler -> outcome Assembler := EmitLoadStore LBU rt addr.
Definition ldc1 (dt : Z) (addr : Address) : Assembler -> outcome Assembler :=
  EmitFpuLoadStore LDC1 (dt * 2) addr.
Definition lh (rt : Z) (addr : Address) : Assembler -> outcome Assembler := EmitLoadStore LH rt addr.
Definition lhu (rt : Z) (addr : Address) : Assembler -> outcome Assembler := EmitLoadStore LHU rt addr.

Definition lui (rt imm : Z) (a : Assembler) : outcome Assembler :=
  ASSERT IsUint kImmBits imm ;; Ok (EmitIType LUI R0 rt (to_u 16 imm) a).

Definition lw (rt : Z) (addr : Address) : Assembler -> outcome Assembler := EmitLoadStore LW rt addr.
Definition lwc1 (ft : Z) (addr : Address) : Assembler -> outcome Assembler :=
  EmitFpuLoadStore LWC1 ft addr.
Definition madd (rs rt : Z) : Assembler -> outcome Assembler :=
  EmitRType SPECIAL2 rs rt R0 0 MADD.
Definition maddu (rs rt : Z) : Assembler -> outcome Assembler :=
  EmitRType SPECIAL2 rs rt R0 0 MADDU.

Definition cop1_move (sub rt fs : Z) : Z :=
  Z.lor (Z.lor (Z.lor (Z.shiftl COP1 kOpcodeShift) (Z.shiftl sub kCop1SubShift))
               (Z.shiftl rt kRtShift)) (Z.shiftl fs kFsShift).
Definition mfc1 (rt fs : Z) : Assembler -> Assembler := Emit (cop1_move COP1_MF rt fs).
Definition mfhi (rd : Z) : Assembler -> outcome Assembler := EmitRType SPECIAL R0 R0 rd 0 MFHI.
Definition mflo (rd : Z) : Assembler -> outcome Assembler := EmitRType SPECIAL R0 R0 rd 0 MFLO.
Definition or_ (rd rs rt : Z) : Assembler -> outcome Assembler := EmitRType SPECIAL rs rt rd 0 OR.
Definition mov (rd rs : Z) : Assembler -> outcome Assembler := or_ rd rs ZR.
Definition movd (dd ds : Z) : Assembler -> Assembler :=
  EmitFpuRType COP1 FMT_D F0 (ds * 2) (dd * 2) COP1_MOV.
Definition movf (rd rs : Z) : Assembler -> outcome Assembler := EmitRType SPECIAL rs R0 rd 0 MOVCI.
Definition movn (rd rs rt : Z) : Assembler -> outcome Assembler := EmitRType SPECIAL rs rt rd 0 MOVN.
Definition movt (rd rs : Z) : Assembler -> outcome Assembler := EmitRType SPECIAL rs R1 rd 0 MOVCI.
Definition movz (rd rs rt : Z) : Assembler -> outcome Assembler := EmitRType SPECIAL rs rt rd 0 MOVZ.
Definition movs (fd fs : Z) : Assembler -> Assembler := EmitFpuRType COP1 FMT_S F0 fs fd COP1_MOV.
Definition mtc1 (rt fs : Z) : Assembler -> Assembler := Emit (cop1_move COP1_MT rt fs).
Definition mthi (rs : Z) : Assembler -> outcome Assembler := EmitRType SPECIAL rs R0 R0 0 MTHI.
Definition mtlo (rs : Z) : Assembler -> outcome Assembler := EmitRType SPECIAL rs R0 R0 0 MTLO.
Definition muld (dd ds dt : Z) : Assembler -> Assembler :=
  EmitFpuRType COP1 FMT_D (dt * 2) (ds * 2) (dd * 2) COP1_MUL.
Definition mult (rs rt : Z) : Assembler -> outcome Assembler := EmitRType SPECIAL rs rt R0 0 MULT.
Definition multu (rs rt : Z) : Assembler -> outcome Assembler := EmitRType SPECIAL rs rt R0 0 MULTU.
Definition nop : Assembler -> Assembler := Emit kNopInstruction.
Definition nor (rd rs rt : Z) : Assembler -> outcome Assembler := EmitRType SPECIAL rs rt rd 0 NOR.

Definition ori (rt rs imm : Z) (a : Assembler) : outcome Assembler :=
  ASSERT IsUint kImmBits imm ;; Ok (EmitIType ORI rs rt (to_u 16 imm) a).

Definition sb (rt : Z) (addr : Address) : Assembler -> outcome Assembler := EmitLoadStore SB rt addr.
Definition sdc1 (dt : Z) (addr : Address) : Assembler -> outcome Assembler :=
  EmitFpuLoadStore SDC1 (dt * 2) addr.
Definition sh (rt : Z) (addr : Address) : Assembler -> outcome Assembler := EmitLoadStore SH rt addr.
Definition sll (rd rt sa : Z) : Assembler -> outcome Assembler := EmitRType SPECIAL R0 rt rd sa SLL.
Definition sllv (rd rt rs : Z) : Assembler -> outcome Assembler := EmitRType SPECIAL rs rt rd 0 SLLV.
Definition slt (rd rs rt : Z) : Assembler -> outcome Assembler := EmitRType SPECIAL rs rt rd 0 SLT.

Definition slti (rt rs imm : Z) (a : Assembler) : outcome Assembler :=
  ASSERT IsInt kImmBits imm ;; Ok (EmitIType SLTI rs rt (to_u 16 imm) a).

Definition sltiu (rt rs imm : Z) (a : Assembler) : outcome Assembler :=
  ASSERT IsInt kImmBits imm ;; Ok (EmitIType SLTIU rs rt (to_u 16 imm) a).

Definition sltu (rd rs rt : Z) : Assembler -> outcome Assembler := EmitRType SPECIAL rs rt rd 0 SLTU.
Definition sqrtd (dd ds : Z) : Assembler -> Assembler :=
  EmitFpuRType COP1 FMT_D F0 (ds * 2) (dd * 2) COP1_SQRT.
Definition sra (rd rt sa : Z) : Assembler -> outcome Assembler := EmitRType SPECIAL R0 rt rd sa SRA.
Definition srav (rd rt rs : Z) : Assembler -> outcome Assembler := EmitRType SPECIAL rs rt rd 0 SRAV.
Definition srl (rd rt sa : Z) : Assembler -> outcome Assembler := EmitRType SPECIAL R0 rt rd sa SRL.
Definition srlv (rd rt rs : Z) : Assembler -> outcome Assembler := EmitRType SPECIAL rs rt rd 0 SRLV.
Definition subd (dd ds dt : Z) : Assembler -> Assembler :=
  EmitFpuRType COP1 FMT_D (dt * 2) (ds * 2) (dd * 2) COP1_SUB.
Definition subu (rd rs rt : Z) : Assembler -> outcome Assembler := EmitRType SPECIAL rs rt rd 0 SUBU.
Definition sw (rt : Z) (addr : Address) : Assembler -> outcome Assembler := EmitLoadStore SW rt addr.
Definition swc1 (ft : Z) (addr : Address) : Assembler -> outcome Assembler :=
  EmitFpuLoadStore SWC1 ft addr.

Definition xori (rt rs imm : Z) (a : Assembler) : outcome Assembler :=
  ASSERT IsUint kImmBits imm ;; Ok (EmitIType XORI rs rt (to_u 16 imm) a).

Definition xor_ (rd rs rt : Z) : Assembler -> outcome Assembler := EmitRType SPECIAL rs rt rd 0 XOR.
