(* ===== verification/MipsLabels.v ===== *)
(** Labels, branches and their linking in the MIPS assembler: the [Label] class
    and the branch instructions of [vm/assembler_mips.h], and the encoding,
    linking and binding code of [vm/assembler_mips.cc]. *)
From stdpp Require Import base numbers list.
From Stdlib Require Import ZArith Lia Bool.
From S2P Require Import Prelude Utils MipsConstants MipsAssembler.
Import Instr.
#[local] Open Scope Z_scope.

(** * Labels

    A label is unused ([position_ = 0]), linked to the branches that wait for
    it ([position_ > 0]) or bound ([position_ < 0]). *)
Record Label : Type := mkLabel { position_ : Z }.

Definition new_Label : Label := mkLabel 0.
Definition IsBound (l : Label) : bool := position_ l <? 0.
Definition IsUnused (l : Label) : bool := position_ l =? 0.
Definition IsLinked (l : Label) : bool := position_ l >? 0.

Definition Position (l : Label) : outcome Z :=
  ASSERT negb (IsUnused l) ;;
  Ok (if IsBound l then - position_ l - kWordSize else position_ l - kWordSize).

Definition BindTo (position : Z) (l : Label) : outcome Label :=
  ASSERT negb (IsBound l) ;;
  let l := mkLabel (- position - kWordSize) in
  ASSERT IsBound l ;; Ok l.

Definition LinkTo (position : Z) (l : Label) : outcome Label :=
  ASSERT negb (IsBound l) ;;
  let l := mkLabel (position + kWordSize) in
  ASSERT IsLinked l ;; Ok l.

(** * Branch offsets *)
Definition CanEncodeBranchOffset (offset : Z) : outcome bool :=
  let* aligned := IsAligned offset 4 in
  ASSERT aligned ;; Ok (IsInt 18 offset).

(** The error code of [Object::branch_offset_error()]. *)
Definition branch_offset_error : Z := 1.

Definition EncodeBranchOffset (offset instr : Z) (a : Assembler) : outcome Z :=
  let* can := CanEncodeBranchOffset offset in
  if negb can then
    ASSERT negb (use_far_branches a) ;; Err (LongJump branch_offset_error)
  else
    let offset := Z.shiftr offset 2 in
    let offset := Z.land offset kBranchOffsetMask in
    Ok (Z.lor (Z.land instr (Z.lnot kBranchOffsetMask)) offset).

Definition DecodeBranchOffset (instr : Z) : Z :=
  Z.shiftr (int32 (Z.shiftl (Z.land instr kBranchOffsetMask) 16)) 14.

Definition DecodeLoadImmediate (ori_instr lui_instr : Z) : Z :=
  Z.lor (int32 (Z.shiftl (Z.land lui_instr kBranchOffsetMask) 16))
        (Z.land ori_instr kBranchOffsetMask).

Definition EncodeLoadImmediate (dest instr : Z) : Z :=
  Z.lor (Z.land instr (Z.lnot kBranchOffsetMask)) (Z.land dest kBranchOffsetMask).

(** * Far jumps *)
Definition EmitFarJump (offset : Z) (link : bool) (a : Assembler) : outcome Assembler :=
  ASSERT negb (in_delay_slot_ a) ;;
  ASSERT use_far_branches a ;;
  let low := to_u 16 (Low16Bits offset) in
  let high := to_u 16 (High16Bits offset) in
  let a := EmitFixup a in
  let* a := lui T9 high a in
  let* a := ori T9 T9 low a in
  if link then EmitRType SPECIAL T9 R0 RA 0 JALR a
  else EmitRType SPECIAL T9 R0 R0 0 JR a.

Definition OppositeBranchOpcode (b : Z) : outcome Z :=
  if b =? BEQ then Ok BNE
  else if b =? BNE then Ok BEQ
  else if b =? BGTZ then Ok BLEZ
  else if b =? BLEZ then Ok BGTZ
  else if b =? BEQL then Ok BNEL
  else if b =? BNEL then Ok BEQL
  else if b =? BGTZL then Ok BLEZL
  else if b =? BLEZL then Ok BGTZL
  else Err Unreachable.

Definition EmitFarBranch (b rs rt offset : Z) (a : Assembler) : outcome Assembler :=
  ASSERT negb (in_delay_slot_ a) ;;
  let a := EmitIType b rs rt 4 a in
  let a := nop a in
  EmitFarJump offset false a.

Definition OppositeBranchNoLink (b : Z) : outcome Z :=
  if b =? BLTZ then Ok BGEZ
  else if b =? BGEZ then Ok BLTZ
  else if b =? BLTZAL then Ok BGEZ
  else if b =? BGEZAL then Ok BLTZ
  else Err Unreachable.

Definition EmitFarRegImmBranch (b rs offset : Z) (a : Assembler) : outcome Assembler :=
  ASSERT negb (in_delay_slot_ a) ;;
  let a := EmitRegImmType REGIMM rs b 4 a in
  let a := nop a in
  EmitFarJump offset ((b =? BLTZAL) || (b =? BGEZAL)) a.

(** The word of a branch on a floating point condition. *)
Definition fpu_branch_word (kind : bool) (dest_off : Z) : Z :=
  let b16 := if kind then Z.shiftl 1 16 else 0 in
  Z.lor (Z.lor (Z.lor (Z.shiftl COP1 kOpcodeShift) (Z.shiftl COP1_BC kCop1SubShift)) b16)
        dest_off.

Definition EmitFarFpuBranch (kind : bool) (offset : Z) (a : Assembler) : outcome Assembler :=
  ASSERT negb (in_delay_slot_ a) ;;
  let a := Emit (fpu_branch_word kind 4) a in
  let a := nop a in
  EmitFarJump offset false a.

(** * Branches to a label *)
(** Relative destination from an instruction after the branch. *)
Definition branch_dest (position : Z) (a : Assembler) : Z :=
  int32 (position - (Size a + kInstrSize)).

Definition EmitBranch (b rs rt : Z) (label : Label) (a : Assembler)
  : outcome (Assembler * Label) :=
  ASSERT negb (in_delay_slot_ a) ;;
  if IsBound label then
    let* position := Position label in
    let dest := branch_dest position a in
    let* can := CanEncodeBranchOffset dest in
    if use_far_branches a && negb can then
      let* opposite := OppositeBranchOpcode b in
      let* a := EmitFarBranch opposite rs rt position a in
      Ok (a, label)
    else
      let* dest_off := EncodeBranchOffset dest 0 a in
      Ok (EmitIType b rs rt (to_u 16 dest_off) a, label)
  else
    let position := Size a in
    let* a :=
      if use_far_branches a then
        EmitFarBranch b rs rt (int32 (position_ label)) a
      else
        let* dest_off := EncodeBranchOffset (int32 (position_ label)) 0 a in
        Ok (EmitIType b rs rt (to_u 16 dest_off) a) in
    let* label := LinkTo position label in
    Ok (a, label).

Definition EmitRegImmBranch (b rs : Z) (label : Label) (a : Assembler)
  : outcome (Assembler * Label) :=
  ASSERT negb (in_delay_slot_ a) ;;
  if IsBound label then
    let* position := Position label in
    let dest := branch_dest position a in
    let* can := CanEncodeBranchOffset dest in
    if use_far_branches a && negb can then
      let* opposite := OppositeBranchNoLink b in
      let* a := EmitFarRegImmBranch opposite rs position a in
      Ok (a, label)
    else
      let* dest_off := EncodeBranchOffset dest 0 a in
      Ok (EmitRegImmType REGIMM rs b (to_u 16 dest_off) a, label)
  else
    let position := Size a in
    let* a :=
      if use_far_branches a then
        EmitFarRegImmBranch b rs (int32 (position_ label)) a
      else
        let* dest_off := EncodeBranchOffset (int32 (position_ label)) 0 a in
        Ok (EmitRegImmType REGIMM rs b (to_u 16 dest_off) a) in
    let* label := LinkTo position label in
    Ok (a, label).

Definition EmitFpuBranch (kind : bool) (label : Label) (a : Assembler)
  : outcome (Assembler * Label) :=
  ASSERT negb (in_delay_slot_ a) ;;
  if IsBound label then
    let* position := Position label in
    let dest := branch_dest position a in
    let* can := CanEncodeBranchOffset dest in
    if use_far_branches a && negb can then
      let* a := EmitFarFpuBranch kind position a in
      Ok (a, label)
    else
      let* dest_off := EncodeBranchOffset dest 0 a in
      Ok (Emit (fpu_branch_word kind (to_u 16 dest_off)) a, label)
  else
    let position := Size a in
    let* a :=
      if use_far_branches a then
        EmitFarFpuBranch kind (int32 (position_ label)) a
      else
        let* dest_off := EncodeBranchOffset (int32 (position_ label)) 0 a in
        Ok (Emit (fpu_branch_word kind (to_u 16 dest_off)) a) in
    let* label := LinkTo position label in
    Ok (a, label).

(** * Binding *)
Definition FlipBranchInstruction (instr : Z) : outcome Z :=
  if OpcodeField instr =? REGIMM then
    let* b := OppositeBranchNoLink (RegImmFnField instr) in
    Ok (SetRegImmFnField instr b)
  else if OpcodeField instr =? COP1 then
    Ok (Z.lxor instr (Z.shiftl 1 16))
  else
    let* b := OppositeBranchOpcode (OpcodeField instr) in
    Ok (SetOpcodeField instr b).

(** The loop that clears an old far branch: five words from [position]. *)
Fixpoint clear_words (n : nat) (position : Z) (a : Assembler) : outcome Assembler :=
  match n with
  | O => Ok a
  | S n =>
      let* a := buffer_Store position kNopInstruction a in
      clear_words n (position + kInstrSize) a
  end.

(** One iteration of the loop of [Bind]: the branch at the head of the label's
    chain is resolved, and the label moves on to the next one. *)
Definition bind_one (bound_pc : Z) (label : Label) (a : Assembler)
  : outcome (Assembler * Label) :=
  let* position := Position label in
  let dest := int32 (bound_pc - (position + kInstrSize)) in
  let* can := CanEncodeBranchOffset dest in
  if use_far_branches a && negb can then
    let* branch := buffer_Load position a in
    let* high := buffer_Load (position + 2 * kInstrSize) a in
    let* low := buffer_Load (position + 3 * kInstrSize) a in
    let dest := int32 (Size a) in
    let encoded_low := EncodeLoadImmediate (Z.land dest kBranchOffsetMask) low in
    let encoded_high := EncodeLoadImmediate (Z.shiftr dest 16) high in
    let* flipped := FlipBranchInstruction branch in
    let* a := buffer_Store position flipped a in
    let* a := buffer_Store (position + 2 * kInstrSize) encoded_high a in
    let* a := buffer_Store (position + 3 * kInstrSize) encoded_low a in
    Ok (a, mkLabel (DecodeLoadImmediate low high))
  else if use_far_branches a && can then
    let* high := buffer_Load (position + 2 * kInstrSize) a in
    let* low := buffer_Load (position + 3 * kInstrSize) a in
    let* branch := buffer_Load position a in
    let* a := clear_words 5 position a in
    let dest := int32 (dest - 4 * kInstrSize) in
    let* encoded := EncodeBranchOffset dest branch a in
    let* a := buffer_Store (position + 4 * kInstrSize) encoded a in
    Ok (a, mkLabel (DecodeLoadImmediate low high))
  else
    let* next := buffer_Load position a in
    let* encoded := EncodeBranchOffset dest next a in
    let* a := buffer_Store position encoded a in
    Ok (a, mkLabel (DecodeBranchOffset next)).

(** [while (label->IsLinked())] *)
Fixpoint bind_loop (fuel : nat) (bound_pc : Z) (label : Label) (a : Assembler)
  : outcome (Assembler * Label) :=
  if IsLinked label then
    match fuel with
    | O => Err OutOfFuel
    | S fuel =>
        let* (a, label) := bind_one bound_pc label a in
        bind_loop fuel bound_pc label a
    end
  else Ok (a, label).

(** The chain visits a branch once: one iteration per word is enough. *)
Definition Bind (label : Label) (a : Assembler) : outcome (Assembler * Label) :=
  ASSERT negb (IsBound label) ;;
  let bound_pc := Size a in
  let* (a, label) := bind_loop (length (buffer_ a)) bound_pc label a in
  let* label := BindTo bound_pc label in
  Ok (with_delay_flags false (in_delay_slot_ a) a, label).

(** * Finalising far jumps *)
(** [region.Load] and [region.Store] of the word at [position]. *)
Definition region_get (position : Z) (region : list Z) : Z :=
  nth (word_index position) region 0.
Definition region_set (position value : Z) (region : list Z) : list Z :=
  <[word_index position := int32 value]> region.

(** [PatchFarJump::Process], on the region that starts at address [start]. *)
Definition PatchFarJump_Process (start position : Z) (region : list Z) : outcome (list Z) :=
  let high := region_get position region in
  let low := region_get (position + kInstrSize) region in
  let offset := DecodeLoadImmediate low high in
  let dest := int32 (start + offset) in
  if (OpcodeField high =? LUI) && (OpcodeField low =? ORI) then
    let encoded_low := EncodeLoadImmediate (Z.land dest kBranchOffsetMask) low in
    let encoded_high := EncodeLoadImmediate (Z.shiftr dest 16) high in
    Ok (region_set (position + kInstrSize) encoded_low (region_set position encoded_high region))
  else
    ASSERT (high =? kNopInstruction) && (low =? kNopInstruction) ;; Ok region.

(** [ProcessFixups]: the chain of fixups, the last one first. *)
Fixpoint ProcessFixups (start : Z) (fixups : list Z) (region : list Z) : outcome (list Z) :=
  match fixups with
  | [] => Ok region
  | position :: fixups =>
      let* region := PatchFarJump_Process start position region in
      ProcessFixups start fixups region
  end.

Definition FinalizeInstructions (start : Z) (a : Assembler) : outcome (list Z) :=
  ProcessFixups start (fixups_ a) (buffer_ a).

(** * Branch instructions *)
(** The delay slot of every branch holds a nop until [delay_slot] takes it. *)
Definition with_delay_nop (r : outcome (Assembler * Label)) : outcome (Assembler * Label) :=
  let* (a, l) := r in Ok (EmitBranchDelayNop a, l).

Definition not_in_delay_slot (a : Assembler) (r : outcome (Assembler * Label))
  : outcome (Assembler * Label) :=
  ASSERT negb (in_delay_slot_ a) ;; r.

Definition beq (rs rt : Z) (l : Label) (a : Assembler) : outcome (Assembler * Label) :=
  not_in_delay_slot a (with_delay_nop (EmitBranch BEQ rs rt l a)).
Definition b (l : Label) (a : Assembler) : outcome (Assembler * Label) := beq R0 R0 l a.
Definition bal (l : Label) (a : Assembler) : outcome (Assembler * Label) :=
  not_in_delay_slot a (with_delay_nop (EmitRegImmBranch BGEZAL R0 l a)).
Definition bc1f (l : Label) (a : Assembler) : outcome (Assembler * Label) :=
  with_delay_nop (EmitFpuBranch false l a).
Definition bc1t (l : Label) (a : Assembler) : outcome (Assembler * Label) :=
  with_delay_nop (EmitFpuBranch true l a).
Definition beql (rs rt : Z) (l : Label) (a : Assembler) : outcome (Assembler * Label) :=
  not_in_delay_slot a (with_delay_nop (EmitBranch BEQL rs rt l a)).
Definition bgez (rs : Z) (l : Label) (a : Assembler) : outcome (Assembler * Label) :=
  not_in_delay_slot a (with_delay_nop (EmitRegImmBranch BGEZ rs l a)).
Definition bgezl (rs : Z) (l : Label) (a : Assembler) : outcome (Assembler * Label) :=
  not_in_delay_slot a (with_delay_nop (EmitRegImmBranch BGEZL rs l a)).
Definition bgtz (rs : Z) (l : Label) (a : Assembler) : outcome (Assembler * Label) :=
  not_in_delay_slot a (with_delay_nop (EmitBranch BGTZ rs R0 l a)).
Definition bgtzl (rs : Z) (l : Label) (a : Assembler) : outcome (Assembler * Label) :=
  not_in_delay_slot a (with_delay_nop (EmitBranch BGTZL rs R0 l a)).
Definition blez (rs : Z) (l : Label) (a : Assembler) : outcome (Assembler * Label) :=
  not_in_delay_slot a (with_delay_nop (EmitBranch BLEZ rs R0 l a)).
Definition blezl (rs : Z) (l : Label) (a : Assembler) : outcome (Assembler * Label) :=
  not_in_delay_slot a (with_delay_nop (EmitBranch BLEZL rs R0 l a)).
Definition bltz (rs : Z) (l : Label) (a : Assembler) : outcome (Assembler * Label) :=
  not_in_delay_slot a (with_delay_nop (EmitRegImmBranch BLTZ rs l a)).
Definition bltzl (rs : Z) (l : Label) (a : Assembler) : outcome (Assembler * Label) :=
  not_in_delay_slot a (with_delay_nop (EmitRegImmBranch BLTZL rs l a)).
Definition bne (rs rt : Z) (l : Label) (a : Assembler) : outcome (Assembler * Label) :=
  not_in_delay_slot a (with_delay_nop (EmitBranch BNE rs rt l a)).
Definition bnel (rs rt : Z) (l : Label) (a : Assembler) : outcome (Assembler * Label) :=
  not_in_delay_slot a (with_delay_nop (EmitBranch BNEL rs rt l a)).
