(* ===== verification/MipsMacros.v ===== *)
(** The macro instructions of the MIPS assembler ([vm/assembler_mips.h] and
    [vm/assembler_mips.cc]): immediates, overflow detection, memory accesses at
    any offset, conditions and the compare-and-branch macros. *)
From stdpp Require Import base numbers list.
From Stdlib Require Import ZArith Lia Bool.
From S2P Require Import Prelude Utils MipsConstants MipsAssembler MipsLabels.
Import Instr.
#[local] Open Scope Z_scope.

Abbreviation asm := (Assembler -> outcome Assembler).
Abbreviation asm_label := (Label -> Assembler -> outcome (Assembler * Label)).

(** * Immediates *)
Definition LoadImmediate (rd value : Z) (a : Assembler) : outcome Assembler :=
  ASSERT negb (in_delay_slot_ a) ;;
  if IsInt kImmBits value then addiu rd ZR value a
  else
    let low := to_u 16 (Low16Bits value) in
    let high := to_u 16 (High16Bits value) in
    let* a := lui rd high a in
    if negb (low =? 0) then ori rd rd low a else Ok a.

(** [LoadImmediate(DRegister, double)]; [value] holds the bits of the double. *)
Definition LoadDImmediate (rd value : Z) (a : Assembler) : outcome Assembler :=
  ASSERT negb (in_delay_slot_ a) ;;
  let frd := rd * 2 in
  let ival := int64 value in
  let low := Low32Bits ival in
  let high := High32Bits ival in
  let* a := if negb (low =? 0) then
              let* a := LoadImmediate TMP low a in Ok (mtc1 TMP frd a)
            else Ok (mtc1 ZR frd a) in
  if negb (high =? 0) then
    let* a := LoadImmediate TMP high a in Ok (mtc1 TMP (frd + 1) a)
  else Ok (mtc1 ZR (frd + 1) a).

(** [LoadImmediate(FRegister, float)]; [value] holds the bits of the float. *)
Definition LoadSImmediate (rd value : Z) (a : Assembler) : outcome Assembler :=
  ASSERT negb (in_delay_slot_ a) ;;
  let ival := int32 value in
  if ival =? 0 then Ok (mtc1 ZR rd a)
  else let* a := LoadImmediate TMP ival a in Ok (mtc1 TMP rd a).

Definition AddImmediate (rd rs value : Z) (a : Assembler) : outcome Assembler :=
  ASSERT negb (in_delay_slot_ a) ;;
  if (value =? 0) && (rd =? rs) then Ok a
  else if IsInt kImmBits value then addiu rd rs value a
  else let* a := LoadImmediate TMP value a in addu rd rs TMP a.

Definition AndImmediate (rd rs imm : Z) (a : Assembler) : outcome Assembler :=
  ASSERT negb (in_delay_slot_ a) ;;
  if imm =? 0 then mov rd ZR a
  else if IsUint kImmBits imm then andi rd rs imm a
  else let* a := LoadImmediate TMP imm a in and_ rd rs TMP a.

Definition OrImmediate (rd rs imm : Z) (a : Assembler) : outcome Assembler :=
  ASSERT negb (in_delay_slot_ a) ;;
  if imm =? 0 then mov rd rs a
  else if IsUint kImmBits imm then ori rd rs imm a
  else let* a := LoadImmediate TMP imm a in or_ rd rs TMP a.

Definition XorImmediate (rd rs imm : Z) (a : Assembler) : outcome Assembler :=
  ASSERT negb (in_delay_slot_ a) ;;
  if imm =? 0 then mov rd rs a
  else if IsUint kImmBits imm then xori rd rs imm a
  else let* a := LoadImmediate TMP imm a in xor_ rd rs TMP a.

(** * Overflow detection *)
Definition AdduDetectOverflow (rd rs rt ro scratch : Z) (a : Assembler) : outcome Assembler :=
  ASSERT negb (in_delay_slot_ a) ;;
  ASSERT negb (rd =? ro) ;;
  ASSERT negb (rd =? TMP) ;;
  ASSERT negb (ro =? TMP) ;;
  ASSERT negb (ro =? rs) ;;
  ASSERT negb (ro =? rt) ;;
  let* (a, rt) :=
    if (rs =? rt) && (rd =? rs) then
      ASSERT negb (scratch =? kNoRegister) ;;
      ASSERT negb (scratch =? TMP) ;;
      ASSERT negb (rd =? scratch) ;;
      ASSERT negb (ro =? scratch) ;;
      ASSERT negb (rs =? scratch) ;;
      ASSERT negb (rt =? scratch) ;;
      let* a := mov scratch rt a in
      Ok (a, scratch)
    else Ok (a, rt) in
  if rd =? rs then
    let* a := mov TMP rs a in
    let* a := addu rd rs rt a in
    let* a := xor_ TMP rd TMP a in
    let* a := xor_ ro rd rt a in
    and_ ro ro TMP a
  else if rd =? rt then
    let* a := mov TMP rt a in
    let* a := addu rd rs rt a in
    let* a := xor_ TMP rd TMP a in
    let* a := xor_ ro rd rs a in
    and_ ro ro TMP a
  else
    let* a := addu rd rs rt a in
    let* a := xor_ ro rd rs a in
    let* a := xor_ TMP rd rt a in
    and_ ro TMP ro a.

Definition SubuDetectOverflow (rd rs rt ro : Z) (a : Assembler) : outcome Assembler :=
  ASSERT negb (in_delay_slot_ a) ;;
  ASSERT negb (rd =? ro) ;;
  ASSERT negb (rd =? TMP) ;;
  ASSERT negb (ro =? TMP) ;;
  ASSERT negb (ro =? rs) ;;
  ASSERT negb (ro =? rt) ;;
  ASSERT negb (rs =? TMP) ;;
  ASSERT negb (rt =? TMP) ;;
  if rs =? rt then
    let* a := mov rd ZR a in
    mov ro ZR a
  else if rd =? rs then
    let* a := mov TMP rs a in
    let* a := subu rd rs rt a in
    let* a := xor_ ro rd TMP a in
    let* a := xor_ TMP TMP rs a in
    and_ ro TMP ro a
  else if rd =? rt then
    let* a := mov TMP rt a in
    let* a := subu rd rs rt a in
    let* a := xor_ ro rd rs a in
    let* a := xor_ TMP rs TMP a in
    and_ ro TMP ro a
  else
    let* a := subu rd rs rt a in
    let* a := xor_ ro rd rs a in
    let* a := xor_ TMP rs rt a in
    and_ ro TMP ro a.

Definition AddImmediateDetectOverflow (rd rs imm ro scratch : Z) (a : Assembler)
  : outcome Assembler :=
  ASSERT negb (in_delay_slot_ a) ;;
  let* a := LoadImmediate rd imm a in
  AdduDetectOverflow rd rs rd ro scratch a.

Definition SubImmediateDetectOverflow (rd rs imm ro : Z) (a : Assembler) : outcome Assembler :=
  ASSERT negb (in_delay_slot_ a) ;;
  let* a := LoadImmediate rd imm a in
  SubuDetectOverflow rd rs rd ro a.

(** * Calls, stack, smis *)
(** [address] is a resolved external label. *)
Definition Branch (address : Z) (a : Assembler) : outcome Assembler :=
  ASSERT negb (in_delay_slot_ a) ;;
  let* a := LoadImmediate TMP (int32 address) a in
  jr TMP a.

Definition BranchPatchable (address : Z) (a : Assembler) : outcome Assembler :=
  ASSERT negb (in_delay_slot_ a) ;;
  let low := to_u 16 (Low16Bits (int32 address)) in
  let high := to_u 16 (High16Bits (int32 address)) in
  let* a := lui T9 high a in
  let* a := ori T9 T9 low a in
  let* a := jr T9 a in
  Ok (with_delay_flags false (in_delay_slot_ a) a).

Definition BranchLink (address : Z) (a : Assembler) : outcome Assembler :=
  ASSERT negb (in_delay_slot_ a) ;;
  let* a := LoadImmediate T9 (int32 address) a in
  jalr T9 RA a.

Definition Drop (stack_elements : Z) (a : Assembler) : outcome Assembler :=
  ASSERT stack_elements >=? 0 ;;
  if stack_elements >? 0 then addiu SP SP (stack_elements * kWordSize) a else Ok a.

Definition GetNextPC (dest temp : Z) (a : Assembler) : outcome Assembler :=
  let* a := if negb (temp =? kNoRegister) then mov temp RA a else Ok a in
  let a := EmitRegImmType REGIMM R0 BGEZAL 1 a in
  let* a := mov dest RA a in
  if negb (temp =? kNoRegister) then mov RA temp a else Ok a.

Definition Push (rt : Z) (a : Assembler) : outcome Assembler :=
  ASSERT negb (in_delay_slot_ a) ;;
  let* a := addiu SP SP (- kWordSize) a in
  sw rt (mkAddress SP 0) a.

Definition Pop (rt : Z) (a : Assembler) : outcome Assembler :=
  ASSERT negb (in_delay_slot_ a) ;;
  let* a := lw rt (mkAddress SP 0) a in
  addiu SP SP kWordSize a.

Definition Ret : asm := jr RA.

Definition SmiTag (dst src : Z) : asm := sll dst src kSmiTagSize.
Definition SmiUntag (dst src : Z) : asm := sra dst src kSmiTagSize.

(** * Loads and stores at any offset *)
Definition LoadFromOffset (reg base offset : Z) (a : Assembler) : outcome Assembler :=
  ASSERT negb (in_delay_slot_ a) ;;
  if IsInt kImmBits offset then lw reg (mkAddress base offset) a
  else
    let* a := LoadImmediate TMP offset a in
    let* a := addu TMP base TMP a in
    lw reg (mkAddress TMP 0) a.

Definition LoadFieldFromOffset (reg base offset : Z) : asm :=
  LoadFromOffset reg base (offset - kHeapObjectTag).

Definition StoreToOffset (reg base offset : Z) (a : Assembler) : outcome Assembler :=
  ASSERT negb (in_delay_slot_ a) ;;
  if IsInt kImmBits offset then sw reg (mkAddress base offset) a
  else
    let* a := LoadImmediate TMP offset a in
    let* a := addu TMP base TMP a in
    sw reg (mkAddress TMP 0) a.

Definition StoreFieldToOffset (reg base offset : Z) : asm :=
  StoreToOffset reg base (offset - kHeapObjectTag).

Definition StoreDToOffset (reg base offset : Z) (a : Assembler) : outcome Assembler :=
  ASSERT negb (in_delay_slot_ a) ;;
  let lo := reg * 2 in
  let hi := reg * 2 + 1 in
  let* a := swc1 lo (mkAddress base offset) a in
  swc1 hi (mkAddress base (offset + kWordSize)) a.

Definition LoadDFromOffset (reg base offset : Z) (a : Assembler) : outcome Assembler :=
  ASSERT negb (in_delay_slot_ a) ;;
  let lo := reg * 2 in
  let hi := reg * 2 + 1 in
  let* a := lwc1 lo (mkAddress base offset) a in
  lwc1 hi (mkAddress base (offset + kWordSize)) a.

Definition LoadWordFromPoolOffset (rd offset : Z) (a : Assembler) : outcome Assembler :=
  ASSERT allow_constant_pool_ a ;;
  ASSERT negb (in_delay_slot_ a) ;;
  ASSERT negb (rd =? PP) ;;
  if CanHoldOffset offset then lw rd (mkAddress PP offset) a
  else
    let offset_low := to_s 16 (Low16Bits offset) in
    let offset := int32 (offset - offset_low) in
    let offset_high := to_u 16 (High16Bits offset) in
    if negb (offset_high =? 0) then
      let* a := lui rd offset_high a in
      let* a := addu rd rd PP a in
      lw rd (mkAddress rd offset_low) a
    else lw rd (mkAddress PP offset_low) a.

(** * Conditions *)
Definition relop_to_Z (r : RelationOperator) : Z :=
  match r with
  | AL => 0 | NV => 1 | EQ => 2 | NE => 3 | GT => 4 | GE => 5 | LT => 6 | LE => 7
  | UGT => 8 | UGE => 9 | ULT => 10 | ULE => 11
  end.

Definition relop_of_Z (z : Z) : option RelationOperator :=
  match z with
  | 0 => Some AL | 1 => Some NV | 2 => Some EQ | 3 => Some NE | 4 => Some GT
  | 5 => Some GE | 6 => Some LT | 7 => Some LE | 8 => Some UGT | 9 => Some UGE
  | 10 => Some ULT | 11 => Some ULE | _ => None
  end.

Module Condition.

Definition kLeftPos : Z := 0.
Definition kLeftSize : Z := 6.
Definition kRightPos : Z := kLeftPos + kLeftSize.
Definition kRightSize : Z := 6.
Definition kRelOpPos : Z := kRightPos + kRightSize.
Definition kRelOpSize : Z := 4.
Definition kImmPos : Z := kRelOpPos + kRelOpSize.
Definition kImmSize : Z := 16.

(** A condition is its [bits_]. *)
Definition left (bits : Z) : Z := BitField.decode kLeftPos kLeftSize bits.
Definition right (bits : Z) : Z := BitField.decode kRightPos kRightSize bits.
Definition rel_op (bits : Z) : option RelationOperator :=
  relop_of_Z (BitField.decode kRelOpPos kRelOpSize bits).
Definition imm (bits : Z) : Z := to_s 16 (BitField.decode kImmPos kImmSize bits).

Definition IsValidImm (value : Z) : bool := (- 0x08000 <=? value) && (value <? 0x7fff).
Definition IsValidRegister (value : Z) : bool :=
  (ZR <=? value) && (value <=? IMM) && negb (value =? AT).

Definition set_rel_op (value : RelationOperator) (bits : Z) : outcome Z :=
  BitField.update 32 kRelOpPos kRelOpSize (relop_to_Z value) bits.
Definition set_left (value bits : Z) : outcome Z :=
  ASSERT IsValidRegister value ;; BitField.update 32 kLeftPos kLeftSize value bits.
Definition set_right (value bits : Z) : outcome Z :=
  ASSERT IsValidRegister value ;; BitField.update 32 kRightPos kRightSize value bits.
Definition set_imm (value bits : Z) : outcome Z :=
  ASSERT IsValidImm value ;; BitField.update 32 kImmPos kImmSize (to_u 16 value) bits.

(** The constructor does not initialise [bits_]: [bits] is what is there. *)
Definition new (bits left right : Z) (rel_op : RelationOperator) (imm : Z) : outcome Z :=
  ASSERT negb (((left =? ZR) || (left =? IMM)) && ((right =? ZR) || (right =? IMM))) ;;
  ASSERT Bool.eqb (negb (imm =? 0)) ((left =? IMM) || (right =? IMM)) ;;
  let* bits := set_left left bits in
  let* bits := set_right right bits in
  let* bits := set_rel_op rel_op bits in
  set_imm imm bits.

End Condition.

(** An instruction that computes the comparison, then the branch. *)
Definition then_branch (i : asm) (br : asm_label) (l : Label) (a : Assembler)
  : outcome (Assembler * Label) :=
  let* a := i a in br l a.

Definition BranchOnCondition (cond : Z) (l : Label) (a : Assembler)
  : outcome (Assembler * Label) :=
  ASSERT negb (in_delay_slot_ a) ;;
  let left := Condition.left cond in
  let right := Condition.right cond in
  let imm := Condition.imm cond in
  match Condition.rel_op cond with
  | None => Err Unreachable
  | Some NV => Ok (a, l)
  | Some AL => b l a
  | Some EQ | Some NE =>
      let* (a, left, right) :=
        if left =? IMM then let* a := addiu AT ZR imm a in Ok (a, AT, right)
        else if right =? IMM then let* a := addiu AT ZR imm a in Ok (a, left, AT)
        else Ok (a, left, right) in
      if decide (Condition.rel_op cond = Some EQ) then beq left right l a
      else bne left right l a
  | Some GT =>
      if left =? ZR then bltz right l a
      else if right =? ZR then bgtz left l a
      else if left =? IMM then then_branch (slti AT right imm) (bne AT ZR) l a
      else if right =? IMM then then_branch (slti AT left (imm + 1)) (beq AT ZR) l a
      else then_branch (slt AT right left) (bne AT ZR) l a
  | Some GE =>
      if left =? ZR then blez right l a
      else if right =? ZR then bgez left l a
      else if left =? IMM then then_branch (slti AT right (imm + 1)) (bne AT ZR) l a
      else if right =? IMM then then_branch (slti AT left imm) (beq AT ZR) l a
      else then_branch (slt AT left right) (beq AT ZR) l a
  | Some LT =>
      if left =? ZR then bgtz right l a
      else if right =? ZR then bltz left l a
      else if left =? IMM then then_branch (slti AT right (imm + 1)) (beq AT ZR) l a
      else if right =? IMM then then_branch (slti AT left imm) (bne AT ZR) l a
      else then_branch (slt AT left right) (bne AT ZR) l a
  | Some LE =>
      if left =? ZR then bgez right l a
      else if right =? ZR then blez left l a
      else if left =? IMM then then_branch (slti AT right imm) (beq AT ZR) l a
      else if right =? IMM then then_branch (slti AT left (imm + 1)) (bne AT ZR) l a
      else then_branch (slt AT right left) (beq AT ZR) l a
  | Some UGT =>
      ASSERT negb (left =? IMM) && negb (right =? IMM) ;;
      if left =? ZR then Ok (a, l)
      else if right =? ZR then bne left ZR l a
      else then_branch (sltu AT right left) (bne AT ZR) l a
  | Some UGE =>
      ASSERT negb (left =? IMM) && negb (right =? IMM) ;;
      if left =? ZR then beq right ZR l a
      else if right =? ZR then beq ZR ZR l a
      else then_branch (sltu AT left right) (beq AT ZR) l a
  | Some ULT =>
      ASSERT negb (left =? IMM) && negb (right =? IMM) ;;
      if left =? ZR then bne right ZR l a
      else if right =? ZR then Ok (a, l)
      else then_branch (sltu AT left right) (bne AT ZR) l a
  | Some ULE =>
      ASSERT negb (left =? IMM) && negb (right =? IMM) ;;
      if left =? ZR then beq ZR ZR l a
      else if right =? ZR then beq left ZR l a
      else then_branch (sltu AT right left) (beq AT ZR) l a
  end.

(** * Compare and branch *)
(** [ASSERT(rd != CMPRES2); LoadImmediate(CMPRES2, imm)] before a branch. *)
Definition with_CMPRES2 (rd imm : Z) (br : asm_label) (l : Label) (a : Assembler)
  : outcome (Assembler * Label) :=
  ASSERT negb (rd =? CMPRES2) ;; then_branch (LoadImmediate CMPRES2 imm) br l a.

Definition BranchEqual (rd rn : Z) : asm_label := beq rd rn.

Definition BranchEqualImm (rd imm : Z) (l : Label) (a : Assembler)
  : outcome (Assembler * Label) :=
  ASSERT negb (in_delay_slot_ a) ;;
  if imm =? 0 then beq rd ZR l a
  else with_CMPRES2 rd imm (beq rd CMPRES2) l a.

Definition BranchNotEqual (rd rn : Z) : asm_label := bne rd rn.

Definition BranchNotEqualImm (rd imm : Z) (l : Label) (a : Assembler)
  : outcome (Assembler * Label) :=
  ASSERT negb (in_delay_slot_ a) ;;
  if imm =? 0 then bne rd ZR l a
  else with_CMPRES2 rd imm (bne rd CMPRES2) l a.

Definition BranchSignedGreater (rd rs : Z) (l : Label) (a : Assembler)
  : outcome (Assembler * Label) :=
  ASSERT negb (in_delay_slot_ a) ;;
  then_branch (slt CMPRES2 rs rd) (bne CMPRES2 ZR) l a.

Definition BranchSignedGreaterImm (rd imm : Z) (l : Label) (a : Assembler)
  : outcome (Assembler * Label) :=
  ASSERT negb (in_delay_slot_ a) ;;
  if imm =? 0 then bgtz rd l a
  else if IsInt kImmBits (int32 (imm + 1)) then
    then_branch (slti CMPRES2 rd (int32 (imm + 1))) (beq CMPRES2 ZR) l a
  else with_CMPRES2 rd imm (BranchSignedGreater rd CMPRES2) l a.

Definition BranchUnsignedGreater (rd rs : Z) (l : Label) (a : Assembler)
  : outcome (Assembler * Label) :=
  ASSERT negb (in_delay_slot_ a) ;;
  then_branch (sltu CMPRES2 rs rd) (bne CMPRES2 ZR) l a.

Definition BranchUnsignedGreaterImm (rd imm : Z) (l : Label) (a : Assembler)
  : outcome (Assembler * Label) :=
  ASSERT negb (in_delay_slot_ a) ;;
  if imm =? 0 then BranchNotEqualImm rd 0 l a
  else if negb (imm =? -1) && IsInt kImmBits (int32 (imm + 1)) then
    then_branch (sltiu CMPRES2 rd (int32 (imm + 1))) (beq CMPRES2 ZR) l a
  else with_CMPRES2 rd imm (BranchUnsignedGreater rd CMPRES2) l a.

Definition BranchSignedGreaterEqual (rd rs : Z) (l : Label) (a : Assembler)
  : outcome (Assembler * Label) :=
  ASSERT negb (in_delay_slot_ a) ;;
  then_branch (slt CMPRES2 rd rs) (beq CMPRES2 ZR) l a.

Definition BranchSignedGreaterEqualImm (rd imm : Z) (l : Label) (a : Assembler)
  : outcome (Assembler * Label) :=
  ASSERT negb (in_delay_slot_ a) ;;
  if imm =? 0 then bgez rd l a
  else if IsInt kImmBits imm then
    then_branch (slti CMPRES2 rd imm) (beq CMPRES2 ZR) l a
  else with_CMPRES2 rd imm (BranchSignedGreaterEqual rd CMPRES2) l a.

Definition BranchUnsignedGreaterEqual (rd rs : Z) (l : Label) (a : Assembler)
  : outcome (Assembler * Label) :=
  ASSERT negb (in_delay_slot_ a) ;;
  then_branch (sltu CMPRES2 rd rs) (beq CMPRES2 ZR) l a.

Definition BranchUnsignedGreaterEqualImm (rd imm : Z) (l : Label) (a : Assembler)
  : outcome (Assembler * Label) :=
  ASSERT negb (in_delay_slot_ a) ;;
  if imm =? 0 then b l a
  else if IsInt kImmBits imm then
    then_branch (sltiu CMPRES2 rd imm) (beq CMPRES2 ZR) l a
  else with_CMPRES2 rd imm (BranchUnsignedGreaterEqual rd CMPRES2) l a.

Definition BranchSignedLess (rd rs : Z) (l : Label) (a : Assembler)
  : outcome (Assembler * Label) :=
  ASSERT negb (in_delay_slot_ a) ;; BranchSignedGreater rs rd l a.

Definition BranchSignedLessImm (rd imm : Z) (l : Label) (a : Assembler)
  : outcome (Assembler * Label) :=
  ASSERT negb (in_delay_slot_ a) ;;
  if imm =? 0 then bltz rd l a
  else if IsInt kImmBits imm then
    then_branch (slti CMPRES2 rd imm) (bne CMPRES2 ZR) l a
  else with_CMPRES2 rd imm (BranchSignedGreater CMPRES2 rd) l a.

Definition BranchUnsignedLess (rd rs : Z) (l : Label) (a : Assembler)
  : outcome (Assembler * Label) :=
  ASSERT negb (in_delay_slot_ a) ;; BranchUnsignedGreater rs rd l a.

Definition BranchUnsignedLessImm (rd imm : Z) (l : Label) (a : Assembler)
  : outcome (Assembler * Label) :=
  ASSERT negb (in_delay_slot_ a) ;;
  if imm =? 0 then Ok (a, l)
  else if IsInt kImmBits imm then
    then_branch (sltiu CMPRES2 rd imm) (bne CMPRES2 ZR) l a
  else with_CMPRES2 rd imm (BranchUnsignedGreater CMPRES2 rd) l a.

Definition BranchSignedLessEqual (rd rs : Z) (l : Label) (a : Assembler)
  : outcome (Assembler * Label) :=
  ASSERT negb (in_delay_slot_ a) ;; BranchSignedGreaterEqual rs rd l a.

Definition BranchSignedLessEqualImm (rd imm : Z) (l : Label) (a : Assembler)
  : outcome (Assembler * Label) :=
  ASSERT negb (in_delay_slot_ a) ;;
  if imm =? 0 then blez rd l a
  else if IsInt kImmBits (int32 (imm + 1)) then
    then_branch (slti CMPRES2 rd (int32 (imm + 1))) (bne CMPRES2 ZR) l a
  else with_CMPRES2 rd imm (BranchSignedGreaterEqual CMPRES2 rd) l a.

Definition BranchUnsignedLessEqual (rd rs : Z) (l : Label) (a : Assembler)
  : outcome (Assembler * Label) :=
  ASSERT negb (in_delay_slot_ a) ;; BranchUnsignedGreaterEqual rs rd l a.

Definition BranchUnsignedLessEqualImm (rd imm : Z) (l : Label) (a : Assembler)
  : outcome (Assembler * Label) :=
  ASSERT negb (in_delay_slot_ a) ;;
  if imm =? 0 then beq rd ZR l a
  else if negb (imm =? -1) && IsInt kImmBits (int32 (imm + 1)) then
    then_branch (sltiu CMPRES2 rd (int32 (imm + 1))) (bne CMPRES2 ZR) l a
  else with_CMPRES2 rd imm (BranchUnsignedGreaterEqual CMPRES2 rd) l a.

(** * The write barrier's filter *)
(** On a 32-bit target objects are aligned to 8 bytes, those of the new space
    at an odd word ([vm/globals.h], [vm/raw_object.h]). *)
Definition kObjectAlignmentLog2 : Z := 3.
Definition kNewObjectAlignmentOffset : Z := kWordSize.

Definition StoreIntoObjectFilterNoSmi (object value : Z) (no_update : Label) (a : Assembler)
  : outcome (Assembler * Label) :=
  ASSERT negb (in_delay_slot_ a) ;;
  let* a := nor TMP ZR object a in
  let* a := and_ TMP value TMP a in
  let* a := andi CMPRES1 TMP kNewObjectAlignmentOffset a in
  beq CMPRES1 ZR no_update a.

Definition StoreIntoObjectFilter (object value : Z) (no_update : Label) (a : Assembler)
  : outcome (Assembler * Label) :=
  ASSERT negb (in_delay_slot_ a) ;;
  let* a := sll TMP value (kObjectAlignmentLog2 - 1) a in
  let* a := and_ TMP value TMP a in
  let* a := nor CMPRES1 ZR object a in
  let* a := and_ TMP TMP CMPRES1 a in
  let* a := andi CMPRES1 TMP kNewObjectAlignmentOffset a in
  beq CMPRES1 ZR no_update a.
