(* ===== verification/MipsEncoding.v ===== *)
(** Reading back the fields of the words the MIPS assembler emits. *)
From stdpp Require Import base numbers list.
From Stdlib Require Import ZArith Lia Bool.
From S2P Require Import Prelude Utils MipsConstants MipsAssembler MipsLabels.
Import Instr.
#[local] Open Scope Z_scope.

Definition reg5 (r : Z) : Prop := 0 <= r < 32.

#[export] Instance reg5_dec r : Decision (reg5 r).
Proof. unfold reg5; apply _. Defined.

(** The instruction formats as sums of disjoint fields. *)
Lemma RType_sum op rs rt rd sa fn :
  reg5 rs -> reg5 rt -> reg5 rd -> reg5 sa -> 0 <= fn < 64 ->
  RType op rs rt rd sa fn
  = op * 2 ^ 26 + rs * 2 ^ 21 + rt * 2 ^ 16 + rd * 2 ^ 11 + sa * 2 ^ 6 + fn.
Proof.
  unfold reg5, RType, kOpcodeShift, kRsShift, kRtShift, kRdShift, kSaShift, kFunctionShift.
  intros; rewrite Z.shiftl_0_r, <- !Z.lor_assoc.
  rewrite (lor_shiftl_add sa), (lor_shiftl_add rd), (lor_shiftl_add rt),
    (lor_shiftl_add rs), (lor_shiftl_add op) by lia; lia.
Qed.

Lemma FpuRType_RType op fmt ft fs fd fn :
  FpuRType op fmt ft fs fd fn = RType op fmt ft fs fd fn.
Proof. reflexivity. Qed.

Lemma IType_sum op rs rt imm :
  reg5 rs -> reg5 rt -> 0 <= imm < 2 ^ 16 ->
  IType op rs rt imm = op * 2 ^ 26 + rs * 2 ^ 21 + rt * 2 ^ 16 + imm.
Proof.
  unfold reg5, IType, kOpcodeShift, kRsShift, kRtShift; intros; rewrite <- !Z.lor_assoc.
  rewrite (lor_shiftl_add rt), (lor_shiftl_add rs), (lor_shiftl_add op) by lia; lia.
Qed.

(** A field of the word stored is a quotient and a remainder. *)
Ltac field_arith :=
  unfold OpcodeField, RsField, RtField, RdField, SaField, FunctionField, UImmField,
    FsField, FtField, FdField, FormatField, Cop1FunctionField, Cop1SubField, FpuCCField,
    RegImmFnField, BreakCodeField, kOpcodeShift, kRsShift, kRtShift, kRdShift, kSaShift, kFunctionShift,
    kOpcodeBits, kRsBits, kRtBits, kRdBits, kSaBits, kFunctionBits, kImmShift, kImmBits,
    kFsShift, kFsBits, kFtShift, kFtBits, kFdShift, kFdBits, kFmtShift, kFmtBits,
    kCop1FnShift, kCop1FnBits, kCop1SubShift, kCop1SubBits, kFpuCCShift, kFpuCCBits,
    kBreakCodeShift, kBreakCodeBits;
  rewrite ?Bits_int32 by lia; rewrite ?Bits_div by lia;
  repeat match goal with
         | |- context [2 ^ ?n] =>
             let v := eval vm_compute in (2 ^ n) in change (2 ^ n) with v
         | H : context [2 ^ ?n] |- _ =>
             let v := eval vm_compute in (2 ^ n) in change (2 ^ n) with v in H
         end;
  Z.div_mod_to_equations; lia.

Section RType.
Context (op rs rt rd sa fn : Z).
Context (Hop : 0 <= op < 64) (Hrs : reg5 rs) (Hrt : reg5 rt) (Hrd : reg5 rd)
        (Hsa : reg5 sa) (Hfn : 0 <= fn < 64).
Let w := int32 (RType op rs rt rd sa fn).

Lemma RType_opcode : OpcodeField w = op.
Proof. unfold w; rewrite RType_sum by done; unfold reg5 in *; field_arith. Qed.
Lemma RType_rs : RsField w = rs.
Proof. unfold w; rewrite RType_sum by done; unfold reg5 in *; field_arith. Qed.
Lemma RType_rt : RtField w = rt.
Proof. unfold w; rewrite RType_sum by done; unfold reg5 in *; field_arith. Qed.
Lemma RType_rd : RdField w = rd.
Proof. unfold w; rewrite RType_sum by done; unfold reg5 in *; field_arith. Qed.
Lemma RType_sa : SaField w = sa.
Proof. unfold w; rewrite RType_sum by done; unfold reg5 in *; field_arith. Qed.
Lemma RType_fn : FunctionField w = fn.
Proof. unfold w; rewrite RType_sum by done; unfold reg5 in *; field_arith. Qed.
End RType.

Section IType.
Context (op rs rt imm : Z).
Context (Hop : 0 <= op < 64) (Hrs : reg5 rs) (Hrt : reg5 rt) (Himm : 0 <= imm < 2 ^ 16).
Let w := int32 (IType op rs rt imm).

Lemma IType_opcode : OpcodeField w = op.
Proof. unfold w; rewrite IType_sum by done; unfold reg5 in *; field_arith. Qed.
Lemma IType_rs : RsField w = rs.
Proof. unfold w; rewrite IType_sum by done; unfold reg5 in *; field_arith. Qed.
Lemma IType_rt : RtField w = rt.
Proof. unfold w; rewrite IType_sum by done; unfold reg5 in *; field_arith. Qed.
Lemma IType_imm : UImmField w = imm.
Proof. unfold w; rewrite IType_sum by done; unfold reg5 in *; field_arith. Qed.
End IType.

(** The other formats are instances of these two. *)
Lemma load_store_IType op rt base imm :
  Z.lor (Z.lor (Z.shiftl op kOpcodeShift) (Z.shiftl rt kRtShift))
        (Z.lor (Z.shiftl base kRsShift) imm) = IType op base rt imm.
Proof.
  unfold IType; rewrite !Z.lor_assoc; f_equal.
  rewrite <- !Z.lor_assoc; f_equal; apply Z.lor_comm.
Qed.

Lemma cop1_move_RType sub rt fs : cop1_move sub rt fs = RType COP1 sub rt fs 0 0.
Proof. unfold cop1_move, RType; rewrite !Z.shiftl_0_l, !Z.lor_0_r; done. Qed.

(** Bits inside a field. *)
Lemma Bits_inside w shift n k count pos :
  pos = shift + k -> 0 <= shift -> 0 <= k -> 0 <= count -> k + count <= n ->
  Bits w pos count = (Bits w shift n / 2 ^ k) mod 2 ^ count.
Proof.
  intros ->; intros; apply Z.bits_inj'; intros i Hi; rewrite !Bits_div by lia.
  destruct (decide (i < count)).
  - rewrite !Z.mod_pow2_bits_low, !Z.div_pow2_bits, Z.mod_pow2_bits_low, Z.div_pow2_bits
      by lia; f_equal; lia.
  - rewrite !Z.mod_pow2_bits_high by lia; done.
Qed.

Lemma Bit_Bits w n : Bit w n = Bits w n 1.
Proof. reflexivity. Qed.

Lemma HasFormat_rs w : OpcodeField w = COP1 -> HasFormat w = (RsField w >=? 16).
Proof.
  intros H; unfold HasFormat; rewrite H, Z.eqb_refl, andb_true_l, Bit_Bits.
  rewrite (Bits_inside w kRsShift kRsBits 4 1 25) by (unfold kRsShift, kRsBits; lia).
  fold (RsField w).
  pose proof (Bits_range w kRsShift kRsBits ltac:(done) ltac:(done)) as Hr.
  fold (RsField w) in Hr; change (2 ^ kRsBits) with 32 in Hr.
  change (2 ^ 4) with 16; change (2 ^ 1) with 2.
  destruct (Z.geb_spec (RsField w) 16); [apply Z.eqb_eq | apply Z.eqb_neq];
    Z.div_mod_to_equations; lia.
Qed.

Lemma FpuCCField_sa w : FpuCCField w = SaField w / 4.
Proof.
  unfold FpuCCField; rewrite (Bits_inside w kSaShift kSaBits 2 kFpuCCBits kFpuCCShift)
    by (unfold kFpuCCShift, kSaShift, kSaBits, kFpuCCBits; lia).
  fold (SaField w).
  pose proof (Bits_range w kSaShift kSaBits ltac:(done) ltac:(done)) as Hr.
  fold (SaField w) in Hr; change (2 ^ kSaBits) with 32 in Hr.
  change (2 ^ 2) with 4; change (2 ^ kFpuCCBits) with 8.
  Z.div_mod_to_equations; lia.
Qed.

Lemma Bit16_rt w : Bit w 16 = RtField w mod 2.
Proof.
  rewrite Bit_Bits, (Bits_inside w kRtShift kRtBits 0 1 16) by (unfold kRtShift, kRtBits; lia).
  fold (RtField w); rewrite Z.div_1_r; done.
Qed.

Lemma Bit17_rt w : Bit w 17 = (RtField w / 2) mod 2.
Proof.
  rewrite Bit_Bits, (Bits_inside w kRtShift kRtBits 1 1 17) by (unfold kRtShift, kRtBits; lia).
  done.
Qed.

Lemma Bits18_rt w : Bits w 18 3 = RtField w / 4.
Proof.
  rewrite (Bits_inside w kRtShift kRtBits 2 3 18) by (unfold kRtShift, kRtBits; lia).
  fold (RtField w).
  pose proof (Bits_range w kRtShift kRtBits ltac:(done) ltac:(done)) as Hr.
  fold (RtField w) in Hr; change (2 ^ kRtBits) with 32 in Hr.
  change (2 ^ 2) with 4; change (2 ^ 3) with 8; Z.div_mod_to_equations; lia.
Qed.

Lemma Bits0_11 w : Bits w 0 11 = SaField w * 64 + FunctionField w.
Proof.
  unfold SaField, FunctionField, kSaShift, kSaBits, kFunctionShift, kFunctionBits.
  rewrite !Bits_div by lia.
  change (2 ^ 11) with 2048; change (2 ^ 0) with 1; change (2 ^ 6) with 64;
    change (2 ^ 5) with 32.
  rewrite !Z.div_1_r; Z.div_mod_to_equations; lia.
Qed.
