(* ===== verification/MipsIsa.v ===== *)
(** The straight-line instructions as an instruction set: what the assembler
    writes for each ([emit]) and what each is meant to do to the architecture
    state ([isa]).  [emit_decode] is the agreement of the assembler with the
    simulator: decoding the emitted word has the effect of the instruction. *)
From stdpp Require Import base numbers list gmap.
From Stdlib Require Import ZArith Lia Bool.
From S2P Require Import Prelude Utils MipsConstants HostFloat MipsState MipsSimulator.
From S2P Require Import MipsAssembler MipsEncoding.
Import Instr.
#[local] Open Scope Z_scope.

(** * The instructions *)
Inductive insn : Type :=
(* rd := rs op rt *)
| Addu (rd rs rt : Z) | Subu (rd rs rt : Z) | And (rd rs rt : Z) | Or (rd rs rt : Z)
| Xor (rd rs rt : Z) | Nor (rd rs rt : Z) | Slt (rd rs rt : Z) | Sltu (rd rs rt : Z)
| Movn (rd rs rt : Z) | Movz (rd rs rt : Z)
(* shifts *)
| Sll (rd rt sa : Z) | Srl (rd rt sa : Z) | Sra (rd rt sa : Z)
| Sllv (rd rt rs : Z) | Srlv (rd rt rs : Z) | Srav (rd rt rs : Z)
(* hi and lo *)
| Mult (rs rt : Z) | Multu (rs rt : Z) | Div (rs rt : Z) | Divu (rs rt : Z)
| Madd (rs rt : Z) | Maddu (rs rt : Z)
| Mfhi (rd : Z) | Mflo (rd : Z) | Mthi (rs : Z) | Mtlo (rs : Z)
(* rt := rs op imm *)
| Addiu (rt rs imm : Z) | Slti (rt rs imm : Z) | Sltiu (rt rs imm : Z)
| Andi (rt rs imm : Z) | Ori (rt rs imm : Z) | Xori (rt rs imm : Z) | Lui (rt imm : Z)
(* memory *)
| Lb (rt base offset : Z) | Lbu (rt base offset : Z) | Lh (rt base offset : Z)
| Lhu (rt base offset : Z) | Lw (rt base offset : Z)
| Sb (rt base offset : Z) | Sh (rt base offset : Z) | Sw (rt base offset : Z)
| Lwc1 (ft base offset : Z) | Swc1 (ft base offset : Z)
| Ldc1 (dt base offset : Z) | Sdc1 (dt base offset : Z)
(* floating point *)
| Mfc1 (rt fs : Z) | Mtc1 (rt fs : Z)
| Addd (dd ds dt : Z) | Subd (dd ds dt : Z) | Muld (dd ds dt : Z) | Divd (dd ds dt : Z)
| Sqrtd (dd ds : Z) | Movd (dd ds : Z) | Movs (fd fs : Z)
| Cfd (ds dt : Z) | Cund (ds dt : Z) | Ceqd (ds dt : Z) | Cueqd (ds dt : Z)
| Coltd (ds dt : Z) | Cultd (ds dt : Z) | Coled (ds dt : Z) | Culed (ds dt : Z)
| Movf (rd rs : Z) | Movt (rd rs : Z)
(* leading bits *)
| Clo (rd rs : Z) | Clz (rd rs : Z)
(* conversions *)
| Cvtds (dd fs : Z) | Cvtdw (dd fs : Z) | Cvtdl (dd ds : Z)
| Cvtsd (fd ds : Z) | Cvtwd (fd ds : Z).

(** What the assembler does for an instruction. *)
Definition emit (i : insn) (a : Assembler) : outcome Assembler :=
  match i with
  | Addu rd rs rt => addu rd rs rt a | Subu rd rs rt => subu rd rs rt a
  | And rd rs rt => and_ rd rs rt a | Or rd rs rt => or_ rd rs rt a
  | Xor rd rs rt => xor_ rd rs rt a | Nor rd rs rt => nor rd rs rt a
  | Slt rd rs rt => slt rd rs rt a | Sltu rd rs rt => sltu rd rs rt a
  | Movn rd rs rt => movn rd rs rt a | Movz rd rs rt => movz rd rs rt a
  | Sll rd rt sa => sll rd rt sa a | Srl rd rt sa => srl rd rt sa a
  | Sra rd rt sa => sra rd rt sa a
  | Sllv rd rt rs => sllv rd rt rs a | Srlv rd rt rs => srlv rd rt rs a
  | Srav rd rt rs => srav rd rt rs a
  | Mult rs rt => mult rs rt a | Multu rs rt => multu rs rt a
  | Div rs rt => div rs rt a | Divu rs rt => divu rs rt a
  | Madd rs rt => madd rs rt a | Maddu rs rt => maddu rs rt a
  | Mfhi rd => mfhi rd a | Mflo rd => mflo rd a | Mthi rs => mthi rs a | Mtlo rs => mtlo rs a
  | Addiu rt rs imm => addiu rt rs imm a | Slti rt rs imm => slti rt rs imm a
  | Sltiu rt rs imm => sltiu rt rs imm a | Andi rt rs imm => andi rt rs imm a
  | Ori rt rs imm => ori rt rs imm a | Xori rt rs imm => xori rt rs imm a
  | Lui rt imm => lui rt imm a
  | Lb rt base offset => lb rt (mkAddress base offset) a
  | Lbu rt base offset => lbu rt (mkAddress base offset) a
  | Lh rt base offset => lh rt (mkAddress base offset) a
  | Lhu rt base offset => lhu rt (mkAddress base offset) a
  | Lw rt base offset => lw rt (mkAddress base offset) a
  | Sb rt base offset => sb rt (mkAddress base offset) a
  | Sh rt base offset => sh rt (mkAddress base offset) a
  | Sw rt base offset => sw rt (mkAddress base offset) a
  | Lwc1 ft base offset => lwc1 ft (mkAddress base offset) a
  | Swc1 ft base offset => swc1 ft (mkAddress base offset) a
  | Ldc1 dt base offset => ldc1 dt (mkAddress base offset) a
  | Sdc1 dt base offset => sdc1 dt (mkAddress base offset) a
  | Mfc1 rt fs => Ok (mfc1 rt fs a) | Mtc1 rt fs => Ok (mtc1 rt fs a)
  | Addd dd ds dt => Ok (addd dd ds dt a) | Subd dd ds dt => Ok (subd dd ds dt a)
  | Muld dd ds dt => Ok (muld dd ds dt a) | Divd dd ds dt => Ok (divd dd ds dt a)
  | Sqrtd dd ds => Ok (sqrtd dd ds a) | Movd dd ds => Ok (movd dd ds a)
  | Movs fd fs => Ok (movs fd fs a) | Cfd ds dt => Ok (cfd ds dt a)
  | Cund ds dt => Ok (cund ds dt a) | Ceqd ds dt => Ok (ceqd ds dt a)
  | Cueqd ds dt => Ok (cueqd ds dt a) | Coltd ds dt => Ok (coltd ds dt a)
  | Cultd ds dt => Ok (cultd ds dt a) | Coled ds dt => Ok (coled ds dt a)
  | Culed ds dt => Ok (culed ds dt a)
  | Movf rd rs => movf rd rs a | Movt rd rs => movt rd rs a
  | Clo rd rs => clo rd rs a | Clz rd rs => clz rd rs a
  | Cvtds dd fs => Ok (cvtds dd fs a) | Cvtdw dd fs => Ok (cvtdw dd fs a)
  | Cvtdl dd ds => Ok (cvtdl dd ds a)
  | Cvtsd fd ds => Ok (cvtsd fd ds a) | Cvtwd fd ds => Ok (cvtwd fd ds a)
  end.

(** * Their meaning *)
(** The 64-bit value of a pair of registers, and its two halves. *)
Definition pair64 (lo hi : Z) : Z := hi * 2 ^ 32 + uint32 lo.
Definition get_double (d : Z) (s : Simulator) : Z := pair64 (freg (d * 2) s) (freg (d * 2 + 1) s).
Definition put_double (d v : Z) (s : Simulator) : Simulator :=
  put_freg (d * 2 + 1) (v / 2 ^ 32) (put_freg (d * 2) v s).

Definition set_hilo (v : Z) (s : Simulator) : Simulator :=
  set_lo_register v (set_hi_register (v / 2 ^ 32) s).

Definition b2z (b : bool) : Z := if b then 1 else 0.

(** The floating point condition bit 0 of the control register. *)
Definition fcc0 (s : Simulator) : bool := test_fcsr_bit 23 s.
Definition set_fcc0 (b : bool) (s : Simulator) : Simulator := set_fcsr_bit 23 b s.

(** A memory operand: an address below 64K is illegal. *)
Definition at_address (base offset : Z) (s : Simulator)
  (k : Z -> outcome Simulator) : outcome Simulator :=
  let addr := uint32 (get_register base s + offset) in
  if addr <? 65536 then Err (IllegalAccess addr) else k addr.

Definition isa_div (r t : Z) (s : Simulator) : Simulator :=
  if t =? 0 then set_lo_register (icount_ s) (set_hi_register (icount_ s) s)
  else set_hi_register (Z.rem r t) (set_lo_register (Z.quot r t) s).

(** The leading zeros and the leading ones of a 32-bit integer. *)
Definition clz32 (x : Z) : Z := if x <? 0 then 0 else if x =? 0 then 32 else 31 - Z.log2 x.
Definition clo32 (x : Z) : Z := clz32 (Z.lnot x).

(** A double as a 32-bit integer: truncated, and the smallest integer where it
    has no such value. *)
Definition int32_of_dbl (v : Z) : Z :=
  if isnan v || isinf v || dlt (dbl_of_int (2 ^ 31 - 1)) v || dlt v (dbl_of_int (- 2 ^ 31))
  then - 2 ^ 31 else dbl_trunc v.

Definition isa (i : insn) (s : Simulator) : outcome Simulator :=
  let R r := get_register r s in
  let U r := uint32 (get_register r s) in
  let put r v := Ok (set_register r v s) in
  match i with
  | Addu rd rs rt => put rd (R rs + R rt)
  | Subu rd rs rt => put rd (R rs - R rt)
  | And rd rs rt => put rd (Z.land (R rs) (R rt))
  | Or rd rs rt => put rd (Z.lor (R rs) (R rt))
  | Xor rd rs rt => put rd (Z.lxor (R rs) (R rt))
  | Nor rd rs rt => put rd (Z.lnot (Z.lor (R rs) (R rt)))
  | Slt rd rs rt => put rd (b2z (R rs <? R rt))
  | Sltu rd rs rt => put rd (b2z (U rs <? U rt))
  | Movn rd rs rt => if R rt =? 0 then Ok s else put rd (R rs)
  | Movz rd rs rt => if R rt =? 0 then put rd (R rs) else Ok s
  | Sll rd rt sa => put rd (R rt * 2 ^ sa)
  | Srl rd rt sa => put rd (U rt / 2 ^ sa)
  | Sra rd rt sa => put rd (R rt / 2 ^ sa)
  | Sllv rd rt rs => put rd (R rt * 2 ^ (R rs mod 32))
  | Srlv rd rt rs => put rd (U rt / 2 ^ (R rs mod 32))
  | Srav rd rt rs => put rd (R rt / 2 ^ (R rs mod 32))
  | Mult rs rt => Ok (set_hilo (R rs * R rt) s)
  | Multu rs rt => Ok (set_hilo (U rs * U rt) s)
  | Div rs rt => Ok (isa_div (R rs) (R rt) s)
  | Divu rs rt => Ok (isa_div (U rs) (U rt) s)
  | Madd rs rt => Ok (set_hilo (pair64 (lo_reg_ s) (hi_reg_ s) + R rs * R rt) s)
  | Maddu rs rt => Ok (set_hilo (pair64 (lo_reg_ s) (hi_reg_ s) + U rs * U rt) s)
  | Mfhi rd => put rd (hi_reg_ s)
  | Mflo rd => put rd (lo_reg_ s)
  | Mthi rs => Ok (set_hi_register (R rs) s)
  | Mtlo rs => Ok (set_lo_register (R rs) s)
  | Addiu rt rs imm => put rt (R rs + imm)
  | Slti rt rs imm => put rt (b2z (R rs <? imm))
  | Sltiu rt rs imm => put rt (b2z (U rs <? uint32 imm))
  | Andi rt rs imm => put rt (Z.land (R rs) imm)
  | Ori rt rs imm => put rt (Z.lor (R rs) imm)
  | Xori rt rs imm => put rt (Z.lxor (R rs) imm)
  | Lui rt imm => put rt (imm * 2 ^ 16)
  | Lb rt base offset => at_address base offset s (fun addr =>
      let* v := ReadB addr s in put rt v)
  | Lbu rt base offset => at_address base offset s (fun addr =>
      let* v := ReadBU addr s in put rt v)
  | Lh rt base offset => at_address base offset s (fun addr =>
      let* v := ReadH addr s in put rt v)
  | Lhu rt base offset => at_address base offset s (fun addr =>
      let* v := ReadHU addr s in put rt v)
  | Lw rt base offset => at_address base offset s (fun addr =>
      let* v := ReadW addr s in put rt v)
  | Sb rt base offset => at_address base offset s (fun addr => WriteB addr (R rt) s)
  | Sh rt base offset => at_address base offset s (fun addr => WriteH addr (R rt) s)
  | Sw rt base offset => at_address base offset s (fun addr => WriteW addr (R rt) s)
  | Lwc1 ft base offset => at_address base offset s (fun addr =>
      let* v := ReadW addr s in Ok (put_freg ft v s))
  | Swc1 ft base offset => at_address base offset s (fun addr => WriteW addr (freg ft s) s)
  | Ldc1 dt base offset => at_address base offset s (fun addr =>
      let* v := ReadD addr s in Ok (put_double dt v s))
  | Sdc1 dt base offset => at_address base offset s (fun addr =>
      WriteD addr (get_double dt s) s)
  | Mfc1 rt fs => put rt (freg fs s)
  | Mtc1 rt fs => Ok (put_freg fs (R rt) s)
  | Addd dd ds dt => Ok (put_double dd (dadd (get_double ds s) (get_double dt s)) s)
  | Subd dd ds dt => Ok (put_double dd (dsub (get_double ds s) (get_double dt s)) s)
  | Muld dd ds dt => Ok (put_double dd (dmul (get_double ds s) (get_double dt s)) s)
  | Divd dd ds dt => Ok (put_double dd (ddiv (get_double ds s) (get_double dt s)) s)
  | Sqrtd dd ds => Ok (put_double dd (dsqrt (get_double ds s)) s)
  | Movd dd ds => Ok (put_double dd (get_double ds s) s)
  | Movs fd fs => Ok (put_freg fd (freg fs s) s)
  | Cfd ds dt => Ok (set_fcc0 false s)
  | Cund ds dt => Ok (set_fcc0 (isnan (get_double ds s) || isnan (get_double dt s)) s)
  | Ceqd ds dt => Ok (set_fcc0 (deq (get_double ds s) (get_double dt s)) s)
  | Cueqd ds dt => Ok (set_fcc0 (deq (get_double ds s) (get_double dt s)
      || (isnan (get_double ds s) || isnan (get_double dt s))) s)
  | Coltd ds dt => Ok (set_fcc0 (dlt (get_double ds s) (get_double dt s)) s)
  | Cultd ds dt => Ok (set_fcc0 (dlt (get_double ds s) (get_double dt s)
      || (isnan (get_double ds s) || isnan (get_double dt s))) s)
  | Coled ds dt => Ok (set_fcc0 (dle (get_double ds s) (get_double dt s)) s)
  | Culed ds dt => Ok (set_fcc0 (dle (get_double ds s) (get_double dt s)
      || (isnan (get_double ds s) || isnan (get_double dt s))) s)
  | Movf rd rs => if fcc0 s then Ok s else put rd (R rs)
  | Movt rd rs => if fcc0 s then put rd (R rs) else Ok s
  | Clo rd rs => put rd (clo32 (R rs))
  | Clz rd rs => put rd (clz32 (R rs))
  | Cvtds dd fs => Ok (put_double dd (dbl_of_flt (freg fs s)) s)
  | Cvtdw dd fs => Ok (put_double dd (dbl_of_int (freg fs s)) s)
  | Cvtdl dd ds => Ok (put_double dd (dbl_of_int (get_double ds s)) s)
  | Cvtsd fd ds => Ok (put_freg fd (flt_of_dbl (get_double ds s)) s)
  | Cvtwd fd ds => Ok (put_freg fd (int32_of_dbl (get_double ds s)) s)
  end.

(** The operands are registers of the machine; the immediates are checked by the
    assembler. *)
Definition dreg (d : Z) : Prop := 0 <= d < 16.

Definition operands_ok (i : insn) : Prop :=
  match i with
  | Addu x y z | Subu x y z | And x y z | Or x y z | Xor x y z | Nor x y z
  | Slt x y z | Sltu x y z | Movn x y z | Movz x y z
  | Sllv x y z | Srlv x y z | Srav x y z => reg5 x /\ reg5 y /\ reg5 z
  | Sll x y _ | Srl x y _ | Sra x y _ | Mult x y | Multu x y | Div x y | Divu x y
  | Madd x y | Maddu x y | Addiu x y _ | Slti x y _ | Sltiu x y _ | Andi x y _
  | Ori x y _ | Xori x y _ | Lb x y _ | Lbu x y _ | Lh x y _ | Lhu x y _ | Lw x y _
  | Sb x y _ | Sh x y _ | Sw x y _ | Lwc1 x y _ | Swc1 x y _ | Mfc1 x y | Mtc1 x y | Movs x y
  | Movf x y | Movt x y | Clo x y | Clz x y => reg5 x /\ reg5 y
  | Mfhi x | Mflo x | Mthi x | Mtlo x | Lui x _ => reg5 x
  | Ldc1 x y _ | Sdc1 x y _ => dreg x /\ reg5 y
  | Addd x y z | Subd x y z | Muld x y z | Divd x y z => dreg x /\ dreg y /\ dreg z
  | Sqrtd x y | Movd x y | Cfd x y | Cund x y | Ceqd x y | Cueqd x y | Coltd x y | Cultd x y
  | Coled x y | Culed x y | Cvtdl x y => dreg x /\ dreg y
  | Cvtsd x y | Cvtwd x y => reg5 x /\ dreg y
  | Cvtds x y | Cvtdw x y => dreg x /\ reg5 y
  end.

(** The instructions the simulator executes.  It has no single precision move (the
    assertion of [COP1_MOV] wants the double format), and it reads the source of
    every instruction with a format as a double before it looks at the function, so
    that a conversion from an odd register fails the assertion of
    [get_fregister_double]. *)
Definition simulated (i : insn) : bool :=
  match i with
  | Movs _ _ => false
  | Cvtds _ fs | Cvtdw _ fs => fs mod 2 =? 0
  | _ => true
  end.

(** The registers of a state hold values of their types. *)
Record wf (s : Simulator) : Prop := mk_wf {
  wf_registers : forall r, in_s 32 (get_register r s);
  wf_fregisters : forall r, in_s 32 (freg r s);
  wf_hi : in_s 32 (hi_reg_ s);
  wf_lo : in_s 32 (lo_reg_ s);
  wf_fcsr : in_s 32 (fcsr_ s);
  wf_pc : in_u 32 (pc_ s);
  wf_icount : in_u 64 (icount_ s)
}.

(** * 64-bit values in two registers *)
Lemma LowHighTo64Bits_pair64 lo hi :
  in_s 32 hi -> LowHighTo64Bits (uint32 lo) hi = pair64 lo hi.
Proof.
  intros Hhi; unfold LowHighTo64Bits, pair64.
  change 0xffffffff with (Z.ones 32); rewrite land_ones_u, to_u_to_u by lia.
  rewrite to_s_id by (lia || (revert Hhi; unfold in_s; rewrite Z.shiftl_mul_pow2 by lia;
    change (2 ^ (32 - 1)) with (2 ^ 31); change (2 ^ (64 - 1)) with (2 ^ 63); lia)).
  apply lor_shiftl_add; [lia | apply (to_u_range 32); lia].
Qed.

Lemma High32Bits_int64 v : High32Bits (int64 v) = int32 (v / 2 ^ 32).
Proof.
  unfold High32Bits; rewrite Z.shiftr_div_pow2 by lia.
  destruct (to_s_cong 64 v) as [k ->]; [lia |].
  replace (v + k * 2 ^ 64) with (v + k * 2 ^ 32 * 2 ^ 32) by lia.
  rewrite Z.div_add by lia; apply to_s_eq; [lia |].
  apply Z_mod_plus_full.
Qed.

Lemma Low32Bits_int64 v : Low32Bits (int64 v) = int32 v.
Proof.
  unfold Low32Bits; destruct (to_s_cong 64 v) as [k ->]; [lia |].
  replace (v + k * 2 ^ 64) with (v + k * 2 ^ 32 * 2 ^ 32) by lia.
  apply to_s_eq; [lia |]; apply Z_mod_plus_full.
Qed.

Lemma set_hilo_halves v s :
  set_lo_register (Low32Bits (int64 v)) (set_hi_register (High32Bits (int64 v)) s)
  = set_hilo v s.
Proof.
  rewrite High32Bits_int64, Low32Bits_int64.
  unfold set_hilo, set_lo_register, set_hi_register; rewrite !to_s_to_s by lia; done.
Qed.

Lemma pair64_range lo hi : in_s 32 hi -> in_s 64 (pair64 lo hi).
Proof.
  intros H; pose proof (to_u_range 32 lo ltac:(lia)).
  revert H; unfold in_s, in_u, pair64 in *.
  change (2 ^ (32 - 1)) with (2 ^ 31); change (2 ^ (64 - 1)) with (2 ^ 63); lia.
Qed.

(** A stored value is truncated: masking it before changes nothing. *)
Lemma store_le_mod n addr v s :
  store_le n addr (v mod 2 ^ (8 * Z.of_nat n)) s = store_le n addr v s.
Proof.
  revert addr v s; induction n as [| n IH]; intros addr v s; [done |]; simpl store_le.
  assert (2 ^ (8 * Z.of_nat (S n)) = 256 * 2 ^ (8 * Z.of_nat n)) as ->.
  { replace (8 * Z.of_nat (S n)) with (8 + 8 * Z.of_nat n) by lia.
    rewrite Z.pow_add_r by lia; done. }
  pose proof (pow2_pos (8 * Z.of_nat n) ltac:(lia)).
  rewrite Z.rem_mul_r by lia.
  assert ((v mod 256 + 256 * ((v / 256) mod 2 ^ (8 * Z.of_nat n))) / 256
          = (v / 256) mod 2 ^ (8 * Z.of_nat n)) as ->.
  { rewrite (Z.mul_comm 256), Z.div_add, (Z.div_small (v mod 256)) by
      (lia || (apply Z.mod_pos_bound; lia)); done. }
  unfold store8; case_match; [simpl obind | done].
  rewrite (Z.mul_comm 256), Z_mod_plus_full, Zmod_mod, IH; done.
Qed.

Lemma WriteB_mask addr v s : WriteB addr (Z.land v 0xff) s = WriteB addr v s.
Proof.
  unfold WriteB; change 0xff with (Z.ones 8); rewrite Z.land_ones by lia.
  apply (store_le_mod 1).
Qed.

Lemma WriteH_mask addr v s : WriteH addr (Z.land v 0xffff) s = WriteH addr v s.
Proof.
  unfold WriteH; change 0xffff with (Z.ones 16); rewrite Z.land_ones by lia.
  case_match; [| done]; apply (store_le_mod 2).
Qed.

(** * Agreement of the assembler with the simulator *)
(** Decides the comparisons of constants, as the [switch] of the decoder does. *)
Ltac ground_Z x :=
  lazymatch x with
  | Z0 => idtac
  | Zpos _ => idtac
  | Zneg _ => idtac
  | ?y mod ?z => ground_Z y; ground_Z z
  | ?y / ?z => ground_Z y; ground_Z z
  | ?y * ?z => ground_Z y; ground_Z z
  | ?y + ?z => ground_Z y; ground_Z z
  | _ => is_const x
  end.

Ltac eval_eqb :=
  repeat match goal with
         | |- context [Z.eqb ?x ?y] =>
             ground_Z x; ground_Z y;
             let r := eval vm_compute in (Z.eqb x y) in
             lazymatch r with
             | true => change (Z.eqb x y) with true
             | false => change (Z.eqb x y) with false
             end
         end; cbv iota beta.

(** Names the word and its fields. *)
Ltac prem := first [done | unfold reg5, dreg in *; lia].

Ltac name_RType op rs rt rd sa fn :=
  pose proof (RType_opcode op rs rt rd sa fn ltac:(prem) ltac:(prem) ltac:(prem)
                ltac:(prem) ltac:(prem) ltac:(prem)) as Eop;
  pose proof (RType_rs op rs rt rd sa fn ltac:(prem) ltac:(prem) ltac:(prem)
                ltac:(prem) ltac:(prem) ltac:(prem)) as Ers;
  pose proof (RType_rt op rs rt rd sa fn ltac:(prem) ltac:(prem) ltac:(prem)
                ltac:(prem) ltac:(prem) ltac:(prem)) as Ert;
  pose proof (RType_rd op rs rt rd sa fn ltac:(prem) ltac:(prem) ltac:(prem)
                ltac:(prem) ltac:(prem) ltac:(prem)) as Erd;
  pose proof (RType_sa op rs rt rd sa fn ltac:(prem) ltac:(prem) ltac:(prem)
                ltac:(prem) ltac:(prem) ltac:(prem)) as Esa;
  pose proof (RType_fn op rs rt rd sa fn ltac:(prem) ltac:(prem) ltac:(prem)
                ltac:(prem) ltac:(prem) ltac:(prem)) as Efn;
  generalize dependent (int32 (RType op rs rt rd sa fn));
  intros w Eop Ers Ert Erd Esa Efn.

Ltac name_IType op rs rt imm :=
  pose proof (IType_opcode op rs rt imm ltac:(prem) ltac:(prem) ltac:(prem)
                ltac:(prem)) as Eop;
  pose proof (IType_rs op rs rt imm ltac:(prem) ltac:(prem) ltac:(prem)
                ltac:(prem)) as Ers;
  pose proof (IType_rt op rs rt imm ltac:(prem) ltac:(prem) ltac:(prem)
                ltac:(prem)) as Ert;
  pose proof (IType_imm op rs rt imm ltac:(prem) ltac:(prem) ltac:(prem)
                ltac:(prem)) as Eimm;
  generalize dependent (int32 (IType op rs rt imm)); intros w Eop Ers Ert Eimm.

Ltac name_word :=
  match goal with
  | |- context [int32 (FpuRType ?op ?fmt ?ft ?fs ?fd ?fn)] =>
      rewrite (FpuRType_RType op fmt ft fs fd fn); name_RType op fmt ft fs fd fn
  | |- context [int32 (RType ?op ?rs ?rt ?rd ?sa ?fn)] => name_RType op rs rt rd sa fn
  | |- context [int32 (IType ?op ?rs ?rt ?imm)] => name_IType op rs rt imm
  end.

Lemma IsInt_range N v : 0 < N -> IsInt N v = true -> in_s N v.
Proof.
  unfold IsInt, in_s; intros HN; rewrite Z.shiftl_mul_pow2, Z.mul_1_l by lia.
  rewrite andb_true_iff, Z.leb_le, Z.ltb_lt; lia.
Qed.

Lemma IsUint_range N v : 0 <= N -> IsUint N v = true -> in_u N v.
Proof.
  unfold IsUint, in_u; intros HN; rewrite Z.shiftl_mul_pow2, Z.mul_1_l by lia.
  rewrite andb_true_iff, Z.leb_le, Z.ltb_lt; lia.
Qed.

(** What the assembler wrote, from the success of the emission. *)
Definition emitted (i : insn) (a a' : Assembler) (w : Z) : Prop :=
  a' = Emit w a /\
  forall host d s, wf s -> dispatch host d (int32 w) s = isa i s.

Ltac unfold_emit H :=
  cbn [emit] in H;
  unfold addu, subu, and_, or_, xor_, nor, slt, sltu, movn, movz, sll, srl, sra, sllv,
    srlv, srav, mult, multu, div, divu, madd, maddu, mfhi, mflo, mthi, mtlo, movf, movt,
    clo, clz,
    EmitRType in H;
  let Hsa := fresh "Hsa" in
  match type of H with
  | (if ?c then _ else _) = _ => destruct c eqn:Hsa; [| discriminate]
  end;
  injection H as <-; eexists; split; [reflexivity |]; intros host d s Hwf;
  apply IsUint_range in Hsa; [| lia]; change (2 ^ 5) with 32 in Hsa;
  assert (reg5 0) by prem; assert (reg5 1) by prem.

(** Replaces the fields of the word by their values. *)
Ltac use_fields :=
  repeat match goal with
         | E : OpcodeField _ = _ |- _ => rewrite !E
         | E : FunctionField _ = _ |- _ => rewrite !E
         | E : SaField _ = _ |- _ => rewrite !E
         | E : RsField _ = _ |- _ => rewrite !E
         | E : RtField _ = _ |- _ => rewrite !E
         | E : RdField _ = _ |- _ => rewrite !E
         | E : UImmField _ = _ |- _ => rewrite !E
         end; eval_eqb.

Ltac solve_special :=
  unfold dispatch, DecodeSpecial, DecodeSpecial2; use_fields;
  unfold exec_ADDU, exec_AND, exec_DIV, exec_DIVU, exec_MFHI, exec_MFLO, exec_MOVCI,
    exec_MOVN, exec_MOVZ, exec_MTHI, exec_MTLO, exec_MULT, exec_MULTU, exec_NOR, exec_OR,
    exec_SLLV, exec_SLT, exec_SLTU, exec_SRA, exec_SRAV, exec_SRL, exec_SRLV,
    exec_SUBU, exec_XOR, exec_MADD, exec_MADDU, rs_reg, rt_reg;
  rewrite ?Bit16_rt, ?Bit17_rt, ?Bits18_rt; use_fields.

(** ** Leading bits *)
Lemma int32_down x : 2 ^ 31 <= x < 2 ^ 32 + 2 ^ 31 -> int32 x = x - 2 ^ 32.
Proof.
  intros; rewrite <- (to_s_id 32 (x - 2 ^ 32)) by (lia || (unfold in_s; lia)).
  apply to_s_eq; [lia |]; replace x with (x - 2 ^ 32 + 1 * 2 ^ 32) at 1 by lia.
  apply Z_mod_plus_full.
Qed.

Lemma int32_up x : - 2 ^ 32 - 2 ^ 31 <= x < - 2 ^ 31 -> int32 x = x + 2 ^ 32.
Proof.
  intros; rewrite <- (to_s_id 32 (x + 2 ^ 32)) by (lia || (unfold in_s; lia)).
  apply to_s_eq; [lia |]; replace x with (x + 2 ^ 32 + (-1) * 2 ^ 32) at 1 by lia.
  apply Z_mod_plus_full.
Qed.

(** The loops end within a shift per bit, with the sign bit at the first bit of
    the other kind. *)
Lemma clz_loop_spec fuel c x :
  0 < x < 2 ^ 31 -> 2 ^ 31 <= x * 2 ^ Z.of_nat fuel ->
  exists r, clz_loop fuel c x = Ok (c + r) /\ 0 <= r /\ 2 ^ 31 <= x * 2 ^ r < 2 ^ 32.
Proof.
  revert c x; induction fuel as [| fuel IH]; intros c x Hx Hf; [cbn in Hf; lia |].
  cbn [clz_loop]; rewrite (proj2 (Z.gtb_lt x 0)), Z.shiftl_mul_pow2 by lia.
  change (2 ^ 1) with 2; rewrite Nat2Z.inj_succ, Z.pow_succ_r in Hf by lia.
  destruct (decide (x < 2 ^ 30)).
  - rewrite to_s_id by (lia || (unfold in_s; lia)).
    destruct (IH (c + 1) (x * 2)) as (r & -> & Hr & Hb); [lia | lia |].
    exists (r + 1); rewrite Z.pow_add_r by lia; split_and!; [f_equal; lia | lia..].
  - rewrite int32_down by lia; exists 1; split_and!; [| lia..].
    destruct fuel; cbn [clz_loop]; rewrite Z.gtb_ltb, (proj2 (Z.ltb_ge _ _)) by lia; done.
Qed.

Lemma clo_loop_spec fuel c x :
  - 2 ^ 31 <= x < 0 -> x * 2 ^ Z.of_nat fuel < - 2 ^ 31 ->
  exists r, clo_loop fuel c x = Ok (c + r) /\ 0 <= r /\ - 2 ^ 32 <= x * 2 ^ r < - 2 ^ 31.
Proof.
  revert c x; induction fuel as [| fuel IH]; intros c x Hx Hf; [cbn in Hf; lia |].
  cbn [clo_loop]; rewrite (proj2 (Z.ltb_lt x 0)), Z.shiftl_mul_pow2 by lia.
  change (2 ^ 1) with 2; rewrite Nat2Z.inj_succ, Z.pow_succ_r in Hf by lia.
  destruct (decide (- 2 ^ 30 <= x)).
  - rewrite to_s_id by (lia || (unfold in_s; lia)).
    destruct (IH (c + 1) (x * 2)) as (r & -> & Hr & Hb); [lia | lia |].
    exists (r + 1); rewrite Z.pow_add_r by lia; split_and!; [f_equal; lia | lia..].
  - rewrite int32_up by lia; exists 1; split_and!; [| lia..].
    destruct fuel; cbn [clo_loop]; rewrite (proj2 (Z.ltb_ge _ _)) by lia; done.
Qed.

Lemma clz_loop_clz32 x :
  0 < x < 2 ^ 31 -> clz_loop 32 0 x = Ok (clz32 x).
Proof.
  intros Hx; destruct (clz_loop_spec 32 0 x Hx) as (r & -> & Hr & Hb); [lia |].
  unfold clz32; rewrite (proj2 (Z.ltb_ge x 0)), (proj2 (Z.eqb_neq x 0)) by lia.
  assert (Z.log2 (x * 2 ^ r) = 31) as Hl by (apply Z.log2_unique; lia).
  rewrite Z.log2_mul_pow2 in Hl by lia; f_equal; lia.
Qed.

Lemma clo_loop_clo32 x : - 2 ^ 31 <= x < 0 -> clo_loop 32 0 x = Ok (clo32 x).
Proof.
  intros Hx; destruct (clo_loop_spec 32 0 x Hx) as (r & -> & Hr & Hb); [lia |].
  unfold clo32, clz32, Z.lnot; rewrite (proj2 (Z.ltb_ge (Z.pred (- x)) 0)) by lia; f_equal.
  destruct (Z.eqb_spec (Z.pred (- x)) 0).
  - assert (x = -1) as -> by lia.
    assert (31 < r) by (apply (Z.pow_lt_mono_r_iff 2); lia).
    assert (r < 33) by (apply (Z.pow_lt_mono_r_iff 2); lia); lia.
  - assert (r < 32) by (apply (Z.pow_lt_mono_r_iff 2); nia).
    assert (2 ^ 31 = 2 ^ (31 - r) * 2 ^ r) as E by (rewrite <- Z.pow_add_r by lia; f_equal; lia).
    pose proof (pow2_pos r ltac:(lia)); pose proof (pow2_pos (31 - r) ltac:(lia)).
    rewrite (Z.log2_unique (Z.pred (- x)) (31 - r)); [lia | lia |].
    rewrite Z.pow_succ_r by lia; nia.
Qed.

Section Special.
Context (a a' : Assembler).

Lemma decode_alu i :
  match i with
  | Addu _ _ _ | Subu _ _ _ | And _ _ _ | Or _ _ _ | Xor _ _ _ | Nor _ _ _
  | Slt _ _ _ | Sltu _ _ _ | Movz _ _ _ | Mfhi _ | Mflo _ | Mthi _ | Mtlo _ => True
  | _ => False
  end -> operands_ok i -> emit i a = Ok a' -> exists w, emitted i a a' w.
Proof.
  destruct i; intros Hi Hok H; try destruct Hi; cbn in Hok; destruct_and?;
    unfold_emit H; name_word; solve_special; reflexivity.
Qed.

Lemma land_1f v : Z.land v 0x1f = v mod 32.
Proof. change 0x1f with (Z.ones 5); rewrite Z.land_ones by lia; done. Qed.

Lemma uint32_mod_32 v : uint32 v mod 32 = v mod 32.
Proof.
  unfold to_u; apply Z.mod_mod_divide.
  exists (2 ^ 27); lia.
Qed.

Lemma decode_shift i :
  match i with
  | Movn _ _ _ | Srl _ _ _ | Sra _ _ _ | Sllv _ _ _ | Srlv _ _ _ | Srav _ _ _ => True
  | _ => False
  end -> operands_ok i -> emit i a = Ok a' -> exists w, emitted i a a' w.
Proof.
  destruct i; intros Hi Hok H; try destruct Hi; cbn in Hok; destruct_and?;
    unfold_emit H; name_word; solve_special; cbn [isa];
    rewrite ?land_1f, ?Z.shiftl_mul_pow2, ?Z.shiftr_div_pow2 by
      (first [apply Z.mod_pos_bound; lia | unfold reg5, in_u in *; lia]);
    rewrite ?uint32_mod_32; try reflexivity.
  destruct (get_register rt s =? 0); reflexivity.
Qed.

Lemma decode_sll rd rt sa :
  operands_ok (Sll rd rt sa) -> emit (Sll rd rt sa) a = Ok a' ->
  exists w, emitted (Sll rd rt sa) a a' w.
Proof.
  intros [Hr Ht] H; unfold_emit H; name_word; solve_special; unfold exec_SLL, rt_reg; use_fields.
  cbn [isa]; rewrite Z.shiftl_mul_pow2 by (unfold in_u in *; lia).
  destruct ((rd =? R0) && (rt =? R0) && (sa =? 0)) eqn:E; [| done].
  rewrite !andb_true_iff, !Z.eqb_eq in E; destruct E as [[-> _] _]; done.
Qed.

Lemma decode_hilo i :
  match i with
  | Mult _ _ | Multu _ _ | Madd _ _ | Maddu _ _ => True
  | _ => False
  end -> operands_ok i -> emit i a = Ok a' -> exists w, emitted i a a' w.
Proof.
  destruct i; intros Hi Hok H; try destruct Hi; cbn in Hok; destruct_and?;
    unfold_emit H; name_word; solve_special; cbn [isa];
    unfold get_lo_register, get_hi_register; destruct Hwf;
    rewrite <- ?set_hilo_halves, ?to_s_to_u, ?(to_s_id 32 (hi_reg_ s)),
      ?LowHighTo64Bits_pair64 by (lia || done);
    try reflexivity.
  rewrite <- (to_s_to_u 64 (_ + _)), to_u_add_l, to_s_to_u by lia; done.
Qed.

Lemma decode_div i :
  match i with Div _ _ | Divu _ _ => True | _ => False end ->
  operands_ok i -> emit i a = Ok a' -> exists w, emitted i a a' w.
Proof.
  destruct i; intros Hi Hok H; try destruct Hi; cbn in Hok; destruct_and?;
    unfold_emit H; name_word; solve_special; cbn [isa]; unfold isa_div.
  - destruct (Z.eqb_spec (get_register rt s) 0); [done |].
    destruct ((get_register rs s =? int32 2147483648)
              && (get_register rt s =? int32 4294967295)) eqn:E; [| done].
    rewrite andb_true_iff, !Z.eqb_eq in E; destruct E as [-> ->]; reflexivity.
  - destruct (Z.eqb_spec (uint32 (get_register rt s)) 0); [done |].
    pose proof (to_u_range 32 (get_register rt s) ltac:(lia)).
    pose proof (to_u_range 32 (get_register rs s) ltac:(lia)).
    unfold in_u in *; rewrite Z.quot_div_nonneg, Z.rem_mod_nonneg by lia; done.
Qed.

Lemma decode_movc i :
  match i with Movf _ _ | Movt _ _ => True | _ => False end ->
  operands_ok i -> emit i a = Ok a' -> exists w, emitted i a a' w.
Proof.
  destruct i; intros Hi Hok H; try destruct Hi; cbn in Hok; destruct_and?;
    unfold_emit H; name_word; solve_special; cbn [isa]; unfold fcc0;
    change (get_fcsr_condition_bit _) with 23;
    destruct (test_fcsr_bit 23 s); reflexivity.
Qed.

Lemma decode_leading i :
  match i with Clo _ _ | Clz _ _ => True | _ => False end ->
  operands_ok i -> emit i a = Ok a' -> exists w, emitted i a a' w.
Proof.
  destruct i; intros Hi Hok H; try destruct Hi; cbn in Hok; destruct_and?;
    unfold_emit H; name_word; solve_special; unfold exec_CLO, exec_CLZ, rs_reg; use_fields;
    rewrite Z.eqb_refl; pose proof (wf_registers s Hwf rs) as Hr; unfold in_s in Hr; cbn [isa].
  - destruct (decide (get_register rs s < 0)).
    + rewrite clo_loop_clo32 by lia; done.
    + cbn [clo_loop]; rewrite (proj2 (Z.ltb_ge _ _)) by lia; cbn [obind].
      unfold clo32, clz32, Z.lnot; rewrite (proj2 (Z.ltb_lt _ _)) by lia; done.
  - destruct (Z.eqb_spec (get_register rs s) 0) as [-> |]; [done |]; cbn [negb].
    destruct (decide (0 < get_register rs s)).
    + rewrite clz_loop_clz32 by lia; done.
    + cbn [clz_loop]; rewrite Z.gtb_ltb, (proj2 (Z.ltb_ge _ _)) by lia; cbn [obind].
      unfold clz32; rewrite (proj2 (Z.ltb_lt _ _)) by lia; done.
Qed.
End Special.

(** ** Immediates and memory *)
Lemma SImm_of_imm w imm :
  UImmField w = to_u 16 imm -> in_s 16 imm -> SImmField w = imm.
Proof.
  intros H ?; rewrite SImmField_int16, H, to_s_to_u, to_s_id by (lia || done); done.
Qed.

Lemma to_u16_range v : 0 <= to_u 16 v < 2 ^ 16.
Proof. apply to_u_range; lia. Qed.

Ltac solve_imm :=
  pose proof to_u16_range;
  name_word; unfold dispatch; use_fields;
  unfold exec_ADDIU, exec_SLTI, exec_SLTIU, exec_ANDI, exec_ORI, exec_XORI, exec_LUI,
    exec_LB, exec_LBU, exec_LH, exec_LHU, exec_LW, exec_SB, exec_SH, exec_SW, exec_LWC1,
    exec_SWC1, exec_LDC1, exec_SDC1, effective_address, checked, rs_reg, rt_reg;
  match goal with
  | E : UImmField ?w = to_u 16 ?imm, H : in_s 16 ?imm |- _ =>
      rewrite ?(SImm_of_imm w imm E H)
  | E : UImmField ?w = to_u 16 ?imm, H : in_u 16 ?imm |- _ =>
      rewrite ?E, ?(to_u_id 16 imm H)
  end; use_fields.

Section Immediate.
Context (a a' : Assembler).

Ltac unfold_imm H :=
  cbn [emit] in H;
  unfold addiu, slti, sltiu, andi, ori, xori, lui, EmitIType in H;
  let Himm := fresh "Himm" in
  match type of H with
  | (if ?c then _ else _) = _ => destruct c eqn:Himm; [| discriminate]
  end;
  injection H as <-; eexists; split; [reflexivity |]; intros host d s Hwf;
  first [apply IsInt_range in Himm | apply IsUint_range in Himm]; [| done];
  change kImmBits with 16 in Himm; assert (reg5 0) by prem.

Lemma decode_imm i :
  match i with
  | Addiu _ _ _ | Slti _ _ _ | Sltiu _ _ _ | Andi _ _ _ | Ori _ _ _ | Xori _ _ _
  | Lui _ _ => True
  | _ => False
  end -> operands_ok i -> emit i a = Ok a' -> exists w, emitted i a a' w.
Proof.
  destruct i; intros Hi Hok H; try destruct Hi; cbn in Hok; destruct_and?;
    unfold_imm H; solve_imm; cbn [isa]; try reflexivity.
  - unfold set_register; rewrite to_s_to_s by lia; done.
  - rewrite Z.shiftl_mul_pow2 by lia; done.
Qed.

Lemma emit_load_store op rt base offset :
  EmitLoadStore op rt (mkAddress base offset) a = Ok a' ->
  in_s 16 offset /\ a' = Emit (IType op base rt (to_u 16 offset)) a.
Proof.
  unfold EmitLoadStore, Address_encoding; cbn [base_ offset_].
  destruct (IsInt kImmBits offset) eqn:E; [| discriminate]; cbn [obind].
  intros H; injection H as <-; rewrite load_store_IType.
  apply IsInt_range in E; done.
Qed.

Ltac unfold_mem H :=
  cbn [emit] in H; unfold lb, lbu, lh, lhu, lw, sb, sh, sw, lwc1, swc1, ldc1, sdc1 in H;
  apply emit_load_store in H; destruct H as [? ->];
  eexists; split; [reflexivity |]; intros host d s Hwf.

Lemma decode_mem i :
  match i with
  | Lb _ _ _ | Lbu _ _ _ | Lh _ _ _ | Lhu _ _ _ | Lw _ _ _ | Sb _ _ _ | Sh _ _ _
  | Sw _ _ _ => True
  | _ => False
  end -> operands_ok i -> emit i a = Ok a' -> exists w, emitted i a a' w.
Proof.
  destruct i; intros Hi Hok H; try destruct Hi; cbn in Hok; destruct_and?;
    unfold_mem H; solve_imm; rewrite ?WriteB_mask, ?WriteH_mask; reflexivity.
Qed.

(** ** Floating point *)
Lemma get_fregister_double_ok dr s :
  dreg dr -> wf s -> get_fregister_double (dr * 2) s = Ok (get_double dr s).
Proof.
  intros Hd Hwf; unfold get_fregister_double, get_fregister_long, kNumberOfFRegisters.
  assert (Z.land (dr * 2) 1 = 0) as E.
  { change 1 with (Z.ones 1); rewrite Z.land_ones, Z.mod_mul by lia; done. }
  unfold dreg in Hd.
  rewrite E, (proj2 (Z.geb_le _ _)), (proj2 (Z.ltb_lt _ _)) by lia; cbn.
  rewrite LowHighTo64Bits_pair64 by (apply wf_fregisters; done); done.
Qed.

Lemma set_fregister_double_ok dr v s :
  dreg dr -> set_fregister_double (dr * 2) v s = Ok (put_double dr v s).
Proof.
  intros Hd; unfold set_fregister_double, set_fregister_long, kNumberOfFRegisters.
  assert (Z.land (dr * 2) 1 = 0) as E.
  { change 1 with (Z.ones 1); rewrite Z.land_ones, Z.mod_mul by lia; done. }
  unfold dreg in Hd.
  rewrite E, (proj2 (Z.geb_le _ _)), (proj2 (Z.ltb_lt _ _)) by lia; cbn.
  unfold put_double, put_freg, High32Bits, Low32Bits.
  rewrite !to_s_to_s, Z.shiftr_div_pow2 by lia; done.
Qed.

Lemma set_fregister_ok r v s : reg5 r -> set_fregister r v s = Ok (put_freg r v s).
Proof.
  intros Hr; unfold set_fregister, kNumberOfFRegisters, reg5 in *.
  rewrite (proj2 (Z.geb_le _ _)), (proj2 (Z.ltb_lt _ _)) by lia; done.
Qed.

Lemma get_fregister_ok r s : reg5 r -> get_fregister r s = Ok (freg r s).
Proof.
  intros Hr; unfold get_fregister, kNumberOfFRegisters, reg5 in *.
  rewrite (proj2 (Z.geb_le _ _)), (proj2 (Z.ltb_lt _ _)) by lia; done.
Qed.

Lemma decode_fpu_mem i :
  match i with
  | Lwc1 _ _ _ | Swc1 _ _ _ | Ldc1 _ _ _ | Sdc1 _ _ _ => True
  | _ => False
  end -> operands_ok i -> emit i a = Ok a' -> exists w, emitted i a a' w.
Proof.
  destruct i; intros Hi Hok H; try destruct Hi; cbn in Hok; destruct_and?;
    unfold_mem H; solve_imm; change (FtField w) with (RtField w); use_fields;
    cbn [isa]; unfold at_address, IsIllegalAddress; change (64 * 1024) with 65536;
    case_match; try done;
    rewrite ?get_fregister_double_ok, ?get_fregister_ok by done; try done.
  - destruct (ReadW _ _); cbn; rewrite ?set_fregister_ok; done.
  - destruct (ReadD _ _); cbn; rewrite ?set_fregister_double_ok; done.
Qed.

(** The fields of a floating point instruction are those of an R-type word. *)
Ltac solve_cop1 :=
  name_word;
  match goal with E : OpcodeField ?w = COP1 |- _ =>
    pose proof (HasFormat_rs w E) as Hfmt;
    unfold dispatch, DecodeCop1; use_fields; rewrite Hfmt; use_fields
  end;
  cbn [Z.geb Z.compare];
  unfold DecodeCop1_format, DecodeCop1_sub, cop1_arith, cop1_compare, exec_MFC1, exec_MTC1;
  change FsField with RdField; change FtField with RtField;
  change FdField with SaField; change FormatField with RsField;
  change Cop1FunctionField with FunctionField; change Cop1SubField with RsField;
  rewrite ?FpuCCField_sa, ?Bits0_11; use_fields.

Lemma decode_fpu_move i :
  match i with Mfc1 _ _ | Mtc1 _ _ => True | _ => False end ->
  operands_ok i -> emit i a = Ok a' -> exists w, emitted i a a' w.
Proof.
  destruct i; intros Hi Hok H; try destruct Hi; cbn in Hok; destruct_and?;
    cbn [emit] in H; injection H as <-; eexists; (split; [reflexivity |]);
    intros host d s Hwf; rewrite cop1_move_RType; assert (reg5 0) by prem;
    solve_cop1; unfold rt_reg; use_fields;
    rewrite ?get_fregister_ok, ?set_fregister_ok by done; done.
Qed.

Lemma decode_fpu i :
  match i with
  | Addd _ _ _ | Subd _ _ _ | Muld _ _ _ | Divd _ _ _ | Sqrtd _ _ | Movd _ _
  | Cfd _ _ | Cund _ _ | Ceqd _ _ | Cueqd _ _ | Coltd _ _ | Cultd _ _ | Coled _ _ | Culed _ _ => True
  | _ => False
  end -> operands_ok i -> emit i a = Ok a' -> exists w, emitted i a a' w.
Proof.
  assert (dreg 0) by (unfold dreg; lia).
  destruct i; intros Hi Hok H'; try destruct Hi; cbn in Hok; destruct_and?;
    cbn [emit] in H'; injection H' as <-; eexists; (split; [reflexivity |]);
    intros host d s Hwf; change F0 with (0 * 2);
    solve_cop1; rewrite !get_fregister_double_ok by done; cbn [obind]; use_fields;
    rewrite ?set_fregister_double_ok by done; reflexivity.
Qed.

Lemma set_fregister_float_ok r v s : reg5 r -> set_fregister_float r v s = Ok (put_freg r v s).
Proof. apply set_fregister_ok. Qed.

Lemma get_fregister_float_ok r s : reg5 r -> get_fregister_float r s = Ok (freg r s).
Proof.
  intros Hr; unfold get_fregister_float, kNumberOfFRegisters, reg5 in *.
  rewrite (proj2 (Z.geb_le _ _)), (proj2 (Z.ltb_lt _ _)) by lia; done.
Qed.

Lemma get_fregister_long_ok dr s :
  dreg dr -> wf s -> get_fregister_long (dr * 2) s = Ok (get_double dr s).
Proof.
  intros Hd Hwf; pose proof (get_fregister_double_ok dr s Hd Hwf) as H.
  unfold get_fregister_double in H; repeat case_match; done.
Qed.

Lemma even_dreg r : reg5 r -> r mod 2 = 0 -> exists q, r = q * 2 /\ dreg q.
Proof.
  unfold reg5, dreg; intros; exists (r / 2); split; Z.div_mod_to_equations; lia.
Qed.

Lemma decode_cvt i :
  match i with
  | Cvtds _ _ | Cvtdw _ _ | Cvtdl _ _ | Cvtsd _ _ | Cvtwd _ _ => True
  | _ => False
  end -> operands_ok i -> simulated i = true -> emit i a = Ok a' ->
  exists w, emitted i a a' w.
Proof.
  assert (dreg 0) by (unfold dreg; lia).
  destruct i; intros Hi Hok Hsim H'; try destruct Hi; cbn in Hok, Hsim; destruct_and?;
    try (match goal with Hr : reg5 ?r, E : (?r mod 2 =? 0) = true |- _ =>
           apply Z.eqb_eq in E; destruct (even_dreg r Hr E) as (q & -> & Hq) end);
    cbn [emit] in H'; injection H' as <-; eexists; (split; [reflexivity |]);
    intros host d s Hwf; change F0 with (0 * 2);
    solve_cop1; unfold exec_CVT_D, exec_CVT_S, exec_CVT_W;
    change FsField with RdField; change FtField with RtField;
    change FdField with SaField; change FormatField with RsField;
    use_fields; rewrite !get_fregister_double_ok by done; cbn [obind]; use_fields;
    rewrite ?get_fregister_ok, ?get_fregister_float_ok, ?get_fregister_long_ok by done;
    cbn [obind]; rewrite ?set_fregister_double_ok, ?set_fregister_ok, ?set_fregister_float_ok
      by done; try reflexivity.
  change (FMT_D >=? 16) with true; cbn [isa]; unfold int32_of_dbl, kIntMax, kIntMin.
  case_match; [done |]; unfold put_freg; rewrite to_s_to_s by lia; done.
Qed.

(** ** What the simulator does not execute *)
Lemma get_fregister_double_odd r s :
  r mod 2 <> 0 -> get_fregister_double r s = Err AssertionFailed.
Proof.
  intros Hr; unfold get_fregister_double; change (Z.land r 1) with (Z.land r (Z.ones 1)).
  rewrite Z.land_ones by lia; change (2 ^ 1) with 2.
  rewrite (proj2 (Z.eqb_neq _ _) Hr); repeat case_match; done.
Qed.

Lemma decode_rejected i :
  operands_ok i -> simulated i = false -> emit i a = Ok a' ->
  exists w, a' = Emit w a /\
    forall host d s, wf s -> dispatch host d (int32 w) s = Err AssertionFailed.
Proof.
  assert (dreg 0) by (unfold dreg; lia).
  destruct i; intros Hok Hsim H'; cbn in Hok, Hsim; try discriminate Hsim; destruct_and?;
    cbn [emit] in H'; injection H' as <-; eexists; (split; [reflexivity |]);
    intros host d s Hwf; change F0 with (0 * 2); solve_cop1;
    try (rewrite get_fregister_double_odd by (apply Z.eqb_neq; done); done).
  destruct (decide (fs mod 2 = 0)) as [E |]; [| rewrite get_fregister_double_odd; done].
  destruct (even_dreg fs) as (q & -> & Hq); [done.. |].
  rewrite !get_fregister_double_ok by done; cbn [obind]; use_fields; done.
Qed.

End Immediate.

(** Every word the assembler emits for an instruction the simulator knows is decoded
    to the effect of that instruction. *)
Lemma emit_decode i a a' :
  operands_ok i -> simulated i = true -> emit i a = Ok a' -> exists w, emitted i a a' w.
Proof.
  destruct i; intros Hok Hsim H; try discriminate Hsim;
    first [ eapply decode_alu; eassumption || exact I
          | eapply decode_shift; eassumption || exact I
          | eapply decode_sll; eassumption
          | eapply decode_hilo; eassumption || exact I
          | eapply decode_div; eassumption || exact I
          | eapply decode_movc; eassumption || exact I
          | eapply decode_leading; eassumption || exact I
          | eapply decode_imm; eassumption || exact I
          | eapply decode_mem; eassumption || exact I
          | eapply decode_fpu_mem; eassumption || exact I
          | eapply decode_fpu_move; eassumption || exact I
          | eapply decode_fpu; eassumption || exact I
          | eapply decode_cvt; eassumption || exact I ].
Qed.

(** C1. The assembler and the simulator agree on the instruction set.  [insn] has
    every instruction of the MIPS assembler but the jumps, the branches and [break_]
    ([nop] and [mov] are the [Sll] and [Or] the assembler writes for them): arithmetic,
    shifts, [hi] and [lo], loads and stores, leading bits, and floating point
    arithmetic, comparisons, moves and conversions.  Where the operands are registers
    of the machine and the assembler accepts the immediates, it emits one word, and
    decoding that word in any well-formed state has exactly the effect of the
    instruction, errors of memory accesses included; only a single precision move
    ([movs]), and a conversion from single precision or from a 32-bit integer in an odd
    register, are words the simulator does not execute, and these always fail one of
    its assertions. *)
Theorem assembler_simulator_agree i a a' :
  operands_ok i -> emit i a = Ok a' ->
  exists w, a' = Emit w a /\
    forall host d s, wf s ->
      dispatch host d (int32 w) s = if simulated i then isa i s else Err AssertionFailed.
Proof.
  intros Hok He; destruct (simulated i) eqn:Hs; [| eapply decode_rejected; eassumption].
  destruct (emit_decode i a a' Hok Hs He) as (w & -> & Hw); eauto.
Qed.
