(* ===== verification/MipsExec.v ===== *)
(** Running emitted code in the simulator: the words in memory at the pc are
    executed as the instructions they were emitted for. *)
From stdpp Require Import base numbers list gmap.
From Stdlib Require Import ZArith Lia Bool.
From S2P Require Import Prelude Utils MipsConstants HostFloat MipsState MipsSimulator.
From S2P Require Import MipsAssembler MipsEncoding MipsIsa.
Import Instr.
#[local] Open Scope Z_scope.

(** * Register files *)
Lemma get_set_register r r' v s :
  get_register r (set_register r' v s) =
  if decide (r = r' /\ r <> 0) then int32 v else get_register r s.
Proof.
  unfold get_register, set_register, R0.
  destruct (Z.eqb_spec r' 0), (Z.eqb_spec r 0); cbn; case_decide as D;
    try lia; try done.
  - destruct D as [-> _]; rewrite lookup_insert_eq; done.
  - rewrite lookup_insert_ne by lia; done.
Qed.

Lemma get_set_register_eq r v s : r <> 0 -> get_register r (set_register r v s) = int32 v.
Proof. intros; rewrite get_set_register, decide_True; done. Qed.

Lemma get_set_register_ne r r' v s :
  r <> r' -> get_register r (set_register r' v s) = get_register r s.
Proof. intros; rewrite get_set_register, decide_False by tauto; done. Qed.

Lemma get_register_0 s : get_register 0 s = 0.
Proof. done. Qed.

Lemma set_set_register r v v' s :
  set_register r v (set_register r v' s) = set_register r v s.
Proof.
  unfold set_register; destruct (r =? R0); [done |]; unfold with_registers; cbn.
  rewrite insert_insert_eq; done.
Qed.

Lemma set_register_comm r r' v v' s :
  r <> r' -> set_register r v (set_register r' v' s) = set_register r' v' (set_register r v s).
Proof.
  intros; unfold set_register; destruct (r =? R0), (r' =? R0); try done.
  unfold with_registers; cbn; rewrite insert_insert_ne; done.
Qed.

Lemma set_register_int32 r v s : set_register r (int32 v) s = set_register r v s.
Proof. unfold set_register; rewrite to_s_to_s by lia; done. Qed.

(** The parts of the state a register write leaves alone. *)
Lemma set_register_frame r v s :
  pc_ (set_register r v s) = pc_ s /\ icount_ (set_register r v s) = icount_ s /\
  memory (set_register r v s) = memory s /\ fregisters_ (set_register r v s) = fregisters_ s /\
  hi_reg_ (set_register r v s) = hi_reg_ s /\ lo_reg_ (set_register r v s) = lo_reg_ s /\
  fcsr_ (set_register r v s) = fcsr_ s /\ delay_slot_ (set_register r v s) = delay_slot_ s.
Proof. unfold set_register; destruct (r =? R0); done. Qed.

(** * Well-formed states *)
Lemma wf_set_register r v s : wf s -> wf (set_register r v s).
Proof.
  intros [Hr Hf Hh Hl Hc Hp Hi]; destruct (set_register_frame r v s) as
    (E1 & E2 & E3 & E4 & E5 & E6 & E7 & E8).
  split; rewrite ?E1, ?E2, ?E5, ?E6, ?E7; try done.
  - intros q; rewrite get_set_register; case_decide; [apply to_s_range; lia | done].
  - intros q; unfold freg; rewrite E4; apply Hf.
Qed.

(** [n] instructions further. *)
Definition advance (n : Z) (s : Simulator) : Simulator :=
  with_pc (uint32 (pc_ s + 4 * n)) (with_icount (uint64 (icount_ s + n)) s).

Lemma wf_advance n s : wf s -> wf (advance n s).
Proof.
  intros [Hr Hf Hh Hl Hc Hp Hi]; split; try done; apply to_u_range; lia.
Qed.

Lemma advance_0 s : wf s -> advance 0 s = s.
Proof.
  intros [? ? ? ? ? Hp Hi]; unfold advance.
  replace (pc_ s + 4 * 0) with (pc_ s) by lia; rewrite Z.add_0_r, !to_u_id by done.
  destruct s; done.
Qed.

Lemma advance_advance n m s : advance n (advance m s) = advance (m + n) s.
Proof.
  unfold advance, with_pc, with_icount; cbn; f_equal; rewrite to_u_add_l; f_equal; lia.
Qed.

Lemma set_register_advance r v n s :
  set_register r v (advance n s) = advance n (set_register r v s).
Proof. unfold set_register; destruct (r =? R0); done. Qed.

Lemma get_register_advance r n s : get_register r (advance n s) = get_register r s.
Proof. done. Qed.

(** * Code in memory *)
Fixpoint code_at (addr : Z) (ws : list Z) (s : Simulator) : Prop :=
  match ws with
  | [] => True
  | w :: ws => fetch addr s = Ok w /\ code_at (addr + 4) ws s
  end.

(** The code is in the legal part of the address space and does not wrap. *)
Definition code_range (addr : Z) (n : nat) : Prop :=
  65536 <= addr /\ addr + 4 * Z.of_nat n < 2 ^ 32.

Lemma load_le_memory n addr s s' :
  memory s = memory s' -> load_le n addr s = load_le n addr s'.
Proof.
  intros H; revert addr; induction n as [| n IH]; intros addr; simpl; [done |].
  unfold load8; rewrite H; destruct (memory s' !! addr); simpl; [rewrite IH |]; done.
Qed.

Lemma fetch_memory addr s s' : memory s = memory s' -> fetch addr s = fetch addr s'.
Proof. intros H; unfold fetch; rewrite (load_le_memory 4 addr s s' H); done. Qed.

Lemma code_at_memory addr ws s s' :
  memory s = memory s' -> code_at addr ws s -> code_at addr ws s'.
Proof.
  intros H; revert addr; induction ws as [| w ws IH]; intros addr; simpl; [done |].
  intros [Hw Hws]; split; [rewrite <- Hw; symmetry; apply fetch_memory; done | auto].
Qed.

Lemma code_at_app addr ws ws' s :
  code_at addr (ws ++ ws') s <->
  code_at addr ws s /\ code_at (addr + 4 * Z.of_nat (length ws)) ws' s.
Proof.
  revert addr; induction ws as [| w ws IH]; intros addr; cbn [app code_at length].
  - replace (addr + 4 * Z.of_nat 0) with addr by lia; tauto.
  - rewrite IH; replace (addr + 4 + 4 * Z.of_nat (length ws))
      with (addr + 4 * Z.of_nat (S (length ws))) by lia; tauto.
Qed.

(** * One step *)
Lemma InstructionDecode_step host fuel instr s :
  InstructionDecode host fuel instr s
  = decode_step host (ExecuteDelaySlot host fuel) instr s.
Proof. destruct fuel; reflexivity. Qed.

Definition tick (s : Simulator) : Simulator := with_icount (uint64 (icount_ s + 1)) s.

Lemma wf_tick s : wf s -> wf (tick s).
Proof. intros [Hr Hf Hh Hl Hc Hp Hi]; split; try done; apply to_u_range; lia. Qed.

Lemma step_fetch host s w :
  65536 <= pc_ s -> fetch (pc_ s) s = Ok w ->
  step host s = decode_step host (ExecuteDelaySlot host kNesting) w (tick s).
Proof.
  intros Hpc Hf; unfold step; cbn [pc_ with_icount].
  unfold IsIllegalAddress; rewrite (proj2 (Z.ltb_ge (pc_ s) (64 * 1024))) by lia.
  rewrite (fetch_memory _ _ s) by done; rewrite Hf; cbn [obind].
  apply InstructionDecode_step.
Qed.

(** A word emitted for an instruction has its effect, and the pc moves on. *)
Lemma step_insn host i a a' w s :
  emitted i a a' w -> wf s -> 65536 <= pc_ s -> fetch (pc_ s) s = Ok (int32 w) ->
  step host s =
  (let* s' := isa i (tick s) in Ok (with_pc (uint32 (pc_ s' + kInstrSize)) s')).
Proof.
  intros [_ Hw] Hwf Hpc Hf; rewrite (step_fetch host s _ Hpc Hf).
  unfold decode_step; rewrite Hw by (apply wf_tick; done); done.
Qed.

(** * Straight-line register code *)
(** The destination and the value of an instruction that only writes a general
    register, as a function of the registers. *)
Definition alu (i : insn) : option (Z * ((Z -> Z) -> Z)) :=
  match i with
  | Addu rd rs rt => Some (rd, fun R => R rs + R rt)
  | Subu rd rs rt => Some (rd, fun R => R rs - R rt)
  | And rd rs rt => Some (rd, fun R => Z.land (R rs) (R rt))
  | Or rd rs rt => Some (rd, fun R => Z.lor (R rs) (R rt))
  | Xor rd rs rt => Some (rd, fun R => Z.lxor (R rs) (R rt))
  | Nor rd rs rt => Some (rd, fun R => Z.lnot (Z.lor (R rs) (R rt)))
  | Slt rd rs rt => Some (rd, fun R => b2z (R rs <? R rt))
  | Sltu rd rs rt => Some (rd, fun R => b2z (uint32 (R rs) <? uint32 (R rt)))
  | Sll rd rt sa => Some (rd, fun R => R rt * 2 ^ sa)
  | Srl rd rt sa => Some (rd, fun R => uint32 (R rt) / 2 ^ sa)
  | Sra rd rt sa => Some (rd, fun R => R rt / 2 ^ sa)
  | Addiu rt rs imm => Some (rt, fun R => R rs + imm)
  | Slti rt rs imm => Some (rt, fun R => b2z (R rs <? imm))
  | Sltiu rt rs imm => Some (rt, fun R => b2z (uint32 (R rs) <? uint32 imm))
  | Andi rt rs imm => Some (rt, fun R => Z.land (R rs) imm)
  | Ori rt rs imm => Some (rt, fun R => Z.lor (R rs) imm)
  | Xori rt rs imm => Some (rt, fun R => Z.lxor (R rs) imm)
  | Lui rt imm => Some (rt, fun R => imm * 2 ^ 16)
  | _ => None
  end.

Definition alu_step (i : insn) (s : Simulator) : Simulator :=
  match alu i with
  | Some (d, f) => set_register d (f (fun r => get_register r s)) s
  | None => s
  end.

Definition alu_run (il : list insn) (s : Simulator) : Simulator :=
  fold_left (fun s i => alu_step i s) il s.

Lemma isa_alu i s : is_Some (alu i) -> isa i s = Ok (alu_step i s).
Proof.
  intros [[d f] E]; unfold alu_step; rewrite E.
  destruct i; try discriminate E; injection E as <- <-; reflexivity.
Qed.

Lemma alu_simulated i : is_Some (alu i) -> simulated i = true.
Proof. intros [? E]; destruct i; done. Qed.

Lemma wf_alu_step i s : wf s -> wf (alu_step i s).
Proof.
  intros; unfold alu_step; destruct (alu i) as [[d f] |]; auto using wf_set_register.
Qed.

Lemma alu_step_advance i n s : alu_step i (advance n s) = advance n (alu_step i s).
Proof.
  unfold alu_step; destruct (alu i) as [[d f] |]; [| done].
  apply set_register_advance.
Qed.

Lemma alu_run_advance il n s : alu_run il (advance n s) = advance n (alu_run il s).
Proof.
  revert s; induction il as [| i il IH]; intros s; cbn; [done |].
  rewrite alu_step_advance; apply IH.
Qed.

Lemma alu_step_frame i s :
  pc_ (alu_step i s) = pc_ s /\ icount_ (alu_step i s) = icount_ s /\
  memory (alu_step i s) = memory s.
Proof.
  unfold alu_step; destruct (alu i) as [[d f] |]; [| done].
  destruct (set_register_frame d (f (fun r => get_register r s)) s)
    as (-> & -> & -> & _); done.
Qed.

Lemma step_alu host i a a' w s :
  emitted i a a' w -> is_Some (alu i) -> wf s -> 65536 <= pc_ s ->
  fetch (pc_ s) s = Ok (int32 w) ->
  step host s = Ok (advance 1 (alu_step i s)).
Proof.
  intros Hw Ha Hwf Hpc Hf; rewrite (step_insn host i a a' w s) by done.
  rewrite (isa_alu i (tick s) Ha); cbn [obind].
  destruct (alu_step_frame i (tick s)) as (Ep & Ei & _); rewrite Ep.
  unfold alu_step, tick; destruct (alu i) as [[d f] |]; [| destruct Ha; done].
  unfold set_register; destruct (negb (d =? R0)); done.
Qed.

(** * Emitting a list of instructions *)
Fixpoint emit_all (il : list insn) (a : Assembler) : outcome Assembler :=
  match il with
  | [] => Ok a
  | i :: il => let* a := emit i a in emit_all il a
  end.

Lemma emit_all_app il il' a :
  emit_all (il ++ il') a = (let* a := emit_all il a in emit_all il' a).
Proof.
  revert a; induction il as [| i il IH]; intros a; cbn; [done |].
  destruct (emit i a); cbn; auto.
Qed.

(** The flags an assembler keeps while it emits. *)
Definition same_mode (a a' : Assembler) : Prop :=
  FLAG_use_far_branches a' = FLAG_use_far_branches a /\
  use_far_branches_ a' = use_far_branches_ a /\
  allow_constant_pool_ a' = allow_constant_pool_ a /\
  prologue_offset_ a' = prologue_offset_ a /\ fixups_ a' = fixups_ a.

Lemma emit_all_run il a a' :
  Forall operands_ok il -> Forall (fun i => is_Some (alu i)) il -> emit_all il a = Ok a' ->
  exists ws, buffer_ a' = buffer_ a ++ ws /\ length ws = length il /\ same_mode a a' /\
    forall host s, wf s -> code_range (pc_ s) (length il) -> code_at (pc_ s) ws s ->
      steps host (length il) s = Ok (advance (Z.of_nat (length il)) (alu_run il s)).
Proof.
  intros Hok Halu; revert a; induction il as [| i il IH]; intros a H; cbn in H.
  { injection H as <-; exists []; rewrite app_nil_r; repeat split.
    intros host s Hwf _ _; cbn; rewrite advance_0; done. }
  inversion_clear Hok as [| ? ? Hi Hok']; inversion_clear Halu as [| ? ? Ai Halu'].
  destruct (emit i a) as [a1 |] eqn:E1; [| discriminate]; cbn in H.
  destruct (emit_decode i a a1 Hi (alu_simulated i Ai) E1) as [w Hw]; pose proof Hw as [-> _].
  destruct (IH Hok' Halu' _ H) as (ws & Hb & Hl & Hm & Hrun).
  exists (int32 w :: ws); cbn in Hb; rewrite <- app_assoc in Hb.
  repeat split; try apply Hm; [done | cbn; lia |].
  intros host s Hwf [Hlo Hhi] [Hf Hc]; cbn [length] in *; cbn [steps].
  rewrite (step_alu host i a _ w s Hw Ai Hwf Hlo Hf); cbn [obind].
  destruct (alu_step_frame i s) as (Ep & Ei & Em).
  assert (pc_ (advance 1 (alu_step i s)) = pc_ s + 4) as Epc.
  { cbn; rewrite Ep, to_u_id; [lia | split; lia]. }
  rewrite Hrun.
  - rewrite alu_run_advance, advance_advance.
    replace (1 + Z.of_nat (length il)) with (Z.of_nat (S (length il))) by lia; done.
  - apply wf_advance, wf_alu_step; done.
  - unfold code_range; rewrite Epc; lia.
  - rewrite Epc; revert Hc; apply code_at_memory; cbn; done.
Qed.
