(* ===== verification/MipsMacroProofs.v ===== *)
(** Correctness of the straight-line macro instructions: what the code they
    assemble to does when the simulator runs it. *)
From stdpp Require Import base numbers list gmap.
From Stdlib Require Import ZArith Lia Bool.
From S2P Require Import Prelude Utils MipsConstants HostFloat MipsState MipsSimulator.
From S2P Require Import MipsAssembler MipsLabels MipsMacros MipsEncoding MipsIsa MipsExec.
Import Instr.
#[local] Open Scope Z_scope.

(** [m] assembles to the instructions [il]. *)
Definition assembles (m : asm) (il : list insn) : Prop :=
  forall a a', m a = Ok a' -> emit_all il a = Ok a'.

(** [m] assembles to code that runs to its end with the effect [f]. *)
Definition runs_as (m : asm) (f : Simulator -> Simulator) : Prop :=
  forall a a', m a = Ok a' ->
  exists ws, buffer_ a' = buffer_ a ++ ws /\ same_mode a a' /\
    forall host s, wf s -> code_range (pc_ s) (length ws) -> code_at (pc_ s) ws s ->
      steps host (length ws) s = Ok (advance (Z.of_nat (length ws)) (f s)).

Lemma assembles_runs m il f :
  assembles m il -> Forall operands_ok il -> Forall (fun i => is_Some (alu i)) il ->
  (forall s, wf s -> alu_run il s = f s) -> runs_as m f.
Proof.
  intros Hm Hok Ha Hf a a' H; apply Hm in H.
  destruct (emit_all_run il a a' Hok Ha H) as (ws & Hb & Hl & Hmode & Hrun).
  exists ws; split_and!; [done | done |]; rewrite Hl.
  intros host s Hwf Hr Hc; rewrite Hrun, Hf; done.
Qed.

Ltac code_ok := repeat first [apply Forall_cons_2 | apply Forall_nil_2]; cbn; eauto.

(** ** Immediates *)
Definition load_immediate_code (rd value : Z) : list insn :=
  if IsInt kImmBits value then [Addiu rd ZR value]
  else
    let low := to_u 16 (Low16Bits value) in
    let high := to_u 16 (High16Bits value) in
    if negb (low =? 0) then [Lui rd high; Ori rd rd low] else [Lui rd high].

Lemma LoadImmediate_assembles rd value :
  assembles (LoadImmediate rd value) (load_immediate_code rd value).
Proof.
  intros a a'; unfold LoadImmediate, load_immediate_code.
  destruct (negb (in_delay_slot_ a)); [| discriminate].
  destruct (IsInt kImmBits value); cbn [emit_all emit].
  - intros ->; done.
  - set (l := to_u 16 (Low16Bits value)); set (h := to_u 16 (High16Bits value)).
    destruct (negb (l =? 0)); cbn [emit_all emit]; destruct (lui rd h a); cbn; [| done | |];
      try done; intros ->; done.
Qed.

Lemma load_immediate_code_ok rd value :
  reg5 rd -> Forall operands_ok (load_immediate_code rd value) /\
             Forall (fun i => is_Some (alu i)) (load_immediate_code rd value).
Proof.
  intros; assert (reg5 ZR) by (unfold reg5, ZR, R0; lia).
  unfold load_immediate_code; repeat case_match; split; code_ok.
Qed.

Lemma Low16Bits_mod v : to_u 16 (Low16Bits v) = v mod 2 ^ 16.
Proof.
  unfold Low16Bits, to_u; change 0xffff with (Z.ones 16); rewrite Z.land_ones by lia.
  pose proof (Z.mod_pos_bound v (2 ^ 16) ltac:(lia)).
  rewrite to_s_id by (unfold in_s; lia); apply Zmod_mod.
Qed.

Lemma High16Bits_div v : in_s 32 v -> to_u 16 (High16Bits v) = (v / 2 ^ 16) mod 2 ^ 16.
Proof.
  unfold High16Bits, to_u, in_s; intros; rewrite Z.shiftr_div_pow2 by lia.
  rewrite to_s_id; [done | lia |].
  unfold in_s; Z.div_mod_to_equations; lia.
Qed.

(** The two halves of a 32-bit value. *)
Lemma halves v : in_s 32 v ->
  int32 ((v / 2 ^ 16) mod 2 ^ 16 * 2 ^ 16 + v mod 2 ^ 16) = v.
Proof.
  intros Hv; rewrite <- (to_s_id 32 v) at 3 by (lia || done).
  apply to_s_eq; [lia |].
  change (2 ^ 32) with 4294967296; change (2 ^ 16) with 65536.
  Z.div_mod_to_equations; lia.
Qed.

Lemma lor_int32_low x low :
  0 <= low < 2 ^ 16 -> Z.lor (int32 (x * 2 ^ 16)) low = int32 (x * 2 ^ 16 + low).
Proof.
  intros; rewrite <- (lor_shiftl_add x low 16), <- (Z.shiftl_mul_pow2 x 16) by lia.
  set (y := Z.shiftl x 16); apply Z.bits_inj'; intros i Hi; rewrite Z.lor_spec.
  assert (forall j, 16 <= j -> Z.testbit low j = false) as Hl.
  { intros j Hj; rewrite <- (Z.mod_small low (2 ^ 16)) by lia.
    apply Z.mod_pow2_bits_high; lia. }
  destruct (decide (i < 32)).
  { rewrite !testbit_to_s_low, Z.lor_spec by lia; done. }
  rewrite (testbit_in_s_high 32 (int32 y)), (testbit_in_s_high 32 (int32 (Z.lor _ _))),
    Hl, orb_false_r by (lia || (apply to_s_range; lia)).
  rewrite !(in_s_sign 32), !testbit_to_s_low, Z.lor_spec, Hl, orb_false_r by
    (lia || (apply to_s_range; lia)); done.
Qed.

Lemma load_immediate_run rd value s :
  in_s 32 value -> alu_run (load_immediate_code rd value) s = set_register rd value s.
Proof.
  intros Hv; unfold load_immediate_code, alu_run, alu_step.
  rewrite Low16Bits_mod, High16Bits_div by done.
  destruct (IsInt kImmBits value); cbn [fold_left alu]; [done |].
  pose proof (halves value Hv) as Hh; set (l := value mod 2 ^ 16) in *.
  set (h := (value / 2 ^ 16) mod 2 ^ 16) in *.
  assert (0 <= l < 2 ^ 16) by (apply Z.mod_pos_bound; lia).
  destruct (Z.eqb_spec l 0) as [E | E]; cbn [negb fold_left alu].
  - rewrite <- (set_register_int32 rd (h * 2 ^ 16)), <- Hh, E, Z.add_0_r.
    rewrite E, Z.add_0_r in Hh; congruence.
  - destruct (decide (rd = 0)) as [-> | Hrd]; [done |].
    rewrite set_set_register, get_set_register_eq, lor_int32_low, Hh by done; done.
Qed.

(** [LoadImmediate(rd, value)] assembles to at most two instructions, and
    running them leaves every 32-bit [value] in [rd] and changes nothing else
    but the pc and the instruction count. *)
Theorem LoadImmediate_correct rd value :
  reg5 rd -> in_s 32 value -> runs_as (LoadImmediate rd value) (set_register rd value).
Proof.
  intros Hrd Hv; destruct (load_immediate_code_ok rd value Hrd).
  eapply assembles_runs; eauto using LoadImmediate_assembles.
  intros; apply load_immediate_run; done.
Qed.

(** ** Effects on the registers *)
(** [s'] differs from [s] in the registers [rl] only. *)
Definition only_changes (rl : list Z) (s s' : Simulator) : Prop :=
  with_registers (registers_ s) s' = s /\
  forall r, r ∉ rl -> get_register r s' = get_register r s.

(** [m] assembles to code that runs to its end, in a state related to the
    initial one by [post]. *)
Definition runs_to (m : asm) (post : Simulator -> Simulator -> Prop) : Prop :=
  forall a a', m a = Ok a' ->
  exists ws, buffer_ a' = buffer_ a ++ ws /\ same_mode a a' /\
    forall host s, wf s -> code_range (pc_ s) (length ws) -> code_at (pc_ s) ws s ->
      exists s', steps host (length ws) s = Ok (advance (Z.of_nat (length ws)) s') /\
        post s s'.

Lemma assembles_runs_to m il post :
  assembles m il -> Forall operands_ok il -> Forall (fun i => is_Some (alu i)) il ->
  (forall s, wf s -> post s (alu_run il s)) -> runs_to m post.
Proof.
  intros Hm Hok Ha Hp a a' H.
  destruct (assembles_runs m il (alu_run il) Hm Hok Ha ltac:(done) a a' H)
    as (ws & Hb & Hmode & Hrun).
  exists ws; split_and!; [done | done |]; intros; eauto.
Qed.

Lemma only_changes_refl rl s : only_changes rl s s.
Proof. split; [destruct s |]; done. Qed.

Lemma only_changes_set r v rl s s' :
  r ∈ rl -> only_changes rl s s' -> only_changes rl s (set_register r v s').
Proof.
  intros Hr [Hs Hk]; split.
  - rewrite <- Hs; unfold set_register; destruct (r =? R0); done.
  - intros q Hq; rewrite get_set_register_ne by set_solver; auto.
Qed.

#[export] Hint Resolve only_changes_refl : mips.
#[export] Hint Extern 2 (only_changes _ _ (set_register _ _ _)) =>
  apply only_changes_set; [repeat (first [apply list_elem_of_here | apply list_elem_of_further]) |] : mips.

(** Bitwise operations on registers stay in the type. *)
Lemma in_s_lxor x y : in_s 32 x -> in_s 32 y -> in_s 32 (Z.lxor x y).
Proof. apply (bitwise_in_s _ xorb); [intros; apply Z.lxor_spec | lia]. Qed.
Lemma in_s_land x y : in_s 32 x -> in_s 32 y -> in_s 32 (Z.land x y).
Proof. apply (bitwise_in_s _ andb); [intros; apply Z.land_spec | lia]. Qed.
Lemma in_s_lor x y : in_s 32 x -> in_s 32 y -> in_s 32 (Z.lor x y).
Proof. apply (bitwise_in_s _ orb); [intros; apply Z.lor_spec | lia]. Qed.
Lemma in_s_int32 x : in_s 32 (int32 x).
Proof. apply to_s_range; lia. Qed.

Lemma int32_id x : in_s 32 x -> int32 x = x.
Proof. intros; apply to_s_id; [lia | done]. Qed.

#[export] Hint Resolve in_s_lxor in_s_land in_s_lor in_s_int32 wf_registers : mips.

(** Drops the conversions of values that are in the type already. *)
Ltac drop_int32 :=
  repeat match goal with
         | |- context [int32 ?x] => rewrite (int32_id x) by eauto with mips
         end.

(** Follows the emission of a straight-line macro, instruction by instruction. *)
Ltac follow H :=
  repeat match type of H with
         | (if ?c then _ else Err _) = Ok _ => destruct c; [| discriminate H]
         end;
  cbn [emit_all emit app]; unfold mov in H;
  repeat match goal with
         | |- obind ?m _ = Ok _ =>
             first [ destruct m; cbn [obind] in *; [| discriminate H]
                   | rewrite H; done ]
         end; try exact H.

(** Reads of the registers an instruction sequence wrote. *)
Ltac reads :=
  repeat match goal with
         | |- context [get_register ?r (set_register ?q ?v ?s)] =>
             first [ rewrite (get_set_register_eq q v s) by (assumption || lia)
                   | rewrite (get_set_register_ne r q v s) by
                       (assumption || (apply not_eq_sym; assumption) || lia) ]
         | |- context [get_register 0 ?s] => rewrite (get_register_0 s)
         end; rewrite ?Z.lor_0_r, ?Z.lor_0_l.

(** ** Overflow detection *)
Definition addu_overflow_code (rd rs rt ro scratch : Z) : list insn :=
  let same := (rs =? rt) && (rd =? rs) in
  let rt' := if same then scratch else rt in
  (if same then [Or scratch rt ZR] else []) ++
  if rd =? rs then
    [Or TMP rs ZR; Addu rd rs rt'; Xor TMP rd TMP; Xor ro rd rt'; And ro ro TMP]
  else if rd =? rt' then
    [Or TMP rt' ZR; Addu rd rs rt'; Xor TMP rd TMP; Xor ro rd rs; And ro ro TMP]
  else [Addu rd rs rt'; Xor ro rd rs; Xor TMP rd rt'; And ro TMP ro].

Lemma AdduDetectOverflow_assembles rd rs rt ro scratch :
  assembles (AdduDetectOverflow rd rs rt ro scratch) (addu_overflow_code rd rs rt ro scratch).
Proof.
  intros a a' H; unfold AdduDetectOverflow, addu_overflow_code in *; cbv zeta in *.
  repeat match type of H with
         | (if ?c then _ else Err _) = Ok _ => destruct c; [| discriminate H]
         end.
  destruct ((rs =? rt) && (rd =? rs)).
  - repeat match type of H with
           | obind (if ?c then _ else Err _) _ = Ok _ => destruct c; [| discriminate H]
           end.
    destruct (mov scratch rt a) as [a1 |] eqn:E; [cbn [obind] in H | discriminate H].
    rewrite emit_all_app; cbn [emit_all emit]; unfold mov in E; rewrite E; cbn [obind].
    destruct (rd =? rs); [| destruct (rd =? scratch)]; follow H.
  - cbn [obind app] in *; destruct (rd =? rs); [| destruct (rd =? rt)]; follow H.
Qed.

Lemma addu_overflow_code_ok rd rs rt ro scratch :
  reg5 rd -> reg5 rs -> reg5 rt -> reg5 ro -> (rd = rs -> rs = rt -> reg5 scratch) ->
  Forall operands_ok (addu_overflow_code rd rs rt ro scratch) /\
  Forall (fun i => is_Some (alu i)) (addu_overflow_code rd rs rt ro scratch).
Proof.
  intros ? ? ? ? Hs; assert (reg5 ZR) by (unfold reg5, ZR, R0; lia).
  assert (reg5 TMP) by (unfold reg5, TMP, AT, R1; lia).
  unfold addu_overflow_code; destruct (Z.eqb_spec rs rt), (Z.eqb_spec rd rs); cbn [andb];
    repeat case_match; split; code_ok.
Qed.

(** The sum overflows exactly when its sign differs from the signs of both
    operands; the difference when the operands' signs differ and its own differs
    from the left one's. *)
Lemma add_overflow_sign x y :
  in_s 32 x -> in_s 32 y ->
  (Z.land (Z.lxor (int32 (x + y)) x) (Z.lxor (int32 (x + y)) y) < 0 <->
   ~ in_s 32 (x + y)).
Proof.
  intros Hx Hy; rewrite Z.land_neg, !Z.lt_nge, !Z.lxor_nonneg.
  pose proof (to_s_range 32 (x + y) ltac:(lia)).
  destruct (to_s_cong 32 (x + y)) as [k E]; [lia |]; rewrite E in *.
  unfold in_s in *; change (2 ^ (32 - 1)) with 2147483648 in *;
    change (2 ^ 32) with 4294967296 in *; lia.
Qed.

Lemma sub_overflow_sign x y :
  in_s 32 x -> in_s 32 y ->
  (Z.land (Z.lxor x y) (Z.lxor (int32 (x - y)) x) < 0 <-> ~ in_s 32 (x - y)).
Proof.
  intros Hx Hy; rewrite Z.land_neg, !Z.lt_nge, !Z.lxor_nonneg.
  pose proof (to_s_range 32 (x - y) ltac:(lia)).
  destruct (to_s_cong 32 (x - y)) as [k E]; [lia |]; rewrite E in *.
  unfold in_s in *; change (2 ^ (32 - 1)) with 2147483648 in *;
    change (2 ^ 32) with 4294967296 in *; lia.
Qed.

(** What an overflow detecting operation leaves: the wrapped result in [rd], and
    a negative [ro] exactly when the result does not fit. *)
Definition detects (rd ro result : Z) (clobbered : list Z) (s s' : Simulator) : Prop :=
  get_register rd s' = int32 result /\
  (get_register ro s' < 0 <-> ~ in_s 32 result) /\
  only_changes (rd :: ro :: clobbered) s s'.

Lemma addu_overflow_run rd rs rt ro scratch s :
  wf s -> rd <> 0 -> ro <> 0 -> rd <> TMP -> ro <> TMP -> rs <> TMP -> rt <> TMP ->
  rd <> ro -> ro <> rs -> ro <> rt ->
  (rd = rs -> rs = rt -> scratch <> 0 /\ scratch <> TMP /\ scratch <> rd /\ scratch <> ro) ->
  detects rd ro (get_register rs s + get_register rt s)
    (TMP :: if (rs =? rt) && (rd =? rs) then [scratch] else [])
    s (alu_run (addu_overflow_code rd rs rt ro scratch) s).
Proof.
  intros Hwf; pose proof (wf_registers s Hwf rs) as Hx; pose proof (wf_registers s Hwf rt) as Hy.
  pose proof (add_overflow_sign _ _ Hx Hy) as Hov.
  intros; unfold detects, addu_overflow_code, alu_run, alu_step, TMP, AT, R1, ZR, R0 in *.
  destruct (Z.eqb_spec rs rt), (Z.eqb_spec rd rs); cbv zeta; cbn [andb];
    destruct (Z.eqb_spec rd rt); try lia; subst; cbn [app fold_left alu];
    (split_and!; [reads; drop_int32; done | | auto 10 with mips]).
  all: reads; drop_int32; rewrite <- ?Hov; first [done | rewrite Z.land_comm; done].
Qed.

(** The conditions a macro asserts hold where it succeeds. *)
Ltac asserts H :=
  repeat match type of H with
         | (if ?c then _ else Err AssertionFailed) = Ok _ =>
             let E := fresh "Has" in destruct c eqn:E; [| discriminate H]
         | obind (if ?c then _ else Err AssertionFailed) _ = Ok _ =>
             let E := fresh "Has" in destruct c eqn:E; [| discriminate H]
         end;
  rewrite ?negb_true_iff, ?Z.eqb_neq in *.

Lemma AdduDetectOverflow_asserts rd rs rt ro scratch a a' :
  AdduDetectOverflow rd rs rt ro scratch a = Ok a' ->
  rd <> ro /\ rd <> TMP /\ ro <> TMP /\ ro <> rs /\ ro <> rt /\
  (rd = rs -> rs = rt -> scratch <> TMP /\ scratch <> rd /\ scratch <> ro).
Proof.
  unfold AdduDetectOverflow; intros H; asserts H; split_and!; try done.
  intros -> ->; rewrite Z.eqb_refl in H; cbn [andb] in H; asserts H; done.
Qed.

(** Where [AdduDetectOverflow(rd, rs, rt, ro, scratch)] assembles, for
    operands other than the temporary register, the code leaves the wrapped
    32-bit sum in [rd] and a negative value in [ro] exactly when the sum of the
    operands overflows; only [rd], [ro], the temporary and, where the three
    operands coincide, [scratch] change. *)
Theorem AdduDetectOverflow_correct rd rs rt ro scratch :
  reg5 rd -> reg5 rs -> reg5 rt -> reg5 ro -> rd <> ZR -> ro <> ZR -> rs <> TMP -> rt <> TMP ->
  (rd = rs -> rs = rt -> reg5 scratch /\ scratch <> ZR) ->
  runs_to (AdduDetectOverflow rd rs rt ro scratch) (fun s s' =>
    detects rd ro (get_register rs s + get_register rt s)
      (TMP :: if (rs =? rt) && (rd =? rs) then [scratch] else []) s s').
Proof.
  intros Hd Hs Ht Ho ? ? ? ? Hsc a a' H.
  destruct (AdduDetectOverflow_asserts _ _ _ _ _ _ _ H) as (? & ? & ? & ? & ? & Hsc').
  destruct (addu_overflow_code_ok rd rs rt ro scratch) as [Hok Halu]; try done; [by tauto |].
  revert a a' H; eapply assembles_runs_to; eauto using AdduDetectOverflow_assembles.
  intros s Hwf; apply addu_overflow_run; try done; unfold ZR, R0 in *; tauto.
Qed.

Definition subu_overflow_code (rd rs rt ro : Z) : list insn :=
  if rs =? rt then [Or rd ZR ZR; Or ro ZR ZR]
  else if rd =? rs then
    [Or TMP rs ZR; Subu rd rs rt; Xor ro rd TMP; Xor TMP TMP rs; And ro TMP ro]
  else if rd =? rt then
    [Or TMP rt ZR; Subu rd rs rt; Xor ro rd rs; Xor TMP rs TMP; And ro TMP ro]
  else [Subu rd rs rt; Xor ro rd rs; Xor TMP rs rt; And ro TMP ro].

Lemma SubuDetectOverflow_assembles rd rs rt ro :
  assembles (SubuDetectOverflow rd rs rt ro) (subu_overflow_code rd rs rt ro).
Proof.
  intros a a' H; unfold SubuDetectOverflow, subu_overflow_code in *; asserts H.
  repeat case_match; follow H.
Qed.

Lemma SubuDetectOverflow_asserts rd rs rt ro a a' :
  SubuDetectOverflow rd rs rt ro a = Ok a' ->
  rd <> ro /\ rd <> TMP /\ ro <> TMP /\ ro <> rs /\ ro <> rt /\ rs <> TMP /\ rt <> TMP.
Proof. unfold SubuDetectOverflow; intros H; asserts H; done. Qed.

Lemma subu_overflow_code_ok rd rs rt ro :
  reg5 rd -> reg5 rs -> reg5 rt -> reg5 ro ->
  Forall operands_ok (subu_overflow_code rd rs rt ro) /\
  Forall (fun i => is_Some (alu i)) (subu_overflow_code rd rs rt ro).
Proof.
  intros; assert (reg5 ZR) by (unfold reg5, ZR, R0; lia).
  assert (reg5 TMP) by (unfold reg5, TMP, AT, R1; lia).
  unfold subu_overflow_code; repeat case_match; split; code_ok.
Qed.

Lemma subu_overflow_run rd rs rt ro s :
  wf s -> rd <> 0 -> ro <> 0 -> rd <> TMP -> ro <> TMP -> rs <> TMP -> rt <> TMP ->
  rd <> ro -> ro <> rs -> ro <> rt -> (rd <> rs \/ rs = rt) ->
  detects rd ro (get_register rs s - get_register rt s) [TMP]
    s (alu_run (subu_overflow_code rd rs rt ro) s).
Proof.
  intros Hwf; pose proof (wf_registers s Hwf rs) as Hx; pose proof (wf_registers s Hwf rt) as Hy.
  pose proof (sub_overflow_sign _ _ Hx Hy) as Hov.
  intros; unfold detects, subu_overflow_code, alu_run, alu_step, TMP, AT, R1, ZR, R0 in *.
  destruct (Z.eqb_spec rs rt); [subst; cbn [fold_left alu] |
    destruct (Z.eqb_spec rd rs); [lia |]; destruct (Z.eqb_spec rd rt); subst; cbn [fold_left alu]];
    (split_and!; [reads; drop_int32; rewrite ?Z.sub_diag; done | | auto 10 with mips]).
  all: reads; drop_int32; rewrite <- ?Hov; try done.
  rewrite Z.lxor_nilpotent, Z.land_0_l; done.
Qed.

(** Where the destination is not the left operand (or the operands
    coincide), [SubuDetectOverflow(rd, rs, rt, ro)] leaves the wrapped 32-bit
    difference in [rd] and a negative value in [ro] exactly when the difference
    overflows, and changes [rd], [ro] and the temporary register only. *)
Theorem SubuDetectOverflow_correct rd rs rt ro :
  reg5 rd -> reg5 rs -> reg5 rt -> reg5 ro -> rd <> ZR -> ro <> ZR -> (rd <> rs \/ rs = rt) ->
  runs_to (SubuDetectOverflow rd rs rt ro) (fun s s' =>
    detects rd ro (get_register rs s - get_register rt s) [TMP] s s').
Proof.
  intros Hd Hs Ht Ho ? ? ? a a' H.
  destruct (SubuDetectOverflow_asserts _ _ _ _ _ _ H) as (? & ? & ? & ? & ? & ? & ?).
  destruct (subu_overflow_code_ok rd rs rt ro) as [Hok Halu]; try done.
  revert a a' H; eapply assembles_runs_to; eauto using SubuDetectOverflow_assembles.
  intros s Hwf; apply subu_overflow_run; done.
Qed.

(** Where the destination is the left operand, the sign of [ro] after
    [SubuDetectOverflow(rd, rd, rt, ro)] says whether the signs of the wrapped
    difference and of the left operand differ, whatever the right operand is:
    subtracting 2 from 1 is reported as an overflow. *)
Theorem SubuDetectOverflow_rd_is_rs rd rt ro :
  reg5 rd -> reg5 rt -> reg5 ro -> rd <> ZR -> ro <> ZR -> rd <> rt ->
  runs_to (SubuDetectOverflow rd rd rt ro) (fun s s' =>
    let x := get_register rd s in
    let d := int32 (x - get_register rt s) in
    get_register rd s' = d /\ (get_register ro s' < 0 <-> (d < 0 <-> 0 <= x))).
Proof.
  intros Hd Ht Ho Hd0 Ho0 Hne a a' H.
  destruct (SubuDetectOverflow_asserts _ _ _ _ _ _ H) as (? & ? & ? & ? & ? & ? & ?).
  destruct (subu_overflow_code_ok rd rd rt ro) as [Hok Halu]; try done.
  revert a a' H; eapply assembles_runs_to; eauto using SubuDetectOverflow_assembles.
  intros s Hwf; pose proof (wf_registers s Hwf rd); cbv zeta.
  unfold subu_overflow_code, alu_run, alu_step, TMP, AT, R1, ZR, R0 in *.
  rewrite (proj2 (Z.eqb_neq _ _) Hne), Z.eqb_refl; cbn [fold_left alu].
  split; reads; drop_int32; [done |].
  rewrite Z.land_neg, !Z.lt_nge, !Z.lxor_nonneg; lia.
Qed.

(** ** Operations with an immediate *)
Lemma alu_run_app il il' s : alu_run (il ++ il') s = alu_run il' (alu_run il s).
Proof. apply fold_left_app. Qed.

Lemma assembles_then m il i (k : asm) :
  assembles m il -> (forall a, k a = emit i a) ->
  assembles (fun a => let* a := m a in k a) (il ++ [i]).
Proof.
  intros Hm Hk a a' H; destruct (m a) as [a1 |] eqn:E; [| discriminate H]; cbn in H.
  rewrite emit_all_app, (Hm _ _ E); cbn; rewrite <- Hk, H; done.
Qed.

Lemma assembles_one (m : asm) i : (forall a, m a = emit i a) -> assembles m [i].
Proof. intros Hm a a' H; cbn; rewrite <- Hm, H; done. Qed.

Lemma assembles_none : assembles Ok [].
Proof. intros a a' H; done. Qed.

Lemma assembles_guard (c : Assembler -> bool) e m il :
  assembles m il -> assembles (fun a => if c a then m a else Err e) il.
Proof. intros Hm a a' H; destruct (c a); [auto | discriminate H]. Qed.

(** The result of an operation goes to [rd]; the temporary may change. *)
Definition computes (rd v : Z) (s s' : Simulator) : Prop :=
  get_register rd s' = int32 v /\ only_changes [rd; TMP] s s'.

(** A register operation with a 32-bit immediate, through the temporary. *)
Definition via_TMP (i : insn) (imm : Z) : list insn := load_immediate_code TMP imm ++ [i].

Lemma via_TMP_run i (f : Z -> Z -> Z) rd rs imm s :
  alu i = Some (rd, fun R => f (R rs) (R TMP)) -> in_s 32 imm -> rd <> ZR -> rs <> TMP ->
  computes rd (f (get_register rs s) imm) s (alu_run (via_TMP i imm) s).
Proof.
  intros Ha Hv ? ?; unfold via_TMP; rewrite alu_run_app, load_immediate_run by done.
  unfold alu_run; cbn [fold_left]; unfold alu_step; rewrite Ha.
  unfold computes, ZR, TMP, AT, R1, R0 in *; split; [| auto with mips].
  reads; rewrite (int32_id imm); done.
Qed.

Lemma via_TMP_runs_to (m : asm) i f rd rs imm :
  assembles m (via_TMP i imm) -> operands_ok i ->
  alu i = Some (rd, fun R => f (R rs) (R TMP)) -> in_s 32 imm -> rd <> ZR -> rs <> TMP ->
  runs_to m (fun s s' => computes rd (f (get_register rs s) imm) s s').
Proof.
  intros Hm Hok Ha ? ? ?; assert (reg5 TMP) by (unfold reg5, TMP, AT, R1; lia).
  destruct (load_immediate_code_ok TMP imm); [done |].
  eapply assembles_runs_to; [done | | |].
  - apply Forall_app; code_ok.
  - apply Forall_app; code_ok; rewrite Ha; done.
  - intros s _; eapply via_TMP_run; done.
Qed.

Lemma one_runs_to (m : asm) i rd f :
  (forall a, m a = emit i a) -> operands_ok i -> alu i = Some (rd, f) -> rd <> ZR ->
  runs_to m (fun s s' => computes rd (f (fun r => get_register r s)) s s').
Proof.
  intros Hm Hok Ha Hrd; eapply (assembles_runs_to m [i]);
    [apply assembles_one; done | code_ok | code_ok; rewrite Ha; done |].
  intros s _; unfold alu_run, alu_step; cbn [fold_left]; rewrite Ha.
  split; [apply get_set_register_eq; done | auto with mips].
Qed.

Lemma runs_to_ext (m : asm) (P Q : Simulator -> Simulator -> Prop) :
  (forall s s', wf s -> P s s' -> Q s s') -> runs_to m P -> runs_to m Q.
Proof.
  intros HPQ Hm a a' H; destruct (Hm a a' H) as (ws & Hb & Hmode & Hrun).
  exists ws; split_and!; [done | done |]; intros host s Hwf Hr Hc.
  destruct (Hrun host s Hwf Hr Hc) as (s' & Hs & HP); eauto.
Qed.

Lemma runs_to_guard (c : Assembler -> bool) e m post :
  runs_to m post -> runs_to (fun a => if c a then m a else Err e) post.
Proof. intros Hm a a' H; destruct (c a); [auto | discriminate H]. Qed.

(** [AddImmediate(rd, rs, value)] leaves the wrapped sum of [rs] and any
    32-bit [value] in [rd], and changes [rd] and the temporary only. *)
Theorem AddImmediate_correct rd rs value :
  reg5 rd -> reg5 rs -> rd <> ZR -> rs <> TMP -> in_s 32 value ->
  runs_to (AddImmediate rd rs value) (fun s s' =>
    computes rd (get_register rs s + value) s s').
Proof.
  intros; unfold AddImmediate; apply runs_to_guard.
  destruct ((value =? 0) && (rd =? rs)) eqn:E.
  - apply andb_prop in E as [->%Z.eqb_eq ->%Z.eqb_eq].
    apply (assembles_runs_to _ []); [apply assembles_none | code_ok | code_ok |].
    intros s Hwf; split; [| auto with mips].
    cbn; rewrite Z.add_0_r, int32_id; auto using wf_registers.
  - destruct (IsInt kImmBits value).
    + apply (one_runs_to _ (Addiu rd rs value) rd (fun R => R rs + value)); done.
    + apply (via_TMP_runs_to _ (Addu rd rs TMP) Z.add); try done.
      apply assembles_then; [apply LoadImmediate_assembles | done].
Qed.

Lemma computes_ext rd v v' s s' : v = v' -> computes rd v s s' -> computes rd v' s s'.
Proof. intros ->; done. Qed.

Lemma mov_runs_to rd rs :
  reg5 rd -> reg5 rs -> rd <> ZR ->
  runs_to (mov rd rs) (fun s s' => computes rd (get_register rs s) s s').
Proof.
  intros; assert (reg5 ZR) by (unfold reg5, ZR, R0; lia).
  eapply runs_to_ext;
    [| apply (one_runs_to _ (Or rd rs ZR) rd (fun R => Z.lor (R rs) (R ZR))); done].
  intros s s' _; apply computes_ext; rewrite get_register_0, Z.lor_0_r; done.
Qed.

(** [AndImmediate], [OrImmediate] and [XorImmediate] leave the bitwise
    operation of [rs] and any 32-bit immediate in [rd], whether the immediate is
    zero, fits in the instruction or has to go through the temporary, and change
    [rd] and the temporary only. *)
Theorem BitwiseImmediate_correct rd rs imm :
  reg5 rd -> reg5 rs -> rd <> ZR -> rs <> TMP -> in_s 32 imm ->
  let post op := fun s s' => computes rd (op (get_register rs s) imm) s s' in
  runs_to (AndImmediate rd rs imm) (post Z.land) /\
  runs_to (OrImmediate rd rs imm) (post Z.lor) /\
  runs_to (XorImmediate rd rs imm) (post Z.lxor).
Proof.
  intros; assert (reg5 ZR) by (unfold reg5, ZR, R0; lia).
  unfold AndImmediate, OrImmediate, XorImmediate, post.
  destruct (Z.eqb_spec imm 0) as [-> | Hi]; [| destruct (IsUint kImmBits imm)];
    split_and!; apply runs_to_guard.
  1-3: eapply runs_to_ext; [| apply mov_runs_to; done];
    intros s s' _; apply computes_ext; cbn; rewrite ?get_register_0;
    rewrite ?Z.land_0_r, ?Z.lor_0_r, ?Z.lxor_0_r; done.
  1: apply (one_runs_to _ (Andi rd rs imm) rd (fun R => Z.land (R rs) imm)); done.
  1: apply (one_runs_to _ (Ori rd rs imm) rd (fun R => Z.lor (R rs) imm)); done.
  1: apply (one_runs_to _ (Xori rd rs imm) rd (fun R => Z.lxor (R rs) imm)); done.
  1: apply (via_TMP_runs_to _ (And rd rs TMP) Z.land); try done;
    apply assembles_then; [apply LoadImmediate_assembles | done].
  1: apply (via_TMP_runs_to _ (Or rd rs TMP) Z.lor); try done;
    apply assembles_then; [apply LoadImmediate_assembles | done].
  apply (via_TMP_runs_to _ (Xor rd rs TMP) Z.lxor); try done;
    apply assembles_then; [apply LoadImmediate_assembles | done].
Qed.
