(* ===== verification/MipsBranchProofs.v ===== *)
(** Branches: the branch offset's encoding, the delay slot, and the branches to
    a bound label as the simulator executes them. *)
From stdpp Require Import base numbers list gmap.
From Stdlib Require Import ZArith Lia Bool.
From S2P Require Import Prelude Utils MipsConstants HostFloat MipsState MipsSimulator.
From S2P Require Import MipsAssembler MipsLabels MipsMacros MipsEncoding MipsIsa MipsExec.
From S2P Require Import MipsMacroProofs.
Import Instr.
#[local] Open Scope Z_scope.

(** * The delay slot *)
(** A nop in the delay slot costs an instruction and does nothing else. *)
Lemma delay_slot_nop host s :
  delay_slot_ s = false -> pc_ s + 4 < 2 ^ 32 - 1 -> 0 <= pc_ s ->
  fetch (pc_ s + 4) s = Ok kNopInstruction ->
  ExecuteDelaySlot host kNesting s = Ok (with_pc (pc_ s + 4) (tick s)).
Proof.
  intros Hd Hhi Hlo Hf; unfold ExecuteDelaySlot, kNesting.
  unfold kEndSimulatingPC; change (uint32 (-1)) with 4294967295.
  rewrite (proj2 (Z.eqb_neq _ _)) by lia; cbn [negb with_delay_slot with_icount pc_ icount_].
  change kInstrSize with 4; rewrite (to_u_id 32) by (split; lia).
  rewrite (fetch_memory _ _ s) by done; rewrite Hf; cbn [obind].
  rewrite InstructionDecode_step; unfold decode_step.
  assert (forall d q, dispatch host d kNopInstruction q = Ok q) as -> by (intros; reflexivity).
  cbn [obind]; unfold with_pc, with_delay_slot, tick, with_icount; cbn.
  change kInstrSize with 4; rewrite Hd, (to_u_id 32) by (split; lia); done.
Qed.

(** The code of a branch: the branch and the nop of its delay slot. *)
Definition after_branch (target n : Z) (s : Simulator) : Simulator :=
  with_pc target (with_icount (uint64 (icount_ s + n)) s).

Lemma step_branch host s w taken :
  delay_slot_ s = false -> code_range (pc_ s) 2 -> code_at (pc_ s) [w; kNopInstruction] s ->
  (forall d, dispatch host d w (tick s) = DoBranch d w taken false (tick s)) ->
  step host s =
  Ok (after_branch (if taken then uint32 (pc_ s + 4 + 4 * SImmField w) else pc_ s + 8) 2 s).
Proof.
  intros Hd [Hlo Hhi] (Hw & Hn & _) Hdis.
  rewrite (step_fetch host s w) by done; unfold decode_step; rewrite Hdis.
  unfold DoBranch; cbn [delay_slot_ tick with_icount]; rewrite Hd, andb_false_r; cbn [negb obind].
  rewrite delay_slot_nop by (cbn; done || lia); cbn [obind].
  unfold after_branch, with_pc, tick, with_icount; cbn; f_equal; f_equal.
  - rewrite Z.shiftl_mul_pow2 by lia; change kInstrSize with 4.
    rewrite to_u_add_l, Z.sub_add; destruct taken.
    + rewrite to_u_to_u; destruct (to_s_cong 32 (SImmField w * 2 ^ 2)) as [k ->]; [lia |].
      unfold to_u.
      replace (pc_ s + (SImmField w * 2 ^ 2 + k * 2 ^ 32) + 4)
        with (pc_ s + 4 + 4 * SImmField w + k * 2 ^ 32) by lia.
      apply Z_mod_plus_full.
    + rewrite (to_u_id 32 (pc_ s + 2 * 4)), (to_u_id 32) by (split; lia); lia.
  - rewrite to_u_add_l; f_equal; lia.
Qed.

(** * Branch offsets *)
Lemma land_branch_mask x : Z.land x kBranchOffsetMask = x mod 2 ^ 16.
Proof. change kBranchOffsetMask with (Z.ones 16); apply Z.land_ones; lia. Qed.

Lemma CanEncodeBranchOffset_ok offset c :
  CanEncodeBranchOffset offset = Ok c -> offset mod 4 = 0 /\ c = IsInt 18 offset.
Proof.
  unfold CanEncodeBranchOffset, IsAligned; change (IsPowerOfTwo 4) with true; cbn [obind].
  change (4 - 1) with (Z.ones 2); rewrite Z.land_ones by lia.
  destruct (Z.eqb_spec (offset mod 2 ^ 2) 0) as [E |]; [| discriminate].
  intros H; injection H as <-; done.
Qed.

Lemma EncodeBranchOffset_ok offset instr a e :
  EncodeBranchOffset offset instr a = Ok e ->
  in_s 18 offset /\ offset mod 4 = 0 /\
  e = instr / 2 ^ 16 * 2 ^ 16 + (offset / 4) mod 2 ^ 16.
Proof.
  unfold EncodeBranchOffset; destruct (CanEncodeBranchOffset offset) as [c |] eqn:E;
    [cbn [obind] | discriminate].
  apply CanEncodeBranchOffset_ok in E as [Ha ->].
  destruct (IsInt 18 offset) eqn:EI; cbn [negb]; [| case_match; discriminate].
  intros H; injection H as <-; apply IsInt_range in EI; [| lia].
  split_and!; [done | done |]; rewrite land_branch_mask, Z.shiftr_div_pow2 by lia.
  change kBranchOffsetMask with (Z.ones 16).
  rewrite <- Z.ldiff_land, Z.ldiff_ones_r, Z.shiftr_div_pow2 by lia.
  apply lor_shiftl_add; [lia | apply Z.mod_pos_bound; lia].
Qed.

Lemma DecodeBranchOffset_int16 instr :
  DecodeBranchOffset instr = 4 * to_s 16 (instr mod 2 ^ 16).
Proof.
  unfold DecodeBranchOffset; rewrite land_branch_mask.
  rewrite Z.shiftl_mul_pow2, Z.shiftr_div_pow2 by lia.
  generalize (instr mod 2 ^ 16) as u; intros u.
  assert (int32 (u * 2 ^ 16) = to_s 16 u * 4 * 2 ^ 14) as ->.
  { unfold to_s; change (32 - 1) with (15 + 16); change (16 - 1) with 15; change (2 ^ 32) with (2 ^ 16 * 2 ^ 16).
    rewrite Z.pow_add_r, <- Z.mul_add_distr_r, Zmult_mod_distr_r by lia; lia. }
  rewrite Z.div_mul by lia; lia.
Qed.

Lemma offset_quarter offset :
  in_s 18 offset -> offset mod 4 = 0 -> 4 * to_s 16 ((offset / 4) mod 2 ^ 16) = offset.
Proof.
  intros Hr Ha; change (_ mod 2 ^ 16) with (to_u 16 (offset / 4)).
  rewrite to_s_to_u, to_s_id by
    (lia || (unfold in_s in *; change (2 ^ (18 - 1)) with 131072 in *;
             change (2 ^ (16 - 1)) with 32768; Z.div_mod_to_equations; lia)).
  Z.div_mod_to_equations; lia.
Qed.

(** A branch offset the assembler accepts is read back from the patched
    instruction, whatever the instruction was, and the patch leaves the upper
    half of the instruction alone. *)
Theorem EncodeDecodeBranchOffset offset instr a e :
  EncodeBranchOffset offset instr a = Ok e ->
  DecodeBranchOffset e = offset /\ e / 2 ^ 16 = instr / 2 ^ 16.
Proof.
  intros H; apply EncodeBranchOffset_ok in H as (Hr & Ha & ->).
  pose proof (Z.mod_pos_bound (offset / 4) (2 ^ 16) ltac:(lia)).
  rewrite DecodeBranchOffset_int16, (Z.add_comm (_ * _)), Z_mod_plus_full, Zmod_mod.
  split; [apply offset_quarter; done |].
  rewrite Z.div_add, Z.div_small by lia; lia.
Qed.

(** * Branches to a bound label *)
(** The branches without link whose delay slot is always executed. *)
Inductive branch : Type :=
| BrEq (rs rt : Z) | BrNe (rs rt : Z)
| BrLez (rs : Z) | BrGtz (rs : Z) | BrLtz (rs : Z) | BrGez (rs : Z).

Definition br_emit (i : branch) : asm_label :=
  match i with
  | BrEq rs rt => beq rs rt | BrNe rs rt => bne rs rt
  | BrLez rs => blez rs | BrGtz rs => bgtz rs | BrLtz rs => bltz rs | BrGez rs => bgez rs
  end.

Definition br_word (i : branch) (imm : Z) : Z :=
  match i with
  | BrEq rs rt => IType BEQ rs rt imm | BrNe rs rt => IType BNE rs rt imm
  | BrLez rs => IType BLEZ rs R0 imm | BrGtz rs => IType BGTZ rs R0 imm
  | BrLtz rs => IType REGIMM rs BLTZ imm | BrGez rs => IType REGIMM rs BGEZ imm
  end.

Definition br_ok (i : branch) : Prop :=
  match i with
  | BrEq rs rt | BrNe rs rt => reg5 rs /\ reg5 rt
  | BrLez rs | BrGtz rs | BrLtz rs | BrGez rs => reg5 rs
  end.

(** The registers of a state, and the condition of a branch on them. *)
Definition regs (s : Simulator) (r : Z) : Z := get_register r s.

Definition br_taken (i : branch) (R : Z -> Z) : bool :=
  match i with
  | BrEq rs rt => R rs =? R rt | BrNe rs rt => negb (R rs =? R rt)
  | BrLez rs => R rs <=? 0 | BrGtz rs => R rs >? 0
  | BrLtz rs => R rs <? 0 | BrGez rs => R rs >=? 0
  end.

Lemma br_dispatch host d i imm s :
  br_ok i -> 0 <= imm < 2 ^ 16 ->
  dispatch host d (int32 (br_word i imm)) s
  = DoBranch d (int32 (br_word i imm)) (br_taken i (regs s)) false s /\
  SImmField (int32 (br_word i imm)) = to_s 16 imm.
Proof.
  intros Hok Himm; assert (reg5 R0) by (unfold reg5, R0; lia).
  destruct i; cbn in Hok; destruct_and?; unfold br_word; name_word;
    rewrite SImmField_int16, Eimm; unfold dispatch; use_fields; split; try done;
    unfold exec_BEQ, exec_BNE, exec_BLEZ, exec_BGTZ, DecodeRegImm, exec_BGEZ, exec_BLTZ,
      rs_reg, rt_reg; change RegImmFnField with RtField; use_fields; done.
Qed.

(** [m] emits a conditional branch to the label: from code loaded at [start], a
    run of what was emitted reaches the label's position where the condition
    holds, and falls through otherwise; the registers [rl] may change. *)
Definition branches_to (m : asm_label) (rl : list Z) (cond : (Z -> Z) -> bool) : Prop :=
  forall l a a' l', IsBound l = true -> use_far_branches a = false -> m l a = Ok (a', l') ->
  exists ws p, Position l = Ok p /\ l' = l /\ buffer_ a' = buffer_ a ++ ws /\
    forall host s start, wf s -> delay_slot_ s = false ->
      pc_ s = start + Size a -> code_range (pc_ s) (length ws) -> code_at (pc_ s) ws s ->
      exists n k s', (n <= length ws)%nat /\ only_changes rl s s' /\
        steps host n s = Ok (after_branch
          (if cond (regs s) then uint32 (start + p) else pc_ s + 4 * Z.of_nat (length ws)) k s').

Lemma Position_bound l : IsBound l = true -> Position l = Ok (- position_ l - kWordSize).
Proof.
  unfold Position, IsUnused; intros H; rewrite H; unfold IsBound in H.
  destruct (Z.eqb_spec (position_ l) 0); [lia | done].
Qed.

(** The emission of a near branch to a bound label. *)
Lemma near_emission (E : Z -> Assembler -> Assembler) l a a' l' far :
  IsBound l = true -> use_far_branches a = false ->
  (let* position := Position l in
   let dest := branch_dest position a in
   let* can := CanEncodeBranchOffset dest in
   if use_far_branches a && negb can then far position
   else let* dest_off := EncodeBranchOffset dest 0 a in
        Ok (E (to_u 16 dest_off) a, l)) = Ok (a', l') ->
  exists imm, l' = l /\ a' = E imm a /\ 0 <= imm < 2 ^ 16 /\
    4 * to_s 16 imm = branch_dest (- position_ l - kWordSize) a.
Proof.
  intros Hb Hn; rewrite (Position_bound l Hb), Hn; cbn [obind andb].
  set (dest := branch_dest _ a); destruct (CanEncodeBranchOffset dest); [cbn [obind] | discriminate].
  destruct (EncodeBranchOffset dest 0 a) as [e |] eqn:Ee; [cbn [obind] | discriminate].
  intros H; injection H as <- <-; exists (to_u 16 e); split_and!; try done;
    try (apply to_u_range; lia).
  apply EncodeBranchOffset_ok in Ee as (Hr & Ha & ->); cbn [Z.add Z.mul].
  change (0 / 2 ^ 16 * 2 ^ 16 + ?x) with x.
  unfold to_u; rewrite Zmod_mod; apply offset_quarter; done.
Qed.

Lemma br_emission i l a a' l' :
  IsBound l = true -> use_far_branches a = false -> br_emit i l a = Ok (a', l') ->
  exists imm, l' = l /\ a' = EmitBranchDelayNop (Emit (br_word i imm) a) /\
    0 <= imm < 2 ^ 16 /\ 4 * to_s 16 imm = branch_dest (- position_ l - kWordSize) a.
Proof.
  intros Hb Hn H; unfold br_emit, beq, bne, blez, bgtz, bltz, bgez, not_in_delay_slot,
    with_delay_nop, EmitBranch, EmitRegImmBranch in H.
  destruct i; (destruct (negb (in_delay_slot_ a)); [| discriminate H]); rewrite Hb in H;
    match type of H with
    | obind ?m _ = _ => destruct m as [[a1 l1] |] eqn:E; [cbn [obind] in H | discriminate H]
    end;
    injection H as <- <-;
    match type of E with
    | context [Ok (EmitIType ?o ?x ?y _ _, _)] =>
        apply (near_emission (EmitIType o x y)) in E; [| done | done]
    | context [Ok (EmitRegImmType ?o ?x ?y _ _, _)] =>
        apply (near_emission (EmitRegImmType o x y)) in E; [| done | done]
    end;
    destruct E as (imm & -> & -> & ?); exists imm; done.
Qed.

Lemma branch_target start p a s :
  pc_ s = start + Size a -> uint32 (pc_ s + 4 + branch_dest p a) = uint32 (start + p).
Proof.
  intros ->; unfold branch_dest; change kInstrSize with 4.
  destruct (to_s_cong 32 (p - (Size a + 4))) as [k ->]; [lia |]; unfold to_u.
  replace (start + Size a + 4 + (p - (Size a + 4) + k * 2 ^ 32))
    with (start + p + k * 2 ^ 32) by lia; apply Z_mod_plus_full.
Qed.

Lemma br_branches i : br_ok i -> branches_to (br_emit i) [] (br_taken i).
Proof.
  intros Hok l a a' l' Hb Hn H.
  destruct (br_emission i l a a' l' Hb Hn H) as (imm & -> & -> & Hi & Hd).
  exists [int32 (br_word i imm); kNopInstruction]; eexists; split_and!;
    [apply Position_bound; done | done | cbn; rewrite <- app_assoc; done |].
  intros host s start Hwf Hds Hpc Hr Hc; exists 1%nat, 2, s; split_and!;
    [cbn; lia | auto with mips |].
  destruct (br_dispatch host (ExecuteDelaySlot host kNesting) i imm (tick s) Hok Hi) as [_ Hs].
  cbn [steps]; rewrite (step_branch host s (int32 (br_word i imm)) (br_taken i (regs s))); try done.
  - rewrite Hs, Hd, (branch_target start) by done; done.
  - intros d; apply (br_dispatch host d i imm (tick s)); done.
Qed.

(** Register code in front of a branch. *)
Lemma only_changes_trans rl s s' s'' :
  only_changes rl s s' -> only_changes rl s' s'' -> only_changes rl s s''.
Proof.
  intros [E1 H1] [E2 H2]; split.
  - rewrite <- E1, <- E2; done.
  - intros r Hr; rewrite H2, H1; done.
Qed.

Lemma only_changes_fields rl s s' :
  only_changes rl s s' ->
  pc_ s' = pc_ s /\ delay_slot_ s' = delay_slot_ s /\ memory s' = memory s /\
  icount_ s' = icount_ s.
Proof. intros [<- _]; done. Qed.

Lemma steps_app host n m s :
  steps host (n + m) s = (let* s := steps host n s in steps host m s).
Proof.
  revert s; induction n as [| n IH]; intros s; cbn; [done |].
  destruct (step host s); cbn; auto.
Qed.

Lemma steps_advance_code host n m s s1 s2 :
  steps host n s = Ok s1 -> steps host m s1 = Ok s2 -> steps host (n + m) s = Ok s2.
Proof. intros H1 H2; rewrite steps_app, H1; done. Qed.

Lemma wf_alu_run il s : wf s -> wf (alu_run il s).
Proof.
  revert s; induction il as [| i il IH]; intros s Hs; cbn; auto using wf_alu_step.
Qed.

(** Every register [il] writes is in [rl]. *)
Definition writes_only (rl : list Z) (il : list insn) : bool :=
  forallb (fun i => match alu i with
                    | Some (d, _) => bool_decide (d ∈ rl)
                    | None => false
                    end) il.

Lemma writes_only_changes rl il s :
  writes_only rl il = true -> only_changes rl s (alu_run il s).
Proof.
  revert s; induction il as [| i il IH]; intros s H; cbn in *; [auto with mips |].
  apply andb_prop in H as [Hi Hil]; eapply only_changes_trans; [| apply IH; done].
  unfold alu_step; destruct (alu i) as [[d f] |]; [| discriminate].
  apply only_changes_set; [apply bool_decide_eq_true in Hi; done | auto with mips].
Qed.

(** Where a branch leads depends on the registers and the frame only. *)
Lemma after_branch_frame rl rl' il j n t s s' :
  only_changes rl s (alu_run il s) -> only_changes rl' (advance j (alu_run il s)) s' ->
  after_branch t n s' = after_branch t (j + n) (with_registers (registers_ s') s).
Proof.
  intros [E1 _] [E2 _]; rewrite <- E1; unfold after_branch, with_pc, with_icount, with_registers.
  assert (forall (A : Type) (f : Simulator -> A),
    (forall r q, f (with_registers r q) = f q) -> f s' = f (advance j (alu_run il s))) as Hf
    by (intros A f Hr; rewrite <- E2, Hr; done).
  cbn; f_equal; try (rewrite Hf by done; done).
  rewrite Hf by done; cbn; rewrite to_u_add_l; f_equal; lia.
Qed.

Lemma branches_after (m : asm) il (k : asm_label) rl rl' cond cond' :
  assembles m il -> Forall operands_ok il -> Forall (fun i => is_Some (alu i)) il ->
  writes_only rl il = true -> branches_to k rl' cond -> (forall r, r ∈ rl' -> r ∈ rl) ->
  (forall s, wf s -> cond' (regs s) = cond (regs (alu_run il s))) ->
  branches_to (fun l a => let* a := m a in k l a) rl cond'.
Proof.
  intros Hm Hok Halu Hw Hk Hrl Hcond l a a' l' Hb Hn H.
  destruct (m a) as [a1 |] eqn:E; [cbn [obind] in H | discriminate H].
  destruct (emit_all_run il a a1 Hok Halu (Hm _ _ E)) as (ws1 & Hb1 & Hl1 & Hmode & Hrun).
  destruct Hmode as (F1 & F2 & _).
  assert (use_far_branches a1 = false) as Hn1 by (unfold use_far_branches in *; congruence).
  destruct (Hk l a1 a' l' Hb Hn1 H) as (ws2 & p & Hp & -> & Hb2 & Hgo).
  exists (ws1 ++ ws2), p; split_and!; [done | done | rewrite Hb2, Hb1, app_assoc; done |].
  intros host s start Hwf Hds Hpc [Hlo Hhi] Hc; apply code_at_app in Hc as [Hc1 Hc2].
  rewrite length_app, Nat2Z.inj_add in *.
  assert (Size a1 = Size a + 4 * Z.of_nat (length ws1)) as HS
    by (unfold Size; rewrite Hb1, length_app; lia).
  pose proof (writes_only_changes rl il s Hw) as Hch.
  destruct (only_changes_fields _ _ _ Hch) as (Epc & Eds & Emem & _).
  set (s1 := advance (Z.of_nat (length ws1)) (alu_run il s)).
  assert (pc_ s1 = pc_ s + 4 * Z.of_nat (length ws1)) as Epc1.
  { unfold s1, advance; cbn; rewrite Epc, (to_u_id 32); [done | split; lia]. }
  destruct (Hgo host s1 start) as (n & ic & s' & Hn' & Hch' & Hst).
  - apply wf_advance, wf_alu_run; done.
  - cbn; congruence.
  - lia.
  - rewrite Epc1; split; lia.
  - rewrite Epc1; revert Hc2; apply code_at_memory; cbn; done.
  - exists (length ws1 + n)%nat, (Z.of_nat (length ws1) + ic), (with_registers (registers_ s') s).
    split_and!; [lia | |].
    + split; [destruct s; done |]; intros r Hr.
      change (get_register r s' = get_register r s); destruct Hch' as [_ ->]; [| auto].
      apply Hch; done.
    + eapply steps_advance_code; [rewrite Hl1; apply Hrun; try done; split; lia |].
      rewrite <- Hl1; fold s1; rewrite Hst, (Hcond s Hwf), Epc1.
      rewrite (after_branch_frame rl rl' il (Z.of_nat (length ws1)) _ _ s s') by done.
      change (regs s1) with (regs (alu_run il s)).
      destruct (cond (regs (alu_run il s))); [done |]; do 2 f_equal; lia.
Qed.
