(* ===== verification/MipsConditionProofs.v ===== *)
(** Conditions and the compare-and-branch macros: every one of them branches
    exactly where the comparison it is named after holds. *)
From stdpp Require Import base numbers list gmap.
From Stdlib Require Import ZArith Lia Bool.
From S2P Require Import Prelude Utils UtilsProofs MipsConstants HostFloat MipsState.
From S2P Require Import MipsSimulator MipsAssembler MipsLabels MipsMacros MipsEncoding MipsIsa.
From S2P Require Import MipsExec MipsMacroProofs MipsBranchProofs.
Import Instr.
#[local] Open Scope Z_scope.

(** * Combining branches *)
Lemma branches_ext m m' rl rl' cond cond' :
  branches_to m rl cond -> (forall l a, m' l a = m l a) -> (forall r, r ∈ rl -> r ∈ rl') ->
  (forall s, wf s -> cond' (regs s) = cond (regs s)) -> branches_to m' rl' cond'.
Proof.
  intros Hm Hmm Hrl Hc l a a' l' Hb Hn H; rewrite Hmm in H.
  destruct (Hm l a a' l' Hb Hn H) as (ws & p & Hp & El & Hbuf & Hgo).
  exists ws, p; split_and!; try done; intros host s start Hwf Hds Hpc Hr Hcode.
  destruct (Hgo host s start Hwf Hds Hpc Hr Hcode) as (n & k & s' & Hn' & [E1 E2] & Hst).
  exists n, k, s'; rewrite Hc by done; split_and!; try done; split; auto.
Qed.

Lemma branches_guard (c : Assembler -> bool) e m rl cond :
  branches_to m rl cond -> branches_to (fun l a => if c a then m l a else Err e) rl cond.
Proof. intros Hm l a a' l' Hb Hn H; destruct (c a); [eauto | discriminate H]. Qed.

Lemma branches_guard_const (c : bool) e m rl cond :
  (c = true -> branches_to m rl cond) ->
  branches_to (fun l a => if c then m l a else Err e) rl cond.
Proof. intros Hm l a a' l' Hb Hn H; destruct c; [eapply Hm; eauto | discriminate H]. Qed.

(** No code: the branch is never taken. *)
Lemma branches_never rl : branches_to (fun l a => Ok (a, l)) rl (fun _ => false).
Proof.
  intros l a a' l' Hb Hn H; injection H as <- <-.
  exists [], (- position_ l - kWordSize); split_and!;
    [apply Position_bound; done | done | rewrite app_nil_r; done |].
  intros host s start Hwf Hds Hpc Hr Hc; exists 0%nat, 0, s; split_and!;
    [done | auto with mips |].
  cbn [steps]; rewrite <- (advance_0 s) at 1 by done; unfold advance, after_branch; cbn.
  rewrite (to_u_id 32); [done |].
  pose proof (wf_pc s Hwf); unfold in_u in *; lia.
Qed.

Lemma branches_br i rl m cond :
  (forall l a, m l a = br_emit i l a) -> br_ok i ->
  (forall s, wf s -> cond (regs s) = br_taken i (regs s)) -> branches_to m rl cond.
Proof.
  intros Hm Hok Hc; eapply branches_ext; [apply (br_branches i Hok) | done | | done].
  intros r Hr; apply not_elem_of_nil in Hr; done.
Qed.

(** A comparison into a register, then the branch on it. *)
Lemma branches_compare (m : asm) i d f b rl cond :
  (forall a, m a = emit i a) -> operands_ok i -> alu i = Some (d, f) -> d ∈ rl -> br_ok b ->
  (forall s, wf s -> cond (regs s) = br_taken b (regs (set_register d (f (regs s)) s))) ->
  branches_to (then_branch m (br_emit b)) rl cond.
Proof.
  intros Hm Hok Ha Hd Hb Hc.
  eapply (branches_after m [i] (br_emit b) rl [] (br_taken b) cond).
  - apply assembles_one; done.
  - code_ok.
  - code_ok; rewrite Ha; done.
  - cbn; rewrite Ha, bool_decide_true; done.
  - apply br_branches; done.
  - intros r Hr; apply not_elem_of_nil in Hr; done.
  - intros s Hwf; rewrite Hc by done; unfold alu_run, alu_step; cbn [fold_left]; rewrite Ha; done.
Qed.

(** * The fields of a condition *)
Lemma relop_of_to op : relop_of_Z (relop_to_Z op) = Some op.
Proof. destruct op; reflexivity. Qed.

Lemma IsValidRegister_range r :
  Condition.IsValidRegister r = true -> 0 <= r <= IMM /\ r <> AT.
Proof.
  unfold Condition.IsValidRegister, ZR, R0; rewrite !andb_true_iff, !Z.leb_le, negb_true_iff, Z.eqb_neq.
  tauto.
Qed.

(** Reads a field through the updates of the fields of a condition. *)
Ltac read_field :=
  repeat match goal with
         | H : BitField.update ?b ?p ?n ?v ?o = Ok ?u |- context [BitField.decode ?p ?n ?u] =>
             rewrite (decode_update b p n v o u) by (done || (unfold in_u; lia) || exact H)
         | H : BitField.update ?b ?p ?n ?v ?o = Ok ?u |- context [BitField.decode ?q ?m ?u] =>
             rewrite (decode_update_other b p n v o u q m) by
               (done || (unfold in_u; lia) || exact H ||
                (unfold Condition.kImmPos, Condition.kRelOpPos, Condition.kRightPos,
                   Condition.kLeftPos, Condition.kImmSize, Condition.kRelOpSize,
                   Condition.kRightSize, Condition.kLeftSize; lia))
         end.

Lemma Condition_fields bits left right op imm c :
  Condition.new bits left right op imm = Ok c ->
  Condition.left c = left /\ Condition.right c = right /\ Condition.rel_op c = Some op /\
  Condition.imm c = imm.
Proof.
  unfold Condition.new, Condition.set_left, Condition.set_right, Condition.set_imm,
    Condition.set_rel_op; intros H.
  repeat match type of H with
         | (if ?b then _ else _) = _ => destruct b eqn:?; [| discriminate H]
         | obind (if ?b then _ else _) _ = _ => destruct b eqn:?; [| discriminate H]
         | obind ?m _ = _ => destruct m eqn:?; [cbn [obind] in H | discriminate H]
         end.
  repeat match goal with
         | H : Condition.IsValidRegister _ = true |- _ =>
             apply IsValidRegister_range in H; unfold IMM in H
         end.
  assert (0 <= relop_to_Z op < 16) by (destruct op; cbn; lia).
  assert (0 <= to_u 16 imm < 2 ^ 16) by (apply to_u_range; lia).
  unfold Condition.left, Condition.right, Condition.rel_op, Condition.imm.
  split_and!; read_field; [done | done | apply relop_of_to |].
  unfold Condition.IsValidImm in *; rewrite to_s_to_u, to_s_id by (lia || (unfold in_s; lia)); done.
Qed.

Lemma Condition_asserts bits left right op imm c :
  Condition.new bits left right op imm = Ok c ->
  (0 <= left <= IMM /\ left <> AT) /\ (0 <= right <= IMM /\ right <> AT) /\
  ~ ((left = ZR \/ left = IMM) /\ (right = ZR \/ right = IMM)) /\
  - 2 ^ 15 <= imm < 2 ^ 15 - 1.
Proof.
  unfold Condition.new, Condition.set_left, Condition.set_right, Condition.set_imm; intros H.
  repeat match type of H with
         | (if ?b then _ else _) = _ => destruct b eqn:?; [| discriminate H]
         | obind (if ?b then _ else _) _ = _ => destruct b eqn:?; [| discriminate H]
         | obind ?m _ = _ => destruct m eqn:?; [cbn [obind] in H | discriminate H]
         end.
  unfold Condition.IsValidImm in *.
  split_and!; try (apply IsValidRegister_range; done); lia.
Qed.

(** * What a condition means *)
(** The value of a side of a condition: [IMM] stands for the immediate. *)
Definition side (imm : Z) (R : Z -> Z) (r : Z) : Z := if r =? IMM then imm else R r.

Definition rel_holds (op : RelationOperator) (x y : Z) : bool :=
  match op with
  | AL => true | NV => false
  | EQ => x =? y | NE => negb (x =? y)
  | GT => x >? y | GE => x >=? y | LT => x <? y | LE => x <=? y
  | UGT => uint32 x >? uint32 y | UGE => uint32 x >=? uint32 y
  | ULT => uint32 x <? uint32 y | ULE => uint32 x <=? uint32 y
  end.

Lemma regs_0 s : regs s 0 = 0.
Proof. done. Qed.

Lemma regs_set d v s r :
  d <> 0 -> regs (set_register d v s) r = if r =? d then int32 v else regs s r.
Proof.
  intros; unfold regs; destruct (Z.eqb_spec r d) as [-> |].
  - apply get_set_register_eq; done.
  - apply get_set_register_ne; done.
Qed.

Lemma int32_b2z b : int32 (b2z b) = b2z b.
Proof. destruct b; reflexivity. Qed.

Lemma uint32_zero x : in_s 32 x -> (x =? 0) = (uint32 x =? 0).
Proof.
  intros Hx; destruct (Z.eqb_spec x 0) as [-> | Hn]; [done |].
  symmetry; apply Z.eqb_neq; intros E; apply Hn, (in_s_inj 32); done.
Qed.

Lemma uint32_pos x : 0 <= uint32 x.
Proof. pose proof (to_u_range 32 x ltac:(lia)); unfold in_u in *; lia. Qed.

(** Decides a comparison of a branch against the comparison it is meant to be. *)
Ltac cmp :=
  unfold br_taken; rewrite ?regs_set, ?regs_0 by done;
  unfold side, rel_holds, AT, R1, ZR, R0, IMM in *; cbn [Z.eqb Pos.eqb];
  repeat match goal with
         | |- context [?x =? ?y] =>
             first [ rewrite (proj2 (Z.eqb_neq x y)) by lia
                   | rewrite (proj2 (Z.eqb_eq x y)) by lia ]
         end; rewrite ?int32_b2z, ?regs_0, ?to_u_to_s by lia; change (uint32 0) with 0; unfold b2z;
  repeat case_match; try lia; try done.

(** What is known of the registers read as unsigned integers. *)
Lemma unsigned_reg s r :
  wf s -> 0 <= uint32 (regs s r) /\ (regs s r = 0 <-> uint32 (regs s r) = 0).
Proof.
  intros Hwf; split; [apply uint32_pos |].
  pose proof (uint32_zero _ (wf_registers s Hwf r)) as E; fold (regs s r) in E; lia.
Qed.

Ltac unsigned_facts s Hwf :=
  repeat match goal with
         | |- context [regs s ?r] =>
             lazymatch goal with
             | _ : 0 <= uint32 (regs s r) /\ _ |- _ => fail
             | _ => pose proof (unsigned_reg s r Hwf)
             end
         end.

(** Recognises the branch, or the comparison and the branch, that was emitted. *)
Ltac emitted_branch :=
  lazymatch goal with
  | |- branches_to ?m ?rl ?c => change (branches_to (fun l a => m l a) rl c); cbv beta
  end;
  lazymatch goal with
  | |- branches_to (fun l a => beq ?x ?y l a) _ _ => apply (branches_br (BrEq x y))
  | |- branches_to (fun l a => bne ?x ?y l a) _ _ => apply (branches_br (BrNe x y))
  | |- branches_to (fun l a => bltz ?x l a) _ _ => apply (branches_br (BrLtz x))
  | |- branches_to (fun l a => bgez ?x l a) _ _ => apply (branches_br (BrGez x))
  | |- branches_to (fun l a => blez ?x l a) _ _ => apply (branches_br (BrLez x))
  | |- branches_to (fun l a => bgtz ?x l a) _ _ => apply (branches_br (BrGtz x))
  | |- branches_to (fun l a => then_branch (slti ?d ?r ?i) (bne ?x ?y) l a) _ _ =>
      apply (branches_compare _ (Slti d r i) d (fun R => b2z (R r <? i)) (BrNe x y))
  | |- branches_to (fun l a => then_branch (slti ?d ?r ?i) (beq ?x ?y) l a) _ _ =>
      apply (branches_compare _ (Slti d r i) d (fun R => b2z (R r <? i)) (BrEq x y))
  | |- branches_to (fun l a => then_branch (slt ?d ?r ?q) (bne ?x ?y) l a) _ _ =>
      apply (branches_compare _ (Slt d r q) d (fun R => b2z (R r <? R q)) (BrNe x y))
  | |- branches_to (fun l a => then_branch (slt ?d ?r ?q) (beq ?x ?y) l a) _ _ =>
      apply (branches_compare _ (Slt d r q) d (fun R => b2z (R r <? R q)) (BrEq x y))
  | |- branches_to (fun l a => then_branch (sltu ?d ?r ?q) (bne ?x ?y) l a) _ _ =>
      apply (branches_compare _ (Sltu d r q) d
               (fun R => b2z (uint32 (R r) <? uint32 (R q))) (BrNe x y))
  | |- branches_to (fun l a => then_branch (sltu ?d ?r ?q) (beq ?x ?y) l a) _ _ =>
      apply (branches_compare _ (Sltu d r q) d
               (fun R => b2z (uint32 (R r) <? uint32 (R q))) (BrEq x y))
  | |- branches_to (fun l a => then_branch (sltiu ?d ?r ?i) (bne ?x ?y) l a) _ _ =>
      apply (branches_compare _ (Sltiu d r i) d
               (fun R => b2z (uint32 (R r) <? uint32 i)) (BrNe x y))
  | |- branches_to (fun l a => then_branch (sltiu ?d ?r ?i) (beq ?x ?y) l a) _ _ =>
      apply (branches_compare _ (Sltiu d r i) d
               (fun R => b2z (uint32 (R r) <? uint32 i)) (BrEq x y))
  end.

Section OnCondition.
Context (bits left right imm : Z) (op : RelationOperator) (c : Z)
  (Hnew : Condition.new bits left right op imm = Ok c).

Ltac open_condition :=
  destruct (Condition_fields _ _ _ _ _ _ Hnew) as (El & Er & Eo & Ei);
  destruct (Condition_asserts _ _ _ _ _ _ Hnew) as ((? & ?) & (? & ?) & ? & ?);
  intros Hop; unfold BranchOnCondition; cbv zeta; rewrite El, Er, Eo, Ei; clear El Er Eo Ei;
  apply branches_guard; destruct op; try destruct Hop; cbv beta iota.

(** Splits on the sides being the zero register or the immediate. *)
Ltac sides :=
  destruct (Z.eqb_spec left ZR), (Z.eqb_spec right ZR), (Z.eqb_spec left IMM),
    (Z.eqb_spec right IMM); try (unfold ZR, R0, IMM in *; lia); cbn [negb andb]; subst.

Ltac side_conditions :=
  try done; try apply list_elem_of_here;
  try (unfold br_ok, operands_ok, reg5, ZR, AT, R0, R1, IMM in *; lia).

Lemma BranchOnCondition_signed :
  match op with GT | GE | LT | LE => True | _ => False end ->
  branches_to (BranchOnCondition c) [AT]
    (fun R => rel_holds op (side imm R left) (side imm R right)).
Proof.
  open_condition; sides; emitted_branch; side_conditions; intros s Hwf; cmp.
Qed.

Lemma BranchOnCondition_unsigned :
  match op with UGT | UGE | ULT | ULE => True | _ => False end ->
  branches_to (BranchOnCondition c) [AT]
    (fun R => rel_holds op (side imm R left) (side imm R right)).
Proof.
  open_condition; apply branches_guard_const;
    rewrite andb_true_iff, !negb_true_iff, !Z.eqb_neq; intros [? ?]; sides.
  all: first [ emitted_branch
             | eapply branches_ext; [apply (branches_never []) | done | set_solver |] ];
    side_conditions; intros s Hwf.
  all: unfold rel_holds, side; unsigned_facts s Hwf; cmp.
Qed.

Lemma branches_loaded b (m : asm_label) cond :
  (forall l a, m l a = then_branch (addiu AT ZR imm) (br_emit b) l a) -> br_ok b ->
  (forall s, wf s -> cond (regs s) = br_taken b (regs (set_register AT imm s))) ->
  branches_to m [AT] cond.
Proof.
  intros Hm Hb Hc; eapply branches_ext; [| apply Hm | done | intros s _; reflexivity].
  apply (branches_compare _ (Addiu AT ZR imm) AT (fun R => R ZR + imm)); side_conditions.
Qed.

Lemma BranchOnCondition_equal :
  match op with EQ | NE => True | _ => False end ->
  branches_to (BranchOnCondition c) [AT]
    (fun R => rel_holds op (side imm R left) (side imm R right)).
Proof.
  open_condition; destruct (decide _); try congruence; sides.
  all: let br x y := lazymatch goal with
                     | |- context [rel_holds EQ _ _] => constr:(BrEq x y)
                     | _ => constr:(BrNe x y)
                     end in
    lazymatch goal with
    | |- branches_to (fun l a => obind (obind _ (fun a0 => Ok (a0, ?x, ?y))) _) _ _ =>
        let i := br x y in apply (branches_loaded i);
        [intros l a; unfold then_branch; destruct (addiu AT ZR imm a); reflexivity | |]
    | |- branches_to (fun l a => obind (Ok (a, ?x, ?y)) _) _ _ =>
        let i := br x y in apply (branches_br i)
    end.
  all: side_conditions; intros s Hwf.
  all: assert (int32 imm = imm) by (apply to_s_id; unfold in_s; lia); cmp.
Qed.
End OnCondition.

(** C35. For every condition that can be constructed (whatever the uninitialised
    bits hold), [BranchOnCondition] branches to a bound label in range exactly
    where the relation holds between the two sides, signed or unsigned as the
    operator says; only the assembler temporary changes. *)
Theorem BranchOnCondition_correct bits left right op imm c :
  Condition.new bits left right op imm = Ok c ->
  branches_to (BranchOnCondition c) [AT]
    (fun R => rel_holds op (side imm R left) (side imm R right)).
Proof.
  intros H; destruct op eqn:Eop;
    try (rewrite <- Eop in H |- *; first
      [ eapply BranchOnCondition_signed; [exact H | rewrite Eop; done]
      | eapply BranchOnCondition_unsigned; [exact H | rewrite Eop; done]
      | eapply BranchOnCondition_equal; [exact H | rewrite Eop; done] ]).
  all: destruct (Condition_fields _ _ _ _ _ _ H) as (_ & _ & Eo & _);
    unfold BranchOnCondition; cbv zeta; rewrite Eo; apply branches_guard; cbv beta iota.
  - apply (branches_br (BrEq R0 R0)); [done | unfold br_ok, reg5, R0; lia | intros s _; cmp].
  - eapply branches_ext; [apply (branches_never []) | done | | done].
    intros r Hr; apply not_elem_of_nil in Hr; done.
Qed.

(** * Compare and branch *)
Definition BranchReg (op : RelationOperator) (rd rs : Z) : asm_label :=
  match op with
  | EQ => BranchEqual rd rs | NE => BranchNotEqual rd rs
  | GT => BranchSignedGreater rd rs | GE => BranchSignedGreaterEqual rd rs
  | LT => BranchSignedLess rd rs | LE => BranchSignedLessEqual rd rs
  | UGT => BranchUnsignedGreater rd rs | UGE => BranchUnsignedGreaterEqual rd rs
  | ULT => BranchUnsignedLess rd rs | ULE => BranchUnsignedLessEqual rd rs
  | AL => b
  | NV => fun l a => Ok (a, l)
  end.

Definition BranchImm (op : RelationOperator) (rd imm : Z) : asm_label :=
  match op with
  | EQ => BranchEqualImm rd imm | NE => BranchNotEqualImm rd imm
  | GT => BranchSignedGreaterImm rd imm | GE => BranchSignedGreaterEqualImm rd imm
  | LT => BranchSignedLessImm rd imm | LE => BranchSignedLessEqualImm rd imm
  | UGT => BranchUnsignedGreaterImm rd imm | UGE => BranchUnsignedGreaterEqualImm rd imm
  | ULT => BranchUnsignedLessImm rd imm | ULE => BranchUnsignedLessEqualImm rd imm
  | AL => b
  | NV => fun l a => Ok (a, l)
  end.

Lemma reg5_special : reg5 ZR /\ reg5 AT /\ reg5 CMPRES2 /\ reg5 R0.
Proof. unfold reg5, ZR, AT, CMPRES2, T9, R0, R1, R25; lia. Qed.

Ltac guards :=
  repeat lazymatch goal with
         | |- branches_to (fun l a => if negb (in_delay_slot_ a) then _ else _) _ _ =>
             apply branches_guard
         end.

Ltac cmp2 s Hwf :=
  unfold rel_holds; unsigned_facts s Hwf; unfold CMPRES2, T9, R25 in *; cmp.

Lemma BranchReg_branches op rd rs :
  reg5 rd -> reg5 rs ->
  branches_to (BranchReg op rd rs) [CMPRES2] (fun R => rel_holds op (R rd) (R rs)).
Proof.
  intros Hd Hs; destruct reg5_special as (? & ? & ? & ?).
  destruct op; unfold BranchReg, BranchEqual, BranchNotEqual, BranchSignedGreater,
    BranchSignedGreaterEqual, BranchSignedLess, BranchSignedLessEqual, BranchUnsignedGreater,
    BranchUnsignedGreaterEqual, BranchUnsignedLess, BranchUnsignedLessEqual,
    BranchSignedGreater, BranchSignedGreaterEqual, BranchUnsignedGreater,
    BranchUnsignedGreaterEqual.
  1: apply (branches_br (BrEq R0 R0)); [done | done | intros s _; cmp].
  1: eapply branches_ext; [apply (branches_never []) | done | set_solver | done].
  all: guards; emitted_branch; try done; try apply list_elem_of_here;
    intros s Hwf; cmp2 s Hwf.
Qed.

(** An immediate that does not fit goes through [CMPRES2]. *)
Lemma with_CMPRES2_branches rd imm (br : asm_label) op cond :
  in_s 32 imm -> branches_to br [CMPRES2] cond ->
  (forall s, wf s -> rd <> CMPRES2 ->
     rel_holds op (regs s rd) imm = cond (regs (set_register CMPRES2 imm s))) ->
  branches_to (with_CMPRES2 rd imm br) [CMPRES2] (fun R => rel_holds op (R rd) imm).
Proof.
  intros Hi Hbr Hc; unfold with_CMPRES2.
  apply (branches_guard_const (negb (rd =? CMPRES2))); intros Hrd.
  rewrite negb_true_iff, Z.eqb_neq in Hrd; destruct reg5_special as (_ & _ & H2 & _).
  destruct (load_immediate_code_ok CMPRES2 imm H2) as [Hok Halu].
  eapply (branches_after (LoadImmediate CMPRES2 imm) (load_immediate_code CMPRES2 imm) br);
    eauto using LoadImmediate_assembles.
  - unfold load_immediate_code; repeat case_match; reflexivity.
  - intros s Hwf; rewrite load_immediate_run by done; auto.
Qed.

(** The successor of an immediate. *)
Lemma imm_succ imm :
  in_s 32 imm -> imm <> 2 ^ 31 - 1 -> int32 (imm + 1) = imm + 1.
Proof. intros; apply to_s_id; unfold in_s in *; [lia | lia]. Qed.

Lemma uint32_succ imm : in_s 32 imm -> imm <> -1 -> uint32 (imm + 1) = uint32 imm + 1.
Proof.
  unfold in_s, to_u; intros Hi Hn; rewrite <- (Zplus_mod_idemp_l imm).
  apply Z.mod_small; pose proof (Z.mod_pos_bound imm (2 ^ 32) ltac:(lia)).
  assert (imm mod 2 ^ 32 <> 2 ^ 32 - 1); [| lia].
  change (2 ^ (32 - 1)) with 2147483648 in Hi; change (2 ^ 32) with 4294967296 in *.
  intros E; Z.div_mod_to_equations; lia.
Qed.

Ltac via_CMPRES2 :=
  let go op x y := (eapply (with_CMPRES2_branches _ _ _ _ _ ltac:(eassumption)
                              (BranchReg_branches op x y ltac:(done) ltac:(done)))) in
  lazymatch goal with
  | |- branches_to (fun l a => with_CMPRES2 _ _ ?br l a) _ _ =>
      lazymatch br with
      | beq ?x ?y => go EQ x y
      | bne ?x ?y => go NE x y
      | BranchSignedGreater ?x ?y => go GT x y
      | BranchSignedGreaterEqual ?x ?y => go GE x y
      | BranchUnsignedGreater ?x ?y => go UGT x y
      | BranchUnsignedGreaterEqual ?x ?y => go UGE x y
      end
  end.

Lemma IsInt_succ_max imm : IsInt kImmBits (int32 (imm + 1)) = true -> imm <> 2 ^ 31 - 1.
Proof. intros H ->; vm_compute in H; discriminate. Qed.

Lemma BranchImm_signed op rd imm :
  match op with EQ | NE | GT | GE | LT | LE => True | _ => False end ->
  reg5 rd -> in_s 32 imm ->
  branches_to (BranchImm op rd imm) [CMPRES2] (fun R => rel_holds op (R rd) imm).
Proof.
  intros Hop Hd Hi; destruct reg5_special as (? & ? & ? & ?).
  destruct op; try destruct Hop; unfold BranchImm, BranchEqualImm, BranchNotEqualImm,
    BranchSignedGreaterImm, BranchSignedGreaterEqualImm, BranchSignedLessImm,
    BranchSignedLessEqualImm; guards; destruct (Z.eqb_spec imm 0) as [-> | Hne].
  all: repeat match goal with
              | |- context [IsInt kImmBits ?x] => destruct (IsInt kImmBits x) eqn:?
              end.
  all: first [via_CMPRES2 | emitted_branch]; try done; try apply list_elem_of_here; intros s Hwf.
  all: rewrite ?imm_succ by eauto using IsInt_succ_max.
  all: intros; pose proof (int32_id imm Hi); cmp2 s Hwf.
Qed.

Lemma BranchImm_unsigned op rd imm :
  match op with UGT | UGE | ULT | ULE => True | _ => False end ->
  reg5 rd -> in_s 32 imm ->
  branches_to (BranchImm op rd imm) [CMPRES2] (fun R => rel_holds op (R rd) imm).
Proof.
  intros Hop Hd Hi; destruct reg5_special as (? & ? & ? & ?).
  destruct op; try destruct Hop; unfold BranchImm, BranchUnsignedGreaterImm,
    BranchUnsignedGreaterEqualImm, BranchUnsignedLessImm, BranchUnsignedLessEqualImm,
    BranchNotEqualImm; guards; destruct (Z.eqb_spec imm 0) as [-> | Hne]; guards;
    cbn [Z.eqb].
  all: try destruct (Z.eqb_spec imm (-1)); cbn [negb andb].
  all: repeat match goal with
              | |- context [IsInt kImmBits ?x] => destruct (IsInt kImmBits x) eqn:?
              end.
  all: first [ via_CMPRES2 | emitted_branch
             | eapply branches_ext; [apply (branches_never []) | done | set_solver |]
             | apply (branches_br (BrEq R0 R0)) ];
    try done; try apply list_elem_of_here; intros s Hwf.
  all: rewrite ?imm_succ, ?uint32_succ by eauto using IsInt_succ_max.
  all: intros; pose proof (int32_id _ Hi); cmp2 s Hwf.
Qed.

(** The compare-and-branch macros against an immediate branch to a bound
    label in range exactly where the comparison of [rd] with the 32-bit immediate
    holds: equal and not equal, the four signed and the four unsigned orders,
    whether the immediate is zero, fits in the instruction (as itself or as its
    successor) or goes through [CMPRES2], which is all that changes. *)
Theorem BranchImm_correct op rd imm :
  reg5 rd -> in_s 32 imm ->
  branches_to (BranchImm op rd imm) [CMPRES2] (fun R => rel_holds op (R rd) imm).
Proof.
  intros Hd Hi; destruct op; try (apply BranchImm_signed; done);
    try (apply BranchImm_unsigned; done).
  - apply (branches_br (BrEq R0 R0)); [done | cbn; unfold reg5, R0; lia | intros s _; cmp].
  - eapply branches_ext; [apply (branches_never []) | done | set_solver | done].
Qed.

(** * The write barrier's filter *)
Definition is_heap_pointer (v : Z) : bool := Z.testbit v 0.
Definition in_new_space (v : Z) : bool := Z.testbit v 2.

(** The store has to be recorded: a new object is stored into an old one. *)
Definition needs_update (object value : Z) : bool :=
  is_heap_pointer value && in_new_space value && negb (in_new_space object).

Lemma land_4 x : Z.land x 4 = if Z.testbit x 2 then 4 else 0.
Proof.
  apply Z.bits_inj'; intros i Hi; rewrite Z.land_spec; change 4 with (2 ^ 2).
  rewrite Z.pow2_bits_eqb by lia; destruct (Z.eqb_spec 2 i) as [<- | Hn].
  - destruct (Z.testbit x 2); done.
  - rewrite andb_false_r; destruct (Z.testbit x 2); rewrite ?Z.bits_0; [| done].
    rewrite Z.pow2_bits_false by lia; done.
Qed.

Definition filter_no_smi_code (object value : Z) : list insn :=
  [Nor TMP ZR object; And TMP value TMP; Andi CMPRES1 TMP kNewObjectAlignmentOffset].

Definition filter_code (object value : Z) : list insn :=
  [Sll TMP value (kObjectAlignmentLog2 - 1); And TMP value TMP; Nor CMPRES1 ZR object;
   And TMP TMP CMPRES1; Andi CMPRES1 TMP kNewObjectAlignmentOffset].

Lemma branches_code (m : asm_label) il i rl cond :
  (forall l a, m l a = (ASSERT negb (in_delay_slot_ a) ;;
                        let* a := emit_all il a in br_emit i l a)) ->
  Forall operands_ok il -> Forall (fun i => is_Some (alu i)) il -> writes_only rl il = true ->
  br_ok i -> (forall s, wf s -> cond (regs s) = br_taken i (regs (alu_run il s))) ->
  branches_to m rl cond.
Proof.
  intros Hm Hok Halu Hw Hi Hc.
  eapply (branches_ext _ m rl rl cond cond); [| exact Hm | done | done].
  apply branches_guard.
  apply (branches_after (emit_all il) il (br_emit i) rl [] (br_taken i));
    [intros a a' H; exact H | done | done | done | apply br_branches; done | | done].
  intros r Hr; apply not_elem_of_nil in Hr; done.
Qed.

Lemma testbit_get_set r d v s i :
  d <> 0 -> 0 <= i < 32 ->
  Z.testbit (get_register r (set_register d v s)) i =
  if r =? d then Z.testbit v i else Z.testbit (get_register r s) i.
Proof.
  intros Hd Hi; destruct (Z.eqb_spec r d) as [-> |].
  - rewrite get_set_register_eq, testbit_to_s_low by (done || lia); done.
  - rewrite get_set_register_ne by done; done.
Qed.

Lemma taken_on_bit_2 s x :
  br_taken (BrEq CMPRES1 ZR)
    (regs (set_register CMPRES1 (Z.land x kNewObjectAlignmentOffset) s))
  = negb (Z.testbit x 2).
Proof.
  unfold br_taken; rewrite !regs_set by done; cbn [Z.eqb Pos.eqb].
  change kNewObjectAlignmentOffset with 4; change (CMPRES1 =? CMPRES1) with true.
  change (ZR =? CMPRES1) with false; cbv iota; rewrite regs_0.
  rewrite land_4; destruct (Z.testbit x 2); done.
Qed.

(** The bit of a register after the code of the filter. *)
Ltac filter_bits Ho Hv :=
  rewrite taken_on_bit_2;
  repeat (rewrite ?testbit_get_set, ?Z.land_spec, ?Z.lnot_spec, ?Z.lor_spec by (done || lia);
          rewrite ?(proj2 (Z.eqb_neq _ _) Ho), ?(proj2 (Z.eqb_neq _ _) Hv), ?Z.eqb_refl);
  rewrite ?get_register_0, ?Z.bits_0.

Lemma filter_no_smi_run object value s :
  object <> TMP -> value <> TMP ->
  br_taken (BrEq CMPRES1 ZR) (regs (alu_run (filter_no_smi_code object value) s)) =
  negb (in_new_space (regs s value) && negb (in_new_space (regs s object))).
Proof.
  intros Ho Hv; unfold filter_no_smi_code, alu_run, alu_step; cbn [fold_left alu].
  filter_bits Ho Hv; unfold in_new_space, regs; done.
Qed.

Lemma filter_run object value s :
  object <> TMP -> value <> TMP ->
  br_taken (BrEq CMPRES1 ZR) (regs (alu_run (filter_code object value) s)) =
  negb (needs_update (regs s object) (regs s value)).
Proof.
  intros Ho Hv; unfold filter_code, alu_run, alu_step; cbn [fold_left alu].
  filter_bits Ho Hv; unfold needs_update, is_heap_pointer, in_new_space, regs.
  change (kObjectAlignmentLog2 - 1) with 2; rewrite <- Z.shiftl_mul_pow2 by lia.
  rewrite Z.shiftl_spec by lia; change (2 - 2) with 0.
  destruct (Z.testbit (get_register value s) 0), (Z.testbit (get_register value s) 2),
    (Z.testbit (get_register object s) 2); done.
Qed.

Ltac follow_code :=
  cbn [emit_all emit br_emit]; case_match; [| done];
  repeat match goal with
         | |- obind ?m _ = _ => destruct m; cbn [obind]; [| done]
         end; done.

(** The filter of the write barrier skips the update of the store buffer
    (it branches to [no_update]) exactly where the store is not one of a new heap
    object into an old object; a smi is never recorded.  Without the smi check it
    decides the same for values that are heap objects. *)
Theorem StoreIntoObjectFilter_correct object value :
  reg5 object -> reg5 value -> object <> TMP -> value <> TMP ->
  branches_to (StoreIntoObjectFilter object value) [TMP; CMPRES1]
    (fun R => negb (needs_update (R object) (R value))) /\
  branches_to (StoreIntoObjectFilterNoSmi object value) [TMP; CMPRES1]
    (fun R => negb (in_new_space (R value) && negb (in_new_space (R object)))).
Proof.
  intros; destruct reg5_special as (? & ? & ? & ?).
  assert (reg5 CMPRES1) by (unfold reg5, CMPRES1, T8, R24; lia); split.
  - apply (branches_code _ (filter_code object value) (BrEq CMPRES1 ZR)).
    + intros l a; unfold StoreIntoObjectFilter, filter_code; follow_code.
    + code_ok.
    + code_ok.
    + done.
    + done.
    + intros s _; rewrite filter_run; done.
  - apply (branches_code _ (filter_no_smi_code object value) (BrEq CMPRES1 ZR)).
    + intros l a; unfold StoreIntoObjectFilterNoSmi, filter_no_smi_code; follow_code.
    + code_ok.
    + code_ok.
    + done.
    + done.
    + intros s _; rewrite filter_no_smi_run; done.
Qed.
