(* ===== verification/MipsBindProofs.v ===== *)
(** Binding a label: the chain of branches that wait for a label runs through
    their offsets, and [Bind] resolves every one of them. *)
From stdpp Require Import base numbers list gmap.
From Stdlib Require Import ZArith Lia Bool.
From S2P Require Import Prelude Utils MipsConstants HostFloat MipsState MipsSimulator.
From S2P Require Import MipsAssembler MipsLabels MipsMacros MipsEncoding MipsIsa MipsExec.
From S2P Require Import MipsMacroProofs MipsBranchProofs.
Import Instr.
#[local] Open Scope Z_scope.

(** * The chain of a linked label *)
Definition word_at (buf : list Z) (q : Z) : Z := nth (word_index q) buf 0.

(** [chain buf p ps]: from the label position [p], the offsets of the branches
    lead through the positions [ps], the last emitted first. *)
Inductive chain (buf : list Z) : Z -> list Z -> Prop :=
| chain_end : chain buf 0 []
| chain_link q ps p' :
    0 <= q -> q mod 4 = 0 -> q + 4 <= 4 * Z.of_nat (length buf) ->
    DecodeBranchOffset (word_at buf q) = p' -> p' <= q -> chain buf p' ps ->
    chain buf (q + 4) (q :: ps).

Lemma chain_bound buf p ps : chain buf p ps -> Forall (fun q => 0 <= q /\ q + 4 <= p) ps.
Proof.
  induction 1 as [| q ps p' Hq Ha Hl Hd Hp Hc IH]; constructor; [lia |].
  eapply Forall_impl; [exact IH |]; cbn; intros; lia.
Qed.

Lemma chain_nonneg buf p ps : chain buf p ps -> 0 <= p.
Proof. destruct 1; lia. Qed.

Lemma chain_ext buf buf' p ps :
  length buf' = length buf -> (forall q, q ∈ ps -> word_at buf' q = word_at buf q) ->
  chain buf p ps -> chain buf' p ps.
Proof.
  intros Hl Hw H; induction H as [| q ps p' Hq Ha Hb Hd Hp Hc IH]; [constructor |].
  apply (chain_link buf' q ps p'); try done.
  - rewrite Hl; done.
  - rewrite Hw; [done | apply list_elem_of_here].
  - apply IH; intros r Hr; apply Hw, list_elem_of_further; done.
Qed.

(** The chain goes down by a word at least: it is not longer than the code. *)
Lemma chain_length buf p ps : chain buf p ps -> 4 * Z.of_nat (length ps) <= p.
Proof. induction 1; cbn [length]; lia. Qed.

Lemma chain_top buf p ps : chain buf p ps -> p <= 4 * Z.of_nat (length buf).
Proof. destruct 1; lia. Qed.

(** A patch of the word at [q] leaves the other positions. *)
Lemma word_index_inj q r : 0 <= q -> 0 <= r -> q mod 4 = 0 -> r mod 4 = 0 ->
  word_index q = word_index r -> q = r.
Proof. unfold word_index; intros; Z.div_mod_to_equations; lia. Qed.

Lemma nth_insert (buf : list Z) i j v :
  (i < length buf)%nat -> nth j (<[i := v]> buf) 0 = if decide (j = i) then v else nth j buf 0.
Proof.
  intros Hi; rewrite !nth_lookup; destruct (decide (j = i)) as [-> | Hj].
  - rewrite list_lookup_insert_eq by done; done.
  - rewrite list_lookup_insert_ne by done; done.
Qed.

(** * Resolving a near branch *)
(** The word [w] with the branch offset [dest]. *)
Definition patched (w dest : Z) : Z := int32 (w / 2 ^ 16 * 2 ^ 16 + (dest / 4) mod 2 ^ 16).

Lemma buffer_access q a :
  0 <= q -> q mod 4 = 0 -> q + 4 <= Size a ->
  buffer_Load q a = Ok (word_at (buffer_ a) q) /\
  forall v, buffer_Store q v a =
    Ok (with_buffer (<[word_index q := int32 v]> (buffer_ a)) a).
Proof.
  intros; unfold buffer_Load, buffer_Store.
  assert ((q >=? 0) && (q <=? Size a - 4) && (q mod 4 =? 0) = true) as -> by lia; done.
Qed.

Lemma EncodeBranchOffset_near dest w a :
  in_s 18 dest -> dest mod 4 = 0 ->
  CanEncodeBranchOffset dest = Ok true /\
  EncodeBranchOffset dest w a = Ok (w / 2 ^ 16 * 2 ^ 16 + (dest / 4) mod 2 ^ 16).
Proof.
  intros Hr Ha.
  assert (CanEncodeBranchOffset dest = Ok true) as Hc.
  { unfold CanEncodeBranchOffset, IsAligned; change (IsPowerOfTwo 4) with true; cbn [obind].
    change (4 - 1) with (Z.ones 2); rewrite Z.land_ones by lia; change (2 ^ 2) with 4.
    rewrite Ha; cbn; f_equal; unfold IsInt, in_s in *; change (Z.shiftl 1 (18 - 1)) with 131072.
    change (2 ^ (18 - 1)) with 131072 in Hr; lia. }
  split; [done |].
  destruct (EncodeBranchOffset dest w a) as [e | er] eqn:E.
  - apply EncodeBranchOffset_ok in E as (_ & _ & ->); done.
  - unfold EncodeBranchOffset in E; rewrite Hc in E; discriminate E.
Qed.

Lemma bind_one_near bound q p' a :
  use_far_branches a = false -> 0 <= q -> q mod 4 = 0 -> q + 4 <= Size a ->
  DecodeBranchOffset (word_at (buffer_ a) q) = p' ->
  bound mod 4 = 0 -> in_s 18 (bound - (q + 4)) ->
  bind_one bound (mkLabel (q + 4)) a =
  Ok (with_buffer (<[word_index q := patched (word_at (buffer_ a) q) (bound - (q + 4))]>
        (buffer_ a)) a, mkLabel p').
Proof.
  intros Hn Hq Ha Hs Hd Hb Hr; unfold bind_one, Position, IsUnused, IsBound; cbn [position_].
  rewrite (proj2 (Z.eqb_neq (q + 4) 0)), (proj2 (Z.ltb_ge (q + 4) 0)) by lia; cbn [negb obind].
  change kWordSize with 4; change kInstrSize with 4; rewrite Z.add_simpl_r.
  rewrite (to_s_id 32) by (lia || (unfold in_s in *; lia)).
  destruct (EncodeBranchOffset_near (bound - (q + 4)) (word_at (buffer_ a) q) a) as [-> He];
    [done | Z.div_mod_to_equations; lia |].
  rewrite Hn; cbn [obind andb negb].
  destruct (buffer_access q a) as [-> Hst]; [done | done | done |]; cbn [obind].
  rewrite He; cbn [obind]; rewrite Hst, Hd; done.
Qed.

(** What binding does to the words of the code. *)
Definition resolved (bound : Z) (ps : list Z) (buf buf' : list Z) : Prop :=
  length buf' = length buf /\
  (forall q, q ∈ ps -> word_at buf' q = patched (word_at buf q) (bound - (q + 4))) /\
  (forall i, (forall q, q ∈ ps -> word_index q <> i) -> nth i buf' 0 = nth i buf 0).

Lemma chain_aligned buf p ps : chain buf p ps -> Forall (fun q => q mod 4 = 0) ps.
Proof. induction 1; constructor; done. Qed.

Lemma bind_loop_near bound ps a p fuel :
  use_far_branches a = false -> chain (buffer_ a) p ps -> bound mod 4 = 0 ->
  Forall (fun q => in_s 18 (bound - (q + 4))) ps -> (length ps <= fuel)%nat ->
  exists buf', bind_loop fuel bound (mkLabel p) a = Ok (with_buffer buf' a, mkLabel 0) /\
    resolved bound ps (buffer_ a) buf'.
Proof.
  intros Hn Hc Hb; revert a p fuel Hn Hc; induction ps as [| q ps IH]; intros a p fuel Hn Hc Hr Hf.
  { inversion Hc; subst; exists (buffer_ a); split; [destruct fuel, a; done |].
    split_and!; [done | | done]; intros q Hq; apply not_elem_of_nil in Hq; done. }
  inversion_clear Hr as [| ? ? Hq Hr'].
  inversion Hc as [| ? ? p' Hq0 Hal Hl Hd Hp Hc']; subst.
  destruct fuel as [| fuel]; [cbn in Hf; lia |]; cbn [bind_loop].
  unfold IsLinked; cbn [position_]; rewrite (proj2 (Z.gtb_lt (q + 4) 0)) by lia.
  rewrite (bind_one_near bound q (DecodeBranchOffset (word_at (buffer_ a) q)) a) by done.
  cbn [obind]; set (v := patched _ _).
  set (a1 := with_buffer _ a).
  assert (word_index q < length (buffer_ a))%nat as Hi
    by (unfold word_index; apply Nat2Z.inj_lt; rewrite Z2Nat.id by (apply Z.div_pos; lia);
        Z.div_mod_to_equations; lia).
  assert (length (buffer_ a1) = length (buffer_ a)) as Hl1 by apply length_insert.
  pose proof (chain_bound _ _ _ Hc') as Hlow; pose proof (chain_aligned _ _ _ Hc') as Hals.
  rewrite Forall_forall in Hlow, Hals.
  assert (forall r, r ∈ ps -> word_index r <> word_index q) as Hne.
  { intros r Hr2 E; destruct (Hlow r Hr2); specialize (Hals r Hr2).
    apply word_index_inj in E; lia. }
  assert (forall r, r ∈ ps -> word_at (buffer_ a1) r = word_at (buffer_ a) r) as Hsame.
  { intros r Hr2; unfold word_at; cbn; rewrite nth_insert, decide_False by auto; done. }
  destruct (IH a1 (DecodeBranchOffset (word_at (buffer_ a) q)) fuel) as (buf' & Hloop & Hlen & Hpat & Hoth);
    [done | eapply chain_ext; eauto | done | cbn in Hf; lia |].
  exists buf'; split; [rewrite Hloop; done |]; split_and!; [congruence | |].
  - intros r [-> | Hr2]%elem_of_cons.
    + unfold word_at at 1; rewrite Hoth by auto; cbn; rewrite nth_insert, decide_True by done; done.
    + rewrite Hpat, Hsame by done; done.
  - intros i Hi'; rewrite Hoth by (intros r Hr2; apply Hi', list_elem_of_further; done).
    cbn; rewrite nth_insert by done; rewrite decide_False; [done |].
    intros ->; apply (Hi' q); [apply list_elem_of_here | done].
Qed.

Lemma Bind_chain a l ps :
  use_far_branches a = false -> chain (buffer_ a) (position_ l) ps ->
  Forall (fun q => in_s 18 (Size a - (q + 4))) ps ->
  exists a' l', Bind l a = Ok (a', l') /\
    IsBound l' = true /\ Position l' = Ok (Size a) /\ Size a' = Size a /\
    resolved (Size a) ps (buffer_ a) (buffer_ a').
Proof.
  intros Hn Hc Hr; destruct l as [p]; cbn [position_] in Hc; unfold Bind, IsBound at 1.
  cbn [position_]; pose proof (chain_nonneg _ _ _ Hc).
  rewrite (proj2 (Z.ltb_ge p 0)) by lia; cbn [negb].
  destruct (bind_loop_near (Size a) ps a p (length (buffer_ a))) as (buf' & -> & Hres); try done.
  - unfold Size; rewrite Z.mul_comm; apply Z.mod_mul; lia.
  - pose proof (chain_length _ _ _ Hc); pose proof (chain_top _ _ _ Hc); lia.
  - cbn [obind]; unfold BindTo, IsBound; cbn [position_].
    assert (0 <= Size a) by (unfold Size; lia); change kWordSize with 4.
    change (0 <? 0) with false; cbn [negb].
    rewrite (proj2 (Z.ltb_lt (- Size a - 4) 0)) by lia; cbn [obind].
    eexists _, _; split; [reflexivity |]; cbn [position_].
    split_and!; [lia | | | done].
    + rewrite Position_bound by (unfold IsBound; cbn; lia); cbn; change kWordSize with 4.
      f_equal; lia.
    + destruct Hres as [Hlen _]; unfold Size; cbn; lia.
Qed.

(** C23. Binding a label in near mode ([use_far_branches] is false), where all branches
    that wait for it are in the range of their 16-bit offsets, terminates within the
    fuel, binds the label to the current position, gives every branch of the chain the
    offset from its delay slot to that position without touching its opcode and
    registers, and changes no other word. *)
Theorem Bind_near a l ps :
  use_far_branches a = false -> chain (buffer_ a) (position_ l) ps ->
  Forall (fun q => in_s 18 (Size a - (q + 4))) ps ->
  exists a' l', Bind l a = Ok (a', l') /\
    IsBound l' = true /\ Position l' = Ok (Size a) /\ Size a' = Size a /\
    resolved (Size a) ps (buffer_ a) (buffer_ a').
Proof. apply Bind_chain. Qed.

(** * Linking *)
Lemma word_at_old buf ws q :
  0 <= q -> q + 4 <= 4 * Z.of_nat (length buf) -> word_at (buf ++ ws) q = word_at buf q.
Proof.
  intros; unfold word_at; apply app_nth1; unfold word_index.
  apply Nat2Z.inj_lt; rewrite Z2Nat.id by (apply Z.div_pos; lia).
  Z.div_mod_to_equations; lia.
Qed.

Lemma chain_app buf ws p ps : chain buf p ps -> chain (buf ++ ws) p ps.
Proof.
  induction 1 as [| q ps p' Hq Ha Hb Hd Hp Hc IH]; [constructor |].
  apply (chain_link _ q ps p'); try done.
  - rewrite length_app; lia.
  - rewrite word_at_old; done.
Qed.

Lemma word_at_new buf w ws : word_at (buf ++ w :: ws) (4 * Z.of_nat (length buf)) = w.
Proof.
  unfold word_at, word_index; rewrite Z.mul_comm, Z.div_mul, Nat2Z.id by lia.
  apply nth_middle.
Qed.

(** The emission of a branch to a label that is not bound. *)
Lemma link_emission i l a a' l' :
  IsBound l = false -> use_far_branches a = false -> br_emit i l a = Ok (a', l') ->
  exists imm, position_ l' = Size a + 4 /\ 0 <= imm < 2 ^ 16 /\
    a' = EmitBranchDelayNop (Emit (br_word i imm) a) /\
    4 * to_s 16 imm = int32 (position_ l).
Proof.
  intros Hb Hn H; unfold br_emit, beq, bne, blez, bgtz, bltz, bgez, not_in_delay_slot,
    with_delay_nop, EmitBranch, EmitRegImmBranch in H.
  destruct i; (destruct (negb (in_delay_slot_ a)); [| discriminate H]); rewrite Hb, Hn in H;
    (destruct (EncodeBranchOffset (int32 (position_ l)) 0 a) as [e |] eqn:Ee;
      [cbn [obind] in H | discriminate H]);
    unfold LinkTo in H; rewrite Hb in H; cbn [negb] in H;
    (case_match; [cbn [obind] in H | discriminate H]); injection H as <- <-;
    exists (to_u 16 e); (split_and!; [done | apply to_u_range; lia
      | apply to_u_range; lia | done |]);
    apply EncodeBranchOffset_ok in Ee as (Hr & Ha & ->);
    change (0 / 2 ^ 16 * 2 ^ 16 + ?x) with x;
    unfold to_u; rewrite Zmod_mod; apply offset_quarter; done.
Qed.

Lemma br_word_sum i imm :
  br_ok i -> 0 <= imm < 2 ^ 16 -> br_word i imm = br_word i 0 + imm /\ br_word i 0 mod 2 ^ 16 = 0.
Proof.
  intros Hok Himm; assert (reg5 R0) by (unfold reg5, R0; lia).
  assert (reg5 BLTZ /\ reg5 BGEZ) as [? ?] by (unfold reg5, BLTZ, BGEZ; lia).
  destruct i; cbn [br_ok br_word] in *; destruct_and?; rewrite !IType_sum by (done || lia);
    (split; [lia |]); change (2 ^ 16) with 65536; Z.div_mod_to_equations; lia.
Qed.

Lemma int32_upper w : int32 w / 2 ^ 16 * 2 ^ 16 mod 2 ^ 32 = (w / 2 ^ 16 * 2 ^ 16) mod 2 ^ 32.
Proof.
  destruct (to_s_cong 32 w) as [k ->]; [lia |].
  replace (w + k * 2 ^ 32) with (w + k * 2 ^ 16 * 2 ^ 16) by lia.
  rewrite Z.div_add by lia.
  replace ((w / 2 ^ 16 + k * 2 ^ 16) * 2 ^ 16) with (w / 2 ^ 16 * 2 ^ 16 + k * 2 ^ 32) by lia.
  apply Z_mod_plus_full.
Qed.

(** A patched branch is the branch with the new offset. *)
Lemma patched_br i imm dest :
  br_ok i -> 0 <= imm < 2 ^ 16 ->
  patched (int32 (br_word i imm)) dest = int32 (br_word i ((dest / 4) mod 2 ^ 16)).
Proof.
  intros Hok Himm; pose proof (Z.mod_pos_bound (dest / 4) (2 ^ 16) ltac:(lia)) as Hd.
  destruct (br_word_sum i imm Hok Himm) as [-> H0].
  destruct (br_word_sum i _ Hok Hd) as [-> _].
  unfold patched; apply to_s_eq; [lia |].
  rewrite Z.add_mod, int32_upper, <- Z.add_mod by lia; do 2 f_equal.
  revert H0 Himm; change (2 ^ 16) with 65536; clear.
  generalize (br_word i 0) as b0; intros; Z.div_mod_to_equations; lia.
Qed.

Lemma DecodeBranchOffset_br i imm :
  br_ok i -> 0 <= imm < 2 ^ 16 -> DecodeBranchOffset (int32 (br_word i imm)) = 4 * to_s 16 imm.
Proof.
  intros Hok Himm; rewrite DecodeBranchOffset_int16.
  destruct (br_word_sum i imm Hok Himm) as [-> H0].
  destruct (to_s_cong 32 (br_word i 0 + imm)) as [k ->]; [lia |].
  replace (br_word i 0 + imm + k * 2 ^ 32) with (imm + br_word i 0 + k * 2 ^ 16 * 2 ^ 16) by lia.
  rewrite Z_mod_plus_full, Z.add_mod, H0, Z.add_0_r, Zmod_mod, Z.mod_small by lia; done.
Qed.

(** A branch to a label that is not bound joins the label's chain: the chain
    of the label after the emission is the position of the branch followed by the
    chain before, so that every branch to the label stays reachable from it. *)
Theorem branch_links i l a a' l' ps :
  br_ok i -> IsBound l = false -> use_far_branches a = false -> Size a < 2 ^ 31 ->
  chain (buffer_ a) (position_ l) ps -> br_emit i l a = Ok (a', l') ->
  chain (buffer_ a') (position_ l') (Size a :: ps).
Proof.
  intros Hok Hb Hn Hs Hc H.
  destruct (link_emission i l a a' l' Hb Hn H) as (imm & -> & Hi & -> & Ho).
  pose proof (chain_nonneg _ _ _ Hc); pose proof (chain_top _ _ _ Hc) as Htop.
  rewrite (to_s_id 32) in Ho by (lia || (unfold in_s, Size in *; lia)).
  cbn; rewrite <- app_assoc; cbn [app].
  apply (chain_link _ (Size a) ps (position_ l)).
  - unfold Size; lia.
  - unfold Size; rewrite Z.mul_comm; apply Z.mod_mul; lia.
  - unfold Size; rewrite length_app; cbn; lia.
  - unfold Size; rewrite word_at_new, DecodeBranchOffset_br by done; done.
  - unfold Size; lia.
  - apply chain_app; done.
Qed.

Lemma word_at_next buf w w' ws :
  word_at (buf ++ w :: w' :: ws) (4 * Z.of_nat (length buf) + 4) = w'.
Proof.
  replace (4 * Z.of_nat (length buf) + 4) with (4 * Z.of_nat (length (buf ++ [w])))
    by (rewrite length_app; cbn; lia).
  change (buf ++ w :: w' :: ws) with (buf ++ [w] ++ w' :: ws); rewrite app_assoc.
  apply word_at_new.
Qed.

(** Binding leaves the words that are not in the chain. *)
Lemma resolved_other bound p ps buf buf' q :
  chain buf p ps -> resolved bound ps buf buf' -> 0 <= q -> q mod 4 = 0 -> q ∉ ps ->
  word_at buf' q = word_at buf q.
Proof.
  intros Hc (_ & _ & Hoth) Hq Ha Hnot; apply Hoth; intros r Hr E; apply Hnot.
  pose proof (chain_bound _ _ _ Hc) as Hb; pose proof (chain_aligned _ _ _ Hc) as Hal.
  rewrite Forall_forall in Hb, Hal; destruct (Hb r Hr); specialize (Hal r Hr).
  apply word_index_inj in E; [subst; done | lia..].
Qed.

Lemma code_at_word start buf q s :
  code_at start buf s -> 0 <= q -> q mod 4 = 0 -> q + 4 <= 4 * Z.of_nat (length buf) ->
  fetch (start + q) s = Ok (word_at buf q).
Proof.
  intros Hc Hq Ha Hl; set (i := word_index q).
  assert (q = 4 * Z.of_nat i) as E.
  { unfold i, word_index; rewrite Z2Nat.id by (apply Z.div_pos; lia); Z.div_mod_to_equations; lia. }
  assert (i < length buf)%nat as Hi by lia; unfold word_at; fold i; rewrite E.
  clearbody i; clear q Hq Ha Hl E; revert start i Hc Hi.
  induction buf as [| w buf IH]; intros start i Hc Hi; cbn in Hi; [lia |].
  destruct Hc as [Hw Hc]; destruct i as [| i]; cbn [nth].
  - replace (start + 4 * Z.of_nat 0) with start by lia; done.
  - rewrite <- (IH (start + 4) i) by (done || lia); f_equal; lia.
Qed.

(** C24. In near mode ([use_far_branches] is false) a forward [beq], [bne], [blez],
    [bgtz], [bltz] or [bgez], once its label is bound in the range of the 16-bit offset,
    is executed as a branch to the label's position: from the branch's position in code
    loaded at [start], where no other branch to the label is in its delay slot, one step
    of the simulator (the branch and the [nop] in its delay slot) leads to the position
    where the label was bound if the condition holds, and behind the delay slot
    otherwise. *)
Theorem forward_branch_runs i l a a1 l1 a2 l2 qs a3 l3 ws host s start :
  br_ok i -> IsBound l = false -> use_far_branches a = false ->
  br_emit i l a = Ok (a1, l1) ->
  buffer_ a2 = buffer_ a1 ++ ws -> use_far_branches a2 = false ->
  chain (buffer_ a2) (position_ l2) qs -> Size a ∈ qs -> Size a + 4 ∉ qs ->
  Forall (fun q => in_s 18 (Size a2 - (q + 4))) qs ->
  Bind l2 a2 = Ok (a3, l3) ->
  delay_slot_ s = false -> pc_ s = start + Size a -> code_range (pc_ s) 2 ->
  code_at start (buffer_ a3) s ->
  step host s = Ok (after_branch
    (if br_taken i (regs s) then uint32 (start + Size a2) else pc_ s + 8) 2 s).
Proof.
  intros Hok Hb Hn Hem Hbuf Hn2 Hc Hin Hnot Hr HB Hds Hpc Hrange Hcode.
  destruct (link_emission i l a a1 l1 Hb Hn Hem) as (imm & _ & Hi & -> & _).
  cbn in Hbuf; rewrite <- !app_assoc in Hbuf; cbn [app] in Hbuf.
  destruct (Bind_chain a2 l2 qs Hn2 Hc Hr) as (a3' & l3' & HB' & _ & _ & Hsz & Hlen & Hpat & Hoth).
  rewrite HB in HB'; injection HB' as <- <-.
  assert (Size a mod 4 = 0) as Hal by (unfold Size; rewrite Z.mul_comm; apply Z.mod_mul; lia).
  assert (0 <= Size a) by (unfold Size; lia).
  assert (Size a + 8 <= Size a2) as Hfit
    by (unfold Size; rewrite Hbuf, length_app; cbn; lia).
  set (dest := Size a2 - (Size a + 4)); set (imm' := (dest / 4) mod 2 ^ 16).
  assert (0 <= imm' < 2 ^ 16) as Hi' by (apply Z.mod_pos_bound; lia).
  assert (word_at (buffer_ a3) (Size a) = int32 (br_word i imm')) as Hw.
  { rewrite Hpat, Hbuf by done; unfold Size at 1; rewrite word_at_new.
    apply patched_br; done. }
  assert (word_at (buffer_ a3) (Size a + 4) = kNopInstruction) as Hnop.
  { erewrite resolved_other; [| exact Hc | split; eauto | lia | Z.div_mod_to_equations; lia | done].
    rewrite Hbuf; unfold Size; apply word_at_next. }
  destruct (br_dispatch host (ExecuteDelaySlot host kNesting) i imm' (tick s) Hok Hi') as [_ HS].
  rewrite (step_branch host s (int32 (br_word i imm')) (br_taken i (regs s))); try done.
  - rewrite HS; unfold imm'; rewrite offset_quarter; [| |].
    + rewrite Hpc; unfold dest.
      replace (start + Size a + 4 + (Size a2 - (Size a + 4))) with (start + Size a2) by lia; done.
    + rewrite Forall_forall in Hr; apply Hr; done.
    + unfold dest, Size; Z.div_mod_to_equations; lia.
  - rewrite Hpc; split; [| split; [| done]].
    + rewrite <- Hw; apply code_at_word; unfold Size in *; done || lia.
    + rewrite <- Z.add_assoc, <- Hnop; apply code_at_word; unfold Size in *;
        done || (Z.div_mod_to_equations; lia).
  - intros d; apply (br_dispatch host d i imm' (tick s)); done.
Qed.
