(* ===== verification/MipsInvariants.v ===== *)
(** Invariants of the simulator: the registers hold values of their types, the
    zero register is zero, and the machine is outside a delay slot between two
    instructions.  The same induction shows that the nesting of delay slots never
    exhausts the fuel of the decoder. *)
From stdpp Require Import base numbers list gmap.
From Stdlib Require Import ZArith Lia Bool.
From S2P Require Import Prelude Utils MipsConstants HostFloat MipsState MipsSimulator.
From S2P Require Import MipsAssembler MipsLabels MipsMacros MipsEncoding MipsIsa MipsExec.
From S2P Require Import MipsMacroProofs.
Import Instr.
#[local] Open Scope Z_scope.

(** * Safe outcomes *)
(** A result satisfies [P]; an error is one of the machine, not of the fuel. *)
Definition safe {A} (P : A -> Prop) (m : outcome A) : Prop :=
  match m with
  | Ok a => P a
  | Err e => e <> OutOfFuel
  end.

Lemma safe_ok {A} (P : A -> Prop) a : P a -> safe P (Ok a).
Proof. done. Qed.

Lemma safe_if {A} (P : A -> Prop) (b : bool) m m' :
  (b = true -> safe P m) -> (b = false -> safe P m') -> safe P (if b then m else m').
Proof. destruct b; auto. Qed.

Lemma safe_bind {A B} (Q : A -> Prop) (P : B -> Prop) m (f : A -> outcome B) :
  safe Q m -> (forall a, Q a -> safe P (f a)) -> safe P (obind m f).
Proof. destruct m; cbn; auto. Qed.

Lemma safe_bind_any {A B} (P : B -> Prop) m (f : A -> outcome B) :
  safe (fun _ => True) m -> (forall a, safe P (f a)) -> safe P (obind m f).
Proof. intros; eapply safe_bind; eauto. Qed.

(** * The invariant *)
(** [d] says whether the instruction being executed is in a delay slot. *)
Definition inv (d : bool) (s : Simulator) : Prop := wf s /\ delay_slot_ s = d.

Ltac inv_field :=
  intros [[Hr Hf Hh Hl Hc Hp Hi] Hd]; split; [split | done]; try done;
  try (apply to_s_range; lia); try (apply to_u_range; lia).

Lemma inv_set_register d r v s : inv d s -> inv d (set_register r v s).
Proof.
  intros [Hwf Hd]; split; [apply wf_set_register; done |].
  destruct (set_register_frame r v s) as (_ & _ & _ & _ & _ & _ & _ & ->); done.
Qed.

Lemma inv_put_freg d r v s : inv d s -> inv d (put_freg r v s).
Proof.
  inv_field; intros q; unfold freg, put_freg; cbn.
  destruct (decide (q = r)) as [-> | Hq];
    [rewrite lookup_insert_eq; apply to_s_range; lia | rewrite lookup_insert_ne by done; apply Hf].
Qed.

Lemma inv_hi d v s : inv d s -> inv d (set_hi_register v s).
Proof. inv_field. Qed.
Lemma inv_lo d v s : inv d s -> inv d (set_lo_register v s).
Proof. inv_field. Qed.
Lemma inv_pc d v s : inv d s -> inv d (with_pc (uint32 v) s).
Proof. inv_field. Qed.
Lemma inv_set_pc d v s : inv d s -> inv d (set_pc v s).
Proof. apply inv_pc. Qed.
Lemma inv_icount d v s : inv d s -> inv d (with_icount (uint64 v) s).
Proof. inv_field. Qed.
Lemma inv_top_exit d v s : inv d s -> inv d (with_top_exit v s).
Proof. inv_field. Qed.
Lemma inv_memory d v s : inv d s -> inv d (with_memory v s).
Proof. inv_field. Qed.
Lemma inv_delay_slot d d' s : inv d s -> inv d' (with_delay_slot d' s).
Proof. inv_field. Qed.

Lemma inv_fcsr d cc v s : inv d s -> inv d (set_fcsr_bit cc v s).
Proof.
  intros [[Hr Hf Hh Hl Hc Hp Hi] Hd]; unfold set_fcsr_bit.
  destruct v; (split; [split | done]; try done; cbn).
  - apply in_s_lor; auto with mips.
  - apply in_s_land; [done |]; pose proof (in_s_int32 (Z.shiftl 1 cc)) as H.
    revert H; unfold in_s, Z.lnot; lia.
Qed.

(** The invariant of a state that was written to. *)
Ltac inv_solve :=
  repeat lazymatch goal with
         | |- inv _ (set_register _ _ _) => apply inv_set_register
         | |- inv _ (put_freg _ _ _) => apply inv_put_freg
         | |- inv _ (set_hi_register _ _) => apply inv_hi
         | |- inv _ (set_lo_register _ _) => apply inv_lo
         | |- inv _ (with_pc (uint32 _) _) => apply inv_pc
         | |- inv _ (set_pc _ _) => apply inv_set_pc
         | |- inv _ (with_icount (uint64 _) _) => apply inv_icount
         | |- inv _ (with_top_exit _ _) => apply inv_top_exit
         | |- inv _ (with_memory _ _) => apply inv_memory
         | |- inv _ (set_fcsr_bit _ _ _) => apply inv_fcsr
         | |- inv ?d (with_delay_slot ?d _) => eapply inv_delay_slot
         | |- inv _ (if ?b then _ else _) => destruct b
         end; try eassumption.


(** * The operations *)
(** Goes through the guards, branches and calls of an operation. *)
Ltac safe :=
  repeat lazymatch goal with
         | |- safe _ (if _ then _ else _) => apply safe_if; intros ?
         | |- safe _ (Ok _) => apply safe_ok
         | |- safe _ (Err _) => discriminate
         | |- safe (inv ?d) (obind ?m _) =>
             lazymatch type of m with
             | outcome Simulator => apply (safe_bind (inv d)); [| intros ? ?]
             | _ => apply safe_bind_any; [| intros ?]
             end
         | |- safe _ (obind _ _) => apply safe_bind_any; [| intros ?]
         | |- safe _ (let _ := _ in _) => cbv zeta
         end; try lazymatch goal with |- inv _ _ => inv_solve | |- True => exact I end.

Lemma safe_load_le n addr s : safe (fun _ => True) (load_le n addr s).
Proof.
  revert addr; induction n as [| n IH]; intros addr; cbn [load_le]; [done |]; safe; [| done].
  unfold load8; case_match; done.
Qed.

Lemma safe_store_le d n addr v s : inv d s -> safe (inv d) (store_le n addr v s).
Proof.
  revert addr v s; induction n as [| n IH]; intros addr v s Hs; cbn [store_le]; [done |]; safe; [| auto].
  unfold store8; case_match; [apply safe_ok; inv_solve | discriminate].
Qed.

Lemma safe_ReadB addr s : safe (fun _ => True) (ReadB addr s).
Proof. unfold ReadB; safe; apply safe_load_le. Qed.
Lemma safe_ReadBU addr s : safe (fun _ => True) (ReadBU addr s).
Proof. unfold ReadBU; safe; apply safe_load_le. Qed.
Lemma safe_ReadH addr s : safe (fun _ => True) (ReadH addr s).
Proof. unfold ReadH; safe; apply safe_load_le. Qed.
Lemma safe_ReadHU addr s : safe (fun _ => True) (ReadHU addr s).
Proof. unfold ReadHU; safe; apply safe_load_le. Qed.
Lemma safe_ReadW addr s : safe (fun _ => True) (ReadW addr s).
Proof. unfold ReadW; safe; apply safe_load_le. Qed.
Lemma safe_ReadD addr s : safe (fun _ => True) (ReadD addr s).
Proof. unfold ReadD; safe; apply safe_load_le. Qed.
Lemma safe_WriteB d addr v s : inv d s -> safe (inv d) (WriteB addr v s).
Proof. apply safe_store_le. Qed.
Lemma safe_WriteH d addr v s : inv d s -> safe (inv d) (WriteH addr v s).
Proof. unfold WriteH; intros; safe; apply safe_store_le; done. Qed.
Lemma safe_WriteW d addr v s : inv d s -> safe (inv d) (WriteW addr v s).
Proof. unfold WriteW; intros; safe; apply safe_store_le; done. Qed.
Lemma safe_WriteD d addr v s : inv d s -> safe (inv d) (WriteD addr v s).
Proof. unfold WriteD; intros; safe; apply safe_store_le; done. Qed.
Lemma safe_set_fregister d r v s : inv d s -> safe (inv d) (set_fregister r v s).
Proof. unfold set_fregister; intros; safe. Qed.
Lemma safe_set_fregister_float d r v s : inv d s -> safe (inv d) (set_fregister_float r v s).
Proof. unfold set_fregister_float; intros; safe. Qed.
Lemma safe_set_fregister_double d r v s : inv d s -> safe (inv d) (set_fregister_double r v s).
Proof. unfold set_fregister_double, set_fregister_long; intros; safe. Qed.
Lemma safe_get_fregister r s : safe (fun _ => True) (get_fregister r s).
Proof. unfold get_fregister; safe. Qed.
Lemma safe_get_fregister_float r s : safe (fun _ => True) (get_fregister_float r s).
Proof. unfold get_fregister_float; safe. Qed.
Lemma safe_get_fregister_long r s : safe (fun _ => True) (get_fregister_long r s).
Proof. unfold get_fregister_long; safe. Qed.
Lemma safe_get_fregister_double r s : safe (fun _ => True) (get_fregister_double r s).
Proof. unfold get_fregister_double; safe; apply safe_get_fregister_long. Qed.

(** The calls of an operation, by the name of the callee. *)
Ltac safe_call :=
  lazymatch goal with
  | |- safe _ (ReadB _ _) => apply safe_ReadB
  | |- safe _ (ReadBU _ _) => apply safe_ReadBU
  | |- safe _ (ReadH _ _) => apply safe_ReadH
  | |- safe _ (ReadHU _ _) => apply safe_ReadHU
  | |- safe _ (ReadW _ _) => apply safe_ReadW
  | |- safe _ (ReadD _ _) => apply safe_ReadD
  | |- safe _ (WriteB _ _ _) => apply safe_WriteB
  | |- safe _ (WriteH _ _ _) => apply safe_WriteH
  | |- safe _ (WriteW _ _ _) => apply safe_WriteW
  | |- safe _ (WriteD _ _ _) => apply safe_WriteD
  | |- safe _ (set_fregister _ _ _) => apply safe_set_fregister
  | |- safe _ (set_fregister_float _ _ _) => apply safe_set_fregister_float
  | |- safe _ (set_fregister_double _ _ _) => apply safe_set_fregister_double
  | |- safe _ (get_fregister _ _) => apply safe_get_fregister
  | |- safe _ (get_fregister_float _ _) => apply safe_get_fregister_float
  | |- safe _ (get_fregister_long _ _) => apply safe_get_fregister_long
  | |- safe _ (get_fregister_double _ _) => apply safe_get_fregister_double
  end; try inv_solve.

Lemma safe_clo_loop x : in_s 32 x -> safe (fun _ => True) (clo_loop 32 0 x).
Proof.
  intros Hx; unfold in_s in Hx; destruct (decide (x < 0)); [rewrite clo_loop_clo32 by lia; done |].
  cbn [clo_loop]; rewrite (proj2 (Z.ltb_ge _ _)) by lia; done.
Qed.

Lemma safe_clz_loop x : in_s 32 x -> safe (fun _ => True) (clz_loop 32 0 x).
Proof.
  intros Hx; unfold in_s in Hx; destruct (decide (0 < x)); [rewrite clz_loop_clz32 by lia; done |].
  cbn [clz_loop]; rewrite Z.gtb_ltb, (proj2 (Z.ltb_ge _ _)) by lia; done.
Qed.

(** What the host promises of the functions behind an external address: they
    leave a machine whose registers hold values of their types, and they return to
    the instruction that called them. *)
Class HostInvariant (host : Host) : Prop :=
  host_call_inv : forall f args d s, inv d s ->
    match host_call host f args s with
    | Returned _ s' => inv d s'
    | Threw _ _ _ _ _ s' => inv d s'
    end.

Section Decoding.
Context (host : Host) {Hhost : HostInvariant host}.

Lemma safe_zap_fregisters d n i v s : inv d s -> safe (inv d) (zap_fregisters n i v s).
Proof.
  revert i s; induction n as [| n IH]; intros i s Hs; cbn [zap_fregisters]; [done |]; safe.
  - safe_call.
  - apply IH; done.
Qed.

Lemma inv_zap_registers d s : inv d s -> inv d (zap_registers s).
Proof. intros; unfold zap_registers; cbv zeta; inv_solve. Qed.

Lemma inv_Longjmp d pc sp fp e st s : inv d s -> inv d (Longjmp pc sp fp e st s).
Proof. intros; unfold Longjmp; inv_solve. Qed.

Lemma safe_DoBreak d w s : inv d s -> safe (inv d) (DoBreak host w s).
Proof.
  intros Hs; unfold DoBreak; apply safe_if; intros _; [| discriminate].
  apply safe_if; intros _; [| discriminate].
  apply safe_if; intros _; [| discriminate]; cbv zeta.
  set (r := FromBreakInstruction host _); set (s1 := if sets_exit_frame _ then _ else s).
  assert (inv d s1) as Hs1 by (unfold s1; case_match; inv_solve).
  apply safe_bind_any; [unfold call_arguments; case_match; safe; safe_call |]; intros args.
  pose proof (host_call_inv (external_function r) args d s1 Hs1) as Hh.
  destruct (host_call host (external_function r) args s1) as [v s2 | ? ? ? ? ? s2].
  - apply (safe_bind (inv d)); [unfold finish_call; case_match; safe; safe_call |]; intros s3 Hs3.
    apply (safe_bind (inv d)); [apply safe_zap_fregisters, inv_zap_registers; inv_solve |].
    intros; safe.
  - apply safe_ok; inv_solve; apply inv_Longjmp; done.
Qed.

(** The cases of the decoder, where the delay slot is executed only outside of
    one. *)
Context (d : bool) (ds : Simulator -> outcome Simulator).
Context (Hds : d = false -> forall s, inv d s -> safe (inv d) (ds s)).

Lemma inv_outside s : inv d s -> negb (delay_slot_ s) = true -> d = false.
Proof. intros [_ <-] H; apply negb_true_iff in H; done. Qed.

Lemma safe_DoBranch w taken likely s : inv d s -> safe (inv d) (DoBranch ds w taken likely s).
Proof.
  intros Hs; unfold DoBranch; apply safe_if; intros E; [| discriminate].
  pose proof (inv_outside s Hs E) as Ed; specialize (Hds Ed); safe;
    apply Hds; inv_solve.
Qed.

Lemma safe_JR w s : inv d s -> safe (inv d) (exec_JR ds w s).
Proof.
  intros Hs; unfold exec_JR; do 2 (apply safe_if; [intros _ | discriminate]).
  apply safe_if; [intros E | discriminate].
  pose proof (inv_outside s Hs E) as Ed; specialize (Hds Ed); safe; apply Hds; inv_solve.
Qed.

Lemma safe_JALR w s : inv d s -> safe (inv d) (exec_JALR ds w s).
Proof.
  intros Hs; unfold exec_JALR; do 2 (apply safe_if; [intros _ | discriminate]).
  apply safe_if; [intros E | discriminate].
  pose proof (inv_outside s Hs E) as Ed; specialize (Hds Ed); safe; apply Hds; inv_solve.
Qed.

Ltac safe_calls :=
  lazymatch goal with
  | |- safe _ (DoBreak _ _ _) => apply safe_DoBreak
  | |- safe _ (exec_JR _ _ _) => apply safe_JR
  | |- safe _ (exec_JALR _ _ _) => apply safe_JALR
  | |- safe _ (DoBranch _ _ _ _ _) => apply safe_DoBranch
  | |- safe _ (clo_loop _ _ _) => apply safe_clo_loop
  | |- safe _ (clz_loop _ _ _) => apply safe_clz_loop
  | _ => safe_call
  end; try inv_solve; try done.

Lemma safe_DecodeSpecial w s : inv d s -> safe (inv d) (DecodeSpecial host ds w s).
Proof.
  intros Hs; unfold DecodeSpecial, exec_ADDU, exec_AND, exec_DIV, exec_DIVU, exec_MFHI,
    exec_MFLO, exec_MOVCI, exec_MOVN, exec_MOVZ, exec_MTHI, exec_MTLO, exec_MULT, exec_MULTU,
    exec_NOR, exec_OR, exec_SLL, exec_SLLV, exec_SLT, exec_SLTU, exec_SRA, exec_SRAV, exec_SRL,
    exec_SRLV, exec_SUBU, exec_XOR; safe; safe_calls.
Qed.

Lemma safe_DecodeSpecial2 w s : inv d s -> safe (inv d) (DecodeSpecial2 w s).
Proof.
  intros Hs; assert (forall r, in_s 32 (get_register r s)) as Hr by apply Hs.
  unfold DecodeSpecial2, exec_MADD, exec_MADDU, exec_CLO, exec_CLZ, rs_reg; safe; safe_calls.
Qed.

Lemma safe_DecodeRegImm w s : inv d s -> safe (inv d) (DecodeRegImm ds w s).
Proof.
  intros Hs; unfold DecodeRegImm, exec_BGEZ, exec_BGEZAL, exec_BLTZAL, exec_BGEZL, exec_BLTZ,
    exec_BLTZL; safe; safe_calls.
Qed.

Lemma safe_DecodeCop1 w s : inv d s -> safe (inv d) (DecodeCop1 ds w s).
Proof.
  intros Hs; unfold DecodeCop1; safe.
  - unfold DecodeCop1_format, cop1_arith, cop1_compare, exec_CVT_D, exec_CVT_S, exec_CVT_W;
      safe; safe_calls.
  - unfold DecodeCop1_sub, exec_MFC1, exec_MTC1, exec_BC1; safe; safe_calls.
Qed.

Lemma safe_dispatch w s : inv d s -> safe (inv d) (dispatch host ds w s).
Proof.
  intros Hs; unfold dispatch; cbv zeta.
  apply safe_if; intros _; [apply safe_DecodeSpecial; done |].
  apply safe_if; intros _; [apply safe_DecodeSpecial2; done |].
  apply safe_if; intros _; [apply safe_DecodeRegImm; done |].
  apply safe_if; intros _; [apply safe_DecodeCop1; done |].
  unfold exec_ADDIU, exec_ANDI, exec_BEQ, exec_BGTZ, exec_BLEZ, exec_BNE, exec_LB, exec_LBU,
    exec_LDC1, exec_LH, exec_LHU, exec_LUI, exec_LW, exec_LWC1, exec_ORI, exec_SB, exec_SLTI,
    exec_SLTIU, exec_SDC1, exec_SH, exec_SW, exec_SWC1, exec_XORI, checked; safe; safe_calls.
Qed.

Lemma safe_decode_step w s : inv d s -> safe (inv d) (decode_step host ds w s).
Proof. intros; unfold decode_step; apply (safe_bind (inv d)); [apply safe_dispatch; done |]; intros; safe. Qed.
End Decoding.

(** * The execution loop *)
Section Execution.
Context (host : Host) {Hhost : HostInvariant host}.

Lemma safe_fetch addr s : safe (fun _ => True) (fetch addr s).
Proof. unfold fetch; safe; apply safe_load_le. Qed.

(** In a delay slot no delay slot is executed: the decoder needs no fuel. *)
Lemma safe_in_delay_slot fuel w s :
  inv true s -> safe (inv true) (InstructionDecode host fuel w s).
Proof.
  intros Hs; rewrite InstructionDecode_step; apply safe_decode_step; [done | discriminate | done].
Qed.

Lemma safe_ExecuteDelaySlot fuel s :
  inv false s -> safe (inv false) (ExecuteDelaySlot host (S fuel) s).
Proof.
  intros Hs; unfold ExecuteDelaySlot; apply safe_if; intros _; [| discriminate].
  apply safe_bind_any; [apply safe_fetch |]; intros w.
  apply (safe_bind (inv true)).
  - apply safe_in_delay_slot; inv_solve.
  - intros s' Hs'; apply safe_ok; inv_solve.
Qed.

Lemma safe_step s : inv false s -> safe (inv false) (step host s).
Proof.
  intros Hs; unfold step; apply safe_if; intros _; [discriminate |].
  apply safe_bind_any; [apply safe_fetch |]; intros w.
  rewrite InstructionDecode_step; apply safe_decode_step; [done | | inv_solve].
  intros _ s' Hs'; apply safe_ExecuteDelaySlot; done.
Qed.

Lemma safe_steps n s : inv false s -> safe (inv false) (steps host n s).
Proof.
  revert s; induction n as [| n IH]; intros s Hs; cbn [steps]; [done |].
  apply (safe_bind (inv false)); [apply safe_step; done | auto].
Qed.
End Execution.

(** The states of a new simulator satisfy the invariant. *)
Lemma inv_new hi lo top mem :
  in_s 32 hi -> in_s 32 lo -> inv false (new_Simulator hi lo top mem).
Proof.
  intros Hhi Hlo; split; [| done]; split; try done.
  - intros r; unfold get_register, new_Simulator; cbn [registers_]; case_match; [done |].
    destruct (decide (r = SP)) as [-> |]; [rewrite lookup_insert_eq; apply to_s_range; lia |].
    rewrite lookup_insert_ne by done; done.
Qed.

(** C34. The decoder never runs out of fuel: a jump in a delay slot is refused,
    so delay slots do not nest, and the loops of [clo] and [clz] end. *)
Theorem step_has_fuel host s n :
  HostInvariant host -> inv false s -> steps host n s <> Err OutOfFuel.
Proof.
  intros Hh Hs E; pose proof (safe_steps host n s Hs) as Hsafe; rewrite E in Hsafe; done.
Qed.
