(* ===== verification/MipsCallProofs.v ===== *)
(** A call into simulated code gives the caller its registers back; a
    redirection leads to the function it was made for. *)
From stdpp Require Import base numbers list gmap.
From Stdlib Require Import ZArith Lia Bool.
From S2P Require Import Prelude Utils MipsConstants HostFloat MipsState MipsSimulator MipsCalls.
From S2P Require Import MipsAssembler MipsEncoding MipsIsa MipsExec MipsInvariants.
#[local] Open Scope Z_scope.

(** * Redirections *)
(** The break instructions of the redirections are at different addresses. *)
Definition redirections_ok (list_ : list Redirection) : Prop :=
  NoDup (map address_of_break_instruction list_).

Lemma FunctionForRedirect_elem r list_ :
  redirections_ok list_ -> r ∈ list_ ->
  FunctionForRedirect (address_of_break_instruction r) list_ = external_function r.
Proof.
  unfold redirections_ok; induction list_ as [| c l IH]; intros Hnd Hin;
    [apply not_elem_of_nil in Hin; done |].
  cbn in Hnd; apply NoDup_cons in Hnd as [Hc Hnd]; cbn [FunctionForRedirect].
  apply elem_of_cons in Hin as [-> | Hin]; [rewrite Z.eqb_refl; done |].
  destruct (Z.eqb_spec (address_of_break_instruction c) (address_of_break_instruction r)) as [E |];
    [| auto].
  exfalso; apply Hc; rewrite E; apply list_elem_of_fmap; eauto.
Qed.

Lemma Redirection_find_elem f l r :
  Redirection_find f l = Some r -> r ∈ l /\ external_function r = f.
Proof.
  induction l as [| c l IH]; cbn; [discriminate |].
  destruct (Z.eqb_spec (external_function c) f) as [E |]; intros H.
  - injection H as <-; split; [apply list_elem_of_here | done].
  - destruct (IH H); split; [apply list_elem_of_further |]; done.
Qed.

(** Redirecting a function of the host, whether it was redirected before or
    not, yields an address from which the function is found again, keeps the
    redirections made before, and redirecting it a second time yields the same
    address. *)
Theorem RedirectExternalReference_roundtrip fresh fresh' f kind kind' n n' list_ addr list' :
  redirections_ok list_ -> fresh ∉ map address_of_break_instruction list_ ->
  RedirectExternalReference fresh f kind n list_ = (addr, list') ->
  FunctionForRedirect addr list' = f /\ redirections_ok list' /\
  (forall r, r ∈ list_ ->
     FunctionForRedirect (address_of_break_instruction r) list' = external_function r) /\
  RedirectExternalReference fresh' f kind' n' list' = (addr, list').
Proof.
  intros Hok Hf; unfold RedirectExternalReference, Redirection_Get.
  destruct (Redirection_find f list_) as [r |] eqn:E; intros H; injection H as <- <-.
  - destruct (Redirection_find_elem _ _ _ E) as [Hin Hr]; rewrite E.
    rewrite FunctionForRedirect_elem by done; split_and!; auto using FunctionForRedirect_elem.
  - assert (redirections_ok (mkRedirection f kind n fresh :: list_)) as Hok'
      by (apply NoDup_cons; done).
    split_and!; [cbn; rewrite Z.eqb_refl; done | done | |].
    + intros r Hr; apply FunctionForRedirect_elem; [done | apply list_elem_of_further; done].
    + cbn; rewrite Z.eqb_refl; done.
Qed.

(** * Callee-saved registers *)
Lemma set_dregister_ok d v s : dreg d -> set_dregister d v s = Ok (put_double d v s).
Proof.
  unfold dreg; intros Hd; unfold set_dregister, set_dregister_bits, set_fregister,
    kNumberOfDRegisters, kNumberOfFRegisters.
  rewrite !(proj2 (Z.geb_le _ _)), !(proj2 (Z.ltb_lt _ _)) by lia; cbn.
  unfold put_double, put_freg, High32Bits, Low32Bits.
  rewrite !to_s_to_s, Z.shiftr_div_pow2 by lia; reflexivity.
Qed.

Lemma get_dregister_ok d s : dreg d -> wf s -> get_dregister d s = Ok (get_double d s).
Proof.
  unfold dreg; intros Hd Hwf; unfold get_dregister, get_dregister_bits, get_fregister,
    kNumberOfDRegisters, kNumberOfFRegisters.
  rewrite !(proj2 (Z.geb_le _ _)), !(proj2 (Z.ltb_lt _ _)) by lia; cbn.
  rewrite LowHighTo64Bits_pair64 by (apply wf_fregisters; done); done.
Qed.

Lemma freg_put r q v s : freg r (put_freg q v s) = if decide (r = q) then int32 v else freg r s.
Proof.
  unfold freg, put_freg; cbn; destruct (decide (r = q)) as [-> |];
    [rewrite lookup_insert_eq | rewrite lookup_insert_ne by done]; done.
Qed.

Lemma get_put_double d d' v s :
  in_s 64 v -> get_double d (put_double d' v s) = if decide (d = d') then v else get_double d s.
Proof.
  intros Hv; unfold get_double, put_double; rewrite !freg_put.
  destruct (decide (d = d')) as [-> |].
  - rewrite (decide_False (P := d' * 2 = d' * 2 + 1)), !decide_True by lia.
    unfold pair64; rewrite to_u_to_s, to_s_id by
      (lia || (revert Hv; unfold in_s; change (2 ^ (64 - 1)) with (2 ^ 31 * 2 ^ 32);
               change (2 ^ (32 - 1)) with (2 ^ 31); intros; Z.div_mod_to_equations; lia)).
    unfold to_u; pose proof (Z.div_mod v (2 ^ 32) ltac:(lia)); lia.
  - rewrite !decide_False by lia; done.
Qed.

Lemma get_register_put_double r d v s : get_register r (put_double d v s) = get_register r s.
Proof. done. Qed.

Lemma get_double_set_register d r v s : get_double d (set_register r v s) = get_double d s.
Proof.
  unfold get_double, freg; destruct (set_register_frame r v s) as (_ & _ & _ & -> & _); done.
Qed.

Lemma get_set_registers rl f s r :
  Forall (fun q => q <> 0) rl ->
  get_register r (set_registers rl (map f rl) s) =
  if decide (r ∈ rl) then int32 (f r) else get_register r s.
Proof.
  intros Hz; revert s; induction Hz as [| q rl Hq Hz IH]; intros s; cbn [set_registers map].
  { rewrite decide_False; [done | apply not_elem_of_nil]. }
  rewrite IH; destruct (decide (r ∈ rl)) as [Hr | Hr].
  - rewrite decide_True; [done | apply list_elem_of_further; done].
  - destruct (decide (r = q)) as [-> | Hn].
    + rewrite decide_True, get_set_register_eq by (done || apply list_elem_of_here); done.
    + rewrite decide_False, get_set_register_ne by
        (done || (rewrite elem_of_cons; intros [? | ?]; done)); done.
Qed.

Lemma get_double_set_registers rl vl d s : get_double d (set_registers rl vl s) = get_double d s.
Proof.
  revert vl s; induction rl as [| q rl IH]; intros [| v vl] s; cbn [set_registers]; try done.
  rewrite IH; apply get_double_set_register.
Qed.

(** The double registers after a list of writes. *)
Lemma set_dregisters_ok rl f s :
  Forall dreg rl -> (forall d, in_s 64 (f d)) ->
  exists s', set_dregisters rl (map f rl) s = Ok s' /\
    (forall d, get_double d s' = if decide (d ∈ rl) then f d else get_double d s) /\
    (forall r, get_register r s' = get_register r s) /\ pc_ s' = pc_ s.
Proof.
  intros Hd Hf; revert s; induction Hd as [| q rl Hq Hd IH]; intros s; cbn [set_dregisters map].
  { exists s; split_and!; done. }
  rewrite set_dregister_ok by done; cbn [obind].
  destruct (IH (put_double q (f q) s)) as (s' & -> & Hg & Hr & Hp); exists s'; split_and!; try done.
  intros d; rewrite Hg, get_put_double by done.
  destruct (decide (d ∈ q :: rl)) as [Hin | Hin]; rewrite elem_of_cons in Hin;
    destruct (decide (d ∈ rl)), (decide (d = q)); subst; tauto.
Qed.

Lemma get_dregisters_ok rl s :
  Forall dreg rl -> wf s -> get_dregisters rl s = Ok (map (fun d => get_double d s) rl).
Proof.
  intros Hd Hwf; induction Hd as [| q rl Hq Hd IH]; cbn [get_dregisters map]; [done |].
  rewrite get_dregister_ok, IH by done; done.
Qed.

(** * The call *)
Lemma Execute_ends host fuel s s' : Execute host fuel s = Ok s' -> pc_ s' = kEndSimulatingPC.
Proof.
  revert s; induction fuel as [| fuel IH]; intros s; cbn [Execute];
    (destruct (Z.eqb_spec (pc_ s) kEndSimulatingPC) as [E |];
      [intros H; injection H as <-; done |]); [discriminate |].
  destruct (step host s); [apply IH | discriminate].
Qed.

Lemma set_parameters_frame p0 p1 p2 p3 fp s s' :
  set_parameters p0 p1 p2 p3 fp s = Ok s' -> inv false s ->
  inv false s' /\
  (forall r, r ∈ SP :: callee_saved -> get_register r s' = get_register r s) /\
  (forall d, d ∈ callee_saved_d -> get_double d s' = get_double d s).
Proof.
  unfold set_parameters; destruct fp; intros H Hs.
  - injection H as <-; split_and!; [inv_solve | done |]; intros d Hd.
    unfold get_double; rewrite !freg_put.
    repeat (apply elem_of_cons in Hd as [-> | Hd]; [done |]); apply not_elem_of_nil in Hd; done.
  - injection H as <-; split_and!; [inv_solve | | intros; rewrite !get_double_set_register; done].
    intros r Hr; repeat (apply elem_of_cons in Hr as [-> | Hr];
      [rewrite !get_set_register_ne by done; done |]); apply not_elem_of_nil in Hr; done.
Qed.

Lemma callee_saved_ok :
  Forall (fun q => q <> 0) callee_saved /\ Forall dreg callee_saved_d /\
  (SP ∉ callee_saved) /\ (RA ∉ callee_saved).
Proof.
  split_and!.
  - repeat constructor; done.
  - repeat constructor; done.
  - rewrite <- (bool_decide_eq_false (SP ∈ callee_saved)); reflexivity.
  - rewrite <- (bool_decide_eq_false (RA ∈ callee_saved)); reflexivity.
Qed.

(** What the code after the run restores: [sp], the registers and the double
    registers of [s0]. *)
Lemma restore_ok s0 sp s s' :
  wf s0 -> in_s 32 sp ->
  set_dregisters callee_saved_d (map (fun d => get_double d s0) callee_saved_d)
    (set_registers callee_saved (map (fun r => get_register r s0) callee_saved) s) = Ok s' ->
  let s' := set_register SP sp s' in
  (get_register SP s' = sp) /\ pc_ s' = pc_ (set_registers callee_saved
    (map (fun r => get_register r s0) callee_saved) s) /\
  (forall r, r ∈ callee_saved -> get_register r s' = get_register r s0) /\
  (forall d, d ∈ callee_saved_d -> get_double d s' = get_double d s0).
Proof.
  intros Hwf Hsp; destruct callee_saved_ok as (Hz & Hd & HSP & _).
  destruct (set_dregisters_ok callee_saved_d (fun d => get_double d s0)
    (set_registers callee_saved (map (fun r => get_register r s0) callee_saved) s) Hd)
    as (s1 & -> & Hg & Hr & Hp).
  { intros d; apply pair64_range, wf_fregisters; done. }
  intros H; injection H as <-; cbv zeta; split_and!.
  - rewrite get_set_register_eq, to_s_id by (done || lia); done.
  - destruct (set_register_frame SP sp s1) as (-> & _); done.
  - intros r Hin; rewrite get_set_register_ne by (intros ->; done).
    rewrite Hr, get_set_registers, decide_True by done; apply to_s_id; [lia |].
    apply wf_registers; done.
  - intros d Hin; rewrite get_double_set_register, Hg, decide_True; done.
Qed.

Lemma set_registers_pc rl vl s : pc_ (set_registers rl vl s) = pc_ s.
Proof.
  revert vl s; induction rl as [| q rl IH]; intros [| v vl] s; cbn [set_registers]; try done.
  rewrite IH; apply set_register_frame.
Qed.

(** The registers of the caller in the state the call starts from. *)
Lemma caller_registers s s1 sp entry s' :
  (forall r, r ∈ SP :: callee_saved -> get_register r s1 = get_register r s) ->
  (forall d, d ∈ callee_saved_d -> get_double d s1 = get_double d s) ->
  let s2 := set_register RA kEndSimulatingPC (set_pc entry (set_register SP sp s1)) in
  get_register SP s' = get_register SP s ->
  (forall r, r ∈ callee_saved -> get_register r s' = get_register r s2) ->
  (forall d, d ∈ callee_saved_d -> get_double d s' = get_double d s2) ->
  (forall r, r ∈ SP :: callee_saved -> get_register r s' = get_register r s) /\
  (forall d, d ∈ callee_saved_d -> get_double d s' = get_double d s).
Proof.
  intros Hr1 Hd1 s2 HSP' Hr Hd; destruct callee_saved_ok as (_ & _ & HSP & HRA); split.
  - intros r [-> | Hin]%elem_of_cons; [done |].
    rewrite Hr by done; unfold s2; rewrite get_set_register_ne by (intros ->; done).
    change (get_register r (set_register SP sp s1) = get_register r s).
    rewrite get_set_register_ne by (intros ->; done); apply Hr1, list_elem_of_further; done.
  - intros d Hin; rewrite Hd by done; unfold s2; rewrite get_double_set_register.
    change (get_double d (set_register SP sp s1) = get_double d s).
    rewrite get_double_set_register; auto.
Qed.

(** C32. When a call into simulated code returns, the machine has stopped at the
    end-of-simulation pc, and the caller finds its stack pointer and every
    callee-saved register (eight general registers and six double registers) as
    they were before the call, whatever the callee did and whether the parameters
    were passed in general or in floating point registers. *)
Theorem Call_preserves host fuel entry p0 p1 p2 p3 fp_return fp_args s v s' :
  inv false s -> Call host fuel entry p0 p1 p2 p3 fp_return fp_args s = Ok (v, s') ->
  pc_ s' = kEndSimulatingPC /\
  (forall r, r ∈ SP :: callee_saved -> get_register r s' = get_register r s) /\
  (forall d, d ∈ callee_saved_d -> get_double d s' = get_double d s).
Proof.
  intros Hs; unfold Call; cbv zeta; set (sp := get_register SP s).
  destruct (set_parameters p0 p1 p2 p3 fp_args s) as [s1 |] eqn:E1; [cbn [obind] | discriminate].
  destruct (set_parameters_frame _ _ _ _ _ _ _ E1 Hs) as (Hs1 & Hr1 & Hd1).
  destruct (align_stack sp) as [sp' |]; [cbn [obind] | discriminate].
  set (s2 := set_register RA _ _).
  assert (inv false s2) as [Hwf2 _] by (unfold s2; inv_solve).
  rewrite get_dregisters_ok by (apply callee_saved_ok || done); cbn [obind].
  destruct (set_dregisters _ _ _) as [s3 |]; [cbn [obind] | discriminate].
  destruct (Execute host fuel s3) as [s4 |] eqn:E4; [cbn [obind] | discriminate].
  destruct (all_registers _ _ _); [| discriminate].
  destruct (all_dregisters _ _ _) as [[] |]; try discriminate; cbn [obind].
  destruct (set_dregisters _ (map (fun d => get_double d s2) _) _) as [s5 |] eqn:E5;
    [cbn [obind] | discriminate].
  destruct (restore_ok s2 sp s4 s5 Hwf2 (wf_registers s (proj1 Hs) SP) E5) as (HSP & Hp & Hr & Hd).
  intros H; assert (s' = set_register SP sp s5) as ->.
  { destruct fp_return; cbn [obind] in H; [| injection H; done].
    destruct (get_fregister F0 _); [cbn [obind] in H | discriminate H].
    destruct (get_fregister F1 _); [cbn [obind] in H | discriminate H]; injection H; done. }
  split; [rewrite Hp, set_registers_pc; eapply Execute_ends; eauto |].
  apply (caller_registers s s1 sp' entry); done.
Qed.
