(* ===== verification/MipsExclusiveProofs.v ===== *)
(** The load-linked / store-conditional guarantee of the exclusive access tags. *)
From stdpp Require Import base numbers list gmap.
From Stdlib Require Import ZArith Lia Bool.
From S2P Require Import Prelude Utils MipsConstants HostFloat MipsState MipsExclusive.
#[local] Open Scope Z_scope.

(** * Runs of the threads *)
(** The operations by their effect on the tags: a load-linked (or a failed
    compare-and-exchange), a store-conditional (or a successful
    compare-and-exchange), and the clearing of a reservation. *)
Inductive xop : Type :=
| LoadLinked (t a : Z)
| StoreConditional (t a : Z)
| Clear (t : Z).

Definition xstep (o : xop) (e : Exclusive) : outcome Exclusive :=
  match o with
  | LoadLinked t a => SetExclusiveAccess t a e
  | StoreConditional t a => let* (_, e) := HasExclusiveAccessAndOpen t a e in Ok e
  | Clear t => ClearExclusive t e
  end.

Inductive xrun : list xop -> Exclusive -> Prop :=
| xrun_new : xrun [] new_Exclusive
| xrun_step tr e o e' : xrun tr e -> xstep o e = Ok e' -> xrun (tr ++ [o]) e'.

(** * The tags *)
Definition used (tags : list AddressTag) : list Z :=
  filter (fun t => t <> 0) (map thread tags).

Record tags_ok (e : Exclusive) : Prop := mk_tags_ok {
  tags_length : length (exclusive_access_state_ e) = kNumAddressTags;
  tags_next : (next_address_tag_ e < kNumAddressTags)%nat;
  tags_unique : forall i j ti tj,
    exclusive_access_state_ e !! i = Some ti -> exclusive_access_state_ e !! j = Some tj ->
    thread ti = thread tj -> thread ti <> 0 -> i = j
}.

Lemma find_tag_spec t tags :
  (find_tag t tags <= length tags)%nat /\
  (forall j tag, tags !! j = Some tag -> thread tag = t -> (find_tag t tags <= j)%nat) /\
  ((find_tag t tags < length tags)%nat ->
   exists tag, tags !! find_tag t tags = Some tag /\ thread tag = t).
Proof.
  induction tags as [| tag tags (IH1 & IH2 & IH3)]; cbn [find_tag length];
    [split_and!; [lia | intros; lia | lia] |].
  destruct (Z.eqb_spec (thread tag) t) as [E | E]; split_and!.
  - lia.
  - intros; lia.
  - intros _; exists tag; done.
  - lia.
  - intros [| j] tag' Hj Ht; cbn in Hj; [injection Hj as ->; done |].
    apply le_n_S; eauto.
  - intros Hl; destruct IH3 as (tag' & ? & ?); [lia |]; exists tag'; done.
Qed.

(** The index [SetExclusiveAccess] writes to: no other tag is the thread's. *)
Lemma SetExclusiveAccess_ok t a e e' :
  SetExclusiveAccess t a e = Ok e' -> tags_ok e ->
  t <> 0 /\ exists i, (i < kNumAddressTags)%nat /\
    exclusive_access_state_ e' = <[i := mkTag t a]> (exclusive_access_state_ e) /\
    (next_address_tag_ e' < kNumAddressTags)%nat /\
    (forall j tag, exclusive_access_state_ e !! j = Some tag -> thread tag = t -> j = i).
Proof.
  unfold SetExclusiveAccess; destruct (Z.eqb_spec t 0) as [| Ht]; [discriminate |]; cbn [negb].
  intros H [Hl Hn Hu]; split; [done |].
  set (tags := exclusive_access_state_ e) in *.
  destruct (find_tag_spec t tags) as (F1 & F2 & F3).
  destruct (decide (find_tag t tags = kNumAddressTags)) as [E | E]; injection H as <-; cbn.
  - exists (next_address_tag_ e); split_and!; [done | done | case_decide; lia |].
    intros j tag Hj Htag; apply lookup_lt_Some in Hj as Hlt; pose proof (F2 j tag Hj Htag); lia.
  - exists (find_tag t tags); split_and!; [lia | done | done |].
    destruct F3 as (tag' & Hf & Ht'); [lia |]; intros j tag Hj Htag.
    eapply Hu; eauto; congruence.
Qed.

Lemma tags_ok_new : tags_ok new_Exclusive.
Proof.
  split; [done | unfold new_Exclusive, kNumAddressTags; cbn; lia |].
  intros i j ti tj Hi _ _ H0; cbn [exclusive_access_state_ new_Exclusive] in Hi.
  apply lookup_replicate in Hi as [-> _]; done.
Qed.

Lemma tags_ok_set t a e e' : SetExclusiveAccess t a e = Ok e' -> tags_ok e -> tags_ok e'.
Proof.
  intros H Hok; destruct (SetExclusiveAccess_ok t a e e' H Hok) as (Ht & i & Hi & E & Hn & Hu).
  destruct Hok as [Hl _ Huniq]; split; [rewrite E, length_insert; done | done |].
  intros j k tj tk Hj Hk Eq Hz; rewrite E in Hj, Hk.
  destruct (decide (j = i)) as [-> | Hji], (decide (k = i)) as [-> | Hki]; [done | | |].
  - rewrite list_lookup_insert_eq in Hj by lia; injection Hj as <-.
    rewrite list_lookup_insert_ne in Hk by done; symmetry; eapply Hu; eauto.
  - rewrite list_lookup_insert_eq in Hk by lia; injection Hk as <-.
    rewrite list_lookup_insert_ne in Hj by done; eapply Hu; eauto.
  - rewrite list_lookup_insert_ne in Hj, Hk by done; eapply Huniq; eauto.
Qed.

Lemma open_tag_thread t a tag : thread (open_tag t a tag) = thread tag.
Proof. unfold open_tag; repeat case_match; done. Qed.

Lemma tags_ok_open t a e b e' :
  HasExclusiveAccessAndOpen t a e = Ok (b, e') -> tags_ok e -> tags_ok e'.
Proof.
  unfold HasExclusiveAccessAndOpen; do 2 (case_match; [| discriminate]).
  intros E [Hl Hn Hu]; injection E as _ <-; split; cbn; [rewrite length_map; done | done |].
  intros i j ti tj Hi Hj; apply list_lookup_fmap_Some in Hi as (xi & -> & Hi).
  apply list_lookup_fmap_Some in Hj as (xj & -> & Hj); rewrite !open_tag_thread; eauto.
Qed.

Lemma tags_ok_run tr e : xrun tr e -> tags_ok e.
Proof.
  induction 1 as [| tr e o e' _ IH H]; [apply tags_ok_new |].
  destruct o as [t a | t a | t]; cbn in H; eauto using tags_ok_set.
  destruct (HasExclusiveAccessAndOpen t a e) as [[b e1] |] eqn:E; [| discriminate].
  injection H as <-; eauto using tags_ok_open.
Qed.

(** Whatever the threads do, every thread is associated to at most one
    address tag, and the round-robin index stays in the table. *)
Theorem one_tag_per_thread tr e :
  xrun tr e ->
  length (exclusive_access_state_ e) = kNumAddressTags /\
  (next_address_tag_ e < kNumAddressTags)%nat /\
  forall i j ti tj,
    exclusive_access_state_ e !! i = Some ti -> exclusive_access_state_ e !! j = Some tj ->
    thread ti = thread tj -> thread ti <> 0 -> i = j.
Proof. intros [Hl Hn Hu]%tags_ok_run; done. Qed.

(** * The guarantee *)
(** An operation that leaves the reservation of [a] by [t]: no store to [a] by
    anyone, and no operation of [t]. *)
Definition keeps (t a : Z) (o : xop) : Prop :=
  match o with
  | LoadLinked t' _ => t' <> t
  | StoreConditional t' a' => t' <> t /\ a' <> a
  | Clear t' => t' <> t
  end.

(** [t] linked [a], and the reservation was kept since. *)
Definition reserved (tr : list xop) (t a : Z) : Prop :=
  exists tr1 tr2, tr = tr1 ++ LoadLinked t a :: tr2 /\ Forall (keeps t a) tr2.

Lemma reserved_keeps tr t a o : reserved tr t a -> keeps t a o -> reserved (tr ++ [o]) t a.
Proof.
  intros (tr1 & tr2 & -> & H) Ho; exists tr1, (tr2 ++ [o]); split; [rewrite <- app_assoc; done |].
  apply Forall_app; auto.
Qed.

Definition backed (tr : list xop) (e : Exclusive) : Prop :=
  forall j tag, exclusive_access_state_ e !! j = Some tag -> addr tag <> 0 ->
    reserved tr (thread tag) (addr tag).

Lemma backed_set tr t a e e' o :
  SetExclusiveAccess t a e = Ok e' -> tags_ok e -> backed tr e ->
  (a <> 0 -> reserved (tr ++ [o]) t a) -> (forall t' a', t' <> t -> keeps t' a' o) ->
  backed (tr ++ [o]) e'.
Proof.
  intros H Hok Hb Hnew Hkeep j tag Hj Ha.
  destruct (SetExclusiveAccess_ok t a e e' H Hok) as (Ht & i & Hi & E & Hn & Hu).
  rewrite E in Hj; destruct (decide (j = i)) as [-> | Hji].
  - rewrite list_lookup_insert_eq in Hj by (rewrite (tags_length e Hok); lia).
    injection Hj as <-; cbn in *; auto.
  - rewrite list_lookup_insert_ne in Hj by done.
    apply reserved_keeps; [eauto | apply Hkeep]; intros Et; apply Hji; eauto.
Qed.

Lemma backed_run tr e : xrun tr e -> backed tr e.
Proof.
  induction 1 as [| tr e o e' Hrun IH H].
  { intros j tag Hj Ha; cbn [exclusive_access_state_ new_Exclusive] in Hj.
    apply lookup_replicate in Hj as [-> _]; done. }
  pose proof (tags_ok_run tr e Hrun) as Hok; destruct o as [t a | t a | t]; cbn in H.
  - eapply backed_set; eauto; cbn; [| congruence].
    intros _; exists tr, []; split; [done | constructor].
  - unfold HasExclusiveAccessAndOpen in H; do 2 (case_match; [| discriminate H]).
    injection H as <-; intros j tag Hj Ha; cbn in Hj.
    apply list_lookup_fmap_Some in Hj as (x & -> & Hx); unfold open_tag in *.
    destruct (Z.eqb_spec (thread x) t); [done |].
    destruct (Z.eqb_spec (addr x) a); [done |].
    apply reserved_keeps; [eauto | cbn; auto].
  - eapply backed_set; eauto; cbn; [done | congruence].
Qed.

(** C14. A store-conditional succeeds only if its thread linked the address
    before and since then no thread stored to the address (by a store-conditional
    or a compare-and-exchange) and the thread itself neither linked another
    address nor cleared its reservation; no interleaving of any number of threads
    breaks the atomicity of a load-linked / store-conditional pair. *)
Theorem store_conditional_atomic tr e t a e' :
  xrun tr e -> HasExclusiveAccessAndOpen t a e = Ok (true, e') -> reserved tr t a.
Proof.
  intros Hrun; unfold HasExclusiveAccessAndOpen.
  destruct (Z.eqb_spec t 0); [discriminate |]; destruct (Z.eqb_spec a 0); [discriminate |].
  intros E; injection E as E _; apply existsb_exists in E as (tag & Hin & Htag).
  unfold holds_tag in Htag; rewrite andb_true_iff, !Z.eqb_eq in Htag; destruct Htag as [<- <-].
  apply list_elem_of_In, list_elem_of_lookup in Hin as [j Hj].
  eapply backed_run; eauto.
Qed.

Lemma existsb_false {A} (f : A -> bool) l : (forall x, x ∈ l -> f x = false) -> existsb f l = false.
Proof.
  intros H; destruct (existsb f l) eqn:E; [| done].
  apply existsb_exists in E as (x & Hx & Ef); rewrite H in Ef; [done |].
  apply list_elem_of_In; done.
Qed.

(** A store-conditional right after the thread's load-linked of the same
    address performs the store and reports success (0); a second one, without a
    new load-linked, reports failure (1) and stores nothing. *)
Theorem load_linked_store_conditional tr e t a value value' s v e1 :
  xrun tr e -> a <> 0 -> ReadExclusiveW t a s e = Ok (v, e1) ->
  exists e2, WriteExclusiveW t a value s e1 =
    (let* s' := WriteW a value s in Ok (0, s', e2)) /\
  forall s', exists e3, WriteExclusiveW t a value' s' e2 = Ok (1, s', e3).
Proof.
  intros Hrun Ha; unfold ReadExclusiveW.
  destruct (SetExclusiveAccess t a e) as [e' |] eqn:E; [cbn [obind] | discriminate].
  destruct (ReadW a s); [cbn [obind] | discriminate]; intros H; injection H as _ <-.
  pose proof (tags_ok_run tr e Hrun) as Hok.
  destruct (SetExclusiveAccess_ok t a e e' E Hok) as (Ht & i & Hi & Et & _ & _).
  unfold WriteExclusiveW, HasExclusiveAccessAndOpen.
  rewrite (proj2 (Z.eqb_neq t 0)), (proj2 (Z.eqb_neq a 0)) by done; cbn [negb obind].
  rewrite (proj2 (existsb_exists (holds_tag t a) _)).
  - eexists; split; [reflexivity |]; intros s'; eexists; cbn [exclusive_access_state_].
    rewrite existsb_false; [reflexivity |]; intros x Hx.
    apply list_elem_of_fmap in Hx as (y & -> & _); unfold holds_tag, open_tag.
    destruct (Z.eqb_spec (thread y) t) as [-> |]; cbn [thread addr];
      [rewrite (proj2 (Z.eqb_neq 0 a)) by done; apply andb_false_r |].
    destruct (addr y =? a); cbn [thread addr]; rewrite (proj2 (Z.eqb_neq (thread y) t)) by done; done.
  - exists (mkTag t a); split; [| unfold holds_tag; cbn; rewrite !Z.eqb_refl; done].
    rewrite Et; apply list_elem_of_In, (list_elem_of_lookup_2 _ i), list_lookup_insert_eq.
    rewrite (tags_length e Hok); done.
Qed.
