(* ===== verification/MipsFarProofs.v ===== *)
(** Far branches: a branch over an absolute jump, whose target is relocated when
    the code is finalised. *)
From stdpp Require Import base numbers list gmap.
From Stdlib Require Import ZArith Lia Bool.
From S2P Require Import Prelude Utils MipsConstants HostFloat MipsState MipsSimulator.
From S2P Require Import MipsAssembler MipsLabels MipsMacros MipsEncoding MipsIsa MipsExec.
From S2P Require Import MipsMacroProofs MipsBranchProofs MipsBindProofs.
Import Instr.
#[local] Open Scope Z_scope.

(** * Branches on the floating point condition *)
Lemma fpu_branch_IType kind imm :
  fpu_branch_word kind imm = IType COP1 COP1_BC (b2z kind) imm.
Proof. destruct kind; reflexivity. Qed.

Lemma fpu_dispatch host d kind imm s :
  0 <= imm < 2 ^ 16 ->
  let w := int32 (fpu_branch_word kind imm) in
  dispatch host d w s = DoBranch d w (Bool.eqb (fcc0 s) kind) false s /\
  SImmField w = to_s 16 imm.
Proof.
  intros Himm; rewrite fpu_branch_IType.
  assert (reg5 COP1_BC) by (unfold reg5, COP1_BC; lia).
  assert (reg5 (b2z kind)) by (unfold reg5; destruct kind; cbn; lia).
  cbv zeta; name_word; rewrite SImmField_int16, Eimm; split; [| done].
  unfold dispatch, DecodeCop1; use_fields; rewrite (HasFormat_rs w Eop), Ers.
  change (COP1_BC >=? 16) with false; cbv iota.
  unfold DecodeCop1_sub; change Cop1SubField with RsField; rewrite Ers; eval_eqb.
  unfold exec_BC1; rewrite Bit16_rt, Bit17_rt, Bits18_rt, Ert.
  unfold fcc0; destruct kind; cbn [b2z]; eval_eqb;
    change (get_fcsr_condition_bit _) with 23; destruct (test_fcsr_bit 23 s); reflexivity.
Qed.

(** The words of a far jump. *)
Definition far_jump_words (offset : Z) (link : bool) : list Z :=
  [int32 (IType LUI R0 T9 (to_u 16 (High16Bits offset)));
   int32 (IType ORI T9 T9 (to_u 16 (Low16Bits offset)));
   int32 (if link then RType SPECIAL T9 R0 RA 0 JALR else RType SPECIAL T9 R0 R0 0 JR)].

Lemma EmitFarJump_ok offset link a a' :
  EmitFarJump offset link a = Ok a' ->
  buffer_ a' = buffer_ a ++ far_jump_words offset link /\ fixups_ a' = Size a :: fixups_ a.
Proof.
  unfold EmitFarJump, lui, ori, EmitRType; do 2 (case_match; [| discriminate]).
  do 2 (case_match; [cbn [obind] | discriminate]); cbv zeta.
  rewrite !(to_u_to_u 16); destruct link; intros E; injection E as <-; cbn;
    rewrite <- !app_assoc; done.
Qed.

(** * Relocation *)
(** A word with the immediate [x]: what the load-immediate patches write. *)
Lemma EncodeLoadImmediate_IType op rs rt imm x :
  reg5 rs -> reg5 rt -> 0 <= imm < 2 ^ 16 ->
  int32 (EncodeLoadImmediate x (int32 (IType op rs rt imm))) = int32 (IType op rs rt (x mod 2 ^ 16)).
Proof.
  intros Hs Ht Hi; unfold EncodeLoadImmediate.
  pose proof (Z.mod_pos_bound x (2 ^ 16) ltac:(lia)) as Hx.
  rewrite land_branch_mask; change kBranchOffsetMask with (Z.ones 16).
  rewrite <- Z.ldiff_land, Z.ldiff_ones_r, Z.shiftr_div_pow2, lor_shiftl_add by lia.
  rewrite !IType_sum by done; apply to_s_eq; [lia |].
  rewrite Z.add_mod, int32_upper, <- Z.add_mod by lia; do 2 f_equal.
  replace (op * 2 ^ 26 + rs * 2 ^ 21 + rt * 2 ^ 16 + imm)
    with (imm + (op * 2 ^ 10 + rs * 2 ^ 5 + rt) * 2 ^ 16) by lia.
  rewrite Z.div_add, (Z.div_small imm) by lia; lia.
Qed.

Lemma land_mask_IType op rs rt imm :
  reg5 rs -> reg5 rt -> 0 <= imm < 2 ^ 16 ->
  Z.land (int32 (IType op rs rt imm)) kBranchOffsetMask = imm.
Proof.
  intros Hs Ht Hi; rewrite land_branch_mask, IType_sum by done.
  destruct (to_s_cong 32 (op * 2 ^ 26 + rs * 2 ^ 21 + rt * 2 ^ 16 + imm)) as [k ->]; [lia |].
  replace (op * 2 ^ 26 + rs * 2 ^ 21 + rt * 2 ^ 16 + imm + k * 2 ^ 32)
    with (imm + (op * 2 ^ 10 + rs * 2 ^ 5 + rt + k * 2 ^ 16) * 2 ^ 16) by lia.
  rewrite Z_mod_plus_full, Z.mod_small; lia.
Qed.

(** The offset a far jump was emitted with is read back. *)
Lemma DecodeLoadImmediate_far offset :
  in_s 32 offset ->
  DecodeLoadImmediate (int32 (IType ORI T9 T9 (to_u 16 (Low16Bits offset))))
    (int32 (IType LUI R0 T9 (to_u 16 (High16Bits offset)))) = offset.
Proof.
  intros Ho; assert (reg5 T9) by (unfold reg5, T9, R25; lia).
  assert (reg5 R0) by (unfold reg5, R0; lia).
  unfold DecodeLoadImmediate; rewrite !land_mask_IType by (done || (apply to_u_range; lia)).
  rewrite Low16Bits_mod, High16Bits_div, Z.shiftl_mul_pow2 by (done || lia).
  rewrite lor_int32_low by (apply Z.mod_pos_bound; lia); apply halves; done.
Qed.

(** Relocating a far jump: the patch of the two words of the load. *)
Lemma PatchFarJump_far start position offset region :
  in_s 32 offset ->
  region_get position region = int32 (IType LUI R0 T9 (to_u 16 (High16Bits offset))) ->
  region_get (position + kInstrSize) region
    = int32 (IType ORI T9 T9 (to_u 16 (Low16Bits offset))) ->
  PatchFarJump_Process start position region =
  let dest := int32 (start + offset) in
  Ok (<[word_index (position + kInstrSize)
        := int32 (IType ORI T9 T9 (to_u 16 (Low16Bits dest)))]>
      (<[word_index position := int32 (IType LUI R0 T9 (to_u 16 (High16Bits dest)))]> region)).
Proof.
  intros Ho Hh Hl; unfold PatchFarJump_Process; rewrite Hh, Hl, DecodeLoadImmediate_far by done.
  assert (reg5 T9) by (unfold reg5, T9, R25; lia); assert (reg5 R0) by (unfold reg5, R0; lia).
  rewrite !IType_opcode by (done || (apply to_u_range; lia)).
  change ((LUI =? LUI) && (ORI =? ORI)) with true; cbv iota zeta; unfold region_set.
  set (dest := int32 (start + offset)).
  assert (in_s 32 dest) by (apply to_s_range; lia).
  rewrite !EncodeLoadImmediate_IType by (done || (apply to_u_range; lia)).
  rewrite land_branch_mask, Zmod_mod, Low16Bits_mod, High16Bits_div by done.
  rewrite Z.shiftr_div_pow2 by lia; done.
Qed.

(** * Far branches to a bound label *)
Definition br_opposite (i : branch) : branch :=
  match i with
  | BrEq rs rt => BrNe rs rt | BrNe rs rt => BrEq rs rt
  | BrLez rs => BrGtz rs | BrGtz rs => BrLez rs
  | BrLtz rs => BrGez rs | BrGez rs => BrLtz rs
  end.

Lemma br_opposite_ok i : br_ok i -> br_ok (br_opposite i).
Proof. destruct i; done. Qed.

Lemma br_opposite_taken i R : br_taken (br_opposite i) R = negb (br_taken i R).
Proof. destruct i; cbn; rewrite ?negb_involutive; try done; lia. Qed.

(** The words of a far branch: the branch [w] over the far jump. *)
Definition far_words (w offset : Z) : list Z :=
  w :: kNopInstruction :: far_jump_words offset false ++ [kNopInstruction].

Definition far_branch_words (i : branch) (offset : Z) : list Z :=
  far_words (int32 (br_word (br_opposite i) 4)) offset.

Lemma far_emission i l a a' l' :
  IsBound l = true -> use_far_branches a = true ->
  CanEncodeBranchOffset (branch_dest (- position_ l - kWordSize) a) = Ok false ->
  br_emit i l a = Ok (a', l') ->
  l' = l /\ buffer_ a' = buffer_ a ++ far_branch_words i (- position_ l - kWordSize) /\
  fixups_ a' = Size a + 8 :: fixups_ a.
Proof.
  intros Hb Hfar Hc H; unfold br_emit, beq, bne, blez, bgtz, bltz, bgez, not_in_delay_slot,
    with_delay_nop, EmitBranch, EmitRegImmBranch in H.
  destruct i; (destruct (negb (in_delay_slot_ a)); [| discriminate H]); rewrite Hb in H;
    rewrite (Position_bound l Hb) in H; cbn [obind] in H; rewrite Hc, Hfar in H;
    cbn [obind andb negb] in H;
    change (OppositeBranchOpcode BEQ) with (@Ok Z BNE) in H;
    change (OppositeBranchOpcode BNE) with (@Ok Z BEQ) in H;
    change (OppositeBranchOpcode BLEZ) with (@Ok Z BGTZ) in H;
    change (OppositeBranchOpcode BGTZ) with (@Ok Z BLEZ) in H;
    change (OppositeBranchNoLink BLTZ) with (@Ok Z BGEZ) in H;
    change (OppositeBranchNoLink BGEZ) with (@Ok Z BLTZ) in H; cbn [obind] in H;
    unfold EmitFarBranch, EmitFarRegImmBranch in H;
    (destruct (negb (in_delay_slot_ a)); [| discriminate H]);
    change ((BGEZ =? BLTZAL) || (BGEZ =? BGEZAL)) with false in H;
    change ((BLTZ =? BLTZAL) || (BLTZ =? BGEZAL)) with false in H;
    (destruct (EmitFarJump _ false _) as [a1 |] eqn:E; [cbn [obind] in H | discriminate H]);
    injection H as <- <-; apply EmitFarJump_ok in E as [E1 E2]; cbn in *;
    rewrite E1, E2; unfold Size; cbn; rewrite !length_app; cbn;
    (split_and!; [done | rewrite <- !app_assoc; done | f_equal; lia]).
Qed.

(** The jump through a register, with a nop in its delay slot. *)
Lemma step_jr host r s :
  reg5 r -> wf s -> delay_slot_ s = false -> code_range (pc_ s) 2 ->
  code_at (pc_ s) [int32 (RType SPECIAL r R0 R0 0 JR); kNopInstruction] s ->
  step host s = Ok (after_branch (uint32 (get_register r s)) 2 s).
Proof.
  intros Hr Hwf Hd [Hlo Hhi] (Hw & Hn & _); rewrite (step_fetch host s _ Hlo Hw).
  assert (reg5 R0) by (unfold reg5, R0; lia); assert (reg5 0) by (unfold reg5; lia).
  unfold decode_step; revert Hw; name_word; intros _.
  unfold dispatch, DecodeSpecial; use_fields; unfold exec_JR, rs_reg; use_fields.
  cbn [delay_slot_ tick with_icount]; rewrite Hd; cbn [negb].
  rewrite delay_slot_nop by (cbn; done || lia); cbn [obind].
  unfold after_branch, with_pc, tick, with_icount; cbn; f_equal; f_equal.
  - change kInstrSize with 4; rewrite to_u_add_l, Z.sub_add, to_u_to_u; done.
  - rewrite to_u_add_l; f_equal; lia.
Qed.

Lemma step_nop host s :
  wf s -> 65536 <= pc_ s -> fetch (pc_ s) s = Ok kNopInstruction ->
  step host s = Ok (advance 1 s).
Proof.
  intros Hwf Hlo Hf; rewrite (step_fetch host s _ Hlo Hf); unfold decode_step.
  assert (forall d q, dispatch host d kNopInstruction q = Ok q) as -> by (intros; reflexivity).
  done.
Qed.

Lemma step_word host i a w s :
  emit i a = Ok (Emit w a) -> operands_ok i -> is_Some (alu i) -> wf s -> 65536 <= pc_ s ->
  fetch (pc_ s) s = Ok (int32 w) -> step host s = Ok (advance 1 (alu_step i s)).
Proof.
  intros He Hok Ha Hwf Hlo Hf; destruct (emit_decode i a _ Hok (alu_simulated i Ha) He) as [w' Hw'].
  pose proof Hw' as [E _]; apply (f_equal buffer_) in E; cbn in E; apply app_inj_tail in E as [_ E].
  eapply step_alu; eauto; rewrite <- E; done.
Qed.

(** Loading an address in two instructions. *)
Lemma steps_load_T9 host dest s :
  in_s 32 dest -> wf s -> code_range (pc_ s) 2 ->
  code_at (pc_ s) [int32 (IType LUI R0 T9 (to_u 16 (High16Bits dest)));
                   int32 (IType ORI T9 T9 (to_u 16 (Low16Bits dest)))] s ->
  steps host 2 s = Ok (advance 2 (set_register T9 dest s)).
Proof.
  intros Hd Hwf [Hlo Hhi] (H1 & H2 & _); assert (reg5 T9) by (unfold reg5, T9, R25; lia).
  rewrite Low16Bits_mod, High16Bits_div in * by done.
  set (h := (dest / 2 ^ 16) mod 2 ^ 16) in *; set (l := dest mod 2 ^ 16) in *.
  assert (0 <= h < 2 ^ 16) as Hh by (apply Z.mod_pos_bound; lia).
  assert (0 <= l < 2 ^ 16) as Hl by (apply Z.mod_pos_bound; lia).
  assert (forall x, 0 <= x < 2 ^ 16 -> IsUint kImmBits x = true /\ to_u 16 x = x) as Hu.
  { intros x Hx; split; [| apply to_u_id; done].
    unfold IsUint; change (Z.shiftl 1 kImmBits) with 65536; lia. }
  destruct (Hu h Hh) as [Uh Th], (Hu l Hl) as [Ul Tl].
  set (a := new_Assembler false false); cbn [steps].
  rewrite (step_word host (Lui T9 h) a (IType LUI R0 T9 h)); try done;
    [| cbn; unfold lui; rewrite Uh, Th; done]; cbn [obind].
  set (s1 := advance 1 _).
  assert (pc_ s1 = pc_ s + 4) as Epc.
  { unfold s1, alu_step, advance; cbn; rewrite (to_u_id 32) by (split; lia); lia. }
  rewrite (step_word host (Ori T9 T9 l) a (IType ORI T9 T9 l) s1); try done.
  - cbn [obind]; f_equal; unfold s1, alu_step; cbn [alu].
    rewrite set_register_advance, advance_advance, get_register_advance.
    rewrite set_set_register, get_set_register_eq, lor_int32_low by done.
    unfold h, l; rewrite (halves dest Hd); done.
  - cbn; unfold ori; rewrite Ul, Tl; done.
  - apply wf_advance, wf_alu_step; done.
  - lia.
  - rewrite Epc, <- H2; apply fetch_memory; done.
Qed.

Lemma after_branch_fields t n s :
  pc_ (after_branch t n s) = t /\ memory (after_branch t n s) = memory s /\
  delay_slot_ (after_branch t n s) = delay_slot_ s /\ regs (after_branch t n s) = regs s.
Proof. done. Qed.

Lemma wf_after_branch t n s : wf s -> in_u 32 t -> wf (after_branch t n s).
Proof. intros [Hr Hf Hh Hl Hc Hp Hi] Ht; split; try done; apply to_u_range; lia. Qed.

Lemma only_changes_T9 v s : only_changes [T9] s (set_register T9 v s).
Proof. auto with mips. Qed.

(** The far jump with the target [dest]. *)
Lemma far_jump_run dest host s :
  in_s 32 dest -> wf s -> delay_slot_ s = false -> code_range (pc_ s) 4 ->
  code_at (pc_ s) (far_jump_words dest false ++ [kNopInstruction]) s ->
  steps host 3 s = Ok (after_branch (uint32 dest) 4 (set_register T9 dest s)).
Proof.
  intros Hd Hwf Hds [Hlo Hhi] (H3 & H4 & H5 & H6 & _); change 3%nat with (2 + 1)%nat.
  rewrite steps_app, (steps_load_T9 host dest s) by (done || (split; lia)).
  cbn [obind steps]; set (s2 := advance 2 (set_register T9 dest s)).
  destruct (set_register_frame T9 dest s) as (Ep & Ei & Em & _ & _ & _ & _ & Ed).
  assert (pc_ s2 = pc_ s + 8) as Epc.
  { unfold s2, advance; cbn [pc_ with_pc]; rewrite Ep, (to_u_id 32) by (split; lia); lia. }
  rewrite (step_jr host T9 s2).
  - cbn [obind]; unfold s2; rewrite get_register_advance, get_set_register_eq, to_u_to_s by
      (done || lia).
    unfold after_branch, advance, with_pc, with_icount; cbn; do 2 f_equal.
    rewrite to_u_add_l; f_equal; lia.
  - unfold reg5, T9, R25; lia.
  - apply wf_advance, wf_set_register; done.
  - cbn; done.
  - rewrite Epc; split; lia.
  - rewrite Epc; cbn [code_at]; replace (pc_ s + 8) with (pc_ s + 4 + 4) by lia.
    split_and!; [rewrite <- H5 | rewrite <- H6 |]; try apply fetch_memory; done.
Qed.

(** The code of a far branch with the target [dest], whose first word branches over the
    jump where [over] holds. *)
Lemma far_words_run w over dest host s :
  (forall d, dispatch host d w (tick s) = DoBranch d w over false (tick s)) -> SImmField w = 4 ->
  in_s 32 dest -> wf s -> delay_slot_ s = false -> code_range (pc_ s) 6 ->
  code_at (pc_ s) (far_words w dest) s ->
  exists n k s', only_changes [T9] s s' /\
    steps host n s = Ok (after_branch (if over then pc_ s + 24 else uint32 dest) k s').
Proof.
  intros HD HS Hd Hwf Hds [Hlo Hhi] (H1 & H2 & H3 & H4 & H5 & H6 & _).
  assert (step host s = Ok (after_branch
    (if over then uint32 (pc_ s + 20) else pc_ s + 8) 2 s)) as Hst.
  { rewrite (step_branch host s w over) by (done || (split; lia)).
    rewrite HS; replace (pc_ s + 4 + 4 * 4) with (pc_ s + 20) by lia; done. }
  destruct over.
  - rewrite (to_u_id 32) in Hst by (split; lia).
    exists 2%nat, 3, s; split; [auto with mips |]; cbn [steps]; rewrite Hst; cbn [obind].
    rewrite step_nop; cbn [obind].
    + unfold after_branch, advance, with_pc, with_icount; cbn; f_equal; f_equal.
      * rewrite (to_u_id 32) by (split; lia); lia.
      * rewrite to_u_add_l; f_equal; lia.
    + apply wf_after_branch; [done | split; lia].
    + cbn; lia.
    + cbn [pc_ after_branch with_pc]; replace (pc_ s + 20) with (pc_ s + 4 + 4 + 4 + 4 + 4) by lia.
      rewrite <- H6; apply fetch_memory; done.
  - set (s1 := after_branch (pc_ s + 8) 2 s) in *.
    assert (wf s1) as Hwf1 by (apply wf_after_branch; [done | split; lia]).
    exists 4%nat, (2 + 4), (set_register T9 dest s); split; [auto with mips |].
    change (steps host 4 s) with (let* q := step host s in steps host 3 q).
    rewrite Hst; cbn [obind].
    rewrite (far_jump_run dest host s1); [| done | done | done | split; cbn; lia |].
    + unfold after_branch, with_pc, with_icount, set_register; cbn; do 2 f_equal.
      rewrite to_u_add_l; f_equal; lia.
    + cbn [pc_ s1 after_branch with_pc]; replace (pc_ s + 8) with (pc_ s + 4 + 4) by lia.
      eapply code_at_memory; [| split_and!; eauto]; done.
Qed.

Lemma word_index_after a k : word_index (Size a + 4 * Z.of_nat k) = (length (buffer_ a) + k)%nat.
Proof.
  unfold word_index, Size; replace (4 * Z.of_nat (length (buffer_ a)) + 4 * Z.of_nat k)
    with (Z.of_nat (length (buffer_ a) + k) * 4) by lia.
  rewrite Z.div_mul, Nat2Z.id by lia; done.
Qed.

Lemma region_get_after a ws k :
  region_get (Size a + 4 * Z.of_nat k) (buffer_ a ++ ws) = nth k ws 0.
Proof.
  unfold region_get; rewrite word_index_after, app_nth2 by lia; f_equal; lia.
Qed.

(** Relocating a far branch that was emitted last. *)
Lemma PatchFarJump_branch start w offset a :
  in_s 32 offset ->
  PatchFarJump_Process start (Size a + 8) (buffer_ a ++ far_words w offset)
  = Ok (buffer_ a ++ far_words w (int32 (start + offset))).
Proof.
  intros Ho; change 8 with (4 * Z.of_nat 2).
  assert (Size a + 4 * Z.of_nat 2 + kInstrSize = Size a + 4 * Z.of_nat 3) as E3
    by (change kInstrSize with 4; lia).
  rewrite (PatchFarJump_far start _ offset); [| done | |]; rewrite ?E3.
  - cbv zeta; rewrite !word_index_after, !insert_app_r; done.
  - rewrite region_get_after; done.
  - rewrite region_get_after; done.
Qed.

(** A far branch that was emitted last, relocated and run. *)
Lemma far_relocated_run w over offset a a' start region host s :
  (forall d, dispatch host d w (tick s) = DoBranch d w over false (tick s)) -> SImmField w = 4 ->
  in_s 32 offset -> buffer_ a' = buffer_ a ++ far_words w offset ->
  PatchFarJump_Process start (Size a + 8) (buffer_ a') = Ok region ->
  wf s -> delay_slot_ s = false -> pc_ s = start + Size a -> code_range (pc_ s) 6 ->
  code_at start region s ->
  Size a' = Size a + 24 /\ exists n k s', only_changes [T9] s s' /\
    steps host n s
    = Ok (after_branch (if over then start + Size a' else uint32 (start + offset)) k s').
Proof.
  intros HD HS Ho Hbuf HP Hwf Hds Hpc Hr Hcode.
  rewrite Hbuf, PatchFarJump_branch in HP by done; injection HP as <-.
  assert (Size a' = Size a + 24) as HS' by (unfold Size; rewrite Hbuf, length_app; cbn; lia).
  split; [done |]; apply code_at_app in Hcode as [_ Hcode].
  change (4 * Z.of_nat (length (buffer_ a))) with (Size a) in Hcode; rewrite <- Hpc in Hcode.
  destruct (far_words_run w over _ host s HD HS ltac:(apply to_s_range; lia) Hwf Hds Hr Hcode)
    as (n & k & s' & Hch & Hst).
  exists n, k, s'; split; [done |]; rewrite Hst, to_u_to_s, HS', Hpc by lia.
  replace (start + Size a + 24) with (start + (Size a + 24)) by lia; done.
Qed.

(** C25. A far [beq], [bne], [blez], [bgtz], [bltz] or [bgez] to a label that is bound
    and out of the range of the 16-bit offset goes to the label: it registers a fixup,
    and once the fixup is applied for code loaded at [start], running the branch reaches
    the absolute address of the label exactly where its condition holds and the code
    behind the branch otherwise, changing [T9] only.  The branches on the floating point
    condition are not among them: these go the other way ([far_fpu_branch_inverted]); nor
    is [bal], which a far branch turns into a jump that sets no return address. *)
Theorem far_branch_runs i l a a' l' start region host s :
  br_ok i -> IsBound l = true -> use_far_branches a = true ->
  CanEncodeBranchOffset (branch_dest (- position_ l - kWordSize) a) = Ok false ->
  in_s 32 (- position_ l - kWordSize) -> br_emit i l a = Ok (a', l') ->
  PatchFarJump_Process start (Size a + 8) (buffer_ a') = Ok region ->
  wf s -> delay_slot_ s = false -> pc_ s = start + Size a -> code_range (pc_ s) 6 ->
  code_at start region s ->
  fixups_ a' = Size a + 8 :: fixups_ a /\ Size a' = Size a + 24 /\
  exists n k s', only_changes [T9] s s' /\
    steps host n s = Ok (after_branch
      (if br_taken i (regs s) then uint32 (start + (- position_ l - kWordSize))
       else start + Size a') k s').
Proof.
  intros Hok Hb Hfar Hc Ho H HP Hwf Hds Hpc Hr Hcode.
  destruct (far_emission i l a a' l' Hb Hfar Hc H) as (_ & Hbuf & Hfix).
  pose proof (br_dispatch host (ExecuteDelaySlot host kNesting) (br_opposite i) 4 (tick s)
    (br_opposite_ok i Hok) ltac:(lia)) as [_ HS].
  destruct (far_relocated_run (int32 (br_word (br_opposite i) 4)) (negb (br_taken i (regs s)))
    (- position_ l - kWordSize) a a'    start region host s) as (HS' & n & k & s' & Hch & Hst); try done.
  { intros d; rewrite <- br_opposite_taken.
    apply (br_dispatch host d (br_opposite i) 4 (tick s)); [apply br_opposite_ok; done | lia]. }
  split_and!; [done | done |]; exists n, k, s'; split; [done |]; rewrite Hst.
  destruct (br_taken i (regs s)); done.
Qed.

(** * Far branches on the floating point condition *)
Definition fpu_branch (kind : bool) : asm_label := if kind then bc1t else bc1f.

Lemma fpu_far_emission kind l a a' l' :
  IsBound l = true -> use_far_branches a = true ->
  CanEncodeBranchOffset (branch_dest (- position_ l - kWordSize) a) = Ok false ->
  fpu_branch kind l a = Ok (a', l') ->
  buffer_ a' = buffer_ a ++ far_words (int32 (fpu_branch_word kind 4)) (- position_ l - kWordSize).
Proof.
  intros Hb Hfar Hc H.
  assert (with_delay_nop (EmitFpuBranch kind l a) = Ok (a', l')) as H' by (destruct kind; exact H).
  revert H'; clear H; unfold with_delay_nop, EmitFpuBranch; case_match; [| discriminate].
  rewrite Hb, (Position_bound l Hb); cbn [obind]; rewrite Hc, Hfar; cbn [obind andb negb].
  unfold EmitFarFpuBranch; case_match; [| discriminate].
  destruct (EmitFarJump _ false _) as [a1 |] eqn:E; [cbn [obind] | discriminate].
  intros H'; injection H' as <- <-; apply EmitFarJump_ok in E as [E _]; cbn in *; rewrite E.
  rewrite <- !app_assoc; done.
Qed.

(** C26. A far branch on the floating point condition, [bc1t] or [bc1f], to a label that is
    bound and out of the range of the 16-bit offset goes to the label on the opposite
    condition: once its fixup is applied for code loaded at [start], running it reaches
    the code behind the branch where the condition of the branch holds ([bc1t]: the
    condition bit is set; [bc1f]: it is clear), and the absolute address of the label
    where it does not hold. *)
Theorem far_fpu_branch_inverted kind l a a' l' start region host s :
  IsBound l = true -> use_far_branches a = true ->
  CanEncodeBranchOffset (branch_dest (- position_ l - kWordSize) a) = Ok false ->
  in_s 32 (- position_ l - kWordSize) -> fpu_branch kind l a = Ok (a', l') ->
  PatchFarJump_Process start (Size a + 8) (buffer_ a') = Ok region ->
  wf s -> delay_slot_ s = false -> pc_ s = start + Size a -> code_range (pc_ s) 6 ->
  code_at start region s ->
  exists n k s', only_changes [T9] s s' /\
    steps host n s = Ok (after_branch
      (if Bool.eqb (fcc0 s) kind then start + Size a'
       else uint32 (start + (- position_ l - kWordSize))) k s').
Proof.
  intros Hb Hfar Hc Ho H HP Hwf Hds Hpc Hr Hcode.
  pose proof (fpu_far_emission kind l a a' l' Hb Hfar Hc H) as Hbuf.
  destruct (fpu_dispatch host (ExecuteDelaySlot host kNesting) kind 4 (tick s) ltac:(lia)) as [_ HS].
  destruct (far_relocated_run (int32 (fpu_branch_word kind 4)) (Bool.eqb (fcc0 s) kind)
    (- position_ l - kWordSize) a a'    start region host s) as (_ & Hrun); try done.
  intros d; apply (fpu_dispatch host d kind 4 (tick s)); lia.
Qed.
