(* ===== verification/MipsWitnesses.v ===== *)
(** Concrete runs of the MIPS components: code assembled, loaded into the
    memory of a new simulator and executed, at inputs where the hypotheses of the
    theorems hold. *)
From stdpp Require Import base numbers list gmap.
From Stdlib Require Import ZArith Lia Bool.
From S2P Require Import Prelude Utils UtilsProofs MipsConstants HostFloat MipsState.
From S2P Require Import MipsSimulator MipsCalls MipsExclusive MipsAssembler MipsLabels.
From S2P Require Import MipsMacros MipsEncoding MipsIsa MipsExec MipsMacroProofs.
From S2P Require Import MipsBranchProofs MipsConditionProofs MipsBindProofs MipsInvariants.
From S2P Require Import MipsCallProofs MipsExclusiveProofs MipsFarProofs.
Import Instr.
#[local] Open Scope Z_scope.

(** * Loading code *)
Fixpoint word_bytes (n : nat) (w : Z) : list Z :=
  match n with
  | O => []
  | S n => w mod 256 :: word_bytes n (w / 256)
  end.

Definition mem_of (start : Z) (ws : list Z) : gmap Z Z :=
  list_to_map (imap (fun i b => (start + Z.of_nat i, b)) (concat (map (word_bytes 4) ws))).

(** A new simulator with the memory [mem], about to execute at [pc]. *)
Definition started (mem : gmap Z Z) (pc : Z) (rl : list (Z * Z)) : Simulator :=
  fold_left (fun s rv => set_register rv.1 rv.2 s) rl
    (with_pc (uint32 pc) (new_Simulator 0 0 0x80000 mem)).

Lemma inv_started mem pc rl : inv false (started mem pc rl).
Proof.
  unfold started; set (s := with_pc _ _).
  assert (inv false s) as Hs by (apply inv_pc, inv_new; done); clearbody s.
  revert s Hs; induction rl as [| rv rl IH]; intros s Hs; cbn [fold_left]; [exact Hs |].
  apply IH, inv_set_register, Hs.
Qed.

(** A new simulator with [ws] at [start]. *)
Definition loaded (start pc : Z) (ws : list Z) (rl : list (Z * Z)) : Simulator :=
  started (mem_of start ws) pc rl.

Lemma inv_loaded start pc ws rl : inv false (loaded start pc ws rl).
Proof. apply inv_started. Qed.

Definition asm0 : Assembler := new_Assembler false false.

(** A host whose functions return without effect. *)
Definition host0 : Host :=
  mkHost (fun a => mkRedirection 0 kLeafRuntimeCall 0 a) 0 (fun _ _ s => Returned 0 s).

#[export] Instance host0_invariant : HostInvariant host0.
Proof. intros f args d s Hs; exact Hs. Qed.

Ltac reg5_done := unfold reg5, ZR, R0; lia.

(** * Assembler and simulator *)
(** [addu t0, t1, t2], which is executed, and [mov.s f2, f4], which is not. *)
Lemma assembler_simulator_agree_witness :
  (operands_ok (Addu 8 9 10) /\
   exists w, emit (Addu 8 9 10) asm0 = Ok (Emit w asm0) /\
     forall host d s, wf s -> dispatch host d (int32 w) s = isa (Addu 8 9 10) s) /\
  (operands_ok (Movs 2 4) /\
   exists w, emit (Movs 2 4) asm0 = Ok (Emit w asm0) /\
     forall host d s, wf s -> dispatch host d (int32 w) s = Err AssertionFailed).
Proof.
  split.
  - assert (operands_ok (Addu 8 9 10)) as Hok by (cbn; unfold reg5; lia); split; [exact Hok |].
    destruct (emit (Addu 8 9 10) asm0) as [a' |] eqn:E; [| discriminate E].
    destruct (assembler_simulator_agree (Addu 8 9 10) asm0 a' Hok E) as (w & -> & Hw).
    exists w; split; [reflexivity | exact Hw].
  - assert (operands_ok (Movs 2 4)) as Hok by (cbn; unfold reg5; lia); split; [exact Hok |].
    destruct (emit (Movs 2 4) asm0) as [a' |] eqn:E; [| discriminate E].
    destruct (assembler_simulator_agree (Movs 2 4) asm0 a' Hok E) as (w & -> & Hw).
    exists w; split; [reflexivity | exact Hw].
Defined.

(** [LoadImmediate(t0, 0x12345678)], assembled and run. *)
Definition load_code : list Z := [0x3c081234; 0x35085678].

Lemma LoadImmediate_correct_witness :
  exists a', LoadImmediate 8 0x12345678 asm0 = Ok a' /\ buffer_ a' = load_code /\
  exists s', steps host0 2 (loaded 0x20000 0x20000 load_code []) = Ok s' /\
    get_register 8 s' = 0x12345678.
Proof.
  assert (reg5 8) as H8 by (unfold reg5; lia).
  assert (in_s 32 0x12345678) as Hv by (unfold in_s; lia).
  destruct (LoadImmediate 8 0x12345678 asm0) as [a' |] eqn:E; [| discriminate E].
  exists a'; split; [reflexivity |].
  assert (buffer_ a' = load_code) as Hb by (vm_compute in E; injection E as <-; reflexivity).
  split; [exact Hb |].
  destruct (LoadImmediate_correct 8 0x12345678 H8 Hv asm0 a' E) as (ws & Hws & _ & Hrun).
  change (buffer_ asm0) with (@nil Z) in Hws; cbn [app] in Hws; rewrite Hb in Hws; subst ws.
  eexists; split; [apply Hrun |].
  - apply inv_loaded.
  - vm_compute; split; congruence.
  - vm_compute; repeat split.
  - vm_compute; reflexivity.
Defined.

(** [AdduDetectOverflow(t0, t1, t2, t3)]: the largest integer plus one. *)
Definition add_code : list Z := [0x012a4021; 0x01095826; 0x010a0826; 0x002b5824].
Definition add_state : Simulator :=
  loaded 0x20000 0x20000 add_code [(9, 2147483647); (10, 1)].

Lemma AdduDetectOverflow_correct_witness :
  exists a', AdduDetectOverflow 8 9 10 11 kNoRegister asm0 = Ok a' /\ buffer_ a' = add_code /\
  exists s', steps host0 4 add_state = Ok (advance 4 s') /\
    detects 8 11 (2147483647 + 1) [TMP] add_state s'.
Proof.
  destruct (AdduDetectOverflow 8 9 10 11 kNoRegister asm0) as [a' |] eqn:E; [| discriminate E].
  exists a'; split; [reflexivity |].
  assert (buffer_ a' = add_code) as Hb by (vm_compute in E; injection E as <-; reflexivity).
  split; [exact Hb |].
  destruct (AdduDetectOverflow_correct 8 9 10 11 kNoRegister
    ltac:(unfold reg5; lia) ltac:(unfold reg5; lia) ltac:(unfold reg5; lia) ltac:(unfold reg5; lia)
    ltac:(discriminate) ltac:(discriminate) ltac:(discriminate) ltac:(discriminate)
    ltac:(discriminate) asm0 a' E) as (ws & Hws & _ & Hrun).
  change (buffer_ asm0) with (@nil Z) in Hws; cbn [app] in Hws; rewrite Hb in Hws; subst ws.
  apply Hrun; [apply inv_loaded | vm_compute; split; congruence | vm_compute; repeat split].
Defined.

(** Names what a macro assembles to, as the words [code]. *)
Ltac assembled m code a' E Hb :=
  destruct m as [a' |] eqn:E; [| discriminate E];
  assert (buffer_ a' = code) as Hb by (vm_compute in E; injection E as <-; reflexivity).

Ltac run_from Hws Hb ws :=
  change (buffer_ asm0) with (@nil Z) in Hws; cbn [app] in Hws; rewrite Hb in Hws; subst ws.

Ltac in_range := unfold reg5; lia.

(** [SubuDetectOverflow(t0, t1, t2, t3)]: the smallest integer minus one. *)
Definition sub_code : list Z := [19546147; 17389606; 19531814; 2840612].
Definition sub_state : Simulator :=
  loaded 0x20000 0x20000 sub_code [(9, -2147483648); (10, 1)].

Lemma SubuDetectOverflow_correct_witness :
  exists a', SubuDetectOverflow 8 9 10 11 asm0 = Ok a' /\ buffer_ a' = sub_code /\
  exists s', steps host0 4 sub_state = Ok (advance 4 s') /\
    detects 8 11 (-2147483648 - 1) [TMP] sub_state s'.
Proof.
  assembled (SubuDetectOverflow 8 9 10 11 asm0) sub_code a' E Hb.
  exists a'; split; [reflexivity |]; split; [exact Hb |].
  destruct (SubuDetectOverflow_correct 8 9 10 11 ltac:(in_range) ltac:(in_range) ltac:(in_range)
    ltac:(in_range) ltac:(discriminate) ltac:(discriminate) ltac:(left; discriminate) asm0 a' E)
    as (ws & Hws & _ & Hrun).
  run_from Hws Hb ws.
  apply Hrun; [apply inv_loaded | vm_compute; split; congruence | vm_compute; repeat split].
Defined.

(** [SubuDetectOverflow(t0, t0, t2, t3)]: [1 - 2] is reported as an overflow. *)
Definition sub_same_code : list Z := [16779301; 17448995; 16865318; 2623526; 2840612].
Definition sub_same_state : Simulator := loaded 0x20000 0x20000 sub_same_code [(8, 1); (10, 2)].

Lemma SubuDetectOverflow_rd_is_rs_witness :
  in_s 32 (1 - 2) /\
  exists a', SubuDetectOverflow 8 8 10 11 asm0 = Ok a' /\ buffer_ a' = sub_same_code /\
  exists s', steps host0 5 sub_same_state = Ok (advance 5 s') /\
    get_register 8 s' = -1 /\ get_register 11 s' < 0.
Proof.
  split; [unfold in_s; lia |].
  assembled (SubuDetectOverflow 8 8 10 11 asm0) sub_same_code a' E Hb.
  exists a'; split; [reflexivity |]; split; [exact Hb |].
  destruct (SubuDetectOverflow_rd_is_rs 8 10 11 ltac:(in_range) ltac:(in_range) ltac:(in_range)
    ltac:(discriminate) ltac:(discriminate) ltac:(discriminate) asm0 a' E) as (ws & Hws & _ & Hrun).
  run_from Hws Hb ws.
  destruct (Hrun host0 sub_same_state) as (s' & Hst & Hd & Ho);
    [apply inv_loaded | vm_compute; split; congruence | vm_compute; repeat split |].
  exists s'; split; [exact Hst |]; split; [exact Hd |]; apply Ho.
  change (get_register 8 sub_same_state) with 1; change (get_register 10 sub_same_state) with 2.
  change (int32 (1 - 2)) with (-1); lia.
Defined.

(** [AddImmediate(t0, t1, 100000)]. *)
Definition addi_code : list Z := [1006698497; 874612384; 18956321].
Definition addi_state : Simulator := loaded 0x20000 0x20000 addi_code [(9, 5)].

Lemma AddImmediate_correct_witness :
  exists a', AddImmediate 8 9 100000 asm0 = Ok a' /\ buffer_ a' = addi_code /\
  exists s', steps host0 3 addi_state = Ok (advance 3 s') /\ get_register 8 s' = 100005.
Proof.
  assembled (AddImmediate 8 9 100000 asm0) addi_code a' E Hb.
  exists a'; split; [reflexivity |]; split; [exact Hb |].
  destruct (AddImmediate_correct 8 9 100000 ltac:(in_range) ltac:(in_range) ltac:(discriminate)
    ltac:(discriminate) ltac:(unfold in_s; lia) asm0 a' E) as (ws & Hws & _ & Hrun).
  run_from Hws Hb ws.
  destruct (Hrun host0 addi_state) as (s' & Hst & Hd & _);
    [apply inv_loaded | vm_compute; split; congruence | vm_compute; repeat split |].
  exists s'; split; [exact Hst |]; rewrite Hd; reflexivity.
Defined.

(** [AndImmediate(t0, t1, 100000)]. *)
Definition andi_code : list Z := [1006698497; 874612384; 18956324].
Definition andi_state : Simulator := loaded 0x20000 0x20000 andi_code [(9, -1)].

Lemma BitwiseImmediate_correct_witness :
  exists a', AndImmediate 8 9 100000 asm0 = Ok a' /\ buffer_ a' = andi_code /\
  exists s', steps host0 3 andi_state = Ok (advance 3 s') /\ get_register 8 s' = 100000.
Proof.
  assembled (AndImmediate 8 9 100000 asm0) andi_code a' E Hb.
  exists a'; split; [reflexivity |]; split; [exact Hb |].
  destruct (BitwiseImmediate_correct 8 9 100000 ltac:(in_range) ltac:(in_range)
    ltac:(discriminate) ltac:(discriminate) ltac:(unfold in_s; lia)) as [Hand _].
  destruct (Hand asm0 a' E) as (ws & Hws & _ & Hrun).
  run_from Hws Hb ws.
  destruct (Hrun host0 andi_state) as (s' & Hst & Hd & _);
    [apply inv_loaded | vm_compute; split; congruence | vm_compute; repeat split |].
  exists s'; split; [exact Hst |]; rewrite Hd; reflexivity.
Defined.

(** * Branches *)
(** The offset -8 put into the word of a [beq t1, t1]. *)
Lemma EncodeDecodeBranchOffset_witness :
  exists e, EncodeBranchOffset (-8) 0x11290000 asm0 = Ok e /\
    DecodeBranchOffset e = -8 /\ e / 2 ^ 16 = 0x11290000 / 2 ^ 16.
Proof.
  exists 0x1129fffe; split; [reflexivity |].
  apply (EncodeDecodeBranchOffset (-8) 0x11290000 asm0); reflexivity.
Defined.

(** A label bound to the start of the code. *)
Definition label0 : Label := mkLabel (-4).

(** The hypotheses of [branches_to] at [label0], for the words [code] run from [st]. *)
Ltac run_branch H m code st a' l' E :=
  destruct m as [[a' l'] |] eqn:E; [| discriminate E];
  destruct (H label0 asm0 a' l' eq_refl eq_refl E) as (ws & p & Hp & _ & Hws & Hrun);
  injection Hp as <-;
  assert (ws = code) as ->
    by (transitivity (buffer_ a'); [symmetry; exact Hws | vm_compute in E; injection E as <- _; reflexivity]);
  destruct (Hrun host0 st 0x20000) as (n & k & s' & Hn & _ & Hst);
  [apply inv_loaded | reflexivity | vm_compute; reflexivity | vm_compute; split; congruence
  | vm_compute; repeat split |];
  exists n, k, s'; split; [exact Hn | rewrite Hst; reflexivity].

(** The condition [t1 < 7], where it holds. *)
Definition lt_code : list Z := [690028551; 337707006; 0].
Definition lt_state : Simulator := loaded 0x20000 0x20000 lt_code [(9, -3)].

Lemma BranchOnCondition_correct_witness :
  exists c, Condition.new 0 9 IMM LT 7 = Ok c /\
  exists n k s', (n <= 3)%nat /\ steps host0 n lt_state = Ok (after_branch 0x20000 k s').
Proof.
  exists 485385; split; [reflexivity |].
  pose proof (BranchOnCondition_correct 0 9 IMM LT 7 485385 eq_refl) as H.
  run_branch H (BranchOnCondition 485385 label0 asm0) lt_code lt_state a' l' E.
Defined.

(** The comparison [t1 >u 100000], where it holds and where it does not. *)
Definition ugt_code : list Z := [1008271361; 926516896; 53069867; 388038652; 0].
Definition ugt_state (v : Z) : Simulator := loaded 0x20000 0x20000 ugt_code [(9, v)].

Lemma BranchImm_correct_witness :
  (exists n k s', (n <= 5)%nat /\ steps host0 n (ugt_state (-1)) = Ok (after_branch 0x20000 k s')) /\
  (exists n k s', (n <= 5)%nat /\ steps host0 n (ugt_state 7) = Ok (after_branch 0x20014 k s')).
Proof.
  pose proof (BranchImm_correct UGT 9 100000 ltac:(in_range) ltac:(unfold in_s; lia)) as H; split.
  - run_branch H (BranchImm UGT 9 100000 label0 asm0) ugt_code (ugt_state (-1)) a' l' E.
  - run_branch H (BranchImm UGT 9 100000 label0 asm0) ugt_code (ugt_state 7) a' l' E.
Defined.

(** The write barrier's filter: a new object stored into an old one falls through
    to the update, a Smi does not. *)
Definition barrier_code : list Z := [657536; 21039140; 639015; 3672100; 808976388; 318832634; 0].
Definition barrier_state (object value : Z) : Simulator :=
  loaded 0x20000 0x20000 barrier_code [(9, object); (10, value)].

Lemma StoreIntoObjectFilter_correct_witness :
  (exists n k s', (n <= 7)%nat /\
     steps host0 n (barrier_state 0x1001 0x2005) = Ok (after_branch 0x2001c k s')) /\
  (exists n k s', (n <= 7)%nat /\
     steps host0 n (barrier_state 0x1001 0x2004) = Ok (after_branch 0x20000 k s')).
Proof.
  destruct (StoreIntoObjectFilter_correct 9 10 ltac:(in_range) ltac:(in_range)
    ltac:(discriminate) ltac:(discriminate)) as [H _]; split.
  - run_branch H (StoreIntoObjectFilter 9 10 label0 asm0) barrier_code (barrier_state 0x1001 0x2005) a' l' E.
  - run_branch H (StoreIntoObjectFilter 9 10 label0 asm0) barrier_code (barrier_state 0x1001 0x2004) a' l' E.
Defined.

(** * Linking and binding *)
(** The result of an emission, for code whose emission succeeds. *)
Definition emission (r : outcome (Assembler * Label)) : Assembler * Label :=
  match r with Ok x => x | Err _ => (asm0, new_Label) end.

(** [beq t1, t2, l; nop; bne t1, t2, l; nop; nop], with [l] linked to both. *)
Definition linked1 : Assembler * Label := emission (beq 9 10 new_Label asm0).
Definition linked2 : Assembler * Label := emission (bne 9 10 (snd linked1) (fst linked1)).
Definition asm2 : Assembler := Emit kNopInstruction (fst linked2).

Lemma chain1 : chain (buffer_ (fst linked1)) (position_ (snd linked1)) [0].
Proof. apply (chain_link _ 0 [] 0); first [reflexivity | constructor | vm_compute; congruence]. Qed.

Lemma chain2 : chain (buffer_ asm2) (position_ (snd linked2)) [8; 0].
Proof.
  apply (chain_link _ 8 [0] 4); try first [reflexivity | vm_compute; congruence].
  apply (chain_link _ 0 [] 0); first [reflexivity | constructor | vm_compute; congruence].
Qed.

Ltac in_reach :=
  repeat (apply Forall_cons_2; [vm_compute; split; congruence |]); apply Forall_nil_2.

Lemma Bind_near_witness :
  exists a' l', Bind (snd linked2) asm2 = Ok (a', l') /\
    IsBound l' = true /\ Position l' = Ok 20 /\ Size a' = 20 /\
    resolved 20 [8; 0] (buffer_ asm2) (buffer_ a').
Proof.
  apply (Bind_near asm2 (snd linked2) [8; 0]); [reflexivity | apply chain2 |].
  in_reach.
Defined.

Lemma branch_links_witness :
  chain (buffer_ (fst linked2)) (position_ (snd linked2)) [8; 0].
Proof.
  apply (branch_links (BrNe 9 10) (snd linked1) (fst linked1) (fst linked2) (snd linked2) [0]);
    [split; in_range | reflexivity | reflexivity | reflexivity | apply chain1 | reflexivity].
Defined.

(** The [beq] of [linked1], run after [Bind] where it is taken. *)
Definition bound2 : Assembler * Label := emission (Bind (snd linked2) asm2).
Definition forward_state : Simulator :=
  loaded 0x20000 0x20000 (buffer_ (fst bound2)) [(9, 5); (10, 5)].

Lemma forward_branch_runs_witness :
  step host0 forward_state = Ok (after_branch 0x20014 2 forward_state).
Proof.
  apply (forward_branch_runs (BrEq 9 10) new_Label asm0 (fst linked1) (snd linked1) asm2
    (snd linked2) [8; 0] (fst bound2) (snd bound2) (skipn 2 (buffer_ asm2)) host0 forward_state 0x20000).
  - split; in_range.
  - reflexivity.
  - reflexivity.
  - reflexivity.
  - reflexivity.
  - reflexivity.
  - apply chain2.
  - apply list_elem_of_further, list_elem_of_here.
  - change (Size asm0 + 4) with 4; rewrite !not_elem_of_cons; split_and!; [lia | lia | apply not_elem_of_nil].
  - in_reach.
  - reflexivity.
  - reflexivity.
  - vm_compute; reflexivity.
  - vm_compute; split; congruence.
  - vm_compute; repeat split.
Defined.

(** * The machine *)
Lemma step_has_fuel_witness : steps host0 2 lt_state <> Err OutOfFuel.
Proof. apply (step_has_fuel host0 lt_state 2); [apply host0_invariant | apply inv_loaded]. Defined.

(** * Far branches *)
(** An assembler of far branches and a label bound out of reach of a near one. *)
Definition far_asm : Assembler := new_Assembler false true.
Definition far_label : Label := mkLabel (- 0x100000 - 4).

(** [bc1f] out of range, assembled, relocated to 0x20000 and run with the condition bit
    clear: the run passes over the far jump. *)
Definition bc1f_far : Assembler * Label := emission (bc1f far_label far_asm).
Definition bc1f_far_code : list Z := [1157627908; 0; 1008271378; 926482432; 52428808; 0].
Definition bc1f_far_state : Simulator := loaded 0x20000 0x20000 bc1f_far_code [].

Lemma far_fpu_branch_inverted_witness :
  fcc0 bc1f_far_state = false /\
  exists n k s', only_changes [T9] bc1f_far_state s' /\
    steps host0 n bc1f_far_state = Ok (after_branch 0x20018 k s').
Proof.
  split; [reflexivity |].
  apply (far_fpu_branch_inverted false far_label far_asm (fst bc1f_far) (snd bc1f_far) 0x20000
    bc1f_far_code host0 bc1f_far_state).
  - reflexivity.
  - reflexivity.
  - reflexivity.
  - vm_compute; split; congruence.
  - reflexivity.
  - reflexivity.
  - apply inv_loaded.
  - reflexivity.
  - vm_compute; reflexivity.
  - vm_compute; split; congruence.
  - vm_compute; repeat split.
Defined.

(** [beq t1, t2] out of range, assembled, relocated to 0x20000 and run. *)
Definition beq_far : Assembler * Label := emission (beq 9 10 far_label far_asm).
Definition beq_far_code : list Z := [355074052; 0; 1008271378; 926482432; 52428808; 0].
Definition beq_far_state : Simulator := loaded 0x20000 0x20000 beq_far_code [(9, 5); (10, 5)].

Lemma far_branch_runs_witness :
  exists n k s', only_changes [T9] beq_far_state s' /\
    steps host0 n beq_far_state = Ok (after_branch 0x120000 k s').
Proof.
  apply (far_branch_runs (BrEq 9 10) far_label far_asm (fst beq_far) (snd beq_far) 0x20000
    beq_far_code host0 beq_far_state).
  - split; in_range.
  - reflexivity.
  - reflexivity.
  - reflexivity.
  - vm_compute; split; congruence.
  - reflexivity.
  - reflexivity.
  - apply inv_loaded.
  - reflexivity.
  - vm_compute; reflexivity.
  - vm_compute; split; congruence.
  - vm_compute; repeat split.
Defined.

(** * Calls *)
Definition redirections : list Redirection := [mkRedirection 0x5000 kRuntimeCall 1 0x900].

Lemma RedirectExternalReference_roundtrip_witness :
  exists addr list',
    RedirectExternalReference 0x940 0x6000 kLeafRuntimeCall 2 redirections = (addr, list') /\
    FunctionForRedirect addr list' = 0x6000 /\ FunctionForRedirect 0x900 list' = 0x5000.
Proof.
  eexists _, _; split; [reflexivity |].
  destruct (RedirectExternalReference_roundtrip 0x940 0x980 0x6000 kLeafRuntimeCall kRuntimeCall 2 0
    redirections 0x940 (mkRedirection 0x6000 kLeafRuntimeCall 2 0x940 :: redirections))
    as (Hf & _ & Hold & _); [| | reflexivity |].
  - apply NoDup_singleton.
  - cbn; rewrite not_elem_of_cons; split; [lia | apply not_elem_of_nil].
  - split; [exact Hf | apply (Hold (mkRedirection 0x5000 kRuntimeCall 1 0x900)), list_elem_of_here].
Defined.

(** A call of [jr ra; nop], with a value in a callee-saved register. *)
Definition call_state : Simulator := loaded 0x20000 0x20000 [0x03e00008; 0] [(R16, 77)].

Lemma Call_preserves_witness :
  exists v s', Call host0 5 0x20000 1 2 3 4 false false call_state = Ok (v, s') /\
    pc_ s' = kEndSimulatingPC /\ get_register R16 s' = 77 /\ get_register SP s' = 0x80000.
Proof.
  destruct (Call host0 5 0x20000 1 2 3 4 false false call_state) as [[v s'] |] eqn:E;
    [| vm_compute in E; discriminate E].
  destruct (Call_preserves host0 5 0x20000 1 2 3 4 false false call_state v s'
    (inv_loaded _ _ _ _) E) as (Hpc & Hr & _).
  exists v, s'; split_and!; [reflexivity | exact Hpc | |].
  - rewrite Hr by (apply list_elem_of_further, list_elem_of_here); reflexivity.
  - rewrite Hr by apply list_elem_of_here; reflexivity.
Defined.

(** * Exclusive access *)
(** Thread 7 links 0x100, thread 8 links and stores 0x200. *)
Definition xtrace : list xop := [LoadLinked 7 0x100; LoadLinked 8 0x200; StoreConditional 8 0x200].
Definition xstate (o : xop) (e : Exclusive) : Exclusive :=
  match xstep o e with Ok e => e | Err _ => e end.
Definition xfinal : Exclusive := fold_left (fun e o => xstate o e) xtrace new_Exclusive.

Lemma xrun_final : xrun xtrace xfinal.
Proof.
  apply (xrun_step [LoadLinked 7 0x100; LoadLinked 8 0x200]
    (fold_left (fun e o => xstate o e) [LoadLinked 7 0x100; LoadLinked 8 0x200] new_Exclusive));
    [| reflexivity].
  apply (xrun_step [LoadLinked 7 0x100] (xstate (LoadLinked 7 0x100) new_Exclusive));
    [| reflexivity].
  apply (xrun_step [] new_Exclusive); [constructor | reflexivity].
Qed.

Lemma store_conditional_atomic_witness :
  exists e', HasExclusiveAccessAndOpen 7 0x100 xfinal = Ok (true, e') /\ reserved xtrace 7 0x100.
Proof.
  eexists; split; [reflexivity |].
  apply (store_conditional_atomic xtrace xfinal 7 0x100
    (mkExclusive (map (open_tag 7 0x100) (exclusive_access_state_ xfinal)) 2));
    [apply xrun_final | reflexivity].
Defined.

Lemma one_tag_per_thread_witness :
  length (exclusive_access_state_ xfinal) = kNumAddressTags /\
  (next_address_tag_ xfinal < kNumAddressTags)%nat.
Proof.
  destruct (one_tag_per_thread xtrace xfinal xrun_final) as (Hl & Hn & _); split; [exact Hl | exact Hn].
Defined.

Definition xmem_state : Simulator := loaded 0x20000 0x20000 [17] [].

Lemma load_linked_store_conditional_witness :
  exists v e1 e2 e3 s', ReadExclusiveW 7 0x20000 xmem_state xfinal = Ok (v, e1) /\
    WriteExclusiveW 7 0x20000 18 xmem_state e1 = Ok (0, s', e2) /\
    WriteExclusiveW 7 0x20000 19 s' e2 = Ok (1, s', e3).
Proof.
  destruct (ReadExclusiveW 7 0x20000 xmem_state xfinal) as [[v e1] |] eqn:E; [| discriminate E].
  destruct (load_linked_store_conditional xtrace xfinal 7 0x20000 18 19 xmem_state v e1
    xrun_final ltac:(discriminate) E) as (e2 & Hw & Hfail).
  destruct (WriteW 0x20000 18 xmem_state) as [s' |] eqn:Es; [| vm_compute in Es; discriminate Es].
  destruct (Hfail s') as [e3 H3]; exists v, e1, e2, e3, s'; split_and!; [reflexivity | exact Hw | exact H3].
Defined.
