(* ===== verification/Locations.v ===== *)
(** Locations ([vm/locations.h], [vm/locations.cc]): where the register allocator
    puts a value, encoded in one word.  The low four bits are the kind, the others
    the payload; a constant is a tagged pointer to its instruction.  A location is
    the [Z] of its word. *)
From stdpp Require Import base numbers list.
From Stdlib Require Import ZArith Lia Bool.
From S2P Require Import Prelude Utils.
#[local] Open Scope Z_scope.

(** How a value is represented. *)
Inductive Representation :=
  kNoRepresentation | kTagged | kUntagged | kUnboxedDouble
| kUnboxedInt32 | kUnboxedUint32 | kUnboxedMint
| kUnboxedFloat32x4 | kUnboxedInt32x4 | kUnboxedFloat64x2
| kPairOfTagged | kPairOfUnboxedDouble.

#[export] Instance Representation_eq_dec : EqDecision Representation.
Proof. solve_decision. Defined.

(** The frame layout of a target ([constants_<arch>.h], [stack_frame_<arch>.h]). *)
Class FrameLayout := {
  FPREG : Z;
  SPREG : Z;
  kParamEndSlotFromFp : Z;
  kFirstLocalSlotFromFp : Z
}.

Module Location.
Section Location.
Context `{Word} `{FrameLayout}.

Definition kBitsForKind : Z := 4.
Definition kBitsForPayload : Z := kWordSize * 8 - kBitsForKind.
Definition kInvalidLocation : Z := 0.
Definition kLocationTagMask : Z := 0x3.

(** * Kinds *)
Definition kInvalid : Z := 0.
Definition kConstantTag : Z := 1.
Definition kPairLocationTag : Z := 2.
Definition kUnallocated : Z := 3.
Definition kStackSlot : Z := 4.
Definition kDoubleStackSlot : Z := 7.
Definition kQuadStackSlot : Z := 11.
Definition kRegister : Z := 8.
Definition kFpuRegister : Z := 12.

(** [KindField] and [PayloadField]; the constructor [Location(kind, payload)]. *)
Definition kind (l : Z) : Z := BitField.decode 0 kBitsForKind l.
Definition payload (l : Z) : Z := BitField.decode kBitsForKind kBitsForPayload l.
Definition make (kind payload : Z) : outcome Z :=
  let* k := BitField.encode kBitsPerWord 0 kBitsForKind kind in
  let* p := BitField.encode kBitsPerWord kBitsForKind kBitsForPayload payload in
  Ok (Z.lor k p).

Definition Equals (l other : Z) : bool := l =? other.
Definition NoLocation : Z := kInvalidLocation.
Definition IsInvalid (l : Z) : bool := l =? kInvalidLocation.

(** * Constants and pairs: pointers with a tag *)
Definition IsConstant (l : Z) : bool := Z.land l kLocationTagMask =? kConstantTag.
Definition constant_instruction (l : Z) : outcome Z :=
  ASSERT IsConstant l ;; Ok (Z.land l (Z.lnot kLocationTagMask)).
Definition Constant (obj : Z) : outcome Z :=
  let loc := Z.lor obj kConstantTag in
  let* c := constant_instruction loc in
  ASSERT obj =? c ;; Ok loc.
Definition IsPairLocation (l : Z) : bool := Z.land l kLocationTagMask =? kPairLocationTag.

(** * Unallocated locations *)
Inductive Policy :=
| kAny | kPrefersRegister | kRequiresRegister | kRequiresFpuRegister
| kWritableRegister | kSameAsFirstInput.

Definition policy_to_Z (p : Policy) : Z :=
  match p with
  | kAny => 0 | kPrefersRegister => 1 | kRequiresRegister => 2
  | kRequiresFpuRegister => 3 | kWritableRegister => 4 | kSameAsFirstInput => 5
  end.

Definition IsUnallocated (l : Z) : bool := kind l =? kUnallocated.
Definition UnallocatedLocation (policy : Policy) : outcome Z :=
  let* p := BitField.encode kBitsPerWord 0 3 (policy_to_Z policy) in
  make kUnallocated p.
Definition policy (l : Z) : outcome Z :=
  ASSERT IsUnallocated l ;; Ok (BitField.decode 0 3 (payload l)).

(** * Registers *)
Definition IsRegister (l : Z) : bool := kind l =? kRegister.
Definition RegisterLocation (reg : Z) : outcome Z := make kRegister reg.
Definition reg (l : Z) : outcome Z := ASSERT IsRegister l ;; Ok (payload l).

Definition IsFpuRegister (l : Z) : bool := kind l =? kFpuRegister.
Definition FpuRegisterLocation (reg : Z) : outcome Z := make kFpuRegister reg.
Definition fpu_reg (l : Z) : outcome Z := ASSERT IsFpuRegister l ;; Ok (payload l).

Definition IsMachineRegisterKind (kind : Z) : bool :=
  (kind =? kRegister) || (kind =? kFpuRegister).
Definition MachineRegisterLocation (kind reg : Z) : outcome Z :=
  if kind =? kRegister then RegisterLocation reg
  else ASSERT kind =? kFpuRegister ;; FpuRegisterLocation reg.
Definition IsMachineRegister (l : Z) : bool := IsMachineRegisterKind (kind l).
Definition register_code (l : Z) : outcome Z :=
  ASSERT IsMachineRegister l ;; Ok (payload l).

(** * Stack slots: a base register and a biased index *)
Definition kBitsForBaseReg : Z := 5.
Definition kBitsForStackIndex : Z := kBitsForPayload - kBitsForBaseReg.
Definition kStackIndexBias : Z := Z.shiftl 1 (kBitsForStackIndex - 1).

Definition EncodeStackIndex (stack_index : Z) : outcome Z :=
  ASSERT (- kStackIndexBias <=? stack_index) && (stack_index <? kStackIndexBias) ;;
  Ok (to_u kBitsPerWord (kStackIndexBias + stack_index)).

Definition IsStackSlot (l : Z) : bool := kind l =? kStackSlot.
Definition IsDoubleStackSlot (l : Z) : bool := kind l =? kDoubleStackSlot.
Definition IsQuadStackSlot (l : Z) : bool := kind l =? kQuadStackSlot.
Definition HasStackIndex (l : Z) : bool :=
  IsStackSlot l || IsDoubleStackSlot l || IsQuadStackSlot l.

Definition base_reg (l : Z) : outcome Z :=
  ASSERT HasStackIndex l ;; Ok (BitField.decode 0 kBitsForBaseReg (payload l)).
Definition stack_index (l : Z) : outcome Z :=
  ASSERT HasStackIndex l ;;
  Ok (BitField.decode kBitsForBaseReg kBitsForStackIndex (payload l) - kStackIndexBias).

(** [StackSlot], [DoubleStackSlot] and [QuadStackSlot] differ in the kind; the last
    two always have the frame pointer as base. *)
Definition make_slot (kind base index : Z) : outcome Z :=
  let* b := BitField.encode kBitsPerWord 0 kBitsForBaseReg base in
  let* e := EncodeStackIndex index in
  let* i := BitField.encode kBitsPerWord kBitsForBaseReg kBitsForStackIndex e in
  let* loc := make kind (Z.lor b i) in
  let* index' := stack_index loc in
  ASSERT index' =? index ;; Ok loc.
Definition StackSlot (index base : Z) : outcome Z := make_slot kStackSlot base index.
Definition DoubleStackSlot (index : Z) : outcome Z := make_slot kDoubleStackSlot FPREG index.
Definition QuadStackSlot (index : Z) : outcome Z := make_slot kQuadStackSlot FPREG index.

Definition ToStackSlotOffset (l : Z) : outcome Z :=
  let* index := stack_index l in
  let* base := base_reg l in
  if base =? FPREG then
    if index <? 0 then Ok ((kParamEndSlotFromFp - index) * kWordSize)
    else Ok ((kFirstLocalSlotFromFp - index) * kWordSize)
  else ASSERT base =? SPREG ;; Ok (index * kWordSize).

End Location.
End Location.
