(* ===== verification/ParallelMove.v ===== *)
(** The resolution of parallel moves ([MoveOperands] of [vm/intermediate_language.h],
    [ParallelMoveResolver] of [vm/flow_graph_compiler.h] and
    [vm/flow_graph_compiler.cc]): a set of assignments that are meant to happen at
    once is turned into a sequence of moves and swaps.

    [EmitMove] and [EmitSwap] belong to the target: they are the operations of the
    class [MoveTarget], over the state [C] of the code generator. *)
From stdpp Require Import base numbers list.
From Stdlib Require Import ZArith Lia Bool.
From S2P Require Import Prelude Utils Locations.
#[local] Open Scope Z_scope.

(** * A move ([class MoveOperands]) *)
Record MoveOperands := mkMove { dest : Z; src : Z }.

#[global] Instance MoveOperands_eq_dec : EqDecision MoveOperands.
Proof. solve_decision. Defined.

Definition IsPending (m : MoveOperands) : outcome bool :=
  ASSERT negb (Location.IsInvalid (src m)) || Location.IsInvalid (dest m) ;;
  Ok (Location.IsInvalid (dest m) && negb (Location.IsInvalid (src m))).

Definition IsEliminated (m : MoveOperands) : outcome bool :=
  ASSERT negb (Location.IsInvalid (src m)) || Location.IsInvalid (dest m) ;;
  Ok (Location.IsInvalid (src m)).

(** The destination of a move in progress is cleared, and returned. *)
Definition MarkPending (m : MoveOperands) : outcome (Z * MoveOperands) :=
  let* p := IsPending m in
  ASSERT negb p ;; Ok (dest m, mkMove Location.NoLocation (src m)).

Definition ClearPending (d : Z) (m : MoveOperands) : outcome MoveOperands :=
  let* p := IsPending m in
  ASSERT p ;; Ok (mkMove d (src m)).

Definition Blocks (loc : Z) (m : MoveOperands) : outcome bool :=
  let* e := IsEliminated m in
  Ok (negb e && Location.Equals (src m) loc).

Definition IsRedundant (m : MoveOperands) : outcome bool :=
  let* e := IsEliminated m in
  Ok (e || Location.IsInvalid (dest m) || Location.Equals (src m) (dest m)).

Definition Eliminate : MoveOperands := mkMove Location.NoLocation Location.NoLocation.

(** * The resolver ([class ParallelMoveResolver]) *)
Record Resolver (C : Type) := mkResolver { compiler_ : C; moves_ : list MoveOperands }.
Arguments mkResolver {C}.
Arguments compiler_ {C}.
Arguments moves_ {C}.

(** The members a target defines. *)
Class MoveTarget (C : Type) := {
  EmitMove : nat -> Resolver C -> outcome (Resolver C);
  EmitSwap : nat -> Resolver C -> outcome (Resolver C)
}.

(** [moves_[index]]: an index out of range is an error of the array. *)
Definition move_at (ms : list MoveOperands) (i : nat) : outcome MoveOperands :=
  match ms !! i with Some m => Ok m | None => Err AssertionFailed end.

Section Resolver.
Context {C : Type} `{MoveTarget C}.

Definition set_move (i : nat) (m : MoveOperands) (r : Resolver C) : Resolver C :=
  mkResolver (compiler_ r) (<[i := m]> (moves_ r)).

Fixpoint BuildInitialMoveList (parallel_move : list MoveOperands)
  : outcome (list MoveOperands) :=
  match parallel_move with
  | [] => Ok []
  | move :: rest =>
      let* redundant := IsRedundant move in
      let* ms := BuildInitialMoveList rest in
      Ok (if redundant then ms else move :: ms)
  end.

(** The search for a move that blocks [destination], which is pending. *)
Fixpoint blocked (destination : Z) (ms : list MoveOperands) : outcome bool :=
  match ms with
  | [] => Ok false
  | other_move :: ms =>
      let* b := Blocks destination other_move in
      if b then let* p := IsPending other_move in ASSERT p ;; Ok true
      else blocked destination ms
  end.

(** The loop of [PerformMove] that performs the moves that block [destination], from
    index [i] on, [n] of them; [perform] is the recursive call. *)
Fixpoint perform_blocking (perform : nat -> Resolver C -> outcome (Resolver C))
  (destination : Z) (n i : nat) (r : Resolver C) : outcome (Resolver C) :=
  match n with
  | O => Ok r
  | S n =>
      let* other_move := move_at (moves_ r) i in
      let* b := Blocks destination other_move in
      let* c := if b then let* p := IsPending other_move in Ok (negb p) else Ok false in
      let* r := if c then perform i r else Ok r in
      perform_blocking perform destination n (S i) r
  end.

Fixpoint PerformMove (fuel : nat) (index : nat) (r : Resolver C) : outcome (Resolver C) :=
  match fuel with
  | O => Err OutOfFuel
  | S fuel =>
      let* move := move_at (moves_ r) index in
      let* p := IsPending move in
      ASSERT negb p ;;
      let* redundant := IsRedundant move in
      ASSERT negb redundant ;;
      ASSERT negb (Location.IsInvalid (src move)) ;;
      let* dm := MarkPending move in
      let destination := fst dm in
      let r := set_move index (snd dm) r in
      let* r := perform_blocking (PerformMove fuel) destination (length (moves_ r)) 0 r in
      let* move := move_at (moves_ r) index in
      let* move := ClearPending destination move in
      let r := set_move index move r in
      if Location.Equals (src move) destination then Ok (set_move index Eliminate r)
      else
        let* b := blocked destination (moves_ r) in
        if b then EmitSwap index r else EmitMove index r
  end.

(** The two loops of [EmitNativeCode], from index [i] on, [n] moves. *)
Fixpoint perform_all (fuel n i : nat) (r : Resolver C) : outcome (Resolver C) :=
  match n with
  | O => Ok r
  | S n =>
      let* move := move_at (moves_ r) i in
      let* e := IsEliminated move in
      let* r := if negb e && negb (Location.IsConstant (src move))
                then PerformMove fuel i r else Ok r in
      perform_all fuel n (S i) r
  end.

Fixpoint emit_constants (n i : nat) (r : Resolver C) : outcome (Resolver C) :=
  match n with
  | O => Ok r
  | S n =>
      let* move := move_at (moves_ r) i in
      let* e := IsEliminated move in
      let* r := if negb e
                then ASSERT Location.IsConstant (src move) ;; EmitMove i r else Ok r in
      emit_constants n (S i) r
  end.

(** A nested call has one more pending move: the depth is bounded by the moves. *)
Definition EmitNativeCode (parallel_move : list MoveOperands) (r : Resolver C)
  : outcome (Resolver C) :=
  ASSERT bool_decide (moves_ r = []) ;;
  let* ms := BuildInitialMoveList parallel_move in
  let r := mkResolver (compiler_ r) ms in
  let n := length ms in
  let* r := perform_all (S n) n 0 r in
  let* r := emit_constants n 0 r in
  Ok (mkResolver (compiler_ r) []).

(** ** Scratch locations *)
Fixpoint any_blocks (loc : Z) (ms : list MoveOperands) : outcome bool :=
  match ms with
  | [] => Ok false
  | m :: ms => let* b := Blocks loc m in if b then Ok true else any_blocks loc ms
  end.

Definition IsScratchLocation (loc : Z) (ms : list MoveOperands) : outcome bool :=
  let* b := any_blocks loc ms in
  if b then Ok false else Ok (existsb (fun m => Location.Equals (dest m) loc) ms).

Context `{Word}.

(** The register loops of [AllocateScratchRegister], [n] registers from [reg] on; -1
    if there is none. *)
Fixpoint find_scratch (kind blocked_mask : Z) (ms : list MoveOperands) (n : nat) (reg : Z)
  : outcome Z :=
  match n with
  | O => Ok (-1)
  | S n =>
      let* c :=
        if Z.land (Z.shiftl 1 reg) blocked_mask =? 0 then
          let* l := Location.MachineRegisterLocation kind reg in IsScratchLocation l ms
        else Ok false in
      if c then Ok reg else find_scratch kind blocked_mask ms n (reg + 1)
  end.

Fixpoint find_unblocked (blocked_mask : Z) (n : nat) (reg : Z) : Z :=
  match n with
  | O => -1
  | S n =>
      if Z.land (Z.shiftl 1 reg) blocked_mask =? 0 then reg
      else find_unblocked blocked_mask n (reg + 1)
  end.

(** The register and whether it has to be spilled. *)
Definition AllocateScratchRegister (kind blocked_mask first_free_register last_free_register : Z)
  (r : Resolver C) : outcome (Z * bool) :=
  let n := Z.to_nat (last_free_register - first_free_register + 1) in
  let* scratch := find_scratch kind blocked_mask (moves_ r) n first_free_register in
  if scratch =? -1
  then Ok (find_unblocked blocked_mask n first_free_register, true)
  else Ok (scratch, false).

End Resolver.
