(* ===== verification/ParallelMoveProofs.v ===== *)
(** Correctness of the parallel move resolver: for a target whose [EmitMove] and
    [EmitSwap] copy and exchange the contents of locations ([MoveTargetOk]), the code
    emitted for a parallel move performs all its assignments at once.

    The moves form a graph from sources to destinations in which each location is the
    destination of at most one move.  [PerformMove] follows it depth first; the pending
    moves are a chain ([chain]), each with its source in the destination of the one
    below.  So a cycle can only close at the lowest pending move, which is the one a
    swap changes. *)
From stdpp Require Import base numbers list sets.
From Stdlib Require Import ZArith Lia Bool.
From S2P Require Import Prelude Utils Locations ParallelMove.
#[local] Open Scope Z_scope.

(** A location that [IsScratchLocation] accepts: some move is going to write it, and
    none reads it. *)
Definition scratch (ms : list MoveOperands) (l : Z) : Prop :=
  (exists mv, mv ∈ ms /\ dest mv = l) /\ forall mv, mv ∈ ms -> src mv <> l.

(** The assertion of [IsPending] and [IsEliminated]. *)
Definition consistent (mv : MoveOperands) : Prop := src mv = 0 -> dest mv = 0.

(** The sources after a swap of the locations [s] and [d]. *)
Definition swap_source (s d : Z) (mv : MoveOperands) : MoveOperands :=
  if src mv =? 0 then mv
  else if src mv =? s then mkMove (dest mv) d
  else if src mv =? d then mkMove (dest mv) s
  else mv.

(** What a target promises: the locations of a class of values ([false] for words,
    [true] for doubles) can be copied and exchanged.  [read] is the content of a location
    in a state of the machine, [runs c c' m m'] says that the code generated between [c]
    and [c'] takes the machine from [m] to [m'].  Code may overwrite scratch locations.
    [linked c] says that the data which the code of [c] refers to is there at run time. *)
Class MoveTargetOk (C M : Type) `{MoveTarget C} := {
  loc_ok : bool -> Z -> Prop;
  const_ok : bool -> Z -> Prop;
  constant_value : bool -> Z -> Z;
  good : C -> Prop;
  linked : C -> Prop;
  ok : M -> Prop;
  read : M -> Z -> Z;
  runs : C -> C -> M -> M -> Prop;
  source_ok k l := (Location.IsConstant l = false /\ loc_ok k l) \/
                   (Location.IsConstant l = true /\ const_ok k l);
  source m k l := if Location.IsConstant l then constant_value k l else read m l;
  loc_ok_place k l : loc_ok k l -> l <> 0 /\ Location.IsConstant l = false;
  loc_ok_class k k' l : loc_ok k l -> loc_ok k' l -> k = k';
  runs_refl c m : runs c c m m;
  runs_trans c1 c2 c3 m1 m2 m3 : runs c1 c2 m1 m2 -> runs c2 c3 m2 m3 -> runs c1 c3 m1 m3;
  EmitMove_ok i r d s k :
    moves_ r !! i = Some (mkMove d s) -> Forall consistent (moves_ r) ->
    loc_ok k d -> source_ok k s -> d <> s -> good (compiler_ r) ->
    returns (EmitMove i r) (fun r' =>
      moves_ r' = <[i := Eliminate]> (moves_ r) /\ good (compiler_ r') /\
      (linked (compiler_ r') -> linked (compiler_ r) /\
      forall m, ok m -> exists m', runs (compiler_ r) (compiler_ r') m m' /\ ok m' /\
        read m' d = source m k s /\
        forall k' l, loc_ok k' l -> l <> d -> ~ scratch (moves_ r) l -> read m' l = read m l));
  EmitSwap_ok i r d s k :
    moves_ r !! i = Some (mkMove d s) -> Forall consistent (moves_ r) ->
    loc_ok k d -> loc_ok k s -> d <> s -> good (compiler_ r) ->
    returns (EmitSwap i r) (fun r' =>
      moves_ r' = swap_source s d <$> <[i := Eliminate]> (moves_ r) /\ good (compiler_ r') /\
      (linked (compiler_ r') -> linked (compiler_ r) /\
      forall m, ok m -> exists m', runs (compiler_ r) (compiler_ r') m m' /\ ok m' /\
        read m' d = read m s /\ read m' s = read m d /\
        forall k' l, loc_ok k' l -> l <> d -> l <> s -> ~ scratch (moves_ r) l ->
          read m' l = read m l))
}.

(** * The queries on moves *)
Section Queries.

Lemma consistent_test mv :
  consistent mv <-> negb (Location.IsInvalid (src mv)) || Location.IsInvalid (dest mv) = true.
Proof.
  unfold consistent, Location.IsInvalid, Location.kInvalidLocation.
  destruct (Z.eqb_spec (src mv) 0), (Z.eqb_spec (dest mv) 0); cbn; split; intros; tauto || done.
Qed.

Lemma IsEliminated_ok mv : consistent mv -> IsEliminated mv = Ok (src mv =? 0).
Proof. intros Hc; unfold IsEliminated; apply consistent_test in Hc as ->; done. Qed.

Lemma IsPending_ok mv :
  consistent mv -> IsPending mv = Ok ((dest mv =? 0) && negb (src mv =? 0)).
Proof. intros Hc; unfold IsPending; apply consistent_test in Hc as ->; done. Qed.

Lemma Blocks_ok mv l : consistent mv -> l <> 0 -> Blocks l mv = Ok (src mv =? l).
Proof.
  intros Hc Hl; unfold Blocks; rewrite (IsEliminated_ok mv Hc); cbn; f_equal.
  unfold Location.Equals; destruct (Z.eqb_spec (src mv) 0), (Z.eqb_spec (src mv) l); cbn; lia.
Qed.

Lemma IsRedundant_ok mv :
  consistent mv -> IsRedundant mv = Ok ((dest mv =? 0) || (src mv =? dest mv)).
Proof.
  intros Hc; unfold IsRedundant; rewrite (IsEliminated_ok mv Hc); cbn; f_equal.
  unfold Location.IsInvalid, Location.Equals, Location.kInvalidLocation.
  destruct (Z.eqb_spec (src mv) 0) as [E |], (Z.eqb_spec (dest mv) 0); cbn; try done.
  destruct n; auto.
Qed.

Lemma blocked_ok d ms :
  Forall consistent ms -> d <> 0 ->
  (forall mv, mv ∈ ms -> src mv = d -> dest mv = 0) ->
  returns (blocked d ms) (fun b => if b then exists mv, mv ∈ ms /\ src mv = d
                                   else forall mv, mv ∈ ms -> src mv <> d).
Proof.
  intros Hc Hd Hp; induction Hc as [| mv ms Hmv Hc IH]; cbn [blocked].
  { apply returns_Ok; intros mv Hin; apply elem_of_nil in Hin as []. }
  rewrite Blocks_ok by done; cbn [obind]; destruct (Z.eqb_spec (src mv) d) as [E | E].
  - rewrite IsPending_ok, (Hp mv) by (done || constructor); cbn.
    rewrite E, (proj2 (Z.eqb_neq d 0)) by done; cbn.
    apply returns_Ok; exists mv; split; [constructor | done].
  - eapply returns_mono; [apply IH; intros; apply Hp; [constructor |]; done |].
    intros [] Hb; [destruct Hb as (mv' & ? & ?); exists mv'; split; [constructor |]; done |].
    intros mv' [-> | ?]%elem_of_cons; auto.
Qed.

Lemma any_blocks_ok d ms :
  Forall consistent ms -> d <> 0 ->
  returns (any_blocks d ms) (fun b => if b then exists mv, mv ∈ ms /\ src mv = d
                                      else forall mv, mv ∈ ms -> src mv <> d).
Proof.
  intros Hc Hd; induction Hc as [| mv ms Hmv Hc IH]; cbn [any_blocks].
  { apply returns_Ok; intros mv Hin; apply elem_of_nil in Hin as []. }
  rewrite Blocks_ok by done; cbn [obind]; destruct (Z.eqb_spec (src mv) d) as [E | E].
  - apply returns_Ok; exists mv; split; [constructor | done].
  - eapply returns_mono; [exact IH |].
    intros [] Hb; [destruct Hb as (mv' & ? & ?); exists mv'; split; [constructor |]; done |].
    intros mv' [-> | ?]%elem_of_cons; auto.
Qed.

(** [IsScratchLocation] is exact. *)
Lemma IsScratchLocation_ok d ms :
  Forall consistent ms -> d <> 0 ->
  returns (IsScratchLocation d ms) (fun b => b = true <-> scratch ms d).
Proof.
  intros Hc Hd; unfold IsScratchLocation; call (any_blocks_ok d ms) as b Hb; [done | done |].
  destruct b; apply returns_Ok.
  { destruct Hb as (mv & Hin & E); split; [done | intros [_ H]; destruct (H mv Hin E)]. }
  rewrite existsb_exists; unfold Location.Equals, scratch; split.
  - intros (mv & Hin & E); split; [exists mv; rewrite list_elem_of_In; split; [done | lia] | done].
  - intros [(mv & Hin & E) _]; exists mv; rewrite <- list_elem_of_In; split; [done | lia].
Qed.
End Queries.

(** * The moves while they are resolved *)
Section Resolve.
Context {C M : Type} `{MoveTargetOk C M}.

(** The destination and the class of each move of the list, and the values that are
    to be moved. *)
Context (T : list (Z * bool)).
Hypothesis T_distinct : NoDup T.*1.
Hypothesis T_ok : forall i d k, T !! i = Some (d, k) -> loc_ok k d.

(** The pending moves, the last one first. *)
Implicit Type (K : list nat).

Fixpoint chain (ms : list MoveOperands) K : Prop :=
  match K with
  | i :: ((j :: _) as K') =>
      (forall mv d k, ms !! i = Some mv -> T !! j = Some (d, k) -> src mv = d) /\ chain ms K'
  | _ => True
  end.

(** A move of the list: performed, pending or waiting. *)
Definition state_of K (i : nat) (d : Z) (k : bool) (mv : MoveOperands) : Prop :=
  (mv = Eliminate /\ i ∉ K) \/
  (source_ok k (src mv) /\
   ((i ∈ K /\ dest mv = 0 /\ Location.IsConstant (src mv) = false) \/
    (i ∉ K /\ dest mv = d /\ src mv <> d))).

Record shape K (ms : list MoveOperands) : Prop := mk_shape {
  shape_length : length ms = length T;
  shape_at : forall i mv d k, ms !! i = Some mv -> T !! i = Some (d, k) -> state_of K i d k mv;
  shape_chain : chain ms K;
  shape_distinct : NoDup K;
  shape_bound : forall i, i ∈ K -> (i < length T)%nat
}.

(** What the calls of [PerformMove] may do to the other moves: a waiting move keeps its
    source, or reads it from the destination of a move that has been performed. *)
Definition evolves K (ms ms' : list MoveOperands) : Prop :=
  forall i mv mv', ms !! i = Some mv -> ms' !! i = Some mv' -> i ∉ K -> src mv' <> 0 ->
    mv' = mv \/
    (Location.IsConstant (src mv) = false /\ src mv <> 0 /\ dest mv' = dest mv /\
     exists q d k mvq, T !! q = Some (d, k) /\ src mv' = d /\ q ∉ K /\
       ms !! q = Some mvq /\ src mvq <> 0 /\ ms' !! q = Some Eliminate).

(** The machine holds the values of the performed moves in their destinations and those
    of the others in their sources. *)
Definition values (V : list Z) (m0 m : M) (ms : list MoveOperands) : Prop :=
  (forall i mv d k v, ms !! i = Some mv -> T !! i = Some (d, k) -> V !! i = Some v ->
    if decide (src mv = 0) then read m d = v else source m k (src mv) = v) /\
  (forall k l, loc_ok k l -> l ∉ T.*1 -> read m l = read m0 l).

Definition realizes (c c' : C) (ms ms' : list MoveOperands) : Prop :=
  linked c' -> linked c /\ forall V m0 m, ok m -> values V m0 m ms ->
    exists m', runs c c' m m' /\ ok m' /\ values V m0 m' ms'.

Lemma realizes_refl c ms ms' :
  (forall V m0 m, values V m0 m ms -> values V m0 m ms') -> realizes c c ms ms'.
Proof.
  intros Hv Hl; split; [done |]; intros V m0 m Hm Hms.
  exists m; split_and!; [apply runs_refl | done | auto].
Qed.

Lemma realizes_trans c1 c2 c3 ms1 ms2 ms3 :
  realizes c1 c2 ms1 ms2 -> realizes c2 c3 ms2 ms3 -> realizes c1 c3 ms1 ms3.
Proof.
  intros H1 H2 [Hl2 H2']%H2; destruct (H1 Hl2) as [Hl1 H1']; split; [done |]; clear H1 H2.
  intros V m0 m Hm Hv; destruct (H1' V m0 m Hm Hv) as (m1 & Hr1 & Hm1 & Hv1).
  destruct (H2' V m0 m1 Hm1 Hv1) as (m2 & Hr2 & Hm2 & Hv2).
  exists m2; split_and!; eauto using runs_trans.
Qed.

(** ** Facts about destinations *)
Lemma T_inj i j d k k' : T !! i = Some (d, k) -> T !! j = Some (d, k') -> i = j.
Proof.
  intros Hi Hj; apply (NoDup_lookup T.*1 i j d T_distinct);
    rewrite list_lookup_fmap; [rewrite Hi | rewrite Hj]; done.
Qed.

Lemma T_place i d k : T !! i = Some (d, k) -> d <> 0 /\ Location.IsConstant d = false.
Proof. eauto using loc_ok_place. Qed.

Lemma T_in i d k : T !! i = Some (d, k) -> d ∈ T.*1.
Proof.
  intros Hi; apply (list_elem_of_lookup_2 _ i); rewrite list_lookup_fmap, Hi; done.
Qed.

Lemma source_ok_valid k l : source_ok k l -> l <> 0.
Proof.
  intros [[_ Hl] | [Hc _]]; [apply loc_ok_place in Hl as [? _]; done |].
  intros ->; discriminate Hc.
Qed.

Lemma shape_lookup K ms i mv :
  shape K ms -> ms !! i = Some mv -> exists d k, T !! i = Some (d, k) /\ state_of K i d k mv.
Proof.
  intros Hs Hi; destruct (lookup_lt_is_Some_2 T i) as [[d k] Hd].
  { rewrite <- (shape_length _ _ Hs); apply lookup_lt_is_Some_1; eauto. }
  exists d, k; split; [done |]; apply (shape_at _ _ Hs i); done.
Qed.

Lemma state_consistent K i d k mv : state_of K i d k mv -> consistent mv.
Proof.
  intros [[-> _] | [Hs _]] E; [done |]; apply source_ok_valid in Hs; done.
Qed.

Lemma shape_consistent K ms : shape K ms -> Forall consistent ms.
Proof.
  intros Hs; apply Forall_lookup; intros i mv Hi.
  destruct (shape_lookup K ms i mv Hs Hi) as (d & k & _ & Hst); eauto using state_consistent.
Qed.

Lemma shape_source K ms i mv d k :
  shape K ms -> ms !! i = Some mv -> T !! i = Some (d, k) -> src mv <> 0 -> source_ok k (src mv).
Proof.
  intros Hs Hi Hd Hz; destruct (shape_at _ _ Hs i mv d k Hi Hd) as [[-> _] | [? _]]; done.
Qed.

(** A destination that occurs in the list is that of a waiting move. *)
Lemma shape_dest K ms j mv i d k :
  shape K ms -> ms !! j = Some mv -> T !! i = Some (d, k) -> dest mv = d ->
  i = j /\ i ∉ K /\ src mv <> 0.
Proof.
  intros Hs Hj Hi E; destruct (shape_lookup K ms j mv Hs Hj) as (d' & k' & Hd' & Hst).
  destruct (T_place _ _ _ Hi) as [Hz _].
  destruct Hst as [[-> _] | (Hsrc & [(_ & Ez & _) | (HK & Ed & _)])]; [done | congruence |].
  assert (d' = d) as -> by congruence.
  rewrite (T_inj i j d k k' Hi Hd'); split_and!; [done | done | eauto using source_ok_valid].
Qed.

(** ** The chain of pending moves *)
Lemma pending_chain_ext ms ms' K :
  (forall i mv', i ∈ K -> ms' !! i = Some mv' -> exists mv, ms !! i = Some mv /\ src mv' = src mv) ->
  chain ms K -> chain ms' K.
Proof.
  induction K as [| i [| j K] IH]; cbn; [done | done |]; intros Hext [Hij Hc]; split.
  - intros mv' d k Hi Hj; destruct (Hext i mv' ltac:(constructor) Hi) as (mv & Hmv & ->); eauto.
  - apply IH; [| done]; intros; apply Hext; [constructor 2 |]; done.
Qed.

(** The swap of a destination that is not pending and that of the topmost pending move
    keeps the sources of the chain. *)
Lemma chain_swap ms s d K :
  (forall x dx k, x ∈ tail K -> T !! x = Some (dx, k) -> dx <> s /\ dx <> d) ->
  (forall x, x ∈ K -> is_Some (T !! x)) ->
  chain ms K -> chain (swap_source s d <$> ms) K.
Proof.
  induction K as [| i [| j K] IH]; cbn [chain]; [done | done |]; intros Hne HT [Hij Hc]; split.
  - intros mv dj k Hi Hj; rewrite list_lookup_fmap in Hi.
    destruct (ms !! i) as [mv1 |]; [| done]; injection Hi as <-.
    pose proof (Hij mv1 dj k eq_refl Hj) as E; destruct (Hne j dj k) as [H1 H2];
      [constructor | done |].
    unfold swap_source; rewrite E, (proj2 (Z.eqb_neq dj s)), (proj2 (Z.eqb_neq dj d)) by done.
    destruct (dj =? 0); done.
  - apply IH; [| | done]; intros x; intros; [apply (Hne x dx k) |]; cbn in *; set_solver.
Qed.

Lemma evolves_refl K ms : evolves K ms ms.
Proof. intros i mv mv' E E'; left; congruence. Qed.

Lemma evolves_trans K ms1 ms2 ms3 :
  length ms1 = length ms2 -> evolves K ms1 ms2 -> evolves K ms2 ms3 ->
  (forall i, ms2 !! i = Some Eliminate -> ms3 !! i = Some Eliminate) ->
  (forall i, ms1 !! i = Some Eliminate -> ms2 !! i = Some Eliminate) -> evolves K ms1 ms3.
Proof.
  intros Hl H12 H23 He Hb i mv1 mv3 H1 H3 HK Hz.
  destruct (lookup_lt_is_Some_2 ms2 i) as [mv2 H2].
  { rewrite <- Hl; apply lookup_lt_is_Some_1; eauto. }
  destruct (H23 i mv2 mv3 H2 H3 HK Hz) as [-> | (Hc & Hn & Ed & q & d & k & mvq & Hq & Es & HqK & Hmq & Hzq & Hqe)].
  - destruct (H12 i mv1 mv2 H1 H2 HK Hz) as [-> | (Hc & Hn & Ed & q & d & k & mvq & Hq & Es & HqK & Hmq & Hzq & Hqe)];
      [left; done |].
    right; split_and!; [done | done | done |]; exists q, d, k, mvq; split_and!; auto.
  - right; destruct (lookup_lt_is_Some_2 ms1 q) as [mvq1 Hq1].
    { rewrite Hl; apply lookup_lt_is_Some_1; eauto. }
    assert (src mvq1 <> 0) as Hzq1.
    { destruct (H12 q mvq1 mvq Hq1 Hmq HqK Hzq) as [-> | (_ & ? & _)]; done. }
    destruct (H12 i mv1 mv2 H1 H2 HK Hn) as [-> | (Hc' & Hn' & Ed' & _)].
    + split_and!; [done | done | done |]; exists q, d, k, mvq1; split_and!; done.
    + split_and!; [done | done | congruence |]; exists q, d, k, mvq1; split_and!; done.
Qed.
(** ** The moves that are emitted *)
(** Code that writes the destinations [W] and scratch locations keeps the values of the
    other moves, and what is no destination. *)
Definition keeps (W : list Z) (ms : list MoveOperands) (m m' : M) : Prop :=
  forall k l, loc_ok k l -> l ∉ W -> ~ scratch ms l -> read m' l = read m l.

Lemma keeps_moves K W ms m m' j mv d k :
  shape K ms -> keeps W ms m m' -> ms !! j = Some mv -> T !! j = Some (d, k) ->
  src mv ∉ W -> (src mv = 0 -> d ∉ W) ->
  if decide (src mv = 0) then read m' d = read m d
  else source m' k (src mv) = source m k (src mv).
Proof.
  intros Hs Hf Hj Hd Hsd Hdw; destruct (decide (src mv = 0)) as [E | E].
  - apply (Hf k); [eauto | auto |].
    intros [(mv' & (x & Hx)%list_elem_of_lookup & Ed) _].
    destruct (shape_dest K ms x mv' j d k Hs Hx Hd Ed) as (<- & _ & ?); congruence.
  - unfold source; destruct (Location.IsConstant (src mv)) eqn:Ec; [done |].
    destruct (shape_source K ms j mv d k Hs Hj Hd E) as [[_ Hl] | [? _]]; [| congruence].
    apply (Hf k); [done | done |].
    intros [_ Hb]; apply (Hb mv); [eapply list_elem_of_lookup_2 |]; done.
Qed.

Lemma keeps_outside K W ms m m' :
  shape K ms -> keeps W ms m m' -> (forall l, l ∈ W -> l ∈ T.*1) ->
  forall k l, loc_ok k l -> l ∉ T.*1 -> read m' l = read m l.
Proof.
  intros Hs Hf HW k l Hl Hout; apply (Hf k); [done | auto |].
  intros [(mv' & (x & Hx)%list_elem_of_lookup & Ed) _].
  destruct (shape_lookup K ms x mv' Hs Hx) as (d' & k2 & Hd' & Hst).
  destruct (loc_ok_place _ _ Hl) as [Hz _].
  destruct Hst as [[-> _] | (_ & [(_ & Ez & _) | (_ & Ed' & _)])]; [done | congruence |].
  apply Hout; rewrite <- Ed, Ed'; eauto using T_in.
Qed.

(** An unblocked move is emitted. *)
Lemma move_values K ms i d k s V m0 m m' :
  shape K ms -> ms !! i = Some (mkMove d s) -> T !! i = Some (d, k) -> s <> 0 ->
  (forall mv, mv ∈ ms -> src mv <> d) ->
  read m' d = source m k s -> keeps [d] ms m m' ->
  values V m0 m ms -> values V m0 m' (<[i := Eliminate]> ms).
Proof.
  intros Hs Hi Hd Hz Hb Hr Hf [Hv Ho]; split.
  - intros j mv dj kj v Hj Hdj Hvj; destruct (decide (j = i)) as [-> | Hne].
    + rewrite list_lookup_insert_eq in Hj by (apply lookup_lt_is_Some_1; eauto).
      injection Hj as <-; assert (dj = d /\ kj = k) as [-> ->] by (split; congruence).
      rewrite decide_True by done; rewrite Hr.
      pose proof (Hv i _ d k v Hi Hd Hvj) as E; cbn in E; rewrite decide_False in E; done.
    + rewrite list_lookup_insert_ne in Hj by done.
      pose proof (Hv j mv dj kj v Hj Hdj Hvj) as E.
      pose proof (Hb mv ltac:(eauto using list_elem_of_lookup_2)).
      assert (dj <> d) by (intros ->; destruct Hne; eauto using T_inj).
      pose proof (keeps_moves K [d] ms m m' j mv dj kj Hs Hf Hj Hdj
        ltac:(set_solver) ltac:(set_solver)).
      destruct (decide (src mv = 0)); congruence.
  - intros k' l Hl Hout; rewrite <- (Ho k' l Hl Hout).
    apply (keeps_outside K [d] ms m m' Hs Hf) with k'; [| done | done].
    intros l' ->%list_elem_of_singleton; eauto using T_in.
Qed.

(** A swap: the source is the destination of a pending move. *)
Lemma swap_values K ms i d k s V m0 m m' :
  shape K ms -> ms !! i = Some (mkMove d s) -> T !! i = Some (d, k) -> loc_ok k s -> s <> d ->
  (exists js, js ∈ K /\ T !! js = Some (s, k)) ->
  read m' d = read m s -> read m' s = read m d -> keeps [d; s] ms m m' ->
  values V m0 m ms -> values V m0 m' (swap_source s d <$> <[i := Eliminate]> ms).
Proof.
  intros Hs Hi Hd Hks Hsd (js & HjK & Hjs) Hrd Hrs Hf [Hv Ho].
  destruct (loc_ok_place _ _ Hks) as [Hzs Hcs], (T_place _ _ _ Hd) as [Hzd Hcd]; split.
  - intros j mv dj kj v Hj Hdj Hvj; rewrite list_lookup_fmap in Hj.
    destruct (decide (j = i)) as [-> | Hne].
    { rewrite list_lookup_insert_eq in Hj by (apply lookup_lt_is_Some_1; eauto).
      injection Hj as <-; assert (dj = d /\ kj = k) as [-> ->] by (split; congruence).
      rewrite decide_True by done; rewrite Hrd.
      pose proof (Hv i _ d k v Hi Hd Hvj) as E; cbn in E; unfold source in E.
      rewrite Hcs, decide_False in E; done. }
    rewrite list_lookup_insert_ne in Hj by done.
    destruct (ms !! j) as [mv1 |] eqn:Hj1; [| done]; injection Hj as <-.
    pose proof (Hv j mv1 dj kj v Hj1 Hdj Hvj) as E; unfold swap_source.
    assert (dj <> d) by (intros ->; destruct Hne; eauto using T_inj).
    assert (src mv1 = 0 -> dj <> s) as Hdjs.
    { intros E0 ->; assert (j = js) as -> by eauto using T_inj.
      destruct (shape_at _ _ Hs js mv1 s kj Hj1 Hdj) as [[_ ?] | [Hso _]]; [done |].
      apply source_ok_valid in Hso; done. }
    pose proof (keeps_moves K [d; s] ms m m' j mv1 dj kj Hs Hf Hj1 Hdj) as Hk.
    destruct (Z.eqb_spec (src mv1) 0) as [E0 | E0].
    { rewrite decide_True in E, Hk |- * by done; rewrite Hk; [done | set_solver | set_solver]. }
    rewrite decide_False in E, Hk by done.
    destruct (Z.eqb_spec (src mv1) s) as [Es | Es];
      [| destruct (Z.eqb_spec (src mv1) d) as [Es2 | Es2]]; cbn; rewrite decide_False by done.
    + revert E; unfold source; rewrite Es, Hcs, Hcd; congruence.
    + revert E; unfold source; rewrite Es2, Hcs, Hcd; congruence.
    + rewrite Hk; [done | set_solver | done].
  - intros k' l Hl Hout; rewrite <- (Ho k' l Hl Hout).
    apply (keeps_outside K [d; s] ms m m' Hs Hf) with k'; [| done | done].
    intros l' [-> | ->%list_elem_of_singleton]%elem_of_cons; eauto using T_in.
Qed.
(** ** [PerformMove] *)
Record progress K (r r' : Resolver C) : Prop := mk_progress {
  progress_shape : shape K (moves_ r');
  progress_evolves : evolves K (moves_ r) (moves_ r');
  progress_done i : moves_ r !! i = Some Eliminate -> moves_ r' !! i = Some Eliminate;
  progress_good : good (compiler_ r');
  progress_code : realizes (compiler_ r) (compiler_ r') (moves_ r) (moves_ r')
}.

Lemma progress_refl K r : shape K (moves_ r) -> good (compiler_ r) -> progress K r r.
Proof. constructor; [done | apply evolves_refl | done | done | apply realizes_refl; done]. Qed.

Lemma progress_trans K r1 r2 r3 :
  shape K (moves_ r1) -> progress K r1 r2 -> progress K r2 r3 -> progress K r1 r3.
Proof.
  intros Hs [H1 H2 H3 H4 H5] [J1 J2 J3 J4 J5]; constructor; [done | | auto | done |].
  - apply (evolves_trans K (moves_ r1) (moves_ r2)); try done.
    rewrite (shape_length _ _ Hs), (shape_length _ _ H1); done.
  - eapply realizes_trans; done.
Qed.

Lemma move_at_ok ms i mv : ms !! i = Some mv -> move_at ms i = Ok mv.
Proof. intros E; unfold move_at; rewrite E; done. Qed.

(** No waiting move below index [n] reads [d]. *)
Definition unread K (n : nat) (d : Z) (ms : list MoveOperands) : Prop :=
  forall j mv, (j < n)%nat -> j ∉ K -> ms !! j = Some mv -> src mv <> d.

Lemma unread_progress K r r' n d i k :
  progress K r r' -> length (moves_ r) = length (moves_ r') ->
  i ∈ K -> T !! i = Some (d, k) -> unread K n d (moves_ r) -> unread K n d (moves_ r').
Proof.
  intros Hp Hl Hi Hd Hu j mv' Hj HjK Hmv' E.
  destruct (lookup_lt_is_Some_2 (moves_ r) j) as [mv Hmv].
  { rewrite Hl; apply lookup_lt_is_Some_1; eauto. }
  destruct (T_place _ _ _ Hd) as [Hz _].
  destruct (progress_evolves _ _ _ Hp j mv mv' Hmv Hmv' HjK ltac:(congruence))
    as [-> | (_ & _ & _ & q & dq & kq & mvq & Hq & Es & HqK & _)].
  - apply (Hu j mv); done.
  - assert (dq = d) as -> by congruence.
    rewrite (T_inj q i d kq k Hq Hd) in HqK; done.
Qed.

Lemma unread_step K i d ms :
  unread K i d ms -> (forall mv, ms !! i = Some mv -> i ∉ K -> src mv <> d) ->
  unread K (S i) d ms.
Proof.
  intros Hu Hi j mv Hj HK Hmv; destruct (decide (j = i)) as [-> | Hne]; [auto |].
  apply (Hu j mv); [lia | done | done].
Qed.

(** The condition of the loop: the move waits and reads the destination. *)
Lemma blocking_test K i d di ki mv :
  state_of K i di ki mv -> T !! i = Some (di, ki) -> d <> 0 ->
  (let* b := Blocks d mv in
   if b then let* p := IsPending mv in Ok (negb p) else Ok false)
  = Ok ((src mv =? d) && bool_decide (i ∉ K)).
Proof.
  intros Hst Hdi Hz; pose proof (state_consistent _ _ _ _ _ Hst) as Hc.
  rewrite Blocks_ok by done; cbn [obind].
  destruct (Z.eqb_spec (src mv) d) as [E | E]; [| done]; rewrite IsPending_ok by done; cbn.
  rewrite E, (proj2 (Z.eqb_neq d 0)) by done; rewrite andb_true_r; f_equal.
  destruct Hst as [[-> _] | (_ & [(HK & -> & _) | (HK & -> & _)])]; [done | |].
  - rewrite bool_decide_false by tauto; done.
  - rewrite bool_decide_true by done; destruct (T_place _ _ _ Hdi) as [? _].
    rewrite (proj2 (Z.eqb_neq di 0)); done.
Qed.

Lemma perform_blocking_ok (perform : nat -> Resolver C -> outcome (Resolver C)) K i0 d k :
  i0 ∈ K -> T !! i0 = Some (d, k) ->
  (forall j r dj kj, shape K (moves_ r) -> good (compiler_ r) ->
    moves_ r !! j = Some (mkMove dj d) -> T !! j = Some (dj, kj) -> j ∉ K ->
    returns (perform j r) (fun r' => progress K r r' /\ moves_ r' !! j = Some Eliminate)) ->
  forall n i r, (i + n)%nat = length T -> shape K (moves_ r) -> good (compiler_ r) ->
    unread K i d (moves_ r) ->
    returns (perform_blocking perform d n i r) (fun r' =>
      progress K r r' /\ unread K (length T) d (moves_ r')).
Proof.
  intros Hi0 Hd Hperf n; induction n as [| n IH]; intros i r Hn Hs Hg Hu; cbn [perform_blocking].
  { apply returns_Ok; split; [apply progress_refl; done |].
    replace (length T) with i by lia; done. }
  destruct (lookup_lt_is_Some_2 (moves_ r) i) as [mv Hmv]; [rewrite (shape_length _ _ Hs); lia |].
  destruct (shape_lookup _ _ _ _ Hs Hmv) as (di & ki & Hdi & Hst), (T_place _ _ _ Hd) as [Hz _].
  rewrite (move_at_ok _ _ _ Hmv); cbn [obind].
  eapply returns_bind_assoc with (P := fun c => c = (src mv =? d) && bool_decide (i ∉ K)).
  { exists ((src mv =? d) && bool_decide (i ∉ K)); split; [| done].
    apply (blocking_test K i d di ki); done. }
  intros c ->; enough (returns (if (src mv =? d) && bool_decide (i ∉ K) then perform i r else Ok r)
    (fun r' => progress K r r' /\ unread K (S i) d (moves_ r'))) as Hstep.
  { eapply returns_bind; [exact Hstep |]; cbn beta; intros r1 [Hp1 Hu1].
    eapply returns_mono; [apply IH; [lia | eapply progress_shape | eapply progress_good |]; done |].
    intros r2 [Hp2 Hu2]; split; [eapply progress_trans |]; done. }
  destruct (Z.eqb_spec (src mv) d) as [E | E], (bool_decide_reflect (i ∉ K)) as [HK | HK];
    cbn [andb]; try (apply returns_Ok; split; [apply progress_refl; done |];
                     apply unread_step; [done |]; intros; congruence || done).
  destruct Hst as [[-> _] | (_ & [[? _] | (_ & Ed & _)])]; [done | done |].
  destruct mv as [dm sm]; cbn in E, Ed; subst dm sm.
  eapply returns_mono; [apply (Hperf i r di ki); done |]; intros r' [Hp He]; split; [done |].
  apply unread_step; [| intros mv' Hmv' _; rewrite He in Hmv'; injection Hmv' as <-; done].
  apply (unread_progress K r r' i d i0 k Hp); try done.
  rewrite (shape_length _ _ Hs), (shape_length _ _ (progress_shape _ _ _ Hp)); done.
Qed.

Lemma values_ext V m0 m ms ms' :
  (forall i mv', ms' !! i = Some mv' -> exists mv, ms !! i = Some mv /\ src mv' = src mv) ->
  values V m0 m ms -> values V m0 m ms'.
Proof.
  intros Hext [Hv Ho]; split; [| done]; intros i mv' d k v Hi.
  destruct (Hext i mv' Hi) as (mv & Hmv & ->); apply (Hv i mv d k v Hmv).
Qed.

Lemma values_dest V m0 m ms i d d' s :
  ms !! i = Some (mkMove d s) -> values V m0 m ms -> values V m0 m (<[i := mkMove d' s]> ms).
Proof.
  intros Hi; apply values_ext; intros j mv' Hj.
  destruct (decide (j = i)) as [-> | Hne]; [| rewrite list_lookup_insert_ne in Hj; eauto].
  rewrite list_lookup_insert_eq in Hj by (apply lookup_lt_is_Some_1; eauto).
  injection Hj as <-; eauto.
Qed.

(** The cases of a lookup in an updated list. *)
Lemma lookup_set (ms : list MoveOperands) i j mv mv' :
  <[i := mv]> ms !! j = Some mv' -> (j = i /\ mv' = mv) \/ (j <> i /\ ms !! j = Some mv').
Proof.
  intros [(-> & <- & _) | [? ?]]%list_lookup_insert_Some; [left | right]; done.
Qed.

Lemma state_of_ext K K' i d k mv : (i ∈ K <-> i ∈ K') -> state_of K i d k mv -> state_of K' i d k mv.
Proof. unfold state_of; tauto. Qed.

(** A waiting move becomes pending. *)
Lemma shape_pend K ms i d k s :
  shape K ms -> ms !! i = Some (mkMove d s) -> T !! i = Some (d, k) -> i ∉ K -> s <> 0 ->
  Location.IsConstant s = false -> chain ms (i :: K) -> shape (i :: K) (<[i := mkMove 0 s]> ms).
Proof.
  intros Hs Hi Hd HK Hz Hcs Hc; destruct Hs as [Hl Ha _ Hnd Hb]; constructor.
  - rewrite length_insert; done.
  - intros j mv dj kj Hj Hdj; destruct (lookup_set _ _ _ _ _ Hj) as [[-> ->] | [Hne Hj']].
    + right; assert (kj = k) as -> by congruence.
      destruct (Ha i _ d k Hi Hd) as [[E _] | [Hso _]]; [injection E as -> ->; done |].
      split; [done |]; left; split_and!; [constructor | done | done].
    + apply (state_of_ext K); [set_solver | eauto].
  - revert Hc; apply pending_chain_ext; intros j mv' _ Hj.
    destruct (lookup_set _ _ _ _ _ Hj) as [[-> ->] | [_ ?]]; eauto.
  - constructor; done.
  - intros j [-> | ?]%elem_of_cons; [| auto]; apply lookup_lt_is_Some_1; eauto.
Qed.

(** The topmost pending move is performed. *)
Lemma shape_eliminate K ms i :
  shape (i :: K) ms -> shape K (<[i := Eliminate]> ms).
Proof.
  intros [Hl Ha Hc Hnd Hb]; apply NoDup_cons in Hnd as [Hi Hnd]; constructor.
  - rewrite length_insert; done.
  - intros j mv dj kj Hj Hdj; destruct (lookup_set _ _ _ _ _ Hj) as [[-> ->] | [Hne Hj']];
      [left; done |].
    apply (state_of_ext (i :: K)); [set_solver | eauto].
  - destruct K as [| j K]; [done |]; destruct Hc as [_ Hc]; revert Hc.
    apply pending_chain_ext; intros x mv' Hx Hx'.
    destruct (lookup_set _ _ _ _ _ Hx') as [[-> ->] | [_ ?]]; eauto; done.
  - done.
  - intros; apply Hb; constructor 2; done.
Qed.

(** ... or waits again, for its code. *)
Lemma shape_unpend K ms i d k s :
  shape (i :: K) ms -> ms !! i = Some (mkMove 0 s) -> T !! i = Some (d, k) -> s <> d ->
  shape K (<[i := mkMove d s]> ms).
Proof.
  intros Hs Hi Hd Hsd; pose proof (shape_eliminate K ms i Hs) as [Hl Ha Hc Hnd Hb].
  pose proof (shape_distinct _ _ Hs) as HK; apply NoDup_cons in HK as [HK _]; constructor.
  - rewrite length_insert in *; done.
  - intros j mv dj kj Hj Hdj; destruct (lookup_set _ _ _ _ _ Hj) as [[-> ->] | [Hne Hj']].
    + assert (dj = d /\ kj = k) as [-> ->] by (split; congruence).
      destruct (shape_at _ _ Hs i _ d k Hi Hd) as [[_ Hn] | [Hso _]]; [set_solver |].
      right; split; [done |]; right; done.
    + apply (Ha j mv); [rewrite list_lookup_insert_ne | ]; done.
  - revert Hc; apply pending_chain_ext; intros x mv' Hx Hx'.
    destruct (lookup_set _ _ _ _ _ Hx') as [[-> ->] | [Hne Hx2]]; [done |].
    exists mv'; rewrite list_lookup_insert_ne; done.
  - done.
  - done.
Qed.

(** The sources after a swap with the destination of the topmost pending move. *)
Lemma shape_swap K js ms i d s k :
  shape (js :: K) ms -> T !! i = Some (d, k) -> i ∉ js :: K -> T !! js = Some (s, k) ->
  unread (js :: K) (length T) d ms -> ms !! i = Some Eliminate ->
  shape (js :: K) (swap_source s d <$> ms).
Proof.
  intros Hs Hd HiK Hjs Hu Hi; pose proof Hs as [Hl Ha Hc Hnd Hb].
  destruct (T_place _ _ _ Hd) as [Hzd Hcd], (T_place _ _ _ Hjs) as [Hzs Hcs].
  constructor; [rewrite length_fmap; done | | | done | done].
  - intros j mv dj kj Hj Hdj; rewrite list_lookup_fmap in Hj.
    destruct (ms !! j) as [mv1 |] eqn:Hj1; [| done]; injection Hj as <-.
    destruct (Ha j mv1 dj kj Hj1 Hdj) as [[-> ?] | [Hso Hst]]; [left; done |]; right.
    unfold swap_source; pose proof (source_ok_valid _ _ Hso) as Hz.
    rewrite (proj2 (Z.eqb_neq (src mv1) 0)) by done.
    assert (forall l l', loc_ok k l -> loc_ok k l' -> src mv1 = l -> source_ok kj l') as Hswap.
    { intros l l' H1 H2 E; destruct (loc_ok_place _ _ H1) as [_ Ec], (loc_ok_place _ _ H2) as [_ Ec'].
      destruct Hso as [[_ Hl1] | [Hc1 _]]; [| congruence]; rewrite E in Hl1.
      rewrite (loc_ok_class kj k l Hl1 H1); left; done. }
    assert (j ∉ js :: K -> src mv1 <> d) as Hud.
    { intros HjK; apply (Hu j mv1); [rewrite <- Hl; apply lookup_lt_is_Some_1 | |]; eauto. }
    destruct (Z.eqb_spec (src mv1) s) as [E | E]; [| destruct (Z.eqb_spec (src mv1) d) as [E' | E']]; cbn.
    + split; [apply (Hswap s d); eauto |].
      destruct Hst as [(? & ? & _) | (HjK & Ed & _)]; [left; done | right; split_and!; [done | done |]].
      intros ->; rewrite (T_inj j i dj kj k Hdj Hd), Hi in Hj1; injection Hj1 as <-; done.
    + split; [apply (Hswap d s); eauto |].
      destruct Hst as [(? & ? & _) | (HjK & _)]; [left; done | destruct (Hud HjK); done].
    + split; done.
  - apply chain_swap; [| | done].
    + intros x dx kx Hx Hdx; cbn in Hx; apply NoDup_cons in Hnd as [Hjn _]; split; intros ->.
      * rewrite (T_inj x js s kx k Hdx Hjs) in Hx; done.
      * rewrite (T_inj x i d kx k Hdx Hd) in Hx; set_solver.
    + intros x Hx; apply lookup_lt_is_Some_2; auto.
Qed.

(** The other moves, when the topmost pending move has been performed. *)
Lemma evolves_eliminate K ms ms1 i d s :
  ms !! i = Some (mkMove d s) -> evolves (i :: K) (<[i := mkMove 0 s]> ms) ms1 ->
  length ms = length ms1 -> evolves K ms (<[i := Eliminate]> ms1).
Proof.
  intros Hi He Hl j mv mv' Hj Hj' HjK Hz.
  destruct (lookup_set _ _ _ _ _ Hj') as [[-> ->] | [Hne Hj1]]; [done |].
  destruct (He j mv mv') as [-> | (Hc & Hn & Ed & q & dq & kq & mvq & Hq & Es & HqK & Hmq & Hzq & Hqe)];
    [rewrite list_lookup_insert_ne; done | done | set_solver | done | left; done |].
  right; split_and!; [done | done | done |]; exists q, dq, kq, mvq.
  assert (q <> i) as Hqi by (intros ->; set_solver).
  rewrite list_lookup_insert_ne in Hmq by done; rewrite list_lookup_insert_ne by done.
  split_and!; try done; set_solver.
Qed.

Lemma evolves_swap K ms ms2 i d k s mvi :
  evolves K ms ms2 -> ms !! i = Some mvi -> src mvi <> 0 -> T !! i = Some (d, k) -> i ∉ K ->
  ms2 !! i = Some Eliminate -> Location.IsConstant s = false -> s <> 0 ->
  length ms2 = length T -> unread K (length T) d ms2 ->
  evolves K ms (swap_source s d <$> ms2).
Proof.
  intros He Hi Hzi Hd HiK Hi2 Hcs Hzs Hl Hu j mv mv' Hj Hj' HjK Hz.
  rewrite list_lookup_fmap in Hj'; destruct (ms2 !! j) as [mv2 |] eqn:Hj2; [| done].
  injection Hj' as <-; unfold swap_source in Hz |- *.
  destruct (Z.eqb_spec (src mv2) 0) as [E0 | E0]; [done |].
  assert (forall q, ms2 !! q = Some Eliminate ->
    (swap_source s d <$> ms2) !! q = Some Eliminate) as Hel.
  { intros q Hq; rewrite list_lookup_fmap, Hq; done. }
  assert (src mv2 <> d) as Hnd.
  { apply (Hu j mv2); [rewrite <- Hl; apply lookup_lt_is_Some_1; eauto | done | done]. }
  rewrite (proj2 (Z.eqb_neq (src mv2) d)) by done.
  destruct (He j mv mv2 Hj Hj2 HjK E0)
    as [<- | (Hc & Hn & Ed & q & dq & kq & mvq & Hq & Es & HqK & Hmq & Hzq & Hqe)];
    destruct (Z.eqb_spec (src mv2) s) as [E | E]; cbn.
  - right; rewrite E; split_and!; [done | done | done |]; exists i, d, k, mvi; split_and!; auto.
  - left; done.
  - right; split_and!; [done | done | done |]; exists i, d, k, mvi; split_and!; auto.
  - right; split_and!; [done | done | done |]; exists q, dq, kq, mvq; split_and!; auto.
Qed.

(** ** The end of [PerformMove]: the moves that block this one have been performed *)
Section Finish.
Context (K : list nat) (r r1 : Resolver C) (i : nat) (d : Z) (k : bool) (mv : MoveOperands) (s : Z).
Hypothesis Hi : moves_ r !! i = Some mv.
Hypothesis Hz : src mv <> 0.
Hypothesis Hd : T !! i = Some (d, k).
Hypothesis Hs1 : shape (i :: K) (moves_ r1).
Hypothesis Hi1 : moves_ r1 !! i = Some (mkMove 0 s).
Hypothesis Hu1 : unread (i :: K) (length T) d (moves_ r1).
Hypothesis Hso : source_ok k s.
Hypothesis Hcs : Location.IsConstant s = false.
Hypothesis Hg1 : good (compiler_ r1).
Let ms2 := <[i := mkMove d s]> (moves_ r1).
Let ms3 := <[i := Eliminate]> (moves_ r1).
Hypothesis He3 : evolves K (moves_ r) ms3.
Hypothesis Hd3 : forall j, moves_ r !! j = Some Eliminate -> ms3 !! j = Some Eliminate.
Hypothesis Hr2 : realizes (compiler_ r) (compiler_ r1) (moves_ r) ms2.

#[local] Lemma finish_lt : (i < length (moves_ r1))%nat.
Proof. apply lookup_lt_is_Some_1; eauto. Qed.

#[local] Lemma finish_ms2 : ms2 !! i = Some (mkMove d s).
Proof. apply list_lookup_insert_eq, finish_lt. Qed.

#[local] Lemma finish_ms3 : ms3 !! i = Some Eliminate.
Proof. apply list_lookup_insert_eq, finish_lt. Qed.

#[local] Lemma finish_loc : loc_ok k s.
Proof. destruct Hso as [[_ ?] | [? _]]; [done | congruence]. Qed.

#[local] Lemma finish_top : i ∉ K.
Proof. pose proof (shape_distinct _ _ Hs1) as HK; apply NoDup_cons in HK as [? _]; done. Qed.

(** The swaps left the value of this move in its destination. *)
Lemma finish_eliminated :
  s = d -> progress K r (mkResolver (compiler_ r1) ms3).
Proof.
  intros Es; constructor; cbn; try done; [apply shape_eliminate; done |].
  eapply realizes_trans; [exact Hr2 |]; apply realizes_refl.
  intros V m0 m [Hv Ho]; split; [| done]; intros j mvj dj kj v Hj Hdj Hvj.
  destruct (lookup_set _ _ _ _ _ Hj) as [[-> ->] | [Hne Hj1]].
  - assert (dj = d /\ kj = k) as [-> ->] by (split; congruence).
    destruct (T_place _ _ _ Hd) as [Hzd Hcd].
    pose proof (Hv i (mkMove d s) d k v finish_ms2 Hd Hvj) as E.
    cbn in E; rewrite Es, decide_False in E by done; unfold source in E; rewrite Hcd in E; done.
  - apply (Hv j mvj dj kj v); [unfold ms2; rewrite list_lookup_insert_ne | |]; done.
Qed.

Lemma finish_shape : s <> d -> shape K ms2.
Proof. apply shape_unpend with k; done. Qed.

Lemma finish_unread ms mv2 :
  ms = <[i := mv2]> (moves_ r1) -> src mv2 <> d -> unread K (length T) d ms.
Proof.
  intros -> Hn j mvj Hj HjK Hmv.
  destruct (lookup_set _ _ _ _ _ Hmv) as [[-> ->] | [Hne Hj1]]; [done |].
  apply (Hu1 j mvj); [done | set_solver | done].
Qed.

(** A move that blocks this one is pending, so there is a pending move below. *)
Lemma finish_blocked :
  s <> d -> returns (blocked d ms2) (fun b =>
    if b then exists js K', K = js :: K' /\ T !! js = Some (s, k)
    else forall mv, mv ∈ ms2 -> src mv <> d).
Proof.
  intros Hsd; pose proof (finish_shape Hsd) as Hs2; destruct (T_place _ _ _ Hd) as [Hzd _].
  pose proof (finish_unread ms2 _ eq_refl Hsd) as Hu2.
  assert (forall j mvj, ms2 !! j = Some mvj -> src mvj = d -> j ∈ K) as HinK.
  { intros j mvj Hj E; destruct (decide (j ∈ K)) as [| HjK]; [done |].
    destruct (Hu2 j mvj); try done; rewrite <- (shape_length _ _ Hs2).
    apply lookup_lt_is_Some_1; eauto. }
  eapply returns_mono; [apply blocked_ok; [apply (shape_consistent K), Hs2 | done |] |].
  - intros mvj (j & Hj)%list_elem_of_lookup E.
    destruct (shape_lookup _ _ _ _ Hs2 Hj) as (dj & kj & _ & Hst).
    pose proof (HinK j mvj Hj E).
    destruct Hst as [[-> _] | (_ & [(_ & ? & _) | [? _]])]; done.
  - intros [] Hb; [| done]; destruct Hb as (mvj & (j & Hj)%list_elem_of_lookup & E).
    pose proof (HinK j mvj Hj E) as HjK.
    assert (exists js K', K = js :: K') as (js & K' & EK).
    { clear -HjK; destruct K; [apply elem_of_nil in HjK as [] | eauto]. }
    destruct (lookup_lt_is_Some_2 T js) as [[ds ks] Hjs]; [apply (shape_bound _ _ Hs1); set_solver |].
    pose proof (shape_chain _ _ Hs1) as Hc; rewrite EK in Hc; destruct Hc as [Hc _].
    pose proof (Hc _ ds ks Hi1 Hjs) as Es; cbn in Es; subst ds.
    exists js, K'; split; [done |].
    rewrite <- (loc_ok_class ks k s (T_ok _ _ _ Hjs) finish_loc); done.
Qed.

Lemma finish_swap js K' :
  s <> d -> K = js :: K' -> T !! js = Some (s, k) ->
  returns (EmitSwap i (mkResolver (compiler_ r1) ms2))
    (fun r' => progress K r r' /\ moves_ r' !! i = Some Eliminate).
Proof.
  intros Hsd EK Hjs; pose proof (finish_shape Hsd) as Hs2.
  pose proof (shape_eliminate _ _ _ Hs1) as Hs3; fold ms3 in Hs3.
  pose proof (finish_unread ms3 Eliminate eq_refl) as Hu3.
  destruct (T_place _ _ _ Hd) as [Hzd _], (T_place _ _ _ Hjs) as [Hzs _].
  eapply returns_mono; [apply (EmitSwap_ok i _ d s k); eauto using finish_ms2, finish_loc |].
  { apply (shape_consistent K); done. }
  intros [c' ms'] (Ems & Hg & Hrun); cbn in Ems; subst ms'.
  assert (<[i := Eliminate]> ms2 = ms3) as -> by apply list_insert_insert_eq; cbn in *.
  assert ((swap_source s d <$> ms3) !! i = Some Eliminate) as Hi4.
  { rewrite list_lookup_fmap, finish_ms3; done. }
  split; [constructor; cbn; try done | exact Hi4].
  - pose proof finish_top; rewrite EK in *; apply (shape_swap K' js ms3 i d s k); eauto using finish_ms3.
  - apply (evolves_swap K _ _ i d k s mv); eauto using finish_ms3, finish_top, shape_length.
  - intros j Hj; rewrite list_lookup_fmap, (Hd3 j Hj); done.
  - eapply realizes_trans; [exact Hr2 |]; intros [Hl1 Hrun']%Hrun; split; [done |].
    intros V m0 m Hm Hv; destruct (Hrun' m Hm) as (m' & Hruns & Hm' & E1 & E2 & Hf); exists m'; split_and!; [done | done |].
    assert (ms3 = <[i := Eliminate]> ms2) as -> by (symmetry; apply list_insert_insert_eq).
    apply (swap_values K ms2 i d k s V m0 m m'); eauto using finish_ms2, finish_loc.
    + exists js; split; [rewrite EK; constructor | done].
    + intros k' l Hl Hn Hsc; apply (Hf k'); set_solver.
Qed.

Lemma finish_emit :
  s <> d -> (forall mv, mv ∈ ms2 -> src mv <> d) ->
  returns (EmitMove i (mkResolver (compiler_ r1) ms2))
    (fun r' => progress K r r' /\ moves_ r' !! i = Some Eliminate).
Proof.
  intros Hsd Hb; pose proof (finish_shape Hsd) as Hs2.
  pose proof (shape_eliminate _ _ _ Hs1) as Hs3; fold ms3 in Hs3.
  eapply returns_mono; [apply (EmitMove_ok i _ d s k); eauto using finish_ms2, finish_loc |].
  { apply (shape_consistent K); done. }
  intros [c' ms'] (Ems & Hg & Hrun); cbn in Ems; subst ms'.
  assert (<[i := Eliminate]> ms2 = ms3) as E3 by apply list_insert_insert_eq; cbn in *.
  rewrite E3; split; [constructor; cbn; try done | apply finish_ms3].
  eapply realizes_trans; [exact Hr2 |]; intros [Hl1 Hrun']%Hrun; split; [done |].
  intros V m0 m Hm Hv; destruct (Hrun' m Hm) as (m' & Hruns & Hm' & E1 & Hf); exists m'; split_and!; [done | done |].
  rewrite <- E3; apply (move_values K ms2 i d k s V m0 m m'); eauto using finish_ms2, source_ok_valid.
  intros k' l Hl Hn Hsc; apply (Hf k'); set_solver.
Qed.
End Finish.

Lemma perform_finish K r r1 i d k s s1 :
  shape K (moves_ r) -> moves_ r !! i = Some (mkMove d s) -> T !! i = Some (d, k) -> s <> 0 ->
  progress (i :: K) (set_move i (mkMove Location.NoLocation s) r) r1 ->
  moves_ r1 !! i = Some (mkMove 0 s1) -> unread (i :: K) (length T) d (moves_ r1) ->
  source_ok k s1 -> Location.IsConstant s1 = false ->
  let r2 := set_move i (mkMove d s1) r1 in
  returns (if Location.Equals s1 d then Ok (set_move i Eliminate r2)
           else let* b := blocked d (moves_ r2) in
                if b then EmitSwap i r2 else EmitMove i r2)
    (fun r' => progress K r r' /\ moves_ r' !! i = Some Eliminate).
Proof.
  intros Hs Hi Hd Hz [Hs1 He1 Hd1 Hg1 Hr1] Hi1 Hu1 Hso Hcs; cbn in He1, Hd1, Hr1; cbn zeta.
  assert (length (moves_ r) = length (moves_ r1)) as Hlen.
  { rewrite (shape_length _ _ Hs), (shape_length _ _ Hs1); done. }
  assert (i < length (moves_ r1))%nat as Hlt by (apply lookup_lt_is_Some_1; eauto).
  pose proof (evolves_eliminate K _ _ i d s Hi He1 Hlen) as He3.
  assert (forall j, moves_ r !! j = Some Eliminate ->
    <[i := Eliminate]> (moves_ r1) !! j = Some Eliminate) as Hd3.
  { intros j Hj; destruct (decide (j = i)) as [-> | Hne]; [apply list_lookup_insert_eq; done |].
    rewrite list_lookup_insert_ne by done; apply Hd1; rewrite list_lookup_insert_ne; done. }
  assert (realizes (compiler_ r) (compiler_ r1) (moves_ r)
    (<[i := mkMove d s1]> (moves_ r1))) as Hr2.
  { eapply realizes_trans;
      [apply realizes_refl; intros V m0 m; exact (values_dest V m0 m _ i d 0 s Hi) |].
    eapply realizes_trans; [exact Hr1 |].
    apply realizes_refl; intros V m0 m; exact (values_dest V m0 m _ i 0 d s1 Hi1). }
  unfold Location.Equals; destruct (Z.eqb_spec s1 d) as [-> | Hsd].
  { apply returns_Ok; unfold set_move; cbn; rewrite list_insert_insert_eq.
    split; [eapply (finish_eliminated K r r1 i d k d); done | apply list_lookup_insert_eq; done]. }
  eapply returns_bind; [apply (finish_blocked K r r1 i d k (mkMove d s) s1); done |]; cbn beta; intros [] Hb.
  - destruct Hb as (js & K' & EK & Hjs).
    apply (finish_swap K r r1 i d k (mkMove d s) s1) with js K'; done.
  - apply (finish_emit K r r1 i d k (mkMove d s) s1); done.
Qed.

(** ** [PerformMove] performs its move *)
Lemma PerformMove_ok fuel : forall K i r d k s,
  shape K (moves_ r) -> good (compiler_ r) -> moves_ r !! i = Some (mkMove d s) ->
  T !! i = Some (d, k) -> i ∉ K -> s <> 0 -> Location.IsConstant s = false ->
  chain (moves_ r) (i :: K) -> (length T < fuel + length K)%nat ->
  returns (PerformMove fuel i r) (fun r' => progress K r r' /\ moves_ r' !! i = Some Eliminate).
Proof.
  induction fuel as [| fuel IH]; intros K i r d k s Hs Hg Hi Hd HiK Hz Hcs Hc Hfuel.
  { exfalso; cut (length K <= length T)%nat; [lia |].
    rewrite <- (length_seq (length T) 0); apply submseteq_length, NoDup_submseteq.
    - apply (shape_distinct _ _ Hs).
    - intros x Hx%(shape_bound _ _ Hs); apply elem_of_seq; lia. }
  cbn [PerformMove]; rewrite (move_at_ok _ _ _ Hi); cbn [obind].
  destruct (T_place _ _ _ Hd) as [Hzd Hcd].
  assert (s <> d) as Hsd.
  { destruct (shape_at _ _ Hs i _ d k Hi Hd) as [[E _] | (_ & [[? _] | (_ & _ & ?)])];
      [injection E as -> ->; done | done | done]. }
  assert (consistent (mkMove d s)) as Hcons by (intros E; done).
  unfold MarkPending; rewrite !IsPending_ok, IsRedundant_ok by done; cbn [src dest obind].
  unfold Location.IsInvalid, Location.kInvalidLocation.
  rewrite (proj2 (Z.eqb_neq d 0)), (proj2 (Z.eqb_neq s d)), (proj2 (Z.eqb_neq s 0)) by done.
  cbn [obind fst snd andb orb negb].
  pose proof (shape_pend K _ i d k s Hs Hi Hd HiK Hz Hcs Hc) as Hs0.
  set (r0 := set_move i (mkMove Location.NoLocation s) r).
  eapply returns_bind;
    [apply (perform_blocking_ok (PerformMove fuel) (i :: K) i d k) |]; try done; [constructor | | | |].
  - intros j rj dj kj Hsj Hgj Hj Hdj HjK; apply (IH (i :: K) j rj dj kj d); try done.
    + split; [| apply (shape_chain _ _ Hsj)].
      intros mv d' k' Hmv Hd'; rewrite Hj in Hmv; injection Hmv as <-; cbn; congruence.
    + cbn; lia.
  - rewrite Nat.add_0_l; apply (shape_length _ _ Hs0).
  - intros j mv Hj; lia.
  - intros r1 [Hp1 Hu1]; pose proof (progress_shape _ _ _ Hp1) as Hs1.
    destruct (lookup_lt_is_Some_2 (moves_ r1) i) as [mv1 Hi1].
    { rewrite (shape_length _ _ Hs1); apply lookup_lt_is_Some_1; eauto. }
    rewrite (move_at_ok _ _ _ Hi1); cbn [obind].
    destruct (shape_at _ _ Hs1 i mv1 d k Hi1 Hd) as [[_ Hn] | (Hso & [(_ & Ez & Hcs1) | [Hn _]])];
      [set_solver | | set_solver].
    destruct mv1 as [d1 s1]; cbn in Ez, Hso; subst d1.
    pose proof (source_ok_valid _ _ Hso) as Hz1; unfold ClearPending.
    rewrite IsPending_ok by done; cbn [src dest]; rewrite (proj2 (Z.eqb_neq s1 0)) by done.
    cbn [obind Z.eqb andb negb src].
    assert (length (moves_ r) = length (moves_ r1)) as Hlen.
    { rewrite (shape_length _ _ Hs), (shape_length _ _ Hs1); done. }
    apply (perform_finish K r r1 i d k s s1); done.
Qed.

(** ** The two passes *)
Definition constant_from (n : nat) (ms : list MoveOperands) : Prop :=
  forall j mv, (j < n)%nat -> ms !! j = Some mv -> src mv <> 0 ->
    Location.IsConstant (src mv) = true.

Lemma constant_from_progress r r' n :
  shape [] (moves_ r) -> progress [] r r' -> constant_from n (moves_ r) ->
  constant_from n (moves_ r').
Proof.
  intros Hs Hp Hc j mv' Hj Hmv' Hz; destruct (lookup_lt_is_Some_2 (moves_ r) j) as [mv Hmv].
  { rewrite (shape_length _ _ Hs), <- (shape_length _ _ (progress_shape _ _ _ Hp)).
    apply lookup_lt_is_Some_1; eauto. }
  destruct (progress_evolves _ _ _ Hp j mv mv' Hmv Hmv' ltac:(set_solver) Hz)
    as [-> | (Hcf & Hn & _)]; [eauto |].
  rewrite (Hc j mv) in Hcf; done.
Qed.

Lemma perform_moves_ok n : forall i r,
  (i + n)%nat = length T -> shape [] (moves_ r) -> good (compiler_ r) ->
  constant_from i (moves_ r) ->
  returns (perform_all (S (length T)) n i r) (fun r' =>
    progress [] r r' /\ constant_from (length T) (moves_ r')).
Proof.
  induction n as [| n IH]; intros i r Hn Hs Hg Hc; cbn [perform_all].
  { apply returns_Ok; split; [apply progress_refl; done | replace (length T) with i by lia; done]. }
  destruct (lookup_lt_is_Some_2 (moves_ r) i) as [mv Hmv]; [rewrite (shape_length _ _ Hs); lia |].
  destruct (shape_lookup _ _ _ _ Hs Hmv) as (d & k & Hd & Hst).
  rewrite (move_at_ok _ _ _ Hmv); cbn [obind].
  rewrite IsEliminated_ok by eauto using state_consistent; cbn [obind].
  enough (returns (if negb (src mv =? 0) && negb (Location.IsConstant (src mv))
    then PerformMove (S (length T)) i r else Ok r)
    (fun r' => progress [] r r' /\ constant_from (S i) (moves_ r'))) as Hstep.
  { eapply returns_bind; [exact Hstep |]; cbn beta; intros r1 [Hp1 Hc1].
    eapply returns_mono; [apply IH; [lia | eapply progress_shape | eapply progress_good |]; done |].
    intros r2 [Hp2 Hc2]; split; [eapply progress_trans |]; done. }
  assert (forall r', progress [] r r' -> (forall mv', moves_ r' !! i = Some mv' -> src mv' <> 0 ->
    Location.IsConstant (src mv') = true) -> constant_from (S i) (moves_ r')) as Hnext.
  { intros r' Hp Hi j mv' Hj; destruct (decide (j = i)) as [-> | Hne]; [auto |].
    apply (constant_from_progress r r' i Hs Hp Hc); lia. }
  destruct (Z.eqb_spec (src mv) 0) as [E | E], (Location.IsConstant (src mv)) eqn:Ec; cbn [negb andb].
  4: { destruct Hst as [[-> _] | (_ & [[Hin _] | (_ & Ed & _)])]; [done | set_solver |].
       destruct mv as [dm sm]; cbn [src dest] in *; subst dm.
       eapply returns_mono; [apply (PerformMove_ok _ [] i r d k sm); try done; [set_solver | cbn; lia] |].
       intros r' [Hp He]; split; [done |]; apply Hnext; [done |].
       intros mv' Hmv' Hz; rewrite He in Hmv'; injection Hmv' as <-; done. }
  all: apply returns_Ok; split; [apply progress_refl; done |].
  all: apply Hnext; [apply progress_refl; done |]; intros mv' Hmv' Hz; congruence.
Qed.

Lemma shape_eliminate_any ms i : shape [] ms -> shape [] (<[i := Eliminate]> ms).
Proof.
  intros [Hl Ha _ Hnd Hb]; constructor; [rewrite length_insert; done | | done | done | done].
  intros j mv dj kj Hj Hdj; destruct (lookup_set _ _ _ _ _ Hj) as [[-> ->] | [_ ?]]; [| eauto].
  left; set_solver.
Qed.

Lemma emit_constants_ok n : forall i r,
  (i + n)%nat = length T -> shape [] (moves_ r) -> good (compiler_ r) ->
  constant_from (length T) (moves_ r) ->
  (forall j mv, (j < i)%nat -> moves_ r !! j = Some mv -> src mv = 0) ->
  returns (emit_constants n i r) (fun r' =>
    realizes (compiler_ r) (compiler_ r') (moves_ r) (moves_ r') /\ good (compiler_ r') /\
    length (moves_ r') = length T /\ forall mv, mv ∈ moves_ r' -> src mv = 0).
Proof.
  induction n as [| n IH]; intros i r Hn Hs Hg Hc He; cbn [emit_constants].
  { apply returns_Ok; split_and!; [apply realizes_refl; done | done | eauto using shape_length |].
    intros mv (j & Hj)%list_elem_of_lookup; apply (He j mv); [| done].
    rewrite Nat.add_0_r in Hn; rewrite Hn, <- (shape_length _ _ Hs).
    apply lookup_lt_is_Some_1; eauto. }
  destruct (lookup_lt_is_Some_2 (moves_ r) i) as [mv Hmv]; [rewrite (shape_length _ _ Hs); lia |].
  destruct (shape_lookup _ _ _ _ Hs Hmv) as (d & k & Hd & Hst).
  rewrite (move_at_ok _ _ _ Hmv); cbn [obind].
  rewrite IsEliminated_ok by eauto using state_consistent; cbn [obind].
  destruct (Z.eqb_spec (src mv) 0) as [E | E]; cbn [negb].
  { apply IH; [lia | done | done | done |].
    intros j mv' Hj Hj'; destruct (decide (j = i)) as [-> |]; [congruence | apply (He j); [lia | done]]. }
  rewrite (Hc i mv) by (done || lia).
  destruct Hst as [[-> _] | (Hso & [[Hin _] | (_ & Ed & Hsd)])]; [done | set_solver |].
  destruct mv as [dm sm]; cbn [src dest] in *; subst dm; destruct (T_place _ _ _ Hd) as [Hz Hcd].
  eapply returns_bind; [apply (EmitMove_ok i r d sm k); eauto |].
  { apply (shape_consistent []); done. }
  cbn beta; intros [c' ms'] (Ems & Hg' & Hrun); cbn in Ems; subst ms'.
  eapply returns_mono; [apply IH; cbn |].
  - lia.
  - apply shape_eliminate_any; done.
  - done.
  - intros j mv Hj Hj' Hjz; destruct (lookup_set _ _ _ _ _ Hj') as [[-> ->] | [_ ?]]; eauto; done.
  - intros j mv Hj Hj'; destruct (lookup_set _ _ _ _ _ Hj') as [[-> ->] | [? ?]]; [done |].
    apply (He j); [lia | done].
  - cbn; intros r' (Hr & ? & ? & ?); split_and!; [| done | done | done].
    eapply realizes_trans; [| exact Hr]; intros [Hl1 Hrun']%Hrun; split; [done |].
    intros V m0 m Hm Hv; destruct (Hrun' m Hm) as (m' & Hruns & Hm' & E1 & Hf); exists m'; split_and!; [done | done |].
    apply (move_values [] (moves_ r) i d k sm V m0 m m'); eauto.
    + intros mv (j & Hj)%list_elem_of_lookup Es; assert (src mv <> 0) as Hz' by congruence.
      rewrite <- Es, (Hc j mv) in Hcd; try done.
      rewrite <- (shape_length _ _ Hs); apply lookup_lt_is_Some_1; eauto.
    + intros k' l Hl Hnl Hsc; apply (Hf k'); set_solver.
Qed.

(** Both passes: every destination gets the value of its source. *)
Lemma passes_ok ms c :
  shape [] ms -> good c -> (forall mv, mv ∈ ms -> src mv <> 0) ->
  returns (let* r := perform_all (S (length T)) (length T) 0 (mkResolver c ms) in
           emit_constants (length T) 0 r) (fun r' => good (compiler_ r') /\
    (linked (compiler_ r') -> forall m, ok m -> exists m', runs c (compiler_ r') m m' /\ ok m' /\
      (forall i mv d k, ms !! i = Some mv -> T !! i = Some (d, k) ->
        read m' d = source m k (src mv)) /\
      (forall k l, loc_ok k l -> l ∉ T.*1 -> read m' l = read m l))).
Proof.
  intros Hs Hg Hz; call (perform_moves_ok (length T) 0 (mkResolver c ms)) as r1 [Hp1 Hc1];
    [done | done | done | intros j mv Hj; lia |].
  eapply returns_mono; [apply (emit_constants_ok (length T) 0 r1);
    [done | apply (progress_shape _ _ _ Hp1) | apply (progress_good _ _ _ Hp1) | done | lia] |].
  intros r2 (Hr2 & Hg2 & Hl2 & He2); split; [done |]; intros Hlk m Hm.
  set (V := (fun '(mv, (d, k)) => source m k (src mv)) <$> zip ms T).
  assert (forall i mv d k, ms !! i = Some mv -> T !! i = Some (d, k) ->
    V !! i = Some (source m k (src mv))) as HV.
  { intros i mv d k Hi Hd; unfold V; rewrite list_lookup_fmap, lookup_zip_with, Hi; cbn.
    rewrite Hd; done. }
  destruct (realizes_trans _ _ _ _ _ _ (progress_code _ _ _ Hp1) Hr2 Hlk) as [_ Hrun].
  destruct (Hrun V m m Hm) as (m' & Hruns & Hm' & Hv' & Ho').
  { split; [| done]; intros i mv d k v Hi Hd Hv; cbn in Hi; rewrite (HV i mv d k Hi Hd) in Hv.
    injection Hv as <-; rewrite decide_False; eauto using list_elem_of_lookup_2. }
  exists m'; split_and!; [done | done | | done]; intros i mv d k Hi Hd.
  destruct (lookup_lt_is_Some_2 (moves_ r2) i) as [mv2 Hi2].
  { rewrite Hl2; apply lookup_lt_is_Some_1; eauto. }
  pose proof (Hv' i mv2 d k _ Hi2 Hd (HV i mv d k Hi Hd)) as E.
  rewrite decide_True in E by eauto using list_elem_of_lookup_2; done.
Qed.
End Resolve.

(** * The whole parallel move *)
Section EmitNativeCode.
Context {C M : Type} `{MoveTargetOk C M}.

(** The destinations of the moves are distinct, and each has the class of its source. *)
Definition parallel_ok (pm : list MoveOperands) : Prop :=
  Forall consistent pm /\
  (forall mv, mv ∈ pm -> dest mv <> 0 ->
    exists k, loc_ok k (dest mv) /\ source_ok k (src mv)) /\
  NoDup (dest <$> filter (fun mv => dest mv <> 0) pm).

Definition needed (mv : MoveOperands) : Prop := dest mv <> 0 /\ src mv <> dest mv.
#[local] Instance needed_dec mv : Decision (needed mv) := and_dec _ _.
Definition initial_moves (pm : list MoveOperands) : list MoveOperands := filter needed pm.

Lemma BuildInitialMoveList_ok pm :
  Forall consistent pm -> BuildInitialMoveList pm = Ok (initial_moves pm).
Proof.
  induction 1 as [| mv pm Hmv _ IH]; cbn [BuildInitialMoveList]; [done |].
  rewrite IsRedundant_ok, IH by done; cbn [obind]; f_equal.
  unfold initial_moves; rewrite filter_cons; destruct (decide (needed mv)) as [[? ?] | Hn];
    destruct (Z.eqb_spec (dest mv) 0), (Z.eqb_spec (src mv) (dest mv)); cbn; try done.
  destruct Hn; done.
Qed.

(** A class for each move. *)
Lemma classes_exist (P : MoveOperands -> bool -> Prop) ms :
  (forall mv, mv ∈ ms -> exists k, P mv k) ->
  exists T : list (Z * bool), T.*1 = dest <$> ms /\
    forall i mv, ms !! i = Some mv -> exists k, T !! i = Some (dest mv, k) /\ P mv k.
Proof.
  induction ms as [| mv ms IH]; intros HP; [exists []; split; [done | intros i mv Hi; done] |].
  destruct (HP mv) as [k Hk]; [constructor |].
  destruct IH as (T & ET & HT); [intros; apply HP; constructor 2; done |].
  exists ((dest mv, k) :: T); split; [cbn; rewrite ET; done |].
  intros [| i] mv' Hi; [injection Hi as <-; eauto | apply HT; done].
Qed.

Lemma needed_distinct pm :
  NoDup (dest <$> filter (fun mv => dest mv <> 0) pm) -> NoDup (dest <$> initial_moves pm).
Proof.
  unfold initial_moves; induction pm as [| mv pm IH]; [done |]; rewrite !filter_cons.
  destruct (decide (dest mv <> 0)) as [Hz | Hz], (decide (needed mv)) as [Hn | Hn]; cbn.
  - intros [Hin Hnd]%NoDup_cons; apply NoDup_cons; split; [| auto].
    contradict Hin; apply list_elem_of_fmap in Hin as (mv' & E & Hin).
    apply list_elem_of_filter in Hin as [[? _] Hin].
    apply list_elem_of_fmap; exists mv'; split; [done |]; apply list_elem_of_filter; done.
  - intros [_ Hnd]%NoDup_cons; auto.
  - destruct Hn; done.
  - auto.
Qed.

(** A location is the destination of one move. *)
Lemma dest_unique pm mv mv' :
  NoDup (dest <$> filter (fun mv => dest mv <> 0) pm) -> mv ∈ pm -> mv' ∈ pm ->
  dest mv <> 0 -> dest mv' = dest mv -> mv' = mv.
Proof.
  intros Hnd Hin Hin' Hz E; set (l := filter (fun mv => dest mv <> 0) pm) in *.
  assert (mv ∈ l) as (i & Hi)%list_elem_of_lookup by (apply list_elem_of_filter; done).
  assert (mv' ∈ l) as (j & Hj)%list_elem_of_lookup by (apply list_elem_of_filter; split; congruence).
  assert (i = j) as ->; [| congruence].
  apply (NoDup_lookup (dest <$> l) i j (dest mv) Hnd); rewrite list_lookup_fmap;
    [rewrite Hi | rewrite Hj; cbn; rewrite E]; done.
Qed.

(** The initial list. *)
Lemma initial_shape pm (ms := initial_moves pm) :
  parallel_ok pm -> exists T : list (Z * bool),
    T.*1 = dest <$> ms /\ NoDup T.*1 /\ shape T [] ms /\
    (forall i d k, T !! i = Some (d, k) -> loc_ok k d).
Proof.
  intros (Hc & Hty & Hnd).
  destruct (classes_exist (fun mv k => loc_ok k (dest mv) /\ source_ok k (src mv)) ms)
    as (T & ET & HT).
  { intros mv [[? _] Hin]%list_elem_of_filter; eauto. }
  assert (length ms = length T) as El by (rewrite <- (length_fmap fst T), ET, length_fmap; done).
  assert (forall i mv d k, ms !! i = Some mv -> T !! i = Some (d, k) ->
    d = dest mv /\ loc_ok k d /\ source_ok k (src mv)) as HTi.
  { intros i mv d k Hmv Hi; destruct (HT i mv Hmv) as (k' & Hk' & ? & ?).
    rewrite Hi in Hk'; injection Hk' as -> ->; done. }
  exists T; split_and!; [done | rewrite ET; apply needed_distinct; done | |].
  - constructor; [done | | done | constructor | intros i Hi; apply elem_of_nil in Hi as []].
    intros i mv d k Hi Hd; destruct (HTi i mv d k Hi Hd) as (-> & _ & Hso); right; split; [done |].
    apply list_elem_of_lookup_2, list_elem_of_filter in Hi as [[_ ?] _]; right; set_solver.
  - intros i d k Hi; destruct (lookup_lt_is_Some_2 ms i) as [mv Hmv].
    { rewrite El; apply lookup_lt_is_Some_1; eauto. }
    apply (HTi i mv d k); done.
Qed.

Lemma EmitNativeCode_ok pm r :
  moves_ r = [] -> good (compiler_ r) -> parallel_ok pm ->
  returns (EmitNativeCode pm r) (fun r' =>
    moves_ r' = [] /\ good (compiler_ r') /\
    (linked (compiler_ r') -> forall m, ok m -> exists m', runs (compiler_ r) (compiler_ r') m m' /\ ok m' /\
      (forall mv k, mv ∈ pm -> loc_ok k (dest mv) -> read m' (dest mv) = source m k (src mv)) /\
      (forall k l, loc_ok k l -> (forall mv, mv ∈ pm -> dest mv <> l) -> read m' l = read m l))).
Proof.
  intros Hr Hg Hpm; pose proof Hpm as (Hc & Hty & Hnd).
  unfold EmitNativeCode; rewrite bool_decide_true by done.
  rewrite BuildInitialMoveList_ok by done; cbn [obind]; cbn zeta.
  destruct (initial_shape pm Hpm) as (T & ET & HndT & Hs & HTok).
  rewrite (shape_length _ _ _ Hs); set (ms := initial_moves pm) in *.
  eapply returns_bind_assoc; [apply (passes_ok T HndT HTok ms (compiler_ r) Hs Hg) |].
  { intros mv [[Hz Hne] Hin]%list_elem_of_filter; destruct (Hty mv Hin Hz) as (k & _ & Hso).
    eauto using source_ok_valid. }
  cbn beta; intros r' (Hg' & Hrun); apply returns_Ok; split_and!; [done | done |].
  intros Hlk m Hm; destruct (Hrun Hlk m Hm) as (m' & Hruns & Hm' & Hd & Ho).
  exists m'; split_and!; [done | done | |].
  - intros mv k Hin Hl; destruct (loc_ok_place _ _ Hl) as [Hz Hcd].
    destruct (decide (src mv = dest mv)) as [E | Hne].
    + unfold source; rewrite E, Hcd; apply (Ho k); [done |]; rewrite ET.
      intros (mv' & E' & [[_ Hn] Hin']%list_elem_of_filter)%list_elem_of_fmap.
      rewrite (dest_unique pm mv mv') in Hn; done.
    + assert (mv ∈ ms) as (i & Hi)%list_elem_of_lookup by (apply list_elem_of_filter; done).
      destruct (shape_lookup T _ _ _ _ Hs Hi) as (d & k' & Hi' & _).
      assert (d = dest mv) as ->.
      { assert (T.*1 !! i = Some d) as E by (rewrite list_lookup_fmap, Hi'; done).
        rewrite ET, list_lookup_fmap, Hi in E; injection E as ->; done. }
      rewrite (loc_ok_class k k' (dest mv)) by eauto; eauto.
  - intros k l Hl Hout; apply (Ho k); [done |]; rewrite ET.
    intros (mv & -> & [_ Hin]%list_elem_of_filter)%list_elem_of_fmap; destruct (Hout mv Hin); done.
Qed.
End EmitNativeCode.
