(* ===== verification/MipsParallelMove.v ===== *)
(** The parallel move resolver of the MIPS target ([ParallelMoveResolver::EmitMove],
    [EmitSwap], [Exchange] and the scratch registers of
    [vm/flow_graph_compiler_mips.cc] and [vm/flow_graph_compiler.cc]), with the loading of
    objects ([Assembler::LoadObject] of [vm/assembler_mips.cc], [ObjectPool] of
    [vm/assembler.h] and [vm/assembler.cc]). *)
From stdpp Require Import base numbers list gmap.
From Stdlib Require Import ZArith Lia Bool.
From S2P Require Import Prelude Utils Locations ParallelMove.
From S2P Require Import MipsConstants MipsAssembler MipsMacros.
#[local] Open Scope Z_scope.

#[local] Existing Instance word32.

(** [stack_frame_mips.h]. *)
#[export] Instance mips_frame : FrameLayout := {|
  Locations.FPREG := FPREG;
  Locations.SPREG := SPREG;
  Locations.kParamEndSlotFromFp := 2;
  Locations.kFirstLocalSlotFromFp := -2
|}.

Definition kNumberOfFpuRegisters : Z := kNumberOfDRegisters.
Definition kDoubleSize : Z := 8.

(** * Objects *)
(** An object handle: its tagged pointer, and whether it is in the heap of the VM
    isolate. *)
Record Object := mkObject { raw : Z; InVMHeap : bool }.

Definition IsSmi (o : Object) : bool := Z.land (raw o) 1 =? 0.
Definition Smi_Value (o : Object) : Z := Z.shiftr (int32 (raw o)) 1.

(** A [ConstantInstr], which a constant location points to. *)
Record ConstantInstr := mkConstant { value : Object; representation : Representation }.

(** Where the compiler of the VM puts the data of an array and the value of a boxed
    double, and the constant instructions that locations point to. *)
Class ObjectLayout := {
  Double_value_offset : Z;
  constant_at : Z -> ConstantInstr
}.

(** * The object pool *)
Inductive Patchability := kPatchable | kNotPatchable.
#[global] Instance Patchability_eq_dec : EqDecision Patchability.
Proof. solve_decision. Defined.

(** The index table maps the tagged pointers of the entries that are not patchable. *)
Record ObjectPool := mkPool {
  object_pool_ : list Object;
  patchable_pool_entries_ : list Patchability;
  object_pool_index_table_ : gmap Z nat;
  current_is_vm_isolate : bool
}.

Definition AddObject (obj : Object) (patchable : Patchability) (p : ObjectPool)
  : outcome (nat * ObjectPool) :=
  ASSERT negb (current_is_vm_isolate p) ;;
  let objects := object_pool_ p ++ [obj] in
  let entries := patchable_pool_entries_ p ++ [patchable] in
  let index := (length objects - 1)%nat in
  let table := match patchable with
               | kNotPatchable => <[raw obj := index]> (object_pool_index_table_ p)
               | kPatchable => object_pool_index_table_ p
               end in
  Ok (index, mkPool objects entries table (current_is_vm_isolate p)).

Definition FindObject (obj : Object) (patchable : Patchability) (p : ObjectPool)
  : outcome (nat * ObjectPool) :=
  ASSERT negb (current_is_vm_isolate p) ;;
  match patchable, object_pool_index_table_ p !! raw obj with
  | kNotPatchable, Some idx =>
      ASSERT bool_decide (patchable_pool_entries_ p !! idx = Some kNotPatchable) ;;
      Ok (idx, p)
  | _, _ => AddObject obj patchable p
  end.

(** Labels: an aligned address is stored as a small integer. *)
Definition label_object (address : Z) : Object := mkObject address false.

Definition AddExternalLabel (address : Z) (patchable : Patchability) (p : ObjectPool)
  : outcome (nat * ObjectPool) :=
  ASSERT negb (current_is_vm_isolate p) ;;
  let* aligned := IsAligned address 4 in
  ASSERT aligned ;; AddObject (label_object address) patchable p.

Definition FindExternalLabel (address : Z) (patchable : Patchability) (p : ObjectPool)
  : outcome (nat * ObjectPool) :=
  ASSERT negb (current_is_vm_isolate p) ;;
  let* aligned := IsAligned address 4 in
  ASSERT aligned ;; FindObject (label_object address) patchable p.

(** [Array::element_offset]: the data follows the tags, the type arguments and the
    length. *)
Definition Array_element_offset (index : nat) : Z := 3 * kWordSize + kWordSize * Z.of_nat index.

(** * The compiler *)
(** What the resolver uses of a [FlowGraphCompiler]. *)
Record Compiler := mkCompiler {
  assembler_ : Assembler;
  pool_ : ObjectPool;
  intrinsic_mode_ : bool
}.

Definition resolver : Type := Resolver Compiler.

(** [__ m]: an instruction of the assembler. *)
Definition assemble (m : asm) (r : resolver) : outcome resolver :=
  let c := compiler_ r in
  let* a := m (assembler_ c) in
  Ok (mkResolver (mkCompiler a (pool_ c) (intrinsic_mode_ c)) (moves_ r)).

Section Target.
Context `{ObjectLayout}.

Definition LoadObject (rd : Z) (object : Object) (c : Compiler) : outcome Compiler :=
  let a := assembler_ c in
  ASSERT negb (in_delay_slot_ a) ;;
  if IsSmi object then
    let* a := LoadImmediate rd (int32 (raw object)) a in
    Ok (mkCompiler a (pool_ c) (intrinsic_mode_ c))
  else if InVMHeap object || negb (allow_constant_pool_ a) then
    let object_raw := int32 (raw object) in
    let object_low := to_u 16 (Low16Bits object_raw) in
    let object_high := to_u 16 (High16Bits object_raw) in
    let* a := lui rd object_high a in
    let* a := ori rd rd object_low a in
    Ok (mkCompiler a (pool_ c) (intrinsic_mode_ c))
  else
    let* (index, p) := FindObject object kNotPatchable (pool_ c) in
    let offset := int32 (Array_element_offset index) in
    let* a := LoadWordFromPoolOffset rd (int32 (offset - kHeapObjectTag)) a in
    Ok (mkCompiler a p (intrinsic_mode_ c)).

Definition emit_load_object (rd : Z) (object : Object) (r : resolver) : outcome resolver :=
  let* c := LoadObject rd object (compiler_ r) in
  Ok (mkResolver c (moves_ r)).

(** * Scratch registers *)
Definition SpillScratch (reg : Z) : resolver -> outcome resolver := assemble (Push reg).
Definition RestoreScratch (reg : Z) : resolver -> outcome resolver := assemble (Pop reg).

Definition SpillFpuScratch (reg : Z) (r : resolver) : outcome resolver :=
  let* r := assemble (AddImmediate SP SP (- kDoubleSize)) r in
  assemble (StoreDToOffset reg SP 0) r.

Definition RestoreFpuScratch (reg : Z) (r : resolver) : outcome resolver :=
  let* r := assemble (LoadDFromOffset reg SP 0) r in
  assemble (AddImmediate SP SP kDoubleSize) r.

Definition MaskBit (reg : Z) : Z := if negb (reg =? kNoRegister) then Z.shiftl 1 reg else 0.

(** The constructors of the scopes, and [with_*] for the block of code in a scope: it is
    left with the restoring of a spilled register. *)
Definition ScratchRegister (blocked : Z) (r : resolver) : outcome (Z * bool) :=
  let blocked_mask :=
    Z.lor (Z.lor (Z.lor (Z.lor (Z.lor (MaskBit blocked) (MaskBit SPREG)) (MaskBit FPREG))
      (MaskBit TMP)) (MaskBit TMP2)) (MaskBit PP) in
  let blocked_mask :=
    if intrinsic_mode_ (compiler_ r) then Z.lor blocked_mask (MaskBit ARGS_DESC_REG)
    else blocked_mask in
  AllocateScratchRegister Location.kRegister blocked_mask
    kFirstFreeCpuRegister kLastFreeCpuRegister r.

Definition with_scratch (blocked : Z) (body : Z -> resolver -> outcome resolver)
  (r : resolver) : outcome resolver :=
  let* (reg, spilled) := ScratchRegister blocked r in
  let* r := if spilled then SpillScratch reg r else Ok r in
  let* r := body reg r in
  if spilled then RestoreScratch reg r else Ok r.

Definition ScratchFpuRegister (blocked : Z) (r : resolver) : outcome (Z * bool) :=
  let blocked_mask :=
    Z.lor (if negb (blocked =? kNoFpuRegister) then Z.shiftl 1 blocked else 0)
      (Z.shiftl 1 FpuTMP) in
  AllocateScratchRegister Location.kFpuRegister blocked_mask
    0 (kNumberOfFpuRegisters - 1) r.

Definition with_fpu_scratch (blocked : Z) (body : Z -> resolver -> outcome resolver)
  (r : resolver) : outcome resolver :=
  let* (reg, spilled) := ScratchFpuRegister blocked r in
  let* r := if spilled then SpillFpuScratch reg r else Ok r in
  let* r := body reg r in
  if spilled then RestoreFpuScratch reg r else Ok r.

(** * Moves *)
Definition EmitMove (index : nat) (r : resolver) : outcome resolver :=
  let* move := move_at (moves_ r) index in
  let source := src move in
  let destination := dest move in
  let* r :=
    if Location.IsRegister source then
      let* s := Location.reg source in
      if Location.IsRegister destination then
        let* d := Location.reg destination in assemble (mov d s) r
      else
        ASSERT Location.IsStackSlot destination ;;
        let* dest_offset := Location.ToStackSlotOffset destination in
        let* base := Location.base_reg destination in
        assemble (StoreToOffset s base dest_offset) r
    else if Location.IsStackSlot source then
      let* source_base := Location.base_reg source in
      let* source_offset := Location.ToStackSlotOffset source in
      if Location.IsRegister destination then
        let* d := Location.reg destination in
        assemble (LoadFromOffset d source_base source_offset) r
      else
        ASSERT Location.IsStackSlot destination ;;
        let* dest_offset := Location.ToStackSlotOffset destination in
        let* base := Location.base_reg destination in
        with_scratch kNoRegister (fun tmp r =>
          let* r := assemble (LoadFromOffset tmp source_base source_offset) r in
          assemble (StoreToOffset tmp base dest_offset) r) r
    else if Location.IsFpuRegister source then
      let* s := Location.fpu_reg source in
      if Location.IsFpuRegister destination then
        let* d := Location.fpu_reg destination in assemble (fun a => Ok (movd d s a)) r
      else
        ASSERT Location.IsDoubleStackSlot destination ;;
        let* dest_offset := Location.ToStackSlotOffset destination in
        let* base := Location.base_reg destination in
        assemble (StoreDToOffset s base dest_offset) r
    else if Location.IsDoubleStackSlot source then
      let* source_base := Location.base_reg source in
      let* source_offset := Location.ToStackSlotOffset source in
      if Location.IsFpuRegister destination then
        let* d := Location.fpu_reg destination in
        assemble (LoadDFromOffset d source_base source_offset) r
      else
        ASSERT Location.IsDoubleStackSlot destination ;;
        let* dest_offset := Location.ToStackSlotOffset destination in
        let* base := Location.base_reg destination in
        let* r := assemble (LoadDFromOffset DTMP source_base source_offset) r in
        assemble (StoreDToOffset DTMP base dest_offset) r
    else
      ASSERT Location.IsConstant source ;;
      let* instr := Location.constant_instruction source in
      let constant := value (constant_at instr) in
      let unboxed := IsSmi constant &&
        bool_decide (representation (constant_at instr) = kUnboxedInt32) in
      let load d r := if unboxed then assemble (LoadImmediate d (Smi_Value constant)) r
                      else emit_load_object d constant r in
      if Location.IsRegister destination then
        let* d := Location.reg destination in load d r
      else if Location.IsFpuRegister destination then
        let* d := Location.fpu_reg destination in
        let* r := emit_load_object TMP constant r in
        assemble (LoadDFromOffset d TMP (Double_value_offset - kHeapObjectTag)) r
      else if Location.IsDoubleStackSlot destination then
        let* dest_offset := Location.ToStackSlotOffset destination in
        let* base := Location.base_reg destination in
        let* r := emit_load_object TMP constant r in
        let* r := assemble (LoadDFromOffset DTMP TMP (Double_value_offset - kHeapObjectTag)) r in
        assemble (StoreDToOffset DTMP base dest_offset) r
      else
        ASSERT Location.IsStackSlot destination ;;
        let* dest_offset := Location.ToStackSlotOffset destination in
        let* base := Location.base_reg destination in
        with_scratch kNoRegister (fun tmp r =>
          let* r := load tmp r in assemble (StoreToOffset tmp base dest_offset) r) r in
  Ok (set_move index Eliminate r).

(** Moves between addresses. *)
Definition MoveMemoryToMemory (dst src : Address) (r : resolver) : outcome resolver :=
  let* r := assemble (lw TMP src) r in
  assemble (sw TMP dst) r.

Definition StoreObject (dst : Address) (obj : Object) (r : resolver) : outcome resolver :=
  let* r := emit_load_object TMP obj r in
  assemble (sw TMP dst) r.

(** * Swaps *)
(** [Exchange] of a register and a slot, and of two slots. *)
Definition Exchange (reg base_reg stack_offset : Z) : resolver -> outcome resolver :=
  with_scratch reg (fun tmp r =>
    let* r := assemble (mov tmp reg) r in
    let* r := assemble (LoadFromOffset reg base_reg stack_offset) r in
    assemble (StoreToOffset tmp base_reg stack_offset) r).

Definition Exchange_slots (base_reg1 stack_offset1 base_reg2 stack_offset2 : Z)
  : resolver -> outcome resolver :=
  with_scratch kNoRegister (fun tmp1 =>
    with_scratch tmp1 (fun tmp2 r =>
      let* r := assemble (LoadFromOffset tmp1 base_reg1 stack_offset1) r in
      let* r := assemble (LoadFromOffset tmp2 base_reg2 stack_offset2) r in
      let* r := assemble (StoreToOffset tmp1 base_reg1 stack_offset2) r in
      assemble (StoreToOffset tmp2 base_reg2 stack_offset1) r)).

(** The loop that gives the moves the sources they have after the swap. *)
Fixpoint swap_sources (source destination : Z) (ms : list MoveOperands)
  : outcome (list MoveOperands) :=
  match ms with
  | [] => Ok []
  | m :: ms =>
      let* b := Blocks source m in
      let* m' :=
        if b then Ok (mkMove (dest m) destination)
        else let* b := Blocks destination m in
             Ok (if b then mkMove (dest m) source else m) in
      let* ms := swap_sources source destination ms in
      Ok (m' :: ms)
  end.

Definition EmitSwap (index : nat) (r : resolver) : outcome resolver :=
  let* move := move_at (moves_ r) index in
  let source := src move in
  let destination := dest move in
  let* r :=
    if Location.IsRegister source && Location.IsRegister destination then
      let* s := Location.reg source in
      let* d := Location.reg destination in
      ASSERT negb (s =? TMP) ;;
      ASSERT negb (d =? TMP) ;;
      let* r := assemble (mov TMP s) r in
      let* r := assemble (mov s d) r in
      assemble (mov d TMP) r
    else if Location.IsRegister source && Location.IsStackSlot destination then
      let* s := Location.reg source in
      let* base := Location.base_reg destination in
      let* offset := Location.ToStackSlotOffset destination in
      Exchange s base offset r
    else if Location.IsStackSlot source && Location.IsRegister destination then
      let* d := Location.reg destination in
      let* base := Location.base_reg source in
      let* offset := Location.ToStackSlotOffset source in
      Exchange d base offset r
    else if Location.IsStackSlot source && Location.IsStackSlot destination then
      let* base1 := Location.base_reg source in
      let* offset1 := Location.ToStackSlotOffset source in
      let* base2 := Location.base_reg destination in
      let* offset2 := Location.ToStackSlotOffset destination in
      Exchange_slots base1 offset1 base2 offset2 r
    else if Location.IsFpuRegister source && Location.IsFpuRegister destination then
      let* d := Location.fpu_reg destination in
      let* s := Location.fpu_reg source in
      let* r := assemble (fun a => Ok (movd DTMP s a)) r in
      let* r := assemble (fun a => Ok (movd s d a)) r in
      assemble (fun a => Ok (movd d DTMP a)) r
    else if Location.IsFpuRegister source || Location.IsFpuRegister destination then
      ASSERT Location.IsDoubleStackSlot destination || Location.IsDoubleStackSlot source ;;
      let fpu := if Location.IsFpuRegister source then source else destination in
      let slot := if Location.IsFpuRegister source then destination else source in
      let* reg := Location.fpu_reg fpu in
      let* base := Location.base_reg slot in
      let* slot_offset := Location.ToStackSlotOffset slot in
      let* r := assemble (LoadDFromOffset DTMP base slot_offset) r in
      let* r := assemble (StoreDToOffset reg base slot_offset) r in
      assemble (fun a => Ok (movd reg DTMP a)) r
    else if Location.IsDoubleStackSlot source && Location.IsDoubleStackSlot destination then
      let* source_offset := Location.ToStackSlotOffset source in
      let* dest_offset := Location.ToStackSlotOffset destination in
      let* source_base := Location.base_reg source in
      let* dest_base := Location.base_reg destination in
      with_fpu_scratch DTMP (fun scratch r =>
        let* r := assemble (LoadDFromOffset DTMP source_base source_offset) r in
        let* r := assemble (LoadDFromOffset scratch dest_base dest_offset) r in
        let* r := assemble (StoreDToOffset DTMP dest_base dest_offset) r in
        assemble (StoreDToOffset scratch source_base source_offset) r) r
    else Err Unreachable in
  let* ms := swap_sources source destination (<[index := Eliminate]> (moves_ r)) in
  Ok (mkResolver (compiler_ r) ms).

#[export] Instance mips_target : MoveTarget Compiler := {|
  ParallelMove.EmitMove := EmitMove;
  ParallelMove.EmitSwap := EmitSwap
|}.

End Target.
