(* ===== verification/MipsRun.v ===== *)
(** Straight-line code that accesses memory: words in the memory of the simulator, and
    the execution of lists of instructions under an invariant that protects the code. *)
From stdpp Require Import base numbers list gmap.
From Stdlib Require Import ZArith Lia Bool.
From S2P Require Import Prelude Utils MipsConstants HostFloat MipsState MipsSimulator.
From S2P Require Import MipsAssembler MipsEncoding MipsIsa MipsExec.
Import Instr.
#[local] Open Scope Z_scope.

(** * Words in memory *)
Definition byte (mem : gmap Z Z) (a : Z) : Z := default 0 (mem !! a).

Definition word_of (mem : gmap Z Z) (a : Z) : Z :=
  int32 (byte mem a + 256 * (byte mem (a + 1) + 256 * (byte mem (a + 2) + 256 * byte mem (a + 3)))).

Definition peek (a : Z) (s : Simulator) : Z := word_of (memory s) a.

Definition poke (a v : Z) (s : Simulator) : Simulator :=
  with_memory (<[a + 3 := v / 2 ^ 24 mod 256]> (<[a + 2 := v / 2 ^ 16 mod 256]>
    (<[a + 1 := v / 2 ^ 8 mod 256]> (<[a := v mod 256]> (memory s))))) s.

(** The four bytes of a word are there. *)
Definition mapped (mem : gmap Z Z) (a : Z) : Prop :=
  forall i, 0 <= i < 4 -> is_Some (mem !! (a + i)).

(** A word the simulator accesses: aligned, in the legal part of the address space. *)
Definition word_addr (a : Z) : Prop := 65536 <= a /\ a + 4 <= 2 ^ 32 /\ a mod 4 = 0.

Lemma mapped_bytes mem a : mapped mem a ->
  mem !! a = Some (byte mem a) /\ mem !! (a + 1) = Some (byte mem (a + 1)) /\
  mem !! (a + 2) = Some (byte mem (a + 2)) /\ mem !! (a + 3) = Some (byte mem (a + 3)).
Proof.
  intros Hm; unfold byte; pose proof (Hm 0 ltac:(lia)) as [b0 E0].
  destruct (Hm 1 ltac:(lia)) as [b1 E1], (Hm 2 ltac:(lia)) as [b2 E2], (Hm 3 ltac:(lia)) as [b3 E3].
  rewrite Z.add_0_r in E0; rewrite E0, E1, E2, E3; done.
Qed.

Lemma aligned_test a : a mod 4 = 0 -> (Z.land a 3 =? 0) = true.
Proof. intros E; change 3 with (Z.ones 2); rewrite Z.land_ones by lia; apply Z.eqb_eq, E. Qed.

Lemma ReadW_ok a s : a mod 4 = 0 -> mapped (memory s) a -> ReadW a s = Ok (peek a s).
Proof.
  intros Ha Hm; unfold ReadW, peek, word_of; rewrite aligned_test by done.
  destruct (mapped_bytes _ _ Hm) as (E0 & E1 & E2 & E3); cbn [load_le]; unfold load8.
  rewrite E0; cbn [obind]; rewrite E1; cbn [obind].
  replace (a + 1 + 1) with (a + 2) by lia; rewrite E2; cbn [obind].
  replace (a + 2 + 1) with (a + 3) by lia; rewrite E3; cbn [obind]; do 2 f_equal; lia.
Qed.

Lemma WriteW_ok a v s : a mod 4 = 0 -> mapped (memory s) a -> WriteW a v s = Ok (poke a v s).
Proof.
  intros Ha Hm; unfold WriteW, poke; rewrite aligned_test by done.
  destruct (mapped_bytes _ _ Hm) as (E0 & E1 & E2 & E3); cbn [store_le]; unfold store8.
  rewrite E0; cbn [obind memory with_memory].
  rewrite lookup_insert_ne, E1 by lia; cbn [obind memory with_memory].
  replace (a + 1 + 1) with (a + 2) by lia.
  rewrite !lookup_insert_ne, E2 by lia; cbn [obind memory with_memory].
  replace (a + 2 + 1) with (a + 3) by lia.
  rewrite !lookup_insert_ne, E3 by lia; cbn [obind memory with_memory].
  rewrite !Z.div_div by lia; done.
Qed.

Lemma memory_poke_ne a v s b :
  b < a \/ a + 4 <= b -> memory (poke a v s) !! b = memory s !! b.
Proof. intros; cbn; rewrite !lookup_insert_ne by lia; done. Qed.

Lemma memory_poke_some a v s b :
  is_Some (memory s !! b) -> is_Some (memory (poke a v s) !! b).
Proof. intros; cbn; repeat (apply lookup_insert_is_Some'; right); done. Qed.

Lemma mapped_poke a v s b : mapped (memory s) b -> mapped (memory (poke a v s)) b.
Proof. intros Hm i Hi; apply memory_poke_some, Hm, Hi. Qed.

Lemma word_of_ext mem mem' a :
  (forall i, 0 <= i < 4 -> mem !! (a + i) = mem' !! (a + i)) -> word_of mem a = word_of mem' a.
Proof.
  intros E; unfold word_of, byte; pose proof (E 0 ltac:(lia)) as E0; rewrite Z.add_0_r in E0.
  rewrite E0, !E by lia; done.
Qed.

Lemma peek_poke_ne a v s b : b + 4 <= a \/ a + 4 <= b -> peek b (poke a v s) = peek b s.
Proof. intros; apply word_of_ext; intros i Hi; apply memory_poke_ne; lia. Qed.

Lemma bytes_of_word v :
  int32 (v mod 256 + 256 * (v / 2 ^ 8 mod 256 + 256 * (v / 2 ^ 16 mod 256 + 256 * (v / 2 ^ 24 mod 256))))
  = int32 v.
Proof.
  apply to_s_eq; [lia |].
  replace (v / 2 ^ 16) with (v / 2 ^ 8 / 2 ^ 8) by (rewrite Z.div_div by lia; done).
  replace (v / 2 ^ 24) with (v / 2 ^ 8 / 2 ^ 8 / 2 ^ 8) by (rewrite !Z.div_div by lia; done).
  change (2 ^ 8) with 256; change (2 ^ 32) with (256 * (256 * (256 * 256))).
  pose proof (Z.div_mod v 256 ltac:(lia)); set (q1 := v / 256) in *.
  pose proof (Z.div_mod q1 256 ltac:(lia)); set (q2 := q1 / 256) in *.
  pose proof (Z.div_mod q2 256 ltac:(lia)); set (q3 := q2 / 256) in *.
  pose proof (Z.div_mod q3 256 ltac:(lia)).
  rewrite <- (Z_mod_plus_full _ (q3 / 256)); f_equal; lia.
Qed.

Lemma peek_poke_eq a v s : peek a (poke a v s) = int32 v.
Proof.
  unfold peek, poke, word_of, byte; cbn [memory with_memory].
  rewrite lookup_insert_ne, lookup_insert_ne, lookup_insert_ne, lookup_insert_eq by lia.
  rewrite lookup_insert_ne, lookup_insert_ne, lookup_insert_eq by lia.
  rewrite lookup_insert_ne, lookup_insert_eq by lia; rewrite lookup_insert_eq; cbn [default].
  apply bytes_of_word.
Qed.

Lemma peek_range a s : in_s 32 (peek a s).
Proof. apply to_s_range; lia. Qed.

(** * Executing plain code *)
(** The instructions that moves are made of. *)
Definition plain (i : insn) : Prop :=
  match i with
  | Or _ _ _ | Addu _ _ _ | Movd _ _ => True
  | Addiu _ _ imm | Lw _ _ imm | Sw _ _ imm | Lwc1 _ _ imm | Swc1 _ _ imm =>
      IsInt kImmBits imm = true
  | Lui _ imm | Ori _ _ imm => IsUint kImmBits imm = true
  | _ => False
  end.

Lemma plain_simulated i : plain i -> simulated i = true.
Proof. destruct i; done. Qed.

Lemma emit_plain i a :
  plain i -> exists w, MipsIsa.emit i a = Ok (Emit w a).
Proof.
  destruct i; cbn [plain]; try done; intros Hp; cbn [MipsIsa.emit].
  all: unfold or_, addu, lw, sw, lwc1, swc1, addiu, lui, ori, EmitRType, EmitLoadStore,
    EmitFpuLoadStore, Address_encoding, movd, EmitFpuRType, EmitIType; cbn [offset_].
  all: rewrite ?Hp; cbn [obind]; eauto.
Qed.

(** Execution of a list of instructions, through states that satisfy [inv]. *)
Inductive exec (inv : Simulator -> Prop) : list insn -> Simulator -> Simulator -> Prop :=
| exec_nil s : exec inv [] s s
| exec_cons i il s s1 s2 :
    isa i s = Ok s1 -> inv s1 -> exec inv il s1 s2 -> exec inv (i :: il) s s2.

Lemma exec_app inv il il' s s1 s2 :
  exec inv il s s1 -> exec inv il' s1 s2 -> exec inv (il ++ il') s s2.
Proof. induction 1; cbn; intros; [done |]; econstructor; eauto. Qed.

Lemma exec_one inv i s s1 : isa i s = Ok s1 -> inv s1 -> exec inv [i] s s1.
Proof. intros; econstructor; [done | done | constructor]. Qed.

(** Plain instructions do not use the pc and the instruction count. *)
Definition at_count (p c : Z) (s : Simulator) : Simulator := with_pc p (with_icount c s).

Lemma set_register_at_count r v p c s :
  set_register r v (at_count p c s) = at_count p c (set_register r v s).
Proof. unfold set_register; destruct (r =? R0); done. Qed.

Lemma isa_at_count i p c s s1 :
  plain i -> isa i s = Ok s1 -> isa i (at_count p c s) = Ok (at_count p c s1).
Proof.
  assert (forall m a, load_le m a (at_count p c s) = load_le m a s) as Hl.
  { intros; apply load_le_memory; done. }
  assert (forall m a v s, store_le m a v (at_count p c s) =
    (let* s1 := store_le m a v s in Ok (at_count p c s1))) as Hs.
  { clear; induction m as [| m IH]; intros a v s; cbn [store_le]; [done |].
    unfold store8; cbn [memory at_count with_pc with_icount].
    destruct (memory s !! a); cbn [obind]; [| done].
    rewrite <- IH; done. }
  destruct i; cbn [plain]; try done; intros _; cbn [isa]; unfold at_address;
    try (intros E; injection E as <-; rewrite <- ?set_register_at_count; done).
  all: change (get_register base (at_count p c s)) with (get_register base s).
  all: destruct (_ <? _); [done |].
  all: unfold ReadW, WriteW; destruct (_ =? 0); [| done]; rewrite ?Hl, ?Hs.
  1, 3: destruct (load_le 4 _ s); cbn [obind]; [| done]; intros E; injection E as <-;
    rewrite ?set_register_at_count; done.
  - change (get_register rt (at_count p c s)) with (get_register rt s).
    destruct (store_le 4 _ _ s); cbn [obind]; [| done]; intros E; injection E as <-; done.
  - change (freg ft (at_count p c s)) with (freg ft s).
    destruct (store_le 4 _ _ s); cbn [obind]; [| done]; intros E; injection E as <-; done.
Qed.

Lemma plain_frame i s s1 :
  plain i -> isa i s = Ok s1 -> pc_ s1 = pc_ s /\ icount_ s1 = icount_ s.
Proof.
  intros Hp E; pose proof (isa_at_count i (pc_ s) (icount_ s) s s1 Hp E) as E'.
  replace (at_count (pc_ s) (icount_ s) s) with s in E' by (destruct s; done).
  rewrite E in E'; injection E' as E'; rewrite E'; done.
Qed.

(** The bytes of code at [pc] are the same in all states that satisfy the invariant. *)
Definition protects (inv : Simulator -> Prop) (lo hi : Z) (mem : gmap Z Z) : Prop :=
  forall s, inv s -> wf s /\ forall a, lo <= a < hi -> memory s !! a = mem !! a.

Lemma fetch_ext a s s' :
  (forall i, 0 <= i < 4 -> memory s !! (a + i) = memory s' !! (a + i)) -> fetch a s = fetch a s'.
Proof.
  intros E; unfold fetch; cbn [load_le]; unfold load8; pose proof (E 0 ltac:(lia)) as E0.
  rewrite Z.add_0_r in E0; rewrite E0, (E 1), <- !Z.add_assoc by lia.
  change (1 + 1) with 2; change (1 + 2) with 3; rewrite (E 2), (E 3) by lia; done.
Qed.

Lemma code_at_ext a ws s s' :
  (forall b, a <= b < a + 4 * Z.of_nat (length ws) -> memory s !! b = memory s' !! b) ->
  code_at a ws s -> code_at a ws s'.
Proof.
  revert a; induction ws as [| w ws IH]; intros a E; cbn [code_at length]; [done |].
  intros [Hf Hc]; split.
  - rewrite <- Hf; apply fetch_ext; intros i Hi; symmetry; apply E; cbn [length]; lia.
  - apply IH; [| done]; intros b Hb; apply E; cbn [length]; lia.
Qed.

(** The words emitted for plain code are executed as the code. *)
Lemma exec_steps inv il a a' :
  Forall operands_ok il -> Forall plain il -> emit_all il a = Ok a' ->
  exists ws, buffer_ a' = buffer_ a ++ ws /\ length ws = length il /\ same_mode a a' /\
    forall host s s' n,
      exec inv il s s' -> inv s -> code_range (pc_ s + 4 * n) (length il) -> 0 <= n ->
      in_u 32 (pc_ s) ->
      protects inv (pc_ s + 4 * n) (pc_ s + 4 * n + 4 * Z.of_nat (length il)) (memory s) ->
      code_at (pc_ s + 4 * n) ws s ->
      steps host (length il) (advance n s) = Ok (advance (n + Z.of_nat (length il)) s').
Proof.
  intros Hok Hp; revert a; induction il as [| i il IH]; intros a H; cbn in H.
  { injection H as <-; exists []; rewrite app_nil_r; repeat split.
    intros host s s' n Hex _ _ _ _ _ _; inversion Hex; subst; cbn; rewrite Z.add_0_r; done. }
  inversion_clear Hok as [| ? ? Hi Hok']; inversion_clear Hp as [| ? ? Pi Hp'].
  destruct (emit i a) as [a1 |] eqn:E1; [| discriminate]; cbn in H.
  destruct (emit_decode i a a1 Hi (plain_simulated i Pi) E1) as [w Hw]; pose proof Hw as [-> _].
  destruct (IH Hok' Hp' _ H) as (ws & Hb & Hl & Hm & Hrun).
  exists (int32 w :: ws); cbn in Hb; rewrite <- app_assoc in Hb.
  repeat split; try apply Hm; [done | cbn; lia |].
  intros host s s' n Hex Hs [Hlo Hhi] Hn Hpc Hprot [Hf Hc]; cbn [length] in *; cbn [steps].
  inversion Hex as [| ? ? ? s1 ? Ei Hs1 Hex']; subst.
  destruct (Hprot s Hs) as [Hwf _], (Hprot s1 Hs1) as [Hwf1 Hcode].
  assert (pc_ (advance n s) = pc_ s + 4 * n) as Epc.
  { cbn; apply to_u_id; unfold in_u in *; lia. }
  rewrite (step_insn host i a _ w (advance n s) Hw);
    [| apply wf_advance; done | rewrite Epc; done | rewrite Epc; exact Hf].
  assert (tick (advance n s) = at_count (pc_ s + 4 * n) (uint64 (icount_ s + (n + 1))) s) as ->.
  { rewrite <- Epc; unfold tick, advance, at_count, with_pc, with_icount; cbn; f_equal.
    rewrite to_u_add_l; f_equal; lia. }
  rewrite (isa_at_count i _ _ _ _ Pi Ei); cbn [obind].
  destruct (plain_frame i s s1 Pi Ei) as [Ep Ec].
  replace (with_pc _ (at_count _ _ s1)) with (advance (n + 1) s1).
  2: { unfold advance, at_count, with_pc, with_icount; cbn; rewrite Ep, Ec.
       change kInstrSize with 4; do 2 f_equal; lia. }
  replace (n + Z.of_nat (S (length il))) with (n + 1 + Z.of_nat (length il)) by lia.
  replace (pc_ s + 4 * n + 4) with (pc_ s1 + 4 * (n + 1)) in Hc by lia.
  apply Hrun; try done; [split; lia | lia | rewrite Ep; done | |].
  - intros s2 Hs2; destruct (Hprot s2 Hs2) as [? E2]; split; [done |]; intros b Hbr.
    rewrite E2, Hcode by lia; done.
  - revert Hc; apply code_at_ext; intros b Hbr; symmetry; apply Hcode; lia.
Qed.
