(* ===== verification/MipsMoveProofs.v ===== *)
(** The moves of the MIPS target, executed: what the code of [EmitMove] and [EmitSwap]
    does to registers, stack slots and scratch registers in the simulator. *)
From stdpp Require Import base numbers list gmap sets.
From Stdlib Require Import ZArith Lia Bool.
From S2P Require Import Prelude Utils UtilsProofs Locations ParallelMove ParallelMoveProofs.
From S2P Require Import MipsConstants HostFloat MipsState MipsSimulator MipsAssembler MipsMacros.
From S2P Require Import MipsEncoding MipsIsa MipsExec MipsMacroProofs MipsRun MipsParallelMove.
#[local] Open Scope Z_scope.

#[local] Existing Instance word32.

(** * Locations as words *)
Lemma kind_mod l : Location.kind l = l mod 16.
Proof.
  unfold Location.kind, BitField.decode; rewrite Z.shiftr_0_r.
  change (Z.shiftl 1 Location.kBitsForKind - 1) with (Z.ones 4); apply Z.land_ones; lia.
Qed.

Lemma payload_div l : in_u 32 l -> Location.payload l = l / 16.
Proof.
  intros Hl; unfold Location.payload, BitField.decode.
  change (Z.shiftl 1 Location.kBitsForPayload - 1) with (Z.ones 28).
  change Location.kBitsForKind with 4.
  rewrite Z.land_ones, Z.shiftr_div_pow2 by lia; apply Z.mod_small.
  unfold in_u in Hl; change (2 ^ 4) with 16; split.
  - apply Z.div_pos; lia.
  - apply Z.div_lt_upper_bound; lia.
Qed.

Lemma location_inj l l' :
  in_u 32 l -> in_u 32 l' -> Location.kind l = Location.kind l' ->
  Location.payload l = Location.payload l' -> l = l'.
Proof.
  intros Hl Hl'; rewrite !kind_mod, !payload_div by done; intros E1 E2.
  rewrite (Z.div_mod l 16), (Z.div_mod l' 16) by lia; congruence.
Qed.

Lemma make_ok k p :
  0 <= k < 16 -> 0 <= p < 2 ^ 28 -> Location.make k p = Ok (k + 16 * p).
Proof.
  intros Hk Hp; unfold Location.make, BitField.encode.
  change kBitsPerWord with 32; change Location.kBitsForKind with 4; change Location.kBitsForPayload with 28.
  rewrite (proj2 (is_valid_range 32 0 4 ltac:(lia) ltac:(lia) ltac:(lia) k
    ltac:(unfold in_u; lia)) ltac:(unfold in_u; lia)).
  rewrite (proj2 (is_valid_range 32 4 28 ltac:(lia) ltac:(lia) ltac:(lia) p
    ltac:(unfold in_u; lia)) ltac:(unfold in_u; lia)); cbn [obind].
  rewrite !(to_u_id 32 k), !(to_u_id 32 p) by (unfold in_u; lia).
  rewrite Z.shiftl_0_r, (to_u_id 32 k), (to_u_id 32 (Z.shiftl p 4)) by
    (unfold in_u; rewrite ?Z.shiftl_mul_pow2; lia).
  rewrite Z.lor_comm, lor_shiftl_add by lia; f_equal; lia.
Qed.

Definition reg_loc (r : Z) : Z := Location.kRegister + 16 * r.
Definition fpu_loc (r : Z) : Z := Location.kFpuRegister + 16 * r.

Lemma machine_location kind r :
  0 <= r < 32 -> kind = Location.kRegister \/ kind = Location.kFpuRegister ->
  Location.MachineRegisterLocation kind r = Ok (kind + 16 * r).
Proof.
  intros Hr Hk; unfold Location.MachineRegisterLocation, Location.RegisterLocation,
    Location.FpuRegisterLocation.
  destruct Hk as [-> | ->]; unfold Location.kRegister, Location.kFpuRegister;
    cbn [Z.eqb Pos.eqb]; apply make_ok; lia.
Qed.

(** * The frame *)
(** The stack slots in use, the frame and stack pointers, the object pool pointer, and the
    memory when the code starts. *)
Record Frame := mkFrame { slots : list Z; fp : Z; sp : Z; pp : Z; mem0 : gmap Z Z }.

Definition slot_offset (l : Z) : Z :=
  match Location.ToStackSlotOffset l with Ok o => o | Err _ => 0 end.

Section Frame.
Context (F : Frame).

Definition slot_addr (l : Z) : Z := fp F + slot_offset l.
Definition slot_size (l : Z) : Z := if Location.IsDoubleStackSlot l then 8 else 4.

(** A word of a slot. *)
Definition slot_word (l a : Z) : Prop :=
  a = slot_addr l \/ (Location.IsDoubleStackSlot l = true /\ a = slot_addr l + 4).

(** Slots are addressed from the frame pointer with 16-bit offsets; they do not overlap
    each other or the two words below the stack pointer. *)
Record frame_ok : Prop := mk_frame_ok {
  frame_slot l : l ∈ slots F -> in_u 32 l /\
    (Location.kind l = Location.kStackSlot \/ Location.kind l = Location.kDoubleStackSlot) /\
    Location.base_reg l = Ok FP /\ Location.ToStackSlotOffset l = Ok (slot_offset l) /\
    forall a, slot_word l a -> word_addr a /\ IsInt kImmBits (a - fp F) = true;
  frame_disjoint l l' : l ∈ slots F -> l' ∈ slots F -> l <> l' ->
    slot_addr l + slot_size l <= slot_addr l' \/ slot_addr l' + slot_size l' <= slot_addr l;
  frame_stack : word_addr (sp F - 8) /\ word_addr (sp F - 4);
  frame_below l : l ∈ slots F ->
    slot_addr l + slot_size l <= sp F - 8 \/ sp F <= slot_addr l
}.

(** The bytes the code may write. *)
Definition writable (a : Z) : Prop :=
  (exists l, l ∈ slots F /\ slot_addr l <= a < slot_addr l + slot_size l) \/
  sp F - 8 <= a < sp F.

(** The states the code goes through. *)
Record base (s : Simulator) : Prop := mk_base {
  base_wf : wf s;
  base_fp : get_register FP s = int32 (fp F);
  base_pp : get_register PP s = int32 (pp F);
  base_kept a : ~ writable a -> memory s !! a = mem0 F !! a;
  base_mapped a : writable a -> is_Some (memory s !! a)
}.

(** A word all of whose bytes are writable. *)
Definition writable_word (a : Z) : Prop := forall i, 0 <= i < 4 -> writable (a + i).

Lemma slot_size_word l a : slot_word l a -> slot_addr l <= a /\ a + 4 <= slot_addr l + slot_size l.
Proof.
  unfold slot_size; intros [-> | [-> ->]]; [destruct (Location.IsDoubleStackSlot l) |]; lia.
Qed.

Lemma slot_writable l a : l ∈ slots F -> slot_word l a -> writable_word a.
Proof.
  intros Hl Ha i Hi; left; exists l; split; [done |].
  pose proof (slot_size_word l a Ha); lia.
Qed.

Lemma stack_writable a : a = sp F - 4 \/ a = sp F - 8 -> writable_word a.
Proof. intros Ha i Hi; right; lia. Qed.

Lemma base_word s a : base s -> writable_word a -> mapped (memory s) a.
Proof. intros Hb Ha i Hi; apply (base_mapped s Hb), Ha, Hi. Qed.

Lemma base_set_register r v s : base s -> r <> FP -> r <> PP -> base (set_register r v s).
Proof.
  intros [Hw Hf Hp Hk Hm] H1 H2; destruct (set_register_frame r v s) as (_ & _ & Em & _).
  constructor; rewrite ?Em, ?get_set_register_ne by done; auto using wf_set_register.
Qed.

Lemma wf_put_freg r v s : wf s -> wf (put_freg r v s).
Proof.
  intros [Hr Hf Hh Hl Hc Hp Hi]; split; try done; intros q; unfold freg, put_freg; cbn.
  destruct (decide (q = r)) as [-> | Hne].
  - rewrite lookup_insert_eq; apply to_s_range; lia.
  - rewrite lookup_insert_ne by done; apply Hf.
Qed.

Lemma base_put_freg r v s : base s -> base (put_freg r v s).
Proof. intros [Hw Hf Hp Hk Hm]; constructor; auto using wf_put_freg. Qed.

Lemma wf_poke a v s : wf s -> wf (poke a v s).
Proof. intros [Hr Hf Hh Hl Hc Hp Hi]; split; done. Qed.

Lemma base_poke a v s : base s -> writable_word a -> base (poke a v s).
Proof.
  intros [Hw Hf Hp Hk Hm] Ha; constructor; auto using wf_poke, memory_poke_some.
  intros b Hb; rewrite memory_poke_ne, Hk; [done | done |].
  destruct (decide (b < a \/ a + 4 <= b)) as [| Hn]; [done |].
  destruct Hb; replace b with (a + (b - a)) by lia; apply Ha; lia.
Qed.
End Frame.

(** * Reading locations *)
Section Read.
Context (F : Frame) (HF : frame_ok F).

(** A register that holds values: not 0, and none that the code generator reserves. *)
Definition allocatable (r : Z) : Prop :=
  0 < r < 32 /\ r <> TMP /\ r <> SP /\ r <> FP /\ r <> PP.

Definition mips_loc (k : bool) (l : Z) : Prop :=
  in_u 32 l /\
  if k then
    (Location.kind l = Location.kFpuRegister /\ 0 <= Location.payload l < 16 /\
     Location.payload l <> DTMP) \/
    (Location.kind l = Location.kDoubleStackSlot /\ l ∈ slots F)
  else
    (Location.kind l = Location.kRegister /\ allocatable (Location.payload l)) \/
    (Location.kind l = Location.kStackSlot /\ l ∈ slots F).

Definition mips_read (s : Simulator) (l : Z) : Z :=
  if Location.IsRegister l then get_register (Location.payload l) s
  else if Location.IsFpuRegister l then get_double (Location.payload l) s
  else if Location.IsDoubleStackSlot l
  then pair64 (peek (slot_addr F l) s) (peek (slot_addr F l + 4) s)
  else peek (slot_addr F l) s.

Lemma mips_loc_cases k l : mips_loc k l ->
  (k = false /\ l = reg_loc (Location.payload l) /\ Location.kind l = Location.kRegister /\
   allocatable (Location.payload l)) \/
  (k = true /\ l = fpu_loc (Location.payload l) /\ Location.kind l = Location.kFpuRegister /\
   0 <= Location.payload l < 16 /\ Location.payload l <> DTMP) \/
  (l ∈ slots F /\ (k = false /\ Location.kind l = Location.kStackSlot \/
                   k = true /\ Location.kind l = Location.kDoubleStackSlot)).
Proof.
  intros [Hl Hk]; assert (l = Location.kind l + 16 * Location.payload l) as E.
  { rewrite kind_mod, payload_div by done; pose proof (Z.div_mod l 16); lia. }
  destruct k, Hk as [(Ek & Hp) | [Ek Hin]]; rewrite Ek in E; unfold reg_loc, fpu_loc; tauto.
Qed.

(** The kind decides every query. *)
Ltac by_kind E :=
  unfold Location.IsRegister, Location.IsFpuRegister, Location.IsStackSlot,
    Location.IsDoubleStackSlot, Location.HasStackIndex, Location.IsQuadStackSlot in *;
  rewrite E in *; cbn [Z.eqb Pos.eqb Location.kRegister Location.kFpuRegister
    Location.kStackSlot Location.kDoubleStackSlot Location.kQuadStackSlot orb andb] in *.

Lemma read_register s l : Location.kind l = Location.kRegister ->
  mips_read s l = get_register (Location.payload l) s.
Proof. intros E; unfold mips_read; by_kind E; done. Qed.

Lemma read_fpu s l : Location.kind l = Location.kFpuRegister ->
  mips_read s l = get_double (Location.payload l) s.
Proof. intros E; unfold mips_read; by_kind E; done. Qed.

Lemma read_slot s l : Location.kind l = Location.kStackSlot ->
  mips_read s l = peek (slot_addr F l) s.
Proof. intros E; unfold mips_read; by_kind E; done. Qed.

Lemma read_double_slot s l : Location.kind l = Location.kDoubleStackSlot ->
  mips_read s l = pair64 (peek (slot_addr F l) s) (peek (slot_addr F l + 4) s).
Proof. intros E; unfold mips_read; by_kind E; done. Qed.

(** What an update of the state does to the other locations. *)
Lemma read_set_register k l r v s :
  mips_loc k l -> l <> reg_loc r -> mips_read (set_register r v s) l = mips_read s l.
Proof.
  intros Hl Hne; destruct (set_register_frame r v s) as (_ & _ & Em & Ef & _).
  destruct (mips_loc_cases k l Hl) as [(_ & El & Ek & _) | [(_ & _ & Ek & _) | [_ [[_ Ek] | [_ Ek]]]]].
  - rewrite !read_register by done; apply get_set_register_ne; congruence.
  - rewrite !read_fpu by done; unfold get_double, freg; rewrite Ef; done.
  - rewrite !read_slot by done; unfold peek; rewrite Em; done.
  - rewrite !read_double_slot by done; unfold peek; rewrite Em; done.
Qed.

Lemma read_put_freg k l d q v s :
  mips_loc k l -> l <> fpu_loc d -> q = d * 2 \/ q = d * 2 + 1 ->
  mips_read (put_freg q v s) l = mips_read s l.
Proof.
  intros Hl Hne Hq.
  destruct (mips_loc_cases k l Hl) as [(_ & El & Ek & _) | [(_ & El & Ek & _) | [_ [[_ Ek] | [_ Ek]]]]].
  - rewrite !read_register by done; done.
  - rewrite !read_fpu by done; assert (Location.payload l <> d) by congruence.
    unfold get_double, freg, put_freg; cbn; rewrite !lookup_insert_ne by lia; done.
  - rewrite !read_slot by done; done.
  - rewrite !read_double_slot by done; done.
Qed.

(** A word that belongs to no slot but [l']. *)
Lemma read_poke k l a v s :
  mips_loc k l -> (forall b, l ∈ slots F -> slot_word F l b -> b + 4 <= a \/ a + 4 <= b) ->
  mips_read (poke a v s) l = mips_read s l.
Proof.
  intros Hl Hd.
  destruct (mips_loc_cases k l Hl) as [(_ & El & Ek & _) | [(_ & El & Ek & _) | [Hin [[_ Ek] | [_ Ek]]]]].
  - rewrite !read_register by done; done.
  - rewrite !read_fpu by done; done.
  - rewrite !read_slot by done; apply peek_poke_ne, Hd; [done | left; done].
  - rewrite !read_double_slot by done; rewrite !peek_poke_ne; [done | |]; apply Hd; try done.
    + right; by_kind Ek; done.
    + left; done.
Qed.

Lemma slot_apart l l' a b :
  l ∈ slots F -> l' ∈ slots F -> l <> l' -> slot_word F l a -> slot_word F l' b ->
  a + 4 <= b \/ b + 4 <= a.
Proof.
  intros Hl Hl' Hne Ha%slot_size_word Hb%slot_size_word.
  destruct (frame_disjoint F HF l l' Hl Hl' Hne); lia.
Qed.

Lemma read_poke_slot k l l' a v s :
  mips_loc k l -> l' ∈ slots F -> l <> l' -> slot_word F l' a ->
  mips_read (poke a v s) l = mips_read s l.
Proof.
  intros Hl Hl' Hne Ha; apply (read_poke k); [done |]; intros b Hin Hb.
  apply (slot_apart l l'); done.
Qed.

Lemma read_poke_stack k l a v s :
  mips_loc k l -> a = sp F - 4 \/ a = sp F - 8 -> mips_read (poke a v s) l = mips_read s l.
Proof.
  intros Hl Ha; apply (read_poke k); [done |]; intros b Hin Hb%slot_size_word.
  destruct (frame_below F HF l Hin); lia.
Qed.

(** Slots of the frame. *)
Lemma slot_ok k l : mips_loc k l -> l ∈ slots F ->
  Location.base_reg l = Ok FP /\ Location.ToStackSlotOffset l = Ok (slot_offset l) /\
  forall a, slot_word F l a -> word_addr a /\ IsInt kImmBits (a - fp F) = true /\ writable_word F a.
Proof.
  intros _ Hin; destruct (frame_slot F HF l Hin) as (_ & _ & Eb & Eo & Hw).
  split_and!; [done | done |]; intros a Ha; destruct (Hw a Ha).
  split_and!; [done | done | eapply slot_writable; done].
Qed.
End Read.

(** * Code and what it does *)
Section Does.
Context (F : Frame) (HF : frame_ok F).
#[local] Abbreviation base := (base F).

(** The object pool. *)
Record pool_ok (p : ObjectPool) : Prop := mk_pool_ok {
  pool_isolate : current_is_vm_isolate p = false;
  pool_length : length (patchable_pool_entries_ p) = length (object_pool_ p);
  pool_table x i : object_pool_index_table_ p !! x = Some i ->
    patchable_pool_entries_ p !! i = Some kNotPatchable /\
    exists o, object_pool_ p !! i = Some o /\ raw o = x
}.

Definition mips_good (c : Compiler) : Prop :=
  in_delay_slot_ (assembler_ c) = false /\ pool_ok (pool_ c).

(** A word that the code does not write. *)
Definition constant_word (a : Z) : Prop :=
  word_addr a /\ mapped (mem0 F) a /\ forall i, 0 <= i < 4 -> ~ writable F (a + i).

(** The pool is in memory, behind the pool pointer. *)
Definition mips_linked (c : Compiler) : Prop :=
  Z.of_nat (length (object_pool_ (pool_ c))) < 2 ^ 28 /\
  forall i o, object_pool_ (pool_ c) !! i = Some o ->
    let a := pp F + Array_element_offset i - kHeapObjectTag in
    constant_word a /\ word_of (mem0 F) a = int32 (raw o).

Definition emits (il : list insn) (c c' : Compiler) : Prop :=
  emit_all il (assembler_ c) = Ok (assembler_ c') /\ Forall plain il /\ Forall operands_ok il.

(** With the moves [ms], [f] generates code that takes a state which satisfies [P] to one
    related to it by [R]. *)
Definition does (ms : list MoveOperands) (P : Simulator -> Prop)
  (f : resolver -> outcome resolver) (R : Simulator -> Simulator -> Prop) : Prop :=
  forall r, moves_ r = ms -> mips_good (compiler_ r) ->
  returns (f r) (fun r' => moves_ r' = ms /\ mips_good (compiler_ r') /\
    exists il, emits il (compiler_ r) (compiler_ r') /\
      (mips_linked (compiler_ r') -> mips_linked (compiler_ r) /\
       forall s, base s -> P s -> exists s', exec base il s s' /\ base s' /\ R s s')).

Lemma does_bind ms P f R P2 g R2 :
  does ms P f R -> does ms P2 g R2 ->
  (forall s s1, base s -> P s -> base s1 -> R s s1 -> P2 s1) ->
  does ms P (fun r => let* r := f r in g r) (fun s s' => exists s1, R s s1 /\ R2 s1 s').
Proof.
  intros Hf Hg HP r Hr Hgood; call (Hf r Hr Hgood) as r1 (Hr1 & Hg1 & il1 & (He1 & Hp1 & Ho1) & Hx1).
  eapply returns_mono; [apply (Hg r1 Hr1 Hg1) |].
  intros r2 (Hr2 & Hg2 & il2 & (He2 & Hp2 & Ho2) & Hx2); split_and!; [done | done |].
  exists (il1 ++ il2); split.
  { split_and!; [rewrite emit_all_app, He1; done | |]; apply Forall_app; done. }
  intros [Hl1 Hx2']%Hx2; destruct (Hx1 Hl1) as [Hl Hx1']; split; [done |]; intros s Hs HPs.
  destruct (Hx1' s Hs HPs) as (s1 & Hex1 & Hs1 & HR1).
  destruct (Hx2' s1 Hs1) as (s2 & Hex2 & Hs2 & HR2); [eauto |].
  exists s2; split_and!; [eapply exec_app; done | done | eauto].
Qed.

Lemma does_weaken ms (P P' : Simulator -> Prop) f (R R' : Simulator -> Simulator -> Prop) :
  does ms P f R -> (forall s, base s -> P' s -> P s) ->
  (forall s s', base s -> base s' -> P' s -> R s s' -> R' s s') -> does ms P' f R'.
Proof.
  intros Hf HP HR r Hr Hgood; eapply returns_mono; [apply (Hf r Hr Hgood) |].
  intros r' (Hr' & Hg' & il & He & Hx); split_and!; [done | done |]; exists il; split; [done |].
  intros [Hl Hx']%Hx; split; [done |]; intros s Hs HPs.
  destruct (Hx' s Hs) as (s' & ? & ? & ?); [auto |]; exists s'; auto.
Qed.

Lemma does_ext ms P f g R :
  (forall r, f r = g r) -> does ms P f R -> does ms P g R.
Proof. intros E Hf r Hr Hgood; rewrite <- E; apply Hf; done. Qed.

(** ** Instructions *)
(** The macro [m] emits the instructions [il]. *)
Definition codes (m : asm) (il : list insn) : Prop :=
  forall a, in_delay_slot_ a = false -> m a = emit_all il a.

Lemma emit_all_plain il a :
  Forall plain il -> exists a', emit_all il a = Ok a' /\
    (in_delay_slot_ a = false -> in_delay_slot_ a' = false) /\
    allow_constant_pool_ a' = allow_constant_pool_ a.
Proof.
  intros Hp; revert a; induction Hp as [| i il Hi _ IH]; intros a; cbn [emit_all]; [eauto |].
  destruct (emit_plain i a Hi) as [w ->]; cbn [obind].
  destruct (IH (Emit w a)) as (a' & -> & Hd & Ha); eauto 10.
Qed.

Lemma does_asm ms m il (P : Simulator -> Prop) (R : Simulator -> Simulator -> Prop) :
  codes m il -> Forall plain il -> Forall operands_ok il ->
  (forall s, base s -> P s -> exists s', exec base il s s' /\ R s s') ->
  does ms P (assemble m) R.
Proof.
  intros Hm Hp Ho Hx [[a p im] ms'] Hr [Hd Hpool]; cbn in *; subst ms'; unfold assemble; cbn.
  rewrite (Hm a Hd); destruct (emit_all_plain il a Hp) as (a' & Ea & Hd' & Ha').
  rewrite Ea; cbn [obind]; apply returns_Ok; cbn; split_and!; [done | split; auto |].
  exists il; split; [split_and!; done |]; intros Hl; split; [done |]; intros s Hs HPs.
  destruct (Hx s Hs HPs) as (s' & Hex & HR); exists s'; split_and!; [done | | done].
  clear -Hex Hs; induction Hex; auto.
Qed.

(** The effect of each instruction on states of the frame. *)
Lemma isa_mov d s0 s : isa (Or d s0 ZR) s = Ok (set_register d (get_register s0 s) s).
Proof. cbn [isa]; change (get_register ZR s) with 0; rewrite Z.lor_0_r; done. Qed.

Definition points (s : Simulator) (b off a : Z) : Prop :=
  uint32 (get_register b s + off) = a /\ word_addr a /\ mapped (memory s) a.

Lemma at_points s b off a k : points s b off a -> at_address b off s k = k a.
Proof.
  intros (E & [Hlo _] & _); unfold at_address; rewrite E, (proj2 (Z.ltb_ge a 65536)) by lia; done.
Qed.

Lemma isa_lw r b off a s : points s b off a -> isa (Lw r b off) s = Ok (set_register r (peek a s) s).
Proof.
  intros Hp; cbn [isa]; rewrite (at_points s b off a) by done; destruct Hp as (_ & (_ & _ & ?) & ?).
  rewrite ReadW_ok by done; done.
Qed.

Lemma isa_sw r b off a s : points s b off a -> isa (Sw r b off) s = Ok (poke a (get_register r s) s).
Proof.
  intros Hp; cbn [isa]; rewrite (at_points s b off a) by done; destruct Hp as (_ & (_ & _ & ?) & ?).
  apply WriteW_ok; done.
Qed.

Lemma isa_lwc1 q b off a s : points s b off a -> isa (Lwc1 q b off) s = Ok (put_freg q (peek a s) s).
Proof.
  intros Hp; cbn [isa]; rewrite (at_points s b off a) by done; destruct Hp as (_ & (_ & _ & ?) & ?).
  rewrite ReadW_ok by done; done.
Qed.

Lemma isa_swc1 q b off a s : points s b off a -> isa (Swc1 q b off) s = Ok (poke a (freg q s) s).
Proof.
  intros Hp; cbn [isa]; rewrite (at_points s b off a) by done; destruct Hp as (_ & (_ & _ & ?) & ?).
  apply WriteW_ok; done.
Qed.

(** A base register that holds [int32 v] points to [v + off]. *)
Lemma points_cong s b v off a :
  get_register b s = int32 v -> int32 (v + off) = int32 a -> word_addr a -> mapped (memory s) a ->
  points s b off a.
Proof.
  intros Eb E Ha Hm; split_and!; [| done | done]; rewrite Eb.
  rewrite <- (to_u_to_s 32), to_s_add_l, E, to_u_to_s by lia; apply to_u_id.
  destruct Ha; unfold in_u; lia.
Qed.

Lemma points_base s b v off a :
  get_register b s = int32 v -> a = v + off -> word_addr a -> mapped (memory s) a -> points s b off a.
Proof. intros Eb -> Ha Hm; apply (points_cong s b v); done. Qed.

Lemma points_slot s k l a :
  base s -> mips_loc F k l -> l ∈ slots F -> slot_word F l a -> points s FP (a - fp F) a.
Proof.
  intros Hs Hl Hin Ha; destruct (slot_ok F HF k l Hl Hin) as (_ & _ & Hw).
  destruct (Hw a Ha) as (? & _ & ?).
  apply (points_base s FP (fp F)); [apply base_fp; done | lia | done | eapply base_word; done].
Qed.

(** ** Macros *)
Lemma reg5_range r : reg5 r <-> 0 <= r < 32.
Proof. done. Qed.

Lemma does_mov ms d s0 :
  reg5 d -> reg5 s0 -> d <> FP -> d <> PP ->
  does ms (fun _ => True) (assemble (mov d s0)) (fun s s' => s' = set_register d (get_register s0 s) s).
Proof.
  intros Hd Hs Hf Hp; apply (does_asm ms _ [Or d s0 ZR]).
  - intros a _; cbn [emit_all MipsIsa.emit]; unfold mov; destruct (or_ d s0 ZR a); done.
  - code_ok.
  - code_ok; done.
  - intros s Hb _; eexists; split; [| done]; eapply exec_one; [apply isa_mov |].
    apply base_set_register; done.
Qed.

Lemma does_LoadFromOffset ms r l :
  reg5 r -> r <> FP -> r <> PP -> mips_loc F false l -> l ∈ slots F ->
  does ms (fun _ => True) (assemble (LoadFromOffset r FP (slot_offset l)))
    (fun s s' => s' = set_register r (peek (slot_addr F l) s) s).
Proof.
  intros Hr Hf Hp Hl Hin; destruct (slot_ok F HF _ l Hl Hin) as (_ & _ & Hw).
  destruct (Hw (slot_addr F l) ltac:(left; done)) as (_ & Hi & _).
  unfold slot_addr in Hi; rewrite Z.add_simpl_l in Hi.
  apply (does_asm ms _ [Lw r FP (slot_offset l)]).
  - intros a Ha; unfold LoadFromOffset; rewrite Ha, Hi; cbn [negb emit_all MipsIsa.emit].
    destruct (lw r _ a); done.
  - code_ok.
  - code_ok; done.
  - intros s Hb _; eexists; split; [| done]; eapply exec_one; [apply isa_lw | apply base_set_register; done].
    replace (slot_offset l) with (slot_addr F l - fp F) by (unfold slot_addr; lia).
    apply (points_slot s false l); [done | done | done | left; done].
Qed.

Lemma does_StoreToOffset ms r l :
  reg5 r -> mips_loc F false l -> l ∈ slots F ->
  does ms (fun _ => True) (assemble (StoreToOffset r FP (slot_offset l)))
    (fun s s' => s' = poke (slot_addr F l) (get_register r s) s).
Proof.
  intros Hr Hl Hin; destruct (slot_ok F HF _ l Hl Hin) as (_ & _ & Hw).
  destruct (Hw (slot_addr F l) ltac:(left; done)) as (_ & Hi & Hww).
  unfold slot_addr in Hi; rewrite Z.add_simpl_l in Hi.
  apply (does_asm ms _ [Sw r FP (slot_offset l)]).
  - intros a Ha; unfold StoreToOffset; rewrite Ha, Hi; cbn [negb emit_all MipsIsa.emit].
    destruct (sw r _ a); done.
  - code_ok.
  - code_ok; done.
  - intros s Hb _; eexists; split; [| done]; eapply exec_one; [apply isa_sw | apply base_poke; done].
    replace (slot_offset l) with (slot_addr F l - fp F) by (unfold slot_addr; lia).
    apply (points_slot s false l); [done | done | done | left; done].
Qed.

(** Doubles, at any base register. *)
Definition put_pair (d lo hi : Z) (s : Simulator) : Simulator :=
  put_freg (d * 2 + 1) hi (put_freg (d * 2) lo s).
Definition poke_pair (a d : Z) (s : Simulator) : Simulator :=
  poke (a + 4) (freg (d * 2 + 1) s) (poke a (freg (d * 2) s) s).

Lemma dreg_regs d : dreg d -> reg5 (d * 2) /\ reg5 (d * 2 + 1).
Proof. unfold dreg; rewrite !reg5_range; lia. Qed.

Lemma does_LoadDFromOffset ms d b off a (P : Simulator -> Prop) :
  dreg d -> reg5 b -> IsInt kImmBits off = true -> IsInt kImmBits (off + 4) = true ->
  (forall s, base s -> P s -> points s b off a /\ points s b (off + 4) (a + 4)) ->
  does ms P (assemble (LoadDFromOffset d b off))
    (fun s s' => s' = put_pair d (peek a s) (peek (a + 4) s) s).
Proof.
  intros Hd Hr Hi Hi' HP; destruct (dreg_regs d Hd).
  apply (does_asm ms _ [Lwc1 (d * 2) b off; Lwc1 (d * 2 + 1) b (off + 4)]).
  - intros a0 Ha; unfold LoadDFromOffset; rewrite Ha; cbn [negb emit_all MipsIsa.emit].
    destruct (lwc1 (d * 2) _ a0); cbn; [destruct (lwc1 _ _ _) |]; done.
  - code_ok.
  - code_ok; done.
  - intros s Hb HPs; destruct (HP s Hb HPs) as [H1 H2]; eexists; split; [| done].
    econstructor; [apply isa_lwc1, H1 | apply base_put_freg, Hb |].
    apply exec_one; [rewrite (isa_lwc1 _ _ _ (a + 4)) by exact H2; done |].
    apply base_put_freg, base_put_freg, Hb.
Qed.

Lemma does_StoreDToOffset ms d b off a (P : Simulator -> Prop) :
  dreg d -> reg5 b -> IsInt kImmBits off = true -> IsInt kImmBits (off + 4) = true ->
  writable_word F a -> writable_word F (a + 4) ->
  (forall s, base s -> P s -> points s b off a /\ points s b (off + 4) (a + 4)) ->
  does ms P (assemble (StoreDToOffset d b off)) (fun s s' => s' = poke_pair a d s).
Proof.
  intros Hd Hr Hi Hi' Hw Hw' HP; destruct (dreg_regs d Hd).
  apply (does_asm ms _ [Swc1 (d * 2) b off; Swc1 (d * 2 + 1) b (off + 4)]).
  - intros a0 Ha; unfold StoreDToOffset; rewrite Ha; cbn [negb emit_all MipsIsa.emit].
    destruct (swc1 (d * 2) _ a0); cbn; [destruct (swc1 _ _ _) |]; done.
  - code_ok.
  - code_ok; done.
  - intros s Hb HPs; destruct (HP s Hb HPs) as [H1 (E2 & ? & Hm2)]; eexists; split; [| done].
    econstructor; [apply isa_swc1, H1 | apply base_poke; done |].
    apply exec_one; [rewrite (isa_swc1 _ _ _ (a + 4)) by (split_and!; auto using mapped_poke); done |].
    apply base_poke; [apply base_poke |]; done.
Qed.

Lemma does_movd ms d s0 :
  dreg d -> dreg s0 ->
  does ms (fun _ => True) (assemble (fun a => Ok (movd d s0 a)))
    (fun s s' => s' = put_double d (get_double s0 s) s).
Proof.
  intros Hd Hs; apply (does_asm ms _ [Movd d s0]).
  - intros a _; done.
  - code_ok.
  - code_ok; done.
  - intros s Hb _; eexists; split; [| done]; eapply exec_one; [done |].
    apply base_put_freg, base_put_freg, Hb.
Qed.

(** ** The stack *)
Definition at_sp (q : Z) (s : Simulator) : Prop := get_register SP s = int32 q.

Lemma at_sp_set q s v : int32 (int32 q + v) = int32 (q + v) /\
  (at_sp q s -> at_sp (q + v) (set_register SP (get_register SP s + v) s)).
Proof.
  assert (int32 (int32 q + v) = int32 (q + v)) as E by (rewrite to_s_add_l by lia; done).
  split; [done |]; unfold at_sp; intros Eq.
  rewrite get_set_register_eq, Eq, E by done; done.
Qed.

Lemma points_sp s q : at_sp q s -> word_addr q -> mapped (memory s) q -> points s SP 0 q.
Proof. intros; apply (points_base s SP q); [done | lia | done | done]. Qed.

Definition pushed (q t : Z) (s : Simulator) : Simulator :=
  let s1 := set_register SP (get_register SP s + -4) s in poke (q - 4) (get_register t s1) s1.

Lemma does_Push ms t q :
  q = sp F \/ q = sp F - 4 -> allocatable t ->
  does ms (at_sp q) (assemble (Push t)) (fun s s' => s' = pushed q t s).
Proof.
  intros Hq (Ht & _ & Hsp & _); destruct (frame_stack F HF) as [Hw8 Hw4].
  assert (word_addr (q - 4)) as Hw by (destruct Hq as [-> | ->]; [| rewrite <- Z.sub_add_distr]; done).
  assert (writable_word F (q - 4)) as Hww by (apply stack_writable; lia).
  apply (does_asm ms _ [Addiu SP SP (-4); Sw t SP 0]).
  - intros a Ha; unfold Push; rewrite Ha; cbn [negb emit_all MipsIsa.emit].
    change (- kWordSize) with (-4); destruct (addiu SP SP (-4) a); cbn; [destruct (sw _ _ _) |]; done.
  - code_ok.
  - code_ok; rewrite ?reg5_range; repeat split; done || lia.
  - intros s Hb Hs; eexists; split; [| done].
    assert (base (set_register SP (get_register SP s + -4) s)) as Hb1 by (apply base_set_register; done).
    econstructor; [reflexivity | done |]; apply exec_one; [| apply base_poke; done].
    apply isa_sw, points_sp; [| done | eapply base_word; done].
    apply (at_sp_set q s (-4)); done.
Qed.

Definition popped (q t : Z) (s : Simulator) : Simulator :=
  let s1 := set_register t (peek q s) s in set_register SP (get_register SP s1 + 4) s1.

Lemma does_Pop ms t q :
  q = sp F - 4 \/ q = sp F - 8 -> allocatable t ->
  does ms (at_sp q) (assemble (Pop t)) (fun s s' => s' = popped q t s).
Proof.
  intros Hq (Ht & _ & Hsp & Hf & Hp); destruct (frame_stack F HF) as [Hw8 Hw4].
  assert (word_addr q) as Hw by (destruct Hq as [-> | ->]; done).
  assert (writable_word F q) as Hww by (apply stack_writable; done).
  apply (does_asm ms _ [Lw t SP 0; Addiu SP SP 4]).
  - intros a Ha; unfold Pop; rewrite Ha; cbn [negb emit_all MipsIsa.emit].
    change kWordSize with 4; destruct (lw t _ a); cbn; [destruct (addiu _ _ _ _) |]; done.
  - code_ok.
  - code_ok; rewrite ?reg5_range; repeat split; done || lia.
  - intros s Hb Hs; eexists; split; [| done].
    econstructor; [apply (isa_lw _ _ _ q), points_sp; [done | done | eapply base_word; done] | |].
    { apply base_set_register; done. }
    apply exec_one; [reflexivity |]; apply base_set_register; [apply base_set_register | |]; done.
Qed.

(** ** Scratch registers *)
Lemma mask_test i mask : 0 <= i -> (Z.land (Z.shiftl 1 i) mask =? 0) = negb (Z.testbit mask i).
Proof.
  intros Hi; destruct (Z.testbit mask i) eqn:E; cbn [negb].
  - apply Z.eqb_neq; intros E0.
    assert (Z.testbit (Z.land (Z.shiftl 1 i) mask) i = true) as Et; [| rewrite E0, Z.bits_0 in Et; done].
    rewrite Z.land_spec, E, andb_true_r, Z.shiftl_spec, Z.sub_diag by done; done.
  - apply Z.eqb_eq, Z.bits_inj'; intros j Hj; rewrite Z.bits_0, Z.land_spec.
    destruct (decide (j = i)) as [-> | Hne]; [rewrite E; apply andb_false_r |].
    rewrite Z.shiftl_spec by done; destruct (decide (j < i)).
    + rewrite Z.testbit_neg_r by lia; done.
    + replace (Z.testbit 1 (j - i)) with false; [done |].
      symmetry; change 1 with (2 ^ 0); apply Z.pow2_bits_false; lia.
Qed.

Lemma testbit_mask r i : 0 <= i -> 0 <= r -> Z.testbit (Z.shiftl 1 r) i = (r =? i).
Proof.
  intros Hi Hr; rewrite Z.shiftl_1_l; destruct (Z.eqb_spec r i) as [-> | Hne].
  - apply Z.pow2_bits_true; lia.
  - apply Z.pow2_bits_false; lia.
Qed.

Lemma find_scratch_ok kind mask ms n : forall reg,
  kind = Location.kRegister \/ kind = Location.kFpuRegister -> Forall consistent ms ->
  0 <= reg -> reg + Z.of_nat n <= 32 ->
  returns (find_scratch kind mask ms n reg) (fun t => t = -1 \/
    (reg <= t < reg + Z.of_nat n /\ Z.testbit mask t = false /\ scratch ms (kind + 16 * t))).
Proof.
  induction n as [| n IH]; intros reg Hk Hc Hr Hn; cbn [find_scratch]; [apply returns_Ok; auto |].
  rewrite mask_test by done; destruct (Z.testbit mask reg) eqn:E; cbn [negb].
  { cbn [obind]; eapply returns_mono; [apply IH; done || lia |].
    intros t [? | (? & ? & ?)]; [left | right; split_and!]; done || lia. }
  rewrite machine_location by (done || lia); cbn [obind].
  call (IsScratchLocation_ok (kind + 16 * reg) ms) as b Hb; [done | |].
  { destruct Hk as [-> | ->]; unfold Location.kRegister, Location.kFpuRegister; lia. }
  destruct b.
  { apply returns_Ok; right; split_and!; [lia | lia | done | tauto]. }
  eapply returns_mono; [apply IH; done || lia |].
  intros t [? | (? & ? & ?)]; [left | right; split_and!]; done || lia.
Qed.

Lemma find_unblocked_ok mask n : forall reg t,
  0 <= reg -> reg <= t < reg + Z.of_nat n -> Z.testbit mask t = false ->
  exists u, find_unblocked mask n reg = u /\ reg <= u < reg + Z.of_nat n /\ Z.testbit mask u = false.
Proof.
  induction n as [| n IH]; intros reg t Hr Ht Hf; [lia |]; cbn [find_unblocked].
  rewrite mask_test by done; destruct (Z.testbit mask reg) eqn:E; cbn [negb].
  - destruct (IH (reg + 1) t) as (u & -> & ? & ?); [lia | | done |].
    { destruct (decide (t = reg)) as [-> |]; [congruence | lia]. }
    exists u; split_and!; done || lia.
  - exists reg; split_and!; done || lia.
Qed.

Lemma AllocateScratchRegister_ok kind mask first last r t0 :
  kind = Location.kRegister \/ kind = Location.kFpuRegister -> Forall consistent (moves_ r) ->
  0 <= first -> first <= t0 <= last -> last < 32 -> Z.testbit mask t0 = false ->
  returns (AllocateScratchRegister kind mask first last (r : resolver)) (fun '(t, spilled) =>
    first <= t <= last /\ Z.testbit mask t = false /\
    (spilled = false -> scratch (moves_ r) (kind + 16 * t))).
Proof.
  intros Hk Hc Hf Ht Hl Hm; unfold AllocateScratchRegister.
  set (n := Z.to_nat (last - first + 1)); assert (Z.of_nat n = last - first + 1) as En by lia.
  call (find_scratch_ok kind mask (moves_ r) n first) as t Hs; [done | done | done | lia |].
  destruct (Z.eqb_spec t (-1)) as [-> | Hne].
  - destruct (find_unblocked_ok mask n first t0) as (u & -> & ? & ?); [done | lia | done |].
    apply returns_Ok; split_and!; done || lia.
  - apply returns_Ok; destruct Hs as [? | (? & ? & ?)]; [done | split_and!; done || lia].
Qed.

Lemma testbit_MaskBit r i : 0 <= i -> r = kNoRegister \/ 0 <= r -> Z.testbit (MaskBit r) i = (r =? i).
Proof.
  intros Hi Hr; unfold MaskBit; destruct (Z.eqb_spec r kNoRegister) as [-> | Hne]; cbn [negb].
  - rewrite Z.bits_0; symmetry; apply Z.eqb_neq; unfold kNoRegister; lia.
  - apply testbit_mask; [done |]; destruct Hr; done.
Qed.

Lemma ScratchRegister_ok b (r : resolver) :
  b = kNoRegister \/ 0 <= b < 32 -> Forall consistent (moves_ r) ->
  returns (ScratchRegister b r) (fun '(t, spilled) => 2 <= t <= 21 /\ t <> b /\
    (spilled = false -> scratch (moves_ r) (reg_loc t))).
Proof.
  intros Hb Hc; unfold ScratchRegister; set (mask := if intrinsic_mode_ _ then _ else _).
  assert (forall i, 0 <= i -> Z.testbit mask i =
    (b =? i) || (29 =? i) || (30 =? i) || (1 =? i) || (23 =? i) ||
    (intrinsic_mode_ (compiler_ r) && (20 =? i))) as Hmask.
  { assert (b = kNoRegister \/ 0 <= b) as Hb' by lia; intros i Hi.
    assert ((TMP2 =? i) = false) as E2 by (apply Z.eqb_neq; unfold TMP2, kNoRegister; lia).
    unfold mask; destruct (intrinsic_mode_ _); rewrite !Z.lor_spec, !testbit_MaskBit, E2;
      try done; try (left; done); try (right; done); rewrite ?orb_false_r; done. }
  eapply returns_mono; [apply (AllocateScratchRegister_ok _ mask _ _ r (if b =? 2 then 3 else 2)) |].
  1-5: try done; try (left; done); unfold kFirstFreeCpuRegister, kLastFreeCpuRegister; try lia.
  1: destruct (b =? 2); lia.
  - rewrite Hmask by (destruct (b =? 2); lia).
    destruct (Z.eqb_spec b 2) as [-> | Hne]; cbn; [destruct (intrinsic_mode_ _); done |].
    rewrite (proj2 (Z.eqb_neq b 2)) by done; cbn; destruct (intrinsic_mode_ _); done.
  - intros [t spilled] (Ht & Hm & Hs); unfold kFirstFreeCpuRegister, kLastFreeCpuRegister in Ht.
    split; [done |]; split; [| done]; intros ->; rewrite Hmask, Z.eqb_refl in Hm by lia; done.
Qed.

Lemma scratch_allocatable t : 2 <= t <= 21 -> allocatable t.
Proof. intros; unfold allocatable, TMP, AT, SP, FP, PP, S7, R1, R29, R30, R23; lia. Qed.

Lemma does_alloc {A} ms P (alloc : resolver -> outcome A) Q (f : A -> resolver -> outcome resolver) R :
  (forall r, moves_ r = ms -> returns (alloc r) Q) -> (forall x, Q x -> does ms P (f x) R) ->
  does ms P (fun r => let* x := alloc r in f x r) R.
Proof.
  intros Ha Hf r Hr Hgood; destruct (Ha r Hr) as (x & -> & Hx); cbn [obind]; apply Hf; done.
Qed.

(** Other locations keep their values, except those in [C]; so does the stack above [q]. *)
Definition effect (W : list Z) (C : Z -> Prop) (s s' : Simulator) : Prop :=
  forall k l, mips_loc F k l -> l ∉ W -> ~ C l -> mips_read F s' l = mips_read F s l.

Definition stack_kept (q : Z) (s s' : Simulator) : Prop :=
  get_register SP s' = get_register SP s /\
  forall a, q <= a < sp F -> memory s' !! a = memory s !! a.

Lemma reg_loc_kind r : Location.kind (reg_loc r) = Location.kRegister.
Proof. rewrite kind_mod; unfold reg_loc; rewrite (Z.mul_comm 16), Z_mod_plus_full; done. Qed.

Lemma reg_loc_payload r : in_u 32 (reg_loc r) -> Location.payload (reg_loc r) = r.
Proof.
  intros Hr; rewrite payload_div by done; unfold reg_loc; rewrite (Z.mul_comm 16), Z.div_add by lia.
  done.
Qed.

Lemma reg_loc_other k l r : mips_loc F k l -> ~ allocatable r -> l <> reg_loc r.
Proof.
  intros Hl Hr ->; pose proof (proj1 Hl) as Hu; pose proof (reg_loc_kind r) as Ekr.
  destruct (mips_loc_cases F k _ Hl) as [(_ & _ & _ & Ha) | [(_ & _ & Ek & _) | [_ [[_ Ek] | [_ Ek]]]]];
    [| rewrite Ekr in Ek; discriminate Ek ..].
  rewrite reg_loc_payload in Ha; done.
Qed.

Lemma not_allocatable_sp : ~ allocatable SP.
Proof. intros (_ & _ & ? & _); done. Qed.

Lemma read_pushed k l q t s :
  q = sp F \/ q = sp F - 4 -> mips_loc F k l -> mips_read F (pushed q t s) l = mips_read F s l.
Proof.
  intros Hq Hl; unfold pushed; rewrite (read_poke_stack F HF k) by (done || lia).
  apply (read_set_register F k); [done |]; apply (reg_loc_other k); auto using not_allocatable_sp.
Qed.

Lemma read_popped k l q t s :
  mips_loc F k l -> l <> reg_loc t -> mips_read F (popped q t s) l = mips_read F s l.
Proof.
  intros Hl Hne; unfold popped; rewrite !(read_set_register F k); try done.
  apply (reg_loc_other k); auto using not_allocatable_sp.
Qed.

Lemma memory_set_register r v s : memory (set_register r v s) = memory s.
Proof. apply (set_register_frame r v s). Qed.

(** The effect of the code in a scope, where [t] is spilled. *)
Lemma spilled_effect q t s s2 W C :
  q = sp F \/ q = sp F - 4 -> allocatable t -> wf s -> at_sp q s ->
  stack_kept (q - 4) (pushed q t s) s2 ->
  effect W (fun l => C l \/ l = reg_loc t) (pushed q t s) s2 ->
  stack_kept q s (popped (q - 4) t s2) /\ effect W C s (popped (q - 4) t s2).
Proof.
  intros Hq Ht Hwf Hs [Ksp Kmem] Heff; pose proof Ht as (Ht0 & _ & Htsp & _ & _).
  assert (get_register SP (pushed q t s) = int32 (q - 4)) as Esp.
  { apply (at_sp_set q s (-4)); done. }
  assert (get_register t (popped (q - 4) t s2) = get_register t s) as Et.
  { unfold popped; rewrite get_set_register_ne, get_set_register_eq by (done || lia).
    unfold peek; rewrite (word_of_ext _ (memory (pushed q t s))) by (intros; apply Kmem; lia).
    change (word_of (memory ?x) ?a) with (peek a x); unfold pushed; rewrite peek_poke_eq.
    rewrite get_set_register_ne by done; rewrite to_s_to_s by lia.
    apply to_s_id; [lia | apply wf_registers; done]. }
  split; [split |].
  - unfold popped; rewrite get_set_register_eq, get_set_register_ne by done.
    rewrite Ksp, Esp, Hs, to_s_add_l by lia; f_equal; lia.
  - intros a Ha; unfold popped; rewrite !memory_set_register, Kmem by lia; unfold pushed.
    rewrite memory_poke_ne, memory_set_register by lia; done.
  - intros k l Hl HW HC; destruct (decide (l = reg_loc t)) as [-> | Hne].
    + rewrite !read_register, reg_loc_payload by (apply reg_loc_kind || apply Hl); done.
    + rewrite (read_popped k), (Heff k l), (read_pushed k) by (done || tauto); done.
Qed.

(** A postcondition: the locations [W] get the values [V], others keep theirs. *)
Definition writes (q : Z) (W : list Z) (V : Simulator -> Z -> Z) (C : Z -> Prop)
  (s s' : Simulator) : Prop :=
  stack_kept q s s' /\ (forall d, d ∈ W -> mips_read F s' d = V s d) /\ effect W C s s'.

Lemma with_scratch_ok ms q b body W V (C : Z -> Prop) :
  q = sp F \/ q = sp F - 4 -> Forall consistent ms -> b = kNoRegister \/ 0 <= b < 32 ->
  (forall d, d ∈ W -> exists k, mips_loc F k d) ->
  (forall t, 2 <= t <= 21 -> t <> b -> reg_loc t ∉ W) ->
  (forall s s', (forall k l, mips_loc F k l -> mips_read F s' l = mips_read F s l) ->
    forall d, d ∈ W -> V s' d = V s d) ->
  (forall q' t, q' = q \/ q' = q - 4 -> 2 <= t <= 21 -> t <> b ->
    does ms (at_sp q') (body t)
      (writes q' W V (fun l => (C l \/ scratch ms l) \/ l = reg_loc t))) ->
  does ms (at_sp q) (with_scratch b body) (writes q W V (fun l => C l \/ scratch ms l)).
Proof.
  intros Hq Hc Hb HW HWt HV Hbody.
  apply (does_ext ms _ (fun r => let* x := ScratchRegister b r in
    let* r := if snd x then SpillScratch (fst x) r else Ok r in
    let* r := body (fst x) r in if snd x then RestoreScratch (fst x) r else Ok r)).
  { intros r; unfold with_scratch; destruct (ScratchRegister b r) as [[] |]; done. }
  apply (does_alloc ms _ (ScratchRegister b) (fun '(t, spilled) => 2 <= t <= 21 /\ t <> b /\
    (spilled = false -> scratch ms (reg_loc t))) (fun x r =>
      let* r := if snd x then SpillScratch (fst x) r else Ok r in
      let* r := body (fst x) r in if snd x then RestoreScratch (fst x) r else Ok r)).
  { intros r Hr; subst ms; apply ScratchRegister_ok; done. }
  intros [t spilled] (Ht & Htb & Hs); pose proof (scratch_allocatable t Ht) as Hal.
  destruct spilled; cbn [fst snd].
  - eapply does_weaken; [eapply does_bind; [apply (does_Push ms t q Hq Hal) |
      eapply does_bind; [apply (Hbody (q - 4) t); auto | apply (does_Pop ms t (q - 4)); [lia | done] |] |] | |].
    + cbn beta; intros s s1 _ Hs1 _ [[E _] _]; unfold at_sp in *; congruence.
    + cbn beta; intros s s1 _ Hs0 _ ->; apply (at_sp_set q s (-4)); done.
    + done.
    + cbn beta; intros s s' Hbs _ Hs0 (s1 & -> & s2 & (Hk & Hd & He) & ->).
      destruct (spilled_effect q t s s2 W (fun l => C l \/ scratch ms l)) as [Hk' He'];
        try done; [apply (base_wf F s Hbs) |].
      split_and!; [done | | done]; intros d Hdw; destruct (HW d Hdw) as [k Hl].
      rewrite (read_popped k), Hd by (done || (intros ->; apply (HWt t); done)).
      apply HV; [| done]; intros; apply (read_pushed k0); done.
  - apply (does_ext ms _ (body t)).
    { intros r; cbn; destruct (body t r); done. }
    eapply does_weaken; [apply (Hbody q t); auto | done |].
    cbn beta; intros s s' _ _ _ (Hk & Hd & He); split_and!; [done | done |].
    intros k l Hl HnW HnC; apply (He k); [done | done |].
    intros [? | ->]; [done |]; apply HnC; auto.
Qed.

(** ** Scratch registers for doubles *)
Lemma does_AddSP ms v q :
  v = 8 \/ v = -8 ->
  does ms (at_sp q) (assemble (AddImmediate SP SP v))
    (fun s s' => s' = set_register SP (get_register SP s + v) s).
Proof.
  intros Hv; apply (does_asm ms _ [Addiu SP SP v]).
  - intros a Ha; unfold AddImmediate; rewrite Ha; destruct Hv as [-> | ->]; cbn; done.
  - destruct Hv as [-> | ->]; code_ok.
  - code_ok; rewrite ?reg5_range; done.
  - intros s Hb _; eexists; split; [| done]; apply exec_one; [done |].
    apply base_set_register; done.
Qed.

Lemma points_stack s :
  base s -> at_sp (sp F - 8) s ->
  points s SP 0 (sp F - 8) /\ points s SP (0 + 4) (sp F - 8 + 4).
Proof.
  intros Hb Hs; destruct (frame_stack F HF) as [Hw8 Hw4].
  assert (writable_word F (sp F - 8) /\ writable_word F (sp F - 8 + 4)) as [Hm8 Hm4].
  { split; apply stack_writable; lia. }
  split; apply (points_base s SP (sp F - 8)); try done; try lia; try (eapply base_word; done).
  replace (sp F - 8 + 4) with (sp F - 4) by lia; done.
Qed.

Definition fpushed (t : Z) (s : Simulator) : Simulator :=
  poke_pair (sp F - 8) t (set_register SP (get_register SP s + -8) s).

Definition fpopped (t : Z) (s : Simulator) : Simulator :=
  let s1 := put_pair t (peek (sp F - 8) s) (peek (sp F - 8 + 4) s) s in
  set_register SP (get_register SP s1 + 8) s1.

Lemma does_SpillFpuScratch ms t :
  dreg t -> does ms (at_sp (sp F)) (SpillFpuScratch t) (fun s s' => s' = fpushed t s).
Proof.
  intros Ht; eapply does_weaken; [eapply does_bind; [apply (does_AddSP ms (-8) (sp F)); auto |
    apply (does_StoreDToOffset ms t SP 0 (sp F - 8) (at_sp (sp F - 8))) |] | |]; try done.
  - apply stack_writable; lia.
  - apply stack_writable; lia.
  - intros s Hb Hs; apply points_stack; done.
  - cbn beta; intros s s1 _ Hs _ ->; apply (at_sp_set (sp F) s (-8)); done.
  - cbn beta; intros s s' _ _ _ (s1 & -> & ->); done.
Qed.

Lemma does_RestoreFpuScratch ms t :
  dreg t -> does ms (at_sp (sp F - 8)) (RestoreFpuScratch t) (fun s s' => s' = fpopped t s).
Proof.
  intros Ht; eapply does_weaken; [eapply does_bind; [
    apply (does_LoadDFromOffset ms t SP 0 (sp F - 8) (at_sp (sp F - 8))) |
    apply (does_AddSP ms 8 (sp F - 8)); auto |] | |]; try done.
  - intros s Hb Hs; apply points_stack; done.
  - cbn beta; intros s s1 _ Hs _ ->; done.
  - cbn beta; intros s s' _ _ _ (s1 & -> & ->); done.
Qed.

Lemma ScratchFpuRegister_ok (r : resolver) :
  Forall consistent (moves_ r) ->
  returns (ScratchFpuRegister DTMP r) (fun '(t, spilled) => dreg t /\ t <> DTMP /\
    (spilled = false -> scratch (moves_ r) (fpu_loc t))).
Proof.
  intros Hc; unfold ScratchFpuRegister; set (mask := Z.lor _ _).
  assert (mask = 2 ^ 9) as Em by done.
  eapply returns_mono; [apply (AllocateScratchRegister_ok _ mask _ _ r 0) |].
  1-6: try done; try (right; done); lia.
  intros [t spilled] (Ht & Hm & Hs); unfold kNumberOfFpuRegisters, kNumberOfDRegisters in Ht.
  split; [unfold dreg; lia |]; split; [| done].
  intros ->; rewrite Em in Hm; done.
Qed.

Lemma fpu_loc_kind r : Location.kind (fpu_loc r) = Location.kFpuRegister.
Proof. rewrite kind_mod; unfold fpu_loc; rewrite (Z.mul_comm 16), Z_mod_plus_full; done. Qed.

Lemma fpu_loc_payload r : in_u 32 (fpu_loc r) -> Location.payload (fpu_loc r) = r.
Proof.
  intros Hr; rewrite payload_div by done; unfold fpu_loc; rewrite (Z.mul_comm 16), Z.div_add by lia.
  done.
Qed.

Lemma freg_set_register q r v s : freg q (set_register r v s) = freg q s.
Proof.
  unfold freg; rewrite (proj1 (proj2 (proj2 (proj2 (set_register_frame r v s))))); done.
Qed.

Lemma double_set_register d r v s : get_double d (set_register r v s) = get_double d s.
Proof. unfold get_double; rewrite !freg_set_register; done. Qed.

Lemma freg_put_ne q q' v s : q <> q' -> freg q (put_freg q' v s) = freg q s.
Proof. intros; unfold freg, put_freg; cbn; rewrite lookup_insert_ne; done. Qed.

Lemma freg_put_eq q v s : freg q (put_freg q v s) = int32 v.
Proof. unfold freg, put_freg; cbn; rewrite lookup_insert_eq; done. Qed.

Lemma get_put_pair d lo hi s :
  in_s 32 lo -> in_s 32 hi -> get_double d (put_pair d lo hi s) = pair64 lo hi.
Proof.
  intros; unfold get_double, put_pair; rewrite freg_put_eq, freg_put_ne, freg_put_eq by lia.
  rewrite !int32_id by done; done.
Qed.

Lemma read_put_pair k l d lo hi s :
  mips_loc F k l -> l <> fpu_loc d -> mips_read F (put_pair d lo hi s) l = mips_read F s l.
Proof. intros; unfold put_pair; rewrite !(read_put_freg F k l d) by auto; done. Qed.

Lemma read_fpushed k l t s : mips_loc F k l -> mips_read F (fpushed t s) l = mips_read F s l.
Proof.
  intros Hl; unfold fpushed, poke_pair; rewrite !(read_poke_stack F HF k) by (done || lia).
  apply (read_set_register F k); [done |]; apply (reg_loc_other k); auto using not_allocatable_sp.
Qed.

Lemma read_fpopped k l t s :
  mips_loc F k l -> l <> fpu_loc t -> mips_read F (fpopped t s) l = mips_read F s l.
Proof.
  intros Hl Hne; unfold fpopped; rewrite (read_set_register F k), (read_put_pair k); try done.
  apply (reg_loc_other k); auto using not_allocatable_sp.
Qed.

Lemma fspilled_effect t s s2 W C :
  wf s -> at_sp (sp F) s -> stack_kept (sp F - 8) (fpushed t s) s2 ->
  effect W (fun l => C l \/ l = fpu_loc t) (fpushed t s) s2 ->
  stack_kept (sp F) s (fpopped t s2) /\ effect W C s (fpopped t s2).
Proof.
  intros Hwf Hs [Ksp Kmem] Heff.
  assert (get_register SP (fpushed t s) = int32 (sp F - 8)) as Esp.
  { apply (at_sp_set (sp F) s (-8)); done. }
  assert (forall a, a = sp F - 8 \/ a = sp F - 8 + 4 -> peek a s2 = peek a (fpushed t s)) as Hpk.
  { intros a Ha; apply word_of_ext; intros; apply Kmem; lia. }
  assert (get_double t (fpopped t s2) = get_double t s) as Et.
  { unfold fpopped; rewrite double_set_register, get_put_pair, !Hpk by (apply peek_range || auto).
    unfold fpushed, poke_pair; rewrite peek_poke_ne, !peek_poke_eq by lia.
    change (freg ?q (poke ?a ?v ?s)) with (freg q s); rewrite !freg_set_register.
    rewrite !int32_id by (apply wf_fregisters; done); done. }
  split; [split |].
  - unfold fpopped; rewrite get_set_register_eq by done.
    change (get_register SP (put_pair ?a ?b ?c s2)) with (get_register SP s2).
    rewrite Ksp, Esp, Hs, to_s_add_l by lia; f_equal; lia.
  - intros a Ha; lia.
  - intros k l Hl HW HC; destruct (decide (l = fpu_loc t)) as [-> | Hne].
    + rewrite !read_fpu, fpu_loc_payload by (apply fpu_loc_kind || apply Hl); done.
    + rewrite (read_fpopped k), (Heff k l), (read_fpushed k) by (done || tauto); done.
Qed.

Lemma with_fpu_scratch_ok ms body W V :
  Forall consistent ms -> (forall d, d ∈ W -> exists k, mips_loc F k d) ->
  (forall t, dreg t -> t <> DTMP -> fpu_loc t ∉ W) ->
  (forall s s', (forall k l, mips_loc F k l -> mips_read F s' l = mips_read F s l) ->
    forall d, d ∈ W -> V s' d = V s d) ->
  (forall q t, q = sp F \/ q = sp F - 8 -> dreg t -> t <> DTMP ->
    does ms (at_sp q) (body t) (writes q W V (fun l => scratch ms l \/ l = fpu_loc t))) ->
  does ms (at_sp (sp F)) (with_fpu_scratch DTMP body) (writes (sp F) W V (scratch ms)).
Proof.
  intros Hc HW HWt HV Hbody.
  apply (does_ext ms _ (fun r => let* x := ScratchFpuRegister DTMP r in
    let* r := if snd x then SpillFpuScratch (fst x) r else Ok r in
    let* r := body (fst x) r in if snd x then RestoreFpuScratch (fst x) r else Ok r)).
  { intros r; unfold with_fpu_scratch; destruct (ScratchFpuRegister DTMP r) as [[] |]; done. }
  apply (does_alloc ms _ (ScratchFpuRegister DTMP) (fun '(t, spilled) => dreg t /\ t <> DTMP /\
    (spilled = false -> scratch ms (fpu_loc t))) (fun x r =>
      let* r := if snd x then SpillFpuScratch (fst x) r else Ok r in
      let* r := body (fst x) r in if snd x then RestoreFpuScratch (fst x) r else Ok r)).
  { intros r Hr; subst ms; apply ScratchFpuRegister_ok; done. }
  intros [t spilled] (Ht & Htb & Hs); destruct spilled; cbn [fst snd].
  - eapply does_weaken; [eapply does_bind; [apply (does_SpillFpuScratch ms t Ht) |
      eapply does_bind; [apply (Hbody (sp F - 8) t); auto | apply (does_RestoreFpuScratch ms t Ht) |] |] | |].
    + cbn beta; intros s s1 _ Hs1 _ [[E _] _]; unfold at_sp in *; congruence.
    + cbn beta; intros s s1 _ Hs0 _ ->; apply (at_sp_set (sp F) s (-8)); done.
    + done.
    + cbn beta; intros s s' Hbs _ Hs0 (s1 & -> & s2 & (Hk & Hd & He) & ->).
      destruct (fspilled_effect t s s2 W (scratch ms)) as [Hk' He']; try done;
        [apply (base_wf F s Hbs) |].
      split_and!; [done | | done]; intros d Hdw; destruct (HW d Hdw) as [k Hl].
      rewrite (read_fpopped k), Hd by (done || (intros ->; apply (HWt t); done)).
      apply HV; [| done]; intros; apply (read_fpushed k0); done.
  - apply (does_ext ms _ (body t)).
    { intros r; cbn; destruct (body t r); done. }
    eapply does_weaken; [apply (Hbody (sp F) t); auto | done |].
    cbn beta; intros s s' _ _ _ (Hk & Hd & He); split_and!; [done | done |].
    intros k l Hl HnW HnC; apply (He k); [done | done |].
    intros [? | ->]; [done |]; apply HnC; auto.
Qed.
End Does.
