(* ===== verification/MipsParallelMoveProofs.v ===== *)
(** The MIPS target of the parallel move resolver keeps its promises ([MoveTargetOk]), so
    that the code emitted for a parallel move, run by the simulator, performs it; and a
    swap of two slots with different base registers, which does not. *)
From stdpp Require Import base numbers list gmap sets.
From Stdlib Require Import ZArith Lia Bool.
From S2P Require Import Prelude Utils UtilsProofs Locations ParallelMove ParallelMoveProofs.
From S2P Require Import MipsConstants HostFloat MipsState MipsSimulator MipsAssembler MipsMacros.
From S2P Require Import MipsEncoding MipsIsa MipsExec MipsMacroProofs MipsRun MipsParallelMove.
From S2P Require Import MipsMoveProofs.
#[local] Open Scope Z_scope.

#[local] Existing Instance word32.

(** * Objects *)
Section Objects.
Context (F : Frame) (HF : frame_ok F).
#[local] Abbreviation base := (base F).
#[local] Abbreviation does := (does F).

(** Code that only computes the register [t]. *)
Lemma exec_alu t il s :
  Forall (fun i => exists f, alu i = Some (t, f)) il -> t <> FP -> t <> PP -> base s ->
  exec base il s (alu_run il s).
Proof.
  intros Hil Hf Hp; revert s; induction Hil as [| i il [f Ei] _ IH]; intros s Hs; [constructor |].
  assert (base (alu_step i s)) as Hs1 by (unfold alu_step; rewrite Ei; apply base_set_register; done).
  econstructor; [apply isa_alu; eauto | done | apply IH; done].
Qed.

Lemma IsUint_to_u v : IsUint kImmBits (to_u 16 v) = true.
Proof.
  pose proof (to_u_range 16 v ltac:(lia)) as H; unfold in_u, IsUint in *.
  change kImmBits with 16; rewrite Z.shiftl_1_l.
  apply andb_true_iff; split; [apply Z.leb_le | apply Z.ltb_lt]; lia.
Qed.

Lemma does_LoadImmediate ms t v P :
  reg5 t -> t <> FP -> t <> PP -> in_s 32 v ->
  does ms P (assemble (LoadImmediate t v)) (fun s s' => s' = set_register t v s).
Proof.
  intros Ht Hf Hp Hv; apply (does_asm F ms _ (load_immediate_code t v)).
  - intros a Ha; unfold LoadImmediate, load_immediate_code; rewrite Ha; cbn [negb].
    repeat case_match; cbn [emit_all MipsIsa.emit]; try (destruct (addiu _ _ _ a); done);
      destruct (lui t _ a); cbn; try done; destruct (ori _ _ _ _); done.
  - unfold load_immediate_code; repeat case_match; code_ok; auto using IsUint_to_u.
  - apply load_immediate_code_ok; done.
  - intros s Hb _; exists (alu_run (load_immediate_code t v) s); split.
    + apply (exec_alu t); [| done | done | done].
      unfold load_immediate_code; repeat case_match; code_ok.
    + apply load_immediate_run; done.
Qed.

(** The two halves of an object that is never moved. *)
Lemma does_LoadHalves ms t v P :
  reg5 t -> t <> 0 -> t <> FP -> t <> PP -> in_s 32 v ->
  does ms P (assemble (fun a => let* a := lui t (to_u 16 (High16Bits v)) a in
                                ori t t (to_u 16 (Low16Bits v)) a))
    (fun s s' => s' = set_register t v s).
Proof.
  intros Ht Hz Hf Hp Hv; set (il := [Lui t (to_u 16 (High16Bits v)); Ori t t (to_u 16 (Low16Bits v))]).
  apply (does_asm F ms _ il).
  - intros a Ha; cbn [il emit_all MipsIsa.emit]; destruct (lui _ _ a); cbn; [destruct (ori _ _ _ _) |]; done.
  - unfold il; code_ok; apply IsUint_to_u.
  - unfold il; code_ok.
  - intros s Hb _; exists (alu_run il s); split.
    + apply (exec_alu t); [| done | done | done]; unfold il; code_ok.
    + unfold il, alu_run, alu_step; cbn [fold_left alu].
      rewrite Low16Bits_mod, High16Bits_div by done; pose proof (halves v Hv) as Hh.
      assert (0 <= v mod 2 ^ 16 < 2 ^ 16) by (apply Z.mod_pos_bound; lia).
      rewrite set_set_register, get_set_register_eq, lor_int32_low, Hh by done; done.
Qed.

(** ** The object pool *)
Lemma FindObject_ok o p :
  pool_ok p -> returns (FindObject o kNotPatchable p) (fun '(i, p') =>
    pool_ok p' /\ (exists l, object_pool_ p' = object_pool_ p ++ l) /\
    exists o', object_pool_ p' !! i = Some o' /\ raw o' = raw o).
Proof.
  intros [Hi Hl Ht]; unfold FindObject, AddObject; rewrite Hi; cbn [negb].
  destruct (object_pool_index_table_ p !! raw o) as [i |] eqn:E.
  { destruct (Ht _ _ E) as (Hp & o' & Ho & Er); rewrite bool_decide_true by done.
    apply returns_Ok; split; [done |]; split; [exists []; rewrite app_nil_r; done | eauto]. }
  apply returns_Ok; cbn; rewrite length_app; cbn.
  assert ((length (object_pool_ p) + 1 - 1)%nat = length (object_pool_ p)) as -> by lia.
  split; [| split; [eauto |]].
  - constructor; cbn; [done | rewrite !length_app; cbn; lia |].
    intros x i Hx; apply lookup_insert_Some in Hx as [[<- <-] | [_ Hx]].
    + rewrite <- Hl at 1; rewrite !list_lookup_middle by done; eauto.
    + destruct (Ht x i Hx) as (Hp & o' & Ho & Er); split; [| exists o'; split; [| done]];
        apply lookup_app_l_Some; done.
  - exists o; rewrite list_lookup_middle by done; done.
Qed.

(** The code of [LoadWordFromPoolOffset]. *)
Definition pool_code (rd offset : Z) : list insn :=
  if CanHoldOffset offset then [Lw rd PP offset]
  else
    let low := to_s 16 (Low16Bits offset) in
    let high := to_u 16 (High16Bits (int32 (offset - low))) in
    if negb (high =? 0) then [Lui rd high; Addu rd rd PP; Lw rd rd low] else [Lw rd PP low].

Lemma pool_halves offset (low := to_s 16 (Low16Bits offset)) :
  in_s 32 offset ->
  int32 (to_u 16 (High16Bits (int32 (offset - low))) * 2 ^ 16 + low) = offset.
Proof.
  intros Ho; assert (low mod 2 ^ 16 = offset mod 2 ^ 16) as El.
  { unfold low; rewrite to_s_mod by lia; change (Low16Bits offset mod 2 ^ 16) with (to_u 16 (Low16Bits offset)).
    apply Low16Bits_mod. }
  rewrite High16Bits_div by (apply to_s_range; lia).
  transitivity (int32 offset); [| apply to_s_id; [lia | done]]; apply to_s_eq; [lia |].
  destruct (to_s_cong 32 (offset - low)) as [k ->]; [lia |].
  revert El; generalize low; clear; intros low El.
  change (2 ^ 32) with 4294967296; change (2 ^ 16) with 65536 in *; revert El.
  Z.div_mod_to_equations; lia.
Qed.

Lemma IsInt_to_s v : IsInt kImmBits (to_s 16 v) = true.
Proof.
  pose proof (to_s_range 16 v ltac:(lia)) as H; unfold in_s, IsInt in *.
  change kImmBits with 16; rewrite Z.shiftl_1_l.
  apply andb_true_iff; split; [apply Z.leb_le | apply Z.ltb_lt]; lia.
Qed.

Lemma pool_code_plain rd offset :
  reg5 rd -> Forall plain (pool_code rd offset) /\ Forall operands_ok (pool_code rd offset).
Proof.
  intros Hr; assert (reg5 PP) by (apply reg5_range; done); unfold pool_code.
  destruct (CanHoldOffset offset) eqn:E; [| case_match]; split; code_ok;
    auto using IsUint_to_u, IsInt_to_s.
Qed.

Lemma LoadWordFromPoolOffset_codes rd offset a :
  allow_constant_pool_ a = true -> in_delay_slot_ a = false -> rd <> PP ->
  LoadWordFromPoolOffset rd offset a = emit_all (pool_code rd offset) a.
Proof.
  intros Ha Hd Hp; unfold LoadWordFromPoolOffset, pool_code.
  rewrite Ha, Hd, (proj2 (Z.eqb_neq rd PP)) by done; cbn [negb].
  destruct (CanHoldOffset offset); [| case_match]; cbn [emit_all MipsIsa.emit].
  - destruct (lw _ _ a); done.
  - destruct (lui _ _ a); cbn; [| done]; destruct (addu _ _ _ _); cbn; [| done].
    destruct (lw _ _ _); done.
  - destruct (lw _ _ a); done.
Qed.

Lemma pool_code_exec rd offset a s :
  rd <> 0 -> rd <> FP -> rd <> PP -> in_s 32 offset -> base s ->
  a = pp F + offset -> word_addr a -> mapped (memory s) a ->
  exec base (pool_code rd offset) s (set_register rd (peek a s) s).
Proof.
  intros Hz Hf Hp Ho Hb Ea Hw Hm; pose proof (base_pp F s Hb) as Epp.
  pose proof (pool_halves offset Ho) as Hh; unfold pool_code.
  set (low := to_s 16 (Low16Bits offset)) in *.
  set (high := to_u 16 (High16Bits (int32 (offset - low)))) in *.
  assert (forall v, base (set_register rd v s)) as Hbs by (intros; apply base_set_register; done).
  destruct (CanHoldOffset offset).
  { apply exec_one; [| auto]; apply isa_lw, (points_base s PP (pp F)); done. }
  destruct (Z.eqb_spec high 0) as [E0 | E0]; cbn [negb].
  { apply exec_one; [| auto]; apply isa_lw, (points_cong s PP (pp F)); try done.
    rewrite E0, Z.mul_0_l, Z.add_0_l in Hh; rewrite Ea, <- Hh, to_s_add_r by lia; done. }
  set (s1 := set_register rd (high * 2 ^ 16) s); set (s2 := set_register rd (get_register rd s1 + get_register PP s1) s1).
  assert (base s1) by (apply base_set_register; done).
  assert (base s2) by (apply base_set_register; done).
  econstructor; [reflexivity | done |]; econstructor; [reflexivity | done |].
  assert (set_register rd (peek a s) s = set_register rd (peek a s2) s2) as ->.
  { unfold s2, s1; rewrite !set_set_register; unfold peek; rewrite !memory_set_register; done. }
  apply exec_one; [| apply base_set_register; done].
  apply isa_lw, (points_cong s2 rd (pp F + high * 2 ^ 16)).
  - unfold s2, s1; rewrite get_set_register_eq, get_set_register_eq, get_set_register_ne, Epp by done.
    rewrite to_s_add_l, to_s_add_r by lia; f_equal; lia.
  - rewrite Ea, <- Z.add_assoc, <- (to_s_add_r 32 _ (high * 2 ^ 16 + low)), Hh by lia; done.
  - done.
  - unfold s2, s1; rewrite !memory_set_register; done.
Qed.

Lemma linked_prefix c c' l :
  object_pool_ (pool_ c') = object_pool_ (pool_ c) ++ l -> mips_linked F c' -> mips_linked F c.
Proof.
  intros E [Hn Hp]; rewrite E in *; rewrite length_app in Hn; split; [lia |].
  intros i o Hi; apply Hp, lookup_app_l_Some, Hi.
Qed.

(** A constant word is read unchanged. *)
Lemma constant_word_read s a :
  base s -> constant_word F a -> mapped (memory s) a /\ peek a s = word_of (mem0 F) a.
Proof.
  intros Hb (_ & Hm & Hw); split.
  - intros i Hi; rewrite (base_kept F s Hb) by auto; apply Hm, Hi.
  - apply word_of_ext; intros i Hi; apply (base_kept F s Hb); auto.
Qed.

Lemma does_load_object ms t o P :
  reg5 t -> t <> 0 -> t <> FP -> t <> PP ->
  does ms P (emit_load_object t o) (fun s s' => s' = set_register t (raw o) s).
Proof.
  intros Ht Hz Hf Hp; apply (does_weaken F ms P P _
    (fun s s' => s' = set_register t (int32 (raw o)) s)); [| done |].
  2: { intros s s' _ _ _ ->; apply set_register_int32. }
  intros r Hr Hgood; unfold emit_load_object, LoadObject; pose proof Hgood as [Hd Hpool]; rewrite Hd; cbn [negb].
  pose proof (to_s_range 32 (raw o) ltac:(lia)) as Hraw.
  destruct (IsSmi o).
  { pose proof (does_LoadImmediate ms t (int32 (raw o)) P Ht Hf Hp Hraw r Hr Hgood) as H.
    unfold assemble in H; destruct (LoadImmediate _ _ _); exact H. }
  destruct (InVMHeap o || negb (allow_constant_pool_ (assembler_ (compiler_ r)))) eqn:Ep.
  { pose proof (does_LoadHalves ms t (int32 (raw o)) P Ht Hz Hf Hp Hraw r Hr Hgood) as H.
    unfold assemble in H; destruct (lui _ _ _); [cbn [obind] in *; destruct (ori _ _ _ _) |]; exact H. }
  apply orb_false_iff in Ep as [_ Ep]; apply negb_false_iff in Ep.
  destruct (FindObject_ok o (pool_ (compiler_ r)) Hpool) as ([i p] & -> & Hp' & [l El] & o' & Ho' & Er).
  cbn [obind]; set (off := int32 (int32 (Array_element_offset i) - kHeapObjectTag)).
  destruct (pool_code_plain t off Ht) as [Hpl Hops].
  destruct (emit_all_plain _ (assembler_ (compiler_ r)) Hpl) as (a' & Ea & Hd' & _).
  rewrite LoadWordFromPoolOffset_codes, Ea by done; cbn [obind]; apply returns_Ok; cbn.
  split_and!; [done | split; [auto | done] |]; exists (pool_code t off); split; [split_and!; done |].
  intros [Hn Hlk]; split; [apply (linked_prefix _ (mkCompiler a' p (intrinsic_mode_ (compiler_ r))) l); [done | split; done] |].
  intros s Hs _; destruct (Hlk i o' Ho') as [Hcw Ew].
  destruct (constant_word_read s _ Hs Hcw) as [Hm Epk].
  assert (off = Array_element_offset i - kHeapObjectTag) as Eoff.
  { assert (Z.of_nat i < 2 ^ 28) by (apply lookup_lt_Some in Ho'; cbn in Hn; lia).
    unfold off, Array_element_offset; change kWordSize with 4; change kHeapObjectTag with 1.
    rewrite (to_s_id 32 (3 * 4 + 4 * Z.of_nat i)) by (unfold in_s; lia).
    apply to_s_id; unfold in_s; lia. }
  eexists; split_and!; [apply (pool_code_exec t off (pp F + Array_element_offset i - kHeapObjectTag)) | |];
    try done; [apply to_s_range; lia | lia | apply Hcw | apply base_set_register; done |].
  rewrite Epk, Ew, Er; done.
Qed.
End Objects.

(** * What code touches *)
Section Touches.
Context (F : Frame) (HF : frame_ok F).

Definition touches (q : Z) (W : list Z) (C : Z -> Prop) (s s' : Simulator) : Prop :=
  stack_kept F q s s' /\ effect F W C s s'.

Lemma touches_trans q W C s s1 s2 :
  touches q W C s s1 -> touches q W C s1 s2 -> touches q W C s s2.
Proof.
  intros [[E1 M1] H1] [[E2 M2] H2]; split; [split |].
  - congruence.
  - intros a Ha; rewrite M2, M1; done.
  - intros k l Hl HW HC; rewrite (H2 k l), (H1 k l); done.
Qed.

Lemma touches_set q (W : list Z) (C : Z -> Prop) r v s :
  r <> SP -> reg_loc r ∈ W \/ C (reg_loc r) \/ ~ allocatable r ->
  touches q W C s (set_register r v s).
Proof.
  intros Hr HW; split; [split |].
  - apply get_set_register_ne; done.
  - intros a Ha; rewrite memory_set_register; done.
  - intros k l Hl HnW HnC; apply (read_set_register F k); [done |]; intros ->.
    destruct HW as [? | [? | Hn]]; [done | done |]; apply (reg_loc_other F k _ r Hl); done.
Qed.

Lemma touches_poke q (W : list Z) (C : Z -> Prop) l a v s :
  sp F - 8 <= q -> l ∈ slots F -> slot_word F l a -> l ∈ W -> touches q W C s (poke a v s).
Proof.
  intros Hq Hl Ha HW; split; [split |].
  - done.
  - intros b Hb; apply memory_poke_ne; apply slot_size_word in Ha.
    destruct (frame_below F HF l Hl); lia.
  - intros k l' Hl' HnW HnC; apply (read_poke_slot F HF k l' l); try done; intros ->; done.
Qed.

Lemma touches_put q (W : list Z) (C : Z -> Prop) d i v s :
  i = d * 2 \/ i = d * 2 + 1 -> fpu_loc d ∈ W \/ C (fpu_loc d) \/ d = DTMP ->
  touches q W C s (put_freg i v s).
Proof.
  intros Hi HW; split; [split; done |]; intros k l Hl HnW HnC.
  apply (read_put_freg F k l d); [done | | done]; intros ->.
  destruct HW as [? | [? | ->]]; [done | done |]; pose proof (proj1 Hl) as Hu.
  destruct (mips_loc_cases F k _ Hl) as [(_ & _ & Ek & _) | [(_ & _ & _ & _ & Hne) | [_ [[_ Ek] | [_ Ek]]]]];
    try (rewrite fpu_loc_kind in Ek; discriminate Ek).
  rewrite fpu_loc_payload in Hne; done.
Qed.

Lemma touches_put_pair q (W : list Z) (C : Z -> Prop) d lo hi s :
  fpu_loc d ∈ W \/ C (fpu_loc d) \/ d = DTMP -> touches q W C s (put_pair d lo hi s).
Proof. intros; eapply touches_trans; apply (touches_put q W C d); auto. Qed.

Lemma touches_put_double q (W : list Z) (C : Z -> Prop) d v s :
  fpu_loc d ∈ W \/ C (fpu_loc d) \/ d = DTMP -> touches q W C s (put_double d v s).
Proof. intros; eapply touches_trans; apply (touches_put q W C d); auto. Qed.

Lemma touches_poke_pair q (W : list Z) (C : Z -> Prop) l d s :
  sp F - 8 <= q -> l ∈ slots F -> Location.kind l = Location.kDoubleStackSlot -> l ∈ W ->
  touches q W C s (poke_pair (slot_addr F l) d s).
Proof.
  intros Hq Hl Ek HW; eapply touches_trans; apply (touches_poke q W C l); try done; [left; done |].
  right; unfold Location.IsDoubleStackSlot; rewrite Ek; done.
Qed.

(** The double in a register and in a slot. *)
Lemma double_put_double d v s : in_s 64 v -> get_double d (put_double d v s) = v.
Proof.
  intros Hv; unfold get_double, put_double; rewrite freg_put_eq, freg_put_ne, freg_put_eq by lia.
  unfold pair64; rewrite to_u_to_s by lia; revert Hv; unfold in_s, to_u; intros Hv.
  rewrite to_s_id by (try lia; unfold in_s; Z.div_mod_to_equations; lia).
  pose proof (Z.div_mod v (2 ^ 32)); lia.
Qed.

Lemma get_double_range d s : wf s -> in_s 64 (get_double d s).
Proof. intros Hw; apply pair64_range, wf_fregisters, Hw. Qed.

Lemma read_poke_pair l d s :
  wf s -> Location.kind l = Location.kDoubleStackSlot ->
  mips_read F (poke_pair (slot_addr F l) d s) l = get_double d s.
Proof.
  intros Hw Ek; rewrite read_double_slot by done; unfold poke_pair.
  rewrite peek_poke_ne, !peek_poke_eq by lia; change (freg ?q (poke ?a ?v ?s)) with (freg q s).
  rewrite !int32_id by (apply wf_fregisters; done); done.
Qed.

(** Doubles move through a slot and the registers unchanged. *)
Lemma read_double_range s l :
  wf s -> mips_loc F true l -> in_s 64 (mips_read F s l).
Proof.
  intros Hw Hl; destruct (mips_loc_cases F true l Hl) as [(? & _) | [(_ & _ & Ek & _) | [_ [[? _] | [_ Ek]]]]];
    try done.
  - rewrite read_fpu by done; apply get_double_range; done.
  - rewrite read_double_slot by done; apply pair64_range, peek_range.
Qed.
End Touches.

(** * Moves *)
(** The kind of a location decides every query. *)
Ltac queries :=
  unfold Location.reg, Location.fpu_reg, Location.IsRegister, Location.IsFpuRegister,
    Location.IsStackSlot, Location.IsDoubleStackSlot;
  repeat match goal with E : Location.kind ?l = _ |- context [Location.kind ?l] => rewrite E end;
  cbn [Z.eqb Pos.eqb Location.kRegister Location.kFpuRegister Location.kStackSlot
    Location.kDoubleStackSlot orb andb obind].

(** Rewrites with the equations on locations in the context. *)
Ltac resolve_locations :=
  repeat match goal with
         | E : Location.base_reg ?l = _ |- context [Location.base_reg ?l] => rewrite E
         | E : Location.ToStackSlotOffset ?l = _ |- context [Location.ToStackSlotOffset ?l] => rewrite E
         | E : Location.constant_instruction ?l = _ |- context [Location.constant_instruction ?l] => rewrite E
         | E : Location.IsConstant ?l = _ |- context [Location.IsConstant ?l] => rewrite E
         | E : Location.IsRegister ?l = _ |- context [Location.IsRegister ?l] => rewrite E
         | E : Location.IsStackSlot ?l = _ |- context [Location.IsStackSlot ?l] => rewrite E
         | E : Location.IsFpuRegister ?l = _ |- context [Location.IsFpuRegister ?l] => rewrite E
         | E : Location.IsDoubleStackSlot ?l = _ |- context [Location.IsDoubleStackSlot ?l] => rewrite E
         end; cbn [obind]; queries; cbn [obind].

Section Target.
Context `{ObjectLayout} (F : Frame) (HF : frame_ok F).
#[local] Abbreviation base := (base F).
#[local] Abbreviation does := (does F).

(** Constants: the word of an object or an unboxed integer, the double in a box. *)
Definition constant_of (l : Z) : ConstantInstr :=
  constant_at (Z.land l (Z.lnot Location.kLocationTagMask)).

Definition unboxed_constant (c : ConstantInstr) : bool :=
  IsSmi (value c) && bool_decide (representation c = kUnboxedInt32).

Definition double_addr (c : ConstantInstr) : Z :=
  raw (value c) + (Double_value_offset - kHeapObjectTag).

Definition mips_const (k : bool) (l : Z) : Prop :=
  if k then constant_word F (double_addr (constant_of l)) /\
            constant_word F (double_addr (constant_of l) + 4) /\
            IsInt kImmBits (Double_value_offset - kHeapObjectTag) = true /\
            IsInt kImmBits (Double_value_offset - kHeapObjectTag + 4) = true
  else True.

Definition mips_constant_value (k : bool) (l : Z) : Z :=
  let c := constant_of l in
  if k then pair64 (word_of (mem0 F) (double_addr c)) (word_of (mem0 F) (double_addr c + 4))
  else if unboxed_constant c then Smi_Value (value c) else int32 (raw (value c)).

Definition mips_source (s : Simulator) (k : bool) (l : Z) : Z :=
  if Location.IsConstant l then mips_constant_value k l else mips_read F s l.

Definition mips_ok (s : Simulator) : Prop := base s /\ at_sp (sp F) s.
Definition mips_runs (c c' : Compiler) (s s' : Simulator) : Prop :=
  exists il, emits il c c' /\ exec base il s s'.

(** The value that a move writes. *)
Definition moves_value (ms : list MoveOperands) (k : bool) (d src : Z)
  (f : resolver -> outcome resolver) : Prop :=
  does ms (at_sp (sp F)) f
    (writes F (sp F) [d] (fun s _ => mips_source s k src) (scratch ms)).

Lemma writes_one q d V C s s' :
  mips_read F s' d = V s d -> touches F q [d] C s s' -> writes F q [d] V C s s'.
Proof.
  intros E [Hk He]; split_and!; [done | | done]; intros d' ->%list_elem_of_singleton; done.
Qed.

Lemma does_any ms P f R : does ms (fun _ => True) f R -> does ms P f R.
Proof. intros Hf; eapply does_weaken; [exact Hf | done | done]. Qed.

(** A move done by one instruction or macro. *)
Lemma moves_by ms k d src f (g : Simulator -> Simulator) :
  does ms (fun _ => True) f (fun s s' => s' = g s) -> Location.IsConstant src = false ->
  (forall s, base s -> mips_read F (g s) d = mips_read F s src /\
    touches F (sp F) [d] (scratch ms) s (g s)) ->
  moves_value ms k d src f.
Proof.
  intros Hf Hc Hg; eapply does_weaken; [exact Hf | done |]; intros s s' Hs _ _ ->.
  destruct (Hg s Hs) as [E Ht]; apply writes_one; [| done].
  unfold mips_source; rewrite Hc; done.
Qed.

Lemma allocatable_reg5 r : allocatable r -> reg5 r /\ r <> 0 /\ r <> FP /\ r <> PP /\ r <> SP.
Proof. intros (? & ? & ? & ? & ?); rewrite reg5_range; split_and!; lia || done. Qed.

(** ** Words *)
Section Words.
Context (ms : list MoveOperands) (d src : Z).
Hypothesis Hms : Forall consistent ms.
Hypothesis Hd : mips_loc F false d.

Lemma kinds_not_constant l :
  Location.kind l = Location.kRegister \/ Location.kind l = Location.kStackSlot \/
  Location.kind l = Location.kFpuRegister \/ Location.kind l = Location.kDoubleStackSlot ->
  l <> 0 /\ Location.IsConstant l = false.
Proof.
  rewrite kind_mod; unfold Location.kRegister, Location.kStackSlot, Location.kFpuRegister,
    Location.kDoubleStackSlot, Location.IsConstant; intros Hk; split; [intros ->; rewrite Zmod_0_l in Hk; lia |].
  change Location.kLocationTagMask with (Z.ones 2); rewrite Z.land_ones by lia.
  apply Z.eqb_neq; unfold Location.kConstantTag; change (2 ^ 2) with 4; intros E.
  assert (l mod 16 mod 4 = 1); [| destruct Hk as [Hk | [Hk | [Hk | Hk]]]; rewrite Hk in *; done].
  rewrite <- E; change 16 with (4 * 4); rewrite Z.rem_mul_r by lia.
  rewrite (Z.mul_comm 4), Z_mod_plus_full, Zmod_mod; done.
Qed.

Lemma move_register_register :
  mips_loc F false src -> Location.kind src = Location.kRegister -> allocatable (Location.payload src) ->
  Location.kind d = Location.kRegister -> allocatable (Location.payload d) ->
  d = reg_loc (Location.payload d) ->
  moves_value ms false d src (assemble (mov (Location.payload d) (Location.payload src))).
Proof.
  intros Hs Ks As Kd Ad Ed; destruct (allocatable_reg5 _ As) as (? & _).
  destruct (allocatable_reg5 _ Ad) as (? & ? & ? & ? & ?).
  eapply moves_by; [apply (does_mov F); done | apply kinds_not_constant; auto |].
  intros s Hb; split.
  - rewrite !read_register, get_set_register_eq by done; apply int32_id, wf_registers, Hb.
  - apply touches_set; [done | left; rewrite <- Ed; constructor].
Qed.

Lemma move_register_slot :
  Location.kind src = Location.kRegister -> allocatable (Location.payload src) ->
  Location.kind d = Location.kStackSlot -> d ∈ slots F ->
  moves_value ms false d src (assemble (StoreToOffset (Location.payload src) FP (slot_offset d))).
Proof.
  intros Ks As Kd Hin; destruct (allocatable_reg5 _ As) as (? & _).
  eapply moves_by; [apply (does_StoreToOffset F HF); done | apply kinds_not_constant; auto |].
  intros s Hb; split.
  - rewrite read_slot, read_register, peek_poke_eq by done; apply int32_id, wf_registers, Hb.
  - apply (touches_poke F HF _ _ _ d); [lia | done | left; done | constructor].
Qed.

Lemma move_slot_register :
  mips_loc F false src -> Location.kind src = Location.kStackSlot -> src ∈ slots F ->
  Location.kind d = Location.kRegister -> allocatable (Location.payload d) ->
  d = reg_loc (Location.payload d) ->
  moves_value ms false d src (assemble (LoadFromOffset (Location.payload d) FP (slot_offset src))).
Proof.
  intros Hs Ks Hin Kd Ad Ed; destruct (allocatable_reg5 _ Ad) as (? & ? & ? & ? & ?).
  eapply moves_by; [apply (does_LoadFromOffset F HF); done | apply kinds_not_constant; auto |].
  intros s Hb; split.
  - rewrite read_register, read_slot, get_set_register_eq by done; apply int32_id, peek_range.
  - apply touches_set; [done | left; rewrite <- Ed; constructor].
Qed.

(** Through a scratch register: [load] puts a value in it. *)
Lemma move_by_scratch (load : Z -> resolver -> outcome resolver) (V : Simulator -> Z) :
  Location.kind d = Location.kStackSlot -> d ∈ slots F ->
  (forall s, base s -> in_s 32 (V s)) ->
  (forall s s', (forall k l, mips_loc F k l -> mips_read F s' l = mips_read F s l) -> V s' = V s) ->
  (forall t, allocatable t ->
    does ms (fun _ => True) (load t) (fun s s' => s' = set_register t (V s) s)) ->
  does ms (at_sp (sp F)) (with_scratch kNoRegister (fun tmp r =>
      let* r := load tmp r in assemble (StoreToOffset tmp FP (slot_offset d)) r))
    (writes F (sp F) [d] (fun s _ => V s) (scratch ms)).
Proof.
  intros Kd Hin HVr HV Hload; eapply does_weaken; [apply (with_scratch_ok F HF ms (sp F) kNoRegister
    _ [d] (fun s _ => V s) (fun _ => False)) | done |]; auto.
  - intros d' ->%list_elem_of_singleton; eauto.
  - intros t Ht _ E%list_elem_of_singleton; rewrite <- E, reg_loc_kind in Kd; discriminate Kd.
  - intros q t Hq Ht _; pose proof (scratch_allocatable t Ht) as Ha.
    destruct (allocatable_reg5 t Ha) as (? & ? & ? & ? & ?).
    eapply does_weaken; [apply does_any; eapply does_bind; [apply (Hload t Ha) |
      apply (does_StoreToOffset F HF ms t d); done | done] | done |].
    cbn beta; intros s s' Hb _ _ (s1 & -> & ->); apply writes_one.
    + rewrite read_slot, peek_poke_eq, get_set_register_eq by done.
      rewrite to_s_to_s by lia; apply int32_id; auto.
    + eapply touches_trans; [apply touches_set; [done | right; left; right; done] |].
      apply (touches_poke F HF _ _ _ d); [lia | done | left; done | constructor].
  - cbn beta; intros s s' _ _ _ ([Hk Hm] & Hv & He); split_and!; [split; done | done |].
    intros k l Hl HW HC; apply (He k); tauto.
Qed.

Lemma move_slot_slot :
  mips_loc F false src -> Location.kind src = Location.kStackSlot -> src ∈ slots F ->
  Location.kind d = Location.kStackSlot -> d ∈ slots F ->
  moves_value ms false d src (with_scratch kNoRegister (fun tmp r =>
    let* r := assemble (LoadFromOffset tmp FP (slot_offset src)) r in
    assemble (StoreToOffset tmp FP (slot_offset d)) r)).
Proof.
  intros Hs Ks Hins Kd Hin; unfold moves_value, mips_source.
  rewrite (proj2 (kinds_not_constant src ltac:(auto))).
  apply (move_by_scratch (fun t => assemble (LoadFromOffset t FP (slot_offset src)))
    (fun s => mips_read F s src)); auto.
  - intros s _; rewrite read_slot by done; apply peek_range.
  - intros s s' E; apply (E false); done.
  - intros t Ha; destruct (allocatable_reg5 t Ha) as (? & ? & ? & ? & ?).
    eapply does_weaken; [apply (does_LoadFromOffset F HF ms t src); done | done |].
    intros s s' _ _ _ ->; rewrite read_slot; done.
Qed.

(** Constants. *)
Definition load_constant (c : ConstantInstr) (t : Z) (r : resolver) : outcome resolver :=
  if unboxed_constant c then assemble (LoadImmediate t (Smi_Value (value c))) r
  else emit_load_object t (value c) r.

Lemma Smi_Value_range o : in_s 32 (Smi_Value o).
Proof.
  unfold Smi_Value; rewrite Z.shiftr_div_pow2 by lia.
  pose proof (to_s_range 32 (raw o) ltac:(lia)) as Hr; unfold in_s in *.
  Z.div_mod_to_equations; lia.
Qed.

Lemma does_load_constant t c P :
  reg5 t -> t <> 0 -> t <> FP -> t <> PP ->
  does ms P (load_constant c t) (fun s s' => s' = set_register t
    (if unboxed_constant c then Smi_Value (value c) else int32 (raw (value c))) s).
Proof.
  intros Ht Hz Hf Hp; unfold load_constant; destruct (unboxed_constant c).
  - apply does_LoadImmediate; auto using Smi_Value_range.
  - eapply does_weaken; [apply (does_load_object F ms t (value c) P Ht Hz Hf Hp) | done |].
    intros s s' _ _ _ ->; rewrite set_register_int32; done.
Qed.

Lemma constant_word_range c :
  in_s 32 (if unboxed_constant c then Smi_Value (value c) else int32 (raw (value c))).
Proof. destruct (unboxed_constant c); [apply Smi_Value_range | apply to_s_range; lia]. Qed.

Lemma move_constant_register :
  Location.IsConstant src = true -> Location.kind d = Location.kRegister ->
  allocatable (Location.payload d) -> d = reg_loc (Location.payload d) ->
  moves_value ms false d src (load_constant (constant_of src) (Location.payload d)).
Proof.
  intros Hc Kd Ad Ed; destruct (allocatable_reg5 _ Ad) as (? & ? & ? & ? & ?).
  eapply does_weaken; [apply (does_load_constant (Location.payload d) (constant_of src) _); done | done |].
  cbn beta; intros s s' _ _ _ ->; apply writes_one.
  - unfold mips_source, mips_constant_value; rewrite Hc, read_register, get_set_register_eq by done.
    apply int32_id, constant_word_range.
  - apply touches_set; [done | left; rewrite <- Ed; constructor].
Qed.

Lemma move_constant_slot :
  Location.IsConstant src = true -> Location.kind d = Location.kStackSlot -> d ∈ slots F ->
  moves_value ms false d src (with_scratch kNoRegister (fun tmp r =>
    let* r := load_constant (constant_of src) tmp r in
    assemble (StoreToOffset tmp FP (slot_offset d)) r)).
Proof.
  intros Hc Kd Hin; unfold moves_value, mips_source, mips_constant_value; rewrite Hc.
  apply (move_by_scratch (load_constant (constant_of src)) (fun _ =>
    if unboxed_constant (constant_of src) then _ else _)); auto using constant_word_range.
  intros t Ha; destruct (allocatable_reg5 t Ha) as (? & ? & ? & ? & ?).
  apply does_load_constant; done.
Qed.
End Words.

(** ** Doubles *)
Section Doubles.
Context (ms : list MoveOperands) (d src : Z).
Hypothesis Hms : Forall consistent ms.
Hypothesis Hd : mips_loc F true d.

Lemma double_slot_words l :
  mips_loc F true l -> l ∈ slots F -> Location.kind l = Location.kDoubleStackSlot ->
  IsInt kImmBits (slot_offset l) = true /\ IsInt kImmBits (slot_offset l + 4) = true /\
  writable_word F (slot_addr F l) /\ writable_word F (slot_addr F l + 4) /\
  forall s, base s -> points s FP (slot_offset l) (slot_addr F l) /\
    points s FP (slot_offset l + 4) (slot_addr F l + 4).
Proof.
  intros Hl Hin Ek; destruct (slot_ok F HF true l Hl Hin) as (_ & _ & Hw).
  assert (slot_word F l (slot_addr F l)) as W1 by (left; done).
  assert (slot_word F l (slot_addr F l + 4)) as W2.
  { right; unfold Location.IsDoubleStackSlot; rewrite Ek; done. }
  destruct (Hw _ W1) as (_ & I1 & ?), (Hw _ W2) as (_ & I2 & ?).
  replace (slot_addr F l - fp F) with (slot_offset l) in I1 by (unfold slot_addr; lia).
  replace (slot_addr F l + 4 - fp F) with (slot_offset l + 4) in I2 by (unfold slot_addr; lia).
  split_and!; try done; intros s Hb.
  pose proof (points_slot F HF s true l _ Hb Hl Hin W1) as P1.
  pose proof (points_slot F HF s true l _ Hb Hl Hin W2) as P2.
  replace (slot_addr F l - fp F) with (slot_offset l) in P1 by (unfold slot_addr; lia).
  replace (slot_addr F l + 4 - fp F) with (slot_offset l + 4) in P2 by (unfold slot_addr; lia).
  done.
Qed.

Lemma does_load_double r l :
  dreg r -> mips_loc F true l -> l ∈ slots F -> Location.kind l = Location.kDoubleStackSlot ->
  does ms (fun _ => True) (assemble (LoadDFromOffset r FP (slot_offset l)))
    (fun s s' => s' = put_pair r (peek (slot_addr F l) s) (peek (slot_addr F l + 4) s) s).
Proof.
  intros Hr Hl Hin Ek; destruct (double_slot_words l Hl Hin Ek) as (? & ? & _ & _ & ?).
  apply (does_LoadDFromOffset F ms r FP); auto; apply reg5_range; done.
Qed.

Lemma does_store_double r l :
  dreg r -> mips_loc F true l -> l ∈ slots F -> Location.kind l = Location.kDoubleStackSlot ->
  does ms (fun _ => True) (assemble (StoreDToOffset r FP (slot_offset l)))
    (fun s s' => s' = poke_pair (slot_addr F l) r s).
Proof.
  intros Hr Hl Hin Ek; destruct (double_slot_words l Hl Hin Ek) as (? & ? & ? & ? & ?).
  apply (does_StoreDToOffset F ms r FP); auto; apply reg5_range; done.
Qed.

Lemma move_fpu_fpu :
  Location.kind src = Location.kFpuRegister -> dreg (Location.payload src) ->
  Location.kind d = Location.kFpuRegister -> dreg (Location.payload d) ->
  d = fpu_loc (Location.payload d) ->
  moves_value ms true d src (assemble (fun a => Ok (movd (Location.payload d) (Location.payload src) a))).
Proof.
  intros Ks As Kd Ad Ed; eapply moves_by; [apply (does_movd F); done | apply kinds_not_constant; auto |].
  intros s Hb; split.
  - rewrite !read_fpu, double_put_double by (done || apply get_double_range, Hb); done.
  - apply touches_put_double; left; rewrite <- Ed; constructor.
Qed.

Lemma move_fpu_slot :
  Location.kind src = Location.kFpuRegister -> dreg (Location.payload src) ->
  Location.kind d = Location.kDoubleStackSlot -> d ∈ slots F ->
  moves_value ms true d src (assemble (StoreDToOffset (Location.payload src) FP (slot_offset d))).
Proof.
  intros Ks As Kd Hin; eapply moves_by;
    [apply does_store_double; done | apply kinds_not_constant; auto |].
  intros s Hb; split; [rewrite read_poke_pair, read_fpu by (done || apply Hb); done |].
  apply touches_poke_pair; [done | lia | done | done | constructor].
Qed.

Lemma move_slot_fpu :
  mips_loc F true src -> Location.kind src = Location.kDoubleStackSlot -> src ∈ slots F ->
  Location.kind d = Location.kFpuRegister -> dreg (Location.payload d) ->
  d = fpu_loc (Location.payload d) ->
  moves_value ms true d src (assemble (LoadDFromOffset (Location.payload d) FP (slot_offset src))).
Proof.
  intros Hs Ks Hin Kd Ad Ed; eapply moves_by;
    [apply does_load_double; done | apply kinds_not_constant; auto |].
  intros s Hb; split.
  - rewrite read_fpu, read_double_slot, get_put_pair by (done || apply peek_range); done.
  - apply touches_put_pair; left; rewrite <- Ed; constructor.
Qed.

Lemma dreg_DTMP : dreg DTMP.
Proof. unfold dreg, DTMP, D9; lia. Qed.

(** The double that is loaded to DTMP, then stored. *)
Lemma move_by_DTMP (load : resolver -> outcome resolver) (V : Simulator -> Z) (lo hi : Simulator -> Z) P :
  Location.kind d = Location.kDoubleStackSlot -> d ∈ slots F ->
  (forall s, in_s 32 (lo s) /\ in_s 32 (hi s) /\ V s = pair64 (lo s) (hi s)) ->
  does ms P load (fun s s' => exists s1, touches F (sp F) [d] (scratch ms) s s1 /\ base s1 /\
    s' = put_pair DTMP (lo s) (hi s) s1) ->
  does ms P (fun r => let* r := load r in assemble (StoreDToOffset DTMP FP (slot_offset d)) r)
    (writes F (sp F) [d] (fun s _ => V s) (scratch ms)).
Proof.
  intros Kd Hin HV Hl; eapply does_weaken; [eapply does_bind; [exact Hl |
    apply (does_store_double DTMP d dreg_DTMP Hd Hin Kd) | done] | done |].
  cbn beta; intros s s' Hb _ _ (s1 & (s0 & Ht & Hb0 & ->) & ->); destruct (HV s) as (? & ? & EV).
  apply writes_one.
  - rewrite EV, read_poke_pair, get_put_pair by (done || apply wf_put_freg, wf_put_freg, Hb0); done.
  - eapply touches_trans; [exact Ht |]; eapply touches_trans; [apply touches_put_pair; auto |].
    apply touches_poke_pair; [done | lia | done | done | constructor].
Qed.

Lemma move_slot_slot_double :
  mips_loc F true src -> Location.kind src = Location.kDoubleStackSlot -> src ∈ slots F ->
  Location.kind d = Location.kDoubleStackSlot -> d ∈ slots F ->
  moves_value ms true d src (fun r =>
    let* r := assemble (LoadDFromOffset DTMP FP (slot_offset src)) r in
    assemble (StoreDToOffset DTMP FP (slot_offset d)) r).
Proof.
  intros Hs Ks Hins Kd Hin; unfold moves_value, mips_source.
  rewrite (proj2 (kinds_not_constant src ltac:(auto))).
  apply (move_by_DTMP _ _ (peek (slot_addr F src)) (peek (slot_addr F src + 4))); try done.
  - intros s; split_and!; try apply peek_range; apply read_double_slot; done.
  - eapply does_weaken; [apply does_any, (does_load_double DTMP src dreg_DTMP); done | done |].
    cbn beta; intros s s' Hb _ _ ->; exists s; split_and!; try done.
Qed.

(** The double of a boxed constant. *)
Lemma does_load_box t r :
  dreg r -> Location.IsConstant src = true -> mips_const true src -> reg5 t -> t <> 0 -> t <> FP -> t <> PP ->
  does ms (fun _ => True) (fun x => let* x := emit_load_object t (value (constant_of src)) x in
    assemble (LoadDFromOffset r t (Double_value_offset - kHeapObjectTag)) x)
    (fun s s' => s' = put_pair r (word_of (mem0 F) (double_addr (constant_of src)))
        (word_of (mem0 F) (double_addr (constant_of src) + 4))
        (set_register t (raw (value (constant_of src))) s)).
Proof.
  intros Hr Hc (W1 & W2 & I1 & I2) Ht Hz Hf Hp; set (a := double_addr (constant_of src)) in *.
  eapply does_weaken; [eapply does_bind; [apply (does_load_object F ms t (value (constant_of src)) (fun _ => True)); done |
    apply (does_LoadDFromOffset F ms r t _ a (fun s => get_register t s = int32 (raw (value (constant_of src))))); try done |] | done |].
  - intros s Hb Er; destruct (constant_word_read F s a Hb W1), (constant_word_read F s (a + 4) Hb W2).
    split; apply (points_base s t (raw (value (constant_of src)))); try done; try apply W1; try apply W2;
      unfold a, double_addr; lia.
  - cbn beta; intros s s1 _ _ _ ->; apply get_set_register_eq; done.
  - cbn beta; intros s s' Hb _ _ (s1 & -> & ->).
    assert (base (set_register t (raw (value (constant_of src))) s)) as Hb1
      by (apply base_set_register; done).
    destruct (constant_word_read F _ a Hb1 W1) as [_ ->].
    destruct (constant_word_read F _ (a + 4) Hb1 W2) as [_ ->]; done.
Qed.

Lemma move_constant_fpu :
  Location.IsConstant src = true -> mips_const true src ->
  Location.kind d = Location.kFpuRegister -> dreg (Location.payload d) ->
  d = fpu_loc (Location.payload d) ->
  moves_value ms true d src (fun r => let* r := emit_load_object TMP (value (constant_of src)) r in
    assemble (LoadDFromOffset (Location.payload d) TMP (Double_value_offset - kHeapObjectTag)) r).
Proof.
  intros Hc Hk Kd Ad Ed; eapply does_weaken;
    [apply does_any, (does_load_box TMP (Location.payload d)); try done; apply reg5_range; done | done |].
  cbn beta; intros s s' Hb _ _ ->; apply writes_one.
  - unfold mips_source, mips_constant_value; rewrite Hc, read_fpu, get_put_pair by
      (done || (apply to_s_range; lia)); done.
  - eapply touches_trans; [| apply touches_put_pair; left; rewrite <- Ed; constructor].
    apply touches_set; [discriminate | right; right; intros (_ & ? & _); done].
Qed.

Lemma move_constant_double_slot :
  Location.IsConstant src = true -> mips_const true src ->
  Location.kind d = Location.kDoubleStackSlot -> d ∈ slots F ->
  moves_value ms true d src (fun r => let* r := emit_load_object TMP (value (constant_of src)) r in
    let* r := assemble (LoadDFromOffset DTMP TMP (Double_value_offset - kHeapObjectTag)) r in
    assemble (StoreDToOffset DTMP FP (slot_offset d)) r).
Proof.
  intros Hc Hk Kd Hin; unfold moves_value, mips_source, mips_constant_value; rewrite Hc.
  eapply does_ext; [| apply (move_by_DTMP (fun r =>
    let* r := emit_load_object TMP (value (constant_of src)) r in
    assemble (LoadDFromOffset DTMP TMP (Double_value_offset - kHeapObjectTag)) r) _
    (fun _ => word_of (mem0 F) (double_addr (constant_of src)))
    (fun _ => word_of (mem0 F) (double_addr (constant_of src) + 4))); try done].
  - intros r; cbn beta; destruct (emit_load_object TMP _ r); reflexivity.
  - intros s; split_and!; [apply to_s_range; lia | apply to_s_range; lia | done].
  - eapply does_weaken; [apply does_any, (does_load_box TMP DTMP dreg_DTMP); try done; apply reg5_range; done | done |].
    cbn beta; intros s s' Hb _ _ ->.
    exists (set_register TMP (raw (value (constant_of src))) s); split_and!; [| | done].
    + apply touches_set; [discriminate | right; right; intros (_ & ? & _); done].
    + apply base_set_register; done.
Qed.
End Doubles.

(** ** Every move *)
Lemma constant_queries l :
  Location.IsConstant l = true ->
  Location.IsRegister l = false /\ Location.IsStackSlot l = false /\
  Location.IsFpuRegister l = false /\ Location.IsDoubleStackSlot l = false /\
  Location.constant_instruction l = Ok (Z.land l (Z.lnot Location.kLocationTagMask)).
Proof.
  intros Hc; unfold Location.IsRegister, Location.IsStackSlot, Location.IsFpuRegister,
    Location.IsDoubleStackSlot, Location.constant_instruction; rewrite Hc.
  split_and!; [.. | done]; apply Z.eqb_neq; intros E;
    destruct (kinds_not_constant l) as [_ Hf]; auto; congruence.
Qed.

Lemma slot_queries k l :
  mips_loc F k l -> l ∈ slots F ->
  Location.base_reg l = Ok FP /\ Location.ToStackSlotOffset l = Ok (slot_offset l).
Proof. intros Hl Hin; destruct (slot_ok F HF k l Hl Hin) as (? & ? & _); done. Qed.

Definition mips_source_ok (k : bool) (l : Z) : Prop :=
  (Location.IsConstant l = false /\ mips_loc F k l) \/
  (Location.IsConstant l = true /\ mips_const k l).

(** The code of [EmitMove], by the kinds of the locations. *)
Definition emits_move (i : nat) (d src : Z) (f : resolver -> outcome resolver) : Prop :=
  forall r, moves_ r !! i = Some (mkMove d src) ->
    EmitMove i r = (let* r := f r in Ok (set_move i Eliminate r)).

Ltac by_cases Hd d Hs src :=
  match type of Hd with
  | mips_loc F ?k d =>
      let Hc := fresh "Hc" in
      destruct (mips_loc_cases F k d Hd)
        as [(? & ? & ? & ?) | [(? & ? & ? & ? & ?) | [? [[? ?] | [? ?]]]]]; try done;
      destruct Hs as [[Hc Hs] | [Hc Hs]];
      try (destruct (mips_loc_cases F k src Hs)
        as [(? & ? & ? & ?) | [(? & ? & ? & ? & ?) | [? [[? ?] | [? ?]]]]]; try done);
      try match goal with Hin : d ∈ slots F |- _ => destruct (slot_queries k d Hd Hin) end;
      try match goal with Hin : src ∈ slots F |- _ => destruct (slot_queries k src Hs Hin) end;
      try (destruct (constant_queries src Hc) as (? & ? & ? & ? & ?))
  end.

Lemma EmitMove_word ms i d src :
  Forall consistent ms -> mips_loc F false d -> mips_source_ok false src ->
  exists f, moves_value ms false d src f /\ emits_move i d src f.
Proof.
  intros Hms Hd Hs; by_cases Hd d Hs src.
  all: eexists; split; [| intros r Hr; unfold EmitMove; rewrite (move_at_ok _ _ _ Hr);
    cbn [obind ParallelMove.src dest]; resolve_locations; reflexivity].
  - apply move_register_register; done.
  - apply move_slot_register; done.
  - apply move_constant_register; done.
  - apply move_register_slot; done.
  - apply move_slot_slot; done.
  - apply move_constant_slot; done.
Qed.

Lemma EmitMove_double ms i d src :
  Forall consistent ms -> mips_loc F true d -> mips_source_ok true src ->
  exists f, moves_value ms true d src f /\ emits_move i d src f.
Proof.
  intros Hms Hd Hs; by_cases Hd d Hs src.
  all: eexists; split; [| intros r Hr; unfold EmitMove; rewrite (move_at_ok _ _ _ Hr);
    cbn [obind ParallelMove.src dest]; resolve_locations; reflexivity].
  - apply move_fpu_fpu; done.
  - apply move_slot_fpu; done.
  - apply move_constant_fpu; done.
  - apply move_fpu_slot; done.
  - apply move_slot_slot_double; done.
  - apply move_constant_double_slot; done.
Qed.

(** [EmitMove] keeps its promise. *)
Lemma mips_EmitMove_ok i r d src k :
  moves_ r !! i = Some (mkMove d src) -> Forall consistent (moves_ r) ->
  mips_loc F k d -> mips_source_ok k src -> mips_good (compiler_ r) ->
  returns (EmitMove i r) (fun r' =>
    moves_ r' = <[i := Eliminate]> (moves_ r) /\ mips_good (compiler_ r') /\
    (mips_linked F (compiler_ r') -> mips_linked F (compiler_ r) /\
     forall m, mips_ok m -> exists m', mips_runs (compiler_ r) (compiler_ r') m m' /\ mips_ok m' /\
       mips_read F m' d = mips_source m k src /\
       forall k' l, mips_loc F k' l -> l <> d -> ~ scratch (moves_ r) l ->
         mips_read F m' l = mips_read F m l)).
Proof.
  intros Hi Hc Hd Hs Hg.
  assert (exists f, moves_value (moves_ r) k d src f /\ emits_move i d src f) as (f & Hf & Ef).
  { destruct k; [apply EmitMove_double | apply EmitMove_word]; done. }
  rewrite (Ef r Hi); call (Hf r eq_refl Hg) as r' (Hr' & Hg' & il & He & Hx).
  apply returns_Ok; cbn; rewrite Hr'; split_and!; [done | done |].
  intros [Hl Hrun]%Hx; split; [done |]; intros m [Hb Hsp].
  destruct (Hrun m Hb Hsp) as (m' & Hex & Hb' & [Ksp _] & Hv & Heff).
  exists m'; split_and!; [exists il; done | split; [done | unfold at_sp in *; congruence] | |].
  - apply Hv; constructor.
  - intros k' l Hl' Hne Hn; apply (Heff k'); [done | set_solver | done].
Qed.
End Target.
