(* ===== verification/MipsSwapProofs.v ===== *)
(** The swaps of the MIPS target, and the theorem about parallel moves: the simulator,
    running the code emitted for a parallel move, performs all its assignments at once. *)
From stdpp Require Import base numbers list gmap sets.
From Stdlib Require Import ZArith Lia Bool.
From S2P Require Import Prelude Utils UtilsProofs Locations ParallelMove ParallelMoveProofs.
From S2P Require Import MipsConstants HostFloat MipsState MipsSimulator MipsAssembler MipsMacros.
From S2P Require Import MipsEncoding MipsIsa MipsExec MipsMacroProofs MipsRun MipsParallelMove.
From S2P Require Import MipsMoveProofs MipsParallelMoveProofs.
#[local] Open Scope Z_scope.

#[local] Existing Instance word32.

(** Doubles in other registers. *)
Lemma double_put_double_ne d d' v s : d <> d' -> get_double d (put_double d' v s) = get_double d s.
Proof. intros; unfold get_double, put_double; rewrite !freg_put_ne by lia; done. Qed.

Lemma get_put_pair_ne d d' lo hi s : d <> d' -> get_double d (put_pair d' lo hi s) = get_double d s.
Proof. intros; unfold get_double, put_pair; rewrite !freg_put_ne by lia; done. Qed.

Section Swaps.
Context `{ObjectLayout} (F : Frame) (HF : frame_ok F).
#[local] Abbreviation base := (base F).
#[local] Abbreviation does := (does F).

(** The values after a swap of the locations [x] and [y]. *)
Definition swapped (x y : Z) (s : Simulator) (l : Z) : Z :=
  mips_read F s (if l =? x then y else x).

Definition swaps (q : Z) (x y : Z) (C : Z -> Prop) : Simulator -> Simulator -> Prop :=
  writes F q [x; y] (swapped x y) C.

Lemma swaps_intro q x y (C : Z -> Prop) s s' :
  x <> y -> mips_read F s' x = mips_read F s y -> mips_read F s' y = mips_read F s x ->
  touches F q [x; y] C s s' -> swaps q x y C s s'.
Proof.
  intros Hne E1 E2 [Hk He]; split_and!; [done | | done]; unfold swapped.
  intros l [-> | ->%list_elem_of_singleton]%elem_of_cons; [rewrite Z.eqb_refl; done |].
  rewrite (proj2 (Z.eqb_neq y x)) by done; done.
Qed.

Lemma swaps_sym q x y C s s' : x <> y -> swaps q x y C s s' -> swaps q y x C s s'.
Proof.
  intros Hne (Hk & Hv & He); apply swaps_intro; try done.
  - rewrite (Hv y) by set_solver; unfold swapped; rewrite (proj2 (Z.eqb_neq y x)); done.
  - rewrite (Hv x) by set_solver; unfold swapped; rewrite Z.eqb_refl; done.
  - split; [done |]; intros k l Hl HW HC; apply (He k); [done | set_solver | done].
Qed.

Lemma swapped_stable x y k :
  mips_loc F k x -> mips_loc F k y -> forall s s',
  (forall k l, mips_loc F k l -> mips_read F s' l = mips_read F s l) ->
  forall d, d ∈ [x; y] -> swapped x y s' d = swapped x y s d.
Proof. intros Hx Hy s s' E d _; unfold swapped; destruct (d =? x); apply (E k); done. Qed.

Lemma read_put_double k l d v s :
  mips_loc F k l -> l <> fpu_loc d -> mips_read F (put_double d v s) l = mips_read F s l.
Proof. intros; unfold put_double; rewrite !(read_put_freg F k l d) by auto; done. Qed.

Lemma peek_set_register a r v s : peek a (set_register r v s) = peek a s.
Proof. unfold peek; rewrite memory_set_register; done. Qed.

(** Code in the scope of a scratch register. *)
Lemma swaps_scratch ms x y f :
  does ms (at_sp (sp F)) f (writes F (sp F) [x; y] (swapped x y) (fun l => False \/ scratch ms l)) ->
  does ms (at_sp (sp F)) f (swaps (sp F) x y (scratch ms)).
Proof.
  intros Hf; eapply does_weaken; [exact Hf | done |].
  cbn beta; intros s s' _ _ _ (Hk & Hv & He); split_and!; [done | done |].
  intros k l Hl HW HC; apply (He k); tauto.
Qed.

(** ** Words *)
Section Words.
Context (ms : list MoveOperands) (Hms : Forall consistent ms).

Lemma swap_registers x y :
  mips_loc F false x -> mips_loc F false y -> x <> y ->
  Location.kind x = Location.kRegister -> Location.kind y = Location.kRegister ->
  does ms (at_sp (sp F)) (fun r => let* r := assemble (mov TMP (Location.payload x)) r in
      let* r := assemble (mov (Location.payload x) (Location.payload y)) r in
      assemble (mov (Location.payload y) TMP) r) (swaps (sp F) x y (scratch ms)).
Proof.
  intros Hx Hy Hne Kx Ky.
  destruct (mips_loc_cases F false x Hx) as [(_ & Ex & _ & Ax) | [(? & _) | [_ [[_ E] | [? _]]]]]; try done;
    [| rewrite Kx in E; discriminate E].
  destruct (mips_loc_cases F false y Hy) as [(_ & Ey & _ & Ay) | [(? & _) | [_ [[_ E] | [? _]]]]]; try done;
    [| rewrite Ky in E; discriminate E].
  pose proof Ax as (_ & Tx & _); pose proof Ay as (_ & Ty & _).
  destruct (allocatable_reg5 _ Ax) as (? & ? & ? & ? & ?), (allocatable_reg5 _ Ay) as (? & ? & ? & ? & ?).
  assert (reg5 TMP) by (apply reg5_range; done).
  eapply does_weaken; [apply does_any; eapply does_bind; [apply (does_mov F ms TMP (Location.payload x)); done |
    eapply does_bind; [apply (does_mov F ms (Location.payload x) (Location.payload y)); done |
      apply (does_mov F ms (Location.payload y) TMP); done | done] | done] | done |].
  cbn beta; intros s s' Hb _ _ (s1 & -> & s2 & -> & ->).
  assert (Location.payload x <> Location.payload y) by congruence.
  apply swaps_intro; [done | | |].
  - rewrite !read_register by done.
    rewrite get_set_register_ne, get_set_register_eq, get_set_register_ne by done.
    apply int32_id, wf_registers, Hb.
  - rewrite !read_register by done.
    rewrite get_set_register_eq, get_set_register_ne, get_set_register_eq by done.
    rewrite to_s_to_s by lia; apply int32_id, wf_registers, Hb.
  - eapply touches_trans; [| apply touches_set; [done | left; rewrite <- Ey; set_solver]].
    eapply touches_trans; [| apply touches_set; [done | left; rewrite <- Ex; set_solver]].
    apply touches_set; [discriminate | right; right; intros (_ & ? & _); done].
Qed.

Lemma swap_register_slot x y :
  mips_loc F false x -> mips_loc F false y ->
  Location.kind x = Location.kRegister -> Location.kind y = Location.kStackSlot -> y ∈ slots F ->
  does ms (at_sp (sp F)) (Exchange (Location.payload x) FP (slot_offset y))
    (swaps (sp F) x y (scratch ms)).
Proof.
  intros Hx Hy Kx Ky Hin; assert (x <> y) as Hne by (intros ->; rewrite Kx in Ky; discriminate Ky).
  destruct (mips_loc_cases F false x Hx) as [(_ & Ex & _ & Ax) | [(? & _) | [_ [[_ E] | [? _]]]]]; try done;
    [| rewrite Kx in E; discriminate E].
  destruct (allocatable_reg5 _ Ax) as (Rx & ? & ? & ? & ?).
  apply swaps_scratch, with_scratch_ok; auto.
  - intros d [-> | ->%list_elem_of_singleton]%elem_of_cons; eauto.
  - intros t Ht Hn [E | E%list_elem_of_singleton]%elem_of_cons.
    + apply Hn; rewrite <- E; symmetry; apply reg_loc_payload; rewrite E; apply Hx.
    + rewrite <- E, reg_loc_kind in Ky; discriminate Ky.
  - apply (swapped_stable x y false); done.
  - intros q t Hq Ht Hn; destruct (allocatable_reg5 t (scratch_allocatable t Ht)) as (? & ? & ? & ? & ?).
    eapply does_weaken; [apply does_any; eapply does_bind; [apply (does_mov F ms t (Location.payload x)); done |
      eapply does_bind; [apply (does_LoadFromOffset F HF ms (Location.payload x) y); done |
        apply (does_StoreToOffset F HF ms t y); done | done] | done] | done |].
    cbn beta; intros s s' Hb _ _ (s1 & -> & s2 & -> & ->); apply swaps_intro; [done | | |].
    + rewrite read_register, read_slot by done; change (get_register ?r (poke ?a ?v ?s)) with (get_register r s).
      rewrite get_set_register_eq, peek_set_register by done; apply int32_id, peek_range.
    + rewrite (read_register F s x), read_slot, peek_poke_eq, get_set_register_ne, get_set_register_eq by done.
      rewrite to_s_to_s by lia; apply int32_id, wf_registers, Hb.
    + eapply touches_trans; [| apply (touches_poke F HF _ _ _ y); [lia | done | left; done | set_solver]].
      eapply touches_trans; [| apply touches_set; [done | left; rewrite <- Ex; set_solver]].
      apply touches_set; [done | right; left; right; done].
Qed.

(** The words in two slots, loaded to registers and stored in the other slot. *)
Lemma swap_slots_body x y q t1 t2 (C : Z -> Prop) :
  mips_loc F false x -> mips_loc F false y -> x <> y ->
  Location.kind x = Location.kStackSlot -> Location.kind y = Location.kStackSlot ->
  x ∈ slots F -> y ∈ slots F -> sp F - 8 <= q -> allocatable t1 -> allocatable t2 -> t2 <> t1 ->
  C (reg_loc t1) -> C (reg_loc t2) ->
  does ms (at_sp q) (fun r =>
      let* r := assemble (LoadFromOffset t1 FP (slot_offset x)) r in
      let* r := assemble (LoadFromOffset t2 FP (slot_offset y)) r in
      let* r := assemble (StoreToOffset t1 FP (slot_offset y)) r in
      assemble (StoreToOffset t2 FP (slot_offset x)) r) (swaps q x y C).
Proof.
  intros Hx Hy Hne Kx Ky Hix Hiy Hq A1 A2 Hn C1 C2.
  destruct (allocatable_reg5 t1 A1) as (? & ? & ? & ? & ?), (allocatable_reg5 t2 A2) as (? & ? & ? & ? & ?).
  eapply does_weaken; [apply does_any; eapply does_bind; [apply (does_LoadFromOffset F HF ms t1 x); done |
    eapply does_bind; [apply (does_LoadFromOffset F HF ms t2 y); done |
      eapply does_bind; [apply (does_StoreToOffset F HF ms t1 y); done |
        apply (does_StoreToOffset F HF ms t2 x); done | done] | done] | done] | done |].
  cbn beta; intros s s' Hb _ _ (s1 & -> & s2 & -> & s3 & -> & ->).
  apply swaps_intro; [done | | |]; change (get_register ?r (poke ?a ?v ?s)) with (get_register r s).
  - rewrite !read_slot, peek_poke_eq, get_set_register_eq by done.
    rewrite peek_set_register, to_s_to_s by lia; apply int32_id, peek_range.
  - rewrite !read_slot by done; rewrite peek_poke_ne by (apply (slot_apart F HF y x); (done || left; done)).
    rewrite peek_poke_eq, get_set_register_ne, get_set_register_eq by done.
    rewrite to_s_to_s by lia; apply int32_id, peek_range.
  - eapply touches_trans; [| apply (touches_poke F HF _ _ _ x); [lia | done | left; done | set_solver]].
    eapply touches_trans; [| apply (touches_poke F HF _ _ _ y); [lia | done | left; done | set_solver]].
    eapply touches_trans; apply touches_set; (done || right; left; done).
Qed.

(** Two slots: the code goes through two scratch registers. *)
Lemma swap_slots x y :
  mips_loc F false x -> mips_loc F false y -> x <> y ->
  Location.kind x = Location.kStackSlot -> Location.kind y = Location.kStackSlot ->
  x ∈ slots F -> y ∈ slots F ->
  does ms (at_sp (sp F)) (Exchange_slots FP (slot_offset x) FP (slot_offset y))
    (swaps (sp F) x y (scratch ms)).
Proof.
  intros Hx Hy Hne Kx Ky Hix Hiy.
  assert (forall d, d ∈ [x; y] -> exists k, mips_loc F k d) as HW.
  { intros d [-> | ->%list_elem_of_singleton]%elem_of_cons; eauto. }
  assert (forall t, reg_loc t ∉ [x; y]) as Hn.
  { intros t [E | E%list_elem_of_singleton]%elem_of_cons; rewrite <- E, reg_loc_kind in *; done. }
  pose proof (swapped_stable x y false Hx Hy) as Hst.
  apply swaps_scratch, with_scratch_ok; auto.
  intros q1 t1 Hq1 Ht1 _; pose proof (scratch_allocatable t1 Ht1) as A1.
  eapply does_weaken; [apply (with_scratch_ok F HF ms q1 t1 _ [x; y] (swapped x y)
    (fun l => l = reg_loc t1)) | done |]; auto.
  { destruct (scratch_allocatable t1 Ht1) as (? & _); lia. }
  { intros q t Hq Ht Hnt; apply swap_slots_body; auto using scratch_allocatable; lia. }
  cbn beta; intros s s' _ _ _ (Hk & Hv & He); split_and!; [done | done |].
  intros k l Hl HWl HC; apply (He k); tauto.
Qed.
End Words.

(** ** Doubles *)
Section Doubles.
Context (ms : list MoveOperands) (Hms : Forall consistent ms).

Lemma swap_fpus x y :
  mips_loc F true x -> mips_loc F true y -> x <> y ->
  Location.kind x = Location.kFpuRegister -> Location.kind y = Location.kFpuRegister ->
  x = fpu_loc (Location.payload x) -> y = fpu_loc (Location.payload y) ->
  dreg (Location.payload x) -> dreg (Location.payload y) ->
  Location.payload x <> DTMP -> Location.payload y <> DTMP ->
  does ms (at_sp (sp F)) (fun r =>
      let* r := assemble (fun a => Ok (movd DTMP (Location.payload x) a)) r in
      let* r := assemble (fun a => Ok (movd (Location.payload x) (Location.payload y) a)) r in
      assemble (fun a => Ok (movd (Location.payload y) DTMP a)) r) (swaps (sp F) x y (scratch ms)).
Proof.
  intros Hx Hy Hne Kx Ky Ex Ey Dx Dy Nx Ny; pose proof dreg_DTMP as Dt.
  eapply does_weaken; [apply does_any; eapply does_bind; [apply (does_movd F ms DTMP (Location.payload x)); done |
    eapply does_bind; [apply (does_movd F ms (Location.payload x) (Location.payload y)); done |
      apply (does_movd F ms (Location.payload y) DTMP); done | done] | done] | done |].
  cbn beta; intros s s' Hb _ _ (s1 & -> & s2 & -> & ->).
  assert (Location.payload x <> Location.payload y) by congruence.
  pose proof (fun d => get_double_range d s (base_wf F s Hb)) as Hr.
  apply swaps_intro; [done | | |].
  - rewrite !read_fpu by done.
    rewrite double_put_double_ne, double_put_double, double_put_double_ne by (done || rewrite ?double_put_double_ne; auto).
    done.
  - rewrite !read_fpu by done.
    rewrite double_put_double, double_put_double_ne, double_put_double by
      (auto || rewrite double_put_double_ne, double_put_double by auto; auto); done.
  - eapply touches_trans; [| apply touches_put_double; left; rewrite <- Ey; set_solver].
    eapply touches_trans; [| apply touches_put_double; left; rewrite <- Ex; set_solver].
    apply touches_put_double; auto.
Qed.

Lemma swap_fpu_slot x y :
  mips_loc F true x -> mips_loc F true y ->
  Location.kind x = Location.kFpuRegister -> Location.kind y = Location.kDoubleStackSlot ->
  x = fpu_loc (Location.payload x) -> dreg (Location.payload x) -> Location.payload x <> DTMP ->
  y ∈ slots F ->
  does ms (at_sp (sp F)) (fun r =>
      let* r := assemble (LoadDFromOffset DTMP FP (slot_offset y)) r in
      let* r := assemble (StoreDToOffset (Location.payload x) FP (slot_offset y)) r in
      assemble (fun a => Ok (movd (Location.payload x) DTMP a)) r) (swaps (sp F) x y (scratch ms)).
Proof.
  intros Hx Hy Kx Ky Ex Dx Nx Hin; pose proof dreg_DTMP as Dt.
  assert (x <> y) as Hne by (intros ->; rewrite Kx in Ky; discriminate Ky).
  eapply does_weaken; [apply does_any; eapply does_bind; [apply (does_load_double F HF ms DTMP y); done |
    eapply does_bind; [apply (does_store_double F HF ms (Location.payload x) y); done |
      apply (does_movd F ms (Location.payload x) DTMP); done | done] | done] | done |].
  cbn beta; intros s s' Hb _ _ (s1 & -> & s2 & -> & ->).
  assert (forall d lo hi, wf (put_pair d lo hi s)) as Hw by (intros; apply wf_put_freg, wf_put_freg, Hb).
  change (get_double DTMP (poke_pair ?a ?d ?s)) with (get_double DTMP s).
  rewrite get_put_pair by apply peek_range; apply swaps_intro; [done | | |].
  - rewrite read_fpu, read_double_slot, double_put_double by (done || apply pair64_range, peek_range); done.
  - rewrite (read_put_double true y) by (done || congruence).
    rewrite read_poke_pair, (read_fpu F s x), get_put_pair_ne by done; done.
  - eapply touches_trans; [| apply touches_put_double; left; rewrite <- Ex; set_solver].
    eapply touches_trans; [| apply touches_poke_pair; [done | lia | done | done | set_solver]].
    apply touches_put_pair; auto.
Qed.

Lemma swap_double_slots x y :
  mips_loc F true x -> mips_loc F true y -> x <> y ->
  Location.kind x = Location.kDoubleStackSlot -> Location.kind y = Location.kDoubleStackSlot ->
  x ∈ slots F -> y ∈ slots F ->
  does ms (at_sp (sp F)) (with_fpu_scratch DTMP (fun scratch r =>
      let* r := assemble (LoadDFromOffset DTMP FP (slot_offset x)) r in
      let* r := assemble (LoadDFromOffset scratch FP (slot_offset y)) r in
      let* r := assemble (StoreDToOffset DTMP FP (slot_offset y)) r in
      assemble (StoreDToOffset scratch FP (slot_offset x)) r)) (swaps (sp F) x y (scratch ms)).
Proof.
  intros Hx Hy Hne Kx Ky Hix Hiy; pose proof dreg_DTMP as Dt.
  apply (with_fpu_scratch_ok F HF); [done | | | apply (swapped_stable x y true); done |].
  { intros d [-> | ->%list_elem_of_singleton]%elem_of_cons; eauto. }
  { intros t _ _ [E | E%list_elem_of_singleton]%elem_of_cons; rewrite <- E, fpu_loc_kind in *; done. }
  intros q t Hq Ht Hn.
  eapply does_weaken; [apply does_any; eapply does_bind; [apply (does_load_double F HF ms DTMP x); done |
    eapply does_bind; [apply (does_load_double F HF ms t y); done |
      eapply does_bind; [apply (does_store_double F HF ms DTMP y); done |
        apply (does_store_double F HF ms t x); done | done] | done] | done] | done |].
  cbn beta; intros s s' Hb _ _ (s1 & -> & s2 & -> & s3 & -> & ->).
  change (peek ?a (put_pair ?d ?lo ?hi s)) with (peek a s).
  set (s2 := put_pair t _ _ _).
  assert (wf s2) as Hw by (do 4 apply wf_put_freg; apply Hb).
  apply swaps_intro; [done | | |].
  - rewrite read_poke_pair by (done || apply wf_poke, wf_poke; done).
    change (get_double t (poke_pair ?a ?d ?s)) with (get_double t s); unfold s2.
    rewrite get_put_pair, (read_double_slot F s y) by (done || apply peek_range); done.
  - unfold poke_pair at 1; rewrite !(read_poke_slot F HF true y x) by
      (done || (left; done) || (right; unfold Location.IsDoubleStackSlot; rewrite Kx; done)).
    rewrite read_poke_pair by done; unfold s2.
    rewrite get_put_pair_ne, get_put_pair, (read_double_slot F s x) by (done || apply peek_range); done.
  - eapply touches_trans; [| apply touches_poke_pair; [done | lia | done | done | set_solver]].
    eapply touches_trans; [| apply touches_poke_pair; [done | lia | done | done | set_solver]].
    eapply touches_trans; apply touches_put_pair; auto.
Qed.
End Doubles.

(** ** Every swap *)
(** The moves that read one of the locations read the other afterwards. *)
Lemma swap_sources_ok x y ms :
  Forall consistent ms -> x <> 0 -> y <> 0 -> x <> y ->
  swap_sources x y ms = Ok (swap_source x y <$> ms).
Proof.
  intros Hc Hx Hy Hne; induction Hc as [| mv ms Hmv _ IH]; cbn [swap_sources fmap list_fmap]; [done |].
  rewrite !Blocks_ok, IH by done; unfold swap_source at 2; cbn [obind].
  destruct (Z.eqb_spec (src mv) 0), (Z.eqb_spec (src mv) x), (Z.eqb_spec (src mv) y);
    cbn [obind]; done || lia.
Qed.

(** A location of the target is valid and no constant. *)
Lemma mips_loc_place k l : mips_loc F k l -> l <> 0 /\ Location.IsConstant l = false.
Proof.
  intros [_ Hl]; apply kinds_not_constant; destruct k, Hl as [(? & _) | [? _]]; auto.
Qed.

Lemma mips_loc_class k k' l : mips_loc F k l -> mips_loc F k' l -> k = k'.
Proof.
  intros [_ Hl] [_ Hl']; destruct k, k', Hl as [(E & _) | [E _]], Hl' as [(E' & _) | [E' _]];
    try done; rewrite E in E'; discriminate E'.
Qed.

(** The code of [EmitSwap], by the kinds of the locations. *)
Definition emits_swap (i : nat) (d src : Z) (f : resolver -> outcome resolver) : Prop :=
  forall r, moves_ r !! i = Some (mkMove d src) ->
    EmitSwap i r = (let* r := f r in
      let* ms := swap_sources src d (<[i := Eliminate]> (moves_ r)) in
      Ok (mkResolver (compiler_ r) ms)).

(** The locations of a swap: registers and slots in the four combinations. *)
Ltac swap_cases k d Hd src Hs :=
  destruct (mips_loc_cases F k d Hd)
    as [(? & ? & ? & ?) | [(? & ? & ? & ? & ?) | [? [[? ?] | [? ?]]]]]; try done;
  destruct (mips_loc_cases F k src Hs)
    as [(? & ? & ? & ?) | [(? & ? & ? & ? & ?) | [? [[? ?] | [? ?]]]]]; try done;
  try match goal with Hin : d ∈ slots F |- _ => destruct (slot_queries F HF k d Hd Hin) end;
  try match goal with Hin : src ∈ slots F |- _ => destruct (slot_queries F HF k src Hs Hin) end.

Lemma allocatable_not_TMP r : allocatable r -> (r =? TMP) = false.
Proof. intros (_ & ? & _); apply Z.eqb_neq; done. Qed.

Lemma does_swaps_sym ms x y f :
  x <> y -> does ms (at_sp (sp F)) f (swaps (sp F) x y (scratch ms)) ->
  does ms (at_sp (sp F)) f (swaps (sp F) y x (scratch ms)).
Proof.
  intros Hne Hf; eapply does_weaken; [exact Hf | done |].
  intros s s' _ _ _; apply swaps_sym; done.
Qed.

Lemma EmitSwap_word ms i d src :
  Forall consistent ms -> mips_loc F false d -> mips_loc F false src -> d <> src ->
  exists f, does ms (at_sp (sp F)) f (swaps (sp F) src d (scratch ms)) /\ emits_swap i d src f.
Proof.
  intros Hms Hd Hs Hne; swap_cases false d Hd src Hs.
  all: eexists; split; [| intros r Hr; unfold EmitSwap; rewrite (move_at_ok _ _ _ Hr);
    cbn [obind ParallelMove.src dest]; resolve_locations; rewrite ?allocatable_not_TMP by done;
    cbn [negb]; reflexivity].
  - apply swap_registers; done.
  - apply does_swaps_sym; [done |]; apply swap_register_slot; done.
  - apply swap_register_slot; done.
  - apply swap_slots; done.
Qed.

Lemma EmitSwap_double ms i d src :
  Forall consistent ms -> mips_loc F true d -> mips_loc F true src -> d <> src ->
  exists f, does ms (at_sp (sp F)) f (swaps (sp F) src d (scratch ms)) /\ emits_swap i d src f.
Proof.
  intros Hms Hd Hs Hne; swap_cases true d Hd src Hs.
  all: eexists; split; [| intros r Hr; unfold EmitSwap; rewrite (move_at_ok _ _ _ Hr);
    cbn [obind ParallelMove.src dest]; resolve_locations; resolve_locations; reflexivity].
  - apply swap_fpus; done.
  - apply does_swaps_sym; [done |]; apply swap_fpu_slot; done.
  - apply swap_fpu_slot; done.
  - apply swap_double_slots; done.
Qed.

(** [EmitSwap] keeps its promise. *)
Lemma mips_EmitSwap_ok i r d src k :
  moves_ r !! i = Some (mkMove d src) -> Forall consistent (moves_ r) ->
  mips_loc F k d -> mips_loc F k src -> d <> src -> mips_good (compiler_ r) ->
  returns (EmitSwap i r) (fun r' =>
    moves_ r' = swap_source src d <$> <[i := Eliminate]> (moves_ r) /\ mips_good (compiler_ r') /\
    (mips_linked F (compiler_ r') -> mips_linked F (compiler_ r) /\
     forall m, mips_ok F m -> exists m', mips_runs F (compiler_ r) (compiler_ r') m m' /\ mips_ok F m' /\
       mips_read F m' d = mips_read F m src /\ mips_read F m' src = mips_read F m d /\
       forall k' l, mips_loc F k' l -> l <> d -> l <> src -> ~ scratch (moves_ r) l ->
         mips_read F m' l = mips_read F m l)).
Proof.
  intros Hi Hc Hd Hs Hne Hg.
  assert (exists f, does (moves_ r) (at_sp (sp F)) f (swaps (sp F) src d (scratch (moves_ r))) /\
    emits_swap i d src f) as (f & Hf & Ef).
  { destruct k; [apply EmitSwap_double | apply EmitSwap_word]; done. }
  rewrite (Ef r Hi); call (Hf r eq_refl Hg) as r' (Hr' & Hg' & il & He & Hx).
  rewrite Hr', swap_sources_ok; cbn [obind]; [| | eapply mips_loc_place; done .. | done].
  2: { apply Forall_insert; [done | intros _; done]. }
  apply returns_Ok; cbn; split_and!; [done | done |].
  intros [Hl Hrun]%Hx; split; [done |]; intros m [Hb Hsp].
  destruct (Hrun m Hb Hsp) as (m' & Hex & Hb' & [Ksp _] & Hv & Heff).
  exists m'; split_and!; [exists il; done | split; [done | unfold at_sp in *; congruence] | | |].
  - rewrite (Hv d) by set_solver; unfold swapped; rewrite (proj2 (Z.eqb_neq d src)) by done; done.
  - rewrite (Hv src) by set_solver; unfold swapped; rewrite Z.eqb_refl; done.
  - intros k' l Hl' Hnd Hns Hn; apply (Heff k'); [done | set_solver | done].
Qed.
End Swaps.
