(* ===== verification/MipsParallelMoveRun.v ===== *)
(** Parallel moves on MIPS, run: the target discharges the interface of the resolver
    ([MoveTargetOk]), so that the simulator, running the words emitted for a parallel
    move, performs all its assignments at once; and a swap of two slots that are
    addressed from different base registers, which goes wrong. *)
From stdpp Require Import base numbers list gmap sets.
From Stdlib Require Import ZArith Lia Bool.
From S2P Require Import Prelude Utils UtilsProofs Locations ParallelMove ParallelMoveProofs.
From S2P Require Import MipsConstants HostFloat MipsState MipsSimulator MipsAssembler MipsMacros.
From S2P Require Import MipsEncoding MipsIsa MipsExec MipsMacroProofs MipsRun MipsParallelMove.
From S2P Require Import MipsMoveProofs MipsParallelMoveProofs MipsSwapProofs MipsInvariants MipsWitnesses.
#[local] Open Scope Z_scope.

#[local] Existing Instance word32.

Section Run.
Context `{ObjectLayout} (F : Frame) (HF : frame_ok F).

(** * The interface *)
Lemma mips_runs_refl c s : mips_runs F c c s s.
Proof. exists []; split; [split_and!; done | constructor]. Qed.

Lemma mips_runs_trans c1 c2 c3 s1 s2 s3 :
  mips_runs F c1 c2 s1 s2 -> mips_runs F c2 c3 s2 s3 -> mips_runs F c1 c3 s1 s3.
Proof.
  intros (il1 & (E1 & P1 & O1) & X1) (il2 & (E2 & P2 & O2) & X2); exists (il1 ++ il2).
  split; [split_and!; [rewrite emit_all_app, E1; done | |]; apply Forall_app; done |].
  eapply exec_app; done.
Qed.

#[local] Instance mips_target_ok : MoveTargetOk Compiler Simulator.
Proof.
  refine {| loc_ok := mips_loc F; const_ok := mips_const F;
    constant_value := mips_constant_value F; good := mips_good; linked := mips_linked F;
    ok := mips_ok F; read := mips_read F; runs := mips_runs F;
    loc_ok_place := mips_loc_place F; loc_ok_class := mips_loc_class F;
    runs_refl := mips_runs_refl; runs_trans := mips_runs_trans |}.
  - intros i r d s k Hi Hc Hd Hs _ Hg; apply (mips_EmitMove_ok F HF i r d s k); done.
  - intros i r d s k Hi Hc Hd Hs Hne Hg; apply (mips_EmitSwap_ok F HF i r d s k); done.
Defined.

(** * Running the emitted words *)
(** The moves that may be resolved: distinct destinations, each of the class of its
    source; a move without a destination is ignored. *)
Definition mips_parallel_ok (pm : list MoveOperands) : Prop :=
  Forall consistent pm /\
  (forall mv, mv ∈ pm -> dest mv <> 0 ->
    exists k, mips_loc F k (dest mv) /\ mips_source_ok F k (src mv)) /\
  NoDup (dest <$> filter (fun mv => dest mv <> 0) pm).

(** The words between two states of the code generator. *)
Definition emitted_words (c c' : Compiler) : list Z :=
  drop (length (buffer_ (assembler_ c))) (buffer_ (assembler_ c')).

(** The code [ws] is at the pc, where no move writes. *)
Record loaded_at (ws : list Z) (s : Simulator) : Prop := mk_loaded_at {
  loaded_range : code_range (pc_ s) (length ws);
  loaded_code : code_at (pc_ s) ws s;
  loaded_kept a : pc_ s <= a < pc_ s + 4 * Z.of_nat (length ws) -> ~ writable F a
}.

Lemma base_advance n s : base F s -> base F (advance n s).
Proof. intros [Hw Hf Hp Hk Hm]; constructor; auto using wf_advance. Qed.

Lemma runs_steps host c c' s s' :
  mips_runs F c c' s s' -> base F s -> loaded_at (emitted_words c c') s ->
  let n := length (emitted_words c c') in
  steps host n s = Ok (advance (Z.of_nat n) s').
Proof.
  intros (il & (He & Hp & Ho) & Hx) Hb [Hr Hc Hk]; cbn zeta.
  destruct (exec_steps (base F) il _ _ Ho Hp He) as (ws & Ebuf & Hl & _ & Hrun).
  assert (emitted_words c c' = ws) as Ew.
  { unfold emitted_words; rewrite Ebuf, drop_app_length; done. }
  rewrite Ew in *; pose proof (base_wf F s Hb) as Hwf; specialize (Hrun host s s' 0).
  rewrite advance_0, Z.mul_0_r, Z.add_0_r, Z.add_0_l in Hrun by done; rewrite Hl in *.
  apply Hrun; try done; [apply wf_pc; done |].
  intros s1 Hb1; split; [apply (base_wf F s1 Hb1) |]; intros a Ha.
  rewrite (base_kept F s1 Hb1), (base_kept F s Hb) by auto; done.
Qed.

(** C2. The code emitted for a parallel move performs all its assignments at once, in
    the frame of a compiled function: every stack slot is addressed from the frame
    pointer, by an offset of 16 bits, and the slots overlap neither each other nor the
    two words below the stack pointer ([frame_ok]; an intrinsic, whose slots are
    addressed from the stack pointer, has no such frame, and there an exchange of two
    slots goes wrong).  Take any moves with distinct destinations, each of the class
    (word or double) of its source, between registers that the code generator does not
    reserve, such slots and constants, the double constants being objects in memory that
    no move writes.  Then [EmitNativeCode], started outside of a delay slot, in an
    isolate other than the VM isolate and with an object pool whose index is right,
    returns.  And the simulator, started on the words that were emitted, which are
    outside of the memory that moves write, with the frame and the object pool, of less
    than 2^28 entries, in memory, runs to the end of the words in a state where every
    destination holds what its source held at the start, every other such location is
    unchanged, and the frame pointer, the stack pointer and the object pool pointer are
    as before. *)
Theorem parallel_move_runs pm (r : resolver) :
  moves_ r = [] -> mips_good (compiler_ r) -> mips_parallel_ok pm ->
  returns (EmitNativeCode pm r) (fun r' =>
    moves_ r' = [] /\ mips_good (compiler_ r') /\
    let ws := emitted_words (compiler_ r) (compiler_ r') in
    forall host s,
      mips_linked F (compiler_ r') -> base F s -> at_sp (sp F) s -> loaded_at ws s ->
      exists s', steps host (length ws) s = Ok s' /\ base F s' /\ at_sp (sp F) s' /\
        pc_ s' = uint32 (pc_ s + 4 * Z.of_nat (length ws)) /\
        (forall mv k, mv ∈ pm -> mips_loc F k (dest mv) ->
          mips_read F s' (dest mv) = mips_source F s k (src mv)) /\
        (forall k l, mips_loc F k l -> (forall mv, mv ∈ pm -> dest mv <> l) ->
          mips_read F s' l = mips_read F s l)).
Proof.
  intros Hr Hg Hpm; eapply returns_mono; [apply (@EmitNativeCode_ok _ _ _ mips_target_ok pm r Hr Hg Hpm) |].
  intros r' (Hr' & Hg' & Hrun); split_and!; [done | done |]; cbn zeta; intros host s Hl Hb Hs Hld.
  destruct (Hrun Hl s (conj Hb Hs)) as (s' & Hruns & [Hb' Hs'] & Hd & Ho).
  set (n := Z.of_nat (length (emitted_words (compiler_ r) (compiler_ r')))).
  exists (advance n s'); split_and!.
  - apply runs_steps; done.
  - apply base_advance; done.
  - exact Hs'.
  - destruct Hruns as (il & (_ & Hp & _) & Hx); cbn; f_equal; f_equal; clear -Hp Hx.
    induction Hx as [| i il s s1 s2 Ei _ _ IH]; [done |]; inversion_clear Hp.
    rewrite IH by done; apply (plain_frame i s s1); done.
  - exact Hd.
  - exact Ho.
Qed.
End Run.

(** * A run *)
(** A boxed constant and a small integer, at the addresses 0x100 and 0x200. *)
Definition layout0 : ObjectLayout := {|
  Double_value_offset := 8;
  constant_at p := mkConstant (if p =? 0x100 then mkObject 0x5001 false else mkObject 84 false) kTagged
|}.

Definition loc0 (o : outcome Z) : Z := match o with Ok l => l | Err _ => 0 end.
Definition slot0 : Z := loc0 (Location.StackSlot 0 FP).
Definition slot1 : Z := loc0 (Location.StackSlot 1 FP).
Definition dslot3 : Z := loc0 (Location.DoubleStackSlot 3).

(** A cycle through a register and two slots, a cycle through a double register and a
    double slot, two constants and a move that needs no code. *)
Definition moves0 : list MoveOperands :=
  [mkMove (reg_loc 2) slot0; mkMove slot0 slot1; mkMove slot1 (reg_loc 2);
   mkMove (fpu_loc 0) dslot3; mkMove dslot3 (fpu_loc 0);
   mkMove (reg_loc 3) 0x101; mkMove (reg_loc 5) 0x201; mkMove (reg_loc 6) (reg_loc 6)].

Definition compiler0 : Compiler := mkCompiler (new_Assembler false false) (mkPool [] [] ∅ false) false.
Definition result0 : outcome resolver :=
  @EmitNativeCode _ (@mips_target layout0) moves0 (mkResolver compiler0 []).

Definition code0 : list Z :=
  match result0 with Ok r => emitted_words compiler0 (compiler_ r) | Err _ => [] end.

(** The frame, with the words 11 and 22 in the slots and the double 4294967297 (the words
    1 and 1) in the double slot; the code; the object pool. *)
Definition frame0 : Frame :=
  mkFrame [slot0; slot1; dslot3] 0x30040 0x30008 0x31001
    (mem_of 0x30000 [0; 0; 0; 0; 0; 0; 0; 0; 0; 0; 0; 1; 1; 22; 11; 0] ∪
     mem_of 0x20000 code0 ∪ mem_of 0x3100c [0x5001]).

Definition state0 : Simulator :=
  started (mem0 frame0) 0x20000
    [(2, 33); (3, 44); (FP, 0x30040); (SP, 0x30008); (PP, 0x31001)].

Ltac each_in H :=
  repeat (apply elem_of_cons in H as [-> | H]); [.. | apply elem_of_nil in H as []].

Lemma frame0_ok : frame_ok frame0.
Proof.
  constructor.
  - intros l Hl; each_in Hl; (split; [vm_compute; intuition congruence |]);
      (split; [vm_compute; tauto |]); do 2 (split; [vm_compute; reflexivity |]);
      intros a [-> | [E ->]]; try discriminate E; vm_compute; intuition congruence.
  - intros l l' Hl Hl' Hne; each_in Hl; each_in Hl'; try done; vm_compute; intuition congruence.
  - vm_compute; intuition congruence.
  - intros l Hl; each_in Hl; vm_compute; intuition congruence.
Qed.

Lemma writable0 a : writable frame0 a -> 0x30000 <= a < 0x30040.
Proof.
  intros [(l & Hl & Ha) | Ha]; [| cbn in Ha; lia].
  assert (0x30000 <= slot_addr frame0 l /\ slot_addr frame0 l + slot_size l <= 0x30040); [| lia].
  each_in Hl; vm_compute; intuition congruence.
Qed.

Lemma base0 : base frame0 state0.
Proof.
  constructor; [| reflexivity | reflexivity | |].
  - apply inv_started.
  - intros a _; reflexivity.
  - intros a Ha%writable0.
    assert (Forall (fun a => is_Some (memory state0 !! a)) (seqZ 0x30000 64)) as Hall
      by (apply (bool_decide_unpack _); vm_compute; exact I).
    rewrite Forall_forall in Hall; apply Hall, elem_of_seqZ; lia.
Qed.

Lemma state0_loaded : loaded_at frame0 code0 state0.
Proof.
  constructor.
  - vm_compute; split; congruence.
  - vm_compute; tauto.
  - intros a Ha Hw%writable0.
    change (0x20000 <= a < 0x20000 + 4 * Z.of_nat 14) in Ha; lia.
Qed.

#[local] Existing Instance layout0.

Ltac is_loc0 :=
  split; [vm_compute; intuition congruence |];
  first [ left; vm_compute; intuition congruence
        | right; split; [reflexivity | cbn; rewrite !elem_of_cons; tauto] ].

Ltac is_source0 :=
  first [ left; split; [reflexivity | is_loc0] | right; split; [reflexivity | exact I] ].

Lemma moves0_ok : mips_parallel_ok frame0 moves0.
Proof.
  split_and!; [| | apply (bool_decide_unpack _); vm_compute; exact I].
  - repeat constructor; vm_compute; congruence.
  - intros mv Hmv _; each_in Hmv;
      first [exists false; split; [is_loc0 | is_source0] | exists true; split; [is_loc0 | is_source0]].
Qed.

Lemma linked0 r : result0 = Ok r -> mips_linked frame0 (compiler_ r).
Proof.
  intros E; assert (object_pool_ (pool_ (compiler_ r)) = [mkObject 0x5001 false]) as Ep.
  { vm_compute in E; injection E as <-; reflexivity. }
  split; rewrite Ep; [vm_compute; reflexivity |]; intros [| i] o Hi; [| done]; injection Hi as <-.
  split; [| vm_compute; reflexivity].
  split_and!; [vm_compute; intuition congruence | |].
  - intros i Hi; assert (i = 0 \/ i = 1 \/ i = 2 \/ i = 3) as [-> | [-> | [-> | ->]]] by lia;
      vm_compute; eauto.
  - intros i Hi Hw%writable0.
    change (0x30000 <= 0x3100c + i < 0x30040) in Hw; lia.
Qed.

Ltac moved H :=
  etransitivity; [apply H; [unfold moves0; rewrite !elem_of_cons; tauto | is_loc0] | vm_compute; reflexivity].

Lemma parallel_move_runs_witness :
  exists r s', result0 = Ok r /\ steps host0 14 state0 = Ok s' /\
    mips_read frame0 s' (reg_loc 2) = 11 /\ mips_read frame0 s' slot0 = 22 /\
    mips_read frame0 s' slot1 = 33 /\ mips_read frame0 s' (fpu_loc 0) = 4294967297 /\
    mips_read frame0 s' dslot3 = 0 /\ mips_read frame0 s' (reg_loc 3) = 0x5001 /\
    mips_read frame0 s' (reg_loc 5) = 84.
Proof.
  destruct (parallel_move_runs frame0 frame0_ok moves0 (mkResolver compiler0 []))
    as (r & E & _ & _ & Hrun).
  - reflexivity.
  - split; [reflexivity | constructor; [reflexivity | reflexivity |]].
    intros x i Hx; cbn in Hx; rewrite lookup_empty in Hx; discriminate Hx.
  - exact moves0_ok.
  - assert (result0 = Ok r) as E0 by (unfold result0; exact E); clear E.
    pose proof (linked0 r E0) as Hl.
    assert (emitted_words compiler0 (compiler_ r) = code0) as Ew by (unfold code0; rewrite E0; reflexivity).
    cbn zeta in Hrun; cbn [compiler_] in Hrun; rewrite Ew in Hrun.
    destruct (Hrun host0 state0 Hl base0 eq_refl state0_loaded) as (s' & Hs & _ & _ & _ & Hd & _).
    exists r, s'; split_and!; [exact E0 | exact Hs | | | | | | |].
    + moved (Hd (mkMove (reg_loc 2) slot0) false).
    + moved (Hd (mkMove slot0 slot1) false).
    + moved (Hd (mkMove slot1 (reg_loc 2)) false).
    + moved (Hd (mkMove (fpu_loc 0) dslot3) true).
    + moved (Hd (mkMove dslot3 (fpu_loc 0)) true).
    + moved (Hd (mkMove (reg_loc 3) 0x101) false).
    + moved (Hd (mkMove (reg_loc 5) 0x201) false).
Defined.

(** * Slots with different base registers *)
(** [slot0] is at FP - 8, [sp_slot3] at SP + 12; the registers 3 and 5 are scratch. *)
Definition sp_slot3 : Z := loc0 (Location.StackSlot 3 SP).
Definition sp_moves : list MoveOperands :=
  [mkMove slot0 sp_slot3; mkMove sp_slot3 slot0; mkMove (reg_loc 3) 0x201; mkMove (reg_loc 5) 0x201].

Definition swap_result : outcome resolver := EmitSwap 0 (mkResolver compiler0 sp_moves).
Definition swap_code : list Z :=
  match swap_result with Ok r => emitted_words compiler0 (compiler_ r) | Err _ => [] end.

(** 11 is in [slot0] at 0x30038, 22 in [sp_slot3] at 0x30014. *)
Definition swap_state : Simulator :=
  started (mem_of 0x30000 [0; 0; 0; 0; 0; 22; 0; 0; 0; 0; 0; 0; 0; 0; 11; 0; 0; 0; 0; 0] ∪
           mem_of 0x20000 swap_code) 0x20000 [(FP, 0x30040); (SP, 0x30008)].

(** C38. A swap of two stack slots that have different base registers does not exchange
    them on MIPS: [Exchange] stores each word at the base register of its own slot with
    the offset of the other one.  For a slot at FP - 8 and one at SP + 12 the resolver
    then takes the swap as done and the moves as satisfied, but after the emitted code
    both slots hold what they held before, and the words were stored at FP + 12 and
    SP - 8, which belong to neither. *)
Theorem exchange_slots_wrong_base :
  exists r s', EmitSwap 0 (mkResolver compiler0 sp_moves) = Ok r /\
    moves_ r !! 1%nat = Some (mkMove sp_slot3 sp_slot3) /\
    emitted_words compiler0 (compiler_ r) = swap_code /\
    steps host0 (length swap_code) swap_state = Ok s' /\
    (peek 0x30038 swap_state = 11 /\ peek 0x30014 swap_state = 22) /\
    (peek 0x30038 s' = 11 /\ peek 0x30014 s' = 22) /\
    peek (0x30040 + 12) s' = 11 /\ peek (0x30008 - 8) s' = 22.
Proof.
  destruct (EmitSwap 0 (mkResolver compiler0 sp_moves)) as [r |] eqn:E; [| vm_compute in E; discriminate E].
  assert (swap_result = Ok r) as E0 by (unfold swap_result; exact E).
  destruct (steps host0 (length swap_code) swap_state) as [s' |] eqn:Es; [| vm_compute in Es; discriminate Es].
  assert (moves_ r !! 1%nat = Some (mkMove sp_slot3 sp_slot3)) as Em
    by (vm_compute in E; injection E as <-; vm_compute; reflexivity).
  assert (forall a, In a [0x30038; 0x30014; 0x3004c; 0x30000] ->
    peek a s' = if (a =? 0x30014) || (a =? 0x30000) then 22 else 11) as Hp.
  { vm_compute in Es; injection Es as <-.
    intros a [<- | [<- | [<- | [<- | []]]]]; vm_compute; reflexivity. }
  exists r, s'; split_and!; [done | done | unfold swap_code; rewrite E0; done | done | | | | | |].
  1-2: vm_compute; reflexivity.
  all: apply Hp; cbn; tauto.
Qed.
