(* ===== verification/BitSet.v ===== *)
(** The fixed length bit sets of [vm/bit_set.h].

    [data_] is a list of [uword]s.  [N] is the template parameter. *)
From stdpp Require Import base numbers list.
From Stdlib Require Import ZArith Lia.
From S2P Require Import Prelude Utils.
#[local] Open Scope Z_scope.

Module BitSet.
Section BitSet.
Context `{Word} (N : Z).

Definition kLengthInWords : Z := 1 + Z.quot (N - 1) kBitsPerWord.

Definition word (data_ : list Z) (w : Z) : Z := nth (Z.to_nat w) data_ 0.
Definition set_word (data_ : list Z) (w v : Z) : list Z := <[Z.to_nat w := v]> data_.

(** [static_cast<uword>(1) << (i & (kBitsPerWord - 1))]. *)
Definition bit_mask (i : Z) : Z := to_u kBitsPerWord (Z.shiftl 1 (Z.land i (kBitsPerWord - 1))).

Definition in_bounds (i : Z) : bool := (i >=? 0) && (i <? N).

Definition Set_ (data_ : list Z) (i : Z) (value : bool) : outcome (list Z) :=
  ASSERT in_bounds i ;;
  let mask := bit_mask i in
  let w := Z.shiftr i kBitsPerWordLog2 in
  Ok (set_word data_ w
        (if value then Z.lor (word data_ w) mask
         else Z.land (word data_ w) (to_u kBitsPerWord (Z.lnot mask)))).

Definition Test (data_ : list Z) (i : Z) : outcome bool :=
  ASSERT in_bounds i ;;
  Ok (negb (Z.land (word data_ (Z.shiftr i kBitsPerWordLog2)) (bit_mask i) =? 0)).

(** [while (++w < kLengthInWords) ...]. *)
Fixpoint next_loop (fuel : nat) (data_ : list Z) (w : Z) : outcome Z :=
  match fuel with
  | O => Err OutOfFuel
  | S fuel =>
    let w := w + 1 in
    if w <? kLengthInWords then
      if negb (word data_ w =? 0)
      then Ok (Z.shiftl w kBitsPerWordLog2 + CountTrailingZeros (word data_ w))
      else next_loop fuel data_ w
    else Ok (-1)
  end.

Definition Next (data_ : list Z) (i : Z) : outcome Z :=
  ASSERT in_bounds i ;;
  let w := Z.shiftr i kBitsPerWordLog2 in
  let mask := to_u kBitsPerWord
                (Z.shiftl (to_u kBitsPerWord (Z.lnot 0)) (Z.land i (kBitsPerWord - 1))) in
  let d := Z.land (word data_ w) mask in
  if negb (d =? 0) then Ok (Z.shiftl w kBitsPerWordLog2 + CountTrailingZeros d)
  else next_loop (S (length data_)) data_ w.

(** [((w + 1) << kBitsPerWordLog2) - CountLeadingZeros(bits) - 1]. *)
Definition last_bit (w bits : Z) : Z :=
  Z.shiftl (w + 1) kBitsPerWordLog2 - CountLeadingZeros bits - 1.

(** [for (int w = kLengthInWords - 1; w >= 0; --w) ...]; [n] is [w + 1]. *)
Fixpoint last_loop (data_ : list Z) (n : nat) : Z :=
  match n with
  | O => -1
  | S w =>
    let d := word data_ (Z.of_nat w) in
    if negb (d =? 0) then last_bit (Z.of_nat w) d else last_loop data_ w
  end.

Definition Last (data_ : list Z) : Z := last_loop data_ (Z.to_nat kLengthInWords).

(** [while (bits == 0 && w > 0) bits = data_[--w];]: the last [w] and [bits]. *)
Fixpoint previous_loop (data_ : list Z) (bits : Z) (w : nat) : Z * Z :=
  match w with
  | O => (bits, 0)
  | S w' =>
    if bits =? 0 then previous_loop data_ (word data_ (Z.of_nat w')) w'
    else (bits, Z.of_nat w)
  end.

Definition ClearLastAndFindPrevious (data_ : list Z) (current_last : Z) : outcome (list Z * Z) :=
  let* t := Test data_ current_last in
  ASSERT t ;;
  ASSERT (Last data_ =? current_last) ;;
  let w := Z.shiftr current_last kBitsPerWordLog2 in
  let bits := Z.lxor (word data_ w) (bit_mask current_last) in
  let data_ := set_word data_ w bits in
  let '(bits, w) := previous_loop data_ bits (Z.to_nat w) in
  Ok (data_, if bits =? 0 then -1 else last_bit w bits).

Definition Reset : list Z := replicate (Z.to_nat kLengthInWords) 0.

Definition Size : Z := N.
End BitSet.
End BitSet.
