(* ===== verification/BitSetProofs.v ===== *)
(** The bit sets of [vm/bit_set.h] implement sets of numbers: [bit] tells the members,
    and the searches find the next and the last one. *)
From stdpp Require Import base numbers list.
From Stdlib Require Import ZArith Lia Bool.
From S2P Require Import Prelude Utils BitSet.
Import BitSet.
#[local] Open Scope Z_scope.

(** The numbers of an unsigned type, by their bits. *)
Lemma testbit_in_u_high w v k : 0 <= w -> in_u w v -> w <= k -> Z.testbit v k = false.
Proof.
  intros Hw Hv Hk; rewrite <- (to_u_id w v Hv), testbit_to_u by done.
  destruct (Z.ltb_spec k w); [lia | done].
Qed.

Lemma in_u_of_high w v : 0 <= w -> (forall k, w <= k -> Z.testbit v k = false) -> in_u w v.
Proof.
  intros Hw Hv; replace v with (to_u w v); [apply to_u_range; done |].
  apply Z.bits_inj'; intros k Hk; rewrite testbit_to_u by done.
  destruct (Z.ltb_spec k w); [done | rewrite Hv; done].
Qed.

Section Words.
Context `{Word}.

Lemma word_pos : 0 < kBitsPerWord.
Proof. destruct word_width as [-> | ->]; lia. Qed.

Lemma word_log2 : 2 ^ kBitsPerWordLog2 = kBitsPerWord.
Proof. unfold kBitsPerWordLog2, kWordSizeLog2; destruct word_width as [-> | ->]; done. Qed.

Lemma word_log2_pos : 0 <= kBitsPerWordLog2.
Proof. unfold kBitsPerWordLog2, kWordSizeLog2; case_match; lia. Qed.

Lemma shiftr_word i : Z.shiftr i kBitsPerWordLog2 = i / kBitsPerWord.
Proof. rewrite Z.shiftr_div_pow2, word_log2 by apply word_log2_pos; done. Qed.

Lemma shiftl_word i : Z.shiftl i kBitsPerWordLog2 = i * kBitsPerWord.
Proof. rewrite Z.shiftl_mul_pow2, word_log2 by apply word_log2_pos; done. Qed.

Lemma land_word i : Z.land i (kBitsPerWord - 1) = i mod kBitsPerWord.
Proof.
  rewrite <- word_log2 at 1; rewrite <- word_log2 at 1.
  replace (2 ^ kBitsPerWordLog2 - 1) with (Z.ones kBitsPerWordLog2) by (rewrite Z.ones_equiv; lia).
  apply Z.land_ones, word_log2_pos.
Qed.

Lemma word_mod i : 0 <= i mod kBitsPerWord < kBitsPerWord.
Proof. apply Z.mod_pos_bound, word_pos. Qed.

Lemma bit_mask_spec i j :
  0 <= j -> Z.testbit (bit_mask i) j = (j =? i mod kBitsPerWord).
Proof.
  intros Hj; pose proof (word_mod i); unfold bit_mask; rewrite land_word, Z.shiftl_1_l.
  rewrite testbit_to_u by (pose proof word_pos; lia); rewrite Z.pow2_bits_eqb by lia.
  rewrite (Z.eqb_sym j); destruct (Z.eqb_spec (i mod kBitsPerWord) j) as [<- |]; [| apply andb_false_r].
  rewrite andb_true_r; apply Z.ltb_lt; lia.
Qed.

(** The position of the lowest bit of a number. *)
Lemma trailing_zeros_spec p :
  0 <= trailing_zeros p /\ Z.testbit (Zpos p) (trailing_zeros p) = true /\
  forall j, 0 <= j < trailing_zeros p -> Z.testbit (Zpos p) j = false.
Proof.
  induction p as [p _ | p (H0 & Ht & Hl) |]; cbn [trailing_zeros]; try (split_and!; [lia | done | lia]).
  rewrite Pos2Z.inj_xO; split_and!; [lia | |].
  - rewrite Z.add_1_l, Z.testbit_even_succ by lia; done.
  - intros j Hj; destruct (decide (j = 0)) as [-> |]; [apply Z.testbit_even_0 |].
    replace j with (Z.succ (j - 1)) by lia; rewrite Z.testbit_even_succ by lia; apply Hl; lia.
Qed.

Lemma CountTrailingZeros_spec d :
  in_u kBitsPerWord d -> d <> 0 ->
  0 <= CountTrailingZeros d < kBitsPerWord /\ Z.testbit d (CountTrailingZeros d) = true /\
  forall j, 0 <= j < CountTrailingZeros d -> Z.testbit d j = false.
Proof.
  intros Hd H0; destruct d as [| p | p]; [done | | unfold in_u in Hd; lia].
  destruct (trailing_zeros_spec p) as (Hp & Ht & Hl); split_and!; [done | | done | done].
  destruct (Z.lt_ge_cases (trailing_zeros p) kBitsPerWord); [done |].
  rewrite (testbit_in_u_high kBitsPerWord) in Ht by (done || pose proof word_pos; lia); done.
Qed.

Lemma last_bit_spec w d :
  in_u kBitsPerWord d -> d <> 0 ->
  exists k, last_bit w d = w * kBitsPerWord + k /\ 0 <= k < kBitsPerWord /\ Z.testbit d k = true /\
    forall j, k < j -> Z.testbit d j = false.
Proof.
  intros [Hd Hd'] H0; exists (Z.log2 d).
  pose proof (Z.log2_nonneg d); assert (Z.log2 d < kBitsPerWord) by (apply Z.log2_lt_pow2; lia).
  unfold last_bit, CountLeadingZeros; rewrite shiftl_word; split_and!; [lia | done | done | |].
  - apply Z.bit_log2; lia.
  - intros; apply Z.bits_above_log2; lia.
Qed.
End Words.

Section Sets.
Context `{Word} (N : Z) (HN : 0 < N).

(** The members of the set. *)
Definition bit (data_ : list Z) (i : Z) : bool :=
  Z.testbit (word data_ (i / kBitsPerWord)) (i mod kBitsPerWord).

Record set_ok (data_ : list Z) : Prop := mk_set_ok {
  so_length : Z.of_nat (length data_) = kLengthInWords N;
  so_words : forall w, in_u kBitsPerWord (word data_ w);
  so_high : forall i, N <= i -> bit data_ i = false
}.

Lemma length_in_words : kLengthInWords N = 1 + (N - 1) / kBitsPerWord.
Proof. unfold kLengthInWords; rewrite Z.quot_div_nonneg; pose proof word_pos; lia. Qed.

Lemma word_in_length i : 0 <= i < N -> 0 <= i / kBitsPerWord < kLengthInWords N.
Proof.
  intros Hi; rewrite length_in_words; pose proof word_pos.
  pose proof (Z.div_pos i kBitsPerWord); pose proof (Z.div_le_mono i (N - 1) kBitsPerWord); lia.
Qed.

Lemma bounds_ok i : 0 <= i < N -> in_bounds N i = true.
Proof. intros; unfold in_bounds; apply andb_true_iff; split; [apply Z.geb_le | apply Z.ltb_lt]; lia. Qed.

(** The bits of the word [w]. *)
Lemma bit_word data_ w k : 0 <= k < kBitsPerWord -> bit data_ (w * kBitsPerWord + k) = Z.testbit (word data_ w) k.
Proof.
  intros Hk; unfold bit; pose proof word_pos.
  rewrite Z.div_add_l, Z.div_small, Z.add_0_r by lia.
  rewrite Z.add_comm, Z.mod_add, Z.mod_small by lia; done.
Qed.

Lemma split_index i : i = i / kBitsPerWord * kBitsPerWord + i mod kBitsPerWord.
Proof. pose proof word_pos; rewrite Z.mul_comm; apply Z.div_mod; lia. Qed.

Lemma word_zero data_ w j : word data_ w = 0 -> j / kBitsPerWord = w -> bit data_ j = false.
Proof. intros Hw <-; unfold bit; rewrite Hw; apply Z.testbit_0_l. Qed.

Lemma word_set data_ w w' v :
  0 <= w < Z.of_nat (length data_) -> 0 <= w' ->
  word (set_word data_ w v) w' = if w' =? w then v else word data_ w'.
Proof.
  intros Hw Hw'; unfold word, set_word; rewrite !nth_lookup.
  destruct (Z.eqb_spec w' w) as [-> |]; [rewrite list_lookup_insert_eq by lia; done |].
  rewrite list_lookup_insert_ne by lia; done.
Qed.

Lemma Test_ok data_ i : 0 <= i < N -> Test N data_ i = Ok (bit data_ i).
Proof.
  intros Hi; unfold Test; rewrite bounds_ok, shiftr_word by done; f_equal; unfold bit.
  pose proof (word_mod i); set (d := word _ _); destruct (Z.testbit d (i mod kBitsPerWord)) eqn:E.
  - apply negb_true_iff, Z.eqb_neq; intros E0.
    apply (f_equal (fun x => Z.testbit x (i mod kBitsPerWord))) in E0.
    rewrite Z.land_spec, bit_mask_spec, E, Z.eqb_refl, Z.bits_0 in E0 by lia; done.
  - apply negb_false_iff, Z.eqb_eq, Z.bits_inj'; intros j Hj.
    rewrite Z.land_spec, bit_mask_spec, Z.bits_0 by lia.
    destruct (Z.eqb_spec j (i mod kBitsPerWord)) as [-> |]; [rewrite E; done | apply andb_false_r].
Qed.

(** Replacing the word of [i] by one that differs in the bit of [i] only. *)
Lemma replace_bits data_ i v b :
  (forall w, in_u kBitsPerWord (word data_ w)) -> 0 <= i ->
  i / kBitsPerWord < Z.of_nat (length data_) -> in_u kBitsPerWord v ->
  (forall k, 0 <= k < kBitsPerWord ->
     Z.testbit v k = if k =? i mod kBitsPerWord then b else Z.testbit (word data_ (i / kBitsPerWord)) k) ->
  (forall w, in_u kBitsPerWord (word (set_word data_ (i / kBitsPerWord) v) w)) /\
  forall j, 0 <= j -> bit (set_word data_ (i / kBitsPerWord) v) j = if j =? i then b else bit data_ j.
Proof.
  intros Hw Hi Hlen Hv Hb; pose proof word_pos.
  assert (0 <= i / kBitsPerWord) by (apply Z.div_pos; lia); split.
  - intros w; destruct (Z.le_gt_cases 0 w).
    + rewrite word_set by lia; case_match; done.
    + unfold word; replace (Z.to_nat w) with (Z.to_nat 0) by lia.
      fold (word (set_word data_ (i / kBitsPerWord) v) 0); rewrite word_set by lia; case_match; done.
  - intros j Hj; unfold bit; rewrite word_set by (try apply Z.div_pos; lia).
    pose proof (split_index i); pose proof (split_index j).
    destruct (Z.eqb_spec (j / kBitsPerWord) (i / kBitsPerWord)) as [E |].
    + rewrite Hb by apply word_mod; rewrite E.
      destruct (Z.eqb_spec (j mod kBitsPerWord) (i mod kBitsPerWord)), (Z.eqb_spec j i); congruence || lia || done.
    + destruct (Z.eqb_spec j i); congruence || done.
Qed.

Lemma replace_word data_ i v b :
  set_ok data_ -> 0 <= i < N -> in_u kBitsPerWord v ->
  (forall k, 0 <= k < kBitsPerWord ->
     Z.testbit v k = if k =? i mod kBitsPerWord then b else Z.testbit (word data_ (i / kBitsPerWord)) k) ->
  set_ok (set_word data_ (i / kBitsPerWord) v) /\
  forall j, 0 <= j -> bit (set_word data_ (i / kBitsPerWord) v) j = if j =? i then b else bit data_ j.
Proof.
  intros [Hlen Hw Hhi] Hi Hv Hb; pose proof (word_in_length i Hi) as Hr; rewrite <- Hlen in Hr.
  destruct (replace_bits data_ i v b) as [Hw' Hbit]; try done; [lia | lia |].
  split; [split |]; [| done | | done].
  - unfold set_word; rewrite length_insert; done.
  - intros j Hj; rewrite Hbit by lia; destruct (Z.eqb_spec j i); [lia | auto].
Qed.

Lemma Set_ok data_ i b :
  set_ok data_ -> 0 <= i < N ->
  returns (Set_ N data_ i b) (fun data' =>
    set_ok data' /\ forall j, 0 <= j -> bit data' j = if j =? i then b else bit data_ j).
Proof.
  intros Hok Hi; unfold Set_; rewrite bounds_ok, shiftr_word by done; apply returns_Ok.
  pose proof word_pos; pose proof (so_words _ Hok (i / kBitsPerWord)) as Hw.
  apply replace_word; [done | done | |].
  - apply in_u_of_high; [lia |]; intros k Hk.
    destruct b; rewrite ?Z.lor_spec, ?Z.land_spec, (testbit_in_u_high kBitsPerWord _ k) by (done || lia); [| done].
    rewrite bit_mask_spec by lia; apply Z.eqb_neq; pose proof (word_mod i); lia.
  - intros k Hk; destruct b.
    + rewrite Z.lor_spec, bit_mask_spec by lia; destruct (k =? _); [apply orb_true_r | apply orb_false_r].
    + rewrite Z.land_spec, testbit_to_u, Z.lnot_spec, bit_mask_spec by lia.
      rewrite (proj2 (Z.ltb_lt k _)) by lia; destruct (k =? _); [apply andb_false_r | apply andb_true_r].
Qed.

(** * Searches *)
(** [r] is the first member from [i] on, or -1 without one. *)
Definition first_from (data_ : list Z) (i r : Z) : Prop :=
  r = -1 /\ (forall j, i <= j -> bit data_ j = false) \/
  i <= r < N /\ bit data_ r = true /\ forall j, i <= j < r -> bit data_ j = false.

(** [r] is the last member, or -1 without one. *)
Definition is_last (data_ : list Z) (r : Z) : Prop :=
  r = -1 /\ (forall j, 0 <= j -> bit data_ j = false) \/
  0 <= r < N /\ bit data_ r = true /\ forall j, r < j -> bit data_ j = false.

Lemma member_bound data_ i : set_ok data_ -> bit data_ i = true -> i < N.
Proof.
  intros Hok Hi; destruct (Z.lt_ge_cases i N) as [| Hge]; [done |].
  rewrite (so_high _ Hok i Hge) in Hi; done.
Qed.

(** The words from [w] on: the first bit of [d] is the first member when [d] has the
    bits of the word [w] from [i] on. *)
Lemma found_in_word data_ i w d :
  set_ok data_ -> 0 <= i -> in_u kBitsPerWord d -> d <> 0 ->
  (forall k, 0 <= k < kBitsPerWord ->
     Z.testbit d k = (i <=? w * kBitsPerWord + k) && Z.testbit (word data_ w) k) ->
  (forall j, i <= j < w * kBitsPerWord -> bit data_ j = false) ->
  first_from data_ i (w * kBitsPerWord + CountTrailingZeros d).
Proof.
  intros Hok Hi Hd H0 Hbits Hbefore; destruct (CountTrailingZeros_spec d Hd H0) as (Hr & Ht & Hl).
  set (k := CountTrailingZeros d) in *; rewrite Hbits in Ht by done.
  apply andb_true_iff in Ht as [Hle%Z.leb_le Ht]; rewrite <- bit_word in Ht by done; right.
  split_and!; [done | apply (member_bound data_); done | done |].
  intros j Hj; destruct (Z.lt_ge_cases j (w * kBitsPerWord)); [apply Hbefore; lia |].
  replace j with (w * kBitsPerWord + (j - w * kBitsPerWord)) by lia; rewrite bit_word by lia.
  pose proof (Hl (j - w * kBitsPerWord)) as Hlj; rewrite Hbits in Hlj by lia.
  rewrite (proj2 (Z.leb_le i _)) in Hlj by lia; apply Hlj; lia.
Qed.

Lemma next_loop_ok data_ i w fuel :
  set_ok data_ -> 0 <= i -> 0 <= w -> kLengthInWords N - w <= Z.of_nat fuel -> (0 < fuel)%nat ->
  i <= (w + 1) * kBitsPerWord -> (forall j, i <= j < (w + 1) * kBitsPerWord -> bit data_ j = false) ->
  returns (next_loop N fuel data_ w) (first_from data_ i).
Proof.
  intros Hok Hi; revert w; induction fuel as [| fuel IH]; intros w Hw Hf Hf0 Hiw Hj; [lia |]; cbn [next_loop].
  pose proof word_pos.
  destruct (Z.ltb_spec (w + 1) (kLengthInWords N)).
  - destruct (Z.eqb_spec (word data_ (w + 1)) 0) as [E | E]; cbn [negb].
    + apply IH; [lia | lia | lia | lia |]; intros j Hjw.
      destruct (Z.lt_ge_cases j ((w + 1) * kBitsPerWord)); [apply Hj; lia |].
      apply (word_zero data_ (w + 1)); [done |]; symmetry; apply (Z.div_unique _ _ _ (j - (w + 1) * kBitsPerWord)); lia.
    + apply returns_Ok; rewrite shiftl_word; apply found_in_word; try done; [apply Hok |].
      intros k Hk; rewrite (proj2 (Z.leb_le i _)) by lia; done.
  - apply returns_Ok; left; split; [done |]; intros j Hij.
    destruct (Z.lt_ge_cases j ((w + 1) * kBitsPerWord)); [apply Hj; lia |].
    apply Hok; rewrite length_in_words in *.
    pose proof (Z.div_mod (N - 1) kBitsPerWord); pose proof (word_mod (N - 1)); nia.
Qed.

(** [Next] finds the first member from [i] on. *)
Lemma Next_ok data_ i : set_ok data_ -> 0 <= i < N -> returns (Next N data_ i) (first_from data_ i).
Proof.
  intros Hok Hi; unfold Next; rewrite bounds_ok, shiftr_word, land_word by done.
  pose proof word_pos; pose proof (word_mod i); pose proof (word_in_length i Hi); pose proof (split_index i).
  set (w := i / kBitsPerWord) in *; set (o := i mod kBitsPerWord) in *.
  set (d := Z.land (word data_ w) _).
  assert (forall k, 0 <= k < kBitsPerWord -> Z.testbit d k = (o <=? k) && Z.testbit (word data_ w) k) as Hd.
  { intros k Hk; unfold d; change (Z.lnot 0) with (-1).
    rewrite Z.land_spec, testbit_to_u, Z.shiftl_spec, testbit_to_u by lia.
    rewrite !(proj2 (Z.ltb_lt _ _)) by lia; rewrite andb_comm; f_equal; cbn [andb].
    destruct (Z.leb_spec o k); [apply Z.bits_m1; lia | apply Z.testbit_neg_r; lia]. }
  destruct (Z.eqb_spec d 0) as [E | E]; cbn [negb].
  - apply next_loop_ok; try done; try lia.
    + pose proof (so_length _ Hok); lia.
    + intros j Hj; replace j with (w * kBitsPerWord + (j - w * kBitsPerWord)) by lia; rewrite bit_word by lia.
      pose proof (Hd (j - w * kBitsPerWord)) as Hdj; rewrite E, Z.bits_0 in Hdj.
      rewrite (proj2 (Z.leb_le o _)) in Hdj by lia; rewrite Hdj by lia; done.
  - apply returns_Ok; rewrite shiftl_word; apply found_in_word; try done; try lia.
    + apply in_u_of_high; [lia |]; intros k Hk; unfold d.
      rewrite Z.land_spec, (testbit_in_u_high kBitsPerWord) by (lia || apply Hok); done.
    + intros k Hk; rewrite Hd by done; f_equal.
      destruct (Z.leb_spec o k), (Z.leb_spec i (w * kBitsPerWord + k)); done || lia.
Qed.

(** The members up to the word [w] that is zero are those before it. *)
Lemma last_in_word data_ w d :
  set_ok data_ -> 0 <= w -> word data_ w = d -> d <> 0 ->
  (forall j, (w + 1) * kBitsPerWord <= j -> bit data_ j = false) -> is_last data_ (last_bit w d).
Proof.
  intros Hok Hw <- H0 Hafter; pose proof word_pos.
  destruct (last_bit_spec w (word data_ w) (so_words _ Hok w) H0) as (k & -> & Hk & Ht & Hl); right.
  rewrite <- bit_word in Ht by done; split_and!; [nia | apply (member_bound data_); done | done |].
  intros j Hj; destruct (Z.lt_ge_cases j ((w + 1) * kBitsPerWord)); [| auto].
  replace j with (w * kBitsPerWord + (j - w * kBitsPerWord)) by lia; rewrite bit_word by lia; apply Hl; lia.
Qed.

Lemma zero_word_after data_ w :
  word data_ w = 0 -> (forall j, (w + 1) * kBitsPerWord <= j -> bit data_ j = false) ->
  forall j, w * kBitsPerWord <= j -> bit data_ j = false.
Proof.
  intros Hz Hafter j Hj; destruct (Z.lt_ge_cases j ((w + 1) * kBitsPerWord)); [| auto].
  apply (word_zero data_ w); [done |]; symmetry; apply (Z.div_unique _ _ _ (j - w * kBitsPerWord)); lia.
Qed.

Lemma last_loop_ok data_ n :
  set_ok data_ -> (forall j, Z.of_nat n * kBitsPerWord <= j -> bit data_ j = false) ->
  is_last data_ (last_loop data_ n).
Proof.
  intros Hok; induction n as [| n IH]; intros Hafter; cbn [last_loop].
  - left; split; [done |]; intros j Hj; apply Hafter; lia.
  - replace (Z.of_nat (S n)) with (Z.of_nat n + 1) in Hafter by lia.
    destruct (Z.eqb_spec (word data_ (Z.of_nat n)) 0); cbn [negb].
    + apply IH, zero_word_after; done.
    + apply last_in_word; try done; lia.
Qed.

Lemma Last_ok data_ : set_ok data_ -> is_last data_ (Last N data_).
Proof.
  intros Hok; apply last_loop_ok; [done |]; intros j Hj; apply Hok.
  rewrite Z2Nat.id, length_in_words in Hj by (rewrite length_in_words; pose proof (Z.div_pos (N - 1) kBitsPerWord); pose proof word_pos; lia).
  pose proof (Z.div_mod (N - 1) kBitsPerWord); pose proof (word_mod (N - 1)); pose proof word_pos; nia.
Qed.

Lemma is_last_unique data_ r r' : is_last data_ r -> is_last data_ r' -> r = r'.
Proof.
  intros [[-> H1] | (? & H1 & H1')] [[-> H2] | (? & H2 & H2')]; [done | | |].
  - rewrite H1 in H2 by lia; done.
  - rewrite H2 in H1 by lia; done.
  - destruct (Z.lt_trichotomy r r') as [Hlt | [| Hlt]]; [| done |].
    + rewrite H1' in H2 by lia; done.
    + rewrite H2' in H1 by lia; done.
Qed.

Lemma previous_loop_ok data_ w :
  set_ok data_ -> (forall j, (Z.of_nat w + 1) * kBitsPerWord <= j -> bit data_ j = false) ->
  let '(bits, w') := previous_loop data_ (word data_ (Z.of_nat w)) w in
  is_last data_ (if bits =? 0 then -1 else last_bit w' bits).
Proof.
  intros Hok; induction w as [| w IH]; intros Hafter; cbn [previous_loop].
  - destruct (Z.eqb_spec (word data_ (Z.of_nat 0)) 0) as [E |]; [| apply last_in_word; done || lia].
    left; split; [done |]; intros j Hj; apply (zero_word_after data_ 0); done || lia.
  - destruct (Z.eqb_spec (word data_ (Z.of_nat (S w))) 0) as [E | E].
    + apply IH; intros j Hj; apply (zero_word_after data_ (Z.of_nat (S w))); done || lia.
    + rewrite (proj2 (Z.eqb_neq _ _) E); apply last_in_word; done || lia.
Qed.

(** [ClearLastAndFindPrevious] removes the last member and finds the one before. *)
Lemma ClearLast_ok data_ i :
  set_ok data_ -> is_last data_ i -> 0 <= i ->
  returns (ClearLastAndFindPrevious N data_ i) (fun '(data', r) =>
    set_ok data' /\ is_last data' r /\
    forall j, 0 <= j -> bit data' j = if j =? i then false else bit data_ j).
Proof.
  intros Hok Hlast Hi; unfold ClearLastAndFindPrevious.
  destruct (Hlast) as [[-> _] | (Hr & Ht & Hl)]; [lia |].
  rewrite Test_ok, Ht by done; cbn [obind].
  rewrite (is_last_unique data_ (Last N data_) i), Z.eqb_refl by (done || apply Last_ok; done).
  rewrite shiftr_word; pose proof word_pos; pose proof (word_in_length i Hr) as Hw.
  set (w := i / kBitsPerWord) in *; set (v := Z.lxor _ _).
  destruct (replace_word data_ i v false) as [Hok' Hbit]; [done | done | | |].
  - apply in_u_of_high; [lia |]; intros k Hk; unfold v.
    rewrite Z.lxor_spec, (testbit_in_u_high kBitsPerWord), bit_mask_spec by (lia || apply Hok).
    rewrite (proj2 (Z.eqb_neq _ _)) by (pose proof (word_mod i); lia); done.
  - intros k Hk; unfold v; rewrite Z.lxor_spec, bit_mask_spec by lia; fold w.
    destruct (Z.eqb_spec k (i mod kBitsPerWord)) as [-> |]; [| apply xorb_false_r].
    unfold bit in Ht; fold w in Ht; rewrite Ht; done.
  - fold w in Hok', Hbit; pose proof (previous_loop_ok (set_word data_ w v) (Z.to_nat w) Hok') as Hp.
    rewrite Z2Nat.id, word_set, Z.eqb_refl in Hp by (rewrite ?(so_length _ Hok); lia).
    destruct (previous_loop _ v _) as [bits w'].
    apply returns_Ok; split_and!; [done | | done]; apply Hp; intros j Hj.
    pose proof (split_index i) as Hs; pose proof (word_mod i); fold w in Hs.
    rewrite Hbit by nia; destruct (Z.eqb_spec j i); [done | apply Hl; lia].
Qed.

Lemma Reset_ok : set_ok (Reset N) /\ forall i, bit (Reset N) i = false.
Proof.
  assert (forall w, word (Reset N) w = 0) as Hw.
  { intros w; unfold word, Reset; rewrite nth_lookup; destruct (_ !! _) as [z |] eqn:E; [| done].
    apply lookup_replicate in E as [-> _]; done. }
  assert (forall i, bit (Reset N) i = false) by (intros; unfold bit; rewrite Hw; apply Z.testbit_0_l).
  split; [split |]; [| | auto | done].
  - unfold Reset; rewrite length_replicate, Z2Nat.id; [done |]; rewrite length_in_words.
    pose proof (Z.div_pos (N - 1) kBitsPerWord); pose proof word_pos; lia.
  - intros w; rewrite Hw; split; [done | apply pow2_pos; pose proof word_pos; lia].
Qed.
End Sets.
