(* ===== verification/Token.v ===== *)
(** Tokens ([vm/token.h], [vm/token.cc]): the kinds with their strings, precedences and
    attributes, and the predicates on kinds.  A character is its code. *)
From stdpp Require Import base numbers list.
From Stdlib Require Import ZArith Lia Bool String Ascii.
From S2P Require Import Prelude.
#[local] Open Scope Z_scope.

(** The characters of a C string. *)
Fixpoint chars (s : string) : list Z :=
  match s with
  | EmptyString => []
  | String c s => Z.of_nat (nat_of_ascii c) :: chars s
  end.

Module Token.

(** The rows of [DART_TOKEN_LIST] and then of [DART_KEYWORD_LIST]. *)
Inductive Kind : Type :=
| kEOS | kLPAREN | kRPAREN | kLBRACK | kRBRACK | kLBRACE | kRBRACE | kARROW | kCOLON
| kSEMICOLON | kPERIOD | kINCR | kDECR | kASSIGN | kASSIGN_OR | kASSIGN_XOR | kASSIGN_AND
| kASSIGN_SHL | kASSIGN_SHR | kASSIGN_ADD | kASSIGN_SUB | kASSIGN_MUL | kASSIGN_TRUNCDIV
| kASSIGN_DIV | kASSIGN_MOD | kCASCADE | kCOMMA | kOR | kAND | kBIT_OR | kBIT_XOR
| kBIT_AND | kBIT_NOT | kSHL | kSHR | kADD | kSUB | kMUL | kDIV | kTRUNCDIV | kMOD | kNOT
| kCONDITIONAL | kEQ | kNE | kEQ_STRICT | kNE_STRICT | kLT | kGT | kLTE | kGTE | kISNOT
| kINDEX | kASSIGN_INDEX | kNEGATE | kIDENT | kSTRING | kINTEGER | kDOUBLE | kINTERPOL_VAR
| kINTERPOL_START | kINTERPOL_END | kAT | kHASH | kNEWLINE | kWHITESP | kERROR | kILLEGAL
| kSCRIPTTAG | kREM | kABSTRACT | kAS | kASSERT | kBREAK | kCASE | kCATCH | kCLASS | kCONST
| kCONTINUE | kDEFAULT | kDO | kELSE | kENUM | kEXPORT | kEXTENDS | kEXTERNAL | kFACTORY
| kFALSE | kFINAL | kFINALLY | kFOR | kGET | kIF | kIMPLEMENTS | kIMPORT | kIN | kIS
| kLIBRARY | kNEW | kNULL | kOPERATOR | kPART | kRETHROW | kRETURN | kSET | kSTATIC
| kSUPER | kSWITCH | kTHIS | kTHROW | kTRUE | kTRY | kTYPEDEF | kVAR | kVOID | kWHILE
| kWITH.

Inductive Attribute : Type := kNoAttribute | kKeyword | kPseudoKeyword.

(** The kinds in their order. *)
Definition kinds : list Kind :=
  [kEOS; kLPAREN; kRPAREN; kLBRACK; kRBRACK; kLBRACE; kRBRACE; kARROW; kCOLON; kSEMICOLON;
   kPERIOD; kINCR; kDECR; kASSIGN; kASSIGN_OR; kASSIGN_XOR; kASSIGN_AND; kASSIGN_SHL;
   kASSIGN_SHR; kASSIGN_ADD; kASSIGN_SUB; kASSIGN_MUL; kASSIGN_TRUNCDIV; kASSIGN_DIV;
   kASSIGN_MOD; kCASCADE; kCOMMA; kOR; kAND; kBIT_OR; kBIT_XOR; kBIT_AND; kBIT_NOT; kSHL;
   kSHR; kADD; kSUB; kMUL; kDIV; kTRUNCDIV; kMOD; kNOT; kCONDITIONAL; kEQ; kNE; kEQ_STRICT;
   kNE_STRICT; kLT; kGT; kLTE; kGTE; kISNOT; kINDEX; kASSIGN_INDEX; kNEGATE; kIDENT;
   kSTRING; kINTEGER; kDOUBLE; kINTERPOL_VAR; kINTERPOL_START; kINTERPOL_END; kAT; kHASH;
   kNEWLINE; kWHITESP; kERROR; kILLEGAL; kSCRIPTTAG; kREM; kABSTRACT; kAS; kASSERT; kBREAK;
   kCASE; kCATCH; kCLASS; kCONST; kCONTINUE; kDEFAULT; kDO; kELSE; kENUM; kEXPORT;
   kEXTENDS; kEXTERNAL; kFACTORY; kFALSE; kFINAL; kFINALLY; kFOR; kGET; kIF; kIMPLEMENTS;
   kIMPORT; kIN; kIS; kLIBRARY; kNEW; kNULL; kOPERATOR; kPART; kRETHROW; kRETURN; kSET;
   kSTATIC; kSUPER; kSWITCH; kTHIS; kTHROW; kTRUE; kTRY; kTYPEDEF; kVAR; kVOID; kWHILE;
   kWITH].

(** The value of a kind in the enumeration. *)
Definition value (tok : Kind) : Z :=
  match tok with
  | kEOS => 0 | kLPAREN => 1 | kRPAREN => 2 | kLBRACK => 3 | kRBRACK => 4 | kLBRACE => 5
  | kRBRACE => 6 | kARROW => 7 | kCOLON => 8 | kSEMICOLON => 9 | kPERIOD => 10
  | kINCR => 11 | kDECR => 12 | kASSIGN => 13 | kASSIGN_OR => 14 | kASSIGN_XOR => 15
  | kASSIGN_AND => 16 | kASSIGN_SHL => 17 | kASSIGN_SHR => 18 | kASSIGN_ADD => 19
  | kASSIGN_SUB => 20 | kASSIGN_MUL => 21 | kASSIGN_TRUNCDIV => 22 | kASSIGN_DIV => 23
  | kASSIGN_MOD => 24 | kCASCADE => 25 | kCOMMA => 26 | kOR => 27 | kAND => 28
  | kBIT_OR => 29 | kBIT_XOR => 30 | kBIT_AND => 31 | kBIT_NOT => 32 | kSHL => 33
  | kSHR => 34 | kADD => 35 | kSUB => 36 | kMUL => 37 | kDIV => 38 | kTRUNCDIV => 39
  | kMOD => 40 | kNOT => 41 | kCONDITIONAL => 42 | kEQ => 43 | kNE => 44 | kEQ_STRICT => 45
  | kNE_STRICT => 46 | kLT => 47 | kGT => 48 | kLTE => 49 | kGTE => 50 | kISNOT => 51
  | kINDEX => 52 | kASSIGN_INDEX => 53 | kNEGATE => 54 | kIDENT => 55 | kSTRING => 56
  | kINTEGER => 57 | kDOUBLE => 58 | kINTERPOL_VAR => 59 | kINTERPOL_START => 60
  | kINTERPOL_END => 61 | kAT => 62 | kHASH => 63 | kNEWLINE => 64 | kWHITESP => 65
  | kERROR => 66 | kILLEGAL => 67 | kSCRIPTTAG => 68 | kREM => 69 | kABSTRACT => 70
  | kAS => 71 | kASSERT => 72 | kBREAK => 73 | kCASE => 74 | kCATCH => 75 | kCLASS => 76
  | kCONST => 77 | kCONTINUE => 78 | kDEFAULT => 79 | kDO => 80 | kELSE => 81 | kENUM => 82
  | kEXPORT => 83 | kEXTENDS => 84 | kEXTERNAL => 85 | kFACTORY => 86 | kFALSE => 87
  | kFINAL => 88 | kFINALLY => 89 | kFOR => 90 | kGET => 91 | kIF => 92 | kIMPLEMENTS => 93
  | kIMPORT => 94 | kIN => 95 | kIS => 96 | kLIBRARY => 97 | kNEW => 98 | kNULL => 99
  | kOPERATOR => 100 | kPART => 101 | kRETHROW => 102 | kRETURN => 103 | kSET => 104
  | kSTATIC => 105 | kSUPER => 106 | kSWITCH => 107 | kTHIS => 108 | kTHROW => 109
  | kTRUE => 110 | kTRY => 111 | kTYPEDEF => 112 | kVAR => 113 | kVOID => 114
  | kWHILE => 115 | kWITH => 116
  end.

Definition kNumTokens : Z := Z.of_nat (List.length kinds).

(** [static_cast<Token::Kind>] of a value below [kNumTokens]. *)
Definition of_value (v : Z) : option Kind :=
  if v <? 0 then None else kinds !! Z.to_nat v.

(** [tok_str_]. *)
Definition Str (tok : Kind) : string :=
  match tok with
  | kLPAREN => "(" | kRPAREN => ")" | kLBRACK => "[" | kRBRACK => "]" | kLBRACE => "{"
  | kRBRACE => "}" | kARROW => "=>" | kCOLON => ":" | kSEMICOLON => ";" | kPERIOD => "."
  | kINCR => "++" | kDECR => "--" | kASSIGN => "=" | kASSIGN_OR => "|="
  | kASSIGN_XOR => "^=" | kASSIGN_AND => "&=" | kASSIGN_SHL => "<<=" | kASSIGN_SHR => ">>="
  | kASSIGN_ADD => "+=" | kASSIGN_SUB => "-=" | kASSIGN_MUL => "*="
  | kASSIGN_TRUNCDIV => "~/=" | kASSIGN_DIV => "/=" | kASSIGN_MOD => "%="
  | kCASCADE => ".." | kCOMMA => "," | kOR => "||" | kAND => "&&" | kBIT_OR => "|"
  | kBIT_XOR => "^" | kBIT_AND => "&" | kBIT_NOT => "~" | kSHL => "<<" | kSHR => ">>"
  | kADD => "+" | kSUB => "-" | kMUL => "*" | kDIV => "/" | kTRUNCDIV => "~/" | kMOD => "%"
  | kNOT => "!" | kCONDITIONAL => "?" | kEQ => "==" | kNE => "!=" | kEQ_STRICT => "==="
  | kNE_STRICT => "!==" | kLT => "<" | kGT => ">" | kLTE => "<=" | kGTE => ">="
  | kINDEX => "[]" | kASSIGN_INDEX => "[]=" | kNEGATE => "unary-" | kINTERPOL_VAR => "$"
  | kINTERPOL_START => "${" | kINTERPOL_END => "}" | kAT => "@" | kHASH => "#"
  | kSCRIPTTAG => "#!" | kABSTRACT => "abstract" | kAS => "as" | kASSERT => "assert"
  | kBREAK => "break" | kCASE => "case" | kCATCH => "catch" | kCLASS => "class"
  | kCONST => "const" | kCONTINUE => "continue" | kDEFAULT => "default" | kDO => "do"
  | kELSE => "else" | kENUM => "enum" | kEXPORT => "export" | kEXTENDS => "extends"
  | kEXTERNAL => "external" | kFACTORY => "factory" | kFALSE => "false" | kFINAL => "final"
  | kFINALLY => "finally" | kFOR => "for" | kGET => "get" | kIF => "if"
  | kIMPLEMENTS => "implements" | kIMPORT => "import" | kIN => "in" | kIS => "is"
  | kLIBRARY => "library" | kNEW => "new" | kNULL => "null" | kOPERATOR => "operator"
  | kPART => "part" | kRETHROW => "rethrow" | kRETURN => "return" | kSET => "set"
  | kSTATIC => "static" | kSUPER => "super" | kSWITCH => "switch" | kTHIS => "this"
  | kTHROW => "throw" | kTRUE => "true" | kTRY => "try" | kTYPEDEF => "typedef"
  | kVAR => "var" | kVOID => "void" | kWHILE => "while" | kWITH => "with"
  | kNEWLINE => String "010" EmptyString
  | _ => EmptyString
  end.

(** [precedence_]. *)
Definition Precedence (tok : Kind) : Z :=
  match tok with
  | kCOMMA => 1
  | kASSIGN | kASSIGN_OR | kASSIGN_XOR | kASSIGN_AND | kASSIGN_SHL | kASSIGN_SHR
  | kASSIGN_ADD | kASSIGN_SUB | kASSIGN_MUL | kASSIGN_TRUNCDIV | kASSIGN_DIV | kASSIGN_MOD
  | kCASCADE => 2
  | kCONDITIONAL => 3
  | kOR => 4
  | kAND => 5
  | kEQ | kNE | kEQ_STRICT | kNE_STRICT => 6
  | kLT | kGT | kLTE | kGTE => 7
  | kBIT_OR => 8
  | kBIT_XOR => 9
  | kBIT_AND | kISNOT | kAS | kASSERT | kIS => 10
  | kSHL | kSHR => 11
  | kADD | kSUB => 12
  | kMUL | kDIV | kTRUNCDIV | kMOD => 13
  | _ => 0
  end.

(** [attributes_]. *)
Definition Attributes (tok : Kind) : Attribute :=
  match tok with
  | kABSTRACT | kAS | kEXPORT | kEXTERNAL | kFACTORY | kGET | kIMPLEMENTS | kIMPORT
  | kLIBRARY | kOPERATOR | kPART | kSET | kSTATIC | kTYPEDEF => kPseudoKeyword
  | kASSERT | kBREAK | kCASE | kCATCH | kCLASS | kCONST | kCONTINUE | kDEFAULT | kDO
  | kELSE | kENUM | kEXTENDS | kFALSE | kFINAL | kFINALLY | kFOR | kIF | kIN | kIS | kNEW
  | kNULL | kRETHROW | kRETURN | kSUPER | kSWITCH | kTHIS | kTHROW | kTRUE | kTRY | kVAR
  | kVOID | kWHILE | kWITH => kKeyword
  | _ => kNoAttribute
  end.

Definition kind_eqb (a b : Kind) : bool := value a =? value b.

Definition kFirstKeyword : Kind := kABSTRACT.
Definition kLastKeyword : Kind := kWITH.
Definition kNumKeywords : Z := value kLastKeyword - value kFirstKeyword + 1.

(** [lo <= tok && tok <= hi]. *)
Definition between (lo hi tok : Kind) : bool :=
  (value lo <=? value tok) && (value tok <=? value hi).

Definition IsAssignmentOperator (tok : Kind) : bool := between kASSIGN kASSIGN_MOD tok.
Definition IsRelationalOperator (tok : Kind) : bool := between kLT kGTE tok.
Definition IsEqualityOperator (tok : Kind) : bool := between kEQ kNE_STRICT tok.
Definition IsStrictEqualityOperator (tok : Kind) : bool :=
  kind_eqb tok kEQ_STRICT || kind_eqb tok kNE_STRICT.
Definition IsTypeTestOperator (tok : Kind) : bool := kind_eqb tok kIS || kind_eqb tok kISNOT.
Definition IsTypeCastOperator (tok : Kind) : bool := kind_eqb tok kAS.
Definition IsIndexOperator (tok : Kind) : bool := kind_eqb tok kINDEX || kind_eqb tok kASSIGN_INDEX.

Definition IsPseudoKeyword (tok : Kind) : bool :=
  match Attributes tok with kPseudoKeyword => true | _ => false end.
Definition IsKeyword (tok : Kind) : bool :=
  match Attributes tok with kKeyword => true | _ => false end.
Definition IsIdentifier (tok : Kind) : bool := kind_eqb tok kIDENT || IsPseudoKeyword tok.

Definition CanBeOverloaded (tok : Kind) : bool :=
  IsRelationalOperator tok || kind_eqb tok kEQ || between kADD kMOD tok
  || between kBIT_OR kSHR tok || kind_eqb tok kINDEX || kind_eqb tok kASSIGN_INDEX.

Definition NeedsLiteralToken (tok : Kind) : bool :=
  kind_eqb tok kINTEGER || kind_eqb tok kSTRING || kind_eqb tok kINTERPOL_VAR
  || kind_eqb tok kERROR || kind_eqb tok kDOUBLE.

Definition IsBinaryArithmeticOperator (tok : Kind) : bool :=
  match tok with
  | kADD | kSUB | kMUL | kDIV | kTRUNCDIV | kMOD | kBIT_OR | kBIT_XOR | kBIT_AND | kSHL | kSHR =>
      true
  | _ => false
  end.
Definition IsBinaryOperator (tok : Kind) : bool :=
  match tok with
  | kOR | kAND => true
  | _ => IsBinaryArithmeticOperator tok
  end.
Definition IsUnaryArithmeticOperator (tok : Kind) : bool :=
  kind_eqb tok kBIT_NOT || kind_eqb tok kNEGATE.
Definition IsUnaryOperator (tok : Kind) : bool :=
  kind_eqb tok kNOT || IsUnaryArithmeticOperator tok.

Definition NegateComparison (op : Kind) : outcome Kind :=
  match op with
  | kEQ => Ok kNE | kNE => Ok kEQ
  | kLT => Ok kGTE | kGT => Ok kLTE | kLTE => Ok kGT | kGTE => Ok kLT
  | kEQ_STRICT => Ok kNE_STRICT | kNE_STRICT => Ok kEQ_STRICT
  | kIS => Ok kISNOT | kISNOT => Ok kIS
  | _ => Err Unreachable
  end.

End Token.
Import Token.

(** * Values of kinds *)
Lemma of_value_value tok : of_value (value tok) = Some tok.
Proof. destruct tok; reflexivity. Qed.

Lemma value_inj a b : value a = value b -> a = b.
Proof.
  intros H; enough (Some a = Some b) by congruence.
  rewrite <- (of_value_value a), <- (of_value_value b), H; done.
Qed.

Lemma value_range tok : 0 <= value tok < kNumTokens.
Proof. destruct tok; vm_compute; split; congruence. Qed.

Lemma kind_eqb_spec a b : Bool.reflect (a = b) (kind_eqb a b).
Proof.
  unfold kind_eqb; destruct (Z.eqb_spec (value a) (value b)); constructor;
    [apply value_inj; done | congruence].
Qed.

#[export] Instance Kind_eq_dec : EqDecision Kind.
Proof.
  intros a b; destruct (Z.eq_dec (value a) (value b)) as [E | E];
    [left; apply value_inj, E | right; congruence].
Defined.

Lemma kind_eqb_refl a : kind_eqb a a = true.
Proof. apply Z.eqb_refl. Qed.

Lemma kind_eqb_eq a b : kind_eqb a b = true <-> a = b.
Proof. destruct (kind_eqb_spec a b); split; done. Qed.

Lemma kind_eqb_neq a b : kind_eqb a b = false <-> a <> b.
Proof. destruct (kind_eqb_spec a b); split; done. Qed.
