(* ===== verification/Scanner.v ===== *)
(** The scanner ([vm/scanner.h], [vm/scanner.cc]): source text to tokens.

    The source is the list of its UTF-16 code units, and a symbol is the list of its units,
    as symbols with equal text are one object.  The links of saved contexts are a list.
    The characters of a source are less than [2^31], so that the counters of characters,
    lines and braces, which grow at most once per character, are integers. *)
From stdpp Require Import base numbers list.
From Stdlib Require Import ZArith Lia Bool String Ascii.
From S2P Require Import Prelude Utils Unicode Token.
Import Token.
#[local] Open Scope Z_scope.

(** A character constant is written as a string of one character in [code_scope]. *)
Definition parse_code (bytes : list Byte.byte) : option Z :=
  match bytes with [b] => Some (Z.of_N (Byte.to_N b)) | _ => None end.
Definition print_code (c : Z) : option (list Byte.byte) :=
  if (32 <=? c) && (c <? 127) && negb (c =? 34)
  then option_map (fun b => [b]) (Byte.of_N (Z.to_N c)) else None.
Declare Scope code_scope.
Delimit Scope code_scope with code.
String Notation Z parse_code print_code : code_scope.

Definition kNul : Z := 0.
Definition kTab : Z := 9.
Definition kLineFeed : Z := 10.
Definition kReturn : Z := 13.
Definition kDoubleQuote : Z := 34.
Definition kBackslash : Z := 92.

(** * Tokens of the scanner *)
Record SourcePosition : Type := mkPosition { line : Z; column : Z }.

(** The text of a symbol, or the arguments of the message about an unexpected character. *)
Inductive Literal : Type :=
| Symbol (units : list Z)
| UnexpectedCharacter (utf8_char : list Z) (c : Z).

Record TokenDescriptor : Type := mkToken {
  kind : Kind;
  offset : Z;
  position : SourcePosition;
  literal : option Literal }.

Definition set_kind (k : Kind) (d : TokenDescriptor) : TokenDescriptor :=
  mkToken k (offset d) (position d) (literal d).
Definition set_literal (l : option Literal) (d : TokenDescriptor) : TokenDescriptor :=
  mkToken (kind d) (offset d) (position d) l.

(** * Symbols

    [String::FromUTF32]: the units of a string of code points. *)
Definition from_code_point (c : Z) : outcome (list Z) :=
  if IsSupplementary c then let* (lead, trail) := Utf16.Encode c in Ok [lead; trail]
  else Ok [to_u 16 c].

Fixpoint from_code_points (utf32_array : list Z) : outcome (list Z) :=
  match utf32_array with
  | [] => Ok []
  | c :: rest => let* units := from_code_point c in
                 let* more := from_code_points rest in Ok (units ++ more)
  end.

Definition FromUTF32 (utf32_array : list Z) : outcome (list Z) :=
  if forallb IsLatin1 utf32_array then Ok utf32_array else from_code_points utf32_array.

(** * Keywords *)
Record KeywordTable : Type := mkKeyword {
  keyword_kind : Kind;
  keyword_chars : list Z;
  keyword_len : Z;
  keyword_symbol : list Z }.

Definition kNumLowercaseChars : Z := 26.

(** The loop of [InitOnce] over the keywords, from number [i]. *)
Fixpoint init_keywords (i : Z) (tokens : list Kind) (offsets : list Z)
  : list KeywordTable * list Z :=
  match tokens with
  | [] => ([], offsets)
  | token :: tokens =>
      let s := chars (Str token) in
      let ch := Z.to_nat (nth 0 s 0 - "a"%code) in
      let offsets := if nth ch offsets 0 =? kNumKeywords then <[ch := i]> offsets else offsets in
      let '(table, offsets) := init_keywords (i + 1) tokens offsets in
      (mkKeyword token s (Z.of_nat (List.length s)) s :: table, offsets)
  end.

Definition InitOnce : list KeywordTable * list Z :=
  init_keywords 0
    (take (Z.to_nat kNumKeywords) (drop (Z.to_nat (value kFirstKeyword)) kinds))
    (replicate (Z.to_nat kNumLowercaseChars) kNumKeywords).

Definition keywords_ : list KeywordTable := fst InitOnce.
Definition keywords_char_offset_ : list Z := snd InitOnce.

(** * The state *)
Record ScanContext : Type := mkContext {
  context_delimiter_ : Z; context_is_multiline_ : bool; context_brace_level_ : Z }.

Record Scanner : Type := mkScanner {
  current_token_ : TokenDescriptor;
  newline_token_ : TokenDescriptor;
  empty_string_token_ : TokenDescriptor;
  lookahead_pos_ : Z;
  token_start_ : Z;
  c0_ : Z;
  newline_seen_ : bool;
  prev_token_line_ : Z;
  saved_context_ : list ScanContext;
  string_delimiter_ : Z;
  string_is_multiline_ : bool;
  brace_level_ : Z;
  c0_pos_ : SourcePosition }.

Definition set_current (d : TokenDescriptor) (s : Scanner) : Scanner :=
  mkScanner d (newline_token_ s) (empty_string_token_ s) (lookahead_pos_ s) (token_start_ s)
    (c0_ s) (newline_seen_ s) (prev_token_line_ s) (saved_context_ s) (string_delimiter_ s)
    (string_is_multiline_ s) (brace_level_ s) (c0_pos_ s).
Definition set_lookahead (pos c : Z) (seen : bool) (p : SourcePosition) (s : Scanner) : Scanner :=
  mkScanner (current_token_ s) (newline_token_ s) (empty_string_token_ s) pos (token_start_ s)
    c seen (prev_token_line_ s) (saved_context_ s) (string_delimiter_ s)
    (string_is_multiline_ s) (brace_level_ s) p.
Definition set_token_start (start : Z) (s : Scanner) : Scanner :=
  mkScanner (current_token_ s) (newline_token_ s) (empty_string_token_ s) (lookahead_pos_ s) start
    (c0_ s) (newline_seen_ s) (prev_token_line_ s) (saved_context_ s) (string_delimiter_ s)
    (string_is_multiline_ s) (brace_level_ s) (c0_pos_ s).
Definition set_newline_seen (seen : bool) (s : Scanner) : Scanner :=
  set_lookahead (lookahead_pos_ s) (c0_ s) seen (c0_pos_ s) s.
Definition set_prev_line (l : Z) (s : Scanner) : Scanner :=
  mkScanner (current_token_ s) (newline_token_ s) (empty_string_token_ s) (lookahead_pos_ s)
    (token_start_ s) (c0_ s) (newline_seen_ s) l (saved_context_ s) (string_delimiter_ s)
    (string_is_multiline_ s) (brace_level_ s) (c0_pos_ s).
Definition set_extra_tokens (newline empty : TokenDescriptor) (s : Scanner) : Scanner :=
  mkScanner (current_token_ s) newline empty (lookahead_pos_ s)
    (token_start_ s) (c0_ s) (newline_seen_ s) (prev_token_line_ s) (saved_context_ s)
    (string_delimiter_ s) (string_is_multiline_ s) (brace_level_ s) (c0_pos_ s).
Definition set_mode (contexts : list ScanContext) (delimiter : Z) (multiline : bool) (braces : Z)
  (s : Scanner) : Scanner :=
  mkScanner (current_token_ s) (newline_token_ s) (empty_string_token_ s) (lookahead_pos_ s)
    (token_start_ s) (c0_ s) (newline_seen_ s) (prev_token_line_ s) contexts delimiter multiline
    braces (c0_pos_ s).

Definition kind_is (k : Kind) (s : Scanner) : bool := kind_eqb (kind (current_token_ s)) k.
Definition with_kind (k : Kind) (s : Scanner) : Scanner :=
  set_current (set_kind k (current_token_ s)) s.
Definition with_literal (l : Literal) (s : Scanner) : Scanner :=
  set_current (set_literal (Some l) (current_token_ s)) s.

(** * Characters *)
Definition IsLetter (c : Z) : bool :=
  (("A"%code <=? c) && (c <=? "Z"%code)) || (("a"%code <=? c) && (c <=? "z"%code)).
Definition IsDecimalDigit (c : Z) : bool := ("0"%code <=? c) && (c <=? "9"%code).
Definition IsNumberStart (c : Z) : bool := IsDecimalDigit c || (c =? "."%code).
Definition IsHexDigit (c : Z) : bool :=
  IsDecimalDigit c || (("A"%code <=? c) && (c <=? "F"%code))
  || (("a"%code <=? c) && (c <=? "f"%code)).
Definition IsIdentStartChar (c : Z) : bool :=
  IsLetter c || (c =? "_"%code) || (c =? "$"%code).
Definition IsIdentChar (c : Z) : bool :=
  IsLetter c || IsDecimalDigit c || (c =? "_"%code) || (c =? "$"%code).

(** A string has one byte per character when all of them are Latin-1. *)
Definition IsIdent (is_one_byte : bool) (str : list Z) : bool :=
  is_one_byte &&
  match str with
  | [] => false
  | c :: rest => IsIdentStartChar c && forallb IsIdentChar rest
  end.

(** The sign and the text of the literal, if the tokens are a literal. *)
Definition IsValidLiteral (tokens : list TokenDescriptor) (literal_kind : Kind)
  : option (bool * option Literal) :=
  match tokens with
  | [t0; t1] =>
      if kind_eqb (kind t0) literal_kind && kind_eqb (kind t1) kEOS
      then Some (true, literal t0) else None
  | [t0; t1; t2] =>
      if (kind_eqb (kind t0) kADD || kind_eqb (kind t0) kSUB)
         && kind_eqb (kind t1) literal_kind && kind_eqb (kind t2) kEOS
      then if negb (offset t0 + 1 =? offset t1) then None
           else Some (kind_eqb (kind t0) kADD, literal t1)
      else None
  | _ => None
  end.

(** * Operations *)
Section Scanning.

Variable source_ : list Z.
Variable private_key_ : list Z.

Definition source_length_ : Z := Z.of_nat (List.length source_).

(** The loops that read a character in every round. *)
Definition char_fuel : nat := S (S (List.length source_)).

Definition CharAt (index : Z) : outcome Z :=
  match (if index <? 0 then None else source_ !! Z.to_nat index) with
  | Some c => Ok c
  | None => Err (HostFault index)
  end.

Definition LookaheadChar (how_many : Z) (s : Scanner) : outcome Z :=
  ASSERT how_many >=? 0 ;;
  if lookahead_pos_ s + how_many <? source_length_ then CharAt (lookahead_pos_ s + how_many)
  else Ok kNul.

(** The second half of [ReadChar], after a line feed was left behind. *)
Definition read_next (pos : Z) (seen : bool) (p : SourcePosition) (s : Scanner) : outcome Scanner :=
  let s := set_lookahead (pos + 1) (c0_ s) seen (mkPosition (line p) (column p + 1)) s in
  let* c := LookaheadChar 0 s in
  let c := if c =? kReturn then kLineFeed else c in
  Ok (set_lookahead (lookahead_pos_ s) c (newline_seen_ s) (c0_pos_ s) s).

Definition ReadChar (s : Scanner) : outcome Scanner :=
  if lookahead_pos_ s <? source_length_ then
    if c0_ s =? kLineFeed then
      let p := mkPosition (line (c0_pos_ s) + 1) 0 in
      let* c := CharAt (lookahead_pos_ s) in
      if c =? kReturn then
        let* c1 := LookaheadChar 1 s in
        read_next (if c1 =? kLineFeed then lookahead_pos_ s + 1 else lookahead_pos_ s) true p s
      else read_next (lookahead_pos_ s) true p s
    else read_next (lookahead_pos_ s) (newline_seen_ s) (c0_pos_ s) s
  else Ok s.

Definition Recognize (k : Kind) (s : Scanner) : outcome Scanner :=
  let* s := ReadChar s in Ok (with_kind k s).

Definition Reset (s : Scanner) : outcome Scanner :=
  let newline := newline_token_ s in
  let empty := empty_string_token_ s in
  let s := set_extra_tokens
    (mkToken kNEWLINE (offset newline) (mkPosition (line (position newline)) 0) None)
    (mkToken kSTRING (offset empty) (mkPosition (line (position empty)) 0) (Some (Symbol []))) s in
  let s := set_lookahead (-1) kNul false (mkPosition 1 0) s in
  let s := set_token_start 0 s in
  let s := set_prev_line 1 s in
  let s := set_mode [] kNul false 0 s in
  ReadChar s.

(** The constructor, over the contents of the memory that it initializes. *)
Definition new_Scanner (memory : Scanner) : outcome Scanner := Reset memory.

Definition ErrorMsg (msg : Literal) (s : Scanner) : Scanner :=
  set_current (mkToken kERROR (lookahead_pos_ s) (c0_pos_ s) (Some msg))
    (set_token_start (lookahead_pos_ s) s).

Definition PushContext (s : Scanner) : Scanner :=
  set_mode (mkContext (string_delimiter_ s) (string_is_multiline_ s) (brace_level_ s)
              :: saved_context_ s) kNul false 1 s.

Definition PopContext (s : Scanner) : outcome Scanner :=
  match saved_context_ s with
  | [] => Err AssertionFailed
  | ctx :: next =>
      ASSERT brace_level_ s =? 0 ;;
      ASSERT string_delimiter_ s =? kNul ;;
      let s := set_mode next (context_delimiter_ ctx) (context_is_multiline_ ctx)
                 (context_brace_level_ ctx) s in
      ASSERT negb (string_delimiter_ s =? kNul) ;;
      Ok s
  end.

Definition BeginStringLiteral (delimiter : Z) (s : Scanner) : Scanner :=
  set_mode (saved_context_ s) (to_s 8 delimiter) (string_is_multiline_ s) (brace_level_ s) s.
Definition EndStringLiteral (s : Scanner) : Scanner :=
  set_mode (saved_context_ s) kNul false (brace_level_ s) s.

Definition IsScanningString (s : Scanner) : bool := negb (string_delimiter_ s =? kNul).
Definition IsNestedContext (s : Scanner) : bool :=
  match saved_context_ s with [] => false | _ => true end.

(** [while (p(c0_)) ReadChar();] and the number of rounds. *)
Fixpoint read_while (p : Z -> bool) (fuel : nat) (n : Z) (s : Scanner) : outcome (Z * Scanner) :=
  if p (c0_ s) then
    match fuel with
    | O => Err OutOfFuel
    | S fuel => let* s := ReadChar s in read_while p fuel (n + 1) s
    end
  else Ok (n, s).

Definition skip_while (p : Z -> bool) (s : Scanner) : outcome Scanner :=
  let* (_, s) := read_while p char_fuel 0 s in Ok s.

Definition is_space (c : Z) : bool := (c =? " "%code) || (c =? kTab) || (c =? kLineFeed).
Definition not_line_end (c : Z) : bool := negb (c =? kLineFeed) && negb (c =? kNul).

Definition ConsumeWhiteSpace (s : Scanner) : outcome Scanner := skip_while is_space s.
Definition SkipLine (s : Scanner) : outcome Scanner := skip_while not_line_end s.

Definition ConsumeLineComment (s : Scanner) : outcome Scanner :=
  ASSERT c0_ s =? "/"%code ;;
  let* s := skip_while not_line_end s in
  let* s := ReadChar s in
  Ok (with_kind kWHITESP s).

(** The character that was left behind is kept in a [char]. *)
Fixpoint comment_loop (fuel : nat) (nesting_level : Z) (s : Scanner) : outcome (Z * Scanner) :=
  match fuel with
  | O => Err OutOfFuel
  | S fuel =>
      let c := to_s 8 (c0_ s) in
      let* s := ReadChar s in
      if c0_ s =? kNul then Ok (nesting_level, s)
      else if (c =? "/"%code) && (c0_ s =? "*"%code) then
        let* s := ReadChar s in comment_loop fuel (nesting_level + 1) s
      else if (c =? "*"%code) && (c0_ s =? "/"%code) then
        let* s := ReadChar s in
        if nesting_level - 1 =? 0 then Ok (0, s) else comment_loop fuel (nesting_level - 1) s
      else comment_loop fuel nesting_level s
  end.

Definition ConsumeBlockComment (s : Scanner) : outcome Scanner :=
  ASSERT c0_ s =? "*"%code ;;
  let* s := ReadChar s in
  let* (nesting_level, s) := comment_loop char_fuel 1 s in
  Ok (with_kind (if nesting_level =? 0 then kWHITESP else kILLEGAL) s).

(** The inner loop of the search for a keyword: the first position from [char_pos] on at
    which the identifier and the keyword differ. *)
Fixpoint match_chars (fuel : nat) (keyword : list Z) (ident_pos ident_length char_pos : Z)
  : outcome Z :=
  if char_pos <? ident_length then
    let* c := CharAt (ident_pos + char_pos) in
    if nth (Z.to_nat char_pos) keyword 0 =? c then
      match fuel with
      | O => Err OutOfFuel
      | S fuel => match_chars fuel keyword ident_pos ident_length (char_pos + 1)
      end
    else Ok char_pos
  else Ok char_pos.

(** The keywords from the first one with the initial letter on. *)
Fixpoint keyword_loop (table : list KeywordTable) (ident_char0 ident_pos ident_length : Z)
  : outcome (option KeywordTable) :=
  match table with
  | [] => Ok None
  | entry :: table =>
      if nth 0 (keyword_chars entry) 0 <=? ident_char0 then
        if keyword_len entry =? ident_length then
          let* char_pos := match_chars (Z.to_nat ident_length) (keyword_chars entry) ident_pos
                             ident_length 1 in
          if char_pos =? ident_length then Ok (Some entry)
          else keyword_loop table ident_char0 ident_pos ident_length
        else keyword_loop table ident_char0 ident_pos ident_length
      else Ok None
  end.

Definition find_keyword (ident_char0 ident_pos ident_length : Z) : outcome (option KeywordTable) :=
  if ("a"%code <=? ident_char0) && (ident_char0 <=? "z"%code) then
    let i := nth (Z.to_nat (ident_char0 - "a"%code)) keywords_char_offset_ 0 in
    keyword_loop (drop (Z.to_nat i) keywords_) ident_char0 ident_pos ident_length
  else Ok None.

Definition kPrivateIdentifierStart : Z := "_"%code.

(** [Symbols::New(source_, begin, length)]. *)
Definition slice (begin length : Z) : list Z :=
  take (Z.to_nat length) (drop (Z.to_nat begin) source_).

Definition ident_char (allow_dollar : bool) (c : Z) : bool :=
  IsIdentChar c && (allow_dollar || negb (c =? "$"%code)).

Definition ScanIdentChars (allow_dollar : bool) (s : Scanner) : outcome Scanner :=
  ASSERT IsIdentStartChar (c0_ s) ;;
  ASSERT allow_dollar || negb (c0_ s =? "$"%code) ;;
  let ident_pos := lookahead_pos_ s in
  let* ident_char0 := CharAt ident_pos in
  let* (ident_length, s) := read_while (ident_char allow_dollar) char_fuel 0 s in
  let* keyword := find_keyword ident_char0 ident_pos ident_length in
  match keyword with
  | Some entry => Ok (with_kind (keyword_kind entry) (with_literal (Symbol (keyword_symbol entry)) s))
  | None =>
      let literal := slice ident_pos ident_length in
      let literal := if ident_char0 =? kPrivateIdentifierStart then literal ++ private_key_
                     else literal in
      Ok (with_literal (Symbol literal) (with_kind kIDENT s))
  end.

Definition ScanIdent : Scanner -> outcome Scanner := ScanIdentChars true.
Definition ScanIdentNoDollar : Scanner -> outcome Scanner := ScanIdentChars false.

Definition ScanScriptTag (s : Scanner) : outcome Scanner :=
  let* s := ReadChar s in
  ASSERT c0_ s =? "!"%code ;;
  let* s := Recognize kSCRIPTTAG s in
  SkipLine s.

(** * Numbers *)

(** The literal of a number, unless an error was found. *)
Definition number_literal (s : Scanner) : outcome Scanner :=
  if negb (kind_is kILLEGAL s) then
    Ok (with_literal (Symbol (slice (token_start_ s) (lookahead_pos_ s - token_start_ s))) s)
  else Ok s.

(** The fraction of a number whose integral part was read. *)
Definition scan_fraction (dec_point_seen : bool) (s : Scanner) : outcome Scanner :=
  if (c0_ s =? "."%code) && negb dec_point_seen then
    let* c1 := LookaheadChar 1 s in
    if IsDecimalDigit c1 then
      let* s := Recognize kDOUBLE s in skip_while IsDecimalDigit s
    else Ok s
  else Ok s.

(** The exponent; the flag is false where its digits are missing. *)
Definition scan_exponent (s : Scanner) : outcome (bool * Scanner) :=
  if (c0_ s =? "e"%code) || (c0_ s =? "E"%code) then
    let* c1 := LookaheadChar 1 s in
    if IsDecimalDigit c1 || (c1 =? "-"%code) || (c1 =? "+"%code) then
      let* s := Recognize kDOUBLE s in
      let* s := if (c0_ s =? "-"%code) || (c0_ s =? "+"%code) then ReadChar s else Ok s in
      if negb (IsDecimalDigit (c0_ s)) then
        Ok (false, ErrorMsg (Symbol (chars "missing exponent digits")) s)
      else let* s := skip_while IsDecimalDigit s in Ok (true, s)
    else Ok (true, s)
  else Ok (true, s).

Definition ScanNumber (dec_point_seen : bool) (s : Scanner) : outcome Scanner :=
  ASSERT IsDecimalDigit (c0_ s) ;;
  let first_digit := to_s 8 (c0_ s) in
  let* s := Recognize (if dec_point_seen then kDOUBLE else kINTEGER) s in
  if negb dec_point_seen && (first_digit =? "0"%code)
     && ((c0_ s =? "x"%code) || (c0_ s =? "X"%code)) then
    let* s := ReadChar s in
    if negb (IsHexDigit (c0_ s)) then
      Ok (ErrorMsg (Symbol (chars "hexadecimal digit expected")) s)
    else let* s := skip_while IsHexDigit s in number_literal s
  else
    let* s := skip_while IsDecimalDigit s in
    let* s := scan_fraction dec_point_seen s in
    let* (complete, s) := scan_exponent s in
    if complete then number_literal s else Ok s.

(** * String literals *)

(** The loop of [ScanHexDigits(digits, value)]. *)
Fixpoint scan_hex_digits (digits : nat) (value : Z) (s : Scanner) : outcome (bool * Z * Scanner) :=
  match digits with
  | O => Ok (true, value, s)
  | S digits =>
      let* s := ReadChar s in
      if negb (IsHexDigit (c0_ s)) then
        Ok (false, value, ErrorMsg (Symbol (chars "too few hexadecimal digits")) s)
      else
        let* d := Utils.HexDigitToInt (c0_ s) in
        scan_hex_digits digits (Z.lor (Z.shiftl value 4) d) s
  end.

(** The loop of [ScanHexDigits(min_digits, max_digits, value)] from its round [i] on. *)
Fixpoint scan_hex_range (rounds : nat) (i min_digits value : Z) (s : Scanner)
  : outcome (bool * Z * Scanner) :=
  match rounds with
  | O => Ok (true, value, s)
  | S rounds =>
      if negb (IsHexDigit (c0_ s)) then
        if i <? min_digits then
          Ok (false, value, ErrorMsg (Symbol (chars "hexadecimal digit expected")) s)
        else Ok (true, value, s)
      else
        let* d := Utils.HexDigitToInt (c0_ s) in
        let* s := ReadChar s in
        scan_hex_range rounds (i + 1) min_digits (Z.lor (Z.shiftl value 4) d) s
  end.

Definition ScanHexDigits (digits : Z) (s : Scanner) : outcome (bool * Z * Scanner) :=
  scan_hex_digits (Z.to_nat digits) 0 s.
Definition ScanHexDigits_range (min_digits max_digits : Z) (s : Scanner)
  : outcome (bool * Z * Scanner) :=
  let* s := ReadChar s in scan_hex_range (Z.to_nat max_digits) 0 min_digits 0 s.

(** The checks after the digits. *)
Definition check_code_point (is_valid : bool) (code_point : Z) (s : Scanner) : Z * Scanner :=
  if is_valid && (IsOutOfRange code_point || Utf16.IsSurrogate code_point)
  then (code_point, ErrorMsg (Symbol (chars "invalid code point")) s)
  else (code_point, s).

Definition ScanEscapedCodePoint (s : Scanner) : outcome (Z * Scanner) :=
  ASSERT (c0_ s =? "u"%code) || (c0_ s =? "x"%code) ;;
  if c0_ s =? "x"%code then
    let* (is_valid, code_point, s) := ScanHexDigits 2 s in
    Ok (check_code_point is_valid code_point s)
  else
    let* c1 := LookaheadChar 1 s in
    if negb (c1 =? "{"%code) then
      let* (is_valid, code_point, s) := ScanHexDigits 4 s in
      Ok (check_code_point is_valid code_point s)
    else
      let* s := ReadChar s in
      let* (is_valid, code_point, s) := ScanHexDigits_range 1 6 s in
      if is_valid && negb (c0_ s =? "}"%code) then
        Ok (code_point, ErrorMsg (Symbol (chars "expected '}' after character code")) s)
      else Ok (check_code_point is_valid code_point s).

Definition is_unterminated (s : Scanner) : bool :=
  (c0_ s =? kNul) || ((c0_ s =? kLineFeed) && negb (string_is_multiline_ s)).

Definition unterminated (s : Scanner) : Scanner :=
  EndStringLiteral (ErrorMsg (Symbol (chars "unterminated string literal")) s).

(** An escape sequence, from the backslash on: its character, or nothing where the string
    literal ended with an error. *)
Definition scan_escape (s : Scanner) : outcome (option Z * Scanner) :=
  let* s := ReadChar s in
  let c := c0_ s in
  if c =? "n"%code then Ok (Some kLineFeed, s)
  else if c =? "r"%code then Ok (Some kReturn, s)
  else if c =? "f"%code then Ok (Some 12, s)
  else if c =? "t"%code then Ok (Some kTab, s)
  else if c =? "b"%code then Ok (Some 8, s)
  else if c =? "v"%code then Ok (Some 11, s)
  else if (c =? "u"%code) || (c =? "x"%code) then
    let* (escape_char, s) := ScanEscapedCodePoint s in Ok (Some escape_char, s)
  else if is_unterminated s then Ok (None, unterminated s)
  else Ok (Some c, s).

(** The piece of a string before an interpolation. *)
Definition end_piece (string_chars : list Z) (s : Scanner) : outcome Scanner :=
  let* units := FromUTF32 string_chars in
  let s := with_literal (Symbol units) s in
  Ok (if negb (kind_is kERROR s) then with_kind kSTRING s else s).

(** The last piece, at the delimiter. *)
Definition end_string (string_chars : list Z) (s : Scanner) : outcome Scanner :=
  let* s := if string_is_multiline_ s then let* s := ReadChar s in ReadChar s else Ok s in
  let* s :=
    if kind_is kERROR s then ReadChar s
    else
      let* s := Recognize kSTRING s in
      let* units := FromUTF32 string_chars in
      Ok (with_literal (Symbol units) s) in
  Ok (EndStringLiteral s).

(** Whether the delimiter at [c0_] ends the string. *)
Definition at_string_end (s : Scanner) : outcome bool :=
  if negb (string_is_multiline_ s) then Ok true
  else
    let* c1 := LookaheadChar 1 s in
    if c1 =? string_delimiter_ s then
      let* c2 := LookaheadChar 2 s in Ok (c2 =? string_delimiter_ s)
    else Ok false.

(** A character of the source, joined with the next one in a surrogate pair. *)
Definition scan_code_point (s : Scanner) : outcome (Z * Scanner) :=
  let ch1 := c0_ s in
  if Utf16.IsLeadSurrogate ch1 then
    let* ch2 := LookaheadChar 1 s in
    if Utf16.IsTrailSurrogate ch2 then
      let* s := ReadChar s in Ok (Utf16.Decode ch1 ch2, s)
    else Ok (ch1, s)
  else Ok (ch1, s).

(** What the loop does with the character it added: the flag [remove_whitespace] and the
    characters of the string. *)
Definition discard_first_line (remove_whitespace : bool) (string_chars : list Z) : bool * list Z :=
  match remove_whitespace, last string_chars with
  | true, Some c =>
      if c =? kLineFeed then
        let whitespace_only :=
          forallb (fun ch => (ch =? " "%code) || (ch =? kTab))
            (take (List.length string_chars - 1) string_chars) in
        (false, if whitespace_only then [] else string_chars)
      else (true, string_chars)
  | _, _ => (remove_whitespace, string_chars)
  end.

(** The loop of [ScanLiteralStringChars]. *)
Fixpoint string_loop (fuel : nat) (is_raw remove_whitespace : bool) (string_chars : list Z)
  (s : Scanner) : outcome Scanner :=
  match fuel with
  | O => Err OutOfFuel
  | S fuel =>
      let continue_with ch s :=
        let '(remove_whitespace, string_chars) :=
          discard_first_line remove_whitespace (string_chars ++ [ch]) in
        let* s := ReadChar s in
        string_loop fuel is_raw remove_whitespace string_chars s in
      if is_unterminated s then Ok (unterminated s)
      else if (c0_ s =? kBackslash) && negb is_raw then
        let* (escape_char, s) := scan_escape s in
        match escape_char with
        | Some ch => continue_with ch s
        | None => Ok s
        end
      else if (c0_ s =? "$"%code) && negb is_raw then end_piece string_chars s
      else if c0_ s =? string_delimiter_ s then
        let* at_end := at_string_end s in
        if at_end then end_string string_chars s
        else continue_with (string_delimiter_ s) s
      else
        let* (ch, s) := scan_code_point s in continue_with ch s
  end.

Definition ScanLiteralStringChars (is_raw remove_whitespace : bool) (s : Scanner)
  : outcome Scanner :=
  ASSERT IsScanningString s ;;
  string_loop char_fuel is_raw remove_whitespace [] s.

Definition ScanLiteralString (is_raw : bool) (s : Scanner) : outcome Scanner :=
  ASSERT negb (IsScanningString s) ;;
  ASSERT (c0_ s =? kDoubleQuote) || (c0_ s =? "'"%code) ;;
  let s := BeginStringLiteral (c0_ s) s in
  let* s := ReadChar s in
  let* s :=
    if c0_ s =? string_delimiter_ s then
      let* c1 := LookaheadChar 1 s in
      if c1 =? string_delimiter_ s then
        let* s := ReadChar (set_mode (saved_context_ s) (string_delimiter_ s) true (brace_level_ s) s) in
        ReadChar s
      else Ok s
    else Ok s in
  ScanLiteralStringChars is_raw (string_is_multiline_ s) s.

(** * Scan *)

(** What follows the [$] of an interpolation. *)
Definition scan_interpolation (s : Scanner) : outcome Scanner :=
  let* s := ReadChar s in
  if IsIdentStartChar (c0_ s) && negb (c0_ s =? "$"%code) then
    let* s := ScanIdentNoDollar s in Ok (with_kind kINTERPOL_VAR s)
  else if c0_ s =? "{"%code then
    let* s := Recognize kINTERPOL_START s in Ok (PushContext s)
  else
    Ok (EndStringLiteral
          (ErrorMsg (Symbol (chars "illegal character after $ in string interpolation")) s)).

(** [Recognize] of [k] and then, by the next character, of one of the longer operators. *)
Fixpoint recognize_next (ops : list (Z * (Scanner -> outcome Scanner))) (s : Scanner)
  : outcome Scanner :=
  match ops with
  | [] => Ok s
  | (c, m) :: ops => if c0_ s =? c then m s else recognize_next ops s
  end.
Definition operator (k : Kind) (ops : list (Z * (Scanner -> outcome Scanner))) (s : Scanner)
  : outcome Scanner :=
  let* s := Recognize k s in recognize_next ops s.

(** The operators, by their first character. *)
Definition operators : list (Z * (Scanner -> outcome Scanner)) :=
  [("+"%code, operator kADD [("+"%code, Recognize kINCR); ("="%code, Recognize kASSIGN_ADD)]);
   ("-"%code, operator kSUB [("-"%code, Recognize kDECR); ("="%code, Recognize kASSIGN_SUB)]);
   ("*"%code, operator kMUL [("="%code, Recognize kASSIGN_MUL)]);
   ("%"%code, operator kMOD [("="%code, Recognize kASSIGN_MOD)]);
   ("/"%code, operator kDIV [("/"%code, ConsumeLineComment); ("*"%code, ConsumeBlockComment);
                             ("="%code, Recognize kASSIGN_DIV)]);
   ("&"%code, operator kBIT_AND [("="%code, Recognize kASSIGN_AND); ("&"%code, Recognize kAND)]);
   ("|"%code, operator kBIT_OR [("="%code, Recognize kASSIGN_OR); ("|"%code, Recognize kOR)]);
   ("^"%code, operator kBIT_XOR [("="%code, Recognize kASSIGN_XOR)]);
   ("["%code, operator kLBRACK
                [("]"%code, operator kINDEX [("="%code, Recognize kASSIGN_INDEX)])]);
   ("]"%code, Recognize kRBRACK);
   ("<"%code, operator kLT [("="%code, Recognize kLTE);
                            ("<"%code, operator kSHL [("="%code, Recognize kASSIGN_SHL)])]);
   (">"%code, operator kGT [("="%code, Recognize kGTE);
                            (">"%code, operator kSHR [("="%code, Recognize kASSIGN_SHR)])]);
   ("!"%code, operator kNOT [("="%code, Recognize kNE)]);
   ("~"%code, operator kBIT_NOT
                [("/"%code, operator kTRUNCDIV [("="%code, Recognize kASSIGN_TRUNCDIV)])]);
   ("="%code, operator kASSIGN [("="%code, Recognize kEQ); (">"%code, Recognize kARROW)]);
   ("?"%code, Recognize kCONDITIONAL);
   (":"%code, Recognize kCOLON);
   (";"%code, Recognize kSEMICOLON);
   ("("%code, Recognize kLPAREN);
   (")"%code, Recognize kRPAREN);
   (","%code, Recognize kCOMMA);
   ("@"%code, Recognize kAT)].

Definition scan_period (s : Scanner) : outcome Scanner :=
  let* s := Recognize kPERIOD s in
  if c0_ s =? "."%code then Recognize kCASCADE s
  else if IsDecimalDigit (c0_ s) then ScanNumber true s
  else Ok s.

Definition scan_left_brace (s : Scanner) : outcome Scanner :=
  let* s := Recognize kLBRACE s in
  Ok (if IsNestedContext s
      then set_mode (saved_context_ s) (string_delimiter_ s) (string_is_multiline_ s)
             (brace_level_ s + 1) s
      else s).

Definition scan_right_brace (s : Scanner) : outcome Scanner :=
  let* s := Recognize kRBRACE s in
  if IsNestedContext s then
    ASSERT brace_level_ s >? 0 ;;
    let s := set_mode (saved_context_ s) (string_delimiter_ s) (string_is_multiline_ s)
               (brace_level_ s - 1) s in
    if brace_level_ s =? 0 then PopContext (with_kind kINTERPOL_END s) else Ok s
  else Ok s.

(** An identifier or a raw string. *)
Definition scan_r (s : Scanner) : outcome Scanner :=
  let* c1 := LookaheadChar 1 s in
  if (c1 =? kDoubleQuote) || (c1 =? "'"%code) then
    let* s := ReadChar s in ScanLiteralString true s
  else ScanIdent s.

Definition scan_hash (s : Scanner) : outcome Scanner :=
  let* c1 := LookaheadChar 1 s in
  if c1 =? "!"%code then ScanScriptTag s else Recognize kHASH s.

Definition scan_default (s : Scanner) : outcome Scanner :=
  if IsIdentStartChar (c0_ s) then ScanIdent s
  else if IsDecimalDigit (c0_ s) then ScanNumber false s
  else
    let* utf8_char := Utf8.Encode (c0_ s) in
    ReadChar (ErrorMsg (UnexpectedCharacter utf8_char (c0_ s)) s).

(** The [switch] over [c0_]. *)
Definition scan_switch (s : Scanner) : outcome Scanner :=
  let c := c0_ s in
  if c =? kNul then Ok (with_kind kEOS s)
  else
    match list_find (fun op => Is_true (fst op =? c)) operators with
    | Some (_, (_, m)) => m s
    | None =>
        if c =? "."%code then scan_period s
        else if c =? "{"%code then scan_left_brace s
        else if c =? "}"%code then scan_right_brace s
        else if c =? "r"%code then scan_r s
        else if (c =? kDoubleQuote) || (c =? "'"%code) then ScanLiteralString false s
        else if c =? "#"%code then scan_hash s
        else scan_default s
    end.

(** One round of the loop of [Scan]. *)
Definition scan_round (s : Scanner) : outcome Scanner :=
  let* s := if negb (IsScanningString s) then ConsumeWhiteSpace s else Ok s in
  let s := set_token_start (lookahead_pos_ s) s in
  let s := set_current (mkToken kILLEGAL (lookahead_pos_ s) (c0_pos_ s) None) s in
  if IsScanningString s then
    if c0_ s =? "$"%code then scan_interpolation s
    else ScanLiteralStringChars false false s
  else scan_switch s.

(** In every round a character is read, or a string literal is ended by an error. *)
Definition token_fuel : nat := 2 * char_fuel.

(** White space is skipped and comments are tokens of a round of their own. *)
Fixpoint scan_loop (fuel : nat) (s : Scanner) : outcome Scanner :=
  match fuel with
  | O => Err OutOfFuel
  | S fuel =>
      let* s := scan_round s in
      if kind_is kWHITESP s then scan_loop fuel s else Ok s
  end.

Definition Scan (s : Scanner) : outcome Scanner :=
  scan_loop token_fuel (set_newline_seen false s).

(** * Streams of tokens *)

(** The newline tokens before a token of line [l]; [diff] counts down. *)
Fixpoint newline_tokens (diff : nat) (l : Z) (newline : TokenDescriptor) : list TokenDescriptor :=
  match diff with
  | O => []
  | S d =>
      mkToken (kind newline) (offset newline)
        (mkPosition (l - Z.of_nat diff) (column (position newline))) (literal newline)
      :: newline_tokens d l newline
  end.

Definition is_interpolation (k : Kind) : bool :=
  kind_eqb k kINTERPOL_VAR || kind_eqb k kINTERPOL_START.

(** The tokens that a round of [ScanAll] adds, and the state after it. *)
Definition add_token (s : Scanner) : list TokenDescriptor * Scanner :=
  let token := current_token_ s in
  let l := line (position token) in
  let diff := Z.to_nat (l - prev_token_line_ s) in
  let newlines := newline_tokens diff l (newline_token_ s) in
  let newline := match last newlines with Some t => t | None => newline_token_ s end in
  let inserts_empty := negb (Nat.eqb diff 0) && is_interpolation (kind token) in
  let empty := empty_string_token_ s in
  let empty := if inserts_empty
    then mkToken (kind empty) (offset empty) (mkPosition l (column (position empty))) (literal empty)
    else empty in
  (newlines ++ (if inserts_empty then [empty] else []) ++ [token],
   set_prev_line l (set_extra_tokens newline empty s)).

Fixpoint scan_all_loop (fuel : nat) (s : Scanner) : outcome (list TokenDescriptor * Scanner) :=
  match fuel with
  | O => Err OutOfFuel
  | S fuel =>
      let* s := Scan s in
      let '(tokens, s) := add_token s in
      if negb (kind_is kEOS s) then
        let* (rest, s) := scan_all_loop fuel s in Ok (tokens ++ rest, s)
      else Ok (tokens, s)
  end.

Definition ScanAll (s : Scanner) : outcome (list TokenDescriptor * Scanner) :=
  let* s := Reset s in scan_all_loop token_fuel s.

Fixpoint scan_to_loop (fuel : nat) (token_index index : Z) (s : Scanner) : outcome Scanner :=
  match fuel with
  | O => Err OutOfFuel
  | S fuel =>
      let* s := Scan s in
      let diff := line (position (current_token_ s)) - prev_token_line_ s in
      let index := index + Z.max 0 diff in
      let index := if (0 <? diff) && is_interpolation (kind (current_token_ s))
                   then index + 1 else index in
      let index := index + 1 in
      let s := set_prev_line (line (position (current_token_ s))) s in
      if (token_index >=? index) && negb (kind_is kEOS s)
      then scan_to_loop fuel token_index index s else Ok s
  end.

Definition ScanTo (token_index : Z) (s : Scanner) : outcome Scanner :=
  let* s := Reset s in scan_to_loop token_fuel token_index 0 s.

Definition GetStream (s : Scanner) : outcome (list TokenDescriptor) :=
  let* (tokens, _) := ScanAll s in Ok tokens.

End Scanning.
