(* ===== verification/ScannerProofs.v ===== *)
(** The scanner never fails: every source is scanned to its end, and the tokens stand
    where the source says.

    [position_at] is the position of an offset by counting line ends; [stands] relates the
    state to an offset, [good] adds the place of the current token, and the specification
    of an operation says how far it reads. *)
From stdpp Require Import base numbers list sorting.
From Stdlib Require Import ZArith Lia Bool String Ascii Sorted.
From S2P Require Import Prelude Utils Unicode Token Scanner.
Import Token.
#[local] Open Scope Z_scope.

(** * Positions in the source *)
Section Positions.

Variable src : list Z.

(** The unit at an offset; the end of the source reads as 0. *)
Definition raw (n : nat) : Z := match src !! n with Some c => c | None => 0 end.

(** A return is read as a line feed. *)
Definition look (n : nat) : Z := if raw n =? kReturn then kLineFeed else raw n.

(** A line ends with a line feed, or with a return that no line feed follows. *)
Definition ends_line (i : nat) : bool :=
  (raw i =? kLineFeed) || ((raw i =? kReturn) && negb (raw (S i) =? kLineFeed)).

Fixpoint position_at (n : nat) : SourcePosition :=
  match n with
  | O => mkPosition 1 1
  | S i => if ends_line i then mkPosition (line (position_at i) + 1) 1
           else mkPosition (line (position_at i)) (column (position_at i) + 1)
  end.

(** A return and its line feed are read together. *)
Definition pair_at (n : nat) : bool := (raw n =? kReturn) && (raw (S n) =? kLineFeed).
Definition next (n : nat) : nat :=
  if (n <? List.length src)%nat then if pair_at n then S (S n) else S n else n.

(** No character starts between a return and its line feed. *)
Definition boundary (n : nat) : Prop := forall i, n = S i -> pair_at i = false.

Lemma raw_end n : (List.length src <= n)%nat -> raw n = 0.
Proof. intros H; unfold raw; rewrite (lookup_ge_None_2 src n) by lia; done. Qed.

Lemma raw_in n : raw n <> 0 -> (n < List.length src)%nat.
Proof. intros H; destruct (decide (n < List.length src)%nat); [done |]; rewrite raw_end in H; lia. Qed.

Lemma look_in n : look n <> 0 -> (n < List.length src)%nat.
Proof.
  unfold look; intros H; apply raw_in; destruct (Z.eqb_spec (raw n) kReturn); [| done].
  rewrite e; done.
Qed.

Lemma look_raw n : look n <> kLineFeed -> raw n = look n.
Proof. unfold look; destruct (raw n =? kReturn); done. Qed.

Lemma look_line_feed n : look n = kLineFeed <-> raw n = kReturn \/ raw n = kLineFeed.
Proof. unfold look; destruct (Z.eqb_spec (raw n) kReturn); intuition. Qed.

Lemma pair_end n : pair_at n = true -> (S n < List.length src)%nat.
Proof.
  unfold pair_at; intros [_ H]%andb_true_iff; apply Z.eqb_eq in H; apply raw_in; rewrite H; done.
Qed.

Lemma next_ge n : (n <= next n)%nat.
Proof. unfold next; destruct (_ <? _)%nat, (pair_at n); lia. Qed.

Lemma next_lt n : (n < List.length src)%nat -> (n < next n)%nat.
Proof. unfold next; intros; destruct (Nat.ltb_spec n (List.length src)), (pair_at n); lia. Qed.

Lemma next_le n : (n <= List.length src)%nat -> (next n <= List.length src)%nat.
Proof.
  unfold next; intros; destruct (Nat.ltb_spec n (List.length src)); [| done].
  destruct (pair_at n) eqn:E; [apply pair_end in E |]; lia.
Qed.

Lemma pair_at_next n : pair_at n = true -> pair_at (S n) = false.
Proof.
  unfold pair_at; intros [_ H]%andb_true_iff; apply Z.eqb_eq in H; rewrite H; done.
Qed.

Lemma boundary_next n : boundary n -> boundary (next n).
Proof.
  unfold next; intros Hb; destruct (Nat.ltb_spec n (List.length src)); [| done].
  destruct (pair_at n) eqn:E; intros i [= <-]; [apply pair_at_next |]; done.
Qed.

(** A character that is no line end is one unit. *)
Lemma next_plain n : (n < List.length src)%nat -> look n <> kLineFeed -> next n = S n.
Proof.
  intros Hn H; unfold next; destruct (Nat.ltb_spec n (List.length src)); [| lia].
  unfold pair_at; destruct (Z.eqb_spec (raw n) kReturn) as [E |]; [| done].
  exfalso; apply H, look_line_feed; auto.
Qed.

Lemma position_next n :
  (n < List.length src)%nat ->
  position_at (next n) =
  if look n =? kLineFeed then mkPosition (line (position_at n) + 1) 1
  else mkPosition (line (position_at n)) (column (position_at n) + 1).
Proof.
  intros Hn; unfold next; destruct (Nat.ltb_spec n (List.length src)); [| lia].
  unfold pair_at, look; destruct (Z.eqb_spec (raw n) kReturn) as [E | E]; cbn [andb].
  - destruct (Z.eqb_spec (raw (S n)) kLineFeed) as [E' | E']; cbn [position_at];
      unfold ends_line; rewrite E; [rewrite E'; done |].
    destruct (Z.eqb_spec (raw (S n)) kLineFeed); done.
  - cbn [position_at]; unfold ends_line; rewrite (proj2 (Z.eqb_neq _ _) E); cbn [andb].
    rewrite orb_false_r; done.
Qed.

Lemma position_lines n m : (n <= m)%nat -> line (position_at n) <= line (position_at m).
Proof.
  induction 1 as [| m _ IH]; [lia |]; cbn; destruct (ends_line m); cbn; lia.
Qed.

(** Lines and columns are bounded by the offset, so they fit the integers of the code. *)
Lemma position_bounds n :
  1 <= line (position_at n) <= Z.of_nat n + 1 /\ 1 <= column (position_at n) <= Z.of_nat n + 1.
Proof. induction n as [| n IH]; cbn; [lia |]; destruct (ends_line n); cbn [line column]; lia. Qed.

(** * The lookahead *)
Record stands (n : nat) (s : Scanner) : Prop := mk_stands {
  stands_pos : lookahead_pos_ s = Z.of_nat n;
  stands_le : (n <= List.length src)%nat;
  stands_c0 : c0_ s = look n;
  stands_position : c0_pos_ s = position_at n;
  stands_boundary : boundary n }.

Lemma CharAt_raw n : (n < List.length src)%nat -> CharAt src (Z.of_nat n) = Ok (raw n).
Proof.
  intros H; unfold CharAt, raw; rewrite Nat2Z.id.
  destruct (Z.ltb_spec (Z.of_nat n) 0); [lia |].
  destruct (lookup_lt_is_Some_2 src n H) as [c ->]; done.
Qed.

Lemma LookaheadChar_ok k n s :
  stands n s -> LookaheadChar src (Z.of_nat k) s = Ok (raw (n + k)).
Proof.
  intros [Hp]; unfold LookaheadChar, source_length_; rewrite Hp.
  replace (Z.of_nat k >=? 0) with true by (symmetry; apply Z.geb_le; lia).
  rewrite <- Nat2Z.inj_add; destruct (Z.ltb_spec (Z.of_nat (n + k)) (Z.of_nat (List.length src))).
  - apply CharAt_raw; lia.
  - rewrite raw_end by lia; done.
Qed.

Lemma LookaheadChar_1 n s : stands n s -> LookaheadChar src 1 s = Ok (raw (S n)).
Proof. intros H; rewrite <- Nat.add_1_r; exact (LookaheadChar_ok 1 n s H). Qed.

Lemma LookaheadChar_2 n s : stands n s -> LookaheadChar src 2 s = Ok (raw (S (S n))).
Proof. intros H; replace (S (S n)) with (n + 2)%nat by lia; exact (LookaheadChar_ok 2 n s H). Qed.

(** The state after [ReadChar] at offset [n]. *)
Definition advance (n : nat) (s : Scanner) : Scanner :=
  if (n <? List.length src)%nat
  then set_lookahead (Z.of_nat (next n)) (look (next n))
         (newline_seen_ s || (look n =? kLineFeed)) (position_at (next n)) s
  else s.

Lemma read_next_ok m seen p s :
  (m < List.length src)%nat ->
  read_next src (Z.of_nat m) seen p s =
  Ok (set_lookahead (Z.of_nat (S m)) (look (S m)) seen (mkPosition (line p) (column p + 1)) s).
Proof.
  intros Hm; unfold read_next, LookaheadChar, source_length_; cbn [set_lookahead lookahead_pos_].
  rewrite Z.add_0_r; replace (Z.of_nat m + 1) with (Z.of_nat (S m)) by lia; cbn [Z.geb Z.compare].
  destruct (Z.ltb_spec (Z.of_nat (S m)) (Z.of_nat (List.length src))).
  - rewrite CharAt_raw by lia; done.
  - cbn [obind]; unfold look; rewrite raw_end by lia; done.
Qed.

Lemma ReadChar_ok n s : stands n s -> ReadChar src s = Ok (advance n s).
Proof.
  intros Hs; pose proof Hs as [Hp Hle Hc Hpos Hb]; unfold ReadChar, advance, source_length_.
  rewrite Hp, Hc, Hpos.
  destruct (Nat.ltb_spec n (List.length src)) as [Hn |], (Z.ltb_spec (Z.of_nat n) (Z.of_nat (List.length src)));
    [| lia.. | done].
  rewrite position_next by done; destruct (Z.eqb_spec (look n) kLineFeed) as [E | E].
  - rewrite orb_true_r, CharAt_raw by lia; cbn [obind].
    unfold next; destruct (Nat.ltb_spec n (List.length src)); [| lia]; unfold pair_at.
    destruct (raw n =? kReturn); cbn [andb].
    + rewrite (LookaheadChar_1 n s Hs); cbn [obind].
      destruct (raw (S n) =? kLineFeed) eqn:E'.
      * replace (Z.of_nat n + 1) with (Z.of_nat (S n)) by lia; apply read_next_ok, raw_in.
        apply Z.eqb_eq in E'; rewrite E'; done.
      * apply read_next_ok; lia.
    + apply read_next_ok; lia.
  - rewrite orb_false_r, (next_plain n) by done; apply read_next_ok; lia.
Qed.

Lemma stands_advance n s : stands n s -> stands (next n) (advance n s).
Proof.
  intros Hs; pose proof Hs as [Hp Hle Hc Hpos Hb]; unfold advance.
  destruct (Nat.ltb_spec n (List.length src)) as [Hn | Hn].
  - split; try done; [apply next_le | apply boundary_next]; done.
  - unfold next; destruct (Nat.ltb_spec n (List.length src)); [lia | done].
Qed.

(** * The current token

    [same] says what an operation leaves alone: the mode, and the fields that only
    [ScanAll] uses. *)
Definition mode (s : Scanner) : list ScanContext * Z * bool * Z :=
  (saved_context_ s, string_delimiter_ s, string_is_multiline_ s, brace_level_ s).
Definition extras (s : Scanner) : TokenDescriptor * TokenDescriptor * Z :=
  (newline_token_ s, empty_string_token_ s, prev_token_line_ s).
Definition same (s s' : Scanner) : Prop := mode s' = mode s /\ extras s' = extras s.

Definition placed (lo n : nat) (d : TokenDescriptor) : Prop :=
  exists m, (lo <= m <= n)%nat /\ offset d = Z.of_nat m /\ position d = position_at m
            /\ (kind d = kEOS -> raw m = 0).

Record good (lo n : nat) (s : Scanner) : Prop := mk_good {
  good_stands : stands n s;
  good_placed : placed lo n (current_token_ s);
  good_kind : kind (current_token_ s) <> kNEWLINE }.

Lemma same_fields_refl s : same s s.
Proof. done. Qed.
Lemma same_fields_trans s1 s2 s3 : same s1 s2 -> same s2 s3 -> same s1 s3.
Proof. intros [H1 H2] [H3 H4]; split; congruence. Qed.

Lemma placed_le lo n n' d : placed lo n d -> (n <= n')%nat -> placed lo n' d.
Proof. intros (m & Hm & H) Hn; exists m; split; [lia | done]. Qed.

Lemma good_bound lo n s : good lo n s -> (lo <= n <= List.length src)%nat.
Proof. intros [[_ H _ _ _] (m & Hm & _) _]; lia. Qed.

Lemma good_c0 lo n s : good lo n s -> c0_ s = look n.
Proof. intros [[] _ _]; done. Qed.

Lemma good_in lo n s : good lo n s -> c0_ s <> 0 -> (n < List.length src)%nat.
Proof. intros H E; rewrite (good_c0 lo n s H) in E; apply look_in, E. Qed.

Lemma good_advance lo n s : good lo n s -> good lo (next n) (advance n s).
Proof.
  intros [Hs Hp Hk]; assert (E : current_token_ (advance n s) = current_token_ s).
  { unfold advance; destruct (_ <? _)%nat; done. }
  split; [apply stands_advance, Hs | rewrite E..]; [| done].
  apply (placed_le _ n), next_ge; done.
Qed.

Lemma same_advance n s : same s (advance n s).
Proof. unfold advance; destruct (_ <? _)%nat; done. Qed.

Lemma ReadChar_reads lo n s :
  good lo n s -> returns (ReadChar src s) (fun s' => good lo (next n) s' /\ same s s').
Proof.
  intros H; rewrite (ReadChar_ok n s (good_stands _ _ _ H)); apply returns_Ok.
  split; [apply good_advance | apply same_advance]; done.
Qed.

Lemma good_with_kind lo n k s :
  good lo n s -> k <> kNEWLINE -> k <> kEOS -> good lo n (with_kind k s).
Proof.
  intros [[] (m & Hm & Ho & Hp & _) _] Hk He; split; [done | | done].
  exists m; do 3 (split; [done |]); done.
Qed.

Lemma good_with_literal lo n l s : good lo n s -> good lo n (with_literal l s).
Proof. intros [[] Hp Hk]; done. Qed.

Lemma good_ErrorMsg lo n m s : good lo n s -> good lo n (ErrorMsg m s).
Proof.
  intros H; pose proof (good_bound lo n s H); destruct H as [[] _ _].
  split; [done | exists n | done].
  split; [lia |]; split; [done |]; split; done.
Qed.

Lemma good_set_mode lo n c d m b s : good lo n s -> good lo n (set_mode c d m b s).
Proof. intros [[] Hp Hk]; done. Qed.

Hint Resolve good_with_literal good_ErrorMsg good_set_mode : core.

(** An operation that reads from [n] at least to [n + k] and leaves the rest alone. *)
Definition reads (lo m : nat) (s s' : Scanner) : Prop :=
  exists n', (m <= n')%nat /\ good lo n' s' /\ same s s'.

Lemma reads_intro lo m n s s' : good lo n s' -> (m <= n)%nat -> same s s' -> reads lo m s s'.
Proof. intros; exists n; done. Qed.

Lemma reads_trans lo m m' s s1 s2 :
  same s s1 -> reads lo m s1 s2 -> (m' <= m)%nat -> reads lo m' s s2.
Proof.
  intros H (n & Hn & Hg & Hs) Hm; exists n; split; [lia |]; split; [done |].
  eapply same_fields_trans; done.
Qed.

Lemma Recognize_reads lo n k s :
  good lo n s -> k <> kNEWLINE -> k <> kEOS ->
  returns (Recognize src k s) (fun s' => good lo (next n) s' /\ same s s').
Proof.
  intros H Hk He; unfold Recognize; call (ReadChar_reads lo n s H) as s1 (H1 & E1).
  apply returns_Ok; split; [apply good_with_kind |]; done.
Qed.

(** * Loops over characters *)
Lemma current_advance n s : current_token_ (advance n s) = current_token_ s.
Proof. unfold advance; destruct (_ <? _)%nat; done. Qed.

Lemma read_while_stands p fuel k n s :
  p 0 = false -> stands n s -> (List.length src - n < fuel)%nat ->
  returns (read_while src p fuel k s)
    (fun r => exists n', (n <= n')%nat /\ stands n' (snd r) /\ same s (snd r) /\
              current_token_ (snd r) = current_token_ s /\ p (c0_ (snd r)) = false).
Proof.
  intros Hp; revert k n s; induction fuel as [| fuel IH]; intros k n s H Hf; [lia |].
  cbn [read_while]; destruct (p (c0_ s)) eqn:E.
  - assert (Hn : (n < List.length src)%nat).
    { apply look_in; intros E'; rewrite (stands_c0 _ _ H), E', Hp in E; done. }
    pose proof (next_lt n Hn); rewrite (ReadChar_ok n s H); cbn [obind].
    eapply returns_mono; [apply (IH _ (next n) _ (stands_advance n s H)); lia |].
    intros [k' s'] (n' & Hn' & Hs & Es & Et & Hq); exists n'; split; [lia |]; split; [done |].
    split; [eapply same_fields_trans; [apply (same_advance n s) | done] |].
    rewrite Et, current_advance; done.
  - apply returns_Ok; exists n; done.
Qed.

Lemma skip_while_stands p n s :
  p 0 = false -> stands n s ->
  returns (skip_while src p s)
    (fun s' => exists n', (n <= n')%nat /\ stands n' s' /\ same s s' /\
               current_token_ s' = current_token_ s /\ p (c0_ s') = false).
Proof.
  intros Hp H; unfold skip_while, char_fuel.
  call (read_while_stands p _ 0 n s Hp H) as [k s1] Hr; [lia |].
  apply returns_Ok; exact Hr.
Qed.

Lemma read_while_reads p lo fuel k n s :
  p 0 = false -> good lo n s -> (List.length src - n < fuel)%nat ->
  returns (read_while src p fuel k s) (fun r => reads lo n s (snd r) /\ p (c0_ (snd r)) = false).
Proof.
  intros Hp [Hs Hpl Hk] Hf; eapply returns_mono; [apply (read_while_stands p fuel k n s Hp Hs Hf) |].
  intros [k' s'] (n' & Hn & Hs' & Es & Et & Hq); split; [| done].
  apply (reads_intro _ _ n'); [| done..].
  split; [done | rewrite Et; apply (placed_le _ n) | rewrite Et]; done.
Qed.

Lemma skip_while_reads p lo n s :
  p 0 = false -> good lo n s ->
  returns (skip_while src p s) (fun s' => reads lo n s s' /\ p (c0_ s') = false).
Proof.
  intros Hp H; unfold skip_while, char_fuel.
  call (read_while_reads p lo _ 0 n s Hp H) as [k s1] Hr; [lia |].
  apply returns_Ok; done.
Qed.

Lemma comment_loop_reads lo fuel level n s :
  good lo n s -> (List.length src - n < fuel)%nat ->
  returns (comment_loop src fuel level s) (fun r => reads lo n s (snd r)).
Proof.
  revert level n s; induction fuel as [| fuel IH]; intros level n s H Hf; [lia |].
  cbn [comment_loop]; call (ReadChar_reads lo n s H) as s1 (G1 & E1).
  pose proof (next_ge n); destruct (Z.eqb_spec (c0_ s1) kNul) as [| Hc].
  { apply returns_Ok, (reads_intro _ _ (next n)); done. }
  pose proof (good_in _ _ _ G1 Hc) as Hn1.
  assert (Hn : (n < List.length src)%nat) by lia; pose proof (next_lt n Hn).
  pose proof (next_lt _ Hn1).
  assert (Hnext : forall level, returns (let* s := ReadChar src s1 in comment_loop src fuel level s)
                                  (fun r => reads lo n s (snd r))).
  { intros l; call (ReadChar_reads lo _ s1 G1) as s2 (G2 & E2).
    eapply returns_mono; [apply (IH l _ s2 G2); lia |]; intros r Hr.
    apply (reads_trans _ (next (next n)) _ _ s2); [apply (same_fields_trans _ s1) | |]; done || lia. }
  destruct (_ && _); [apply Hnext |]; destruct (_ && _).
  - destruct (level - 1 =? 0); [| apply Hnext].
    call (ReadChar_reads lo _ s1 G1) as s2 (G2 & E2); apply returns_Ok.
    apply (reads_intro _ _ _ s s2 G2); [lia | apply (same_fields_trans _ s1); done].
  - eapply returns_mono; [apply (IH level _ s1 G1); lia |]; intros r Hr.
    apply (reads_trans _ (next n) _ _ s1); done || lia.
Qed.

(** * Tokens without strings *)
Ltac same_solve :=
  first [exact (same_fields_refl _) | assumption
        | eapply same_fields_trans; [eassumption |]; same_solve].

(** The next call reads a character, or is a call with the specification [H]. *)
Ltac read_char :=
  match goal with
  | H : good ?lo ?n ?s |- returns (obind (ReadChar src ?s) _) _ =>
      let s' := fresh "s" in let G := fresh "G" in let E := fresh "E" in
      eapply returns_bind; [exact (ReadChar_reads lo n s H) | cbn beta; intros s' [G E]]
  | H : good ?lo ?n ?s |- returns (obind (Recognize src _ ?s) _) _ =>
      let s' := fresh "s" in let G := fresh "G" in let E := fresh "E" in
      eapply returns_bind;
        [apply (Recognize_reads lo n _ s H); discriminate | cbn beta; intros s' [G E]]
  | H : good ?lo ?n ?s |- returns (obind (skip_while src ?p ?s) _) _ =>
      let s' := fresh "s" in let n' := fresh "n" in let Hn := fresh "Hn" in
      let G := fresh "G" in let E := fresh "E" in let P := fresh "P" in
      eapply returns_bind;
        [apply (skip_while_reads p lo n s eq_refl H)
        | cbn beta; intros s' [(n' & Hn & G & E) P]]
  end.

(** The end of a run: it stands at the offset of the last specification. *)
Ltac reads_done :=
  apply returns_Ok; eapply reads_intro;
  [ | | same_solve];
  [first [eassumption
         | apply good_with_literal; eassumption
         | apply good_ErrorMsg; eassumption
         | apply good_with_kind; [eassumption | discriminate..]
         | apply good_with_literal, good_with_kind; [eassumption | discriminate..]
         | apply good_with_kind; [apply good_with_literal; eassumption | discriminate..]]
  | try lia].

Lemma next_ge2 n : (n <= next (next n))%nat.
Proof. pose proof (next_ge n); pose proof (next_ge (next n)); lia. Qed.

Hint Resolve next_ge : core.

Lemma Recognize_one lo n k s :
  good lo n s -> (n < List.length src)%nat -> k <> kNEWLINE -> k <> kEOS ->
  returns (Recognize src k s) (fun s' => reads lo (S n) s s').
Proof.
  intros H Hn Hk He; eapply returns_mono; [apply (Recognize_reads lo n k s H Hk He) |].
  intros s' [G E]; apply (reads_intro _ _ (next n)); [done | pose proof (next_lt n Hn); lia | done].
Qed.

Lemma ConsumeLineComment_reads lo n s :
  good lo n s -> c0_ s = "/"%code ->
  returns (ConsumeLineComment src s) (fun s' => reads lo n s s').
Proof.
  intros H Hc; unfold ConsumeLineComment; rewrite Hc; cbn.
  read_char; read_char; pose proof (next_ge n0); reads_done.
Qed.

Lemma ConsumeBlockComment_reads lo n s :
  good lo n s -> c0_ s = "*"%code ->
  returns (ConsumeBlockComment src s) (fun s' => reads lo n s s').
Proof.
  intros H Hc; unfold ConsumeBlockComment; rewrite Hc; cbn -[comment_loop].
  read_char; pose proof (next_ge n).
  call (comment_loop_reads lo _ 1 _ _ G) as [level s'] (n' & Hn & G' & E');
    [unfold char_fuel; lia |].
  apply returns_Ok, (reads_intro _ _ n'); [| lia | same_solve].
  destruct (level =? 0); apply good_with_kind; done.
Qed.

(** [match_chars] compares the rest of an identifier with the rest of a keyword. *)
Lemma match_chars_ok fuel keyword n len k :
  (n + len <= List.length src)%nat -> (k <= len)%nat -> (len - k <= fuel)%nat ->
  returns (match_chars src fuel keyword (Z.of_nat n) (Z.of_nat len) (Z.of_nat k))
    (fun j => j = Z.of_nat len <->
              forall i, (k <= i < len)%nat -> nth i keyword 0 = raw (n + i)).
Proof.
  intros Hn; revert k; induction fuel as [| fuel IH]; intros k Hk Hf; cbn [match_chars];
    (destruct (Z.ltb_spec (Z.of_nat k) (Z.of_nat len));
     [| apply returns_Ok; split; [intros _ i Hi; lia | lia]]); [lia |].
  rewrite <- Nat2Z.inj_add, CharAt_raw by lia; cbn [obind]; rewrite Nat2Z.id.
  destruct (Z.eqb_spec (nth k keyword 0) (raw (n + k))) as [E | E].
  - rewrite Z.add_1_r, <- Nat2Z.inj_succ.
    eapply returns_mono; [apply IH; lia |]; intros j Hj; rewrite Hj.
    split; intros Hi i ?; [destruct (decide (i = k)) as [-> |]; [done |] |]; apply Hi; lia.
  - apply returns_Ok; split; [lia |]; intros Hi; destruct E; apply Hi; lia.
Qed.

(** The text of an identifier is its slice of the source. *)
Lemma nth_slice n len i :
  (i < len)%nat -> nth i (slice src (Z.of_nat n) (Z.of_nat len)) 0 = raw (n + i).
Proof.
  intros Hi; unfold slice; rewrite !Nat2Z.id, nth_lookup, lookup_take_lt, lookup_drop by done.
  unfold raw; destruct (src !! (n + i)%nat); done.
Qed.

Lemma length_slice n len :
  (n + len <= List.length src)%nat -> List.length (slice src (Z.of_nat n) (Z.of_nat len)) = len.
Proof. intros H; unfold slice; rewrite !Nat2Z.id, length_take, length_drop; lia. Qed.

Lemma slice_eq keyword n len :
  (n + len <= List.length src)%nat -> List.length keyword = len ->
  (keyword = slice src (Z.of_nat n) (Z.of_nat len) <->
   forall i, (i < len)%nat -> nth i keyword 0 = raw (n + i)).
Proof.
  intros Hn Hk; split.
  - intros -> i Hi; apply nth_slice, Hi.
  - intros H; apply (nth_ext _ _ 0 0); [rewrite length_slice; done |].
    intros i Hi; rewrite nth_slice by lia; apply H; lia.
Qed.

(** The entries have the length that they say, and are ordered by their first letters. *)
Definition entry_ok (e : KeywordTable) : Prop :=
  keyword_len e = Z.of_nat (List.length (keyword_chars e)) /\ keyword_chars e <> [] /\
  keyword_kind e <> kNEWLINE /\ keyword_kind e <> kEOS /\
  keyword_symbol e = keyword_chars e.
Definition first_char (e : KeywordTable) : Z := nth 0 (keyword_chars e) 0.

Lemma keywords_ok : Forall entry_ok keywords_.
Proof. vm_compute; repeat (constructor; [repeat split; discriminate |]); constructor. Qed.

Lemma keywords_sorted : StronglySorted (fun a b => first_char a <= first_char b) keywords_.
Proof.
  apply Sorted_StronglySorted; [intros a b c; lia |].
  vm_compute; repeat (constructor; [| (constructor; discriminate) || constructor]); constructor.
Qed.

(** The result of a search for a keyword with the given text. *)
Definition finds (table : list KeywordTable) (text : list Z) (r : option KeywordTable) : Prop :=
  match r with
  | Some e => e ∈ table /\ keyword_chars e = text
  | None => forall e, e ∈ table -> keyword_chars e <> text
  end.

Lemma finds_cons e table text r :
  keyword_chars e <> text -> finds table text r -> finds (e :: table) text r.
Proof.
  intros He; destruct r as [e' |]; cbn; [intros [? ?]; split; [constructor |]; done |].
  intros H e' [-> |]%elem_of_cons; auto.
Qed.

Lemma keyword_loop_ok table n len :
  (n + len <= List.length src)%nat -> (0 < len)%nat ->
  Forall entry_ok table -> StronglySorted (fun a b => first_char a <= first_char b) table ->
  (forall e, e ∈ table -> raw n <= first_char e) ->
  returns (keyword_loop src table (raw n) (Z.of_nat n) (Z.of_nat len))
    (finds table (slice src (Z.of_nat n) (Z.of_nat len))).
Proof.
  intros Hn Hlen Hok Hsort Hfirst.
  induction table as [| e table IH]; cbn [keyword_loop]; [apply returns_Ok; intros e []%elem_of_nil |].
  inversion_clear Hok as [| ? ? (Hl & Hne & _) Hok']; inversion_clear Hsort as [| ? ? Hsort' Hall].
  specialize (IH Hok' Hsort' ltac:(intros; apply Hfirst; constructor; done)).
  pose proof (Hfirst e ltac:(constructor)) as Hle; fold (first_char e).
  assert (H0 : raw n = nth 0 (slice src (Z.of_nat n) (Z.of_nat len)) 0).
  { rewrite nth_slice, Nat.add_0_r by lia; done. }
  destruct (Z.leb_spec (first_char e) (raw n)) as [Hc | Hc].
  - assert (Hrest : keyword_chars e <> slice src (Z.of_nat n) (Z.of_nat len) ->
      returns (keyword_loop src table (raw n) (Z.of_nat n) (Z.of_nat len))
        (finds (e :: table) (slice src (Z.of_nat n) (Z.of_nat len)))).
    { intros Hd; eapply returns_mono; [apply IH |]; intros r; apply finds_cons, Hd. }
    rewrite Hl; destruct (Z.eqb_spec (Z.of_nat (List.length (keyword_chars e))) (Z.of_nat len)) as [El | El].
    + apply Nat2Z.inj in El; rewrite Nat2Z.id.
      call (match_chars_ok len (keyword_chars e) n len 1 Hn) as j Hj; [lia.. |].
      assert (Hiff : j = Z.of_nat len <-> keyword_chars e = slice src (Z.of_nat n) (Z.of_nat len)).
      { rewrite Hj, (slice_eq _ n len Hn El); split; intros Hi i ?; [| apply Hi; lia].
        destruct i as [| i]; [rewrite Nat.add_0_r; unfold first_char in *; lia | apply Hi; lia]. }
      destruct (Z.eqb_spec j (Z.of_nat len)); [apply returns_Ok; split; [constructor | tauto] |].
      apply Hrest; tauto.
    + apply Hrest; intros E; rewrite E, length_slice in El; done.
  - apply returns_Ok; intros e' He' E.
    assert (first_char e <= first_char e').
    { apply elem_of_cons in He' as [-> |]; [lia |].
      eapply Forall_forall in Hall; [exact Hall | done]. }
    unfold first_char in *; rewrite E in *; lia.
Qed.

(** The keywords before the offset of a letter start with another one, and those after it
    do not start with a smaller one. *)
Definition offset_check (k : nat) : bool :=
  let i := Z.to_nat (nth k keywords_char_offset_ 0) in
  forallb (fun e => negb (first_char e =? "a"%code + Z.of_nat k)) (take i keywords_)
  && forallb (fun e => "a"%code + Z.of_nat k <=? first_char e) (drop i keywords_).

Lemma offsets_checked : forallb offset_check (seq 0 26) = true.
Proof. vm_compute; reflexivity. Qed.

Lemma offset_ok c e :
  "a"%code <= c <= "z"%code ->
  let i := Z.to_nat (nth (Z.to_nat (c - "a"%code)) keywords_char_offset_ 0) in
  (e ∈ take i keywords_ -> first_char e <> c) /\ (e ∈ drop i keywords_ -> c <= first_char e).
Proof.
  intros Hc; set (k := Z.to_nat (c - "a"%code)).
  pose proof offsets_checked as Hall; rewrite forallb_forall in Hall.
  assert (Hk : In k (seq 0 26)) by (apply in_seq; lia).
  specialize (Hall k Hk); unfold offset_check in Hall; cbv zeta in Hall.
  apply andb_true_iff in Hall as [H1 H2]; fold k.
  rewrite forallb_forall in H1, H2.
  replace ("a"%code + Z.of_nat k) with c in * by lia.
  split; intros He%list_elem_of_In; [specialize (H1 e He) | specialize (H2 e He)]; lia.
Qed.

Lemma find_keyword_ok n len :
  (n + len <= List.length src)%nat -> (0 < len)%nat ->
  returns (find_keyword src (raw n) (Z.of_nat n) (Z.of_nat len))
    (finds keywords_ (slice src (Z.of_nat n) (Z.of_nat len))).
Proof.
  intros Hn Hlen; unfold find_keyword; set (text := slice src (Z.of_nat n) (Z.of_nat len)).
  assert (H0 : raw n = nth 0 text 0) by (unfold text; rewrite nth_slice, Nat.add_0_r by lia; done).
  destruct (_ && _) eqn:Ec.
  - pose proof (fun e => offset_ok (raw n) e ltac:(lia)) as Hoff; cbn zeta in Hoff.
    set (i := Z.to_nat _) in *.
    eapply returns_mono.
    { apply (keyword_loop_ok (drop i keywords_) n len Hn Hlen).
      - apply Forall_drop, keywords_ok.
      - pose proof keywords_sorted as Hs; rewrite <- (take_drop i keywords_) in Hs.
        apply StronglySorted_app in Hs as (_ & _ & Hs); exact Hs.
      - intros e; apply Hoff. }
    fold text; intros [e |]; cbn [finds].
    + intros [He Ht]; split; [| done].
      rewrite <- (take_drop i keywords_); apply elem_of_app; right; exact He.
    + intros H e He Ht; rewrite <- (take_drop i keywords_) in He.
      apply elem_of_app in He as [He | He]; [| apply (H e He Ht)].
      apply Hoff in He; apply He; unfold first_char; rewrite Ht; done.
  - apply returns_Ok; intros e He Ht; rewrite <- Ht in H0; fold (first_char e) in H0.
    assert (Hl : Forall (fun e => "a"%code <= first_char e <= "z"%code) keywords_).
    { vm_compute; repeat (constructor; [split; discriminate |]); constructor. }
    eapply Forall_forall in Hl; [| exact He]; cbn in Hl; rewrite <- H0 in Hl; lia.
Qed.

(** * Identifiers *)

(** The number of units at the start of a list that satisfy [p]. *)
Fixpoint run_length (p : Z -> bool) (l : list Z) : nat :=
  match l with
  | c :: l => if p c then S (run_length p l) else O
  | [] => O
  end.

Lemma run_length_drop p n :
  p 0 = false ->
  run_length p (drop n src) = if p (raw n) then S (run_length p (drop (S n) src)) else O.
Proof.
  intros Hp; unfold raw; destruct (src !! n) as [c |] eqn:E.
  - rewrite (drop_S src c n E); done.
  - rewrite drop_ge, Hp by (apply lookup_ge_None_1; done); done.
Qed.

(** A predicate that holds of no line end. *)
Definition plain (p : Z -> bool) : Prop := p 0 = false /\ p kLineFeed = false /\ p kReturn = false.

Lemma plain_look p n : plain p -> p (look n) = p (raw n).
Proof.
  intros (_ & Hf & Hr); unfold look; destruct (Z.eqb_spec (raw n) kReturn) as [-> |]; congruence.
Qed.

Lemma read_while_exact p lo fuel k n s :
  plain p -> good lo n s -> (List.length src - n < fuel)%nat ->
  returns (read_while src p fuel k s)
    (fun r => let m := run_length p (drop n src) in
              fst r = k + Z.of_nat m /\ good lo (n + m) (snd r) /\ same s (snd r) /\
              current_token_ (snd r) = current_token_ s).
Proof.
  intros Hp; revert k n s; induction fuel as [| fuel IH]; intros k n s H Hf; [lia |].
  cbn [read_while]; rewrite (good_c0 lo n s H), (plain_look p n Hp).
  rewrite (run_length_drop p n) by apply Hp; destruct (p (raw n)) eqn:E.
  - assert (Hn : (n < List.length src)%nat).
    { apply raw_in; intros E'; rewrite E' in E; destruct Hp; congruence. }
    rewrite (ReadChar_ok n s (good_stands _ _ _ H)); cbn [obind].
    pose proof (good_advance lo n s H) as G; rewrite next_plain in G; [| done |].
    2:{ intros E'; rewrite <- (plain_look p n Hp), E' in E; destruct Hp as (_ & ? & _); congruence. }
    eapply returns_mono; [apply (IH (k + 1) (S n) _ G); lia |].
    intros [k' s']; cbn [fst snd]; intros (-> & G' & Es & Et); split; [lia |].
    split; [rewrite Nat.add_succ_r; exact G' |].
    split; [eapply same_fields_trans; [apply (same_advance n s) | done] |].
    rewrite Et; apply current_advance.
  - apply returns_Ok; cbn; rewrite Z.add_0_r, Nat.add_0_r; done.
Qed.

(** What a text that has the form of an identifier is: a keyword, or an identifier. *)
Definition identified (key text : list Z) (d : TokenDescriptor) : Prop :=
  (exists e, e ∈ keywords_ /\ keyword_chars e = text /\
             kind d = keyword_kind e /\ literal d = Some (Symbol text)) \/
  ((forall e, e ∈ keywords_ -> keyword_chars e <> text) /\ kind d = kIDENT /\
   literal d = Some (Symbol (if nth 0 text 0 =? kPrivateIdentifierStart then text ++ key else text))).

Lemma ident_char_plain allow : plain (ident_char allow).
Proof. destruct allow; done. Qed.

Lemma start_ident_char allow c :
  IsIdentStartChar c = true -> allow || negb (c =? "$"%code) = true -> ident_char allow c = true.
Proof.
  unfold IsIdentStartChar, ident_char, IsIdentChar; intros H ->.
  destruct (IsLetter c), (IsDecimalDigit c), (c =? "_"%code), (c =? "$"%code); done.
Qed.

Lemma ScanIdentChars_ok key allow lo n s :
  good lo n s -> IsIdentStartChar (look n) = true -> allow || negb (look n =? "$"%code) = true ->
  returns (ScanIdentChars src key allow s)
    (fun s' => let m := run_length (ident_char allow) (drop n src) in
               (0 < m)%nat /\ good lo (n + m) s' /\ same s s' /\
               offset (current_token_ s') = offset (current_token_ s) /\
               position (current_token_ s') = position (current_token_ s) /\
               identified key (slice src (Z.of_nat n) (Z.of_nat m)) (current_token_ s')).
Proof.
  intros H Hi Ha; unfold ScanIdentChars; rewrite (good_c0 lo n s H), Hi, Ha.
  pose proof (start_ident_char allow (look n) Hi Ha) as Hc.
  assert (Hn : (n < List.length src)%nat).
  { apply look_in; intros E; rewrite E in Hi; done. }
  rewrite (stands_pos _ _ (good_stands _ _ _ H)), CharAt_raw by done; cbn [obind].
  call (read_while_exact (ident_char allow) lo (char_fuel src) 0 n s (ident_char_plain allow) H) as
    [k s1] (Hk & G & Es & Et); [unfold char_fuel; lia |].
  cbn [fst snd] in *; rewrite Z.add_0_l in Hk; subst k.
  set (m := run_length (ident_char allow) (drop n src)) in *.
  assert (Hm : (0 < m)%nat).
  { unfold m; rewrite run_length_drop by (destruct allow; done).
    rewrite <- (plain_look _ n (ident_char_plain allow)), Hc; lia. }
  pose proof (good_bound _ _ _ G) as Hb.
  call (find_keyword_ok n m ltac:(lia) Hm) as r Hr.
  set (text := slice src (Z.of_nat n) (Z.of_nat m)) in *.
  assert (H0 : raw n = nth 0 text 0) by (unfold text; rewrite nth_slice, Nat.add_0_r by lia; done).
  destruct r as [e |].
  - destruct Hr as [He Ht]; pose proof keywords_ok as Hok; eapply Forall_forall in Hok; [| exact He].
    destruct Hok as (_ & _ & Hk1 & Hk2 & Hsym); apply returns_Ok.
    split; [done |]; split; [apply good_with_kind; auto |].
    cbn; rewrite Et; split_and!; try done.
    left; exists e; cbn; rewrite Hsym, Ht; done.
  - apply returns_Ok; split; [done |]; split; [apply good_with_literal, good_with_kind; done |].
    cbn; rewrite Et, H0; split_and!; try done; right; done.
Qed.

(** * Numbers *)
Lemma number_literal_reads lo n s :
  good lo n s -> returns (number_literal src s) (fun s' => reads lo n s s').
Proof. intros H; unfold number_literal; destruct (negb _); reads_done. Qed.

Lemma scan_fraction_reads dec lo n s :
  good lo n s -> returns (scan_fraction src dec s) (fun s' => reads lo n s s').
Proof.
  intros H; unfold scan_fraction; destruct (_ && _); [| reads_done].
  rewrite (LookaheadChar_1 n s) by apply H; cbn [obind]; destruct (IsDecimalDigit _); [| reads_done].
  read_char; pose proof (next_ge n).
  eapply returns_mono; [apply (skip_while_reads _ lo _ _ eq_refl G) |].
  intros s1 [Hr _]; apply (reads_trans _ (next n) _ _ s0); done || lia.
Qed.

Lemma scan_exponent_reads lo n s :
  good lo n s -> returns (scan_exponent src s) (fun r => reads lo n s (snd r)).
Proof.
  intros H; unfold scan_exponent; destruct (_ || _); [| reads_done].
  rewrite (LookaheadChar_1 n s) by apply H; cbn [obind]; destruct (_ || _); [| reads_done].
  read_char; pose proof (next_ge n).
  assert (Hsign : returns (if (c0_ s0 =? "-"%code) || (c0_ s0 =? "+"%code) then ReadChar src s0 else Ok s0)
                    (fun s' => reads lo n s0 s')).
  { destruct (_ || _); [| reads_done].
    eapply returns_mono; [apply (ReadChar_reads lo _ _ G) |]; intros s1 [G1 E1].
    pose proof (next_ge (next n)); apply (reads_intro _ _ _ _ _ G1); [lia | done]. }
  call Hsign as s1 (n1 & Hn1 & G1 & E1); destruct (negb _); [reads_done |].
  read_char; reads_done.
Qed.

Lemma ScanNumber_reads dec lo n s :
  good lo n s -> IsDecimalDigit (look n) = true ->
  returns (ScanNumber src dec s) (fun s' => reads lo (S n) s s').
Proof.
  intros H Hd; unfold ScanNumber; rewrite (good_c0 lo n s H), Hd.
  assert (Hn : (n < List.length src)%nat) by (apply look_in; intros E; rewrite E in Hd; done).
  pose proof (next_lt n Hn) as Hlt.
  eapply returns_bind; [apply (Recognize_reads lo n _ s H); destruct dec; discriminate |].
  cbn beta; intros s1 [G1 E1]; destruct (_ && _).
  - read_char; pose proof (next_ge (next n)); destruct (negb _); [reads_done |].
    read_char; eapply returns_mono; [apply (number_literal_reads lo _ _ G0) |].
    intros s' Hr; eapply reads_trans; [| exact Hr | lia]; same_solve.
  - read_char; call (scan_fraction_reads dec lo _ _ G) as s2 (n2 & Hn2 & G2 & E2).
    call (scan_exponent_reads lo _ _ G2) as [complete s3] (n3 & Hn3 & G3 & E3); cbn [snd] in *.
    destruct complete; [| reads_done].
    eapply returns_mono; [apply (number_literal_reads lo _ _ G3) |].
    intros s' Hr; eapply reads_trans; [| exact Hr | lia]; same_solve.
Qed.

(** * String literals *)
Lemma FromUTF32_total l : exists units, FromUTF32 l = Ok units.
Proof.
  unfold FromUTF32; destruct (forallb _ l); [eauto |].
  induction l as [| c l [units IH]]; cbn [from_code_points]; [eauto |].
  assert (exists u, from_code_point c = Ok u) as [u ->].
  { unfold from_code_point, Utf16.Encode; destruct (IsSupplementary c) eqn:E; [| eauto].
    unfold IsSupplementary in E; destruct (Z.gtb_spec c Utf16.kMaxCodeUnit); cbn; [eauto |].
    unfold Utf16.kMaxCodeUnit in *; lia. }
  cbn; rewrite IH; cbn; eauto.
Qed.

Lemma HexDigitToInt_total c : IsHexDigit c = true -> exists d, Utils.HexDigitToInt c = Ok d.
Proof.
  intros H; unfold Utils.HexDigitToInt; change (Utils.IsHexDigit c) with (IsHexDigit c); rewrite H.
  destruct (Utils.IsDecimalDigit c); [eauto |]; destruct (_ && _); eauto.
Qed.

Lemma scan_hex_digits_reads digits v lo n s :
  good lo n s -> returns (scan_hex_digits src digits v s) (fun r => reads lo n s (snd r)).
Proof.
  revert v n s; induction digits as [| digits IH]; intros v n s H; cbn [scan_hex_digits].
  { reads_done. }
  read_char; pose proof (next_ge n); destruct (IsHexDigit (c0_ s0)) eqn:E1; cbn [negb].
  - destruct (HexDigitToInt_total _ E1) as [d ->]; cbn [obind].
    eapply returns_mono; [apply (IH _ _ _ G) |]; intros r Hr.
    apply (reads_trans _ (next n) _ _ s0); done.
  - reads_done.
Qed.

Lemma scan_hex_range_reads rounds i min v lo n s :
  good lo n s -> returns (scan_hex_range src rounds i min v s) (fun r => reads lo n s (snd r)).
Proof.
  revert i v n s; induction rounds as [| rounds IH]; intros i v n s H; cbn [scan_hex_range].
  { reads_done. }
  destruct (IsHexDigit (c0_ s)) eqn:E1; cbn [negb]; [| destruct (i <? min); reads_done].
  destruct (HexDigitToInt_total _ E1) as [d ->]; cbn [obind].
  read_char; pose proof (next_ge n); eapply returns_mono; [apply (IH _ _ _ _ G) |]; intros r Hr.
  apply (reads_trans _ (next n) _ _ s0); done.
Qed.

Lemma check_code_point_reads valid c lo m s s' :
  reads lo m s s' -> reads lo m s (snd (check_code_point valid c s')).
Proof.
  unfold check_code_point; destruct (_ && _); [| done].
  intros (n & Hn & G & E); exists n; split; [done |]; split; [apply good_ErrorMsg |]; done.
Qed.

Lemma ScanHexDigits_range_reads min max lo n s :
  good lo n s -> returns (ScanHexDigits_range src min max s) (fun r => reads lo n s (snd r)).
Proof.
  intros H; unfold ScanHexDigits_range; read_char; pose proof (next_ge n).
  eapply returns_mono; [apply (scan_hex_range_reads _ _ _ _ lo _ _ G) |]; intros r Hr.
  apply (reads_trans _ (next n) _ _ s0); done.
Qed.

Lemma ScanEscapedCodePoint_reads lo n s :
  good lo n s -> (c0_ s =? "u"%code) || (c0_ s =? "x"%code) = true ->
  returns (ScanEscapedCodePoint src s) (fun r => reads lo n s (snd r)).
Proof.
  intros H Hc; unfold ScanEscapedCodePoint, ScanHexDigits; rewrite Hc.
  destruct (c0_ s =? "x"%code).
  { call (scan_hex_digits_reads _ 0 lo n s H) as [[valid c] s1] Hr.
    apply returns_Ok, check_code_point_reads, Hr. }
  rewrite (LookaheadChar_1 n s) by apply H; cbn [obind]; destruct (negb _).
  { call (scan_hex_digits_reads _ 0 lo n s H) as [[valid c] s1] Hr.
    apply returns_Ok, check_code_point_reads, Hr. }
  read_char; pose proof (next_ge n).
  call (ScanHexDigits_range_reads 1 6 lo _ _ G) as [[valid c] s1] (n1 & Hn1 & G1 & E1).
  cbn [snd] in *; destruct (_ && _); [reads_done |].
  apply returns_Ok, check_code_point_reads, (reads_intro _ _ n1); [done | lia | same_solve].
Qed.

(** The mode after the end of a string literal. *)
Definition ended (s : Scanner) : list ScanContext * Z * bool * Z :=
  (saved_context_ s, kNul, false, brace_level_ s).

(** A run that reads at least to [m] and ends the string literal. *)
Definition ends (lo m : nat) (s s' : Scanner) : Prop :=
  exists n, (m <= n)%nat /\ good lo n s' /\ mode s' = ended s /\ extras s' = extras s.

Lemma ended_same s s' : same s s' -> ended s' = ended s.
Proof. intros [[= Hc _ _ Hb] _]; unfold ended; congruence. Qed.

Lemma ends_same lo m m' s s1 s2 :
  same s s1 -> ends lo m s1 s2 -> (m' <= m)%nat -> ends lo m' s s2.
Proof.
  intros Hs (n & Hn & G & Hm & He) Hle; exists n; split; [lia |]; split; [done |].
  split; [rewrite Hm; apply ended_same | rewrite He; apply Hs]; done.
Qed.

Lemma ends_intro lo n m s s' :
  good lo n s' -> (m <= n)%nat -> same s s' -> ends lo m s (EndStringLiteral s').
Proof.
  intros G Hn Hs; exists n; split; [done |]; split; [apply good_set_mode, G |].
  split; [apply (ended_same s s') | apply Hs]; done.
Qed.

Lemma unterminated_ends lo n m s s' :
  good lo n s' -> (m <= n)%nat -> same s s' -> ends lo m s (unterminated s').
Proof. intros; apply (ends_intro _ n); [apply good_ErrorMsg | |]; done. Qed.

Lemma scan_escape_reads lo n s :
  good lo n s -> c0_ s <> 0 ->
  returns (scan_escape src s)
    (fun r => match fst r with Some _ => reads lo (S n) s (snd r) | None => ends lo n s (snd r) end).
Proof.
  intros H Hc; unfold scan_escape; pose proof (next_lt n (good_in _ _ _ H Hc)).
  read_char; cbv zeta.
  repeat (match goal with |- returns (if (c0_ s0 =? _) then _ else _) _ => destruct (c0_ s0 =? _) end;
          [reads_done |]).
  destruct (_ || _) eqn:E1.
  - call (ScanEscapedCodePoint_reads lo _ _ G E1) as [c s1] (n1 & Hn1 & G1 & E2); cbn [snd] in *.
    apply returns_Ok; cbn; apply (reads_intro _ _ n1); [done | lia | same_solve].
  - destruct (is_unterminated s0); [| reads_done].
    apply returns_Ok, (unterminated_ends _ (next n)); done || lia.
Qed.

Lemma at_string_end_ok n s : stands n s -> exists b, at_string_end src s = Ok b.
Proof.
  intros H; unfold at_string_end; destruct (negb _); [eauto |].
  rewrite (LookaheadChar_1 n s H); cbn [obind]; destruct (_ =? _); [| eauto].
  rewrite (LookaheadChar_2 n s H); cbn [obind]; eauto.
Qed.

Lemma end_string_ends l lo n s :
  good lo n s -> returns (end_string src l s) (fun s' => ends lo n s s').
Proof.
  intros H; unfold end_string.
  assert (H1 : returns (if string_is_multiline_ s then let* s := ReadChar src s in ReadChar src s else Ok s)
                 (fun s' => reads lo n s s')).
  { destruct (string_is_multiline_ s); [| reads_done]; read_char.
    eapply returns_mono; [apply (ReadChar_reads lo _ _ G) |]; intros s1 [G1 E1].
    apply (reads_intro _ _ _ _ _ G1); [apply next_ge2 | same_solve]. }
  call H1 as s1 (n1 & Hn1 & G1 & E1).
  assert (H2 : returns (if kind_is kERROR s1 then ReadChar src s1
                        else let* s := Recognize src kSTRING s1 in
                             let* units := FromUTF32 l in Ok (with_literal (Symbol units) s))
                 (fun s' => reads lo n s s')).
  { pose proof (next_ge n1); destruct (kind_is kERROR s1).
    - eapply returns_mono; [apply (ReadChar_reads lo _ _ G1) |]; intros s2 [G2 E2].
      apply (reads_intro _ _ _ _ _ G2); [lia | same_solve].
    - read_char; destruct (FromUTF32_total l) as [units ->]; cbn [obind]; reads_done. }
  call H2 as s2 (n2 & Hn2 & G2 & E2).
  apply returns_Ok, (ends_intro _ n2); done.
Qed.

Lemma end_piece_reads l lo n s :
  good lo n s -> returns (end_piece l s) (fun s' => reads lo n s s').
Proof.
  intros H; unfold end_piece; destruct (FromUTF32_total l) as [units ->]; cbn [obind].
  destruct (negb _); reads_done.
Qed.

Lemma scan_code_point_reads lo n s :
  good lo n s -> returns (scan_code_point src s) (fun r => reads lo n s (snd r)).
Proof.
  intros H; unfold scan_code_point; destruct (Utf16.IsLeadSurrogate _); [| reads_done].
  rewrite (LookaheadChar_1 n s) by apply H; cbn [obind]; destruct (Utf16.IsTrailSurrogate _); [| reads_done].
  read_char; pose proof (next_ge n); reads_done.
Qed.

(** A piece of a string literal ends the literal, reads on, or stands at a [$]. *)
Definition piece (lo n : nat) (s s' : Scanner) : Prop :=
  ends lo n s s' \/ reads lo (S n) s s' \/ (reads lo n s s' /\ c0_ s = "$"%code).

Lemma piece_later lo n m s s1 s' :
  piece lo m s1 s' -> same s s1 -> (n < m)%nat -> piece lo n s s'.
Proof.
  intros [H | [H | [H _]]] Hs Hm; [left | right; left..];
    [apply (ends_same _ m _ _ s1) | apply (reads_trans _ (S m) _ _ s1) | apply (reads_trans _ m _ _ s1)];
    done || lia.
Qed.

Lemma string_loop_piece fuel raw_ remove l lo n s :
  good lo n s -> (List.length src - n < fuel)%nat ->
  returns (string_loop src fuel raw_ remove l s) (fun s' => piece lo n s s').
Proof.
  revert remove l n s; induction fuel as [| fuel IH]; intros remove l n s H Hf; [lia |].
  cbn [string_loop]; destruct (is_unterminated s) eqn:Hu.
  { apply returns_Ok; left; apply (unterminated_ends _ n); done. }
  assert (Hc : c0_ s <> 0) by (intros E; unfold is_unterminated in Hu; rewrite E in Hu; done).
  pose proof (good_in _ _ _ H Hc) as Hn; pose proof (next_lt n Hn).
  assert (Hnext : forall ch n1 s1, good lo n1 s1 -> same s s1 -> (n <= n1)%nat ->
    returns (let '(r', l') := discard_first_line remove (l ++ [ch]) in
             let* s := ReadChar src s1 in string_loop src fuel raw_ r' l' s)
      (fun s' => piece lo n s s')).
  { intros ch n1 s1 G1 E1 Hn1; destruct (discard_first_line remove (l ++ [ch])) as [r' l'].
    assert (n < next n1)%nat.
    { pose proof (next_ge n1); destruct (decide (n1 < List.length src)%nat) as [Hin |]; [| lia].
      pose proof (next_lt n1 Hin); lia. }
    read_char; eapply returns_mono; [apply (IH _ _ _ _ G); lia |].
    intros s2 Hp; apply (piece_later _ _ (next n1) _ s0); [done | same_solve | lia]. }
  destruct (_ && _).
  - call (scan_escape_reads lo n s H Hc) as [[ch |] s1] Hr; cbn [fst snd] in Hr.
    + destruct Hr as (n1 & Hn1 & G1 & E1); apply (Hnext ch n1 s1); done || lia.
    + apply returns_Ok; left; done.
  - destruct (_ && _) eqn:Ed; [| destruct (Z.eqb_spec (c0_ s) (string_delimiter_ s)) as [Edel |]].
    + eapply returns_mono; [apply (end_piece_reads l lo n s H) |]; intros s' Hr.
      right; right; split; [done |]; apply andb_true_iff in Ed as [Ed _]; lia.
    + destruct (at_string_end_ok n s (good_stands _ _ _ H)) as [[] ->]; cbn [obind].
      * eapply returns_mono; [apply (end_string_ends l lo n s H) |]; intros s' He; left; done.
      * apply (Hnext _ n s); done || lia.
    + call (scan_code_point_reads lo n s H) as [ch s1] (n1 & Hn1 & G1 & E1); cbn [snd] in *.
      apply (Hnext ch n1 s1); done.
Qed.

Lemma ScanLiteralStringChars_piece raw_ remove lo n s :
  good lo n s -> IsScanningString s = true ->
  returns (ScanLiteralStringChars src raw_ remove s) (fun s' => piece lo n s s').
Proof.
  intros H Hs; unfold ScanLiteralStringChars; rewrite Hs; apply string_loop_piece; [done |].
  unfold char_fuel; lia.
Qed.

(** * One token *)

(** In a nested context there are open braces, and a saved context is that of a string. *)
Fixpoint contexts_ok (contexts : list ScanContext) (braces : Z) : Prop :=
  match contexts with
  | [] => True
  | ctx :: rest => 0 < braces /\ context_delimiter_ ctx <> kNul /\
                   contexts_ok rest (context_brace_level_ ctx)
  end.
Definition mode_ok (s : Scanner) : Prop := contexts_ok (saved_context_ s) (brace_level_ s).

(** A run from [s] that reads at least to [m] and keeps the contexts in order. *)
Definition scans (lo m : nat) (s s' : Scanner) : Prop :=
  exists n, (m <= n)%nat /\ good lo n s' /\ mode_ok s' /\ extras s' = extras s.

Lemma mode_ok_same s s' : same s s' -> mode_ok s -> mode_ok s'.
Proof. intros [[= Hc _ _ Hb] _]; unfold mode_ok; rewrite Hc, Hb; done. Qed.

Lemma mode_ok_ended s s' : mode s' = ended s -> mode_ok s -> mode_ok s'.
Proof. intros [= Hc _ _ Hb]; unfold mode_ok; rewrite Hc, Hb; done. Qed.

Lemma reads_scans lo m s s' : reads lo m s s' -> mode_ok s -> scans lo m s s'.
Proof.
  intros (n & Hn & G & E) Hm; exists n; split; [done |]; split; [done |].
  split; [apply (mode_ok_same s); done | apply E].
Qed.

Lemma piece_scans lo m n s s' : piece lo n s s' -> mode_ok s -> (m <= n)%nat -> scans lo m s s'.
Proof.
  intros [(n' & Hn & G & Hmode & He) | Hr] Hm Hle.
  - exists n'; split; [lia |]; split; [done |]; split; [apply (mode_ok_ended s) |]; done.
  - assert (Hr' : reads lo n s s').
    { destruct Hr as [(n' & Hn & H) | [Hr _]]; [exists n'; split; [lia |] |]; done. }
    apply reads_scans in Hr' as (n' & Hn & H); [exists n'; split; [lia |] |]; done.
Qed.

(** What the entry of a character in the table of operators has to satisfy. *)
Definition op_reads (extra : nat) (op : Z * (Scanner -> outcome Scanner)) : Prop :=
  forall lo n s, good lo n s -> c0_ s = fst op ->
  returns (snd op s) (fun s' => reads lo (n + extra) s s').

Lemma recognize_next_reads ops lo n s :
  Forall (op_reads 0) ops -> good lo n s -> returns (recognize_next ops s) (fun s' => reads lo n s s').
Proof.
  intros Hops H; induction Hops as [| [c m] ops Hop _ IH]; cbn [recognize_next]; [reads_done |].
  destruct (Z.eqb_spec (c0_ s) c); [| done].
  eapply returns_mono; [apply (Hop lo n s H); done |]; intros s'; rewrite Nat.add_0_r; done.
Qed.

Lemma operator_reads c k ops :
  c <> 0 -> k <> kNEWLINE -> k <> kEOS -> Forall (op_reads 0) ops ->
  op_reads 1 (c, operator src k ops).
Proof.
  intros Hc Hk He Hops lo n s H E; cbn [fst snd] in *; unfold operator.
  pose proof (next_lt n (good_in lo n s H ltac:(congruence))).
  call (Recognize_reads lo n k s H Hk He) as s1 (G1 & E1).
  eapply returns_mono; [apply (recognize_next_reads ops lo _ _ Hops G1) |]; intros s' Hr.
  apply (reads_trans _ (next n) _ _ s1); done || lia.
Qed.

Lemma op_weaken op : op_reads 1 op -> op_reads 0 op.
Proof.
  intros H lo n s Hg Hc; eapply returns_mono; [apply (H lo n s Hg Hc) |].
  intros s' (n' & Hn & Hr); exists n'; split; [lia | done].
Qed.

Lemma Recognize_op c k : c <> 0 -> k <> kNEWLINE -> k <> kEOS -> op_reads 1 (c, Recognize src k).
Proof.
  intros Hc Hk He lo n s H E; cbn [fst snd] in *; rewrite Nat.add_1_r.
  apply Recognize_one; [done | | done..].
  apply (good_in lo n s H); congruence.
Qed.

Lemma line_comment_op : op_reads 0 ("/"%code, ConsumeLineComment src).
Proof. intros lo n s H E; rewrite Nat.add_0_r; apply ConsumeLineComment_reads; done. Qed.

Lemma block_comment_op : op_reads 0 ("*"%code, ConsumeBlockComment src).
Proof. intros lo n s H E; rewrite Nat.add_0_r; apply ConsumeBlockComment_reads; done. Qed.

Lemma operators_read : Forall (op_reads 1) (operators src).
Proof.
  unfold operators.
  repeat (constructor;
    [first [apply Recognize_op; discriminate
           | apply operator_reads; [discriminate.. |];
             repeat (constructor;
               [first [apply line_comment_op | apply block_comment_op
                      | apply op_weaken, Recognize_op; discriminate
                      | apply op_weaken, operator_reads; [discriminate.. |];
                        repeat (constructor; [apply op_weaken, Recognize_op; discriminate |]);
                        constructor] |]);
             constructor] |]); constructor.
Qed.

Lemma find_operator c i op m :
  list_find (fun op => Is_true (fst op =? c)) (operators src) = Some (i, (op, m)) ->
  op = c /\ op_reads 1 (c, m).
Proof.
  intros (Hl & Hc & _)%list_find_Some; apply Is_true_true, Z.eqb_eq in Hc; cbn in Hc; subst op.
  split; [done |]; pose proof operators_read as H; eapply Forall_lookup in H; [exact H | done].
Qed.

(** A call whose result is the result of the run. *)
Ltac finish H := eapply returns_mono; [apply H |].

Lemma scan_period_reads lo n s :
  good lo n s -> c0_ s <> 0 -> returns (scan_period src s) (fun s' => reads lo (S n) s s').
Proof.
  intros H Hc; unfold scan_period; pose proof (next_lt n (good_in _ _ _ H Hc)).
  read_char; pose proof (next_ge (next n)); destruct (_ =? _).
  - finish (Recognize_reads lo _ kCASCADE _ G); [done.. |]; intros s1 [G1 E1].
    apply (reads_intro _ _ _ _ _ G1); [lia | same_solve].
  - destruct (IsDecimalDigit (c0_ s0)) eqn:Ed; [| reads_done].
    rewrite (good_c0 _ _ _ G) in Ed; finish (ScanNumber_reads true lo _ _ G Ed).
    intros s1 Hr; apply (reads_trans _ (S (next n)) _ _ s0); done || lia.
Qed.

Lemma ScanIdent_reads key lo n s :
  good lo n s -> IsIdentStartChar (c0_ s) = true ->
  returns (ScanIdent src key s) (fun s' => reads lo (S n) s s').
Proof.
  intros H Hc; rewrite (good_c0 _ _ _ H) in Hc.
  finish (ScanIdentChars_ok key true lo n s H Hc eq_refl); intros s' (Hm & G & E & _).
  apply (reads_intro _ _ _ _ _ G); [lia | done].
Qed.

Lemma ScanLiteralString_scans raw_ lo n s :
  good lo n s -> mode_ok s -> string_delimiter_ s = kNul ->
  (c0_ s =? kDoubleQuote) || (c0_ s =? "'"%code) = true ->
  returns (ScanLiteralString src raw_ s) (fun s' => scans lo (S n) s s').
Proof.
  intros H Hm Hd Hc; unfold ScanLiteralString, IsScanningString; rewrite Hd, Hc; cbn [negb Z.eqb kNul].
  assert (Hq : to_s 8 (c0_ s) <> kNul /\ c0_ s <> 0).
  { apply orb_true_iff in Hc as [-> %Z.eqb_eq | -> %Z.eqb_eq]; done. }
  pose proof (next_lt n (good_in _ _ _ H (proj2 Hq))); cbv zeta.
  set (s0 := BeginStringLiteral (c0_ s) s); clear Hc.
  assert (G0 : good lo n s0) by (apply good_set_mode, H).
  read_char; pose proof (next_ge2 (next n)); pose proof (next_ge (next n)).
  match goal with |- returns (obind ?m ?k) ?Q =>
    assert (Hquotes : returns m (fun s' => exists n', (next n <= n')%nat /\ good lo n' s' /\
              mode_ok s' /\ string_delimiter_ s' <> kNul /\ extras s' = extras s)) end.
  { assert (Hs1 : mode_ok s1 /\ string_delimiter_ s1 <> kNul /\ extras s1 = extras s).
    { destruct E as [[= Ec Ed Em Eb] Ee]; unfold mode_ok; rewrite Ec, Eb, Ed; split; [done |].
      split; [apply Hq | done]. }
    assert (Hstop : returns (Ok s1) (fun s' => exists n', (next n <= n')%nat /\ good lo n' s' /\
              mode_ok s' /\ string_delimiter_ s' <> kNul /\ extras s' = extras s)).
    { apply returns_Ok; exists (next n); done. }
    destruct (_ =? _); [| exact Hstop]; rewrite (LookaheadChar_1 (next n)) by apply G; cbn [obind].
    destruct (_ =? _); [| exact Hstop].
    set (s2 := set_mode _ _ _ _ s1); assert (G2 : good lo (next n) s2) by (apply good_set_mode, G).
    read_char; finish (ReadChar_reads lo _ _ G1); intros s4 [G3 E3].
    exists (next (next (next n))); split; [lia |]; split; [done |].
    destruct E0 as [[= Ec Ed _ Eb] Ee], E3 as [[= Ec' Ed' _ Eb'] Ee'], Hs1 as (Hs1 & Hs2 & Hs3).
    unfold mode_ok; rewrite Ec', Ec, Eb', Eb, Ed', Ed, Ee', Ee; done. }
  call Hquotes as s2 (n2 & Hn2 & G2 & Hm2 & Hd2 & He2).
  finish (ScanLiteralStringChars_piece raw_ (string_is_multiline_ s2) lo n2 s2 G2).
  { unfold IsScanningString; destruct (Z.eqb_spec (string_delimiter_ s2) kNul); done. }
  intros s3 Hp; apply (piece_scans _ n2) in Hp as (n3 & Hn3 & G3 & Hm3 & He3); [| done..].
  exists n3; split; [lia |]; rewrite He3, He2; done.
Qed.

Lemma scan_right_brace_scans lo n s :
  good lo n s -> mode_ok s -> string_delimiter_ s = kNul -> c0_ s <> 0 ->
  returns (scan_right_brace src s) (fun s' => scans lo (S n) s s').
Proof.
  intros H Hm Hd Hc; unfold scan_right_brace; pose proof (next_lt n (good_in _ _ _ H Hc)).
  read_char; pose proof (mode_ok_same _ _ E Hm) as Hm0; destruct E as [[= _ Ed _ _] Ee].
  unfold IsNestedContext, mode_ok in *; destruct (saved_context_ s0) as [| ctx rest] eqn:Es.
  { apply returns_Ok; exists (next n); unfold mode_ok; rewrite Es; done. }
  cbn [contexts_ok] in Hm0; destruct Hm0 as (Hb & Hdel & Hrest).
  destruct (Z.gtb_spec (brace_level_ s0) 0); [| lia].
  cbv zeta; cbn [brace_level_ set_mode]; destruct (Z.eqb_spec (brace_level_ s0 - 1) 0) as [E0 | E0].
  - unfold PopContext; cbn; rewrite E0, Ed, Hd; cbn.
    destruct (Z.eqb_spec (context_delimiter_ ctx) kNul); [done |]; cbn.
    apply returns_Ok; exists (next n); split; [lia |].
    split; [apply good_set_mode, good_with_kind; [apply good_set_mode, G | done..] |].
    split; [exact Hrest | exact Ee].
  - apply returns_Ok; exists (next n); split; [lia |]; split; [apply good_set_mode, G |].
    split; [| exact Ee]; unfold mode_ok; cbn; split; [lia | done].
Qed.

Lemma scan_left_brace_scans lo n s :
  good lo n s -> mode_ok s -> c0_ s <> 0 ->
  returns (scan_left_brace src s) (fun s' => scans lo (S n) s s').
Proof.
  intros H Hm Hc; unfold scan_left_brace; pose proof (next_lt n (good_in _ _ _ H Hc)).
  read_char; pose proof (mode_ok_same _ _ E Hm) as Hm0; destruct E as [_ Ee].
  unfold IsNestedContext, mode_ok in *; apply returns_Ok; exists (next n); split; [lia |].
  destruct (saved_context_ s0) as [| ctx rest] eqn:Es.
  - split; [done |]; unfold mode_ok; rewrite Es; done.
  - split; [apply good_set_mode, G |]; split; [| exact Ee].
    unfold mode_ok; cbn; destruct Hm0 as (? & ? & ?); split_and!; [lia | done..].
Qed.

Lemma scan_interpolation_scans key lo n s :
  good lo n s -> mode_ok s -> string_delimiter_ s <> kNul -> c0_ s <> 0 ->
  returns (scan_interpolation src key s) (fun s' => scans lo (S n) s s').
Proof.
  intros H Hm Hd Hc; unfold scan_interpolation; pose proof (next_lt n (good_in _ _ _ H Hc)).
  read_char; destruct (_ && _) eqn:Ei.
  - apply andb_true_iff in Ei as [Ei1 Ei2]; rewrite (good_c0 _ _ _ G) in Ei1, Ei2.
    call (ScanIdentChars_ok key false lo _ _ G Ei1 Ei2) as s1 (Hm1 & G1 & E1 & _); apply returns_Ok.
    eexists; split; [| split; [apply good_with_kind; [exact G1 | done..] |]]; [lia |].
    assert (same s s1) as Hs by same_solve.
    split; [apply (mode_ok_same s s1 Hs Hm) | apply Hs].
  - destruct (c0_ s0 =? "{"%code).
    + read_char; pose proof (next_ge (next n)); apply returns_Ok; exists (next (next n)).
      assert (same s s1) as Hs by same_solve; split; [lia |]; split; [apply good_set_mode, G0 |].
      split; [| apply Hs]; unfold mode_ok; cbn; destruct Hs as [[= Ec Ed _ Eb] _].
      rewrite Ec, Ed, Eb; split_and!; done.
    + apply returns_Ok; exists (next n); split; [lia |]; split; [apply good_set_mode, good_ErrorMsg, G |].
      split; [apply (mode_ok_same s s0); done | apply E].
Qed.

Lemma scan_hash_reads lo n s :
  good lo n s -> c0_ s = "#"%code -> returns (scan_hash src s) (fun s' => reads lo (S n) s s').
Proof.
  intros H Hc; assert (Hn : (n < List.length src)%nat) by (apply (good_in _ _ _ H); rewrite Hc; done).
  pose proof (next_lt n Hn); unfold scan_hash.
  rewrite (LookaheadChar_1 n s) by apply H; cbn [obind].
  destruct (Z.eqb_spec (raw (S n)) "!"%code) as [E1 | _]; [| apply Recognize_one; done].
  unfold ScanScriptTag, SkipLine; read_char.
  assert (E2 : c0_ s0 = "!"%code).
  { rewrite (good_c0 _ _ _ G), next_plain; [| done | rewrite <- (good_c0 _ _ _ H), Hc; done].
    unfold look; rewrite E1; done. }
  rewrite E2; cbn [Z.eqb Pos.eqb]; read_char; pose proof (next_ge (next n)).
  finish (skip_while_reads not_line_end lo _ _ eq_refl G0); intros s2 [Hr _].
  eapply reads_trans; [| exact Hr | lia]; same_solve.
Qed.

Lemma scan_r_scans key lo n s :
  good lo n s -> mode_ok s -> string_delimiter_ s = kNul -> c0_ s = "r"%code ->
  returns (scan_r src key s) (fun s' => scans lo (S n) s s').
Proof.
  intros H Hm Hd Hc; assert (Hn : (n < List.length src)%nat) by (apply (good_in _ _ _ H); rewrite Hc; done).
  pose proof (next_lt n Hn); unfold scan_r.
  rewrite (LookaheadChar_1 n s) by apply H; cbn [obind].
  destruct (_ || _) eqn:Eq.
  - read_char; assert (E1 : c0_ s0 = raw (S n)).
    { rewrite (good_c0 _ _ _ G), next_plain; [| done | rewrite <- (good_c0 _ _ _ H), Hc; done].
      unfold look; destruct (Z.eqb_spec (raw (S n)) kReturn) as [E' |]; [| done].
      rewrite E' in Eq; done. }
    destruct E as [[= Ec Ed Em Eb] Ee].
    finish (ScanLiteralString_scans true lo _ _ G).
    + unfold mode_ok; rewrite Ec, Eb; done.
    + congruence.
    + rewrite E1; done.
    + intros s1 (n1 & Hn1 & G1 & Hm1 & He1); exists n1; split; [lia |]; rewrite He1, Ee; done.
  - finish (ScanIdent_reads key lo n s H); [rewrite Hc; done |].
    intros s1 Hr; apply reads_scans; done.
Qed.

(** The first unit of a source is at most 16 bits wide. *)
Hypothesis src_units : Forall (fun c => 0 <= c <= 0xFFFF) src.

Lemma look_range n : 0 <= look n <= 0xFFFF.
Proof.
  unfold look, raw; destruct (src !! n) as [c |] eqn:E; [| done].
  eapply Forall_lookup in src_units; [| exact E]; destruct (c =? kReturn); [done | lia].
Qed.

Lemma scan_default_scans key lo n s :
  good lo n s -> c0_ s <> 0 -> returns (scan_default src key s) (fun s' => reads lo (S n) s s').
Proof.
  intros H Hc; unfold scan_default; destruct (IsIdentStartChar _) eqn:Ei; [apply ScanIdent_reads; done |].
  destruct (IsDecimalDigit _) eqn:Ed; [rewrite (good_c0 _ _ _ H) in Ed; apply ScanNumber_reads; done |].
  assert (exists bytes, Utf8.Encode (c0_ s) = Ok bytes) as [bytes ->].
  { rewrite (good_c0 _ _ _ H); pose proof (look_range n); unfold Utf8.Encode.
    destruct (_ <=? _); [eauto |]; destruct (_ <=? _); [eauto |].
    destruct (Z.leb_spec (look n) Utf8.kMaxThreeByteChar); [eauto | unfold Utf8.kMaxThreeByteChar in *; lia]. }
  cbn [obind]; pose proof (next_lt n (good_in _ _ _ H Hc)).
  finish (ReadChar_reads lo n _ (good_ErrorMsg lo n (UnexpectedCharacter bytes (c0_ s)) s H)).
  intros s1 [G1 E1]; apply (reads_intro _ _ _ _ _ G1); [lia | exact E1].
Qed.

(** The result of a round: a token that was read, or the end of the source. *)
Definition token_read (lo n : nat) (s s' : Scanner) : Prop :=
  scans lo (S n) s s' \/ (scans lo n s s' /\ kind (current_token_ s') = kEOS).

Lemma scan_switch_ok key lo n s :
  good lo n s -> mode_ok s -> string_delimiter_ s = kNul ->
  offset (current_token_ s) = Z.of_nat n -> position (current_token_ s) = position_at n ->
  returns (scan_switch src key s) (fun s' => token_read lo n s s').
Proof.
  intros H Hm Hd Ho Hp; unfold scan_switch; cbv zeta.
  destruct (Z.eqb_spec (c0_ s) kNul) as [Ec | Ec].
  { apply returns_Ok; right; split; [| done]; exists n; split; [done |]; split; [| done].
    pose proof (good_bound _ _ _ H); assert (Hl : look n = 0) by (rewrite <- (good_c0 _ _ _ H); exact Ec).
    destruct H as [[] _ _]; split; [done | | done].
    exists n; cbn; split; [lia |]; split; [done |]; split; [done |]; intros _.
    rewrite look_raw; rewrite Hl; done. }
  assert (Hreads : forall m, returns m (fun s' => reads lo (S n) s s') ->
                             returns m (fun s' => token_read lo n s s')).
  { intros m Hr; finish Hr; intros s' Hr'; left; apply reads_scans; done. }
  assert (Hscans : forall m, returns m (fun s' => scans lo (S n) s s') ->
                             returns m (fun s' => token_read lo n s s')).
  { intros m Hr; finish Hr; intros s' Hr'; left; done. }
  destruct (list_find _ _) as [[i [c m]] |] eqn:Ef.
  { apply find_operator in Ef as [-> Hop]; apply Hreads; rewrite <- Nat.add_1_r; apply Hop; done. }
  clear Ef.
  destruct (_ =? _); [apply Hreads, scan_period_reads; done |].
  destruct (_ =? _); [apply Hscans, scan_left_brace_scans; done |].
  destruct (_ =? _); [apply Hscans, scan_right_brace_scans; done |].
  destruct (Z.eqb_spec (c0_ s) "r"%code); [apply Hscans, scan_r_scans; done |].
  destruct (_ || _) eqn:Eq; [apply Hscans, ScanLiteralString_scans; done |].
  destruct (Z.eqb_spec (c0_ s) "#"%code); [apply Hreads, scan_hash_reads; done |].
  apply Hreads, scan_default_scans; done.
Qed.

(** What is left to scan: two for a character, one for an open string literal. *)
Definition weight (n : nat) (s : Scanner) : nat :=
  2 * (List.length src - n) + (if IsScanningString s then 1 else 0).

(** The state after a token that was scanned from [s] at [n]. *)
Definition scanned (n : nat) (s s' : Scanner) : Prop :=
  exists n', (n <= n')%nat /\ good n n' s' /\ mode_ok s' /\ extras s' = extras s /\
  (kind (current_token_ s') = kEOS \/ (weight n' s' < weight n s)%nat).

Lemma weight_lt n n' s s' :
  (n < n')%nat -> (n' <= List.length src)%nat -> (weight n' s' < weight n s)%nat.
Proof. unfold weight; intros; destruct (IsScanningString s), (IsScanningString s'); lia. Qed.

Lemma scans_scanned lo n m s s0 s' :
  scans n m s0 s' -> (lo <= n < m)%nat -> extras s0 = extras s -> scanned lo s s'.
Proof.
  intros (n' & Hn & G & Hm & He) Hle Hs; pose proof (good_bound _ _ _ G).
  exists n'; split; [lia |]; split.
  { destruct G as [? (m' & ? & H') ?]; split; [done | exists m'; split; [lia |] |]; done. }
  split; [done |]; split; [congruence |]; right; apply weight_lt; lia.
Qed.

(** The start of a token at [n]. *)
Definition start_token (s : Scanner) : Scanner :=
  set_current (mkToken kILLEGAL (lookahead_pos_ s) (c0_pos_ s) None)
    (set_token_start (lookahead_pos_ s) s).

Lemma start_good n s : stands n s -> good n n (start_token s).
Proof.
  intros []; split; [done | exists n | done]; cbn; split; [lia |]; split; [done |]; split; done.
Qed.

Lemma scan_round_ok key n s :
  stands n s -> mode_ok s -> returns (scan_round src key s) (fun s' => scanned n s s').
Proof.
  intros Hs Hm; unfold scan_round; destruct (IsScanningString s) eqn:Ei; cbn [negb].
  - cbn [obind]; change (set_current _ (set_token_start _ s)) with (start_token s).
    pose proof (start_good n s Hs) as G; cbv zeta.
    change (IsScanningString (start_token s)) with (IsScanningString s); rewrite Ei.
    assert (Hd : string_delimiter_ s <> kNul).
    { unfold IsScanningString in Ei; destruct (Z.eqb_spec (string_delimiter_ s) kNul); done. }
    destruct (Z.eqb_spec (c0_ (start_token s)) "$"%code) as [Ec | Ec].
    + finish (scan_interpolation_scans key n n _ G Hm Hd); [rewrite Ec; done |].
      intros s' Hr; apply (scans_scanned n n (S n) s (start_token s)); done || lia.
    + finish (ScanLiteralStringChars_piece false false n n _ G Ei).
      intros s' [(n' & Hn & G' & Hmode & He) | [Hr | [_ Hr]]]; [| | done].
      * exists n'; split; [done |]; split; [done |].
        split; [apply (mode_ok_ended (start_token s)); done |]; split; [done |]; right.
        unfold weight; rewrite Ei; injection Hmode as _ Hd' _ _.
        unfold IsScanningString; rewrite Hd'; cbn; lia.
      * apply reads_scans in Hr; [| done].
        apply (scans_scanned n n (S n) s (start_token s)); done || lia.
  - unfold ConsumeWhiteSpace.
    call (skip_while_stands is_space n s eq_refl Hs) as s1 (n1 & Hn1 & Hs1 & Es & _ & _).
    change (set_current _ (set_token_start _ s1)) with (start_token s1).
    pose proof (start_good n1 s1 Hs1) as G; cbv zeta.
    change (IsScanningString (start_token s1)) with (IsScanningString s1).
    assert (Ei1 : string_delimiter_ s1 = kNul).
    { destruct Es as [[= _ -> _ _] _]; unfold IsScanningString in Ei.
      destruct (Z.eqb_spec (string_delimiter_ s) kNul); done. }
    assert (Ei2 : IsScanningString s1 = false) by (unfold IsScanningString; rewrite Ei1; done).
    rewrite Ei2; pose proof (mode_ok_same s s1 Es Hm) as Hm1.
    finish (scan_switch_ok key n1 n1 _ G Hm1 Ei1); [apply Hs1.. |].
    intros s' [Hr | [(n' & Hn' & G' & Hm' & He') Hk]].
    + apply (scans_scanned n n1 (S n1) s (start_token s1)); [done | lia | apply Es].
    + exists n'; split; [lia |]; split.
      { destruct G' as [? (m' & ? & H') ?]; split; [done | exists m'; split; [lia |] |]; done. }
      split; [done |]; split; [rewrite He'; apply Es | left; done].
Qed.

Lemma scan_loop_ok key fuel n s :
  stands n s -> mode_ok s -> (weight n s < fuel)%nat ->
  returns (scan_loop src key fuel s)
    (fun s' => scanned n s s' /\ kind (current_token_ s') <> kWHITESP).
Proof.
  revert n s; induction fuel as [| fuel IH]; intros n s Hs Hm Hw; [lia |].
  cbn [scan_loop]; call (scan_round_ok key n s Hs Hm) as s1 (n1 & Hn1 & G1 & Hm1 & He1 & Hp).
  unfold kind_is; destruct (kind_eqb_spec (kind (current_token_ s1)) kWHITESP) as [Ek | Ek].
  - destruct Hp as [Hp | Hp]; [rewrite Ek in Hp; done |].
    finish (IH n1 s1 (good_stands _ _ _ G1) Hm1); [lia |].
    intros s2 [(n2 & Hn2 & G2 & Hm2 & He2 & Hp2) Hk]; split; [| done].
    exists n2; split; [lia |]; split.
    { destruct G2 as [? (m' & ? & H') ?]; split; [done | exists m'; split; [lia |] |]; done. }
    split; [done |]; split; [congruence |]; destruct Hp2; [left; done | right; lia].
  - apply returns_Ok; split; [exists n1 |]; done.
Qed.

Lemma Scan_ok key n s :
  stands n s -> mode_ok s ->
  returns (Scan src key s) (fun s' => scanned n s s' /\ kind (current_token_ s') <> kWHITESP).
Proof.
  intros Hs Hm; unfold Scan, token_fuel, char_fuel.
  finish (scan_loop_ok key (2 * S (S (List.length src))) n (set_newline_seen false s)).
  - destruct Hs; done.
  - done.
  - unfold weight; destruct (IsScanningString _); lia.
  - intros s' H; exact H.
Qed.

Lemma Scanner_Reset_ok s :
  returns (Reset src s) (fun s' => stands 0 s' /\ mode_ok s' /\ prev_token_line_ s' = 1 /\
    IsScanningString s' = false /\
    kind (newline_token_ s') = kNEWLINE /\ kind (empty_string_token_ s') = kSTRING /\
    column (position (empty_string_token_ s')) = 0 /\
    literal (empty_string_token_ s') = Some (Symbol [])).
Proof.
  unfold Reset, ReadChar, read_next, LookaheadChar, source_length_; cbn -[Z.of_nat Z.ltb].
  destruct (Z.ltb_spec (-1) (Z.of_nat (List.length src))); [| lia].
  assert (Hc : (if 0 <? Z.of_nat (List.length src) then CharAt src 0 else Ok kNul) = Ok (raw 0)).
  { destruct (Z.ltb_spec 0 (Z.of_nat (List.length src))); [apply (CharAt_raw 0); lia |].
    rewrite raw_end by lia; done. }
  change (-1 + 1 + 0) with 0; rewrite Hc; cbn -[Z.of_nat Z.ltb raw].
  apply returns_Ok; split; [split; try done; cbn; lia |]; done.
Qed.

End Positions.
