(* ===== verification/ScannerSim.v ===== *)
(** Scanning depends on the text alone: two scanners over one source that agree on what
    is scanned ([sim]) read the same tokens, with any library keys and any contents of the
    tokens that only [ScanAll] uses. *)
From stdpp Require Import base numbers list.
From Stdlib Require Import ZArith Lia Bool String Ascii.
From S2P Require Import Prelude Utils Unicode Token Scanner.
Import Token.
#[local] Open Scope Z_scope.

(** * Related outcomes *)
Definition orel {A B} (R : A -> B -> Prop) (m1 : outcome A) (m2 : outcome B) : Prop :=
  match m1, m2 with
  | Ok a, Ok b => R a b
  | Err e1, Err e2 => e1 = e2
  | _, _ => False
  end.

Lemma orel_bind {A B C D} (R : A -> B -> Prop) (Q : C -> D -> Prop) m1 m2 f g :
  orel R m1 m2 -> (forall a b, R a b -> orel Q (f a) (g b)) -> orel Q (obind m1 f) (obind m2 g).
Proof. destruct m1, m2; cbn; try done; intros HR H; apply H, HR. Qed.

Lemma orel_eq {A} (m : outcome A) : orel eq m m.
Proof. destruct m; done. Qed.

Lemma orel_Ok {A B} (R : A -> B -> Prop) m1 m2 a :
  orel R m1 m2 -> m1 = Ok a -> exists b, m2 = Ok b /\ R a b.
Proof. intros H ->; destruct m2; cbn in H; [eauto | done]. Qed.

(** * Similar scanners *)
Section Sim.

Variable src key1 key2 : list Z.

(** What is compared of the literals; it does not see the key of a library. *)
Variable shown : option Literal -> option Literal.
Hypothesis shown_key :
  forall text, shown (Some (Symbol (text ++ key1))) = shown (Some (Symbol (text ++ key2))).

Definition view (s : Scanner) :=
  (kind (current_token_ s), offset (current_token_ s), position (current_token_ s),
   shown (literal (current_token_ s)),
   (lookahead_pos_ s, token_start_ s, c0_ s, newline_seen_ s, c0_pos_ s),
   (saved_context_ s, string_delimiter_ s, string_is_multiline_ s, brace_level_ s)).
Definition sim (s1 s2 : Scanner) : Prop := view s1 = view s2.

#[local] Instance sim_equivalence : Equivalence sim.
Proof. split; [intros s | intros s1 s2 H | intros s1 s2 s3 H1 H2]; unfold sim in *; congruence. Qed.

(** Results with a scanner. *)
Definition sim_with {A} (r1 r2 : A * Scanner) : Prop := fst r1 = fst r2 /\ sim (snd r1) (snd r2).

(** Similar scanners differ in three tokens and a line number. *)
Lemma sim_inv s1 s2 :
  sim s1 s2 ->
  s1 = set_current (set_literal (literal (current_token_ s1)) (current_token_ s2))
         (set_prev_line (prev_token_line_ s1)
            (set_extra_tokens (newline_token_ s1) (empty_string_token_ s1) s2)).
Proof.
  destruct s1 as [[] ? ? ? ? ? ? ? ? ? ? ? ?], s2 as [[] ? ? ? ? ? ? ? ? ? ? ? ?].
  unfold sim, view; cbn; intros; simplify_eq; done.
Qed.

(** The fields that the code reads agree. *)
Lemma sim_c0 s1 s2 : sim s1 s2 -> c0_ s1 = c0_ s2.
Proof. intros [=]; done. Qed.
Lemma sim_pos s1 s2 : sim s1 s2 -> lookahead_pos_ s1 = lookahead_pos_ s2.
Proof. intros [=]; done. Qed.
Lemma sim_start s1 s2 : sim s1 s2 -> token_start_ s1 = token_start_ s2.
Proof. intros [=]; done. Qed.
Lemma sim_delimiter s1 s2 : sim s1 s2 -> string_delimiter_ s1 = string_delimiter_ s2.
Proof. intros [=]; done. Qed.
Lemma sim_multiline s1 s2 : sim s1 s2 -> string_is_multiline_ s1 = string_is_multiline_ s2.
Proof. intros [=]; done. Qed.
Lemma sim_contexts s1 s2 : sim s1 s2 -> saved_context_ s1 = saved_context_ s2.
Proof. intros [=]; done. Qed.
Lemma sim_braces s1 s2 : sim s1 s2 -> brace_level_ s1 = brace_level_ s2.
Proof. intros [=]; done. Qed.
Lemma sim_kind s1 s2 : sim s1 s2 -> kind (current_token_ s1) = kind (current_token_ s2).
Proof. intros [=]; done. Qed.
Lemma sim_place s1 s2 :
  sim s1 s2 -> offset (current_token_ s1) = offset (current_token_ s2) /\
               position (current_token_ s1) = position (current_token_ s2).
Proof. intros [=]; done. Qed.

Lemma sim_kind_is k s1 s2 : sim s1 s2 -> kind_is k s1 = kind_is k s2.
Proof. intros H; unfold kind_is; rewrite (sim_kind s1 s2 H); done. Qed.

(** Equal changes keep scanners similar. *)
Lemma sim_current d s1 s2 : sim s1 s2 -> sim (set_current d s1) (set_current d s2).
Proof. intros [=]; unfold sim, view; cbn; congruence. Qed.
Lemma sim_lookahead p c b q s1 s2 :
  sim s1 s2 -> sim (set_lookahead p c b q s1) (set_lookahead p c b q s2).
Proof. intros [=]; unfold sim, view; cbn; congruence. Qed.
Lemma sim_mode c d m b s1 s2 : sim s1 s2 -> sim (set_mode c d m b s1) (set_mode c d m b s2).
Proof. intros [=]; unfold sim, view; cbn; congruence. Qed.
Lemma sim_with_kind k s1 s2 : sim s1 s2 -> sim (with_kind k s1) (with_kind k s2).
Proof. intros [=]; unfold sim, view; cbn; congruence. Qed.
Lemma sim_with_literal l1 l2 s1 s2 :
  shown (Some l1) = shown (Some l2) -> sim s1 s2 -> sim (with_literal l1 s1) (with_literal l2 s2).
Proof. intros Hl [=]; unfold sim, view; cbn; congruence. Qed.
Lemma sim_ErrorMsg m s1 s2 : sim s1 s2 -> sim (ErrorMsg m s1) (ErrorMsg m s2).
Proof. intros [=]; unfold sim, view; cbn; congruence. Qed.
Lemma sim_EndStringLiteral s1 s2 : sim s1 s2 -> sim (EndStringLiteral s1) (EndStringLiteral s2).
Proof. intros [=]; unfold sim, view; cbn; congruence. Qed.
Lemma sim_BeginStringLiteral c s1 s2 :
  sim s1 s2 -> sim (BeginStringLiteral c s1) (BeginStringLiteral c s2).
Proof. intros [=]; unfold sim, view; cbn; congruence. Qed.
Lemma sim_PushContext s1 s2 : sim s1 s2 -> sim (PushContext s1) (PushContext s2).
Proof. intros [=]; unfold sim, view; cbn; congruence. Qed.
Lemma sim_unterminated s1 s2 : sim s1 s2 -> sim (unterminated s1) (unterminated s2).
Proof. intros; apply sim_EndStringLiteral, sim_ErrorMsg; done. Qed.

Create HintDb sim.
Hint Resolve sim_current sim_lookahead sim_mode sim_with_kind sim_with_literal sim_ErrorMsg
  sim_EndStringLiteral sim_BeginStringLiteral sim_PushContext sim_unterminated : sim.

Lemma LookaheadChar_sim k s1 s2 : sim s1 s2 -> LookaheadChar src k s1 = LookaheadChar src k s2.
Proof. intros H; unfold LookaheadChar; rewrite (sim_pos s1 s2 H); done. Qed.

Lemma ReadChar_sim s1 s2 : sim s1 s2 -> orel sim (ReadChar src s1) (ReadChar src s2).
Proof.
  intros H; assert (Hl : shown (literal (current_token_ s1)) = shown (literal (current_token_ s2)))
    by (revert H; unfold sim, view; intros [=]; done).
  rewrite (sim_inv s1 s2 H); unfold ReadChar, read_next, LookaheadChar; cbn.
  repeat (match goal with
          | |- orel _ (if ?b then _ else _) _ => destruct b; cbn
          | |- orel _ (obind ?m _) _ => destruct m; cbn
          end); unfold sim, view; cbn; congruence.
Qed.
Hint Resolve ReadChar_sim : sim.

(** A step of a proof that two runs are similar. *)
Ltac sim_rewrite :=
  match goal with
  | H : sim ?s1 ?s2 |- _ =>
      progress rewrite ?(sim_c0 s1 s2 H), ?(sim_pos s1 s2 H), ?(sim_start s1 s2 H),
        ?(sim_delimiter s1 s2 H), ?(sim_multiline s1 s2 H), ?(sim_contexts s1 s2 H),
        ?(sim_braces s1 s2 H), ?(fun k => sim_kind_is k s1 s2 H), ?(fun k => LookaheadChar_sim k s1 s2 H)
  end.
Ltac sim_step :=
  match goal with
  | |- sim_with _ _ => split; cbn [fst snd]; auto with sim
  | |- orel _ (Ok _) (Ok _) => cbn [orel]; auto with sim
  | |- orel _ (Err _) (Err _) => reflexivity
  | |- orel _ (obind ?m _) (obind ?m _) => eapply orel_bind; [apply (orel_eq m) | intros ? ? <-]
  | |- orel _ (obind _ _) (obind _ _) =>
      eapply orel_bind;
      [solve [eauto with sim]
      | first [intros [? ?] [? ?] [E ?]; cbn [fst snd] in *; subst | intros ? ? ?]]
  | |- orel _ (if ?b then _ else _) (if ?b then _ else _) => destruct b
  | |- orel _ (match ?x with _ => _ end) (match ?x with _ => _ end) => destruct x
  | |- orel _ _ _ => solve [eauto with sim]
  end.
Ltac sim_run := cbv zeta; repeat (repeat sim_rewrite; sim_step).

Lemma Recognize_sim k s1 s2 : sim s1 s2 -> orel sim (Recognize src k s1) (Recognize src k s2).
Proof. intros; unfold Recognize; sim_run. Qed.
Hint Resolve Recognize_sim : sim.

Lemma read_while_sim p fuel k s1 s2 :
  sim s1 s2 -> orel sim_with (read_while src p fuel k s1) (read_while src p fuel k s2).
Proof.
  revert k s1 s2; induction fuel as [| fuel IH]; intros k s1 s2 H; cbn [read_while]; sim_run.
Qed.
Hint Resolve read_while_sim : sim.

Lemma skip_while_sim p s1 s2 : sim s1 s2 -> orel sim (skip_while src p s1) (skip_while src p s2).
Proof. intros; unfold skip_while; sim_run. Qed.
Hint Resolve skip_while_sim : sim.

Lemma ConsumeLineComment_sim s1 s2 :
  sim s1 s2 -> orel sim (ConsumeLineComment src s1) (ConsumeLineComment src s2).
Proof. intros; unfold ConsumeLineComment; sim_run. Qed.

Lemma comment_loop_sim fuel l s1 s2 :
  sim s1 s2 -> orel sim_with (comment_loop src fuel l s1) (comment_loop src fuel l s2).
Proof.
  revert l s1 s2; induction fuel as [| fuel IH]; intros l s1 s2 H; cbn [comment_loop]; sim_run.
Qed.
Hint Resolve comment_loop_sim : sim.

Lemma ConsumeBlockComment_sim s1 s2 :
  sim s1 s2 -> orel sim (ConsumeBlockComment src s1) (ConsumeBlockComment src s2).
Proof. intros; unfold ConsumeBlockComment; sim_run. Qed.
Hint Resolve ConsumeLineComment_sim ConsumeBlockComment_sim : sim.

Lemma ScanIdentChars_sim allow s1 s2 :
  sim s1 s2 -> orel sim (ScanIdentChars src key1 allow s1) (ScanIdentChars src key2 allow s2).
Proof.
  intros; unfold ScanIdentChars; sim_run.
  apply sim_with_literal; [destruct (_ =? _) | auto with sim]; auto.
Qed.
Hint Resolve ScanIdentChars_sim : sim.

(** * Numbers and strings *)
Lemma number_literal_sim s1 s2 :
  sim s1 s2 -> orel sim (number_literal src s1) (number_literal src s2).
Proof. intros; unfold number_literal; sim_run. Qed.

Lemma scan_fraction_sim dec s1 s2 :
  sim s1 s2 -> orel sim (scan_fraction src dec s1) (scan_fraction src dec s2).
Proof. intros; unfold scan_fraction; sim_run. Qed.
Hint Resolve number_literal_sim scan_fraction_sim : sim.

Lemma scan_exponent_sim s1 s2 :
  sim s1 s2 -> orel sim_with (scan_exponent src s1) (scan_exponent src s2).
Proof.
  intros; unfold scan_exponent; repeat sim_rewrite.
  sim_step; [| sim_run]; sim_step; sim_step; [| sim_run]; sim_step.
  eapply (orel_bind sim); [repeat sim_rewrite; sim_step; sim_run | intros].
  sim_run.
Qed.
Hint Resolve scan_exponent_sim : sim.

Lemma ScanNumber_sim dec s1 s2 :
  sim s1 s2 -> orel sim (ScanNumber src dec s1) (ScanNumber src dec s2).
Proof. intros; unfold ScanNumber; sim_run. Qed.
Hint Resolve ScanNumber_sim : sim.

Lemma scan_hex_digits_sim digits v s1 s2 :
  sim s1 s2 -> orel sim_with (scan_hex_digits src digits v s1) (scan_hex_digits src digits v s2).
Proof.
  revert v s1 s2; induction digits as [| digits IH]; intros v s1 s2 H; cbn [scan_hex_digits]; sim_run.
Qed.

Lemma scan_hex_range_sim rounds i min v s1 s2 :
  sim s1 s2 ->
  orel sim_with (scan_hex_range src rounds i min v s1) (scan_hex_range src rounds i min v s2).
Proof.
  revert i v s1 s2; induction rounds as [| rounds IH]; intros i v s1 s2 H; cbn [scan_hex_range]; sim_run.
Qed.
Hint Resolve scan_hex_digits_sim scan_hex_range_sim : sim.

Lemma ScanHexDigits_range_sim min max s1 s2 :
  sim s1 s2 ->
  orel sim_with (ScanHexDigits_range src min max s1) (ScanHexDigits_range src min max s2).
Proof. intros; unfold ScanHexDigits_range; sim_run. Qed.
Hint Resolve ScanHexDigits_range_sim : sim.

Lemma check_code_point_sim valid c s1 s2 :
  sim s1 s2 -> sim_with (check_code_point valid c s1) (check_code_point valid c s2).
Proof. intros; unfold check_code_point; destruct (_ && _); split; cbn; auto with sim. Qed.
Hint Resolve check_code_point_sim : sim.

Lemma ScanEscapedCodePoint_sim s1 s2 :
  sim s1 s2 -> orel sim_with (ScanEscapedCodePoint src s1) (ScanEscapedCodePoint src s2).
Proof. intros; unfold ScanEscapedCodePoint, ScanHexDigits; sim_run. Qed.
Hint Resolve ScanEscapedCodePoint_sim : sim.

Lemma is_unterminated_sim s1 s2 : sim s1 s2 -> is_unterminated s1 = is_unterminated s2.
Proof. intros H; unfold is_unterminated; repeat sim_rewrite; done. Qed.

Lemma scan_escape_sim s1 s2 :
  sim s1 s2 -> orel sim_with (scan_escape src s1) (scan_escape src s2).
Proof.
  intros; unfold scan_escape; sim_step; rewrite (is_unterminated_sim a b) by done; sim_run.
Qed.

Lemma end_piece_sim l s1 s2 : sim s1 s2 -> orel sim (end_piece l s1) (end_piece l s2).
Proof.
  intros H; unfold end_piece; sim_step; cbv zeta.
  assert (Hl : sim (with_literal (Symbol a) s1) (with_literal (Symbol a) s2)) by auto with sim.
  rewrite (sim_kind_is _ _ _ Hl); destruct (negb _); cbn [orel]; auto with sim.
Qed.
Hint Resolve scan_escape_sim end_piece_sim : sim.

Lemma end_string_sim l s1 s2 : sim s1 s2 -> orel sim (end_string src l s1) (end_string src l s2).
Proof.
  intros; unfold end_string.
  eapply (orel_bind sim); [sim_run | intros]; eapply (orel_bind sim); [sim_run | intros]; sim_run.
Qed.

Lemma at_string_end_sim s1 s2 : sim s1 s2 -> at_string_end src s1 = at_string_end src s2.
Proof. intros H; unfold at_string_end; repeat sim_rewrite; done. Qed.

Lemma scan_code_point_sim s1 s2 :
  sim s1 s2 -> orel sim_with (scan_code_point src s1) (scan_code_point src s2).
Proof. intros; unfold scan_code_point; sim_run. Qed.
Hint Resolve end_string_sim scan_code_point_sim : sim.

Lemma string_loop_sim fuel raw_ remove l s1 s2 :
  sim s1 s2 ->
  orel sim (string_loop src fuel raw_ remove l s1) (string_loop src fuel raw_ remove l s2).
Proof.
  revert remove l s1 s2; induction fuel as [| fuel IH]; intros remove l s1 s2 H;
    cbn [string_loop]; [done |]; cbv zeta.
  rewrite (is_unterminated_sim s1 s2 H), (at_string_end_sim s1 s2 H); sim_run.
Qed.
Hint Resolve string_loop_sim : sim.

Lemma ScanLiteralStringChars_sim raw_ remove s1 s2 :
  sim s1 s2 ->
  orel sim (ScanLiteralStringChars src raw_ remove s1) (ScanLiteralStringChars src raw_ remove s2).
Proof. intros; unfold ScanLiteralStringChars, IsScanningString; sim_run. Qed.
Hint Resolve ScanLiteralStringChars_sim : sim.

Lemma ScanLiteralString_sim raw_ s1 s2 :
  sim s1 s2 -> orel sim (ScanLiteralString src raw_ s1) (ScanLiteralString src raw_ s2).
Proof.
  intros; unfold ScanLiteralString, IsScanningString; repeat sim_rewrite.
  do 2 sim_step; try done; cbv zeta; sim_step.
  eapply (orel_bind sim); [sim_run | intros]; sim_run.
Qed.
Hint Resolve ScanLiteralString_sim : sim.

(** * Scan *)
Lemma scan_interpolation_sim s1 s2 :
  sim s1 s2 -> orel sim (scan_interpolation src key1 s1) (scan_interpolation src key2 s2).
Proof. intros; unfold scan_interpolation, ScanIdentNoDollar; sim_run. Qed.

Definition op_sim (op : Z * (Scanner -> outcome Scanner)) : Prop :=
  forall s1 s2, sim s1 s2 -> orel sim (snd op s1) (snd op s2).

Lemma recognize_next_sim ops s1 s2 :
  Forall op_sim ops -> sim s1 s2 -> orel sim (recognize_next ops s1) (recognize_next ops s2).
Proof.
  intros Hops H; induction Hops as [| [c m] ops Hop _ IH]; cbn [recognize_next]; [done |].
  sim_rewrite; destruct (_ =? _); [apply Hop |]; done.
Qed.

Lemma operator_sim c k ops : Forall op_sim ops -> op_sim (c, operator src k ops).
Proof.
  intros Hops s1 s2 H; cbn [snd]; unfold operator; sim_step; apply recognize_next_sim; done.
Qed.

Lemma operators_sim : Forall op_sim (operators src).
Proof.
  unfold operators.
  repeat first [apply Forall_cons; split | apply Forall_nil; exact I | apply operator_sim];
    intros s1 s2 H; cbn [snd]; auto with sim.
Qed.

Lemma IsNestedContext_sim s1 s2 : sim s1 s2 -> IsNestedContext s1 = IsNestedContext s2.
Proof. intros H; unfold IsNestedContext; rewrite (sim_contexts s1 s2 H); done. Qed.

Lemma PopContext_sim s1 s2 : sim s1 s2 -> orel sim (PopContext s1) (PopContext s2).
Proof. intros; unfold PopContext; cbn; sim_run. Qed.
Hint Resolve PopContext_sim : sim.

Lemma scan_left_brace_sim s1 s2 :
  sim s1 s2 -> orel sim (scan_left_brace src s1) (scan_left_brace src s2).
Proof.
  intros; unfold scan_left_brace; sim_step; rewrite (IsNestedContext_sim a b) by done.
  repeat sim_rewrite; destruct (IsNestedContext b); cbn [orel]; auto with sim.
Qed.

Lemma scan_right_brace_sim s1 s2 :
  sim s1 s2 -> orel sim (scan_right_brace src s1) (scan_right_brace src s2).
Proof.
  intros; unfold scan_right_brace; sim_step; rewrite (IsNestedContext_sim a b) by done.
  destruct (IsNestedContext b); [| done]; cbn [brace_level_ set_mode]; sim_run.
Qed.

Lemma scan_default_sim s1 s2 :
  sim s1 s2 -> orel sim (scan_default src key1 s1) (scan_default src key2 s2).
Proof. intros; unfold scan_default, ScanIdent; sim_run. Qed.

Lemma scan_period_sim s1 s2 : sim s1 s2 -> orel sim (scan_period src s1) (scan_period src s2).
Proof. intros; unfold scan_period; sim_run. Qed.

Lemma scan_r_sim s1 s2 : sim s1 s2 -> orel sim (scan_r src key1 s1) (scan_r src key2 s2).
Proof. intros; unfold scan_r, ScanIdent; sim_run. Qed.

Lemma scan_hash_sim s1 s2 : sim s1 s2 -> orel sim (scan_hash src s1) (scan_hash src s2).
Proof. intros; unfold scan_hash, ScanScriptTag, SkipLine; sim_run. Qed.
Hint Resolve scan_left_brace_sim scan_right_brace_sim scan_default_sim scan_period_sim scan_r_sim
  scan_hash_sim scan_interpolation_sim : sim.

Lemma scan_switch_sim s1 s2 :
  sim s1 s2 -> orel sim (scan_switch src key1 s1) (scan_switch src key2 s2).
Proof.
  intros H; unfold scan_switch; cbv zeta; repeat sim_rewrite.
  destruct (_ =? kNul); [cbn; auto with sim |].
  destruct (list_find _ _) as [[i [c m]] |] eqn:Ef; [| sim_run].
  apply list_find_Some in Ef as (Hl & _ & _).
  pose proof operators_sim as Hop; eapply Forall_lookup in Hop; [| exact Hl]; apply Hop, H.
Qed.
Hint Resolve scan_switch_sim : sim.

Lemma scan_round_sim s1 s2 :
  sim s1 s2 -> orel sim (scan_round src key1 s1) (scan_round src key2 s2).
Proof.
  intros; unfold scan_round, IsScanningString; repeat sim_rewrite.
  eapply (orel_bind sim); [unfold ConsumeWhiteSpace; sim_run | intros a b Hab]; cbv zeta.
  match goal with |- orel _ (if ?x then _ else _) _ =>
    change x with (negb (string_delimiter_ a =? kNul)) end.
  match goal with |- orel _ _ (if ?x then _ else _) =>
    change x with (negb (string_delimiter_ b =? kNul)) end.
  repeat sim_rewrite.
  assert (Hs : sim (set_current (mkToken kILLEGAL (lookahead_pos_ a) (c0_pos_ a) None)
                     (set_token_start (lookahead_pos_ b) a))
                   (set_current (mkToken kILLEGAL (lookahead_pos_ b) (c0_pos_ b) None)
                     (set_token_start (lookahead_pos_ b) b))).
  { revert Hab; unfold sim, view; cbn; intros [=]; congruence. }
  destruct (negb _); [| exact (scan_switch_sim _ _ Hs)].
  cbn [set_current set_token_start c0_]; rewrite (sim_c0 a b Hab).
  destruct (_ =? "$"%code);
    [exact (scan_interpolation_sim _ _ Hs) | exact (ScanLiteralStringChars_sim _ _ _ _ Hs)].
Qed.
Hint Resolve scan_round_sim : sim.

Lemma scan_loop_sim fuel s1 s2 :
  sim s1 s2 -> orel sim (scan_loop src key1 fuel s1) (scan_loop src key2 fuel s2).
Proof.
  revert s1 s2; induction fuel as [| fuel IH]; intros s1 s2 H; cbn [scan_loop]; sim_run.
Qed.

Lemma Scan_sim s1 s2 : sim s1 s2 -> orel sim (Scan src key1 s1) (Scan src key2 s2).
Proof.
  intros H; apply scan_loop_sim; revert H; unfold sim, view; cbn; intros [=]; congruence.
Qed.

(** * The first token

    [Scan] sets the current token before it reads it, so that what the token was does not
    matter. *)
Lemma ReadChar_current d s :
  ReadChar src (set_current d s) =
  match ReadChar src s with Ok s' => Ok (set_current d s') | Err e => Err e end.
Proof.
  unfold ReadChar, read_next, LookaheadChar; cbn.
  repeat (match goal with
          | |- (if ?b then _ else _) = _ => destruct b; cbn
          | |- obind ?m _ = _ => destruct m; cbn
          end); done.
Qed.

Lemma read_while_current p fuel k d s :
  read_while src p fuel k (set_current d s) =
  match read_while src p fuel k s with Ok (k', s') => Ok (k', set_current d s') | Err e => Err e end.
Proof.
  revert k s; induction fuel as [| fuel IH]; intros k s; cbn [read_while];
    change (c0_ (set_current d s)) with (c0_ s); destruct (p (c0_ s)); try done.
  rewrite ReadChar_current; destruct (ReadChar src s); cbn [obind]; [apply IH | done].
Qed.

Lemma scan_round_current key d s :
  scan_round src key (set_current d s) = scan_round src key s.
Proof.
  unfold scan_round, ConsumeWhiteSpace, skip_while.
  change (IsScanningString (set_current d s)) with (IsScanningString s).
  destruct (IsScanningString s) eqn:E; cbn [negb].
  - cbn [obind set_current lookahead_pos_ c0_pos_]; cbv zeta; done.
  - rewrite read_while_current.
    destruct (read_while src is_space (char_fuel src) 0 s) as [[k s'] |]; cbn [obind]; done.
Qed.

Lemma Scan_current key d s : Scan src key (set_current d s) = Scan src key s.
Proof.
  unfold Scan.
  change (set_newline_seen false (set_current d s)) with (set_current d (set_newline_seen false s)).
  unfold token_fuel, char_fuel; cbn [Nat.mul Nat.add]; cbn [scan_loop].
  rewrite scan_round_current; done.
Qed.

(** Two scanners at the start of the source. *)
Definition fresh (s1 s2 : Scanner) : Prop := forall d, sim (set_current d s1) (set_current d s2).

Lemma fresh_Scan s1 s2 : fresh s1 s2 -> orel sim (Scan src key1 s1) (Scan src key2 s2).
Proof.
  intros H; rewrite <- (Scan_current key1 (current_token_ s1) s1).
  rewrite <- (Scan_current key2 (current_token_ s1) s2); apply Scan_sim, H.
Qed.

Lemma sim_fresh s1 s2 : sim s1 s2 -> fresh s1 s2.
Proof. unfold fresh, sim, view; cbn; intros [=] d; congruence. Qed.

Lemma Reset_fresh s1 s2 : orel fresh (Reset src s1) (Reset src s2).
Proof.
  unfold Reset, ReadChar, read_next, LookaheadChar; cbn.
  repeat (match goal with
          | |- orel _ (if ?b then _ else _) _ => destruct b; cbn
          | |- orel _ (obind ?m _) _ => destruct m; cbn
          end); try done.
Qed.

End Sim.
