(* ===== verification/ScannerStreams.v ===== *)
(** Streams of tokens: [ScanAll] ends, its tokens stand where the source says, newline
    tokens count the lines, [ScanTo] finds the token of an index, and
    tokens have the literals that they need.

    [scan_run] is the sequence of the scanned tokens up to the end of the source, and
    [weave] puts the tokens that [ScanAll] inserts between them. *)
From stdpp Require Import base numbers list.
From Stdlib Require Import ZArith Lia Bool String Ascii.
From S2P Require Import Prelude Utils Unicode Token Scanner ScannerProofs ScannerSim.
Import Token.
#[local] Open Scope Z_scope.

(** * The scanned tokens *)
Section Runs.

Variable src : list Z.

Inductive scan_run (key : list Z) : Scanner -> list TokenDescriptor -> Prop :=
| run_end s s' :
    Scan src key s = Ok s' -> extras s' = extras s -> kind (current_token_ s') = kEOS ->
    scan_run key s [current_token_ s']
| run_next s s' ts :
    Scan src key s = Ok s' -> extras s' = extras s -> kind (current_token_ s') <> kEOS ->
    scan_run key s' ts -> scan_run key s (current_token_ s' :: ts).

(** Tokens in the order of the source, the last one and only that one its end. *)
Fixpoint ordered (lo : nat) (ts : list TokenDescriptor) : Prop :=
  match ts with
  | [] => True
  | t :: ts =>
      kind t <> kNEWLINE /\ (kind t = kEOS <-> ts = []) /\
      exists m, (lo <= m <= List.length src)%nat /\ offset t = Z.of_nat m /\
                position t = position_at src m /\ (kind t = kEOS -> raw src m = 0) /\
                ordered m ts
  end.

Lemma ordered_le lo lo' ts : ordered lo' ts -> (lo <= lo')%nat -> ordered lo ts.
Proof.
  destruct ts as [| t ts]; [done |]; intros (Hk & He & m & Hm & H) Hle.
  do 2 (split; [done |]); exists m; split; [lia | done].
Qed.

Hypothesis src_units : Forall (fun c => 0 <= c <= 0xFFFF) src.

Lemma scan_run_exists key w n s :
  stands src n s -> mode_ok s -> (weight src n s < w)%nat ->
  exists ts, scan_run key s ts /\ ordered n ts /\ (0 < List.length ts <= w)%nat.
Proof.
  revert n s; induction w as [| w IH]; intros n s Hs Hm Hw; [lia |].
  destruct (Scan_ok src src_units key n s Hs Hm) as (s' & Es & (n' & Hn & G & Hm' & He & Hp) & Hk).
  pose proof (good_bound src n n' s' G) as Hb; destruct G as [Hs' (m & Hmn & Ho & Hpos & Hraw) Hnl].
  destruct (decide (kind (current_token_ s') = kEOS)) as [Ee | Ee].
  - exists [current_token_ s']; split; [apply run_end; done |]; split; [| cbn; lia].
    split; [done |]; split; [done |]; exists m; split_and!; try done; lia.
  - destruct Hp as [| Hp]; [done |].
    destruct (IH n' s' Hs' Hm') as (ts & Hr & Ho' & Hl); [lia |].
    exists (current_token_ s' :: ts); split; [apply run_next; done |]; split; [| cbn; lia].
    split; [done |]; split; [destruct ts; [cbn in Hl; lia | done] |].
    exists m; split_and!; try done; try lia; apply (ordered_le _ n'); [done | lia].
Qed.

(** Equal tokens, up to what is shown of their literals. *)
Definition same_token (shown : option Literal -> option Literal) (a b : TokenDescriptor) : Prop :=
  kind a = kind b /\ offset a = offset b /\ position a = position b /\
  shown (literal a) = shown (literal b).

Lemma sim_same_token shown s1 s2 :
  sim shown s1 s2 -> same_token shown (current_token_ s1) (current_token_ s2).
Proof. unfold sim, view; intros [=]; done. Qed.

Lemma fresh_stands shown n s1 s2 : fresh shown s1 s2 -> stands src n s1 -> stands src n s2.
Proof.
  intros H [Hp Hl Hc Hpos Hb]; specialize (H (current_token_ s1)); revert H.
  unfold sim, view; cbn; intros [=]; split; try done; congruence.
Qed.

Lemma fresh_mode_ok shown s1 s2 : fresh shown s1 s2 -> mode_ok s1 -> mode_ok s2.
Proof.
  intros H Hm; specialize (H (current_token_ s1)); revert H Hm.
  unfold sim, view, mode_ok; cbn; intros [=]; congruence.
Qed.

(** A successful [Scan] from a position of the source. *)
Lemma Scan_next key n s s' :
  stands src n s -> mode_ok s -> Scan src key s = Ok s' ->
  exists n', stands src n' s' /\ mode_ok s' /\ extras s' = extras s.
Proof.
  intros Hs Hm E; destruct (Scan_ok src src_units key n s Hs Hm) as (s2 & E2 & H & _).
  rewrite E in E2; injection E2 as <-; destruct H as (n' & _ & [? _ _] & ? & ? & _); eauto.
Qed.

Lemma scan_run_sim key1 key2 shown n s1 s2 ts1 :
  (forall text, shown (Some (Symbol (text ++ key1))) = shown (Some (Symbol (text ++ key2)))) ->
  stands src n s1 -> mode_ok s1 -> fresh shown s1 s2 -> scan_run key1 s1 ts1 ->
  exists ts2, scan_run key2 s2 ts2 /\ Forall2 (same_token shown) ts1 ts2.
Proof.
  intros Hshown Hs Hm Hf Hr; revert n s2 Hs Hm Hf.
  induction Hr as [s1 s1' E1 Ee1 Ek | s1 s1' ts1 E1 Ee1 Ek Hr IH]; intros n s2 Hs Hm Hf.
  all: destruct (orel_Ok _ _ _ _ (fresh_Scan src key1 key2 shown Hshown s1 s2 Hf) E1) as (s2' & E2 & Hsim).
  all: destruct (Scan_next key1 n s1 s1' Hs Hm E1) as (n' & Hs' & Hm' & _).
  all: destruct (Scan_next key2 n s2 s2' (fresh_stands _ _ _ _ Hf Hs) (fresh_mode_ok _ _ _ Hf Hm) E2)
         as (_ & _ & _ & Ee2).
  all: pose proof (sim_same_token _ _ _ Hsim) as Ht; pose proof (proj1 Ht) as Hkind.
  - exists [current_token_ s2']; split; [apply run_end; congruence |]; constructor; done.
  - destruct (IH n' s2' Hs' Hm' (sim_fresh _ _ _ Hsim)) as (ts2 & Hr2 & H2).
    exists (current_token_ s2' :: ts2); split; [apply run_next; congruence |]; constructor; done.
Qed.

(** With one key the tokens are equal. *)
Lemma scan_run_same key n s1 s2 ts :
  stands src n s1 -> mode_ok s1 -> fresh (fun l => l) s1 s2 -> scan_run key s1 ts ->
  scan_run key s2 ts.
Proof.
  intros Hs Hm Hf Hr; destruct (scan_run_sim key key (fun l => l) n s1 s2 ts) as (ts2 & Hr2 & H2); try done.
  enough (ts = ts2) as -> by done; clear -H2.
  induction H2 as [| [] [] ts ts2 (? & ? & ? & ?) _ IH]; cbn in *; congruence.
Qed.

End Runs.

(** * The inserted tokens *)
Definition inserts_empty (prev : Z) (t : TokenDescriptor) : bool :=
  negb (Nat.eqb (Z.to_nat (line (position t) - prev)) 0) && is_interpolation (kind t).

Definition at_line (l : Z) (t : TokenDescriptor) : TokenDescriptor :=
  mkToken (kind t) (offset t) (mkPosition l (column (position t))) (literal t).

(** The tokens before [t] that count the lines since [prev]. *)
Definition inserted (nl em : TokenDescriptor) (prev : Z) (t : TokenDescriptor) : list TokenDescriptor :=
  newline_tokens (Z.to_nat (line (position t) - prev)) (line (position t)) nl
  ++ (if inserts_empty prev t then [at_line (line (position t)) em] else []).

Fixpoint weave (nl em : TokenDescriptor) (prev : Z) (ts : list TokenDescriptor) : list TokenDescriptor :=
  match ts with
  | [] => []
  | t :: ts => inserted nl em prev t ++ t :: weave nl em (line (position t)) ts
  end.

(** The line of an inserted token is set when it is added. *)
Lemma newline_tokens_line d l k nl : newline_tokens d l (at_line k nl) = newline_tokens d l nl.
Proof. induction d as [| d IH]; cbn [newline_tokens]; [done |]; rewrite IH; done. Qed.

Lemma newline_tokens_last d l nl :
  newline_tokens d l nl = [] \/ last (newline_tokens d l nl) = Some (at_line (l - 1) nl).
Proof.
  destruct d as [| d]; [left; done | right].
  induction d as [| d IH]; [done |]; cbn [newline_tokens]; rewrite last_cons.
  change (newline_tokens (S d) l nl) with (newline_tokens (S d) l nl) in IH.
  cbn [newline_tokens] in IH; rewrite IH; done.
Qed.

Lemma weave_line k k' nl em prev ts :
  weave (at_line k nl) (at_line k' em) prev ts = weave nl em prev ts.
Proof.
  revert prev; induction ts as [| t ts IH]; intros prev; cbn [weave]; [done |].
  unfold inserted; rewrite newline_tokens_line, IH; done.
Qed.

(** A token of the same line, or of a later one: the state after it is added. *)
Lemma at_line_id t : at_line (line (position t)) t = t.
Proof. destruct t as [? ? [] ?]; done. Qed.

Lemma add_token_ok s :
  fst (add_token s) =
    inserted (newline_token_ s) (empty_string_token_ s) (prev_token_line_ s) (current_token_ s)
    ++ [current_token_ s] /\
  exists k k', snd (add_token s) =
    set_prev_line (line (position (current_token_ s)))
      (set_extra_tokens (at_line k (newline_token_ s)) (at_line k' (empty_string_token_ s)) s).
Proof.
  unfold add_token, inserted, inserts_empty; cbn [fst snd]; split; [rewrite <- app_assoc; cbv zeta; destruct (_ && _); done |].
  set (t := current_token_ s); set (nls := newline_tokens _ _ _).
  assert (exists k, match last nls with Some t => t | None => newline_token_ s end
                    = at_line k (newline_token_ s)) as [k ->].
  { destruct (newline_tokens_last (Z.to_nat (line (position t) - prev_token_line_ s))
                (line (position t)) (newline_token_ s)) as [E | E]; fold nls in E; rewrite E; cbn [last].
    - exists (line (position (newline_token_ s))); rewrite at_line_id; done.
    - eexists; done. }
  exists k; destruct (_ && _); [eexists; done |].
  exists (line (position (empty_string_token_ s))); rewrite at_line_id; done.
Qed.

(** * ScanAll and ScanTo *)
Section Streams.

Variable src : list Z.
Hypothesis src_units : Forall (fun c => 0 <= c <= 0xFFFF) src.

(** Changes of the fields that [Scan] does not read. *)
Lemma fresh_extras shown l nl em s : fresh shown s (set_prev_line l (set_extra_tokens nl em s)).
Proof. intros d; done. Qed.

Lemma scan_all_loop_run key fuel n s ts :
  stands src n s -> mode_ok s -> scan_run src key s ts -> (List.length ts <= fuel)%nat ->
  returns (scan_all_loop src key fuel s)
    (fun r => fst r = weave (newline_token_ s) (empty_string_token_ s) (prev_token_line_ s) ts).
Proof.
  revert fuel n s; induction ts as [| t ts IH]; intros fuel n s Hs Hm Hr Hf; [inversion Hr |].
  destruct fuel as [| fuel]; [cbn in Hf; lia |]; cbn [scan_all_loop].
  assert (exists s', Scan src key s = Ok s' /\ extras s' = extras s /\ current_token_ s' = t /\
    (kind t = kEOS /\ ts = [] \/ kind t <> kEOS /\ scan_run src key s' ts))
    as (s' & E & Ee & <- & Hrest) by (inversion Hr; subst; eauto 10).
  destruct (Scan_next src src_units key n s s' Hs Hm E) as (n' & Hs' & Hm' & _).
  rewrite E; cbn [obind]; injection Ee as En Eem Ep.
  destruct (add_token_ok s') as (Hfst & k & k' & Hsnd); destruct (add_token s') as [tokens s2].
  cbn [fst snd] in Hfst, Hsnd; subst tokens s2.
  unfold kind_is; cbn [current_token_ set_prev_line set_extra_tokens].
  destruct Hrest as [[Hk ->] | [Hk Hr']].
  - rewrite Hk; cbn [kind_eqb negb]; apply returns_Ok; cbn [fst weave]; rewrite En, Eem, Ep; done.
  - rewrite (proj2 (kind_eqb_neq _ _) Hk); cbn [negb].
    pose proof (fresh_extras (fun l => l) (line (position (current_token_ s')))
      (at_line k (newline_token_ s')) (at_line k' (empty_string_token_ s')) s') as Hfr.
    call (IH fuel n' _ (fresh_stands src _ _ _ _ Hfr Hs') (fresh_mode_ok _ _ _ Hfr Hm')
            (scan_run_same src src_units key n' _ _ _ Hs' Hm' Hfr Hr')) as [rest s3] Hrest;
      [cbn in Hf; lia |].
    apply returns_Ok; cbn [fst] in *; rewrite Hrest.
    cbn [newline_token_ empty_string_token_ prev_token_line_ set_prev_line set_extra_tokens].
    rewrite weave_line; cbn [weave]; rewrite En, Eem, Ep, <- app_assoc; done.
Qed.

(** The first scanned token at or after an index of the stream. *)
Fixpoint token_at (nl em : TokenDescriptor) (prev : Z) (i : nat) (ts : list TokenDescriptor)
  : option TokenDescriptor :=
  match ts with
  | [] => None
  | t :: ts =>
      let k := List.length (inserted nl em prev t) in
      if (i <=? k)%nat then Some t
      else match ts with
           | [] => Some t
           | _ => token_at nl em (line (position t)) (i - S k) ts
           end
  end.

Lemma length_newline_tokens d l nl : List.length (newline_tokens d l nl) = d.
Proof. induction d as [| d IH]; cbn; congruence. Qed.

Lemma length_inserted nl em prev t :
  Z.of_nat (List.length (inserted nl em prev t)) =
  Z.max 0 (line (position t) - prev)
  + (if (0 <? line (position t) - prev) && is_interpolation (kind t) then 1 else 0).
Proof.
  unfold inserted, inserts_empty; rewrite length_app, length_newline_tokens.
  destruct (Nat.eqb_spec (Z.to_nat (line (position t) - prev)) 0), (Z.ltb_spec 0 (line (position t) - prev));
    try lia; cbn [negb andb]; [cbn; lia |].
  destruct (is_interpolation (kind t)); cbn [List.length]; lia.
Qed.

Lemma scan_to_loop_run key fuel n nl em (i : nat) base s ts :
  stands src n s -> mode_ok s -> scan_run src key s ts -> (List.length ts <= fuel)%nat ->
  returns (scan_to_loop src key fuel (base + Z.of_nat i) base s)
    (fun s' => token_at nl em (prev_token_line_ s) i ts = Some (current_token_ s')).
Proof.
  revert fuel n i base s; induction ts as [| t ts IH]; intros fuel n i base s Hs Hm Hr Hf; [inversion Hr |].
  destruct fuel as [| fuel]; [cbn in Hf; lia |]; cbn [scan_to_loop].
  assert (exists s', Scan src key s = Ok s' /\ extras s' = extras s /\ current_token_ s' = t /\
    (kind t = kEOS /\ ts = [] \/ kind t <> kEOS /\ scan_run src key s' ts))
    as (s' & E & Ee & <- & Hrest) by (inversion Hr; subst; eauto 10).
  destruct (Scan_next src src_units key n s s' Hs Hm E) as (n' & Hs' & Hm' & _).
  rewrite E; cbn [obind]; injection Ee as _ _ Ep; cbv zeta; rewrite Ep.
  set (t := current_token_ s') in *; cbn [token_at].
  pose proof (length_inserted nl em (prev_token_line_ s) t) as Hlen.
  set (k := List.length (inserted nl em (prev_token_line_ s) t)) in *.
  match goal with |- context [base + Z.of_nat i >=? ?y] =>
    assert (Hindex : y = base + Z.of_nat k + 1) by (destruct (_ && _); lia) end.
  rewrite !Hindex; unfold kind_is; cbn [current_token_ set_prev_line]; fold t.
  destruct (Nat.leb_spec i k), (Z.geb_spec (base + Z.of_nat i) (base + Z.of_nat k + 1)); try lia; cbn [andb].
  - apply returns_Ok; done.
  - destruct Hrest as [[Hk ->] | [Hk Hr']]; [rewrite Hk; apply returns_Ok; done |].
    rewrite (proj2 (kind_eqb_neq _ _) Hk); cbn [negb].
    assert (Hfr : fresh (fun l => l) s' (set_prev_line (line (position t)) s')) by (intros d; done).
    replace (base + Z.of_nat i) with (base + Z.of_nat k + 1 + Z.of_nat (i - S k)) by lia.
    eapply returns_mono.
    { apply (IH fuel n' (i - S k)%nat (base + Z.of_nat k + 1) _ (fresh_stands src _ _ _ _ Hfr Hs')
              (fresh_mode_ok _ _ _ Hfr Hm') (scan_run_same src src_units key n' _ _ _ Hs' Hm' Hfr Hr')).
      cbn in Hf; lia. }
    intros s3 H3; destruct ts; [inversion Hr' | exact H3].
Qed.

(** * Inserted and scanned tokens

    An inserted token is a newline token or has no column. *)
Definition is_newline (t : TokenDescriptor) : bool := kind_eqb (kind t) kNEWLINE.
Definition is_inserted (t : TokenDescriptor) : bool := is_newline t || (column (position t) =? 0).
Definition scanned_tokens (stream : list TokenDescriptor) : list TokenDescriptor :=
  List.filter (fun t => negb (is_inserted t)) stream.
Definition newlines (stream : list TokenDescriptor) : Z :=
  Z.of_nat (List.length (List.filter is_newline stream)).

Lemma newlines_app l1 l2 : newlines (l1 ++ l2) = newlines l1 + newlines l2.
Proof. unfold newlines; rewrite List.filter_app, length_app; lia. Qed.

Section Weave.

Context (nl em : TokenDescriptor) (Hnl : kind nl = kNEWLINE) (Hem : kind em <> kNEWLINE)
  (Hcol : column (position em) = 0).

Lemma newline_tokens_kind d l : Forall (fun t => kind t = kNEWLINE) (newline_tokens d l nl).
Proof. induction d; cbn; constructor; done. Qed.

Lemma inserted_all prev t : Forall (fun t => is_inserted t = true) (inserted nl em prev t).
Proof.
  unfold inserted; apply Forall_app; split.
  - eapply Forall_impl; [apply newline_tokens_kind |]; intros x Hx.
    unfold is_inserted, is_newline; rewrite Hx; done.
  - destruct (inserts_empty _ _); constructor; [| done].
    unfold is_inserted; cbn; rewrite Hcol, orb_true_r; done.
Qed.

Lemma ordered_not_inserted lo ts :
  ordered src lo ts -> Forall (fun t => is_inserted t = false) ts.
Proof.
  revert lo; induction ts as [| t ts IH]; intros lo; [constructor |].
  intros (Hk & _ & m & _ & _ & Hp & _ & H); constructor; [| apply (IH m H)].
  unfold is_inserted, is_newline; rewrite (proj2 (kind_eqb_neq _ _) Hk), Hp.
  pose proof (position_bounds src m); destruct (Z.eqb_spec (column (position_at src m)) 0); [lia | done].
Qed.

Lemma filter_nothing {A} (p : A -> bool) l : Forall (fun x => p x = false) l -> List.filter p l = [].
Proof. induction 1 as [| x l Hx _ IH]; cbn; [done |]; rewrite Hx; done. Qed.

(** The scanned tokens are those that were not inserted. *)
Lemma scanned_weave prev ts :
  Forall (fun t => is_inserted t = false) ts -> scanned_tokens (weave nl em prev ts) = ts.
Proof.
  intros H; revert prev; induction H as [| t ts Ht _ IH]; intros prev; cbn [weave]; [done |].
  unfold scanned_tokens in *; rewrite List.filter_app; cbn [List.filter]; rewrite Ht, IH; cbn [negb].
  rewrite filter_nothing; [done |].
  eapply Forall_impl; [apply inserted_all |]; intros x ->; done.
Qed.

Lemma newlines_tokens d l : newlines (newline_tokens d l nl) = Z.of_nat d.
Proof.
  unfold newlines; f_equal; rewrite <- (length_newline_tokens d l nl) at 2; f_equal.
  apply forallb_filter_id, forallb_forall; intros x Hx%list_elem_of_In.
  unfold is_newline; pose proof (newline_tokens_kind d l) as H.
  eapply Forall_forall in H; [| exact Hx]; rewrite H; done.
Qed.

Lemma newline_tokens_lookup d l i t :
  newline_tokens d l nl !! i = Some t ->
  line (position t) = l - Z.of_nat d + Z.of_nat i /\ newlines (take i (newline_tokens d l nl)) = Z.of_nat i.
Proof.
  revert i; induction d as [| d IH]; intros i; cbn [newline_tokens]; [done |].
  destruct i as [| i]; cbn [lookup list_lookup].
  - intros [= <-]; cbn; split; [lia | done].
  - intros H; destruct (IH i H) as [-> Hc]; split; [lia |].
    cbn [take]; change (?x :: take i ?y) with ([x] ++ take i y); rewrite newlines_app, Hc.
    unfold newlines, is_newline; cbn [List.filter kind]; rewrite Hnl; cbn; lia.
Qed.

(** The line of every token is the number of the newline tokens before it. *)
Lemma weave_lines lo prev ts i t :
  ordered src lo ts -> prev <= line (position_at src lo) ->
  weave nl em prev ts !! i = Some t ->
  line (position t) = prev + newlines (take i (weave nl em prev ts)).
Proof.
  revert lo prev i; induction ts as [| t0 ts IH]; intros lo prev i Ho Hp; cbn [weave]; [done |].
  destruct Ho as (Hk & _ & m & Hm & _ & Hpos & _ & Ho).
  assert (Hl : prev <= line (position t0)).
  { rewrite Hpos; pose proof (position_lines src lo m ltac:(lia)); lia. }
  set (d := Z.to_nat (line (position t0) - prev)).
  assert (Hd : line (position t0) - Z.of_nat d = prev) by lia.
  unfold inserted; fold d; rewrite <- app_assoc; intros Hi.
  apply lookup_app_Some in Hi as [Hi | [Hge Hi]].
  { destruct (newline_tokens_lookup _ _ _ _ Hi) as [-> Hc]; rewrite take_app_le.
    - rewrite Hc; lia.
    - apply lookup_lt_Some in Hi; lia. }
  rewrite length_newline_tokens in Hge, Hi.
  rewrite take_app_ge by (rewrite length_newline_tokens; lia).
  rewrite newlines_app, newlines_tokens, length_newline_tokens.
  set (j := (i - d)%nat) in *; clearbody j; clear i Hge.
  assert (Hone : is_newline t0 = false) by (apply kind_eqb_neq; done).
  destruct (inserts_empty prev t0); cbn [app] in *; [destruct j as [| j]; cbn in Hi |];
    [injection Hi as <-; unfold newlines; cbn; lia | |]; (destruct j as [| j]; cbn in Hi; [injection Hi as <-; cbn |]).
  - unfold newlines, is_newline; cbn; rewrite (proj2 (kind_eqb_neq _ _) Hem); cbn; lia.
  - cbn [take]; unfold newlines; cbn [List.filter].
    unfold is_newline at 1; cbn [at_line kind]; rewrite (proj2 (kind_eqb_neq _ _) Hem).
    unfold is_newline at 1; rewrite (proj2 (kind_eqb_neq _ _) Hk).
    fold (newlines (take j (weave nl em (line (position t0)) ts))).
    rewrite (IH m (line (position t0)) j Ho); [lia | rewrite Hpos; lia | exact Hi].
  - unfold newlines; cbn; lia.
  - cbn [take]; unfold newlines; cbn [List.filter]; rewrite Hone.
    fold (newlines (take j (weave nl em (line (position t0)) ts))).
    rewrite (IH m (line (position t0)) j Ho); [lia | rewrite Hpos; lia | exact Hi].
Qed.

Lemma weave_token_at prev ts i t :
  weave nl em prev ts !! i = Some t -> is_inserted t = false -> token_at nl em prev i ts = Some t.
Proof.
  revert prev i; induction ts as [| t0 ts IH]; intros prev i; cbn [weave token_at]; [done |].
  intros Hi Ht; apply lookup_app_Some in Hi as [Hi | [Hge Hi]].
  - pose proof (inserted_all prev t0) as H; eapply Forall_lookup in H; [| exact Hi].
    cbn in H; congruence.
  - destruct (Nat.leb_spec i (List.length (inserted nl em prev t0))) as [Hle | Hlt].
    + replace (i - List.length (inserted nl em prev t0))%nat with O in Hi by lia; cbn in Hi; congruence.
    + replace (i - List.length (inserted nl em prev t0))%nat
        with (S (i - S (List.length (inserted nl em prev t0)))) in Hi by lia.
      cbn in Hi; destruct ts; [done |]; apply IH; done.
Qed.

Lemma weave_last prev ts : ts <> [] -> exists init, weave nl em prev ts = init ++ [List.last ts nl].
Proof.
  revert prev; induction ts as [| t ts IH]; intros prev; [done |]; intros _; cbn [weave].
  destruct ts as [| t' ts]; [eexists; done |].
  destruct (IH (line (position t))) as [init E]; [done |]; rewrite E.
  exists (inserted nl em prev t ++ t :: init); rewrite <- app_assoc; done.
Qed.

End Weave.

Lemma ordered_last lo ts d : ordered src lo ts -> ts <> [] -> kind (List.last ts d) = kEOS.
Proof.
  revert lo; induction ts as [| t ts IH]; intros lo Ho; [done |]; intros _.
  destruct Ho as (_ & He & m & _ & _ & _ & _ & Ho); destruct ts as [| t' ts]; [apply He; done |].
  apply (IH m Ho); done.
Qed.

End Streams.

(** * The theorems *)
Section Theorems.

Variable src : list Z.
Hypothesis src_units : Forall (fun c => 0 <= c <= 0xFFFF) src.

(** The stream of a source is woven from the tokens of a run. *)
Lemma GetStream_woven key memory :
  exists s nl em ts,
    Reset src memory = Ok s /\ scan_run src key s ts /\ ordered src 0 ts /\ ts <> [] /\
    (List.length ts <= token_fuel src)%nat /\ stands src 0 s /\ mode_ok s /\ prev_token_line_ s = 1 /\
    kind nl = kNEWLINE /\ kind em = kSTRING /\ column (position em) = 0 /\
    literal em = Some (Symbol []) /\ GetStream src key memory = Ok (weave nl em 1 ts).
Proof.
  destruct (Scanner_Reset_ok src memory) as (s & E & Hs & Hm & Hp & Hi & Hnl & Hem & Hcol & Hlit).
  destruct (scan_run_exists src src_units key (token_fuel src) 0 s Hs Hm) as (ts & Hr & Ho & Hl).
  { unfold weight, token_fuel, char_fuel; rewrite Hi; lia. }
  exists s, (newline_token_ s), (empty_string_token_ s), ts; split_and!; try done.
  { destruct ts; [cbn in Hl; lia | done]. }
  { lia. }
  unfold GetStream, ScanAll; rewrite E; cbn [obind].
  destruct (scan_all_loop_run src src_units key (token_fuel src) 0 s ts Hs Hm Hr ltac:(lia))
    as ([stream s'] & -> & Hw).
  cbn [obind fst] in *; rewrite Hw, Hp; done.
Qed.

End Theorems.

(** The tokens of a stream are on the lines that the newline tokens count. *)
Lemma GetStream_lines src key memory stream i t :
  Forall (fun c => 0 <= c <= 0xFFFF) src ->
  GetStream src key memory = Ok stream -> stream !! i = Some t ->
  line (position t) = 1 + newlines (take i stream).
Proof.
  intros Hu E Hi; destruct (GetStream_woven src Hu key memory)
    as (s & nl & em & ts & _ & _ & Ho & _ & _ & _ & _ & _ & Hnl & Hem & Hcol & _ & E').
  rewrite E in E'; injection E' as ->.
  apply (weave_lines src nl em Hnl ltac:(congruence) 0 1 ts i t Ho); [done | exact Hi].
Qed.

(** C11. Every source is scanned to its end, without a failed assertion and within the
    bounds of the loops: the tokens that were scanned are in the order of the source, each
    with an offset in the source and with the line and the column of that offset, and the
    last of them, and only that one, is the end of the source, which stands at the end of
    the text or at a null character. *)
Theorem GetStream_ok src key memory :
  Forall (fun c => 0 <= c <= 0xFFFF) src ->
  returns (GetStream src key memory)
    (fun stream => scanned_tokens stream <> [] /\ ordered src 0 (scanned_tokens stream) /\
       exists init eos, stream = init ++ [eos] /\ kind eos = kEOS).
Proof.
  intros Hu; destruct (GetStream_woven src Hu key memory)
    as (s & nl & em & ts & _ & _ & Ho & Hne & _ & _ & _ & _ & Hnl & Hem & Hcol & _ & E).
  exists (weave nl em 1 ts); split; [done |].
  rewrite scanned_weave by (try done; apply (ordered_not_inserted src 0), Ho).
  split; [done |]; split; [done |].
  destruct (weave_last nl em 1 ts Hne) as [init ->]; exists init; eexists; split; [done |].
  apply (ordered_last src 0); done.
Qed.

(** The newline tokens of a stream count the lines: every token is on the line after
    as many lines as there are newline tokens before it, so that the lines can be found
    without the source. *)
Theorem newlines_count_lines src key memory stream i t :
  Forall (fun c => 0 <= c <= 0xFFFF) src ->
  GetStream src key memory = Ok stream -> stream !! i = Some t ->
  line (position t) = 1 + newlines (take i stream).
Proof. apply GetStream_lines. Qed.

(** Equal runs have equal tokens at an index. *)
Lemma token_at_same nl em prev j ts ts' a b :
  Forall2 (same_token (fun _ => None)) ts ts' ->
  token_at nl em prev j ts = Some a -> token_at nl em prev j ts' = Some b ->
  same_token (fun _ => None) a b.
Proof.
  intros H; revert prev j; induction H as [| x y ts ts' Hxy H IH]; intros prev j; cbn [token_at]; [done |].
  destruct Hxy as (Hk & Hof & Hpos & Hlit).
  assert (El : List.length (inserted nl em prev x) = List.length (inserted nl em prev y)).
  { apply Nat2Z.inj; rewrite !length_inserted, Hk, Hpos; done. }
  rewrite El; destruct (_ <=? _)%nat; [intros [= <-] [= <-]; done |].
  destruct H as [| ? ? ? ? ? ?]; [intros [= <-] [= <-]; done |]; rewrite Hpos; apply IH.
Qed.

(** The token that [ScanTo] finds in the stream of another scanner of the source. *)
Lemma ScanTo_ok src key key' memory memory' stream i t :
  Forall (fun c => 0 <= c <= 0xFFFF) src ->
  GetStream src key memory = Ok stream -> stream !! i = Some t -> is_inserted t = false ->
  returns (ScanTo src key' (Z.of_nat i) memory')
    (fun s' => same_token (fun _ => None) t (current_token_ s')).
Proof.
  intros Hu E Hi Ht; destruct (GetStream_woven src Hu key memory)
    as (s & nl & em & ts & Es & Hr & Ho & Hne & Hl & Hs & Hm & Hp & Hnl & Hem & Hcol & _ & E').
  rewrite E in E'; injection E' as ->.
  destruct (Scanner_Reset_ok src memory') as (s' & Es' & _ & _ & Hp' & _).
  pose proof (Reset_fresh src (fun _ => None) memory memory') as Hf.
  rewrite Es, Es' in Hf; cbn in Hf.
  destruct (scan_run_sim src Hu key key' (fun _ => None) 0 s s' ts) as (ts' & Hr' & H2); try done.
  unfold ScanTo; rewrite Es'; cbn [obind].
  destruct (scan_to_loop_run src Hu key' (token_fuel src) 0 nl em i 0 s' ts'
    (fresh_stands src _ _ _ _ Hf Hs) (fresh_mode_ok _ _ _ Hf Hm) Hr')
    as (s2 & E2 & H); [erewrite <- Forall2_length by exact H2; lia |].
  rewrite Z.add_0_l in E2; exists s2; split; [done |]; rewrite Hp' in H.
  pose proof (weave_token_at nl em Hnl Hcol 1 ts i t Hi Ht) as Ha.
  apply (token_at_same nl em 1 i ts ts' t _ H2 Ha H).
Qed.

(** [ScanTo] of the index of a token in the stream of a source scans up to this token:
    the scanner, which may have another library key, stands at a token of the same kind,
    offset, line and column. *)
Theorem ScanTo_finds src key key' memory memory' stream i t :
  Forall (fun c => 0 <= c <= 0xFFFF) src ->
  GetStream src key memory = Ok stream -> stream !! i = Some t -> is_inserted t = false ->
  returns (ScanTo src key' (Z.of_nat i) memory')
    (fun s' => kind (current_token_ s') = kind t /\ offset (current_token_ s') = offset t /\
               position (current_token_ s') = position t).
Proof.
  intros Hu E Hi Ht; eapply returns_mono; [apply (ScanTo_ok src key key' memory memory' stream i t); done |].
  intros s' (? & ? & ? & _); done.
Qed.

(** * A concrete source *)
Definition blank_token : TokenDescriptor := mkToken kILLEGAL 0 (mkPosition 0 0) None.
Definition blank : Scanner :=
  mkScanner blank_token blank_token blank_token 0 0 0 false 0 [] 0 false 0 (mkPosition 0 0).
Definition sample : list Z := chars "a(1);" ++ [kLineFeed] ++ chars "  b".
Definition sample_stream : list TokenDescriptor :=
  [mkToken kIDENT 0 (mkPosition 1 1) (Some (Symbol (chars "a")));
   mkToken kLPAREN 1 (mkPosition 1 2) None;
   mkToken kINTEGER 2 (mkPosition 1 3) (Some (Symbol (chars "1")));
   mkToken kRPAREN 3 (mkPosition 1 4) None; mkToken kSEMICOLON 4 (mkPosition 1 5) None;
   mkToken kNEWLINE 0 (mkPosition 1 0) None;
   mkToken kIDENT 8 (mkPosition 2 3) (Some (Symbol (chars "b")));
   mkToken kEOS 9 (mkPosition 2 4) None].

Lemma sample_units : Forall (fun c => 0 <= c <= 0xFFFF) sample.
Proof. vm_compute; repeat (apply Forall_cons_2; [split; discriminate |]); apply Forall_nil_2. Qed.

Lemma sample_scans : GetStream sample [] blank = Ok sample_stream.
Proof. vm_compute; reflexivity. Qed.

Lemma GetStream_ok_witness :
  returns (GetStream sample [] blank)
    (fun stream => scanned_tokens stream <> [] /\ ordered sample 0 (scanned_tokens stream) /\
       exists init eos, stream = init ++ [eos] /\ kind eos = kEOS).
Proof. apply (GetStream_ok sample [] blank sample_units). Defined.

Lemma newlines_count_lines_witness : 2 = 1 + newlines (take 6 sample_stream).
Proof.
  exact (newlines_count_lines sample [] blank sample_stream 6
    (mkToken kIDENT 8 (mkPosition 2 3) (Some (Symbol (chars "b")))) sample_units sample_scans eq_refl).
Defined.

Lemma ScanTo_finds_witness :
  returns (ScanTo sample [] 6 blank)
    (fun s' => kind (current_token_ s') = kIDENT /\ offset (current_token_ s') = 8 /\
               position (current_token_ s') = mkPosition 2 3).
Proof.
  exact (ScanTo_finds sample [] [] blank blank sample_stream 6
    (mkToken kIDENT 8 (mkPosition 2 3) (Some (Symbol (chars "b")))) sample_units sample_scans
    eq_refl eq_refl).
Defined.

(** * Literals

    A token that stands for an identifier, a literal, an interpolated variable or an error
    has a literal.  [ensures m P]: if the run returns, its value satisfies [P]. *)
Definition ensures {A} (m : outcome A) (P : A -> Prop) : Prop := forall a, m = Ok a -> P a.

Lemma ensures_Ok {A} (a : A) (P : A -> Prop) : P a -> ensures (Ok a) P.
Proof. intros H b [= <-]; done. Qed.
Lemma ensures_Err {A} e (P : A -> Prop) : ensures (Err e) P.
Proof. intros a [=]. Qed.
Lemma ensures_bind {A B} (m : outcome A) (f : A -> outcome B) P Q :
  ensures m P -> (forall a, P a -> ensures (f a) Q) -> ensures (obind m f) Q.
Proof. intros Hm Hf b; destruct m as [a | e]; cbn; [apply Hf, Hm; done | done]. Qed.
Lemma ensures_last {A B} (m : outcome A) (f : A -> outcome B) Q :
  (forall a, ensures (f a) Q) -> ensures (obind m f) Q.
Proof. intros Hf; apply (ensures_bind m f (fun _ => True)); auto; intros a _; done. Qed.

(** Kinds of tokens that a stream keeps as objects. *)
Definition needs_object (k : Kind) : bool := kind_eqb k kIDENT || NeedsLiteralToken k.
Definition settled_token (d : TokenDescriptor) : Prop :=
  needs_object (kind d) = true -> literal d <> None.
Definition settled (s : Scanner) : Prop := settled_token (current_token_ s).
Definition error_settled (s : Scanner) : Prop :=
  kind (current_token_ s) = kERROR -> literal (current_token_ s) <> None.

Section Literals.

Variable src key : list Z.

(** Characters are read without a change of the token. *)
Definition keeps_token (s s' : Scanner) : Prop := current_token_ s' = current_token_ s.

Lemma ReadChar_keeps s : ensures (ReadChar src s) (keeps_token s).
Proof.
  unfold ReadChar, read_next, LookaheadChar, CharAt; cbn; intros s'.
  repeat (match goal with
          | |- (if ?b then _ else _) = _ -> _ => destruct b; cbn
          | |- obind ?m _ = _ -> _ => destruct m; cbn
          end); intros [= <-]; done.
Qed.

Lemma read_while_keeps p fuel k s : ensures (read_while src p fuel k s) (fun r => keeps_token s (snd r)).
Proof.
  revert k s; induction fuel as [| fuel IH]; intros k s; cbn [read_while]; destruct (p (c0_ s));
    try (apply ensures_Ok; done); [apply ensures_Err |].
  eapply ensures_bind; [apply ReadChar_keeps |]; intros s1 E [k' s'] H.
  unfold keeps_token in *; rewrite (IH _ _ _ H), E; done.
Qed.

Lemma skip_while_keeps p s : ensures (skip_while src p s) (keeps_token s).
Proof.
  eapply ensures_bind; [apply read_while_keeps |]; intros [k s'] H; apply ensures_Ok; done.
Qed.

(** The final state has a token with a literal, or of a kind that needs none. *)
Lemma settled_literal l s : settled (with_literal l s).
Proof. intros _; done. Qed.
Lemma settled_kind k s : needs_object k = false -> settled (with_kind k s).
Proof. intros H; unfold settled, settled_token; cbn; congruence. Qed.
Lemma settled_error m s : settled (ErrorMsg m s).
Proof. intros _; done. Qed.
Lemma settled_keeps s s' : keeps_token s s' -> settled s -> settled s'.
Proof. intros E; unfold settled; rewrite E; done. Qed.

Lemma Recognize_settled k s : needs_object k = false -> ensures (Recognize src k s) settled.
Proof. intros H; apply ensures_last; intros s'; apply ensures_Ok, settled_kind, H. Qed.

Lemma ConsumeLineComment_settled s : ensures (ConsumeLineComment src s) settled.
Proof.
  unfold ConsumeLineComment; destruct (_ =? _); [| apply ensures_Err].
  do 2 (apply ensures_last; intros ?); apply ensures_Ok, settled_kind; done.
Qed.

Lemma ConsumeBlockComment_settled s : ensures (ConsumeBlockComment src s) settled.
Proof.
  unfold ConsumeBlockComment; destruct (_ =? _); [| apply ensures_Err].
  apply ensures_last; intros ?; apply ensures_last; intros [l ?]; apply ensures_Ok, settled_kind.
  destruct (l =? 0); done.
Qed.

Lemma ScanIdentChars_literal allow s :
  ensures (ScanIdentChars src key allow s) (fun s' => literal (current_token_ s') <> None).
Proof.
  unfold ScanIdentChars; do 2 (destruct (_ : bool); [| apply ensures_Err]).
  apply ensures_last; intros c; apply ensures_last; intros [m s1]; apply ensures_last; intros [e |];
    apply ensures_Ok; done.
Qed.

Lemma ScanIdent_settled s : ensures (ScanIdent src key s) settled.
Proof. intros s' H _; apply (ScanIdentChars_literal true s s' H). Qed.

Lemma number_literal_settled s : ensures (number_literal src s) settled.
Proof.
  unfold number_literal, kind_is; destruct (kind_eqb_spec (kind (current_token_ s)) kILLEGAL) as [E |];
    apply ensures_Ok; [| apply settled_literal].
  unfold settled, settled_token; rewrite E; done.
Qed.

Lemma scan_exponent_settled s :
  ensures (scan_exponent src s) (fun r => fst r = false -> settled (snd r)).
Proof.
  unfold scan_exponent; destruct (_ || _); [| apply ensures_Ok; done].
  apply ensures_last; intros c; destruct (_ || _); [| apply ensures_Ok; done].
  do 2 (apply ensures_last; intros ?); destruct (negb _); [apply ensures_Ok; intros _; apply settled_error |].
  apply ensures_last; intros ?; apply ensures_Ok; done.
Qed.

Lemma ScanNumber_settled dec s : ensures (ScanNumber src dec s) settled.
Proof.
  unfold ScanNumber; destruct (IsDecimalDigit _); [| apply ensures_Err].
  apply ensures_last; intros s1; destruct (_ && _).
  - apply ensures_last; intros s2; destruct (negb _); [apply ensures_Ok, settled_error |].
    apply ensures_last; intros s3; apply number_literal_settled.
  - do 2 (apply ensures_last; intros ?); eapply ensures_bind; [apply scan_exponent_settled |].
    intros [[] s3] H; [apply number_literal_settled | apply ensures_Ok, H; done].
Qed.

(** * Strings *)
Definition errors_kept (s s' : Scanner) : Prop := error_settled s -> error_settled s'.

Lemma keeps_errors s s' : keeps_token s s' -> errors_kept s s'.
Proof. unfold errors_kept, error_settled; intros ->; done. Qed.

Lemma scan_hex_digits_errors digits v s :
  ensures (scan_hex_digits src digits v s) (fun r => errors_kept s (snd r)).
Proof.
  revert v s; induction digits as [| digits IH]; intros v s; cbn [scan_hex_digits].
  { apply ensures_Ok; intros H; exact H. }
  eapply ensures_bind; [apply ReadChar_keeps |]; intros s1 E.
  destruct (negb _); [apply ensures_Ok; intros _ _; done |].
  apply ensures_last; intros d r H He; apply (IH _ _ r H), (keeps_errors s s1 E He).
Qed.

Lemma scan_hex_range_errors rounds i min v s :
  ensures (scan_hex_range src rounds i min v s) (fun r => errors_kept s (snd r)).
Proof.
  revert i v s; induction rounds as [| rounds IH]; intros i v s; cbn [scan_hex_range].
  { apply ensures_Ok; intros H; exact H. }
  destruct (negb _); [destruct (i <? min); apply ensures_Ok; [intros _ _; done | intros H; exact H] |].
  apply ensures_last; intros d; eapply ensures_bind; [apply ReadChar_keeps |].
  intros s1 E r H He; apply (IH _ _ _ r H), (keeps_errors s s1 E He).
Qed.

Lemma check_code_point_errors valid c s : errors_kept s (snd (check_code_point valid c s)).
Proof. unfold check_code_point; destruct (_ && _); [intros _ _; done | intros H; exact H]. Qed.

Lemma ScanEscapedCodePoint_errors s :
  ensures (ScanEscapedCodePoint src s) (fun r => errors_kept s (snd r)).
Proof.
  unfold ScanEscapedCodePoint, ScanHexDigits, ScanHexDigits_range.
  destruct (_ || _); [| apply ensures_Err].
  assert (Hd : forall n, ensures
    (let* (is_valid, code_point, s) := scan_hex_digits src n 0 s in Ok (check_code_point is_valid code_point s))
    (fun r => errors_kept s (snd r))).
  { intros n; eapply ensures_bind; [apply scan_hex_digits_errors |]; intros [[valid c] s1] E.
    apply ensures_Ok; intros He; apply check_code_point_errors, E, He. }
  destruct (_ =? _); [apply Hd |]; apply ensures_last; intros c1; destruct (negb _); [apply Hd |].
  eapply ensures_bind; [apply ReadChar_keeps |]; intros s1 E.
  eapply (ensures_bind _ _ (fun r => errors_kept s (snd r))).
  { eapply ensures_bind; [apply ReadChar_keeps |]; intros s2 E2 r H He.
    apply (scan_hex_range_errors _ _ _ _ _ r H), (keeps_errors _ _ E2), (keeps_errors _ _ E He). }
  intros [[valid c] s2] E2; destruct (_ && _); apply ensures_Ok; [intros _ _; done |].
  intros He; apply check_code_point_errors, E2, He.
Qed.

Lemma scan_escape_errors s :
  ensures (scan_escape src s)
    (fun r => match fst r with Some _ => errors_kept s (snd r) | None => settled (snd r) end).
Proof.
  unfold scan_escape; eapply ensures_bind; [apply ReadChar_keeps |]; intros s1 E; cbv zeta.
  repeat (match goal with |- ensures (if (c0_ s1 =? _) then _ else _) _ => destruct (c0_ s1 =? _) end;
          [apply ensures_Ok; apply keeps_errors, E |]).
  destruct (_ || _).
  - eapply ensures_bind; [apply ScanEscapedCodePoint_errors |]; intros [c s2] E2; apply ensures_Ok.
    intros He; apply E2, (keeps_errors _ _ E He).
  - destruct (is_unterminated s1); apply ensures_Ok; [intros _; done | apply keeps_errors, E].
Qed.

Lemma end_string_settled l s : error_settled s -> ensures (end_string src l s) settled.
Proof.
  intros He; unfold end_string; eapply (ensures_bind _ _ (keeps_token s)).
  { destruct (string_is_multiline_ s); [| apply ensures_Ok; done].
    eapply ensures_bind; [apply ReadChar_keeps |]; intros s1 E s2 H.
    unfold keeps_token in *; rewrite (ReadChar_keeps s1 s2 H); done. }
  intros s1 E; eapply (ensures_bind _ _ settled).
  - unfold kind_is; destruct (kind_eqb_spec (kind (current_token_ s1)) kERROR) as [Ek | Ek].
    + intros s2 H; apply (settled_keeps s1 s2 (ReadChar_keeps s1 s2 H)).
      intros _; apply (keeps_errors s s1 E He Ek).
    + do 2 (apply ensures_last; intros ?); apply ensures_Ok, settled_literal.
  - intros s2 H; apply ensures_Ok, H.
Qed.

Lemma end_piece_settled l s : ensures (end_piece l s) settled.
Proof.
  unfold end_piece; apply ensures_last; intros u; apply ensures_Ok.
  destruct (negb _); intros _; done.
Qed.

Lemma scan_code_point_errors s : ensures (scan_code_point src s) (fun r => errors_kept s (snd r)).
Proof.
  unfold scan_code_point; destruct (Utf16.IsLeadSurrogate _); [| apply ensures_Ok; intros H; exact H].
  apply ensures_last; intros c; destruct (Utf16.IsTrailSurrogate c); [| apply ensures_Ok; intros H; exact H].
  eapply ensures_bind; [apply ReadChar_keeps |]; intros s1 E; apply ensures_Ok, keeps_errors, E.
Qed.

Lemma string_loop_settled fuel raw_ remove l s :
  error_settled s -> ensures (string_loop src fuel raw_ remove l s) settled.
Proof.
  revert remove l s; induction fuel as [| fuel IH]; intros remove l s He; cbn [string_loop];
    [apply ensures_Err |]; cbv zeta.
  assert (Hnext : forall ch s1, error_settled s1 ->
    ensures (let '(r', l') := discard_first_line remove (l ++ [ch]) in
             let* s := ReadChar src s1 in string_loop src fuel raw_ r' l' s) settled).
  { intros ch s1 He1; destruct (discard_first_line _ _) as [r' l'].
    eapply ensures_bind; [apply ReadChar_keeps |]; intros s2 E2; apply IH, (keeps_errors s1 s2 E2 He1). }
  destruct (is_unterminated s); [apply ensures_Ok; intros _; done |].
  destruct (_ && _); [| destruct (_ && _); [apply end_piece_settled |]].
  - eapply ensures_bind; [apply scan_escape_errors |]; intros [[ch |] s1] E; cbn [fst snd] in E.
    + apply Hnext, E, He.
    + apply ensures_Ok, E.
  - destruct (_ =? _).
    + apply ensures_last; intros []; [apply end_string_settled, He | apply Hnext, He].
    + eapply ensures_bind; [apply scan_code_point_errors |]; intros [ch s1] E; apply Hnext, E, He.
Qed.

Lemma ScanLiteralStringChars_settled raw_ remove s :
  error_settled s -> ensures (ScanLiteralStringChars src raw_ remove s) settled.
Proof.
  intros He; unfold ScanLiteralStringChars; destruct (IsScanningString s); [| apply ensures_Err].
  apply string_loop_settled, He.
Qed.

Lemma ScanLiteralString_settled raw_ s :
  error_settled s -> ensures (ScanLiteralString src raw_ s) settled.
Proof.
  intros He; unfold ScanLiteralString; do 2 (destruct (_ : bool); [| apply ensures_Err]); cbv zeta.
  eapply ensures_bind; [apply ReadChar_keeps |]; intros s1 E1.
  eapply (ensures_bind _ _ (keeps_token s1)).
  { destruct (_ =? _); [| apply ensures_Ok; done]; apply ensures_last; intros c.
    destruct (_ =? _); [| apply ensures_Ok; done].
    eapply ensures_bind; [apply ReadChar_keeps |]; intros s2 E2 s3 H3.
    unfold keeps_token in *; rewrite (ReadChar_keeps s2 s3 H3), E2; done. }
  intros s2 E2; apply ScanLiteralStringChars_settled, (keeps_errors s1 s2 E2), (keeps_errors _ _ E1), He.
Qed.

(** * Scan *)
Lemma recognize_next_settled ops s :
  Forall (fun op => forall s, ensures (snd op s) settled) ops -> settled s ->
  ensures (recognize_next ops s) settled.
Proof.
  intros Hops Hs; induction Hops as [| [c m] ops Hop _ IH]; cbn [recognize_next]; [apply ensures_Ok, Hs |].
  destruct (_ =? _); [apply Hop | apply IH].
Qed.

Lemma operator_settled k ops s :
  needs_object k = false -> Forall (fun op => forall s, ensures (snd op s) settled) ops ->
  ensures (operator src k ops s) settled.
Proof.
  intros Hk Hops; unfold operator; eapply ensures_bind; [apply (Recognize_settled k s Hk) |].
  intros s1 Hs; apply recognize_next_settled; done.
Qed.

Lemma operators_settled : Forall (fun op => forall s, ensures (snd op s) settled) (operators src).
Proof.
  unfold operators.
  repeat first
    [apply Forall_cons; split
    | apply Forall_nil; exact I
    | intros ?; cbn [snd];
      first [apply Recognize_settled; reflexivity | apply ConsumeLineComment_settled
            | apply ConsumeBlockComment_settled | apply operator_settled; [reflexivity |]]].
Qed.

Lemma scan_switch_settled s : error_settled s -> ensures (scan_switch src key s) settled.
Proof.
  intros He; unfold scan_switch; cbv zeta; destruct (_ =? kNul).
  { apply ensures_Ok, settled_kind; done. }
  destruct (list_find _ _) as [[i [c m]] |] eqn:Ef.
  { apply list_find_Some in Ef as (Hl & _ & _).
    pose proof operators_settled as Hop; eapply Forall_lookup in Hop; [| exact Hl]; apply Hop. }
  clear Ef; repeat match goal with |- ensures (if ?b then _ else _) _ => destruct b end.
  - unfold scan_period; eapply ensures_bind; [apply (Recognize_settled kPERIOD s eq_refl) |]; intros s1 Hs1.
    destruct (_ =? _); [apply Recognize_settled; done |].
    destruct (IsDecimalDigit _); [apply ScanNumber_settled | apply ensures_Ok, Hs1].
  - unfold scan_left_brace; eapply ensures_bind; [apply (Recognize_settled kLBRACE s eq_refl) |].
    intros s1 Hs1; apply ensures_Ok; destruct (IsNestedContext s1); done.
  - unfold scan_right_brace; eapply ensures_bind; [apply (Recognize_settled kRBRACE s eq_refl) |].
    intros s1 Hs1; destruct (IsNestedContext s1); [| apply ensures_Ok, Hs1].
    destruct (_ >? _); [| apply ensures_Err]; cbv zeta; destruct (_ =? _); [| apply ensures_Ok, Hs1].
    unfold PopContext; cbn [with_kind set_current saved_context_ set_mode].
    destruct (saved_context_ s1); [apply ensures_Err |].
    repeat match goal with |- ensures (if ?b then _ else _) _ => destruct b end;
      try apply ensures_Err; apply ensures_Ok; intros [=].
  - unfold scan_r; apply ensures_last; intros c; destruct (_ || _); [| apply ScanIdent_settled].
    eapply ensures_bind; [apply ReadChar_keeps |]; intros s1 E.
    apply ScanLiteralString_settled, (keeps_errors s s1 E He).
  - apply ScanLiteralString_settled, He.
  - unfold scan_hash, ScanScriptTag, SkipLine; apply ensures_last; intros c.
    destruct (_ =? _); [| apply Recognize_settled; done].
    apply ensures_last; intros s1; destruct (_ =? _); [| apply ensures_Err].
    eapply ensures_bind; [apply (Recognize_settled kSCRIPTTAG s1 eq_refl) |]; intros s2 Hs2 s3 H3.
    apply (settled_keeps s2 s3 (skip_while_keeps _ _ s3 H3) Hs2).
  - unfold scan_default; destruct (IsIdentStartChar _); [apply ScanIdent_settled |].
    destruct (IsDecimalDigit _); [apply ScanNumber_settled |].
    apply ensures_last; intros u s1 H1; apply (settled_keeps _ s1 (ReadChar_keeps _ s1 H1)), settled_error.
Qed.

Lemma scan_round_settled s : ensures (scan_round src key s) settled.
Proof.
  unfold scan_round; apply ensures_last; intros s1; cbv zeta.
  set (s2 := set_current _ _); assert (He : error_settled s2) by done.
  destruct (IsScanningString s2); [| apply scan_switch_settled, He].
  destruct (_ =? _); [| apply ScanLiteralStringChars_settled, He].
  unfold scan_interpolation; apply ensures_last; intros s3.
  destruct (_ && _); [| destruct (_ =? _)].
  - eapply ensures_bind; [apply (ScanIdentChars_literal false) |]; intros s4 H4; apply ensures_Ok.
    intros _; exact H4.
  - eapply ensures_bind; [apply (Recognize_settled kINTERPOL_START s3 eq_refl) |]; intros s4 H4.
    apply ensures_Ok, H4.
  - apply ensures_Ok; intros _; done.
Qed.

Lemma Scan_settled s : ensures (Scan src key s) settled.
Proof.
  unfold Scan; generalize (set_newline_seen false s) as s0; generalize (token_fuel src) as fuel.
  induction fuel as [| fuel IH]; intros s0; cbn [scan_loop]; [apply ensures_Err |].
  eapply ensures_bind; [apply scan_round_settled |]; intros s1 Hs1.
  destruct (kind_is _ s1); [apply IH | apply ensures_Ok, Hs1].
Qed.

Lemma scan_run_settled s ts : scan_run src key s ts -> Forall settled_token ts.
Proof.
  induction 1 as [s s' E _ _ | s s' ts E _ _ _ IH]; constructor; try done; apply (Scan_settled s s' E).
Qed.

End Literals.

(** The tokens of a stream have the literals that they need. *)
Lemma GetStream_settled src key memory stream :
  Forall (fun c => 0 <= c <= 0xFFFF) src ->
  GetStream src key memory = Ok stream -> Forall settled_token stream.
Proof.
  intros Hu E; destruct (GetStream_woven src Hu key memory)
    as (s & nl & em & ts & _ & Hr & _ & _ & _ & _ & _ & _ & Hnl & _ & _ & Hlit & E').
  rewrite E in E'; injection E' as ->; clear E; apply scan_run_settled in Hr; revert Hr; generalize 1.
  induction ts as [| t ts IH]; intros prev Hts; [constructor |]; inversion_clear Hts; cbn [weave].
  apply Forall_app; split; [| constructor; [done | apply IH; done]].
  unfold inserted; apply Forall_app; split.
  - eapply Forall_impl; [apply (newline_tokens_kind nl Hnl) |]; intros x Hx.
    unfold settled_token; rewrite Hx; done.
  - destruct (inserts_empty _ _); constructor; [| done].
    intros _; cbn; rewrite Hlit; done.
Qed.
