(* ===== verification/TokenStream.v ===== *)
(** Token streams and scripts ([TokenStream] and [Script] of [vm/object.h] and
    [vm/object.cc]): the compressed tokens of a source, the iterator over them, and the
    locations of tokens.

    The hash table of token objects is the list of its entries, in the order of their
    insertion, as an entry is found by its key and holds the index that it was given.  The
    width of [intptr_t] is [bits], and [alloc_] is the allocator of the buffer. *)
From stdpp Require Import base numbers list.
From Stdlib Require Import ZArith Lia Bool.
From S2P Require Import Prelude Utils DataStream Token Scanner.
Import Token.
#[local] Open Scope Z_scope.

(** * Token objects

    The object of an identifier is its symbol, that of a literal has a kind. *)
Inductive TokenObject : Type :=
| IdentObject (ident : Literal)
| LiteralToken (k : Kind) (text : Literal).

#[export] Instance Literal_eq_dec : EqDecision Literal.
Proof. solve_decision. Defined.
#[export] Instance TokenObject_eq_dec : EqDecision TokenObject.
Proof. solve_decision. Defined.

(** The hash table of [CompressedTokenMap], as the list of its entries in the order of
    insertion: the layout, the probing and the growth of the table are not modelled. *)
Abbreviation CompressedTokenMap := (list (TokenObject * Z)).

Definition NumOccupied (m : CompressedTokenMap) : Z := Z.of_nat (List.length m).

(** The entry of [key], or else a new one. *)
Definition InsertOrGetValue (key : TokenObject) (value_if_absent : Z) (m : CompressedTokenMap)
  : Z * CompressedTokenMap :=
  match list_find (fun e => fst e = key) m with
  | Some (_, (_, v)) => (v, m)
  | None => (value_if_absent, m ++ [(key, value_if_absent)])
  end.

Module CompressedTokenStreamData.

Record t : Type := mk { stream_ : WriteStream.t; tokens_ : CompressedTokenMap }.

Definition kInitialBufferSize : Z := 16 * 1024.

Section Data.
Context (bits : Z) (alloc_ : list Z -> Z -> Z -> option (list Z)).

Definition new : outcome t :=
  let* stream := WriteStream.new alloc_ kInitialBufferSize in Ok (mk stream []).

Definition WriteIndex (index : Z) (d : t) : outcome t :=
  let* stream := WriteStream.WriteUnsigned bits alloc_ (index + kNumTokens) (stream_ d) in
  Ok (mk stream (tokens_ d)).

(** A token whose object is [key]. *)
Definition add_object (key : TokenObject) (d : t) : outcome t :=
  let fresh_index := NumOccupied (tokens_ d) in
  let '(index, tokens) := InsertOrGetValue key fresh_index (tokens_ d) in
  WriteIndex index (mk (stream_ d) tokens).

Definition AddIdentToken (ident : Literal) (d : t) : outcome t := add_object (IdentObject ident) d.

(** The descriptor of a literal has a literal; a null pointer would be followed. *)
Definition AddLiteralToken (descriptor : TokenDescriptor) (d : t) : outcome t :=
  match literal descriptor with
  | Some l => add_object (LiteralToken (kind descriptor) l) d
  | None => Err (HostFault 0)
  end.

Definition AddSimpleToken (k : Kind) (d : t) : outcome t :=
  let* stream := WriteStream.WriteUnsigned bits alloc_ (value k) (stream_ d) in
  Ok (mk stream (tokens_ d)).

(** [GetStream] and [Length]: the bytes that were written. *)
Definition GetStream (d : t) : list Z :=
  take (Z.to_nat (WriteStream.bytes_written (stream_ d))) (WriteStream.buffer_ (stream_ d)).

(** [result.SetAt(payload, key)] for every entry of the table. *)
Fixpoint set_objects (m : CompressedTokenMap) (result : list (option TokenObject))
  : outcome (list (option TokenObject)) :=
  match m with
  | [] => Ok result
  | (key, index) :: m =>
      ASSERT (0 <=? index) && (index <? Z.of_nat (List.length result)) ;;
      set_objects m (<[Z.to_nat index := Some key]> result)
  end.

Definition MakeTokenObjectsArray (d : t) : outcome (list (option TokenObject)) :=
  set_objects (tokens_ d) (replicate (List.length (tokens_ d)) None).

(** One round of the loop of [TokenStream::New]. *)
Definition add_token (token : TokenDescriptor) (d : t) : outcome t :=
  if kind_eqb (kind token) kIDENT then
    match literal token with
    | Some l => AddIdentToken l d
    | None => Err (HostFault 0)
    end
  else if NeedsLiteralToken (kind token) then AddLiteralToken token d
  else AddSimpleToken (kind token) d.

Fixpoint add_tokens (tokens : list TokenDescriptor) (d : t) : outcome t :=
  match tokens with
  | [] => Ok d
  | token :: tokens => let* d := add_token token d in add_tokens tokens d
  end.

End Data.
End CompressedTokenStreamData.

(** * Token streams *)
Module TokenStream.

Record t : Type := mk {
  stream_ : list Z;
  token_objects_ : list (option TokenObject);
  private_key_ : list Z }.

Definition New (bits : Z) (alloc_ : list Z -> Z -> Z -> option (list Z))
  (tokens : list TokenDescriptor) (private_key : list Z) : outcome t :=
  let* data := CompressedTokenStreamData.new alloc_ in
  let* data := CompressedTokenStreamData.add_tokens bits alloc_ tokens data in
  let* data := CompressedTokenStreamData.AddSimpleToken bits alloc_ kEOS data in
  let* objects := CompressedTokenStreamData.MakeTokenObjectsArray data in
  Ok (mk (CompressedTokenStreamData.GetStream data) objects private_key).

End TokenStream.

(** * The iterator *)
Module Iterator.

Inductive StreamType : Type := kNoNewlines | kAllTokens.

(** The handle [obj_] is set before it is read, so it is not part of the state. *)
Record t : Type := mk {
  stream_ : ReadStream;
  token_objects_ : list (option TokenObject);
  cur_token_pos_ : Z;
  cur_token_kind_ : Kind;
  cur_token_obj_index_ : Z;
  stream_type_ : StreamType }.

Section Iterator.
Context (bits : Z).

Definition set_stream (s : ReadStream) (it : t) : t :=
  mk s (token_objects_ it) (cur_token_pos_ it) (cur_token_kind_ it) (cur_token_obj_index_ it)
    (stream_type_ it).
Definition set_token (pos : Z) (k : Kind) (index : Z) (it : t) : t :=
  mk (stream_ it) (token_objects_ it) pos k index (stream_type_ it).

Definition ReadToken (s : ReadStream) : outcome (Z * ReadStream) :=
  let* (v, s) := ReadUnsigned bits s in
  ASSERT (v >=? 0) && (v <=? 2 ^ (bits - 1) - 1) ;;
  Ok (v, s).

Definition skips_newlines (ty : StreamType) : bool :=
  match ty with kNoNewlines => true | kAllTokens => false end.

(** [token_objects_.At(index)]. *)
Definition object_at (it : t) (index : Z) : outcome TokenObject :=
  match (if index <? 0 then None else token_objects_ it !! Z.to_nat index) with
  | Some (Some obj) => Ok obj
  | _ => Err AssertionFailed
  end.

(** The kind of a value that was read. *)
Definition kind_of_value (it : t) (v : Z) : outcome Kind :=
  if v <? kNumTokens then
    match of_value v with Some k => Ok k | None => Err AssertionFailed end
  else
    let* obj := object_at it (v - kNumTokens) in
    match obj with
    | LiteralToken k _ => Ok k
    | IdentObject _ => Ok kIDENT
    end.

(** The loop of [Advance]: the position and the value of the next token. *)
Fixpoint advance_loop (fuel : nat) (ty : StreamType) (s : ReadStream) : outcome (Z * Z * ReadStream) :=
  match fuel with
  | O => Err OutOfFuel
  | S fuel =>
      let pos := Position s in
      let* (v, s) := ReadToken s in
      if skips_newlines ty && (v =? value kNEWLINE) then advance_loop fuel ty s
      else Ok (pos, v, s)
  end.

(** A token has at least one byte. *)
Definition byte_fuel (it : t) : nat := S (List.length (buffer_ (stream_ it))).

Definition Advance (it : t) : outcome t :=
  let* (pos, v, s) := advance_loop (byte_fuel it) (stream_type_ it) (stream_ it) in
  let* k := kind_of_value it v in
  Ok (set_token pos k (if v <? kNumTokens then -1 else v - kNumTokens) (set_stream s it)).

Definition SetCurrentPosition (v : Z) (it : t) : outcome t :=
  let* s := SetPosition v (stream_ it) in Advance (set_stream s it).

Definition new (tokens : TokenStream.t) (token_pos : Z) (ty : StreamType) : outcome t :=
  let data := TokenStream.stream_ tokens in
  SetCurrentPosition token_pos
    (mk (new_ReadStream data (Z.of_nat (List.length data))) (TokenStream.token_objects_ tokens)
        token_pos kILLEGAL (-1) ty).

(** [Iterator::SetStream]: another stream for an iterator of the same type. *)
Definition SetStream (tokens : TokenStream.t) (token_pos : Z) (it : t) : outcome t :=
  new tokens token_pos (stream_type_ it).

(** The loop of [LookaheadTokenKind]: the value of the last token that was read. *)
Fixpoint lookahead_loop (fuel : nat) (ty : StreamType) (count num_tokens v : Z) (s : ReadStream)
  : outcome Z :=
  if (count <? num_tokens) && negb (v =? value kEOS) then
    match fuel with
    | O => Err OutOfFuel
    | S fuel =>
        let* (v, s) := ReadToken s in
        let count := if negb (skips_newlines ty) || negb (v =? value kNEWLINE)
                     then count + 1 else count in
        lookahead_loop fuel ty count num_tokens v s
    end
  else Ok v.

(** The position of the stream is restored.  Without a token to read the result is the
    number -1, which is no kind. *)
Definition LookaheadTokenKind (num_tokens : Z) (it : t) : outcome (option Kind) :=
  let* v := lookahead_loop (byte_fuel it) (stream_type_ it) 0 num_tokens (-1) (stream_ it) in
  if v =? -1 then Ok None else let* k := kind_of_value it v in Ok (Some k).

Definition CurrentTokenKind (it : t) : Kind := cur_token_kind_ it.
Definition CurrentPosition (it : t) : Z := cur_token_pos_ it.

(** A token object, or the number of a simple kind. *)
Definition CurrentToken (it : t) : outcome (TokenObject + Kind) :=
  if negb (cur_token_obj_index_ it =? -1) then
    let* obj := object_at it (cur_token_obj_index_ it) in Ok (inl obj)
  else Ok (inr (cur_token_kind_ it)).

Definition MakeLiteralToken (obj : TokenObject + Kind) : Literal :=
  match obj with
  | inl (IdentObject ident) => ident
  | inl (LiteralToken _ text) => text
  | inr k => Symbol (chars (Str k))
  end.

Definition CurrentLiteral (it : t) : outcome Literal :=
  let* obj := CurrentToken it in Ok (MakeLiteralToken obj).

End Iterator.
End Iterator.

(** * Source positions *)

(** The loop of [ComputeSourcePosition]. *)
Fixpoint source_position_loop (bits : Z) (fuel : nat) (tok_pos src_pos : Z) (it : Iterator.t)
  : outcome Z :=
  if (Iterator.CurrentPosition it <? tok_pos) && negb (kind_eqb (Iterator.CurrentTokenKind it) kEOS)
  then match fuel with
       | O => Err OutOfFuel
       | S fuel =>
           let* it := Iterator.Advance bits it in
           source_position_loop bits fuel tok_pos (src_pos + 1) it
       end
  else Ok src_pos.

(** The index of the token at a position of the stream. *)
Definition ComputeSourcePosition (bits : Z) (tok_pos : Z) (tokens : TokenStream.t) : outcome Z :=
  let* it := Iterator.new bits tokens 0 Iterator.kAllTokens in
  source_position_loop bits (List.length (TokenStream.stream_ tokens)) tok_pos 0 it.

(** * Scripts *)
Module Script.

Record t : Type := mk {
  source_ : list Z;
  tokens_ : option TokenStream.t;
  line_offset_ : Z;
  col_offset_ : Z }.

(** [String::SubString]; nothing stands for the null object. *)
Definition SubString (str : list Z) (begin_index length : Z) : outcome (option (list Z)) :=
  ASSERT begin_index >=? 0 ;;
  ASSERT length >=? 0 ;;
  let len := Z.of_nat (List.length str) in
  if (begin_index <=? len) && (length =? 0) then Ok (Some [])
  else if begin_index >? len then Ok None
  else
    ASSERT length <=? len - begin_index ;;
    Ok (Some (take (Z.to_nat length) (drop (Z.to_nat begin_index) str))).

Definition CharAt (str : list Z) (i : Z) : outcome Z := Scanner.CharAt str i.

(** The loop of [GetLine] from index [ix] on: where the line starts, and the last character
    before its end. *)
Fixpoint line_loop (fuel : nat) (src : list Z) (line_number ix current_line start last : Z)
  : outcome (Z * Z) :=
  let len := Z.of_nat (List.length src) in
  if (ix <? len) && (current_line <=? line_number) then
    match fuel with
    | O => Err OutOfFuel
    | S fuel =>
        let start := if (current_line =? line_number) && (start <? 0) then ix else start in
        let* c := CharAt src ix in
        if c =? kLineFeed then line_loop fuel src line_number (ix + 1) (current_line + 1) start last
        else if c =? kReturn then
          let* ends :=
            if ix + 1 =? len then Ok false
            else let* c1 := CharAt src (ix + 1) in Ok (negb (c1 =? kLineFeed)) in
          line_loop fuel src line_number (ix + 1)
            (if ends then current_line + 1 else current_line) start last
        else line_loop fuel src line_number (ix + 1) current_line start ix
    end
  else Ok (start, last).

Definition GetLine (line_number : Z) (s : t) : outcome (option (list Z)) :=
  let relative_line_number := line_number - line_offset_ s in
  let* (line_start_idx, last_char_idx) :=
    line_loop (List.length (source_ s)) (source_ s) relative_line_number 0 1 (-1) (-1) in
  if line_start_idx >=? 0 then
    SubString (source_ s) line_start_idx (last_char_idx - line_start_idx + 1)
  else Ok (Some []).

(** The loop of [GetSnippet]: the start and the end of the snippet, -1 where it was not
    found.  A character is kept in a [char]. *)
Fixpoint snippet_loop (fuel : nat) (src : list Z) (from_line from_column to_line to_column : Z)
  (line column pos start : Z) : outcome (Z * Z) :=
  let length := Z.of_nat (List.length src) in
  if negb (pos =? length) then
    match fuel with
    | O => Err OutOfFuel
    | S fuel =>
        let start := if (start =? -1) && ((line =? from_line) && (column =? from_column))
                     then pos else start in
        let* unit := CharAt src pos in
        let c := to_s 8 unit in
        let* (line, column, pos) :=
          if c =? kLineFeed then Ok (line + 1, 0, pos)
          else if c =? kReturn then
            let* skip :=
              if negb (pos + 1 =? length) then
                let* c1 := CharAt src (pos + 1) in Ok (c1 =? kLineFeed)
              else Ok false in
            Ok (line + 1, 0, if skip then pos + 1 else pos)
          else Ok (line, column, pos) in
        let pos := pos + 1 in
        let column := column + 1 in
        if (line =? to_line) && (column =? to_column) then Ok (start, pos)
        else snippet_loop fuel src from_line from_column to_line to_column line column pos start
    end
  else Ok (start, -1).

Definition GetSnippet (from_line from_column to_line to_column : Z) (s : t)
  : outcome (option (list Z)) :=
  let column := if from_line - line_offset_ s =? 1 then 1 + col_offset_ s else 1 in
  let* (snippet_start, snippet_end) :=
    snippet_loop (List.length (source_ s)) (source_ s) from_line from_column to_line to_column
      (1 + line_offset_ s) column 0 (-1) in
  if negb (snippet_start =? -1) && negb (snippet_end =? -1)
  then SubString (source_ s) snippet_start (snippet_end - snippet_start)
  else Ok None.

Section Script.
Context (bits : Z) (alloc_ : list Z -> Z -> Z -> option (list Z)).

(** A script that was not tokenized has no stream; the code would follow a null object. *)
Definition tokens (s : t) : outcome TokenStream.t :=
  match tokens_ s with Some ts => Ok ts | None => Err AssertionFailed end.

(** [memory] is what the scanner finds in its memory. *)
Definition Tokenize (private_key : list Z) (memory : Scanner) (s : t) : outcome t :=
  match tokens_ s with
  | Some _ => Ok s
  | None =>
      let* scanner := new_Scanner (source_ s) memory in
      let* stream := GetStream (source_ s) private_key scanner in
      let* ts := TokenStream.New bits alloc_ stream private_key in
      Ok (mk (source_ s) (Some ts) (line_offset_ s) (col_offset_ s))
  end.

Definition SetLocationOffset (line_offset col_offset : Z) (s : t) : outcome t :=
  ASSERT line_offset >=? 0 ;;
  ASSERT col_offset >=? 0 ;;
  Ok (mk (source_ s) (tokens_ s) (int32 line_offset) (int32 col_offset)).

(** The loop of [GetTokenLocation] without a column. *)
Fixpoint line_of_token (fuel : nat) (token_pos cur_line : Z) (it : Iterator.t) : outcome Z :=
  if (Iterator.CurrentPosition it <? token_pos)
     && negb (kind_eqb (Iterator.CurrentTokenKind it) kEOS) then
    match fuel with
    | O => Err OutOfFuel
    | S fuel =>
        let cur_line := if kind_eqb (Iterator.CurrentTokenKind it) kNEWLINE then cur_line + 1
                        else cur_line in
        let* it := Iterator.Advance bits it in
        line_of_token fuel token_pos cur_line it
    end
  else Ok cur_line.

(** With a null pointer for the column. *)
Definition GetTokenLine (token_pos : Z) (s : t) : outcome Z :=
  let* tkns := tokens s in
  let* it := Iterator.new bits tkns 0 Iterator.kAllTokens in
  line_of_token (List.length (TokenStream.stream_ tkns)) token_pos (line_offset_ s + 1) it.

Definition GetTokenLocation (token_pos : Z) (memory : Scanner) (s : t) : outcome (Z * Z) :=
  let* tkns := tokens s in
  let* src_pos := ComputeSourcePosition bits token_pos tkns in
  let* scanner := new_Scanner (source_ s) memory in
  let* scanner := ScanTo (source_ s) [] src_pos scanner in
  let p := position (current_token_ scanner) in
  Ok (line p + line_offset_ s, if line p =? 1 then column p + col_offset_ s else column p).

(** The loops of [TokenRangeAtLine]: to the line, over the newline tokens, and to the end
    of the line. *)
Fixpoint to_line (fuel : nat) (line_number cur_line : Z) (it : Iterator.t) : outcome Iterator.t :=
  if (cur_line <? line_number) && negb (kind_eqb (Iterator.CurrentTokenKind it) kEOS) then
    match fuel with
    | O => Err OutOfFuel
    | S fuel =>
        let cur_line := if kind_eqb (Iterator.CurrentTokenKind it) kNEWLINE then cur_line + 1
                        else cur_line in
        let* it := Iterator.Advance bits it in to_line fuel line_number cur_line it
    end
  else Ok it.

Fixpoint skip_newlines (fuel : nat) (it : Iterator.t) : outcome Iterator.t :=
  if kind_eqb (Iterator.CurrentTokenKind it) kNEWLINE
     && negb (kind_eqb (Iterator.CurrentTokenKind it) kEOS) then
    match fuel with
    | O => Err OutOfFuel
    | S fuel => let* it := Iterator.Advance bits it in skip_newlines fuel it
    end
  else Ok it.

Fixpoint to_line_end (fuel : nat) (end_pos : Z) (it : Iterator.t) : outcome Z :=
  if negb (kind_eqb (Iterator.CurrentTokenKind it) kNEWLINE)
     && negb (kind_eqb (Iterator.CurrentTokenKind it) kEOS) then
    match fuel with
    | O => Err OutOfFuel
    | S fuel =>
        let end_pos := Iterator.CurrentPosition it in
        let* it := Iterator.Advance bits it in to_line_end fuel end_pos it
    end
  else Ok end_pos.

(** The positions of the first and of the last token. *)
Definition TokenRangeAtLine (line_number : Z) (s : t) : outcome (Z * Z) :=
  ASSERT line_number >? 0 ;;
  let* tkns := tokens s in
  let fuel := List.length (TokenStream.stream_ tkns) in
  let line_number := line_number - line_offset_ s in
  let line_number := if line_number <? 1 then 1 else line_number in
  let* it := Iterator.new bits tkns 0 Iterator.kAllTokens in
  let* it := to_line fuel line_number 1 it in
  if kind_eqb (Iterator.CurrentTokenKind it) kEOS then Ok (-1, -1)
  else if kind_eqb (Iterator.CurrentTokenKind it) kNEWLINE then
    let* it := skip_newlines fuel it in
    if negb (kind_eqb (Iterator.CurrentTokenKind it) kEOS)
    then Ok (Iterator.CurrentPosition it, -1) else Ok (-1, -1)
  else
    let first_token_index := Iterator.CurrentPosition it in
    let* end_pos := to_line_end fuel first_token_index it in
    Ok (first_token_index, end_pos).

(** [String::Length] of a literal is 0. *)
Definition is_empty_literal (l : Literal) : bool :=
  match l with Symbol [] => true | _ => false end.

(** The extra empty string before an interpolation is skipped. *)
Definition skip_empty_string (skipped_newline : bool) (token : Kind) (it : Iterator.t)
  : outcome Iterator.t :=
  if negb (kind_eqb token (Iterator.CurrentTokenKind it))
     && (skipped_newline && is_interpolation token
         && kind_eqb (Iterator.CurrentTokenKind it) kSTRING) then
    let* token_value := Iterator.CurrentLiteral it in
    if is_empty_literal token_value then Iterator.Advance bits it else Ok it
  else Ok it.

(** What the loop adds for a token: its position and its column, after a separator and the
    line where the line is a new one. *)
Definition line_entry (current_line token_line pos column : Z) (s : t) : list (option Z) :=
  (if negb (token_line =? current_line) then [None; Some (token_line + line_offset_ s)] else [])
  ++ [Some pos; Some (if token_line =? 1 then column + col_offset_ s else column)].

(** The loop of [GenerateLineNumberArray]; the null object is a separator. *)
Fixpoint line_number_loop (fuel : nat) (s : t) (skipped_newline : bool) (current_line : Z)
  (scanner : Scanner) (it : Iterator.t) : outcome (list (option Z)) :=
  if negb (kind_eqb (Iterator.CurrentTokenKind it) kEOS) then
    match fuel with
    | O => Err OutOfFuel
    | S fuel =>
        if kind_eqb (Iterator.CurrentTokenKind it) kNEWLINE then
          let* it := Iterator.Advance bits it in
          line_number_loop fuel s true current_line scanner it
        else
          let token := current_token_ scanner in
          let* it := skip_empty_string skipped_newline (kind token) it in
          ASSERT kind_eqb (kind token) (Iterator.CurrentTokenKind it) ;;
          let token_line := line (position token) in
          let pos := Iterator.CurrentPosition it in
          let* it := Iterator.Advance bits it in
          let* scanner := Scan (source_ s) [] scanner in
          let* info := line_number_loop fuel s false token_line scanner it in
          Ok (line_entry current_line token_line pos (column (position token)) s ++ info)
    end
  else Ok [].

Definition GenerateLineNumberArray (memory : Scanner) (s : t) : outcome (list (option Z)) :=
  let* tkns := tokens s in
  let* it := Iterator.new bits tkns 0 Iterator.kAllTokens in
  let* scanner := new_Scanner (source_ s) memory in
  let* scanner := Scan (source_ s) [] scanner in
  line_number_loop (List.length (TokenStream.stream_ tkns)) s false (-1) scanner it.

End Script.
End Script.
