(* ===== verification/TokenStreamProofs.v ===== *)
(** The compressed stream of a token sequence holds the sequence: the iterator reads the
    kinds and the literals back, at the positions of the tokens. *)
From stdpp Require Import base numbers list.
From Stdlib Require Import ZArith Lia Bool.
From S2P Require Import Prelude Utils DataStream DataStreamProofs Token Scanner ScannerStreams TokenStream.
Import Token.
#[local] Open Scope Z_scope.

(** * Values of tokens *)
Definition object_of (t : TokenDescriptor) : option TokenObject :=
  match literal t with
  | Some l => if kind_eqb (Scanner.kind t) kIDENT then Some (IdentObject l)
              else if NeedsLiteralToken (Scanner.kind t) then Some (LiteralToken (Scanner.kind t) l)
              else None
  | None => None
  end.

(** The index of every entry is its place. *)
Definition map_ok (m : CompressedTokenMap) : Prop :=
  forall i key v, m !! i = Some (key, v) -> v = Z.of_nat i.

(** The value that is written for a token. *)
Definition encodes (m : CompressedTokenMap) (t : TokenDescriptor) (v : Z) : Prop :=
  match object_of t with
  | Some key => exists i, m !! i = Some (key, Z.of_nat i) /\ v = Z.of_nat i + kNumTokens
  | None => v = value (Scanner.kind t)
  end.

Lemma encodes_prefix m m' t v : encodes m t v -> m `prefix_of` m' -> encodes m' t v.
Proof.
  unfold encodes; intros H [k ->]; destruct (object_of t); [| done].
  destruct H as (i & Hi & ->); exists i; split; [apply lookup_app_l_Some |]; done.
Qed.

Lemma InsertOrGetValue_ok key m :
  map_ok m ->
  let '(v, m') := InsertOrGetValue key (NumOccupied m) m in
  map_ok m' /\ m `prefix_of` m' /\ (List.length m' <= S (List.length m))%nat /\
  exists i, m' !! i = Some (key, Z.of_nat i) /\ v = Z.of_nat i.
Proof.
  intros Hm; unfold InsertOrGetValue; destruct (list_find _ m) as [[i [key' v]] |] eqn:E.
  - apply list_find_Some in E as (Hl & Hk & _); cbn in Hk; subst key'.
    split_and!; [done | done | lia |]; exists i; rewrite <- (Hm i key v Hl); done.
  - split_and!; [| by apply prefix_app_r | rewrite length_app; cbn; lia |].
    + intros i k v [Hi | [Hge Hi]]%lookup_app_Some; [apply (Hm i k v Hi) |].
      destruct (i - List.length m)%nat eqn:Ei; cbn in Hi; [| done].
      injection Hi as <- <-; unfold NumOccupied; lia.
    + exists (List.length m); split; [| done].
      rewrite lookup_app_r, Nat.sub_diag by lia; done.
Qed.

(** * Writing *)
Lemma length_groups stop marker n v : (List.length (groups stop marker n v) <= n)%nat.
Proof.
  revert v; induction n as [| n IH]; intros v; [done |].
  rewrite groups_S; destruct (stop v); cbn [app List.length]; [lia | apply le_n_S, IH].
Qed.

Lemma length_unsigned_bytes v : (1 <= List.length (unsigned_bytes v) <= 11)%nat.
Proof.
  unfold unsigned_bytes; split; [| apply length_groups].
  rewrite groups_S; destruct (stop_unsigned v); cbn [app List.length]; lia.
Qed.

Definition bytes_of (vs : list Z) : list Z := concat (map unsigned_bytes vs).

Lemma bytes_of_app vs ws : bytes_of (vs ++ ws) = bytes_of vs ++ bytes_of ws.
Proof. unfold bytes_of; rewrite map_app, concat_app; done. Qed.

Lemma length_bytes_of vs :
  (List.length vs <= List.length (bytes_of vs) <= 11 * List.length vs)%nat.
Proof.
  induction vs as [| v vs IH]; [done |]; unfold bytes_of in *; cbn [map concat List.length].
  rewrite length_app; pose proof (length_unsigned_bytes v); lia.
Qed.

Section Writing.
Context (bits : Z) (Hbits : bits = 32 \/ bits = 64).
Context (alloc_ : list Z -> Z -> Z -> option (list Z)) (Halloc : allocates alloc_).
Import CompressedTokenStreamData.

Lemma WriteUnsigned_ok v st :
  in_u (bits - 1) v -> ws_ok st -> room bits 11 st ->
  exists st', WriteStream.WriteUnsigned bits alloc_ v st = Ok st' /\ appends (unsigned_bytes v) st st'.
Proof.
  intros Hv Hok Hr.
  apply (write_item_writes bits alloc_ (Unsigned v) Hbits Halloc Hv st Hok).
  unfold room in *; cbn [item_bytes]; pose proof (length_unsigned_bytes v); lia.
Qed.

(** The state has room for [n] more tokens. *)
Definition data_ok (n : nat) (d : t) : Prop :=
  ws_ok (stream_ d) /\ map_ok (tokens_ d) /\ room bits (11 * Z.of_nat n) (stream_ d) /\
  Z.of_nat (List.length (tokens_ d)) + Z.of_nat n + kNumTokens <= 2 ^ (bits - 1).

(** What a token adds. *)
Definition adds_value (n : nat) (tok : TokenDescriptor) (d d' : t) : Prop :=
  exists v, data_ok n d' /\ in_u (bits - 1) v /\ encodes (tokens_ d') tok v /\
  tokens_ d `prefix_of` tokens_ d' /\ appends (unsigned_bytes v) (stream_ d) (stream_ d').

Lemma room_less n m bs st st' :
  appends bs st st' -> (List.length bs <= 11)%nat -> m = n + 11 -> room bits m st -> room bits n st'.
Proof. intros [_ _ C I]; unfold room; rewrite C, I; lia. Qed.

Lemma WriteIndex_ok n tok i key d tokens :
  data_ok (S n) d -> map_ok tokens -> tokens_ d `prefix_of` tokens ->
  (List.length tokens <= S (List.length (tokens_ d)))%nat ->
  tokens !! i = Some (key, Z.of_nat i) -> object_of tok = Some key ->
  exists d', WriteIndex bits alloc_ (Z.of_nat i) (mk (stream_ d) tokens) = Ok d' /\ adds_value n tok d d'.
Proof.
  intros (Hws & _ & Hr & Hb) Hm Hp Hl Hi Ho; unfold WriteIndex; cbn [stream_ tokens_].
  pose proof (lookup_lt_Some _ _ _ Hi); assert (0 < kNumTokens) by done.
  assert (Hv : in_u (bits - 1) (Z.of_nat i + kNumTokens)) by (unfold in_u; lia).
  destruct (WriteUnsigned_ok _ _ Hv Hws) as (st' & -> & Happ); [unfold room in *; lia |].
  eexists; split; [done |]; exists (Z.of_nat i + kNumTokens); split_and!; cbn [stream_ tokens_]; try done.
  - split_and!; cbn [stream_ tokens_]; [apply Happ | done | | lia].
    apply (room_less _ (11 * Z.of_nat (S n)) _ _ _ Happ); [apply length_unsigned_bytes | lia | done].
  - unfold encodes; rewrite Ho; eauto.
Qed.

Lemma add_object_ok n tok key d :
  data_ok (S n) d -> object_of tok = Some key ->
  exists d', add_object bits alloc_ key d = Ok d' /\ adds_value n tok d d'.
Proof.
  intros Hd Ho; unfold add_object; pose proof (InsertOrGetValue_ok key (tokens_ d) (proj1 (proj2 Hd))) as H.
  destruct (InsertOrGetValue _ _ _) as [v m]; destruct H as (Hm & Hp & Hl & i & Hi & ->).
  apply (WriteIndex_ok n tok i key); done.
Qed.

Lemma AddSimpleToken_ok n tok d :
  data_ok (S n) d -> object_of tok = None ->
  exists d', AddSimpleToken bits alloc_ (Scanner.kind tok) d = Ok d' /\ adds_value n tok d d'.
Proof.
  intros (Hws & Hm & Hr & Hb) Ho; unfold AddSimpleToken.
  pose proof (value_range (Scanner.kind tok)).
  assert (Hv : in_u (bits - 1) (value (Scanner.kind tok))) by (unfold in_u; lia).
  destruct (WriteUnsigned_ok _ _ Hv Hws) as (st' & -> & Happ); [unfold room in *; lia |].
  eexists; split; [done |]; exists (value (Scanner.kind tok)); split_and!; cbn [stream_ tokens_]; try done.
  - split_and!; cbn [stream_ tokens_]; [apply Happ | done | | lia].
    apply (room_less _ (11 * Z.of_nat (S n)) _ _ _ Happ); [apply length_unsigned_bytes | lia | done].
  - unfold encodes; rewrite Ho; done.
Qed.

Lemma add_token_adds n tok d :
  data_ok (S n) d -> settled_token tok ->
  exists d', add_token bits alloc_ tok d = Ok d' /\ adds_value n tok d d'.
Proof.
  intros Hd Hs; unfold add_token, settled_token, needs_object, AddIdentToken, AddLiteralToken in *.
  destruct (kind_eqb (Scanner.kind tok) kIDENT) eqn:Ei.
  - destruct (literal tok) as [l |] eqn:El; [| by destruct Hs].
    apply add_object_ok; [done |]; unfold object_of; rewrite El, Ei; done.
  - destruct (NeedsLiteralToken (Scanner.kind tok)) eqn:En.
    + destruct (literal tok) as [l |] eqn:El; [| by destruct Hs].
      apply add_object_ok; [done |]; unfold object_of; rewrite El, Ei, En; done.
    + apply AddSimpleToken_ok; [done |]; unfold object_of; rewrite Ei, En; destruct (literal tok); done.
Qed.

Lemma appends_nil st : ws_ok st -> appends [] st st.
Proof. intros H; split; [done | rewrite app_nil_r; done | cbn; lia | done]. Qed.

Lemma add_tokens_adds n ts d :
  data_ok (List.length ts + n) d -> Forall settled_token ts ->
  exists d' vs, add_tokens bits alloc_ ts d = Ok d' /\ data_ok n d' /\
    Forall (in_u (bits - 1)) vs /\ Forall2 (encodes (tokens_ d')) ts vs /\
    tokens_ d `prefix_of` tokens_ d' /\ appends (bytes_of vs) (stream_ d) (stream_ d').
Proof.
  revert d; induction ts as [| tok ts IH]; intros d Hd Hs; cbn [add_tokens].
  - exists d, []; split_and!; try done; apply appends_nil, Hd.
  - inversion_clear Hs as [| ? ? Ht Hts]; cbn [List.length Nat.add] in Hd.
    destruct (add_token_adds _ tok d Hd Ht) as (d1 & -> & v & Hd1 & Hv & He & Hp & Happ); cbn [obind].
    destruct (IH d1 Hd1 Hts) as (d2 & vs & -> & Hd2 & Hvs & Hes & Hp2 & Happ2).
    exists d2, (v :: vs); split_and!; try done.
    + constructor; done.
    + constructor; [apply (encodes_prefix (tokens_ d1)) |]; done.
    + etransitivity; done.
    + apply (appends_trans (unsigned_bytes v) (bytes_of vs) _ (stream_ d1)); done.
Qed.

(** The array of objects holds the keys in their order. *)
Lemma set_objects_ok m m0 result :
  map_ok (m0 ++ m) -> List.length result = (List.length m0 + List.length m)%nat ->
  take (List.length m0) result = map (fun e => Some (fst e)) m0 ->
  set_objects m result = Ok (map (fun e => Some (fst e)) (m0 ++ m)).
Proof.
  revert m0 result; induction m as [| [key v] m IH]; intros m0 result Hm Hl Ht; cbn [set_objects].
  - rewrite app_nil_r, <- Ht, take_ge by (cbn in Hl; lia); done.
  - assert (v = Z.of_nat (List.length m0)) as ->.
    { apply (Hm (List.length m0) key v); rewrite lookup_app_r, Nat.sub_diag by lia; done. }
    cbn [List.length] in Hl; rewrite Hl.
    destruct (Z.leb_spec 0 (Z.of_nat (List.length m0))),
      (Z.ltb_spec (Z.of_nat (List.length m0)) (Z.of_nat (List.length m0 + S (List.length m)))); try lia.
    cbn [andb]; rewrite Nat2Z.id, cons_middle, app_assoc; rewrite cons_middle, app_assoc in Hm.
    apply IH; [done | rewrite length_insert, length_app; cbn; lia |].
    rewrite length_app; cbn [List.length]; rewrite Nat.add_1_r, map_app; cbn [map fst].
    rewrite (take_S_r _ _ (Some key)) by (apply list_lookup_insert_eq; lia).
    rewrite take_insert_ge by lia; rewrite Ht; done.
Qed.

(** The end of a stream, after the tokens of the scanner. *)
Definition end_token : TokenDescriptor := mkToken kEOS 0 (mkPosition 0 0) None.

(** A stream that holds the tokens, as values and objects. *)
Record holds_tokens (ts : TokenStream.t) (tokens : list TokenDescriptor) (vs : list Z)
  (m : CompressedTokenMap) : Prop := mk_holds_tokens {
    ht_stream : TokenStream.stream_ ts = bytes_of vs;
    ht_objects : TokenStream.token_objects_ ts = map (fun e => Some (fst e)) m;
    ht_range : Forall (in_u (bits - 1)) vs;
    ht_values : Forall2 (encodes m) tokens vs }.

Lemma New_holds tokens key :
  Forall settled_token tokens ->
  22 * (Z.of_nat (List.length tokens) + 1) + kInitialBufferSize < 2 ^ (bits - 1) ->
  exists ts vs m, TokenStream.New bits alloc_ tokens key = Ok ts /\
    holds_tokens ts (tokens ++ [end_token]) vs m.
Proof.
  intros Hs Hroom; unfold TokenStream.New, new, WriteStream.new.
  destruct (Halloc [] 0 kInitialBufferSize) as (blk & -> & Hlen & _); [done.. |]; cbn [obind].
  assert (Hd : data_ok (List.length tokens + 1)
    (mk (WriteStream.mk blk kInitialBufferSize 0 kInitialBufferSize kInitialBufferSize) [])).
  { split_and!; cbn; [split; cbn; done || lia | intros i ? ? [=] | |].
    - unfold room; cbn [WriteStream.current_ WriteStream.initial_size_]; lia.
    - change kNumTokens with 117; unfold kInitialBufferSize in *; lia. }
  destruct (add_tokens_adds 1 tokens _ Hd Hs) as (d & vs & -> & Hd' & Hv & He & _ & Happ); cbn [obind].
  destruct (AddSimpleToken_ok 0 end_token d Hd' eq_refl) as (d2 & E2 & v & Hd2 & Hv2 & He2 & Hp2 & Happ2).
  change (Scanner.kind end_token) with kEOS in E2; rewrite E2; cbn [obind].
  unfold MakeTokenObjectsArray.
  rewrite (set_objects_ok (tokens_ d2) []) by (try apply Hd2; rewrite ?length_replicate; done).
  cbn [obind app]; eexists _, (vs ++ [v]), (tokens_ d2); split; [done |].
  split; cbn [TokenStream.stream_ TokenStream.token_objects_]; try done.
  - rewrite bytes_of_app; unfold bytes_of at 2; cbn [map concat]; rewrite app_nil_r.
    change (GetStream d2) with (written (stream_ d2)).
    rewrite (app_written _ _ _ Happ2), (app_written _ _ _ Happ); done.
  - apply Forall_app; split; [done |]; constructor; done.
  - apply Forall2_app; [| constructor; done].
    eapply Forall2_impl; [exact He |]; intros x y H; apply (encodes_prefix (tokens_ d)); done.
Qed.

End Writing.

(** * Reading *)
Section Reading.
Context (bits : Z) (Hbits : bits = 32 \/ bits = 64).
Context (ts : TokenStream.t) (tokens : list TokenDescriptor) (vs : list Z).
Context (m : CompressedTokenMap) (Hts : holds_tokens bits ts tokens vs m).
Import Iterator.

(** The position of the token of an index. *)
Definition token_pos (i : nat) : Z := Z.of_nat (List.length (bytes_of (take i vs))).

Definition reader (i : nat) : ReadStream :=
  mkReadStream (bytes_of vs) (token_pos i) (Z.of_nat (List.length (bytes_of vs))).

Lemma token_pos_S i v :
  vs !! i = Some v -> token_pos (S i) = token_pos i + Z.of_nat (List.length (unsigned_bytes v)).
Proof.
  intros Hi; unfold token_pos; rewrite (take_S_r vs i v Hi), bytes_of_app, length_app.
  replace (bytes_of [v]) with (unsigned_bytes v) by (unfold bytes_of; cbn; rewrite app_nil_r; done).
  lia.
Qed.

Lemma ReadToken_ok i v : vs !! i = Some v -> ReadToken bits (reader i) = Ok (v, reader (S i)).
Proof.
  intros Hi; unfold ReadToken.
  assert (Hv : in_u (bits - 1) v) by (destruct Hts as [_ _ Hr _]; eapply Forall_lookup in Hr; done).
  rewrite (ReadUnsigned_groups bits (reader i) v Hbits Hv).
  - cbn [obind]; unfold in_u in Hv.
    replace (v >=? 0) with true by (symmetry; apply Z.geb_le; lia).
    rewrite (proj2 (Z.leb_le _ _)) by lia; cbn [andb]; f_equal; f_equal.
    unfold reader, at_current; cbn [buffer_ current_ end_]; f_equal.
    rewrite (token_pos_S i v Hi); done.
  - assert (Eb : bytes_of vs = bytes_of (take i vs) ++ unsigned_bytes v ++ bytes_of (drop (S i) vs)).
    { rewrite <- (take_drop_middle vs i v Hi) at 1; rewrite bytes_of_app; done. }
    split_and!; cbn [reader current_ end_ buffer_]; unfold token_pos; [lia | |].
    + rewrite Eb, !length_app; lia.
    + intros j b Hj; rewrite Nat2Z.id, Eb, lookup_app_r by lia.
      rewrite lookup_app_l by (apply lookup_lt_Some in Hj; lia).
      rewrite <- Hj; f_equal; lia.
Qed.

(** The literal that the iterator shows. *)
Definition shown_literal (tok : TokenDescriptor) : Literal :=
  match object_of tok with
  | Some (IdentObject l) | Some (LiteralToken _ l) => l
  | None => Symbol (chars (Str (Scanner.kind tok)))
  end.

(** The iterator stands at the token of index [i]. *)
Definition it_at (ty : StreamType) (i : nat) (it : t) : Prop :=
  stream_ it = reader (S i) /\ token_objects_ it = TokenStream.token_objects_ ts /\
  CurrentPosition it = token_pos i /\ stream_type_ it = ty /\
  exists tok, tokens !! i = Some tok /\ CurrentTokenKind it = Scanner.kind tok /\
              CurrentLiteral it = Ok (shown_literal tok).

Lemma object_at_ok it i key :
  token_objects_ it = TokenStream.token_objects_ ts -> m !! i = Some (key, Z.of_nat i) ->
  object_at it (Z.of_nat i) = Ok key.
Proof.
  intros Ho Hi; unfold object_at; destruct (Z.ltb_spec (Z.of_nat i) 0); [lia |].
  rewrite Ho, (ht_objects _ _ _ _ _ Hts), Nat2Z.id, list_lookup_fmap, Hi; done.
Qed.

(** The kind and the literal of a value. *)
Lemma kind_of_value_ok it tok v :
  token_objects_ it = TokenStream.token_objects_ ts -> encodes m tok v ->
  kind_of_value it v = Ok (Scanner.kind tok) /\
  forall it', token_objects_ it' = TokenStream.token_objects_ ts -> cur_token_kind_ it' = Scanner.kind tok ->
    cur_token_obj_index_ it' = (if v <? kNumTokens then -1 else v - kNumTokens) ->
    CurrentLiteral it' = Ok (shown_literal tok).
Proof.
  intros Ho He; unfold encodes, kind_of_value, CurrentLiteral, CurrentToken, shown_literal in *.
  destruct (object_of tok) as [key |] eqn:Ek.
  - destruct He as (i & Hi & ->).
    destruct (Z.ltb_spec (Z.of_nat i + kNumTokens) kNumTokens); [lia |].
    replace (Z.of_nat i + kNumTokens - kNumTokens) with (Z.of_nat i) by lia.
    rewrite (object_at_ok it i key Ho Hi); cbn [obind]; split.
    + unfold object_of in Ek; destruct (literal tok); [| done].
      destruct (kind_eqb_spec (Scanner.kind tok) kIDENT) as [E |]; [injection Ek as <-; congruence |].
      destruct (NeedsLiteralToken _); [injection Ek as <-; done | done].
    + intros it' Ho' _ ->; destruct (Z.eqb_spec (Z.of_nat i) (-1)); [lia |]; cbn [negb].
      rewrite (object_at_ok it' i key Ho' Hi); destruct key; done.
  - subst v; pose proof (value_range (Scanner.kind tok)).
    destruct (Z.ltb_spec (value (Scanner.kind tok)) kNumTokens); [| lia].
    rewrite of_value_value; split; [done |]; intros it' _ Ek' ->; cbn; rewrite Ek'; done.
Qed.

(** A token that the iterator passes over. *)
Definition skipped (ty : StreamType) (tok : TokenDescriptor) : bool :=
  skips_newlines ty && kind_eqb (Scanner.kind tok) kNEWLINE.

Lemma skipped_value ty tok v :
  encodes m tok v -> skips_newlines ty && (v =? value kNEWLINE) = skipped ty tok.
Proof.
  unfold skipped, encodes; intros He; f_equal; destruct (object_of tok) as [key |] eqn:Ek; [| subst v; done].
  destruct He as (i & _ & ->); pose proof (value_range kNEWLINE).
  destruct (Z.eqb_spec (Z.of_nat i + kNumTokens) (value kNEWLINE)); [lia |].
  unfold object_of in Ek; destruct (literal tok); [| done].
  destruct (kind_eqb_spec (Scanner.kind tok) kNEWLINE) as [E |]; [| done].
  rewrite E in Ek; done.
Qed.

(** The number of the tokens is at most that of the bytes. *)
Lemma tokens_bytes : (List.length tokens <= List.length (bytes_of vs))%nat.
Proof.
  rewrite (Forall2_length _ _ _ (ht_values _ _ _ _ _ Hts)); apply length_bytes_of.
Qed.

Lemma value_at i tok : tokens !! i = Some tok -> exists v, vs !! i = Some v /\ encodes m tok v.
Proof. intros Hi; apply (Forall2_lookup_l _ _ _ _ _ (ht_values _ _ _ _ _ Hts) Hi). Qed.

Lemma advance_loop_ok ty fuel i j tok v :
  (i <= j)%nat -> (j - i < fuel)%nat ->
  (forall k t', (i <= k < j)%nat -> tokens !! k = Some t' -> skipped ty t' = true) ->
  tokens !! j = Some tok -> skipped ty tok = false -> vs !! j = Some v -> encodes m tok v ->
  advance_loop bits fuel ty (reader i) = Ok (token_pos j, v, reader (S j)).
Proof.
  revert i; induction fuel as [| fuel IH]; intros i Hij Hf Hskip Hj Hns Hv He; [lia |].
  cbn [advance_loop]; destruct (decide (i = j)) as [-> | Hne].
  - rewrite (ReadToken_ok j v Hv); cbn [obind]; rewrite (skipped_value ty tok v He), Hns; done.
  - destruct (lookup_lt_is_Some_2 tokens i) as [t' Ht']; [apply lookup_lt_Some in Hj; lia |].
    destruct (value_at i t' Ht') as (v' & Hv' & He').
    rewrite (ReadToken_ok i v' Hv'); cbn [obind].
    rewrite (skipped_value ty t' v' He'), (Hskip i t') by (lia || done).
    apply IH; try done; try lia; intros k t2 Hk; apply Hskip; lia.
Qed.

(** The iterator goes to the next token that is not passed over. *)
Lemma Iterator_Advance_ok ty i j tok it :
  stream_ it = reader i -> token_objects_ it = TokenStream.token_objects_ ts -> stream_type_ it = ty ->
  (i <= j)%nat -> tokens !! j = Some tok -> skipped ty tok = false ->
  (forall k t', (i <= k < j)%nat -> tokens !! k = Some t' -> skipped ty t' = true) ->
  returns (Iterator.Advance bits it) (it_at ty j).
Proof.
  intros Es Eo Et Hij Hj Hns Hskip; destruct (value_at j tok Hj) as (v & Hv & He).
  unfold Iterator.Advance, byte_fuel; rewrite Es, Et.
  rewrite (advance_loop_ok ty _ i j tok v) by
    (done || (apply lookup_lt_Some in Hj; pose proof tokens_bytes; cbn [reader buffer_]; lia)).
  cbn [obind]; destruct (kind_of_value_ok it tok v Eo He) as [-> Hlit]; cbn [obind].
  apply returns_Ok; split_and!; try done; exists tok; split_and!; try done.
  apply Hlit; done.
Qed.

Lemma token_pos_lt i v : vs !! i = Some v -> token_pos i < Z.of_nat (List.length (bytes_of vs)).
Proof.
  intros Hv; pose proof (token_pos_S i v Hv) as H; pose proof (length_unsigned_bytes v).
  assert (token_pos (S i) <= Z.of_nat (List.length (bytes_of vs))); [| lia].
  unfold token_pos; rewrite <- (take_drop (S i) vs) at 2; rewrite bytes_of_app, length_app; lia.
Qed.

Lemma Iterator_new_ok ty i j tok :
  (i <= j)%nat -> tokens !! j = Some tok -> skipped ty tok = false ->
  (forall k t', (i <= k < j)%nat -> tokens !! k = Some t' -> skipped ty t' = true) ->
  returns (Iterator.new bits ts (token_pos i) ty) (it_at ty j).
Proof.
  intros Hij Hj Hns Hskip.
  destruct (lookup_lt_is_Some_2 tokens i) as [t' Ht']; [apply lookup_lt_Some in Hj; lia |].
  destruct (value_at i t' Ht') as (v & Hv & _); pose proof (token_pos_lt i v Hv).
  unfold Iterator.new, SetCurrentPosition, SetPosition; rewrite (ht_stream _ _ _ _ _ Hts).
  cbn [stream_ new_ReadStream end_].
  destruct (Z.gtb_spec (Z.of_nat (List.length (bytes_of vs))) (token_pos i)); [| lia].
  cbn [obind]; apply (Iterator_Advance_ok ty i j tok); done.
Qed.

(** Positions increase. *)
Lemma token_pos_mono i j : (i < j <= List.length vs)%nat -> token_pos i < token_pos j.
Proof.
  intros [Hij Hj]; induction Hij as [| j Hij IH].
  - destruct (lookup_lt_is_Some_2 vs i) as [v Hv]; [lia |].
    rewrite (token_pos_S i v Hv); pose proof (length_unsigned_bytes v); lia.
  - destruct (lookup_lt_is_Some_2 vs j) as [v Hv]; [lia |].
    rewrite (token_pos_S j v Hv); specialize (IH ltac:(lia)); lia.
Qed.

End Reading.

(** * Reading a stream back *)

(** The kinds and the literals from the token of the iterator to the end of the source. *)
Fixpoint read_tokens (bits : Z) (fuel : nat) (it : Iterator.t) : outcome (list (Kind * Literal)) :=
  match fuel with
  | O => Err OutOfFuel
  | S fuel =>
      let* l := Iterator.CurrentLiteral it in
      let k := Iterator.CurrentTokenKind it in
      if kind_eqb k kEOS then Ok [(k, l)]
      else
        let* it := Iterator.Advance bits it in
        let* rest := read_tokens bits fuel it in
        Ok ((k, l) :: rest)
  end.

(** The first end of the source is the last token. *)
Fixpoint ends_eos (l : list TokenDescriptor) : Prop :=
  match l with
  | [] => False
  | tok :: l => if kind_eqb (Scanner.kind tok) kEOS then l = [] else ends_eos l
  end.

Lemma split_skipped ty l :
  ends_eos l ->
  exists l1 tok l2, l = l1 ++ tok :: l2 /\ Forall (fun t' => skipped ty t' = true) l1 /\
    skipped ty tok = false /\ ends_eos (tok :: l2).
Proof.
  induction l as [| tok l IH]; [done |]; intros H; destruct (skipped ty tok) eqn:E.
  - cbn in H; destruct (kind_eqb_spec (Scanner.kind tok) kEOS) as [Ek |].
    { unfold skipped in E; rewrite Ek, andb_false_r in E; done. }
    destruct (IH H) as (l1 & tok' & l2 & -> & Hl1 & Hns & He).
    exists (tok :: l1), tok', l2; split_and!; try done; constructor; done.
  - exists [], tok, l; done.
Qed.

Section Roundtrip.
Context (bits : Z) (Hbits : bits = 32 \/ bits = 64).

Definition token_view (tok : TokenDescriptor) : Kind * Literal := (Scanner.kind tok, shown_literal tok).
Definition kept (ty : Iterator.StreamType) (l : list TokenDescriptor) : list TokenDescriptor :=
  List.filter (fun tok => negb (skipped ty tok)) l.

Lemma kept_app ty l1 l2 :
  Forall (fun t' => skipped ty t' = true) l1 -> kept ty (l1 ++ l2) = kept ty l2.
Proof.
  intros H; unfold kept; rewrite List.filter_app.
  replace (List.filter (fun tok => negb (skipped ty tok)) l1) with (@nil TokenDescriptor); [done |].
  induction H as [| tok l Ht _ IH]; cbn; [done |]; rewrite Ht; done.
Qed.

Lemma skipped_between ty pre l1 rest k t' :
  Forall (fun t' => skipped ty t' = true) l1 ->
  (List.length pre <= k < List.length pre + List.length l1)%nat ->
  (pre ++ l1 ++ rest) !! k = Some t' -> skipped ty t' = true.
Proof.
  intros H Hk Ht; rewrite lookup_app_r, lookup_app_l in Ht by lia.
  eapply Forall_lookup in H; [exact H | exact Ht].
Qed.

Lemma read_tokens_ok ty ts tokens vs m fuel pre tok suf post it :
  holds_tokens bits ts tokens vs m -> tokens = pre ++ (tok :: suf) ++ post ->
  ends_eos (tok :: suf) -> skipped ty tok = false ->
  it_at ts tokens vs ty (List.length pre) it -> (List.length suf < fuel)%nat ->
  read_tokens bits fuel it = Ok (map token_view (kept ty (tok :: suf))).
Proof.
  intros Hts; revert pre tok suf it; induction fuel as [| fuel IH]; intros pre tok suf it Et He Hns Hit Hf;
    [lia |].
  destruct Hit as (Es & Eo & _ & Ety & tok' & Htok' & Ek & El).
  assert (tok' = tok) as ->.
  { rewrite Et, lookup_app_r, Nat.sub_diag in Htok' by lia; cbn in Htok'; congruence. }
  cbn [read_tokens]; rewrite El, Ek; cbn [obind ends_eos] in *.
  unfold kept; cbn [List.filter]; rewrite Hns; cbn [negb map]; fold (kept ty suf).
  destruct (kind_eqb (Scanner.kind tok) kEOS) eqn:Eeos; [subst suf; done |].
  destruct (split_skipped ty suf He) as (l1 & tok2 & l2 & -> & Hl1 & Hns2 & He2).
  assert (Et2 : tokens = (pre ++ tok :: l1) ++ (tok2 :: l2) ++ post).
  { rewrite Et; cbn [app]; rewrite <- !app_assoc; done. }
  destruct (Iterator_Advance_ok bits Hbits ts tokens vs m Hts ty (S (List.length pre))
    (List.length (pre ++ tok :: l1)) tok2 it Es Eo Ety) as (it2 & -> & Hit2).
  - rewrite length_app; cbn; lia.
  - rewrite Et2, lookup_app_r, Nat.sub_diag by lia; done.
  - done.
  - intros k t' Hk Ht; apply (skipped_between ty (pre ++ [tok]) l1 ((tok2 :: l2) ++ post) k t' Hl1).
    + rewrite !length_app in *; cbn in *; lia.
    + rewrite <- Ht, Et2, <- !app_assoc; done.
  - cbn [obind]; rewrite (IH _ tok2 l2 it2 Et2 He2 Hns2 Hit2); cbn [obind].
    + rewrite (kept_app ty l1 (tok2 :: l2) Hl1); done.
    + rewrite length_app in Hf; cbn in Hf; lia.
Qed.

(** The first token of a stream. *)
Lemma read_from_start ty ts tokens vs m :
  holds_tokens bits ts (tokens ++ [end_token]) vs m -> ends_eos tokens ->
  returns (let* it := Iterator.new bits ts 0 ty in read_tokens bits (List.length tokens) it)
    (fun l => l = map token_view (kept ty tokens)).
Proof.
  intros Hts He; destruct (split_skipped ty tokens He) as (l1 & tok & l2 & -> & Hl1 & Hns & He2).
  destruct (Iterator_new_ok bits Hbits ts _ vs m Hts ty 0 (List.length l1) tok) as (it & E & Hit).
  - lia.
  - rewrite <- app_assoc, lookup_app_r, Nat.sub_diag by lia; done.
  - done.
  - intros k t' Hk Ht; rewrite <- app_assoc in Ht.
    apply (skipped_between ty [] l1 ((tok :: l2) ++ [end_token]) k t' Hl1); done.
  - change (token_pos vs 0) with 0 in E; rewrite E; cbn [obind].
    rewrite (read_tokens_ok ty ts _ vs m _ l1 tok l2 [end_token] it Hts) by
      (done || (rewrite <- app_assoc; done) || (rewrite length_app; cbn; lia)).
    apply returns_Ok; rewrite kept_app; done.
Qed.

End Roundtrip.

(** C20. A sequence of tokens as the scanner produces it, with a literal where the kind
    needs one and the end of the source as its last token, is read back from its
    compressed stream: the iterator yields the kinds and the literals of the tokens, all of
    them or those that are no newlines, as its type says.  The stream is written and read
    without a failure if there is room for its bytes. *)
Theorem token_stream_roundtrip bits alloc_ key ty tokens :
  bits = 32 \/ bits = 64 -> allocates alloc_ -> Forall settled_token tokens -> ends_eos tokens ->
  22 * (Z.of_nat (List.length tokens) + 1) + CompressedTokenStreamData.kInitialBufferSize < 2 ^ (bits - 1) ->
  returns (let* ts := TokenStream.New bits alloc_ tokens key in
           let* it := Iterator.new bits ts 0 ty in
           read_tokens bits (List.length tokens) it)
    (fun l => l = map token_view (kept ty tokens)).
Proof.
  intros Hb Ha Hs He Hroom.
  destruct (New_holds bits Hb alloc_ Ha tokens key Hs Hroom) as (ts & vs & m & -> & Hts); cbn [obind].
  apply (read_from_start bits Hb ty ts tokens vs m Hts He).
Qed.

Lemma token_stream_roundtrip_witness :
  returns (let* ts := TokenStream.New 32 grow
             [mkToken kVAR 0 (mkPosition 1 1) (Some (Symbol [118; 97; 114]));
              mkToken kIDENT 4 (mkPosition 1 5) (Some (Symbol [120]));
              mkToken kNEWLINE 0 (mkPosition 1 0) None;
              mkToken kSTRING 6 (mkPosition 2 1) (Some (Symbol [120]));
              mkToken kEOS 9 (mkPosition 2 4) None] [] in
           let* it := Iterator.new 32 ts 0 Iterator.kNoNewlines in
           read_tokens 32 5 it)
    (fun l => l = [(kVAR, Symbol [118; 97; 114]); (kIDENT, Symbol [120]); (kSTRING, Symbol [120]);
                   (kEOS, Symbol [])]).
Proof.
  refine (token_stream_roundtrip 32 grow [] Iterator.kNoNewlines
    [mkToken kVAR 0 (mkPosition 1 1) (Some (Symbol [118; 97; 114]));
     mkToken kIDENT 4 (mkPosition 1 5) (Some (Symbol [120]));
     mkToken kNEWLINE 0 (mkPosition 1 0) None;
     mkToken kSTRING 6 (mkPosition 2 1) (Some (Symbol [120]));
     mkToken kEOS 9 (mkPosition 2 4) None] _ grow_allocates _ _ _).
  - left; reflexivity.
  - repeat (apply Forall_cons_2; [intros H; first [discriminate H | intros E; discriminate E] |]); apply Forall_nil_2.
  - reflexivity.
  - reflexivity.
Defined.
