(* ===== verification/ScriptProofs.v ===== *)
(** Scripts: the locations of tokens are those of the source, however they are computed,
    and the lines of a script are its lines, except for empty ones. *)
From stdpp Require Import base numbers list.
From Stdlib Require Import ZArith Lia Bool String.
From S2P Require Import Prelude Utils DataStream DataStreamProofs Token Scanner ScannerProofs.
From S2P Require Import ScannerStreams TokenStream TokenStreamProofs.
Import Token.
#[local] Open Scope Z_scope.

(** * Locations of tokens *)

(** The position of the token of an index, as an iterator finds it. *)
Fixpoint advance_times (bits : Z) (n : nat) (it : Iterator.t) : outcome Iterator.t :=
  match n with
  | O => Ok it
  | S n => let* it := Iterator.Advance bits it in advance_times bits n it
  end.
Definition nth_position (bits : Z) (ts : TokenStream.t) (i : nat) : outcome Z :=
  let* it := Iterator.new bits ts 0 Iterator.kAllTokens in
  let* it := advance_times bits i it in
  Ok (Iterator.CurrentPosition it).

Section Locations.
Context (bits : Z) (Hbits : bits = 32 \/ bits = 64).
Context (ts : TokenStream.t) (tokens : list TokenDescriptor) (vs : list Z).
Context (m : CompressedTokenMap) (Hts : holds_tokens bits ts tokens vs m).

(** The iterator over all tokens. *)
Abbreviation at_token i it := (it_at ts tokens vs Iterator.kAllTokens i it).

Lemma next_token i tok it :
  at_token i it -> tokens !! S i = Some tok -> returns (Iterator.Advance bits it) (fun it' => at_token (S i) it').
Proof.
  intros (Es & Eo & _ & Ety & _) Hi.
  apply (Iterator_Advance_ok bits Hbits ts tokens vs m Hts Iterator.kAllTokens (S i) (S i) tok it Es Eo Ety); try done.
  intros k t' Hk; lia.
Qed.

Lemma first_token tok :
  tokens !! 0%nat = Some tok ->
  returns (Iterator.new bits ts 0 Iterator.kAllTokens) (fun it => at_token 0 it).
Proof.
  intros Hi; change 0 with (token_pos vs 0).
  apply (Iterator_new_ok bits Hbits ts tokens vs m Hts Iterator.kAllTokens 0 0 tok); try done; intros k t' Hk; lia.
Qed.

Lemma token_before i tok : tokens !! i = Some tok -> forall j, (j <= i)%nat -> exists tok', tokens !! j = Some tok'.
Proof.
  intros Hi j Hj; apply lookup_lt_is_Some_2; apply lookup_lt_Some in Hi; lia.
Qed.

Lemma advance_times_ok i j tok it :
  at_token i it -> tokens !! (i + j)%nat = Some tok ->
  returns (advance_times bits j it) (fun it' => at_token (i + j) it').
Proof.
  revert i it; induction j as [| j IH]; intros i it Hit Hj; cbn [advance_times].
  - rewrite Nat.add_0_r; apply returns_Ok, Hit.
  - destruct (token_before _ _ Hj (S i)) as [tok' Ht']; [lia |].
    call (next_token i tok' it Hit Ht') as it' Hit'.
    rewrite Nat.add_succ_r in *; apply (IH (S i) it' Hit'); done.
Qed.

Lemma nth_position_ok i tok :
  tokens !! i = Some tok -> nth_position bits ts i = Ok (token_pos vs i).
Proof.
  intros Hi; unfold nth_position; destruct (token_before _ _ Hi 0%nat) as [t0 Ht0]; [lia |].
  destruct (first_token t0 Ht0) as (it & -> & Hit); cbn [obind].
  destruct (advance_times_ok 0 i tok it Hit Hi) as (it' & -> & _ & _ & Ep & _); cbn [obind].
  rewrite Ep; done.
Qed.

(** A loop over the tokens before the token of index [i], none of which is the end. *)
Lemma before_token i j tok it :
  at_token j it -> (j <= i)%nat -> tokens !! i = Some tok ->
  (forall k t', (k < i)%nat -> tokens !! k = Some t' -> Scanner.kind t' <> kEOS) ->
  (Iterator.CurrentPosition it <? token_pos vs i) && negb (kind_eqb (Iterator.CurrentTokenKind it) kEOS)
  = negb (j =? i)%nat.
Proof.
  intros (_ & _ & -> & _ & tok' & Ht' & -> & _) Hj Hi Hbefore.
  destruct (Nat.eqb_spec j i) as [-> | Hne]; cbn [negb].
  - rewrite Z.ltb_irrefl; done.
  - rewrite (proj2 (Z.ltb_lt _ _)).
    + rewrite (proj2 (kind_eqb_neq _ _)); [done |]; apply (Hbefore j); [lia | done].
    + apply token_pos_mono; split; [lia |].
      destruct (value_at bits ts tokens vs m Hts i tok Hi) as (v & Hv & _); apply lookup_lt_Some in Hv; lia.
Qed.

Lemma source_position_loop_ok i j tok fuel n it :
  at_token j it -> (j <= i)%nat -> (i - j <= fuel)%nat -> tokens !! i = Some tok ->
  (forall k t', (k < i)%nat -> tokens !! k = Some t' -> Scanner.kind t' <> kEOS) ->
  source_position_loop bits fuel (token_pos vs i) n it = Ok (n + Z.of_nat (i - j)).
Proof.
  revert j n it; induction fuel as [| fuel IH]; intros j n it Hit Hj Hf Hi Hb; cbn [source_position_loop];
    rewrite (before_token i j tok it Hit Hj Hi Hb); destruct (Nat.eqb_spec j i) as [-> | Hne]; cbn [negb];
    try (rewrite Nat.sub_diag, Z.add_0_r; done); [lia |].
  destruct (token_before _ _ Hi (S j)) as [t' Ht']; [lia |].
  destruct (next_token j t' it Hit Ht') as (it' & -> & Hit'); cbn [obind].
  rewrite (IH (S j)) by (done || lia); f_equal; lia.
Qed.

Lemma line_of_token_ok i j tok fuel n it :
  at_token j it -> (j <= i)%nat -> (i - j <= fuel)%nat -> tokens !! i = Some tok ->
  (forall k t', (k < i)%nat -> tokens !! k = Some t' -> Scanner.kind t' <> kEOS) ->
  Script.line_of_token bits fuel (token_pos vs i) n it = Ok (n + newlines (take (i - j) (drop j tokens))).
Proof.
  revert j n it; induction fuel as [| fuel IH]; intros j n it Hit Hj Hf Hi Hb; cbn [Script.line_of_token];
    rewrite (before_token i j tok it Hit Hj Hi Hb); destruct (Nat.eqb_spec j i) as [-> | Hne]; cbn [negb];
    try (rewrite Nat.sub_diag; cbn; rewrite Z.add_0_r; done); [lia |].
  destruct (token_before _ _ Hi (S j)) as [t' Ht']; [lia |].
  destruct (next_token j t' it Hit Ht') as (it' & -> & Hit'); cbn [obind].
  destruct Hit as (_ & _ & _ & _ & tj & Htj & -> & _).
  rewrite (IH (S j)) by (done || lia); f_equal.
  replace (i - j)%nat with (S (i - S j)) by lia; rewrite (drop_S tokens tj j Htj); cbn [take].
  unfold newlines; cbn [List.filter]; fold (is_newline tj).
  destruct (is_newline tj); cbn [List.length]; lia.
Qed.

Lemma tokens_fuel i tok : tokens !! i = Some tok -> (i <= List.length (TokenStream.stream_ ts))%nat.
Proof.
  intros Hi; apply lookup_lt_Some in Hi; pose proof (tokens_bytes bits ts tokens vs m Hts).
  rewrite (ht_stream _ _ _ _ _ Hts); lia.
Qed.

Lemma ComputeSourcePosition_ok i tok :
  tokens !! i = Some tok ->
  (forall k t', (k < i)%nat -> tokens !! k = Some t' -> Scanner.kind t' <> kEOS) ->
  ComputeSourcePosition bits (token_pos vs i) ts = Ok (Z.of_nat i).
Proof.
  intros Hi Hb; unfold ComputeSourcePosition; destruct (token_before _ _ Hi 0%nat) as [t0 Ht0]; [lia |].
  destruct (first_token t0 Ht0) as (it & -> & Hit); cbn [obind]; pose proof (tokens_fuel i tok Hi).
  rewrite (source_position_loop_ok i 0 tok) by (done || lia); f_equal; lia.
Qed.

End Locations.

(** ** The end of a stream is its last token *)
Lemma inserted_no_eos nl em prev t0 :
  Scanner.kind nl = kNEWLINE -> Scanner.kind em = kSTRING ->
  Forall (fun t => Scanner.kind t <> kEOS) (inserted nl em prev t0).
Proof.
  intros Hnl Hem; apply Forall_app; split.
  - eapply Forall_impl; [apply (newline_tokens_kind nl Hnl) |]; cbn; intros x ->; done.
  - destruct (inserts_empty _ _); constructor; [cbn; congruence | constructor].
Qed.

Lemma weave_eos src nl em lo prev ts k t :
  Scanner.kind nl = kNEWLINE -> Scanner.kind em = kSTRING -> ordered src lo ts ->
  weave nl em prev ts !! k = Some t -> (S k < List.length (weave nl em prev ts))%nat ->
  Scanner.kind t <> kEOS.
Proof.
  intros Hnl Hem; revert lo prev k; induction ts as [| t0 ts IH]; intros lo prev k Ho; [done |].
  destruct Ho as (_ & He & m & _ & _ & _ & _ & Ho); cbn [weave]; rewrite length_app.
  intros Hk Hl; apply lookup_app_Some in Hk as [Hk | [Hge Hk]].
  - apply (Forall_lookup_1 _ _ _ _ (inserted_no_eos nl em prev t0 Hnl Hem) Hk).
  - set (n := List.length _) in *; replace k with (n + (k - n))%nat in Hl by lia.
    destruct (k - n)%nat as [| j]; cbn in Hk, Hl.
    + injection Hk as <-; intros E; apply He in E as ->; cbn in Hl; lia.
    + apply (IH m _ j Ho Hk); lia.
Qed.

Lemma GetStream_eos src key memory stream k t :
  Forall (fun c => 0 <= c <= 0xFFFF) src -> GetStream src key memory = Ok stream ->
  stream !! k = Some t -> (S k < List.length stream)%nat -> Scanner.kind t <> kEOS.
Proof.
  intros Hu E; destruct (GetStream_woven src Hu key memory)
    as (s & nl & em & ts & _ & _ & Ho & _ & _ & _ & _ & _ & Hnl & Hem & _ & _ & E').
  rewrite E in E'; injection E' as ->; apply (weave_eos src nl em 0); done.
Qed.

(** ** Tokenized scripts *)
Section Tokenized.
Context (bits : Z) (Hbits : bits = 32 \/ bits = 64).
Context (alloc_ : list Z -> Z -> Z -> option (list Z)) (Halloc : allocates alloc_).

Lemma Tokenize_holds key memory scanner stream script :
  Forall (fun c => 0 <= c <= 0xFFFF) (Script.source_ script) -> Script.tokens_ script = None ->
  new_Scanner (Script.source_ script) memory = Ok scanner ->
  GetStream (Script.source_ script) key scanner = Ok stream ->
  22 * (Z.of_nat (List.length stream) + 1) + CompressedTokenStreamData.kInitialBufferSize < 2 ^ (bits - 1) ->
  exists ts vs m,
    Script.Tokenize bits alloc_ key memory script
    = Ok (Script.mk (Script.source_ script) (Some ts) (Script.line_offset_ script) (Script.col_offset_ script)) /\
    holds_tokens bits ts (stream ++ [end_token]) vs m.
Proof.
  intros Hu Hn Es Eg Hroom; unfold Script.Tokenize; rewrite Hn, Es; cbn [obind]; rewrite Eg; cbn [obind].
  destruct (New_holds bits Hbits alloc_ Halloc stream key (GetStream_settled _ _ _ _ Hu Eg) Hroom)
    as (ts & vs & m & -> & Hts); exists ts, vs, m; done.
Qed.

End Tokenized.

(** C7. The locations of the tokens of a script are those of its source.  A script of any
    source is tokenized; the position of a token in the compressed stream is found by an
    iterator, and it leads back to the line of the token, counting newline tokens only, and,
    where the token was scanned and not inserted, to its line and column, scanning the source
    again with another scanner and without the library key.  The offsets of the script are
    added to the lines, and to the columns of its first line. *)
Theorem GetTokenLocation_ok bits alloc_ key memory memory' scanner stream script i t :
  bits = 32 \/ bits = 64 -> allocates alloc_ ->
  Forall (fun c => 0 <= c <= 0xFFFF) (Script.source_ script) -> Script.tokens_ script = None ->
  new_Scanner (Script.source_ script) memory = Ok scanner ->
  GetStream (Script.source_ script) key scanner = Ok stream -> stream !! i = Some t ->
  22 * (Z.of_nat (List.length stream) + 1) + CompressedTokenStreamData.kInitialBufferSize < 2 ^ (bits - 1) ->
  exists script' ts pos,
    Script.Tokenize bits alloc_ key memory script = Ok script' /\ Script.tokens_ script' = Some ts /\
    nth_position bits ts i = Ok pos /\
    Script.GetTokenLine bits pos script' = Ok (Script.line_offset_ script + line (position t)) /\
    (is_inserted t = false ->
     Script.GetTokenLocation bits pos memory' script'
     = Ok (line (position t) + Script.line_offset_ script,
           if line (position t) =? 1 then column (position t) + Script.col_offset_ script
           else column (position t))).
Proof.
  intros Hb Ha Hu Hn Es Eg Hi Hroom.
  destruct (Tokenize_holds bits Hb alloc_ Ha key memory scanner stream script Hu Hn Es Eg Hroom)
    as (ts & vs & m & -> & Hts); do 3 eexists; split; [done |]; split; [done |].
  set (tokens := stream ++ [end_token]) in *.
  assert (Hti : tokens !! i = Some t) by (apply lookup_app_l_Some, Hi).
  assert (Hlen : (i < List.length stream)%nat) by (apply lookup_lt_Some in Hi; done).
  assert (Hbefore : forall k t', (k < i)%nat -> tokens !! k = Some t' -> Scanner.kind t' <> kEOS).
  { intros k t' Hk Ht'; unfold tokens in Ht'; rewrite lookup_app_l in Ht' by lia.
    apply (GetStream_eos _ _ _ _ _ _ Hu Eg Ht'); lia. }
  split; [apply (nth_position_ok bits Hb ts tokens vs m Hts i t Hti) |]; split.
  - unfold Script.GetTokenLine; cbn [Script.tokens Script.tokens_ obind Script.line_offset_].
    destruct (token_before tokens _ _ Hti 0%nat) as [t0 Ht0]; [lia |].
    destruct (first_token bits Hb ts tokens vs m Hts t0 Ht0) as (it & -> & Hit); cbn [obind].
    pose proof (tokens_fuel bits ts tokens vs m Hts i t Hti).
    rewrite (line_of_token_ok bits Hb ts tokens vs m Hts i 0 t) by (done || lia).
    rewrite (GetStream_lines _ _ _ _ _ _ Hu Eg Hi), Nat.sub_0_r, drop_0; unfold tokens.
    rewrite take_app_le by lia; f_equal; lia.
  - intros Ht; unfold Script.GetTokenLocation; cbn [Script.tokens Script.tokens_ obind].
    rewrite (ComputeSourcePosition_ok bits Hb ts tokens vs m Hts i t Hti Hbefore); cbn [obind Script.source_].
    destruct (Scanner_Reset_ok (Script.source_ script) memory') as (s' & Er & _).
    unfold new_Scanner; rewrite Er; cbn [obind].
    destruct (ScanTo_ok _ key [] scanner s' stream i t Hu Eg Hi Ht) as (s2 & -> & _ & _ & Hp & _).
    cbn [obind Script.line_offset_ Script.col_offset_]; rewrite Hp; done.
Qed.

Lemma GetTokenLocation_ok_witness :
  exists script' ts pos,
    Script.Tokenize 32 grow [] blank (Script.mk sample None 10 4) = Ok script' /\
    Script.tokens_ script' = Some ts /\ nth_position 32 ts 6 = Ok pos /\
    Script.GetTokenLine 32 pos script' = Ok 12 /\
    (false = false -> Script.GetTokenLocation 32 pos blank script' = Ok (12, 3)).
Proof.
  exact (GetTokenLocation_ok 32 grow [] blank blank
    (mkScanner blank_token (mkToken kNEWLINE 0 (mkPosition 0 0) None)
       (mkToken kSTRING 0 (mkPosition 0 0) (Some (Symbol []))) 0 0 97 false 1 [] 0 false 0 (mkPosition 1 1))
    sample_stream (Script.mk sample None 10 4) 6
    (mkToken kIDENT 8 (mkPosition 2 3) (Some (Symbol (chars "b"))))
    (or_introl eq_refl) grow_allocates sample_units eq_refl eq_refl eq_refl eq_refl eq_refl).
Defined.

(** * Lines of the source *)
Section Lines.
Context (src : list Z).

Definition is_terminator (n : nat) : bool := (raw src n =? kLineFeed) || (raw src n =? kReturn).

(** An offset at which a line starts, and the text of the line up to an offset. *)
Definition line_start (a : nat) : Prop := forall i, a = S i -> ends_line src i = true.
Definition line_text (a b : nat) : Prop :=
  (a <= b <= List.length src)%nat /\ (forall n, (a <= n < b)%nat -> is_terminator n = false) /\
  (b = List.length src \/ is_terminator b = true).

(** The last character before an offset that does not end a line. *)
Fixpoint last_text (n : nat) : Z :=
  match n with
  | O => -1
  | S i => if is_terminator i then last_text i else Z.of_nat i
  end.

Lemma last_text_lt n : last_text n < Z.of_nat n.
Proof. induction n as [| n IH]; cbn; [lia |]; destruct (is_terminator n); lia. Qed.

Lemma last_text_line a b : line_text a b -> (a < b)%nat -> last_text b = Z.of_nat b - 1.
Proof.
  intros (_ & Ht & _) Hab; destruct b as [| b]; [lia |]; cbn; rewrite Ht by lia; lia.
Qed.

Lemma ends_line_terminator n : ends_line src n = true -> is_terminator n = true.
Proof.
  unfold ends_line, is_terminator; destruct (_ =? kLineFeed); [done |].
  intros [-> _]%andb_true_iff; done.
Qed.

(** Where the code counts a line: not at a return at the end of the source. *)
Definition counts_line (n : nat) : bool := ends_line src n && negb ((raw src n =? kReturn) && (S n =? List.length src)%nat).

Lemma counts_line_inside n : (S n < List.length src)%nat -> counts_line n = ends_line src n.
Proof.
  intros H; unfold counts_line; rewrite (proj2 (Nat.eqb_neq _ _)) by lia.
  rewrite andb_false_r, andb_true_r; done.
Qed.

(** One round of the loop. *)
Lemma line_loop_step fuel rel n cur start last :
  (n < List.length src)%nat -> cur <= rel ->
  Script.line_loop (S fuel) src rel (Z.of_nat n) cur start last
  = Script.line_loop fuel src rel (Z.of_nat (S n)) (if counts_line n then cur + 1 else cur)
      (if (cur =? rel) && (start <? 0) then Z.of_nat n else start)
      (if is_terminator n then last else Z.of_nat n).
Proof.
  intros Hn Hc; cbn [Script.line_loop]; unfold Script.CharAt.
  rewrite (proj2 (Z.ltb_lt _ _)), (proj2 (Z.leb_le _ _)) by lia; cbn [andb].
  rewrite CharAt_raw by done; cbn [obind]; unfold is_terminator, counts_line, ends_line.
  replace (Z.of_nat n + 1) with (Z.of_nat (S n)) by lia.
  destruct (Z.eqb_spec (raw src n) kLineFeed) as [El | El]; cbn [orb andb].
  { rewrite El; done. }
  destruct (Z.eqb_spec (raw src n) kReturn) as [Er | Er]; cbn [orb andb]; [| done].
  destruct (Nat.eqb_spec (S n) (List.length src)) as [Ee | Ee]; cbn [negb].
  - rewrite (proj2 (Z.eqb_eq _ _)) by lia; cbn [obind]; rewrite andb_false_r; done.
  - rewrite (proj2 (Z.eqb_neq _ _)), CharAt_raw by lia; cbn [obind]; rewrite andb_true_r; done.
Qed.

Lemma line_loop_exit fuel rel n cur start last :
  (List.length src <= n)%nat \/ rel < cur ->
  Script.line_loop fuel src rel (Z.of_nat n) cur start last = Ok (start, last).
Proof.
  intros H; destruct fuel; cbn [Script.line_loop];
    destruct (Z.ltb_spec (Z.of_nat n) (Z.of_nat (List.length src))), (Z.leb_spec cur rel); cbn [andb]; done || lia.
Qed.

Lemma line_before_start a n :
  line_start a -> (n < a)%nat -> line (position_at src n) < line (position_at src a).
Proof.
  intros Ha Hn; destruct a as [| i]; [lia |]; cbn [position_at]; rewrite (Ha i eq_refl); cbn [line].
  pose proof (position_lines src n i ltac:(lia)); lia.
Qed.

(** The lines before the one that is looked for. *)
Lemma line_loop_before a n :
  line_start a -> (a < List.length src)%nat -> (n <= a)%nat ->
  Script.line_loop (List.length src - n) src (line (position_at src a)) (Z.of_nat n)
    (line (position_at src n)) (-1) (last_text n)
  = Script.line_loop (List.length src - a) src (line (position_at src a)) (Z.of_nat a)
      (line (position_at src a)) (-1) (last_text a).
Proof.
  intros Hs Ha Hn; remember (a - n)%nat as d eqn:Ed; revert n Hn Ed; induction d as [| d IH]; intros n Hn Ed.
  { replace n with a by lia; done. }
  pose proof (line_before_start a n Hs ltac:(lia)) as Hl.
  replace (List.length src - n)%nat with (S (List.length src - S n)) by lia.
  rewrite line_loop_step by lia; rewrite counts_line_inside by lia.
  rewrite (proj2 (Z.eqb_neq _ _)) by lia; cbn [andb].
  rewrite <- (IH (S n)) by lia; cbn [position_at last_text]; destruct (ends_line src n); done.
Qed.

(** The text of the line, after its start was found. *)
Lemma line_loop_text a b start n :
  line_text a b -> (a <= n <= b)%nat -> 0 <= start ->
  Script.line_loop (List.length src - n) src (line (position_at src a)) (Z.of_nat n)
    (line (position_at src a)) start (last_text n)
  = Script.line_loop (List.length src - b) src (line (position_at src a)) (Z.of_nat b)
      (line (position_at src a)) start (last_text b).
Proof.
  intros Ht Hn Hs; remember (b - n)%nat as d eqn:Ed; revert n Hn Ed; induction d as [| d IH]; intros n Hn Ed.
  { replace n with b by lia; done. }
  destruct Ht as (Hb & Ht & He); pose proof (Ht n ltac:(lia)) as Hnt.
  replace (List.length src - n)%nat with (S (List.length src - S n)) by lia.
  rewrite line_loop_step by lia.
  assert (counts_line n = false) as ->.
  { unfold counts_line; destruct (ends_line src n) eqn:E; [| done].
    apply ends_line_terminator in E; congruence. }
  rewrite (proj2 (Z.ltb_ge _ _)) by lia; rewrite andb_false_r.
  rewrite <- (IH (S n)) by lia; cbn [last_text]; rewrite Hnt; done.
Qed.

(** The end of the line. *)
Lemma line_loop_end rel b start last :
  b = List.length src \/ is_terminator b = true -> (b <= List.length src)%nat -> 0 <= start ->
  Script.line_loop (List.length src - b) src rel (Z.of_nat b) rel start last = Ok (start, last).
Proof.
  intros He Hb Hs; destruct (decide (b = List.length src)) as [-> | Hne]; [apply line_loop_exit; auto |].
  destruct He as [| Ht]; [done |].
  replace (List.length src - b)%nat with (S (List.length src - S b)) by lia.
  rewrite line_loop_step by lia; rewrite Ht, (proj2 (Z.ltb_ge _ _)) by lia; rewrite andb_false_r.
  destruct (counts_line b) eqn:Ec; [apply line_loop_exit; lia |].
  destruct (decide (S b = List.length src)) as [E | E]; [apply line_loop_exit; lia |].
  rewrite counts_line_inside in Ec by lia; unfold ends_line in Ec; unfold is_terminator in Ht.
  destruct (raw src b =? kLineFeed); [done |]; cbn [orb] in Ht, Ec; rewrite Ht in Ec; cbn [andb] in Ec.
  apply negb_false_iff, Z.eqb_eq in Ec.
  replace (List.length src - S b)%nat with (S (List.length src - S (S b))) by lia.
  rewrite line_loop_step by lia; unfold counts_line, is_terminator, ends_line; rewrite Ec.
  rewrite (proj2 (Z.ltb_ge _ _)), andb_false_r by lia; cbn; apply line_loop_exit; lia.
Qed.

Lemma line_loop_found a b :
  line_start a -> line_text a b -> (a < List.length src)%nat ->
  Script.line_loop (List.length src) src (line (position_at src a)) 0 1 (-1) (-1)
  = Ok (Z.of_nat a, last_text b).
Proof.
  intros Hs Ht Ha; pose proof (line_loop_before a 0 Hs Ha ltac:(lia)) as E; rewrite Nat.sub_0_r in E.
  change (Script.line_loop (List.length src) src (line (position_at src a)) (Z.of_nat 0)
    (line (position_at src 0)) (-1) (last_text 0)) with
    (Script.line_loop (List.length src) src (line (position_at src a)) 0 1 (-1) (-1)) in E; rewrite E.
  transitivity (Script.line_loop (List.length src - a) src (line (position_at src a)) (Z.of_nat a)
    (line (position_at src a)) (Z.of_nat a) (last_text a)).
  - replace (List.length src - a)%nat with (S (List.length src - S a)) by lia.
    rewrite !line_loop_step by lia; rewrite Z.eqb_refl, (proj2 (Z.ltb_ge (Z.of_nat a) 0)) by lia; done.
  - destruct Ht as (Hab & Hn & He).
    rewrite (line_loop_text a b) by (lia || (split; [done | split; done])).
    apply line_loop_end; done || lia.
Qed.

End Lines.

(** C39. [GetLine] of the number of a line that is not empty, counted as the scanner counts
    it and with the offset of the script added, returns the text of this line without its
    end, which is a line feed, a return, or both, or the end of the source. *)
Theorem GetLine_returns_line script a b :
  line_start (Script.source_ script) a -> line_text (Script.source_ script) a b -> (a < b)%nat ->
  Script.GetLine (line (position_at (Script.source_ script) a) + Script.line_offset_ script) script
  = Ok (Some (take (b - a) (drop a (Script.source_ script)))).
Proof.
  intros Hs Ht Hab; pose proof Ht as (Hb & _ & _); unfold Script.GetLine.
  rewrite Z.add_simpl_r, (line_loop_found _ a b) by (done || lia); cbn [obind].
  rewrite (last_text_line _ a b Ht Hab); unfold Script.SubString.
  replace (Z.of_nat b - 1 - Z.of_nat a + 1) with (Z.of_nat b - Z.of_nat a) by lia.
  rewrite !Z.geb_leb, !(proj2 (Z.leb_le 0 _)) by lia; cbn [obind].
  rewrite (proj2 (Z.eqb_neq (Z.of_nat b - Z.of_nat a) 0)), andb_false_r by lia.
  rewrite Z.gtb_ltb, (proj2 (Z.ltb_ge _ _)), (proj2 (Z.leb_le _ _)) by lia; cbn [obind].
  do 3 f_equal; [lia | f_equal; lia].
Qed.

(** C40. [GetLine] of an empty line that is not the first line fails: the last character that
    it finds belongs to an earlier line, and the length that it asks for is negative. *)
Theorem GetLine_fails_on_empty_line script a :
  line_start (Script.source_ script) a -> (0 < a < List.length (Script.source_ script))%nat ->
  is_terminator (Script.source_ script) a = true ->
  Script.GetLine (line (position_at (Script.source_ script) a) + Script.line_offset_ script) script
  = Err AssertionFailed.
Proof.
  intros Hs Ha He; unfold Script.GetLine.
  rewrite Z.add_simpl_r, (line_loop_found _ a a) by
    (done || lia || (split; [lia |]; split; [intros; lia | auto])); cbn [obind].
  rewrite Z.geb_leb, (proj2 (Z.leb_le _ _)) by lia; unfold Script.SubString.
  destruct a as [| i]; [lia |]; cbn [last_text].
  rewrite (ends_line_terminator _ i (Hs i eq_refl)).
  pose proof (last_text_lt (Script.source_ script) i).
  rewrite !Z.geb_leb, (proj2 (Z.leb_le 0 _)), (proj2 (Z.leb_gt 0 (_ + 1))) by lia; done.
Qed.

Lemma GetLine_returns_line_witness :
  Script.GetLine 12 (Script.mk (chars "ab" ++ [kReturn; kLineFeed] ++ chars "cd") None 10 0)
  = Ok (Some (chars "cd")).
Proof.
  apply (GetLine_returns_line (Script.mk (chars "ab" ++ [kReturn; kLineFeed] ++ chars "cd") None 10 0) 4 6).
  - intros i [= <-]; reflexivity.
  - split; [cbn; lia |]; split; [| left; reflexivity].
    intros n Hn; destruct (decide (n = 4%nat)) as [-> | ?]; [reflexivity |].
    replace n with 5%nat by lia; reflexivity.
  - lia.
Defined.

Lemma GetLine_fails_on_empty_line_witness :
  Script.GetLine 2 (Script.mk (chars "ab" ++ [kLineFeed; kLineFeed] ++ chars "cd") None 0 0)
  = Err AssertionFailed.
Proof.
  apply (GetLine_fails_on_empty_line
    (Script.mk (chars "ab" ++ [kLineFeed; kLineFeed] ++ chars "cd") None 0 0) 3).
  - intros i [= <-]; reflexivity.
  - cbn; lia.
  - reflexivity.
Defined.
