(* ===== verification/ScriptTables.v ===== *)
(** Scripts: the tokens of a line ([TokenRangeAtLine]) and the table of lines
    ([GenerateLineNumberArray]) agree with the positions that the scanner gave the tokens. *)
From stdpp Require Import base numbers list.
From Stdlib Require Import ZArith Lia Bool String.
From S2P Require Import Prelude Utils DataStream DataStreamProofs Token Scanner ScannerProofs.
From S2P Require Import ScannerSim ScannerStreams TokenStream TokenStreamProofs ScriptProofs.
Import Token.
#[local] Open Scope Z_scope.

(** * Counting lines *)
Lemma newlines_take_S l k t :
  l !! k = Some t -> newlines (take (S k) l) = newlines (take k l) + (if is_newline t then 1 else 0).
Proof.
  intros H; rewrite (take_S_r l k t H), newlines_app; unfold newlines; cbn; destruct (is_newline t); done.
Qed.

Lemma newlines_take_le l a b : (a <= b)%nat -> newlines (take a l) <= newlines (take b l).
Proof.
  intros H; replace (take a l) with (take a (take b l)) by (rewrite take_take; f_equal; lia).
  rewrite <- (take_drop a (take b l)) at 2; rewrite newlines_app; unfold newlines; lia.
Qed.

Lemma newlines_take_same l a b :
  (a <= b)%nat -> (forall k t, (a <= k < b)%nat -> l !! k = Some t -> is_newline t = false) ->
  newlines (take b l) = newlines (take a l).
Proof.
  induction 1 as [| b Hab IH]; intros H; [done |].
  rewrite <- IH by (intros k t Hk; apply H; lia); destruct (l !! b) as [t |] eqn:E.
  - rewrite (newlines_take_S l b t E), (H b t) by (done || lia); lia.
  - rewrite !take_ge by (apply lookup_ge_None in E; lia); done.
Qed.

(** The least index with a decidable property. *)
Lemma least_index (P : nat -> Prop) (P_dec : forall k, Decision (P k)) e :
  P e -> exists i, (i <= e)%nat /\ P i /\ forall k, (k < i)%nat -> ~ P k.
Proof.
  intros He; assert (H : forall n, (exists i, (i < n)%nat /\ P i /\ forall k, (k < i)%nat -> ~ P k)
                                   \/ forall k, (k < n)%nat -> ~ P k).
  { induction n as [| n [(i & Hi & H) | IH]]; [right; lia | left; exists i; split; [lia | done] |].
    destruct (decide (P n)) as [Hn | Hn]; [left; exists n; split; [lia | done] |].
    right; intros k Hk; destruct (decide (k = n)) as [-> |]; [done | apply IH; lia]. }
  destruct (H (S e)) as [(i & Hi & Hp) | Hno]; [exists i; split; [lia | done] |].
  destruct (Hno e); [lia | done].
Qed.

(** * The loops of [TokenRangeAtLine] *)
Section Loops.
Context (bits : Z) (Hbits : bits = 32 \/ bits = 64).
Context (ts : TokenStream.t) (tokens : list TokenDescriptor) (vs : list Z).
Context (m : CompressedTokenMap) (Hts : holds_tokens bits ts tokens vs m).
Abbreviation at_token i it := (it_at ts tokens vs Iterator.kAllTokens i it).

Lemma at_token_kind i it tok : at_token i it -> tokens !! i = Some tok -> Iterator.CurrentTokenKind it = Scanner.kind tok.
Proof. intros (_ & _ & _ & _ & tok' & Ht & -> & _) Hi; congruence. Qed.

Lemma at_token_pos i it : at_token i it -> Iterator.CurrentPosition it = token_pos vs i.
Proof. intros (_ & _ & -> & _); done. Qed.

Lemma at_token_in i it : at_token i it -> exists tok, tokens !! i = Some tok.
Proof. intros (_ & _ & _ & _ & tok & Ht & _); eauto. Qed.

(** A step of a loop that is not at its end. *)
Lemma step_token i j tok it :
  at_token j it -> (j < i)%nat -> tokens !! i = Some tok ->
  returns (Iterator.Advance bits it) (fun it' => at_token (S j) it').
Proof.
  intros Hit Hj Hi; destruct (token_before tokens i tok Hi (S j)) as [t' Ht']; [lia |].
  apply (next_token bits Hbits ts tokens vs m Hts j t'); done.
Qed.

Lemma to_line_ok i j tok fuel rel it :
  at_token j it -> (j <= i)%nat -> (i - j <= fuel)%nat -> tokens !! i = Some tok ->
  (forall k t', (k < i)%nat -> tokens !! k = Some t' ->
     Scanner.kind t' <> kEOS /\ 1 + newlines (take k tokens) < rel) ->
  (Scanner.kind tok = kEOS \/ rel <= 1 + newlines (take i tokens)) ->
  returns (Script.to_line bits fuel rel (1 + newlines (take j tokens)) it) (fun it' => at_token i it').
Proof.
  revert j it; induction fuel as [| fuel IH]; intros j it Hit Hj Hf Hi Hb He; cbn [Script.to_line];
    destruct (decide (j = i)) as [-> | Hne]; try lia.
  1, 2: rewrite (at_token_kind i it tok Hit Hi), (proj2 (andb_false_iff _ _)); [apply returns_Ok; done |];
        destruct He as [-> | He]; [right; done | left; apply Z.ltb_ge, He].
  destruct (at_token_in j it Hit) as [tj Htj]; destruct (Hb j tj ltac:(lia) Htj) as [Hk Hl].
  rewrite (at_token_kind j it tj Hit Htj), (proj2 (Z.ltb_lt _ _)), (proj2 (kind_eqb_neq _ _)) by done; cbn [andb negb].
  call (step_token i j tok it Hit ltac:(lia) Hi) as it' Hit'; fold (is_newline tj).
  replace (if is_newline tj then _ else _) with (1 + newlines (take (S j) tokens)).
  - apply IH; done || lia.
  - rewrite (newlines_take_S tokens j tj Htj); destruct (is_newline tj); lia.
Qed.

Lemma skip_newlines_ok i j tok fuel it :
  at_token j it -> (j <= i)%nat -> (i - j <= fuel)%nat -> tokens !! i = Some tok ->
  (forall k t', (j <= k < i)%nat -> tokens !! k = Some t' -> is_newline t' = true) -> is_newline tok = false ->
  returns (Script.skip_newlines bits fuel it) (fun it' => at_token i it').
Proof.
  revert j it; induction fuel as [| fuel IH]; intros j it Hit Hj Hf Hi Hb He; cbn [Script.skip_newlines];
    destruct (decide (j = i)) as [-> | Hne]; try lia.
  1, 2: rewrite (at_token_kind i it tok Hit Hi); fold (is_newline tok); rewrite He; apply returns_Ok; done.
  destruct (at_token_in j it Hit) as [tj Htj]; rewrite (at_token_kind j it tj Hit Htj).
  pose proof (Hb j tj ltac:(lia) Htj) as Hk; fold (is_newline tj); rewrite Hk.
  apply kind_eqb_eq in Hk; rewrite Hk; cbn [andb kind_eqb negb].
  call (step_token i j tok it Hit ltac:(lia) Hi) as it' Hit'.
  apply (IH (S j) it' Hit'); try done; try lia; intros k t' Hk'; apply Hb; lia.
Qed.

Definition real_token (t : TokenDescriptor) : bool := negb (is_newline t) && negb (kind_eqb (Scanner.kind t) kEOS).

Lemma to_line_end_ok i j tok fuel end_pos it :
  at_token j it -> (j <= i)%nat -> (i - j <= fuel)%nat -> tokens !! i = Some tok ->
  (forall k t', (j <= k < i)%nat -> tokens !! k = Some t' -> real_token t' = true) -> real_token tok = false ->
  Script.to_line_end bits fuel end_pos it = Ok (if decide (j = i) then end_pos else token_pos vs (i - 1)).
Proof.
  revert j end_pos it; induction fuel as [| fuel IH]; intros j end_pos it Hit Hj Hf Hi Hb He; cbn [Script.to_line_end];
    destruct (decide (j = i)) as [-> | Hne]; try lia.
  1, 2: rewrite (at_token_kind i it tok Hit Hi); unfold real_token, is_newline in He; rewrite He; done.
  destruct (at_token_in j it Hit) as [tj Htj]; rewrite (at_token_kind j it tj Hit Htj).
  pose proof (Hb j tj ltac:(lia) Htj) as Hk; unfold real_token, is_newline in Hk; rewrite Hk.
  destruct (step_token i j tok it Hit ltac:(lia) Hi) as (it' & -> & Hit'); cbn [obind].
  rewrite (IH (S j)) by (try done; try lia; intros k t' Hk'; apply Hb; lia).
  destruct (decide (S j = i)) as [<- |]; [| done]; rewrite (at_token_pos j it Hit); repeat f_equal; lia.
Qed.

End Loops.

(** * The tokens of a line *)
Definition first_token_from (stream : list TokenDescriptor) (rel : Z) (i : nat) (t : TokenDescriptor) : Prop :=
  stream !! i = Some t /\ real_token t = true /\ rel <= line (position t) /\
  forall k t', (k < i)%nat -> stream !! k = Some t' -> real_token t' = true -> line (position t') < rel.
Definition last_token_of (stream : list TokenDescriptor) (rel : Z) (i : nat) (t : TokenDescriptor) : Prop :=
  stream !! i = Some t /\ real_token t = true /\ line (position t) = rel /\
  forall k t', (i < k)%nat -> stream !! k = Some t' -> real_token t' = true -> rel < line (position t').

(** Positions of tokens, as the loops find them: none, the next one, or the first and the last
    one. *)
Inductive line_range (stream : list TokenDescriptor) (rel : Z) (pos : nat -> Z) : Z * Z -> Prop :=
| range_none :
    (forall k t, stream !! k = Some t -> real_token t = true -> line (position t) < rel) ->
    line_range stream rel pos (-1, -1)
| range_after i t :
    first_token_from stream rel i t -> line (position t) <> rel -> line_range stream rel pos (pos i, -1)
| range_on i j t t' :
    first_token_from stream rel i t -> last_token_of stream rel j t' -> line (position t) = rel ->
    line_range stream rel pos (pos i, pos j).

Section Range.
Context (bits : Z) (Hbits : bits = 32 \/ bits = 64).
Context (ts : TokenStream.t) (stream : list TokenDescriptor) (vs : list Z).
Context (m : CompressedTokenMap) (Hts : holds_tokens bits ts (stream ++ [end_token]) vs m).
Context (Hline : forall i t, stream !! i = Some t -> line (position t) = 1 + newlines (take i stream)).
Context (e : nat) (eos : TokenDescriptor) (He : stream !! e = Some eos) (Heos : Scanner.kind eos = kEOS).
Context (Hlen : List.length stream = S e).
Context (Hreal : forall k t, stream !! k = Some t -> (k < e)%nat -> Scanner.kind t <> kEOS).
Abbreviation tokens := (stream ++ [end_token]).
Abbreviation at_token i it := (it_at ts tokens vs Iterator.kAllTokens i it).
Abbreviation fuel := (List.length (TokenStream.stream_ ts)).

Lemma tokens_in k t : stream !! k = Some t -> tokens !! k = Some t.
Proof. apply lookup_app_l_Some. Qed.

Lemma stream_in k t : (k <= e)%nat -> tokens !! k = Some t -> stream !! k = Some t.
Proof. intros Hk; rewrite lookup_app_l by lia; done. Qed.

Lemma tokens_take k : (k <= e)%nat -> take k tokens = take k stream.
Proof. intros Hk; apply take_app_le; lia. Qed.

Lemma stream_at k : (k <= e)%nat -> exists t, stream !! k = Some t.
Proof. intros Hk; apply lookup_lt_is_Some_2; lia. Qed.

Lemma index_le k t : stream !! k = Some t -> (k <= e)%nat.
Proof. intros H; apply lookup_lt_Some in H; lia. Qed.

Lemma real_before k t : stream !! k = Some t -> real_token t = true -> (k < e)%nat.
Proof.
  intros Hk Hr; pose proof (index_le k t Hk); destruct (decide (k = e)) as [-> |]; [| lia].
  rewrite He in Hk; injection Hk as <-; unfold real_token in Hr; rewrite Heos, andb_false_r in Hr; done.
Qed.

(** A token that is not the end is a newline token or a real one. *)
Lemma newline_or_real k t : stream !! k = Some t -> (k < e)%nat -> real_token t = negb (is_newline t).
Proof.
  intros Hk Hl; unfold real_token; rewrite (proj2 (kind_eqb_neq _ _)) by (apply (Hreal k); done).
  apply andb_true_r.
Qed.

(** Where the search for the line stops. *)
Definition stops (rel : Z) (i : nat) : Prop :=
  (i <= e)%nat /\ (i = e \/ rel <= 1 + newlines (take i stream)) /\
  forall k, (k < i)%nat -> 1 + newlines (take k stream) < rel.

Lemma stops_exists rel : exists i, stops rel i.
Proof.
  destruct (least_index (fun i => i = e \/ rel <= 1 + newlines (take i stream)) _ e) as (i & Hi & Hp & Hk); [auto |].
  exists i; split; [done |]; split; [done |]; intros k Hk'; specialize (Hk k Hk').
  destruct (Z.lt_ge_cases (1 + newlines (take k stream)) rel); [done | exfalso; tauto].
Qed.

Lemma stops_line rel i :
  stops rel i -> 1 <= rel -> rel <= 1 + newlines (take i stream) -> 1 + newlines (take i stream) = rel.
Proof.
  intros (Hi & _ & Hk) Hr Hl; destruct i as [| i]; [change (newlines (take 0 stream)) with 0 in *; lia |].
  destruct (stream_at i) as [t Ht]; [lia |]; specialize (Hk i ltac:(lia)).
  rewrite (newlines_take_S stream i t Ht) in *; destruct (is_newline t); lia.
Qed.

Lemma before_stop rel i k t : stops rel i -> (k < i)%nat -> stream !! k = Some t -> line (position t) < rel.
Proof. intros (_ & _ & H) Hk Ht; rewrite (Hline k t Ht); apply H, Hk. Qed.

Lemma range_to_line rel i it0 :
  stops rel i -> at_token 0 it0 -> returns (Script.to_line bits fuel rel 1 it0) (fun it => at_token i it).
Proof.
  intros (Hi & Hstop & Hk) Hit; destruct (stream_at i Hi) as [t Ht].
  pose proof (tokens_fuel bits ts tokens vs m Hts i t (tokens_in i t Ht)).
  apply (to_line_ok bits Hbits ts tokens vs m Hts i 0 t fuel rel it0 Hit); try lia; [apply tokens_in, Ht | |].
  - intros k t' Hk' Ht'; rewrite tokens_take by lia; split; [| apply Hk, Hk'].
    apply (Hreal k); [apply stream_in; [lia | done] | lia].
  - rewrite tokens_take by done; destruct Hstop as [-> | ?]; [left; congruence | auto].
Qed.

(** The next token without a property. *)
Lemma next_index (p : TokenDescriptor -> bool) i :
  (i <= e)%nat -> p eos = false ->
  exists j tj, (i <= j <= e)%nat /\ stream !! j = Some tj /\ p tj = false /\
    forall k t, (i <= k < j)%nat -> stream !! k = Some t -> p t = true.
Proof.
  intros Hi Hp; set (q j := match stream !! j with Some t => p t | None => false end).
  destruct (least_index (fun j => (i <= j)%nat /\ q j = false) _ e) as (j & Hj & [Hij Hq] & Hk).
  { split; [done |]; unfold q; rewrite He; done. }
  destruct (stream_at j Hj) as [tj Htj]; exists j, tj; split; [lia |]; split; [done |].
  split; [unfold q in Hq; rewrite Htj in Hq; done |]; intros k t Hk' Ht.
  destruct (p t) eqn:E; [done |]; destruct (Hk k); [lia |]; split; [lia |]; unfold q; rewrite Ht; done.
Qed.

(** The next token of a later line. *)
Lemma range_skip rel i t it :
  stops rel i -> 1 <= rel -> at_token i it -> stream !! i = Some t -> is_newline t = true ->
  rel <= 1 + newlines (take i stream) ->
  returns (Script.skip_newlines bits fuel it)
    (fun it' => exists j t', at_token j it' /\ stream !! j = Some t' /\
      (Scanner.kind t' = kEOS /\ (forall k t, stream !! k = Some t -> real_token t = true -> line (position t) < rel)
       \/ Scanner.kind t' <> kEOS /\ first_token_from stream rel j t' /\ line (position t') <> rel)).
Proof.
  intros Hs Hr Hit Ht Hn Hrel; pose proof (stops_line rel i Hs Hr Hrel) as Hl; pose proof (index_le i t Ht).
  assert (Hlt : (i < e)%nat).
  { destruct (decide (i = e)) as [-> |]; [| lia]; rewrite He in Ht; injection Ht as <-.
    unfold is_newline in Hn; rewrite Heos in Hn; done. }
  destruct (next_index is_newline i ltac:(lia)) as (j & tj & [Hij Hj] & Htj & Hp & Hnl).
  { unfold is_newline; rewrite Heos; done. }
  assert (Hij' : (i < j)%nat) by (destruct (decide (i = j)) as [-> |]; [congruence | lia]).
  pose proof (tokens_fuel bits ts tokens vs m Hts j tj (tokens_in j tj Htj)).
  eapply returns_mono; [apply (skip_newlines_ok bits Hbits ts tokens vs m Hts j i tj fuel it Hit); try lia |].
  - apply tokens_in, Htj.
  - intros k t' Hk' Ht'; apply (Hnl k); [done |]; apply stream_in; [lia | done].
  - exact Hp.
  - intros it' Hit'; exists j, tj; split; [done |]; split; [done |].
    assert (Hbefore : forall k t', (k < j)%nat -> stream !! k = Some t' -> real_token t' = true -> line (position t') < rel).
    { intros k t' Hk' Ht' Hrt; destruct (decide (k < i)%nat); [apply (before_stop rel i k t'); done |].
      unfold real_token in Hrt; rewrite (Hnl k t') in Hrt by (done || lia); done. }
    destruct (decide (j = e)) as [-> | Hje].
    + rewrite He in Htj; injection Htj as <-; left; split; [done |]; intros k t' Ht' Hrt.
      apply (Hbefore k); try done; apply (real_before k t'); done.
    + assert (Hlater : rel < line (position tj)).
      { rewrite (Hline j tj Htj); pose proof (newlines_take_le stream (S i) j ltac:(lia)) as Hle.
        rewrite (newlines_take_S stream i t Ht), Hn in Hle; lia. }
      right; split; [apply (Hreal j); [done | lia] |]; split; [| lia].
      split; [done |]; split; [rewrite (newline_or_real j) by (done || lia); rewrite Hp; done |].
      split; [lia | done].
Qed.

(** The last token of the line. *)
Lemma range_end rel i t it pos :
  stops rel i -> 1 <= rel -> at_token i it -> stream !! i = Some t -> real_token t = true ->
  rel <= 1 + newlines (take i stream) ->
  first_token_from stream rel i t /\ line (position t) = rel /\
  exists j t', last_token_of stream rel j t' /\ Script.to_line_end bits fuel pos it = Ok (token_pos vs j).
Proof.
  intros Hs Hr Hit Ht Hrt Hrel; pose proof (stops_line rel i Hs Hr Hrel) as Hl.
  pose proof (real_before i t Ht Hrt) as Hlt.
  assert (Hpos : line (position t) = rel) by (rewrite (Hline i t Ht); done).
  split; [split; [done |]; split; [done |]; split; [lia |]; intros k t' Hk Ht' _; apply (before_stop rel i k); done |].
  split; [done |].
  destruct (next_index real_token i ltac:(lia)) as (j & tj & [Hij Hj] & Htj & Hp & Hall).
  { unfold real_token; rewrite Heos, andb_false_r; done. }
  assert (Hij' : (i < j)%nat) by (destruct (decide (i = j)) as [-> |]; [congruence | lia]).
  destruct (stream_at (j - 1)) as [t' Ht']; [lia |]; pose proof (Hall (j - 1)%nat t' ltac:(lia) Ht') as Hrt'.
  assert (Hsame : forall b, (i <= b <= j)%nat -> newlines (take b stream) = newlines (take i stream)).
  { intros b Hb; apply newlines_take_same; [lia |]; intros k tk Hk Htk.
    specialize (Hall k tk ltac:(lia) Htk); unfold real_token in Hall; destruct (is_newline tk); done. }
  exists (j - 1)%nat, t'; split.
  - split; [done |]; split; [done |]; split; [rewrite (Hline _ _ Ht'), Hsame; lia |].
    intros k tk Hk Htk Hrk; destruct (decide (k = j)) as [-> |]; [congruence |].
    pose proof (real_before k tk Htk Hrk) as Hke; rewrite (newline_or_real j tj Htj) in Hp by lia.
    apply negb_false_iff in Hp; rewrite (Hline k tk Htk).
    pose proof (newlines_take_le stream (S j) k ltac:(lia)) as Hle.
    rewrite (newlines_take_S stream j tj Htj), Hp, Hsame in Hle by lia; lia.
  - pose proof (tokens_fuel bits ts tokens vs m Hts j tj (tokens_in j tj Htj)).
    rewrite (to_line_end_ok bits Hbits ts tokens vs m Hts j i tj fuel pos it Hit); try lia.
    + rewrite decide_False by lia; done.
    + apply tokens_in, Htj.
    + intros k tk Hk Htk; apply (Hall k); [done |]; apply stream_in; [lia | done].
    + done.
Qed.

Lemma TokenRange_cases src line_offset col_offset line_number :
  0 < line_number ->
  returns (Script.TokenRangeAtLine bits line_number (Script.mk src (Some ts) line_offset col_offset))
    (line_range stream (Z.max 1 (line_number - line_offset)) (token_pos vs)).
Proof.
  intros Hln; unfold Script.TokenRangeAtLine; rewrite Z.gtb_ltb, (proj2 (Z.ltb_lt _ _)) by done.
  cbn [Script.tokens Script.tokens_ obind Script.line_offset_].
  destruct (token_before tokens _ _ (tokens_in e eos He) 0%nat) as [t0 Ht0]; [lia |].
  call (first_token bits Hbits ts tokens vs m Hts t0 Ht0) as it0 Hit0.
  replace (if line_number - line_offset <? 1 then 1 else line_number - line_offset)
    with (Z.max 1 (line_number - line_offset)) by (destruct (Z.ltb_spec (line_number - line_offset) 1); lia).
  set (rel := Z.max 1 (line_number - line_offset)); assert (Hr : 1 <= rel) by lia.
  destruct (stops_exists rel) as [i Hs]; call (range_to_line rel i it0 Hs Hit0) as it Hit.
  destruct (stream_at i (proj1 Hs)) as [t Ht]; rewrite (at_token_kind ts tokens vs i it t Hit (tokens_in i t Ht)).
  destruct (kind_eqb_spec (Scanner.kind t) kEOS) as [Ek | Ek].
  { apply returns_Ok, range_none; intros k t' Ht' Hrt; apply (before_stop rel i k t'); try done.
    destruct (decide (i = e)) as [-> |]; [apply (real_before k t'); done |].
    destruct (Hreal i t Ht); [pose proof (index_le i t Ht); lia | done]. }
  assert (Hi : rel <= 1 + newlines (take i stream)).
  { destruct Hs as (_ & [-> | ?] & _); [congruence | done]. }
  assert (Hie : (i < e)%nat).
  { pose proof (index_le i t Ht); destruct (decide (i = e)) as [-> |]; [congruence | lia]. }
  fold (is_newline t); destruct (is_newline t) eqn:En.
  - call (range_skip rel i t it Hs Hr Hit Ht En Hi) as it' (j & t' & Hit' & Ht' & Hcase).
    rewrite (at_token_kind ts tokens vs j it' t' Hit' (tokens_in j t' Ht')).
    destruct Hcase as [[-> Hno] | (Hk & Hf & Hne)]; [apply returns_Ok, range_none; done |].
    rewrite (proj2 (kind_eqb_neq _ _) Hk), (at_token_pos ts tokens vs j it' Hit'); cbn [negb].
    apply returns_Ok, (range_after _ _ _ j t'); done.
  - assert (Hrt : real_token t = true) by (rewrite (newline_or_real i) by done; rewrite En; done).
    destruct (range_end rel i t it (Iterator.CurrentPosition it) Hs Hr Hit Ht Hrt Hi) as (Hf & Hl & j & t' & Hlast & ->).
    cbn [obind]; rewrite (at_token_pos ts tokens vs i it Hit); apply returns_Ok, (range_on _ _ _ i j t t'); done.
Qed.
End Range.

(** The last token of a stream is its end. *)
Lemma GetStream_end src key memory stream :
  Forall (fun c => 0 <= c <= 0xFFFF) src -> GetStream src key memory = Ok stream ->
  exists e eos, stream !! e = Some eos /\ Scanner.kind eos = kEOS /\ List.length stream = S e.
Proof.
  intros Hu E; destruct (GetStream_woven src Hu key memory)
    as (s & nl & em & ts & _ & _ & Ho & Hne & _ & _ & _ & _ & Hnl & Hem & _ & _ & E').
  rewrite E in E'; injection E' as ->; destruct (weave_last nl em 1 ts Hne) as [init ->].
  exists (List.length init), (List.last ts nl); split; [apply list_lookup_middle; done |].
  split; [apply (ordered_last src 0); done | rewrite length_app, Nat.add_1_r; done].
Qed.

(** C22. [TokenRangeAtLine] finds the tokens of a line of a script: the positions of the first
    and of the last token on the line; if there is none, that of the first token on a later
    line; else nothing.  The lines are those that the scanner gave the tokens, and the
    positions are those of the compressed stream, which has no lines but newline tokens. *)
Theorem TokenRangeAtLine_ok bits alloc_ key memory scanner stream script line_number :
  bits = 32 \/ bits = 64 -> allocates alloc_ ->
  Forall (fun c => 0 <= c <= 0xFFFF) (Script.source_ script) -> Script.tokens_ script = None ->
  new_Scanner (Script.source_ script) memory = Ok scanner ->
  GetStream (Script.source_ script) key scanner = Ok stream ->
  22 * (Z.of_nat (List.length stream) + 1) + CompressedTokenStreamData.kInitialBufferSize < 2 ^ (bits - 1) ->
  0 < line_number ->
  exists script' ts pos,
    Script.Tokenize bits alloc_ key memory script = Ok script' /\ Script.tokens_ script' = Some ts /\
    (forall i t, stream !! i = Some t -> nth_position bits ts i = Ok (pos i)) /\
    returns (Script.TokenRangeAtLine bits line_number script')
      (line_range stream (Z.max 1 (line_number - Script.line_offset_ script)) pos).
Proof.
  intros Hb Ha Hu Hn Es Eg Hroom Hln.
  destruct (Tokenize_holds bits Hb alloc_ Ha key memory scanner stream script Hu Hn Es Eg Hroom)
    as (ts & vs & m & -> & Hts); do 2 eexists; exists (token_pos vs); split; [done |]; split; [done |]; split.
  - intros i t Hi; apply (nth_position_ok bits Hb ts _ vs m Hts i t), lookup_app_l_Some, Hi.
  - destruct (GetStream_end _ _ _ _ Hu Eg) as (e & eos & He & Hk & Hlen).
    apply (TokenRange_cases bits Hb ts stream vs m Hts) with (e := e) (eos := eos); try done.
    + intros i t Hi; apply (GetStream_lines _ _ _ _ _ _ Hu Eg Hi).
    + intros k t Ht Hke; apply (GetStream_eos _ _ _ _ _ _ Hu Eg Ht); lia.
Qed.

Lemma TokenRangeAtLine_ok_witness :
  exists script' ts pos,
    Script.Tokenize 32 grow [] blank (Script.mk sample None 10 4) = Ok script' /\
    Script.tokens_ script' = Some ts /\
    (forall i t, sample_stream !! i = Some t -> nth_position 32 ts i = Ok (pos i)) /\
    returns (Script.TokenRangeAtLine 32 12 script') (line_range sample_stream 2 pos).
Proof.
  exact (TokenRangeAtLine_ok 32 grow [] blank
    (mkScanner blank_token (mkToken kNEWLINE 0 (mkPosition 0 0) None)
       (mkToken kSTRING 0 (mkPosition 0 0) (Some (Symbol []))) 0 0 97 false 1 [] 0 false 0 (mkPosition 1 1))
    sample_stream (Script.mk sample None 10 4) 12
    (or_introl eq_refl) grow_allocates sample_units eq_refl eq_refl eq_refl eq_refl eq_refl).
Defined.

(** * The table of lines *)

Section Table.
Context (line_offset col_offset : Z) (pos : nat -> Z).

(** The table of the tokens of a stream from index [i] on, where [previous] is the line of the
    last token that was shown.  The inserted tokens and the end are not shown; any other token
    has its position and its column in the file, where the offset of the script counts on the
    first line.  The first token of a line has the separator and the line in the file before
    it. *)
Fixpoint line_table (i : nat) (previous : option Z) (stream : list TokenDescriptor)
    : list (option Z) :=
  match stream with
  | [] => []
  | t :: stream =>
      let at_line := line (position t) in
      if is_inserted t || kind_eqb (Scanner.kind t) kEOS then line_table (S i) previous stream
      else (if bool_decide (previous = Some at_line) then [] else [None; Some (line_offset + at_line)])
           ++ [Some (pos i); Some (column (position t) + if at_line =? 1 then col_offset else 0)]
           ++ line_table (S i) (Some at_line) stream
  end.

Lemma line_table_inserted i cur l stream :
  Forall (fun t => is_inserted t = true) l ->
  line_table i cur (l ++ stream) = line_table (i + List.length l) cur stream.
Proof.
  intros H; revert i; induction H as [| t l Ht _ IH]; intros i; cbn [app List.length line_table].
  - rewrite Nat.add_0_r; done.
  - rewrite Ht; cbn [orb]; rewrite IH; f_equal; lia.
Qed.

Lemma line_table_end i cur t : Scanner.kind t = kEOS -> line_table i cur [t] = [].
Proof. intros H; cbn; rewrite H, orb_true_r; done. Qed.
End Table.

Abbreviation script_table script := (line_table (Script.line_offset_ script) (Script.col_offset_ script)).

(** What the code adds for a token, whose lines are numbered from 1. *)
Lemma line_table_entry script pos i previous t stream :
  is_inserted t = false -> Scanner.kind t <> kEOS -> 1 <= line (position t) ->
  script_table script pos i previous (t :: stream)
  = Script.line_entry (default (-1) previous) (line (position t)) (pos i) (column (position t)) script
    ++ script_table script pos (S i) (Some (line (position t))) stream.
Proof.
  intros Hi Hk Hl; cbn [line_table]; rewrite Hi, (proj2 (kind_eqb_neq _ _) Hk); cbn [orb].
  unfold Script.line_entry; rewrite <- app_assoc, (Z.add_comm (Script.line_offset_ script)); f_equal.
  - case_bool_decide as E; [subst previous; cbn; rewrite Z.eqb_refl; done |].
    destruct (Z.eqb_spec (line (position t)) (default (-1) previous)) as [E' |]; [| done].
    exfalso; destruct previous; cbn in E'; [apply E; congruence | lia].
  - cbn [app]; do 2 f_equal; destruct (_ =? _); f_equal; lia.
Qed.

Section Lines.
Context (bits : Z) (Hbits : bits = 32 \/ bits = 64).
Context (ts : TokenStream.t) (tokens : list TokenDescriptor) (vs : list Z).
Context (m : CompressedTokenMap) (Hts : holds_tokens bits ts tokens vs m).
Context (script : Script.t).
Context (nl em : TokenDescriptor) (Hnl : Scanner.kind nl = kNEWLINE) (Hem : Scanner.kind em = kSTRING).
Context (Hcol : column (position em) = 0) (Hlit : literal em = Some (Symbol [])).
Abbreviation at_token i it := (it_at ts tokens vs Iterator.kAllTokens i it).
Abbreviation src := (Script.source_ script).
Abbreviation loop := (Script.line_number_loop bits).

(** Newline tokens are skipped. *)
Lemma loop_newlines d n tok fuel sk cur sc it :
  at_token n it -> tokens !! (n + d)%nat = Some tok -> (d <= fuel)%nat ->
  (forall k t, (n <= k < n + d)%nat -> tokens !! k = Some t -> is_newline t = true) ->
  exists it', at_token (n + d) it' /\
    loop fuel script sk cur sc it = loop (fuel - d) script (sk || negb (Nat.eqb d 0)) cur sc it'.
Proof.
  revert n fuel sk it; induction d as [| d IH]; intros n fuel sk it Hit Ht Hf Hk.
  { exists it; rewrite Nat.add_0_r, Nat.sub_0_r, orb_false_r; done. }
  destruct fuel as [| fuel]; [lia |]; destruct (at_token_in ts tokens vs n it Hit) as [t0 Ht0].
  pose proof (Hk n t0 ltac:(lia) Ht0) as Hn; apply kind_eqb_eq in Hn.
  destruct (step_token bits Hbits ts tokens vs m Hts (n + S d) n tok it Hit ltac:(lia) Ht) as (it1 & E1 & Hit1).
  destruct (IH (S n) fuel true it1 Hit1) as (it' & Hit' & E); [rewrite Nat.add_succ_comm; done | lia | |].
  { intros k t Hk'; apply Hk; lia. }
  exists it'; split; [rewrite <- Nat.add_succ_comm; done |]; cbn [Script.line_number_loop].
  rewrite (at_token_kind ts tokens vs n it t0 Hit Ht0), Hn, E1; cbn [kind_eqb value Z.eqb negb obind].
  rewrite orb_true_r; exact E.
Qed.

(** The empty string before an interpolation is skipped, and no other token. *)
Lemma skip_empty_ok (b : bool) i t t' sc it :
  at_token i it -> Scanner.kind t' = Scanner.kind t ->
  tokens !! (i + (if b then 1 else 0))%nat = Some t ->
  (if b then exists t0, tokens !! i = Some t0 /\ Scanner.kind t0 = kSTRING /\ literal t0 = Some (Symbol []) /\
               is_interpolation (Scanner.kind t) = true /\ sc = true else True) ->
  returns (Script.skip_empty_string bits sc (Scanner.kind t') it)
    (fun it' => at_token (i + (if b then 1 else 0)) it').
Proof.
  intros Hit Hk Ht Hb; unfold Script.skip_empty_string; rewrite Hk; destruct b.
  - destruct Hb as (t0 & Ht0 & Hk0 & Hl0 & Hint & ->).
    rewrite (at_token_kind ts tokens vs i it t0 Hit Ht0), Hk0, Hint, kind_eqb_refl; cbn [andb].
    assert (kind_eqb (Scanner.kind t) kSTRING = false) as ->.
    { apply kind_eqb_neq; intros E; rewrite E in Hint; done. }
    cbn [negb andb]; destruct Hit as (H1 & H2 & H3 & H4 & tok & Htok & H5 & H6).
    rewrite Ht0 in Htok; injection Htok as <-; rewrite H6; cbn [obind].
    unfold shown_literal, object_of; rewrite Hk0, Hl0; cbn.
    rewrite Nat.add_1_r in *; apply (next_token bits Hbits ts tokens vs m Hts i t); [| done].
    split; [done |]; split; [done |]; split; [done |]; split; [done |]; exists t0; done.
  - rewrite Nat.add_0_r in *; rewrite (at_token_kind ts tokens vs i it t Hit Ht), kind_eqb_refl.
    apply returns_Ok; done.
Qed.

(** The round of a token that was scanned. *)
Lemma loop_token (b : bool) fuel i t next sk cur sc it :
  at_token i it -> tokens !! (i + (if b then 1 else 0))%nat = Some t ->
  tokens !! S (i + (if b then 1 else 0)) = Some next ->
  (if b then exists t0, tokens !! i = Some t0 /\ Scanner.kind t0 = kSTRING /\ literal t0 = Some (Symbol []) /\
               is_interpolation (Scanner.kind t) = true /\ sk = true else True) ->
  Scanner.kind t <> kEOS -> Scanner.kind t <> kNEWLINE ->
  Scanner.kind (current_token_ sc) = Scanner.kind t -> position (current_token_ sc) = position t ->
  exists it', at_token (S (i + (if b then 1 else 0))) it' /\
    loop (S fuel) script sk cur sc it
    = (let* sc' := Scan src [] sc in
       let* info := loop fuel script false (line (position t)) sc' it' in
       Ok (Script.line_entry cur (line (position t)) (token_pos vs (i + (if b then 1 else 0)))
             (column (position t)) script ++ info)).
Proof.
  intros Hit Ht Hnext Hb He Hn Hk Hp.
  assert (Hkind : Iterator.CurrentTokenKind it <> kEOS /\ Iterator.CurrentTokenKind it <> kNEWLINE).
  { destruct b; [destruct Hb as (t0 & Ht0 & Hk0 & _) | rewrite Nat.add_0_r in Ht].
    - rewrite (at_token_kind ts tokens vs i it t0 Hit Ht0), Hk0; done.
    - rewrite (at_token_kind ts tokens vs i it t Hit Ht); done. }
  destruct (skip_empty_ok b i t (current_token_ sc) sk it Hit Hk Ht Hb) as (it1 & E1 & Hit1).
  destruct (next_token bits Hbits ts tokens vs m Hts _ next it1 Hit1 Hnext) as (it2 & E2 & Hit2).
  exists it2; split; [done |]; cbn [Script.line_number_loop].
  rewrite (proj2 (kind_eqb_neq _ _) (proj1 Hkind)), (proj2 (kind_eqb_neq _ _) (proj2 Hkind)); cbn [negb].
  rewrite E1; cbn [obind]; rewrite (at_token_kind ts tokens vs _ it1 t Hit1 Ht), Hk, kind_eqb_refl, E2, Hp; cbn [obind].
  rewrite (at_token_pos ts tokens vs _ it1 Hit1); done.
Qed.

(** The tokens of the block of a scanned token. *)
Lemma block_lookup prev t rest n k :
  drop n tokens = (inserted nl em prev t ++ t :: rest) -> 
  tokens !! (n + k)%nat = (inserted nl em prev t ++ t :: rest) !! k.
Proof. intros E; rewrite <- lookup_drop, E; done. Qed.

Lemma block_newlines prev t rest n :
  drop n tokens = (inserted nl em prev t ++ t :: rest) ->
  forall k t', (n <= k < n + Z.to_nat (line (position t) - prev))%nat -> tokens !! k = Some t' -> is_newline t' = true.
Proof.
  intros E k t' Hk Ht'; replace k with (n + (k - n))%nat in Ht' by lia; rewrite (block_lookup prev t _ n _ E) in Ht'.
  unfold inserted in Ht'; rewrite <- app_assoc, lookup_app_l in Ht' by (rewrite length_newline_tokens; lia).
  pose proof (newline_tokens_kind nl Hnl (Z.to_nat (line (position t) - prev)) (line (position t))) as Hall.
  unfold is_newline; rewrite (Forall_lookup_1 _ _ _ _ Hall Ht'); done.
Qed.

Lemma block_empty prev t rest n :
  drop n tokens = (inserted nl em prev t ++ t :: rest) -> inserts_empty prev t = true ->
  tokens !! (n + Z.to_nat (line (position t) - prev))%nat = Some (at_line (line (position t)) em).
Proof.
  intros E Hb; rewrite (block_lookup prev t _ n _ E); unfold inserted; rewrite Hb, <- app_assoc.
  rewrite lookup_app_r by (rewrite length_newline_tokens; lia); rewrite length_newline_tokens, Nat.sub_diag; done.
Qed.

Lemma length_block prev t :
  List.length (inserted nl em prev t)
  = (Z.to_nat (line (position t) - prev) + (if inserts_empty prev t then 1 else 0))%nat.
Proof. unfold inserted; rewrite length_app, length_newline_tokens; destruct (inserts_empty prev t); done. Qed.

Lemma line_number_loop_ok tks lo n prev cur fuel sc ts' it :
  drop n tokens = weave nl em prev tks ++ [end_token] -> ordered src lo tks ->
  Forall2 (same_token (fun _ => None)) tks (current_token_ sc :: ts') ->
  (ts' = [] \/ scan_run src [] sc ts') -> at_token n it ->
  (List.length (weave nl em prev tks) <= fuel)%nat ->
  loop fuel script false (default (-1) cur) sc it
  = Ok (script_table script (token_pos vs) n cur (weave nl em prev tks)).
Proof.
  revert lo n prev cur fuel sc ts' it; induction tks as [| t tks IH]; intros lo n prev cur fuel sc ts' it E Ho H2 Hr Hit Hf.
  { inversion H2. }
  inversion H2 as [| ? ? ? ? (Hk & _ & Hp & _) H2']; subst; clear H2.
  pose proof (ordered_not_inserted src lo (t :: tks) Ho) as Hni; inversion_clear Hni as [| ? ? Hti _].
  destruct Ho as (Hnt & He & lo' & _ & _ & Epos & _ & Ho).
  cbn [weave] in *; rewrite <- app_assoc in E; cbn [app] in E.
  rewrite length_app in Hf; cbn [List.length] in Hf.
  set (d := Z.to_nat (line (position t) - prev)) in *; set (b := inserts_empty prev t) in *.
  pose proof (length_block prev t) as Hlen; fold d b in Hlen.
  assert (Htok : tokens !! (n + (d + (if b then 1 else 0)))%nat = Some t).
  { rewrite (block_lookup prev t _ n _ E), <- Hlen; apply list_lookup_middle; done. }
  pose proof (block_newlines prev t _ n E) as Hd; fold d in Hd.
  destruct (token_before tokens _ _ Htok (n + d)%nat) as [td Htd]; [lia |].
  destruct (loop_newlines d n td fuel false (default (-1) cur) sc it Hit Htd ltac:(lia) Hd) as (it1 & Hit1 & ->); cbn [orb].
  rewrite line_table_inserted by (apply inserted_all; done); rewrite Hlen.
  destruct (decide (Scanner.kind t = kEOS)) as [Ek | Ek].
  { assert (b = false) as Hb by (unfold b, inserts_empty; rewrite Ek, andb_false_r; done).
    rewrite Hb, !Nat.add_0_r in *; rewrite (proj1 He Ek), (line_table_end _ _ _ _ _ t Ek).
    destruct (fuel - d)%nat; cbn [Script.line_number_loop];
      rewrite (at_token_kind ts tokens vs _ it1 t Hit1 Htok), Ek; done. }
  destruct Hr as [-> | Hr]; [inversion H2'; subst; tauto |].
  assert (exists sc', Scan src [] sc = Ok sc' /\ exists ts2, ts' = current_token_ sc' :: ts2 /\
            (ts2 = [] \/ scan_run src [] sc' ts2)) as (sc' & Es & ts2 & -> & Hr2)
    by (inversion Hr; subst; eauto 10).
  set (j := (n + d + (if b then 1 else 0))%nat); rewrite !Nat.add_assoc in *; fold j in Htok |- *.
  assert (Erest : drop (S j) tokens = weave nl em (line (position t)) tks ++ [end_token]).
  { replace (S j) with (n + (List.length (inserted nl em prev t) + 1))%nat by (unfold j; lia).
    rewrite <- drop_drop, E, <- drop_drop, drop_app_length; done. }
  assert (exists next, tokens !! S j = Some next) as [next Hnext].
  { destruct (tokens !! S j) eqn:En; [eauto |]; rewrite drop_ge in Erest by (apply lookup_ge_None in En; lia).
    destruct (weave nl em (line (position t)) tks); done. }
  replace (fuel - d)%nat with (S (fuel - d - 1)) by lia.
  destruct (loop_token b (fuel - d - 1) (n + d) t next (negb (Nat.eqb d 0)) (default (-1) cur) sc it1) as (it2 & Hit2 & ->); try done.
  { destruct b eqn:Eb; [| done]; pose proof Eb as [Hd0 Hint]%andb_true_iff.
    exists (at_line (line (position t)) em); split; [apply (block_empty prev t _ n E Eb) | done]. }
  rewrite Es; cbn [obind]; fold j.
  pose proof (IH lo' (S j) (line (position t)) (Some (line (position t))) (fuel - d - 1)%nat sc' ts2 it2)
    as Hrest.
  cbn [default from_option id] in Hrest; rewrite Hrest by (done || (rewrite Hlen in Hf; lia)).
  rewrite line_table_entry by (done || (rewrite Epos; apply position_bounds)); done.
Qed.
End Lines.

(** C21. [GenerateLineNumberArray] of a script does not fail: the scanner that reads the source
    again and the iterator over the compressed tokens, of which the inserted ones are skipped,
    stay at the same token.  The table has all tokens that were scanned, in their order and
    without the end: each with its position in the stream and its column, to which the column
    offset of the script is added on the first line; and before the first token of each line a
    separator and the line, to which the line offset is added.  The source consists of UTF-16
    units, allocation succeeds and the buffer of the compressed tokens stays within the word. *)
Theorem GenerateLineNumberArray_ok bits alloc_ key memory memory' scanner stream script :
  bits = 32 \/ bits = 64 -> allocates alloc_ ->
  Forall (fun c => 0 <= c <= 0xFFFF) (Script.source_ script) -> Script.tokens_ script = None ->
  new_Scanner (Script.source_ script) memory = Ok scanner ->
  GetStream (Script.source_ script) key scanner = Ok stream ->
  22 * (Z.of_nat (List.length stream) + 1) + CompressedTokenStreamData.kInitialBufferSize < 2 ^ (bits - 1) ->
  exists script' ts pos,
    Script.Tokenize bits alloc_ key memory script = Ok script' /\ Script.tokens_ script' = Some ts /\
    (forall i t, stream !! i = Some t -> nth_position bits ts i = Ok (pos i)) /\
    Script.GenerateLineNumberArray bits memory' script' = Ok (script_table script' pos 0 None stream).
Proof.
  intros Hb Ha Hu Hn Es Eg Hroom.
  destruct (Tokenize_holds bits Hb alloc_ Ha key memory scanner stream script Hu Hn Es Eg Hroom)
    as (ts & vs & m & -> & Hts); do 2 eexists; exists (token_pos vs); split; [done |]; split; [done |]; split.
  { intros i t Hi; apply (nth_position_ok bits Hb ts _ vs m Hts i t), lookup_app_l_Some, Hi. }
  set (script' := Script.mk _ _ _ _).
  destruct (GetStream_woven _ Hu key scanner)
    as (s & nl & em & tks & Er & Hr & Ho & Hne & _ & Hs & Hm & _ & Hnl & Hem & Hcol & Hlit & E').
  rewrite Eg in E'; injection E' as ->.
  unfold Script.GenerateLineNumberArray; cbn [Script.tokens Script.tokens_ script' obind].
  destruct tks as [| t tks]; [done |].
  destruct (token_before (weave nl em 1 (t :: tks) ++ [end_token]) (List.length (weave nl em 1 (t :: tks))) end_token
    ltac:(apply list_lookup_middle; done) 0%nat) as [t0 Ht0]; [lia |].
  destruct (first_token bits Hb ts _ vs m Hts t0 Ht0) as (it & -> & Hit); cbn [obind].
  destruct (Scanner_Reset_ok (Script.source_ script) memory') as (s' & Er' & _).
  unfold new_Scanner; cbn [Script.source_ script']; rewrite Er'; cbn [obind].
  pose proof (Reset_fresh (Script.source_ script) (fun _ => None) scanner memory') as Hf.
  rewrite Er, Er' in Hf; cbn in Hf.
  destruct (scan_run_sim (Script.source_ script) Hu key [] (fun _ => None) 0 s s' (t :: tks)) as (ts' & Hr' & H2); try done.
  assert (exists sc, Scan (Script.source_ script) [] s' = Ok sc /\ exists ts2, ts' = current_token_ sc :: ts2 /\
            (ts2 = [] \/ scan_run (Script.source_ script) [] sc ts2)) as (sc & -> & ts2 & -> & Hr2)
    by (inversion Hr'; subst; eauto 10).
  cbn [obind]; apply (line_number_loop_ok bits Hb ts _ vs m Hts script' nl em Hnl Hem Hcol Hlit (t :: tks) 0 0 1 None
    _ sc ts2 it); try done.
  pose proof (tokens_bytes bits ts _ vs m Hts) as Hbytes; rewrite length_app in Hbytes.
  rewrite (ht_stream _ _ _ _ _ Hts); lia.
Qed.

(** The table of [a(1);] on the first line and [b] on the second. *)
Example line_table_sample :
  line_table 10 4 Z.of_nat 0 None sample_stream
  = [None; Some 11; Some 0; Some 5; Some 1; Some 6; Some 2; Some 7; Some 3; Some 8; Some 4; Some 9;
     None; Some 12; Some 6; Some 3].
Proof. vm_compute; reflexivity. Qed.

Lemma GenerateLineNumberArray_ok_witness :
  exists script' ts pos,
    Script.Tokenize 32 grow [] blank (Script.mk sample None 10 4) = Ok script' /\
    Script.tokens_ script' = Some ts /\
    (forall i t, sample_stream !! i = Some t -> nth_position 32 ts i = Ok (pos i)) /\
    Script.GenerateLineNumberArray 32 blank script' = Ok (script_table script' pos 0 None sample_stream).
Proof.
  exact (GenerateLineNumberArray_ok 32 grow [] blank blank
    (mkScanner blank_token (mkToken kNEWLINE 0 (mkPosition 0 0) None)
       (mkToken kSTRING 0 (mkPosition 0 0) (Some (Symbol []))) 0 0 97 false 1 [] 0 false 0 (mkPosition 1 1))
    sample_stream (Script.mk sample None 10 4)
    (or_introl eq_refl) grow_allocates sample_units eq_refl eq_refl eq_refl eq_refl).
Defined.
