(* ===== verification/ScannerText.v ===== *)
(** Printing and scanning: a source that is printed from words, with white space after each
    of them, is scanned back to these words.

    A word is an operator, a name or a decimal integer; a name is a keyword or an
    identifier.  [recognizes] is the specification of the part of [Scan] that reads an
    operator. *)
From stdpp Require Import base numbers list.
From Stdlib Require Import ZArith Lia Bool String Ascii.
From S2P Require Import Prelude Utils Unicode Token Scanner ScannerProofs ScannerSim ScannerStreams.
Import Token.
#[local] Open Scope Z_scope.

(** * Words *)
Inductive Word : Type :=
| Operator (k : Kind)
| Name (text : list Z)
| Integer (digits : list Z).

(** The operators that the scanner reads. *)
Definition scanned_operators : list Kind :=
  [kLPAREN; kRPAREN; kLBRACK; kRBRACK; kLBRACE; kRBRACE; kARROW; kCOLON; kSEMICOLON; kPERIOD;
   kINCR; kDECR; kASSIGN; kASSIGN_OR; kASSIGN_XOR; kASSIGN_AND; kASSIGN_SHL; kASSIGN_SHR;
   kASSIGN_ADD; kASSIGN_SUB; kASSIGN_MUL; kASSIGN_TRUNCDIV; kASSIGN_DIV; kASSIGN_MOD; kCASCADE;
   kCOMMA; kOR; kAND; kBIT_OR; kBIT_XOR; kBIT_AND; kBIT_NOT; kSHL; kSHR; kADD; kSUB; kMUL; kDIV;
   kTRUNCDIV; kMOD; kNOT; kCONDITIONAL; kEQ; kNE; kLT; kGT; kLTE; kGTE; kINDEX; kASSIGN_INDEX;
   kAT; kHASH].

Definition word_text (w : Word) : list Z :=
  match w with
  | Operator k => chars (Str k)
  | Name text => text
  | Integer digits => digits
  end.

Definition word_ok (w : Word) : Prop :=
  match w with
  | Operator k => k ∈ scanned_operators
  | Name text => IsIdentStartChar (nth 0 text 0) = true /\ Forall (fun c => IsIdentChar c = true) text
  | Integer digits => digits <> [] /\ Forall (fun c => IsDecimalDigit c = true) digits
  end.

(** The token of a word. *)
Definition word_token (key : list Z) (w : Word) (t : TokenDescriptor) : Prop :=
  match w with
  | Operator k => kind t = k /\ literal t = None
  | Name text => identified key text t
  | Integer digits => kind t = kINTEGER /\ literal t = Some (Symbol digits)
  end.

(** White space, with the return that the scanner reads as a line feed. *)
Definition is_blank (c : Z) : bool := is_space c || (c =? kReturn).
Definition blanks (l : list Z) : Prop := Forall (fun c => is_blank c = true) l.

(** Words and the white space after them. *)
Fixpoint print_words (ws : list (Word * list Z)) : list Z :=
  match ws with
  | [] => []
  | (w, sep) :: ws => word_text w ++ sep ++ print_words ws
  end.
Definition words_ok (ws : list (Word * list Z)) : Prop :=
  Forall (fun p => word_ok (fst p) /\ snd p <> [] /\ blanks (snd p)) ws.

(** The tokens of the words printed from offset [n] on, and the end. *)
Fixpoint reads_back (key : list Z) (n : nat) (ws : list (Word * list Z)) (ts : list TokenDescriptor) : Prop :=
  match ws, ts with
  | [], [t] => kind t = kEOS /\ offset t = Z.of_nat n
  | (w, sep) :: ws, t :: ts =>
      word_token key w t /\ offset t = Z.of_nat n /\
      reads_back key (n + List.length (word_text w) + List.length sep) ws ts
  | _, _ => False
  end.

(** * Characters of the text *)
Section Text.
Variable src : list Z.

Lemma drop_cons n c l :
  drop n src = c :: l -> raw src n = c /\ (n < List.length src)%nat /\ drop (S n) src = l.
Proof.
  intros E; assert (Hn : src !! n = Some c) by (rewrite <- (Nat.add_0_r n), <- lookup_drop, E; done).
  split; [unfold raw; rewrite Hn; done |]; split; [apply lookup_lt_Some in Hn; done |].
  rewrite <- Nat.add_1_r, <- drop_drop, E; done.
Qed.

Lemma drop_text n text l : drop n src = text ++ l -> drop (n + List.length text) src = l.
Proof. intros E; rewrite <- drop_drop, E, drop_app_length; done. Qed.

(** A text that white space follows. *)
Definition ends (l : list Z) : Prop := exists c l', l = c :: l' /\ is_blank c = true.

Lemma blank_look n : is_blank (raw src n) = true -> is_space (look src n) = true.
Proof.
  unfold is_blank, look; destruct (_ =? kReturn); [done |]; rewrite orb_false_r; done.
Qed.

Lemma ends_space n l : drop n src = l -> ends l -> is_space (look src n) = true.
Proof. intros E (c & l' & -> & Hc); apply drop_cons in E as (E & _); apply blank_look; rewrite E; done. Qed.

(** A character that is no white space is one unit. *)
Lemma next_char n c l : drop n src = c :: l -> is_blank c = false -> look src n = c /\ next src n = S n.
Proof.
  intros E Hc; apply drop_cons in E as (E & Hn & _).
  unfold is_blank, is_space in Hc; assert (Hl : look src n = c).
  { unfold look; rewrite E; destruct (Z.eqb_spec c kReturn); [lia | done]. }
  split; [done |]; apply next_plain; [done |]; rewrite Hl; intros ->; done.
Qed.

(** ** States *)

(** What reading leaves alone. *)
Definition kept_fields (s : Scanner) : list ScanContext * Z * bool * Z * (TokenDescriptor * TokenDescriptor * Z) :=
  (mode s, extras s).
Definition moved (n : nat) (s s' : Scanner) : Prop :=
  stands src n s' /\ kept_fields s' = kept_fields s /\ token_start_ s' = token_start_ s /\
  current_token_ s' = current_token_ s.

Lemma moved_trans n n' s s1 s2 : moved n s s1 -> moved n' s1 s2 -> moved n' s s2.
Proof. intros (_ & ? & ? & ?) (? & ? & ? & ?); split; [done |]; split_and!; congruence. Qed.

Lemma ReadChar_moved n s : stands src n s -> returns (ReadChar src s) (moved (next src n) s).
Proof.
  intros H; rewrite (ReadChar_ok src n s H); apply returns_Ok; split; [apply stands_advance, H |].
  unfold advance; destruct (_ <? _)%nat; done.
Qed.

(** White space is skipped to the next character. *)
Lemma read_blanks fuel k n sep rest s :
  stands src n s -> drop n src = sep ++ rest -> blanks sep ->
  match rest with c :: _ => is_blank c = false | [] => True end ->
  (List.length src - n < fuel)%nat ->
  returns (read_while src is_space fuel k s) (fun r => moved (n + List.length sep) s (snd r)).
Proof.
  revert k n sep s; induction fuel as [| fuel IH]; intros k n sep s Hs E Hb Hr Hf; [lia |].
  cbn [read_while]; rewrite (stands_c0 _ _ _ Hs); destruct sep as [| c sep]; cbn [app] in E.
  - assert (is_space (look src n) = false) as ->.
    { destruct rest as [| c rest].
      - unfold look; rewrite raw_end by (rewrite <- (Nat.sub_0_r n); apply (f_equal List.length) in E;
          rewrite length_drop in E; cbn in E; lia); done.
      - destruct (next_char n c rest E Hr) as [-> _]; unfold is_blank in Hr.
        apply orb_false_iff in Hr as [-> _]; done. }
    apply returns_Ok; rewrite Nat.add_0_r; done.
  - inversion_clear Hb as [| ? ? Hc Hb']; destruct (drop_cons n c _ E) as (Er & Hn & E').
    rewrite blank_look by (rewrite Er; done).
    call (ReadChar_moved n s Hs) as s1 Hm; pose proof (next_lt src n Hn).
    assert (exists sep', drop (next src n) src = sep' ++ rest /\ blanks sep' /\
              (next src n + List.length sep' = n + List.length (c :: sep))%nat) as (sep' & E1 & Hb1 & Hl).
    { unfold next; rewrite (proj2 (Nat.ltb_lt _ _) Hn); destruct (pair_at src n) eqn:Ep.
      - unfold pair_at in Ep; apply andb_true_iff in Ep as [_ Ep]; apply Z.eqb_eq in Ep.
        destruct sep as [| c1 sep]; cbn [app] in E'.
        + destruct rest as [| c1 rest]; [rewrite raw_end in Ep; [done |] |].
          * apply (f_equal List.length) in E'; rewrite length_drop in E'; cbn in E'; lia.
          * apply drop_cons in E' as (<- & _ & _); rewrite Ep in Hr; done.
        + apply drop_cons in E' as (_ & _ & E'); inversion_clear Hb'.
          exists sep; split; [done |]; split; [done |]; cbn; lia.
      - exists sep; split; [done |]; split; [done |]; cbn; lia. }
    rewrite <- Hl; eapply returns_mono; [apply (IH (k + 1) (next src n) sep' s1); try done; [apply Hm | lia] |].
    intros r Hr'; apply (moved_trans (next src n) _ _ s1 _ Hm Hr').
Qed.

(** ** Operators *)

(** [m] reads [text] as an operator of kind [k], outside of strings. *)
Definition read_as (text : list Z) (k : Kind) (n : nat) (s s' : Scanner) : Prop :=
  stands src (n + List.length text) s' /\ kept_fields s' = kept_fields s /\
  token_start_ s' = token_start_ s /\
  current_token_ s' = mkToken k (offset (current_token_ s)) (position (current_token_ s)) (literal (current_token_ s)).
Definition recognizes (m : Scanner -> outcome Scanner) (text : list Z) (k : Kind) : Prop :=
  forall n l s, stands src n s -> drop n src = text ++ l -> ends l -> mode s = ([], 0, false, 0) ->
  returns (m s) (read_as text k n s).

Lemma mode_same s s' m : kept_fields s' = kept_fields s -> mode s = m -> mode s' = m.
Proof. unfold kept_fields; intros [= ? ? ? ? ? ? ?] <-; unfold mode; congruence. Qed.

Lemma Recognize_char k n c l s :
  stands src n s -> drop n src = c :: l -> is_blank c = false ->
  returns (Recognize src k s) (read_as [c] k n s).
Proof.
  intros Hs E Hc; unfold Recognize; destruct (next_char n c l E Hc) as [_ Hn].
  call (ReadChar_moved n s Hs) as s1 (H1 & H2 & H3 & H4); apply returns_Ok.
  rewrite Hn in H1; split; [cbn [List.length]; rewrite Nat.add_1_r; destruct H1; done |].
  split; [exact H2 |]; split; [exact H3 |]; cbn; rewrite H4; done.
Qed.

Lemma recognizes_one k c : is_blank c = false -> recognizes (Recognize src k) [c] k.
Proof. intros Hc n l s Hs E _ _; apply (Recognize_char k n c l s Hs E Hc). Qed.

Lemma recognize_next_none ops s :
  is_space (c0_ s) = true -> forallb (fun op => negb (is_space (fst op))) ops = true ->
  recognize_next ops s = Ok s.
Proof.
  intros Hs; induction ops as [| [c m] ops IH]; cbn [forallb fst]; [done |].
  intros [Hc Ho]%andb_true_iff; cbn [recognize_next].
  destruct (Z.eqb_spec (c0_ s) c) as [<- |]; [rewrite Hs in Hc; done | auto].
Qed.

Lemma recognizes_end k ops c :
  is_blank c = false -> forallb (fun op => negb (is_space (fst op))) ops = true ->
  recognizes (operator src k ops) [c] k.
Proof.
  intros Hc Ho n l s Hs E Hl _; unfold operator.
  call (Recognize_char k n c l s Hs E Hc) as s1 H1; rewrite recognize_next_none; [apply returns_Ok, H1 | | done].
  rewrite (stands_c0 _ _ _ (proj1 H1)); apply (ends_space _ l); [| done].
  apply drop_text, E.
Qed.

(** The entry of a character. *)
Fixpoint op_at (c : Z) (ops : list (Z * (Scanner -> outcome Scanner))) : option (Scanner -> outcome Scanner) :=
  match ops with
  | [] => None
  | (c', m) :: ops => if c =? c' then Some m else op_at c ops
  end.

Lemma recognize_next_at c ops m s : op_at c ops = Some m -> c0_ s = c -> recognize_next ops s = m s.
Proof.
  intros H Hc; induction ops as [| [c' m'] ops IH]; cbn in *; [done |]; rewrite Hc.
  destruct (c =? c'); [congruence | auto].
Qed.

Lemma recognizes_then k k' c c' text m0 m :
  is_blank c = false -> is_blank c' = false -> (forall s, c0_ s = c' -> m0 s = m s) ->
  recognizes m (c' :: text) k' ->
  recognizes (fun s => let* s := Recognize src k s in m0 s) (c :: c' :: text) k'.
Proof.
  intros Hc Hc' Ho Hm n l s Hs E Hl Hmode.
  call (Recognize_char k n c (c' :: text ++ l) s Hs E Hc) as s1 (H1 & H2 & H3 & H4).
  cbn [List.length] in H1; rewrite Nat.add_1_r in H1; apply drop_cons in E as (_ & _ & E).
  destruct (next_char (S n) c' (text ++ l) E Hc') as [Hlook _].
  rewrite Ho by (rewrite (stands_c0 _ _ _ H1); done).
  eapply returns_mono; [apply (Hm (S n) l s1); try done; eapply mode_same; done |].
  intros s2 (G1 & G2 & G3 & G4).
  split; [cbn [List.length] in *; replace (n + S (S (List.length text)))%nat with (S n + S (List.length text))%nat by lia; done |].
  split; [congruence |]; split; [congruence |]; rewrite G4, H4; done.
Qed.

Lemma recognizes_next k k' ops c c' text m :
  is_blank c = false -> is_blank c' = false -> op_at c' ops = Some m -> recognizes m (c' :: text) k' ->
  recognizes (operator src k ops) (c :: c' :: text) k'.
Proof.
  intros Hc Hc' Ho; apply recognizes_then; try done; intros s; apply recognize_next_at, Ho.
Qed.

(** An operator of the table is found by its first character. *)
Lemma list_find_op c ops m :
  op_at c ops = Some m ->
  exists i c', list_find (fun op => Is_true (fst op =? c)) ops = Some (i, (c', m)).
Proof.
  induction ops as [| [c' m'] ops IH]; cbn [op_at]; [done |]; rewrite Z.eqb_sym; cbn [list_find fst].
  destruct (c' =? c) eqn:Ec; intros H.
  - injection H as ->; rewrite decide_True by done; eauto.
  - rewrite decide_False by (intros []); destruct (IH H) as (i & c2 & ->); cbn; eauto.
Qed.

Variable key : list Z.

Lemma list_find_no_op c ops :
  op_at c ops = None -> list_find (fun op => Is_true (fst op =? c)) ops = None.
Proof.
  induction ops as [| [c' m'] ops IH]; cbn [op_at]; [done |]; rewrite Z.eqb_sym; cbn [list_find fst].
  destruct (c' =? c) eqn:Ec; intros H; [done |].
  rewrite decide_False by (intros []); rewrite (IH H); done.
Qed.

Lemma recognizes_switch c text k m :
  is_blank c = false -> c <> 0 -> op_at c (operators src) = Some m -> recognizes m (c :: text) k ->
  recognizes (scan_switch src key) (c :: text) k.
Proof.
  intros Hc H0 Ho Hm n l s Hs E Hl Hmode; unfold scan_switch.
  destruct (next_char n c (text ++ l) E Hc) as [Hlook _]; rewrite (stands_c0 _ _ _ Hs), Hlook.
  destruct (Z.eqb_spec c kNul); [done |].
  destruct (list_find_op c _ m Ho) as (i & c' & ->); apply (Hm n l s); done.
Qed.

(** The characters that are not in the table. *)
Lemma recognizes_special c text k (m : Scanner -> outcome Scanner) :
  is_blank c = false -> c <> 0 -> op_at c (operators src) = None -> recognizes m (c :: text) k ->
  (forall s, c0_ s = c ->
   (if c =? "."%code then scan_period src s
    else if c =? "{"%code then scan_left_brace src s
    else if c =? "}"%code then scan_right_brace src s
    else if c =? "r"%code then scan_r src key s
    else if (c =? kDoubleQuote) || (c =? "'"%code) then ScanLiteralString src false s
    else if c =? "#"%code then scan_hash src s
    else scan_default src key s) = m s) ->
  recognizes (scan_switch src key) (c :: text) k.
Proof.
  intros Hc H0 Ho Hm Heq n l s Hs E Hl Hmode; unfold scan_switch.
  destruct (next_char n c (text ++ l) E Hc) as [Hlook _].
  assert (Ec : c0_ s = c) by (rewrite (stands_c0 _ _ _ Hs), Hlook; done); rewrite Ec.
  destruct (Z.eqb_spec c kNul); [done |].
  rewrite (list_find_no_op c _ Ho), Heq by done; apply (Hm n l s); done.
Qed.

Lemma not_nested s : mode s = ([], 0, false, 0) -> IsNestedContext s = false.
Proof. unfold mode, IsNestedContext; intros [= -> _ _ _]; done. Qed.

Lemma recognizes_left_brace : recognizes (scan_left_brace src) ["{"%code] kLBRACE.
Proof.
  intros n l s Hs E Hl Hmode; unfold scan_left_brace.
  call (Recognize_char kLBRACE n _ l s Hs E eq_refl) as s1 H1; apply returns_Ok.
  rewrite (not_nested s1) by (eapply mode_same; [apply H1 | done]); exact H1.
Qed.

Lemma recognizes_right_brace : recognizes (scan_right_brace src) ["}"%code] kRBRACE.
Proof.
  intros n l s Hs E Hl Hmode; unfold scan_right_brace.
  call (Recognize_char kRBRACE n _ l s Hs E eq_refl) as s1 H1.
  rewrite (not_nested s1) by (eapply mode_same; [apply H1 | done]); apply returns_Ok, H1.
Qed.

(** White space is no character of another token. *)
Lemma space_not p c : is_space c = true -> p " "%code = false -> p kTab = false -> p kLineFeed = false -> p c = false.
Proof.
  intros H; assert (c = " "%code \/ c = kTab \/ c = kLineFeed) as [-> | [-> | ->]]; [| done..].
  unfold is_space in H; lia.
Qed.

Lemma recognizes_period : recognizes (scan_period src) ["."%code] kPERIOD.
Proof.
  intros n l s Hs E Hl Hmode; unfold scan_period.
  call (Recognize_char kPERIOD n _ l s Hs E eq_refl) as s1 H1.
  assert (Hsp : is_space (c0_ s1) = true).
  { rewrite (stands_c0 _ _ _ (proj1 H1)); apply (ends_space _ l); [apply drop_text, E | done]. }
  rewrite (space_not (fun c => c =? "."%code) _ Hsp), (space_not IsDecimalDigit _ Hsp) by done.
  apply returns_Ok, H1.
Qed.

Lemma recognizes_cascade : recognizes (scan_period src) ["."%code; "."%code] kCASCADE.
Proof.
  apply (recognizes_then kPERIOD kCASCADE "."%code "."%code [] _ (Recognize src kCASCADE) eq_refl eq_refl).
  - intros s ->; done.
  - apply recognizes_one; done.
Qed.

Lemma recognizes_hash : recognizes (scan_hash src) ["#"%code] kHASH.
Proof.
  intros n l s Hs E Hl Hmode; unfold scan_hash; rewrite (LookaheadChar_1 src n s Hs); cbn [obind].
  destruct Hl as (c & l' & -> & Hc); pose proof E as E1; apply drop_cons in E1 as (_ & _ & E1).
  apply drop_cons in E1 as (-> & _ & _).
  destruct (Z.eqb_spec c "!"%code) as [-> |]; [done |]; apply (Recognize_char kHASH n _ _ s Hs E); done.
Qed.

(** Every operator, by the rows of the table. *)
Ltac recognize :=
  first [apply recognizes_one; reflexivity
        | apply recognizes_end; reflexivity
        | eapply recognizes_next; [reflexivity.. | recognize]].

Lemma recognizes_operator k :
  k ∈ scanned_operators -> recognizes (scan_switch src key) (chars (Str k)) k.
Proof.
  intros Hk; unfold scanned_operators in Hk; cbn [chars Str].
  repeat (apply elem_of_cons in Hk as [-> | Hk];
    [first [eapply recognizes_switch; [reflexivity | discriminate | reflexivity | recognize]
           | eapply recognizes_special; [reflexivity | discriminate | reflexivity
               | first [apply recognizes_left_brace | apply recognizes_right_brace | apply recognizes_period
                       | apply recognizes_cascade | apply recognizes_hash] | reflexivity]] |]).
  apply elem_of_nil in Hk; done.
Qed.

(** ** Words *)
Lemma run_length_text p text l :
  Forall (fun c => p c = true) text -> match l with c :: _ => p c = false | [] => True end ->
  run_length p (text ++ l) = List.length text.
Proof.
  intros Ht Hl; induction Ht as [| c text Hc _ IH]; cbn [app run_length List.length].
  - destruct l as [| c l]; [done |]; cbn; rewrite Hl; done.
  - rewrite Hc, IH; done.
Qed.

Lemma slice_text n text l :
  drop n src = text ++ l -> slice src (Z.of_nat n) (Z.of_nat (List.length text)) = text.
Proof. intros E; unfold slice; rewrite !Nat2Z.id, E, take_app_length; done. Qed.

(** The state after a word. *)
Definition read_word (w : Word) (n : nat) (s s' : Scanner) : Prop :=
  stands src (n + List.length (word_text w)) s' /\ kept_fields s' = kept_fields s /\
  offset (current_token_ s') = offset (current_token_ s) /\ word_token key w (current_token_ s') /\
  kind (current_token_ s') <> kWHITESP /\ kind (current_token_ s') <> kEOS.

Lemma op_at_none c (p : Z -> bool) ops :
  forallb (fun op => negb (p (fst op))) ops = true -> p c = true -> op_at c ops = None.
Proof.
  intros Ho Hc; induction ops as [| [c' m] ops IH]; cbn in *; [done |].
  apply andb_true_iff in Ho as [Hp Ho]; destruct (Z.eqb_spec c c') as [<- |]; [rewrite Hc in Hp; done | auto].
Qed.

Lemma keyword_kinds : Forall (fun e => keyword_kind e <> kWHITESP /\ keyword_kind e <> kEOS) keywords_.
Proof. vm_compute; repeat (constructor; [split; discriminate |]); constructor. Qed.

Lemma identified_kind text t : identified key text t -> kind t <> kWHITESP /\ kind t <> kEOS.
Proof.
  intros [(e & He & _ & -> & _) | (_ & -> & _)]; [| done].
  pose proof keyword_kinds as H; eapply Forall_forall in H; [exact H | exact He].
Qed.

(** The first character of a name. *)
Lemma name_start c :
  IsIdentStartChar c = true -> is_blank c = false /\ c <> 0 /\ c <> "."%code /\ c <> "{"%code /\
    c <> "}"%code /\ c <> kDoubleQuote /\ c <> "'"%code /\ c <> "#"%code.
Proof.
  intros H; split_and!; [| intros ->; discriminate H..].
  unfold is_blank, is_space; apply orb_false_iff; split; [apply orb_false_iff; split; [apply orb_false_iff; split |] |];
    apply Z.eqb_neq; intros ->; discriminate H.
Qed.

Lemma scan_switch_name n c l s :
  stands src n s -> drop n src = c :: l -> IsIdentStartChar c = true ->
  raw src (S n) <> kDoubleQuote -> raw src (S n) <> "'"%code ->
  scan_switch src key s = ScanIdent src key s.
Proof.
  intros Hs E Hc Hq1 Hq2; destruct (name_start c Hc) as (Hb & H0 & H1 & H2 & H3 & H4 & H5 & H6).
  destruct (next_char n c l E Hb) as [Hlook _]; unfold scan_switch; rewrite (stands_c0 _ _ _ Hs), Hlook.
  destruct (Z.eqb_spec c kNul); [done |].
  rewrite (list_find_no_op c) by (apply (op_at_none c IsIdentStartChar); [reflexivity | done]).
  repeat (rewrite (proj2 (Z.eqb_neq c _)) by done); cbn [orb].
  destruct (Z.eqb_spec c "r"%code) as [-> | Hr].
  - unfold scan_r; rewrite (LookaheadChar_1 src n s Hs); cbn [obind].
    rewrite !(proj2 (Z.eqb_neq (raw src (S n)) _)) by done; done.
  - repeat (rewrite (proj2 (Z.eqb_neq c _)) by done); cbn [orb].
    unfold scan_default; rewrite (stands_c0 _ _ _ Hs), Hlook, Hc; done.
Qed.

Lemma no_quote_after n text l :
  drop n src = text ++ l -> ends l -> Forall (fun c => IsIdentChar c = true) text ->
  raw src n <> kDoubleQuote /\ raw src n <> "'"%code.
Proof.
  intros E (c & l' & -> & Hc) Ht; destruct Ht as [| c' text Hc' _]; cbn [app] in E;
    apply drop_cons in E as (-> & _ & _); split; intros ->; done.
Qed.

Lemma read_name text n l s :
  word_ok (Name text) -> good src n n s -> drop n src = text ++ l -> ends l ->
  returns (scan_switch src key s) (read_word (Name text) n s).
Proof.
  intros [H0 Ht] Hg E Hl; destruct text as [| c text]; [discriminate H0 |]; cbn [nth] in H0.
  pose proof E as E1; cbn [app] in E1; pose proof (good_stands _ _ _ _ Hg) as Hs.
  destruct (drop_cons _ _ _ E1) as (_ & _ & E2).
  destruct (no_quote_after (S n) text l E2 Hl) as [Hq1 Hq2]; [inversion_clear Ht; done |].
  rewrite (scan_switch_name n c (text ++ l) s Hs E1 H0 Hq1 Hq2); unfold ScanIdent.
  destruct (next_char n c _ E1 (proj1 (name_start c H0))) as [Hlook _].
  eapply returns_mono; [apply (ScanIdentChars_ok src key true n n s Hg); [rewrite Hlook; done | done] |].
  cbn zeta; intros s' (_ & Hg' & [Hm He] & Ho & _ & Hid).
  assert (Hr : run_length (ident_char true) (drop n src) = List.length (c :: text)).
  { rewrite E; apply run_length_text.
    - eapply Forall_impl; [exact Ht |]; unfold ident_char; intros x ->; done.
    - destruct Hl as (c' & l' & -> & Hc'); unfold ident_char, is_blank, is_space in *.
      destruct (IsIdentChar c') eqn:Ei; [| done]; exfalso.
      repeat (apply orb_true_iff in Hc' as [Hc' | Hc']); apply Z.eqb_eq in Hc'; subst c'; done. }
  rewrite Hr in Hg', Hid; rewrite (slice_text n (c :: text) l E) in Hid.
  split; [apply Hg' |]; split; [unfold kept_fields; congruence |]; split; [done |]; split; [done |].
  apply (identified_kind _ _ Hid).
Qed.

Lemma read_operator k n l s :
  word_ok (Operator k) -> stands src n s -> literal (current_token_ s) = None ->
  drop n src = chars (Str k) ++ l -> ends l -> mode s = ([], 0, false, 0) ->
  returns (scan_switch src key s) (read_word (Operator k) n s).
Proof.
  intros Hk Hs Hlit E Hl Hm; eapply returns_mono; [apply (recognizes_operator k Hk n l s); done |].
  intros s' (H1 & H2 & _ & H4); split; [done |]; split; [done |]; rewrite H4; cbn [offset kind literal].
  split; [done |]; split; [done |].
  assert (Hne : forallb (fun k => negb (kind_eqb k kWHITESP) && negb (kind_eqb k kEOS)) scanned_operators = true)
    by reflexivity.
  rewrite forallb_forall in Hne; specialize (Hne k (proj1 (list_elem_of_In _ _) Hk)).
  apply andb_true_iff in Hne as [A B]; rewrite !negb_true_iff in *.
  split; apply kind_eqb_neq; done.
Qed.

(** A run of characters is read to its end. *)
Lemma read_run p fuel k n text l s :
  plain p -> stands src n s -> drop n src = text ++ l -> Forall (fun c => p c = true /\ is_blank c = false) text ->
  p (look src (n + List.length text)) = false -> (List.length text < fuel)%nat ->
  returns (read_while src p fuel k s) (fun r => moved (n + List.length text) s (snd r)).
Proof.
  intros Hp; revert k n text s; induction fuel as [| fuel IH]; intros k n text s Hs E Ht Hl Hf; [lia |].
  cbn [read_while]; rewrite (stands_c0 _ _ _ Hs); destruct Ht as [| c text [Hc Hb] Ht]; cbn [app List.length] in *.
  - rewrite Nat.add_0_r in *; rewrite Hl; apply returns_Ok; done.
  - destruct (next_char n c _ E Hb) as [-> Hn]; rewrite Hc.
    call (ReadChar_moved n s Hs) as s1 Hm; rewrite Hn in Hm.
    rewrite Nat.add_succ_r in *; apply drop_cons in E as (_ & _ & E).
    eapply returns_mono; [apply (IH (k + 1) (S n) text s1 (proj1 Hm) E Ht); [done | lia] |].
    intros r Hr; apply (moved_trans (S n) _ _ s1 _ Hm Hr).
Qed.

Lemma skip_run p n text l s :
  plain p -> stands src n s -> drop n src = text ++ l -> Forall (fun c => p c = true /\ is_blank c = false) text ->
  p (look src (n + List.length text)) = false ->
  returns (skip_while src p s) (moved (n + List.length text) s).
Proof.
  intros Hp Hs E Ht Hl; unfold skip_while.
  assert (Hlen : (List.length text < char_fuel src)%nat).
  { apply (f_equal List.length) in E; rewrite length_drop, length_app in E; unfold char_fuel; lia. }
  call (read_run p (char_fuel src) 0 n text l s Hp Hs E Ht Hl Hlen) as [k s1] Hm; apply returns_Ok, Hm.
Qed.

Lemma digit_facts c :
  IsDecimalDigit c = true -> is_blank c = false /\ IsIdentStartChar c = false /\
  op_at c (operators src) = None /\ c <> 0 /\ c <> "."%code /\ c <> "{"%code /\ c <> "}"%code /\ c <> "r"%code /\
  c <> kDoubleQuote /\ c <> "'"%code /\ c <> "#"%code /\ c <> "x"%code /\ c <> "X"%code.
Proof.
  intros H; split_and!; [| | apply (op_at_none c IsDecimalDigit); [reflexivity | done] | intros ->; discriminate H..].
  - unfold is_blank, is_space; apply orb_false_iff; split; [apply orb_false_iff; split; [apply orb_false_iff; split |] |];
      apply Z.eqb_neq; intros ->; discriminate H.
  - unfold IsIdentStartChar, IsLetter, IsDecimalDigit in *; lia.
Qed.

Lemma scan_switch_digit n c l s :
  stands src n s -> drop n src = c :: l -> IsDecimalDigit c = true ->
  scan_switch src key s = ScanNumber src false s.
Proof.
  intros Hs E Hc; destruct (digit_facts c Hc) as (Hb & Hi & Hop & H0 & H1 & H2 & H3 & H4 & H5 & H6 & H7 & _).
  destruct (next_char n c l E Hb) as [Hlook _]; unfold scan_switch; rewrite (stands_c0 _ _ _ Hs), Hlook.
  destruct (Z.eqb_spec c kNul); [done |]; rewrite (list_find_no_op c) by done.
  repeat (rewrite (proj2 (Z.eqb_neq c _)) by done); cbn [orb].
  unfold scan_default; rewrite (stands_c0 _ _ _ Hs), Hlook, Hi, Hc; done.
Qed.

(** What follows the first digit. *)
Lemma after_digit n text l :
  drop n src = text ++ l -> ends l -> Forall (fun c => IsDecimalDigit c = true) text ->
  look src n <> "x"%code /\ look src n <> "X"%code.
Proof.
  intros E Hl Ht; destruct Ht as [| c text Hc _]; cbn [app] in E.
  - pose proof (ends_space n l E Hl) as Hsp; split; intros Hx; rewrite Hx in Hsp; done.
  - destruct (digit_facts c Hc) as (Hb & _ & _ & _ & _ & _ & _ & _ & _ & _ & _ & Hx & HX).
    destruct (next_char n c _ E Hb) as [-> _]; done.
Qed.

Lemma read_integer digits n l s :
  word_ok (Integer digits) -> stands src n s -> token_start_ s = Z.of_nat n ->
  drop n src = digits ++ l -> ends l ->
  returns (scan_switch src key s) (read_word (Integer digits) n s).
Proof.
  intros [Hne Hd] Hs Hst E Hl; destruct digits as [| c digits]; [done |].
  inversion_clear Hd as [| ? ? Hc Hd']; rewrite (scan_switch_digit n c (digits ++ l) s Hs E Hc).
  destruct (digit_facts c Hc) as (Hb & _); destruct (next_char n c _ E Hb) as [Hlook _].
  unfold ScanNumber; rewrite (stands_c0 _ _ _ Hs), Hlook, Hc; cbn [negb andb].
  call (Recognize_char kINTEGER n c _ s Hs E Hb) as s1 (H1 & H2 & H3 & H4); cbn [List.length] in H1.
  rewrite Nat.add_1_r in H1; destruct (drop_cons _ _ _ E) as (_ & _ & E1).
  destruct (after_digit (S n) digits l E1 Hl Hd') as [Hx HX].
  rewrite !(stands_c0 _ _ _ H1), !(proj2 (Z.eqb_neq (look src (S n)) _)) by done.
  cbn [orb]; rewrite andb_false_r; pose proof (ends_space _ _ (drop_text _ _ _ E1) Hl) as Hsp.
  call (skip_run IsDecimalDigit (S n) digits l s1) as s2 (G1 & G2 & G3 & G4); try done.
  { eapply Forall_impl; [exact Hd' |]; intros x Hxd; split; [done | apply digit_facts, Hxd]. }
  { apply (space_not IsDecimalDigit _ Hsp); done. }
  unfold scan_fraction, scan_exponent; rewrite (stands_c0 _ _ _ G1).
  rewrite (space_not (fun c => c =? "."%code) _ Hsp) by done; cbn [andb orb obind].
  rewrite (stands_c0 _ _ _ G1), (space_not (fun c => c =? "e"%code) _ Hsp),
    (space_not (fun c => c =? "E"%code) _ Hsp) by done; cbn [andb orb obind].
  unfold number_literal, kind_is; rewrite G4, H4; cbn [kind kind_eqb negb].
  apply returns_Ok; split; [cbn [word_text List.length]; rewrite Nat.add_succ_r; destruct G1; done |].
  split; [change (kept_fields s2 = kept_fields s); congruence |]; cbn; rewrite G4, H4; cbn.
  split; [done |]; split; [| done]; split; [done |]; do 2 f_equal.
  rewrite G3, H3, Hst, (stands_pos _ _ _ G1).
  replace (Z.of_nat (S n + List.length digits) - Z.of_nat n) with (Z.of_nat (List.length (c :: digits)))
    by (cbn [List.length]; lia).
  apply (slice_text n (c :: digits) l E).
Qed.

(** ** Scans *)
Lemma word_start w : word_ok w -> exists c text, word_text w = c :: text /\ is_blank c = false.
Proof.
  destruct w as [k | text | digits]; cbn [word_ok word_text].
  - intros Hk; assert (H : forallb (fun k => match chars (Str k) with c :: _ => negb (is_blank c) | [] => false end)
      scanned_operators = true) by reflexivity.
    rewrite forallb_forall in H; specialize (H k (proj1 (list_elem_of_In _ _) Hk)); cbn in H.
    destruct (chars (Str k)) as [| c text]; [done |]; exists c, text; split; [done | apply negb_true_iff, H].
  - intros [H0 _]; destruct text as [| c text]; [done |]; exists c, text; split; [done | apply name_start, H0].
  - intros [Hne Hd]; destruct Hd as [| c digits Hc _]; [done |]; exists c, digits; split; [done | apply digit_facts, Hc].
Qed.

Lemma read_a_word w n l s :
  word_ok w -> good src n n s -> literal (current_token_ s) = None -> token_start_ s = Z.of_nat n ->
  drop n src = word_text w ++ l -> ends l -> mode s = ([], 0, false, 0) ->
  returns (scan_switch src key s) (read_word w n s).
Proof.
  intros Hw Hg; intros; pose proof (good_stands _ _ _ _ Hg); destruct w as [k | text | digits].
  - apply (read_operator k n l); done.
  - apply (read_name text n l); done.
  - apply (read_integer digits n l); done.
Qed.

(** The state of a round after white space: at its start, with an empty token. *)
Definition at_start (n : nat) (s s1 : Scanner) : Prop :=
  good src n n s1 /\ kept_fields s1 = kept_fields s /\ token_start_ s1 = Z.of_nat n /\
  literal (current_token_ s1) = None /\ offset (current_token_ s1) = Z.of_nat n.

Lemma ConsumeWhiteSpace_blanks n sep rest s :
  stands src n s -> drop n src = sep ++ rest -> blanks sep ->
  match rest with c :: _ => is_blank c = false | [] => True end ->
  returns (ConsumeWhiteSpace src s) (moved (n + List.length sep) s).
Proof.
  intros Hs E Hb Hr; unfold ConsumeWhiteSpace, skip_while.
  call (read_blanks (char_fuel src) 0 n sep rest s Hs E Hb Hr) as [k s1] Hm; [unfold char_fuel; lia |].
  apply returns_Ok, Hm.
Qed.

Lemma not_scanning s : mode s = ([], 0, false, 0) -> IsScanningString s = false.
Proof. unfold mode, IsScanningString; intros [= _ -> _ _]; done. Qed.

Lemma scan_round_start n sep rest s P :
  stands src n s -> mode s = ([], 0, false, 0) -> drop n src = sep ++ rest -> blanks sep ->
  match rest with c :: _ => is_blank c = false | [] => True end ->
  (forall s1, at_start (n + List.length sep) s s1 -> returns (scan_switch src key s1) P) ->
  returns (scan_round src key s) P.
Proof.
  intros Hs Hm E Hb Hr H; unfold scan_round; rewrite (not_scanning s Hm); cbn [negb].
  call (ConsumeWhiteSpace_blanks n sep rest s Hs E Hb Hr) as s1 (G1 & G2 & _ & _); cbv zeta.
  set (s2 := set_current _ _); assert (E2 : kept_fields s2 = kept_fields s) by exact G2.
  rewrite (not_scanning s2) by (apply (mode_same s); done); apply H; split; [| split; [done |]].
  - pose proof (stands_le _ _ _ G1); split; [destruct G1; done | | done].
    exists (n + List.length sep)%nat; split; [lia |]; split; [apply (stands_pos _ _ _ G1) |].
    split; [apply (stands_position _ _ _ G1) | done].
  - split; [apply (stands_pos _ _ _ G1) |]; split; [done | apply (stands_pos _ _ _ G1)].
Qed.

Lemma Scan_round s P :
  returns (scan_round src key (set_newline_seen false s)) (fun s' => kind (current_token_ s') <> kWHITESP /\ P s') ->
  returns (Scan src key s) P.
Proof.
  intros H; unfold Scan, token_fuel, char_fuel; cbn [Nat.mul Nat.add scan_loop].
  call H as s1 [Hk HP]; unfold kind_is; rewrite (proj2 (kind_eqb_neq _ _)) by done; apply returns_Ok, HP.
Qed.

Lemma Scan_word w n sep l s :
  word_ok w -> stands src n s -> mode s = ([], 0, false, 0) ->
  drop n src = sep ++ word_text w ++ l -> blanks sep -> ends l ->
  returns (Scan src key s)
    (fun s' => stands src (n + List.length sep + List.length (word_text w)) s' /\ kept_fields s' = kept_fields s /\
               offset (current_token_ s') = Z.of_nat (n + List.length sep) /\
               word_token key w (current_token_ s') /\ kind (current_token_ s') <> kEOS).
Proof.
  intros Hw Hs Hm E Hb Hl; apply Scan_round; destruct (word_start w Hw) as (c & text & Et & Hc).
  apply (scan_round_start n sep (word_text w ++ l)); try done; [destruct Hs; done | rewrite Et; done |].
  intros s1 (G1 & G2 & G3 & G4 & G5).
  eapply returns_mono; [apply (read_a_word w (n + List.length sep) l s1); try done |].
  - apply drop_text, E.
  - eapply mode_same; [exact G2 | done].
  - intros s2 (F1 & F2 & F3 & F4 & F5 & F6); split; [done |]; split; [done |].
    split; [rewrite F2, G2; done |]; split; [rewrite F3, G5 |]; done.
Qed.

Lemma Scan_end n sep s :
  stands src n s -> mode s = ([], 0, false, 0) -> drop n src = sep -> blanks sep ->
  returns (Scan src key s)
    (fun s' => offset (current_token_ s') = Z.of_nat (n + List.length sep) /\ kind (current_token_ s') = kEOS).
Proof.
  intros Hs Hm E Hb; apply Scan_round.
  apply (scan_round_start n sep []); try done; [destruct Hs; done | rewrite app_nil_r; done |].
  intros s1 (G1 & G2 & G3 & G4 & G5); unfold scan_switch.
  rewrite (good_c0 _ _ _ _ G1); unfold look; rewrite raw_end; [apply returns_Ok; done |].
  apply (f_equal List.length) in E; rewrite length_drop in E; lia.
Qed.

Lemma scan_run_words ws n sep s ts :
  words_ok ws -> stands src n s -> mode s = ([], 0, false, 0) -> blanks sep ->
  drop n src = sep ++ print_words ws -> scan_run src key s ts ->
  reads_back key (n + List.length sep) ws ts.
Proof.
  intros Hw; revert n sep s ts; induction Hw as [| [w sep'] ws (Hok & Hne & Hb') _ IH];
    intros n sep s ts Hs Hm Hb E Hr; cbn [print_words fst snd] in *.
  - rewrite app_nil_r in E; destruct (Scan_end n sep s Hs Hm E Hb) as (s1 & E1 & Ho & Hk).
    inversion Hr as [? s2 E2 _ _ | ? s2 ? E2 _ Hk2 _]; subst; rewrite E1 in E2; injection E2 as <-; done.
  - assert (Hl : ends (sep' ++ print_words ws)).
    { destruct Hb' as [| c sep' Hc _]; [done |]; exists c; eexists; split; [reflexivity | done]. }
    destruct (Scan_word w n sep _ s Hok Hs Hm E Hb Hl) as (s1 & E1 & G1 & G2 & G3 & G4 & G5).
    inversion Hr as [? s2 E2 _ Hk2 | ? s2 ts' E2 _ Hk2 Hr2]; subst; rewrite E1 in E2; injection E2 as <-; [done |].
    cbn [reads_back]; split; [done |]; split; [done |].
    apply (IH _ sep' s1); try done; [eapply mode_same; done |].
    apply drop_text, drop_text in E; done.
Qed.
End Text.

(** ** The start *)
Lemma read_next_mode src pos seen p s s' : read_next src pos seen p s = Ok s' -> mode s' = mode s.
Proof.
  unfold read_next; intros H; destruct (LookaheadChar _ _ _) as [c |]; cbn in H; [| done].
  injection H as <-; done.
Qed.

Lemma ReadChar_mode src s s' : ReadChar src s = Ok s' -> mode s' = mode s.
Proof.
  unfold ReadChar; destruct (_ <? _); [| intros [= <-]; done].
  destruct (c0_ s =? kLineFeed); [| apply read_next_mode].
  destruct (CharAt src _) as [c |]; cbn [obind]; [| done].
  destruct (c =? kReturn); [| apply read_next_mode].
  destruct (LookaheadChar _ _ _) as [c1 |]; cbn [obind]; [apply read_next_mode | done].
Qed.

Lemma Reset_mode src memory s : Reset src memory = Ok s -> mode s = ([], 0, false, 0).
Proof. intros H; apply ReadChar_mode in H; rewrite H; done. Qed.

(** ** Units *)
Lemma words_units ws : words_ok ws -> Forall (fun c => 0 <= c <= 0xFFFF) (print_words ws).
Proof.
  induction 1 as [| [w sep] ws (Hw & _ & Hb) _ IH]; cbn [print_words fst snd] in *; [constructor |].
  apply Forall_app; split; [| apply Forall_app; split; [| done]].
  - destruct w as [k | text | digits]; cbn [word_ok word_text] in *.
    + assert (H : forallb (fun k => forallb (fun c => (0 <=? c) && (c <=? 0xFFFF)) (chars (Str k)))
        scanned_operators = true) by reflexivity.
      rewrite forallb_forall in H; specialize (H k (proj1 (list_elem_of_In _ _) Hw)); rewrite forallb_forall in H.
      apply Forall_forall; intros c Hc; specialize (H c (proj1 (list_elem_of_In _ _) Hc)); lia.
    + eapply Forall_impl; [apply Hw |]; cbn; unfold IsIdentChar, IsLetter, IsDecimalDigit; lia.
    + eapply Forall_impl; [apply Hw |]; cbn; unfold IsDecimalDigit; lia.
  - eapply Forall_impl; [exact Hb |]; cbn; unfold is_blank, is_space, kTab, kLineFeed, kReturn; lia.
Qed.

(** C8. A source that is printed from operators, names and decimal integers, with any white
    space after each of them, is scanned back to these words: the tokens that were scanned
    have the kinds, the literals and the offsets of the words, names are keywords if the table
    has them and identifiers else, and the last token is the end of the source. *)
Theorem print_scan_roundtrip ws key memory :
  words_ok ws ->
  returns (GetStream (print_words ws) key memory) (fun stream => reads_back key 0 ws (scanned_tokens stream)).
Proof.
  intros Hw; destruct (GetStream_woven (print_words ws) (words_units ws Hw) key memory)
    as (s & nl & em & ts & Er & Hr & Ho & Hne & _ & Hs & _ & _ & Hnl & Hem & Hcol & _ & E).
  exists (weave nl em 1 ts); split; [done |].
  rewrite scanned_weave by (try done; apply (ordered_not_inserted (print_words ws) 0), Ho).
  apply (scan_run_words (print_words ws) key ws 0 [] s ts Hw Hs); try done; [| constructor].
  apply (Reset_mode _ _ _ Er).
Qed.

Lemma print_scan_roundtrip_witness :
  returns (GetStream (chars "if" ++ [kReturn; kLineFeed] ++ chars "x1 >>= 42 ") [] blank)
    (fun stream => reads_back [] 0
       [(Name (chars "if"), [kReturn; kLineFeed]); (Name (chars "x1"), chars " ");
        (Operator kASSIGN_SHR, chars " "); (Integer (chars "42"), chars " ")] (scanned_tokens stream)).
Proof.
  apply (print_scan_roundtrip
    [(Name (chars "if"), [kReturn; kLineFeed]); (Name (chars "x1"), chars " ");
     (Operator kASSIGN_SHR, chars " "); (Integer (chars "42"), chars " ")] [] blank).
  repeat first [apply Forall_nil_2 | apply Forall_cons_2; [split; [cbn | split; [discriminate |]] |]
               | apply Forall_cons_2; [reflexivity |] | split; [reflexivity || discriminate |]].
  apply (list_elem_of_lookup_2 _ 17); reflexivity.
Defined.

(** A block comment keeps the character it leaves behind in a [char]: here U+012A, whose low
    byte is an asterisk, and a slash close the comment, and the source has no other token. *)
Example comment_closed_by_wide_character :
  GetStream (chars "/*" ++ [0x12A] ++ chars "/") [] blank = Ok [mkToken kEOS 4 (mkPosition 1 5) None].
Proof. vm_compute; reflexivity. Qed.
