(* ===== verification/BitVector.v ===== *)
(** The bit vectors of [vm/bit_vector.h] and [vm/bit_vector.cc]: sets of the numbers
    below a length, in words.  A vector is its length and its words; [data_length_] is
    the number of words. *)
From stdpp Require Import base numbers list.
From Stdlib Require Import ZArith Lia Bool.
From S2P Require Import Prelude Utils.
#[local] Open Scope Z_scope.

Module BitVector.
Section BitVector.
Context `{Word}.

Record t := mk { length_ : Z; data_ : list Z }.

Definition data_length_ (v : t) : Z := Z.of_nat (length (data_ v)).
Definition word (v : t) (i : Z) : Z := nth (Z.to_nat i) (data_ v) 0.
Definition set_word (i x : Z) (v : t) : t := mk (length_ v) (<[Z.to_nat i := x]> (data_ v)).

Definition SizeFor (length : Z) : Z := 1 + Z.quot (length - 1) kBitsPerWord.

Definition Clear (v : t) : t := mk (length_ v) (map (fun _ => 0) (data_ v)).
Definition SetAll (v : t) : t :=
  mk (length_ v) (map (fun _ => to_u kBitsPerWord (-1)) (data_ v)).

(** The constructor: the memory of the words is cleared. *)
Definition new (length : Z) : t := mk length (replicate (Z.to_nat (SizeFor length)) 0).

(** [static_cast<uword>(1) << (i % kBitsPerWord)]. *)
Definition bit_mask (i : Z) : Z := to_u kBitsPerWord (Z.shiftl 1 (Z.rem i kBitsPerWord)).
Definition in_bounds (i : Z) (v : t) : bool := (i >=? 0) && (i <? length_ v).

Definition Add (i : Z) (v : t) : outcome t :=
  ASSERT in_bounds i v ;;
  let w := Z.quot i kBitsPerWord in
  Ok (set_word w (Z.lor (word v w) (bit_mask i)) v).

Definition Remove (i : Z) (v : t) : outcome t :=
  ASSERT in_bounds i v ;;
  let w := Z.quot i kBitsPerWord in
  Ok (set_word w (Z.land (word v w) (to_u kBitsPerWord (Z.lnot (bit_mask i)))) v).

Definition Contains (i : Z) (v : t) : outcome bool :=
  ASSERT in_bounds i v ;;
  Ok (negb (Z.land (word v (Z.quot i kBitsPerWord)) (bit_mask i) =? 0)).

(** The loops over the words of two vectors, with the flag that tells whether a word
    changed. *)
Fixpoint merge (f : Z -> Z -> Z) (data from : list Z) : bool * list Z :=
  match data, from with
  | before :: data, y :: from =>
      let after := f before y in
      let '(changed, rest) := merge f data from in
      (negb (before =? after) || changed, after :: rest)
  | _, _ => (false, data)
  end.

Definition AddAll (from v : t) : outcome (bool * t) :=
  ASSERT data_length_ v =? data_length_ from ;;
  let '(changed, data) := merge Z.lor (data_ v) (data_ from) in
  Ok (changed, mk (length_ v) data).

Definition RemoveAll (from v : t) : outcome (bool * t) :=
  ASSERT data_length_ v =? data_length_ from ;;
  let '(changed, data) :=
    merge (fun x y => Z.land x (to_u kBitsPerWord (Z.lnot y))) (data_ v) (data_ from) in
  Ok (changed, mk (length_ v) data).

Fixpoint kill_and_add (data kill gen : list Z) : bool * list Z :=
  match data, kill, gen with
  | before :: data, k :: kill, g :: gen =>
      let after := Z.lor before (Z.land g (to_u kBitsPerWord (Z.lnot k))) in
      let '(changed, rest) := kill_and_add data kill gen in
      (negb (before =? after) || changed, after :: rest)
  | _, _, _ => (false, data)
  end.

Definition KillAndAdd (kill gen v : t) : outcome (bool * t) :=
  ASSERT data_length_ v =? data_length_ kill ;;
  ASSERT data_length_ v =? data_length_ gen ;;
  let '(changed, data) := kill_and_add (data_ v) (data_ kill) (data_ gen) in
  Ok (changed, mk (length_ v) data).

Definition CopyFrom (other v : t) : outcome t :=
  let* (_, v) := AddAll other (Clear v) in Ok v.

Definition Intersect (other v : t) : outcome t :=
  ASSERT length_ other =? length_ v ;;
  Ok (mk (length_ v) (snd (merge Z.land (data_ v) (data_ other)))).

Definition Equals (other v : t) : bool :=
  if negb (length_ v =? length_ other) then false
  else
    let n := data_length_ v - 1 in
    if forallb (fun i => word v i =? word other i) (seqZ 0 n) then
      let i := Z.max 0 n in
      if i <? data_length_ v then
        let shift_size := Z.land (kBitsPerWord - length_ v) (kBitsPerWord - 1) in
        let mask := Z.shiftr (to_u kBitsPerWord (-1)) shift_size in
        Z.land (word v i) mask =? Z.land (word other i) mask
      else true
    else false.

(** * The iterator *)
Record Iterator := mkIterator { bit_index_ : Z; word_index_ : Z; current_word_ : Z }.

Definition Done (v : t) (it : Iterator) : bool := word_index_ it >=? data_length_ v.

(** Skipping zero words, bytes and bits. *)
Fixpoint skip_words (fuel : nat) (v : t) (it : Iterator) : outcome Iterator :=
  match fuel with
  | O => Err OutOfFuel
  | S fuel =>
      let it := mkIterator (bit_index_ it) (word_index_ it + 1) (current_word_ it) in
      if Done v it then Ok it
      else
        let it := mkIterator (bit_index_ it) (word_index_ it) (word v (word_index_ it)) in
        if current_word_ it =? 0 then skip_words fuel v it else Ok it
  end.

Fixpoint skip_zeros (fuel : nat) (mask shift : Z) (it : Iterator) : outcome Iterator :=
  match fuel with
  | O => Err OutOfFuel
  | S fuel =>
      if Z.land (current_word_ it) mask =? 0 then
        skip_zeros fuel mask shift
          (mkIterator (bit_index_ it + shift) (word_index_ it) (Z.shiftr (current_word_ it) shift))
      else Ok it
  end.

(** The next bit of the current word, which is not zero. *)
Definition next_bit (it : Iterator) : outcome Iterator :=
  let* it := skip_zeros (Z.to_nat kBitsPerWord) 0xff 8 it in
  let* it := skip_zeros (Z.to_nat kBitsPerWord) 0x1 1 it in
  Ok (mkIterator (bit_index_ it) (word_index_ it) (Z.shiftr (current_word_ it) 1)).

Definition Advance (v : t) (it : Iterator) : outcome Iterator :=
  let it := mkIterator (bit_index_ it + 1) (word_index_ it) (current_word_ it) in
  if current_word_ it =? 0 then
    let* it := skip_words (S (length (data_ v))) v it in
    if Done v it then Ok it
    else next_bit (mkIterator (word_index_ it * kBitsPerWord) (word_index_ it) (current_word_ it))
  else next_bit it.

Definition new_Iterator (v : t) : outcome Iterator :=
  ASSERT data_length_ v >? 0 ;; Advance v (mkIterator (-1) 0 (word v 0)).

Definition Current (v : t) (it : Iterator) : outcome Z :=
  ASSERT negb (Done v it) ;; Ok (bit_index_ it).

(** [for (BitVector::Iterator it(v); !it.Done(); it.Advance())]: the elements in the
    order the loop sees them. *)
Fixpoint iterate (fuel : nat) (v : t) (it : Iterator) : outcome (list Z) :=
  match fuel with
  | O => Err OutOfFuel
  | S fuel =>
      if Done v it then Ok []
      else
        let* i := Current v it in
        let* it := Advance v it in
        let* rest := iterate fuel v it in
        Ok (i :: rest)
  end.

Definition elements (v : t) : outcome (list Z) :=
  let* it := new_Iterator v in
  iterate (S (Z.to_nat (kBitsPerWord * data_length_ v))) v it.

End BitVector.
End BitVector.
