(* ===== verification/BitVectorProofs.v ===== *)
(** The bit vectors of [vm/bit_vector.h] implement sets of numbers: [member] tells the
    elements, the operations of two vectors report whether they changed anything, and the
    iterator visits the elements in order. *)
From stdpp Require Import base numbers list.
From Stdlib Require Import ZArith Lia Bool.
From S2P Require Import Prelude Utils BitSet BitSetProofs BitVector.
Import BitVector.
#[local] Open Scope Z_scope.

Section Vectors.
Context `{Word}.

(** The bits of a vector; [SetAll] also sets those above its length. *)
Definition member (v : t) (i : Z) : bool := bit (data_ v) i.

Record vec_ok (v : t) : Prop := mk_vec_ok {
  vo_length : 0 <= length_ v;
  vo_size : data_length_ v = SizeFor (length_ v);
  vo_words : forall w, in_u kBitsPerWord (BitSet.word (data_ v) w)
}.

Definition bit_count (v : t) : Z := kBitsPerWord * data_length_ v.

Lemma size_for n : 0 <= n -> 0 < SizeFor n /\ n <= kBitsPerWord * SizeFor n.
Proof.
  intros Hn; unfold SizeFor; pose proof word_pos; destruct (decide (n = 0)) as [-> |].
  - destruct word_width as [-> | ->]; split; reflexivity || discriminate.
  - rewrite Z.quot_div_nonneg by lia; pose proof (Z.div_pos (n - 1) kBitsPerWord).
    pose proof (Z.div_mod (n - 1) kBitsPerWord); pose proof (word_mod (n - 1)); nia.
Qed.

Lemma length_bits v : vec_ok v -> length_ v <= bit_count v.
Proof. intros [Hl Hs _]; unfold bit_count; rewrite Hs; apply size_for; done. Qed.

Lemma word_at v i : word v i = BitSet.word (data_ v) i.
Proof. done. Qed.

Lemma bounds_in v i : 0 <= i < length_ v -> in_bounds i v = true.
Proof. intros; unfold in_bounds; apply andb_true_iff; split; [apply Z.geb_le | apply Z.ltb_lt]; lia. Qed.

Lemma bit_mask_same i : 0 <= i -> bit_mask i = BitSet.bit_mask i.
Proof.
  intros Hi; unfold bit_mask, BitSet.bit_mask; rewrite land_word, Z.rem_mod_nonneg; [done | done |].
  apply word_pos.
Qed.

Lemma quot_word i : 0 <= i -> Z.quot i kBitsPerWord = i / kBitsPerWord.
Proof. intros; apply Z.quot_div_nonneg; [done | apply word_pos]. Qed.

(** Words of the data. *)
Lemma word_out data w : Z.of_nat (length data) <= w -> BitSet.word data w = 0.
Proof. intros Hw; unfold BitSet.word; apply nth_overflow; lia. Qed.

Lemma member_out v i : bit_count v <= i -> member v i = false.
Proof.
  intros Hi; unfold member, bit; rewrite word_out; [apply Z.bits_0 |].
  apply Z.div_le_lower_bound; [apply word_pos | done].
Qed.

Lemma word_replicate n x w :
  BitSet.word (replicate n x) w = if decide (Z.to_nat w < n)%nat then x else 0.
Proof.
  unfold BitSet.word; rewrite nth_lookup; destruct (decide _).
  - rewrite lookup_replicate_2 by done; done.
  - rewrite lookup_ge_None_2 by (rewrite length_replicate; lia); done.
Qed.

Lemma map_const {A B} (x : B) (l : list A) : map (fun _ => x) l = replicate (length l) x.
Proof. induction l as [| y l IH]; cbn; [done | rewrite IH; done]. Qed.

Lemma zero_word : in_u kBitsPerWord 0.
Proof. pose proof word_pos; split; [lia |]; apply Z.pow_pos_nonneg; lia. Qed.

Lemma all_ones j : 0 <= j < kBitsPerWord -> Z.testbit (to_u kBitsPerWord (-1)) j = true.
Proof.
  intros Hj; rewrite testbit_to_u by lia; rewrite (proj2 (Z.ltb_lt j _)) by lia; apply Z.bits_m1; lia.
Qed.

Lemma new_ok n : 0 <= n -> vec_ok (new n) /\ forall i, member (new n) i = false.
Proof.
  intros Hn; destruct (size_for n Hn) as [Hs _]; split.
  - constructor; cbn [new length_]; [done | |].
    + unfold data_length_; cbn [data_ length_ new]; rewrite length_replicate; lia.
    + intros w; cbn [data_ length_ new]; rewrite word_replicate; case_match; apply zero_word.
  - intros i; unfold member, bit; cbn [data_ length_ new]; rewrite word_replicate; case_match; apply Z.bits_0.
Qed.

Lemma Clear_ok v : vec_ok v -> vec_ok (Clear v) /\ length_ (Clear v) = length_ v /\
  forall i, member (Clear v) i = false.
Proof.
  intros [Hl Hs Hw]; unfold Clear; rewrite map_const; split_and!; [constructor | |]; cbn [data_ length_]; try done.
  - unfold data_length_ in *; cbn [data_ length_ new]; rewrite length_replicate; done.
  - intros w; rewrite word_replicate; case_match; apply zero_word.
  - intros i; unfold member, bit; cbn [data_ length_ new]; rewrite word_replicate; case_match; apply Z.bits_0.
Qed.

Lemma SetAll_ok v : vec_ok v -> vec_ok (SetAll v) /\ length_ (SetAll v) = length_ v /\
  forall i, 0 <= i < bit_count v -> member (SetAll v) i = true.
Proof.
  intros [Hl Hs Hw]; pose proof word_pos; unfold SetAll; rewrite map_const.
  split_and!; [constructor | |]; cbn [data_ length_]; try done.
  - unfold data_length_ in *; cbn [data_ length_ new]; rewrite length_replicate; done.
  - intros w; rewrite word_replicate; case_match; [apply to_u_range; lia | apply zero_word].
  - intros i Hi; unfold member, bit; cbn [data_ length_ new]; rewrite word_replicate.
    assert (0 <= i / kBitsPerWord < data_length_ v).
    { split; [apply Z.div_pos; lia | apply Z.div_lt_upper_bound; [lia | apply Hi]]. }
    unfold data_length_ in *; rewrite decide_True by lia; apply all_ones, word_mod.
Qed.

(** * Single elements *)
Lemma test_mask d i :
  negb (Z.land d (BitSet.bit_mask i) =? 0) = Z.testbit d (i mod kBitsPerWord).
Proof.
  pose proof (word_mod i); destruct (Z.testbit d (i mod kBitsPerWord)) eqn:E.
  - apply negb_true_iff, Z.eqb_neq; intros E0.
    apply (f_equal (fun x => Z.testbit x (i mod kBitsPerWord))) in E0.
    rewrite Z.land_spec, bit_mask_spec, E, Z.eqb_refl, Z.bits_0 in E0 by lia; done.
  - apply negb_false_iff, Z.eqb_eq, Z.bits_inj'; intros j Hj.
    rewrite Z.land_spec, bit_mask_spec, Z.bits_0 by lia.
    destruct (Z.eqb_spec j (i mod kBitsPerWord)) as [-> |]; [rewrite E; done | apply andb_false_r].
Qed.

Lemma Contains_ok v i : 0 <= i < length_ v -> Contains i v = Ok (member v i).
Proof.
  intros Hi; unfold Contains; rewrite bounds_in, quot_word, bit_mask_same by lia; f_equal.
  apply test_mask.
Qed.

Lemma vector_update_ok v i x b :
  vec_ok v -> 0 <= i < length_ v -> in_u kBitsPerWord x ->
  (forall k, 0 <= k < kBitsPerWord ->
     Z.testbit x k = if k =? i mod kBitsPerWord then b
                     else Z.testbit (BitSet.word (data_ v) (i / kBitsPerWord)) k) ->
  let v' := set_word (i / kBitsPerWord) x v in
  vec_ok v' /\ length_ v' = length_ v /\
  forall j, 0 <= j -> member v' j = if j =? i then b else member v j.
Proof.
  intros Hv Hi Hx Hb; pose proof (length_bits v Hv) as Hbits; destruct Hv as [Hl Hs Hw]; cbn zeta.
  assert (i / kBitsPerWord < Z.of_nat (length (data_ v))).
  { apply Z.div_lt_upper_bound; [apply word_pos |]; unfold bit_count, data_length_ in Hbits; lia. }
  destruct (replace_bits (data_ v) i x b) as [Hw' Hm]; try done; [lia |].
  split_and!; [constructor | done | exact Hm]; cbn [data_ length_]; try done.
  unfold data_length_, set_word in *; cbn [data_ length_]; rewrite length_insert; done.
Qed.

Lemma vector_Add_ok v i :
  vec_ok v -> 0 <= i < length_ v ->
  returns (Add i v) (fun v' => vec_ok v' /\ length_ v' = length_ v /\
    forall j, 0 <= j -> member v' j = (j =? i) || member v j).
Proof.
  intros Hv Hi; unfold Add; rewrite bounds_in, quot_word, bit_mask_same by lia; apply returns_Ok.
  pose proof word_pos; pose proof (vo_words v Hv (i / kBitsPerWord)) as Hw; pose proof (word_mod i).
  destruct (vector_update_ok v i (Z.lor (word v (i / kBitsPerWord)) (BitSet.bit_mask i)) true) as (? & ? & Hm); try done.
  - apply in_u_of_high; [lia |]; intros k Hk; rewrite Z.lor_spec, bit_mask_spec by lia.
    rewrite word_at, (testbit_in_u_high kBitsPerWord) by (done || lia); apply Z.eqb_neq; lia.
  - intros k Hk; rewrite Z.lor_spec, bit_mask_spec by lia.
    destruct (k =? _); [apply orb_true_r | apply orb_false_r].
Qed.

Lemma Remove_ok v i :
  vec_ok v -> 0 <= i < length_ v ->
  returns (Remove i v) (fun v' => vec_ok v' /\ length_ v' = length_ v /\
    forall j, 0 <= j -> member v' j = negb (j =? i) && member v j).
Proof.
  intros Hv Hi; unfold Remove; rewrite bounds_in, quot_word, bit_mask_same by lia; apply returns_Ok.
  pose proof word_pos; pose proof (vo_words v Hv (i / kBitsPerWord)) as Hw.
  destruct (vector_update_ok v i (Z.land (word v (i / kBitsPerWord))
    (to_u kBitsPerWord (Z.lnot (BitSet.bit_mask i)))) false) as (? & ? & Hm); try done.
  - apply in_u_of_high; [lia |]; intros k Hk; rewrite Z.land_spec, word_at.
    rewrite (testbit_in_u_high kBitsPerWord) by (done || lia); done.
  - intros k Hk; rewrite Z.land_spec, testbit_to_u, Z.lnot_spec, bit_mask_spec by lia.
    rewrite (proj2 (Z.ltb_lt k _)) by lia; destruct (k =? _); [apply andb_false_r | apply andb_true_r].
  - split_and!; [done | done |]; intros j Hj; rewrite Hm by done; destruct (j =? i); done.
Qed.

(** * Two vectors *)
Lemma merge_ok f xs ys :
  length xs = length ys ->
  merge f xs ys = (negb (bool_decide (xs = zip_with f xs ys)), zip_with f xs ys).
Proof.
  revert ys; induction xs as [| x xs IH]; intros [| y ys] E; cbn in *; try done.
  rewrite IH by lia; f_equal; destruct (Z.eqb_spec x (f x y)) as [E1 | E1]; cbn [negb orb].
  - f_equal; apply bool_decide_ext; split; [congruence | intros E2; injection E2; done].
  - rewrite bool_decide_false; [done |]; intros E2; injection E2; done.
Qed.

Lemma kill_and_add_ok xs ks gs :
  length xs = length ks -> length xs = length gs ->
  kill_and_add xs ks gs =
  merge Z.lor xs (zip_with (fun g k => Z.land g (to_u kBitsPerWord (Z.lnot k))) gs ks).
Proof.
  revert ks gs; induction xs as [| x xs IH]; intros [| k ks] [| g gs] E1 E2; cbn in *; try done.
  rewrite IH by lia; done.
Qed.

Lemma word_zip f xs ys w :
  f 0 0 = 0 -> length xs = length ys ->
  BitSet.word (zip_with f xs ys) w = f (BitSet.word xs w) (BitSet.word ys w).
Proof.
  intros Hf E; unfold BitSet.word; generalize (Z.to_nat w) as n; clear w; revert ys E.
  induction xs as [| x xs IH]; intros [| y ys] E n; cbn in *; try done; [destruct n; done |].
  destruct n; [done |]; apply IH; lia.
Qed.

(** A bitwise operation on the words is the operation on the members. *)
Lemma zip_bits f g xs ys i :
  f 0 0 = 0 -> length xs = length ys ->
  (forall x y k, 0 <= k < kBitsPerWord -> Z.testbit (f x y) k = g (Z.testbit x k) (Z.testbit y k)) ->
  bit (zip_with f xs ys) i = g (bit xs i) (bit ys i).
Proof. intros Hf E Hg; unfold bit; rewrite word_zip by done; apply Hg, word_mod. Qed.

Lemma in_u_lor x y : in_u kBitsPerWord x -> in_u kBitsPerWord y -> in_u kBitsPerWord (Z.lor x y).
Proof.
  intros Hx Hy; pose proof word_pos; apply in_u_of_high; [lia |]; intros k Hk.
  rewrite Z.lor_spec, !(testbit_in_u_high kBitsPerWord) by (done || lia); done.
Qed.

Lemma in_u_land x y : in_u kBitsPerWord x -> in_u kBitsPerWord (Z.land x y).
Proof.
  intros Hx; pose proof word_pos; apply in_u_of_high; [lia |]; intros k Hk.
  rewrite Z.land_spec, (testbit_in_u_high kBitsPerWord) by (done || lia); done.
Qed.

Lemma testbit_and_not x y k :
  0 <= k < kBitsPerWord ->
  Z.testbit (Z.land x (to_u kBitsPerWord (Z.lnot y))) k = Z.testbit x k && negb (Z.testbit y k).
Proof.
  intros Hk; rewrite Z.land_spec, testbit_to_u, Z.lnot_spec by lia.
  rewrite (proj2 (Z.ltb_lt k _)) by lia; done.
Qed.

(** Vectors of the same data differ in a member. *)
Lemma words_ext xs ys :
  length xs = length ys ->
  (forall w, in_u kBitsPerWord (BitSet.word xs w)) -> (forall w, in_u kBitsPerWord (BitSet.word ys w)) ->
  (forall i, 0 <= i < kBitsPerWord * Z.of_nat (length xs) -> bit xs i = bit ys i) -> xs = ys.
Proof.
  intros E Hx Hy Hb; pose proof word_pos; apply (nth_ext _ _ 0 0 E); intros n Hn.
  pose proof (Hx (Z.of_nat n)) as Hxn; pose proof (Hy (Z.of_nat n)) as Hyn.
  pose proof (fun k => bit_word xs (Z.of_nat n) k) as Bx; pose proof (fun k => bit_word ys (Z.of_nat n) k) as By.
  unfold BitSet.word in Hxn, Hyn, Bx, By; rewrite Nat2Z.id in Hxn, Hyn, Bx, By.
  apply Z.bits_inj'; intros k Hk; destruct (Z.lt_ge_cases k kBitsPerWord).
  - rewrite <- Bx, <- By by lia; apply Hb; nia.
  - rewrite !(testbit_in_u_high kBitsPerWord) by (done || lia); done.
Qed.

Lemma differ_at xs ys :
  length xs = length ys ->
  (forall w, in_u kBitsPerWord (BitSet.word xs w)) -> (forall w, in_u kBitsPerWord (BitSet.word ys w)) ->
  xs <> ys -> exists i, 0 <= i < kBitsPerWord * Z.of_nat (length xs) /\ bit xs i <> bit ys i.
Proof.
  intros E Hx Hy Hne; set (n := kBitsPerWord * Z.of_nat (length xs)).
  destruct (decide (Exists (fun i => bit xs i <> bit ys i) (seqZ 0 n))) as [He | He].
  - apply Exists_exists in He as (i & Hi%elem_of_seqZ & Hb); exists i; split; [lia | done].
  - destruct Hne; apply words_ext; try done; intros i Hi.
    destruct (decide (bit xs i = bit ys i)); [done |]; destruct He; apply Exists_exists.
    exists i; split; [apply elem_of_seqZ; lia | done].
Qed.

(** What an operation that adds members does. *)
Definition adds (v : t) (P : Z -> bool) (r : bool * t) : Prop :=
  vec_ok (snd r) /\ length_ (snd r) = length_ v /\
  (forall i, member (snd r) i = member v i || P i) /\
  if fst r then exists i, 0 <= i < bit_count v /\ member v i = false /\ member (snd r) i = true
  else snd r = v.

Lemma adds_merge v ys :
  vec_ok v -> length (data_ v) = length ys -> (forall w, in_u kBitsPerWord (BitSet.word ys w)) ->
  adds v (bit ys) (let '(changed, data) := merge Z.lor (data_ v) ys in (changed, mk (length_ v) data)).
Proof.
  intros [Hl Hs Hw] E Hy; rewrite merge_ok by done; unfold adds; cbn [fst snd length_].
  set (zs := zip_with Z.lor (data_ v) ys).
  assert (length zs = length (data_ v)) as Ez by (unfold zs; rewrite length_zip_with; lia).
  assert (forall w, in_u kBitsPerWord (BitSet.word zs w)) as Hz.
  { intros w; unfold zs; rewrite word_zip by done; apply in_u_lor; done. }
  assert (forall i, bit zs i = bit (data_ v) i || bit ys i) as Hb.
  { intros i; apply zip_bits; [done | done |]; intros; apply Z.lor_spec. }
  split_and!; [constructor; cbn [length_ data_] | done | done |]; try done.
  - unfold data_length_ in *; cbn [data_]; rewrite Ez; done.
  - destruct (bool_decide_reflect (data_ v = zs)) as [E0 | E0]; cbn [negb].
    + rewrite <- E0; destruct v; done.
    + destruct (differ_at (data_ v) zs) as (i & Hi & Hne); try done.
      exists i; split; [exact Hi |]; unfold member; cbn [data_]; rewrite Hb in Hne |- *.
      destruct (bit (data_ v) i), (bit ys i); done.
Qed.

Lemma same_size v w : vec_ok v -> vec_ok w -> length_ v = length_ w -> data_length_ v = data_length_ w.
Proof. intros Hv Hw E; rewrite (vo_size v Hv), (vo_size w Hw), E; done. Qed.

Lemma AddAll_ok from v :
  vec_ok v -> vec_ok from -> length_ v = length_ from ->
  returns (AddAll from v) (adds v (member from)).
Proof.
  intros Hv Hf E; pose proof (same_size v from Hv Hf E) as Es; unfold AddAll.
  rewrite (proj2 (Z.eqb_eq _ _) Es); unfold data_length_ in Es.
  pose proof (adds_merge v (data_ from) Hv ltac:(lia) (vo_words from Hf)) as Ha.
  destruct (merge Z.lor (data_ v) (data_ from)); apply returns_Ok; exact Ha.
Qed.

Lemma KillAndAdd_ok kill gen v :
  vec_ok v -> vec_ok kill -> vec_ok gen -> length_ v = length_ kill -> length_ v = length_ gen ->
  returns (KillAndAdd kill gen v) (adds v (fun i => member gen i && negb (member kill i))).
Proof.
  intros Hv Hk Hg E1 E2; pose proof (same_size v kill Hv Hk E1) as Es1.
  pose proof (same_size v gen Hv Hg E2) as Es2; unfold KillAndAdd.
  rewrite (proj2 (Z.eqb_eq _ _) Es1), (proj2 (Z.eqb_eq _ _) Es2); unfold data_length_ in Es1, Es2.
  rewrite kill_and_add_ok by lia; set (ys := zip_with _ _ _).
  assert (forall w, in_u kBitsPerWord (BitSet.word ys w)) as Hy.
  { intros w; unfold ys; rewrite word_zip by (done || lia); apply in_u_land, Hg. }
  pose proof (adds_merge v ys Hv ltac:(unfold ys; rewrite length_zip_with; lia) Hy) as Ha.
  destruct (merge Z.lor (data_ v) ys); apply returns_Ok.
  destruct Ha as (? & ? & Hm & ?); split_and!; try done; intros i; rewrite Hm; f_equal.
  apply (zip_bits _ (fun x y => x && negb y)); [done | lia |]; intros; apply testbit_and_not; done.
Qed.

Lemma RemoveAll_ok from v :
  vec_ok v -> vec_ok from -> length_ v = length_ from ->
  returns (RemoveAll from v) (fun '(changed, v') =>
    vec_ok v' /\ length_ v' = length_ v /\
    (forall i, member v' i = member v i && negb (member from i)) /\
    (changed = false <-> v' = v)).
Proof.
  intros Hv Hf E; pose proof (same_size v from Hv Hf E) as Es; unfold RemoveAll.
  rewrite (proj2 (Z.eqb_eq _ _) Es); unfold data_length_ in Es.
  rewrite merge_ok by lia; set (zs := zip_with _ _ _); apply returns_Ok; destruct Hv as [Hl Hs Hw].
  split_and!; [constructor; cbn [length_ data_] | done | |]; try done.
  - unfold data_length_, zs in *; cbn [data_]; rewrite length_zip_with; lia.
  - intros w; unfold zs; rewrite word_zip by (done || lia); apply in_u_land, Hw.
  - intros i; apply (zip_bits _ (fun x y => x && negb y)); [done | lia |]; intros; apply testbit_and_not; done.
  - rewrite negb_false_iff, bool_decide_eq_true; destruct v; cbn; split; [congruence |].
    intros E0; injection E0; done.
Qed.

Lemma vector_Intersect_ok other v :
  vec_ok v -> vec_ok other -> length_ v = length_ other ->
  returns (Intersect other v) (fun v' => vec_ok v' /\ length_ v' = length_ v /\
    forall i, member v' i = member v i && member other i).
Proof.
  intros Hv Ho E; pose proof (same_size v other Hv Ho E) as Es; unfold Intersect.
  rewrite (proj2 (Z.eqb_eq _ _)) by done; unfold data_length_ in Es; apply returns_Ok.
  rewrite merge_ok by lia; cbn [snd]; destruct Hv as [Hl Hs Hw].
  split_and!; [constructor; cbn [length_ data_] | done |]; try done.
  - unfold data_length_ in *; cbn [data_]; rewrite length_zip_with; lia.
  - intros w; rewrite word_zip by (done || lia); apply in_u_land, Hw.
  - intros i; apply (zip_bits _ andb); [done | lia |]; intros; apply Z.land_spec.
Qed.

Lemma CopyFrom_ok other v :
  vec_ok v -> vec_ok other -> length_ v = length_ other ->
  returns (CopyFrom other v) (fun v' => vec_ok v' /\ length_ v' = length_ v /\
    forall i, member v' i = member other i).
Proof.
  intros Hv Ho E; destruct (Clear_ok v Hv) as (Hc & Ec & Hm); unfold CopyFrom.
  call (AddAll_ok other (Clear v) Hc Ho ltac:(congruence)) as [c v'] (Hv' & El & Hb & _).
  apply returns_Ok; cbn [snd] in *; split_and!; [done | congruence |].
  intros i; rewrite Hb, Hm; done.
Qed.

(** Equality looks at the bits below the length only. *)
Lemma word_eq_bits x y n :
  0 <= n -> Z.land x (Z.ones n) = Z.land y (Z.ones n) <->
  forall k, 0 <= k < n -> Z.testbit x k = Z.testbit y k.
Proof.
  intros Hn; split.
  - intros E k Hk; apply (f_equal (fun z => Z.testbit z k)) in E.
    rewrite !Z.land_spec, Z.ones_spec_low, !andb_true_r in E by lia; done.
  - intros E; apply Z.bits_inj'; intros k Hk; rewrite !Z.land_spec.
    destruct (Z.lt_ge_cases k n); [rewrite E by lia; done |].
    rewrite Z.ones_spec_high, !andb_false_r by lia; done.
Qed.

Lemma last_word_mask n :
  0 < n -> Z.shiftr (to_u kBitsPerWord (-1)) (Z.land (kBitsPerWord - n) (kBitsPerWord - 1)) =
           Z.ones (n - (SizeFor n - 1) * kBitsPerWord) /\
           0 < n - (SizeFor n - 1) * kBitsPerWord <= kBitsPerWord.
Proof.
  intros Hn; pose proof word_pos; unfold SizeFor; rewrite Z.quot_div_nonneg, Z.add_simpl_l by lia.
  pose proof (Z.div_mod (n - 1) kBitsPerWord); pose proof (word_mod (n - 1)); split; [| nia].
  rewrite land_word; set (q := (n - 1) / kBitsPerWord) in *; set (m := (n - 1) mod kBitsPerWord) in *.
  assert ((kBitsPerWord - n) mod kBitsPerWord = kBitsPerWord - 1 - m) as ->.
  { replace (kBitsPerWord - n) with (kBitsPerWord - 1 - m + (- q) * kBitsPerWord) by nia.
    rewrite Z_mod_plus_full; apply Z.mod_small; lia. }
  assert (to_u kBitsPerWord (-1) = Z.ones kBitsPerWord) as ->.
  { rewrite <- land_ones_u by lia; apply Z.land_m1_l. }
  rewrite Z.shiftr_div_pow2, Z.ones_div_pow2 by lia; f_equal; nia.
Qed.

Lemma words_equal_bits v other n :
  vec_ok v -> vec_ok other ->
  forallb (fun i => word v i =? word other i) (seqZ 0 n) = true <->
  forall i, 0 <= i < n * kBitsPerWord -> member v i = member other i.
Proof.
  intros Hv Ho; pose proof word_pos; rewrite forallb_forall; split.
  - intros Hw i Hi; unfold member, bit; f_equal; apply Z.eqb_eq, Hw, list_elem_of_In, elem_of_seqZ.
    split; [apply Z.div_pos; lia | apply Z.div_lt_upper_bound; lia].
  - intros Hm w Hw%list_elem_of_In%elem_of_seqZ; apply Z.eqb_eq, Z.bits_inj'; intros k Hk.
    destruct (Z.lt_ge_cases k kBitsPerWord).
    + rewrite !word_at, <- !bit_word by lia; apply Hm; nia.
    + rewrite !word_at, !(testbit_in_u_high kBitsPerWord); try done; try lia; [apply Ho | apply Hv].
Qed.

Lemma vector_Equals_ok v other :
  vec_ok v -> vec_ok other -> 0 < length_ v ->
  Equals other v = true <-> length_ v = length_ other /\
    forall i, 0 <= i < length_ v -> member v i = member other i.
Proof.
  intros Hv Ho Hl; pose proof word_pos; unfold Equals.
  destruct (Z.eqb_spec (length_ v) (length_ other)) as [E | E]; cbn [negb]; [| split; [done | intros [? _]; done]].
  rewrite (vo_size v Hv); destruct (size_for (length_ v) ltac:(lia)) as [Hs _].
  destruct (last_word_mask (length_ v) Hl) as [-> Hr]; set (n := SizeFor (length_ v)) in *.
  rewrite Z.max_r, (proj2 (Z.ltb_lt _ _)) by lia.
  pose proof (words_equal_bits v other (n - 1) Hv Ho) as Hw.
  destruct (forallb _ _); [| split; [done |]; intros [_ Hm]; apply Hw; intros i Hi; apply Hm; lia].
  assert (forall i, 0 <= i < (n - 1) * kBitsPerWord -> member v i = member other i) as Hlow by (apply Hw; done).
  rewrite Z.eqb_eq, word_eq_bits by lia; split.
  - intros Hm; split; [done |]; intros i Hi.
    destruct (Z.lt_ge_cases i ((n - 1) * kBitsPerWord)); [apply Hlow; lia |].
    replace i with ((n - 1) * kBitsPerWord + (i - (n - 1) * kBitsPerWord)) by lia.
    unfold member; rewrite !bit_word by lia; apply Hm; lia.
  - intros [_ Hm] k Hk; rewrite !word_at, <- !bit_word by lia; apply Hm; nia.
Qed.

(** Two empty vectors are compared by their whole first word. *)
Lemma empty_vectors_differ : Equals (SetAll (new 0)) (new 0) = false.
Proof.
  unfold Equals, new, SetAll, SizeFor, data_length_; cbn [length_ data_].
  destruct word_width as [E | E]; rewrite E; vm_compute; reflexivity.
Qed.

(** * The iterator *)
(** The state of the iterator before the bit [p] of the word [w]. *)
Record before (v : t) (w p : Z) (it : Iterator) : Prop := mk_before {
  at_word : word_index_ it = w;
  at_range : 0 <= w < data_length_ v;
  at_bit : bit_index_ it + 1 = w * kBitsPerWord + p;
  at_bits : 0 <= p <= kBitsPerWord;
  at_current : current_word_ it = Z.shiftr (word v w) p
}.

Lemma shiftr_zero_bits c n : 0 <= c -> 0 <= n -> Z.shiftr c n = 0 -> forall j, n <= j -> Z.testbit c j = false.
Proof.
  intros Hc Hn E j Hj; replace j with (j - n + n) by lia; rewrite <- Z.shiftr_spec, E by lia.
  apply Z.bits_0.
Qed.

Lemma low_bits_zero c n :
  0 <= n -> (Z.land c (Z.ones n) =? 0) = true -> forall j, 0 <= j < n -> Z.testbit c j = false.
Proof.
  intros Hn E%Z.eqb_eq j Hj; apply (f_equal (fun x => Z.testbit x j)) in E.
  rewrite Z.land_spec, Z.ones_spec_low, andb_true_r, Z.bits_0 in E by lia; done.
Qed.

(** The loops skip zeros only, and stop before the word is zero. *)
Lemma skip_zeros_ok fuel mask shift it :
  0 < shift -> mask = Z.ones shift ->
  0 < current_word_ it -> current_word_ it < 2 ^ Z.of_nat fuel ->
  returns (skip_zeros fuel mask shift it) (fun it' => exists n, 0 <= n /\
    it' = mkIterator (bit_index_ it + n) (word_index_ it) (Z.shiftr (current_word_ it) n) /\
    0 < current_word_ it' /\ Z.land (current_word_ it') mask <> 0 /\
    forall j, 0 <= j < n -> Z.testbit (current_word_ it) j = false).
Proof.
  intros Hs ->; revert it; induction fuel as [| fuel IH]; intros [b w c] H0 Hf; cbn [skip_zeros current_word_] in *.
  { change (2 ^ Z.of_nat 0) with 1 in Hf; lia. }
  destruct (Z.land c (Z.ones shift) =? 0) eqn:E.
  2: { apply returns_Ok; exists 0; rewrite Z.add_0_r, Z.shiftr_0_r; cbn; split_and!; try done; try lia. }
  pose proof (low_bits_zero c shift ltac:(lia) E) as Hlow.
  assert (c mod 2 ^ shift = 0) as Em by (rewrite <- Z.land_ones by lia; apply Z.eqb_eq; done).
  assert (0 < 2 ^ shift) by (apply Z.pow_pos_nonneg; lia).
  assert (c = 2 ^ shift * Z.shiftr c shift) as Ec.
  { rewrite Z.shiftr_div_pow2 by lia; pose proof (Z.div_mod c (2 ^ shift)); lia. }
  eapply returns_mono; [apply IH; cbn [current_word_]; [nia |] |].
  - replace (Z.of_nat (S fuel)) with (Z.of_nat fuel + 1) in Hf by lia.
    rewrite Z.pow_add_r in Hf by lia.
    assert (2 ^ 1 <= 2 ^ shift) by (apply Z.pow_le_mono_r; lia); nia.
  - cbn [bit_index_ word_index_ current_word_]; intros it' (n & Hn & -> & Hp & Hl & Hz).
    exists (shift + n); cbn [current_word_] in *; rewrite Z.shiftr_shiftr in * by lia.
    split_and!; try done; try lia; [f_equal; lia |]; intros j Hj.
    destruct (Z.lt_ge_cases j shift); [apply Hlow; lia |].
    pose proof (Hz (j - shift) ltac:(lia)) as Hzj; rewrite Z.shiftr_spec in Hzj by lia.
    replace (j - shift + shift) with j in Hzj by lia; done.
Qed.

(** The first member from the bit [p] of the word [w] on is in that word. *)
Lemma next_bit_ok v w p b :
  vec_ok v -> 0 <= w < data_length_ v -> 0 <= p <= kBitsPerWord ->
  b = w * kBitsPerWord + p -> Z.shiftr (word v w) p <> 0 ->
  returns (next_bit (mkIterator b w (Z.shiftr (word v w) p))) (fun it =>
    exists q, p <= q < kBitsPerWord /\ before v w (q + 1) it /\
      member v (w * kBitsPerWord + q) = true /\
      forall j, p <= j < q -> member v (w * kBitsPerWord + j) = false).
Proof.
  intros Hv Hw Hp -> H0; pose proof word_pos; pose proof (vo_words v Hv w) as Hin; unfold next_bit.
  set (c := Z.shiftr (word v w) p) in *; change (BitSet.word (data_ v) w) with (word v w) in Hin.
  assert (0 <= c) by (apply Z.shiftr_nonneg, Hin).
  assert (c < 2 ^ kBitsPerWord).
  { unfold c; rewrite Z.shiftr_div_pow2 by lia; destruct Hin; apply Z.div_lt_upper_bound; [lia |].
    assert (0 < 2 ^ p) by (apply Z.pow_pos_nonneg; lia); nia. }
  call (skip_zeros_ok (Z.to_nat kBitsPerWord) 0xff 8 (mkIterator (w * kBitsPerWord + p) w c))
    as it1 (n1 & Hn1 & -> & Hp1 & _ & Hz1); cbn [current_word_ bit_index_ word_index_] in *;
    [lia | done | lia | rewrite Z2Nat.id by lia; done |].
  assert (Z.shiftr c n1 <= c).
  { rewrite Z.shiftr_div_pow2 by lia; assert (0 < 2 ^ n1) by (apply Z.pow_pos_nonneg; lia).
    apply Z.div_le_upper_bound; nia. }
  call (skip_zeros_ok (Z.to_nat kBitsPerWord) 1 1
    (mkIterator (w * kBitsPerWord + p + n1) w (Z.shiftr c n1))) as it2 (n2 & Hn2 & -> & Hp2 & Hl2 & Hz2);
    cbn [current_word_ bit_index_ word_index_] in *; [lia | done | lia | rewrite Z2Nat.id by lia; lia |].
  rewrite Z.shiftr_shiftr in * by lia; unfold c in *; rewrite Z.shiftr_shiftr in * by lia.
  set (q := p + n1 + n2); replace (p + (n1 + n2)) with q in * by lia.
  assert (forall j, p <= j < q -> Z.testbit (word v w) j = false) as Hz.
  { intros j Hj; destruct (Z.lt_ge_cases j (p + n1)).
    - pose proof (Hz1 (j - p) ltac:(lia)) as E; rewrite Z.shiftr_spec in E by lia.
      replace (j - p + p) with j in E by lia; done.
    - pose proof (Hz2 (j - p - n1) ltac:(lia)) as E; rewrite !Z.shiftr_spec in E by lia.
      replace (j - p - n1 + (p + n1)) with j in E by lia; done. }
  assert (Z.testbit (word v w) q = true) as Hq.
  { change 1 with (Z.ones 1) in Hl2; rewrite Z.land_ones, <- Z.bit0_mod, Z.shiftr_spec in Hl2 by lia.
    rewrite Z.add_0_l in Hl2; destruct (Z.testbit (word v w) q); [done | destruct Hl2; done]. }
  assert (q < kBitsPerWord).
  { destruct (Z.lt_ge_cases q kBitsPerWord); [done |].
    rewrite (testbit_in_u_high kBitsPerWord) in Hq by (done || lia); done. }
  apply returns_Ok; exists q; split_and!; [lia | lia | | |].
  - constructor; cbn [word_index_ bit_index_ current_word_]; try done; try lia.
    rewrite Z.shiftr_shiftr by lia; f_equal; unfold q; lia.
  - unfold member; rewrite bit_word by lia; done.
  - intros j Hj; unfold member; rewrite bit_word by lia; apply Hz; done.
Qed.

Lemma skip_words_ok v fuel it :
  0 <= word_index_ it < data_length_ v -> data_length_ v - word_index_ it <= Z.of_nat fuel ->
  returns (skip_words fuel v it) (fun it' =>
    word_index_ it < word_index_ it' <= data_length_ v /\
    (forall w, word_index_ it < w < word_index_ it' -> word v w = 0) /\
    (word_index_ it' < data_length_ v ->
      current_word_ it' = word v (word_index_ it') /\ current_word_ it' <> 0)).
Proof.
  revert it; induction fuel as [| fuel IH]; intros [b w c] Hw Hf; cbn [skip_words word_index_ bit_index_ current_word_] in *; [lia |].
  unfold Done; cbn [word_index_]; destruct (Z.geb_spec (w + 1) (data_length_ v)).
  - apply returns_Ok; cbn; split_and!; [lia | lia | lia | lia].
  - destruct (Z.eqb_spec (word v (w + 1)) 0) as [E | E].
    + eapply returns_mono; [apply IH; cbn [word_index_]; lia |]; cbn [word_index_].
      intros it' (Hr & Hz & Hc); split_and!; [lia | lia | | done].
      intros w' Hw'; destruct (decide (w' = w + 1)) as [-> |]; [done | apply Hz; lia].
    + apply returns_Ok; cbn; split_and!; [lia | lia | lia | done].
Qed.

(** The iterator, having seen the numbers below [pos], goes to the next member. *)
Definition seen (v : t) (pos : Z) (it : Iterator) : Prop :=
  exists w p, before v w p it /\ pos = w * kBitsPerWord + p.

Definition next_from (v : t) (pos : Z) (it : Iterator) : Prop :=
  if Done v it then forall j, pos <= j -> member v j = false
  else seen v (bit_index_ it + 1) it /\ pos <= bit_index_ it < bit_count v /\
       member v (bit_index_ it) = true /\
       forall j, pos <= j < bit_index_ it -> member v j = false.

Lemma zero_bits v w j : word v w = 0 -> j / kBitsPerWord = w -> member v j = false.
Proof. intros Hw <-; apply (word_zero (data_ v) _ j Hw); done. Qed.

Lemma next_from_bit v pos w q it :
  before v w (q + 1) it -> 0 <= q < kBitsPerWord -> pos <= w * kBitsPerWord + q ->
  member v (w * kBitsPerWord + q) = true ->
  (forall j, pos <= j < w * kBitsPerWord + q -> member v j = false) -> next_from v pos it.
Proof.
  intros Hb Hq Hp Hm Hz; pose proof Hb as [Ew Hr Eb _ _]; unfold next_from, Done; rewrite Ew.
  destruct (Z.geb_spec w (data_length_ v)); [lia |].
  assert (bit_index_ it = w * kBitsPerWord + q) as -> by lia; split_and!; try done.
  - exists w, (q + 1); split; [done | lia].
  - unfold bit_count; nia.
Qed.

Lemma Advance_ok v pos it :
  vec_ok v -> seen v pos it -> returns (Advance v it) (next_from v pos).
Proof.
  intros Hv (w & p & [Ew Hw Eb Hp Ec] & ->); pose proof word_pos; unfold Advance.
  destruct it as [b w0 c]; cbn [bit_index_ word_index_ current_word_] in *; subst w0 c.
  pose proof (vo_words v Hv w) as Hin; change (BitSet.word (data_ v) w) with (word v w) in Hin.
  destruct (Z.eqb_spec (Z.shiftr (word v w) p) 0) as [E | E].
  - assert (forall j, w * kBitsPerWord + p <= j < (w + 1) * kBitsPerWord -> member v j = false) as Hz.
    { intros j Hj; replace j with (w * kBitsPerWord + (j - w * kBitsPerWord)) by lia.
      unfold member; rewrite bit_word by lia.
      apply (shiftr_zero_bits (word v w) p); [apply Hin | lia | done | lia]. }
    call (skip_words_ok v (S (length (data_ v))) (mkIterator (b + 1) w (Z.shiftr (word v w) p)))
      as [b' w' c'] (Hr & Hzw & Hc); cbn [word_index_ current_word_ bit_index_] in *;
      [done | unfold data_length_ in *; lia |].
    assert (forall j, w * kBitsPerWord + p <= j < w' * kBitsPerWord -> member v j = false) as Hz'.
    { intros j Hj; destruct (Z.lt_ge_cases j ((w + 1) * kBitsPerWord)); [apply Hz; lia |].
      apply (zero_bits v (j / kBitsPerWord)); [| done]; apply Hzw.
      split; [apply Z.lt_le_trans with (w + 1); [lia |]; apply Z.div_le_lower_bound; lia |].
      apply Z.div_lt_upper_bound; lia. }
    unfold Done at 1; cbn [word_index_]; destruct (Z.geb_spec w' (data_length_ v)).
    { apply returns_Ok; unfold next_from, Done; cbn [word_index_].
      destruct (Z.geb_spec w' (data_length_ v)); [| lia]; intros j Hj.
      destruct (Z.lt_ge_cases j (bit_count v)); [| apply member_out; done].
      apply Hz'; unfold bit_count in *; nia. }
    destruct (Hc ltac:(lia)) as [Ecw Hne]; rewrite Ecw in *.
    eapply returns_mono; [rewrite <- (Z.shiftr_0_r (word v w')); apply (next_bit_ok v w' 0); try done; try lia;
      rewrite ?Z.shiftr_0_r; done |].
    cbn beta; intros it (q & Hq & Hb & Hm & Hzq); apply (next_from_bit v _ w' q); try done; [nia |].
    intros j Hj; destruct (Z.lt_ge_cases j (w' * kBitsPerWord)); [apply Hz'; lia |].
    replace j with (w' * kBitsPerWord + (j - w' * kBitsPerWord)) by lia; apply Hzq; lia.
  - eapply returns_mono; [apply (next_bit_ok v w p); try done; lia |].
    cbn beta; intros it (q & Hq & Hb & Hm & Hzq); apply (next_from_bit v _ w q); try done; try lia.
    intros j Hj; replace j with (w * kBitsPerWord + (j - w * kBitsPerWord)) by lia; apply Hzq; lia.
Qed.

Lemma filter_none {A} (P : A -> Prop) `{forall x, Decision (P x)} (l : list A) :
  (forall x, x ∈ l -> ~ P x) -> filter P l = [].
Proof.
  induction l as [| x l IH]; intros Hl; [done |]; rewrite filter_cons_False by (apply Hl; constructor).
  apply IH; intros y Hy; apply Hl; constructor; done.
Qed.

(** The members from [pos] on. *)
Definition members_from (v : t) (pos : Z) : list Z :=
  filter (fun i => member v i = true) (seqZ pos (bit_count v - pos)).

Lemma members_none v pos : (forall j, pos <= j -> member v j = false) -> members_from v pos = [].
Proof.
  intros Hz; unfold members_from; apply filter_none; intros x Hx%elem_of_seqZ.
  rewrite Hz by lia; done.
Qed.

Lemma members_next v pos i :
  pos <= i < bit_count v -> member v i = true ->
  (forall j, pos <= j < i -> member v j = false) -> members_from v pos = i :: members_from v (i + 1).
Proof.
  intros Hi Hm Hz; unfold members_from.
  replace (bit_count v - pos) with ((i - pos) + (bit_count v - i)) by lia.
  rewrite seqZ_app, filter_app by lia; replace (pos + (i - pos)) with i by lia.
  rewrite filter_none, app_nil_l by (intros x Hx%elem_of_seqZ; rewrite Hz by lia; done).
  rewrite (seqZ_cons i), filter_cons_True by (done || lia); unfold Z.succ.
  replace (Z.pred (bit_count v - i)) with (bit_count v - (i + 1)) by lia; done.
Qed.

Lemma iterate_ok v fuel pos it :
  vec_ok v -> next_from v pos it -> bit_count v - pos < Z.of_nat fuel -> (0 < fuel)%nat ->
  iterate fuel v it = Ok (members_from v pos).
Proof.
  intros Hv; revert pos it; induction fuel as [| fuel IH]; intros pos it Hn Hf Hf0; [lia |]; cbn [iterate].
  unfold next_from in Hn; destruct (Done v it) eqn:Ed; [rewrite members_none; done |].
  destruct Hn as (Hs & Hr & Hm & Hz); unfold Current; rewrite Ed; cbn [negb obind].
  destruct (Advance_ok v _ it Hv Hs) as (it' & -> & Hn'); cbn [obind].
  rewrite (IH (bit_index_ it + 1)) by (done || lia); cbn [obind].
  rewrite (members_next v pos (bit_index_ it)); done.
Qed.

(** The loop over the iterator sees every member once, in increasing order. *)
Lemma elements_ok v : vec_ok v -> elements v = Ok (members_from v 0).
Proof.
  intros Hv; pose proof Hv as [Hl Hs _]; destruct (size_for _ Hl) as [Hp _]; pose proof word_pos.
  unfold elements, new_Iterator; rewrite Z.gtb_ltb, (proj2 (Z.ltb_lt _ _)) by lia.
  assert (seen v 0 (mkIterator (-1) 0 (word v 0))) as Hseen.
  { exists 0, 0; split; [| lia]; constructor; cbn; try done; lia. }
  destruct (Advance_ok v 0 _ Hv Hseen) as (it & -> & Hn); cbn [obind].
  apply iterate_ok; try done; [unfold bit_count |]; lia.
Qed.
End Vectors.
