(* ===== verification/Liveness.v ===== *)
(** Liveness ([LivenessAnalysis] and [VariableLivenessAnalysis] of [vm/flow_graph.h] and
    [vm/flow_graph.cc], local variables of [vm/scopes.cc]): which variables may still be
    read at the start and the end of the blocks of a flow graph, and which stores to local
    variables nothing reads.

    A block is identified by its postorder number; [ComputeInitialSets], a virtual
    function, is an argument of [Analyze]. *)
From stdpp Require Import base numbers list.
From Stdlib Require Import ZArith Lia Bool.
From S2P Require Import Prelude Utils Locations BitVector.
#[local] Open Scope Z_scope.

(** * The iteration ([class LivenessAnalysis]) *)
Section LivenessAnalysis.
Context `{Word}.

Record Analysis := mkAnalysis {
  variable_count_ : Z;
  live_out_ : list BitVector.t;
  kill_ : list BitVector.t;
  live_in_ : list BitVector.t
}.

(** The elements of an array: an index out of range is an error. *)
Definition at_index {A} (l : list A) (i : nat) : outcome A :=
  match l !! i with Some v => Ok v | None => Err AssertionFailed end.

Definition set_live_out (b : nat) (v : BitVector.t) (a : Analysis) : Analysis :=
  mkAnalysis (variable_count_ a) (<[b := v]> (live_out_ a)) (kill_ a) (live_in_ a).
Definition set_live_in (b : nat) (v : BitVector.t) (a : Analysis) : Analysis :=
  mkAnalysis (variable_count_ a) (live_out_ a) (kill_ a) (<[b := v]> (live_in_ a)).
Definition set_kill (b : nat) (v : BitVector.t) (a : Analysis) : Analysis :=
  mkAnalysis (variable_count_ a) (live_out_ a) (<[b := v]> (kill_ a)) (live_in_ a).

(** The successors of the blocks, by their postorder numbers. *)
Context (successors : list (list nat)).

Fixpoint add_successors (succs : list nat) (live_in : list BitVector.t) (live_out : BitVector.t)
  (changed : bool) : outcome (bool * BitVector.t) :=
  match succs with
  | [] => Ok (changed, live_out)
  | succ :: succs =>
      let* from := at_index live_in succ in
      let* (c, live_out) := BitVector.AddAll from live_out in
      add_successors succs live_in live_out (if c then true else changed)
  end.

Definition UpdateLiveOut (block : nat) (a : Analysis) : outcome (bool * Analysis) :=
  let* live_out := at_index (live_out_ a) block in
  let* succs := at_index successors block in
  let* (changed, live_out) := add_successors succs (live_in_ a) live_out false in
  Ok (changed, set_live_out block live_out a).

Definition UpdateLiveIn (block : nat) (a : Analysis) : outcome (bool * Analysis) :=
  let* live_out := at_index (live_out_ a) block in
  let* kill := at_index (kill_ a) block in
  let* live_in := at_index (live_in_ a) block in
  let* (changed, live_in) := BitVector.KillAndAdd kill live_out live_in in
  Ok (changed, set_live_in block live_in a).

(** [UpdateLiveOut(block) && UpdateLiveIn(block)]. *)
Definition update_block (block : nat) (a : Analysis) : outcome (bool * Analysis) :=
  let* (changed, a) := UpdateLiveOut block a in
  if changed then UpdateLiveIn block a else Ok (false, a).

(** One round over the blocks from [i] on, [n] of them. *)
Fixpoint update_blocks (n i : nat) (changed : bool) (a : Analysis) : outcome (bool * Analysis) :=
  match n with
  | O => Ok (changed, a)
  | S n =>
      let* (c, a) := update_block i a in
      update_blocks n (S i) (if c then true else changed) a
  end.

(** [do ... while (changed)]: a round that changes something adds a bit. *)
Fixpoint update_loop (fuel : nat) (a : Analysis) : outcome Analysis :=
  match fuel with
  | O => Err OutOfFuel
  | S fuel =>
      let* (changed, a) := update_blocks (length successors) 0 false a in
      if changed then update_loop fuel a else Ok a
  end.

Definition ComputeLiveInAndLiveOutSets (a : Analysis) : outcome Analysis :=
  let bits := kBitsPerWord * BitVector.SizeFor (variable_count_ a) in
  update_loop (S (Z.to_nat (Z.of_nat (length successors) * bits))) a.

(** [ComputeInitialSets] may also return something of its own. *)
Definition Analyze {X} (ComputeInitialSets : Analysis -> outcome (X * Analysis))
  (variable_count : Z) : outcome (X * Analysis) :=
  let vectors := replicate (length successors) (BitVector.new variable_count) in
  let* (x, a) := ComputeInitialSets (mkAnalysis variable_count vectors vectors vectors) in
  let* a := ComputeLiveInAndLiveOutSets a in
  Ok (x, a).

End LivenessAnalysis.

(** * Local variables *)
Section Variables.
Context `{Word} `{FrameLayout}.

Definition kUninitializedIndex : Z := - 2 ^ 31.

(** [context_level] is the level of the scope of a captured variable. *)
Record LocalVariable := mkLocal { index_ : Z; is_captured : bool; context_level : Z }.

Definition HasIndex (l : LocalVariable) : bool := negb (index_ l =? kUninitializedIndex).
Definition index (l : LocalVariable) : outcome Z := ASSERT HasIndex l ;; Ok (index_ l).

Definition LocalVariable_Equals (other l : LocalVariable) : bool :=
  if HasIndex l && HasIndex other && (index_ l =? index_ other) then
    if eqb (is_captured l) (is_captured other) then
      if negb (is_captured l) then true
      else context_level l =? context_level other
    else false
  else false.

Definition BitIndexIn (fixed_parameter_count : Z) (l : LocalVariable) : outcome Z :=
  ASSERT negb (is_captured l) ;;
  let* i := index l in
  if i >? 0 then Ok (fixed_parameter_count - (i - kParamEndSlotFromFp))
  else Ok (fixed_parameter_count - (i - kFirstLocalSlotFromFp)).

(** The instructions of a block: the loads and stores with their marks. *)
Inductive Instruction :=
| LoadLocal (local : LocalVariable) (is_last : bool)
| StoreLocal (local : LocalVariable) (is_dead is_last : bool)
| OtherInstruction.

Definition kInvalidTryIndex : Z := -1.

Record BlockEntry := mkBlock {
  instructions : list Instruction;
  successors_of : list nat;
  try_index_ : Z
}.

Definition InsideTryBlock (b : BlockEntry) : bool := negb (try_index_ b =? kInvalidTryIndex).

(** * [class VariableLivenessAnalysis] *)
Context (num_non_copied_params_ : Z).

(** The vectors of the block that is scanned. *)
Record Sets := mkSets { kill : BitVector.t; live_in : BitVector.t; last_loads : BitVector.t }.

Definition scan_load (local : LocalVariable) (is_last : bool) (s : Sets)
  : outcome (Instruction * Sets) :=
  let* index := BitIndexIn num_non_copied_params_ local in
  if index >=? BitVector.length_ (live_in s) then Ok (LoadLocal local is_last, s)
  else
    let* v := BitVector.Add index (live_in s) in
    let s := mkSets (kill s) v (last_loads s) in
    let* seen := BitVector.Contains index (last_loads s) in
    if negb seen then
      let* v := BitVector.Add index (last_loads s) in
      Ok (LoadLocal local true, mkSets (kill s) (live_in s) v)
    else Ok (LoadLocal local is_last, s).

Definition scan_store (local : LocalVariable) (is_dead is_last : bool) (s : Sets)
  : outcome (Instruction * Sets) :=
  let* index := BitIndexIn num_non_copied_params_ local in
  if index >=? BitVector.length_ (live_in s) then Ok (StoreLocal local is_dead is_last, s)
  else
    let* killed := BitVector.Contains index (kill s) in
    let* live := BitVector.Contains index (live_in s) in
    let* (instr, s) :=
      if killed then Ok (StoreLocal local (is_dead || negb live) is_last, s)
      else
        let* v := BitVector.Add index (kill s) in
        Ok (StoreLocal local is_dead (is_last || negb live), mkSets v (live_in s) (last_loads s)) in
    let* v := BitVector.Remove index (live_in s) in
    Ok (instr, mkSets (kill s) v (last_loads s)).

Definition scan_instruction (i : Instruction) (s : Sets) : outcome (Instruction * Sets) :=
  match i with
  | LoadLocal local is_last => scan_load local is_last s
  | StoreLocal local is_dead is_last => scan_store local is_dead is_last s
  | OtherInstruction => Ok (i, s)
  end.

(** Backwards over the instructions of a block. *)
Fixpoint scan_instructions (il : list Instruction) (s : Sets)
  : outcome (list Instruction * Sets) :=
  match il with
  | [] => Ok ([], s)
  | i :: il =>
      let* (il, s) := scan_instructions il s in
      let* (i, s) := scan_instruction i s in
      Ok (i :: il, s)
  end.

(** The loop of [ComputeInitialSets] over the blocks from [i] on; it returns the blocks
    with the marks of their instructions. *)
Fixpoint initial_blocks (blocks : list BlockEntry) (i : nat) (loads : BitVector.t) (a : Analysis)
  : outcome (list BlockEntry * Analysis) :=
  match blocks with
  | [] => Ok ([], a)
  | block :: blocks =>
      let* k := at_index (kill_ a) i in
      let* l := at_index (live_in_ a) i in
      let loads := BitVector.Clear loads in
      if InsideTryBlock block then
        let a := set_live_in i (BitVector.SetAll l) a in
        let* (blocks, a) := initial_blocks blocks (S i) loads a in
        Ok (block :: blocks, a)
      else
        let* (il, s) := scan_instructions (instructions block) (mkSets k l loads) in
        let a := set_live_in i (live_in s) (set_kill i (kill s) a) in
        let* (blocks, a) := initial_blocks blocks (S i) (last_loads s) a in
        Ok (mkBlock il (successors_of block) (try_index_ block) :: blocks, a)
  end.

Definition ComputeInitialSets (blocks : list BlockEntry) (a : Analysis)
  : outcome (list BlockEntry * Analysis) :=
  initial_blocks blocks 0 (BitVector.new (variable_count_ a)) a.

Definition Analyze_variables (blocks : list BlockEntry) (variable_count : Z)
  : outcome (list BlockEntry * Analysis) :=
  Analyze (map successors_of blocks) (ComputeInitialSets blocks) variable_count.

(** [current_context_var] is [flow_graph_->CurrentContextVar()]. *)
Definition IsStoreAlive (current_context_var : LocalVariable) (block : nat)
  (local : LocalVariable) (is_dead is_last : bool) (a : Analysis) : outcome bool :=
  if LocalVariable_Equals current_context_var local then Ok true
  else if is_dead then Ok false
  else if is_last then
    let* index := BitIndexIn num_non_copied_params_ local in
    let* live_out := at_index (live_out_ a) block in
    BitVector.Contains index live_out
  else Ok true.

Definition IsLastLoad (current_context_var : LocalVariable) (block : nat)
  (local : LocalVariable) (is_last : bool) (a : Analysis) : outcome bool :=
  if LocalVariable_Equals current_context_var local then Ok false
  else
    let* index := BitIndexIn num_non_copied_params_ local in
    if is_last then
      let* live_out := at_index (live_out_ a) block in
      let* live := BitVector.Contains index live_out in
      Ok (negb live)
    else Ok false.

(** [ComputeAssignedVars], for the blocks in preorder: the kill sets are changed in place
    and returned. *)
Fixpoint assigned_vars (preorder : list (nat * BlockEntry)) (a : Analysis)
  : outcome (list BitVector.t * Analysis) :=
  match preorder with
  | [] => Ok ([], a)
  | (number, block) :: preorder =>
      let* kill := at_index (kill_ a) number in
      let* kill :=
        if InsideTryBlock block then Ok (BitVector.SetAll kill)
        else let* live_out := at_index (live_out_ a) number in BitVector.Intersect live_out kill in
      let a := set_kill number kill a in
      let* (rest, a) := assigned_vars preorder a in
      Ok (kill :: rest, a)
  end.

End Variables.
