(* ===== verification/LivenessProofs.v ===== *)
(** Correctness of the liveness analysis: its iteration ends with the least sets that are
    closed under the flow of the graph ([live]), for any initial sets. *)
From stdpp Require Import base numbers list sets.
From Stdlib Require Import ZArith Lia Bool.
From S2P Require Import Prelude Utils Locations BitVector BitVectorProofs Liveness.
#[local] Open Scope Z_scope.

(** * Vectors of the blocks *)
Section Vectors.
Context `{Word}.

(** The bit [i] of the vector of the block [b]. *)
Definition mem (l : list BitVector.t) (b : nat) (i : Z) : bool :=
  match l !! b with Some v => member v i | None => false end.

(** A vector for each of [blocks] blocks, of length [n]. *)
Definition vectors (blocks : nat) (n : Z) (l : list BitVector.t) : Prop :=
  length l = blocks /\ forall b v, l !! b = Some v -> vec_ok v /\ BitVector.length_ v = n.

Lemma vectors_lookup blocks n l b :
  vectors blocks n l -> (b < blocks)%nat ->
  exists v, l !! b = Some v /\ vec_ok v /\ BitVector.length_ v = n /\ forall i, mem l b i = member v i.
Proof.
  intros [Hl Hv] Hb; destruct (lookup_lt_is_Some_2 l b) as [v E]; [lia |].
  destruct (Hv b v E); exists v; split_and!; try done; intros i; unfold mem; rewrite E; done.
Qed.

Lemma vectors_insert blocks n l b v :
  vectors blocks n l -> vec_ok v -> BitVector.length_ v = n -> vectors blocks n (<[b := v]> l).
Proof.
  intros [Hl Hv] Hok Hn; split; [rewrite length_insert; done |].
  intros b' v' Hb'; destruct (decide (b' = b)) as [-> |].
  - apply list_lookup_insert_Some in Hb' as [(_ & -> & _) | [? _]]; done.
  - rewrite list_lookup_insert_ne in Hb' by done; eauto.
Qed.

Lemma mem_insert_eq l b v i : (b < length l)%nat -> mem (<[b := v]> l) b i = member v i.
Proof. intros Hb; unfold mem; rewrite list_lookup_insert_eq; done. Qed.

Lemma mem_insert_ne l b b' v i : b' <> b -> mem (<[b := v]> l) b' i = mem l b' i.
Proof. intros Hb; unfold mem; rewrite list_lookup_insert_ne; done. Qed.

Lemma at_index_ok {A} (l : list A) b v : l !! b = Some v -> at_index l b = Ok v.
Proof. intros E; unfold at_index; rewrite E; done. Qed.

(** The number of members of a vector, and of all of them. *)
Definition count (v : BitVector.t) : nat := length (members_from v 0).
Definition total (l : list BitVector.t) : nat := sum_list_with count l.

Lemma filter_le {A} (P Q : A -> Prop) `{forall x, Decision (P x), forall x, Decision (Q x)} l :
  (forall x, x ∈ l -> P x -> Q x) -> (length (filter P l) <= length (filter Q l))%nat.
Proof.
  induction l as [| x l IH]; intros Hl; [done |]; rewrite !filter_cons.
  assert (length (filter P l) <= length (filter Q l))%nat by (apply IH; intros; apply Hl; [constructor |]; done).
  destruct (decide (P x)) as [Hp |], (decide (Q x)) as [| Hq]; cbn; try lia.
  destruct Hq; apply Hl; [constructor | done].
Qed.

Lemma filter_lt {A} (P Q : A -> Prop) `{forall x, Decision (P x), forall x, Decision (Q x)} l y :
  (forall x, x ∈ l -> P x -> Q x) -> y ∈ l -> ~ P y -> Q y ->
  (length (filter P l) < length (filter Q l))%nat.
Proof.
  intros Hl Hy Hp Hq; apply list_elem_of_split in Hy as (l1 & l2 & ->).
  rewrite !filter_app, !length_app, (filter_cons_False P), (filter_cons_True Q) by done; cbn.
  assert (length (filter P l1) <= length (filter Q l1))%nat by (apply filter_le; intros; apply Hl; set_solver).
  assert (length (filter P l2) <= length (filter Q l2))%nat by (apply filter_le; intros; apply Hl; set_solver).
  lia.
Qed.

Lemma count_grows v v' :
  bit_count v' = bit_count v -> (forall i, member v i = true -> member v' i = true) ->
  (exists i, 0 <= i < bit_count v /\ member v i = false /\ member v' i = true) ->
  (count v < count v')%nat.
Proof.
  intros E Hm (i & Hi & Hf & Ht); unfold count, members_from; rewrite E.
  apply (filter_lt _ _ _ i); [auto | apply elem_of_seqZ; lia | congruence | done].
Qed.

Lemma count_bound v : Z.of_nat (count v) <= Z.max 0 (bit_count v).
Proof.
  unfold count, members_from; pose proof (length_filter (fun i => member v i = true) (seqZ 0 (bit_count v - 0))) as Hl.
  rewrite length_seqZ in Hl; lia.
Qed.

Lemma total_insert l b v v' :
  l !! b = Some v -> (total (<[b := v']> l) + count v = total l + count v')%nat.
Proof.
  revert b; induction l as [| x l IH]; intros [| b] E; try done.
  - injection E as ->; change (<[0%nat := v']> (v :: l)) with (v' :: l); unfold total; cbn; lia.
  - change (<[S b := v']> (x :: l)) with (x :: <[b := v']> l); specialize (IH b E).
    unfold total in *; cbn [sum_list_with]; lia.
Qed.

Lemma total_bound blocks n l :
  vectors blocks n l -> 0 <= n ->
  Z.of_nat (total l) <= Z.of_nat blocks * (kBitsPerWord * BitVector.SizeFor n).
Proof.
  intros [<- Hv] Hn; pose proof BitSetProofs.word_pos; destruct (size_for n Hn) as [Hs _].
  assert (Forall (fun v => Z.of_nat (count v) <= kBitsPerWord * BitVector.SizeFor n) l) as Hall.
  { apply Forall_forall; intros v (b & Hb)%list_elem_of_lookup; destruct (Hv b v Hb) as [Hok En].
    pose proof (count_bound v) as Hc; unfold bit_count in Hc; rewrite (vo_size v Hok), En in Hc; nia. }
  clear Hv; induction Hall as [| v l Hc _ IH]; unfold total in *; cbn; [lia |]; nia.
Qed.
End Vectors.

(** * The iteration *)
Section Iteration.
Context `{Word} (succs : list (list nat)) (n : Z) (Hn : 0 <= n).
Hypothesis Hsuccs : forall b l s, succs !! b = Some l -> s ∈ l -> (s < length succs)%nat.
Context (gen killed : nat -> Z -> bool).

(** The variable [i] is live at the start of a block: the block has it in its initial set,
    or it is live at the start of a successor and not killed. *)
Inductive live (i : Z) : nat -> Prop :=
| live_gen b : gen b i = true -> live i b
| live_through b l s : succs !! b = Some l -> s ∈ l -> killed b i = false -> live i s -> live i b.

Definition live_after (i : Z) (b : nat) : Prop :=
  exists l s, succs !! b = Some l /\ s ∈ l /\ live i s.

(** Everything but [inv_flow], which says that the sets of a block are consistent. *)
Record inv_sets (a : Analysis) : Prop := mk_inv_sets {
  inv_count : variable_count_ a = n;
  inv_live_out : vectors (length succs) n (live_out_ a);
  inv_live_in : vectors (length succs) n (live_in_ a);
  inv_kill : vectors (length succs) n (kill_ a);
  inv_killed b i : mem (kill_ a) b i = killed b i;
  inv_gen b i : gen b i = true -> mem (live_in_ a) b i = true;
  inv_in b i : mem (live_in_ a) b i = true -> live i b;
  inv_out b i : mem (live_out_ a) b i = true -> live_after i b
}.

Definition flow_at (a : Analysis) (b : nat) : Prop :=
  forall i, mem (live_out_ a) b i = true -> killed b i = false -> mem (live_in_ a) b i = true.

Definition inv (a : Analysis) : Prop := inv_sets a /\ forall b, flow_at a b.

(** The sets grow. *)
Definition grows (a a' : Analysis) : Prop :=
  (forall b i, mem (live_out_ a) b i = true -> mem (live_out_ a') b i = true) /\
  (total (live_in_ a) <= total (live_in_ a'))%nat.

Lemma grows_trans a1 a2 a3 : grows a1 a2 -> grows a2 a3 -> grows a1 a3.
Proof. intros [H1 T1] [H2 T2]; split; [auto | lia]. Qed.

Lemma add_successors_ok l live_in v changed :
  vectors (length succs) n live_in -> (forall s, s ∈ l -> (s < length succs)%nat) ->
  vec_ok v -> BitVector.length_ v = n ->
  returns (add_successors l live_in v changed) (fun '(c, v') =>
    vec_ok v' /\ BitVector.length_ v' = n /\
    (forall i, member v' i = member v i || existsb (fun s => mem live_in s i) l) /\
    (changed = true -> c = true) /\ (c = false -> v' = v)).
Proof.
  intros Hin; revert v changed; induction l as [| s l IH]; intros v changed Hl Hv En; cbn [add_successors existsb].
  { apply returns_Ok; split_and!; try done; intros i; rewrite orb_false_r; done. }
  destruct (vectors_lookup _ _ _ s Hin) as (f & Ef & Hf & Enf & Em); [apply Hl; constructor |].
  rewrite (at_index_ok _ _ _ Ef); cbn [obind].
  call (AddAll_ok f v Hv Hf ltac:(congruence)) as [c v1] (Hv1 & En1 & Hm1 & Hc1); cbn [fst snd] in *.
  eapply returns_mono; [apply IH; [intros; apply Hl; constructor; done | done | congruence] |].
  intros [c' v2] (Hv2 & En2 & Hm2 & Hs2 & Hc2); split_and!; try done.
  - intros i; rewrite Hm2, Hm1, Em, orb_assoc; done.
  - intros ->; apply Hs2; destruct c; done.
  - intros ->; rewrite Hc2 by done; destruct c; [specialize (Hs2 eq_refl); done | done].
Qed.

(** The live-out set of a block after it was updated. *)
Definition out_closed (a : Analysis) (live_in : list BitVector.t) (b : nat) : Prop :=
  forall l s i, succs !! b = Some l -> s ∈ l -> mem live_in s i = true -> mem (live_out_ a) b i = true.

Lemma UpdateLiveOut_ok b a :
  inv_sets a -> (b < length succs)%nat ->
  returns (UpdateLiveOut succs b a) (fun '(c, a') =>
    inv_sets a' /\ live_in_ a' = live_in_ a /\ grows a a' /\ out_closed a' (live_in_ a) b /\
    (forall b', flow_at a b' -> b' <> b -> flow_at a' b') /\
    (c = false -> live_out_ a' = live_out_ a)).
Proof.
  intros [Ec Ho Hi Hk Hkd Hg Hin Hout] Hb; unfold UpdateLiveOut.
  destruct (vectors_lookup _ _ _ b Ho Hb) as (v & Ev & Hv & En & Em); rewrite (at_index_ok _ _ _ Ev); cbn [obind].
  destruct (lookup_lt_is_Some_2 succs b Hb) as [l El]; rewrite (at_index_ok _ _ _ El); cbn [obind].
  call (add_successors_ok l (live_in_ a) v false) as [c v'] (Hv' & En' & Hm & _ & Hc); try done; [eauto |].
  apply returns_Ok; pose proof Ho as [Hlen _].
  assert (forall i, mem (<[b := v']> (live_out_ a)) b i = member v' i) as Eb.
  { intros i; apply mem_insert_eq; lia. }
  assert (forall i, mem (live_out_ a) b i = true -> member v' i = true) as Hmono.
  { intros i; rewrite Em, Hm; intros ->; done. }
  split_and!; [constructor; cbn; try done | done | split; [| done] | | |].
  - apply vectors_insert; done.
  - intros b' i; destruct (decide (b' = b)) as [-> | Hne]; [| rewrite mem_insert_ne by done; auto].
    rewrite Eb, Hm; intros [Hold | (s & Hs & Hms)%existsb_exists]%orb_true_iff; [apply Hout; rewrite Em; done |].
    exists l, s; split_and!; [done | apply list_elem_of_In; done | auto].
  - intros b' i; cbn; destruct (decide (b' = b)) as [-> | Hne]; [rewrite Eb; auto | rewrite mem_insert_ne; done].
  - intros l' s i El' Hs Hms; cbn; rewrite Eb, Hm; apply orb_true_iff; right; apply existsb_exists.
    exists s; split; [apply list_elem_of_In; congruence | done].
  - intros b' Hf Hne i; unfold flow_at in Hf; cbn; rewrite mem_insert_ne by done; auto.
  - intros ->; cbn; rewrite Hc, list_insert_id; done.
Qed.

Lemma UpdateLiveIn_ok b a :
  inv_sets a -> (b < length succs)%nat ->
  returns (UpdateLiveIn b a) (fun '(c, a') =>
    inv_sets a' /\ live_out_ a' = live_out_ a /\ flow_at a' b /\
    (forall b', flow_at a b' -> flow_at a' b') /\
    if c then (total (live_in_ a) < total (live_in_ a'))%nat else live_in_ a' = live_in_ a).
Proof.
  intros [Ec Ho Hi Hk Hkd Hg Hin Hout] Hb; unfold UpdateLiveIn.
  destruct (vectors_lookup _ _ _ b Ho Hb) as (vo & Evo & Hvo & Eno & Emo); rewrite (at_index_ok _ _ _ Evo); cbn [obind].
  destruct (vectors_lookup _ _ _ b Hk Hb) as (vk & Evk & Hvk & Enk & Emk); rewrite (at_index_ok _ _ _ Evk); cbn [obind].
  destruct (vectors_lookup _ _ _ b Hi Hb) as (vi & Evi & Hvi & Eni & Emi); rewrite (at_index_ok _ _ _ Evi); cbn [obind].
  call (KillAndAdd_ok vk vo vi Hvi Hvk Hvo ltac:(congruence) ltac:(congruence)) as [c v'] (Hv' & En' & Hm & Hc).
  cbn [fst snd] in *; apply returns_Ok; pose proof Hi as [Hlen _].
  assert (forall i, mem (<[b := v']> (live_in_ a)) b i = member v' i) as Eb.
  { intros i; apply mem_insert_eq; lia. }
  assert (forall b' i, mem (live_in_ a) b' i = true -> mem (<[b := v']> (live_in_ a)) b' i = true) as Hmono.
  { intros b' i; destruct (decide (b' = b)) as [-> | Hne]; [| rewrite mem_insert_ne; done].
    rewrite Eb, Emi, Hm; intros ->; done. }
  split_and!; [constructor; cbn; try done | done | | |].
  - apply vectors_insert; congruence.
  - intros; apply Hmono; auto.
  - intros b' i; destruct (decide (b' = b)) as [-> | Hne]; [| rewrite mem_insert_ne by done; auto].
    rewrite Eb, Hm, <- Emo, <- Emk, <- Emi, Hkd.
    intros [Hold | [Hl Hnk%negb_true_iff]%andb_true_iff]%orb_true_iff; [auto |].
    destruct (Hout b i Hl) as (l & s & El & Hs & Hlive); apply (live_through i b l s); done.
  - intros i Hl Hnk; cbn in *; rewrite Eb, Hm, <- Emo, <- Emk, Hkd, Hl, Hnk; apply orb_true_r.
  - intros b' Hf i Hl Hnk; cbn in *; apply Hmono, Hf; done.
  - cbn [live_in_ set_live_in]; destruct c; [| rewrite Hc, list_insert_id; done].
    assert (count vi < count v')%nat.
    { apply count_grows; [unfold bit_count; rewrite (same_size v' vi); done | | done].
      intros i; rewrite Hm; intros ->; done. }
    pose proof (total_insert (live_in_ a) b vi v' Evi); lia.
Qed.

(** The update of one block, and of those from [i] on. *)
Lemma update_block_ok b a :
  inv a -> (b < length succs)%nat ->
  returns (update_block succs b a) (fun '(c, a') =>
    inv a' /\ grows a a' /\
    if c then (total (live_in_ a) < total (live_in_ a'))%nat
    else live_in_ a' = live_in_ a /\ out_closed a' (live_in_ a') b).
Proof.
  intros [Hs Hf] Hb; unfold update_block; call (UpdateLiveOut_ok b a Hs Hb) as [c a1] (Hs1 & Ei & Hg & Hcl & Hf1 & Hc).
  destruct c.
  - eapply returns_mono; [apply (UpdateLiveIn_ok b a1 Hs1 Hb) |].
    intros [c a2] (Hs2 & Eo & Hfb & Hf2 & Hc2); rewrite <- Ei.
    assert (inv a2) as Hinv.
    { split; [done |]; intros b'; destruct (decide (b' = b)) as [-> |]; auto. }
    assert (total (live_in_ a1) <= total (live_in_ a2))%nat.
    { destruct c; [lia | rewrite Hc2; done]. }
    split_and!; [done | |].
    + destruct Hg as [Hg1 Hg2]; split; [rewrite Eo; done | rewrite <- Ei; done].
    + destruct c; [done |]; split; [done |]; unfold out_closed in *; rewrite Eo, Hc2, Ei; done.
  - apply returns_Ok; split_and!; [split; [done |] | done | done | rewrite Ei; done].
    intros b'; unfold flow_at; rewrite Ei, (Hc eq_refl); apply Hf.
Qed.

Lemma update_blocks_ok m : forall b changed a,
  inv a -> (b + m)%nat = length succs ->
  returns (update_blocks succs m b changed a) (fun '(c, a') =>
    inv a' /\ grows a a' /\ (changed = true -> c = true) /\
    if c then changed = true \/ (total (live_in_ a) < total (live_in_ a'))%nat
    else live_in_ a' = live_in_ a /\ forall b', (b <= b' < length succs)%nat -> out_closed a' (live_in_ a') b').
Proof.
  induction m as [| m IH]; intros b changed a Hinv Hm; cbn [update_blocks].
  { apply returns_Ok; split; [done |]; split; [split; [auto | lia] |]; split; [done |].
    destruct changed; [auto |]; split; [done |]; intros; lia. }
  call (update_block_ok b a Hinv ltac:(lia)) as [c a1] (Hinv1 & Hg1 & Hc1).
  eapply returns_mono; [apply (IH (S b) (if c then true else changed) a1); [done | lia] |].
  intros [c' a2] (Hinv2 & Hg2 & Hch2 & Hc2); split_and!; [done | eapply grows_trans; done | |].
  - intros ->; apply Hch2; destruct c; done.
  - destruct Hg1 as [Go1 Gt1], Hg2 as [Go2 Gt2]; destruct c'.
    + destruct c; [right; lia |]; destruct Hc2 as [? | ?]; [auto | right; lia].
    + destruct c; [specialize (Hch2 eq_refl); done |].
      destruct Hc1 as [E1 Hcl1], Hc2 as [E2 Hcl2]; split; [congruence |].
      intros b' Hb'; destruct (decide (b' = b)) as [-> |]; [| apply Hcl2; lia].
      intros l s i El Hs Hi; apply Go2, (Hcl1 l s i El Hs); congruence.
Qed.

(** The result: exactly the live variables. *)
Definition exact (a : Analysis) : Prop :=
  inv_sets a /\ (forall b i, mem (live_in_ a) b i = true <-> live i b) /\
  (forall b i, mem (live_out_ a) b i = true <-> live_after i b).

Lemma closed_exact a :
  inv a -> (forall b, (b < length succs)%nat -> out_closed a (live_in_ a) b) -> exact a.
Proof.
  intros [Hs Hf] Hcl; pose proof Hs as [_ _ _ _ _ Hg Hin Hout].
  assert (forall b i, live i b -> mem (live_in_ a) b i = true) as Hlive.
  { intros b i; induction 1 as [b Hgb | b l s El Hsl Hk _ IH]; [auto |].
    apply Hf; [| done]; apply (Hcl b (lookup_lt_Some _ _ _ El) l s i); done. }
  split_and!; [done | |]; intros b i; split; auto.
  intros (l & s & El & Hsl & Hl); apply (Hcl b (lookup_lt_Some _ _ _ El) l s i); auto.
Qed.

Lemma update_loop_ok fuel a :
  inv a ->
  Z.of_nat (length succs) * (kBitsPerWord * BitVector.SizeFor n) - Z.of_nat (total (live_in_ a)) < Z.of_nat fuel ->
  returns (update_loop succs fuel a) exact.
Proof.
  revert a; induction fuel as [| fuel IH]; intros a Hinv Hf.
  { pose proof (total_bound _ _ _ (inv_live_in a (proj1 Hinv)) Hn); lia. }
  cbn [update_loop]; call (update_blocks_ok (length succs) 0 false a Hinv eq_refl) as [c a1] (Hinv1 & Hg1 & _ & Hc).
  destruct c.
  - apply IH; [done |]; destruct Hc as [? | ?]; [done | lia].
  - destruct Hc as [E Hcl]; apply returns_Ok, closed_exact; [done |]; intros; apply Hcl; lia.
Qed.

Lemma ComputeLiveInAndLiveOutSets_ok a :
  inv a -> returns (ComputeLiveInAndLiveOutSets succs a) exact.
Proof.
  intros Hinv; apply update_loop_ok; [done |]; rewrite (inv_count a (proj1 Hinv)).
  destruct (size_for n Hn) as [Hs _]; pose proof BitSetProofs.word_pos.
  assert (0 <= Z.of_nat (length succs) * (kBitsPerWord * BitVector.SizeFor n)) by nia; lia.
Qed.
End Iteration.
