(* ===== verification/VariableLivenessProofs.v ===== *)
(** Liveness of local variables is exact: a variable is in the live-in set of a block if
    and only if some path from the start of the block reads it before it is written, and
    a store is found dead if and only if no path from it reads the variable first. *)
From stdpp Require Import base numbers list sets.
From Stdlib Require Import ZArith Lia Bool.
From S2P Require Import Prelude Utils Locations BitVector BitVectorProofs Liveness LivenessProofs.
#[local] Open Scope Z_scope.

Section Variables.
Context `{Word} `{FrameLayout} (np n : Z) (Hn : 0 <= n).

(** The bit of a variable. *)
Definition bit_of (l : LocalVariable) : Z :=
  match BitIndexIn np l with Ok i => i | Err _ => -1 end.

(** The bit tells the variables of a frame apart: parameters are above the slot
    [kParamEndSlotFromFp], locals at [kFirstLocalSlotFromFp] and below. *)
Lemma BitIndexIn_inj l l' i i' b :
  kFirstLocalSlotFromFp < 0 <= kParamEndSlotFromFp ->
  index l = Ok i -> index l' = Ok i' ->
  kParamEndSlotFromFp < i \/ i <= kFirstLocalSlotFromFp ->
  kParamEndSlotFromFp < i' \/ i' <= kFirstLocalSlotFromFp ->
  BitIndexIn np l = Ok b -> BitIndexIn np l' = Ok b -> i = i'.
Proof.
  unfold BitIndexIn; intros Hfp -> -> Hi Hi'.
  destruct (is_captured l); [done |]; destruct (is_captured l'); [done |]; cbn [negb obind].
  destruct (Z.gtb_spec i 0), (Z.gtb_spec i' 0); intros [= <-] [=]; lia.
Qed.

Definition local_ok (l : LocalVariable) : Prop := BitIndexIn np l = Ok (bit_of l) /\ 0 <= bit_of l.

Definition instruction_ok (i : Instruction) : Prop :=
  match i with
  | LoadLocal l _ | StoreLocal l _ _ => local_ok l
  | OtherInstruction => True
  end.

(** * What a list of instructions does to the variable [v] *)
Definition loads (v : Z) (i : Instruction) : bool :=
  match i with LoadLocal l _ => bit_of l =? v | _ => false end.
Definition stores (v : Z) (i : Instruction) : bool :=
  match i with StoreLocal l _ _ => bit_of l =? v | _ => false end.

(** It is read before it is written; it is written; it is read. *)
Fixpoint reads_first (v : Z) (il : list Instruction) : bool :=
  match il with
  | [] => false
  | i :: il => loads v i || (negb (stores v i) && reads_first v il)
  end.
Definition writes (v : Z) (il : list Instruction) : bool := existsb (stores v) il.
Definition reads (v : Z) (il : list Instruction) : bool := existsb (loads v) il.

(** The marks that a scan gives to an instruction before [rest]. *)
Definition mark (i : Instruction) (rest : list Instruction) : Instruction :=
  match i with
  | LoadLocal l last =>
      LoadLocal l (if (bit_of l <? n) && negb (reads (bit_of l) rest) then true else last)
  | StoreLocal l dead last =>
      let unread := (bit_of l <? n) && negb (reads_first (bit_of l) rest) in
      let written := writes (bit_of l) rest in
      StoreLocal l (dead || (written && unread)) (last || (negb written && unread))
  | OtherInstruction => OtherInstruction
  end.

Fixpoint mark_all (il : list Instruction) : list Instruction :=
  match il with
  | [] => []
  | i :: il => mark i il :: mark_all il
  end.

(** * Scanning a block *)
Record scanned (il : list Instruction) (s : Sets) : Prop := mk_scanned {
  sc_kill : vec_ok (kill s) /\ BitVector.length_ (kill s) = n;
  sc_in : vec_ok (live_in s) /\ BitVector.length_ (live_in s) = n;
  sc_loads : vec_ok (last_loads s) /\ BitVector.length_ (last_loads s) = n;
  sc_writes v : 0 <= v < n -> member (kill s) v = writes v il;
  sc_first v : 0 <= v < n -> member (live_in s) v = reads_first v il;
  sc_reads v : 0 <= v < n -> member (last_loads s) v = reads v il
}.

(** A variable without a bit leaves the sets alone. *)
Lemma scanned_skip i il s :
  (forall v, 0 <= v < n -> loads v i = false /\ stores v i = false) ->
  scanned il s -> scanned (i :: il) s.
Proof.
  intros Hi [? ? ? Hw Hf Hr]; constructor; try done; intros v Hv; destruct (Hi v Hv) as [El Es].
  - unfold writes; cbn [existsb]; rewrite Es; apply Hw; done.
  - cbn [reads_first]; rewrite El, Es; apply Hf; done.
  - unfold reads; cbn [existsb]; rewrite El; apply Hr; done.
Qed.

Lemma scan_load_ok l last il s :
  local_ok l -> scanned il s ->
  returns (scan_load np l last s) (fun '(i, s') =>
    i = mark (LoadLocal l last) il /\ scanned (LoadLocal l last :: il) s').
Proof.
  intros [El Hl] Hs; pose proof Hs as [[Hk Ek] [Hi Ei] [Hll Ell] Hw Hf Hr]; unfold scan_load; rewrite El; cbn [obind].
  rewrite Ei; cbn [mark]; destruct (Z.geb_spec (bit_of l) n).
  { rewrite (proj2 (Z.ltb_ge _ _)) by lia; apply returns_Ok; split; [done |].
    apply scanned_skip; [| done]; intros v Hv; cbn; split; [apply Z.eqb_neq; lia | done]. }
  rewrite (proj2 (Z.ltb_lt (bit_of l) n)) by lia; cbn [andb].
  call (vector_Add_ok (live_in s) (bit_of l) Hi ltac:(lia)) as v' (Hv' & En' & Hm'); cbn [last_loads live_in kill].
  rewrite Contains_ok by lia; cbn [obind]; rewrite Hr by lia.
  assert (forall s', kill s' = kill s -> live_in s' = v' -> vec_ok (last_loads s') /\ BitVector.length_ (last_loads s') = n ->
    (forall v, 0 <= v < n -> member (last_loads s') v = (v =? bit_of l) || member (last_loads s) v) ->
    scanned (LoadLocal l last :: il) s') as Hdone.
  { intros s' E1 E2 Hl' Hm; constructor; rewrite ?E1, ?E2; try done; [split; congruence || done | |]; intros v Hv.
    - cbn [reads_first loads stores negb andb]; rewrite Hm', Hf, Z.eqb_sym by lia; done.
    - unfold reads; cbn [existsb loads]; rewrite Hm, Hr, Z.eqb_sym by lia; done. }
  destruct (reads (bit_of l) il) eqn:Er; cbn [negb].
  - apply returns_Ok; split; [done |]; apply Hdone; try done.
    intros v Hv; cbn [last_loads]; destruct (Z.eqb_spec v (bit_of l)) as [-> |]; [| done].
    rewrite Hr, Er by lia; done.
  - call (vector_Add_ok (last_loads s) (bit_of l) Hll ltac:(lia)) as w (Hw' & Ew & Hmw).
    apply returns_Ok; split; [done |]; apply Hdone; try done; [cbn; split; congruence || done |].
    intros v Hv; cbn; apply Hmw; lia.
Qed.

Lemma scan_store_ok l dead last il s :
  local_ok l -> scanned il s ->
  returns (scan_store np l dead last s) (fun '(i, s') =>
    i = mark (StoreLocal l dead last) il /\ scanned (StoreLocal l dead last :: il) s').
Proof.
  intros [El Hl] Hs; pose proof Hs as [[Hk Ek] [Hi Ei] [Hll Ell] Hw Hf Hr]; unfold scan_store; rewrite El; cbn [obind].
  rewrite Ei; cbn [mark]; destruct (Z.geb_spec (bit_of l) n).
  { rewrite (proj2 (Z.ltb_ge _ _)) by lia; cbn [andb]; rewrite !andb_false_r, !orb_false_r.
    apply returns_Ok; split; [done |].
    apply scanned_skip; [| done]; intros v Hv; cbn; split; [done | apply Z.eqb_neq; lia]. }
  rewrite (proj2 (Z.ltb_lt (bit_of l) n)), !Contains_ok by lia; cbn [andb obind].
  rewrite Hw, Hf by lia; set (written := writes (bit_of l) il); set (live := reads_first (bit_of l) il).
  assert (returns (if written then Ok (StoreLocal l (dead || negb live) last, s)
      else let* v := BitVector.Add (bit_of l) (kill s) in
           Ok (StoreLocal l dead (last || negb live), mkSets v (live_in s) (last_loads s)))
    (fun '(i, s') => i = StoreLocal l (dead || (written && negb live)) (last || (negb written && negb live)) /\
      live_in s' = live_in s /\ last_loads s' = last_loads s /\
      vec_ok (kill s') /\ BitVector.length_ (kill s') = n /\
      forall v, 0 <= v < n -> member (kill s') v = (v =? bit_of l) || writes v il)) as Hstep.
  { destruct written eqn:Ew; cbn [negb andb].
    - rewrite orb_false_r; apply returns_Ok; split_and!; try done; intros v Hv.
      destruct (Z.eqb_spec v (bit_of l)) as [-> |]; rewrite Hw by lia; done.
    - rewrite orb_false_r; call (vector_Add_ok (kill s) (bit_of l) Hk ltac:(lia)) as w (Hw' & Enw & Hmw).
      apply returns_Ok; cbn; split_and!; try done; [congruence |]; intros v Hv; rewrite Hmw, Hw by lia; done. }
  call Hstep as [i s1] (-> & E1 & E2 & Hk1 & Ek1 & Hm1); rewrite E1.
  call (Remove_ok (live_in s) (bit_of l) Hi ltac:(lia)) as w (Hw' & Enw & Hmw).
  apply returns_Ok; split; [done |]; constructor; cbn [kill live_in last_loads]; rewrite ?E2; try done;
    [split; congruence || done | |]; intros v Hv.
  - unfold writes; cbn [existsb stores]; rewrite Hm1, Z.eqb_sym by done; done.
  - cbn [reads_first loads stores orb]; rewrite Hmw, Hf, Z.eqb_sym by lia; done.
Qed.

Lemma scan_instructions_ok il s :
  Forall instruction_ok il -> scanned [] s ->
  returns (scan_instructions np il s) (fun '(il', s') => il' = mark_all il /\ scanned il s').
Proof.
  intros Hil Hs; induction Hil as [| i il Hi _ IH]; cbn [scan_instructions]; [apply returns_Ok; done |].
  call IH as [il' s1] [-> Hs1]; destruct i as [l last | l dead last |]; cbn [scan_instruction].
  - call (scan_load_ok l last il s1 Hi Hs1) as [i s2] [-> Hs2]; apply returns_Ok; done.
  - call (scan_store_ok l dead last il s1 Hi Hs1) as [i s2] [-> Hs2]; apply returns_Ok; done.
  - apply returns_Ok; split; [done |]; apply scanned_skip; done.
Qed.

(** * The initial sets *)
Definition block_ok (b : BlockEntry) : Prop := Forall instruction_ok (instructions b).

Definition mark_block (b : BlockEntry) : BlockEntry :=
  if InsideTryBlock b then b
  else mkBlock (mark_all (instructions b)) (successors_of b) (try_index_ b).

(** A block inside of a try block is taken to read everything, and to write nothing. *)
Definition block_reads (v : Z) (b : BlockEntry) : bool :=
  InsideTryBlock b || reads_first v (instructions b).
Definition block_writes (v : Z) (b : BlockEntry) : bool :=
  negb (InsideTryBlock b) && writes v (instructions b).

Lemma initial_blocks_ok N blocks : forall i loads a,
  Forall block_ok blocks -> vec_ok loads -> BitVector.length_ loads = n ->
  variable_count_ a = n -> vectors N n (kill_ a) -> vectors N n (live_in_ a) ->
  (i + length blocks <= N)%nat ->
  (forall j v, (i <= j)%nat -> mem (kill_ a) j v = false /\ mem (live_in_ a) j v = false) ->
  returns (initial_blocks np blocks i loads a) (fun '(blocks', a') =>
    blocks' = map mark_block blocks /\
    variable_count_ a' = n /\ live_out_ a' = live_out_ a /\
    vectors N n (kill_ a') /\ vectors N n (live_in_ a') /\
    (forall j v, (j < i)%nat -> mem (kill_ a') j v = mem (kill_ a) j v /\
                               mem (live_in_ a') j v = mem (live_in_ a) j v) /\
    forall k b v, blocks !! k = Some b -> 0 <= v < n ->
      mem (kill_ a') (i + k) v = block_writes v b /\ mem (live_in_ a') (i + k) v = block_reads v b).
Proof.
  induction blocks as [| b blocks IH]; intros i lv a Hbs Hlv Elv Ec Hk Hi HN He; cbn [initial_blocks].
  { apply returns_Ok; split_and!; done. }
  inversion_clear Hbs as [| ? ? Hb Hbs']; cbn [length] in HN.
  destruct (vectors_lookup _ _ _ i Hk ltac:(lia)) as (k & Ek & Hvk & Enk & Emk); rewrite (at_index_ok _ _ _ Ek); cbn [obind].
  destruct (vectors_lookup _ _ _ i Hi ltac:(lia)) as (l & El & Hvl & Enl & Eml); rewrite (at_index_ok _ _ _ El); cbn [obind].
  destruct (Clear_ok lv Hlv) as (Hc & Ecl & Hmc); rewrite Elv in Ecl.
  assert (forall k' l' loads', vec_ok k' -> BitVector.length_ k' = n -> vec_ok l' -> BitVector.length_ l' = n ->
    vec_ok loads' -> BitVector.length_ loads' = n ->
    (forall v, 0 <= v < n -> member k' v = block_writes v b /\ member l' v = block_reads v b) ->
    returns (let* (blocks', a') := initial_blocks np blocks (S i) loads' (set_live_in i l' (set_kill i k' a)) in
             Ok (mark_block b :: blocks', a')) (fun '(blocks', a') =>
      blocks' = map mark_block (b :: blocks) /\
      variable_count_ a' = n /\ live_out_ a' = live_out_ a /\
      vectors N n (kill_ a') /\ vectors N n (live_in_ a') /\
      (forall j v, (j < i)%nat -> mem (kill_ a') j v = mem (kill_ a) j v /\
                                 mem (live_in_ a') j v = mem (live_in_ a) j v) /\
      forall k b' v, (b :: blocks) !! k = Some b' -> 0 <= v < n ->
        mem (kill_ a') (i + k) v = block_writes v b' /\ mem (live_in_ a') (i + k) v = block_reads v b')) as Hnext.
  { intros k' l' loads' Hk' Ek' Hl' El' Hlo Elo Hm; pose proof (proj1 Hk) as Lk; pose proof (proj1 Hi) as Li.
    call (IH (S i) loads' (set_live_in i l' (set_kill i k' a))) as [blocks' a']
      (-> & Ec' & Eo & Hvk' & Hvi' & Hold & Hnew); try done; cbn [kill_ live_in_ set_live_in set_kill].
    - apply vectors_insert; done.
    - apply vectors_insert; done.
    - lia.
    - intros j v Hj; rewrite !mem_insert_ne by lia; apply He; lia.
    - apply returns_Ok; split_and!; try done.
      + intros j v Hj; destruct (Hold j v ltac:(lia)) as [-> ->]; cbn; rewrite !mem_insert_ne by lia; done.
      + intros [| k0] b' v Hb' Hv; cbn in Hb'.
        * injection Hb' as <-; rewrite Nat.add_0_r; destruct (Hold i v ltac:(lia)) as [-> ->]; cbn.
          rewrite !mem_insert_eq by lia; apply Hm; done.
        * replace (i + S k0)%nat with (S i + k0)%nat by lia; apply Hnew; done. }
  destruct (InsideTryBlock b) eqn:Et.
  - assert (mark_block b = b) as Eb by (unfold mark_block; rewrite Et; done); rewrite Eb in Hnext.
    destruct (SetAll_ok l Hvl) as (Hsa & Esa & Hma).
    assert (a = set_kill i k a) as Ea.
    { destruct a; unfold set_kill; cbn in *; rewrite list_insert_id; done. }
    rewrite Ea at 1; apply Hnext; try done; try congruence; intros v Hv; unfold block_writes, block_reads.
    rewrite Et, <- Emk; split; [apply He; lia |]; apply Hma; pose proof (length_bits l Hvl); lia.
  - assert (mark_block b = mkBlock (mark_all (instructions b)) (successors_of b) (try_index_ b)) as Eb
      by (unfold mark_block; rewrite Et; done); rewrite Eb in Hnext.
    call (scan_instructions_ok (instructions b) (mkSets k l (BitVector.Clear lv)) Hb) as [il s]
      [-> [[? ?] [? ?] [? ?] Hw Hf _]].
    + constructor; try done; intros v Hv; cbn; [rewrite <- Emk | rewrite <- Eml]; apply He; lia.
    + apply Hnext; try done; intros v Hv; unfold block_writes, block_reads; rewrite Et.
      split; [apply Hw | apply Hf]; done.
Qed.

(** * Paths *)
(** A point of the graph: the start of a block, or before the instructions [rest] at the
    end of a block. *)
Inductive point := Entry (b : nat) | Before (b : nat) (rest : list Instruction).

Context (blocks : list BlockEntry).

(** Some path from the point reads [v] before it writes it.  Inside of a try block, any
    variable may be read at once, by a handler. *)
Inductive used (v : Z) : point -> Prop :=
| used_try b blk :
    blocks !! b = Some blk -> InsideTryBlock blk = true -> used v (Entry b)
| used_entry b blk :
    blocks !! b = Some blk -> used v (Before b (instructions blk)) -> used v (Entry b)
| used_load b i rest : loads v i = true -> used v (Before b (i :: rest))
| used_skip b i rest :
    loads v i = false -> stores v i = false -> used v (Before b rest) -> used v (Before b (i :: rest))
| used_next b blk s :
    blocks !! b = Some blk -> s ∈ successors_of blk -> used v (Entry s) -> used v (Before b []).

Lemma used_before v b rest :
  used v (Before b rest) <->
  reads_first v rest = true \/ (writes v rest = false /\ used v (Before b [])).
Proof.
  induction rest as [| i rest IH]; cbn [reads_first].
  { split; [auto | intros [? | [_ ?]]; done]. }
  unfold writes in *; cbn [existsb]; split.
  - intros Hu; inversion Hu as [| | b' i' rest' El | b' i' rest' El Es Hr |]; subst; [rewrite El; auto |].
    rewrite El, Es; cbn [negb andb orb]; apply IH; done.
  - intros Hu; destruct (loads v i) eqn:El; [apply used_load; done |].
    destruct (stores v i) eqn:Es; cbn [negb andb orb] in Hu; [destruct Hu as [? | [? _]]; done |].
    apply used_skip; [done | done |]; apply IH; done.
Qed.

(** The sets of the analysis describe the paths. *)
Context (gen killed : nat -> Z -> bool).
Hypothesis Hgen : forall b blk v, blocks !! b = Some blk -> 0 <= v < n -> gen b v = block_reads v blk.
Hypothesis Hkilled : forall b blk v, blocks !! b = Some blk -> 0 <= v < n -> killed b v = block_writes v blk.
Hypothesis Hnone : forall b v, blocks !! b = None -> gen b v = false.

#[local] Abbreviation live := (live (map successors_of blocks) gen killed).
#[local] Abbreviation live_after := (live_after (map successors_of blocks) gen killed).

Lemma block_successors b l s :
  map successors_of blocks !! b = Some l -> s ∈ l ->
  exists blk, blocks !! b = Some blk /\ s ∈ successors_of blk.
Proof.
  intros Hl Hs; apply list_lookup_fmap_Some in Hl as (blk & -> & Hb); eauto.
Qed.

Lemma live_used v b : 0 <= v < n -> live v b -> used v (Entry b).
Proof.
  intros Hv; induction 1 as [b Hg | b l s Hl Hs Hk _ IH].
  - destruct (blocks !! b) as [blk |] eqn:Eb; [| rewrite Hnone in Hg; done].
    rewrite (Hgen b blk) in Hg by done; unfold block_reads in Hg.
    destruct (InsideTryBlock blk) eqn:Et; [apply (used_try v b blk); done |].
    apply (used_entry v b blk); [done |]; apply used_before; auto.
  - destruct (block_successors b l s Hl Hs) as (blk & Eb & Hs').
    rewrite (Hkilled b blk) in Hk by done; unfold block_writes in Hk.
    destruct (InsideTryBlock blk) eqn:Et; [apply (used_try v b blk); done |].
    apply (used_entry v b blk); [done |]; apply used_before; right; split; [done |].
    apply (used_next v b blk s); done.
Qed.

Lemma used_live v p :
  0 <= v < n -> used v p ->
  match p with
  | Entry b => live v b
  | Before b rest => reads_first v rest = true \/ (writes v rest = false /\ live_after v b)
  end.
Proof.
  intros Hv; induction 1 as [b blk Eb Et | b blk Eb _ IH | b i rest El | b i rest El Es _ IH | b blk s Eb Hs _ IH].
  - apply live_gen; rewrite (Hgen b blk) by done; unfold block_reads; rewrite Et; done.
  - destruct (InsideTryBlock blk) eqn:Et.
    { apply live_gen; rewrite (Hgen b blk) by done; unfold block_reads; rewrite Et; done. }
    destruct IH as [Hr | [Hw (l & s & El & Hs & Hl)]].
    + apply live_gen; rewrite (Hgen b blk) by done; unfold block_reads; rewrite Hr; apply orb_true_r.
    + apply (live_through _ _ _ v b l s El Hs); [| done].
      rewrite (Hkilled b blk) by done; unfold block_writes; rewrite Hw; apply andb_false_r.
  - left; cbn; rewrite El; done.
  - cbn [reads_first]; unfold writes in *; cbn [existsb]; rewrite El, Es; done.
  - right; split; [done |]; exists (successors_of blk), s; split_and!; [| done | done].
    apply list_lookup_fmap_Some; eauto.
Qed.
End Variables.

(** * The analysis *)
Section Analysis.
Context `{Word} `{FrameLayout} (np n : Z) (Hn : 0 <= n) (blocks : list BlockEntry).

(** The locals have frame slots, and the successors are blocks of the graph. *)
Definition graph_ok : Prop :=
  Forall (block_ok np) blocks /\
  forall b blk s, blocks !! b = Some blk -> s ∈ successors_of blk -> (s < length blocks)%nat.

Lemma new_vectors N : vectors N n (replicate N (BitVector.new n)) /\
  forall b v, mem (replicate N (BitVector.new n)) b v = false.
Proof.
  destruct (new_ok n Hn) as [Hv Hm]; split; [split; [apply length_replicate |] |].
  - intros b v [-> _]%lookup_replicate; done.
  - intros b v; unfold mem; destruct (_ !! b) eqn:E; [| done].
    apply lookup_replicate in E as [-> _]; apply Hm.
Qed.

(** The sets hold exactly the variables that are read on a path. *)
Definition sets_exact (a : Analysis) : Prop :=
  vectors (length blocks) n (live_out_ a) /\
  forall b v, (b < length blocks)%nat -> 0 <= v < n ->
    (mem (live_in_ a) b v = true <-> used np blocks v (Entry b)) /\
    (mem (live_out_ a) b v = true <-> used np blocks v (Before b [])).

Lemma Analyze_variables_ok :
  graph_ok -> returns (Analyze_variables np blocks n) (fun '(blocks', a) =>
    blocks' = map (mark_block np n) blocks /\ sets_exact a).
Proof.
  intros [Hb Hs]; unfold Analyze_variables, Analyze; rewrite length_map.
  set (vs := replicate (length blocks) (BitVector.new n)).
  destruct (new_vectors (length blocks)) as [Hvs Hm]; fold vs in Hvs, Hm; destruct (new_ok n Hn) as [Hnew _].
  unfold ComputeInitialSets; cbn [variable_count_].
  call (initial_blocks_ok np n (length blocks) blocks 0 (BitVector.new n) (mkAnalysis n vs vs vs))
    as [blocks' a1] (-> & Ec & Eo & Hk & Hi & _ & Hsets); try done.
  set (gen := mem (live_in_ a1)); set (killed := mem (kill_ a1)); set (succs := map successors_of blocks).
  assert (length succs = length blocks) as El by apply length_map.
  assert (forall b l s, succs !! b = Some l -> s ∈ l -> (s < length succs)%nat) as Hsuccs.
  { intros b l s (blk & -> & Eb)%list_lookup_fmap_Some Hin; rewrite El; eauto. }
  call (ComputeLiveInAndLiveOutSets_ok succs n Hn Hsuccs gen killed a1) as a2 ([_ Ho _ _ _ _ _ _] & Hin & Hout).
  { split; [constructor | intros b v]; rewrite ?El, ?Eo; try done.
    - intros b v; apply live_gen.
    - intros b v Hv; rewrite Hm in Hv; done.
    - rewrite Hm; done. }
  rewrite El in Ho; apply returns_Ok; split; [done | split; [done |]]; intros b v Hbl Hv; rewrite Hin, Hout.
  assert (forall b blk v, blocks !! b = Some blk -> 0 <= v < n ->
    gen b v = block_reads np v blk /\ killed b v = block_writes np v blk) as Hspec.
  { intros b' blk v' Eb Hv'; destruct (Hsets b' blk v' Eb Hv'); done. }
  assert (forall b v, blocks !! b = None -> gen b v = false) as Hnone.
  { intros b' v' Eb; unfold gen, mem; rewrite (lookup_ge_None_2 (live_in_ a1)); [done |].
    rewrite (proj1 Hi); apply lookup_ge_None; done. }
  pose proof (live_used np n blocks gen killed (fun b blk v E Hv => proj1 (Hspec b blk v E Hv))
    (fun b blk v E Hv => proj2 (Hspec b blk v E Hv)) Hnone) as Hlu.
  pose proof (used_live np n blocks gen killed (fun b blk v E Hv => proj1 (Hspec b blk v E Hv))
    (fun b blk v E Hv => proj2 (Hspec b blk v E Hv))) as Hul.
  split; split.
  - apply Hlu; done.
  - apply (Hul v (Entry b)); done.
  - intros (l & s & El' & Hs' & Hl); destruct (block_successors blocks b l s El' Hs') as (blk & Eb & Hsb).
    apply (used_next np blocks v b blk s); auto.
  - intros Hu; destruct (Hul v (Before b []) Hv Hu) as [? | [_ ?]]; done.
Qed.

(** C5. Liveness of local variables is computed exactly: for every flow graph the analysis
    ends, and a variable is in the live-in set of a block if and only if some path from
    the start of the block reads it before writing it, and in the live-out set if and only
    if some path from the end of the block does.  (Blocks inside of try blocks are taken to
    read every variable, as the code does.) *)
Theorem variable_liveness_exact :
  graph_ok -> returns (Analyze_variables np blocks n) (fun '(_, a) =>
    forall b v, (b < length blocks)%nat -> 0 <= v < n ->
      (mem (live_in_ a) b v = true <-> used np blocks v (Entry b)) /\
      (mem (live_out_ a) b v = true <-> used np blocks v (Before b []))).
Proof.
  intros Hg; eapply returns_mono; [apply Analyze_variables_ok, Hg |].
  intros [blocks' a] [_ [_ Hs]]; exact Hs.
Qed.

Lemma mark_all_lookup il k i :
  il !! k = Some i -> mark_all np n il !! k = Some (mark np n i (drop (S k) il)).
Proof.
  revert k; induction il as [| j il IH]; intros [| k] Hk; cbn in *; try done.
  - injection Hk as ->; rewrite drop_0; done.
  - apply IH; done.
Qed.

(** The mark of an instruction of a block. *)
Definition marked (blk : BlockEntry) (i : Instruction) (rest : list Instruction) : Instruction :=
  if InsideTryBlock blk then i else mark np n i rest.

Lemma marked_lookup b blk k i :
  blocks !! b = Some blk -> instructions blk !! k = Some i ->
  exists blk', map (mark_block np n) blocks !! b = Some blk' /\
    instructions blk' !! k = Some (marked blk i (drop (S k) (instructions blk))).
Proof.
  intros Hb Hk; exists (mark_block np n blk); split.
  - apply list_lookup_fmap_Some; eauto.
  - unfold mark_block, marked; destruct (InsideTryBlock blk); [done |]; apply mark_all_lookup; done.
Qed.

(** A member of the live-out set. *)
Lemma live_out_member a b v :
  sets_exact a -> (b < length blocks)%nat -> 0 <= v < n ->
  exists w, live_out_ a !! b = Some w /\ returns (BitVector.Contains v w) (fun c =>
    c = true <-> used np blocks v (Before b [])).
Proof.
  intros [Ho Hs] Hb Hv; destruct (vectors_lookup _ _ _ b Ho Hb) as (w & Ew & _ & En & Em).
  exists w; split; [done |]; rewrite Contains_ok by lia; apply returns_Ok; rewrite <- Em; apply Hs; done.
Qed.

Lemma IsStoreAlive_ok ctx a b blk l rest :
  sets_exact a -> blocks !! b = Some blk -> local_ok np l ->
  exists dead last, marked blk (StoreLocal l false false) rest = StoreLocal l dead last /\
    returns (IsStoreAlive np ctx b l dead last a) (fun alive =>
      if LocalVariable_Equals ctx l || InsideTryBlock blk || (n <=? bit_of np l) then alive = true
      else alive = true <-> used np blocks (bit_of np l) (Before b rest)).
Proof.
  intros Hs Hb [El Hl]; unfold marked, IsStoreAlive.
  destruct (LocalVariable_Equals ctx l); [destruct (InsideTryBlock blk); eexists _, _; split; [done | apply returns_Ok; done | done | apply returns_Ok; done] |].
  destruct (InsideTryBlock blk); [eexists _, _; split; [done | apply returns_Ok; done] |]; cbn [orb mark].
  destruct (Z.leb_spec n (bit_of np l)) as [Hge | Hlt].
  { rewrite (proj2 (Z.ltb_ge _ _)) by lia; cbn [andb]; rewrite !andb_false_r.
    eexists _, _; split; [done | apply returns_Ok; done]. }
  rewrite (proj2 (Z.ltb_lt (bit_of np l) n)) by lia; cbn [andb]; eexists _, _; split; [done |]; cbn [orb].
  pose proof (used_before np blocks (bit_of np l) b rest) as Hu.
  destruct (writes np (bit_of np l) rest) eqn:Ew, (reads_first np (bit_of np l) rest) eqn:Er; cbn [andb negb].
  - apply returns_Ok; tauto.
  - apply returns_Ok; split; [done |]; intros [? | [? _]]%Hu; done.
  - apply returns_Ok; tauto.
  - rewrite El; cbn [obind].
    destruct (live_out_member a b (bit_of np l) Hs (lookup_lt_Some _ _ _ Hb) (conj Hl Hlt)) as (w & Ew' & Hc).
    rewrite (at_index_ok _ _ _ Ew'); cbn [obind]; eapply returns_mono; [exact Hc |]; cbn beta.
    intros c Hcu; rewrite Hu, Hcu; split; [auto | intros [? | [_ ?]]; done].
Qed.

Lemma reads_first_reads v rest : reads np v rest = false -> reads_first np v rest = false.
Proof.
  induction rest as [| i rest IH]; cbn; [done |]; intros [-> Hr]%orb_false_iff; rewrite IH by done.
  apply andb_false_r.
Qed.

Lemma IsLastLoad_ok ctx a b blk l rest :
  sets_exact a -> blocks !! b = Some blk -> local_ok np l ->
  exists last, marked blk (LoadLocal l false) rest = LoadLocal l last /\
    returns (IsLastLoad np ctx b l last a) (fun is_last =>
      is_last = true -> ~ used np blocks (bit_of np l) (Before b rest)).
Proof.
  intros Hs Hb [El Hl]; unfold marked, IsLastLoad.
  destruct (LocalVariable_Equals ctx l); [destruct (InsideTryBlock blk); eexists; split; [done | apply returns_Ok; done | done | apply returns_Ok; done] |].
  rewrite El; cbn [obind]; destruct (InsideTryBlock blk); [eexists; split; [done | apply returns_Ok; done] |].
  cbn [mark]; eexists; split; [done |].
  destruct (Z.ltb_spec (bit_of np l) n) as [Hlt |], (reads np (bit_of np l) rest) eqn:Er; cbn [andb negb];
    try (apply returns_Ok; done).
  destruct (live_out_member a b (bit_of np l) Hs (lookup_lt_Some _ _ _ Hb) (conj Hl Hlt)) as (w & Ew' & Hc).
  rewrite (at_index_ok _ _ _ Ew'); cbn [obind]; call Hc as c Hcu; apply returns_Ok; intros Hnc Hu.
  apply used_before in Hu as [Hr | [_ Hr]]; [rewrite reads_first_reads in Hr; done |].
  apply Hcu in Hr as ->; done.
Qed.

(** C19. A store to a local variable is found dead if and only if no path from it reads the
    variable before writing it, for stores outside of try blocks to variables that the
    analysis tracks, other than the context variable; the other stores are kept.  And a
    load that [IsLastLoad] accepts is the last one of the value on every path. *)
Theorem dead_stores_exact ctx :
  graph_ok -> returns (Analyze_variables np blocks n) (fun '(blocks', a) =>
    (forall b blk k l, blocks !! b = Some blk -> instructions blk !! k = Some (StoreLocal l false false) ->
      exists blk' dead last, blocks' !! b = Some blk' /\ instructions blk' !! k = Some (StoreLocal l dead last) /\
        returns (IsStoreAlive np ctx b l dead last a) (fun alive =>
          if LocalVariable_Equals ctx l || InsideTryBlock blk || (n <=? bit_of np l) then alive = true
          else alive = true <-> used np blocks (bit_of np l) (Before b (drop (S k) (instructions blk))))) /\
    (forall b blk k l, blocks !! b = Some blk -> instructions blk !! k = Some (LoadLocal l false) ->
      exists blk' last, blocks' !! b = Some blk' /\ instructions blk' !! k = Some (LoadLocal l last) /\
        returns (IsLastLoad np ctx b l last a) (fun is_last =>
          is_last = true -> ~ used np blocks (bit_of np l) (Before b (drop (S k) (instructions blk)))))).
Proof.
  intros Hg; eapply returns_mono; [apply Analyze_variables_ok, Hg |].
  intros [blocks' a] [-> Hs]; destruct Hg as [Hok _].
  assert (forall b blk k i, blocks !! b = Some blk -> instructions blk !! k = Some i -> instruction_ok np i) as Hi.
  { intros b blk k i Hb Hk; rewrite Forall_forall in Hok; pose proof (Hok blk (list_elem_of_lookup_2 _ _ _ Hb)) as Hblk.
    unfold block_ok in Hblk; rewrite Forall_forall in Hblk; apply Hblk, (list_elem_of_lookup_2 _ _ _ Hk). }
  split; intros b blk k l Hb Hk; destruct (marked_lookup b blk k _ Hb Hk) as (blk' & Hb' & Hk').
  - destruct (IsStoreAlive_ok ctx a b blk l (drop (S k) (instructions blk)) Hs Hb (Hi b blk k _ Hb Hk)) as (dead & last & E & Hr).
    rewrite E in Hk'; eauto 6.
  - destruct (IsLastLoad_ok ctx a b blk l (drop (S k) (instructions blk)) Hs Hb (Hi b blk k _ Hb Hk)) as (last & E & Hr).
    rewrite E in Hk'; eauto.
Qed.
End Analysis.

(** * A run *)
(** The variables x and y in a loop: [x = y = ..; while (x) { y = ..; y = ..; x = ..; } y]. *)
Definition layout1 : FrameLayout := {| FPREG := 30; SPREG := 29; kParamEndSlotFromFp := 2; kFirstLocalSlotFromFp := -2 |}.
#[local] Existing Instances layout1 word64.
Definition local_x : LocalVariable := mkLocal (-2) false 0.
Definition local_y : LocalVariable := mkLocal (-3) false 0.
Definition local_context : LocalVariable := mkLocal (-4) false 0.

Definition loop_graph : list BlockEntry :=
  [ mkBlock [LoadLocal local_y false] [] (-1);
    mkBlock [StoreLocal local_y false false; StoreLocal local_y false false;
             StoreLocal local_x false false] [2%nat] (-1);
    mkBlock [LoadLocal local_x false; OtherInstruction] [1%nat; 0%nat] (-1);
    mkBlock [StoreLocal local_x false false; StoreLocal local_y false false] [2%nat] (-1) ].

Lemma loop_graph_ok : graph_ok 0 loop_graph.
Proof.
  split; [| intros b blk s Hb Hs; cbn].
  { repeat match goal with
           | |- Forall _ _ => constructor
           | |- block_ok _ _ => unfold block_ok; cbn [instructions]
           | |- instruction_ok _ _ => (exact I || (split; vm_compute; [reflexivity | discriminate]))
           end. }
  do 4 (destruct b as [| b]; [injection Hb as <-; cbn in Hs; rewrite ?elem_of_cons, elem_of_nil in Hs; lia |]); done.
Qed.

Lemma variable_liveness_exact_witness :
  used 0 loop_graph 1 (Entry 2) /\ ~ used 0 loop_graph 1 (Entry 3).
Proof.
  destruct (variable_liveness_exact 0 2 ltac:(lia) loop_graph loop_graph_ok) as ([blocks' a] & E & Hs).
  vm_compute in E; injection E as <- <-; split.
  - apply (Hs 2%nat 1); [cbn; lia | lia | vm_compute; reflexivity].
  - intros Hu; apply (Hs 3%nat 1) in Hu; [vm_compute in Hu; discriminate Hu | cbn; lia | lia].
Defined.

Lemma dead_stores_exact_witness :
  ~ used 0 loop_graph 1 (Before 1 [StoreLocal local_y false false; StoreLocal local_x false false]) /\
  used 0 loop_graph 1 (Before 1 [StoreLocal local_x false false]).
Proof.
  destruct (dead_stores_exact 0 2 ltac:(lia) loop_graph local_context loop_graph_ok) as ([blocks' a] & E & Hs & _).
  vm_compute in E; injection E as <- <-; split.
  - destruct (Hs 1%nat _ 0%nat local_y eq_refl eq_refl) as (blk' & dead & last & Eb & Ei & x & Ex & Hx).
    injection Eb as <-; injection Ei as <- <-; vm_compute in Ex; injection Ex as <-.
    intros Hu; apply Hx in Hu; discriminate Hu.
  - destruct (Hs 1%nat _ 1%nat local_y eq_refl eq_refl) as (blk' & dead & last & Eb & Ei & x & Ex & Hx).
    injection Eb as <-; injection Ei as <- <-; vm_compute in Ex; injection Ex as <-.
    apply Hx; reflexivity.
Defined.
