(* ===== verification/FreeList.v ===== *)
(** The free list of [vm/freelist.h] and [vm/freelist.cc], with the memory it keeps its
    elements in: [VirtualMemory] ([vm/virtual_memory.cc], [vm/virtual_memory_linux.cc])
    and the size and class id tags of [vm/raw_object.h].

    The memory is a map from addresses to words, and from the addresses of pages to
    their protection; a store into a page that is not writable is a [HostFault].  An
    element is its address, 0 for the null pointer.  The operations run under the lock
    of the list, so a run of the list is the sequence of its operations.  Sizes are
    positive [intptr_t]s, whose differences do not overflow. *)
From stdpp Require Import base numbers list gmap.
From Stdlib Require Import ZArith Lia.
From S2P Require Import Prelude Utils BitSet.
#[local] Open Scope Z_scope.

(** The size of a page of the host, a power of two that is not smaller than a word. *)
Class Paging `{Word} := { page_log2 : Z; page_log2_ok : kWordSizeLog2 <= page_log2 < kBitsPerWord }.

(** * Memory *)
Inductive Protection := kNoAccess | kReadOnly | kReadWrite | kReadExecute | kReadWriteExecute.

Record memory := mkMemory { words : gmap Z Z; pages : gmap Z Protection }.

Definition readable (mode : Protection) : bool :=
  match mode with kNoAccess => false | _ => true end.
Definition writable (mode : Protection) : bool :=
  match mode with kReadWrite | kReadWriteExecute => true | _ => false end.

Module VirtualMemory.
Section VirtualMemory.
Context `{Paging}.

Definition PageSize : Z := 2 ^ page_log2.

(** The page of an address. *)
Definition page (addr : Z) : Z := addr - addr mod PageSize.

Definition load (m : memory) (addr : Z) : outcome Z :=
  match words m !! addr, pages m !! page addr with
  | Some v, Some mode => if readable mode then Ok v else Err (HostFault addr)
  | _, _ => Err (HostFault addr)
  end.

Definition store (m : memory) (addr value : Z) : outcome memory :=
  match words m !! addr, pages m !! page addr with
  | Some _, Some mode =>
      if writable mode then Ok (mkMemory (<[addr := value]> (words m)) (pages m))
      else Err (HostFault addr)
  | _, _ => Err (HostFault addr)
  end.

Definition InSamePage (address0 address1 : Z) : outcome bool :=
  let* p0 := RoundDown kBitsPerWord address0 PageSize in
  let* p1 := RoundDown kBitsPerWord address1 PageSize in
  Ok (p0 =? p1).

(** The pages that begin in a range of addresses. *)
Definition page_range (lo len : Z) : list Z :=
  (fun k => lo + k * PageSize) <$> seqZ 0 ((len + PageSize - 1) / PageSize).

(** The system call: the protection of all pages of the range is changed, or, when one
    of them is not mapped, the call fails. *)
Definition mprotect (m : memory) (addr len : Z) (prot : Protection) : option memory :=
  let ps := page_range addr len in
  if forallb (fun p => bool_decide (is_Some (pages m !! p))) ps
  then Some (mkMemory (words m) (foldr (fun p => <[p := prot]>) (pages m) ps))
  else None.

Definition Protect (m : memory) (address size : Z) (mode : Protection) : outcome (memory * bool) :=
  let end_address := to_u kBitsPerWord (address + size) in
  let* page_address := RoundDown kBitsPerWord address PageSize in
  Ok (match mprotect m page_address (to_u kBitsPerWord (end_address - page_address)) mode with
      | Some m => (m, true)
      | None => (m, false)
      end).
End VirtualMemory.
End VirtualMemory.
Import VirtualMemory.

(** * Object headers *)
Section Tags.
Context `{Word}.

Definition kObjectAlignment : Z := 2 * kWordSize.
Definition kObjectAlignmentLog2 : Z := kWordSizeLog2 + 1.

Definition kSizeTagPos : Z := 8.
Definition kSizeTagSize : Z := 8.
Definition kClassIdTagPos : Z := kSizeTagPos + kSizeTagSize.
Definition kClassIdTagSize : Z := 16.

(** The class id of free list elements: its place in the enumeration [ClassId]. *)
Definition kFreeListElement : Z := 115.

Definition kHeapObjectTag : Z := 1.
Definition kSmiTagMask : Z := 1.

Definition kMaxSizeTag : Z := Z.shiftl (Z.shiftl 1 kSizeTagSize - 1) kObjectAlignmentLog2.

Definition SizeToTagValue (size : Z) : outcome Z :=
  let* aligned := IsAligned size kObjectAlignment in
  ASSERT aligned ;;
  Ok (if size >? kMaxSizeTag then 0 else Z.shiftr size kObjectAlignmentLog2).

Definition TagValueToSize (value : Z) : Z := Z.shiftl value kObjectAlignmentLog2.

Definition SizeTag_update (size tag : Z) : outcome Z :=
  let* value := SizeToTagValue size in
  BitField.update kBitsPerWord kSizeTagPos kSizeTagSize value tag.

Definition SizeTag_decode (tag : Z) : Z :=
  TagValueToSize (BitField.decode kSizeTagPos kSizeTagSize tag).

Definition ClassIdTag_update (cid tag : Z) : outcome Z :=
  BitField.update kBitsPerWord kClassIdTagPos kClassIdTagSize cid tag.

(** [IsWellFormed] and [IsHeapObject] of the word as a [RawObject*]. *)
Definition IsWellFormed (value : Z) : outcome bool :=
  let* aligned := IsAligned (to_u kBitsPerWord (value - kHeapObjectTag)) kWordSize in
  Ok ((Z.land value kSmiTagMask =? 0) || aligned).

Definition IsHeapObject (value : Z) : outcome bool :=
  let* ok := IsWellFormed value in
  ASSERT ok ;;
  Ok (Z.land value kSmiTagMask =? kHeapObjectTag).
End Tags.

(** * Elements *)
Module FreeListElement.
Section FreeListElement.
Context `{Paging}.

Definition next_address (element : Z) : Z := to_u kBitsPerWord (element + kWordSize).
Definition SizeAddress (element : Z) : Z := to_u kBitsPerWord (next_address element + kWordSize).

Definition next (m : memory) (element : Z) : outcome Z := load m (next_address element).
Definition set_next (m : memory) (element next : Z) : outcome memory :=
  store m (next_address element) next.

Definition Size (m : memory) (element : Z) : outcome Z :=
  let* tags := load m element in
  let size := SizeTag_decode tags in
  if negb (size =? 0) then Ok size
  else let* size := load m (SizeAddress element) in Ok (to_s kBitsPerWord size).

(** [AsElement]: the header of the element at [addr] is written. *)
Definition AsElement (m : memory) (addr size : Z) : outcome memory :=
  ASSERT (size >=? kObjectAlignment) ;;
  let* aligned := IsAligned size kObjectAlignment in
  ASSERT aligned ;;
  let* tags := SizeTag_update size 0 in
  let* tags := ClassIdTag_update kFreeListElement tags in
  let* heap_object := IsHeapObject tags in
  ASSERT (negb heap_object) ;;
  let* m := store m addr tags in
  let* m := (if size >? kMaxSizeTag
             then store m (SizeAddress addr) (to_u kBitsPerWord size) else Ok m) in
  set_next m addr 0.

Definition HeaderSizeFor (size : Z) : Z :=
  if size =? 0 then 0 else (if size >? kMaxSizeTag then 3 else 2) * kWordSize.
End FreeListElement.
End FreeListElement.
Import FreeListElement.

(** * The list *)
Module FreeList.
Record t := make { free_map_ : list Z; free_lists_ : list Z; last_free_small_size_ : Z }.

Definition kNumLists : Z := 128.

Definition list_at (fl : t) (index : Z) : Z := nth (Z.to_nat index) (free_lists_ fl) 0.
Definition set_list (fl : t) (index element : Z) : t :=
  make (free_map_ fl) (<[Z.to_nat index := element]> (free_lists_ fl)) (last_free_small_size_ fl).

Section FreeList.
Context `{Paging}.

Definition IndexForSize (size : Z) : outcome Z :=
  ASSERT (size >=? kObjectAlignment) ;;
  let* aligned := IsAligned size kObjectAlignment in
  ASSERT aligned ;;
  let index := Z.shiftr size kObjectAlignmentLog2 in
  Ok (if index >=? kNumLists then kNumLists else index).

(** [Reset], and with it the constructor. *)
Definition Reset : t :=
  make (BitSet.Reset kNumLists) (replicate (Z.to_nat (kNumLists + 1)) 0) (-1).

Definition EnqueueElement (m : memory) (fl : t) (element index : Z) : outcome (memory * t) :=
  let next := list_at fl index in
  let* fl :=
    (if (next =? 0) && negb (index =? kNumLists) then
       let* free_map := BitSet.Set_ kNumLists (free_map_ fl) index true in
       Ok (make free_map (free_lists_ fl)
             (Maximum (last_free_small_size_ fl) (Z.shiftl index kObjectAlignmentLog2)))
     else Ok fl) in
  let* m := set_next m element next in
  Ok (m, set_list fl index element).

Definition DequeueElement (m : memory) (fl : t) (index : Z) : outcome (t * Z) :=
  let result := list_at fl index in
  let* next := FreeListElement.next m result in
  let* fl :=
    (if (next =? 0) && negb (index =? kNumLists) then
       let size := Z.shiftl index kObjectAlignmentLog2 in
       if size =? last_free_small_size_ fl then
         let* (free_map, previous) := BitSet.ClearLastAndFindPrevious kNumLists (free_map_ fl) index in
         Ok (make free_map (free_lists_ fl) (previous * kObjectAlignment))
       else
         let* free_map := BitSet.Set_ kNumLists (free_map_ fl) index false in
         Ok (make free_map (free_lists_ fl) (last_free_small_size_ fl))
     else Ok fl) in
  Ok (set_list fl index next, result).

(** [if (is_protected) { bool status = Protect(...); ASSERT(status); }] *)
Definition protect (m : memory) (is_protected : bool) (addr size : Z) (mode : Protection)
    : outcome memory :=
  if is_protected then
    let* (m, status) := Protect m addr size mode in
    ASSERT status ;; Ok m
  else Ok m.

Definition SplitElementAfterAndEnqueue (m : memory) (fl : t) (element size : Z)
    (is_protected : bool) : outcome (memory * t) :=
  let* element_size := Size m element in
  let remainder_size := element_size - size in
  if remainder_size =? 0 then Ok (m, fl)
  else
    let remainder_address := to_u kBitsPerWord (element + size) in
    let* m := AsElement m remainder_address remainder_size in
    let* remainder_index := IndexForSize remainder_size in
    let* (m, fl) := EnqueueElement m fl remainder_address remainder_index in
    let* same := InSamePage (to_u kBitsPerWord (remainder_address - 1)) remainder_address in
    let* m := protect m (is_protected && negb same) remainder_address remainder_size kReadExecute in
    Ok (m, fl).

(** [previous->next_ = current->next_] in [TryAllocateLocked], with the page of the
    previous element made writable for the store when it has to be. *)
Definition unlink (m : memory) (fl : t) (previous current region_size : Z) (is_protected : bool)
    : outcome (memory * t) :=
  if previous =? 0 then
    let* next := FreeListElement.next m current in
    Ok (m, set_list fl kNumLists next)
  else
    let writable_end := to_u kBitsPerWord (current + region_size - 1) in
    let target_address := next_address previous in
    let* in_start := InSamePage target_address current in
    let* in_end := InSamePage target_address writable_end in
    let target_is_protected := is_protected && negb in_start && negb in_end in
    let* m := protect m target_is_protected target_address kWordSize kReadWrite in
    let* next := FreeListElement.next m current in
    let* m := set_next m previous next in
    let* m := protect m target_is_protected target_address kWordSize kReadExecute in
    Ok (m, fl).

(** The walk along the list of large elements in [TryAllocateLocked]. *)
Fixpoint large_loop (fuel : nat) (m : memory) (fl : t) (size : Z) (is_protected : bool)
    (previous current : Z) : outcome (memory * t * Z) :=
  match fuel with
  | O => Err OutOfFuel
  | S fuel =>
    if current =? 0 then Ok (m, fl, 0)
    else
      let* current_size := Size m current in
      if current_size >=? size then
        let region_size := size + HeaderSizeFor (current_size - size) in
        let* m := protect m is_protected current region_size kReadWrite in
        let* (m, fl) := unlink m fl previous current region_size is_protected in
        let* (m, fl) := SplitElementAfterAndEnqueue m fl current size is_protected in
        Ok (m, fl, current)
      else
        let* next := FreeListElement.next m current in
        large_loop fuel m fl size is_protected current next
  end.

(** No list is longer than the memory. *)
Definition list_fuel (m : memory) : nat := S (base.size (words m)).

Definition TryAllocateLocked (m : memory) (fl : t) (size : Z) (is_protected : bool)
    : outcome (memory * t * Z) :=
  let* index := IndexForSize size in
  let* exact := (if index =? kNumLists then Ok false
                 else BitSet.Test kNumLists (free_map_ fl) index) in
  if exact : bool then
    let* (fl, element) := DequeueElement m fl index in
    let* m := protect m is_protected element size kReadWrite in
    Ok (m, fl, element)
  else
    let* next_index := (if index + 1 <? kNumLists
                        then BitSet.Next kNumLists (free_map_ fl) (index + 1) else Ok (-1)) in
    if negb (next_index =? -1) then
      let* (fl, element) := DequeueElement m fl next_index in
      let* element_size := Size m element in
      let region_size := size + HeaderSizeFor (element_size - size) in
      let* m := protect m is_protected element region_size kReadWrite in
      let* (m, fl) := SplitElementAfterAndEnqueue m fl element size is_protected in
      Ok (m, fl, element)
    else large_loop (list_fuel m) m fl size is_protected 0 (list_at fl kNumLists).

Definition FreeLocked (m : memory) (fl : t) (addr size : Z) : outcome (memory * t) :=
  let* index := IndexForSize size in
  let* m := AsElement m addr size in
  EnqueueElement m fl addr index.

(** [LengthLocked]. *)
Fixpoint length_loop (fuel : nat) (m : memory) (element result : Z) : outcome Z :=
  match fuel with
  | O => Err OutOfFuel
  | S fuel =>
    if element =? 0 then Ok result
    else let* next := FreeListElement.next m element in length_loop fuel m next (result + 1)
  end.

Definition LengthLocked (m : memory) (fl : t) (index : Z) : outcome Z :=
  ASSERT (index >=? 0) ;;
  ASSERT (index <? kNumLists) ;;
  length_loop (list_fuel m) m (list_at fl index) 0.

(** The walk of [TryAllocateLargeLocked]. *)
Fixpoint take_large_loop (fuel : nat) (m : memory) (fl : t) (minimum_size previous current : Z)
    : outcome (memory * t * Z) :=
  match fuel with
  | O => Err OutOfFuel
  | S fuel =>
    if current =? 0 then Ok (m, fl, 0)
    else
      let* next := FreeListElement.next m current in
      let* size := Size m current in
      if size >=? minimum_size then
        if previous =? 0 then Ok (m, set_list fl kNumLists next, current)
        else let* m := set_next m previous next in Ok (m, fl, current)
      else take_large_loop fuel m fl minimum_size current next
  end.

Definition TryAllocateLargeLocked (m : memory) (fl : t) (minimum_size : Z)
    : outcome (memory * t * Z) :=
  take_large_loop (list_fuel m) m fl minimum_size 0 (list_at fl kNumLists).

Definition TryAllocateSmallLocked (m : memory) (fl : t) (size : Z) : outcome (memory * t * Z) :=
  if size >? last_free_small_size_ fl then Ok (m, fl, 0)
  else
    let* index := IndexForSize size in
    let* exact := (if index =? kNumLists then Ok false
                   else BitSet.Test kNumLists (free_map_ fl) index) in
    if exact : bool then
      let* (fl, element) := DequeueElement m fl index in Ok (m, fl, element)
    else
      let* next_index := (if index + 1 <? kNumLists
                          then BitSet.Next kNumLists (free_map_ fl) (index + 1) else Ok (-1)) in
      if negb (next_index =? -1) then
        let* (fl, element) := DequeueElement m fl next_index in
        let* (m, fl) := SplitElementAfterAndEnqueue m fl element size false in
        Ok (m, fl, element)
      else Ok (m, fl, 0).
End FreeList.
End FreeList.
