(* ===== verification/FreeListProofs.v ===== *)
(** The representation of the free list of [vm/freelist.cc] in memory: pages, headers of
    elements, chains of elements, and what the basic operations do to them. *)
From stdpp Require Import base numbers list gmap.
From Stdlib Require Import ZArith Lia Bool.
From S2P Require Import Prelude Utils UtilsProofs BitSet BitSetProofs FreeList.
Import VirtualMemory FreeListElement FreeList.
#[local] Open Scope Z_scope.

(** * Sizes *)
Section Sizes.
Context `{Word}.

Lemma word_size : kBitsPerWord = 8 * kWordSize /\ (kWordSize = 4 \/ kWordSize = 8).
Proof. unfold kWordSize; destruct word_width as [-> | ->]; split; auto. Qed.

Lemma alignment_log2 : kObjectAlignment = 2 ^ kObjectAlignmentLog2 /\ 0 <= kObjectAlignmentLog2.
Proof.
  unfold kObjectAlignment, kObjectAlignmentLog2, kWordSizeLog2, kWordSize.
  destruct word_width as [-> | ->]; done.
Qed.

Lemma alignment_pos : 0 < kObjectAlignment.
Proof. unfold kObjectAlignment; destruct word_size; lia. Qed.

Lemma max_size_tag : kMaxSizeTag = 255 * kObjectAlignment.
Proof.
  unfold kMaxSizeTag; destruct alignment_log2 as [-> ?]; rewrite Z.shiftl_mul_pow2 by done; done.
Qed.

Lemma aligned_ok x : IsAligned x kObjectAlignment = Ok (x mod kObjectAlignment =? 0).
Proof. destruct alignment_log2 as [-> ?]; apply IsAligned_pow; done. Qed.

(** A size of an object or element, a block of memory at an address. *)
Definition size_ok (s : Z) : Prop :=
  kObjectAlignment <= s < 2 ^ (kBitsPerWord - 1) /\ s mod kObjectAlignment = 0.

Definition block_ok (b : Z * Z) : Prop :=
  size_ok b.2 /\ 0 < b.1 /\ b.1 mod kObjectAlignment = 0 /\ b.1 + b.2 < 2 ^ kBitsPerWord.

Definition in_block (b : Z * Z) (x : Z) : Prop := b.1 <= x < b.1 + b.2.

(** The list an element of size [s] is in. *)
Definition index_of (s : Z) : Z := Z.min (s / kObjectAlignment) kNumLists.

Lemma size_multiple s : size_ok s -> s = kObjectAlignment * (s / kObjectAlignment) /\ 1 <= s / kObjectAlignment.
Proof.
  intros [[Hs _] Hm]; pose proof alignment_pos; pose proof (Z.div_mod s kObjectAlignment).
  split; [lia |]; apply Z.div_le_lower_bound; lia.
Qed.

Lemma IndexForSize_ok s : size_ok s -> IndexForSize s = Ok (index_of s).
Proof.
  intros Hs; destruct (Hs) as [[Hlo _] Hm]; destruct (size_multiple s Hs) as [Hd H1].
  unfold IndexForSize; rewrite (proj2 (Z.geb_le _ _) Hlo), aligned_ok, Hm; cbn.
  destruct alignment_log2 as [Ha ?]; rewrite Z.shiftr_div_pow2, <- Ha by done; unfold index_of.
  destruct (Z.geb_spec (s / kObjectAlignment) kNumLists); f_equal; lia.
Qed.

Lemma size_sub s n : size_ok s -> size_ok n -> n < s -> size_ok (s - n).
Proof.
  intros Hs Hn Hlt; pose proof alignment_pos.
  destruct (size_multiple s Hs) as [Es _], (size_multiple n Hn) as [En _].
  set (q := s / kObjectAlignment) in *; set (r := n / kObjectAlignment) in *.
  destruct Hs as [[? ?] ?], Hn as [[? ?] ?].
  assert (r < q) by (apply (Z.mul_lt_mono_pos_l kObjectAlignment); lia).
  assert (kObjectAlignment * 1 <= kObjectAlignment * (q - r)) by (apply Z.mul_le_mono_nonneg_l; lia).
  split; [lia |].
  replace (s - n) with ((q - r) * kObjectAlignment) by lia; apply Z.mod_mul; lia.
Qed.

Lemma block_sub a s n :
  block_ok (a, s) -> size_ok n -> n < s -> block_ok (a + n, s - n) /\ to_u kBitsPerWord (a + n) = a + n.
Proof.
  intros (Hs & Ha & Hm & Hend) Hn Hlt; cbn [fst snd] in *; pose proof alignment_pos.
  destruct (Hn) as [[? _] Hnm]; split; [split; [apply size_sub; done |] |].
  - split_and!; cbn [fst snd]; [lia | | lia]; rewrite Z.add_mod, Hm, Hnm by lia; apply Z.mod_0_l; lia.
  - apply to_u_id; unfold in_u; lia.
Qed.

(** The words of the header of an element are in the block. *)
Lemma header_addresses a s :
  block_ok (a, s) ->
  next_address a = a + kWordSize /\ (kMaxSizeTag < s -> SizeAddress a = a + 2 * kWordSize) /\
  HeaderSizeFor s <= s /\
  HeaderSizeFor s = (if s >? kMaxSizeTag then 3 else 2) * kWordSize /\
  a mod kWordSize = 0.
Proof.
  intros (([Hs _] & _) & Ha & Hm & Hend); cbn [fst snd] in *; destruct word_size as [_ Hw].
  unfold next_address, SizeAddress, HeaderSizeFor; fold (next_address a); rewrite max_size_tag.
  unfold kObjectAlignment in *; assert (next_address a = a + kWordSize) as Hn.
  { apply to_u_id; unfold in_u; lia. }
  split; [done |]; split; [| split; [| split]].
  - intros; rewrite Hn, to_u_id by (unfold in_u; lia); lia.
  - destruct (Z.eqb_spec s 0); [lia |]; destruct (Z.gtb_spec s (255 * (2 * kWordSize))); lia.
  - rewrite (proj2 (Z.eqb_neq s 0)) by lia; done.
  - apply Z.mod_divide; [lia |]; apply Z.mod_divide in Hm as [k ->]; [| lia]; exists (2 * k); lia.
Qed.
End Sizes.

(** * Pages *)
Section Pages.
Context `{Paging}.

Lemma page_log2_nonneg : 0 <= page_log2.
Proof. pose proof page_log2_ok; unfold kWordSizeLog2 in *; case_match; lia. Qed.

Lemma page_size_pos : 0 < PageSize.
Proof. apply pow2_pos, page_log2_nonneg. Qed.

Lemma page_bounds x : page x <= x < page x + PageSize.
Proof. unfold page; pose proof (Z.mod_pos_bound x PageSize page_size_pos); lia. Qed.

Lemma page_multiple x : exists k, page x = k * PageSize.
Proof.
  exists (x / PageSize); unfold page; pose proof page_size_pos; pose proof (Z.div_mod x PageSize); lia.
Qed.

(** The page of [x] is the only multiple of the page size just below [x]. *)
Lemma page_unique x k : k * PageSize <= x < k * PageSize + PageSize -> page x = k * PageSize.
Proof.
  intros Hk; unfold page; pose proof page_size_pos.
  rewrite <- (Z.mod_unique x PageSize k (x - k * PageSize)); lia.
Qed.

Lemma pages_le k l : k * PageSize < l * PageSize + PageSize -> k <= l /\ k * PageSize <= l * PageSize.
Proof.
  intros Hk; pose proof page_size_pos.
  assert (k < l + 1) by (apply (Z.mul_lt_mono_pos_r PageSize); lia).
  split; [lia | apply Z.mul_le_mono_nonneg_r; lia].
Qed.

Lemma page_mono x y : x <= y -> page x <= page y.
Proof.
  intros Hxy; destruct (page_multiple x) as [k Hk], (page_multiple y) as [l Hl].
  pose proof (page_bounds x); pose proof (page_bounds y); rewrite Hk, Hl in *; apply pages_le; lia.
Qed.

Lemma page_nonneg x : 0 <= x -> 0 <= page x.
Proof.
  intros Hx; replace 0 with (page 0) by (apply (page_unique 0 0); pose proof page_size_pos; lia).
  apply page_mono; done.
Qed.

(** A word is on one page. *)
Lemma word_page x : x mod kWordSize = 0 -> page (x + kWordSize - 1) = page x.
Proof.
  intros Hx; destruct word_size as [_ Hw]; destruct (page_multiple x) as [k Hk]; rewrite Hk.
  assert (exists q, PageSize = q * kWordSize) as [q Hq].
  { exists (2 ^ (page_log2 - kWordSizeLog2)); pose proof page_log2_ok.
    replace kWordSize with (2 ^ kWordSizeLog2).
    - rewrite <- Z.pow_add_r by (unfold kWordSizeLog2 in *; case_match; lia); unfold PageSize; f_equal; lia.
    - unfold kWordSizeLog2, kWordSize; destruct word_width as [-> | ->]; done. }
  apply Z.mod_divide in Hx as [w ->]; [| lia].
  apply page_unique; pose proof (page_bounds (w * kWordSize)) as Hb; rewrite Hk, Hq in *; split; [lia |].
  assert (w < k * q + q) by (apply (Z.mul_lt_mono_pos_r kWordSize); lia).
  assert ((w + 1) * kWordSize <= (k * q + q) * kWordSize) by (apply Z.mul_le_mono_nonneg_r; lia); lia.
Qed.

Lemma page_page x : page (page x) = page x.
Proof. destruct (page_multiple x) as [k ->]; apply page_unique; pose proof page_size_pos; lia. Qed.

Lemma RoundDown_page x : in_u kBitsPerWord x -> RoundDown kBitsPerWord x PageSize = Ok (page x).
Proof.
  intros Hx; unfold PageSize; rewrite RoundDown_pow by (pose proof page_log2_ok; pose proof page_log2_nonneg; done || lia); f_equal.
  unfold page; fold PageSize; pose proof page_size_pos; pose proof (Z.div_mod x PageSize); lia.
Qed.

Lemma InSamePage_ok x y :
  in_u kBitsPerWord x -> in_u kBitsPerWord y -> InSamePage x y = Ok (page x =? page y).
Proof. intros; unfold InSamePage; rewrite !RoundDown_page by done; done. Qed.

Lemma page_range_elem a n x :
  0 < n -> page x ∈ page_range (page a) (a + n - page a) <-> page a <= page x < a + n.
Proof.
  intros Hn; pose proof page_size_pos; unfold page_range.
  destruct (page_multiple a) as [k Hk], (page_multiple x) as [l Hl].
  rewrite list_elem_of_fmap; setoid_rewrite elem_of_seqZ.
  set (len := a + n - page a); assert (0 < len) by (pose proof (page_bounds a); lia).
  pose proof (Z.div_mod (len + PageSize - 1) PageSize).
  pose proof (Z.mod_pos_bound (len + PageSize - 1) PageSize).
  split.
  - intros (j & Ex & Hj); rewrite Ex; split; [nia |].
    assert (j * PageSize < len); [| lia].
    assert (j * PageSize <= ((len + PageSize - 1) / PageSize - 1) * PageSize); [| lia].
    apply Z.mul_le_mono_nonneg_r; lia.
  - intros Hx; exists (l - k); split; [lia |]; rewrite Hk, Hl in Hx.
    destruct (pages_le k l); [lia |]; split; [lia |].
    apply (Z.mul_lt_mono_pos_r PageSize); lia.
Qed.

Lemma foldr_insert_lookup (ps : list Z) (mode : Protection) (pgs : gmap Z Protection) p :
  foldr (fun p => <[p := mode]>) pgs ps !! p = if decide (p ∈ ps) then Some mode else pgs !! p.
Proof.
  induction ps as [| q ps IH]; cbn [foldr]; [rewrite decide_False by apply not_elem_of_nil; done |].
  destruct (decide (q = p)) as [-> |].
  - rewrite lookup_insert_eq, decide_True by left; done.
  - rewrite lookup_insert_ne, IH by done.
    destruct (decide (p ∈ ps)); [rewrite decide_True by (right; done) | rewrite decide_False]; try done.
    rewrite elem_of_cons; intros [-> |]; done.
Qed.

(** [protect] changes the protection of the pages of a range and nothing else. *)
Lemma protect_ok m (b : bool) a n mode :
  0 < n -> 0 <= a -> a + n < 2 ^ kBitsPerWord ->
  (forall x, a <= x < a + n -> is_Some (pages m !! page x)) ->
  returns (protect m b a n mode) (fun m' => words m' = words m /\ (b = false -> m' = m) /\
    forall x, pages m' !! page x =
      if b && (page a <=? page x) && (page x <? a + n) then Some mode else pages m !! page x).
Proof.
  intros Hn Ha Hend Hmap; destruct b; [| apply returns_Ok; done]; cbn [andb].
  unfold protect, Protect; pose proof (page_bounds a); pose proof page_size_pos.
  pose proof (page_nonneg a Ha).
  rewrite RoundDown_page by (unfold in_u; lia); cbn [obind].
  rewrite (to_u_id _ (a + n)), to_u_id by (unfold in_u; lia).
  unfold mprotect; replace (forallb _ _) with true.
  - apply returns_Ok; cbn; split; [done |]; split; [done |]; intros x; rewrite foldr_insert_lookup.
    pose proof (page_range_elem a n x Hn) as He.
    destruct (decide _) as [Hin | Hin], (Z.leb_spec (page a) (page x)), (Z.ltb_spec (page x) (a + n));
      cbn; try done; exfalso; (apply He in Hin; lia) || (apply Hin, He; lia).
  - symmetry; apply forallb_forall; intros p Hp%list_elem_of_In; apply bool_decide_eq_true_2.
    assert (page p = p) as Ep.
    { unfold page_range in Hp; apply list_elem_of_fmap in Hp as (k & -> & _).
      destruct (page_multiple a) as [l ->]; rewrite <- Z.mul_add_distr_r; apply page_unique; lia. }
    rewrite <- Ep in Hp; apply page_range_elem in Hp; [| done].
    destruct (Z.le_gt_cases a p).
    + rewrite <- Ep; apply Hmap; lia.
    + replace p with (page a); [apply Hmap; lia |].
      pose proof (page_mono p a); lia.
Qed.
End Pages.

(** * Memory of blocks *)
Section Memory.
Context `{Paging}.

Definition can_write (m : memory) (x : Z) : Prop :=
  exists mode, pages m !! page x = Some mode /\ writable mode = true.

Definition can_read (m : memory) (x : Z) : Prop :=
  exists mode, pages m !! page x = Some mode /\ readable mode = true.

(** All words of the block are there and can be read. *)
Definition mapped (m : memory) (b : Z * Z) : Prop :=
  forall x, in_block b x -> can_read m x /\ (x mod kWordSize = 0 -> is_Some (words m !! x)).

(** [m'] has the memory of [m], with other contents or protections. *)
Definition covers (m m' : memory) : Prop :=
  (forall x, is_Some (words m !! x) -> is_Some (words m' !! x)) /\
  (forall x, can_read m x -> can_read m' x).

(** The words outside of [P] are the same. *)
Definition same_outside (P : Z -> Prop) (m m' : memory) : Prop :=
  forall x, ~ P x -> words m' !! x = words m !! x.

Lemma covers_refl m : covers m m.
Proof. split; done. Qed.
Lemma covers_trans m1 m2 m3 : covers m1 m2 -> covers m2 m3 -> covers m1 m3.
Proof. intros [? ?] [? ?]; split; auto. Qed.

Lemma same_outside_weaken (P Q : Z -> Prop) m m' :
  (forall x, P x -> Q x) -> same_outside P m m' -> same_outside Q m m'.
Proof. intros HPQ Hs x Hx; apply Hs; auto. Qed.
Lemma same_outside_trans P m1 m2 m3 :
  same_outside P m1 m2 -> same_outside P m2 m3 -> same_outside P m1 m3.
Proof. intros H1 H2 x Hx; rewrite H2, H1; done. Qed.

Lemma mapped_covers m m' b : covers m m' -> mapped m b -> mapped m' b.
Proof. intros [Hw Hr] Hb x Hx; destruct (Hb x Hx); auto. Qed.

Lemma mapped_sub m b b' :
  (forall x, in_block b' x -> in_block b x) -> mapped m b -> mapped m b'.
Proof. intros Hsub Hb x Hx; auto. Qed.

Lemma load_ok m x v : words m !! x = Some v -> can_read m x -> load m x = Ok v.
Proof. intros Hx (mode & Hp & Hr); unfold load; rewrite Hx, Hp, Hr; done. Qed.

Lemma store_ok m x v :
  is_Some (words m !! x) -> can_write m x ->
  returns (store m x v) (fun m' => words m' = <[x := v]> (words m) /\ pages m' = pages m).
Proof. intros [u Hx] (mode & Hp & Hw); unfold store; rewrite Hx, Hp, Hw; apply returns_Ok; done. Qed.

Lemma can_write_pages m m' x : pages m' = pages m -> can_write m x -> can_write m' x.
Proof. unfold can_write; intros ->; done. Qed.

Lemma write_covers m m' (P : Z -> Prop) :
  same_outside P m m' -> (forall x, P x -> is_Some (words m !! x) -> is_Some (words m' !! x)) ->
  (forall x, P x \/ ~ P x) -> pages m' = pages m -> covers m m'.
Proof.
  intros Hs Hin Hdec Hp; split.
  - intros x Hx; destruct (Hdec x); [auto | rewrite Hs; done].
  - intros x; unfold can_read; rewrite Hp; done.
Qed.

Lemma insert_covers m m' x v :
  words m' = <[x := v]> (words m) -> pages m' = pages m -> covers m m'.
Proof.
  intros Hw Hp; split; [| intros y; unfold can_read; rewrite Hp; done].
  intros y Hy; rewrite Hw; apply lookup_insert_is_Some'; auto.
Qed.

(** * Elements *)
(** The header of the element [b], whose next element is [nxt]. *)
Record elem (m : memory) (b : Z * Z) (nxt : Z) : Prop := mk_elem {
  e_block : block_ok b;
  e_tags : exists tags, words m !! b.1 = Some tags /\
             SizeTag_decode tags = (if b.2 >? kMaxSizeTag then 0 else b.2);
  e_next : words m !! (b.1 + kWordSize) = Some nxt;
  e_size : kMaxSizeTag < b.2 -> words m !! (b.1 + 2 * kWordSize) = Some b.2
}.

Lemma header_in_block b :
  block_ok b -> in_block b b.1 /\ in_block b (b.1 + kWordSize) /\
  (kMaxSizeTag < b.2 -> in_block b (b.1 + 2 * kWordSize)).
Proof.
  destruct b as [a s]; intros Hb; destruct (header_addresses a s Hb) as (_ & _ & Hle & Hh & _).
  rewrite Hh in Hle; unfold in_block; cbn [fst snd]; destruct word_size as [_ Hw].
  destruct (Z.gtb_spec s kMaxSizeTag); lia.
Qed.

Lemma elem_same m m' b nxt :
  (forall x, in_block b x -> words m' !! x = words m !! x) -> elem m b nxt -> elem m' b nxt.
Proof.
  intros Hs [Hb Ht Hn Hz]; destruct (header_in_block b Hb) as (H1 & H2 & H3).
  split; [done | rewrite Hs by done; done | rewrite Hs by done; done |].
  intros Hl; rewrite Hs by auto; auto.
Qed.

Lemma next_ok m b nxt : elem m b nxt -> mapped m b -> next m b.1 = Ok nxt.
Proof.
  intros [Hb _ Hn _] Hm; destruct (header_in_block b Hb) as (_ & Hi & _).
  destruct b as [a s]; cbn [fst snd] in *; unfold next; destruct (header_addresses a s Hb) as [-> _]; apply load_ok; [done | apply Hm; done].
Qed.

Lemma Size_ok m b nxt : elem m b nxt -> mapped m b -> Size m b.1 = Ok b.2.
Proof.
  intros [Hb (tags & Ht & Hd) _ Hz] Hm; destruct (header_in_block b Hb) as (H1 & _ & H3).
  destruct b as [a s]; cbn [fst snd] in *; unfold Size.
  rewrite (load_ok m a tags) by (done || apply Hm; done); cbn [obind]; rewrite Hd.
  destruct (Hb) as (([Hs Hs'] & _) & _); cbn [fst snd] in *; pose proof alignment_pos.
  destruct (Z.gtb_spec s kMaxSizeTag).
  - cbn [negb Z.eqb]; destruct (header_addresses a s Hb) as (_ & Ha & _); rewrite Ha by done.
    rewrite (load_ok m _ s) by (auto || apply Hm; auto); cbn [obind]; rewrite to_s_id; [done | | unfold in_s; lia].
    destruct word_size; lia.
  - rewrite (proj2 (Z.eqb_neq s 0)) by lia; done.
Qed.

Lemma element_set_next_ok m b nxt v :
  elem m b nxt -> can_write m (b.1 + kWordSize) ->
  returns (set_next m b.1 v) (fun m' => elem m' b v /\ same_outside (in_block b) m m' /\
    covers m m' /\ pages m' = pages m).
Proof.
  intros [Hb Ht Hn Hz] Hw; destruct (header_in_block b Hb) as (H1 & H2 & H3).
  destruct b as [a s]; cbn [fst snd] in *; unfold set_next.
  destruct (header_addresses a s Hb) as [-> _]; destruct word_size as [_ Hws].
  eapply returns_mono; [apply store_ok; eauto |]; intros m' [Em Ep].
  split_and!; [split; cbn [fst snd]; rewrite ?Em | | eapply insert_covers; done | done].
  - done.
  - rewrite lookup_insert_ne by lia; done.
  - rewrite lookup_insert_eq; done.
  - intros; rewrite lookup_insert_ne by lia; auto.
  - intros x Hx; rewrite Em, lookup_insert_ne; [done |]; intros <-; done.
Qed.
End Memory.

(** * Headers *)
Section Headers.
Context `{Paging}.

Lemma update_ok position size v original :
  0 <= position -> 0 <= size -> position + size <= kBitsPerWord -> in_u size v ->
  exists u, BitField.update kBitsPerWord position size v original = Ok u.
Proof.
  intros Hp Hs Hf Hv; unfold BitField.update.
  assert (2 ^ size <= 2 ^ kBitsPerWord) by (apply Z.pow_le_mono_r; lia).
  rewrite (proj2 (is_valid_range kBitsPerWord position size Hp Hs Hf v ltac:(unfold in_u in *; lia)) Hv); eauto.
Qed.

Lemma smi_word t : Z.testbit t 0 = false -> IsHeapObject t = Ok false.
Proof.
  intros Hb; unfold IsHeapObject, IsWellFormed, kSmiTagMask, kHeapObjectTag.
  assert (Z.land t 1 = 0) as ->.
  { apply Z.bits_inj'; intros i Hi; rewrite Z.land_spec, Z.bits_0.
    destruct (decide (i = 0)) as [-> |]; [rewrite Hb; done |].
    rewrite (Z.bits_above_log2 1 i) by (cbn; lia); apply andb_false_r. }
  unfold kWordSize, kWordSizeLog2; destruct word_width as [-> | ->].
  - rewrite (IsAligned_pow _ 2) by lia; done.
  - rewrite (IsAligned_pow _ 3) by lia; done.
Qed.

(** The tags that [AsElement] writes look like a smi and hold the size. *)
Lemma header_tags_ok s :
  size_ok s -> exists tags0 tags, SizeTag_update s 0 = Ok tags0 /\
    ClassIdTag_update kFreeListElement tags0 = Ok tags /\ IsHeapObject tags = Ok false /\
    SizeTag_decode tags = (if s >? kMaxSizeTag then 0 else s).
Proof.
  intros Hs; destruct (Hs) as [[Hlo Hhi] Hm]; destruct (size_multiple s Hs) as [Hd H1].
  pose proof alignment_pos; destruct alignment_log2 as [Ha Ha0].
  assert (32 <= kBitsPerWord) by (destruct word_size; lia).
  set (v := if s >? kMaxSizeTag then 0 else s / kObjectAlignment).
  assert (in_u kSizeTagSize v) as Hv.
  { unfold v, in_u, kSizeTagSize; rewrite max_size_tag.
    destruct (Z.gtb_spec s (255 * kObjectAlignment)); [lia |].
    split; [lia |]; apply Z.div_lt_upper_bound; lia. }
  assert (in_u kBitsPerWord v) as HvW.
  { assert (2 ^ 8 <= 2 ^ kBitsPerWord) by (apply Z.pow_le_mono_r; lia); unfold in_u, kSizeTagSize in *; lia. }
  assert (in_u kBitsPerWord kFreeListElement) as HcW.
  { assert (2 ^ 8 <= 2 ^ kBitsPerWord) by (apply Z.pow_le_mono_r; lia); unfold in_u, kFreeListElement in *; lia. }
  destruct (update_ok 8 8 v 0) as [t0 E0]; [lia | lia | lia | done |].
  destruct (update_ok 16 16 kFreeListElement t0) as [t E]; [lia | lia | lia | done |].
  exists t0, t; split_and!; [| done | |].
  - unfold SizeTag_update, SizeToTagValue; rewrite aligned_ok, Hm; cbn [obind Z.eqb].
    rewrite Z.shiftr_div_pow2, <- Ha by done; done.
  - apply smi_word; rewrite (update_spec kBitsPerWord 16 16) with (4 := E) by (done || lia).
    rewrite bool_decide_false by lia.
    rewrite (update_spec kBitsPerWord 8 8) with (4 := E0) by (done || lia).
    rewrite bool_decide_false by lia; done.
  - unfold SizeTag_decode, TagValueToSize, kSizeTagPos, kSizeTagSize.
    rewrite (decode_update_other kBitsPerWord 16 16 kFreeListElement t0 t) by (done || lia).
    rewrite (decode_update kBitsPerWord 8 8 v 0 t0) by (done || lia).
    rewrite Z.shiftl_mul_pow2, <- Ha by done; unfold v; destruct (s >? kMaxSizeTag); lia.
Qed.

(** The tags and, for a large element, the size are stored. *)
Lemma store_header_ok m a s t :
  block_ok (a, s) -> mapped m (a, s) -> (forall x, a <= x < a + HeaderSizeFor s -> can_write m x) ->
  SizeTag_decode t = (if s >? kMaxSizeTag then 0 else s) ->
  returns (let* m := store m a t in
           if s >? kMaxSizeTag then store m (SizeAddress a) (to_u kBitsPerWord s) else Ok m)
    (fun m' => (exists nxt, elem m' (a, s) nxt) /\ same_outside (in_block (a, s)) m m' /\
       covers m m' /\ pages m' = pages m).
Proof.
  intros Hb Hm Hw Ht; destruct (header_in_block _ Hb) as (I1 & I2 & I3); cbn [fst snd] in *.
  destruct (header_addresses a s Hb) as (En & Es & _ & Eh & Hmod); destruct word_size as [_ Hws].
  destruct (Hb) as ([[Hlo Hhi] Hsm] & Ha & Hal & Hend); cbn [fst snd] in *; pose proof alignment_pos.
  assert (is_Some (words m !! a)) as W0 by (apply Hm; done).
  assert (is_Some (words m !! (a + kWordSize))) as [nxt W1].
  { apply Hm; [done |]; rewrite <- (Z.mul_1_l kWordSize) at 1; rewrite Z.mod_add by lia; done. }
  call (store_ok m a t) as m1 (Em1 & Ep1); [done | apply Hw; rewrite Eh; case_match; lia |].
  assert (same_outside (in_block (a, s)) m m1) as Hs1.
  { intros x Hx; rewrite Em1, lookup_insert_ne; [done |]; intros <-; done. }
  assert (covers m m1) as Hc1 by (eapply insert_covers; done).
  assert (words m1 !! a = Some t /\ words m1 !! (a + kWordSize) = Some nxt) as [L0 L1].
  { rewrite Em1, lookup_insert_eq, lookup_insert_ne by lia; done. }
  destruct (Z.gtb_spec s kMaxSizeTag) as [Hl | Hl].
  - rewrite Es by done; eapply returns_mono; [apply store_ok |].
    + apply Hc1, Hm; [auto |]; rewrite Z.mod_add by lia; done.
    + eapply can_write_pages; [exact Ep1 |]; apply Hw; rewrite Eh; lia.
    + intros m2 [Em2 Ep2]; split_and!; [exists nxt; split; cbn [fst snd]; [done | | |] | | | congruence].
      * exists t; rewrite Em2, lookup_insert_ne, (proj2 (Z.gtb_lt _ _)) by lia; done.
      * rewrite Em2, lookup_insert_ne by lia; done.
      * intros _; rewrite Em2, lookup_insert_eq, to_u_id by (unfold in_u; lia); done.
      * intros x Hx; rewrite Em2, lookup_insert_ne; [apply Hs1; done |]; intros <-; auto.
      * eapply covers_trans; [done |]; eapply insert_covers; done.
  - apply returns_Ok; split_and!; [exists nxt; split; cbn [fst snd]; [done | | done | lia] | done | done | done].
    exists t; destruct (Z.gtb_spec s kMaxSizeTag); [lia | done].
Qed.

Lemma AsElement_ok m b :
  block_ok b -> mapped m b -> (forall x, b.1 <= x < b.1 + HeaderSizeFor b.2 -> can_write m x) ->
  returns (AsElement m b.1 b.2) (fun m' => elem m' b 0 /\ same_outside (in_block b) m m' /\
    covers m m' /\ pages m' = pages m).
Proof.
  destruct b as [a s]; cbn [fst snd]; intros Hb Hm Hw; destruct (Hb) as (Hs & _); cbn [fst snd] in *.
  destruct (header_tags_ok s Hs) as (t0 & t & E0 & E & Eheap & Edec); destruct (Hs) as [[Hlo Hhi] Hsm].
  unfold AsElement; rewrite (proj2 (Z.geb_le _ _) Hlo), aligned_ok, Hsm; cbn [obind Z.eqb].
  rewrite E0; cbn [obind]; rewrite E; cbn [obind]; rewrite Eheap; cbn [obind negb].
  eapply returns_bind_assoc; [apply (store_header_ok m a s t); done |].
  intros m2 ((nxt & He) & Hs2 & Hc2 & Ep2).
  eapply returns_mono; [apply (element_set_next_ok m2 (a, s) nxt 0 He) |].
  - eapply can_write_pages; [exact Ep2 |]; apply Hw; cbn [fst].
    destruct (header_addresses a s Hb) as (_ & _ & _ & -> & _); destruct word_size; case_match; lia.
  - intros m3 (He3 & Hs3 & Hc3 & Ep3); split_and!; [done | | | congruence].
    + eapply same_outside_trans; done.
    + eapply covers_trans; done.
Qed.
End Headers.

(** * Blocks that do not overlap *)
Definition disjoint (b b' : Z * Z) : Prop := b.1 + b.2 <= b'.1 \/ b'.1 + b'.2 <= b.1.

Fixpoint separate (bs : list (Z * Z)) : Prop :=
  match bs with
  | [] => True
  | b :: bs => Forall (disjoint b) bs /\ separate bs
  end.

#[export] Instance disjoint_sym : Symmetric disjoint.
Proof. unfold disjoint; intros b b'; tauto. Qed.

#[export] Instance separate_perm : Proper ((≡ₚ) ==> iff) separate.
Proof.
  assert (forall bs bs', bs ≡ₚ bs' -> separate bs -> separate bs') as Himp.
  { induction 1 as [| b bs bs' Hp IH | b b' bs | bs1 bs2 bs3 _ IH1 _ IH2]; cbn; [done | | | auto].
    - intros [Hb Hs]; split; [rewrite <- Hp; done | auto].
    - intros (Hb & Hb' & Hs); apply Forall_cons in Hb as [Hbb Hb].
      split; [apply Forall_cons; split; [symmetry; done | done] | done]. }
  intros bs bs' Hp; split; apply Himp; [done | symmetry; done].
Qed.

Lemma separate_elem b bs b' : separate (b :: bs) -> b' ∈ bs -> disjoint b b'.
Proof. intros [Hb _] Hin; eapply Forall_forall in Hb; done. Qed.

Lemma disjoint_in b b' x : disjoint b b' -> in_block b x -> ~ in_block b' x.
Proof. unfold disjoint, in_block; lia. Qed.

Lemma disjoint_part b b' b'' :
  (forall x, in_block b' x -> in_block b x) -> 0 < b'.2 -> disjoint b b'' -> 0 < b''.2 -> disjoint b' b''.
Proof.
  intros Hsub Hpos Hd Hpos'; pose proof (Hsub b'.1); pose proof (Hsub (b'.1 + b'.2 - 1)).
  unfold disjoint, in_block in *; lia.
Qed.

(** * Chains *)
Section Chains.
Context `{Paging}.

(** From [p], the [next_] fields lead through the elements of [bs] to the null pointer. *)
Fixpoint chain (m : memory) (p : Z) (bs : list (Z * Z)) : Prop :=
  match bs with
  | [] => p = 0
  | b :: bs => p = b.1 /\ exists nxt, elem m b nxt /\ chain m nxt bs
  end.

Lemma chain_same m m' p bs :
  (forall b x, b ∈ bs -> in_block b x -> words m' !! x = words m !! x) -> chain m p bs -> chain m' p bs.
Proof.
  revert p; induction bs as [| b bs IH]; intros p Hs; cbn; [done |].
  intros (Hp & nxt & He & Hc); split; [done |]; exists nxt; split.
  - eapply elem_same; [| exact He]; intros x; apply Hs; left.
  - apply IH; [| done]; intros b' x Hb'; apply Hs; right; done.
Qed.

Lemma chain_blocks m p bs b : chain m p bs -> b ∈ bs -> block_ok b.
Proof.
  revert p; induction bs as [| b' bs IH]; intros p; cbn; [intros _ []%elem_of_nil |].
  intros (_ & nxt & He & Hc) [-> | Hin]%elem_of_cons; [apply He | eauto].
Qed.

Lemma chain_null m p bs : chain m p bs -> p = 0 <-> bs = [].
Proof.
  destruct bs as [| b bs]; cbn; [done |]; intros (-> & nxt & He & _).
  destruct (e_block _ _ _ He) as (_ & Hb & _); split; [lia | done].
Qed.

(** * The representation *)
(** [bins] are the blocks of the lists, [concat bins] all free blocks. *)
Record chains (m : memory) (fl : t) (bins : list (list (Z * Z))) : Prop := mk_chains {
  c_bins : length bins = Z.to_nat (kNumLists + 1);
  c_lists : length (free_lists_ fl) = Z.to_nat (kNumLists + 1);
  c_chain : forall i bs, bins !! Z.to_nat i = Some bs -> 0 <= i -> chain m (list_at fl i) bs;
  c_index : forall i bs b, bins !! Z.to_nat i = Some bs -> 0 <= i -> b ∈ bs -> index_of b.2 = i
}.

(** The bit set and the largest small size tell which lists have elements. *)
Definition last_small (fl : t) (r : Z) : Prop :=
  if 0 <=? r then last_free_small_size_ fl = r * kObjectAlignment else last_free_small_size_ fl < 0.

Record summary (fl : t) (bins : list (list (Z * Z))) : Prop := mk_summary {
  s_map : set_ok kNumLists (free_map_ fl);
  s_bits : forall i bs, bins !! Z.to_nat i = Some bs -> 0 <= i < kNumLists ->
             bit (free_map_ fl) i = true <-> bs <> [];
  s_last : exists r, is_last kNumLists (free_map_ fl) r /\ last_small fl r
}.

Record rep (m : memory) (fl : t) (bins : list (list (Z * Z))) : Prop := mk_rep {
  r_chains : chains m fl bins;
  r_summary : summary fl bins;
  r_mapped : Forall (mapped m) (concat bins);
  r_separate : separate (concat bins)
}.

(** One of the lists is replaced. *)
Lemma concat_bin (bins : list (list (Z * Z))) i bs :
  bins !! i = Some bs ->
  exists rest, concat bins ≡ₚ bs ++ rest /\ forall bs', concat (<[i := bs']> bins) ≡ₚ bs' ++ rest.
Proof.
  intros Hi; apply list_elem_of_split_length in Hi as (l1 & l2 & -> & ->).
  exists (concat l1 ++ concat l2); split.
  - rewrite concat_app; cbn; rewrite (Permutation_app_swap_app (concat l1) bs); done.
  - intros bs'; rewrite insert_app_r_alt, Nat.sub_diag, concat_app by done; cbn.
    rewrite (Permutation_app_swap_app (concat l1) bs'); done.
Qed.

Lemma bin_exists (bins : list (list (Z * Z))) i :
  length bins = Z.to_nat (kNumLists + 1) -> 0 <= i <= kNumLists -> exists bs, bins !! Z.to_nat i = Some bs.
Proof. intros Hl Hi; apply lookup_lt_is_Some; unfold kNumLists in *; lia. Qed.

Lemma elem_of_bin (bins : list (list (Z * Z))) i bs b : bins !! i = Some bs -> b ∈ bs -> b ∈ concat bins.
Proof.
  intros Hi Hb; apply list_elem_of_In, in_concat; exists bs.
  split; apply list_elem_of_In; [eapply list_elem_of_lookup_2; done | done].
Qed.

Lemma list_at_set fl i j e :
  length (free_lists_ fl) = Z.to_nat (kNumLists + 1) -> 0 <= i <= kNumLists -> 0 <= j ->
  list_at (set_list fl i e) j = if j =? i then e else list_at fl j.
Proof.
  intros Hl Hi Hj; unfold list_at, set_list; cbn; rewrite !nth_lookup.
  destruct (Z.eqb_spec j i) as [-> |]; [rewrite list_lookup_insert_eq by (unfold kNumLists in *; lia); done |].
  rewrite list_lookup_insert_ne by lia; done.
Qed.

(** The list [i] becomes [bs]; the elements of the other lists are not touched. *)
Lemma chains_update m m' fl fl' bins i p bs :
  chains m fl bins -> 0 <= i <= kNumLists -> free_lists_ fl' = free_lists_ (set_list fl i p) ->
  chain m' p bs -> (forall b, b ∈ bs -> index_of b.2 = i) ->
  (forall j bs' b x, bins !! j = Some bs' -> j <> Z.to_nat i -> b ∈ bs' -> in_block b x ->
     words m' !! x = words m !! x) ->
  chains m' fl' (<[Z.to_nat i := bs]> bins).
Proof.
  intros [Hb Hl Hc Hx] Hi Hf Hp Hn Hs.
  assert (forall j, 0 <= j -> list_at fl' j = if j =? i then p else list_at fl j) as Hat.
  { intros j Hj; rewrite <- (list_at_set fl i j p) by done; unfold list_at; rewrite Hf; done. }
  split; [rewrite length_insert; done | rewrite Hf; cbn; rewrite length_insert; done | |].
  - intros j bs' Hj H0'; rewrite Hat by done; destruct (Z.eqb_spec j i) as [-> | Hne].
    + rewrite list_lookup_insert_eq in Hj by (unfold kNumLists in *; lia); injection Hj as <-; done.
    + rewrite list_lookup_insert_ne in Hj by lia.
      eapply chain_same; [| eauto]; intros b x; eapply Hs; [done | lia].
  - intros j bs' b Hj H0'; destruct (decide (j = i)) as [-> | Hne].
    + rewrite list_lookup_insert_eq in Hj by (unfold kNumLists in *; lia); injection Hj as <-; auto.
    + rewrite list_lookup_insert_ne in Hj by lia; eauto.
Qed.

(** The summary with the bit of list [i] set to whether it has elements. *)
Lemma summary_update fl fl' bins i bs r :
  summary fl bins -> length bins = Z.to_nat (kNumLists + 1) -> 0 <= i <= kNumLists ->
  set_ok kNumLists (free_map_ fl') ->
  (forall j, 0 <= j < kNumLists ->
     bit (free_map_ fl') j = if j =? i then negb (bool_decide (bs = [])) else bit (free_map_ fl) j) ->
  is_last kNumLists (free_map_ fl') r -> last_small fl' r ->
  summary fl' (<[Z.to_nat i := bs]> bins).
Proof.
  intros [Hm Hb _] Hlen Hi Hok Hbit Hlast Hsmall; split; [done | | eauto].
  intros j bs' Hj Hj'; rewrite Hbit by done; destruct (Z.eqb_spec j i) as [-> | Hne].
  - rewrite list_lookup_insert_eq in Hj by (unfold kNumLists in *; lia); injection Hj as <-.
    rewrite negb_true_iff, bool_decide_eq_false; done.
  - rewrite list_lookup_insert_ne in Hj by lia; auto.
Qed.

(** A list that stays empty or stays nonempty needs no change. *)
Lemma summary_keep fl fl' bins i bs bs' :
  summary fl bins -> length bins = Z.to_nat (kNumLists + 1) -> 0 <= i <= kNumLists ->
  free_map_ fl' = free_map_ fl -> last_free_small_size_ fl' = last_free_small_size_ fl ->
  bins !! Z.to_nat i = Some bs -> i = kNumLists \/ (bs = [] <-> bs' = []) ->
  summary fl' (<[Z.to_nat i := bs']> bins).
Proof.
  intros Hsum Hlen Hi Em El Hbs Hor; destruct (Hsum) as [Hok Hb (r & Hr & Hs)].
  apply (summary_update fl _ _ _ _ r); try rewrite Em; try done.
  - intros j Hj; destruct (Z.eqb_spec j i) as [-> |]; [| done]; destruct Hor as [| Hor]; [lia |].
    specialize (Hb i bs Hbs Hj); apply eq_true_iff_eq; rewrite Hb, negb_true_iff, bool_decide_eq_false, Hor; done.
  - unfold last_small in *; rewrite El; done.
Qed.
End Chains.

(** * Adding and removing elements *)
Section Operations.
Context `{Paging}.

Lemma index_of_range s : size_ok s -> 1 <= index_of s <= kNumLists.
Proof. intros Hs; destruct (size_multiple s Hs); unfold index_of, kNumLists; lia. Qed.

Lemma shift_alignment i : Z.shiftl i kObjectAlignmentLog2 = i * kObjectAlignment.
Proof. destruct alignment_log2 as [-> ?]; apply Z.shiftl_mul_pow2; done. Qed.

Lemma enqueue_summary fl bins i bs b :
  summary fl bins -> length bins = Z.to_nat (kNumLists + 1) -> 0 <= i <= kNumLists ->
  bins !! Z.to_nat i = Some bs -> (list_at fl i = 0 <-> bs = []) ->
  returns (if (list_at fl i =? 0) && negb (i =? kNumLists) then
             let* free_map := BitSet.Set_ kNumLists (free_map_ fl) i true in
             Ok (make free_map (free_lists_ fl)
                   (Maximum (last_free_small_size_ fl) (Z.shiftl i kObjectAlignmentLog2)))
           else Ok fl)
    (fun fl' => free_lists_ fl' = free_lists_ fl /\ summary fl' (<[Z.to_nat i := b :: bs]> bins)).
Proof.
  intros Hsum Hlen Hi Hbs Hnull; destruct (Hsum) as [Hok Hb (r & Hr & Hs)]; pose proof alignment_pos.
  destruct (Z.eqb_spec (list_at fl i) 0) as [E | E], (Z.eqb_spec i kNumLists) as [Ei | Ei]; cbn [andb negb].
  2: { apply Hnull in E as ->; call (Set_ok kNumLists ltac:(done) (free_map_ fl) i true) as data' (Hok' & Hbit); [done | lia |].
    apply returns_Ok; split; [done |]; apply (summary_update fl _ _ _ _ (Z.max r i)); try done; cbn.
    - intros j Hj; apply Hbit; lia.
    - right; rewrite Hbit by lia; destruct Hr as [[-> Hr] | (? & Hr & Hr')]; split_and!; try lia.
      + rewrite (proj2 (Z.eqb_eq _ _)) by lia; done.
      + intros j Hj; rewrite Hbit, (proj2 (Z.eqb_neq j i)), Hr by lia; done.
      + destruct (Z.eqb_spec (Z.max r i) i); [done |]; replace (Z.max r i) with r by lia; done.
      + intros j Hj; rewrite Hbit, (proj2 (Z.eqb_neq j i)), Hr' by lia; done.
    - unfold last_small in *; cbn; rewrite shift_alignment, (proj2 (Z.leb_le 0 (Z.max r i))) by lia.
      unfold Maximum; destruct (Z.gtb_spec (last_free_small_size_ fl) (i * kObjectAlignment)), (Z.leb_spec 0 r); nia. }
  all: apply returns_Ok; split; [done |]; eapply summary_keep; try done.
  all: first [left; done | right; split; [intros ->; destruct E; apply Hnull; done | done]].
Qed.

Lemma EnqueueBin_ok m fl bins b nxt bs (i := index_of b.2) :
  rep m fl bins -> elem m b nxt -> mapped m b -> Forall (disjoint b) (concat bins) ->
  can_write m (b.1 + kWordSize) -> bins !! Z.to_nat i = Some bs ->
  returns (EnqueueElement m fl b.1 i) (fun '(m', fl') =>
    rep m' fl' (<[Z.to_nat i := b :: bs]> bins) /\ same_outside (in_block b) m m' /\
    covers m m' /\ pages m' = pages m).
Proof.
  intros [Hch Hsum Hmap Hsep] He Hbm Hd Hw Hbs; destruct (Hch) as [Hlen Hlist Hc Hx].
  pose proof (index_of_range b.2 (proj1 (e_block _ _ _ He))) as Hi; fold i in Hi.
  pose proof (Hc i bs Hbs ltac:(lia)) as Hci; unfold EnqueueElement.
  call (enqueue_summary fl bins i bs b) as fl' (El & Hsum'); [done | done | lia | done | apply (chain_null m); done |].
  call (element_set_next_ok m b nxt (list_at fl i)) as m' (He' & Hs & Hcov & Ep); [done | done |].
  assert (forall b' x, b' ∈ concat bins -> in_block b' x -> words m' !! x = words m !! x) as Hsame.
  { intros b' x Hb' Hx'; apply Hs; eapply Forall_forall in Hd; [| done]; eapply disjoint_in; [symmetry |]; done. }
  destruct (concat_bin bins (Z.to_nat i) bs Hbs) as (rest & Hp & Hp').
  apply returns_Ok; split_and!; [split | done | done | done].
  - eapply (chains_update m m' fl _ _ _ b.1); try done; [lia | cbn; rewrite El; done | | |].
    + cbn; split; [done |]; exists (list_at fl i); split; [done |].
      eapply chain_same; [| done]; intros b' x Hb'; apply Hsame; eapply elem_of_bin; done.
    + intros b' [-> | Hb']%elem_of_cons; [done |]; apply (Hx i bs b'); done || lia.
    + intros j bs' b' x Hj _ Hb'; apply Hsame; eapply elem_of_bin; done.
  - destruct Hsum' as [? ? [r [? ?]]]; split; [done | done | exists r; done].
  - rewrite Hp'; cbn; apply Forall_cons; split; [eapply mapped_covers; done |].
    rewrite <- Hp; eapply Forall_impl; [exact Hmap |]; intros b'; apply mapped_covers; done.
  - rewrite Hp'; cbn; split; [rewrite <- Hp; done | rewrite <- Hp; done].
Qed.

Lemma dequeue_summary fl bins i bs b nxt :
  summary fl bins -> length bins = Z.to_nat (kNumLists + 1) -> 0 <= i <= kNumLists ->
  bins !! Z.to_nat i = Some (b :: bs) -> (nxt = 0 <-> bs = []) ->
  returns (if (nxt =? 0) && negb (i =? kNumLists) then
             let size := Z.shiftl i kObjectAlignmentLog2 in
             if size =? last_free_small_size_ fl then
               let* (free_map, previous) := BitSet.ClearLastAndFindPrevious kNumLists (free_map_ fl) i in
               Ok (make free_map (free_lists_ fl) (previous * kObjectAlignment))
             else
               let* free_map := BitSet.Set_ kNumLists (free_map_ fl) i false in
               Ok (make free_map (free_lists_ fl) (last_free_small_size_ fl))
           else Ok fl)
    (fun fl' => free_lists_ fl' = free_lists_ fl /\ summary fl' (<[Z.to_nat i := bs]> bins)).
Proof.
  intros Hsum Hlen Hi Hbs Hnull; destruct (Hsum) as [Hok Hb (r & Hr & Hs)]; pose proof alignment_pos.
  destruct (Z.eqb_spec nxt 0) as [E | E], (Z.eqb_spec i kNumLists) as [Ei | Ei]; cbn [andb negb].
  2: { apply Hnull in E as ->; rewrite shift_alignment.
    assert (bit (free_map_ fl) i = true) as Hbit by (apply (Hb i [b]); [done | lia | done]).
    destruct Hr as [[_ Hr] | (Hr0 & Hrb & Hr')]; [rewrite Hr in Hbit by lia; done |].
    unfold last_small in Hs; rewrite (proj2 (Z.leb_le 0 r)) in Hs by lia.
    assert (i <= r) by (destruct (Z.le_gt_cases i r); [done |]; rewrite Hr' in Hbit by lia; done).
    destruct (Z.eqb_spec (i * kObjectAlignment) (last_free_small_size_ fl)) as [El | El].
    - assert (i = r) as <- by nia.
      call (ClearLast_ok kNumLists ltac:(done) (free_map_ fl) i) as [data' r'] (Hok' & Hlast' & Hbit'); [done | right; done | lia |].
      apply returns_Ok; split; [done |]; apply (summary_update fl _ _ _ _ r'); try done; cbn.
      + intros j Hj; apply Hbit'; lia.
      + unfold last_small; cbn; destruct (Z.leb_spec 0 r'); nia.
    - call (Set_ok kNumLists ltac:(done) (free_map_ fl) i false) as data' (Hok' & Hbit'); [done | lia |].
      apply returns_Ok; split; [done |]; apply (summary_update fl _ _ _ _ r); try done; cbn.
      + intros j Hj; apply Hbit'; lia.
      + right; assert (r <> i) by congruence; split_and!; [lia | lia | |].
        * rewrite Hbit', (proj2 (Z.eqb_neq r i)) by lia; done.
        * intros j Hj; rewrite Hbit', (proj2 (Z.eqb_neq j i)) by lia; auto.
      + unfold last_small; cbn; rewrite (proj2 (Z.leb_le 0 r)) by lia; done. }
  all: apply returns_Ok; split; [done |]; eapply summary_keep; try done.
  all: first [left; done | right; split; [done | intros ->; destruct E; apply Hnull; done]].
Qed.

Lemma DequeueBin_ok m fl bins b bs i :
  rep m fl bins -> 0 <= i <= kNumLists -> bins !! Z.to_nat i = Some (b :: bs) ->
  returns (DequeueElement m fl i) (fun '(fl', e) =>
    e = b.1 /\ rep m fl' (<[Z.to_nat i := bs]> bins)).
Proof.
  intros [Hch Hsum Hmap Hsep] Hi Hbs; destruct (Hch) as [Hlen Hlist Hc Hx].
  destruct (Hc i (b :: bs) Hbs) as (Eb & nxt & He & Hn); [lia |].
  destruct (concat_bin bins (Z.to_nat i) _ Hbs) as (rest & Hp & Hp'); rewrite Hp in Hmap, Hsep.
  apply Forall_cons in Hmap as [Hbm Hmap]; destruct Hsep as [_ Hsep].
  unfold DequeueElement; rewrite Eb, (next_ok m b nxt) by done; cbn [obind].
  call (dequeue_summary fl bins i bs b nxt) as fl' (El & Hsum'); [done | done | lia | done | apply (chain_null m); done |].
  apply returns_Ok; split; [done |]; split.
  - eapply (chains_update m m fl _ _ _ nxt); try done; [cbn; rewrite El; done |].
    intros b' Hb'; apply (Hx i (b :: bs)); [done | lia | right; done].
  - destruct Hsum' as [? ? [r [? ?]]]; split; [done | done | exists r; done].
  - rewrite Hp'; done.
  - rewrite Hp'; done.
Qed.
End Operations.
