(* ===== verification/FreeListAllocProofs.v ===== *)
(** Allocation from the free list of [vm/freelist.cc]: a request is served from the free
    blocks, the remainder of the block is free again, nothing else is touched, and no
    store goes to a protected page. *)
From stdpp Require Import base numbers list gmap.
From Stdlib Require Import ZArith Lia Bool.
From S2P Require Import Prelude Utils UtilsProofs BitSet BitSetProofs FreeList FreeListProofs.
Import VirtualMemory FreeListElement FreeList.
#[local] Open Scope Z_scope.

Section Split.
Context `{Paging}.

(** What is left of a block when its first [size] bytes are taken. *)
Definition remainder (b : Z * Z) (size : Z) : list (Z * Z) :=
  if b.2 =? size then [] else [(b.1 + size, b.2 - size)].

(** The element, its memory and its place among the free blocks. *)
Lemma take_block m fl bins i l1 b l2 :
  rep m fl bins -> 0 <= i -> bins !! Z.to_nat i = Some (l1 ++ b :: l2) ->
  exists nxt rest, elem m b nxt /\ mapped m b /\ concat bins ≡ₚ b :: rest /\
    concat (<[Z.to_nat i := l1 ++ l2]> bins) ≡ₚ rest /\ Forall (disjoint b) rest.
Proof.
  intros [Hch _ Hmap Hsep] Hi Hbs; destruct (concat_bin bins _ _ Hbs) as (rest & Hp & Hp').
  assert (concat bins ≡ₚ b :: (l1 ++ l2) ++ rest) as Hpb.
  { rewrite Hp, <- !app_assoc; cbn; rewrite <- Permutation_middle; done. }
  assert (exists nxt, elem m b nxt) as [nxt He].
  { pose proof (c_chain _ _ _ Hch i _ Hbs Hi) as Hc; clear - Hc; revert Hc; generalize (list_at fl i).
    induction l1 as [| b' l1 IH]; cbn; intros p (_ & nxt & He & Hc); [eauto | eapply IH; done]. }
  rewrite Hpb in Hmap, Hsep; apply Forall_cons in Hmap as [Hm _]; destruct Hsep as [Hd _].
  exists nxt, ((l1 ++ l2) ++ rest); split_and!; [done | done | done | apply Hp' | done].
Qed.

(** The representation depends on the memory of the free blocks only. *)
Lemma rep_frame m m' fl bins :
  rep m fl bins -> (forall b x, b ∈ concat bins -> in_block b x -> words m' !! x = words m !! x) ->
  covers m m' -> rep m' fl bins.
Proof.
  intros [[Hb Hl Hc Hx] Hsum Hmap Hsep] Hw Hcov; split; [split | | |]; try done.
  - intros i bs Hi H0'; eapply chain_same; [| eauto]; intros b x Hin; apply Hw; eapply elem_of_bin; done.
  - eapply Forall_impl; [exact Hmap |]; intros b; apply mapped_covers; done.
Qed.

Lemma rep_outside m m' fl bins b :
  rep m fl bins -> Forall (disjoint b) (concat bins) -> same_outside (in_block b) m m' -> covers m m' ->
  rep m' fl bins.
Proof.
  intros Hrep Hd Hs; apply rep_frame; [done |]; intros b' x Hin Hx; apply Hs.
  eapply Forall_forall in Hd; [| done]; eapply disjoint_in; [symmetry |]; done.
Qed.

Lemma rep_protect m m' fl bins : rep m fl bins -> words m' = words m -> covers m m' -> rep m' fl bins.
Proof. intros Hrep Ew; apply rep_frame; [done |]; rewrite Ew; done. Qed.

(** [protect] on memory that is there. *)
Lemma protect_mapped m b a n mode :
  0 < n -> 0 <= a -> a + n < 2 ^ kBitsPerWord -> readable mode = true ->
  (forall x, a <= x < a + n -> can_read m x) ->
  returns (protect m b a n mode) (fun m' => words m' = words m /\ covers m m' /\ (b = false -> m' = m) /\
    forall x, pages m' !! page x =
      if b && (page a <=? page x) && (page x <? a + n) then Some mode else pages m !! page x).
Proof.
  intros Hn Ha Hend Hmode Hr; eapply returns_mono.
  { apply protect_ok; try done; intros x Hx; destruct (Hr x Hx) as (? & -> & _); eauto. }
  intros m' (Ew & Em & Ep); split_and!; [done | split | done | done]; [rewrite Ew; done |].
  intros x (md & Hx & Hrd); unfold can_read; rewrite Ep; case_match; eauto.
Qed.

Lemma mapped_range m b a n :
  mapped m b -> b.1 <= a -> a + n <= b.1 + b.2 -> forall x, a <= x < a + n -> can_read m x.
Proof. intros Hm Ha Hn x Hx; apply Hm; unfold in_block; lia. Qed.

(** A block is written as an element and becomes free. *)
Lemma release_ok m fl bins b :
  rep m fl bins -> block_ok b -> mapped m b -> Forall (disjoint b) (concat bins) ->
  (forall x, b.1 <= x < b.1 + HeaderSizeFor b.2 -> can_write m x) ->
  returns (let* m := AsElement m b.1 b.2 in EnqueueElement m fl b.1 (index_of b.2)) (fun '(m', fl') =>
    exists bins', rep m' fl' bins' /\ concat bins' ≡ₚ b :: concat bins /\
      same_outside (in_block b) m m' /\ covers m m' /\ pages m' = pages m).
Proof.
  intros Hrep Hb Hm Hd Hw.
  call (AsElement_ok m b) as m1 (He & Hs1 & Hc1 & Ep1); [done | done | done |].
  assert (rep m1 fl bins) as Hrep1 by (eapply rep_outside; done).
  destruct (bin_exists bins (index_of b.2)) as [bs Hbs]; [apply Hrep1 | |].
  { pose proof (index_of_range b.2 (proj1 Hb)); lia. }
  eapply returns_mono; [apply (EnqueueBin_ok m1 fl bins b 0 bs); try done |].
  - eapply mapped_covers; done.
  - eapply can_write_pages; [exact Ep1 |]; apply Hw.
    destruct (header_addresses b.1 b.2) as (_ & _ & _ & -> & _); [destruct b; done |].
    destruct word_size; case_match; lia.
  - intros [m' fl'] (Hrep' & Hs' & Hc' & Ep'); exists (<[Z.to_nat (index_of b.2) := b :: bs]> bins).
    destruct (concat_bin bins _ _ Hbs) as (rest & Hp & Hp').
    split_and!; [done | rewrite Hp', Hp; done | eapply same_outside_trans; done | eapply covers_trans; done | congruence].
Qed.

Lemma remainder_ok m fl bins b size :
  rep m fl bins -> block_ok b -> mapped m b -> Forall (disjoint b) (concat bins) ->
  (forall b', b' ∈ concat bins -> 0 < b'.2) -> size_ok size -> size < b.2 ->
  (forall x, b.1 + size <= x < b.1 + size + HeaderSizeFor (b.2 - size) -> can_write m x) ->
  returns (let* m := AsElement m (b.1 + size) (b.2 - size) in
           let* i := IndexForSize (b.2 - size) in
           EnqueueElement m fl (b.1 + size) i) (fun '(m', fl') =>
    exists bins', rep m' fl' bins' /\ concat bins' ≡ₚ (b.1 + size, b.2 - size) :: concat bins /\
      same_outside (in_block (b.1 + size, b.2 - size)) m m' /\ covers m m' /\ pages m' = pages m).
Proof.
  intros Hrep Hb Hm Hd Hpos Hs Hlt Hw; destruct b as [a s]; cbn [fst snd] in *.
  destruct (block_sub a s size Hb Hs Hlt) as [Hb' _]; rewrite (IndexForSize_ok (s - size)) by apply Hb'.
  assert (forall x, in_block (a + size, s - size) x -> in_block (a, s) x) as Hsub.
  { intros x; unfold in_block; cbn; destruct Hs as [[? _] _]; pose proof alignment_pos; lia. }
  apply (release_ok m fl bins (a + size, s - size)); [done | done | eapply mapped_sub; done | | done].
  apply Forall_forall; intros b' Hin; pose proof (Hpos b' Hin); eapply Forall_forall in Hd; [| done].
  eapply disjoint_part; [exact Hsub | cbn; lia | done | done].
Qed.

(** [SplitElementAfterAndEnqueue]: only the memory of the remainder is written; the
    pages that begin in the block taken stay writable. *)
Lemma Split_ok m fl bins b nxt size prot :
  rep m fl bins -> elem m b nxt -> mapped m b -> Forall (disjoint b) (concat bins) ->
  (forall b', b' ∈ concat bins -> 0 < b'.2) -> size_ok size -> size <= b.2 ->
  (size < b.2 -> forall x, b.1 + size <= x < b.1 + size + HeaderSizeFor (b.2 - size) -> can_write m x) ->
  returns (SplitElementAfterAndEnqueue m fl b.1 size prot) (fun '(m', fl') =>
    exists bins', rep m' fl' bins' /\ concat bins' ≡ₚ remainder b size ++ concat bins /\
      same_outside (in_block b) m m' /\ covers m m' /\
      (forall x, page x < b.1 + size -> pages m' !! page x = pages m !! page x) /\
      (prot = false -> pages m' = pages m) /\ (forall x, can_write m' x -> can_write m x)).
Proof.
  intros Hrep He Hm Hd Hpos Hs Hle Hw; unfold SplitElementAfterAndEnqueue.
  rewrite (Size_ok m b nxt) by done; cbn [obind]; unfold remainder.
  destruct (Z.eqb_spec (b.2 - size) 0), (Z.eqb_spec b.2 size); try lia.
  { apply returns_Ok; exists bins; split_and!; done || apply covers_refl. }
  assert (size < b.2) as Hlt by lia; pose proof (e_block _ _ _ He) as Hb; destruct (Hb) as ([[Hlo _] _] & Ha & _ & Hend).
  pose proof alignment_pos; destruct (Hs) as [[Hslo _] _].
  assert (to_u kBitsPerWord (b.1 + size) = b.1 + size) as -> by (apply to_u_id; unfold in_u; lia).
  pose proof (remainder_ok m fl bins b size Hrep Hb Hm Hd Hpos Hs Hlt (Hw Hlt)) as (st & E & Hpost).
  destruct (AsElement m (b.1 + size) (b.2 - size)) as [m1 |]; [| done]; cbn [obind] in *.
  destruct (IndexForSize (b.2 - size)) as [i |]; [| done]; cbn [obind] in *; rewrite E; cbn [obind].
  destruct st as [m2 fl2]; destruct Hpost as (bins' & Hrep2 & Hp2 & Hs2 & Hc2 & Ep2).
  rewrite (to_u_id _ (b.1 + size - 1)), InSamePage_ok by (unfold in_u; lia); cbn [obind].
  call (protect_mapped m2) as m3 (Ew3 & Hc3 & Em3 & Ep3); [lia | lia | lia | done | |].
  { apply (mapped_range _ b); [eapply mapped_covers; done | lia | lia]. }
  apply returns_Ok; exists bins'; split_and!; [eapply rep_protect; done | rewrite Hp2; done | | eapply covers_trans; done | | |].
  - intros x Hx; rewrite Ew3; apply Hs2; unfold in_block in *; cbn; lia.
  - intros x Hx; rewrite Ep3, Ep2; destruct (Z.eqb_spec (page (b.1 + size - 1)) (page (b.1 + size))) as [Eq | Ne].
    { rewrite andb_false_r; done. }
    destruct (Z.leb_spec (page (b.1 + size)) (page x)); [| rewrite andb_false_r; done]; exfalso; apply Ne.
    pose proof (page_mono (b.1 + size - 1) (b.1 + size)); pose proof (page_mono (page x) (b.1 + size - 1)).
    rewrite page_page in *; lia.
  - intros ->; rewrite Em3 by done; done.
  - intros x (mode & Hx & Hwr); rewrite Ep3 in Hx; case_match; [injection Hx as <-; done |].
    exists mode; rewrite <- Ep2; done.
Qed.
End Split.

(** * Unlinking an element of the list of large elements *)
Section Unlink.
Context `{Paging}.

Definition previous_of (l : list (Z * Z)) : Z := default 0 (fst <$> last l).

(** The free blocks, and that they can be written. *)
Definition in_free (bins : list (list (Z * Z))) (x : Z) : Prop := exists b, b ∈ concat bins /\ in_block b x.

Definition free_writable (m : memory) (bins : list (list (Z * Z))) : Prop :=
  forall x, in_free bins x -> can_write m x.

Lemma chain_unlink m m' p l1 pb b l2 nxt :
  chain m p (l1 ++ pb :: b :: l2) -> elem m b nxt -> elem m' pb nxt ->
  (forall b' x, b' ∈ l1 ++ l2 -> in_block b' x -> words m' !! x = words m !! x) ->
  chain m' p (l1 ++ pb :: l2).
Proof.
  intros Hc He He'; revert p Hc; induction l1 as [| b' l1 IH]; intros p; cbn.
  - intros (-> & n1 & _ & -> & n2 & He2 & Hc) Hs; split; [done |]; exists nxt; split; [done |].
    assert (n2 = nxt) as -> by (pose proof (e_next _ _ _ He) as E1; pose proof (e_next _ _ _ He2); congruence).
    eapply chain_same; [| done]; intros b' x Hb'; apply Hs; done.
  - intros (-> & n1 & He1 & Hc) Hs; split; [done |]; exists n1; split.
    + eapply elem_same; [| done]; intros x; apply Hs; left.
    + apply IH; [done |]; intros b'' x Hb''; apply Hs; right; done.
Qed.

Lemma large_list m fl bins l : rep m fl bins -> bins !! Z.to_nat kNumLists = Some l -> chain m (list_at fl kNumLists) l.
Proof. intros Hrep Hl; eapply c_chain; [apply Hrep | done | done]. Qed.

(** The representation without an element of the last list. *)
Lemma rep_unlinked m m' fl fl' bins l1 b l2 p :
  rep m fl bins -> bins !! Z.to_nat kNumLists = Some (l1 ++ b :: l2) ->
  free_lists_ fl' = free_lists_ (set_list fl kNumLists p) -> free_map_ fl' = free_map_ fl ->
  last_free_small_size_ fl' = last_free_small_size_ fl ->
  chain m' p (l1 ++ l2) -> covers m m' ->
  (forall b' x, b' ∉ l1 -> b' ∈ concat bins -> in_block b' x -> words m' !! x = words m !! x) ->
  (forall j bs b', bins !! j = Some bs -> j <> Z.to_nat kNumLists -> b' ∈ bs -> b' ∉ l1) ->
  rep m' fl' (<[Z.to_nat kNumLists := l1 ++ l2]> bins).
Proof.
  intros Hrep Hl El Em Es Hc Hcov Hsame Hother; destruct (Hrep) as [Hch Hsum Hmap Hsep].
  destruct (take_block m fl bins kNumLists l1 b l2) as (nxt & rest & _ & _ & Hp & Hp' & _); [done | done | done |].
  rewrite Hp in Hmap, Hsep; apply Forall_cons in Hmap as [_ Hmap]; destruct Hsep as [_ Hsep]; split.
  - eapply (chains_update m m' fl fl' bins kNumLists p); try done.
    + intros b' Hin; eapply (c_index _ _ _ Hch kNumLists); [done | done |].
      rewrite elem_of_app in *; rewrite elem_of_cons; tauto.
    + intros j bs b' x Hj Hne Hin; apply Hsame; [eauto | eapply elem_of_bin; done].
  - eapply summary_keep; try done; [apply Hch | left; done].
  - rewrite Hp'; eapply Forall_impl; [exact Hmap |]; intros b'; apply mapped_covers; done.
  - rewrite Hp'; done.
Qed.

(** An element of one list is in no other. *)
Lemma other_list m fl bins i j bs bs' b :
  rep m fl bins -> bins !! Z.to_nat i = Some bs -> bins !! j = Some bs' -> 0 <= i -> j <> Z.to_nat i ->
  b ∈ bs' -> b ∉ bs.
Proof.
  intros [Hch _ _ _] Hi Hj Hi0 Hne Hb' Hb; rewrite <- (Nat2Z.id j) in Hj.
  pose proof (c_index _ _ _ Hch _ _ _ Hi Hi0 Hb); pose proof (c_index _ _ _ Hch _ _ _ Hj ltac:(lia) Hb'); lia.
Qed.

Lemma page_lt x y : page x < page y -> x < page y.
Proof.
  intros Hxy; destruct (Z.lt_ge_cases x (page y)) as [| Hge]; [done |].
  apply page_mono in Hge; rewrite page_page in Hge; lia.
Qed.

(** A word outside of a range that is on neither of the pages at its ends is on none of
    its pages. *)
Lemma page_outside a n target x :
  0 < n -> ~ (a <= target < a + n) -> page target <> page a -> page target <> page (a + n - 1) ->
  a <= x < a + n -> page x <> page target.
Proof.
  intros Hn Hout Ha He Hx E; pose proof (page_mono a x); pose proof (page_mono x (a + n - 1)).
  pose proof (page_lt a target); pose proof (page_lt target (a + n - 1)); pose proof (page_bounds target).
  pose proof (page_bounds (a + n - 1)); lia.
Qed.

(** Whether the page of the previous element has to be made writable for the store. *)
Definition guarded (prot : bool) (target a region : Z) : bool :=
  prot && negb (page target =? page a) && negb (page target =? page (a + region - 1)).

(** [previous->next_ = next]: the store is to a writable page, and the protections are
    the same afterwards but for the page of the store. *)
Lemma set_previous_ok m pb b region prot nxt nxt' (target := pb.1 + kWordSize)
    (g := guarded prot target b.1 region) :
  elem m pb nxt' -> block_ok b -> disjoint pb b -> 0 < region -> region <= b.2 -> mapped m pb ->
  elem m b nxt -> mapped m b ->
  (prot = false -> can_write m target) ->
  (prot = true -> forall x, b.1 <= x < b.1 + region -> can_write m x) ->
  returns (let* m := protect m g target kWordSize kReadWrite in
           let* next := FreeListElement.next m b.1 in
           let* m := set_next m pb.1 next in
           protect m g target kWordSize kReadExecute) (fun m' =>
    elem m' pb nxt /\ same_outside (in_block pb) m m' /\ covers m m' /\
    (forall x, b.1 <= x < b.1 + region -> can_write m x -> can_write m' x) /\
    (forall x, can_write m' x -> can_write m x) /\ (prot = false -> pages m' = pages m)).
Proof.
  intros He Hb Hd Hr Hrb Hm Heb Hmb Hw Hwr; pose proof (e_block _ _ _ He) as Hpb.
  destruct (header_in_block pb Hpb) as (_ & Ht & _); fold target in Ht.
  destruct (header_addresses pb.1 pb.2) as (_ & _ & Hle & Hh & Hmod); [destruct pb; done |].
  destruct word_size as [_ Hws]; destruct (Hpb) as (_ & Hp0 & _ & Hpe).
  assert (target + kWordSize <= pb.1 + pb.2) by (rewrite Hh in Hle; unfold target; case_match; lia).
  pose proof (page_bounds target).
  assert (forall m, mapped m pb -> forall x, target <= x < target + kWordSize -> can_read m x) as Hread.
  { intros m0 Hm0; apply (mapped_range m0 pb); [done | unfold in_block in Ht; lia | lia]. }
  call (protect_mapped m g target) as m1 (Ew1 & Hc1 & Em1 & Ep1); [lia | unfold in_block in Ht; lia | lia | done | apply Hread; done |].
  assert (can_write m1 target) as Hw1.
  { destruct g eqn:Eg; [exists kReadWrite; rewrite Ep1, (proj2 (Z.leb_le _ _)), (proj2 (Z.ltb_lt _ _)) by lia; done |].
    rewrite Em1 by done; unfold g, guarded in Eg; destruct prot; [cbn in Eg | auto].
    apply andb_false_iff in Eg as [Eg | Eg]; apply negb_false_iff, Z.eqb_eq in Eg; unfold can_write; rewrite Eg; apply Hwr; done || lia. }
  assert (forall b' n, elem m b' n -> elem m1 b' n) as Hel by (intros b' n; apply elem_same; rewrite Ew1; done).
  rewrite (next_ok m1 b nxt) by (auto || eapply mapped_covers; done); cbn [obind].
  call (element_set_next_ok m1 pb nxt' nxt) as m2 (He2 & Hs2 & Hc2 & Ep2); [auto | done |].
  assert (mapped m2 pb) as Hm2 by (eapply mapped_covers; [done |]; eapply mapped_covers; done).
  eapply returns_mono; [apply (protect_mapped m2 g target); [lia | unfold in_block in Ht; lia | lia | done | apply Hread; done] |].
  intros m3 (Ew3 & Hc3 & Em3 & Ep3); split_and!.
  - eapply elem_same; [| exact He2]; rewrite Ew3; done.
  - intros x Hx; rewrite Ew3, Hs2, Ew1; done.
  - eapply covers_trans; [done |]; eapply covers_trans; done.
  - intros x Hx (mode & Hxm & Hmode); unfold can_write; rewrite Ep3, Ep2, Ep1.
    destruct g eqn:Eg; [| exists mode; done]; cbn [andb].
    assert (page x <> page target) as Hne.
    { unfold g, guarded in Eg; destruct prot; [| done]; cbn in Eg.
      apply andb_true_iff in Eg as [E1%negb_true_iff%Z.eqb_neq E2%negb_true_iff%Z.eqb_neq].
      apply (page_outside b.1 region); try done; unfold disjoint, in_block in *; lia. }
    destruct (Z.leb_spec (page target) (page x)), (Z.ltb_spec (page x) (target + kWordSize)); cbn; try (exists mode; done).
    exfalso; apply Hne; pose proof (page_mono (page x) (target + kWordSize - 1)).
    rewrite page_page, word_page in *; [lia |]; unfold target.
    rewrite <- (Z.mul_1_l kWordSize) at 1; rewrite Z.mod_add by lia; done.
  - intros x (mode & Hxm & Hmode); rewrite Ep3, Ep2, Ep1 in Hxm.
    destruct (g && _ && _); [injection Hxm as <-; done | exists mode; done].
  - intros ->; rewrite Em3, Ep2, Em1 by done; done.
Qed.

(** The bytes that [TryAllocateLocked] makes writable: the block and the header of the
    remainder. *)
Definition region (b : Z * Z) (size : Z) : Z := size + HeaderSizeFor (b.2 - size).

Lemma region_ok b size : block_ok b -> size_ok size -> size <= b.2 -> 0 < size <= region b size /\ region b size <= b.2.
Proof.
  intros Hb Hs Hle; unfold region; destruct (Hs) as [[Hlo _] _]; pose proof alignment_pos; destruct word_size as [_ Hw].
  destruct (Z.eq_dec b.2 size) as [E | Hne].
  - unfold HeaderSizeFor; rewrite (proj2 (Z.eqb_eq _ _)) by lia; lia.
  - destruct b as [a s]; cbn [fst snd] in *; destruct (block_sub a s size Hb Hs ltac:(lia)) as [Hb' _].
    destruct (header_addresses _ _ Hb') as (_ & _ & Hh & Eh & _); rewrite Eh in *; case_match; lia.
Qed.

Lemma unlink_ok m fl bins l1 b l2 r prot :
  rep m fl bins -> bins !! Z.to_nat kNumLists = Some (l1 ++ b :: l2) -> 0 < r <= b.2 ->
  (prot = false -> free_writable m bins) ->
  (prot = true -> forall x, b.1 <= x < b.1 + r -> can_write m x) ->
  returns (unlink m fl (previous_of l1) b.1 r prot) (fun '(m', fl') =>
    rep m' fl' (<[Z.to_nat kNumLists := l1 ++ l2]> bins) /\ (exists nxt, elem m' b nxt) /\
    same_outside (in_free bins) m m' /\ covers m m' /\
    (forall x, b.1 <= x < b.1 + r -> can_write m x -> can_write m' x) /\
    (forall x, can_write m' x -> can_write m x) /\ (prot = false -> pages m' = pages m)).
Proof.
  intros Hrep Hl Hr Hw Hwr; pose proof (large_list _ _ _ _ Hrep Hl) as Hc.
  destruct (take_block m fl bins kNumLists l1 b l2) as (nxt & rest & He & Hm & Hp & _ & Hd); [done | done | done |].
  pose proof (e_block _ _ _ He) as Hb; unfold unlink.
  destruct l1 as [| pb l1 _] using rev_ind.
  { cbn [app] in *; change (previous_of []) with 0; rewrite (next_ok m b nxt) by done; cbn [Z.eqb obind].
    destruct Hc as (_ & n & He' & Hc); pose proof (e_next _ _ _ He) as E1; rewrite (e_next _ _ _ He') in E1; injection E1 as ->.
    apply returns_Ok; split_and!; try done; [| eauto].
    eapply (rep_unlinked m m fl _ bins [] b l2 nxt); try done.
    intros; apply not_elem_of_nil. }
  rewrite <- app_assoc in *; cbn [app] in *.
  destruct (take_block m fl bins kNumLists l1 pb (b :: l2)) as (nxt' & rest' & Hep & Hmp & Hp' & Hp2 & Hdp); [done | done | done |].
  pose proof (e_block _ _ _ Hep) as Hpb; destruct (Hpb) as ([[Hplo _] _] & Hp0 & _ & Hpe); destruct (Hb) as (_ & Hb0 & _ & Hbe).
  assert (pb ∈ concat bins) as Hpin by (rewrite Hp'; left).
  assert (disjoint pb b) as Hdpb.
  { eapply Forall_forall in Hdp; [done |]; rewrite <- Hp2; eapply elem_of_bin; [apply list_lookup_insert_eq; apply lookup_lt_Some in Hl; done |].
    rewrite elem_of_app; right; left. }
  destruct (header_in_block pb Hpb) as (_ & Ht & _); destruct word_size as [_ Hws].
  assert (previous_of (l1 ++ [pb]) = pb.1) as -> by (unfold previous_of; rewrite last_snoc; done).
  rewrite (proj2 (Z.eqb_neq pb.1 0)), (to_u_id _ (b.1 + r - 1)) by (unfold in_u; lia).
  destruct (header_addresses pb.1 pb.2) as (-> & _); [destruct pb; done |].
  rewrite !InSamePage_ok by (unfold in_u, in_block in *; lia); cbn [obind].
  destruct (set_previous_ok m pb b r prot nxt nxt') as (m3 & E & He3 & Hs3 & Hc3 & Hw3 & Hw3' & Hp3); try done; try lia.
  { intros ->; apply Hw; [done |]; exists pb; done. }
  unfold guarded in E; destruct (protect _ _ _ _ kReadWrite) as [m1 |]; [| done]; cbn [obind] in *.
  destruct (FreeListElement.next m1 b.1) as [n |]; [| done]; cbn [obind] in *.
  destruct (set_next m1 pb.1 n) as [m2 |]; [| done]; cbn [obind] in *; rewrite E; cbn [obind].
  assert (forall b' x, b' <> pb -> b' ∈ concat bins -> in_block b' x -> words m3 !! x = words m !! x) as Hsame.
  { intros b' x Hne Hin Hx; apply Hs3; rewrite Hp', elem_of_cons in Hin; destruct Hin as [| Hin]; [done |].
    eapply Forall_forall in Hdp; [| done]; eapply disjoint_in; [symmetry |]; done. }
  assert (forall b', b' ∈ l1 ++ b :: l2 -> b' <> pb /\ b' ∈ concat bins) as Hlist.
  { intros b' Hin; assert (b' ∈ rest') as Hin'.
    { rewrite <- Hp2; eapply elem_of_bin; [apply list_lookup_insert_eq; apply lookup_lt_Some in Hl; done | done]. }
    split; [| rewrite Hp'; right; done]; intros ->; eapply Forall_forall in Hdp; [| done].
    unfold disjoint in Hdp; pose proof alignment_pos; lia. }
  apply returns_Ok; split_and!; try done.
  - replace (l1 ++ pb :: l2) with ((l1 ++ [pb]) ++ l2) by (rewrite <- app_assoc; done).
    eapply (rep_unlinked m m3 fl fl bins (l1 ++ [pb]) b l2 (list_at fl kNumLists)); try done.
    + rewrite <- app_assoc; done.
    + unfold set_list, list_at; cbn [free_lists_]; rewrite nth_lookup.
      pose proof (c_lists _ _ _ (r_chains _ _ _ Hrep)).
      destruct (lookup_lt_is_Some_2 (free_lists_ fl) (Z.to_nat kNumLists)) as [z Hz]; [unfold kNumLists in *; lia |].
      rewrite Hz; cbn; rewrite list_insert_id; done.
    + rewrite <- app_assoc; cbn; eapply chain_unlink; try done.
      intros b' x Hin; destruct (Hlist b'); [rewrite elem_of_app in *; rewrite elem_of_cons; tauto | apply Hsame; done].
    + intros b' x Hnin Hin; apply Hsame; [| done]; intros ->; apply Hnin; rewrite elem_of_app, list_elem_of_singleton; auto.
    + intros j bs b' Hj Hne Hin Hin'; eapply (other_list m fl bins kNumLists j); try done.
      rewrite elem_of_app, list_elem_of_singleton in Hin'; rewrite elem_of_app, elem_of_cons; tauto.
  - exists nxt; eapply elem_same; [| exact He]; intros x; apply Hsame; [| rewrite Hp; left].
    apply Hlist; rewrite elem_of_app; right; left.
  - intros x Hx; apply Hs3; intros Hx'; apply Hx; exists pb; done.
Qed.
End Unlink.

(** * Allocation *)
Section Allocation.
Context `{Paging}.

(** A request for [size] bytes is served at [a]: the block there leaves the free blocks,
    what remains of it is free again, nothing outside of the free blocks is written,
    and the block that was asked for can be written.  In protected mode only the pages
    of that block and of the header of the remainder have become writable. *)
Definition served (m : memory) (bins : list (list (Z * Z))) (size : Z) (prot : bool)
    (m' : memory) (fl' : t) (a : Z) : Prop :=
  exists b rest bins', a = b.1 /\ size <= b.2 /\ concat bins ≡ₚ b :: rest /\
    rep m' fl' bins' /\ concat bins' ≡ₚ remainder b size ++ rest /\
    same_outside (in_free bins) m m' /\ covers m m' /\
    (forall x, in_block (a, size) x -> can_write m' x) /\
    (forall x, can_write m' x ->
       can_write m x \/ prot = true /\ page a <= page x < a + region b size) /\
    (prot = false -> pages m' = pages m).

Definition positive_blocks (bs : list (Z * Z)) : Prop := forall b, b ∈ bs -> 0 < b.2.

Lemma rep_positive m fl bins : rep m fl bins -> positive_blocks (concat bins).
Proof.
  intros [Hch _ _ _] b Hb; apply list_elem_of_In, in_concat in Hb as (bs & Hbs%list_elem_of_In & Hb%list_elem_of_In).
  apply list_elem_of_lookup in Hbs as [i Hi]; rewrite <- (Nat2Z.id i) in Hi.
  destruct (chain_blocks _ _ _ _ (c_chain _ _ _ Hch _ _ Hi ltac:(lia)) Hb) as ([[Hlo _] _] & _).
  pose proof alignment_pos; lia.
Qed.

(** [protect] makes a range of mapped memory writable. *)
Lemma make_writable_ok m prot a n :
  0 < n -> 0 <= a -> a + n < 2 ^ kBitsPerWord -> (forall x, a <= x < a + n -> can_read m x) ->
  (prot = false -> forall x, a <= x < a + n -> can_write m x) ->
  returns (protect m prot a n kReadWrite) (fun m' => words m' = words m /\ covers m m' /\
    (prot = false -> m' = m) /\ (forall x, a <= x < a + n -> can_write m' x) /\
    (forall x, can_write m x -> can_write m' x) /\
    (forall x, can_write m' x -> can_write m x \/ prot = true /\ page a <= page x < a + n)).
Proof.
  intros Hn Ha Hend Hr Hw; eapply returns_mono; [apply protect_mapped; done |].
  intros m' (Ew & Hc & Em & Ep); split_and!; [done | done | done | | |].
  - intros x Hx; destruct prot; [| rewrite Em by done; auto]; exists kReadWrite.
    pose proof (page_mono a x); pose proof (page_bounds x).
    rewrite Ep, (proj2 (Z.leb_le _ _)), (proj2 (Z.ltb_lt _ _)) by lia; done.
  - intros x (mode & Hx & Hmode); unfold can_write; rewrite Ep.
    destruct (prot && _ && _); [exists kReadWrite; done | exists mode; done].
  - intros x (mode & Hx & Hmode); rewrite Ep in Hx.
    destruct (prot && _ && _) eqn:E; [right | left; exists mode; done].
    apply andb_true_iff in E as [[-> E1%Z.leb_le]%andb_true_iff E2%Z.ltb_lt]; done.
Qed.

(** The last step of an allocation: the element is out of its list and its region is
    writable. *)
Lemma serve_ok m0 bins m fl bins1 b nxt rest size prot :
  rep m fl bins1 -> elem m b nxt -> mapped m b -> concat bins ≡ₚ b :: rest -> concat bins1 ≡ₚ rest ->
  Forall (disjoint b) rest -> size_ok size -> size <= b.2 ->
  (forall x, b.1 <= x < b.1 + region b size -> can_write m x) ->
  same_outside (in_free bins) m0 m -> covers m0 m ->
  (forall x, can_write m x ->
     can_write m0 x \/ prot = true /\ page b.1 <= page x < b.1 + region b size) ->
  (prot = false -> pages m = pages m0) ->
  returns (let* (m, fl) := SplitElementAfterAndEnqueue m fl b.1 size prot in Ok (m, fl, b.1))
    (fun '(m', fl', a) => served m0 bins size prot m' fl' a).
Proof.
  intros Hrep He Hm Hp Hp1 Hd Hs Hle Hw Hs0 Hc0 Hw0 Hpg.
  destruct (region_ok b size (e_block _ _ _ He) Hs Hle) as [Hreg _].
  call (Split_ok m fl bins1 b nxt size prot) as [m' fl'] (bins' & Hrep' & Hp' & Hs' & Hc' & Hpages & Hpf & Hww);
    try done; [rewrite Hp1; done | eapply rep_positive; done | intros _ x Hx; apply Hw; unfold region; lia |].
  apply returns_Ok; exists b, rest, bins'; split_and!; try done.
  - rewrite Hp', Hp1; done.
  - eapply same_outside_trans; [exact Hs0 |]; eapply same_outside_weaken; [| exact Hs'].
    intros x Hx; exists b; split; [rewrite Hp; left | done].
  - eapply covers_trans; done.
  - intros x Hx; destruct (Hw x) as (mode & E & Emode); [unfold in_block in Hx; cbn in Hx; lia |].
    exists mode; rewrite Hpages; [done |]; pose proof (page_bounds x); unfold in_block in Hx; cbn in Hx; lia.
  - auto.
  - intros E; rewrite Hpf, Hpg by done; done.
Qed.

Lemma large_loop_ok m fl bins size prot l1 l2 fuel current :
  rep m fl bins -> size_ok size -> (prot = false -> free_writable m bins) ->
  bins !! Z.to_nat kNumLists = Some (l1 ++ l2) -> chain m current l2 ->
  Forall (fun b => b.2 < size) l1 -> (length l2 < fuel)%nat ->
  returns (large_loop fuel m fl size prot (previous_of l1) current) (fun '(m', fl', a) =>
    a = 0 /\ m' = m /\ fl' = fl /\ Forall (fun b => b.2 < size) (l1 ++ l2) \/
    served m bins size prot m' fl' a).
Proof.
  intros Hrep Hs Hfw; revert l1 fuel current; induction l2 as [| b l2 IH]; intros l1 fuel current Hl Hc Hl1 Hf.
  all: destruct fuel as [| fuel]; [cbn in Hf; lia |]; cbn [large_loop].
  { cbn in Hc; subst current; apply returns_Ok; left; rewrite app_nil_r; done. }
  destruct Hc as (-> & nxt & He & Hc); destruct (e_block _ _ _ He) as (_ & Hb0 & _ & Hbe).
  destruct (take_block m fl bins kNumLists l1 b l2) as (_ & rest & _ & Hm & Hp & Hp1 & Hd); [done | done | done |].
  rewrite (proj2 (Z.eqb_neq b.1 0)), (Size_ok m b nxt) by (done || lia); cbn [obind].
  destruct (Z.geb_spec b.2 size) as [Hle | Hgt].
  - destruct (region_ok b size (e_block _ _ _ He) Hs Hle) as [Hr1 Hr2]; fold (region b size).
    assert (prot = false -> forall x, b.1 <= x < b.1 + region b size -> can_write m x) as Hwb.
    { intros Hpf x Hx; apply (Hfw Hpf); exists b; split; [rewrite Hp; left | unfold in_block; lia]. }
    call (make_writable_ok m prot b.1 (region b size)) as m1 (Ew1 & Hc1 & Em1 & Hw1 & Hw1' & Hw1''); [lia | lia | lia | | done |].
    { apply (mapped_range m b); [done | lia | lia]. }
    call (unlink_ok m1 fl bins l1 b l2 (region b size) prot) as [m2 fl2] (Hrep2 & (n2 & He2) & Hs2 & Hc2 & Hw2 & Hw2' & Hp2);
      [eapply rep_protect; done | done | lia | intros Hpf; rewrite Em1 by done; auto | done |].
    eapply returns_mono; [eapply (serve_ok m bins m2 fl2 _ b n2 rest size prot); try done |].
    + eapply mapped_covers; [done |]; eapply mapped_covers; done.
    + intros x Hx; apply Hw2; [done | auto].
    + eapply same_outside_trans; [| exact Hs2]; intros x Hx; rewrite Ew1; done.
    + eapply covers_trans; done.
    + intros x Hx; apply Hw1'', Hw2', Hx.
    + intros Hpf; rewrite Hp2, Em1 by done; done.
    + intros [[m' fl'] a] Hserved; right; done.
  - rewrite (next_ok m b nxt) by done; cbn [obind].
    replace b.1 with (previous_of (l1 ++ [b])) at 1 by (unfold previous_of; rewrite last_snoc; done).
    eapply returns_mono; [apply (IH (l1 ++ [b])); try done |].
    + rewrite <- app_assoc; done.
    + apply Forall_app; split; [done | apply Forall_singleton; lia].
    + cbn in Hf; lia.
    + intros [[m' fl'] a]; rewrite <- app_assoc; done.
Qed.

(** No list has more elements than the memory has words. *)
Lemma separate_NoDup bs : separate bs -> positive_blocks bs -> NoDup (fst <$> bs).
Proof.
  induction bs as [| b bs IH]; intros Hs Hpos; [apply NoDup_nil_2 |]; cbn; apply NoDup_cons; split.
  - intros (b' & E & Hin)%list_elem_of_fmap; pose proof (separate_elem _ _ _ Hs Hin) as Hd.
    pose proof (Hpos b ltac:(left)); pose proof (Hpos b' ltac:(right; done)); unfold disjoint in Hd; lia.
  - apply IH; [apply Hs |]; intros b' Hb'; apply Hpos; right; done.
Qed.

Lemma list_fuel_ok m fl bins i bs : rep m fl bins -> bins !! i = Some bs -> (length bs < list_fuel m)%nat.
Proof.
  intros Hrep Hi; destruct (concat_bin bins i bs Hi) as (rest & Hp & _).
  pose proof (rep_positive _ _ _ Hrep) as Hpos; destruct (Hrep) as [Hch _ Hmap Hsep].
  pose proof (separate_NoDup _ Hsep Hpos) as Hnd; unfold list_fuel.
  assert (length (concat bins) <= base.size (words m))%nat.
  { rewrite <- (length_fmap fst), <- size_dom, <- (size_list_to_set (C := gset Z) _ Hnd); apply subseteq_size.
    intros x Hx; apply elem_of_list_to_set, list_elem_of_fmap in Hx as (b & -> & Hb); apply elem_of_dom.
    eapply Forall_forall in Hmap; [| done]; specialize (Hpos b Hb).
    apply list_elem_of_In, in_concat in Hb as (bs' & Hbs%list_elem_of_In & Hb%list_elem_of_In).
    apply list_elem_of_lookup in Hbs as [j Hj]; rewrite <- (Nat2Z.id j) in Hj.
    pose proof (chain_blocks _ _ _ _ (c_chain _ _ _ Hch _ _ Hj ltac:(lia)) Hb) as Hok.
    apply Hmap; [unfold in_block; lia |]; destruct b as [a s]; apply (header_addresses a s Hok). }
  rewrite Hp, length_app in *; lia.
Qed.

(** The blocks of a list below and above the list of a size. *)
Lemma index_lt s s' : size_ok s -> size_ok s' -> index_of s < index_of s' -> s < s'.
Proof.
  intros Hs Hs' Hlt; destruct (size_multiple s Hs) as [Es _], (size_multiple s' Hs') as [Es' _].
  unfold index_of in Hlt; pose proof alignment_pos.
  pose proof (Z.mul_lt_mono_pos_l kObjectAlignment (s / kObjectAlignment) (s' / kObjectAlignment)); lia.
Qed.

Lemma index_eq s s' : size_ok s -> size_ok s' -> index_of s = index_of s' -> index_of s < kNumLists -> s = s'.
Proof.
  intros Hs Hs' Heq Hlt; destruct (size_multiple s Hs) as [Es _], (size_multiple s' Hs') as [Es' _].
  unfold index_of in *; rewrite Es, Es'; f_equal; lia.
Qed.

Lemma bin_block m fl bins i bs b :
  rep m fl bins -> bins !! Z.to_nat i = Some bs -> 0 <= i -> b ∈ bs -> block_ok b /\ index_of b.2 = i.
Proof.
  intros [Hch _ _ _] Hi H0' Hb; split; [eapply chain_blocks; [eapply c_chain; done | done] | eapply c_index; done].
Qed.

(** The request cannot be served from the lists of small elements. *)
Definition no_small (bins : list (list (Z * Z))) (size : Z) : Prop :=
  forall i bs b, bins !! Z.to_nat i = Some bs -> 0 <= i < kNumLists -> b ∈ bs -> b.2 < size.

(** The two searches among the small elements. *)
Lemma find_small_ok m fl bins size (i := index_of size) :
  rep m fl bins -> size_ok size ->
  returns (let* exact := (if i =? kNumLists then Ok false else BitSet.Test kNumLists (free_map_ fl) i) in
           let* next_index := (if i + 1 <? kNumLists
                               then BitSet.Next kNumLists (free_map_ fl) (i + 1) else Ok (-1)) in
           Ok (exact : bool, next_index)) (fun '(exact, j) =>
    (exact = true -> exists b bs, bins !! Z.to_nat i = Some (b :: bs) /\ b.2 = size) /\
    (exact = false -> j <> -1 -> 0 <= j < kNumLists /\ exists b bs, bins !! Z.to_nat j = Some (b :: bs) /\ size < b.2) /\
    (exact = false -> j = -1 -> no_small bins size)).
Proof.
  intros Hrep Hs; pose proof (index_of_range size Hs) as Hi; fold i in Hi.
  destruct (Hrep) as [Hch [Hok Hbits _] _ _]; destruct (Hch) as [Hlen _ _ _].
  apply (returns_bind _ _ (fun e : bool => e = true /\ i < kNumLists /\ bit (free_map_ fl) i = true \/
    e = false /\ (i < kNumLists -> bit (free_map_ fl) i = false))).
  { destruct (Z.eqb_spec i kNumLists); [apply returns_Ok; right; split; [done | intros; lia] |].
    rewrite Test_ok by lia; apply returns_Ok; destruct (bit _ i); [left; split_and!; [done | lia | done] | right; done]. }
  intros e He.
  apply (returns_bind _ _ (fun j => j = -1 /\ (forall k, i < k < kNumLists -> bit (free_map_ fl) k = false) \/
    i < j < kNumLists /\ bit (free_map_ fl) j = true)).
  { destruct (Z.ltb_spec (i + 1) kNumLists); [| apply returns_Ok; left; split; [done | intros; lia]].
    eapply returns_mono; [apply Next_ok; done || lia |]; intros j [[-> Hj] | (Hj & Hb & _)]; [left | right; split; [lia | done]].
    split; [done |]; intros k Hk; apply Hj; lia. }
  intros j Hj; apply returns_Ok; split_and!.
  - intros ->; destruct He as [(_ & Hlt & Hb) | [? _]]; [| done].
    destruct (bin_exists bins i) as [bs Hbs]; [done | lia |]; apply (Hbits i bs Hbs) in Hb; [| lia].
    destruct bs as [| b bs]; [done |]; exists b, bs; split; [done |].
    destruct (bin_block m fl bins i _ b Hrep Hbs) as [Hbk Hix]; [lia | left |].
    symmetry; apply index_eq; [done | apply Hbk | done | done].
  - intros -> Hne; destruct Hj as [[? _] | [Hj Hb]]; [done |]; split; [lia |].
    destruct (bin_exists bins j) as [bs Hbs]; [done | lia |]; apply (Hbits j bs Hbs) in Hb; [| lia].
    destruct bs as [| b bs]; [done |]; exists b, bs; split; [done |].
    destruct (bin_block m fl bins j _ b Hrep Hbs) as [Hbk Hix]; [lia | left |].
    apply index_lt; [done | apply Hbk | fold i; lia].
  - intros -> ->; destruct Hj as [[_ Hj] | ?]; [| lia]; destruct He as [[? _] | [_ He]]; [done |].
    intros k bs b Hk Hk' Hb; destruct (bin_block m fl bins k bs b Hrep Hk) as [Hbk Hix]; [lia | done |].
    destruct (Z.lt_trichotomy k i) as [Hlt | [-> | Hgt]].
    + apply index_lt; [apply Hbk | done | fold i; lia].
    + specialize (He ltac:(lia)); assert (bit (free_map_ fl) i = true) by (apply (Hbits i bs Hk); [lia |]; intros ->; apply not_elem_of_nil in Hb; done).
      congruence.
    + specialize (Hj k ltac:(lia)); assert (bit (free_map_ fl) k = true) by (apply (Hbits k bs Hk); [lia |]; intros ->; apply not_elem_of_nil in Hb; done).
      congruence.
Qed.

(** An element of a list of small elements is taken. *)
Lemma serve_small_ok m fl bins j b bs size prot :
  rep m fl bins -> 0 <= j <= kNumLists -> bins !! Z.to_nat j = Some (b :: bs) -> size_ok size -> size <= b.2 ->
  (prot = false -> free_writable m bins) ->
  returns (let* (fl, element) := DequeueElement m fl j in
           let* element_size := Size m element in
           let region_size := size + HeaderSizeFor (element_size - size) in
           let* m := protect m prot element region_size kReadWrite in
           let* (m, fl) := SplitElementAfterAndEnqueue m fl element size prot in
           Ok (m, fl, element)) (fun '(m', fl', a) => served m bins size prot m' fl' a).
Proof.
  intros Hrep Hj Hb Hs Hle Hfw.
  destruct (take_block m fl bins j [] b bs) as (nxt & rest & He & Hm & Hp & Hp1 & Hd); [done | lia | done |].
  destruct (region_ok b size (e_block _ _ _ He) Hs Hle) as [Hr1 Hr2]; destruct (e_block _ _ _ He) as (_ & Hb0 & _ & Hbe).
  call (DequeueBin_ok m fl bins b bs j) as [fl1 e] (-> & Hrep1); [done | done | done |].
  rewrite (Size_ok m b nxt) by done; cbn [obind]; fold (region b size).
  call (make_writable_ok m prot b.1 (region b size)) as m1 (Ew1 & Hc1 & Em1 & Hw1 & Hw1' & Hw1''); [lia | lia | lia | | |].
  { apply (mapped_range m b); [done | lia | lia]. }
  { intros Hpf x Hx; apply (Hfw Hpf); exists b; split; [rewrite Hp; left | unfold in_block; lia]. }
  eapply (serve_ok m bins m1 fl1 _ b nxt rest size prot); try done.
  - eapply rep_protect; done.
  - eapply elem_same; [| exact He]; rewrite Ew1; done.
  - eapply mapped_covers; done.
  - intros x Hx; rewrite Ew1; done.
  - intros Hpf; rewrite Em1 by done; done.
Qed.

(** An element of exactly the size is taken, without a look at its size. *)
Lemma serve_exact_ok m fl bins j b bs size prot :
  rep m fl bins -> 0 <= j <= kNumLists -> bins !! Z.to_nat j = Some (b :: bs) -> size_ok size -> b.2 = size ->
  (prot = false -> free_writable m bins) ->
  returns (let* (fl, element) := DequeueElement m fl j in
           let* m := protect m prot element size kReadWrite in
           Ok (m, fl, element)) (fun '(m', fl', a) => served m bins size prot m' fl' a).
Proof.
  intros Hrep Hj Hb Hs Hsz Hfw; pose proof (serve_small_ok m fl bins j b bs size prot Hrep Hj Hb Hs ltac:(lia) Hfw) as (st & E & Hst).
  destruct (take_block m fl bins j [] b bs) as (nxt & rest & He & Hm & _ & _ & _); [done | lia | done |].
  pose proof (DequeueBin_ok m fl bins b bs j Hrep Hj Hb) as ([fl1 e] & Ed & -> & Hrep1).
  rewrite Ed in *; cbn [obind] in *; rewrite (Size_ok m b nxt) in E by done.
  cbn [obind] in E; rewrite Hsz, Z.sub_diag in E.
  change (HeaderSizeFor 0) with 0 in E; rewrite Z.add_0_r in E.
  destruct (protect m prot b.1 size kReadWrite) as [m1 |] eqn:Ep; [| done]; cbn [obind] in *.
  assert (SplitElementAfterAndEnqueue m1 fl1 b.1 size prot = Ok (m1, fl1)) as Esp.
  { unfold SplitElementAfterAndEnqueue.
    assert (words m1 = words m /\ covers m m1) as [Ew Hc].
    { apply (returns_inv (protect m prot b.1 size kReadWrite) (fun m1 => words m1 = words m /\ covers m m1)); [| done].
      eapply returns_mono; [apply protect_mapped; try done |].
      - destruct Hs as [[? _] _]; pose proof alignment_pos; lia.
      - destruct (e_block _ _ _ He) as (_ & ? & _); lia.
      - destruct (e_block _ _ _ He) as (_ & ? & _ & ?); lia.
      - apply (mapped_range m b); [done | lia | lia].
      - intros m' (? & ? & _); done. }
    rewrite (Size_ok m1 b nxt); [cbn; rewrite Hsz, Z.sub_diag; done | | eapply mapped_covers; done].
    eapply elem_same; [| exact He]; rewrite Ew; done. }
  rewrite Esp in E; cbn in E; injection E as <-; apply returns_Ok; done.
Qed.

(** The blocks of all lists are those of the small ones and of the last. *)
Lemma all_blocks m fl bins l size :
  rep m fl bins -> no_small bins size -> bins !! Z.to_nat kNumLists = Some l ->
  Forall (fun b => b.2 < size) l -> Forall (fun b => b.2 < size) (concat bins).
Proof.
  intros Hrep Hsm Hl Hlarge; apply Forall_forall; intros b Hb.
  apply list_elem_of_In, in_concat in Hb as (bs & Hbs%list_elem_of_In & Hb%list_elem_of_In).
  apply list_elem_of_lookup in Hbs as [i Hi]; rewrite <- (Nat2Z.id i) in Hi.
  pose proof (lookup_lt_Some _ _ _ Hi); pose proof (c_bins _ _ _ (r_chains _ _ _ Hrep)).
  destruct (decide (Z.of_nat i = kNumLists)) as [E | Hne].
  - rewrite E, Hl in Hi; injection Hi as <-; eapply Forall_forall in Hlarge; done.
  - eapply (Hsm (Z.of_nat i)); [done | unfold kNumLists in *; lia | done].
Qed.

Lemma TryAllocateLocked_ok m fl bins size prot :
  rep m fl bins -> size_ok size -> (prot = false -> free_writable m bins) ->
  returns (TryAllocateLocked m fl size prot) (fun '(m', fl', a) =>
    a = 0 /\ m' = m /\ fl' = fl /\ Forall (fun b => b.2 < size) (concat bins) \/
    served m bins size prot m' fl' a).
Proof.
  intros Hrep Hs Hfw; unfold TryAllocateLocked; rewrite IndexForSize_ok by done; cbn [obind].
  pose proof (index_of_range size Hs).
  destruct (find_small_ok m fl bins size Hrep Hs) as ([exact j] & E & Hexact & Hnext & Hnone).
  destruct (if index_of size =? kNumLists then _ else _) as [e |]; [cbn [obind] in * | done].
  destruct (if index_of size + 1 <? kNumLists then _ else _) as [j' |]; [cbn [obind] in * | done].
  injection E as -> ->; destruct exact.
  { destruct Hexact as (b & bs & Hb & Hsz); [done |].
    eapply returns_mono; [eapply serve_exact_ok; done || lia |]; intros [[m' fl'] a]; auto. }
  destruct (Z.eqb_spec j (-1)) as [-> | Hj]; cbn [negb].
  - destruct (bin_exists bins kNumLists) as [l Hl]; [apply Hrep | done |].
    eapply returns_mono; [apply (large_loop_ok m fl bins size prot [] l); try done |].
    + eapply large_list; done.
    + eapply list_fuel_ok; done.
    + intros [[m' fl'] a] [(-> & -> & -> & Hall) | Hserved]; [left | auto].
      split_and!; [done | done | done |]; eapply all_blocks; eauto.
  - destruct Hnext as (Hj' & b & bs & Hb & Hlt); [done | done |].
    eapply returns_mono; [eapply serve_small_ok; done || lia |]; intros [[m' fl'] a]; auto.
Qed.

(** [FreeLocked] adds a block to the free blocks. *)
Lemma FreeLocked_ok m fl bins b :
  rep m fl bins -> block_ok b -> mapped m b -> Forall (disjoint b) (concat bins) ->
  (forall x, b.1 <= x < b.1 + HeaderSizeFor b.2 -> can_write m x) ->
  returns (FreeLocked m fl b.1 b.2) (fun '(m', fl') => exists bins',
    rep m' fl' bins' /\ concat bins' ≡ₚ b :: concat bins /\ same_outside (in_block b) m m' /\
    covers m m' /\ pages m' = pages m).
Proof.
  intros Hrep Hb Hm Hd Hw; unfold FreeLocked; rewrite IndexForSize_ok by apply Hb; cbn [obind].
  apply release_ok; done.
Qed.

(** [TryAllocateSmallLocked] serves requests from the small elements only. *)
Lemma TryAllocateSmallLocked_ok m fl bins size :
  rep m fl bins -> size_ok size -> free_writable m bins ->
  returns (TryAllocateSmallLocked m fl size) (fun '(m', fl', a) =>
    a = 0 /\ m' = m /\ fl' = fl /\ no_small bins size \/ served m bins size false m' fl' a).
Proof.
  intros Hrep Hs Hfw; unfold TryAllocateSmallLocked; pose proof (index_of_range size Hs).
  destruct (Z.gtb_spec size (last_free_small_size_ fl)) as [Hgt | Hle].
  { apply returns_Ok; left; split_and!; [done | done | done |]; intros i bs b Hi Hi' Hb.
    destruct (bin_block m fl bins i bs b Hrep Hi) as [Hbk Hix]; [lia | done |].
    destruct (Hrep) as [_ [_ Hbits (r & Hr & Hlast)] _ _].
    assert (bit (free_map_ fl) i = true) as Hbit by (apply (Hbits i bs Hi Hi'); intros ->; apply not_elem_of_nil in Hb; done).
    destruct Hr as [[-> Hr] | (Hr0 & _ & Hr)]; [rewrite Hr in Hbit by lia; done |].
    assert (i <= r) by (destruct (Z.le_gt_cases i r); [done |]; rewrite Hr in Hbit by lia; done).
    unfold last_small in Hlast; rewrite (proj2 (Z.leb_le 0 r)) in Hlast by lia.
    destruct (size_multiple b.2 (proj1 Hbk)) as [Eb _]; unfold index_of in Hix; pose proof alignment_pos.
    assert (b.2 / kObjectAlignment = i) as Ei by lia; rewrite Ei in Eb.
    pose proof (Z.mul_le_mono_nonneg_r i r kObjectAlignment); lia. }
  rewrite IndexForSize_ok by done; cbn [obind].
  destruct (find_small_ok m fl bins size Hrep Hs) as ([exact j] & E & Hexact & Hnext & Hnone).
  destruct (if index_of size =? kNumLists then _ else _) as [e |]; [cbn [obind] in * | done].
  destruct (if index_of size + 1 <? kNumLists then _ else _) as [j' |]; [cbn [obind] in * | done].
  injection E as -> ->; destruct exact.
  { destruct Hexact as (b & bs & Hb & Hsz); [done |].
    eapply returns_mono; [eapply (serve_exact_ok m fl bins _ b bs size false); done || lia |].
    intros [[m' fl'] a]; auto. }
  destruct (Z.eqb_spec j (-1)) as [-> | Hj]; cbn [negb].
  { apply returns_Ok; left; split_and!; auto. }
  destruct Hnext as (Hj' & b & bs & Hb & Hlt); [done | done |].
  pose proof (serve_small_ok m fl bins j b bs size false Hrep ltac:(lia) Hb Hs ltac:(lia) ltac:(done)) as (st & E & Hst).
  destruct (DequeueElement m fl j) as [[fl1 e1] |]; [cbn [obind] in * | done].
  destruct (Size m e1) as [s1 |]; [| done]; cbn [obind protect] in E.
  rewrite E; apply returns_Ok; destruct st as [[m' fl'] a]; auto.
Qed.

(** A whole element of the last list is taken, without protection. *)
Definition taken (m : memory) (bins : list (list (Z * Z))) (minimum : Z) (m' : memory) (fl' : t) (a : Z) : Prop :=
  exists b nxt rest bins', a = b.1 /\ minimum <= b.2 /\ elem m' b nxt /\ mapped m' b /\
    concat bins ≡ₚ b :: rest /\ rep m' fl' bins' /\ concat bins' ≡ₚ rest /\
    same_outside (in_free bins) m m' /\ covers m m' /\ pages m' = pages m.

(** Without protection, [unlink] is the store to the previous element. *)
Lemma unlink_unprotected m fl previous current r m' fl' :
  unlink m fl previous current r false = Ok (m', fl') ->
  exists next, FreeListElement.next m current = Ok next /\
    (if previous =? 0 then Ok (m, set_list fl kNumLists next)
     else let* m := set_next m previous next in Ok (m, fl)) = Ok (m', fl').
Proof.
  unfold unlink; destruct (previous =? 0).
  - destruct (FreeListElement.next m current) as [n |]; [| done]; intros E; exists n; done.
  - destruct (InSamePage _ _) as [? |]; [| done]; cbn [obind].
    destruct (InSamePage _ _) as [? |]; [| done]; cbn [obind protect andb].
    destruct (FreeListElement.next m current) as [n |]; [| done]; intros E; exists n; done.
Qed.

Lemma take_large_loop_ok m fl bins minimum l1 l2 fuel current :
  rep m fl bins -> free_writable m bins ->
  bins !! Z.to_nat kNumLists = Some (l1 ++ l2) -> chain m current l2 ->
  Forall (fun b => b.2 < minimum) l1 -> (length l2 < fuel)%nat ->
  returns (take_large_loop fuel m fl minimum (previous_of l1) current) (fun '(m', fl', a) =>
    a = 0 /\ m' = m /\ fl' = fl /\ Forall (fun b => b.2 < minimum) (l1 ++ l2) \/
    taken m bins minimum m' fl' a).
Proof.
  intros Hrep Hfw; revert l1 fuel current; induction l2 as [| b l2 IH]; intros l1 fuel current Hl Hc Hl1 Hf.
  all: destruct fuel as [| fuel]; [cbn in Hf; lia |]; cbn [take_large_loop].
  { cbn in Hc; subst current; apply returns_Ok; left; rewrite app_nil_r; done. }
  destruct Hc as (-> & nxt & He & Hc); destruct (e_block _ _ _ He) as (([Hlo _] & _) & Hb0 & _ & Hbe).
  destruct (take_block m fl bins kNumLists l1 b l2) as (_ & rest & _ & Hm & Hp & Hp1 & Hd); [done | done | done |].
  rewrite (proj2 (Z.eqb_neq b.1 0)), (next_ok m b nxt), (Size_ok m b nxt) by (done || lia); cbn [obind].
  destruct (Z.geb_spec b.2 minimum) as [Hle | Hgt].
  - pose proof alignment_pos.
    destruct (unlink_ok m fl bins l1 b l2 b.2 false) as ([m2 fl2] & E & Hrep2 & (n2 & He2) & Hs2 & Hc2 & _ & _ & Hp2);
      [done | done | lia | done | done |].
    apply unlink_unprotected in E as (n & En & E); rewrite (next_ok m b nxt) in En by done; injection En as <-.
    assert (taken m bins minimum m2 fl2 b.1) as Ht.
    { exists b, n2, rest; eexists; split_and!; try done; [eapply mapped_covers; done | auto]. }
    destruct (previous_of l1 =? 0); [injection E as <- <-; apply returns_Ok; auto |].
    destruct (set_next m (previous_of l1) nxt) as [m3 |]; [| done]; cbn [obind] in *.
    injection E as <- <-; apply returns_Ok; auto.
  - replace b.1 with (previous_of (l1 ++ [b])) by (unfold previous_of; rewrite last_snoc; done).
    eapply returns_mono; [apply (IH (l1 ++ [b])); try done |].
    + rewrite <- app_assoc; done.
    + apply Forall_app; split; [done | apply Forall_singleton; lia].
    + cbn in Hf; lia.
    + intros [[m' fl'] a]; rewrite <- app_assoc; done.
Qed.

Lemma TryAllocateLargeLocked_ok m fl bins minimum :
  rep m fl bins -> free_writable m bins ->
  returns (TryAllocateLargeLocked m fl minimum) (fun '(m', fl', a) =>
    a = 0 /\ m' = m /\ fl' = fl /\
      (forall bs, bins !! Z.to_nat kNumLists = Some bs -> Forall (fun b => b.2 < minimum) bs) \/
    taken m bins minimum m' fl' a).
Proof.
  intros Hrep Hfw; destruct (bin_exists bins kNumLists) as [l Hl]; [apply Hrep | done |].
  eapply returns_mono; [apply (take_large_loop_ok m fl bins minimum [] l); try done |].
  - eapply large_list; done.
  - eapply list_fuel_ok; done.
  - intros [[m' fl'] a] [(-> & -> & -> & Hall) | Ht]; [left | auto].
    split_and!; try done; intros bs; rewrite Hl; intros [= <-]; done.
Qed.

(** [LengthLocked] counts the elements of a list. *)
Lemma LengthLocked_ok m fl bins i bs :
  rep m fl bins -> bins !! Z.to_nat i = Some bs -> 0 <= i < kNumLists ->
  LengthLocked m fl i = Ok (Z.of_nat (length bs)).
Proof.
  intros Hrep Hi Hi'; unfold LengthLocked; rewrite (proj2 (Z.geb_le _ _)), (proj2 (Z.ltb_lt _ _)) by lia.
  pose proof (list_fuel_ok _ _ _ _ _ Hrep Hi) as Hf; destruct (Hrep) as [Hch _ Hmap _].
  pose proof (c_chain _ _ _ Hch i bs Hi ltac:(lia)) as Hc; destruct (concat_bin bins _ _ Hi) as (rest & Hp & _).
  rewrite Hp in Hmap; apply Forall_app in Hmap as [Hmap _]; revert Hc Hmap Hf; generalize (list_at fl i) as p.
  change (Z.of_nat (length bs)) with (0 + Z.of_nat (length bs)); generalize 0 as n; generalize (list_fuel m) as fuel.
  clear - bs; induction bs as [| b bs IH]; intros fuel n p Hc Hmap Hf; (destruct fuel as [| fuel]; [lia |]); cbn [length_loop length].
  - cbn in Hc; subst p; rewrite Z.add_0_r; done.
  - destruct Hc as (-> & nxt & He & Hc); apply Forall_cons in Hmap as [Hm Hmap].
    destruct (e_block _ _ _ He) as (_ & Hb0 & _); rewrite (proj2 (Z.eqb_neq _ _)), (next_ok m b nxt) by (done || lia).
    cbn [obind]; rewrite IH by (done || cbn in Hf; lia); f_equal; lia.
Qed.
End Allocation.
