(* ===== verification/FreeListSafety.v ===== *)
(** Runs of the free list: the blocks it has given out and the free blocks never overlap,
    nothing is lost, and the operations do not fail.  Concrete lists, and a page that
    stays writable after an allocation from protected memory. *)
From stdpp Require Import base numbers list gmap relations.
From Stdlib Require Import ZArith Lia Bool.
From S2P Require Import Prelude Utils UtilsProofs BitSet BitSetProofs FreeList FreeListProofs.
From S2P Require Import FreeListAllocProofs.
Import VirtualMemory FreeListElement FreeList.
#[local] Open Scope Z_scope.

(** C15. An allocation from the free list returns, without a store to a protected page.  It
    fails only if no free block is large enough; otherwise the block at the address it
    returns leaves the free blocks, what remains of it becomes free, no memory outside of
    the free blocks changes, and the block can be written.  In protected mode, the pages
    that have become writable are those of the block and of the header of the
    remainder. *)
Theorem TryAllocateLocked_sound `{Paging} m fl bins size is_protected :
  rep m fl bins -> size_ok size -> (is_protected = false -> free_writable m bins) ->
  returns (TryAllocateLocked m fl size is_protected) (fun '(m', fl', a) =>
    a = 0 /\ m' = m /\ fl' = fl /\ Forall (fun b => b.2 < size) (concat bins) \/
    served m bins size is_protected m' fl' a).
Proof. apply TryAllocateLocked_ok. Qed.

(** * Runs *)
Section Runs.
Context `{Paging}.

Record state := mkState { mem : memory; free_list : t; live : list (Z * Z) }.

(** An operation of the list by its owner, or a store of the program to a block it was
    given. *)
Inductive step : state -> state -> Prop :=
| step_allocate m fl given size m' fl' a :
    size_ok size -> TryAllocateLocked m fl size false = Ok (m', fl', a) -> a <> 0 ->
    step (mkState m fl given) (mkState m' fl' ((a, size) :: given))
| step_allocate_small m fl given size m' fl' a :
    size_ok size -> TryAllocateSmallLocked m fl size = Ok (m', fl', a) -> a <> 0 ->
    step (mkState m fl given) (mkState m' fl' ((a, size) :: given))
| step_allocate_large m fl given minimum m' fl' a size :
    TryAllocateLargeLocked m fl minimum = Ok (m', fl', a) -> a <> 0 -> Size m' a = Ok size ->
    step (mkState m fl given) (mkState m' fl' ((a, size) :: given))
| step_free m fl given1 b given2 m' fl' :
    FreeLocked m fl b.1 b.2 = Ok (m', fl') ->
    step (mkState m fl (given1 ++ b :: given2)) (mkState m' fl' (given1 ++ given2))
| step_store m fl given b x v m' :
    b ∈ given -> in_block b x -> store m x v = Ok m' -> step (mkState m fl given) (mkState m' fl given).

Definition bytes (bs : list (Z * Z)) : Z := foldr (fun b n => b.2 + n) 0 bs.

(** The list manages the region [b0]. *)
Record invariant (b0 : Z * Z) (s : state) (bins : list (list (Z * Z))) : Prop := mk_invariant {
  i_rep : rep (mem s) (free_list s) bins;
  i_separate : separate (live s ++ concat bins);
  i_live : Forall block_ok (live s);
  i_mapped : Forall (mapped (mem s)) (live s);
  i_inside : forall b x, b ∈ live s ++ concat bins -> in_block b x -> in_block b0 x;
  i_writable : forall x, in_block b0 x -> can_write (mem s) x;
  i_bytes : bytes (live s ++ concat bins) = b0.2
}.

#[local] Instance bytes_perm : Proper ((≡ₚ) ==> (=)) bytes.
Proof. unfold bytes; induction 1; cbn; lia. Qed.

Lemma bytes_app bs bs' : bytes (bs ++ bs') = bytes bs + bytes bs'.
Proof. unfold bytes; induction bs as [| b bs IH]; cbn; [done |]; rewrite IH; lia. Qed.

Lemma separate_app bs bs' : separate (bs ++ bs') <-> separate bs /\ separate bs' /\ forall b, b ∈ bs -> Forall (disjoint b) bs'.
Proof.
  induction bs as [| b bs IH]; cbn.
  - split; [intros Hs; split_and!; [done | done |]; intros ? []%elem_of_nil | tauto].
  - rewrite Forall_app, IH; split.
    + intros ((H1 & H2) & H3 & H4 & H5); split_and!; try done; intros b' [-> |]%elem_of_cons; auto.
    + intros ((H1 & H2) & H3 & H4); split_and!; try done; [apply H4; left | intros b' Hb'; apply H4; right; done].
Qed.

(** The blocks of [bs'] are parts of those of [bs] and have as many bytes. *)
Lemma separate_split a s n bs :
  separate ((a, s) :: bs) -> 0 < n <= s -> positive_blocks bs ->
  separate ((a, n) :: remainder (a, s) n ++ bs) /\
  bytes ((a, n) :: remainder (a, s) n ++ bs) = bytes ((a, s) :: bs) /\
  forall b x, b ∈ (a, n) :: remainder (a, s) n ++ bs -> in_block b x ->
    exists b', b' ∈ (a, s) :: bs /\ in_block b' x.
Proof.
  intros [Hd Hs] Hn Hpos; unfold remainder; cbn [fst snd]; destruct (Z.eqb_spec s n) as [-> | Hne]; cbn [app].
  { split; [split; done |]; split; [done |]; intros b x Hb Hx; exists b; done. }
  assert (forall b, (forall x, in_block b x -> in_block (a, s) x) -> 0 < b.2 -> Forall (disjoint b) bs) as Hpart.
  { intros b Hb Hb0; apply Forall_forall; intros b' Hin; pose proof (Hpos b' Hin).
    eapply Forall_forall in Hd; [| done]; eapply disjoint_part; done. }
  split_and!.
  - split; [apply Forall_cons; split; [left; cbn; lia |] | split; [| done]]; apply Hpart; unfold in_block; cbn; lia.
  - cbn; lia.
  - intros b x [-> | [-> | Hb]%elem_of_cons]%elem_of_cons Hx; [exists (a, s).. | exists b]; rewrite elem_of_cons; auto;
      (split; [auto |]); unfold in_block in *; cbn in *; lia.
Qed.

Lemma live_positive b0 s bins rest b :
  invariant b0 s bins -> concat bins ≡ₚ b :: rest -> positive_blocks (live s ++ rest).
Proof.
  intros Hi Hp b' [Hb' | Hb']%elem_of_app.
  - pose proof (i_live _ _ _ Hi) as Hl; eapply Forall_forall in Hl as ([[? _] _] & _); [| done].
    pose proof alignment_pos; lia.
  - apply (rep_positive _ _ _ (i_rep _ _ _ Hi)); rewrite Hp; right; done.
Qed.

(** The first [size] bytes of a free block are given out. *)
Lemma give_out b0 m fl bins given b rest size m' fl' bins' :
  invariant b0 (mkState m fl given) bins -> concat bins ≡ₚ b :: rest -> block_ok b -> size_ok size -> size <= b.2 ->
  rep m' fl' bins' -> concat bins' ≡ₚ remainder b size ++ rest -> covers m m' -> pages m' = pages m ->
  invariant b0 (mkState m' fl' ((b.1, size) :: given)) bins'.
Proof.
  intros Hi Hp Hb Hs Hle Hrep Hp' Hc Ep; pose proof (live_positive _ _ _ _ _ Hi Hp) as Hpos.
  pose proof (r_mapped _ _ _ (i_rep _ _ _ Hi)) as Hfm; cbn [mem] in Hfm; rewrite Hp in Hfm; apply Forall_cons in Hfm as [Hbm _].
  destruct Hi as [_ Hsep Hlive Hmap Hin Hw Hby]; cbn [mem live free_list] in *.
  destruct b as [a s]; cbn [fst snd] in *; destruct (Hs) as [[Hlo _] _]; pose proof alignment_pos.
  assert (given ++ concat bins ≡ₚ (a, s) :: (given ++ rest)) as Hperm by (rewrite Hp, <- Permutation_middle; done).
  assert (((a, size) :: given) ++ concat bins' ≡ₚ (a, size) :: remainder (a, s) size ++ (given ++ rest)) as Hperm'.
  { rewrite Hp'; cbn; f_equiv; rewrite Permutation_app_swap_app; done. }
  rewrite Hperm in Hsep, Hby; destruct (separate_split a s size (given ++ rest)) as (Hsep' & Hby' & Hin'); [done | lia | done |].
  split; cbn [mem free_list live]; rewrite ?Hperm'; try done.
  - apply Forall_cons; split; [| done]; destruct Hb as (_ & Ha & Hal & Hend); cbn [fst snd] in *.
    split_and!; cbn [fst snd]; done || lia.
  - apply Forall_cons; split.
    + eapply mapped_covers; [done |]; eapply mapped_sub; [| exact Hbm]; intros x; unfold in_block; cbn; lia.
    + eapply Forall_impl; [exact Hmap |]; intros b'; apply mapped_covers; done.
  - intros b' x Hb'; rewrite Hperm' in Hb'; intros Hx; destruct (Hin' b' x Hb' Hx) as (b'' & Hb'' & Hx'').
    eapply Hin; [rewrite Hperm; done | done].
  - intros x Hx; eapply can_write_pages; [exact Ep | auto].
  - rewrite Hby'; done.
Qed.

Lemma invariant_writable b0 s bins : invariant b0 s bins -> free_writable (mem s) bins.
Proof.
  intros Hi x (b & Hb & Hx); apply (i_writable _ _ _ Hi); eapply i_inside; [done | apply elem_of_app; right; done | done].
Qed.

(** The free blocks and the blocks given out do not overlap, so that an operation on the
    free blocks does not change the latter. *)
Lemma live_unchanged b0 s bins m' :
  invariant b0 s bins -> same_outside (in_free bins) (mem s) m' ->
  forall b x, b ∈ live s -> in_block b x -> words m' !! x = words (mem s) !! x.
Proof.
  intros Hi Hs b x Hb Hx; apply Hs; intros (b' & Hb' & Hx').
  pose proof (i_separate _ _ _ Hi) as Hsep; apply separate_app in Hsep as (_ & _ & Hd).
  specialize (Hd b Hb); eapply Forall_forall in Hd; [| done]; eapply disjoint_in; done.
Qed.

(** [Reset]: the list without elements. *)
Lemma Reset_rep m : exists bins, rep m Reset bins /\ concat bins = [].
Proof.
  set (bins := replicate (Z.to_nat (kNumLists + 1)) ([] : list (Z * Z))); exists bins.
  assert (concat bins = []) as Hnil by (vm_compute; reflexivity).
  assert (forall i bs, bins !! i = Some bs -> bs = []) as Hb.
  { intros i bs Hi; apply lookup_replicate in Hi as [-> _]; done. }
  destruct (Reset_ok kNumLists ltac:(done)) as [Hok Hbit].
  split; [| done]; split; [split | split | |]; rewrite ?Hnil; try done.
  - intros i bs Hi H0'; rewrite (Hb _ _ Hi); cbn; unfold list_at; cbn [free_lists_ Reset].
    rewrite nth_lookup; destruct (replicate _ 0 !! _) eqn:E; [| done]; apply lookup_replicate in E as [-> _]; done.
  - intros i bs b Hi _; rewrite (Hb _ _ Hi); intros []%elem_of_nil.
  - intros i bs Hi _; cbn [free_map_ Reset]; rewrite Hbit, (Hb _ _ Hi); done.
  - exists (-1); split; [left; split; [done |]; intros j _; apply Hbit | done].
Qed.

Lemma release_invariant b0 m fl bins given1 b given2 :
  invariant b0 (mkState m fl (given1 ++ b :: given2)) bins ->
  returns (FreeLocked m fl b.1 b.2) (fun '(m', fl') => exists bins',
    invariant b0 (mkState m' fl' (given1 ++ given2)) bins' /\ same_outside (in_block b) m m').
Proof.
  intros [Hrep Hsep Hlive Hmap Hin Hw Hby]; cbn [mem live free_list] in *.
  assert ((given1 ++ b :: given2) ++ concat bins ≡ₚ b :: (given1 ++ given2) ++ concat bins) as Hperm.
  { rewrite <- Permutation_middle; done. }
  rewrite Hperm in Hsep, Hby; destruct Hsep as [Hd Hsep]; apply Forall_app in Hd as [Hd1 Hd2].
  rewrite <- Permutation_middle in Hlive, Hmap; apply Forall_cons in Hlive as [Hb Hlive], Hmap as [Hbm Hmap].
  assert (forall x, in_block b x -> can_write m x) as Hbw.
  { intros x Hx; apply Hw, (Hin b); [rewrite Hperm; left | done]. }
  destruct (header_addresses b.1 b.2) as (_ & _ & Hh & _); [destruct b; done |].
  eapply returns_mono; [apply (FreeLocked_ok m fl bins b); try done; intros x Hx; apply Hbw; unfold in_block; lia |].
  intros [m' fl'] (bins' & Hrep' & Hp' & Hs' & Hc' & Ep'); exists bins'; split; [| done].
  assert ((given1 ++ given2) ++ concat bins' ≡ₚ (given1 ++ b :: given2) ++ concat bins) as Hperm'.
  { rewrite Hp', Hperm, <- Permutation_middle; done. }
  split; cbn [mem live free_list]; rewrite ?Hperm', ?Hperm; try done.
  - split; [apply Forall_app; done | done].
  - eapply Forall_impl; [exact Hmap |]; intros b'; apply mapped_covers; done.
  - intros b' x Hb'; rewrite Hperm' in Hb'; eauto.
  - intros x Hx; eapply can_write_pages; [exact Ep' | auto].
Qed.

Lemma store_invariant b0 m fl bins given b x v m' :
  invariant b0 (mkState m fl given) bins -> b ∈ given -> in_block b x -> store m x v = Ok m' ->
  invariant b0 (mkState m' fl given) bins.
Proof.
  intros [Hrep Hsep Hlive Hmap Hin Hw Hby] Hb Hx E; cbn [mem live free_list] in *.
  unfold store in E; destruct (words m !! x) as [u |] eqn:Ex; [| done].
  destruct (pages m !! page x) as [mode |]; [| done]; destruct (writable mode); [injection E as <- | done].
  assert (covers m (mkMemory (<[x := v]> (words m)) (pages m))) as Hc by (eapply insert_covers; done).
  apply separate_app in Hsep as Hsep'; destruct Hsep' as (_ & _ & Hd); specialize (Hd b Hb).
  split; cbn [mem live free_list]; try done.
  - eapply rep_outside; [done | exact Hd | | done]; intros y Hy; cbn; rewrite lookup_insert_ne; [done |].
    intros <-; done.
  - eapply Forall_impl; [exact Hmap |]; intros b'; apply mapped_covers; done.
Qed.

Lemma step_invariant b0 s s' bins :
  invariant b0 s bins -> step s s' -> exists bins', invariant b0 s' bins'.
Proof.
  intros Hi Hst; pose proof (i_rep _ _ _ Hi) as Hrep; pose proof (invariant_writable _ _ _ Hi) as Hfw.
  assert (forall b rest, concat bins ≡ₚ b :: rest -> block_ok b) as Hbk.
  { intros b rest Hp; assert (b ∈ concat bins) as Hb by (rewrite Hp; left).
    apply list_elem_of_In, in_concat in Hb as (bs & Hbs%list_elem_of_In & Hb%list_elem_of_In).
    apply list_elem_of_lookup in Hbs as [i Hbs]; rewrite <- (Nat2Z.id i) in Hbs.
    eapply bin_block; [exact Hrep | exact Hbs | lia | done]. }
  destruct Hst as [m fl given size m' fl' a Hs E Ha | m fl given size m' fl' a Hs E Ha
    | m fl given minimum m' fl' a size E Ha Esz | m fl given1 b given2 m' fl' E | m fl given b x v m' Hb Hx E];
    cbn [mem free_list] in *.
  - eapply returns_inv in E; [| apply (TryAllocateLocked_ok m fl bins); done].
    destruct E as [(-> & _) | (b & rest & bins' & -> & Hle & Hp & Hrep' & Hp' & _ & Hc & _ & _ & Ep)]; [done |].
    exists bins'; eapply give_out; try done; eauto.
  - eapply returns_inv in E; [| apply (TryAllocateSmallLocked_ok m fl bins); done].
    destruct E as [(-> & _) | (b & rest & bins' & -> & Hle & Hp & Hrep' & Hp' & _ & Hc & _ & _ & Ep)]; [done |].
    exists bins'; eapply give_out; try done; eauto.
  - eapply returns_inv in E; [| apply (TryAllocateLargeLocked_ok m fl bins); done].
    destruct E as [(-> & _) | (b & nxt & rest & bins' & -> & _ & He & Hm & Hp & Hrep' & Hp' & _ & Hc & Ep)]; [done |].
    rewrite (Size_ok m' b nxt) in Esz by done; injection Esz as <-; exists bins'.
    eapply give_out; try done; [apply He | apply He | unfold remainder; rewrite Z.eqb_refl; done].
  - eapply returns_inv in E; [| eapply release_invariant; done].
    destruct E as (bins' & Hi' & _); eauto.
  - exists bins; eapply store_invariant; done.
Qed.
End Runs.

(** C4. In every run from an empty free list and a region of writable memory, the blocks
    that were given out and the free blocks do not overlap, lie inside the region and add
    up to it.  In every state of the run an allocation returns; it fails exactly if no
    free block is large enough, and it does not change the blocks that were given out.
    Every block that was given out can be freed, which does not change the others. *)
Theorem allocator_safe `{Paging} m b0 s :
  block_ok b0 -> mapped m b0 -> (forall x, in_block b0 x -> can_write m x) ->
  rtc step (mkState m Reset [b0]) s ->
  exists bins, rep (mem s) (free_list s) bins /\ separate (live s ++ concat bins) /\
    (forall b x, b ∈ live s ++ concat bins -> in_block b x -> in_block b0 x) /\
    bytes (live s ++ concat bins) = b0.2 /\
    (forall size, size_ok size ->
       returns (TryAllocateLocked (mem s) (free_list s) size false) (fun '(m', fl', a) =>
         (a = 0 <-> Forall (fun b => b.2 < size) (concat bins)) /\
         forall b x, b ∈ live s -> in_block b x -> words m' !! x = words (mem s) !! x)) /\
    (forall b, b ∈ live s ->
       returns (FreeLocked (mem s) (free_list s) b.1 b.2) (fun '(m', fl') =>
         forall x, ~ in_block b x -> words m' !! x = words (mem s) !! x)).
Proof.
  intros Hb Hm Hw Hrun; assert (exists bins, invariant b0 s bins) as [bins Hi].
  { destruct (Reset_rep m) as (bins0 & Hrep0 & Hnil); assert (invariant b0 (mkState m Reset [b0]) bins0) as Hi0.
    { split; cbn [mem live free_list]; rewrite ?Hnil; try done; [apply Forall_singleton; done | apply Forall_singleton; done | | cbn; lia].
      intros b x; rewrite app_nil_r, list_elem_of_singleton; intros ->; done. }
    clear - Hrun Hi0; remember (mkState m Reset [b0]) as s0 eqn:E; clear E; revert bins0 Hi0.
    induction Hrun as [s | s s' s'' Hst _ IH]; intros bins Hi; [eauto |].
    destruct (step_invariant _ _ _ _ Hi Hst) as [bins' Hi']; eauto. }
  exists bins; destruct (Hi) as [Hrep Hsep _ _ Hin _ Hby]; split_and!; try done.
  - intros size Hs; eapply returns_mono; [apply (TryAllocateLocked_ok _ _ bins); try done; intros _; eapply invariant_writable; done |].
    intros [[m' fl'] a] [(-> & -> & -> & Hall) | (b & rest & bins' & -> & Hle & Hp & _ & _ & Hs' & _)]; [done |]; split.
    + split; [intros E | rewrite Hp; intros Hall; apply Forall_cons in Hall as [? _]; lia].
      assert (b ∈ live s ++ concat bins) as Hbin by (rewrite Hp; apply elem_of_app; right; left).
      pose proof (rep_positive _ _ _ Hrep b ltac:(rewrite Hp; left)).
      pose proof (Hin b b.1 Hbin) as Hb1; destruct Hb as (_ & ? & _); unfold in_block in Hb1; lia.
    + eapply live_unchanged; done.
  - intros b Hbl; apply list_elem_of_split in Hbl as (l1 & l2 & El).
    destruct s as [ms fls ls]; cbn [mem live free_list] in *; subst ls.
    eapply returns_mono; [eapply release_invariant; done |]; intros [m' fl'] (_ & _ & Hs'); done.
Qed.

(** * A page that stays writable *)
#[local] Existing Instance word64.

Lemma pages_4096 : kWordSizeLog2 <= 12 < kBitsPerWord.
Proof. done. Qed.
#[local] Instance paging_4096 : Paging := {| page_log2 := 12; page_log2_ok := pages_4096 |}.

(** [n] words from [lo] on. *)
Definition zeros (lo : Z) (n : Z) : gmap Z Z :=
  list_to_map ((fun k => (lo + 8 * k, 0)) <$> seqZ 0 n).

Definition two_pages (mode : Protection) : gmap Z Protection := {[ 4096 := mode; 8192 := mode ]}.

(** An allocation from protected memory can leave a page writable that has nothing of
    the block that was allocated.  Two pages are one free block; when 4080 bytes of it are
    allocated, the header of the remainder is at the end of the first page, and its third
    word, the size, is on the second one.  The second page is made writable for the
    header, and the test for the page of the remainder's first word does not see it: it
    is writable after the block has been protected again. *)
Theorem protected_page_leak :
  (let* (m, fl) := FreeLocked (mkMemory (zeros 4096 1024) (two_pages kReadWrite)) Reset 4096 8192 in
   let* (m, fl, a) := TryAllocateLocked (mkMemory (words m) (two_pages kReadExecute)) fl 4080 true in
   let* (m, status) := Protect m a 4080 kReadExecute in
   Ok (a, status, pages m !! 4096, pages m !! 8192))
  = Ok (4096, true, Some kReadExecute, Some kReadWrite).
Proof. vm_compute; reflexivity. Qed.

(** * Witnesses *)
Definition sample_block : Z * Z := (4096, 64).
Definition sample_memory : memory := mkMemory (zeros 4096 8) {[ 4096 := kReadWrite ]}.

Lemma sample_block_ok : block_ok sample_block.
Proof. split; [split; [split |] |]; vm_compute; intuition congruence. Qed.

Lemma sample_page x : in_block sample_block x -> page x = 4096.
Proof.
  unfold in_block, sample_block; cbn; intros Hx; change 4096 with (1 * PageSize); apply page_unique.
  change PageSize with 4096; lia.
Qed.

Lemma sample_writable x : in_block sample_block x -> can_write sample_memory x.
Proof. intros Hx; exists kReadWrite; rewrite (sample_page x Hx); done. Qed.

Lemma sample_mapped : mapped sample_memory sample_block.
Proof.
  intros x Hx; split; [exists kReadWrite; rewrite (sample_page x Hx); done |].
  change kWordSize with 8; intros Hm; apply Z.mod_divide in Hm as [k ->]; [| done].
  unfold in_block, sample_block in Hx; cbn in Hx.
  assert (k = 512 \/ k = 513 \/ k = 514 \/ k = 515 \/ k = 516 \/ k = 517 \/ k = 518 \/ k = 519) as Hk by lia.
  repeat destruct Hk as [-> | Hk]; [.. | subst k]; vm_compute; eauto.
Qed.

Lemma sample_size : size_ok 16.
Proof. split; [split |]; vm_compute; congruence. Qed.

Lemma sample_freed : returns (FreeLocked sample_memory Reset 4096 64) (fun '(m, fl) =>
  exists bins, rep m fl bins /\ concat bins ≡ₚ [sample_block] /\ free_writable m bins).
Proof.
  destruct (Reset_rep sample_memory) as (bins0 & Hrep0 & Hnil).
  eapply returns_mono; [apply (FreeLocked_ok sample_memory Reset bins0 sample_block);
    [done | apply sample_block_ok | apply sample_mapped | rewrite Hnil; constructor |] |].
  - intros x Hx; apply sample_writable; unfold in_block; change (HeaderSizeFor sample_block.2) with 16 in Hx; cbn in *; lia.
  - intros [m fl] (bins & Hrep & Hp & _ & _ & Ep); rewrite Hnil in Hp; exists bins; split_and!; [done | done |].
    intros x (b & Hb & Hx); rewrite Hp, list_elem_of_singleton in Hb; subst b.
    eapply can_write_pages; [exact Ep | apply sample_writable; done].
Qed.

Lemma TryAllocateLocked_sound_witness :
  exists m fl, FreeLocked sample_memory Reset 4096 64 = Ok (m, fl) /\
    returns (TryAllocateLocked m fl 16 false) (fun '(m', fl', a) => a = 4096).
Proof.
  destruct sample_freed as ([m fl] & E & bins & Hrep & Hp & Hw); exists m, fl; split; [exact E |].
  destruct (TryAllocateLocked_sound m fl bins 16 false Hrep sample_size (fun _ => Hw)) as ([[m' fl'] a] & Ea & Ha).
  exists (m', fl', a); split; [exact Ea |]; destruct Ha as [(_ & _ & _ & Hall) | (b & rest & _ & -> & _ & Hb & _)].
  - rewrite Hp in Hall; apply Forall_cons in Hall as [Hlt _]; cbn in Hlt; lia.
  - rewrite Hp in Hb; apply Permutation_singleton_l in Hb; injection Hb as <- _; reflexivity.
Defined.

Lemma allocator_safe_witness :
  exists s bins, rtc step (mkState sample_memory Reset [sample_block]) s /\ live s = [] /\
    separate (live s ++ concat bins) /\ bytes (live s ++ concat bins) = 64.
Proof.
  destruct sample_freed as ([m fl] & E & _).
  assert (rtc step (mkState sample_memory Reset [sample_block]) (mkState m fl [])) as Hrun.
  { apply rtc_once; apply (step_free sample_memory Reset [] sample_block [] m fl); exact E. }
  destruct (allocator_safe sample_memory sample_block (mkState m fl []) sample_block_ok sample_mapped sample_writable Hrun)
    as (bins & _ & Hsep & _ & Hby & _).
  exists (mkState m fl []), bins; split; [exact Hrun |]; split; [reflexivity |]; split; [exact Hsep | exact Hby].
Defined.
