(* ===== verification/FlowGraph.v ===== *)
(** The part of the flow graph that the range analysis reads: definitions of
    [vm/intermediate_language.h] with their operands, types and ranges, and the data
    of [RangeBoundary] and [Range] of [vm/flow_graph_range_analysis.h].

    A [Definition*] is an index into the list of the graph's definitions.  A null
    [Range*] is [None].  The dominator relation of the blocks, which the graph keeps
    in [dominator] links, is the field [Dominates]. *)
From stdpp Require Import base list numbers.
From Stdlib Require Import ZArith Lia.
From S2P Require Import Prelude Utils Locations.
#[local] Open Scope Z_scope.

(** * Smis *)
Section Smi.
Context `{Word}.

Definition kSmiBits : Z := kBitsPerWord - 2.
Definition kSmiMax : Z := 2 ^ kSmiBits - 1.
Definition kSmiMin : Z := - 2 ^ kSmiBits.

(** [Smi::IsValid]. *)
Definition Smi_IsValid (value : Z) : bool := (kSmiMin <=? value) && (value <=? kSmiMax).

(** [Array::kMaxElements] and [String::kMaxElements]: an element of an array is a
    word, a string may have two bytes per character. *)
Definition Array_kMaxElements : Z := kSmiMax / kWordSize.
Definition String_kMaxElements : Z := kSmiMax / 2.
End Smi.

Definition kMinInt32 : Z := - 2 ^ 31.
Definition kMaxInt32 : Z := 2 ^ 31 - 1.
Definition kMaxUint32 : Z := 2 ^ 32 - 1.

(** * Tokens: the operators of integer instructions and of comparisons *)
Module Token.
Inductive Kind :=
| kADD | kSUB | kMUL | kDIV | kTRUNCDIV | kMOD
| kSHL | kSHR | kBIT_AND | kBIT_OR | kBIT_XOR | kBIT_NOT
| kEQ | kNE | kLT | kGT | kLTE | kGTE
| kEQ_STRICT | kNE_STRICT | kIS | kISNOT | kILLEGAL.

#[global] Instance Kind_eq_dec : EqDecision Kind.
Proof. solve_decision. Defined.

Definition NegateComparison (op : Kind) : outcome Kind :=
  match op with
  | kEQ => Ok kNE
  | kNE => Ok kEQ
  | kLT => Ok kGTE
  | kGT => Ok kLTE
  | kLTE => Ok kGT
  | kGTE => Ok kLT
  | kEQ_STRICT => Ok kNE_STRICT
  | kNE_STRICT => Ok kEQ_STRICT
  | kIS => Ok kISNOT
  | kISNOT => Ok kIS
  | _ => Err Unreachable
  end.
End Token.

(** * Boundaries and ranges: the data *)
Abbreviation defn := nat.

Module RangeBoundary.
(** [kind_] with the fields the kind gives a meaning: [value_] is the constant of a
    [kConstant] boundary and the definition of a [kSymbol] one. *)
Inductive t :=
| Unknown
| NegativeInfinity
| PositiveInfinity
| Symbol (symbol : defn) (offset : Z)
| Constant (value : Z).

Inductive RangeSize := kRangeBoundarySmi | kRangeBoundaryInt32 | kRangeBoundaryInt64.

#[global] Instance t_eq_dec : EqDecision t.
Proof. solve_decision. Defined.
#[global] Instance RangeSize_eq_dec : EqDecision RangeSize.
Proof. solve_decision. Defined.
End RangeBoundary.

(** The assertion of the constructor, that the boundaries are both unknown or both known,
    is not executed here: the ranges of a well-formed graph satisfy it ([rwf_known]). *)
Module Range.
Record t := make { min_ : RangeBoundary.t; max_ : RangeBoundary.t }.
#[global] Instance t_eq_dec : EqDecision t.
Proof. solve_decision. Defined.
End Range.

(** * Definitions *)
Inductive Object := SmiObject (value : Z) | MintObject (value : Z) | OtherObject (raw : Z).

Inductive Cid := kSmiCid | kMintCid | kDynamicCid.

Inductive MethodRecognizer_Kind :=
  kObjectArrayLength | kImmutableArrayLength | kTypedDataLength | kStringBaseLength
| kUnknownMethod.

(** The class ids that [LoadIndexedInstr] and [LoadCodeUnitsInstr] distinguish. *)
Inductive IndexedCid :=
  kTypedDataInt8ArrayCid | kTypedDataUint8ArrayCid | kTypedDataUint8ClampedArrayCid
| kExternalTypedDataUint8ArrayCid | kExternalTypedDataUint8ClampedArrayCid
| kTypedDataInt16ArrayCid | kTypedDataUint16ArrayCid
| kTypedDataInt32ArrayCid | kTypedDataUint32ArrayCid
| kOneByteStringCid | kTwoByteStringCid
| kExternalOneByteStringCid | kExternalTwoByteStringCid
| kOtherCid.

(** The classes derived from [BinaryIntegerOpInstr] that have ranges inferred. *)
Inductive BinaryClass := BinarySmiOp | BinaryInt32Op | BinaryMintOp | ShiftMintOp.

#[export] Instance Object_eq_dec : EqDecision Object.
Proof. solve_decision. Defined.
#[export] Instance Cid_eq_dec : EqDecision Cid.
Proof. solve_decision. Defined.
#[export] Instance MethodRecognizer_Kind_eq_dec : EqDecision MethodRecognizer_Kind.
Proof. solve_decision. Defined.
#[export] Instance IndexedCid_eq_dec : EqDecision IndexedCid.
Proof. solve_decision. Defined.
#[export] Instance BinaryClass_eq_dec : EqDecision BinaryClass.
Proof. solve_decision. Defined.

(** The instructions that define a value.  [OtherInstr] stands for the classes whose
    [InferRange] is [Definition::InferRange]: its tag, operands and attributes, and
    what [AllowsCSE] and [Dependencies().IsNone()] answer for it.  The comparison of
    an [IfThenElseInstr] is its class and attributes, as a number, and its operands.
    [value_cid] is the class id of the type that reaches an unboxing operation, which
    may be more precise than the type of the definition. *)
Inductive Instr :=
| ConstantInstr (value : Object)
| ConstraintInstr (value : defn) (constraint : Range.t)
| PhiInstr (inputs : list defn)
| BinaryIntegerOpInstr (cls : BinaryClass) (op_kind : Token.Kind) (left right : defn)
    (can_overflow is_truncating : bool)
| LoadFieldInstr (instance : defn) (recognized_kind : MethodRecognizer_Kind)
    (immutable : bool) (field : option Z) (offset_in_bytes : Z)
| LoadIndexedInstr (array index : defn) (class_id : IndexedCid)
| LoadCodeUnitsInstr (string index : defn) (class_id : IndexedCid)
| IfThenElseInstr (comparison : Z) (left right : defn) (if_true if_false : Z)
| UnaryMintOpInstr (op_kind : Token.Kind) (value : defn)
| BoxIntegerInstr (from_representation : Representation) (value : defn)
| UnboxInt32Instr (value : defn) (value_cid : Cid) (is_truncating : bool)
| UnboxUint32Instr (value : defn) (value_cid : Cid)
| UnboxInt64Instr (value : defn)
| UnboxedIntConverterInstr (from to : Representation) (value : defn)
| OtherInstr (tag : Z) (inputs : list defn) (attributes : Z)
    (allows_cse dependencies_none : bool).

(** [Definition]: its instruction, the class id and the integer test of its
    [Type()], its representation, the block it is in and its range. *)
Record Node := mkNode {
  instr : Instr;
  ToCid : Cid;
  IsInt_type : bool;
  representation : Representation;
  block : nat;
  range : option Range.t;
}.

Definition null_node : Node :=
  mkNode (OtherInstr 0 [] 0 false false) kDynamicCid false kNoRepresentation 0 None.

Record FlowGraph := mkGraph { definitions : list Node; Dominates : nat -> nat -> bool }.

Section Graph.
Context (g : FlowGraph).

Definition node (d : defn) : Node := default null_node (definitions g !! d).

(** No chain of definitions is longer than the list of them. *)
Definition depth : nat := S (length (definitions g)).

Definition IsConstant (d : defn) : bool :=
  match instr (node d) with ConstantInstr _ => true | _ => false end.

Definition IsConstraint (d : defn) : bool :=
  match instr (node d) with ConstraintInstr _ _ => true | _ => false end.

Definition IsPhi (d : defn) : bool :=
  match instr (node d) with PhiInstr _ => true | _ => false end.

Definition IsBinarySmiOp (d : defn) : bool :=
  match instr (node d) with
  | BinaryIntegerOpInstr BinarySmiOp _ _ _ _ _ => true
  | _ => false
  end.

(** [UnwrapConstraint]. *)
Fixpoint UnwrapConstraint_loop (fuel : nat) (d : defn) : outcome defn :=
  match fuel with
  | O => Err OutOfFuel
  | S fuel =>
    match instr (node d) with
    | ConstraintInstr value _ => UnwrapConstraint_loop fuel value
    | _ => Ok d
    end
  end.

Definition UnwrapConstraint (d : defn) : outcome defn := UnwrapConstraint_loop depth d.

(** [AllowsCSE] and [Dependencies().IsNone()] of the instruction classes. *)
Definition AllowsCSE (d : defn) : bool :=
  match instr (node d) with
  | ConstantInstr _ | BinaryIntegerOpInstr _ _ _ _ _ _ | UnaryMintOpInstr _ _
  | IfThenElseInstr _ _ _ _ _
  | BoxIntegerInstr _ _ | UnboxInt32Instr _ _ _ | UnboxUint32Instr _ _ | UnboxInt64Instr _ => true
  | LoadFieldInstr _ _ immutable _ _ => immutable
  | OtherInstr _ _ _ allows_cse _ => allows_cse
  | _ => false
  end.

Definition Dependencies_IsNone (d : defn) : bool :=
  match instr (node d) with
  | ConstantInstr _ | BinaryIntegerOpInstr _ _ _ _ _ _ | UnaryMintOpInstr _ _
  | IfThenElseInstr _ _ _ _ _
  | BoxIntegerInstr _ _ | UnboxInt32Instr _ _ _ | UnboxUint32Instr _ _ | UnboxInt64Instr _
  | UnboxedIntConverterInstr _ _ _ => true
  | LoadFieldInstr _ _ immutable _ _ => immutable
  | OtherInstr _ _ _ _ dependencies_none => dependencies_none
  | _ => false
  end.

(** [LoadFieldInstr::AttributesEqual]: the same field object, or the same offset. *)
Definition LoadField_AttributesEqual (f1 : option Z) (o1 : Z) (f2 : option Z) (o2 : Z) : bool :=
  match f1 with
  | Some raw => match f2 with Some raw' => raw =? raw' | None => false end
  | None => match f2 with Some _ => false | None => o1 =? o2 end
  end.

(** [Instruction::Equals]: the same tag, operands and attributes.  [AreEqualDefinitions]
    asks only when both operands allow CSE. *)
Definition Equals (a b : defn) : bool :=
  match instr (node a), instr (node b) with
  | ConstantInstr v, ConstantInstr w => bool_decide (v = w)
  | BinaryIntegerOpInstr c1 k1 l1 r1 o1 t1, BinaryIntegerOpInstr c2 k2 l2 r2 o2 t2 =>
      bool_decide (c1 = c2) && Nat.eqb l1 l2 && Nat.eqb r1 r2 && bool_decide (k1 = k2)
      && eqb o1 o2 && eqb t1 t2
  | LoadFieldInstr i1 _ _ f1 o1, LoadFieldInstr i2 _ _ f2 o2 =>
      Nat.eqb i1 i2 && LoadField_AttributesEqual f1 o1 f2 o2
  | IfThenElseInstr c1 l1 r1 t1 f1, IfThenElseInstr c2 l2 r2 t2 f2 =>
      Nat.eqb l1 l2 && Nat.eqb r1 r2 && (c1 =? c2) && (t1 =? t2) && (f1 =? f2)
  | UnaryMintOpInstr k v, UnaryMintOpInstr k' w => Nat.eqb v w && bool_decide (k = k')
  | BoxIntegerInstr r v, BoxIntegerInstr r' w => Nat.eqb v w && bool_decide (r = r')
  | UnboxInt32Instr v _ t, UnboxInt32Instr w _ t' => Nat.eqb v w && eqb t t'
  | UnboxUint32Instr v _, UnboxUint32Instr w _ => Nat.eqb v w
  | UnboxInt64Instr v, UnboxInt64Instr w => Nat.eqb v w
  | OtherInstr t1 i1 a1 _ _, OtherInstr t2 i2 a2 _ _ =>
      (t1 =? t2) && bool_decide (i1 = i2) && (a1 =? a2)
  | _, _ => false
  end.

Definition AreEqualDefinitions (a b : defn) : outcome bool :=
  let* a := UnwrapConstraint a in
  let* b := UnwrapConstraint b in
  Ok (Nat.eqb a b
      || (AllowsCSE a && Dependencies_IsNone a && AllowsCSE b && Dependencies_IsNone b
          && Equals a b)).

Definition DependOnSameSymbol (a b : RangeBoundary.t) : outcome bool :=
  match a, b with
  | RangeBoundary.Symbol s _, RangeBoundary.Symbol s' _ => AreEqualDefinitions s s'
  | _, _ => Ok false
  end.

(** [DependsOnSymbol]. *)
Definition DependsOnSymbol (a : RangeBoundary.t) (symbol : defn) : outcome bool :=
  match a with
  | RangeBoundary.Symbol s _ => let* u := UnwrapConstraint s in Ok (Nat.eqb u symbol)
  | _ => Ok false
  end.

(** [IsArrayLength] with [LoadFieldInstr::IsImmutableLengthLoad]. *)
Definition IsImmutableLengthLoad (k : MethodRecognizer_Kind) : bool :=
  match k with
  | kObjectArrayLength | kImmutableArrayLength | kTypedDataLength | kStringBaseLength => true
  | kUnknownMethod => false
  end.

Definition IsArrayLength (d : option defn) : outcome bool :=
  match d with
  | None => Ok false
  | Some d =>
    let* u := UnwrapConstraint d in
    Ok match instr (node u) with
       | LoadFieldInstr _ k _ _ _ => IsImmutableLengthLoad k
       | _ => false
       end
  end.

(** [Definition::IsMintDefinition], [Definition::IsInt32Definition]. *)
Definition IsMintDefinition (d : defn) : bool :=
  bool_decide (ToCid (node d) = kMintCid)
  || match instr (node d) with
     | BinaryIntegerOpInstr BinaryMintOp _ _ _ _ _
     | BinaryIntegerOpInstr ShiftMintOp _ _ _ _ _
     | UnaryMintOpInstr _ _ | UnboxInt64Instr _ => true
     | BoxIntegerInstr from _ => bool_decide (from = kUnboxedMint)
     | _ => false
     end.

Definition IsInt32Definition (d : defn) : bool :=
  match instr (node d) with
  | BinaryIntegerOpInstr BinaryInt32Op _ _ _ _ _
  | UnboxInt32Instr _ _ _ | UnboxedIntConverterInstr _ _ _ => true
  | BoxIntegerInstr from _ => bool_decide (from = kUnboxedInt32)
  | _ => false
  end.
End Graph.

(** [Definition::set_range], [BinaryIntegerOpInstr::set_can_overflow] on a graph. *)
Definition set_node (g : FlowGraph) (d : defn) (n : Node) : FlowGraph :=
  mkGraph (<[d := n]> (definitions g)) (Dominates g).

Definition set_range (g : FlowGraph) (d : defn) (r : Range.t) : FlowGraph :=
  let n := node g d in
  set_node g d (mkNode (instr n) (ToCid n) (IsInt_type n) (representation n) (block n) (Some r)).

Definition set_can_overflow (g : FlowGraph) (d : defn) (overflow : bool) : outcome FlowGraph :=
  let n := node g d in
  match instr n with
  | BinaryIntegerOpInstr c k l r _ is_truncating =>
    ASSERT (negb is_truncating || negb overflow) ;;
    Ok (set_node g d
          (mkNode (BinaryIntegerOpInstr c k l r overflow is_truncating)
             (ToCid n) (IsInt_type n) (representation n) (block n) (range n)))
  | _ => Err Unreachable
  end.
