(* ===== verification/Ranges.v ===== *)
(** The lattice of [vm/flow_graph_range_analysis.{h,cc}]: the operations of
    [RangeBoundary] (Module [Boundary]) and of [Range] (Module [Ranges]) on a flow
    graph.

    A symbolic boundary [v + c] refers to a definition whose own range may be
    symbolic, so that [LowerBound] and [UpperBound] walk from range to range; the
    walk is bounded by [depth g], the number of definitions.  [int64_t] arithmetic
    wraps.  C++ leaves a shift count of 64 or more undefined: counts are taken
    modulo 64, as the instructions of the 64-bit hosts take them. *)
From stdpp Require Import base list numbers.
From Stdlib Require Import ZArith Lia.
From S2P Require Import Prelude Utils Locations FlowGraph.
Import RangeBoundary.
#[local] Open Scope Z_scope.

(** [value << count] and [value >> count] of [int64_t]. *)
Definition shl64 (value count : Z) : Z := int64 (Z.shiftl value (count mod 64)).
Definition shr64 (value count : Z) : Z := Z.shiftr value (count mod 64).

(** * [RangeBoundary] *)
Module Boundary.
Section Boundary.
Context `{Word}.

Definition IsUnknown (b : t) : bool := match b with Unknown => true | _ => false end.
Definition IsConstant (b : t) : bool := match b with Constant _ => true | _ => false end.
Definition IsSymbol (b : t) : bool := match b with Symbol _ _ => true | _ => false end.
Definition IsNegativeInfinity (b : t) : bool :=
  match b with NegativeInfinity => true | _ => false end.
Definition IsPositiveInfinity (b : t) : bool :=
  match b with PositiveInfinity => true | _ => false end.
Definition IsInfinity (b : t) : bool := IsNegativeInfinity b || IsPositiveInfinity b.
Definition IsConstantOrInfinity (b : t) : bool := IsConstant b || IsInfinity b.

Definition ConstantValue (b : t) : outcome Z :=
  match b with Constant v => Ok v | _ => Err AssertionFailed end.

Definition symbol (b : t) : outcome defn :=
  match b with Symbol s _ => Ok s | _ => Err AssertionFailed end.

Definition offset (b : t) : Z := match b with Symbol _ o => o | _ => 0 end.

(** [MinConstant(size)], [MaxConstant(size)] and the constants they return. *)
Definition min_value (size : RangeSize) : Z :=
  match size with
  | kRangeBoundarySmi => kSmiMin
  | kRangeBoundaryInt32 => kMinInt32
  | kRangeBoundaryInt64 => kMinInt64
  end.

Definition max_value (size : RangeSize) : Z :=
  match size with
  | kRangeBoundarySmi => kSmiMax
  | kRangeBoundaryInt32 => kMaxInt32
  | kRangeBoundaryInt64 => kMaxInt64
  end.

Definition MinConstant (size : RangeSize) : t := Constant (min_value size).
Definition MaxConstant (size : RangeSize) : t := Constant (max_value size).
Definition MinSmi : t := Constant kSmiMin.
Definition MaxSmi : t := Constant kSmiMax.

(** [-/+ infinity] are clamped to the bounds of the type; a symbol is not. *)
Definition Clamp (b : t) (size : RangeSize) : t :=
  match b with
  | NegativeInfinity => MinConstant size
  | PositiveInfinity => MaxConstant size
  | Constant v =>
      if v <=? min_value size then MinConstant size
      else if v >=? max_value size then MaxConstant size
      else b
  | _ => b
  end.

Definition IsMinimumOrBelow (b : t) (size : RangeSize) : bool :=
  match b with
  | NegativeInfinity => true
  | Constant v => v <=? min_value size
  | _ => false
  end.

Definition IsMaximumOrAbove (b : t) (size : RangeSize) : bool :=
  match b with
  | PositiveInfinity => true
  | Constant v => v >=? max_value size
  | _ => false
  end.

(** [OverflowedSmi]: a constant outside of the smi range, or an infinity. *)
Definition OverflowedSmi (b : t) : bool :=
  match b with
  | Constant v => negb (Smi_IsValid v)
  | _ => IsInfinity b
  end.

(** ** Arithmetic on constants *)
Definition Add (a b overflow : t) : outcome t :=
  if IsInfinity a || IsInfinity b then Ok overflow
  else
    let* x := ConstantValue a in
    let* y := ConstantValue b in
    if WillAddOverflow x y then Ok overflow else Ok (Constant (int64 (x + y))).

Definition Sub (a b overflow : t) : outcome t :=
  if IsInfinity a || IsInfinity b then Ok overflow
  else
    let* x := ConstantValue a in
    let* y := ConstantValue b in
    if WillSubOverflow x y then Ok overflow else Ok (Constant (int64 (x - y))).

Definition Shl (value_boundary : t) (shift_count : Z) (overflow : t) : outcome t :=
  let* value := ConstantValue value_boundary in
  ASSERT (0 <=? shift_count) ;;
  let limit := 64 - shift_count in
  if (value =? 0) || (shift_count =? 0) || ((limit >? 0) && IsInt limit value)
  then Ok (Constant (shl64 value shift_count))
  else Ok overflow.

Definition Shr (value_boundary : t) (shift_count : Z) : outcome t :=
  let* value := ConstantValue value_boundary in
  ASSERT (0 <=? shift_count) ;;
  Ok (Constant (shr64 value shift_count)).

Section Graph.
Context (g : FlowGraph).

Definition FromDefinition (d : defn) (offs : Z) : t :=
  match instr (node g d) with
  | ConstantInstr (SmiObject v) => Constant (int64 (v + offs))
  | _ => Symbol d offs
  end.

(** [Range::ConstantMin] and [Range::ConstantMax] over a given [LowerBound] and
    [UpperBound], which call them back for the range of a symbol. *)
Definition ConstantMin_ (LowerBound : t -> outcome t) (r : option Range.t) (size : RangeSize)
    : outcome t :=
  match r with
  | None => Ok (MinConstant size)
  | Some r => let* l := LowerBound (Range.min_ r) in Ok (Clamp l size)
  end.

Definition ConstantMax_ (UpperBound : t -> outcome t) (r : option Range.t) (size : RangeSize)
    : outcome t :=
  match r with
  | None => Ok (MaxConstant size)
  | Some r => let* u := UpperBound (Range.max_ r) in Ok (Clamp u size)
  end.

Fixpoint LowerBound_ (fuel : nat) (b : t) : outcome t :=
  match fuel with
  | O => Err OutOfFuel
  | S fuel =>
    if IsInfinity b then Ok NegativeInfinity
    else if IsConstant b then Ok b
    else
      let* s := symbol b in
      let* m := ConstantMin_ (LowerBound_ fuel) (range (node g s)) kRangeBoundarySmi in
      Add m (Constant (offset b)) NegativeInfinity
  end.

Fixpoint UpperBound_ (fuel : nat) (b : t) : outcome t :=
  match fuel with
  | O => Err OutOfFuel
  | S fuel =>
    if IsInfinity b then Ok PositiveInfinity
    else if IsConstant b then Ok b
    else
      let* s := symbol b in
      let* m := ConstantMax_ (UpperBound_ fuel) (range (node g s)) kRangeBoundarySmi in
      Add m (Constant (offset b)) PositiveInfinity
  end.

Definition LowerBound (b : t) : outcome t := LowerBound_ (S (depth g)) b.
Definition UpperBound (b : t) : outcome t := UpperBound_ (S (depth g)) b.

(** [LowerBound(size)], [UpperBound(size)]. *)
Definition LowerBound_size (b : t) (size : RangeSize) : outcome Z :=
  let* l := LowerBound b in ConstantValue (Clamp l size).

Definition UpperBound_size (b : t) (size : RangeSize) : outcome Z :=
  let* u := UpperBound b in ConstantValue (Clamp u size).

Definition Equals (a b : t) : outcome bool :=
  match a, b with
  | Constant v, Constant w => Ok (v =? w)
  | NegativeInfinity, NegativeInfinity | PositiveInfinity, PositiveInfinity => Ok true
  | Symbol _ o, Symbol _ o' =>
      if o =? o' then DependOnSameSymbol g a b else Ok false
  | Unknown, Unknown => Ok true
  | _, _ => Ok false
  end.

Definition Overflowed (b : t) (size : RangeSize) : outcome bool :=
  ASSERT IsConstantOrInfinity b ;;
  let* e := Equals b (Clamp b size) in Ok (negb e).

(** ** Symbolic arithmetic *)
Definition SymbolicAdd_constant (a b : t) : option t :=
  match a, b with
  | Symbol s o, Constant c =>
      if WillAddOverflow o c then None else Some (FromDefinition s (int64 (o + c)))
  | _, _ => None
  end.

Definition SymbolicAdd (a b : t) : option t :=
  if IsSymbol a && IsConstant b then SymbolicAdd_constant a b
  else if IsSymbol b && IsConstant a then SymbolicAdd_constant b a
  else None.

Definition SymbolicSub (a b : t) : option t :=
  match a, b with
  | Symbol s o, Constant c =>
      if WillSubOverflow o c then None else Some (FromDefinition s (int64 (o - c)))
  | _, _ => None
  end.

(** ** Canonicalization *)

(** [Smi::Cast(d->AsConstant()->value()).Value()]. *)
Definition smi_constant (d : defn) : outcome Z :=
  match instr (node g d) with
  | ConstantInstr (SmiObject v) => Ok v
  | _ => Err AssertionFailed
  end.

(** The loop of [CanonicalizeBoundary]: [None] where it returns [overflow]. *)
Fixpoint CanonicalizeBoundary_loop (fuel : nat) (symbol : defn) (offset : Z)
    : outcome (option (defn * Z)) :=
  match fuel with
  | O => Err OutOfFuel
  | S fuel =>
    match instr (node g symbol) with
    | ConstraintInstr value _ => CanonicalizeBoundary_loop fuel value offset
    | BinaryIntegerOpInstr BinarySmiOp Token.kADD left_ right_ _ _ =>
        if FlowGraph.IsConstant g right_ then
          let* rhs := smi_constant right_ in
          if WillAddOverflow offset rhs then Ok None
          else CanonicalizeBoundary_loop fuel left_ (int64 (offset + rhs))
        else if FlowGraph.IsConstant g left_ then
          let* rhs := smi_constant left_ in
          if WillAddOverflow offset rhs then Ok None
          else CanonicalizeBoundary_loop fuel right_ (int64 (offset + rhs))
        else Ok (Some (symbol, offset))
    | BinaryIntegerOpInstr BinarySmiOp Token.kSUB left_ right_ _ _ =>
        if FlowGraph.IsConstant g right_ then
          let* rhs := smi_constant right_ in
          if WillSubOverflow offset rhs then Ok None
          else CanonicalizeBoundary_loop fuel left_ (int64 (offset - rhs))
        else Ok (Some (symbol, offset))
    | _ => Ok (Some (symbol, offset))
    end
  end.

Definition CanonicalizeBoundary (a overflow : t) : outcome t :=
  if IsConstant a || IsInfinity a then Ok a
  else
    let* s := symbol a in
    let* r := CanonicalizeBoundary_loop (depth g) s (offset a) in
    Ok match r with
       | None => overflow
       | Some (s, o) => FromDefinition s o
       end.

(** [CanonicalizeMaxBoundary(&a)]: [None] where it returns false. *)
Definition CanonicalizeMaxBoundary (a : t) : outcome (option t) :=
  match a with
  | Symbol s o =>
    match range (node g s) with
    | Some {| Range.max_ := Symbol s' o' |} =>
        if WillAddOverflow o' o then Ok (Some PositiveInfinity)
        else
          let* r := CanonicalizeBoundary (FromDefinition s' (int64 (o' + o))) PositiveInfinity in
          Ok (Some r)
    | _ => Ok None
    end
  | _ => Ok None
  end.

Definition CanonicalizeMinBoundary (a : t) : outcome (option t) :=
  match a with
  | Symbol s o =>
    match range (node g s) with
    | Some {| Range.min_ := Symbol s' o' |} =>
        if WillAddOverflow o' o then Ok (Some NegativeInfinity)
        else
          let* r := CanonicalizeBoundary (FromDefinition s' (int64 (o' + o))) NegativeInfinity in
          Ok (Some r)
    | _ => Ok None
    end
  | _ => Ok None
  end.

(** [do { if (DependOnSameSymbol(a, b)) ... } while (opa(&a) || opb(&b))]: the two
    boundaries when they come to depend on the same symbol, [None] when neither can
    be rewritten any further. *)
Fixpoint same_symbol_loop (opa opb : t -> outcome (option t)) (fuel : nat) (a b : t)
    : outcome (option (t * t)) :=
  match fuel with
  | O => Err OutOfFuel
  | S fuel =>
    let* same := DependOnSameSymbol g a b in
    if same : bool then Ok (Some (a, b))
    else
      let* a' := opa a in
      match a' with
      | Some a' => same_symbol_loop opa opb fuel a' b
      | None =>
        let* b' := opb b in
        match b' with
        | Some b' => same_symbol_loop opa opb fuel a b'
        | None => Ok None
        end
      end
  end.

Definition CanonicalizeForComparison (a b : t) (op : t -> outcome (option t))
    : outcome (option (t * t)) :=
  if negb (IsSymbol a) || negb (IsSymbol b) then Ok None
  else same_symbol_loop op op (S (2 * depth g)) a b.

(** ** Joins and intersections *)
Definition JoinMin (a b : t) (size : RangeSize) : outcome t :=
  let* e := Equals a b in
  if e : bool then Ok b
  else
    let* c := CanonicalizeForComparison a b CanonicalizeMinBoundary in
    match c with
    | Some (a, b) => Ok (if offset a <=? offset b then a else b)
    | None =>
      let* inf_a := LowerBound_size a size in
      let* inf_b := LowerBound_size b size in
      let* sup_a := UpperBound_size a size in
      let* sup_b := UpperBound_size b size in
      let* lower_a := LowerBound a in
      let* lower_b := LowerBound b in
      let* overflow_a := Overflowed lower_a size in
      let* overflow_b := Overflowed lower_b size in
      if (sup_a <=? inf_b) && negb overflow_a then Ok a
      else if (sup_b <=? inf_a) && negb overflow_b then Ok b
      else Ok (Constant (Minimum inf_a inf_b))
    end.

Definition JoinMax (a b : t) (size : RangeSize) : outcome t :=
  let* e := Equals a b in
  if e : bool then Ok b
  else
    let* c := CanonicalizeForComparison a b CanonicalizeMaxBoundary in
    match c with
    | Some (a, b) => Ok (if offset a >=? offset b then a else b)
    | None =>
      let* inf_a := LowerBound_size a size in
      let* inf_b := LowerBound_size b size in
      let* sup_a := UpperBound_size a size in
      let* sup_b := UpperBound_size b size in
      let* upper_a := UpperBound a in
      let* upper_b := UpperBound b in
      let* overflow_a := Overflowed upper_a size in
      let* overflow_b := Overflowed upper_b size in
      if (sup_a <=? inf_b) && negb overflow_b then Ok b
      else if (sup_b <=? inf_a) && negb overflow_a then Ok a
      else Ok (Constant (Maximum sup_a sup_b))
    end.

Definition IntersectionMin (a b : t) : outcome t :=
  ASSERT (negb (IsPositiveInfinity a) && negb (IsPositiveInfinity b)) ;;
  ASSERT (negb (IsUnknown a) && negb (IsUnknown b)) ;;
  let* e := Equals a b in
  if e : bool then Ok a
  else if IsMinimumOrBelow a kRangeBoundarySmi then Ok b
  else if IsMinimumOrBelow b kRangeBoundarySmi then Ok a
  else
    let* c := CanonicalizeForComparison a b CanonicalizeMinBoundary in
    match c with
    | Some (a, b) => Ok (if offset a >=? offset b then a else b)
    | None =>
      let* inf_a := LowerBound_size a kRangeBoundarySmi in
      let* inf_b := LowerBound_size b kRangeBoundarySmi in
      Ok (if inf_a >=? inf_b then a else b)
    end.

Definition IntersectionMax (a b : t) : outcome t :=
  ASSERT (negb (IsNegativeInfinity a) && negb (IsNegativeInfinity b)) ;;
  ASSERT (negb (IsUnknown a) && negb (IsUnknown b)) ;;
  let* e := Equals a b in
  if e : bool then Ok a
  else if IsMaximumOrAbove a kRangeBoundarySmi then Ok b
  else if IsMaximumOrAbove b kRangeBoundarySmi then Ok a
  else
    let* c := CanonicalizeForComparison a b CanonicalizeMaxBoundary in
    match c with
    | Some (a, b) => Ok (if offset a <=? offset b then a else b)
    | None =>
      let* sup_a := UpperBound_size a kRangeBoundarySmi in
      let* sup_b := UpperBound_size b kRangeBoundarySmi in
      Ok (if sup_a <=? sup_b then a else b)
    end.
End Graph.
End Boundary.
End Boundary.

(** * [Range] *)
Module Ranges.
Import Range(min_, max_, make).
Import Boundary.
Section Ranges.
Context `{Word}.

Definition IsUnknown (r : option Range.t) : bool :=
  match r with None => true | Some r => Boundary.IsUnknown (min_ r) end.

Definition Full (size : RangeSize) : Range.t := make (MinConstant size) (MaxConstant size).

(** [IsFinite]: no boundary is an infinity. *)
Definition IsFinite (r : Range.t) : bool :=
  negb (IsInfinity (min_ r)) && negb (IsInfinity (max_ r)).

(** [Clamp]. *)
Definition Clamp (r : Range.t) (size : RangeSize) : Range.t :=
  make (Boundary.Clamp (min_ r) size) (Boundary.Clamp (max_ r) size).

Section Graph.
Context (g : FlowGraph).

Definition Equals (r : Range.t) (other : option Range.t) : outcome bool :=
  ASSERT (eqb (Boundary.IsUnknown (min_ r)) (Boundary.IsUnknown (max_ r))) ;;
  match other with
  | None => Ok (Boundary.IsUnknown (min_ r))
  | Some other =>
    let* e := Boundary.Equals g (min_ r) (min_ other) in
    if e : bool then Boundary.Equals g (max_ r) (max_ other) else Ok false
  end.

Definition ConstantMin (r : option Range.t) (size : RangeSize) : outcome t :=
  ConstantMin_ (LowerBound g) r size.

Definition ConstantMax (r : option Range.t) (size : RangeSize) : outcome t :=
  ConstantMax_ (UpperBound g) r size.

(** [ConstantMin(range).ConstantValue()], [ConstantMax(range).ConstantValue()]. *)
Definition min_int64 (r : Range.t) : outcome Z :=
  let* m := ConstantMin (Some r) kRangeBoundaryInt64 in ConstantValue m.

Definition max_int64 (r : Range.t) : outcome Z :=
  let* m := ConstantMax (Some r) kRangeBoundaryInt64 in ConstantValue m.

Definition OnlyLessThanOrEqualTo (r : Range.t) (val : Z) : outcome bool :=
  let* upper_bound := UpperBound g (max_ r) in
  if IsPositiveInfinity upper_bound then Ok false
  else let* u := ConstantValue upper_bound in Ok (u <=? val).

Definition OnlyGreaterThanOrEqualTo (r : Range.t) (val : Z) : outcome bool :=
  let* lower_bound := LowerBound g (min_ r) in
  if IsNegativeInfinity lower_bound then Ok false
  else let* l := ConstantValue lower_bound in Ok (l >=? val).

Definition IsPositive (r : Range.t) : outcome bool := OnlyGreaterThanOrEqualTo r 0.

Definition IsWithin (r : Range.t) (min_int max_int : Z) : outcome bool :=
  let* a := OnlyGreaterThanOrEqualTo r min_int in
  if a : bool then OnlyLessThanOrEqualTo r max_int else Ok false.

Definition Overlaps (r : Range.t) (min_int max_int : Z) : outcome bool :=
  let* lower := LowerBound g (min_ r) in
  let* upper := UpperBound g (max_ r) in
  let* this_min := if IsNegativeInfinity lower then Ok kMinInt64 else ConstantValue lower in
  let* this_max := if IsPositiveInfinity upper then Ok kMaxInt64 else ConstantValue upper in
  Ok (if (this_min <=? min_int) && (min_int <=? this_max) then true
      else if (this_min <=? max_int) && (max_int <=? this_max) then true
      else (min_int <? this_min) && (max_int >? this_max)).

Definition IsUnsatisfiable (r : Range.t) : outcome bool :=
  if IsPositiveInfinity (min_ r) || IsNegativeInfinity (max_ r) then Ok true
  else
    let* lo := min_int64 r in
    let* hi := max_int64 r in
    if lo >? hi then Ok true
    else
      let* same := DependOnSameSymbol g (min_ r) (max_ r) in
      Ok (same && (offset (min_ r) >? offset (max_ r))).

Definition Intersect (r other : Range.t) : outcome Range.t :=
  let* lo := IntersectionMin g (min_ r) (min_ other) in
  let* hi := IntersectionMax g (max_ r) (max_ other) in
  Ok (make lo hi).

Definition Fits (r : Range.t) (size : RangeSize) : outcome bool :=
  let* lo := LowerBound g (min_ r) in
  let* overflow_lo := Overflowed g lo size in
  if overflow_lo : bool then Ok false
  else
    let* hi := UpperBound g (max_ r) in
    let* overflow_hi := Overflowed g hi size in
    Ok (negb overflow_hi).

(** ** The transfer functions of the binary operations *)
Definition Shl (left_range right_range : Range.t) : outcome (t * t) :=
  let* left_max := max_int64 left_range in
  let* left_min := min_int64 left_range in
  let* r_max := max_int64 right_range in
  let* r_min := min_int64 right_range in
  let right_max := Maximum r_max 0 in
  let right_min := Maximum r_min 0 in
  let* result_min :=
    Boundary.Shl (Constant left_min) (if left_min >? 0 then right_min else right_max)
      (if left_min >? 0 then PositiveInfinity else NegativeInfinity) in
  let* result_max :=
    Boundary.Shl (Constant left_max) (if left_max >? 0 then right_max else right_min)
      (if left_max >? 0 then PositiveInfinity else NegativeInfinity) in
  Ok (result_min, result_max).

Definition Shr (left_range right_range : Range.t) : outcome (t * t) :=
  let* left_max := max_int64 left_range in
  let* left_min := min_int64 left_range in
  let* r_max := max_int64 right_range in
  let* r_min := min_int64 right_range in
  let right_max := Maximum r_max 0 in
  let right_min := Maximum r_min 0 in
  let* result_min :=
    Boundary.Shr (Constant left_min) (if left_min >? 0 then right_max else right_min) in
  let* result_max :=
    Boundary.Shr (Constant left_max) (if left_max >? 0 then right_min else right_max) in
  Ok (result_min, result_max).

Definition BitSize (r : Range.t) : outcome Z :=
  let* lo := min_int64 r in
  let* hi := max_int64 r in
  Ok (Maximum (BitLength lo) (BitLength hi)).

Definition BitwiseOp (left_range right_range : Range.t) : outcome (t * t) :=
  let* left_size := BitSize left_range in
  let* right_size := BitSize right_range in
  let bitsize := Maximum left_size right_size in
  let* left_positive := IsPositive left_range in
  let* right_positive := IsPositive right_range in
  let result_min :=
    if left_positive && right_positive then Constant 0 else Constant (shl64 (-1) bitsize) in
  Ok (result_min, Constant (int64 (uint64 (uint64 (shl64 1 bitsize) - 1)))).

Definition And (left_range right_range : Range.t) : outcome (t * t) :=
  let* right_min := min_int64 right_range in
  if right_min >=? 0 then
    let* right_max := ConstantMax (Some right_range) kRangeBoundaryInt64 in
    Ok (Constant 0, right_max)
  else
    let* left_min := min_int64 left_range in
    if left_min >=? 0 then
      let* left_max := ConstantMax (Some left_range) kRangeBoundaryInt64 in
      Ok (Constant 0, left_max)
    else BitwiseOp left_range right_range.

Definition Add (left_range right_range : Range.t) (left_defn : option defn)
    : outcome (t * t) :=
  let* is_length := IsArrayLength g left_defn in
  let from_defn b :=
    match left_defn with
    | Some d => if is_length : bool then FromDefinition g d 0 else b
    | None => b
    end in
  let left_min := from_defn (min_ left_range) in
  let left_max := from_defn (max_ left_range) in
  let* result_min :=
    match SymbolicAdd g left_min (min_ right_range) with
    | Some result => Ok result
    | None =>
      let* l := LowerBound g (min_ left_range) in
      let* r := LowerBound g (min_ right_range) in
      Boundary.Add l r NegativeInfinity
    end in
  let* result_max :=
    match SymbolicAdd g left_max (max_ right_range) with
    | Some result => Ok result
    | None =>
      let* r := UpperBound g (max_ right_range) in
      let* l := UpperBound g (max_ left_range) in
      Boundary.Add r l PositiveInfinity
    end in
  Ok (result_min, result_max).

Definition Sub (left_range right_range : Range.t) (left_defn : option defn)
    : outcome (t * t) :=
  let* is_length := IsArrayLength g left_defn in
  let from_defn b :=
    match left_defn with
    | Some d => if is_length : bool then FromDefinition g d 0 else b
    | None => b
    end in
  let left_min := from_defn (min_ left_range) in
  let left_max := from_defn (max_ left_range) in
  let* result_min :=
    match SymbolicSub g left_min (max_ right_range) with
    | Some result => Ok result
    | None =>
      let* l := LowerBound g (min_ left_range) in
      let* r := UpperBound g (max_ right_range) in
      Boundary.Sub l r NegativeInfinity
    end in
  let* result_max :=
    match SymbolicSub g left_max (min_ right_range) with
    | Some result => Ok result
    | None =>
      let* l := UpperBound g (max_ left_range) in
      let* r := LowerBound g (min_ right_range) in
      Boundary.Sub l r PositiveInfinity
    end in
  Ok (result_min, result_max).

Definition OnlyPositiveOrZero (a b : Range.t) : outcome bool :=
  let* x := OnlyGreaterThanOrEqualTo a 0 in
  if x : bool then OnlyGreaterThanOrEqualTo b 0 else Ok false.

Definition OnlyNegativeOrZero (a b : Range.t) : outcome bool :=
  let* x := OnlyLessThanOrEqualTo a 0 in
  if x : bool then OnlyLessThanOrEqualTo b 0 else Ok false.

(** [ConstantAbsMax], [ConstantAbsMin] of a range that is not null. *)
Definition ConstantAbsMax (r : Range.t) : outcome Z :=
  let* lo := min_int64 r in
  let* hi := max_int64 r in
  Ok (Maximum (Abs 64 lo) (Abs 64 hi)).

Definition ConstantAbsMin (r : Range.t) : outcome Z :=
  let* lo := min_int64 r in
  let* hi := max_int64 r in
  Ok (Minimum (Abs 64 lo) (Abs 64 hi)).

Definition same_sign (a b : Range.t) : outcome bool :=
  let* x := OnlyPositiveOrZero a b in
  if x : bool then Ok true else OnlyNegativeOrZero a b.

Definition Mul (left_range right_range : Range.t) : outcome (t * t) :=
  let* left_max := ConstantAbsMax left_range in
  let* right_max := ConstantAbsMax right_range in
  if (left_max <=? - kSmiMin) && (right_max <=? - kSmiMin)
     && ((left_max =? 0) || (right_max <=? Z.quot kMaxInt64 left_max))
  then
    let mul_max := int64 (left_max * right_max) in
    let* same := same_sign left_range right_range in
    if same : bool then
      let* left_min := ConstantAbsMin left_range in
      let* right_min := ConstantAbsMin right_range in
      Ok (Constant (int64 (left_min * right_min)), Constant mul_max)
    else Ok (Constant (int64 (- mul_max)), Constant mul_max)
  else
    let* same := same_sign left_range right_range in
    if same : bool then Ok (Constant 0, PositiveInfinity)
    else Ok (NegativeInfinity, PositiveInfinity).

Definition BinaryOp (op : Token.Kind) (left_range right_range : Range.t)
    (left_defn : option defn) : outcome Range.t :=
  ASSERT IsFinite left_range ;;
  ASSERT IsFinite right_range ;;
  let finish (m : outcome (t * t)) :=
    let* (lo, hi) := m in
    ASSERT (negb (Boundary.IsUnknown lo) && negb (Boundary.IsUnknown hi)) ;;
    Ok (make lo hi) in
  match op with
  | Token.kADD => finish (Add left_range right_range left_defn)
  | Token.kSUB => finish (Sub left_range right_range left_defn)
  | Token.kMUL => finish (Mul left_range right_range)
  | Token.kSHL => finish (Shl left_range right_range)
  | Token.kSHR => finish (Shr left_range right_range)
  | Token.kBIT_AND => finish (And left_range right_range)
  | Token.kBIT_XOR | Token.kBIT_OR => finish (BitwiseOp left_range right_range)
  | _ => Ok (make NegativeInfinity PositiveInfinity)
  end.
End Graph.
End Ranges.
End Ranges.
