(* ===== verification/RangeAnalysis.v ===== *)
(** The range analysis proper, [RangeAnalysis] and the [InferRange] methods of
    [vm/flow_graph_range_analysis.cc]: constraints from comparisons, the transfer
    function of every instruction, widening and narrowing of phis, the iteration, and
    the elimination of array bound checks. *)
From stdpp Require Import base list numbers.
From Stdlib Require Import ZArith Lia.
From S2P Require Import Prelude Utils Locations FlowGraph Ranges.
Import RangeBoundary.
Import Range(min_, max_, make).
Import Boundary.
#[local] Open Scope Z_scope.

Section RangeAnalysis.
Context `{Word}.

(** * Constraints *)
Definition FlipComparison (op : Token.Kind) : outcome Token.Kind :=
  match op with
  | Token.kEQ => Ok Token.kEQ
  | Token.kNE => Ok Token.kNE
  | Token.kLT => Ok Token.kGT
  | Token.kGT => Ok Token.kLT
  | Token.kLTE => Ok Token.kGTE
  | Token.kGTE => Ok Token.kLTE
  | _ => Err Unreachable
  end.

Section Graph.
Context (g : FlowGraph).

Definition ConstraintSmiRange (op : Token.Kind) (boundary : defn) : outcome Range.t :=
  match op with
  | Token.kEQ => Ok (make (FromDefinition g boundary 0) (FromDefinition g boundary 0))
  | Token.kNE => Ok (Ranges.Full kRangeBoundarySmi)
  | Token.kLT => Ok (make MinSmi (FromDefinition g boundary (-1)))
  | Token.kGT => Ok (make (FromDefinition g boundary 1) MaxSmi)
  | Token.kLTE => Ok (make MinSmi (FromDefinition g boundary 0))
  | Token.kGTE => Ok (make (FromDefinition g boundary 0) MaxSmi)
  | _ => Err Unreachable
  end.

(** The constraints that [ConstrainValueAfterBranch] puts at the true and the false
    successor of a branch on [left op right], for the operand at [use_index]. *)
Definition ConstrainValueAfterBranch (op : Token.Kind) (left_ right_ : defn) (use_index : nat)
    : outcome (Range.t * Range.t) :=
  let* (boundary, op_kind) :=
    (if Nat.eqb use_index 0 then Ok (right_, op)
     else
       ASSERT Nat.eqb use_index 1 ;;
       let* flipped := FlipComparison op in Ok (left_, flipped)) in
  let* true_constraint := ConstraintSmiRange op_kind boundary in
  let* negated := Token.NegateComparison op_kind in
  let* false_constraint := ConstraintSmiRange negated boundary in
  Ok (true_constraint, false_constraint).

(** The constraint that [ConstrainValueAfterCheckArrayBound] puts on the index (use
    [kIndexPos]) or on the length (use [kLengthPos]) after a check that passed. *)
Definition kLengthPos : nat := 0.
Definition kIndexPos : nat := 1.

Definition ConstrainValueAfterCheckArrayBound (length index : defn) (use_index : nat)
    : outcome Range.t :=
  if Nat.eqb use_index kIndexPos then Ok (make (Constant 0) (FromDefinition g length (-1)))
  else
    ASSERT Nat.eqb use_index kLengthPos ;;
    Ok (make (FromDefinition g index 1) MaxSmi).

(** * Ranges of inputs *)
Definition GetSmiRange (d : defn) : option Range.t :=
  match range (node g d) with
  | None => if bool_decide (ToCid (node g d) = kSmiCid) then None
            else Some (Ranges.Full kRangeBoundarySmi)
  | r => r
  end.

Definition IsIntegerDefinition (d : defn) : bool := IsInt_type (node g d).

Definition GetIntRange (d : defn) : option Range.t :=
  match range (node g d) with
  | None => if IsIntegerDefinition d then None else Some (Ranges.Full kRangeBoundaryInt64)
  | r => r
  end.

Definition GetInputRange (size : RangeSize) (d : defn) : option Range.t :=
  match size with
  | kRangeBoundarySmi => GetSmiRange d
  | kRangeBoundaryInt32 => range (node g d)
  | kRangeBoundaryInt64 => GetIntRange d
  end.

(** * Widening and narrowing *)
Definition WidenMin (r new_range : Range.t) (size : RangeSize) : outcome t :=
  let min := min_ r in
  let new_min := min_ new_range in
  let constants :=
    let* a := Ranges.ConstantMin g (Some r) size in
    let* b := Ranges.ConstantMin g (Some new_range) size in
    let* x := ConstantValue a in
    let* y := ConstantValue b in
    Ok (if x <=? y then a else MinConstant size) in
  if IsSymbol min then
    let* l := LowerBound g min in
    let* overflowed := Overflowed g l size in
    if overflowed : bool then Ok (MinConstant size)
    else
      let* same := DependOnSameSymbol g min new_min in
      if same : bool then
        Ok (if offset min <=? offset new_min then min else MinConstant size)
      else
        let* u := UpperBound_size g min size in
        let* v := LowerBound_size g new_min size in
        if u <=? v then Ok min else constants
  else constants.

Definition WidenMax (r new_range : Range.t) (size : RangeSize) : outcome t :=
  let max := max_ r in
  let new_max := max_ new_range in
  let constants :=
    let* a := Ranges.ConstantMax g (Some r) size in
    let* b := Ranges.ConstantMax g (Some new_range) size in
    let* x := ConstantValue a in
    let* y := ConstantValue b in
    Ok (if x >=? y then a else MaxConstant size) in
  if IsSymbol max then
    let* u := UpperBound g max in
    let* overflowed := Overflowed g u size in
    if overflowed : bool then Ok (MaxConstant size)
    else
      let* same := DependOnSameSymbol g max new_max in
      if same : bool then
        Ok (if offset max >=? offset new_max then max else MaxConstant size)
      else
        let* l := LowerBound_size g max size in
        let* v := UpperBound_size g new_max size in
        if l >=? v then Ok max else constants
  else constants.

(** The assertions of the debug build compare the constant bounds first. *)
Definition NarrowMin (r new_range : Range.t) (size : RangeSize) : outcome t :=
  let* a := Ranges.ConstantMin g (Some r) size in
  let* b := Ranges.ConstantMin g (Some new_range) size in
  let* x := ConstantValue a in
  let* y := ConstantValue b in
  ASSERT (x <=? y) ;;
  Ok (if IsMinimumOrBelow (min_ r) size then min_ new_range else min_ r).

Definition NarrowMax (r new_range : Range.t) (size : RangeSize) : outcome t :=
  let* a := Ranges.ConstantMax g (Some r) size in
  let* b := Ranges.ConstantMax g (Some new_range) size in
  let* x := ConstantValue a in
  let* y := ConstantValue b in
  ASSERT (x >=? y) ;;
  Ok (if IsMaximumOrAbove (max_ r) size then max_ new_range else max_ r).

(** * Joins *)
Definition Join (r : Range.t) (d : defn) (defn_range : option Range.t) (size : RangeSize)
    : outcome Range.t :=
  match defn_range with
  | None => Ok r
  | Some other =>
    if Boundary.IsUnknown (min_ other) then Ok r
    else if Boundary.IsUnknown (min_ r) then Ok other
    else
      let* unwrapped := UnwrapConstraint g d in
      let* on_min := DependsOnSymbol g (min_ r) unwrapped in
      let* on_max := DependsOnSymbol g (max_ r) unwrapped in
      let other :=
        if on_min || on_max then make (FromDefinition g d 0) (FromDefinition g d 0)
        else other in
      let* inf_range := LowerBound_size g (min_ r) size in
      let* inf_other := LowerBound_size g (min_ other) size in
      let* sup_range := UpperBound_size g (max_ r) size in
      let* sup_other := UpperBound_size g (max_ other) size in
      if sup_range <=? inf_other then Ok (make (min_ r) (max_ other))
      else if sup_other <=? inf_range then Ok (make (min_ other) (max_ r))
      else
        let* lo := JoinMin g (min_ r) (min_ other) size in
        let* hi := JoinMax g (max_ r) (max_ other) size in
        Ok (make lo hi)
  end.

Definition DominatesPhi (a phi_block : nat) : bool :=
  Dominates g a phi_block && negb (Nat.eqb a phi_block).

Definition EnsureAcyclicSymbol (phi_block : nat) (a limit : t) : outcome t :=
  match a with
  | Symbol s o =>
    if DominatesPhi (block (node g s)) phi_block then Ok a
    else
      let* unwrapped := UnwrapConstraint g s in
      if negb (Nat.eqb unwrapped s) && DominatesPhi (block (node g unwrapped)) phi_block
      then Ok (FromDefinition g unwrapped o)
      else Ok limit
  | _ => Ok a
  end.

Definition RangeSizeForPhi (phi : defn) : outcome RangeSize :=
  ASSERT IsPhi g phi ;;
  if bool_decide (ToCid (node g phi) = kSmiCid) then Ok kRangeBoundarySmi
  else if bool_decide (representation (node g phi) = kUnboxedInt32) then Ok kRangeBoundaryInt32
  else if IsInt_type (node g phi) then Ok kRangeBoundaryInt64
  else Err Unreachable.

(** The loop of [PhiInstr::InferRange] over the inputs. *)
Fixpoint join_inputs (r : Range.t) (inputs : list defn) (size : RangeSize) : outcome Range.t :=
  match inputs with
  | [] => Ok r
  | input :: inputs =>
    let* r := Join r input (GetInputRange size input) size in
    join_inputs r inputs size
  end.

Definition unknown_range : Range.t := make Unknown Unknown.

Definition Phi_InferRange (phi : defn) (inputs : list defn) : outcome Range.t :=
  let* size := RangeSizeForPhi phi in
  let* r := join_inputs unknown_range inputs size in
  let phi_block := block (node g phi) in
  let* lo := EnsureAcyclicSymbol phi_block (min_ r) MinSmi in
  let* hi := EnsureAcyclicSymbol phi_block (max_ r) MaxSmi in
  Ok (make lo hi).

(** * [InferRange] of the other instructions *)
Definition Definition_InferRange (d : defn) : outcome Range.t :=
  if bool_decide (ToCid (node g d) = kSmiCid) then Ok (Ranges.Full kRangeBoundarySmi)
  else if IsMintDefinition g d then Ok (Ranges.Full kRangeBoundaryInt64)
  else if IsInt32Definition g d then Ok (Ranges.Full kRangeBoundaryInt32)
  else if IsInt_type (node g d) then Ok (Ranges.Full kRangeBoundaryInt64)
  else Err Unreachable.

Definition Constant_InferRange (value : Object) : outcome Range.t :=
  match value with
  | SmiObject v | MintObject v => Ok (make (Constant v) (Constant v))
  | OtherObject _ => Err Unreachable
  end.

Definition Constraint_InferRange (value : defn) (constraint : Range.t) : outcome Range.t :=
  let value_range := GetSmiRange value in
  match value_range with
  | Some r =>
    if Ranges.IsUnknown value_range then Ok unknown_range
    else
      let* result := Ranges.Intersect g r constraint in
      let* unsatisfiable := Ranges.IsUnsatisfiable g result in
      Ok (if unsatisfiable : bool then unknown_range else result)
  | None => Ok unknown_range
  end.

Definition LoadField_InferRange (d : defn) (recognized_kind : MethodRecognizer_Kind)
    : outcome Range.t :=
  match recognized_kind with
  | kObjectArrayLength | kImmutableArrayLength =>
      Ok (make (Constant 0) (Constant Array_kMaxElements))
  | kTypedDataLength => Ok (make (Constant 0) MaxSmi)
  | kStringBaseLength => Ok (make (Constant 0) (Constant String_kMaxElements))
  | kUnknownMethod => Definition_InferRange d
  end.

Definition LoadIndexed_InferRange (d : defn) (class_id : IndexedCid) : outcome Range.t :=
  match class_id with
  | kTypedDataInt8ArrayCid => Ok (make (Constant (-128)) (Constant 127))
  | kTypedDataUint8ArrayCid | kTypedDataUint8ClampedArrayCid
  | kExternalTypedDataUint8ArrayCid | kExternalTypedDataUint8ClampedArrayCid =>
      Ok (make (Constant 0) (Constant 255))
  | kTypedDataInt16ArrayCid => Ok (make (Constant (-32768)) (Constant 32767))
  | kTypedDataUint16ArrayCid => Ok (make (Constant 0) (Constant 65535))
  | kTypedDataInt32ArrayCid => Ok (make (Constant kMinInt32) (Constant kMaxInt32))
  | kTypedDataUint32ArrayCid => Ok (make (Constant 0) (Constant kMaxUint32))
  | kOneByteStringCid => Ok (make (Constant 0) (Constant 0xFF))
  | kTwoByteStringCid => Ok (make (Constant 0) (Constant 0xFFFF))
  | _ => Definition_InferRange d
  end.

Definition LoadCodeUnits_InferRange (class_id : IndexedCid) : outcome Range.t :=
  match class_id with
  | kOneByteStringCid | kTwoByteStringCid
  | kExternalOneByteStringCid | kExternalTwoByteStringCid =>
      Ok (make (Constant 0) (Constant kMaxUint32))
  | _ => Err Unreachable
  end.

Definition IfThenElse_InferRange (if_true if_false : Z) : Range.t :=
  make (Constant (Minimum if_true if_false)) (Constant (Maximum if_true if_false)).

Definition RepresentationToRangeSize (r : Representation) : outcome RangeSize :=
  match r with
  | kTagged => Ok kRangeBoundarySmi
  | kUnboxedInt32 => Ok kRangeBoundaryInt32
  | kUnboxedMint => Ok kRangeBoundaryInt64
  | _ => Err Unreachable
  end.

(** [BinaryIntegerOpInstr::InferRangeHelper]: the range, and the value of
    [can_overflow] where the operation is not truncating. *)
Definition InferRangeHelper (d : defn) (op_kind : Token.Kind) (left_ : defn)
    (is_truncating : bool) (left_range right_range : option Range.t)
    : outcome (Range.t * option bool) :=
  match left_range, right_range with
  | Some l, Some r =>
    if Ranges.IsUnknown left_range || Ranges.IsUnknown right_range
    then Ok (unknown_range, None)
    else
      let* res := Ranges.BinaryOp g op_kind l r (Some left_) in
      ASSERT (negb (Boundary.IsUnknown (min_ res))) ;;
      let* range_size := RepresentationToRangeSize (representation (node g d)) in
      let* fits := Ranges.Fits g res range_size in
      Ok (Ranges.Clamp res range_size, if is_truncating then None else Some (negb fits))
  | _, _ => Ok (unknown_range, None)
  end.

Definition BinaryIntegerOp_InferRange (d : defn) (cls : BinaryClass) (op_kind : Token.Kind)
    (left_ right_ : defn) (is_truncating : bool) : outcome (Range.t * option bool) :=
  match cls with
  | BinarySmiOp | BinaryInt32Op =>
      InferRangeHelper d op_kind left_ is_truncating (GetSmiRange left_) (GetSmiRange right_)
  | BinaryMintOp | ShiftMintOp =>
      InferRangeHelper d op_kind left_ is_truncating
        (range (node g left_)) (range (node g right_))
  end.

(** [if (!Range::IsUnknown(value_range)) *range = *value_range;] *)
Definition copy_range (value_range : option Range.t) : Range.t :=
  match value_range with
  | Some r => if Ranges.IsUnknown value_range then unknown_range else r
  | None => unknown_range
  end.

Definition UnboxInt32_InferRange (value : defn) (value_cid : Cid) : Range.t :=
  if bool_decide (value_cid = kSmiCid) then copy_range (GetSmiRange value)
  else if IsIntegerDefinition value then copy_range (GetIntRange value)
  else Ranges.Full kRangeBoundaryInt32.

Definition uint32_range : Range.t := make (Constant 0) (Constant kMaxUint32).

Definition UnboxUint32_InferRange (value : defn) (value_cid : Cid) : outcome Range.t :=
  let from_range value_range :=
    match value_range with
    | Some r =>
      if Ranges.IsUnknown value_range then Ok unknown_range
      else
        let* positive := Ranges.IsPositive g r in
        Ok (if positive : bool then r else uint32_range)
    | None => Ok unknown_range
    end in
  if bool_decide (value_cid = kSmiCid) then from_range (GetSmiRange value)
  else if IsIntegerDefinition value then from_range (GetIntRange value)
  else Ok uint32_range.

Definition UnboxInt64_InferRange (value : defn) : Range.t :=
  match range (node g value) with
  | Some r => r
  | None =>
    if negb (IsMintDefinition g value) && negb (bool_decide (ToCid (node g value) = kSmiCid))
    then Ranges.Full kRangeBoundaryInt64
    else unknown_range
  end.

Definition UnboxedIntConverter_InferRange (from to : Representation) (value : defn)
    : outcome Range.t :=
  let unboxed r :=
    match r with kUnboxedInt32 | kUnboxedMint | kUnboxedUint32 => true | _ => false end in
  ASSERT unboxed from ;;
  ASSERT unboxed to ;;
  let value_range := range (node g value) in
  match value_range with
  | Some r =>
    if Ranges.IsUnknown value_range then Ok unknown_range
    else Ok match to with
            | kUnboxedUint32 => uint32_range
            | kUnboxedInt32 => Ranges.Clamp r kRangeBoundaryInt32
            | _ => r
            end
  | None => Ok unknown_range
  end.

(** [defn->InferRange(this, &range)] on the unknown range: the range, and the new
    [can_overflow] of a binary operation. *)
Definition InferRange_instr (d : defn) : outcome (Range.t * option bool) :=
  let plain m := let* r := m in Ok (r, None) in
  match instr (node g d) with
  | ConstantInstr value => plain (Constant_InferRange value)
  | ConstraintInstr value constraint => plain (Constraint_InferRange value constraint)
  | PhiInstr inputs => plain (Phi_InferRange d inputs)
  | BinaryIntegerOpInstr cls op_kind left_ right_ _ is_truncating =>
      BinaryIntegerOp_InferRange d cls op_kind left_ right_ is_truncating
  | LoadFieldInstr _ recognized_kind _ _ _ => plain (LoadField_InferRange d recognized_kind)
  | LoadIndexedInstr _ _ class_id => plain (LoadIndexed_InferRange d class_id)
  | LoadCodeUnitsInstr _ _ class_id => plain (LoadCodeUnits_InferRange class_id)
  | IfThenElseInstr _ _ _ if_true if_false =>
      Ok (IfThenElse_InferRange if_true if_false, None)
  | BoxIntegerInstr _ value => Ok (copy_range (range (node g value)), None)
  | UnboxInt32Instr value value_cid _ => Ok (UnboxInt32_InferRange value value_cid, None)
  | UnboxUint32Instr value value_cid => plain (UnboxUint32_InferRange value value_cid)
  | UnboxInt64Instr value => Ok (UnboxInt64_InferRange value, None)
  | UnboxedIntConverterInstr from to value =>
      plain (UnboxedIntConverter_InferRange from to value)
  | UnaryMintOpInstr _ _ | OtherInstr _ _ _ _ _ => plain (Definition_InferRange d)
  end.
End Graph.

(** * The iteration *)
Inductive JoinOperator := NONE | WIDEN | NARROW.

(** [RangeAnalysis::InferRange]: the graph, and whether the range of [d] changed. *)
Definition InferRange (op : JoinOperator) (g : FlowGraph) (d : defn)
    : outcome (FlowGraph * bool) :=
  let* (r, overflow) := InferRange_instr g d in
  let* g :=
    match overflow with
    | Some o => set_can_overflow g d o
    | None => Ok g
    end in
  if Boundary.IsUnknown (min_ r) then Ok (g, false)
  else
    let old := range (node g d) in
    let* r :=
      match old with
      | Some old_range =>
        if negb (Ranges.IsUnknown old) && IsPhi g d then
          let* size := RangeSizeForPhi g d in
          match op with
          | WIDEN =>
              let* lo := WidenMin g old_range r size in
              let* hi := WidenMax g old_range r size in
              Ok (make lo hi)
          | NARROW =>
              let* lo := NarrowMin g old_range r size in
              let* hi := NarrowMax g old_range r size in
              Ok (make lo hi)
          | NONE => Ok r
          end
        else Ok r
      | None => Ok r
      end in
    let* same := Ranges.Equals g r old in
    if same : bool then Ok (g, false) else Ok (set_range g d r, true).

Fixpoint infer_all (op : JoinOperator) (g : FlowGraph) (ds : list defn) (changed : bool)
    : outcome (FlowGraph * bool) :=
  match ds with
  | [] => Ok (g, changed)
  | d :: ds =>
    let* (g, c) := InferRange op g d in
    infer_all op g ds (changed || c)
  end.

(** [Iterate(op, max_iterations)]; the body runs at least once. *)
Fixpoint Iterate (op : JoinOperator) (max_iterations : nat) (g : FlowGraph) (ds : list defn)
    : outcome FlowGraph :=
  let* (g, changed) := infer_all op g ds false in
  match max_iterations with
  | O => Ok g
  | S n =>
    match n with
    | O => Ok g
    | S _ => if changed : bool then Iterate op n g ds else Ok g
    end
  end.

(** The three phases of [InferRanges] over the collected definitions.  The code
    bounds the last two by [kMaxInt32] iterations, here [max_iterations]. *)
Definition InferRanges (max_iterations : nat) (g : FlowGraph) (ds : list defn)
    : outcome FlowGraph :=
  let* g := Iterate NONE 2 g ds in
  let* g := Iterate WIDEN max_iterations g ds in
  Iterate NARROW max_iterations g ds.

(** * Bound checks *)

(** [CheckArrayBoundInstr::IsRedundant] once the index has a range. *)
Definition IsRedundant_ranged (g : FlowGraph) (index : defn) (length : t) : outcome bool :=
  let* m := Ranges.ConstantMin g (range (node g index)) kRangeBoundarySmi in
  let* m := ConstantValue m in
  if m <? 0 then Ok false
  else
    let* max := CanonicalizeBoundary g (FromDefinition g index 0) PositiveInfinity in
    if OverflowedSmi max then Ok false
    else
      let* max_upper := UpperBound g max in
      let* length_lower := LowerBound g length in
      if OverflowedSmi max_upper || OverflowedSmi length_lower then Ok false
      else
        let* u := ConstantValue max_upper in
        let* l := ConstantValue length_lower in
        if u <? l then Ok true
        else
          let* canonical_length := CanonicalizeBoundary g length PositiveInfinity in
          if OverflowedSmi canonical_length then Ok false
          else
            let* r := same_symbol_loop g (CanonicalizeMaxBoundary g)
                        (CanonicalizeMinBoundary g) (S (2 * depth g)) max canonical_length in
            Ok match r with
               | Some (max, canonical_length) => offset max <? offset canonical_length
               | None => false
               end.

(** The whole method: a constant index without a range is given one. *)
Definition IsRedundant (g : FlowGraph) (index : defn) (length : t) : outcome (FlowGraph * bool) :=
  match range (node g index) with
  | Some _ => let* b := IsRedundant_ranged g index length in Ok (g, b)
  | None =>
    match instr (node g index) with
    | ConstantInstr (SmiObject v) =>
        let* r := Constant_InferRange (SmiObject v) in
        let g := set_range g index r in
        let* b := IsRedundant_ranged g index length in Ok (g, b)
    | _ => Ok (g, false)
    end
  end.

(** What becomes of a check: it stays in the graph, it is removed because it is
    redundant, or it is removed by [BoundsCheckGeneralizer::TryGeneralize]. *)
Inductive Fate := Kept | Redundant | Generalized.

#[global] Instance Fate_eq_dec : EqDecision Fate.
Proof. solve_decision. Defined.

Section BoundsChecks.
(** [function.allows_bounds_check_generalization()] and the generalizer, which may
    change the graph, and says whether it has removed the check it is given. *)
Context (try_generalization : bool)
  (TryGeneralize : FlowGraph -> defn * defn -> t -> outcome (FlowGraph * bool)).

(** The loop over [bounds_checks_], a check being the pair of its length and index. *)
Fixpoint eliminate_checks (g : FlowGraph) (checks : list (defn * defn))
    : outcome (FlowGraph * list (defn * defn * Fate)) :=
  match checks with
  | [] => Ok (g, [])
  | (length, index) :: checks =>
    let array_length := FromDefinition g length 0 in
    let* (g, redundant) := IsRedundant g index array_length in
    let* (g, fate) :=
      if redundant : bool then Ok (g, Redundant)
      else if try_generalization then
        let* (g, removed) := TryGeneralize g (length, index) array_length in
        Ok (g, if removed : bool then Generalized else Kept)
      else Ok (g, Kept) in
    let* (g, fates) := eliminate_checks g checks in
    Ok (g, ((length, index), fate) :: fates)
  end.

Definition EliminateRedundantBoundsChecks (FLAG_array_bounds_check_elimination : bool)
    (g : FlowGraph) (checks : list (defn * defn))
    : outcome (FlowGraph * list (defn * defn * Fate)) :=
  if FLAG_array_bounds_check_elimination then eliminate_checks g checks
  else Ok (g, map (fun check => (check, Kept)) checks).
End BoundsChecks.
End RangeAnalysis.
