(* ===== verification/RangeProofs.v ===== *)
(** Soundness of the lattice of the range analysis.

    A graph is read in a valuation [rho] that gives every definition the value it
    has at some point of a run of the optimized code.  [wf] is what the analysis
    relies on: symbols are smis, they are not constants, and the definitions a
    symbol leads to, by ranges, constraints and additions of constants, come to an
    end.  Under [wf] every operation returns; under a valuation that agrees with the
    graph, the boundaries it returns bound the value. *)
From stdpp Require Import base list numbers.
From Stdlib Require Import ZArith Lia.
From S2P Require Import Prelude Utils UtilsProofs Locations FlowGraph Ranges.
Import RangeBoundary.
Import Range(min_, max_, make).
Import Boundary.
#[local] Open Scope Z_scope.

(** How the definitions of a graph are ordered, which of them the run has evaluated,
    and which hold a smi. *)
Record Layout := { rank : defn -> nat; live : defn -> Prop; smi_defn : defn -> Prop }.

Section Soundness.
Context `{Word}.

Definition smi (x : Z) : Prop := kSmiMin <= x <= kSmiMax.

Lemma smi_bounds : kMinInt64 <= kSmiMin /\ kSmiMin < 0 < kSmiMax /\ kSmiMax <= kMaxInt64.
Proof.
  unfold kSmiMin, kSmiMax, kSmiBits, kMinInt64, kMaxInt64.
  destruct word_width as [-> | ->]; vm_compute; intuition congruence.
Qed.

(** A value of a type, and the bounds of the type. *)
Definition in_size (size : RangeSize) (x : Z) : Prop := min_value size <= x <= max_value size.

Lemma size_bounds size :
  kMinInt64 <= min_value size /\ min_value size < 0 < max_value size
  /\ max_value size <= kMaxInt64.
Proof. destruct size; [apply smi_bounds | vm_compute; intuition congruence ..]. Qed.

Lemma in_s_64 x : in_s 64 x <-> kMinInt64 <= x <= kMaxInt64.
Proof. unfold in_s, kMinInt64, kMaxInt64; lia. Qed.

Section Graph.
Context (g : FlowGraph) (L : Layout).

(** A boundary whose symbol is a smi of rank below [n], and one whose symbol has been
    evaluated. *)
Definition bwf (n : nat) (b : t) : Prop :=
  match b with
  | Unknown => False
  | Symbol s o =>
      smi_defn L s /\ FlowGraph.IsConstant g s = false /\ in_s 64 o /\ (rank L s < n)%nat
  | Constant v => in_s 64 v
  | _ => True
  end.

Definition blive (b : t) : Prop := match b with Symbol s _ => live L s | _ => True end.

Definition finite (b : t) : Prop := IsInfinity b = false.

Definition rwf (n : nat) (r : Range.t) : Prop := bwf n (min_ r) /\ bwf n (max_ r).
Definition rlive (r : Range.t) : Prop := blive (min_ r) /\ blive (max_ r).

(** An operand that a symbol may be rewritten into: a smi of lower rank, evaluated
    before [d]; if it is a constant then a smi constant. *)
Definition operand (d v : defn) : Prop :=
  smi_defn L v /\ (rank L v < rank L d)%nat /\ (live L d -> live L v)
  /\ (FlowGraph.IsConstant g v = true ->
      exists c, instr (node g v) = ConstantInstr (SmiObject c) /\ smi c).

Record wf : Prop := {
  wf_rank d : (rank L d <= length (definitions g))%nat;
  wf_range d r : range (node g d) = Some r ->
    rwf (rank L d) r /\ Ranges.IsFinite r = true /\ (live L d -> rlive r);
  wf_constraint d v c :
    instr (node g d) = ConstraintInstr v c ->
    smi_defn L d /\ operand d v /\ FlowGraph.IsConstant g v = false;
  wf_smi_op d op l r o tr :
    instr (node g d) = BinaryIntegerOpInstr BinarySmiOp op l r o tr ->
    operand d l /\ operand d r /\ (FlowGraph.IsConstant g l && FlowGraph.IsConstant g r = false);
}.

(** The valuation of a run: constants, constraints and additions have the value the
    instruction gives them, instructions that CSE may merge agree, and the ranges of
    the graph hold. *)
Definition ge_bound (rho : defn -> Z) (b : t) (x : Z) : Prop :=
  match b with
  | PositiveInfinity => kMaxInt64 < x
  | Symbol s o => rho s + o <= x
  | Constant v => v <= x
  | _ => True
  end.

Definition le_bound (rho : defn -> Z) (b : t) (x : Z) : Prop :=
  match b with
  | NegativeInfinity => x < kMinInt64
  | Symbol s o => x <= rho s + o
  | Constant v => x <= v
  | _ => True
  end.

Definition contains (rho : defn -> Z) (r : Range.t) (x : Z) : Prop :=
  ge_bound rho (min_ r) x /\ le_bound rho (max_ r) x.

Record agrees (rho : defn -> Z) : Prop := {
  agrees_smi d : live L d -> smi_defn L d -> smi (rho d);
  agrees_constant d v :
    live L d -> instr (node g d) = ConstantInstr (SmiObject v) -> rho d = v;
  agrees_constraint d v c : live L d -> instr (node g d) = ConstraintInstr v c -> rho d = rho v;
  agrees_add d l r o tr :
    live L d -> instr (node g d) = BinaryIntegerOpInstr BinarySmiOp Token.kADD l r o tr ->
    rho d = rho l + rho r;
  agrees_sub d l r o tr :
    live L d -> instr (node g d) = BinaryIntegerOpInstr BinarySmiOp Token.kSUB l r o tr ->
    rho d = rho l - rho r;
  agrees_cse a b :
    live L a -> live L b -> AllowsCSE g a = true -> Dependencies_IsNone g a = true ->
    AllowsCSE g b = true -> Dependencies_IsNone g b = true -> FlowGraph.Equals g a b = true ->
    rho a = rho b;
  agrees_range d r : live L d -> range (node g d) = Some r -> contains rho r (rho d);
}.

(** [c] is a weaker lower, or upper, boundary than [b]. *)
Definition weaker_ge (b c : t) : Prop :=
  blive b -> blive c /\ forall rho x, agrees rho -> ge_bound rho b x -> ge_bound rho c x.

Definition weaker_le (b c : t) : Prop :=
  blive b -> blive c /\ forall rho x, agrees rho -> le_bound rho b x -> le_bound rho c x.

#[export] Instance weaker_ge_preorder : PreOrder weaker_ge.
Proof.
  split; [intros b ?; auto |]; intros a b c Hab Hbc Ha; destruct (Hab Ha), Hbc; auto.
Qed.

#[export] Instance weaker_le_preorder : PreOrder weaker_le.
Proof.
  split; [intros b ?; auto |]; intros a b c Hab Hbc Ha; destruct (Hab Ha), Hbc; auto.
Qed.

Lemma bwf_mono n m b : (n <= m)%nat -> bwf n b -> bwf m b.
Proof. destruct b; simpl; intuition lia. Qed.

Lemma rwf_mono n m r : (n <= m)%nat -> rwf n r -> rwf m r.
Proof. intros Hn [? ?]; split; eapply bwf_mono; eauto. Qed.

(** ** Clamping and constants *)
Lemma Clamp_ge rho b size x :
  in_size size x -> ge_bound rho b x -> ge_bound rho (Clamp b size) x.
Proof.
  pose proof (size_bounds size); unfold in_size; destruct b; simpl; try lia; intros.
  repeat case_match; simpl; lia.
Qed.

Lemma Clamp_le rho b size x :
  in_size size x -> le_bound rho b x -> le_bound rho (Clamp b size) x.
Proof.
  pose proof (size_bounds size); unfold in_size; destruct b; simpl; try lia; intros.
  repeat case_match; simpl; lia.
Qed.

Lemma Clamp_blive b size : blive b -> blive (Clamp b size).
Proof. destruct b; simpl; auto; repeat case_match; done. Qed.

Lemma Clamp_bwf n b size : bwf n b -> bwf n (Clamp b size).
Proof.
  pose proof (size_bounds size); destruct b; simpl; auto.
  - intros _; apply in_s_64; lia.
  - intros _; apply in_s_64; lia.
  - repeat case_match; simpl; rewrite ?in_s_64; lia.
Qed.

(** What [LowerBound] and [UpperBound] return: an infinity or an [int64_t]. *)
Definition bounding (inf b : t) : Prop := b = inf \/ exists v, b = Constant v /\ in_s 64 v.
Abbreviation lower := (bounding NegativeInfinity).
Abbreviation upper := (bounding PositiveInfinity).

Lemma Clamp_bounding inf b size :
  IsInfinity inf = true -> bounding inf b ->
  exists v, Clamp b size = Constant v /\ in_s 64 v /\ in_size size v.
Proof.
  unfold bounding, in_size; pose proof (size_bounds size); setoid_rewrite in_s_64.
  intros Hinf [-> | (v & -> & ?)]; simpl.
  - destruct inf; try done; simpl; eexists; (split; [done | lia]).
  - repeat case_match; eexists; (split; [done | lia]).
Qed.

Lemma Add_constants x y overflow :
  in_s 64 x -> in_s 64 y ->
  Add (Constant x) (Constant y) overflow
  = Ok (if bool_decide (in_s 64 (x + y)) then Constant (x + y) else overflow).
Proof.
  intros Hx Hy; unfold Add; simpl; rewrite WillAddOverflow_spec by done.
  case_bool_decide; simpl; [rewrite to_s_id by (lia || done) |]; done.
Qed.

Lemma Sub_constants x y overflow :
  in_s 64 x -> in_s 64 y ->
  Sub (Constant x) (Constant y) overflow
  = Ok (if bool_decide (in_s 64 (x - y)) then Constant (x - y) else overflow).
Proof.
  intros Hx Hy; unfold Sub; simpl; rewrite WillSubOverflow_spec by done.
  case_bool_decide; simpl; [rewrite to_s_id by (lia || done) |]; done.
Qed.

Section WellFormed.
Context (WF : wf).

(** ** Bounds of a boundary *)
Lemma LowerBound_aux fuel n b :
  bwf n b -> (n <= fuel)%nat ->
  returns (LowerBound_ g (S fuel) b) (fun l => lower l /\ weaker_ge b l).
Proof.
  revert n b; induction fuel as [| fuel IH]; intros n b Hb Hn; destruct b as [| | | s o | v].
  all: try done; try (apply returns_Ok; split; [unfold bounding; eauto | done]).
  { destruct Hb as (_ & _ & _ & ?); lia. }
  destruct Hb as (Hsmi & Hc & Ho & Hr).
  change (returns (let* m := ConstantMin_ (LowerBound_ g (S fuel)) (range (node g s))
                               kRangeBoundarySmi in
                   Add m (Constant o) NegativeInfinity)
            (fun l => lower l /\ weaker_ge (Symbol s o) l)).
  apply (returns_bind _ _ (fun m => exists v, m = Constant v /\ in_s 64 v /\
           (live L s -> forall rho, agrees rho -> v <= rho s))).
  - unfold ConstantMin_; destruct (range (node g s)) as [r |] eqn:Hrange; cycle 1.
    { apply returns_Ok; eexists; split; [done |].
      pose proof smi_bounds; split; [apply in_s_64; simpl; lia |].
      intros Hl rho AG; apply (agrees_smi _ AG s); done. }
    destruct (wf_range WF _ _ Hrange) as (Hwf & _ & Hlive).
    call IH as l (Hl & Hw); [apply Hwf | lia |].
    apply returns_Ok.
    destruct (Clamp_bounding NegativeInfinity l kRangeBoundarySmi eq_refl Hl) as (v & Hv & ? & ?).
    exists v; split_and!; [done.. |]; intros Hs rho AG.
    assert (ge_bound rho (Clamp l kRangeBoundarySmi) (rho s)) as Hge.
    { apply Clamp_ge; [apply (agrees_smi _ AG); done |].
      apply Hw; [apply Hlive, Hs | done | apply (agrees_range _ AG _ _ Hs Hrange)]. }
    rewrite Hv in Hge; done.
  - intros m (v & -> & Hv & Hle); rewrite Add_constants by done.
    apply returns_Ok; case_bool_decide; (split; [unfold bounding; eauto |]); intros Hs; [| done].
    split; [done |]; simpl; intros rho x AG Hx; pose proof (Hle Hs rho AG); lia.
Qed.

Lemma UpperBound_aux fuel n b :
  bwf n b -> (n <= fuel)%nat ->
  returns (UpperBound_ g (S fuel) b) (fun l => upper l /\ weaker_le b l).
Proof.
  revert n b; induction fuel as [| fuel IH]; intros n b Hb Hn; destruct b as [| | | s o | v].
  all: try done; try (apply returns_Ok; split; [unfold bounding; eauto | done]).
  { destruct Hb as (_ & _ & _ & ?); lia. }
  destruct Hb as (Hsmi & Hc & Ho & Hr).
  change (returns (let* m := ConstantMax_ (UpperBound_ g (S fuel)) (range (node g s))
                               kRangeBoundarySmi in
                   Add m (Constant o) PositiveInfinity)
            (fun l => upper l /\ weaker_le (Symbol s o) l)).
  apply (returns_bind _ _ (fun m => exists v, m = Constant v /\ in_s 64 v /\
           (live L s -> forall rho, agrees rho -> rho s <= v))).
  - unfold ConstantMax_; destruct (range (node g s)) as [r |] eqn:Hrange; cycle 1.
    { apply returns_Ok; eexists; split; [done |].
      pose proof smi_bounds; split; [apply in_s_64; simpl; lia |].
      intros Hl rho AG; apply (agrees_smi _ AG s); done. }
    destruct (wf_range WF _ _ Hrange) as (Hwf & _ & Hlive).
    call IH as l (Hl & Hw); [apply Hwf | lia |].
    apply returns_Ok.
    destruct (Clamp_bounding PositiveInfinity l kRangeBoundarySmi eq_refl Hl) as (v & Hv & ? & ?).
    exists v; split_and!; [done.. |]; intros Hs rho AG.
    assert (le_bound rho (Clamp l kRangeBoundarySmi) (rho s)) as Hle'.
    { apply Clamp_le; [apply (agrees_smi _ AG); done |].
      apply Hw; [apply Hlive, Hs | done | apply (agrees_range _ AG _ _ Hs Hrange)]. }
    rewrite Hv in Hle'; done.
  - intros m (v & -> & Hv & Hle); rewrite Add_constants by done.
    apply returns_Ok; case_bool_decide; (split; [unfold bounding; eauto |]); intros Hs; [| done].
    split; [done |]; simpl; intros rho x AG Hx; pose proof (Hle Hs rho AG); lia.
Qed.

(** Boundaries of any definition, and those a client may write down. *)
Abbreviation bok := (bwf (depth g)).
Abbreviation rok := (rwf (depth g)).

Lemma LowerBound_ok b : bok b -> returns (LowerBound g b) (fun l => lower l /\ weaker_ge b l).
Proof. intros; eapply LowerBound_aux; eauto. Qed.

Lemma UpperBound_ok b : bok b -> returns (UpperBound g b) (fun u => upper u /\ weaker_le b u).
Proof. intros; eapply UpperBound_aux; eauto. Qed.

(** The bounds at a given size: integers of the size that bound what the boundary
    bounds, for values of the size. *)
Lemma LowerBound_size_ok b size :
  bok b ->
  returns (LowerBound_size g b size) (fun v => in_size size v /\ in_s 64 v /\
    (blive b -> forall rho x, agrees rho -> in_size size x -> ge_bound rho b x -> v <= x)).
Proof.
  intros Hb; unfold LowerBound_size; call LowerBound_ok as l (Hl & Hw); [done |].
  destruct (Clamp_bounding NegativeInfinity l size eq_refl Hl) as (v & Hv & ? & ?).
  rewrite Hv; apply returns_Ok; split_and!; [done.. |]; intros Hs rho x AG Hx Hge.
  assert (ge_bound rho (Clamp l size) x) as Hge' by (apply Clamp_ge, Hw; done).
  rewrite Hv in Hge'; done.
Qed.

Lemma UpperBound_size_ok b size :
  bok b ->
  returns (UpperBound_size g b size) (fun v => in_size size v /\ in_s 64 v /\
    (blive b -> forall rho x, agrees rho -> in_size size x -> le_bound rho b x -> x <= v)).
Proof.
  intros Hb; unfold UpperBound_size; call UpperBound_ok as l (Hl & Hw); [done |].
  destruct (Clamp_bounding PositiveInfinity l size eq_refl Hl) as (v & Hv & ? & ?).
  rewrite Hv; apply returns_Ok; split_and!; [done.. |]; intros Hs rho x AG Hx Hle.
  assert (le_bound rho (Clamp l size) x) as Hle' by (apply Clamp_le, Hw; done).
  rewrite Hv in Hle'; done.
Qed.

Lemma Overflowed_ok b size inf :
  IsInfinity inf = true -> bounding inf b ->
  returns (Overflowed g b size) (fun o =>
    o = false -> exists v, b = Constant v /\ in_size size v).
Proof.
  intros Hinf Hb; unfold Overflowed; apply returns_assert.
  { destruct Hb as [-> | (v & -> & ?)]; [destruct inf; done | done]. }
  destruct Hb as [-> | (v & -> & ?)].
  - destruct inf; try done; simpl; apply returns_Ok; done.
  - destruct (Clamp_bounding inf (Constant v) size Hinf) as (c & -> & _ & ?).
    { right; eauto. }
    apply returns_Ok; cbv beta; rewrite negb_false_iff, Z.eqb_eq; intros ->; eauto.
Qed.

(** ** Symbols *)
Lemma UnwrapConstraint_aux fuel d :
  (rank L d < fuel)%nat ->
  returns (UnwrapConstraint_loop g fuel d) (fun u =>
    (rank L u <= rank L d)%nat /\ (live L d -> live L u) /\ (smi_defn L d -> smi_defn L u)
    /\ (FlowGraph.IsConstant g d = false -> FlowGraph.IsConstant g u = false)
    /\ forall rho, agrees rho -> live L d -> rho u = rho d).
Proof.
  revert d; induction fuel as [| fuel IH]; intros d Hd; [lia |]; simpl.
  destruct (instr (node g d)) eqn:Hi; try (apply returns_Ok; split_and!; auto; done).
  destruct (wf_constraint WF _ _ _ Hi) as (_ & (Hsmi & Hr & Hl & _) & Hc).
  eapply returns_mono; [apply IH; lia |]; simpl; intros u (? & ? & ? & ? & Hrho).
  split_and!; auto with lia; intros rho AG Hd'.
  rewrite (agrees_constraint _ AG _ _ _ Hd' Hi); auto.
Qed.

Lemma UnwrapConstraint_ok d :
  returns (UnwrapConstraint g d) (fun u =>
    (rank L u <= rank L d)%nat /\ (live L d -> live L u) /\ (smi_defn L d -> smi_defn L u)
    /\ (FlowGraph.IsConstant g d = false -> FlowGraph.IsConstant g u = false)
    /\ forall rho, agrees rho -> live L d -> rho u = rho d).
Proof. apply UnwrapConstraint_aux; unfold depth; pose proof (wf_rank WF d); lia. Qed.

Lemma AreEqualDefinitions_ok a b :
  returns (AreEqualDefinitions g a b) (fun e =>
    e = true -> live L a -> live L b -> forall rho, agrees rho -> rho a = rho b).
Proof.
  unfold AreEqualDefinitions.
  call UnwrapConstraint_ok as a' (_ & Hla & _ & _ & Ha).
  call UnwrapConstraint_ok as b' (_ & Hlb & _ & _ & Hb).
  apply returns_Ok; intros He La Lb rho AG; rewrite <- Ha, <- Hb by done.
  apply orb_true_iff in He as [He | He]; [apply Nat.eqb_eq in He; subst; done |].
  rewrite !andb_true_iff in He; destruct He as ((((? & ?) & ?) & ?) & ?).
  apply (agrees_cse _ AG); auto.
Qed.

Lemma DependOnSameSymbol_ok a b :
  returns (DependOnSameSymbol g a b) (fun e => e = true ->
    exists s o s' o', a = Symbol s o /\ b = Symbol s' o' /\
    (live L s -> live L s' -> forall rho, agrees rho -> rho s = rho s')).
Proof.
  destruct a, b; try (apply returns_Ok; done).
  eapply returns_mono; [apply AreEqualDefinitions_ok |]; simpl; intros e He ->; eauto 10.
Qed.

Lemma FromDefinition_symbol d o :
  FlowGraph.IsConstant g d = false -> FromDefinition g d o = Symbol d o.
Proof.
  unfold FlowGraph.IsConstant, FromDefinition; destruct (instr (node g d)); done.
Qed.

(** ** Canonicalization *)
Lemma smi_constant_ok d c :
  instr (node g d) = ConstantInstr (SmiObject c) -> smi_constant g d = Ok c.
Proof. unfold smi_constant; intros ->; done. Qed.

Lemma smi_in_s x : smi x -> in_s 64 x.
Proof. pose proof smi_bounds; unfold smi; rewrite in_s_64; lia. Qed.

Definition canonical (d : defn) (o : Z) (r : option (defn * Z)) : Prop :=
  match r with
  | None => True
  | Some (s, o') =>
      (rank L s <= rank L d)%nat /\ smi_defn L s /\ FlowGraph.IsConstant g s = false
      /\ in_s 64 o' /\ (live L d -> live L s)
      /\ (forall rho, agrees rho -> live L d -> rho s + o' = rho d + o)
  end.

Lemma CanonicalizeBoundary_loop_ok fuel d o :
  (rank L d < fuel)%nat -> smi_defn L d -> FlowGraph.IsConstant g d = false -> in_s 64 o ->
  returns (CanonicalizeBoundary_loop g fuel d o) (canonical d o).
Proof.
  revert d o; induction fuel as [| fuel IH]; intros d o Hd Hsmi Hc Ho; [lia |].
  assert (forall d' o', (rank L d' < rank L d)%nat -> smi_defn L d' ->
    FlowGraph.IsConstant g d' = false -> in_s 64 o' -> (live L d -> live L d') ->
    (forall rho, agrees rho -> live L d -> rho d' + o' = rho d + o) ->
    returns (CanonicalizeBoundary_loop g fuel d' o') (canonical d o)) as Hstep.
  { intros d' o' Hr Hs Hc' Ho' Hl Hrho; eapply returns_mono; [apply IH; auto with lia |].
    intros [[s o''] |]; [| done]; intros (? & ? & ? & ? & ? & Hv); simpl.
    split_and!; auto with lia; intros rho AG Hl'; rewrite Hv by auto; auto. }
  assert (returns (Ok (Some (d, o))) (canonical d o)) as Hend.
  { apply returns_Ok; simpl; auto 10. }
  simpl; destruct (instr (node g d)) as [| v c | | [] k l r ov tr | | | | | | | | | | |] eqn:Hi;
    try done; try (destruct k; done).
  - destruct (wf_constraint WF _ _ _ Hi) as (_ & (? & ? & ? & _) & ?).
    apply Hstep; auto; intros rho AG Hl; rewrite (agrees_constraint _ AG _ _ _ Hl Hi); done.
  - destruct (wf_smi_op WF _ _ _ _ _ _ Hi) as
      ((Hl1 & Hl2 & Hl3 & Hl4) & (Hr1 & Hr2 & Hr3 & Hr4) & Hlr).
    destruct k; try done.
    + destruct (FlowGraph.IsConstant g r) eqn:Hcr;
        [| destruct (FlowGraph.IsConstant g l) eqn:Hcl; [| done]].
      * destruct Hr4 as (c & Hic & Hc'); [done |]; rewrite (smi_constant_ok _ _ Hic); simpl.
        rewrite WillAddOverflow_spec by auto using smi_in_s; case_bool_decide; simpl; [| apply returns_Ok; done].
        rewrite to_s_id by (lia || done); rewrite andb_true_r in Hlr.
        apply Hstep; auto; intros rho AG Hl; rewrite (agrees_add _ AG _ _ _ _ _ Hl Hi).
        rewrite (agrees_constant _ AG _ _ (Hr3 Hl) Hic); lia.
      * destruct Hl4 as (c & Hic & Hc'); [done |]; rewrite (smi_constant_ok _ _ Hic); simpl.
        rewrite WillAddOverflow_spec by auto using smi_in_s; case_bool_decide; simpl; [| apply returns_Ok; done].
        rewrite to_s_id by (lia || done).
        apply Hstep; auto; intros rho AG Hl; rewrite (agrees_add _ AG _ _ _ _ _ Hl Hi).
        rewrite (agrees_constant _ AG _ _ (Hl3 Hl) Hic); lia.
    + destruct (FlowGraph.IsConstant g r) eqn:Hcr; [| done].
      destruct Hr4 as (c & Hic & Hc'); [done |]; rewrite (smi_constant_ok _ _ Hic); simpl.
      rewrite WillSubOverflow_spec by auto using smi_in_s; case_bool_decide; simpl; [| apply returns_Ok; done].
      rewrite to_s_id by (lia || done); rewrite andb_true_r in Hlr.
      apply Hstep; auto; intros rho AG Hl; rewrite (agrees_sub _ AG _ _ _ _ _ Hl Hi).
      rewrite (agrees_constant _ AG _ _ (Hr3 Hl) Hic); lia.
Qed.

(** [c] bounds the same values as [b], on both sides. *)
Definition equivalent (b c : t) : Prop :=
  blive b -> blive c /\ forall rho x, agrees rho ->
    (ge_bound rho b x <-> ge_bound rho c x) /\ (le_bound rho b x <-> le_bound rho c x).

Lemma equivalent_ge b c : equivalent b c -> weaker_ge b c.
Proof. intros H1 H2; destruct (H1 H2) as [? H3]; split; [done |]; intros; apply H3; done. Qed.

Lemma equivalent_le b c : equivalent b c -> weaker_le b c.
Proof. intros H1 H2; destruct (H1 H2) as [? H3]; split; [done |]; intros; apply H3; done. Qed.

Lemma CanonicalizeBoundary_ok n b overflow :
  bwf n b ->
  returns (CanonicalizeBoundary g b overflow) (fun c => c = overflow \/ bwf n c /\ equivalent b c).
Proof.
  intros Hb; destruct b as [| | | s o | v]; try done.
  all: try (apply returns_Ok; right; split; [done | intros ?; done]).
  destruct Hb as (Hsmi & Hc & Ho & Hr).
  unfold CanonicalizeBoundary; cbn [IsConstant IsInfinity IsNegativeInfinity IsPositiveInfinity orb symbol obind].
  call CanonicalizeBoundary_loop_ok as [[s' o'] |] Hcan; try done.
  { unfold depth; pose proof (wf_rank WF s); lia. }
  - destruct Hcan as (? & ? & Hc' & ? & ? & Hv); apply returns_Ok; right.
    rewrite FromDefinition_symbol by done; simpl; split; [split_and!; auto with lia |].
    intros Hl; simpl in Hl; split; [simpl; auto |]; intros rho x AG.
    specialize (Hv rho AG Hl); simpl in *; lia.
  - apply returns_Ok; auto.
Qed.

(** A step of [CanonicalizeMaxBoundary] or [CanonicalizeMinBoundary]: the symbol goes
    down in rank. *)
Definition rewrites (R : t -> t -> Prop) (a : t) (r : option t) : Prop :=
  match r with
  | None => True
  | Some c => exists s o, a = Symbol s o /\ bwf (rank L s) c /\ R a c
  end.

Lemma Symbol_sum s o s' o' :
  in_s 64 o -> bwf (rank L s) (Symbol s' o') -> in_s 64 (o' + o) ->
  bwf (rank L s) (FromDefinition g s' (int64 (o' + o)))
  /\ FromDefinition g s' (int64 (o' + o)) = Symbol s' (o' + o).
Proof.
  intros Ho (? & Hc & ? & ?) Hs; rewrite to_s_id, FromDefinition_symbol by (lia || done).
  simpl; auto.
Qed.

Lemma CanonicalizeMaxBoundary_ok n a :
  bwf n a -> returns (CanonicalizeMaxBoundary g a) (rewrites weaker_le a).
Proof.
  destruct a as [| | | s o | v]; try (intros; apply returns_Ok; done); simpl; intros (_ & _ & Ho & _).
  destruct (range (node g s)) as [[lo [| | | s' o' | v]] |] eqn:Hrange; try (apply returns_Ok; done).
  destruct (wf_range WF _ _ Hrange) as ([_ Hb] & _ & Hlive); simpl in Hb.
  rewrite WillAddOverflow_spec by (done || apply Hb); case_bool_decide as Hs; simpl; cycle 1.
  { apply returns_Ok; exists s, o; split_and!; done. }
  destruct (Symbol_sum s o s' o' Ho Hb Hs) as [Hb' Heq].
  call CanonicalizeBoundary_ok as c Hc; [apply Hb' |].
  apply returns_Ok; exists s, o; split; [done |]; destruct Hc as [-> | [Hc He]]; [done |].
  split; [done |]; transitivity (FromDefinition g s' (int64 (o' + o))); [| apply equivalent_le, He]; rewrite Heq.
  intros Hl; split; [apply Hlive, Hl |]; simpl; intros rho x AG Hx.
  destruct (agrees_range _ AG _ _ Hl Hrange) as [_ Hle]; simpl in Hle; lia.
Qed.

Lemma CanonicalizeMinBoundary_ok n a :
  bwf n a -> returns (CanonicalizeMinBoundary g a) (rewrites weaker_ge a).
Proof.
  destruct a as [| | | s o | v]; try (intros; apply returns_Ok; done); simpl; intros (_ & _ & Ho & _).
  destruct (range (node g s)) as [[[| | | s' o' | v] hi] |] eqn:Hrange; try (apply returns_Ok; done).
  destruct (wf_range WF _ _ Hrange) as ([Hb _] & _ & Hlive); simpl in Hb.
  rewrite WillAddOverflow_spec by (done || apply Hb); case_bool_decide as Hs; simpl; cycle 1.
  { apply returns_Ok; exists s, o; split_and!; done. }
  destruct (Symbol_sum s o s' o' Ho Hb Hs) as [Hb' Heq].
  call CanonicalizeBoundary_ok as c Hc; [apply Hb' |].
  apply returns_Ok; exists s, o; split; [done |]; destruct Hc as [-> | [Hc He]]; [done |].
  split; [done |]; transitivity (FromDefinition g s' (int64 (o' + o))); [| apply equivalent_ge, He]; rewrite Heq.
  intros Hl; split; [apply Hlive, Hl |]; simpl; intros rho x AG Hx.
  destruct (agrees_range _ AG _ _ Hl Hrange) as [Hge _]; simpl in Hge; lia.
Qed.

(** The loop ends, because every step lowers the rank of one of the symbols. *)
Definition measure (b : t) : nat := match b with Symbol s _ => S (rank L s) | _ => O end.

Lemma bwf_measure n b : bwf n b -> (measure b <= n)%nat.
Proof. destruct b; simpl; lia. Qed.

Definition same_symbol (a b : t) : Prop :=
  exists s o s' o', a = Symbol s o /\ b = Symbol s' o' /\
    (live L s -> live L s' -> forall rho, agrees rho -> rho s = rho s').

Lemma same_symbol_loop_ok (opa opb : t -> outcome (option t)) (Ra Rb : t -> t -> Prop)
    `{!PreOrder Ra, !PreOrder Rb} n fuel a b :
  (forall a, bwf n a -> returns (opa a) (rewrites Ra a)) ->
  (forall b, bwf n b -> returns (opb b) (rewrites Rb b)) ->
  bwf n a -> bwf n b -> (measure a + measure b < fuel)%nat ->
  returns (same_symbol_loop g opa opb fuel a b) (fun r =>
    forall a' b', r = Some (a', b') ->
      bwf n a' /\ bwf n b' /\ Ra a a' /\ Rb b b' /\ same_symbol a' b').
Proof.
  intros Ha Hb; revert a b; induction fuel as [| fuel IH]; intros a b Wa Wb Hf; [lia |]; simpl.
  call DependOnSameSymbol_ok as e He; destruct e.
  { apply returns_Ok; intros a' b' [= <- <-].
    split_and!; [done | done | reflexivity | reflexivity | apply He; done]. }
  call Ha as r Hr; [done |]; destruct r as [a' |].
  - destruct Hr as (s & o & -> & Wa' & Ra'); pose proof (bwf_measure _ _ Wa'); simpl in *.
    eapply returns_mono; [apply IH; [eapply bwf_mono, Wa'; lia | done | simpl; lia] |].
    simpl; intros r Hr a'' b'' Heq; destruct (Hr _ _ Heq) as (? & ? & ? & ? & ?).
    split_and!; auto; etransitivity; eauto.
  - call Hb as r' Hr'; [done |]; destruct r' as [b' |]; [| apply returns_Ok; done].
    destruct Hr' as (s & o & -> & Wb' & Rb'); pose proof (bwf_measure _ _ Wb'); simpl in *.
    eapply returns_mono; [apply IH; [done | eapply bwf_mono, Wb'; lia | simpl; lia] |].
    simpl; intros r Hr'' a'' b'' Heq; destruct (Hr'' _ _ Heq) as (? & ? & ? & ? & ?).
    split_and!; auto; etransitivity; eauto.
Qed.

Lemma CanonicalizeForComparison_ok op (R : t -> t -> Prop) `{!PreOrder R} n a b :
  (n <= depth g)%nat -> (forall a, bwf n a -> returns (op a) (rewrites R a)) ->
  bwf n a -> bwf n b ->
  returns (CanonicalizeForComparison g a b op) (fun r =>
    forall a' b', r = Some (a', b') ->
      bwf n a' /\ bwf n b' /\ R a a' /\ R b b' /\ same_symbol a' b').
Proof.
  intros Hn Hop Ha Hb; unfold CanonicalizeForComparison; case_match; [apply returns_Ok; done |].
  apply same_symbol_loop_ok; auto.
  pose proof (bwf_measure _ _ Ha); pose proof (bwf_measure _ _ Hb); lia.
Qed.

Lemma Equals_ok a b :
  returns (Equals g a b) (fun e => e = true -> blive a -> blive b ->
    forall rho x, agrees rho ->
      (ge_bound rho a x <-> ge_bound rho b x) /\ (le_bound rho a x <-> le_bound rho b x)).
Proof.
  destruct a as [| | | s o | v], b as [| | | s' o' | v']; simpl; try (apply returns_Ok; done).
  - destruct (Z.eqb_spec o o') as [-> |]; [| apply returns_Ok; done].
    eapply returns_mono; [apply AreEqualDefinitions_ok |]; simpl.
    intros e He -> Hl Hl' rho x AG; rewrite (He eq_refl Hl Hl' rho AG); done.
  - apply returns_Ok; rewrite Z.eqb_eq; intros ->; done.
Qed.

(** ** Intersections: one of the two boundaries, or a weaker one *)
Lemma IntersectionMin_ok n a b :
  (n <= depth g)%nat -> bwf n a -> bwf n b ->
  IsPositiveInfinity a = false -> IsPositiveInfinity b = false ->
  returns (IntersectionMin g a b) (fun c =>
    bwf n c /\ (finite a -> finite b -> finite c) /\ (weaker_ge a c \/ weaker_ge b c)).
Proof.
  intros Hn Ha Hb Ia Ib; unfold IntersectionMin; rewrite Ia, Ib; simpl.
  assert (forall b, bwf n b -> IsUnknown b = false) as Hk by (intros []; done).
  assert (forall b, bwf n b -> bok b) as Hok by eauto using bwf_mono.
  rewrite !Hk by done; simpl.
  assert (forall P, returns (Ok a) (fun c => bwf n c /\ (finite a -> finite b -> finite c)
    /\ (weaker_ge a c \/ P c))) as HA.
  { intros P; apply returns_Ok; split_and!; [done | auto |]; left; reflexivity. }
  assert (forall P, returns (Ok b) (fun c => bwf n c /\ (finite a -> finite b -> finite c)
    /\ (P c \/ weaker_ge b c))) as HB.
  { intros P; apply returns_Ok; split_and!; [done | auto |]; right; reflexivity. }
  call Equals_ok as e _; destruct e; [auto |].
  destruct (IsMinimumOrBelow a _); [auto |]; destruct (IsMinimumOrBelow b _); [auto |].
  call (CanonicalizeForComparison_ok _ weaker_ge n) as r Hr;
    [done | apply CanonicalizeMinBoundary_ok | done | done |].
  destruct r as [[a' b'] |].
  - destruct (Hr _ _ eq_refl) as (? & ? & ? & ? & s & o & s' & o' & -> & -> & _).
    case_match; apply returns_Ok; (split_and!; [done | done | auto]).
  - call LowerBound_size_ok as x _; [auto |]; call LowerBound_size_ok as y _; [auto |].
    case_match; auto.
Qed.

Lemma IntersectionMax_ok n a b :
  (n <= depth g)%nat -> bwf n a -> bwf n b ->
  IsNegativeInfinity a = false -> IsNegativeInfinity b = false ->
  returns (IntersectionMax g a b) (fun c =>
    bwf n c /\ (finite a -> finite b -> finite c) /\ (weaker_le a c \/ weaker_le b c)).
Proof.
  intros Hn Ha Hb Ia Ib; unfold IntersectionMax; rewrite Ia, Ib; simpl.
  assert (forall b, bwf n b -> IsUnknown b = false) as Hk by (intros []; done).
  assert (forall b, bwf n b -> bok b) as Hok by eauto using bwf_mono.
  rewrite !Hk by done; simpl.
  assert (forall P, returns (Ok a) (fun c => bwf n c /\ (finite a -> finite b -> finite c)
    /\ (weaker_le a c \/ P c))) as HA.
  { intros P; apply returns_Ok; split_and!; [done | auto |]; left; reflexivity. }
  assert (forall P, returns (Ok b) (fun c => bwf n c /\ (finite a -> finite b -> finite c)
    /\ (P c \/ weaker_le b c))) as HB.
  { intros P; apply returns_Ok; split_and!; [done | auto |]; right; reflexivity. }
  call Equals_ok as e _; destruct e; [auto |].
  destruct (IsMaximumOrAbove a _); [auto |]; destruct (IsMaximumOrAbove b _); [auto |].
  call (CanonicalizeForComparison_ok _ weaker_le n) as r Hr;
    [done | apply CanonicalizeMaxBoundary_ok | done | done |].
  destruct r as [[a' b'] |].
  - destruct (Hr _ _ eq_refl) as (? & ? & ? & ? & s & o & s' & o' & -> & -> & _).
    case_match; apply returns_Ok; (split_and!; [done | done | auto]).
  - call UpperBound_size_ok as x _; [auto |]; call UpperBound_size_ok as y _; [auto |].
    case_match; auto.
Qed.

(** ** Joins *)

(** A boundary whose bounds are inside the size, so that no clamping of them takes
    place. *)
Definition bounded (size : RangeSize) (b : t) : Prop :=
  exists l u, LowerBound g b = Ok (Constant l) /\ UpperBound g b = Ok (Constant u)
              /\ min_value size <= l /\ u <= max_value size.

(** Such a boundary has a value, which is in the size. *)
Lemma bounded_value size b :
  bounded size b -> bok b -> blive b -> forall rho, agrees rho ->
  exists v, (forall x, (ge_bound rho b x <-> v <= x) /\ (le_bound rho b x <-> x <= v))
            /\ in_size size v /\ le_bound rho b v.
Proof.
  intros (l & u & Hl & Hu & Hmin & Hmax) Hb Lb rho AG.
  pose proof (returns_inv _ _ _ (LowerBound_ok b Hb) Hl) as [_ Wl].
  pose proof (returns_inv _ _ _ (UpperBound_ok b Hb) Hu) as [_ Wu].
  destruct (Wl Lb) as [_ Wl'], (Wu Lb) as [_ Wu'].
  destruct b as [| | | s o | v]; try done.
  - exists (rho s + o); split; [done |]; unfold in_size; simpl.
    pose proof (Wl' rho (rho s + o) AG ltac:(simpl; lia)).
    pose proof (Wu' rho (rho s + o) AG ltac:(simpl; lia)); simpl in *; lia.
  - injection Hl as <-; injection Hu as <-; exists v; split; [done |]; unfold in_size; simpl; lia.
Qed.

(** Two boundaries whose bounds are apart: the values of the one bound the other. *)
Lemma separated_ge a b size sup inf :
  bok a -> sup <= inf ->
  (blive a -> forall rho x, agrees rho -> in_size size x -> le_bound rho a x -> x <= sup) ->
  (blive b -> forall rho x, agrees rho -> in_size size x -> ge_bound rho b x -> inf <= x) ->
  blive a -> blive b -> bounded size a -> forall rho x, agrees rho -> in_size size x ->
  ge_bound rho a x \/ ge_bound rho b x -> ge_bound rho a x.
Proof.
  intros Wa Hle Sa Ib La Lb Ba rho x AG Hx [? | Hge]; [done |].
  destruct (bounded_value size a Ba Wa La rho AG) as (v & Hv & Hin & Hvle).
  apply Hv; transitivity sup; [eapply Sa; eauto | transitivity inf; [done | eapply Ib; eauto]].
Qed.

Lemma separated_le a b size sup inf :
  bok b -> sup <= inf ->
  (blive a -> forall rho x, agrees rho -> in_size size x -> le_bound rho a x -> x <= sup) ->
  (blive b -> forall rho x, agrees rho -> in_size size x -> ge_bound rho b x -> inf <= x) ->
  blive a -> blive b -> bounded size b -> forall rho x, agrees rho -> in_size size x ->
  le_bound rho a x \/ le_bound rho b x -> le_bound rho b x.
Proof.
  intros Wb Hle Sa Ib La Lb Bb rho x AG Hx [Hle' | ?]; [| done].
  destruct (bounded_value size b Bb Wb Lb rho AG) as (v & Hv & Hin & Hvge).
  apply Hv; transitivity sup; [eapply Sa; eauto | transitivity inf; [done |]].
  eapply Ib; eauto; apply Hv; lia.
Qed.

Lemma JoinMin_ok n a b size :
  (n <= depth g)%nat -> bwf n a -> bwf n b ->
  returns (JoinMin g a b size) (fun c =>
    bwf n c /\ (finite a -> finite b -> finite c) /\ (blive a -> blive b -> blive c /\
    (bounded size a -> bounded size b -> forall rho x, agrees rho -> in_size size x ->
       ge_bound rho a x \/ ge_bound rho b x -> ge_bound rho c x))).
Proof.
  intros Hn Ha Hb; assert (forall b, bwf n b -> bok b) as Hok by eauto using bwf_mono.
  unfold JoinMin; call Equals_ok as e He; destruct e.
  { apply returns_Ok; split_and!; [done | auto |]; intros La Lb; split; [done |]; intros _ _ rho x AG _ Hx.
    destruct (He eq_refl La Lb rho x AG); tauto. }
  call (CanonicalizeForComparison_ok _ weaker_ge n) as r Hr;
    [done | apply CanonicalizeMinBoundary_ok | done | done |].
  destruct r as [[a' b'] |].
  { destruct (Hr _ _ eq_refl) as (? & ? & Wa & Wb & s & o & s' & o' & -> & -> & Hs).
    apply returns_Ok; split_and!; [case_match; done | case_match; done |]; intros La Lb.
    destruct (Wa La) as [La' Wa'], (Wb Lb) as [Lb' Wb'].
    split; [case_match; done |]; intros _ _ rho x AG _ Hx; simpl.
    specialize (Hs La' Lb' rho AG); specialize (Wa' rho x AG); specialize (Wb' rho x AG).
    destruct (Z.leb_spec o o'), Hx; simpl in *; intuition lia. }
  clear Hr; call LowerBound_size_ok as inf_a (? & ? & IA); [auto |].
  call LowerBound_size_ok as inf_b (? & ? & IB); [auto |].
  call UpperBound_size_ok as sup_a (? & ? & SA); [auto |].
  call UpperBound_size_ok as sup_b (? & ? & SB); [auto |].
  call LowerBound_ok as la (Hla & _); [auto |]; call LowerBound_ok as lb (Hlb & _); [auto |].
  call (Overflowed_ok la size NegativeInfinity) as oa _; [done.. |].
  call (Overflowed_ok lb size NegativeInfinity) as ob _; [done.. |].
  destruct ((sup_a <=? inf_b) && negb oa) eqn:C1; [| destruct ((sup_b <=? inf_a) && negb ob) eqn:C2].
  - apply andb_true_iff in C1 as [C1%Z.leb_le _]; apply returns_Ok; split_and!; [done | auto |].
    intros La Lb; split; [done |]; intros Ba Bb; apply (separated_ge a b size sup_a inf_b); auto.
  - apply andb_true_iff in C2 as [C2%Z.leb_le _]; apply returns_Ok; split_and!; [done | auto |].
    intros La Lb; split; [done |]; intros Ba Bb rho x AG Hx Hor.
    apply (separated_ge b a size sup_b inf_a); auto; destruct Hor; auto.
  - apply returns_Ok; unfold Minimum; split_and!; [case_match; done | done |]; intros La Lb; split; [done |].
    intros _ _ rho x AG Hx Hor; simpl; specialize (IA La rho x AG Hx); specialize (IB Lb rho x AG Hx).
    destruct (Z.ltb_spec inf_a inf_b); destruct Hor; intuition lia.
Qed.

Lemma JoinMax_ok n a b size :
  (n <= depth g)%nat -> bwf n a -> bwf n b ->
  returns (JoinMax g a b size) (fun c =>
    bwf n c /\ (finite a -> finite b -> finite c) /\ (blive a -> blive b -> blive c /\
    (bounded size a -> bounded size b -> forall rho x, agrees rho -> in_size size x ->
       le_bound rho a x \/ le_bound rho b x -> le_bound rho c x))).
Proof.
  intros Hn Ha Hb; assert (forall b, bwf n b -> bok b) as Hok by eauto using bwf_mono.
  unfold JoinMax; call Equals_ok as e He; destruct e.
  { apply returns_Ok; split_and!; [done | auto |]; intros La Lb; split; [done |]; intros _ _ rho x AG _ Hx.
    destruct (He eq_refl La Lb rho x AG); tauto. }
  call (CanonicalizeForComparison_ok _ weaker_le n) as r Hr;
    [done | apply CanonicalizeMaxBoundary_ok | done | done |].
  destruct r as [[a' b'] |].
  { destruct (Hr _ _ eq_refl) as (? & ? & Wa & Wb & s & o & s' & o' & -> & -> & Hs).
    apply returns_Ok; split_and!; [case_match; done | case_match; done |]; intros La Lb.
    destruct (Wa La) as [La' Wa'], (Wb Lb) as [Lb' Wb'].
    split; [case_match; done |]; intros _ _ rho x AG _ Hx; simpl.
    specialize (Hs La' Lb' rho AG); specialize (Wa' rho x AG); specialize (Wb' rho x AG).
    rewrite Z.geb_leb; destruct (Z.leb_spec o' o), Hx; simpl in *; intuition lia. }
  clear Hr; call LowerBound_size_ok as inf_a (? & ? & IA); [auto |].
  call LowerBound_size_ok as inf_b (? & ? & IB); [auto |].
  call UpperBound_size_ok as sup_a (? & ? & SA); [auto |].
  call UpperBound_size_ok as sup_b (? & ? & SB); [auto |].
  call UpperBound_ok as la (Hla & _); [auto |]; call UpperBound_ok as lb (Hlb & _); [auto |].
  call (Overflowed_ok la size PositiveInfinity) as oa _; [done.. |].
  call (Overflowed_ok lb size PositiveInfinity) as ob _; [done.. |].
  destruct ((sup_a <=? inf_b) && negb ob) eqn:C1; [| destruct ((sup_b <=? inf_a) && negb oa) eqn:C2].
  - apply andb_true_iff in C1 as [C1%Z.leb_le _]; apply returns_Ok; split_and!; [done | auto |].
    intros La Lb; split; [done |]; intros Ba Bb; apply (separated_le a b size sup_a inf_b); auto.
  - apply andb_true_iff in C2 as [C2%Z.leb_le _]; apply returns_Ok; split_and!; [done | auto |].
    intros La Lb; split; [done |]; intros Ba Bb rho x AG Hx Hor.
    apply (separated_le b a size sup_b inf_a); auto; destruct Hor; auto.
  - apply returns_Ok; unfold Maximum; split_and!; [case_match; done | done |]; intros La Lb; split; [done |].
    intros _ _ rho x AG Hx Hor; simpl; specialize (SA La rho x AG Hx); specialize (SB Lb rho x AG Hx).
    rewrite Z.gtb_ltb; destruct (Z.ltb_spec sup_b sup_a); destruct Hor; intuition lia.
Qed.

End WellFormed.
End Graph.
End Soundness.
