(* ===== verification/RangeOpProofs.v ===== *)
(** Soundness of the operations on ranges: the tests, the intersection, and the
    transfer functions of the binary operations. *)
From stdpp Require Import base list numbers.
From Stdlib Require Import ZArith Lia.
From S2P Require Import Prelude Utils UtilsProofs Locations FlowGraph Ranges RangeProofs.
Import RangeBoundary.
Import Range(min_, max_, make).
Import Boundary.
#[local] Open Scope Z_scope.

(** * Bits of a 64-bit integer *)
Lemma highest_bit_probe_log2 k x r :
  0 < k -> 0 < x < 2 ^ (2 * k) ->
  exists x' r', highest_bit_probe k (x, r) = (x', r') /\ 0 < x' < 2 ^ k
                /\ Z.log2 x' + r' = Z.log2 x + r.
Proof.
  intros Hk Hx; unfold highest_bit_probe; destruct (Z.eqb_spec (Z.shiftr x k) 0) as [He | Hne].
  - exists x, r; rewrite Z.shiftr_div_pow2 in He by lia.
    apply Z.div_small_iff in He; [| lia]; split_and!; [done | lia | lia | done].
  - exists (Z.shiftr x k), (r + k); simpl; split; [done |].
    assert (0 <= Z.shiftr x k) by (apply Z.shiftr_nonneg; lia).
    assert (k <= Z.log2 x).
    { apply Z.log2_le_pow2; [lia |]; destruct (Z.le_gt_cases (2 ^ k) x); [done |].
      destruct Hne; rewrite Z.shiftr_div_pow2 by lia; apply Z.div_small; lia. }
    rewrite Z.log2_shiftr by lia; split; [| lia]; split; [lia |].
    rewrite Z.shiftr_div_pow2 by lia; apply Z.div_lt_upper_bound; [lia |].
    rewrite <- Z.pow_add_r by lia; replace (k + k) with (2 * k) by lia; lia.
Qed.

Lemma HighestBit_log2 v : 0 < v < 2 ^ 63 -> HighestBit v = Z.log2 v.
Proof.
  intros Hv; unfold HighestBit; rewrite Z.gtb_ltb, (proj2 (Z.ltb_lt 0 v)) by lia.
  rewrite to_u_id by (unfold in_u; lia).
  destruct (highest_bit_probe_log2 32 v 0) as (x1 & r1 & -> & ? & ?); [lia.. |].
  destruct (highest_bit_probe_log2 16 x1 r1) as (x2 & r2 & -> & ? & ?); [lia.. |].
  destruct (highest_bit_probe_log2 8 x2 r2) as (x3 & r3 & -> & ? & ?); [lia.. |].
  destruct (highest_bit_probe_log2 4 x3 r3) as (x4 & r4 & -> & ? & ?); [lia.. |].
  destruct (highest_bit_probe_log2 2 x4 r4) as (x5 & r5 & -> & ? & ?); [lia.. |].
  assert (x5 = 1 \/ x5 = 2 \/ x5 = 3) as [-> | [-> | ->]] by lia; simpl in *; lia.
Qed.

Lemma BitLength_spec v :
  in_s 64 v -> 0 <= BitLength v <= 63 /\ - 2 ^ BitLength v <= v < 2 ^ BitLength v.
Proof.
  intros Hv; unfold BitLength.
  assert (exists w, Z.lxor v (Z.shiftr v 63) = w /\ 0 <= w < 2 ^ 63 /\ (v = w \/ v = - w - 1))
    as (w & -> & Hw & Hvw).
  { destruct (Z.le_gt_cases 0 v).
    - exists v; rewrite (Z.shiftr_div_pow2 v), Z.div_small, Z.lxor_0_r by (unfold in_s in Hv; lia).
      unfold in_s in Hv; auto with lia.
    - exists (- v - 1); replace (Z.shiftr v 63) with (-1).
      + rewrite Z.lxor_m1_r; unfold in_s, Z.lnot in *; lia.
      + rewrite Z.shiftr_div_pow2 by lia.
        apply (Z.div_unique v (2 ^ 63) (-1) (v + 2 ^ 63)); unfold in_s in Hv; lia. }
  destruct (Z.eqb_spec w 0) as [-> | Hne]; [lia |].
  rewrite HighestBit_log2 by lia.
  pose proof (Z.log2_spec w ltac:(lia)); pose proof (Z.log2_nonneg w).
  assert (Z.log2 w < 63) by (apply Z.log2_lt_pow2; lia); rewrite Z.add_1_r; lia.
Qed.

Lemma land_le_r x y : 0 <= y -> 0 <= Z.land x y <= y.
Proof.
  intros Hy; split; [apply Z.land_nonneg; auto |].
  assert (y = Z.land x y + Z.ldiff y x) as Heq.
  { rewrite <- lor_disjoint_add; apply Z.bits_inj'; intros i Hi.
    - rewrite Z.lor_spec, Z.land_spec, Z.ldiff_spec.
      destruct (Z.testbit x i), (Z.testbit y i); done.
    - rewrite !Z.land_spec, Z.ldiff_spec, Z.bits_0.
      destruct (Z.testbit x i), (Z.testbit y i); done. }
  pose proof (proj2 (Z.ldiff_nonneg y x) ltac:(lia)); lia.
Qed.

(** * Shifts of boundaries *)
Lemma Shl_spec v c overflow :
  in_s 64 v -> 0 <= c ->
  Boundary.Shl (Constant v) c overflow
  = Ok (if bool_decide (in_s 64 (v * 2 ^ c)) then Constant (v * 2 ^ c) else overflow).
Proof.
  intros Hv Hc; unfold Boundary.Shl, obind, ConstantValue.
  rewrite (proj2 (Z.leb_le 0 c)), Z.gtb_ltb by lia.
  destruct (Z.eqb_spec v 0) as [-> |]; cbn [orb].
  { unfold shl64; rewrite Z.shiftl_0_l, Z.mul_0_l, bool_decide_eq_true_2; done. }
  destruct (Z.eqb_spec c 0) as [-> |]; cbn [orb].
  { unfold shl64; rewrite Z.shiftl_0_r, Z.mul_1_r, to_s_id, bool_decide_eq_true_2; done. }
  destruct (Z.ltb_spec 0 (64 - c)); cbn [andb]; cycle 1.
  { rewrite bool_decide_eq_false_2; [done |]; unfold in_s.
    pose proof (Z.pow_le_mono_r 2 64 c ltac:(lia) ltac:(lia)); nia. }
  assert (2 ^ 63 = 2 ^ (64 - c - 1) * 2 ^ c) as Hp by (rewrite <- Z.pow_add_r by lia; f_equal; lia).
  pose proof (pow2_pos c ltac:(lia)).
  assert (IsInt (64 - c) v = bool_decide (in_s 64 (v * 2 ^ c))) as ->.
  { apply eq_true_iff_eq; rewrite bool_decide_eq_true; unfold IsInt, in_s.
    rewrite Z.shiftl_1_l, andb_true_iff, Z.leb_le, Z.ltb_lt; change (64 - 1) with 63; rewrite Hp; nia. }
  case_bool_decide; [| done]; unfold shl64.
  rewrite Z.mod_small, Z.shiftl_mul_pow2, to_s_id by (lia || done); done.
Qed.

Section Operations.
Context `{Word} (g : FlowGraph) (L : Layout) (WF : wf g L).

Abbreviation bwf := (bwf g L).
Abbreviation rwf := (rwf g L).
Abbreviation bok := (RangeProofs.bwf g L (depth g)).
Abbreviation rok := (RangeProofs.rwf g L (depth g)).
Abbreviation blive := (blive L).
Abbreviation rlive := (rlive L).
Abbreviation agrees := (agrees g L).

(** * Constant bounds of a range *)
Lemma min_int64_eq r : Ranges.min_int64 g r = LowerBound_size g (min_ r) kRangeBoundaryInt64.
Proof.
  unfold Ranges.min_int64, Ranges.ConstantMin, ConstantMin_, LowerBound_size.
  destruct (LowerBound g (min_ r)); done.
Qed.

Lemma max_int64_eq r : Ranges.max_int64 g r = UpperBound_size g (max_ r) kRangeBoundaryInt64.
Proof.
  unfold Ranges.max_int64, Ranges.ConstantMax, ConstantMax_, UpperBound_size.
  destruct (UpperBound g (max_ r)); done.
Qed.

Lemma in_size_int64 x : in_size kRangeBoundaryInt64 x <-> in_s 64 x.
Proof. rewrite in_s_64; done. Qed.

(** What the constant bounds [lo] and [hi] of a range say of its values. *)
Definition bounds (r : Range.t) (lo hi : Z) : Prop :=
  in_s 64 lo /\ in_s 64 hi /\ (rlive r -> forall rho x, agrees rho -> in_s 64 x ->
    contains rho r x -> lo <= x <= hi).

Lemma int64_bounds r :
  rok r -> exists lo hi,
    Ranges.min_int64 g r = Ok lo /\ Ranges.max_int64 g r = Ok hi /\ bounds r lo hi.
Proof.
  intros [H1 H2]; rewrite min_int64_eq, max_int64_eq.
  destruct (LowerBound_size_ok g L WF (min_ r) kRangeBoundaryInt64 H1) as (lo & Hlo & _ & ? & Hl).
  destruct (UpperBound_size_ok g L WF (max_ r) kRangeBoundaryInt64 H2) as (hi & Hhi & _ & ? & Hh).
  exists lo, hi; unfold bounds; split_and!; [done.. |]; intros [L1 L2] rho x AG Hx [Hge Hle].
  rewrite <- in_size_int64 in Hx; eauto.
Qed.

(** The tests against a constant are those of the constant bounds. *)
Lemma OnlyGreaterThanOrEqualTo_ok r val :
  rok r -> returns (Ranges.OnlyGreaterThanOrEqualTo g r val) (fun b => b = true ->
    exists lo, Ranges.min_int64 g r = Ok lo /\ val <= lo).
Proof.
  intros [H1 _]; unfold Ranges.OnlyGreaterThanOrEqualTo; rewrite min_int64_eq; unfold LowerBound_size.
  destruct (LowerBound_ok g L WF (min_ r) H1) as (l & -> & Hl & _); simpl.
  destruct Hl as [-> | (v & -> & Hv)]; simpl; apply returns_Ok; [done |].
  rewrite Z.geb_leb, Z.leb_le; intros Hle; apply in_s_64 in Hv.
  exists v; split; [| done]; repeat case_match; simpl; f_equal; lia.
Qed.

Lemma OnlyLessThanOrEqualTo_ok r val :
  rok r -> returns (Ranges.OnlyLessThanOrEqualTo g r val) (fun b => b = true ->
    exists hi, Ranges.max_int64 g r = Ok hi /\ hi <= val).
Proof.
  intros [_ H2]; unfold Ranges.OnlyLessThanOrEqualTo; rewrite max_int64_eq; unfold UpperBound_size.
  destruct (UpperBound_ok g L WF (max_ r) H2) as (l & -> & Hl & _); simpl.
  destruct Hl as [-> | (v & -> & Hv)]; simpl; apply returns_Ok; [done |].
  rewrite Z.leb_le; intros Hle; apply in_s_64 in Hv.
  exists v; split; [| done]; repeat case_match; simpl; f_equal; lia.
Qed.

(** * Intersection and satisfiability *)
Lemma IsFinite_iff r : Ranges.IsFinite r = true <-> finite (min_ r) /\ finite (max_ r).
Proof. unfold Ranges.IsFinite, finite; rewrite andb_true_iff, !negb_true_iff; done. Qed.

Lemma Intersect_ok n r other :
  (n <= depth g)%nat -> rwf n r -> rwf n other ->
  IsPositiveInfinity (min_ r) = false -> IsPositiveInfinity (min_ other) = false ->
  IsNegativeInfinity (max_ r) = false -> IsNegativeInfinity (max_ other) = false ->
  returns (Ranges.Intersect g r other) (fun c => rwf n c /\
    (Ranges.IsFinite r = true -> Ranges.IsFinite other = true -> Ranges.IsFinite c = true) /\
    (rlive r -> rlive other -> rlive c /\ forall rho x, agrees rho ->
       contains rho r x -> contains rho other x -> contains rho c x)).
Proof.
  intros Hn [W1 W2] [W3 W4] I1 I2 I3 I4; unfold Ranges.Intersect.
  call (IntersectionMin_ok g L WF n) as lo (Wlo & Flo & Hlo); [done.. |].
  call (IntersectionMax_ok g L WF n) as hi (Whi & Fhi & Hhi); [done.. |].
  apply returns_Ok; split; [done |]; split.
  { rewrite !IsFinite_iff; intros [] []; split; simpl; auto. }
  intros [L1 L2] [L3 L4].
  assert (blive lo /\ forall rho x, agrees rho -> contains rho r x -> contains rho other x ->
    ge_bound rho lo x) as [? Hlo'].
  { unfold contains; destruct Hlo as [Hw | Hw];
      [destruct (Hw L1) as [? Hw'] | destruct (Hw L3) as [? Hw']]; split; try done; intros rho x ? [] []; auto. }
  assert (blive hi /\ forall rho x, agrees rho -> contains rho r x -> contains rho other x ->
    le_bound rho hi x) as [? Hhi'].
  { unfold contains; destruct Hhi as [Hw | Hw];
      [destruct (Hw L2) as [? Hw'] | destruct (Hw L4) as [? Hw']]; split; try done; intros rho x ? [] []; auto. }
  split; [done |]; intros; split; eauto.
Qed.

Lemma IsUnsatisfiable_ok r :
  rok r -> returns (Ranges.IsUnsatisfiable g r) (fun u => u = true -> rlive r ->
    forall rho x, agrees rho -> in_s 64 x -> ~ contains rho r x).
Proof.
  intros Hr; unfold Ranges.IsUnsatisfiable.
  destruct (IsPositiveInfinity (min_ r) || IsNegativeInfinity (max_ r)) eqn:Hinf.
  { apply returns_Ok; intros _ _ rho x _ Hx [Hge Hle]; apply in_s_64 in Hx.
    apply orb_true_iff in Hinf as [Hi | Hi];
      [destruct (min_ r) | destruct (max_ r)]; try done; simpl in *; lia. }
  destruct (int64_bounds r Hr) as (lo & hi & -> & -> & _ & _ & Hb); simpl.
  rewrite Z.gtb_ltb; destruct (Z.ltb_spec hi lo).
  { apply returns_Ok; intros _ Hl rho x AG Hx Hc; specialize (Hb Hl rho x AG Hx Hc); lia. }
  call (DependOnSameSymbol_ok g L WF) as same Hs; apply returns_Ok.
  intros [-> Ho]%andb_true_iff [L1 L2] rho x AG Hx [Hge Hle].
  destruct (Hs eq_refl) as (s & o & s' & o' & E1 & E2 & Heq); rewrite E1, E2 in *; simpl in *.
  rewrite Z.gtb_ltb, Z.ltb_lt in Ho; specialize (Heq L1 L2 rho AG); lia.
Qed.

(** [Fits]: the values of the range are in the size. *)
Lemma Fits_ok r size :
  rok r -> returns (Ranges.Fits g r size) (fun f => f = true -> rlive r ->
    forall rho x, agrees rho -> contains rho r x -> in_size size x).
Proof.
  intros [H1 H2]; unfold Ranges.Fits.
  call (LowerBound_ok g L WF) as l (Hl & Wl); [done |].
  call (Overflowed_ok g l size NegativeInfinity) as ol Ol; [done.. |].
  destruct ol; [apply returns_Ok; done |].
  call (UpperBound_ok g L WF) as u (Hu & Wu); [done |].
  call (Overflowed_ok g u size PositiveInfinity) as ou Ou; [done.. |].
  apply returns_Ok; intros ->%negb_true_iff [L1 L2] rho x AG [Hge Hle].
  destruct (Ol eq_refl) as (lo & -> & ?), (Ou eq_refl) as (hi & -> & ?); unfold in_size in *.
  pose proof (proj2 (Wl L1) rho x AG Hge); pose proof (proj2 (Wu L2) rho x AG Hle); simpl in *; lia.
Qed.

(** * The transfer functions

    [p] bounds [f x y] for the values [x] and [y] of the operands at which the
    operation does not deoptimize or throw. *)
Definition dlive (left_defn : option defn) : Prop :=
  match left_defn with Some d => live L d | None => True end.

Definition transfer (n : nat) (l r : Range.t) (left_defn : option defn) (ok : (defn -> Z) -> Z -> Z -> Prop)
    (f : Z -> Z -> Z) (p : t * t) : Prop :=
  bwf n p.1 /\ bwf n p.2 /\ (rlive l -> rlive r -> dlive left_defn -> blive p.1 /\ blive p.2 /\
    forall rho x y, agrees rho -> in_s 64 x -> in_s 64 y ->
      contains rho l x -> contains rho r y -> ok rho x y ->
      ge_bound rho p.1 (f x y) /\ le_bound rho p.2 (f x y)).

(** A transfer function that looks at the constant bounds of its operands only. *)
Lemma transfer_bounds n l r left_defn ok f lo hi ll lh rl rh :
  bounds l ll lh -> bounds r rl rh ->
  bwf n lo -> bwf n hi -> blive lo -> blive hi ->
  (forall rho x y, ll <= x <= lh -> rl <= y <= rh -> in_s 64 x -> in_s 64 y -> ok rho x y ->
     ge_bound rho lo (f x y) /\ le_bound rho hi (f x y)) ->
  transfer n l r left_defn ok f (lo, hi).
Proof.
  intros (_ & _ & Bl) (_ & _ & Br) ? ? ? ? Hf; split_and!; [done | done |].
  intros Ll Lr _; split_and!; [done | done |]; intros; apply Hf; eauto.
Qed.

Lemma shift_ge rho v a x y :
  in_s 64 v -> v <= x -> 0 <= a -> (if v >? 0 then a <= y else y <= a) -> 0 <= y ->
  ge_bound rho (if bool_decide (in_s 64 (v * 2 ^ a)) then Constant (v * 2 ^ a)
            else if v >? 0 then PositiveInfinity else NegativeInfinity) (x * 2 ^ y).
Proof.
  intros Hv Hx Ha Hay Hy; rewrite Z.gtb_ltb in *.
  assert (v * 2 ^ a <= x * 2 ^ y).
  { pose proof (pow2_pos a Ha); pose proof (pow2_pos y Hy).
    destruct (Z.ltb_spec 0 v).
    - pose proof (Z.pow_le_mono_r 2 a y ltac:(lia) ltac:(lia)); nia.
    - pose proof (Z.pow_le_mono_r 2 y a ltac:(lia) ltac:(lia)); nia. }
  case_bool_decide as Hin; [done |]; rewrite in_s_64 in Hin.
  pose proof (pow2_pos a Ha); destruct (Z.ltb_spec 0 v); simpl; [| done].
  unfold kMinInt64 in *; nia.
Qed.

Lemma shift_le rho v a x y :
  in_s 64 v -> x <= v -> 0 <= a -> (if v >? 0 then y <= a else a <= y) -> 0 <= y ->
  le_bound rho (if bool_decide (in_s 64 (v * 2 ^ a)) then Constant (v * 2 ^ a)
            else if v >? 0 then PositiveInfinity else NegativeInfinity) (x * 2 ^ y).
Proof.
  intros Hv Hx Ha Hay Hy; rewrite Z.gtb_ltb in *.
  assert (x * 2 ^ y <= v * 2 ^ a).
  { pose proof (pow2_pos a Ha); pose proof (pow2_pos y Hy).
    destruct (Z.ltb_spec 0 v).
    - pose proof (Z.pow_le_mono_r 2 y a ltac:(lia) ltac:(lia)); nia.
    - pose proof (Z.pow_le_mono_r 2 a y ltac:(lia) ltac:(lia)); nia. }
  case_bool_decide as Hin; [done |]; rewrite in_s_64 in Hin.
  pose proof (pow2_pos a Ha); destruct (Z.ltb_spec 0 v); simpl; [done |].
  unfold kMaxInt64 in *; nia.
Qed.

Lemma Maximum_max x y : Maximum x y = Z.max x y.
Proof. unfold Maximum; rewrite Z.gtb_ltb; destruct (Z.ltb_spec y x); lia. Qed.

Lemma Minimum_min x y : Minimum x y = Z.min x y.
Proof. unfold Minimum; destruct (Z.ltb_spec x y); lia. Qed.

Lemma Shl_ok n l r left_defn :
  rok l -> rok r ->
  returns (Ranges.Shl g l r)
    (transfer n l r left_defn (fun _ _ y => 0 <= y) (fun x y => x * 2 ^ y)).
Proof.
  intros Wl Wr; unfold Ranges.Shl.
  destruct (int64_bounds l Wl) as (ll & lh & -> & -> & Bl); destruct (Bl) as (Hll & Hlh & _).
  destruct (int64_bounds r Wr) as (rl & rh & -> & -> & Br); cbn [obind].
  rewrite !Maximum_max, !Shl_spec by (done || case_match; lia); cbn [obind].
  apply returns_Ok; eapply transfer_bounds; [done | done | | | | |].
  1-4: case_bool_decide; [done | case_match; done].
  intros rho x y Hx Hy _ _ Hy0; split.
  - apply shift_ge; try case_match; auto with lia.
  - apply shift_le; try case_match; auto with lia.
Qed.

Lemma div_pow2_in_s v c : in_s 64 v -> 0 <= c -> in_s 64 (v / 2 ^ c).
Proof.
  unfold in_s; intros Hv Hc; pose proof (pow2_pos c Hc).
  split; [apply Z.div_le_lower_bound; nia | apply Z.div_lt_upper_bound; nia].
Qed.

Lemma div_le_pos v x a y : v <= x -> 0 < v -> 0 <= y <= a -> v / 2 ^ a <= x / 2 ^ y.
Proof.
  intros; pose proof (pow2_pos y ltac:(lia)).
  pose proof (Z.pow_le_mono_r 2 y a ltac:(lia) ltac:(lia)).
  transitivity (v / 2 ^ y); [apply Z.div_le_compat_l; lia | apply Z.div_le_mono; lia].
Qed.

Lemma div_le_neg v x a y : v <= x -> v <= 0 -> 0 <= a <= y -> v / 2 ^ a <= x / 2 ^ y.
Proof.
  intros; pose proof (pow2_pos a ltac:(lia)).
  pose proof (Z.pow_le_mono_r 2 a y ltac:(lia) ltac:(lia)).
  transitivity (v / 2 ^ y); [| apply Z.div_le_mono; lia].
  apply Z.div_le_lower_bound; [lia |]; pose proof (Z.mul_div_le v (2 ^ a) ltac:(lia)).
  assert (v / 2 ^ a <= 0) by (apply Z.div_le_upper_bound; lia); nia.
Qed.

(** Right of the sign change the two cases swap. *)
Lemma div_ge_pos v x a y : x <= v -> 0 < v -> 0 <= a <= y -> x / 2 ^ y <= v / 2 ^ a.
Proof.
  intros; destruct (Z.le_gt_cases x 0).
  - transitivity 0; [apply Z.div_le_upper_bound; [apply pow2_pos |]; lia |].
    apply Z.div_pos; [lia | apply pow2_pos; lia].
  - transitivity (x / 2 ^ a); [apply div_le_pos; lia |].
    apply Z.div_le_mono; [apply pow2_pos |]; lia.
Qed.

Lemma div_ge_neg v x a y : x <= v -> v <= 0 -> 0 <= y <= a -> x / 2 ^ y <= v / 2 ^ a.
Proof.
  intros; transitivity (x / 2 ^ a); [apply div_le_neg; lia |].
  apply Z.div_le_mono; [apply pow2_pos |]; lia.
Qed.

(** The shift counts of [Shr] have to be below 64: its bounds are shifted by the
    largest count of the range. *)
Definition shift_counts (r : Range.t) : Prop :=
  forall hi, Ranges.max_int64 g r = Ok hi -> hi < 64.

Lemma Shr_ok n l r left_defn :
  rok l -> rok r ->
  returns (Ranges.Shr g l r)
    (transfer n l r left_defn (fun _ _ y => shift_counts r /\ 0 <= y) Z.shiftr).
Proof.
  intros Wl Wr; unfold Ranges.Shr.
  destruct (int64_bounds l Wl) as (ll & lh & -> & -> & Bl); destruct (Bl) as (Hll & Hlh & _).
  destruct (int64_bounds r Wr) as (rl & rh & -> & Hrh & Br).
  rewrite Hrh; unfold Boundary.Shr; cbn [obind ConstantValue]; rewrite !Maximum_max.
  rewrite !(proj2 (Z.leb_le 0 _)) by (case_match; lia); cbn [obind].
  assert (forall v c, in_s 64 v -> in_s 64 (shr64 v c)) as Hs.
  { intros v c Hv; unfold shr64; pose proof (Z.mod_pos_bound c 64 ltac:(lia)).
    rewrite Z.shiftr_div_pow2 by lia; apply div_pow2_in_s; [done | lia]. }
  apply returns_Ok; eapply transfer_bounds; [done | done | apply Hs; done.. | done | done |].
  intros rho x y Hx Hy _ _ [Hcounts Hy0]; specialize (Hcounts _ Hrh).
  rewrite Z.shiftr_div_pow2, !Z.gtb_ltb by lia; unfold shr64; simpl.
  destruct (Z.ltb_spec 0 ll), (Z.ltb_spec 0 lh).
  all: rewrite !Z.mod_small, !Z.shiftr_div_pow2 by lia.
  all: split; first [apply div_le_pos; lia | apply div_le_neg; lia | apply div_ge_pos; lia
                    | apply div_ge_neg; lia].
Qed.

(** ** Bitwise operations *)
Lemma BitSize_ok r lo hi :
  Ranges.min_int64 g r = Ok lo -> Ranges.max_int64 g r = Ok hi -> bounds r lo hi ->
  exists b, Ranges.BitSize g r = Ok b /\ 0 <= b <= 63
            /\ forall x, lo <= x <= hi -> in_s (b + 1) x.
Proof.
  intros Hlo Hhi (Wlo & Whi & _); unfold Ranges.BitSize; rewrite Hlo, Hhi; cbn [obind].
  destruct (BitLength_spec lo Wlo), (BitLength_spec hi Whi).
  eexists; split; [done |]; rewrite Maximum_max; split; [lia |]; intros x Hx; unfold in_s.
  rewrite Z.add_simpl_r.
  pose proof (Z.pow_le_mono_r 2 (BitLength lo) (BitLength lo `max` BitLength hi) ltac:(lia) ltac:(lia)).
  pose proof (Z.pow_le_mono_r 2 (BitLength hi) (BitLength lo `max` BitLength hi) ltac:(lia) ltac:(lia)).
  lia.
Qed.

Lemma bitwise_bounds b :
  0 <= b <= 63 ->
  shl64 (-1) b = - 2 ^ b /\ int64 (uint64 (uint64 (shl64 1 b) - 1)) = 2 ^ b - 1
  /\ in_s 64 (- 2 ^ b) /\ in_s 64 (2 ^ b - 1).
Proof.
  intros Hb; pose proof (pow2_pos b ltac:(lia)); pose proof (Z.pow_le_mono_r 2 b 63 ltac:(lia) ltac:(lia)).
  assert (in_s 64 (- 2 ^ b) /\ in_s 64 (2 ^ b - 1)) as [Hmin Hmax] by (unfold in_s; change (64 - 1) with 63; lia).
  split_and!; [| | done | done].
  - unfold shl64; rewrite Z.mod_small, Z.shiftl_mul_pow2, to_s_id by (lia || done || (unfold in_s in *; lia)); lia.
  - unfold shl64; rewrite Z.mod_small, Z.shiftl_mul_pow2, Z.mul_1_l, to_u_to_s, to_u_sub_l, to_s_to_u by lia.
    apply to_s_id; [lia | done].
Qed.

Definition bitwise (f : bool -> bool -> bool) (op : Z -> Z -> Z) : Prop :=
  (forall x y i, 0 <= i -> Z.testbit (op x y) i = f (Z.testbit x i) (Z.testbit y i))
  /\ forall x y, 0 <= x -> 0 <= y -> 0 <= op x y.

Lemma BitwiseOp_ok n l r left_defn f op :
  rok l -> rok r -> bitwise f op ->
  returns (Ranges.BitwiseOp g l r) (transfer n l r left_defn (fun _ _ _ => True) op).
Proof.
  intros Wl Wr [Hbits Hpos]; unfold Ranges.BitwiseOp.
  destruct (int64_bounds l Wl) as (ll & lh & Hll & Hlh & Bl).
  destruct (int64_bounds r Wr) as (rl & rh & Hrl & Hrh & Br).
  destruct (BitSize_ok _ _ _ Hll Hlh Bl) as (bl & -> & ? & Sl).
  destruct (BitSize_ok _ _ _ Hrl Hrh Br) as (br & -> & ? & Sr); cbn [obind].
  rewrite Maximum_max; destruct (bitwise_bounds (bl `max` br) ltac:(lia)) as (-> & -> & ? & ?).
  call OnlyGreaterThanOrEqualTo_ok as pl Pl; [done |].
  call OnlyGreaterThanOrEqualTo_ok as pr Pr; [done |].
  apply returns_Ok; eapply transfer_bounds; [done | done | | done | | done |].
  1-2: destruct (pl && pr); done.
  intros rho x y Hx Hy _ _ _.
  assert (in_s ((bl `max` br) + 1) (op x y)) as Hop.
  { apply (bitwise_in_s op f); [done | lia | |].
    - specialize (Sl x Hx); unfold in_s in *; rewrite Z.add_simpl_r in *.
      pose proof (Z.pow_le_mono_r 2 bl (bl `max` br) ltac:(lia) ltac:(lia)); lia.
    - specialize (Sr y Hy); unfold in_s in *; rewrite Z.add_simpl_r in *.
      pose proof (Z.pow_le_mono_r 2 br (bl `max` br) ltac:(lia) ltac:(lia)); lia. }
  unfold in_s in Hop; rewrite Z.add_simpl_r in Hop; split; [| simpl; lia].
  destruct pl, pr; simpl; try lia; destruct (Pl eq_refl) as (v & Hv & ?), (Pr eq_refl) as (w & Hw & ?).
  apply Hpos; [rewrite Hll in Hv | rewrite Hrl in Hw]; simplify_eq; lia.
Qed.

Lemma ConstantMax_max r hi :
  Ranges.max_int64 g r = Ok hi -> Ranges.ConstantMax g (Some r) kRangeBoundaryInt64 = Ok (Constant hi).
Proof.
  unfold Ranges.max_int64; destruct (Ranges.ConstantMax _ _ _) as [[] |]; simpl; intros; simplify_eq; done.
Qed.

Lemma bitwise_land : bitwise andb Z.land.
Proof. split; [intros; apply Z.land_spec | intros; apply Z.land_nonneg; auto]. Qed.

Lemma And_ok n l r left_defn :
  rok l -> rok r -> returns (Ranges.And g l r) (transfer n l r left_defn (fun _ _ _ => True) Z.land).
Proof.
  intros Wl Wr; unfold Ranges.And.
  destruct (int64_bounds l Wl) as (ll & lh & Hll & Hlh & Bl); destruct (Bl) as (? & ? & _).
  destruct (int64_bounds r Wr) as (rl & rh & Hrl & Hrh & Br); destruct (Br) as (? & ? & _).
  rewrite Hrl; cbn [obind]; rewrite Z.geb_leb; destruct (Z.leb_spec 0 rl).
  { rewrite (ConstantMax_max _ _ Hrh); apply returns_Ok; eapply transfer_bounds; try done.
    intros rho x y Hx Hy _ _ _; pose proof (land_le_r x y ltac:(lia)); simpl; lia. }
  rewrite Hll; cbn [obind]; rewrite Z.geb_leb; destruct (Z.leb_spec 0 ll).
  { rewrite (ConstantMax_max _ _ Hlh); apply returns_Ok; eapply transfer_bounds; try done.
    intros rho x y Hx Hy _ _ _; rewrite Z.land_comm.
    pose proof (land_le_r y x ltac:(lia)); simpl; lia. }
  apply (BitwiseOp_ok n l r left_defn andb); auto using bitwise_land.
Qed.

(** ** Addition and subtraction *)
Lemma SymbolicAdd_ok n a b c :
  bwf n a -> bwf n b -> SymbolicAdd g a b = Some c ->
  bwf n c /\ (blive a -> blive b -> blive c) /\ forall rho x y,
    (ge_bound rho a x -> ge_bound rho b y -> ge_bound rho c (x + y)) /\
    (le_bound rho a x -> le_bound rho b y -> le_bound rho c (x + y)).
Proof.
  assert (forall s o v, bwf n (Symbol s o) -> in_s 64 v ->
    SymbolicAdd_constant g (Symbol s o) (Constant v) = Some c -> c = Symbol s (o + v) /\ bwf n c) as Hc.
  { intros s o v (? & Hc & ? & ?) Hv; simpl; rewrite WillAddOverflow_spec by done.
    case_bool_decide; simpl; [| done]; rewrite to_s_id, FromDefinition_symbol by (lia || done).
    intros [= <-]; simpl; auto 10. }
  destruct a as [| | | s o | v], b as [| | | s' o' | v']; try done; intros Wa Wb Hs.
  - destruct (Hc _ _ _ Wa Wb Hs) as [-> Hw]; split; [exact Hw |].
    simpl; split; [auto |]; intros; split; intros; lia.
  - destruct (Hc _ _ _ Wb Wa Hs) as [-> Hw]; split; [exact Hw |].
    simpl; split; [auto |]; intros; split; intros; lia.
Qed.

Lemma SymbolicSub_ok n a b c :
  bwf n a -> bwf n b -> SymbolicSub g a b = Some c ->
  bwf n c /\ (blive a -> blive b -> blive c) /\ forall rho x y,
    (ge_bound rho a x -> le_bound rho b y -> ge_bound rho c (x - y)) /\
    (le_bound rho a x -> ge_bound rho b y -> le_bound rho c (x - y)).
Proof.
  destruct a as [| | | s o | v], b as [| | | s' o' | v']; try done; simpl.
  intros (? & Hc & ? & ?) Hv; rewrite WillSubOverflow_spec by done.
  case_bool_decide; simpl; [| done]; rewrite to_s_id, FromDefinition_symbol by (lia || done).
  intros [= <-]; simpl; split; [auto 10 |]; split; [auto |]; intros; split; intros; lia.
Qed.

(** The sum and the difference of constant bounds. *)
Lemma Add_bounding inf a b n :
  IsInfinity inf = true -> bounding inf a -> bounding inf b ->
  returns (Boundary.Add a b inf) (fun c => bwf n c /\ blive c /\ forall rho x y,
    (inf = NegativeInfinity -> ge_bound rho a x -> ge_bound rho b y -> ge_bound rho c (x + y)) /\
    (inf = PositiveInfinity -> le_bound rho a x -> le_bound rho b y -> le_bound rho c (x + y))).
Proof.
  intros Hi; destruct inf; try done.
  all: intros [-> | (v & -> & Hv)] [-> | (w & -> & Hw)]; try (apply returns_Ok; done).
  all: rewrite Add_constants by done; apply returns_Ok; case_bool_decide; try done.
  all: split_and!; [done.. |]; intros; simpl; split; intros; try done; lia.
Qed.

Lemma Sub_bounding inf inf' a b n :
  (inf = NegativeInfinity /\ inf' = PositiveInfinity)
  \/ (inf = PositiveInfinity /\ inf' = NegativeInfinity) ->
  bounding inf a -> bounding inf' b ->
  returns (Boundary.Sub a b inf) (fun c => bwf n c /\ blive c /\ forall rho x y,
    (inf = NegativeInfinity -> ge_bound rho a x -> le_bound rho b y -> ge_bound rho c (x - y)) /\
    (inf = PositiveInfinity -> le_bound rho a x -> ge_bound rho b y -> le_bound rho c (x - y))).
Proof.
  intros [[-> ->] | [-> ->]].
  all: intros [-> | (v & -> & Hv)] [-> | (w & -> & Hw)]; try (apply returns_Ok; done).
  all: rewrite Sub_constants by done; apply returns_Ok; case_bool_decide; try done.
  all: split_and!; [done.. |]; intros; simpl; split; intros; try done; lia.
Qed.

(** The left operand, when the code uses it as a symbol: a length, which is a smi. *)
Definition left_ok (n : nat) (left_defn : option defn) : Prop :=
  match left_defn with
  | None => True
  | Some d => (rank L d < n)%nat /\ (IsArrayLength g left_defn = Ok true -> smi_defn L d)
  end.

Lemma IsArrayLength_ok left_defn :
  returns (IsArrayLength g left_defn) (fun b =>
    forall d, left_defn = Some d -> b = true -> FlowGraph.IsConstant g d = false).
Proof.
  destruct left_defn as [d |]; [| apply returns_Ok; done]; simpl.
  destruct (UnwrapConstraint_ok g L WF d) as (u & Hu & _); rewrite Hu; apply returns_Ok.
  intros ? [= <-] Hb; unfold FlowGraph.IsConstant; destruct (instr (node g d)) eqn:Hi; try done.
  unfold UnwrapConstraint, depth in Hu; simpl in Hu; rewrite Hi in Hu; simplify_eq.
  rewrite Hi in Hb; done.
Qed.

(** The left operand is the symbol or has the range [l]. *)
Definition left_value (left_defn : option defn) (rho : defn -> Z) (x _ : Z) : Prop :=
  match left_defn with Some d => x = rho d | None => True end.

Lemma from_defn_ok n left_defn (is_length : bool) b :
  left_ok n left_defn -> IsArrayLength g left_defn = Ok is_length -> bwf n b ->
  let c := match left_defn with
           | Some d => if is_length then FromDefinition g d 0 else b
           | None => b
           end in
  bwf n c /\ (blive b -> dlive left_defn -> blive c) /\ forall rho x y, left_value left_defn rho x y ->
    (ge_bound rho b x -> ge_bound rho c x) /\ (le_bound rho b x -> le_bound rho c x).
Proof.
  destruct left_defn as [d |]; [| auto]; destruct is_length; [| auto]; intros [Hr Hs] Hl Hb; simpl.
  pose proof (returns_inv _ _ _ (IsArrayLength_ok (Some d)) Hl d eq_refl eq_refl) as Hc.
  rewrite FromDefinition_symbol by done; simpl; split_and!; auto; [unfold in_s; lia |].
  intros rho x y ->; lia.
Qed.

(** One side of the result of [Add] and [Sub]. *)
Definition side (n : nat) (l r : Range.t) (left_defn : option defn)
    (bound : (defn -> Z) -> t -> Z -> Prop) (f : Z -> Z -> Z) (c : t) : Prop :=
  bwf n c /\ (rlive l -> rlive r -> dlive left_defn -> blive c /\
    forall rho x y, agrees rho -> contains rho l x -> contains rho r y ->
      left_value left_defn rho x y -> bound rho c (f x y)).

Lemma transfer_sides n l r left_defn f lo hi :
  side n l r left_defn ge_bound f lo -> side n l r left_defn le_bound f hi ->
  transfer n l r left_defn (left_value left_defn) f (lo, hi).
Proof.
  intros [Wlo Hlo] [Whi Hhi]; split_and!; [done | done |]; intros Ll Lr Ld.
  destruct (Hlo Ll Lr Ld) as [? Hlo'], (Hhi Ll Lr Ld) as [? Hhi'].
  split_and!; [done | done |]; intros; split; eauto.
Qed.

Section Sides.
Context (n : nat) (l r : Range.t) (left_defn : option defn) (is_length : bool).
Context (Hn : (n <= depth g)%nat) (Wl : rwf n l) (Wr : rwf n r) (Hleft : left_ok n left_defn).
Context (Hlen : IsArrayLength g left_defn = Ok is_length).

Let from_defn (b : t) : t :=
  match left_defn with Some d => if is_length then FromDefinition g d 0 else b | None => b end.

Lemma Add_min_ok :
  returns (match SymbolicAdd g (from_defn (min_ l)) (min_ r) with
           | Some result => Ok result
           | None => let* a := LowerBound g (min_ l) in
                     let* b := LowerBound g (min_ r) in Boundary.Add a b NegativeInfinity
           end) (side n l r left_defn ge_bound Z.add).
Proof.
  destruct Wl as [W1 W2], Wr as [W3 W4].
  destruct (from_defn_ok n left_defn is_length _ Hleft Hlen W1) as (Wm & Lm & Sm).
  destruct (SymbolicAdd _ _ _) as [c |] eqn:Hc.
  - destruct (SymbolicAdd_ok n _ _ c Wm W3 Hc) as (? & ? & Hs); apply returns_Ok; split; [done |].
    intros [? ?] [? ?] ?; split; [auto |]; intros rho x y AG [? _] [? _] Hx.
    apply Hs; [apply (Sm rho x y Hx) |]; done.
  - call (LowerBound_ok g L WF) as a (Ha & Wa); [eapply bwf_mono, W1; lia |].
    call (LowerBound_ok g L WF) as b (Hb & Wb); [eapply bwf_mono, W3; lia |].
    eapply returns_mono; [apply (Add_bounding NegativeInfinity a b n); done |].
    intros c (? & ? & Hc'); split; [done |]; intros [? ?] [? ?] _; split; [done |].
    intros rho x y AG [? _] [? _] _; apply Hc'; [done | apply Wa | apply Wb]; done.
Qed.

Lemma Add_max_ok :
  returns (match SymbolicAdd g (from_defn (max_ l)) (max_ r) with
           | Some result => Ok result
           | None => let* b := UpperBound g (max_ r) in
                     let* a := UpperBound g (max_ l) in Boundary.Add b a PositiveInfinity
           end) (side n l r left_defn le_bound Z.add).
Proof.
  destruct Wl as [W1 W2], Wr as [W3 W4].
  destruct (from_defn_ok n left_defn is_length _ Hleft Hlen W2) as (WM & LM & SM).
  destruct (SymbolicAdd _ _ _) as [c |] eqn:Hc.
  - destruct (SymbolicAdd_ok n _ _ c WM W4 Hc) as (? & ? & Hs); apply returns_Ok; split; [done |].
    intros [? ?] [? ?] ?; split; [auto |]; intros rho x y AG [_ ?] [_ ?] Hx.
    apply Hs; [apply (SM rho x y Hx) |]; done.
  - call (UpperBound_ok g L WF) as a (Ha & Wa); [eapply bwf_mono, W4; lia |].
    call (UpperBound_ok g L WF) as b (Hb & Wb); [eapply bwf_mono, W2; lia |].
    eapply returns_mono; [apply (Add_bounding PositiveInfinity a b n); done |].
    intros c (? & ? & Hc'); split; [done |]; intros [? ?] [? ?] _; split; [done |].
    intros rho x y AG [_ ?] [_ ?] _; rewrite Z.add_comm.
    apply Hc'; [done | apply Wa | apply Wb]; done.
Qed.

Lemma Sub_min_ok :
  returns (match SymbolicSub g (from_defn (min_ l)) (max_ r) with
           | Some result => Ok result
           | None => let* a := LowerBound g (min_ l) in
                     let* b := UpperBound g (max_ r) in Boundary.Sub a b NegativeInfinity
           end) (side n l r left_defn ge_bound Z.sub).
Proof.
  destruct Wl as [W1 W2], Wr as [W3 W4].
  destruct (from_defn_ok n left_defn is_length _ Hleft Hlen W1) as (Wm & Lm & Sm).
  destruct (SymbolicSub _ _ _) as [c |] eqn:Hc.
  - destruct (SymbolicSub_ok n _ _ c Wm W4 Hc) as (? & ? & Hs); apply returns_Ok; split; [done |].
    intros [? ?] [? ?] ?; split; [auto |]; intros rho x y AG [? _] [_ ?] Hx.
    apply Hs; [apply (Sm rho x y Hx) |]; done.
  - call (LowerBound_ok g L WF) as a (Ha & Wa); [eapply bwf_mono, W1; lia |].
    call (UpperBound_ok g L WF) as b (Hb & Wb); [eapply bwf_mono, W4; lia |].
    eapply returns_mono; [eapply (Sub_bounding NegativeInfinity PositiveInfinity a b n); eauto |].
    intros c (? & ? & Hc'); split; [done |]; intros [? ?] [? ?] _; split; [done |].
    intros rho x y AG [? _] [_ ?] _; apply Hc'; [done | apply Wa | apply Wb]; done.
Qed.

Lemma Sub_max_ok :
  returns (match SymbolicSub g (from_defn (max_ l)) (min_ r) with
           | Some result => Ok result
           | None => let* a := UpperBound g (max_ l) in
                     let* b := LowerBound g (min_ r) in Boundary.Sub a b PositiveInfinity
           end) (side n l r left_defn le_bound Z.sub).
Proof.
  destruct Wl as [W1 W2], Wr as [W3 W4].
  destruct (from_defn_ok n left_defn is_length _ Hleft Hlen W2) as (WM & LM & SM).
  destruct (SymbolicSub _ _ _) as [c |] eqn:Hc.
  - destruct (SymbolicSub_ok n _ _ c WM W3 Hc) as (? & ? & Hs); apply returns_Ok; split; [done |].
    intros [? ?] [? ?] ?; split; [auto |]; intros rho x y AG [_ ?] [? _] Hx.
    apply Hs; [apply (SM rho x y Hx) |]; done.
  - call (UpperBound_ok g L WF) as a (Ha & Wa); [eapply bwf_mono, W2; lia |].
    call (LowerBound_ok g L WF) as b (Hb & Wb); [eapply bwf_mono, W3; lia |].
    eapply returns_mono; [eapply (Sub_bounding PositiveInfinity NegativeInfinity a b n); eauto |].
    intros c (? & ? & Hc'); split; [done |]; intros [? ?] [? ?] _; split; [done |].
    intros rho x y AG [_ ?] [? _] _; apply Hc'; [done | apply Wa | apply Wb]; done.
Qed.
End Sides.

Lemma Add_ok n l r left_defn :
  (n <= depth g)%nat -> rwf n l -> rwf n r -> left_ok n left_defn ->
  returns (Ranges.Add g l r left_defn) (transfer n l r left_defn (left_value left_defn) Z.add).
Proof.
  intros Hn Wl Wr Hleft; unfold Ranges.Add.
  destruct (IsArrayLength_ok left_defn) as (is_length & Hlen & _); rewrite Hlen; cbn [obind].
  call (Add_min_ok n l r left_defn is_length) as lo Hlo; [done.. |].
  call (Add_max_ok n l r left_defn is_length) as hi Hhi; [done.. |].
  apply returns_Ok, transfer_sides; done.
Qed.

Lemma Sub_ok n l r left_defn :
  (n <= depth g)%nat -> rwf n l -> rwf n r -> left_ok n left_defn ->
  returns (Ranges.Sub g l r left_defn) (transfer n l r left_defn (left_value left_defn) Z.sub).
Proof.
  intros Hn Wl Wr Hleft; unfold Ranges.Sub.
  destruct (IsArrayLength_ok left_defn) as (is_length & Hlen & _); rewrite Hlen; cbn [obind].
  call (Sub_min_ok n l r left_defn is_length) as lo Hlo; [done.. |].
  call (Sub_max_ok n l r left_defn is_length) as hi Hhi; [done.. |].
  apply returns_Ok, transfer_sides; done.
Qed.

(** ** Multiplication *)

(** [Mul] takes absolute values of bounds: they must not be [kMinInt64]. *)
Definition abs_defined (r : Range.t) : Prop :=
  forall lo hi, Ranges.min_int64 g r = Ok lo -> Ranges.max_int64 g r = Ok hi ->
    kMinInt64 < lo /\ kMinInt64 < hi.

Lemma Abs_abs v : in_s 64 v -> kMinInt64 < v -> Abs 64 v = Z.abs v.
Proof.
  intros Hv Hm; unfold Abs; destruct (Z.ltb_spec v 0); [| lia].
  rewrite to_s_id; [lia | lia |]; unfold in_s, kMinInt64 in *; lia.
Qed.

(** The product of values of the same sign. *)
Definition nonneg_or_nonpos (ll lh rl rh : Z) : Prop :=
  (0 <= ll /\ 0 <= rl) \/ (lh <= 0 /\ rh <= 0).

Lemma same_sign_ok l r ll lh rl rh :
  rok l -> rok r -> Ranges.min_int64 g l = Ok ll -> Ranges.max_int64 g l = Ok lh ->
  Ranges.min_int64 g r = Ok rl -> Ranges.max_int64 g r = Ok rh ->
  returns (Ranges.same_sign g l r) (fun b => b = true -> nonneg_or_nonpos ll lh rl rh).
Proof.
  intros Wl Wr Hll Hlh Hrl Hrh; unfold Ranges.same_sign, nonneg_or_nonpos.
  apply (returns_bind _ _ (fun b => b = true -> 0 <= ll /\ 0 <= rl)).
  { unfold Ranges.OnlyPositiveOrZero; call OnlyGreaterThanOrEqualTo_ok as a Ha; [done |].
    destruct a; [| apply returns_Ok; done].
    eapply returns_mono; [apply OnlyGreaterThanOrEqualTo_ok; done |]; intros b Hb ->.
    destruct (Ha eq_refl) as (? & ? & ?), (Hb eq_refl) as (? & ? & ?); simplify_eq/=.
    split; congruence. }
  intros [] Hpos; [apply returns_Ok; auto |].
  unfold Ranges.OnlyNegativeOrZero; call OnlyLessThanOrEqualTo_ok as a Ha; [done |].
  destruct a; [| apply returns_Ok; done].
  eapply returns_mono; [apply OnlyLessThanOrEqualTo_ok; done |]; intros b Hb ->.
  destruct (Ha eq_refl) as (? & ? & ?), (Hb eq_refl) as (? & ? & ?); right; split; congruence.
Qed.

Lemma abs_le_product x y m n : Z.abs x <= m -> Z.abs y <= n -> - (m * n) <= x * y <= m * n.
Proof.
  intros Hx Hy; assert (Z.abs (x * y) <= m * n) by (rewrite Z.abs_mul; nia); lia.
Qed.

Lemma same_sign_product ll lh rl rh x y :
  nonneg_or_nonpos ll lh rl rh -> ll <= x <= lh -> rl <= y <= rh ->
  Z.min (Z.abs ll) (Z.abs lh) * Z.min (Z.abs rl) (Z.abs rh) <= x * y.
Proof.
  intros Hs Hx Hy.
  assert (0 <= Z.min (Z.abs ll) (Z.abs lh) <= Z.abs x) by (destruct Hs; lia).
  assert (0 <= Z.min (Z.abs rl) (Z.abs rh) <= Z.abs y) by (destruct Hs; lia).
  assert (x * y = Z.abs x * Z.abs y) as -> by (rewrite <- Z.abs_mul; destruct Hs; nia).
  nia.
Qed.

Lemma Mul_fits ll lh rl rh (lm := Z.max (Z.abs ll) (Z.abs lh)) (rm := Z.max (Z.abs rl) (Z.abs rh)) k :
  (lm <=? k) && (rm <=? k) && ((lm =? 0) || (rm <=? Z.quot kMaxInt64 lm)) = true ->
  forall z, Z.abs z <= lm * rm -> in_s 64 z.
Proof.
  intros Hfit z Hz; assert (lm * rm <= kMaxInt64).
  { rewrite !andb_true_iff, orb_true_iff, Z.eqb_eq, !Z.leb_le in Hfit.
    destruct (Z.eqb_spec lm 0) as [-> |]; [unfold kMaxInt64; lia |].
    destruct Hfit as [_ [| Hq]]; [done |].
    rewrite Z.quot_div_nonneg in Hq by (unfold kMaxInt64; lia).
    pose proof (Z.mul_div_le kMaxInt64 lm ltac:(lia)); nia. }
  apply in_s_64; unfold kMinInt64, kMaxInt64 in *; lia.
Qed.

Lemma Mul_ok n l r left_defn :
  rok l -> rok r ->
  returns (Ranges.Mul g l r)
    (transfer n l r left_defn (fun _ _ _ => abs_defined l /\ abs_defined r) Z.mul).
Proof.
  intros Wl Wr; unfold Ranges.Mul, Ranges.ConstantAbsMax, Ranges.ConstantAbsMin.
  destruct (int64_bounds l Wl) as (ll & lh & Hll & Hlh & Bl); destruct (Bl) as (? & ? & _).
  destruct (int64_bounds r Wr) as (rl & rh & Hrl & Hrh & Br); destruct (Br) as (? & ? & _).
  destruct (same_sign_ok l r ll lh rl rh Wl Wr Hll Hlh Hrl Hrh) as (same & -> & Hsame).
  rewrite Hll, Hlh, Hrl, Hrh; cbn [obind]; rewrite !Maximum_max, !Minimum_min.
  assert (forall z n, bwf n (Constant (int64 z))) as Hb by (intros; apply to_s_range; lia).
  destruct (_ && _) eqn:Hfit; cycle 1.
  { destruct same; apply returns_Ok; eapply transfer_bounds; try done.
    intros rho x y Hx Hy _ _ _; split; [| done].
    simpl; etransitivity; [| apply (same_sign_product ll lh rl rh); auto].
    apply Z.mul_nonneg_nonneg; lia. }
  assert (abs_defined l /\ abs_defined r ->
    Abs 64 ll = Z.abs ll /\ Abs 64 lh = Z.abs lh /\ Abs 64 rl = Z.abs rl /\ Abs 64 rh = Z.abs rh) as Habs.
  { intros [Al Ar]; destruct (Al _ _ Hll Hlh), (Ar _ _ Hrl Hrh); rewrite !Abs_abs by done; done. }
  destruct same; apply returns_Ok; eapply transfer_bounds; try done.
  all: intros rho x y Hx Hy _ _ Hok; destruct (Habs Hok) as (E1 & E2 & E3 & E4).
  all: rewrite E1, E2, E3, E4 in *; pose proof (Mul_fits _ _ _ _ _ Hfit) as Hin.
  all: pose proof (abs_le_product x y (Z.abs ll `max` Z.abs lh) (Z.abs rl `max` Z.abs rh)
                     ltac:(lia) ltac:(lia)).
  - rewrite !to_s_id by (lia || apply Hin; nia); simpl; split; [| lia].
    apply same_sign_product; auto.
  - rewrite (to_s_id 64 (_ * _)) by (lia || apply Hin; nia).
    rewrite to_s_id by (lia || apply Hin; nia); simpl; lia.
Qed.

(** * Binary operations *)
Definition binary_value (op : Token.Kind) (x y : Z) : Z :=
  match op with
  | Token.kADD => x + y
  | Token.kSUB => x - y
  | Token.kMUL => x * y
  | Token.kSHL => x * 2 ^ y
  | Token.kSHR => Z.shiftr x y
  | Token.kBIT_AND => Z.land x y
  | Token.kBIT_OR => Z.lor x y
  | Token.kBIT_XOR => Z.lxor x y
  | _ => 0
  end.

(** Operands at which the operation has a value: a negative shift count throws. *)
Definition binary_defined (op : Token.Kind) (y : Z) : Prop :=
  op = Token.kSHL \/ op = Token.kSHR -> 0 <= y.

(** The ranges that the transfer functions of [kSHR] and [kMUL] are meant for. *)
Definition supported (op : Token.Kind) (l r : Range.t) : Prop :=
  match op with
  | Token.kSHR => shift_counts r
  | Token.kMUL => abs_defined l /\ abs_defined r
  | _ => True
  end.

Lemma transfer_finish n l r left_defn ok f (m : outcome (t * t)) :
  returns m (transfer n l r left_defn ok f) ->
  returns (let* (lo, hi) := m in
           ASSERT (negb (IsUnknown lo) && negb (IsUnknown hi)) ;; Ok (make lo hi))
    (fun res => rwf n res /\ (rlive l -> rlive r -> dlive left_defn -> rlive res /\
       forall rho x y, agrees rho -> in_s 64 x -> in_s 64 y ->
         contains rho l x -> contains rho r y -> ok rho x y -> contains rho res (f x y))).
Proof.
  intros Hm; call Hm as [lo hi] (Wlo & Whi & Hf); simpl in *.
  assert (forall b, bwf n b -> IsUnknown b = false) as Hk by (intros []; done).
  rewrite !Hk by done; apply returns_Ok; split; [done |]; intros Ll Lr Ld.
  destruct (Hf Ll Lr Ld) as (? & ? & Hf'); split; [done |]; intros; apply Hf'; auto.
Qed.

Lemma BinaryOp_ok n op l r left_defn :
  (n <= depth g)%nat -> rwf n l -> rwf n r -> left_ok n left_defn ->
  Ranges.IsFinite l = true -> Ranges.IsFinite r = true ->
  returns (Ranges.BinaryOp g op l r left_defn) (fun res => rwf n res /\
    (rlive l -> rlive r -> dlive left_defn -> rlive res /\
       forall rho x y, agrees rho -> in_s 64 x -> in_s 64 y ->
         contains rho l x -> contains rho r y -> left_value left_defn rho x y ->
         supported op l r -> binary_defined op y -> contains rho res (binary_value op x y))).
Proof.
  intros Hn Wl Wr Hd Fl Fr; unfold Ranges.BinaryOp; rewrite Fl, Fr.
  assert (rok l /\ rok r) as [Ol Or].
  { split; split; eapply bwf_mono; try apply Hn; first [apply Wl | apply Wr]. }
  assert (bitwise orb Z.lor /\ bitwise xorb Z.lxor) as [Bor Bxor].
  { split; split; intros; first [apply Z.lor_spec | apply Z.lxor_spec | apply Z.lor_nonneg; auto
                                | apply Z.lxor_nonneg; tauto]. }
  assert (forall ok f m, returns m (transfer n l r left_defn ok f) ->
    (forall x y, binary_value op x y = f x y) ->
    (forall rho x y, left_value left_defn rho x y -> supported op l r -> binary_defined op y ->
       ok rho x y) ->
    returns (let* (lo, hi) := m in
             ASSERT (negb (IsUnknown lo) && negb (IsUnknown hi)) ;; Ok (make lo hi))
      (fun res => rwf n res /\ (rlive l -> rlive r -> dlive left_defn -> rlive res /\
         forall rho x y, agrees rho -> in_s 64 x -> in_s 64 y ->
           contains rho l x -> contains rho r y -> left_value left_defn rho x y ->
           supported op l r -> binary_defined op y -> contains rho res (binary_value op x y)))) as Hfinish.
  { intros ok f m Hm Hf Hok; eapply returns_mono; [apply (transfer_finish _ _ _ _ _ _ _ Hm) |].
    intros res [Wres Hres]; split; [done |]; intros Ll Lr Ld; destruct (Hres Ll Lr Ld) as [? Hc].
    split; [done |]; intros; rewrite Hf; apply Hc; auto. }
  destruct op; try (apply returns_Ok; done).
  - eapply Hfinish; [apply Add_ok; done | done | done].
  - eapply Hfinish; [apply Sub_ok; done | done | done].
  - eapply Hfinish; [apply Mul_ok; done | done | auto].
  - eapply Hfinish; [apply Shl_ok; done | done | unfold binary_defined; auto].
  - eapply Hfinish; [apply Shr_ok; done | done | unfold binary_defined; auto].
  - eapply Hfinish; [apply And_ok; done | done | done].
  - eapply Hfinish; [apply (BitwiseOp_ok _ _ _ _ orb Z.lor); done | done | done].
  - eapply Hfinish; [apply (BitwiseOp_ok _ _ _ _ xorb Z.lxor); done | done | done].
Qed.
End Operations.
