(* ===== verification/RangeAnalysisProofs.v ===== *)
(** Soundness of the range analysis: constraints, transfer of the instructions,
    joins and widening, the iteration, and the elimination of bound checks. *)
From stdpp Require Import base list numbers.
From Stdlib Require Import ZArith Lia.
From S2P Require Import Prelude Utils UtilsProofs Locations FlowGraph Ranges RangeAnalysis RangeProofs.
From S2P Require Import RangeOpProofs.
Import RangeBoundary.
Import Range(min_, max_, make).
Import Boundary.
#[local] Open Scope Z_scope.

(** * Updates of the graph *)
Section Updates.
Context `{Word}.

Lemma node_set_node g d n d' :
  (d < length (definitions g))%nat ->
  node (set_node g d n) d' = if decide (d = d') then n else node g d'.
Proof.
  intros Hd; unfold node, set_node; simpl; case_decide as Heq.
  - subst; rewrite list_lookup_insert_eq by done; done.
  - rewrite list_lookup_insert_ne by done; done.
Qed.

Lemma length_set_node g d n : length (definitions (set_node g d n)) = length (definitions g).
Proof. apply length_insert. Qed.

(** [g'] has the instructions of [g], up to the overflow flags, and its own ranges. *)
Definition same_instr (i i' : Instr) : Prop :=
  match i, i' with
  | BinaryIntegerOpInstr c k l r _ t, BinaryIntegerOpInstr c' k' l' r' _ t' =>
      c = c' /\ k = k' /\ l = l' /\ r = r' /\ t = t'
  | _, _ => i = i'
  end.

Definition same_shape (g g' : FlowGraph) : Prop :=
  length (definitions g) = length (definitions g')
  /\ forall d, same_instr (instr (node g d)) (instr (node g' d)).

(** The other attributes of the definitions are never changed. *)
Definition same_types (g g' : FlowGraph) : Prop :=
  Dominates g' = Dominates g /\ forall d,
    ToCid (node g' d) = ToCid (node g d) /\ IsInt_type (node g' d) = IsInt_type (node g d)
    /\ representation (node g' d) = representation (node g d)
    /\ block (node g' d) = block (node g d).

Lemma same_shape_constant g g' d :
  same_shape g g' -> FlowGraph.IsConstant g' d = FlowGraph.IsConstant g d.
Proof.
  intros [_ Hs]; specialize (Hs d); unfold FlowGraph.IsConstant.
  destruct (instr (node g d)), (instr (node g' d)); simplify_eq/=; done.
Qed.

Lemma same_shape_bwf g g' L n b : same_shape g g' -> bwf g L n b -> bwf g' L n b.
Proof. intros Hs; destruct b; simpl; rewrite ?(same_shape_constant g g') by done; done. Qed.

Lemma same_shape_rwf g g' L n r : same_shape g g' -> rwf g L n r -> rwf g' L n r.
Proof. intros Hs [? ?]; split; eapply same_shape_bwf; eauto. Qed.

Lemma same_shape_operand g g' L d v : same_shape g g' -> operand g L d v -> operand g' L d v.
Proof.
  intros Hs (? & ? & ? & Hc); split_and!; [done.. |].
  rewrite (same_shape_constant g g') by done; intros Hv; destruct (Hc Hv) as (c & Hi & ?).
  exists c; split; [| done]; destruct Hs as [_ Hs]; specialize (Hs v); rewrite Hi in Hs.
  destruct (instr (node g' v)); simplify_eq/=; done.
Qed.

Lemma same_shape_wf g g' L :
  same_shape g g' -> wf g L ->
  (forall d r, range (node g' d) = Some r ->
     rwf g L (rank L d) r /\ Ranges.IsFinite r = true /\ (live L d -> rlive L r)) ->
  wf g' L.
Proof.
  intros Hs WF Hr; destruct (Hs) as [Hlen Hi]; split.
  - intros d; rewrite <- Hlen; apply WF.
  - intros d r Hd; destruct (Hr d r Hd) as (? & ? & ?); eauto using same_shape_rwf.
  - intros d v c Hd; specialize (Hi d); rewrite Hd in Hi.
    destruct (instr (node g d)) eqn:Hg; simplify_eq/=.
    destruct (wf_constraint _ _ WF _ _ _ Hg) as (? & ? & ?).
    rewrite (same_shape_constant g g') by done; eauto using same_shape_operand.
  - intros d op l r o tr Hd; specialize (Hi d); rewrite Hd in Hi.
    destruct (instr (node g d)) eqn:Hg; simplify_eq/=; destruct Hi as (-> & -> & -> & -> & ->).
    destruct (wf_smi_op _ _ WF _ _ _ _ _ _ Hg) as (? & ? & ?).
    rewrite !(same_shape_constant g g') by done; eauto using same_shape_operand.
Qed.

Lemma same_instr_refl i : same_instr i i.
Proof. destruct i; simpl; auto. Qed.

Lemma set_range_shape g d r : same_shape g (set_range g d r).
Proof.
  unfold set_range; split; [rewrite length_set_node; done |]; intros d'.
  destruct (decide (d < length (definitions g))%nat) as [Hd | Hd].
  - rewrite node_set_node by done; case_decide; subst; apply same_instr_refl.
  - unfold set_node, node; simpl; rewrite list_insert_ge by lia; apply same_instr_refl.
Qed.

Lemma set_range_wf g L d r :
  (d < length (definitions g))%nat -> wf g L -> rwf g L (rank L d) r ->
  Ranges.IsFinite r = true -> (live L d -> rlive L r) ->
  wf (set_range g d r) L.
Proof.
  intros Hd WF Hr Hf Hl; eapply same_shape_wf; [apply set_range_shape | done |].
  intros d' r'; unfold set_range; rewrite node_set_node by done; case_decide; subst; simpl.
  - intros [= <-]; done.
  - apply (wf_range _ _ WF).
Qed.

Lemma set_range_node g d r d' :
  (d < length (definitions g))%nat ->
  instr (node (set_range g d r) d') = instr (node g d').
Proof. intros Hd; unfold set_range; rewrite node_set_node by done; case_decide; subst; done. Qed.

Lemma set_range_agrees g L rho d r :
  (d < length (definitions g))%nat -> agrees g L rho -> (live L d -> contains rho r (rho d)) ->
  agrees (set_range g d r) L rho.
Proof.
  intros Hd AG Hr; split.
  - apply (agrees_smi _ _ _ AG).
  - intros d' v; rewrite set_range_node by done; apply (agrees_constant _ _ _ AG).
  - intros d' v c; rewrite set_range_node by done; apply (agrees_constraint _ _ _ AG).
  - intros d' l r' o tr; rewrite set_range_node by done; apply (agrees_add _ _ _ AG).
  - intros d' l r' o tr; rewrite set_range_node by done; apply (agrees_sub _ _ _ AG).
  - intros a b; unfold AllowsCSE, Dependencies_IsNone, FlowGraph.Equals.
    rewrite !set_range_node by done; apply (agrees_cse _ _ _ AG).
  - intros d' r' Hl; unfold set_range; rewrite node_set_node by done; case_decide; subst; simpl.
    + intros [= <-]; auto.
    + apply (agrees_range _ _ _ AG); done.
Qed.
End Updates.

(** * Definitions as boundaries *)
Section Boundaries.
Context `{Word} (g : FlowGraph) (L : Layout) (WF : wf g L).

(** A definition that holds a smi; a constant is a smi constant. *)
Definition smi_value (d : defn) : Prop :=
  smi_defn L d /\ (FlowGraph.IsConstant g d = true ->
    exists c, instr (node g d) = ConstantInstr (SmiObject c) /\ smi c).

Lemma FromDefinition_ok n d o :
  smi_value d -> (rank L d < n)%nat -> -1 <= o <= 1 ->
  bwf g L n (FromDefinition g d o) /\ (live L d -> blive L (FromDefinition g d o) /\
    forall rho x, agrees g L rho ->
      (ge_bound rho (FromDefinition g d o) x <-> rho d + o <= x) /\
      (le_bound rho (FromDefinition g d o) x <-> x <= rho d + o)).
Proof.
  intros [Hsmi Hc] Hr Ho; destruct (FlowGraph.IsConstant g d) eqn:Hd.
  - destruct (Hc eq_refl) as (c & Hi & Hsc); unfold FromDefinition; rewrite Hi.
    assert (in_s 64 (c + o)) as Hin.
    { apply in_s_64; unfold smi, kSmiMin, kSmiMax, kSmiBits, kMinInt64, kMaxInt64 in *.
      destruct word_width as [E | E]; rewrite E in Hsc; lia. }
    rewrite to_s_id by (lia || done); split; [done |]; intros Hl; split; [done |].
    intros rho x AG; rewrite (agrees_constant _ _ _ AG _ _ Hl Hi); done.
  - rewrite FromDefinition_symbol by done; simpl; split_and!; auto; unfold in_s; lia.
Qed.

(** * Bound checks *)
Lemma rank_depth d : (rank L d < depth g)%nat.
Proof. pose proof (wf_rank _ _ WF d); unfold depth; lia. Qed.

(** [b] is an upper, or a lower, boundary for the value of [d]. *)
Definition above (d : defn) (b : t) : Prop :=
  bwf g L (depth g) b /\ (live L d -> blive L b /\ forall rho, agrees g L rho -> le_bound rho b (rho d)).
Definition below (d : defn) (b : t) : Prop :=
  bwf g L (depth g) b /\ (live L d -> blive L b /\ forall rho, agrees g L rho -> ge_bound rho b (rho d)).

Lemma FromDefinition_above d :
  smi_value d -> above d (FromDefinition g d 0) /\ below d (FromDefinition g d 0).
Proof.
  intros Hd; destruct (FromDefinition_ok (depth g) d 0 Hd (rank_depth d)) as [W S]; [lia |].
  split; (split; [done |]); intros Hl; destruct (S Hl) as [? S']; (split; [done |]).
  all: intros rho AG; apply S'; [done | lia].
Qed.

Lemma above_weaker d b c : above d b -> bwf g L (depth g) c -> weaker_le g L b c -> above d c.
Proof.
  intros [_ Ha] Wc Hw; split; [done |]; intros Hl; destruct (Ha Hl) as [Hb Ha'].
  destruct (Hw Hb) as [? Hw']; eauto.
Qed.

Lemma below_weaker d b c : below d b -> bwf g L (depth g) c -> weaker_ge g L b c -> below d c.
Proof.
  intros [_ Ha] Wc Hw; split; [done |]; intros Hl; destruct (Ha Hl) as [Hb Ha'].
  destruct (Hw Hb) as [? Hw']; eauto.
Qed.

(** The first test of [IsRedundant]: the index is not negative. *)
Lemma index_min_ok index r :
  range (node g index) = Some r -> smi_value index ->
  returns (let* m := Ranges.ConstantMin g (Some r) kRangeBoundarySmi in ConstantValue m) (fun m =>
    live L index -> forall rho, agrees g L rho -> m <= rho index).
Proof.
  intros Hrange Hi; destruct (wf_range _ _ WF _ _ Hrange) as ([Wmin _] & _ & Hlive).
  assert (bwf g L (depth g) (min_ r)) as Wmin'.
  { eapply bwf_mono, Wmin; pose proof (rank_depth index); lia. }
  destruct (LowerBound_size_ok g L WF (min_ r) kRangeBoundarySmi Wmin') as (m & Hm & _ & _ & Hge).
  exists m; split; [unfold LowerBound_size in Hm; simpl; destruct (LowerBound g (min_ r)); done |].
  intros Li rho AG; apply (Hge (proj1 (Hlive Li)) rho _ AG).
  - apply (agrees_smi _ _ _ AG); [done | apply Hi].
  - apply (agrees_range _ _ _ AG _ _ Li Hrange).
Qed.

(** The symbolic comparison of an upper boundary with a lower one. *)
Lemma symbolic_comparison_ok index len max clen :
  above index max -> below len clen ->
  returns (same_symbol_loop g (CanonicalizeMaxBoundary g) (CanonicalizeMinBoundary g)
             (S (2 * depth g)) max clen) (fun res =>
    forall a b, res = Some (a, b) -> offset a < offset b ->
    live L index -> live L len -> forall rho, agrees g L rho -> rho index < rho len).
Proof.
  intros [Wmax Amax] [Wlen Blen]; eapply returns_mono.
  { apply (same_symbol_loop_ok g L WF _ _ (weaker_le g L) (weaker_ge g L) (depth g)); try done.
    - intros a Ha; eapply CanonicalizeMaxBoundary_ok; eauto.
    - intros a Ha; eapply CanonicalizeMinBoundary_ok; eauto.
    - pose proof (bwf_measure _ _ _ _ Wmax); pose proof (bwf_measure _ _ _ _ Wlen); lia. }
  intros res Hres a b -> Hlt Li Ll rho AG.
  destruct (Hres _ _ eq_refl) as (_ & _ & Ra & Rb & s & o & s' & o' & -> & -> & Hs).
  destruct (Amax Li) as [La Ha], (Blen Ll) as [Lb Hb].
  destruct (Ra La) as [La' Ra'], (Rb Lb) as [Lb' Rb']; specialize (Hs La' Lb' rho AG).
  pose proof (Ra' rho _ AG (Ha rho AG)); pose proof (Rb' rho _ AG (Hb rho AG)); simpl in *; lia.
Qed.

Lemma IsRedundant_ranged_sound index len r :
  range (node g index) = Some r -> smi_value index -> smi_value len ->
  returns (IsRedundant_ranged g index (FromDefinition g len 0)) (fun redundant =>
    redundant = true -> live L index -> live L len ->
    forall rho, agrees g L rho -> 0 <= rho index < rho len).
Proof.
  intros Hrange Hi Hl; unfold IsRedundant_ranged; rewrite Hrange.
  destruct (index_min_ok index r Hrange Hi) as (m & Hm & Hpos).
  destruct (Ranges.ConstantMin _ _ _) as [mb |]; [| done]; cbn [obind] in *; rewrite Hm; cbn [obind].
  destruct (Z.ltb_spec m 0); [apply returns_Ok; done |].
  destruct (FromDefinition_above index Hi) as [Ai _], (FromDefinition_above len Hl) as [_ Bl].
  call (CanonicalizeBoundary_ok g L WF (depth g)) as max Hmax; [apply Ai |].
  destruct (OverflowedSmi max) eqn:Omax; [apply returns_Ok; done |].
  destruct Hmax as [-> | [Wmax Hmax%equivalent_le]]; [done |].
  pose proof (above_weaker _ _ _ Ai Wmax Hmax) as Amax.
  call (UpperBound_ok g L WF) as u (Hu & Wu); [done |].
  call (LowerBound_ok g L WF) as l (Hl' & Wl); [apply Bl |].
  destruct (OverflowedSmi u || OverflowedSmi l) eqn:Oul; [apply returns_Ok; done |].
  apply orb_false_iff in Oul as [Ou Ol].
  destruct Hu as [-> | (uv & -> & Iu)]; [done |]; destruct Hl' as [-> | (lv & -> & Il)]; [done |].
  destruct (above_weaker _ _ (Constant uv) Amax Iu Wu) as [_ Au].
  destruct (below_weaker _ _ (Constant lv) Bl Il Wl) as [_ Bv].
  cbn [ConstantValue obind]; destruct (Z.ltb_spec uv lv).
  { apply returns_Ok; intros _ Li Ll rho AG; specialize (Hpos Li rho AG).
    pose proof (proj2 (Au Li) rho AG); pose proof (proj2 (Bv Ll) rho AG); simpl in *; lia. }
  call (CanonicalizeBoundary_ok g L WF (depth g)) as clen Hclen; [apply Bl |].
  destruct (OverflowedSmi clen) eqn:Oclen; [apply returns_Ok; done |].
  destruct Hclen as [-> | [Wclen Hclen%equivalent_ge]]; [done |].
  call (symbolic_comparison_ok index len) as res Hres; [done | eapply below_weaker; eauto |].
  apply returns_Ok; destruct res as [[a b] |]; [| done]; intros Hlt%Z.ltb_lt Li Ll rho AG.
  specialize (Hpos Li rho AG); specialize (Hres _ _ eq_refl Hlt Li Ll rho AG); lia.
Qed.
End Boundaries.

Section Checks.
Context `{Word} (L : Layout).

Lemma smi_value_set_range g d r v :
  (d < length (definitions g))%nat -> smi_value g L v -> smi_value (set_range g d r) L v.
Proof.
  intros Hd [Hs Hc]; split; [done |]; unfold FlowGraph.IsConstant in *.
  rewrite !set_range_node by done; done.
Qed.

(** What every step of the elimination keeps: the same definitions with the same
    values. *)
Definition refines (g g' : FlowGraph) : Prop :=
  (forall rho, agrees g L rho -> agrees g' L rho) /\ wf g' L
  /\ forall v, smi_value g L v -> smi_value g' L v.

Lemma IsRedundant_sound g index len :
  wf g L -> smi_value g L index -> smi_value g L len ->
  returns (IsRedundant g index (FromDefinition g len 0)) (fun '(g', redundant) =>
    refines g g' /\ (redundant = true -> live L index -> live L len ->
      forall rho, agrees g L rho -> 0 <= rho index < rho len)).
Proof.
  intros WF Hi Hl; unfold IsRedundant; destruct (range (node g index)) as [r |] eqn:Hrange.
  { call (IsRedundant_ranged_sound g L WF) as b Hb; [done.. |].
    apply returns_Ok; split; [| done]; split_and!; done. }
  assert (refines g g) as Hrefl by (split_and!; done).
  destruct (instr (node g index)) as [[c | |] | | | | | | | | | | | | | |] eqn:Hinstr;
    try (apply returns_Ok; done).
  assert (index < length (definitions g))%nat as Hlt.
  { apply lookup_lt_is_Some_1; unfold node in Hinstr.
    destruct (definitions g !! index); [eauto | done]. }
  assert (smi c) as Hsc.
  { destruct Hi as [_ Hc]; unfold FlowGraph.IsConstant in Hc; rewrite Hinstr in Hc.
    destruct (Hc eq_refl) as (c' & [= <-] & ?); done. }
  cbn [Constant_InferRange obind]; set (r := make (Constant c) (Constant c)).
  assert (wf (set_range g index r) L) as WF'.
  { apply set_range_wf; [done | done | split; apply smi_in_s; done | done | done]. }
  assert (forall rho, agrees g L rho -> agrees (set_range g index r) L rho) as AG'.
  { intros rho AG; apply set_range_agrees; [done | done |]; intros Li.
    rewrite (agrees_constant _ _ _ AG _ _ Li Hinstr); split; simpl; lia. }
  assert (FromDefinition g len 0 = FromDefinition (set_range g index r) len 0) as ->.
  { unfold FromDefinition; rewrite set_range_node by done; done. }
  call (IsRedundant_ranged_sound _ L WF') as b Hb.
  { unfold set_range; rewrite node_set_node, decide_True by done; done. }
  { apply smi_value_set_range; done. }
  { apply smi_value_set_range; done. }
  apply returns_Ok; split; [split_and!; auto using smi_value_set_range |]; eauto.
Qed.

(** ** The pass *)
(** What the pass relies on when it calls the generalizer: it ends without an error,
    and the definitions of the graph keep their values and their ranges.  Nothing is
    said of the checks it removes. *)
Class Generalizer (TryGeneralize : FlowGraph -> defn * defn -> RangeBoundary.t ->
    outcome (FlowGraph * bool)) : Prop :=
  TryGeneralize_refines g check array_length :
    wf g L -> returns (TryGeneralize g check array_length) (fun '(g', _) => refines g g').

Lemma refines_refl g : wf g L -> refines g g.
Proof. intros WF; split_and!; done. Qed.

Lemma refines_trans g1 g2 g3 : refines g1 g2 -> refines g2 g3 -> refines g1 g3.
Proof. intros (? & ? & ?) (? & ? & ?); split_and!; eauto. Qed.

(** The fate of a check that is not redundant, which leaves every check alone. *)
Lemma not_redundant_ok gen TryGeneralize g check array_length :
  (gen = true -> Generalizer TryGeneralize) -> wf g L ->
  returns (if gen : bool then
             let* (g, removed) := TryGeneralize g check array_length in
             Ok (g, if removed : bool then Generalized else Kept)
           else Ok (g, Kept)) (fun '(g', fate) => refines g g' /\ fate <> Redundant).
Proof.
  intros HG WF; destruct gen; [| apply returns_Ok; split; [apply refines_refl |]; done].
  call (HG eq_refl g check array_length WF) as [g' removed] Hr.
  apply returns_Ok; split; [done | by destruct removed].
Qed.

(** A check in force: it passes in every run whose values are those of the graph. *)
Definition passes (g : FlowGraph) (check : defn * defn) : Prop :=
  live L check.1 -> live L check.2 ->
  forall rho, agrees g L rho -> 0 <= rho check.2 < rho check.1.

Lemma eliminate_checks_ok gen TryGeneralize g checks :
  (gen = true -> Generalizer TryGeneralize) -> wf g L ->
  Forall (fun check => smi_value g L check.1 /\ smi_value g L check.2) checks ->
  returns (eliminate_checks gen TryGeneralize g checks) (fun '(g', fates) =>
    refines g g' /\ fates.*1 = checks /\
    Forall (fun '(check, fate) => fate = Redundant -> passes g check) fates).
Proof.
  intros HG; revert g; induction checks as [| [len index] checks IH]; intros g WF Hv; simpl.
  { apply returns_Ok; split_and!; [by apply refines_refl | done | constructor]. }
  inversion_clear Hv as [| ? ? [Hlen Hindex] Hv']; cbn [fst snd] in *.
  call IsRedundant_sound as [g1 redundant] (Hr1 & Hred); [done.. |].
  assert (returns (if redundant : bool then Ok (g1, Redundant)
      else if gen then
        let* (g, removed) := TryGeneralize g1 (len, index) (FromDefinition g len 0) in
        Ok (g, if removed : bool then Generalized else Kept)
      else Ok (g1, Kept))
      (fun '(g', fate) => refines g1 g' /\ (fate = Redundant -> redundant = true))) as Hfate.
  { destruct Hr1 as (_ & WF1 & _); destruct redundant;
      [apply returns_Ok; split; [apply refines_refl |]; done |].
    eapply returns_mono; [by apply not_redundant_ok |]; intros [g' fate] [? ?]; done. }
  call Hfate as [g2 fate] (Hr2 & Hf); pose proof (refines_trans _ _ _ Hr1 Hr2) as Hr.
  destruct Hr as (AG & WF2 & Hsmi).
  call (IH g2 WF2) as [g3 fates] (Hr3 & Hchecks & Hpass).
  { eapply Forall_impl; [| exact Hv']; intros c [? ?]; split; auto. }
  apply returns_Ok; split_and!.
  - eapply refines_trans, Hr3; split_and!; done.
  - cbn; by rewrite Hchecks.
  - constructor; [intros E Ll Li; apply Hred; auto |].
    eapply Forall_impl; [| exact Hpass]; intros [c f] Hc E Ll Li rho Hrho; apply Hc; auto.
Qed.
End Checks.

