(* ===== verification/RangeInferProofs.v ===== *)
(** Soundness of the transfer functions of the range analysis: constraints at
    branches, binary operations with their overflow flag, joins and widening. *)
From stdpp Require Import base list numbers.
From Stdlib Require Import ZArith Lia.
From S2P Require Import Prelude Utils UtilsProofs Locations FlowGraph Ranges RangeAnalysis RangeProofs.
From S2P Require Import RangeOpProofs RangeAnalysisProofs.
Import RangeBoundary.
Import Range(min_, max_, make).
Import Boundary.
#[local] Open Scope Z_scope.

(** * Constraints *)

(** The value of a comparison of two smis. *)
Definition compare (op : Token.Kind) (x y : Z) : option bool :=
  match op with
  | Token.kEQ => Some (x =? y)
  | Token.kNE => Some (negb (x =? y))
  | Token.kLT => Some (x <? y)
  | Token.kGT => Some (y <? x)
  | Token.kLTE => Some (x <=? y)
  | Token.kGTE => Some (y <=? x)
  | _ => None
  end.

Section Constraints.
Context `{Word} (g : FlowGraph) (L : Layout) (WF : wf g L).

Lemma MinSmi_ok n x rho : smi x -> bwf g L n MinSmi /\ ge_bound rho MinSmi x.
Proof. pose proof smi_bounds; unfold smi; simpl; rewrite in_s_64; lia. Qed.

Lemma MaxSmi_ok n x rho : smi x -> bwf g L n MaxSmi /\ le_bound rho MaxSmi x.
Proof. pose proof smi_bounds; unfold smi; simpl; rewrite in_s_64; lia. Qed.

Lemma ConstraintSmiRange_ok n op boundary :
  smi_value g L boundary -> (rank L boundary < n)%nat -> compare op 0 0 <> None ->
  returns (ConstraintSmiRange g op boundary) (fun c => rwf g L n c /\ (live L boundary -> rlive L c /\
    forall rho x, agrees g L rho -> smi x -> compare op x (rho boundary) = Some true ->
      contains rho c x)).
Proof.
  intros Hb Hr Hop.
  assert (bwf g L n MinSmi /\ bwf g L n MaxSmi) as [Wmin Wmax].
  { pose proof smi_bounds; split; apply in_s_64; lia. }
  destruct (FromDefinition_ok g L n boundary 0 Hb Hr) as [W0 S0]; [lia |].
  destruct (FromDefinition_ok g L n boundary 1 Hb Hr) as [W1 S1]; [lia |].
  destruct (FromDefinition_ok g L n boundary (-1) Hb Hr) as [Wm Sm]; [lia |].
  destruct op; try done; simpl; apply returns_Ok; (split; [done |]); intros Hl.
  all: destruct (S0 Hl) as [L0 C0], (S1 Hl) as [L1 C1], (Sm Hl) as [Lm Cm].
  all: split; [done |]; intros rho x AG [? ?] [= Hc].
  all: specialize (C0 rho x AG); specialize (C1 rho x AG); specialize (Cm rho x AG).
  all: rewrite ?Z.eqb_eq, ?Z.ltb_lt, ?Z.leb_le in Hc; split; simpl; try tauto || lia.
  all: first [apply C0 | apply C1 | apply Cm]; lia.
Qed.

Lemma flip_compare op op' x y : FlipComparison op = Ok op' -> compare op' y x = compare op x y.
Proof. destruct op; simpl; intros; simplify_eq/=; rewrite ?(Z.eqb_sym x y); done. Qed.

Lemma negate_compare op op' x y b :
  Token.NegateComparison op = Ok op' -> compare op x y = Some b -> compare op' x y = Some (negb b).
Proof.
  destruct op; simpl; intros [= <-] [= <-]; simpl; f_equal; rewrite ?negb_involutive; try done.
  all: apply eq_true_iff_eq; rewrite negb_true_iff.
  all: rewrite ?Z.ltb_lt, ?Z.ltb_ge, ?Z.leb_le, ?Z.leb_gt; lia.
Qed.
End Constraints.

(** The constraints at the successors of a branch on a comparison of two smis: the
    operand satisfies the first where the comparison holds and the second where it
    does not. *)
Theorem ConstrainValueAfterBranch_sound `{Word} g L n op left_ right_ use_index
    (d := if Nat.eqb use_index 0 then left_ else right_) :
  wf g L -> compare op 0 0 <> None -> (use_index <= 1)%nat ->
  smi_value g L left_ -> smi_value g L right_ ->
  (rank L left_ < n)%nat -> (rank L right_ < n)%nat ->
  returns (ConstrainValueAfterBranch g op left_ right_ use_index) (fun '(t, f) =>
    rwf g L n t /\ rwf g L n f /\ (live L left_ -> live L right_ -> rlive L t /\ rlive L f /\
      forall rho, agrees g L rho ->
        (compare op (rho left_) (rho right_) = Some true -> contains rho t (rho d)) /\
        (compare op (rho left_) (rho right_) = Some false -> contains rho f (rho d)))).
Proof.
  intros WF Hop Hu Hl Hr Rl Rr; unfold ConstrainValueAfterBranch.
  set (other := if Nat.eqb use_index 0 then right_ else left_).
  apply (returns_bind _ _ (fun p => p.1 = other /\ compare p.2 0 0 <> None /\
    forall rho, compare p.2 (rho d) (rho other) = compare op (rho left_) (rho right_))).
  { subst d other; destruct use_index as [| [| ?]]; simpl; [apply returns_Ok; auto | | lia].
    assert (exists op', FlipComparison op = Ok op' /\ compare op' 0 0 <> None) as (op' & Hf & Hf').
    { destruct op; simpl in *; try done; eauto. }
    rewrite Hf; apply returns_Ok; simpl; split_and!; auto using flip_compare. }
  intros [boundary k] (Hb & Hk & Hcmp); cbn [fst snd] in *; subst boundary.
  assert (smi_value g L other /\ (rank L other < n)%nat) as [Ho Ro] by (subst other; case_match; done).
  assert (live L left_ -> live L right_ -> live L other) as Lo by (subst other; case_match; done).
  assert (smi_defn L d) as Hd by (subst d; case_match; [apply Hl | apply Hr]).
  assert (live L left_ -> live L right_ -> live L d) as Ld by (subst d; case_match; done).
  call (ConstraintSmiRange_ok g L n k other) as t (Wt & Ht); [done.. |].
  assert (exists k', Token.NegateComparison k = Ok k' /\ compare k' 0 0 <> None) as (k' & Hneg & Hk').
  { destruct k; simpl in *; try done; eauto. }
  rewrite Hneg; cbn [obind].
  call (ConstraintSmiRange_ok g L n k' other) as f (Wf & Hf); [done.. |].
  apply returns_Ok; split_and!; [done | done |]; intros La Lb.
  destruct (Ht (Lo La Lb)) as [Lt Ht'], (Hf (Lo La Lb)) as [Lf Hf'].
  split_and!; [done | done |]; intros rho AG; rewrite <- Hcmp.
  assert (smi (rho d)) as Hsmi by (apply (agrees_smi _ _ _ AG); auto).
  split; [auto |]; intros Hc; apply Hf'; auto; apply (negate_compare k k' _ _ false); done.
Qed.

Lemma Constraint_InferRange_ok `{Word} g L n v r c :
  wf g L -> (n <= depth g)%nat -> GetSmiRange g v = Some r ->
  rwf g L n r -> rwf g L n c -> Ranges.IsFinite r = true -> Ranges.IsFinite c = true ->
  returns (Constraint_InferRange g v c) (fun res =>
    (res = unknown_range \/ rwf g L n res /\ Ranges.IsFinite res = true) /\
    (rlive L r -> rlive L c -> forall rho x, agrees g L rho -> smi x ->
       contains rho r x -> contains rho c x ->
       res <> unknown_range /\ rlive L res /\ contains rho res x)).
Proof.
  intros WF Hn Hr Wr Wc Fr Fc; unfold Constraint_InferRange; rewrite Hr.
  assert (forall b, bwf g L n b -> IsUnknown b = false) as Hk by (intros []; done).
  unfold Ranges.IsUnknown; rewrite Hk by apply Wr.
  assert (forall r, Ranges.IsFinite r = true ->
    IsPositiveInfinity (min_ r) = false /\ IsNegativeInfinity (max_ r) = false) as Hfin.
  { intros [[] []]; done. }
  destruct (Hfin r Fr), (Hfin c Fc).
  call (Intersect_ok g L WF n) as res (Wres & Fres & Hres); [done.. |].
  call (IsUnsatisfiable_ok g L WF) as u Hu.
  { split; eapply bwf_mono; try apply Hn; apply Wres. }
  apply returns_Ok; split; [destruct u; auto |]; intros Lr Lc rho x AG Hx Hcr Hcc.
  destruct (Hres Lr Lc) as [Lres Hres']; specialize (Hres' rho x AG Hcr Hcc).
  destruct u.
  - destruct (Hu eq_refl Lres rho x AG (smi_in_s x Hx) Hres').
  - split_and!; [| apply Lres.. | done]; intros ->; destruct Wres; done.
Qed.

(** C37. [ConstraintInstr::InferRange]: where the value and the constraint hold, the range
    it computes is known, and the value is in it.  So a constraint whose range stays
    unknown marks a block that no run reaches. *)
Theorem Constraint_InferRange_sound `{Word} g L n v r c :
  wf g L -> (n <= depth g)%nat -> GetSmiRange g v = Some r ->
  rwf g L n r -> rwf g L n c -> Ranges.IsFinite r = true -> Ranges.IsFinite c = true ->
  returns (Constraint_InferRange g v c) (fun res =>
    (res = unknown_range \/ rwf g L n res /\ Ranges.IsFinite res = true) /\
    (rlive L r -> rlive L c -> forall rho x, agrees g L rho -> smi x ->
       contains rho r x -> contains rho c x ->
       res <> unknown_range /\ rlive L res /\ contains rho res x)).
Proof. apply Constraint_InferRange_ok. Qed.

(** * Binary operations *)
Lemma Clamp_finite `{Word} b size : IsUnknown b = false -> finite (Clamp b size).
Proof. destruct b; simpl; try done; repeat case_match; done. Qed.

Section Binary.
Context `{Word} (g : FlowGraph) (L : Layout) (WF : wf g L).

Lemma Clamp_range_ok n r size :
  rwf g L n r -> rwf g L n (Ranges.Clamp r size) /\ Ranges.IsFinite (Ranges.Clamp r size) = true
    /\ (rlive L r -> rlive L (Ranges.Clamp r size))
    /\ forall rho x, in_size size x -> contains rho r x -> contains rho (Ranges.Clamp r size) x.
Proof.
  intros [H1 H2]; split_and!.
  - split; apply Clamp_bwf; done.
  - rewrite IsFinite_iff; split; apply Clamp_finite; [destruct (min_ r) | destruct (max_ r)]; done.
  - intros [? ?]; split; apply Clamp_blive; done.
  - intros rho x Hx [? ?]; split; [apply Clamp_ge | apply Clamp_le]; done.
Qed.
End Binary.

Lemma InferRangeHelper_ok `{Word} g L n d op left_ is_truncating l r size :
  wf g L -> (n <= depth g)%nat -> rwf g L n l -> rwf g L n r ->
  Ranges.IsFinite l = true -> Ranges.IsFinite r = true -> left_ok g L n (Some left_) ->
  RepresentationToRangeSize (representation (node g d)) = Ok size ->
  returns (InferRangeHelper g d op left_ is_truncating (Some l) (Some r)) (fun '(res, overflow) =>
    rwf g L n res /\ Ranges.IsFinite res = true /\
    (overflow = None <-> is_truncating = true) /\
    (rlive L l -> rlive L r -> live L left_ -> rlive L res /\
     forall rho x y, agrees g L rho -> in_s 64 x -> in_s 64 y -> x = rho left_ ->
       contains rho l x -> contains rho r y -> supported g op l r -> binary_defined op y ->
       (overflow = Some false -> in_size size (binary_value op x y)) /\
       (in_size size (binary_value op x y) -> contains rho res (binary_value op x y)))).
Proof.
  intros WF Hn Wl Wr Fl Fr Hd Hsize; unfold InferRangeHelper, Ranges.IsUnknown.
  assert (forall b, bwf g L n b -> IsUnknown b = false) as Hk by (intros []; done).
  rewrite (Hk (min_ l)), (Hk (min_ r)) by (apply Wl || apply Wr); cbn [orb].
  call (BinaryOp_ok g L WF n) as res (Wres & Hres); [done.. |].
  rewrite (Hk (min_ res)) by apply Wres; cbn [negb]; rewrite Hsize; cbn [obind].
  call (Fits_ok g L WF) as fits Hfits; [split; eapply bwf_mono; try apply Hn; apply Wres |].
  destruct (Clamp_range_ok g L n res size Wres) as (Wc & Fc & Lc & Hc).
  apply returns_Ok; split_and!; [done | done | destruct is_truncating; done |].
  intros Ll Lr Ld; destruct (Hres Ll Lr Ld) as [Lres Hv]; split; [auto |].
  intros rho x y AG Hx Hy Heq Hl Hr Hs Hdef; specialize (Hv rho x y AG Hx Hy Hl Hr Heq Hs Hdef).
  split; [| auto]; intros Ho; destruct is_truncating; [done |].
  injection Ho as Ho%negb_false_iff; eauto.
Qed.

(** C10. [InferRangeHelper] is sound for the operators +, -, *, <<, >>, &, | and ^, where
    no bound of an operand of * is the smallest 64-bit integer and no count in the range
    of >> is above 63 ([supported]: outside of these ranges the inferred range is wrong,
    as [BinaryOp_unsound_bounds] shows), and no shift count is negative.  Both operands
    have finite ranges in a graph that is well formed ([wf]), a left operand that is the
    length of an array is a smi, and the representation of the operation has a size.
    Then the helper returns a range.  When it finds that the operation cannot overflow,
    the result is a value of the representation of the operation, so that the overflow
    check may go; and whenever the result is such a value it is in the range, which is
    clamped to the representation. *)
Theorem InferRangeHelper_sound `{Word} g L n d op left_ is_truncating l r size :
  wf g L -> (n <= depth g)%nat -> rwf g L n l -> rwf g L n r ->
  Ranges.IsFinite l = true -> Ranges.IsFinite r = true -> left_ok g L n (Some left_) ->
  RepresentationToRangeSize (representation (node g d)) = Ok size ->
  returns (InferRangeHelper g d op left_ is_truncating (Some l) (Some r)) (fun '(res, overflow) =>
    rwf g L n res /\ Ranges.IsFinite res = true /\
    (overflow = None <-> is_truncating = true) /\
    (rlive L l -> rlive L r -> live L left_ -> rlive L res /\
     forall rho x y, agrees g L rho -> in_s 64 x -> in_s 64 y -> x = rho left_ ->
       contains rho l x -> contains rho r y -> supported g op l r -> binary_defined op y ->
       (overflow = Some false -> in_size size (binary_value op x y)) /\
       (in_size size (binary_value op x y) -> contains rho res (binary_value op x y)))).
Proof. apply InferRangeHelper_ok. Qed.

(** * Joins *)
Lemma ge_bound_mono rho b x y : ge_bound rho b x -> x <= y -> ge_bound rho b y.
Proof. destruct b; simpl; lia. Qed.

Lemma le_bound_mono rho b x y : le_bound rho b x -> y <= x -> le_bound rho b y.
Proof. destruct b; simpl; lia. Qed.

Section Joins.
Context `{Word} (g : FlowGraph) (L : Layout) (WF : wf g L).

Lemma DependsOnSymbol_ok n b u :
  bwf g L n b -> returns (DependsOnSymbol g b u) (fun e => e = true ->
    smi_defn L u /\ FlowGraph.IsConstant g u = false).
Proof.
  destruct b as [| | | s o | v]; try (intros; apply returns_Ok; done); intros (Hs & Hc & _); simpl.
  call (UnwrapConstraint_ok g L WF) as w (_ & _ & Hsw & Hcw & _).
  apply returns_Ok; intros ->%Nat.eqb_eq; auto.
Qed.

(** The range that stands for [d] in the join when the other range depends on it. *)
Lemma Join_self d u :
  UnwrapConstraint g d = Ok u -> smi_defn L u -> FlowGraph.IsConstant g u = false ->
  smi_defn L d /\ FlowGraph.IsConstant g d = false.
Proof.
  unfold UnwrapConstraint, depth, FlowGraph.IsConstant; simpl; destruct (instr (node g d)) eqn:Hi;
    try (intros [= <-]; rewrite Hi; done).
  intros _ _ _; destruct (wf_constraint _ _ WF _ _ _ Hi) as (? & _ & _); done.
Qed.
End Joins.

(** The operands of a join: ranges whose boundaries are in the bounds of the type,
    which both hold for some value of the run. *)
Record joinable `{Word} (g : FlowGraph) (L : Layout) (size : RangeSize) (r other : Range.t)
    (d : defn) (rho : defn -> Z) : Prop := {
  joinable_live : rlive L r /\ rlive L other /\ live L d;
  joinable_bounded : bounded g size (min_ r) /\ bounded g size (max_ r)
    /\ bounded g size (min_ other) /\ bounded g size (max_ other)
    /\ (smi_defn L d -> bounded g size (FromDefinition g d 0));
  joinable_value : exists y, in_size size y /\ contains rho r y;
  joinable_defn : in_size size (rho d) /\ contains rho other (rho d);
}.

Lemma make_finite a b : finite a -> finite b -> Ranges.IsFinite (make a b) = true.
Proof. intros; apply IsFinite_iff; done. Qed.

(** A range below, or above, a value of another range: the hull of the two. *)
Lemma contains_below `{Word} rho size r other v :
  (forall x, in_size size x -> contains rho r x -> x <= v) ->
  (exists y, in_size size y /\ contains rho r y) -> contains rho other v ->
  forall x, in_size size x -> contains rho r x \/ x = v -> contains rho (make (min_ r) (max_ other)) x.
Proof.
  intros Hle (y & Hy & Cy) Cv x Hx [Hc | ->]; split; simpl.
  - apply Hc.
  - eapply le_bound_mono; [apply Cv | apply Hle; done].
  - eapply ge_bound_mono; [apply Cy | apply Hle; done].
  - apply Cv.
Qed.

Lemma contains_above `{Word} rho size r other v :
  (forall x, in_size size x -> contains rho r x -> v <= x) ->
  (exists y, in_size size y /\ contains rho r y) -> contains rho other v ->
  forall x, in_size size x -> contains rho r x \/ x = v -> contains rho (make (min_ other) (max_ r)) x.
Proof.
  intros Hle (y & Hy & Cy) Cv x Hx [Hc | ->]; split; simpl.
  - eapply ge_bound_mono; [apply Cv | apply Hle; done].
  - apply Hc.
  - apply Cv.
  - eapply le_bound_mono; [apply Cy | apply Hle; done].
Qed.

(** The range that [Join] uses in the place of [other]. *)
Lemma Join_other `{Word} g L n r d u other size on_min on_max
    (other' := if on_min || on_max then make (FromDefinition g d 0) (FromDefinition g d 0) else other) :
  wf g L -> (rank L d < n)%nat -> rwf g L n other -> Ranges.IsFinite other = true ->
  UnwrapConstraint g d = Ok u ->
  (on_min = true -> smi_defn L u /\ FlowGraph.IsConstant g u = false) ->
  (on_max = true -> smi_defn L u /\ FlowGraph.IsConstant g u = false) ->
  rwf g L n other' /\ Ranges.IsFinite other' = true /\
  forall rho, agrees g L rho -> joinable g L size r other d rho ->
    rlive L other' /\ bounded g size (min_ other') /\ bounded g size (max_ other')
    /\ contains rho other' (rho d).
Proof.
  intros WF Hd Wo Fo Hu Hmin Hmax; subst other'; destruct (on_min || on_max) eqn:Hon; cycle 1.
  { split_and!; [done | done |]; intros rho AG [(? & ? & ?) (? & ? & ? & ? & ?) _ [? ?]]; auto. }
  destruct (Join_self g L WF d u Hu) as [Hs Hc].
  1-2: apply orb_true_iff in Hon as [-> | ->]; first [apply Hmin; done | apply Hmax; done].
  rewrite FromDefinition_symbol by done.
  split_and!; [split; simpl; split_and!; auto; unfold in_s; lia | done |].
  intros rho AG [(? & ? & ?) (? & ? & ? & ? & Hb) _ _]; specialize (Hb Hs).
  rewrite FromDefinition_symbol in Hb by done.
  split; [split; done |]; split; [done |]; split; [done |]; split; simpl; lia.
Qed.

Lemma Join_ok `{Word} g L n r d other size :
  wf g L -> (n <= depth g)%nat -> (rank L d < n)%nat -> rwf g L n r -> rwf g L n other ->
  Ranges.IsFinite r = true -> Ranges.IsFinite other = true ->
  returns (Join g r d (Some other) size) (fun res =>
    rwf g L n res /\ Ranges.IsFinite res = true /\
    forall rho, agrees g L rho -> joinable g L size r other d rho ->
      rlive L res /\ forall x, in_size size x -> contains rho r x \/ x = rho d ->
        contains rho res x).
Proof.
  intros WF Hn Hd Wr Wo Fr Fo; unfold Join.
  assert (forall b, bwf g L n b -> IsUnknown b = false) as Hk by (intros []; done).
  assert (forall b, bwf g L n b -> bwf g L (depth g) b) as Hok by eauto using bwf_mono.
  rewrite (Hk (min_ other)), (Hk (min_ r)) by (apply Wr || apply Wo).
  destruct (UnwrapConstraint_ok g L WF d) as (u & Hu & _); rewrite Hu; cbn [obind].
  call (DependsOnSymbol_ok g L WF n) as on_min Hmin; [apply Wr |].
  call (DependsOnSymbol_ok g L WF n) as on_max Hmax; [apply Wr |].
  destruct (Join_other g L n r d u other size on_min on_max WF Hd Wo Fo Hu Hmin Hmax)
    as (Wo' & Fo' & Ho').
  set (other' := if on_min || on_max then _ else other) in *.
  clearbody other'; destruct Wr as [Wr1 Wr2], Wo' as [Wo1 Wo2].
  apply IsFinite_iff in Fr as [Fr1 Fr2], Fo' as [Fo1 Fo2].
  call (LowerBound_size_ok g L WF (min_ r) size) as inf_r (_ & _ & Ir); [auto |].
  call (LowerBound_size_ok g L WF (min_ other') size) as inf_o (_ & _ & Io); [auto |].
  call (UpperBound_size_ok g L WF (max_ r) size) as sup_r (_ & _ & Sr); [auto |].
  call (UpperBound_size_ok g L WF (max_ other') size) as sup_o (_ & _ & So); [auto |].
  destruct (Z.leb_spec sup_r inf_o); [| destruct (Z.leb_spec sup_o inf_r)].
  - apply returns_Ok; split_and!; [done | apply make_finite; done |]; intros rho AG J.
    destruct (J) as [([? ?] & _ & Ld) _ Hy [Hid _]], (Ho' rho AG J) as ([? ?] & _ & _ & Cd).
    split; [done |]; eapply contains_below; [| done | done]; intros x Hx [_ Hc].
    transitivity sup_r; [eauto | transitivity inf_o; [done |]]; destruct Cd; eauto.
  - apply returns_Ok; split_and!; [done | apply make_finite; done |]; intros rho AG J.
    destruct (J) as [([? ?] & _ & Ld) _ Hy [Hid _]], (Ho' rho AG J) as ([? ?] & _ & _ & Cd).
    split; [done |]; eapply contains_above; [| done | done]; intros x Hx [Hc _].
    transitivity sup_o; [destruct Cd; eauto | transitivity inf_r; [done | eauto]].
  - call (JoinMin_ok g L WF n) as lo (Wlo & Flo & Hlo); [done.. |].
    call (JoinMax_ok g L WF n) as hi (Whi & Fhi & Hhi); [done.. |].
    apply returns_Ok; split_and!; [done | apply make_finite; auto |]; intros rho AG J.
    destruct (J) as [([? ?] & _ & Ld) (? & ? & _) _ _], (Ho' rho AG J) as ([? ?] & ? & ? & [? ?]).
    destruct (Hlo) as [? Hlo']; [done.. |]; destruct (Hhi) as [? Hhi']; [done.. |]; split; [done |].
    intros x Hx [[? ?] | ->]; split; simpl; auto.
Qed.

(** C18. [Join] covers both ranges: the values of [r] and the value of [d], for ranges
    that are [joinable]. *)
Theorem Join_sound `{Word} g L n r d other size :
  wf g L -> (n <= depth g)%nat -> (rank L d < n)%nat -> rwf g L n r -> rwf g L n other ->
  Ranges.IsFinite r = true -> Ranges.IsFinite other = true ->
  returns (Join g r d (Some other) size) (fun res =>
    rwf g L n res /\ Ranges.IsFinite res = true /\
    forall rho, agrees g L rho -> joinable g L size r other d rho ->
      rlive L res /\ forall x, in_size size x -> contains rho r x \/ x = rho d ->
        contains rho res x).
Proof. apply Join_ok. Qed.

(** * Widening *)
Section Widening.
Context `{Word} (g : FlowGraph) (L : Layout) (WF : wf g L).

Lemma ConstantMin_ok r size :
  rwf g L (depth g) r ->
  returns (Ranges.ConstantMin g (Some r) size) (fun b => exists v, b = Constant v /\ in_s 64 v /\
    (rlive L r -> forall rho x, agrees g L rho -> in_size size x -> ge_bound rho (min_ r) x -> v <= x)).
Proof.
  intros [W _]; destruct (LowerBound_size_ok g L WF (min_ r) size W) as (v & Hv & _ & Iv & Sv).
  unfold LowerBound_size in Hv; simpl.
  destruct (LowerBound g (min_ r)) as [l |]; [| done]; cbn [obind] in *; apply returns_Ok.
  destruct (Clamp l size); try done; injection Hv as ->; exists v; split_and!; [done.. |].
  intros [? ?] rho x; apply Sv; done.
Qed.

Lemma ConstantMax_ok r size :
  rwf g L (depth g) r ->
  returns (Ranges.ConstantMax g (Some r) size) (fun b => exists v, b = Constant v /\ in_s 64 v /\
    (rlive L r -> forall rho x, agrees g L rho -> in_size size x -> le_bound rho (max_ r) x -> x <= v)).
Proof.
  intros [_ W]; destruct (UpperBound_size_ok g L WF (max_ r) size W) as (v & Hv & _ & Iv & Sv).
  unfold UpperBound_size in Hv; simpl.
  destruct (UpperBound g (max_ r)) as [l |]; [| done]; cbn [obind] in *; apply returns_Ok.
  destruct (Clamp l size); try done; injection Hv as ->; exists v; split_and!; [done.. |].
  intros [? ?] rho x; apply Sv; done.
Qed.

(** What a widened lower boundary is, and what it bounds. *)
Definition widened_min (n : nat) (r new : Range.t) (size : RangeSize) (c : t) : Prop :=
  bwf g L n c /\ finite c /\
  (c = min_ r \/ Ranges.ConstantMin g (Some r) size = Ok c \/ c = MinConstant size) /\
  (rlive L r -> rlive L new -> blive L c /\ (bounded g size (min_ r) ->
     forall rho x, agrees g L rho -> in_size size x ->
       ge_bound rho (min_ r) x \/ ge_bound rho (min_ new) x -> ge_bound rho c x)).

Definition widened_max (n : nat) (r new : Range.t) (size : RangeSize) (c : t) : Prop :=
  bwf g L n c /\ finite c /\
  (c = max_ r \/ Ranges.ConstantMax g (Some r) size = Ok c \/ c = MaxConstant size) /\
  (rlive L r -> rlive L new -> blive L c /\ (bounded g size (max_ r) ->
     forall rho x, agrees g L rho -> in_size size x ->
       le_bound rho (max_ r) x \/ le_bound rho (max_ new) x -> le_bound rho c x)).

Lemma WidenMin_constants n r new size :
  rwf g L (depth g) r -> rwf g L (depth g) new ->
  returns (let* a := Ranges.ConstantMin g (Some r) size in
           let* b := Ranges.ConstantMin g (Some new) size in
           let* x := ConstantValue a in
           let* y := ConstantValue b in
           Ok (if x <=? y then a else MinConstant size)) (widened_min n r new size).
Proof.
  intros Wr Wn; destruct (ConstantMin_ok r size Wr) as (a & Ha & v & -> & Iv & Sv); rewrite Ha.
  destruct (ConstantMin_ok new size Wn) as (b & -> & w & -> & Iw & Sw); cbn [obind ConstantValue].
  pose proof (size_bounds size).
  destruct (Z.leb_spec v w); apply returns_Ok.
  - split_and!; [done | done | auto |]; intros Lr Ln; split; [done |]; intros _ rho x AG Hx Hor.
    simpl; destruct Hor; [eauto | transitivity w; eauto].
  - split_and!; [apply in_s_64; simpl; lia | done | auto |]; intros Lr Ln; split; [done |].
    intros _ rho x AG Hx _; apply Hx.
Qed.

Lemma WidenMax_constants n r new size :
  rwf g L (depth g) r -> rwf g L (depth g) new ->
  returns (let* a := Ranges.ConstantMax g (Some r) size in
           let* b := Ranges.ConstantMax g (Some new) size in
           let* x := ConstantValue a in
           let* y := ConstantValue b in
           Ok (if x >=? y then a else MaxConstant size)) (widened_max n r new size).
Proof.
  intros Wr Wn; destruct (ConstantMax_ok r size Wr) as (a & Ha & v & -> & Iv & Sv); rewrite Ha.
  destruct (ConstantMax_ok new size Wn) as (b & -> & w & -> & Iw & Sw); cbn [obind ConstantValue].
  pose proof (size_bounds size).
  rewrite Z.geb_leb; destruct (Z.leb_spec w v); apply returns_Ok.
  - split_and!; [done | done | auto |]; intros Lr Ln; split; [done |]; intros _ rho x AG Hx Hor.
    simpl; destruct Hor; [eauto | transitivity w; eauto].
  - split_and!; [apply in_s_64; simpl; lia | done | auto |]; intros Lr Ln; split; [done |].
    intros _ rho x AG Hx _; apply Hx.
Qed.

Lemma WidenMin_ok n r new size :
  (n <= depth g)%nat -> rwf g L n r -> rwf g L n new -> finite (min_ r) ->
  returns (WidenMin g r new size) (widened_min n r new size).
Proof.
  intros Hn Wr Wn Fr; destruct (Wr) as [W1 W2], (Wn) as [W3 W4].
  assert (forall b, bwf g L n b -> bwf g L (depth g) b) as Hok by eauto using bwf_mono.
  assert (rwf g L (depth g) r /\ rwf g L (depth g) new) as [Or On] by (split; split; auto).
  pose proof (WidenMin_constants n r new size Or On) as Hconst; pose proof (size_bounds size).
  assert (returns (Ok (MinConstant size)) (widened_min n r new size)) as Hmin.
  { apply returns_Ok; split_and!; [apply in_s_64; simpl; lia | done | auto |]; intros _ _.
    split; [done |]; intros _ rho x _ Hx _; apply Hx. }
  unfold WidenMin; destruct (IsSymbol (min_ r)) eqn:Hs; [| done].
  call (LowerBound_ok g L WF) as l (Hl & _); [auto |].
  call (Overflowed_ok g l size NegativeInfinity) as ov _; [done.. |]; destruct ov; [done |].
  call (DependOnSameSymbol_ok g L WF) as same Hsame; destruct same.
  - destruct (Z.leb_spec (offset (min_ r)) (offset (min_ new))); [| done].
    apply returns_Ok; split_and!; [done.. | auto |]; intros [Lr _] [Ln _]; split; [done |].
    intros _ rho x AG Hx [? | Hge]; [done |].
    destruct (Hsame eq_refl) as (s & o & s' & o' & E1 & E2 & Heq); rewrite E1, E2 in *; simpl in *.
    specialize (Heq Lr Ln rho AG); lia.
  - call (UpperBound_size_ok g L WF) as u (_ & _ & Su); [auto |].
    call (LowerBound_size_ok g L WF (min_ new)) as v (_ & _ & Sv); [auto |].
    destruct (Z.leb_spec u v); [| done].
    apply returns_Ok; split_and!; [done.. | auto |]; intros [Lr _] [Ln _]; split; [done |].
    intros Hb; eapply separated_ge; eauto.
Qed.

Lemma WidenMax_ok n r new size :
  (n <= depth g)%nat -> rwf g L n r -> rwf g L n new -> finite (max_ r) ->
  returns (WidenMax g r new size) (widened_max n r new size).
Proof.
  intros Hn Wr Wn Fr; destruct (Wr) as [W1 W2], (Wn) as [W3 W4].
  assert (forall b, bwf g L n b -> bwf g L (depth g) b) as Hok by eauto using bwf_mono.
  assert (rwf g L (depth g) r /\ rwf g L (depth g) new) as [Or On] by (split; split; auto).
  pose proof (WidenMax_constants n r new size Or On) as Hconst; pose proof (size_bounds size).
  assert (returns (Ok (MaxConstant size)) (widened_max n r new size)) as Hmax.
  { apply returns_Ok; split_and!; [apply in_s_64; simpl; lia | done | auto |]; intros _ _.
    split; [done |]; intros _ rho x _ Hx _; apply Hx. }
  unfold WidenMax; destruct (IsSymbol (max_ r)) eqn:Hs; [| done].
  call (UpperBound_ok g L WF) as u (Hu & _); [auto |].
  call (Overflowed_ok g u size PositiveInfinity) as ov _; [done.. |]; destruct ov; [done |].
  call (DependOnSameSymbol_ok g L WF) as same Hsame; destruct same.
  - rewrite Z.geb_leb; destruct (Z.leb_spec (offset (max_ new)) (offset (max_ r))); [| done].
    apply returns_Ok; split_and!; [done.. | auto |]; intros [_ Lr] [_ Ln]; split; [done |].
    intros _ rho x AG Hx [? | Hle]; [done |].
    destruct (Hsame eq_refl) as (s & o & s' & o' & E1 & E2 & Heq); rewrite E1, E2 in *; simpl in *.
    specialize (Heq Lr Ln rho AG); lia.
  - call (LowerBound_size_ok g L WF) as l (_ & _ & Sl); [auto |].
    call (UpperBound_size_ok g L WF (max_ new)) as v (_ & _ & Sv); [auto |].
    rewrite Z.geb_leb; destruct (Z.leb_spec v l); [| done].
    apply returns_Ok; split_and!; [done.. | auto |]; intros [_ Lr] [_ Ln]; split; [done |].
    intros Hb rho x AG Hx Hor.
    eapply (separated_le g L WF (max_ new) (max_ r) size v l); eauto; destruct Hor; auto.
Qed.
End Widening.

Lemma Widen_ok `{Word} g L n r new size :
  wf g L -> (n <= depth g)%nat -> rwf g L n r -> rwf g L n new -> Ranges.IsFinite r = true ->
  returns (let* lo := WidenMin g r new size in
           let* hi := WidenMax g r new size in Ok (make lo hi)) (fun res =>
    rwf g L n res /\ Ranges.IsFinite res = true /\
    (min_ res = min_ r \/ Ranges.ConstantMin g (Some r) size = Ok (min_ res)
     \/ min_ res = MinConstant size) /\
    (max_ res = max_ r \/ Ranges.ConstantMax g (Some r) size = Ok (max_ res)
     \/ max_ res = MaxConstant size) /\
    (rlive L r -> rlive L new -> rlive L res /\
      (bounded g size (min_ r) -> bounded g size (max_ r) ->
       forall rho x, agrees g L rho -> in_size size x ->
         contains rho r x \/ contains rho new x -> contains rho res x))).
Proof.
  intros WF Hn Wr Wn [F1 F2]%IsFinite_iff.
  call (WidenMin_ok g L WF n) as lo (Wlo & Flo & Slo & Hlo); [done.. |].
  call (WidenMax_ok g L WF n) as hi (Whi & Fhi & Shi & Hhi); [done.. |].
  apply returns_Ok; split; [done |]; split; [apply make_finite; done |]; split; [done |].
  split; [done |]; intros Lr Ln; destruct (Hlo Lr Ln) as [? Hlo'], (Hhi Lr Ln) as [? Hhi'].
  split; [done |]; intros B1 B2 rho x AG Hx Hor; split; simpl.
  - apply Hlo'; auto; destruct Hor as [[] | []]; auto.
  - apply Hhi'; auto; destruct Hor as [[] | []]; auto.
Qed.

(** Widening keeps the old and the new range of a phi, and a boundary only moves from
    a symbol to its constant bound and from there to the bound of the type, so that a
    widened boundary changes at most twice. *)
Theorem Widen_sound `{Word} g L n r new size :
  wf g L -> (n <= depth g)%nat -> rwf g L n r -> rwf g L n new -> Ranges.IsFinite r = true ->
  returns (let* lo := WidenMin g r new size in
           let* hi := WidenMax g r new size in Ok (make lo hi)) (fun res =>
    rwf g L n res /\ Ranges.IsFinite res = true /\
    (min_ res = min_ r \/ Ranges.ConstantMin g (Some r) size = Ok (min_ res)
     \/ min_ res = MinConstant size) /\
    (max_ res = max_ r \/ Ranges.ConstantMax g (Some r) size = Ok (max_ res)
     \/ max_ res = MaxConstant size) /\
    (rlive L r -> rlive L new -> rlive L res /\
      (bounded g size (min_ r) -> bounded g size (max_ r) ->
       forall rho x, agrees g L rho -> in_size size x ->
         contains rho r x \/ contains rho new x -> contains rho res x))).
Proof. apply Widen_ok. Qed.
