(* ===== verification/RangeIterateProofs.v ===== *)
(** The iteration of the range analysis ends without a failing assertion, and keeps
    the graph well formed: no range comes to depend on itself. *)
From stdpp Require Import base list numbers.
From Stdlib Require Import ZArith Lia.
From S2P Require Import Prelude Utils UtilsProofs Locations FlowGraph Ranges RangeAnalysis RangeProofs.
From S2P Require Import RangeOpProofs RangeAnalysisProofs RangeInferProofs.
Import RangeBoundary.
Import Range(min_, max_, make).
Import Boundary.
#[local] Open Scope Z_scope.

(** Case analysis on a member of a list. *)
Ltac by_member H :=
  repeat (apply elem_of_cons in H as [-> | H]); try (apply elem_of_nil in H; done).

(** * Typed definitions *)
Section Typed.
Context `{Word} (g : FlowGraph) (L : Layout).

Definition int_typed (d : defn) : Prop := ToCid (node g d) = kSmiCid \/ IsInt_type (node g d) = true.

Definition unboxed (r : Representation) : Prop :=
  r = kUnboxedInt32 \/ r = kUnboxedMint \/ r = kUnboxedUint32.

(** What the instruction classes guarantee of the definitions that get a range. *)
Definition typed (d : defn) : Prop :=
  match instr (node g d) with
  | ConstantInstr v => exists c, (v = SmiObject c \/ v = MintObject c) /\ in_s 64 c
  | ConstraintInstr _ c => rwf g L (rank L d) c /\ Ranges.IsFinite c = true
  | PhiInstr _ => int_typed d
  | BinaryIntegerOpInstr _ _ l r _ _ =>
      (rank L l < rank L d)%nat /\ (rank L r < rank L d)%nat
      /\ exists size, RepresentationToRangeSize (representation (node g d)) = Ok size
  | LoadFieldInstr _ k _ _ _ => IsImmutableLengthLoad k = true \/ int_typed d
  | LoadIndexedInstr _ _ _ => int_typed d
  | LoadCodeUnitsInstr _ _ c =>
      c ∈ [kOneByteStringCid; kTwoByteStringCid; kExternalOneByteStringCid; kExternalTwoByteStringCid]
  | IfThenElseInstr _ _ _ t f => in_s 64 t /\ in_s 64 f
  | BoxIntegerInstr _ v | UnboxInt32Instr v _ _ | UnboxUint32Instr v _ | UnboxInt64Instr v =>
      (rank L v < rank L d)%nat
  | UnboxedIntConverterInstr from to v => unboxed from /\ unboxed to /\ (rank L v < rank L d)%nat
  | UnaryMintOpInstr _ _ | OtherInstr _ _ _ _ _ => int_typed d
  end.

(** A length is a smi, and the block order of the graph agrees with the ranks: a
    definition of a block that dominates a phi comes before the phi. *)
Record flow_ok : Prop := {
  flow_length d i k imm f o :
    instr (node g d) = LoadFieldInstr i k imm f o -> IsImmutableLengthLoad k = true -> smi_defn L d;
  flow_phi p s :
    IsPhi g p = true -> DominatesPhi g (block (node g s)) (block (node g p)) = true ->
    (rank L s < rank L p)%nat;
}.

Section Infer.
Context (WF : wf g L) (FL : flow_ok).

(** A range that is unknown, or a well-formed one with symbols below [n]. *)
Definition inferred (n : nat) (r : Range.t) : Prop :=
  r = unknown_range \/ rwf g L n r /\ Ranges.IsFinite r = true.

Lemma constant_range n lo hi :
  in_s 64 lo -> in_s 64 hi -> inferred n (make (Constant lo) (Constant hi)).
Proof. right; done. Qed.

Lemma Full_range n size : inferred n (Ranges.Full size).
Proof. apply constant_range; apply in_s_64; pose proof (size_bounds size); lia. Qed.

Lemma inferred_mono n m r : (n <= m)%nat -> inferred n r -> inferred m r.
Proof.
  intros Hn [-> | [? ?]]; [left; done | right]; eauto using rwf_mono.
Qed.

Lemma stored_range d r :
  range (node g d) = Some r -> rwf g L (rank L d) r /\ Ranges.IsFinite r = true.
Proof. intros Hr; destruct (wf_range _ _ WF _ _ Hr) as (? & ? & _); done. Qed.

(** The assertion of the constructor of [Range]. *)
Lemma rwf_known n r : rwf g L n r -> IsUnknown (min_ r) = false /\ IsUnknown (max_ r) = false.
Proof. destruct r as [[] []]; intros [? ?]; done. Qed.

(** An input range is absent, or well formed at the rank of the input. *)
Definition input_range (d : defn) (o : option Range.t) : Prop :=
  forall r, o = Some r -> rwf g L (rank L d) r /\ Ranges.IsFinite r = true.

Lemma Full_rwf n size : rwf g L n (Ranges.Full size) /\ Ranges.IsFinite (Ranges.Full size) = true.
Proof. split; [| done]; split; apply in_s_64; pose proof (size_bounds size); simpl; lia. Qed.

Lemma GetSmiRange_ok d : input_range d (GetSmiRange g d).
Proof.
  intros r; unfold GetSmiRange; destruct (range (node g d)) eqn:Hr.
  - intros [= <-]; apply stored_range; done.
  - case_bool_decide; [done |]; intros [= <-]; apply Full_rwf.
Qed.

Lemma GetIntRange_ok d : input_range d (GetIntRange g d).
Proof.
  intros r; unfold GetIntRange; destruct (range (node g d)) eqn:Hr.
  - intros [= <-]; apply stored_range; done.
  - case_match; [done |]; intros [= <-]; apply Full_rwf.
Qed.

Lemma GetInputRange_ok size d : input_range d (GetInputRange g size d).
Proof.
  destruct size; simpl; auto using GetSmiRange_ok, GetIntRange_ok; intros r; apply stored_range.
Qed.

Lemma copy_range_ok d o : input_range d o -> inferred (rank L d) (copy_range o).
Proof.
  intros Ho; unfold copy_range; destruct o as [r |]; [| left; done].
  destruct (Ho r eq_refl); simpl; case_match; [left | right]; done.
Qed.

(** * Phis *)
Lemma EnsureAcyclicSymbol_ok p a limit :
  IsPhi g p = true -> bwf g L (depth g) a -> finite a -> bwf g L (rank L p) limit -> finite limit ->
  returns (EnsureAcyclicSymbol g (block (node g p)) a limit) (fun c => bwf g L (rank L p) c /\ finite c).
Proof.
  intros Hp Ha Fa Hl Fl; destruct a as [| | | s o | v]; try done; try (apply returns_Ok; done).
  destruct Ha as (Hs & Hc & Ho & _); unfold EnsureAcyclicSymbol.
  destruct (DominatesPhi g (block (node g s)) (block (node g p))) eqn:Hdom.
  { apply returns_Ok; split; [| done]; simpl; split_and!; auto; apply flow_phi; auto. }
  call (UnwrapConstraint_ok g L WF) as u (_ & _ & Hsu & Hcu & _).
  destruct (_ && _) eqn:Hd; [| apply returns_Ok; done].
  apply andb_true_iff in Hd as [_ Hd]; rewrite FromDefinition_symbol by auto.
  apply returns_Ok; split; [| done]; simpl; split_and!; auto; apply flow_phi; auto.
Qed.

Lemma join_inputs_ok r inputs size :
  inferred (depth g) r ->
  returns (join_inputs g r inputs size) (inferred (depth g)).
Proof.
  revert r; induction inputs as [| d inputs IH]; intros r Hr; simpl; [apply returns_Ok; done |].
  eapply returns_bind; [| intros r'; apply IH].
  pose proof (GetInputRange_ok size d) as Hin; pose proof (rank_depth g L WF d) as Hd.
  destruct (GetInputRange g size d) as [other |]; [| apply returns_Ok; done].
  destruct (Hin other eq_refl) as [Wo Fo].
  assert (rwf g L (depth g) other) as Wo'.
  { eapply rwf_mono, Wo; lia. }
  destruct Hr as [-> | [Wr Fr]].
  - simpl; rewrite (proj1 (rwf_known _ _ Wo)); apply returns_Ok; right; done.
  - eapply returns_mono; [apply (Join_ok g L (depth g)); done |].
    intros res (? & ? & _); right; done.
Qed.

Lemma RangeSizeForPhi_ok p :
  IsPhi g p = true -> int_typed p -> exists size, RangeSizeForPhi g p = Ok size.
Proof.
  intros Hp Ht; unfold RangeSizeForPhi; rewrite Hp.
  destruct Ht as [-> | ->]; [rewrite bool_decide_eq_true_2 by done; eauto |].
  repeat case_bool_decide; eauto.
Qed.

Lemma Phi_InferRange_ok p inputs :
  IsPhi g p = true -> int_typed p ->
  returns (Phi_InferRange g p inputs) (inferred (rank L p)).
Proof.
  intros Hp Ht; unfold Phi_InferRange; destruct (RangeSizeForPhi_ok p Hp Ht) as (size & ->).
  cbn [obind]; call join_inputs_ok as r Hr; [left; done |].
  pose proof smi_bounds; destruct Hr as [-> | [[W1 W2] [F1 F2]%IsFinite_iff]].
  { apply returns_Ok; left; done. }
  call EnsureAcyclicSymbol_ok as lo (? & ?); try done; [apply in_s_64; simpl; lia |].
  call EnsureAcyclicSymbol_ok as hi (? & ?); try done; [apply in_s_64; simpl; lia |].
  apply returns_Ok; right; split; [done | apply make_finite; done].
Qed.

(** * The other instructions *)
Lemma Definition_InferRange_ok n d :
  int_typed d -> returns (Definition_InferRange g d) (inferred n).
Proof.
  intros Ht; unfold Definition_InferRange.
  case_bool_decide; [apply returns_Ok, Full_range |].
  destruct Ht as [? | ->]; [done |]; repeat case_match; apply returns_Ok, Full_range.
Qed.

Lemma Constraint_ok n v c :
  (rank L v < n)%nat -> (n <= depth g)%nat -> rwf g L n c -> Ranges.IsFinite c = true ->
  returns (Constraint_InferRange g v c) (inferred n).
Proof.
  intros Hv Hn Wc Fc; destruct (GetSmiRange g v) as [r |] eqn:Hr; cycle 1.
  { unfold Constraint_InferRange; rewrite Hr; apply returns_Ok; left; done. }
  destruct (GetSmiRange_ok v r Hr) as [Wr Fr].
  eapply returns_mono; [apply (Constraint_InferRange_ok g L n v r c); try done |].
  - eapply rwf_mono, Wr; lia.
  - intros res [? _]; done.
Qed.

Lemma left_ok_operand d n : (rank L d < n)%nat -> left_ok g L n (Some d).
Proof.
  intros Hd; split; [done |]; unfold IsArrayLength.
  destruct (UnwrapConstraint_ok g L WF d) as (u & Hu & _); rewrite Hu; simpl; intros [= Hk].
  unfold UnwrapConstraint, depth in Hu; simpl in Hu.
  destruct (instr (node g d)) eqn:Hi; try (injection Hu as <-; rewrite Hi in Hk; try done).
  - apply (wf_constraint _ _ WF _ _ _ Hi).
  - apply (flow_length FL _ _ _ _ _ _ Hi Hk).
Qed.

Lemma Helper_ok n d op l tr lr rr size :
  (n <= depth g)%nat -> (rank L l < n)%nat ->
  RepresentationToRangeSize (representation (node g d)) = Ok size ->
  (forall r, lr = Some r -> rwf g L n r /\ Ranges.IsFinite r = true) ->
  (forall r, rr = Some r -> rwf g L n r /\ Ranges.IsFinite r = true) ->
  returns (InferRangeHelper g d op l tr lr rr) (fun '(res, overflow) =>
    inferred n res /\ (overflow <> None -> tr = false)).
Proof.
  intros Hn Hl Hsize Hlr Hrr; destruct lr as [lr |]; [| apply returns_Ok; split; [left |]; done].
  destruct rr as [rr |]; [| apply returns_Ok; split; [left |]; done].
  destruct (Hlr lr eq_refl) as [? ?], (Hrr rr eq_refl) as [? ?].
  eapply returns_mono; [apply (InferRangeHelper_ok g L n d op l tr lr rr size); try done |].
  { apply left_ok_operand; done. }
  intros [res o] (? & ? & Ho & _); split; [right; done |]; destruct tr; [| done]; tauto.
Qed.

Lemma input_range_mono d n o :
  (rank L d < n)%nat -> input_range d o ->
  forall r, o = Some r -> rwf g L n r /\ Ranges.IsFinite r = true.
Proof.
  intros Hd Ho r Hr; destruct (Ho r Hr); split; [| done].
  eapply (rwf_mono _ _ (rank L d)); [lia | done].
Qed.

Lemma length_bounds : in_s 64 Array_kMaxElements /\ in_s 64 String_kMaxElements /\ in_s 64 kSmiMax.
Proof.
  unfold Array_kMaxElements, String_kMaxElements, kWordSize, kSmiMax, kSmiBits, in_s.
  destruct word_width as [-> | ->]; vm_compute; intuition congruence.
Qed.

Lemma LoadField_ok n d k :
  IsImmutableLengthLoad k = true \/ int_typed d -> returns (LoadField_InferRange g d k) (inferred n).
Proof.
  destruct length_bounds as (? & ? & ?); intros Ht.
  destruct k; try (apply returns_Ok, constant_range; done).
  apply Definition_InferRange_ok; destruct Ht; done.
Qed.

Lemma LoadIndexed_ok n d c :
  int_typed d -> returns (LoadIndexed_InferRange g d c) (inferred n).
Proof.
  intros Ht; destruct c; try (apply returns_Ok, constant_range; done).
  all: apply Definition_InferRange_ok; done.
Qed.

Lemma unbox_uint32_ok v n o :
  (rank L v < n)%nat -> input_range v o ->
  returns (match o with
           | Some r => if Ranges.IsUnknown o then Ok unknown_range
                       else let* positive := Ranges.IsPositive g r in
                            Ok (if positive : bool then r else uint32_range)
           | None => Ok unknown_range
           end) (inferred n).
Proof.
  intros Hv Ho; destruct o as [r |]; [| apply returns_Ok; left; done].
  destruct (Ho r eq_refl) as [Wr Fr]; case_match; [apply returns_Ok; left; done |].
  call (OnlyGreaterThanOrEqualTo_ok g L WF r 0) as b _.
  { eapply rwf_mono, Wr; pose proof (rank_depth g L WF v); lia. }
  apply returns_Ok; destruct b; [right | apply constant_range; done].
  split; [| done]; eapply rwf_mono, Wr; lia.
Qed.

Lemma Converter_ok n from to v :
  unboxed from /\ unboxed to /\ (rank L v < n)%nat ->
  returns (UnboxedIntConverter_InferRange g from to v) (inferred n).
Proof.
  intros (Hf & Ht & Hv); unfold UnboxedIntConverter_InferRange.
  apply returns_assert; [destruct Hf as [-> | [-> | ->]]; done |].
  apply returns_assert; [destruct Ht as [-> | [-> | ->]]; done |].
  destruct (range (node g v)) as [r |] eqn:Hr; [| apply returns_Ok; left; done].
  destruct (stored_range v r Hr) as [Wr Fr]; case_match; [apply returns_Ok; left; done |].
  assert (rwf g L n r) as Wr' by (eapply rwf_mono, Wr; lia).
  apply returns_Ok; destruct to; try (right; done).
  destruct (Clamp_range_ok g L n r kRangeBoundaryInt32 Wr') as (? & ? & _); right; done.
Qed.

(** Every instruction that gets a range: the range is unknown or well formed below the
    definition, and only an operation that does not truncate sets its overflow flag. *)
Lemma InferRange_instr_ok d :
  typed d ->
  returns (InferRange_instr g d) (fun '(r, overflow) => inferred (rank L d) r /\
    (overflow <> None -> exists c k l r o, instr (node g d) = BinaryIntegerOpInstr c k l r o false)).
Proof.
  assert (forall m, returns m (inferred (rank L d)) ->
    returns (let* r := m in Ok (r, None)) (fun '(r, overflow) => inferred (rank L d) r /\
      ((overflow : option bool) <> None -> exists c k l r o, instr (node g d) = BinaryIntegerOpInstr c k l r o false)))
    as Hplain.
  { intros m Hm; eapply returns_bind; [apply Hm |]; intros r Hr; apply returns_Ok; done. }
  assert (forall r, inferred (rank L d) r ->
    returns (Ok (r, None)) (fun '(r, overflow) => inferred (rank L d) r /\
      ((overflow : option bool) <> None ->
       exists c k l r o, instr (node g d) = BinaryIntegerOpInstr c k l r o false))) as Hpure.
  { intros r Hr; apply returns_Ok; done. }
  assert (forall v o, (rank L v < rank L d)%nat -> input_range v o -> inferred (rank L d) (copy_range o)) as Hcopy.
  { intros v o Hv Ho; eapply inferred_mono, copy_range_ok, Ho; lia. }
  pose proof (rank_depth g L WF d) as Hd; unfold typed, InferRange_instr.
  destruct (instr (node g d)) as [v | v c | inputs | cls k l r o tr | i k imm f o | a i c | a i c
    | cmp l r tv fv | op v | rep v | v cid tr | v cid | v | from to v | ] eqn:Hi; intros Ht.
  - destruct Ht as (c & [-> | ->] & Hc); apply Hplain, returns_Ok, constant_range; done.
  - destruct Ht as [Wc Fc]; destruct (wf_constraint _ _ WF _ _ _ Hi) as (_ & (_ & Hv & _) & _).
    apply Hplain, Constraint_ok; auto with lia.
  - apply Hplain, Phi_InferRange_ok; [unfold IsPhi; rewrite Hi |]; done.
  - destruct Ht as (Hl & Hr & size & Hsize); unfold BinaryIntegerOp_InferRange.
    eapply (returns_mono _ (fun '(res, overflow) => inferred (rank L d) res /\ (overflow <> None -> tr = false))).
    { assert (forall d', input_range d' (range (node g d'))) as Hst by (intros d' ?; apply stored_range).
      destruct cls; apply (Helper_ok (rank L d) d k l tr _ _ size); auto with lia.
      all: first [apply (input_range_mono l); [done | apply GetSmiRange_ok]
                 | apply (input_range_mono r); [done | apply GetSmiRange_ok]
                 | apply (input_range_mono l); [done | apply Hst]
                 | apply (input_range_mono r); [done | apply Hst]]. }
    intros [res ov] [? Hov]; split; [done |]; intros Ho; rewrite (Hov Ho) in *; eauto 10.
  - apply Hplain, LoadField_ok; done.
  - apply Hplain, LoadIndexed_ok; done.
  - apply Hplain; by_member Ht; apply returns_Ok, constant_range; done.
  - destruct Ht; apply Hpure, constant_range; unfold Minimum, Maximum; case_match; done.
  - apply Hplain, Definition_InferRange_ok; done.
  - apply Hpure, (Hcopy v); [done |]; intros ?; apply stored_range.
  - apply Hpure; unfold UnboxInt32_InferRange; case_bool_decide; [| destruct (IsIntegerDefinition g v)].
    1-2: apply (Hcopy v); auto using GetSmiRange_ok, GetIntRange_ok.
    apply Full_range.
  - apply Hplain; unfold UnboxUint32_InferRange; case_bool_decide; [| destruct (IsIntegerDefinition g v)].
    1-2: apply (unbox_uint32_ok v); auto using GetSmiRange_ok, GetIntRange_ok.
    apply returns_Ok, constant_range; done.
  - apply Hpure; unfold UnboxInt64_InferRange; destruct (range (node g v)) as [r |] eqn:Hr.
    + right; destruct (stored_range v r Hr); split; [| done]; eapply rwf_mono; [| done]; lia.
    + case_match; [apply Full_range | left; done].
  - apply Hplain, Converter_ok; done.
  - apply Hplain, Definition_InferRange_ok; done.
Qed.
End Infer.
End Typed.

(** * Steps of the iteration *)
Section Steps.
Context `{Word} (L : Layout).

(** What a step leaves as it is: everything but ranges and overflow flags. *)
Definition same_graph (g g' : FlowGraph) : Prop := same_shape g g' /\ same_types g g'.

Lemma same_instr_trans i j k : same_instr i j -> same_instr j k -> same_instr i k.
Proof.
  destruct i, j; simpl; try (intros [= ]; subst; done); intros; simplify_eq/=; try done.
  destruct k; simpl in *; try done; intuition congruence.
Qed.

#[local] Instance same_graph_preorder : PreOrder same_graph.
Proof.
  split.
  - intros g; split; split; try done; intros d; apply same_instr_refl.
  - intros g1 g2 g3 [[Hl Hi] [Hd Ht]] [[Hl' Hi'] [Hd' Ht']]; split; split; try congruence; intros d.
    + eauto using same_instr_trans.
    + destruct (Ht d) as (? & ? & ? & ?), (Ht' d) as (? & ? & ? & ?); split_and!; congruence.
Qed.

Lemma flow_ok_same g g' : same_graph g g' -> flow_ok g L -> flow_ok g' L.
Proof.
  intros [[_ Hi] [Hd Ht]] FL; split.
  - intros d i k imm f o Hg; specialize (Hi d); rewrite Hg in Hi.
    destruct (instr (node g d)) eqn:Hg0; simplify_eq/=; eapply (flow_length _ _ FL); eauto.
  - intros p s Hp; unfold DominatesPhi; rewrite Hd.
    destruct (Ht p) as (_ & _ & _ & ->), (Ht s) as (_ & _ & _ & ->).
    apply (flow_phi _ _ FL); unfold IsPhi in *; specialize (Hi p).
    destruct (instr (node g' p)); try done; destruct (instr (node g p)); simplify_eq/=; done.
Qed.

Lemma typed_same g g' d : same_graph g g' -> typed g L d -> typed g' L d.
Proof.
  intros [Hs [_ Ht]]; destruct (Hs) as [_ Hi]; unfold typed, int_typed.
  specialize (Hi d); destruct (Ht d) as (-> & -> & -> & _).
  destruct (instr (node g d)), (instr (node g' d)); simplify_eq/=; try done.
  - intros [? ?]; split; [eapply same_shape_rwf |]; done.
  - destruct Hi as (-> & -> & -> & -> & ->); done.
Qed.

Lemma set_range_same g d r : (d < length (definitions g))%nat -> same_graph g (set_range g d r).
Proof.
  intros Hd; split; [apply set_range_shape |]; split; [done |]; intros d'.
  unfold set_range; rewrite node_set_node by done; case_decide; subst; done.
Qed.

Lemma set_can_overflow_ok g d c k l r o b :
  (d < length (definitions g))%nat -> instr (node g d) = BinaryIntegerOpInstr c k l r o false ->
  returns (set_can_overflow g d b) (fun g' => same_graph g g' /\
    forall d', range (node g' d') = range (node g d')).
Proof.
  intros Hd Hi; unfold set_can_overflow; rewrite Hi; apply returns_Ok.
  split; [split; split |]; try done; try (intros d'; rewrite node_set_node by done; case_decide; subst; done).
  - rewrite length_set_node; done.
  - intros d'; rewrite node_set_node by done; case_decide; subst; [| apply same_instr_refl].
    rewrite Hi; simpl; auto.
Qed.

Lemma same_range_wf g g' :
  same_graph g g' -> (forall d, range (node g' d) = range (node g d)) -> wf g L -> wf g' L.
Proof.
  intros [Hs _] Hr WF; eapply same_shape_wf; [done | done |]; intros d r; rewrite Hr; apply WF.
Qed.

Lemma Range_Equals_ok g r other :
  wf g L -> rwf g L (depth g) r -> returns (Ranges.Equals g r other) (fun _ => True).
Proof.
  intros WF Hr; destruct (rwf_known g L _ _ Hr) as [H1 H2]; unfold Ranges.Equals; rewrite H1, H2.
  destruct other as [other |]; [| apply returns_Ok; done].
  call (Equals_ok g L WF) as e _; destruct e; [| apply returns_Ok; done].
  eapply returns_mono; [apply (Equals_ok g L WF) | done].
Qed.

(** The widened range of a phi that has one. *)
Lemma widen_ok (op : JoinOperator) g d r old :
  op <> NARROW -> wf g L -> typed g L d -> range (node g d) = old ->
  rwf g L (rank L d) r -> Ranges.IsFinite r = true ->
  returns (match old with
           | Some old_range =>
             if negb (Ranges.IsUnknown old) && IsPhi g d then
               let* size := RangeSizeForPhi g d in
               match op with
               | WIDEN =>
                   let* lo := WidenMin g old_range r size in
                   let* hi := WidenMax g old_range r size in
                   Ok (make lo hi)
               | NARROW =>
                   let* lo := NarrowMin g old_range r size in
                   let* hi := NarrowMax g old_range r size in
                   Ok (make lo hi)
               | NONE => Ok r
               end
             else Ok r
           | None => Ok r
           end) (fun r => rwf g L (rank L d) r /\ Ranges.IsFinite r = true).
Proof.
  intros Hop WF Ht Hold Wr Fr; destruct old as [old |]; [| apply returns_Ok; done].
  destruct (negb _ && IsPhi g d) eqn:Hphi; [| apply returns_Ok; done].
  apply andb_true_iff in Hphi as [_ Hphi].
  destruct (RangeSizeForPhi_ok g d Hphi) as (size & ->); cbn [obind].
  { unfold typed, IsPhi in *; destruct (instr (node g d)); done. }
  destruct op; [apply returns_Ok; done | | done].
  destruct (wf_range _ _ WF _ _ Hold) as (Wo & Fo & _).
  eapply returns_mono; [apply (Widen_ok g L (rank L d) old r size); try done |].
  - pose proof (rank_depth g L WF d); lia.
  - intros res (? & ? & _); done.
Qed.

Lemma InferRange_ok op g d :
  op <> NARROW -> (forall d, live L d) -> wf g L -> flow_ok g L -> typed g L d ->
  (d < length (definitions g))%nat ->
  returns (InferRange op g d) (fun '(g', _) => wf g' L /\ same_graph g g').
Proof.
  intros Hop Hlive WF FL Ht Hd; unfold InferRange.
  call (InferRange_instr_ok g L WF FL) as [r overflow] (Hr & Ho); [done |].
  apply (returns_bind _ _ (fun g' => wf g' L /\ same_graph g g')).
  { destruct overflow as [b |]; [| apply returns_Ok; split; [done | reflexivity]].
    destruct Ho as (c & k & l & r' & o & Hi); [done |].
    eapply returns_mono; [eapply set_can_overflow_ok; eauto |]; intros g' [Hs Hrange].
    split; [eapply same_range_wf |]; eauto. }
  intros g' [WF' Hs].
  destruct Hr as [-> | [Wr Fr]]; [apply returns_Ok; done |].
  rewrite (proj1 (rwf_known g L _ _ Wr)).
  assert (rwf g' L (rank L d) r) as Wr' by (eapply same_shape_rwf, Wr; apply Hs).
  call (widen_ok op g' d r) as res (Wres & Fres); try done; [eapply typed_same; eauto |].
  call (Range_Equals_ok g') as same _; [done | eapply rwf_mono, Wres; pose proof (rank_depth g' L WF' d); lia |].
  destruct same; apply returns_Ok; [done |].
  assert (d < length (definitions g'))%nat as Hd' by (destruct Hs as [[<- _] _]; done).
  split; [| etransitivity; [done | apply set_range_same; done]].
  apply set_range_wf; auto; intros _; destruct res as [[] []]; split; simpl; auto.
Qed.

Lemma infer_all_ok op g ds changed :
  op <> NARROW -> (forall d, live L d) -> wf g L -> flow_ok g L ->
  (forall d, d ∈ ds -> typed g L d /\ (d < length (definitions g))%nat) ->
  returns (infer_all op g ds changed) (fun '(g', _) => wf g' L /\ same_graph g g').
Proof.
  intros Hop Hlive; revert g changed; induction ds as [| d ds IH]; intros g changed WF FL Hds; simpl.
  { apply returns_Ok; split; [done | reflexivity]. }
  destruct (Hds d) as [Ht Hd]; [left |].
  call (InferRange_ok op g d) as [g' c] (WF' & Hs); [done.. |].
  eapply returns_mono; [apply IH; auto |].
  - eapply flow_ok_same; eauto.
  - intros d' Hin; destruct (Hds d') as [? ?]; [right; done |].
    split; [eapply typed_same; eauto | destruct Hs as [[<- _] _]; done].
  - intros [g'' ?] [? ?]; split; [done | etransitivity; eauto].
Qed.

Lemma Iterate_ok op max_iterations g ds :
  op <> NARROW -> (forall d, live L d) -> wf g L -> flow_ok g L ->
  (forall d, d ∈ ds -> typed g L d /\ (d < length (definitions g))%nat) ->
  returns (Iterate op max_iterations g ds) (fun g' => wf g' L /\ same_graph g g').
Proof.
  intros Hop Hlive; revert g; induction max_iterations as [| n IH]; intros g WF FL Hds; simpl.
  all: call (infer_all_ok op g ds false) as [g' changed] (WF' & Hs); [done.. |].
  { apply returns_Ok; done. }
  destruct n as [| n]; [apply returns_Ok; done |]; destruct changed; [| apply returns_Ok; done].
  eapply returns_mono; [apply IH; [done | eapply flow_ok_same; eauto |] |].
  - intros d Hin; destruct (Hds d Hin) as [? ?].
    split; [eapply typed_same; eauto | destruct Hs as [[<- _] _]; done].
  - intros g'' [? ?]; split; [done | etransitivity; eauto].
Qed.
End Steps.

(** C13. The propagation and the widening phase of [InferRanges] end for every number of
    iterations: no assertion fails, no walk along symbols is endless, and no
    instruction is changed but for its overflow flag.  The graph they leave is well
    formed again: no range depends, through the symbols of its boundaries, on
    itself. *)
Theorem Iterate_preserves `{Word} L g ds max_iterations :
  (forall d, live L d) -> wf g L -> flow_ok g L ->
  (forall d, d ∈ ds -> typed g L d /\ (d < length (definitions g))%nat) ->
  returns (let* g := Iterate NONE 2 g ds in Iterate WIDEN max_iterations g ds) (fun g' =>
    wf g' L /\ same_graph g g' /\
    forall d s o r, range (node g' d) = Some r -> min_ r = Symbol s o \/ max_ r = Symbol s o ->
      (rank L s < rank L d)%nat).
Proof.
  intros Hlive WF FL Hds.
  call (Iterate_ok L NONE 2 g ds) as g1 (WF1 & Hs1); [done.. |].
  eapply returns_mono; [apply (Iterate_ok L WIDEN max_iterations g1 ds); try done |].
  - eapply flow_ok_same; eauto.
  - intros d Hin; destruct (Hds d Hin); split; [eapply typed_same; eauto |].
    destruct Hs1 as [[<- _] _]; done.
  - intros g2 [WF2 Hs2]; split_and!; [done | |].
    + apply (PreOrder_Transitive (R := same_graph) (PreOrder := same_graph_preorder) _ _ _ Hs1 Hs2).
    + intros d s o r Hr [E | E]; destruct (wf_range _ _ WF2 _ _ Hr) as ([W1 W2] & _);
        [rewrite E in W1; apply W1 | rewrite E in W2; apply W2].
Qed.
