(* ===== verification/RangeWitnesses.v ===== *)
(** Concrete flow graphs: runs on which the theorems on the range analysis apply, and
    runs on which the analysis goes wrong. *)
From stdpp Require Import base list numbers.
From Stdlib Require Import ZArith Lia.
From S2P Require Import Prelude Utils UtilsProofs Locations FlowGraph Ranges RangeAnalysis RangeProofs.
From S2P Require Import RangeOpProofs RangeAnalysisProofs RangeInferProofs RangeIterateProofs.
Import RangeBoundary.
Import Range(min_, max_, make).
Import Boundary.
#[local] Open Scope Z_scope.
#[local] Existing Instance word64.

Definition smi_node (i : Instr) (blk : nat) (r : option Range.t) : Node :=
  mkNode i kSmiCid true kTagged blk r.

Definition parameter : Instr := OtherInstr 1 [] 0 false false.

Lemma smi_0 : smi 0.
Proof. pose proof smi_bounds; unfold smi; lia. Qed.

(** * A merge that loses a check

<<
    n = a.length;
    i = 0;
    if (y > 0 && y < n) i = y;
    a[i]
>>
    Definition 0 is [n], 1 is [y], 2 and 3 are [y] constrained by the two conditions,
    4 is the constant 0, 5 is the phi of 4 and 3, and 6 is [a].  Block 0 holds the
    tests of the function entry, block 1 and 2 are the successors where they hold,
    block 3 is the merge. *)
Definition merge_graph : FlowGraph := mkGraph [
  smi_node (LoadFieldInstr 6 kObjectArrayLength true None 16) 0 None;
  smi_node parameter 0 None;
  smi_node (ConstraintInstr 1 (make (Constant 1) MaxSmi)) 1 None;
  smi_node (ConstraintInstr 2 (make MinSmi (Symbol 0 (-1)))) 2 None;
  smi_node (ConstantInstr (SmiObject 0)) 0 None;
  smi_node (PhiInstr [4; 3]%nat) 3 None;
  mkNode parameter kDynamicCid false kTagged 0 None ]
  (fun a b => Nat.eqb a 0 || Nat.eqb a b || (Nat.eqb a 1 && Nat.eqb b 2)).

(** The definitions that are evaluated when [y > 0] fails. *)
Definition merge_layout : Layout := {|
  rank := fun d => nth d [0; 1; 2; 3; 0; 6]%nat 0%nat;
  live := fun d => d ∈ [0; 1; 4; 5]%nat;
  smi_defn := fun d => (d < 6)%nat |}.

(** C17. [Join] loses values of a range that is empty at run time: in the merge above, the
    analysis gives the phi the range from 0 to [n - 1] and removes the check of the
    index [i]; but when [a] is empty and [y] is 0, where the merge takes the constant
    0, the values agree with the graph and the check would fail. *)
Theorem Join_drops_values :
  let rho := fun _ : defn => 0 in
  ConstrainValueAfterBranch merge_graph Token.kGT 1 4 0
    = Ok (make (Constant 1) MaxSmi, make MinSmi (Constant 0)) /\
  ConstrainValueAfterBranch merge_graph Token.kLT 2 0 0
    = Ok (make MinSmi (Symbol 0 (-1)), make (Symbol 0 0) MaxSmi) /\
  (exists g, InferRanges 10 merge_graph [0; 4; 1; 2; 3; 5]%nat = Ok g /\
     range (node g 5) = Some (make (Constant 0) (Symbol 0 (-1))) /\
     forall gen TryGeneralize, exists g',
       EliminateRedundantBoundsChecks gen TryGeneralize true g [(0, 5)]%nat
       = Ok (g', [((0, 5), Redundant)]%nat)) /\
  agrees merge_graph merge_layout rho /\
  compare Token.kGT (rho 1%nat) 0 = Some false /\ rho 5%nat = rho 4%nat /\
  ~ (0 <= rho 5%nat < rho 0%nat).
Proof.
  split_and!; try done; [| | lia].
  - destruct (InferRanges 10 merge_graph [0; 4; 1; 2; 3; 5]%nat) as [g |] eqn:Hg; vm_compute in Hg;
      [injection Hg as <- | done].
    eexists; split_and!; [done | done |]; intros gen TryGeneralize; eexists; vm_compute; done.
  - split; [intros; apply smi_0 | ..]; intros d.
    5: intros b Hd Hb; by_member Hd; by_member Hb; done.
    all: intros *; intros Hd; by_member Hd; simpl; intros; simplify_eq/=; lia.
Qed.

(** * Ranges that the transfer functions get wrong *)

(** Two transfer functions lose values.  The absolute value of [kMinInt64] wraps, so
    that [Mul] infers the constant 0 for a product of a value from [kMinInt64] to 0
    and one from 0 to 1; and [Shr] shifts its bounds by the largest shift count, which
    the machine takes modulo 64, so that for counts from 0 to 64 it infers that the
    bounds stay as they are. *)
Theorem BinaryOp_unsound_bounds :
  let g := mkGraph [] (fun _ _ => false) in
  let mul_left := make (Constant kMinInt64) (Constant 0) in
  let mul_right := make (Constant 0) (Constant 1) in
  let shr_left := make (Constant 5) (Constant 10) in
  let shr_right := make (Constant 0) (Constant 64) in
  (exists res, Ranges.BinaryOp g Token.kMUL mul_left mul_right None = Ok res /\
     contains (fun _ => 0) mul_left kMinInt64 /\ contains (fun _ => 0) mul_right 1 /\
     ~ contains (fun _ => 0) res (binary_value Token.kMUL kMinInt64 1)) /\
  (exists res, Ranges.BinaryOp g Token.kSHR shr_left shr_right None = Ok res /\
     contains (fun _ => 0) shr_left 5 /\ contains (fun _ => 0) shr_right 1 /\
     ~ contains (fun _ => 0) res (binary_value Token.kSHR 5 1)).
Proof.
  split; eexists; (split; [vm_compute; reflexivity |]); unfold contains; simpl.
  - unfold kMinInt64; lia.
  - change (Z.shiftr 5 1) with 2; lia.
Qed.

(** * A check that is redundant

<<
    n = a.length;
    if (y < n) { if (y >= 0) { i = y } else { throw } } else { throw }
    a[i]; a[i + 1]
>>
    Definition 0 is [n], 1 is [y], 2 and 3 are [y] constrained, 4 is the constant 1,
    5 is [i + 1] and 6 is [i], the phi of 3. *)
Definition check_graph : FlowGraph := mkGraph [
  smi_node (LoadFieldInstr 7 kObjectArrayLength true None 16) 0
    (Some (make (Constant 0) (Constant Array_kMaxElements)));
  smi_node parameter 0 (Some (Ranges.Full kRangeBoundarySmi));
  smi_node (ConstraintInstr 1 (make MinSmi (Symbol 0 (-1)))) 1 (Some (make MinSmi (Symbol 0 (-1))));
  smi_node (ConstraintInstr 2 (make (Constant 0) MaxSmi)) 2 (Some (make (Constant 0) (Symbol 0 (-1))));
  smi_node (ConstantInstr (SmiObject 1)) 0 None;
  smi_node (BinaryIntegerOpInstr BinarySmiOp Token.kADD 6 4 true false) 3
    (Some (make (Constant 1) (Symbol 0 0)));
  smi_node (PhiInstr [3]%nat) 3 (Some (make (Constant 0) (Symbol 0 (-1)))) ]
  (fun a b => Nat.leb a b).

Definition check_layout : Layout := {|
  rank := fun d => nth d [0; 1; 2; 3; 0; 6; 5]%nat 0%nat;
  live := fun d => (d < 7)%nat;
  smi_defn := fun d => (d < 7)%nat |}.

(** The values of a run with [n = 10] and [y = 9]. *)
Definition check_rho (d : defn) : Z := nth d [10; 9; 9; 9; 1; 10; 9] 0.

(** Case analysis on the first definitions of a graph. *)
Ltac by_index n d :=
  lazymatch n with
  | O => idtac
  | S ?m => destruct d as [| d]; [| by_index m d]
  end.

(** A boundary of a concrete graph is well formed. *)
Ltac bounds_ok :=
  first [apply in_s_64; vm_compute; intuition congruence
        | split_and!; [lia | done | unfold in_s; lia | lia]].

Lemma check_smi x : -10 <= x <= 10 -> smi x.
Proof. unfold smi, kSmiMin, kSmiMax, kSmiBits; simpl; lia. Qed.

Lemma check_value d : smi_value check_graph check_layout d <-> (d < 7)%nat.
Proof.
  split; [intros [? _]; done |]; intros Hd; split; [done |].
  unfold FlowGraph.IsConstant; by_index 7%nat d; simpl in *; try done; try lia.
  exists 1; split; [done | apply check_smi; lia].
Qed.

Lemma check_wf : wf check_graph check_layout.
Proof.
  split.
  - intros d; by_index 7%nat d; simpl; try lia; destruct d; simpl; lia.
  - intros d r; by_index 7%nat d; simpl; intros; simplify_eq/=; try done.
    all: split; [split; simpl; bounds_ok |]; split; [done |].
    all: intros _; split; simpl; lia.
  - intros d v c; by_index 7%nat d; simpl; intros; simplify_eq/=.
    all: split_and!; [lia | split_and!; simpl; [lia | lia | lia | done] | done].
  - intros d op l r o tr; by_index 7%nat d; simpl; intros; simplify_eq/=.
    split_and!; [| | done].
    + split_and!; simpl; [lia | lia | lia | done].
    + split_and!; simpl; [lia | lia | lia |]; intros _; exists 1; split; [done | apply check_smi; lia].
Qed.

Lemma check_agrees : agrees check_graph check_layout check_rho.
Proof.
  split.
  - intros d Hd _; apply check_smi; unfold check_rho; by_index 7%nat d; simpl in *; lia.
  - intros d v Hd; by_index 7%nat d; simpl; intros; simplify_eq/=; done.
  - intros d v c Hd; by_index 7%nat d; simpl; intros; simplify_eq/=; done.
  - intros d l r o tr Hd; by_index 7%nat d; simpl; intros; simplify_eq/=; done.
  - intros d l r o tr Hd; by_index 7%nat d; simpl; intros; simplify_eq/=; done.
  - intros a b Ha Hb; by_index 7%nat a; by_index 7%nat b; simpl in *; try done; lia.
  - intros d r Hd; by_index 7%nat d; simpl; intros; simplify_eq/=; split; vm_compute; congruence.
Qed.

(** A generalizer that gives up, as the code does when it finds no upper bound for
    the index. *)
Definition idle_generalizer (g : FlowGraph) (check : defn * defn) (array_length : t)
    : outcome (FlowGraph * bool) := Ok (g, false).

#[export] Instance idle_generalizer_ok L : Generalizer L idle_generalizer.
Proof. intros g check array_length WF; apply returns_Ok, refines_refl, WF. Qed.


Lemma ConstrainValueAfterBranch_sound_witness :
  ConstrainValueAfterBranch check_graph Token.kLT 1 0 0
    = Ok (make MinSmi (Symbol 0 (-1)), make (Symbol 0 0) MaxSmi)
  /\ contains check_rho (make MinSmi (Symbol 0 (-1))) (check_rho 1).
Proof.
  destruct (ConstrainValueAfterBranch_sound check_graph check_layout 2 Token.kLT 1 0 0 check_wf)
    as ([t f] & Hrun & _ & _ & Hc); [done | lia | apply check_value; lia | apply check_value; lia
    | simpl; lia | simpl; lia |].
  assert (t = make MinSmi (Symbol 0 (-1)) /\ f = make (Symbol 0 0) MaxSmi) as [-> ->].
  { vm_compute in Hrun; injection Hrun as <- <-; done. }
  split; [exact Hrun |].
  destruct Hc as (_ & _ & Hc); [simpl; lia | simpl; lia |].
  apply (Hc check_rho check_agrees); reflexivity.
Defined.

Definition index_range : Range.t := make (Constant 0) (Symbol 0 (-1)).

Lemma check_range n :
  (0 < n)%nat -> rwf check_graph check_layout n index_range /\ rlive check_layout index_range.
Proof. intros Hn; split; split; simpl; first [bounds_ok | lia]. Qed.

Lemma constant_range_live L lo hi : rlive L (make (Constant lo) (Constant hi)).
Proof. split; exact I. Qed.

Lemma Constraint_InferRange_sound_witness :
  returns (Constraint_InferRange check_graph 1 index_range) (fun res =>
    res <> unknown_range /\ contains check_rho res (check_rho 1)).
Proof.
  destruct (check_range 2) as [Hw Hl]; [lia |].
  destruct (Constraint_InferRange_sound check_graph check_layout 2 1 (Ranges.Full kRangeBoundarySmi)
              index_range check_wf) as (res & Hrun & _ & Hc);
    [vm_compute; lia | done | split; simpl; bounds_ok | exact Hw | done | done |].
  exists res; split; [exact Hrun |].
  destruct (Hc (constant_range_live _ _ _) Hl check_rho (check_rho 1) check_agrees) as (? & _ & ?);
    [apply check_smi; unfold check_rho; simpl; lia | split; vm_compute; congruence | split; vm_compute; congruence |].
  split; assumption.
Defined.

Lemma InferRangeHelper_sound_witness :
  exists res, InferRangeHelper check_graph 5 Token.kADD 6 false (Some index_range)
                (Some (make (Constant 1) (Constant 1))) = Ok (res, Some false)
              /\ in_size kRangeBoundarySmi (binary_value Token.kADD 9 1).
Proof.
  destruct (check_range 6) as [Hw Hl]; [lia |].
  destruct (InferRangeHelper_sound check_graph check_layout 6 5 Token.kADD 6 false index_range
              (make (Constant 1) (Constant 1)) kRangeBoundarySmi check_wf)
    as ([res overflow] & Hrun & _ & _ & _ & Hc);
    [vm_compute; lia | exact Hw | split; simpl; bounds_ok | done | done
    | split; simpl; lia | done |].
  assert (overflow = Some false) as -> by (vm_compute in Hrun; injection Hrun as _ <-; reflexivity).
  exists res; split; [exact Hrun |].
  destruct (Hc Hl (constant_range_live _ _ _) ltac:(simpl; lia)) as [_ Hv].
  destruct (Hv check_rho 9 1 check_agrees) as [Hsize _]; [unfold in_s; lia | unfold in_s; lia | done
    | split; vm_compute; congruence | split; vm_compute; congruence | done
    | intros [|]; done | apply Hsize; reflexivity].
Defined.

(** The boundaries of a concrete range are inside the size. *)
Ltac bounded_ok :=
  eexists _, _; split; [vm_compute; reflexivity | split; [vm_compute; reflexivity | vm_compute; intuition congruence]].

Lemma Join_sound_witness :
  returns (Join check_graph index_range 4 (Some (make (Constant 1) (Constant 1))) kRangeBoundarySmi)
    (fun res => contains check_rho res 9 /\ contains check_rho res (check_rho 4)).
Proof.
  destruct (check_range 6) as [Hw Hl]; [lia |].
  destruct (Join_sound check_graph check_layout 6 index_range 4 (make (Constant 1) (Constant 1))
              kRangeBoundarySmi check_wf) as (res & Hrun & _ & _ & Hc);
    [vm_compute; lia | simpl; lia | exact Hw | split; simpl; bounds_ok | done | done |].
  exists res; split; [exact Hrun |].
  destruct (Hc check_rho check_agrees) as [_ Hv].
  { split.
    - split_and!; [exact Hl | apply constant_range_live | simpl; lia].
    - split_and!; [bounded_ok.. | intros _; bounded_ok].
    - exists 9; split; [apply check_smi; lia | split; vm_compute; congruence].
    - split; [apply check_smi; unfold check_rho; simpl; lia | split; vm_compute; congruence]. }
  split; [apply Hv; [apply check_smi; lia | left; split; vm_compute; congruence] |].
  apply Hv; [apply check_smi; unfold check_rho; simpl; lia | right; reflexivity].
Defined.

Lemma Widen_sound_witness :
  returns (let* lo := WidenMin check_graph index_range (make (Constant 0) (Symbol 0 0)) kRangeBoundarySmi in
           let* hi := WidenMax check_graph index_range (make (Constant 0) (Symbol 0 0)) kRangeBoundarySmi in
           Ok (make lo hi)) (fun res => contains check_rho res 10).
Proof.
  destruct (check_range 6) as [Hw Hl]; [lia |].
  destruct (Widen_sound check_graph check_layout 6 index_range (make (Constant 0) (Symbol 0 0))
              kRangeBoundarySmi check_wf) as (res & Hrun & _ & _ & _ & _ & Hc);
    [vm_compute; lia | exact Hw | split; simpl; bounds_ok | done |].
  exists res; split; [exact Hrun |].
  destruct Hc as [_ Hc]; [exact Hl | split; simpl; lia |].
  apply Hc; [bounded_ok | bounded_ok | apply check_agrees | apply check_smi; lia |].
  right; split; vm_compute; congruence.
Defined.

(** The merge, before any of its definitions has a range. *)
Definition static_layout : Layout := {|
  rank := rank merge_layout; live := fun _ => True; smi_defn := smi_defn merge_layout |}.

Lemma merge_wf : wf merge_graph static_layout.
Proof.
  split.
  - intros d; by_index 7%nat d; simpl; try lia; destruct d; simpl; lia.
  - intros d r; by_index 7%nat d; simpl; intros; simplify_eq/=.
  - intros d v c; by_index 7%nat d; simpl; intros; simplify_eq/=.
    all: split_and!; [lia | split_and!; simpl; [lia | lia | done | done] | done].
  - intros d op l r o tr; by_index 7%nat d; simpl; intros; simplify_eq/=.
Qed.

Lemma merge_flow : flow_ok merge_graph static_layout.
Proof.
  split.
  - intros d i k imm f o; by_index 7%nat d; simpl; intros; simplify_eq/=; lia.
  - intros p s; by_index 7%nat p; simpl; try done; intros _.
    by_index 7%nat s; simpl; try done; try lia; destruct s; simpl; lia.
Qed.

Lemma Iterate_preserves_witness :
  returns (let* g := Iterate NONE 2 merge_graph [0; 4; 1; 2; 3; 5]%nat in
           Iterate WIDEN 10 g [0; 4; 1; 2; 3; 5]%nat) (fun g' => wf g' static_layout).
Proof.
  destruct (Iterate_preserves static_layout merge_graph [0; 4; 1; 2; 3; 5]%nat 10)
    as (g' & Hrun & Hwf & _); [done | apply merge_wf | apply merge_flow | |].
  - intros d Hd; by_member Hd; (split; [| simpl; lia]).
    all: first [left; done | split; [split; simpl; bounds_ok | done] | exists 0; split; [auto | done]
               | left; reflexivity].
  - exists g'; split; [exact Hrun | exact Hwf].
Defined.
